(* ===== verification/_CoqProject ===== *)
-Q . S2P
Prelude.v
IpcEncoder.v
IpcDecoder.v
IpcCoders.v
IpcMessages.v
IpcSafety.v
IpcTransport.v
IpcOutput.v
IpcConnection.v
IpcConnectionProps.v
IpcConnectionDepth.v
IpcConnectionLive.v
IpcConnectionWait.v
IpcConnectionAsync.v
CList.v
Fetcher.v
CLib.v
XdgInt.v
XdgTables.v
XdgGlob.v
XdgMagic.v
WtfBuffer.v
WtfVector.v
WtfDeque.v
WtfChecked.v
WtfBits.v
WtfBitmap.v
WtfBitmapOps.v
WtfString.v
WtfJson.v
CmdFilters.v
CmdFilterProps.v
CmdTask.v
CmdTaskProps.v
WtfHash.v
WtfHashOps.v
WtfHashMap.v
WtfBase64.v
WtfBase64Props.v
HttpNames.v
HttpHeaders.v
HttpHeaderProps.v
HttpHeaderCoders.v
HttpParsers.v
HttpContentType.v
HttpContentTypeProps.v
HttpParserProps.v
HttpRange.v
HttpCache.v
HttpCacheProps.v
HttpResponse.v
HttpValidation.v
HttpResponseProps.v
HttpSanitizeProps.v
HttpValidationProps.v
HttpResponseCoders.v
WtfDouble.v
WtfDates.v
WtfDateProps.v
HttpDateProps.v
