(* ===== verification/Prelude.v ===== *)
(** * PurC Fetcher: a verification library

    PurC Fetcher loads data for the PurC runtime in a process of its own.  A
    client links the C library of [Source/capi], which either answers requests
    itself (local backend) or starts the fetcher process and talks to it over a
    Unix socket with the message system of [Source/PurCFetcher/ipc].  The fetcher
    process loads from HTTP, files, commands and databases
    ([Source/PurCFetcher/network]).  Both sides are built on the containers and
    utilities of [Source/WTF]; media types are found with
    [Source/third-party/xdgmime].

    The library models the parts of this program listed below as Rocq functions
    and step relations, keeps machine integers at their width and proves what
    makes the parts correct.  Paths below are relative to [src/Source]; every
    file of the library opens with the conventions of its own model.

    ** Conventions

    - [Prelude]: machine integers ([wrap], [swrap]), C arrays read at an integer
      index, the monad [res] (undefined behaviour, the end of the process and a
      loop without end within the fuel are values of the result type, so a theorem
      that an operation returns [Ok] says that it performs no invalid access and
      ends), list lemmas and the tactics of the library.
    - An operation of the source is a function of the same name.  Errors and
      early returns are values.  Code outside the repository (the kernel's
      sockets, the allocation of shared memory, [fnmatch], [qsort], user callbacks) is a parameter
      or an input of a step, never a made-up definition.

    ** Messages between the processes

    - [IpcEncoder] and [IpcDecoder] (PurCFetcher/ipc/Encoder, Decoder,
      MessageFlags.h): the growing, aligned buffer of a message, its header and
      flags, and the reader whose null position is the sticky error state.
    - [IpcCoders] (ArgumentCoders): a class of coders, one instance per type
      or template, with the law that decoding inverts encoding; the laws of
      compound coders come from their parts.
    - [IpcMessages]: whole messages.  [ipc_message_roundtrip],
      [message_flags_roundtrip] and [wrap_unwrap_roundtrip] are the round trips;
      [create_accepts_unknown_name] records
      that the header check misses message names outside the enumeration.
    - [IpcSafety]: decoding whatever arrives.  [ipc_decode_safe] and
      [array_count_checked] hold for every received byte string, well formed or
      not, and every type built without [bool]; [bool_byte_undefined] shows why a
      [bool] is excluded: its byte is loaded without a check.
    - [IpcTransport] (ipc/unix/ConnectionUnix.cpp, UnixMessage.h,
      auxiliary/unix/SharedMemoryUnix.cpp): packets with descriptors, and bodies
      copied into a store of shared files.  [transport_delivers] shows that the
      receiver gets the messages sent, in order;
      [value_through_socket] composes it with the coders;
      [transport_receive_safe] holds for any peer: the loads of the [bool] members
      of a received header are the only ones that can be undefined.
    - [IpcOutput]: the queue of outgoing messages, the pending message and the
      write monitor; messages leave in order ([outgoing_messages_in_order]) and
      all leave once the socket accepts data ([outgoing_messages_all_sent]).
    - [IpcConnection] (ipc/Connection): a machine of two threads with nested
      dispatch, sync replies, waits, throttling and closing.  [IpcConnectionProps]
      shows that messages are neither lost nor duplicated, [IpcConnectionDepth]
      that counters and pending replies match the call stack, [IpcConnectionLive]
      that no message stays behind when the main thread is idle,
      [IpcConnectionWait] which waits are woken, [IpcConnectionAsync] that an
      async handler is called at most once.  Clients are arbitrary: the labels of
      the machine are all calls they may make.

    ** Running commands (PurCFetcher/network, WTF/wtf)

    - [WtfString] (ASCIICType, text/StringCommon.h, StringImpl, WTFString,
      StringToIntegerConversion.h, IntegerToStringConversion.h): strings as
      lists of code units; searching, splitting, stripping and decimal integers
      against definitions on lists.
    - [WtfJson] (JSONValues): JSON values, their text and the parser;
      [json_roundtrip] and [object_members].
    - [CmdFilters] (network/filter): the filters that select and split the lines
      of a command, the formats, and the manager that chains them;
      [CmdFilterProps] shows what each of them computes, and for which
      parameters it ends the process, accesses memory outside of a vector or
      does not end.
    - [CmdTask] (NetworkDataTaskLcmd): from the URL to the command and from its
      output to the response; [CmdTaskProps] relates the query, the filter text
      and the command line to what they encode, and the response to the outcome.

    ** The C interface

    - [CList] (PurCFetcher/include/private/list.h): the kernel-style intrusive
      list over a store of pointers, each assignment one by one; a separation
      style predicate [ring] and the refinement of every operation and of the
      traversal macros to lists.
    - [Fetcher]: the facade fetcher.c over any table of functions, the local
      backend fetcher-local.cpp, instances and features, debug output and the
      vasprintf port.

    ** Containers and arithmetic (WTF/wtf)

    - [WtfBuffer], [WtfVector] (Vector.h) and [WtfDeque] (Deque.h): buffers of
      raw and live slots; the growth policy, aliasing arguments and circular
      moves; the operations of a vector or deque refine lists, and
      [vector_own_arguments_freed] and its neighbours record the aliasing
      arguments that the code does not survive.
    - [WtfHash], [WtfHashOps] and [WtfHashMap] (HashTable.h, HashMap.h): the
      open-addressing table with its probes, deleted buckets, growth and
      shrinking.  Any sequence of operations on a map refines a finite map
      ([hash_map_implements_map]): the probe loops end and entries stay reachable.
    - [WtfChecked] (CheckedArithmetic.h): both implementations of checked
      arithmetic, for all integer types, give the exact result or overflow.
    - [WtfBits] (StdLibExtras.h, MathExtras.h), [WtfBitmap], [WtfBitmapOps]
      (Bitmap.h, Atomics.h): bit tricks against their specification, bitmaps as
      finite sets, and the compare-and-swap operations of any number of threads:
      bit operations are atomic, filters word by word ([concurrent_calls_atomic]).

    - [WtfBase64] and [WtfBase64Props] (text/Base64.cpp): the encoder and the
      decoder that regroups in place; [base64_roundtrip], and
      [base64_decode_equivalent] with a decoder on lists, for every text.

    ** HTTP (PurCFetcher/network, PurCFetcher/auxiliary)

    - [HttpNames] (HTTPHeaderNames): the perfect hash of header names finds
      exactly the names of its table, in any case ([header_name_lookup_exact]).
    - [HttpHeaders], [HttpHeaderProps] (HTTPHeaderMap, HTTPHeaderField): a
      header map refines a finite map on names without case
      ([header_map_implements_map]); [null_values_confuse_maps] and
      [field_value_unchecked_after_token] record where the code is looser than
      its comments.  [HttpHeaderCoders]: the iterator, and header maps as
      arguments of messages ([header_map_transfers]), proved against the class
      of coders of [IpcCoders].
    - [HttpParsers], [HttpParserProps] (HTTPParsers): predicates on header
      values, request lines, header lines and lists of tokens.
      [user_agent_equivalent] compares the recursive scanner of comments with a
      grammar, [allow_list_splits] the list parser with splitting at commas.
    - [HttpContentType], [HttpContentTypeProps] (ParsedContentType): the parser
      of media types ends on every text in both modes ([content_type_total]) and
      reads back what [serialize] writes in the sniffing mode
      ([content_type_roundtrip]), not in the other ([rfc2045_not_kept]).
    - [HttpRange] (ParsedContentRange): Content-Range values; the ordered ranges
      are accepted, and no others but for the mark of an unknown length
      ([content_range_exact]); they are written back ([content_range_roundtrip]).
    - [HttpCache], [HttpCacheProps] (CacheValidation, first half): times as
      doubles, the parser of Cache-Control against a definition without
      positions ([cache_header_equivalent]) and what the directives mean
      ([cache_control_directives]).
    - [HttpResponse], [HttpResponseProps], [HttpSanitizeProps]
      (ResourceResponseBase): a response with the values it keeps from its
      headers.  [response_answers_from_headers] shows that these values, but for the
      age, never differ from the headers while headers are set and added one by one;
      [age_survives_bad_header] and [replaced_headers_keep_directives] show where
      they do differ.  [sanitize_keeps_exactly] says which headers a web process
      may see.  URLs, the parser of dates and the order of hash sets are the class
      [Platform].
    - [HttpValidation], [HttpValidationProps] (CacheValidation, second half):
      age and freshness, chains of redirections ([redirect_chain_reuse]), the
      update by a validating response ([revalidation_merges]) and Vary
      ([vary_decides_reuse]).  The clock and the cookies are arguments.
    - [HttpResponseCoders] (ResourceResponseBase.h, soup/ResourceResponse.h,
      NetworkLoadMetrics.h, WebCoreArgumentCodersSoup.cpp): a response in a
      message, with its metrics and certificates ([response_transfers]).
    - [WtfDouble], [WtfDates], [WtfDateProps] (DateMath): arithmetic of doubles
      on integers is exact up to 53 bits; the parser of dates reads the formats of
      HTTP ([http_date_parses]) and what [makeRFC2822DateString] prints
      ([rfc2822_roundtrip]) as the time that a count of the days year by year
      gives.  The offset of the local time zone is the class [LocalTime].
    - [HttpDateProps]: the platform of [HttpResponse] with this parser; lifetimes
      and ages that come from Date and Expires headers are exact
      ([freshness_exact]).

    ** Media types (third-party/xdgmime/src)

    - [CLib]: the C library functions used; [XdgInt] (xdgmimeint.c), [XdgTables]
      (xdgmimealias.c, xdgmimeicon.c, xdgmimeparent.c), [XdgGlob]
      (xdgmimeglob.c) and [XdgMagic] (xdgmimemagic.c): reading of the tables and
      the correctness of the lookups against definitions on lists of entries.

    ** Fuel and bounds

    Loops whose termination is not structural carry fuel: the number of entries
    of a list for the traversals of [CList], the length of the unread input for
    the parsers of xdgmime, the number of words for bitmaps, the number of buckets
    for the probes of hash tables, the length of the input and one for the HTTP
    parsers.  The theorems are
    stated for all sufficient amounts and show that a result is produced; where
    the code can really loop or stop (a refused message, a closed connection),
    a theorem exhibits the run.  Sizes are 64 bits wide as on the platforms of
    the build; [malloc] is taken to succeed where the code does not test it or
    ends the process.  Counters are kept at their width, so statements about runs
    carry the bound under which they cannot wrap: 2^28 operations on a hash map,
    2^31 on a header map, texts of at most 2^31 - 1 characters, inputs up to the
    limit the base64 encoder tests itself.

    ** Not modelled

    - Code that only calls the system or a library: processes and their launch
      (capi/capi/launcher, fetcher-process.cpp), sockets and streams of libsoup
      (network/soup), SQLite (database), files, DNS, timers and run loops.
    - The HTTP cache on disk, cookies, sessions and loaders of network/, most of
      which drive libsoup and the file system.
    - URLs, local time zones, symbols and memory of WTF and bmalloc; the exact rounding of
      decimal numbers is a parameter of the JSON parser.
    - Generated message tables (messages/), the gtest copy, samples and scripts.
    - The binary cache of xdgmime (xdgmimecache.c) and its front end.

    Next in the plan: the URL parser (URLParser.cpp), balanced trees and bit vectors (RedBlackTree.h, BitVector.h),
    the database task, the client session (fetcher-session.cpp) and the binary
    cache of xdgmime (xdgmimecache.c). *)

From stdpp Require Export base tactics option numbers list.
From stdpp Require Import strings.
From Stdlib Require Export ZArith Lia.
From Stdlib Require Ascii String.

Open Scope Z_scope.

(** ** Notations *)

Declare Scope cfetch_scope.
Delimit Scope cfetch_scope with cf.

(** [l .[ i ]] reads a C array at a Z index: [None] is an access outside the
    object, which the C code must never perform. *)
Definition zlookup {A} (l : list A) (i : Z) : option A :=
  if 0 <=? i then l !! Z.to_nat i else None.

Notation "l .[ i ]" := (zlookup l i) (at level 1, left associativity, format "l .[ i ]") : cfetch_scope.

(** Length of a list as a Z. *)
Definition zlen {A} (l : list A) : Z := Z.of_nat (length l).

(** ** Machine integers *)

(** Conversion to an unsigned type of [w] bits (C 6.3.1.3p2). *)
Definition wrap (w z : Z) : Z := z mod 2 ^ w.

(** Conversion to a signed two's complement type of [w] bits. *)
Definition swrap (w z : Z) : Z := (z + 2 ^ (w - 1)) mod 2 ^ w - 2 ^ (w - 1).

Abbreviation u8 := (wrap 8).
Abbreviation u16 := (wrap 16).
Abbreviation u32 := (wrap 32).
Abbreviation u64 := (wrap 64).
Abbreviation i8 := (swrap 8).
Abbreviation i32 := (swrap 32).

Definition SIZE_MAX : Z := 2 ^ 64 - 1.
Definition UINT32_MAX : Z := 2 ^ 32 - 1.
Definition INT_MAX : Z := 2 ^ 31 - 1.
Definition INT_MIN : Z := - 2 ^ 31.

(** [z] is a value of an unsigned type of [w] bits. *)
Definition in_range (w z : Z) : Prop := 0 <= z < 2 ^ w.

#[global] Instance in_range_dec w z : Decision (in_range w z).
Proof. unfold in_range. apply _. Defined.

(** ** Automation *)

(** Turn boolean comparisons of Z into propositions. *)
Ltac zb :=
  repeat match goal with
  | H : (_ && _)%bool = true |- _ => apply andb_true_iff in H; destruct H
  | H : (_ || _)%bool = false |- _ => apply orb_false_iff in H; destruct H
  | H : negb _ = true |- _ => apply negb_true_iff in H
  | H : negb _ = false |- _ => apply negb_false_iff in H
  | H : (_ =? _) = true |- _ => apply Z.eqb_eq in H
  | H : (_ =? _) = false |- _ => apply Z.eqb_neq in H
  | H : (_ <? _) = true |- _ => apply Z.ltb_lt in H
  | H : (_ <? _) = false |- _ => apply Z.ltb_ge in H
  | H : (_ <=? _) = true |- _ => apply Z.leb_le in H
  | H : (_ <=? _) = false |- _ => apply Z.leb_gt in H
  | H : (_ >=? _) = true |- _ => rewrite Z.geb_leb in H
  | H : (_ >=? _) = false |- _ => rewrite Z.geb_leb in H
  | H : (_ >? _) = true |- _ => rewrite Z.gtb_ltb in H
  | H : (_ >? _) = false |- _ => rewrite Z.gtb_ltb in H
  end.

(** Case analysis on the first Z comparison of the goal. *)
Ltac zcase :=
  match goal with
  | |- context [if ?a <? ?b then _ else _] => destruct (Z.ltb_spec a b)
  | |- context [if ?a <=? ?b then _ else _] => destruct (Z.leb_spec a b)
  | |- context [if ?a =? ?b then _ else _] => destruct (Z.eqb_spec a b)
  end.

(** [lia] with the equations of the quotients and remainders in context. *)
Ltac zdiv := Z.div_mod_to_equations; lia.

Create HintDb cfetch discriminated.
Create Rewrite HintDb zlen.

(** ** Outcomes of C and C++ code

    [Ok] is a normal return; [Crash] is an explicit [CRASH()], [abort] or failed
    [RELEASE_ASSERT]; [UB] is an access outside an object or another operation
    the language leaves undefined; [NoFuel] is a loop that has not ended within
    the fuel it was given. *)

Inductive res (A : Type) : Type :=
| Ok (a : A)
| Crash
| UB
| NoFuel.
Arguments Ok {A} _.
Arguments Crash {A}.
Arguments UB {A}.
Arguments NoFuel {A}.

#[global] Instance res_ret : MRet res := fun A a => Ok a.
#[global] Instance res_bind : MBind res := fun A B f m =>
  match m with Ok a => f a | Crash => Crash | UB => UB | NoFuel => NoFuel end.

(** Read an object the code relies on: [None] is undefined behaviour. *)
Definition or_ub {A} (o : option A) : res A :=
  match o with Some a => Ok a | None => UB end.

Lemma res_bind_Ok {A B} (f : A -> res B) (m : res A) b :
  (m ≫= f) = Ok b <-> exists a, m = Ok a /\ f a = Ok b.
Proof.
  destruct m; cbn; split; intros H; try (by destruct H as (?&?&?)); try done; eauto.
  by destruct H as (?&[= <-]&?).
Qed.

(** Split a successful sequence of steps into its steps. *)
Ltac res_inv :=
  repeat match goal with
  | H : (?m ≫= _) = Ok _ |- _ =>
      let a := fresh "r" in let H1 := fresh "Hr" in
      apply res_bind_Ok in H; destruct H as (a & H1 & H)
  | H : Ok _ = Ok _ |- _ => injection H as H; try subst
  | H : mret _ = Ok _ |- _ => injection H as H; try subst
  end.

(** ** State passing

    Code that updates a store: a step takes the store and returns its value and
    the new store, or does not return. *)

Definition ST (S A : Type) : Type := S -> res (A * S).

#[global] Instance ST_ret S : MRet (ST S) := fun A a s => Ok (a, s).
#[global] Instance ST_bind S : MBind (ST S) := fun A B f m s =>
  match m s with Ok (a, s') => f a s' | Crash => Crash | UB => UB | NoFuel => NoFuel end.

Definition st_get {S} : ST S S := fun s => Ok (s, s).
Definition st_put {S} (s : S) : ST S unit := fun _ => Ok (tt, s).
Definition st_lift {S A} (m : res A) : ST S A := fun s =>
  match m with Ok a => Ok (a, s) | Crash => Crash | UB => UB | NoFuel => NoFuel end.

Lemma ST_bind_Ok {S A B} (f : A -> ST S B) (m : ST S A) s a s' :
  m s = Ok (a, s') -> (m ≫= f) s = f a s'.
Proof. unfold mbind, ST_bind. by intros ->. Qed.

(** ** Memory blocks

    A block is the list of its cells; [None] is a cell that was never written. *)

Abbreviation cell := (option Z).

(** [memcpy(block + off, data, |data|)]; outside the block it is [UB]. *)
Definition mem_write (b : list cell) (off : Z) (data : list cell) : res (list cell) :=
  if (0 <=? off) && (off + zlen data <=? zlen b)
  then Ok (take (Z.to_nat off) b ++ data ++ drop (Z.to_nat off + length data) b)
  else UB.

(** [memcpy(dst, block + off, n)]; outside the block it is [UB]. *)
Definition mem_read {A} (b : list A) (off n : Z) : res (list A) :=
  if (0 <=? off) && (0 <=? n) && (off + n <=? zlen b)
  then Ok (take (Z.to_nat n) (drop (Z.to_nat off) b))
  else UB.

(** ** Little-endian representation of integers *)

Fixpoint le_split (n : nat) (z : Z) : list Z :=
  match n with
  | O => []
  | S n => z mod 256 :: le_split n (z / 256)
  end.

Fixpoint le_combine (l : list Z) : Z :=
  match l with
  | [] => 0
  | b :: l => b + 256 * le_combine l
  end.

Lemma length_le_split n z : length (le_split n z) = n.
Proof. revert z; induction n as [|n IH]; intros z; cbn; [done|]. by rewrite IH. Qed.

Lemma le_split_bytes n z : Forall (in_range 8) (le_split n z).
Proof.
  revert z; induction n as [|n IH]; intros z; cbn; constructor; [|apply IH].
  unfold in_range. apply Z.mod_pos_bound. lia.
Qed.

Lemma le_combine_split n z : 0 <= z < 256 ^ Z.of_nat n -> le_combine (le_split n z) = z.
Proof.
  revert z; induction n as [|n IH]; intros z Hz; cbn [le_split le_combine].
  - rewrite Z.pow_0_r in Hz. lia.
  - rewrite Nat2Z.inj_succ, Z.pow_succ_r in Hz by lia.
    rewrite IH by (split; [apply Z.div_pos; lia | apply Z.div_lt_upper_bound; lia]).
    pose proof (Z.div_mod z 256). lia.
Qed.

Lemma le_combine_range l :
  Forall (in_range 8) l -> 0 <= le_combine l < 256 ^ zlen l.
Proof.
  unfold zlen; induction 1 as [|b l Hb _ IH]; [cbn; lia|].
  cbn [le_combine length]. rewrite Nat2Z.inj_succ, Z.pow_succ_r by lia.
  unfold in_range in Hb. change (2 ^ 8) with 256 in Hb. nia.
Qed.

(** ** Lists *)

Lemma zlen_nil {A} : zlen (@nil A) = 0.
Proof. done. Qed.

Lemma zlen_cons {A} (a : A) l : zlen (a :: l) = 1 + zlen l.
Proof. unfold zlen; cbn [length]. lia. Qed.

Lemma zlen_app {A} (l k : list A) : zlen (l ++ k) = zlen l + zlen k.
Proof. unfold zlen. rewrite length_app. lia. Qed.

Lemma zlen_fmap {A B} (f : A -> B) l : zlen (f <$> l) = zlen l.
Proof. unfold zlen. by rewrite length_fmap. Qed.

Lemma zlen_replicate {A} n (a : A) : zlen (replicate n a) = Z.of_nat n.
Proof. unfold zlen. by rewrite length_replicate. Qed.

Lemma zlen_nonneg {A} (l : list A) : 0 <= zlen l.
Proof. unfold zlen. lia. Qed.

Lemma zlen_le_split n z : zlen (le_split n z) = Z.of_nat n.
Proof. unfold zlen. by rewrite length_le_split. Qed.

Lemma to_nat_zlen {A} (l : list A) : Z.to_nat (zlen l) = length l.
Proof. unfold zlen. lia. Qed.

#[export] Hint Rewrite @zlen_nil @zlen_cons @zlen_app @zlen_fmap @zlen_replicate zlen_le_split : zlen.

Lemma mem_read_app {A} (pre mid post : list A) :
  mem_read (pre ++ mid ++ post) (zlen pre) (zlen mid) = Ok mid.
Proof.
  unfold mem_read. autorewrite with zlen.
  pose proof (zlen_nonneg pre); pose proof (zlen_nonneg mid); pose proof (zlen_nonneg post).
  repeat rewrite (proj2 (Z.leb_le _ _)) by lia. cbn.
  unfold zlen. rewrite !Nat2Z.id, drop_app_length, take_app_length. done.
Qed.

(** A read inside the block succeeds and has the length asked for. *)
Lemma mem_read_ok {A} (b : list A) off n :
  0 <= off -> 0 <= n -> off + n <= zlen b ->
  exists l, mem_read b off n = Ok l /\ zlen l = n.
Proof.
  intros. unfold mem_read. repeat rewrite (proj2 (Z.leb_le _ _)) by lia. cbn.
  eexists; split; [done|]. unfold zlen in *. rewrite length_take, length_drop. lia.
Qed.

Lemma wrap_small w z : 0 <= z < 2 ^ w -> wrap w z = z.
Proof. apply Z.mod_small. Qed.

Lemma wrap_range w z : 0 <= w -> in_range w (wrap w z).
Proof. intros. apply Z.mod_pos_bound. lia. Qed.

(** A disjunction of disjoint bit ranges is a sum. *)
Lemma lor_shiftl_add r x n : 0 <= n -> 0 <= x < 2 ^ n -> Z.lor (Z.shiftl r n) x = r * 2 ^ n + x.
Proof.
  intros Hn Hx. pose proof (Z.add_lor_land (Z.shiftl r n) x) as E.
  assert (H0 : Z.land (Z.shiftl r n) x = 0).
  { rewrite <- (Z.mod_small x (2 ^ n)), <- Z.land_ones by lia.
    apply Z.bits_inj'. intros k Hk. rewrite !Z.land_spec, Z.bits_0.
    destruct (Z.ltb_spec k n); [by rewrite Z.shiftl_spec_low|].
    by rewrite Z.ones_spec_high, !andb_false_r by lia. }
  rewrite Z.shiftl_mul_pow2 in * by lia. lia.
Qed.

(** The low bits of a number. *)
Lemma land_low base x n : 0 <= n -> 0 <= x < 2 ^ n -> Z.land (base * 2 ^ n + x) (2 ^ n - 1) = x.
Proof.
  intros Hn Hx. replace (2 ^ n - 1) with (Z.ones n) by (rewrite Z.ones_equiv; lia). rewrite Z.land_ones by lia.
  rewrite Z.add_comm, Z_mod_plus_full. by apply Z.mod_small.
Qed.

Lemma zlookup_app {A} (pre : list A) x post : zlookup (pre ++ x :: post) (zlen pre) = Some x.
Proof.
  unfold zlookup. rewrite (proj2 (Z.leb_le _ _)) by apply zlen_nonneg.
  rewrite to_nat_zlen. by apply list_lookup_middle.
Qed.
