(* ===== verification/IpcEncoder.v ===== *)
(** * The IPC encoder (ipc/Encoder.h, ipc/Encoder.cpp, ipc/MessageFlags.h,
    wtf/OptionSet.h)

    An [Encoder] owns a block of [m_bufferCapacity] cells, the first
    [m_bufferSize] of which hold the message built so far.  Cells that were
    never written are [None], so that a message with an uninitialised byte is
    visible in the model.  [enc_repr e bs] is the abstraction: the message
    under construction is the list of bytes [bs].  [m_bufferPointer] is written
    by the code and never read, and is left out.  [fastMalloc] ends the process
    when it has no memory, so [allocBuffer] never returns false. *)
From S2P Require Import Prelude.

(** ** OptionSet: a set of single-bit flags in an unsigned integer *)
Module OptionSet.

(** [allValidBits]: the union of the enumerators' bits. *)
Fixpoint allValidBits (values : list Z) : Z :=
  match values with
  | [] => 0
  | e :: es => Z.lor e (allValidBits es)
  end.

Fixpoint isValidOptionSetEnum (values : list Z) (t : Z) : bool :=
  match values with
  | [] => false
  | e :: es => if e =? t then true else isValidOptionSetEnum es t
  end.

Definition maskRawValue (values : list Z) (rawValue : Z) : Z :=
  Z.land rawValue (allValidBits values).

Definition fromRaw (values : list Z) (rawValue : Z) : Z := maskRawValue values rawValue.

Definition isEmpty (s : Z) : bool := s =? 0.

(** [operator&] goes through [fromRaw]. *)
Definition inter (values : list Z) (lhs rhs : Z) : Z := fromRaw values (Z.land lhs rhs).
Definition union (values : list Z) (lhs rhs : Z) : Z := fromRaw values (Z.lor lhs rhs).
Definition diff (values : list Z) (lhs rhs : Z) : Z := fromRaw values (Z.land lhs (Z.lnot rhs)).
Definition symdiff (values : list Z) (lhs rhs : Z) : Z := fromRaw values (Z.lxor lhs rhs).

Definition containsAny (values : list Z) (s optionSet : Z) : bool :=
  negb (isEmpty (inter values s optionSet)).
Definition contains (values : list Z) (s option : Z) : bool := containsAny values s option.
Definition containsAll (values : list Z) (s optionSet : Z) : bool :=
  inter values s optionSet =? optionSet.
Definition add (s optionSet : Z) : Z := Z.lor s optionSet.
Definition remove (s optionSet : Z) : Z := Z.land s (Z.lnot optionSet).
Definition hasExactlyOneBitSet (s : Z) : bool :=
  negb (s =? 0) && (Z.land s (s - 1) =? 0).
Definition toSingleValue (s : Z) : option Z :=
  if hasExactlyOneBitSet s then Some s else None.
Definition isValidOptionSet (values : list Z) (s : Z) : bool :=
  Z.lor s (allValidBits values) =? allValidBits values.

(** Every value that [fromRaw] builds passes [isValidOptionSet]: the mask has
    already dropped the bits that no enumerator has. *)
Lemma fromRaw_valid values raw : isValidOptionSet values (fromRaw values raw) = true.
Proof.
  unfold isValidOptionSet, fromRaw, maskRawValue. apply Z.eqb_eq, Z.bits_inj'. intros i Hi.
  rewrite Z.lor_spec, Z.land_spec. by destruct (Z.testbit raw i), (Z.testbit (allValidBits values) i).
Qed.

Lemma fromRaw_id values s : isValidOptionSet values s = true -> fromRaw values s = s.
Proof.
  unfold isValidOptionSet, fromRaw, maskRawValue. intros H%Z.eqb_eq. apply Z.bits_inj'. intros i Hi.
  rewrite <- H, Z.land_spec, Z.lor_spec.
  by destruct (Z.testbit s i), (Z.testbit (allValidBits values) i).
Qed.

End OptionSet.

(** ** Message flags *)

Inductive MessageFlags :=
| SyncMessage
| DispatchMessageWhenWaitingForSyncReply
| DispatchMessageWhenWaitingForUnboundedSyncReply
| UseFullySynchronousModeForTesting.

Definition flagBit (f : MessageFlags) : Z :=
  match f with
  | SyncMessage => Z.shiftl 1 0
  | DispatchMessageWhenWaitingForSyncReply => Z.shiftl 1 1
  | DispatchMessageWhenWaitingForUnboundedSyncReply => Z.shiftl 1 2
  | UseFullySynchronousModeForTesting => Z.shiftl 1 3
  end.

(** [EnumTraits<IPC::MessageFlags>::values]. *)
Definition MessageFlags_values : list Z :=
  [flagBit SyncMessage; flagBit DispatchMessageWhenWaitingForSyncReply;
   flagBit DispatchMessageWhenWaitingForUnboundedSyncReply;
   flagBit UseFullySynchronousModeForTesting].

Inductive ShouldDispatchWhenWaitingForSyncReply := No | Yes | YesDuringUnboundedIPC.

#[global] Instance ShouldDispatch_dec : EqDecision ShouldDispatchWhenWaitingForSyncReply.
Proof. solve_decision. Defined.

(** ** Attachments *)

Inductive AttachmentType := Uninitialized | SocketType | MappedMemoryType.

Record Attachment := mkAttachment {
  a_type : AttachmentType;
  a_fileDescriptor : Z;
  a_size : Z
}.

(** ** Encoder *)

Record Encoder := mkEncoder {
  m_messageName : Z;
  m_destinationID : Z;
  m_buffer : list cell;
  m_bufferSize : Z;
  m_bufferCapacity : Z;
  m_attachments : list Attachment
}.

Definition set_buffer (b : list cell) (e : Encoder) : Encoder :=
  mkEncoder (m_messageName e) (m_destinationID e) b (m_bufferSize e) (m_bufferCapacity e) (m_attachments e).

Definition roundUpToAlignment (value alignment : Z) : Z :=
  u64 (u64 (value + alignment - 1) / alignment * alignment).

(** [while (newCapacity < size) newCapacity *= 2;] on [size_t]. *)
Fixpoint reserve_loop (fuel : nat) (newCapacity size : Z) : res Z :=
  if newCapacity <? size then
    match fuel with
    | O => NoFuel
    | S fuel => reserve_loop fuel (u64 (newCapacity * 2)) size
    end
  else Ok newCapacity.

(** A non-zero [size_t] doubles at most 64 times before it wraps to zero. *)
Definition reserve_fuel : nat := 64.

Definition reserve (size : Z) (e : Encoder) : res Encoder :=
  if size <=? m_bufferCapacity e then Ok e
  else
    newCapacity ← reserve_loop reserve_fuel
                    (roundUpToAlignment (u64 (m_bufferCapacity e * 2)) 4096) size;
    old ← mem_read (m_buffer e) 0 (m_bufferSize e);
    newBuffer ← mem_write (replicate (Z.to_nat newCapacity) None) 0 old;
    mret (mkEncoder (m_messageName e) (m_destinationID e) newBuffer (m_bufferSize e)
            newCapacity (m_attachments e)).

(** [grow] returns the offset of the hole it made in the buffer. *)
Definition grow (alignment size : Z) (e : Encoder) : res (Encoder * Z) :=
  let alignedSize := roundUpToAlignment (m_bufferSize e) alignment in
  e1 ← reserve (u64 (alignedSize + size)) e;
  b ← mem_write (m_buffer e1) (m_bufferSize e1)
        (replicate (Z.to_nat (u64 (alignedSize - m_bufferSize e1))) (Some 0));
  mret (mkEncoder (m_messageName e1) (m_destinationID e1) b (u64 (alignedSize + size))
          (m_bufferCapacity e1) (m_attachments e1), alignedSize).

Definition encodeFixedLengthData (data : list Z) (alignment : Z) (e : Encoder) : res Encoder :=
  '(e1, buffer) ← grow alignment (zlen data) e;
  b ← mem_write (m_buffer e1) buffer (Some <$> data);
  mret (set_buffer b e1).

(** [encode] of an arithmetic value of [n] bytes, whose alignment is its size. *)
Definition encode_arith (n : nat) (value : Z) (e : Encoder) : res Encoder :=
  encodeFixedLengthData (le_split n value) (Z.of_nat n) e.

Definition encodeVariableLengthByteArray (dataReference : list Z) (e : Encoder) : res Encoder :=
  e1 ← encode_arith 8 (zlen dataReference) e;
  encodeFixedLengthData dataReference 1 e1.

Definition defaultMessageFlags : Z := 0.

Definition encodeHeader (e : Encoder) : res Encoder :=
  e1 ← encode_arith 1 defaultMessageFlags e;
  e2 ← encode_arith 2 (m_messageName e1) e1;
  encode_arith 8 (m_destinationID e2) e2.

(** The constructor; [m_inlineBuffer] has 512 bytes and is not initialised. *)
Definition Encoder_new (messageName destinationID : Z) : res Encoder :=
  encodeHeader (mkEncoder messageName destinationID (replicate 512 None) 0 512 []).

(** [messageFlags()] reads and writes the first byte of the buffer. *)
Definition messageFlags (e : Encoder) : res Z :=
  match m_buffer e !! O with
  | Some (Some f) => Ok f
  | _ => UB
  end.

Definition set_messageFlags (f : Z) (e : Encoder) : res Encoder :=
  b ← mem_write (m_buffer e) 0 [Some f];
  mret (set_buffer b e).

Definition isSyncMessage (e : Encoder) : res bool :=
  f ← messageFlags e;
  mret (OptionSet.contains MessageFlags_values f (flagBit SyncMessage)).

(** The reading of the two dispatch flags, shared with the decoder. *)
Definition shouldDispatch_of_flags (f : Z) : ShouldDispatchWhenWaitingForSyncReply :=
  if OptionSet.contains MessageFlags_values f (flagBit DispatchMessageWhenWaitingForSyncReply) then Yes
  else if OptionSet.contains MessageFlags_values f (flagBit DispatchMessageWhenWaitingForUnboundedSyncReply)
  then YesDuringUnboundedIPC
  else No.

Definition shouldDispatchMessageWhenWaitingForSyncReply (e : Encoder)
    : res ShouldDispatchWhenWaitingForSyncReply :=
  f ← messageFlags e; mret (shouldDispatch_of_flags f).

Definition setIsSyncMessage (isSync : bool) (e : Encoder) : res Encoder :=
  f ← messageFlags e;
  if isSync then set_messageFlags (OptionSet.add f (flagBit SyncMessage)) e
  else set_messageFlags (OptionSet.remove f (flagBit SyncMessage)) e.

Definition setShouldDispatchMessageWhenWaitingForSyncReply
    (s : ShouldDispatchWhenWaitingForSyncReply) (e : Encoder) : res Encoder :=
  f ← messageFlags e;
  let y := flagBit DispatchMessageWhenWaitingForSyncReply in
  let u := flagBit DispatchMessageWhenWaitingForUnboundedSyncReply in
  match s with
  | No => set_messageFlags (OptionSet.remove (OptionSet.remove f y) u) e
  | Yes => set_messageFlags (OptionSet.remove (OptionSet.add f y) u) e
  | YesDuringUnboundedIPC => set_messageFlags (OptionSet.add (OptionSet.remove f y) u) e
  end.

Definition setFullySynchronousModeForTesting (e : Encoder) : res Encoder :=
  f ← messageFlags e;
  set_messageFlags (OptionSet.add f (flagBit UseFullySynchronousModeForTesting)) e.

Definition addAttachment (a : Attachment) (e : Encoder) : Encoder :=
  mkEncoder (m_messageName e) (m_destinationID e) (m_buffer e) (m_bufferSize e)
    (m_bufferCapacity e) (m_attachments e ++ [a]).

(** The attachments are moved out: the encoder keeps none. *)
Definition releaseAttachments (e : Encoder) : list Attachment * Encoder :=
  (m_attachments e,
   mkEncoder (m_messageName e) (m_destinationID e) (m_buffer e) (m_bufferSize e)
     (m_bufferCapacity e) []).

(** The bytes [buffer()[0 .. bufferSize())]; reading an uninitialised one is [UB]. *)
Definition message_bytes (e : Encoder) : res (list Z) :=
  cells ← mem_read (m_buffer e) 0 (m_bufferSize e);
  or_ub (mapM id cells).

Definition wrapForTesting (original e : Encoder) : res Encoder :=
  o1 ← setShouldDispatchMessageWhenWaitingForSyncReply Yes original;
  bytes ← message_bytes o1;
  e1 ← encodeVariableLengthByteArray bytes e;
  let '(attachments, _) := releaseAttachments o1 in
  e2 ← reserve (zlen attachments) e1;
  mret (foldl (fun e a => addAttachment a e) e2 attachments).

(** ** The abstraction: the message as a list of bytes *)

(** Messages up to this length are in the scope of the theorems; beyond half of
    the address space [size_t] arithmetic wraps. *)
Definition maxMessage : Z := 2 ^ 62.

(** Number of padding bytes that align position [pos]. *)
Definition padding (pos alignment : Z) : Z := (- pos) mod alignment.

(** Bytes that [encodeFixedLengthData] appends at position [pos]. *)
Definition aligned (alignment : Z) (data : list Z) (pos : Z) : list Z :=
  replicate (Z.to_nat (padding pos alignment)) 0 ++ data.

Record enc_repr (e : Encoder) (bs : list Z) : Prop := {
  er_size : m_bufferSize e = zlen bs;
  er_len : zlen (m_buffer e) = m_bufferCapacity e;
  er_fits : zlen bs <= m_bufferCapacity e;
  er_cap : 512 <= m_bufferCapacity e < 2 ^ 64;
  er_init : take (length bs) (m_buffer e) = Some <$> bs
}.

(** The fields that no encoding operation changes. *)
Definition same_meta (e e' : Encoder) : Prop :=
  m_messageName e' = m_messageName e /\ m_destinationID e' = m_destinationID e /\
  m_attachments e' = m_attachments e.

Lemma same_meta_refl e : same_meta e e.
Proof. done. Qed.

Lemma same_meta_trans e1 e2 e3 : same_meta e1 e2 -> same_meta e2 e3 -> same_meta e1 e3.
Proof. unfold same_meta. intuition congruence. Qed.

Lemma padding_range pos al : 0 < al -> 0 <= padding pos al < al.
Proof. apply Z.mod_pos_bound. Qed.

Lemma padding_spec pos al : 0 < al -> (pos + padding pos al) mod al = 0.
Proof.
  intros. unfold padding. rewrite Z.add_mod_idemp_r by lia.
  by replace (pos + - pos) with 0 by lia.
Qed.

Lemma roundUp_padding v al :
  0 <= v -> 0 < al -> v + al <= 2 ^ 64 -> roundUpToAlignment v al = v + padding v al.
Proof.
  intros Hv Hal Hb. unfold roundUpToAlignment, wrap, padding.
  rewrite (Z.mod_small (v + al - 1)) by lia.
  assert ((v + al - 1) / al * al = v + (- v) mod al) as ->.
  { pose proof (Z.div_mod v al ltac:(lia)). pose proof (Z.mod_pos_bound v al Hal).
    destruct (Z.eq_dec (v mod al) 0) as [E|E].
    - rewrite (Z.mod_opp_l_z v al) by lia.
      assert ((v + al - 1) / al = v / al) as -> by (symmetry; apply (Z.div_unique _ _ _ (al - 1)); lia). lia.
    - rewrite (Z.mod_opp_l_nz v al) by lia.
      assert ((v + al - 1) / al = v / al + 1) as -> by (symmetry; apply (Z.div_unique _ _ _ (v mod al - 1)); lia). lia. }
  pose proof (Z.mod_pos_bound (- v) al Hal). apply Z.mod_small. lia.
Qed.

Lemma reserve_loop_ok fuel c size :
  0 < c -> size <= 2 ^ 62 -> c < 2 ^ 64 -> size <= c * 2 ^ Z.of_nat fuel ->
  exists c', reserve_loop fuel c size = Ok c' /\ size <= c' < 2 ^ 64 /\ c <= c'.
Proof.
  revert c; induction fuel as [|fuel IH]; intros c Hc Hs Hc64 Hf; cbn [reserve_loop]; zcase.
  - rewrite Z.pow_0_r in Hf. lia.
  - exists c. split; [done|lia].
  - rewrite Nat2Z.inj_succ, Z.pow_succ_r in Hf by lia.
    rewrite wrap_small by lia. destruct (IH (c * 2)) as (c' & -> & ? & ?); try lia.
    exists c'. split; [done|lia].
  - exists c. split; [done|lia].
Qed.

Lemma mem_write_ok (b : list cell) off data :
  0 <= off -> off + zlen data <= zlen b ->
  mem_write b off data = Ok (take (Z.to_nat off) b ++ data ++ drop (Z.to_nat off + length data) b).
Proof.
  intros. unfold mem_write. by rewrite !(proj2 (Z.leb_le _ _)) by lia.
Qed.

(** Writing right after the initialised prefix extends it. *)
Lemma mem_write_end (b : list cell) (bs : list Z) data :
  take (length bs) b = Some <$> bs -> zlen bs + zlen data <= zlen b ->
  exists b', mem_write b (zlen bs) (Some <$> data) = Ok b' /\ zlen b' = zlen b /\
    take (length (bs ++ data)) b' = Some <$> (bs ++ data).
Proof.
  intros Hb Hl. rewrite mem_write_ok by (autorewrite with zlen; unfold zlen in *; lia).
  eexists; split; [done|]. unfold zlen in *. rewrite length_fmap, Nat2Z.id, Hb.
  split.
  - rewrite !length_app, !length_fmap, length_drop. lia.
  - rewrite fmap_app, app_assoc, <- fmap_app. rewrite take_app_length'; [done|].
    by rewrite length_fmap.
Qed.

Lemma reserve_repr size e bs :
  enc_repr e bs -> size <= 2 ^ 62 ->
  exists e', reserve size e = Ok e' /\ enc_repr e' bs /\ same_meta e e' /\
    m_bufferSize e' = m_bufferSize e /\ size <= m_bufferCapacity e'.
Proof.
  intros [H1 H2 H3 H4 H5] Hs. unfold reserve. zcase.
  { exists e. split; [done|]. split; [by constructor|]. by unfold same_meta. }
  pose proof (zlen_nonneg bs).
  rewrite wrap_small by lia.
  rewrite roundUp_padding by lia.
  pose proof (padding_range (m_bufferCapacity e * 2) 4096 ltac:(lia)).
  destruct (reserve_loop_ok reserve_fuel (m_bufferCapacity e * 2 + padding (m_bufferCapacity e * 2) 4096) size)
    as (c' & -> & Hc & ?); try lia; cbn [mbind res_bind].
  { change (2 ^ Z.of_nat reserve_fuel) with (2 ^ 64). lia. }
  assert (mem_read (m_buffer e) 0 (m_bufferSize e) = Ok (Some <$> bs)) as ->.
  { unfold mem_read. rewrite !(proj2 (Z.leb_le _ _)) by lia. cbn. rewrite H1.
    unfold zlen. by rewrite Nat2Z.id, drop_0, H5. }
  cbn [mbind res_bind].
  destruct (mem_write_end (replicate (Z.to_nat c') None) [] bs) as (b' & Hw & Hl & Ht);
    [done|autorewrite with zlen; lia|]. rewrite zlen_nil in Hw.
  rewrite Hw. cbn. eexists; split; [done|]. split; [|by unfold same_meta; cbn; intuition lia].
  autorewrite with zlen in Hl. constructor; cbn; [done|lia|lia|lia|done].
Qed.

Lemma zlen_aligned al data pos : 0 < al -> zlen (aligned al data pos) = padding pos al + zlen data.
Proof.
  intros. unfold aligned. autorewrite with zlen. pose proof (padding_range pos al H). lia.
Qed.

(** The refinement step of every encoding operation: the bytes are appended
    after their padding, and nothing else changes. *)
Lemma encodeFixedLengthData_repr data al e bs :
  enc_repr e bs -> 0 < al <= 4096 ->
  zlen bs + zlen (aligned al data (zlen bs)) <= maxMessage ->
  exists e', encodeFixedLengthData data al e = Ok e' /\
    enc_repr e' (bs ++ aligned al data (zlen bs)) /\ same_meta e e'.
Proof.
  intros Hr Hal Hm. rewrite zlen_aligned in Hm by lia. unfold maxMessage in Hm.
  pose proof (padding_range (zlen bs) al ltac:(lia)) as Hp.
  pose proof (zlen_nonneg bs). pose proof (zlen_nonneg data).
  unfold encodeFixedLengthData, grow. rewrite (er_size _ _ Hr), roundUp_padding by lia.
  rewrite wrap_small by lia.
  destruct (reserve_repr (zlen bs + padding (zlen bs) al + zlen data) e bs Hr) as (e1 & -> & Hr1 & Hm1 & Hs1 & Hc1);
    [lia|]. cbn [mbind res_bind].
  rewrite Hs1, (er_size _ _ Hr), wrap_small by lia.
  replace (zlen bs + padding (zlen bs) al - zlen bs) with (padding (zlen bs) al) by lia.
  destruct (mem_write_end (m_buffer e1) bs (replicate (Z.to_nat (padding (zlen bs) al)) 0)) as (b1 & Hw1 & Hl1 & Ht1);
    [apply Hr1|autorewrite with zlen; rewrite (er_len _ _ Hr1); lia|].
  rewrite fmap_replicate in Hw1. rewrite Hw1. cbn.
  destruct (mem_write_end b1 (bs ++ replicate (Z.to_nat (padding (zlen bs) al)) 0) data) as (b2 & Hw2 & Hl2 & Ht2);
    [done|autorewrite with zlen; rewrite Hl1, (er_len _ _ Hr1); lia|].
  autorewrite with zlen in Hw2. rewrite Z2Nat.id in Hw2 by lia. rewrite Hw2.
  eexists; split; [done|]. split; [|done]. rewrite <- app_assoc in Ht2.
  constructor; cbn; [|rewrite Hl2, Hl1; apply Hr1| |apply Hr1|done];
    unfold aligned; autorewrite with zlen; lia.
Qed.

Lemma encode_arith_repr n v e bs :
  enc_repr e bs -> (0 < n <= 8)%nat ->
  zlen bs + zlen (aligned (Z.of_nat n) (le_split n v) (zlen bs)) <= maxMessage ->
  exists e', encode_arith n v e = Ok e' /\
    enc_repr e' (bs ++ aligned (Z.of_nat n) (le_split n v) (zlen bs)) /\ same_meta e e'.
Proof. intros. apply encodeFixedLengthData_repr; [done|lia|done]. Qed.

(** The header: flags byte, a padding byte, the name, four padding bytes, the
    destination. *)
Definition header_bytes (flags name dest : Z) : list Z :=
  [flags; 0] ++ le_split 2 name ++ [0; 0; 0; 0] ++ le_split 8 dest.

Lemma Encoder_new_repr name dest :
  exists e, Encoder_new name dest = Ok e /\ enc_repr e (header_bytes 0 name dest) /\
    m_messageName e = name /\ m_destinationID e = dest /\ m_attachments e = [].
Proof.
  unfold Encoder_new, encodeHeader.
  set (e0 := mkEncoder name dest (replicate 512 None) 0 512 []).
  assert (enc_repr e0 []) as H0 by by constructor.
  destruct (encode_arith_repr 1 defaultMessageFlags e0 [] H0) as (e1 & -> & H1 & M1);
    [lia|by vm_compute|]. cbn [mbind res_bind].
  destruct (encode_arith_repr 2 (m_messageName e1) e1 _ H1) as (e2 & -> & H2 & M2);
    [lia|by vm_compute|]. cbn [mbind res_bind].
  destruct (encode_arith_repr 8 (m_destinationID e2) e2 _ H2) as (e3 & -> & H3 & M3);
    [lia|by vm_compute|].
  exists e3. split; [done|].
  destruct M1 as (E1 & E2 & E3), M2 as (F1 & F2 & F3), M3 as (G1 & G2 & G3).
  split; [|by rewrite ?G1, ?G2, ?G3, ?F1, ?F2, ?F3].
  rewrite F2, E2, E1 in H3. exact H3.
Qed.
