(* ===== verification/IpcDecoder.v ===== *)
(** * The IPC decoder (ipc/Decoder.h, ipc/Decoder.cpp)

    A [Decoder] walks a received message with the pointer [m_bufferPos] between
    [m_buffer] and [m_bufferEnd]; the null pointer (address 0) is the sticky
    "invalid" state.  Addresses are 64-bit integers, so that the pointer
    arithmetic of [roundUpToAlignment] and its wrap-around are the source's.  A
    decoding operation returns its value or [None] (the code's [return false])
    together with the decoder it leaves behind; a read outside the buffer is
    [UB].  [m_messageName] and [m_destinationID] are [None] until the
    constructor has stored them. *)
From S2P Require Import Prelude IpcEncoder.

Module Decoder.

Record t := mk {
  m_buffer : Z;
  m_data : list Z;
  m_bufferPos : Z;
  m_bufferEnd : Z;
  m_attachments : list Attachment;
  m_messageFlags : Z;
  m_messageName : option Z;
  m_destinationID : option Z
}.

(** A step of a decoding routine. *)
Definition M (A : Type) : Type := t -> res (option A * t).

Definition ret {A} (a : A) : M A := fun d => Ok (Some a, d).
Definition fail {A} : M A := fun d => Ok (None, d).

(** [if (!step) return false;] followed by the rest. *)
Definition bind {A B} (m : M A) (k : A -> M B) : M B := fun d =>
  '(o, d1) ← m d;
  match o with
  | Some a => k a d1
  | None => Ok (None, d1)
  end.

Notation "x <- m ;; k" := (bind m (fun x => k))
  (at level 100, m at next level, right associativity) : cfetch_scope.
#[local] Open Scope cfetch_scope.

Definition isValid (d : t) : bool := negb (m_bufferPos d =? 0).

Definition set_pos (p : Z) (d : t) : t :=
  mk (m_buffer d) (m_data d) p (m_bufferEnd d) (m_attachments d) (m_messageFlags d)
    (m_messageName d) (m_destinationID d).

Definition markInvalid (d : t) : t := set_pos 0 d.

(** [decoder.markInvalid(); return false;] *)
Definition invalidate {A} : M A := fun d => Ok (None, markInvalid d).

Definition length (d : t) : Z := m_bufferEnd d - m_buffer d.

Definition roundUpToAlignment (ptr alignment : Z) : Z :=
  let alignmentMask := u64 (alignment - 1) in
  Z.land (u64 (ptr + alignmentMask)) (u64 (Z.lnot alignmentMask)).

Definition alignedBufferIsLargeEnoughToContain
    (alignedPosition bufferStart bufferEnd size : Z) : bool :=
  (alignedPosition <=? bufferEnd) && (bufferStart <=? alignedPosition)
  && (size <=? u64 (bufferEnd - alignedPosition)).

Definition alignBufferPosition (alignment size : Z) (d : t) : bool * t :=
  let alignedPosition := roundUpToAlignment (m_bufferPos d) alignment in
  if negb (alignedBufferIsLargeEnoughToContain alignedPosition (m_buffer d) (m_bufferEnd d) size)
  then (false, markInvalid d)
  else (true, set_pos alignedPosition d).

Definition bufferIsLargeEnoughToContain (alignment size : Z) (d : t) : bool :=
  alignedBufferIsLargeEnoughToContain (roundUpToAlignment (m_bufferPos d) alignment)
    (m_buffer d) (m_bufferEnd d) size.

(** The template on an arithmetic type of [n] bytes, with its overflow guard. *)
Definition bufferIsLargeEnoughToContain_arith (n : nat) (numElements : Z) (d : t) : bool :=
  if SIZE_MAX / Z.of_nat n <? numElements then false
  else bufferIsLargeEnoughToContain (Z.of_nat n) (numElements * Z.of_nat n) d.

Definition decodeFixedLengthData (size alignment : Z) : M (list Z) := fun d =>
  match alignBufferPosition alignment size d with
  | (false, d1) => Ok (None, d1)
  | (true, d1) =>
      data ← mem_read (m_data d1) (m_bufferPos d1 - m_buffer d1) size;
      Ok (Some data, set_pos (m_bufferPos d1 + size) d1)
  end.

(** [decode] of an arithmetic value of [n] bytes. *)
Definition decode_arith (n : nat) : M Z :=
  bytes <- decodeFixedLengthData (Z.of_nat n) (Z.of_nat n) ;;
  ret (le_combine bytes).

(** [decode] of an enumeration with an [n]-byte underlying type. *)
Definition decode_enum (n : nat) (isValidEnum : Z -> bool) : M Z :=
  value <- decode_arith n ;;
  if negb (isValidEnum value) then fail else ret value.

Definition decodeVariableLengthByteArray : M (list Z) :=
  size <- decode_arith 8 ;;
  fun d =>
    match alignBufferPosition 1 size d with
    | (false, d1) => Ok (None, d1)
    | (true, d1) =>
        data ← mem_read (m_data d1) (m_bufferPos d1 - m_buffer d1) size;
        Ok (Some data, set_pos (m_bufferPos d1 + size) d1)
    end.

(** [ArgumentCoder<OptionSet<T>>::decode], for an [n]-byte storage type. *)
Definition decode_OptionSet (n : nat) (values : list Z) : M Z :=
  value <- decode_arith n ;;
  let optionSet := OptionSet.fromRaw values value in
  if negb (OptionSet.isValidOptionSet values optionSet) then fail else ret optionSet.

Definition removeAttachment (d : t) : option Attachment * t :=
  match last (m_attachments d) with
  | None => (None, d)
  | Some a =>
      (Some a, mk (m_buffer d) (m_data d) (m_bufferPos d) (m_bufferEnd d)
                 (take (List.length (m_attachments d) - 1) (m_attachments d))
                 (m_messageFlags d) (m_messageName d) (m_destinationID d))
  end.

Definition isSyncMessage (d : t) : bool :=
  OptionSet.contains MessageFlags_values (m_messageFlags d) (flagBit SyncMessage).

Definition shouldDispatchMessageWhenWaitingForSyncReply (d : t)
    : ShouldDispatchWhenWaitingForSyncReply :=
  shouldDispatch_of_flags (m_messageFlags d).

Definition shouldUseFullySynchronousModeForTesting (d : t) : bool :=
  OptionSet.contains MessageFlags_values (m_messageFlags d) (flagBit UseFullySynchronousModeForTesting).

Definition set_flags (f : Z) (d : t) : t :=
  mk (m_buffer d) (m_data d) (m_bufferPos d) (m_bufferEnd d) (m_attachments d) f
    (m_messageName d) (m_destinationID d).
Definition set_name (n : Z) (d : t) : t :=
  mk (m_buffer d) (m_data d) (m_bufferPos d) (m_bufferEnd d) (m_attachments d)
    (m_messageFlags d) (Some n) (m_destinationID d).
Definition set_dest (n : Z) (d : t) : t :=
  mk (m_buffer d) (m_data d) (m_bufferPos d) (m_bufferEnd d) (m_attachments d)
    (m_messageFlags d) (m_messageName d) (Some n).

(** [decode(field)] of the constructor: store the value when there is one. *)
Definition decode_into {A} (m : M A) (store : A -> t -> t) : M unit :=
  v <- m ;; fun d => Ok (Some tt, store v d).

Section MessageName.
(** [isValidEnum<MessageName>], generated from the message descriptions. *)
Variable isValidMessageName : Z -> bool.

(** The constructor.  [addr] is the address of [m_buffer]: the caller's buffer,
    or the copy that [copyBuffer] makes. *)
Definition new (addr : Z) (data : list Z) (attachments : list Attachment) : res t :=
  let d0 := mk addr data addr (addr + zlen data) attachments 0 None None in
  if negb (addr mod 8 =? 0) then Ok (markInvalid d0)
  else
    '(_, d1) ← (_ <- decode_into (decode_OptionSet 1 MessageFlags_values) set_flags ;;
                _ <- decode_into (decode_enum 2 isValidMessageName) set_name ;;
                decode_into (decode_arith 8) set_dest) d0;
    Ok d1.

(** [Decoder::create]: [None] is the null pointer. *)
Definition create (addr : Z) (data : list Z) (attachments : list Attachment) : res (option t) :=
  d ← new addr data attachments;
  Ok (if isValid d then Some d else None).

(** [while (decoder.removeAttachment(attachment)) attachments.append(...)]. *)
Fixpoint removeAllAttachments (fuel : nat) (acc : list Attachment) (d : t) : list Attachment * t :=
  match fuel with
  | O => (acc, d)
  | S fuel =>
      match removeAttachment d with
      | (Some a, d1) => removeAllAttachments fuel (acc ++ [a]) d1
      | (None, d1) => (acc, d1)
      end
  end.

(** [Decoder::unwrapForTesting]; [copyAddr] is where the wrapped message is
    copied to. *)
Definition unwrapForTesting (copyAddr : Z) (d : t) : res (option t * t) :=
  let '(removed, d1) := removeAllAttachments (List.length (m_attachments d)) [] d in
  let attachments := rev removed in
  '(wrapped, d2) ← decodeVariableLengthByteArray d1;
  match wrapped with
  | None => Ok (None, d2)
  | Some bytes => o ← create copyAddr bytes attachments; Ok (o, d2)
  end.

End MessageName.

(** ** Well-formed decoders

    The buffer is a block of the address space that starts above address 0, and
    the position is null or inside the block (one past its end included). *)

(** Received messages of less than 2 GiB: longer ones can hold strings that
    [StringImpl] refuses with [CRASH()]. *)
Definition maxReceived : Z := 2 ^ 31 - 64.

Record wf (d : t) : Prop := {
  wf_start : 0 < m_buffer d;
  wf_end : m_bufferEnd d = m_buffer d + zlen (m_data d);
  wf_top : m_bufferEnd d < 2 ^ 64;
  wf_small : zlen (m_data d) <= maxReceived;
  wf_bytes : Forall (in_range 8) (m_data d);
  wf_pos : m_bufferPos d = 0 \/ m_buffer d <= m_bufferPos d <= m_bufferEnd d
}.

(** Decoding reads the buffer and moves the position; nothing else changes, and
    an invalid decoder stays invalid. *)
Record step_ok (d d' : t) : Prop := {
  so_buffer : m_buffer d' = m_buffer d;
  so_data : m_data d' = m_data d;
  so_end : m_bufferEnd d' = m_bufferEnd d;
  so_pos : m_bufferPos d' = 0 \/ (m_bufferPos d <> 0 /\ m_bufferPos d <= m_bufferPos d')
}.

Lemma step_ok_refl d : wf d -> step_ok d d.
Proof. intros [? ? ? ? ? Hp]. constructor; try done. lia. Qed.

Lemma step_ok_trans d1 d2 d3 : step_ok d1 d2 -> step_ok d2 d3 -> step_ok d1 d3.
Proof.
  intros [A1 A2 A3 A4] [B1 B2 B3 B4]. constructor; try congruence. lia.
Qed.

Lemma wf_markInvalid d : wf d -> wf (markInvalid d).
Proof. intros [? ? ? ? ? ?]. constructor; cbn; auto. Qed.

Lemma step_ok_markInvalid d : step_ok d (markInvalid d).
Proof. constructor; cbn; auto. Qed.

(** A decoding routine is safe when, on every well-formed decoder, it returns
    without undefined behaviour and leaves a well-formed decoder. *)
Definition safe {A} (m : M A) : Prop := forall d, wf d ->
  exists o d', m d = Ok (o, d') /\ wf d' /\ step_ok d d'.

(** The exits of a routine that has come to [d1]. *)
Lemma exit_invalid {A} d d1 : wf d1 -> step_ok d d1 ->
  exists o d', @Ok (option A * t) (None, markInvalid d1) = Ok (o, d') /\ wf d' /\ step_ok d d'.
Proof. intros. exists None, (markInvalid d1). eauto using wf_markInvalid, step_ok_trans, step_ok_markInvalid. Qed.

Lemma exit_with {A} (o : option A) d d1 : wf d1 -> step_ok d d1 ->
  exists o' d', Ok (o, d1) = Ok (o', d') /\ wf d' /\ step_ok d d'.
Proof. intros. by exists o, d1. Qed.

Lemma safe_ret {A} (a : A) : safe (ret a).
Proof. intros d Hd. exists (Some a), d. auto using step_ok_refl. Qed.

Lemma safe_fail {A} : safe (@fail A).
Proof. intros d Hd. exists None, d. auto using step_ok_refl. Qed.

Lemma safe_invalidate {A} : safe (@invalidate A).
Proof. intros d Hd. exists None, (markInvalid d). auto using wf_markInvalid, step_ok_markInvalid. Qed.

Lemma safe_bind {A B} (m : M A) (k : A -> M B) :
  safe m -> (forall a, safe (k a)) -> safe (bind m k).
Proof.
  intros Hm Hk d Hd. unfold bind. destruct (Hm d Hd) as (o & d1 & -> & Hd1 & S1). cbn.
  destruct o as [a|].
  - destruct (Hk a d1 Hd1) as (o2 & d2 & -> & Hd2 & S2). eauto 6 using step_ok_trans.
  - eauto.
Qed.

Lemma safe_if {A} (b : bool) (m1 m2 : M A) : safe m1 -> safe m2 -> safe (if b then m1 else m2).
Proof. by destruct b. Qed.

(** ** Pointer alignment *)

Lemma land_high_mask x k :
  0 <= k <= 64 -> 0 <= x < 2 ^ 64 -> Z.land x (2 ^ 64 - 2 ^ k) = x / 2 ^ k * 2 ^ k.
Proof.
  intros Hk Hx.
  assert (2 ^ 64 - 2 ^ k = Z.shiftl (Z.ones (64 - k)) k) as ->.
  { rewrite Z.shiftl_mul_pow2, Z.ones_equiv, Z.mul_pred_l, <- Z.pow_add_r by lia.
    by replace (64 - k + k) with 64 by lia. }
  rewrite <- Z.shiftr_div_pow2, <- Z.shiftl_mul_pow2 by lia.
  apply Z.bits_inj'. intros i Hi. rewrite Z.land_spec, !Z.shiftl_spec by lia.
  destruct (Z.ltb_spec i k).
  { rewrite !(Z.testbit_neg_r _ (i - k)) by lia. by rewrite andb_false_r. }
  rewrite Z.shiftr_spec, Z.testbit_ones_nonneg by lia.
  replace (i - k + k) with i by lia.
  destruct (Z.ltb_spec (i - k) (64 - k)); [by rewrite andb_true_r|].
  rewrite andb_false_r. symmetry.
  destruct (Z.eq_dec x 0) as [->|]; [apply Z.bits_0|].
  apply Z.bits_above_log2; [lia|]. apply Z.log2_lt_pow2; [lia|].
  assert (2 ^ 64 <= 2 ^ i) by (apply Z.pow_le_mono_r; lia). lia.
Qed.

(** The alignments of the arithmetic types. *)
Definition is_align (al : Z) : Prop := al = 1 \/ al = 2 \/ al = 4 \/ al = 8.

Lemma is_align_pow al : is_align al -> exists k, 0 <= k <= 3 /\ al = 2 ^ k.
Proof. intros [->|[->|[->| ->]]]; [exists 0|exists 1|exists 2|exists 3]; by split. Qed.

Lemma is_align_bound al : is_align al -> 0 < al <= 8.
Proof. unfold is_align. lia. Qed.

(** Masking with [~(alignment - 1)] rounds down to a multiple, so the mask
    version agrees with the encoder's division as long as nothing wraps. *)
Lemma roundUp_mask ptr al :
  is_align al -> 0 <= ptr < 2 ^ 64 ->
  roundUpToAlignment ptr al = u64 (ptr + al - 1) / al * al.
Proof.
  intros Hal Hp. pose proof (is_align_bound _ Hal). unfold roundUpToAlignment.
  rewrite (wrap_small 64 (al - 1)) by lia.
  destruct (is_align_pow _ Hal) as (k & Hk & ->).
  replace (u64 (Z.lnot (2 ^ k - 1))) with (2 ^ 64 - 2 ^ k).
  2:{ unfold wrap, Z.lnot.
      apply (Z.mod_unique _ _ (-1)); [|lia]. left. lia. }
  replace (ptr + (2 ^ k - 1)) with (ptr + 2 ^ k - 1) by lia.
  apply land_high_mask; [lia|]. apply wrap_range. lia.
Qed.

Lemma roundUp_mask_padding ptr al :
  is_align al -> 0 <= ptr -> ptr + al <= 2 ^ 64 ->
  roundUpToAlignment ptr al = ptr + padding ptr al.
Proof.
  intros Hal Hp Hb. pose proof (is_align_bound _ Hal).
  rewrite roundUp_mask by (try done; lia).
  rewrite <- roundUp_padding by lia. unfold IpcEncoder.roundUpToAlignment.
  rewrite (wrap_small 64 (_ * _)); [done|].
  unfold wrap. rewrite Z.mod_small by lia.
  pose proof (Z.div_mod (ptr + al - 1) al ltac:(lia)).
  pose proof (Z.mod_pos_bound (ptr + al - 1) al ltac:(lia)).
  pose proof (Z.div_pos (ptr + al - 1) al ltac:(lia) ltac:(lia)). lia.
Qed.

(** A successful alignment moves the position forward inside the buffer, with
    [size] bytes available after it. *)
Lemma alignBufferPosition_spec al size d :
  wf d -> is_align al -> 0 <= size ->
  match alignBufferPosition al size d with
  | (false, d1) => d1 = markInvalid d
  | (true, d1) => d1 = set_pos (m_bufferPos d + padding (m_bufferPos d) al) d /\
      m_bufferPos d <> 0 /\ m_bufferPos d + padding (m_bufferPos d) al + size <= m_bufferEnd d
  end.
Proof.
  intros [W1 W2 W3 W6 W4 W5] Hal Hs. pose proof (is_align_bound _ Hal).
  unfold alignBufferPosition. destruct (negb _) eqn:E; [done|]. zb.
  unfold alignedBufferIsLargeEnoughToContain in E. zb.
  assert (m_bufferPos d <> 0 /\ m_bufferPos d + al <= 2 ^ 64) as [Hnz Hb].
  { rewrite roundUp_mask in * by (try done; lia). unfold wrap in *.
    pose proof (zlen_nonneg (m_data d)).
    destruct (Z.le_gt_cases (m_bufferPos d + al) (2 ^ 64)).
    - split; [|done]. intros E0. rewrite E0 in *.
      rewrite (Z.mod_small (0 + al - 1)) in * by lia. rewrite (Z.div_small (0 + al - 1)) in * by lia. lia.
    - exfalso. assert ((m_bufferPos d + al - 1) mod 2 ^ 64 = m_bufferPos d + al - 1 - 2 ^ 64) as Em.
      { symmetry. apply (Z.mod_unique _ _ 1); [left|]; lia. }
      rewrite Em in *. rewrite Z.div_small in * by lia. lia. }
  rewrite roundUp_mask_padding in * by (try done; lia).
  rewrite wrap_small in * by lia. split; [done|lia].
Qed.

Lemma Forall_mem_read (P : Z -> Prop) b off n l :
  Forall P b -> mem_read b off n = Ok l -> Forall P l.
Proof.
  unfold mem_read. intros H. destruct (_ && _); [|done]. intros [= <-].
  by apply Forall_take, Forall_drop.
Qed.

Lemma decodeFixedLengthData_spec size al d :
  wf d -> is_align al -> 0 <= size ->
  exists o d', decodeFixedLengthData size al d = Ok (o, d') /\ wf d' /\ step_ok d d' /\
    match o with
    | None => m_bufferPos d' = 0
    | Some l => zlen l = size /\ Forall (in_range 8) l
    end.
Proof.
  intros Hw Hal Hs. unfold decodeFixedLengthData.
  pose proof (alignBufferPosition_spec al size d Hw Hal Hs) as H.
  pose proof (padding_range (m_bufferPos d) al ltac:(apply is_align_bound in Hal; lia)).
  destruct (alignBufferPosition al size d) as [[|] d1].
  - destruct H as (-> & Hnz & Hb). destruct Hw as [W1 W2 W3 W6 W4 W5]. cbn.
    destruct (mem_read_ok (m_data d) (m_bufferPos d + padding (m_bufferPos d) al - m_buffer d) size)
      as (l & Hl & Hz); [lia..|].
    rewrite Hl. cbn. do 2 eexists. split; [done|]. repeat split; cbn; eauto using Forall_mem_read; lia.
  - subst. do 2 eexists. split; [done|]. eauto using wf_markInvalid, step_ok_markInvalid.
Qed.

Lemma safe_decodeFixedLengthData size al : is_align al -> 0 <= size -> safe (decodeFixedLengthData size al).
Proof.
  intros Hal Hs d Hd. destruct (decodeFixedLengthData_spec size al d Hd Hal Hs) as (o & d' & ?).
  exists o, d'. tauto.
Qed.

(** The decoded value is in the range of its type, whatever the message. *)
Lemma decode_arith_spec n d :
  wf d -> is_align (Z.of_nat n) ->
  exists o d', decode_arith n d = Ok (o, d') /\ wf d' /\ step_ok d d' /\
    match o with
    | None => m_bufferPos d' = 0
    | Some v => 0 <= v < 256 ^ Z.of_nat n
    end.
Proof.
  intros Hd Hal. unfold decode_arith, bind.
  destruct (decodeFixedLengthData_spec (Z.of_nat n) (Z.of_nat n) d Hd Hal) as (o & d' & -> & ? & ? & Ho); [lia|].
  cbn. destruct o as [l|]; [|eauto 10].
  destruct Ho as [Hl Hb]. apply le_combine_range in Hb. rewrite Hl in Hb. unfold ret. eauto 10.
Qed.

Lemma safe_decode_arith n : is_align (Z.of_nat n) -> safe (decode_arith n).
Proof.
  intros Hal d Hd. destruct (decode_arith_spec n d Hd Hal) as (o & d' & ?). exists o, d'. tauto.
Qed.

(** ** Decoding what was encoded *)

(** The decoder stands after [pre], and [rest] is what is left to read; the
    buffer is aligned as the constructor requires. *)
Record at_pos (d : t) (pre rest : list Z) : Prop := {
  ap_wf : wf d;
  ap_align : m_buffer d mod 8 = 0;
  ap_data : m_data d = pre ++ rest;
  ap_pos : m_bufferPos d = m_buffer d + zlen pre
}.

(** The decoder moved to offset [n] of its buffer. *)
Definition advance (n : Z) (d : t) : t := set_pos (m_buffer d + n) d.

Lemma at_pos_advance d pre w rest :
  at_pos d pre (w ++ rest) -> at_pos (advance (zlen (pre ++ w)) d) (pre ++ w) rest.
Proof.
  intros [[W1 W2 W3 W6 W4 W5] Ha Hd Hp]. constructor; cbn; try done; [|by rewrite <- app_assoc].
  constructor; cbn; try done. right. rewrite W2, Hd. autorewrite with zlen.
  pose proof (zlen_nonneg pre); pose proof (zlen_nonneg w); pose proof (zlen_nonneg rest). lia.
Qed.

Lemma advance_advance a b d : advance a (advance b d) = advance a d.
Proof. done. Qed.

Lemma padding_shift base pos al :
  is_align al -> base mod 8 = 0 -> padding (base + pos) al = padding pos al.
Proof.
  intros Hal Hb. unfold padding. rewrite Z.opp_add_distr.
  apply Z.div_exact in Hb; [|lia]. rewrite Hb.
  destruct Hal as [->|[->|[->| ->]]]; zdiv.
Qed.

Lemma decodeFixedLengthData_at al data d pre rest :
  is_align al -> at_pos d pre (aligned al data (zlen pre) ++ rest) ->
  decodeFixedLengthData (zlen data) al d =
    Ok (Some data, advance (zlen (pre ++ aligned al data (zlen pre))) d).
Proof.
  intros Hal Hat. pose proof Hat as [Hw Ha Hd Hp].
  pose proof (is_align_bound _ Hal) as Hb.
  pose proof (zlen_nonneg pre); pose proof (zlen_nonneg data); pose proof (zlen_nonneg rest).
  pose proof (padding_range (zlen pre) al ltac:(lia)).
  assert (m_bufferEnd d = m_buffer d + (zlen pre + padding (zlen pre) al + zlen data + zlen rest)) as He.
  { rewrite (wf_end _ Hw), Hd. autorewrite with zlen. rewrite zlen_aligned by lia. lia. }
  pose proof (wf_top _ Hw). pose proof (wf_start _ Hw). pose proof (wf_small _ Hw) as Hsm.
  unfold decodeFixedLengthData, alignBufferPosition.
  assert (roundUpToAlignment (m_bufferPos d) al = m_buffer d + zlen pre + padding (zlen pre) al) as ->.
  { rewrite Hp. destruct (Z.le_gt_cases (m_buffer d + zlen pre + al) (2 ^ 64)).
    - rewrite roundUp_mask_padding, padding_shift by (try done; lia). lia.
    - (* the block ends below 2^64 and its start is a multiple of 8 *)
      exfalso. assert (padding (m_buffer d + zlen pre) al = padding (zlen pre) al) as Hps by by apply padding_shift.
      pose proof (padding_spec (m_buffer d + zlen pre) al ltac:(lia)) as Hm.
      rewrite Hps in Hm. destruct Hal as [->|[->|[->| ->]]]; zdiv. }
  unfold alignedBufferIsLargeEnoughToContain.
  rewrite wrap_small by lia. rewrite !(proj2 (Z.leb_le _ _)) by lia. cbn.
  replace (m_buffer d + zlen pre + padding (zlen pre) al - m_buffer d)
    with (zlen (pre ++ replicate (Z.to_nat (padding (zlen pre) al)) 0)) by (autorewrite with zlen; lia).
  rewrite Hd. unfold aligned at 1. rewrite <- app_assoc, app_assoc, mem_read_app. cbn.
  unfold advance. rewrite zlen_app, zlen_aligned by lia. unfold set_pos; cbn.
  match goal with |- Ok (_, mk _ _ ?a _ _ _ _ _) = Ok (_, mk _ _ ?b _ _ _ _ _) =>
    by replace b with a by lia end.
Qed.

Lemma decode_arith_at n v d pre rest :
  is_align (Z.of_nat n) -> 0 <= v < 256 ^ Z.of_nat n ->
  at_pos d pre (aligned (Z.of_nat n) (le_split n v) (zlen pre) ++ rest) ->
  decode_arith n d =
    Ok (Some v, advance (zlen (pre ++ aligned (Z.of_nat n) (le_split n v) (zlen pre))) d).
Proof.
  intros Hal Hv Hat. unfold decode_arith, bind.
  pose proof (decodeFixedLengthData_at _ _ _ _ _ Hal Hat) as E. rewrite zlen_le_split in E. rewrite E.
  cbn. by rewrite le_combine_split.
Qed.

(** The size check before an allocation succeeds on what was encoded. *)
Lemma bufferIsLargeEnough_at n k data d pre rest :
  is_align (Z.of_nat n) -> zlen data = k * Z.of_nat n -> 0 <= k ->
  at_pos d pre (aligned (Z.of_nat n) data (zlen pre) ++ rest) ->
  bufferIsLargeEnoughToContain_arith n k d = true.
Proof.
  intros Hal Hk Hk0 Hat. pose proof (decodeFixedLengthData_at _ _ _ _ _ Hal Hat) as E.
  pose proof (is_align_bound _ Hal).
  pose proof (wf_small _ (ap_wf _ _ _ Hat)) as Hsm. rewrite (ap_data _ _ _ Hat) in Hsm.
  autorewrite with zlen in Hsm. rewrite zlen_aligned in Hsm by lia.
  pose proof (zlen_nonneg pre); pose proof (zlen_nonneg rest).
  pose proof (padding_range (zlen pre) (Z.of_nat n) ltac:(lia)).
  unfold maxReceived in Hsm. unfold bufferIsLargeEnoughToContain_arith.
  destruct (Z.ltb_spec (SIZE_MAX / Z.of_nat n) k) as [Hlt|_].
  { exfalso. assert (k <= SIZE_MAX / Z.of_nat n); [|lia].
    apply Z.div_le_lower_bound; unfold SIZE_MAX; lia. }
  rewrite <- Hk. unfold decodeFixedLengthData, alignBufferPosition in E.
  unfold bufferIsLargeEnoughToContain. destruct (alignedBufferIsLargeEnoughToContain _ _ _ _); done.
Qed.

End Decoder.
