(* ===== verification/IpcCoders.v ===== *)
(** * Argument coders (ipc/ArgumentCoders.h, ipc/ArgumentCoders.cpp)

    [ArgumentCoder T] is the source's template: how a value of [T] is written
    to an encoder and read from a decoder.  The source often has two [decode]
    overloads of one body, a "legacy" one with an out-parameter and a "modern"
    one that returns an [Optional]; both are the one [decode] here.
    [LawfulCoder T] is what one coder promises to the coders built from it: the
    bytes it appends ([wire], which depends on the position through the
    alignment) and that decoding these bytes gives the value back.  The laws of a
    compound coder are proved from the laws of its parts; what decoding does on
    other bytes is the subject of [IpcSafety]. *)
From stdpp Require Import gmap.
From S2P Require Import Prelude IpcEncoder IpcDecoder.
#[local] Open Scope cfetch_scope.
Import Decoder.

Class ArgumentCoder (T : Type) := {
  encode : T -> Encoder -> res Encoder;
  decode : M T
}.

(** [f] appends the bytes [w] (given the position they start at). *)
Definition enc_ok (f : Encoder -> res Encoder) (w : Z -> list Z) : Prop := forall e bs,
  enc_repr e bs -> zlen bs + zlen (w (zlen bs)) <= maxMessage ->
  exists e', f e = Ok e' /\ enc_repr e' (bs ++ w (zlen bs)) /\ same_meta e e'.

(** On a message that goes on with the bytes [w], [m] returns [t] and stops
    right after them. *)
Definition dec_ok {T} (m : M T) (t : T) (w : Z -> list Z) : Prop := forall d pre rest,
  at_pos d pre (w (zlen pre) ++ rest) ->
  m d = Ok (Some t, advance (zlen (pre ++ w (zlen pre))) d).

Class LawfulCoder (T : Type) `{ArgumentCoder T} := {
  (** the values the source can encode *)
  encodable : T -> Prop;
  (** the bytes of a value at a position *)
  wire : T -> Z -> list Z;
  encode_wire t : encodable t -> enc_ok (encode t) (wire t);
  wire_bytes t pos : encodable t -> Forall (in_range 8) (wire t pos);
  decode_wire t : encodable t -> dec_ok decode t (wire t)
}.

(** ** Arithmetic types, by the bytes of their object representation *)

(** Sizes (and alignments) of the arithmetic types. *)
Class ArithSize (n : nat) := arith_align : is_align (Z.of_nat n).
#[global] Instance arith_1 : ArithSize 1. Proof. by left. Qed.
#[global] Instance arith_2 : ArithSize 2. Proof. by right; left. Qed.
#[global] Instance arith_4 : ArithSize 4. Proof. by do 2 right; left. Qed.
#[global] Instance arith_8 : ArithSize 8. Proof. by do 3 right. Qed.

Inductive uint (n : nat) : Type := UInt (v : Z).
Arguments UInt {n} _.
Definition uint_val {n} (x : uint n) : Z := match x with UInt v => v end.

Definition encode_uint {n} (x : uint n) : Encoder -> res Encoder := encode_arith n (uint_val x).
Definition decode_uint n : M (uint n) := v <- decode_arith n ;; ret (UInt v).
#[global] Instance uint_coder n : ArgumentCoder (uint n) :=
  { encode := encode_uint; decode := decode_uint n }.

(** [bool]: one byte.  The bytes of the message are copied over the object, and
    every byte but 0 and 1 is no value of the type: reading it is undefined. *)
Definition read_bool (byte : Z) : res bool :=
  if byte =? 0 then Ok false else if byte =? 1 then Ok true else UB.
Definition encode_bool (b : bool) : Encoder -> res Encoder := encode_arith 1 (if b then 1 else 0).
Definition decode_bool : M bool := v <- decode_arith 1 ;; fun d => b ← read_bool v; Ok (Some b, d).
#[global] Instance bool_coder : ArgumentCoder bool := { encode := encode_bool; decode := decode_bool }.

(** Enumerations, by the value of their underlying type of [n] bytes. *)
Inductive enum (n : nat) (isValidEnum : Z -> bool) : Type := Enum (v : Z).
Arguments Enum {n isValidEnum} _.
Definition enum_val {n isValidEnum} (x : enum n isValidEnum) : Z := match x with Enum v => v end.
Definition encode_enum {n isValidEnum} (x : enum n isValidEnum) : Encoder -> res Encoder :=
  encode_arith n (enum_val x).
Definition decode_enum_value n isValidEnum : M (enum n isValidEnum) :=
  v <- decode_enum n isValidEnum ;; ret (Enum v).
#[global] Instance enum_coder n isValidEnum : ArgumentCoder (enum n isValidEnum) :=
  { encode := encode_enum; decode := decode_enum_value n isValidEnum }.

(** ** SimpleArgumentCoder: a POD of [size] bytes *)
Definition encode_simple (alignment : Z) (bytes : list Z) : Encoder -> res Encoder :=
  encodeFixedLengthData bytes alignment.
Definition decode_simple (size alignment : Z) : M (list Z) := decodeFixedLengthData size alignment.

(** ** OptionSet *)
Inductive optset (n : nat) (values : list Z) : Type := OptSet (raw : Z).
Arguments OptSet {n values} _.
Definition encode_OptionSet {n values} (s : optset n values) : Encoder -> res Encoder :=
  match s with OptSet raw => encode_arith n raw end.
Definition decode_optset n values : M (optset n values) :=
  raw <- decode_OptionSet n values ;; ret (OptSet raw).
#[global] Instance optset_coder n values : ArgumentCoder (optset n values) :=
  { encode := encode_OptionSet; decode := decode_optset n values }.

(** ** Optional and Box *)
Section Optional.
Context {T : Type} `{ArgumentCoder T}.

Definition encode_Optional (o : option T) (e : Encoder) : res Encoder :=
  match o with
  | None => encode false e
  | Some value => e1 ← encode true e; encode value e1
  end.

Definition decode_Optional : M (option T) :=
  isEngaged <- decode ;;
  if (isEngaged : bool) then value <- decode ;; ret (Some value)
  else ret None.

#[global] Instance Optional_coder : ArgumentCoder (option T) :=
  { encode := encode_Optional; decode := decode_Optional }.

(** [Box<T>]: a null or owning pointer. *)
Inductive Box : Type := BoxNull | BoxOf (value : T).

Definition encode_Box (b : Box) (e : Encoder) : res Encoder :=
  match b with
  | BoxNull => encode false e
  | BoxOf value => e1 ← encode true e; encode value e1
  end.

Definition decode_Box : M Box :=
  isEngaged <- decode ;;
  if (isEngaged : bool) then value <- decode ;; ret (BoxOf value)
  else ret BoxNull.

#[global] Instance Box_coder : ArgumentCoder Box := { encode := encode_Box; decode := decode_Box }.
End Optional.
Arguments Box : clear implicits.

(** ** Pairs, key-value pairs and tuples *)
Section Pair.
Context {T U : Type} `{ArgumentCoder T, ArgumentCoder U}.

Definition encode_pair (p : T * U) (e : Encoder) : res Encoder :=
  e1 ← encode p.1 e; encode p.2 e1.

Definition decode_pair : M (T * U) :=
  first <- decode ;; second <- decode ;; ret (first, second).

#[global] Instance pair_coder : ArgumentCoder (T * U) :=
  { encode := encode_pair; decode := decode_pair }.
End Pair.

Record KeyValuePair (K V : Type) := mkKeyValuePair { key : K; value : V }.
Arguments mkKeyValuePair {K V} _ _.
Arguments key {K V} _.
Arguments value {K V} _.

Section KeyValuePair.
Context {K V : Type} `{ArgumentCoder K, ArgumentCoder V}.

Definition encode_KeyValuePair (p : KeyValuePair K V) (e : Encoder) : res Encoder :=
  e1 ← encode (key p) e; encode (value p) e1.

Definition decode_KeyValuePair : M (KeyValuePair K V) :=
  k <- decode ;; v <- decode ;; ret (mkKeyValuePair k v).

#[global] Instance KeyValuePair_coder : ArgumentCoder (KeyValuePair K V) :=
  { encode := encode_KeyValuePair; decode := decode_KeyValuePair }.
End KeyValuePair.

(** [std::tuple<Elements...>], by its list of element types. *)
Inductive tuple : list Type -> Type :=
| tuple_nil : tuple []
| tuple_cons {T Ts} (x : T) (rest : tuple Ts) : tuple (T :: Ts).

Definition tuple_head {T Ts} (t : tuple (T :: Ts)) : T := match t with tuple_cons x _ => x end.
Definition tuple_tail {T Ts} (t : tuple (T :: Ts)) : tuple Ts := match t with tuple_cons _ r => r end.

(** [TupleEncoder<0>] writes nothing and [TupleDecoder<0>] makes the empty tuple. *)
Definition encode_tuple_nil (_ : tuple []) (e : Encoder) : res Encoder := Ok e.
Definition decode_tuple_nil : M (tuple []) := ret tuple_nil.
#[global] Instance tuple_nil_coder : ArgumentCoder (tuple []) :=
  { encode := encode_tuple_nil; decode := decode_tuple_nil }.

Section TupleStep.
Context {T : Type} {Ts : list Type} `{ArgumentCoder T, ArgumentCoder (tuple Ts)}.

(** [TupleEncoder<index>]: the element, then [TupleEncoder<index - 1>]. *)
Definition encode_tuple (t : tuple (T :: Ts)) (e : Encoder) : res Encoder :=
  e1 ← encode (tuple_head t) e; encode (tuple_tail t) e1.

(** [TupleDecoderImpl]: the element, the sub-tuple, [tupleFromTupleAndObject]. *)
Definition decode_tuple : M (tuple (T :: Ts)) :=
  object <- decode ;; subTuple <- decode ;; ret (tuple_cons object subTuple).

#[global] Instance tuple_cons_coder : ArgumentCoder (tuple (T :: Ts)) :=
  { encode := encode_tuple; decode := decode_tuple }.
End TupleStep.

(** ** Vectors *)

(** [Vector<T>] of a type that is not arithmetic: the size, then the elements. *)
Class SizeOf (T : Type) := size_of : Z.

(** [Vector::append] at [size] elements: the capacity after it, or [None] when the
    new storage would pass 4 GiB, which ends in [CRASH()]. *)
Definition append_capacity (element size capacity : Z) : option Z :=
  if negb (size =? capacity) then Some capacity
  else
    let newCapacity := Z.max (size + 1) (Z.max 16 (capacity + capacity / 4 + 1)) in
    if UINT32_MAX / element <? newCapacity then None else Some newCapacity.

Section Vector.
Context {T : Type} `{ArgumentCoder T, SizeOf T}.

Fixpoint encode_elements (l : list T) (e : Encoder) : res Encoder :=
  match l with
  | [] => Ok e
  | x :: l => e1 ← encode x e; encode_elements l e1
  end.

Definition encode_Vector (vector : list T) (e : Encoder) : res Encoder :=
  e1 ← encode (UInt (n := 8) (zlen vector)) e; encode_elements vector e1.

(** [for (size_t i = 0; i < size; ++i)], from the elements decoded so far; [shrinkToFit] keeps them. *)
Fixpoint decode_elements (n : nat) (capacity : Z) (acc : list T) : M (list T) :=
  match n with
  | O => ret acc
  | S n =>
      element <- decode ;;
      match append_capacity (size_of (T := T)) (zlen acc) capacity with
      | None => fun _ => Crash
      | Some capacity => decode_elements n capacity (acc ++ [element])
      end
  end.

Definition decode_Vector : M (list T) :=
  size <- (decode : M (uint 8)) ;;
  decode_elements (Z.to_nat (uint_val size)) 0 [].

#[global] Instance Vector_coder : ArgumentCoder (list T) :=
  { encode := encode_Vector; decode := decode_Vector }.
End Vector.

(** [Vector<T>] of an arithmetic type of [n] bytes: the size, then one copy of
    the storage.  [Vector::grow] ends in [CRASH()] when the allocation would
    pass 4 GiB. *)
Inductive arith_vec (n : nat) : Type := ArithVec (elements : list Z).
Arguments ArithVec {n} _.

Definition storage_bytes (n : nat) (elements : list Z) : list Z :=
  concat (le_split n <$> elements).

(** The [k] elements of [n] bytes that a storage block holds. *)
Fixpoint storage_elements (n k : nat) (bytes : list Z) : list Z :=
  match k with
  | O => []
  | S k => le_combine (take n bytes) :: storage_elements n k (drop n bytes)
  end.

Definition encode_ArithVector {n} (v : arith_vec n) (e : Encoder) : res Encoder :=
  match v with
  | ArithVec elements =>
      e1 ← encode (UInt (n := 8) (zlen elements)) e;
      encodeFixedLengthData (storage_bytes n elements) (Z.of_nat n) e1
  end.

Definition Vector_grow_crashes (n : nat) (size : Z) : bool :=
  UINT32_MAX / Z.of_nat n <? size.

Definition decode_ArithVector n : M (arith_vec n) := fun d =>
  '(o, d1) ← decode_arith 8 d;
  match o with
  | None => Ok (None, markInvalid d1)
  | Some decodedSize =>
      if negb (decodedSize <=? SIZE_MAX) then Ok (None, markInvalid d1)
      else
        let size := decodedSize in
        if negb (bufferIsLargeEnoughToContain_arith n size d1) then Ok (None, markInvalid d1)
        else if Vector_grow_crashes n size then Crash
        else
          '(o2, d2) ← decodeFixedLengthData (size * Z.of_nat n) (Z.of_nat n) d1;
          match o2 with
          | None => Ok (None, markInvalid d2)
          | Some bytes => Ok (Some (ArithVec (storage_elements n (Z.to_nat size) bytes)), d2)
          end
  end.

#[global] Instance ArithVector_coder n : ArgumentCoder (arith_vec n) :=
  { encode := encode_ArithVector; decode := decode_ArithVector n }.

(** ** Expected *)
Section Expected.
Context {V E : Type} `{ArgumentCoder V, ArgumentCoder E}.

(** [inl] is the value, [inr] the error. *)
Definition encode_Expected (x : V + E) (e : Encoder) : res Encoder :=
  match x with
  | inr error => e1 ← encode false e; encode error e1
  | inl v => e1 ← encode true e; encode v e1
  end.

Definition decode_Expected : M (V + E) :=
  hasValue <- decode ;;
  if (hasValue : bool) then v <- decode ;; ret (inl v)
  else error <- decode ;; ret (inr error).

#[global] Instance Expected_coder : ArgumentCoder (V + E) :=
  { encode := encode_Expected; decode := decode_Expected }.
End Expected.

(** ** Variant

    [V] is the variant type and [alts] its alternatives: how [WTF::get<i>] of a
    value is written and how alternative [i] is read. *)
Section Variant.
Context {V : Type}.

Record alternative := mkAlternative {
  alt_encode : V -> Encoder -> res Encoder;
  alt_decode : M V
}.

Variable alts : list alternative.
Variable index : V -> nat.

(** [VariantCoder<k>::encode]: try [k], then [k - 1], down to alternative 0,
    which is taken without a test. *)
Fixpoint VariantCoder_encode (k : nat) (v : V) (i : Z) (e : Encoder) : res Encoder :=
  match alts !! k with
  | None => UB
  | Some a =>
      match k with
      | O => alt_encode a v e
      | S k' => if i =? Z.of_nat k then alt_encode a v e else VariantCoder_encode k' v i e
      end
  end.

Fixpoint VariantCoder_decode (k : nat) (i : Z) : M V :=
  match alts !! k with
  | None => fun _ => UB
  | Some a =>
      match k with
      | O => alt_decode a
      | S k' => if i =? Z.of_nat k then alt_decode a else VariantCoder_decode k' i
      end
  end.

Definition encode_Variant (v : V) (e : Encoder) : res Encoder :=
  let i := Z.of_nat (index v) in
  e1 ← encode (UInt (n := 4) i) e;
  VariantCoder_encode (List.length alts - 1) v i e1.

Definition decode_Variant : M V :=
  i <- (decode : M (uint 4)) ;;
  VariantCoder_decode (List.length alts - 1) (uint_val i).

Definition Variant_coder : ArgumentCoder V := {| encode := encode_Variant; decode := decode_Variant |}.
End Variant.
Arguments alternative : clear implicits.

(** ** Hash tables

    A hash map is a finite map; the order in which the iterator visits it is
    the bucket order, here the parameter [iteration].  [isValidKey] rejects the
    two key values that the table reserves for empty and deleted buckets. *)
Section HashMap.
Context {K V : Type} `{Countable K, ArgumentCoder K, ArgumentCoder V}.
Variable iteration : gmap K V -> list (K * V).
Variable isValidKey : K -> bool.

Fixpoint encode_entries (l : list (K * V)) (e : Encoder) : res Encoder :=
  match l with
  | [] => Ok e
  | (k, v) :: l => e1 ← encode (mkKeyValuePair k v) e; encode_entries l e1
  end.

Definition encode_HashMap (m : gmap K V) (e : Encoder) : res Encoder :=
  e1 ← encode (UInt (n := 4) (u32 (Z.of_nat (size m)))) e;
  encode_entries (iteration m) e1.

(** [for (uint32_t i = 0; i < hashMapSize; ++i)], from the map built so far. *)
Fixpoint decode_entries (n : nat) (m : gmap K V) : M (gmap K V) :=
  match n with
  | O => ret m
  | S n =>
      k <- decode ;;
      v <- decode ;;
      if negb (isValidKey k) then invalidate
      else match m !! k with
           | Some _ => invalidate
           | None => decode_entries n (<[k := v]> m)
           end
  end.

Definition decode_HashMap : M (gmap K V) :=
  hashMapSize <- (decode : M (uint 4)) ;;
  decode_entries (Z.to_nat (uint_val hashMapSize)) ∅.

Definition HashMap_coder : ArgumentCoder (gmap K V) :=
  {| encode := encode_HashMap; decode := decode_HashMap |}.
End HashMap.

Section HashSet.
Context {K : Type} `{Countable K, ArgumentCoder K}.
Variable iteration : gset K -> list K.
Variable isValidValue : K -> bool.

Definition encode_HashSet (s : gset K) (e : Encoder) : res Encoder :=
  e1 ← encode (UInt (n := 8) (Z.of_nat (size s))) e;
  encode_elements (iteration s) e1.

Fixpoint decode_keys (n : nat) (s : gset K) : M (gset K) :=
  match n with
  | O => ret s
  | S n =>
      k <- decode ;;
      if negb (isValidValue k) then invalidate
      else if decide (k ∈ s) then invalidate
      else decode_keys n ({[k]} ∪ s)
  end.

Definition decode_HashSet : M (gset K) :=
  hashSetSize <- (decode : M (uint 8)) ;;
  decode_keys (Z.to_nat (uint_val hashSetSize)) ∅.
End HashSet.

(** [HashCountedSet]: the counts are [unsigned]. *)
Section HashCountedSet.
Context {K : Type} `{Countable K, ArgumentCoder K}.
Variable iteration : gmap K (uint 4) -> list (K * uint 4).
Variable isValidValue : K -> bool.

Fixpoint encode_counted (l : list (K * uint 4)) (e : Encoder) : res Encoder :=
  match l with
  | [] => Ok e
  | (k, c) :: l => e1 ← encode k e; e2 ← encode c e1; encode_counted l e2
  end.

Definition encode_HashCountedSet (m : gmap K (uint 4)) (e : Encoder) : res Encoder :=
  e1 ← encode (UInt (n := 8) (Z.of_nat (size m))) e;
  encode_counted (iteration m) e1.

Fixpoint decode_counted (n : nat) (m : gmap K (uint 4)) : M (gmap K (uint 4)) :=
  match n with
  | O => ret m
  | S n =>
      k <- decode ;;
      count <- (decode : M (uint 4)) ;;
      if negb (isValidValue k) then invalidate
      else match m !! k with
           | Some _ => invalidate
           | None => decode_counted n (<[k := count]> m)
           end
  end.

Definition decode_HashCountedSet : M (gmap K (uint 4)) :=
  hashCountedSetSize <- (decode : M (uint 8)) ;;
  decode_counted (Z.to_nat (uint_val hashCountedSetSize)) ∅.
End HashCountedSet.

(** ** Strings *)

(** A [CString] is null or a byte buffer. *)
Inductive CString : Type := CNull | CBytes (bytes : list Z).

Definition encode_CString (s : CString) (e : Encoder) : res Encoder :=
  match s with
  | CNull => encode (UInt (n := 4) UINT32_MAX) e
  | CBytes bytes =>
      let length := u32 (zlen bytes) in
      e1 ← encode (UInt (n := 4) length) e;
      data ← mem_read bytes 0 length;
      encodeFixedLengthData data 1 e1
  end.

Definition decode_CString : M CString :=
  length <- decode_arith 4 ;;
  if length =? UINT32_MAX then ret CNull
  else fun d =>
    if negb (bufferIsLargeEnoughToContain_arith 1 length d) then invalidate d
    else (bytes <- decodeFixedLengthData length 1 ;; ret (CBytes bytes)) d.

#[global] Instance CString_coder : ArgumentCoder CString :=
  { encode := encode_CString; decode := decode_CString }.

(** A [String] is null, Latin-1 ([LChar]) or UTF-16 ([UChar]). *)
Inductive WString : Type := SNull | S8 (chars : list Z) | S16 (chars : list Z).

(** [StringImpl::maxInternalLength] for characters of [n] bytes;
    [sizeof(StringImpl)] is 24. *)
Definition maxInternalLength (n : nat) : Z :=
  Z.min INT_MAX ((UINT32_MAX - 24) / Z.of_nat n).

Definition encode_String (s : WString) (e : Encoder) : res Encoder :=
  match s with
  | SNull => encode (UInt (n := 4) UINT32_MAX) e
  | S8 chars =>
      e1 ← encode (UInt (n := 4) (u32 (zlen chars))) e;
      e2 ← encode true e1;
      data ← mem_read (storage_bytes 1 chars) 0 (u32 (zlen chars) * 1);
      encodeFixedLengthData data 1 e2
  | S16 chars =>
      e1 ← encode (UInt (n := 4) (u32 (zlen chars))) e;
      e2 ← encode false e1;
      data ← mem_read (storage_bytes 2 chars) 0 (u32 (zlen chars) * 2);
      encodeFixedLengthData data 2 e2
  end.

Definition decodeStringText (n : nat) (length : Z) : M (list Z) := fun d =>
  if negb (bufferIsLargeEnoughToContain_arith n length d) then invalidate d
  else if negb (length =? 0) && (maxInternalLength n <? length) then Crash
  else
    (bytes <- decodeFixedLengthData (length * Z.of_nat n) (Z.of_nat n) ;;
     ret (storage_elements n (Z.to_nat length) bytes)) d.

Definition decode_String : M WString :=
  length <- decode_arith 4 ;;
  if length =? UINT32_MAX then ret SNull
  else
    is8Bit <- (decode : M bool) ;;
    if is8Bit then chars <- decodeStringText 1 length ;; ret (S8 chars)
    else chars <- decodeStringText 2 length ;; ret (S16 chars).

#[global] Instance String_coder : ArgumentCoder WString :=
  { encode := encode_String; decode := decode_String }.

(** ** The remaining coders of ArgumentCoders.cpp *)

(** [WallTime]: the double of its seconds, by its bits. *)
Inductive WallTime : Type := WallTimeBits (bits : uint 8).
Definition encode_WallTime (t : WallTime) : Encoder -> res Encoder :=
  match t with WallTimeBits bits => encode bits end.
Definition decode_WallTime : M WallTime := bits <- decode ;; ret (WallTimeBits bits).
#[global] Instance WallTime_coder : ArgumentCoder WallTime :=
  { encode := encode_WallTime; decode := decode_WallTime }.

(** [SHA1::Digest]: 20 bytes. *)
Definition sha1HashSize : Z := 20.
Definition encode_SHA1Digest (digest : list Z) : Encoder -> res Encoder :=
  encodeFixedLengthData digest 1.
Definition decode_SHA1Digest : M (list Z) := decodeFixedLengthData sha1HashSize 1.

Definition encode_Monostate (_ : unit) (e : Encoder) : res Encoder := Ok e.
Definition decode_Monostate : M unit := ret tt.
#[global] Instance Monostate_coder : ArgumentCoder unit :=
  { encode := encode_Monostate; decode := decode_Monostate }.

(** [DataReference]: a byte array by reference. *)
Inductive DataReference : Type := DataRef (bytes : list Z).
Definition encode_DataReference (r : DataReference) : Encoder -> res Encoder :=
  match r with DataRef bytes => encodeVariableLengthByteArray bytes end.
Definition decode_DataReference : M DataReference :=
  bytes <- decodeVariableLengthByteArray ;; ret (DataRef bytes).
#[global] Instance DataReference_coder : ArgumentCoder DataReference :=
  { encode := encode_DataReference; decode := decode_DataReference }.

(** ** Laws of the steps *)

(** Layout of two consecutive items. *)
Definition wseq (w1 w2 : Z -> list Z) (pos : Z) : list Z :=
  w1 pos ++ w2 (pos + zlen (w1 pos)).
Definition wnil (pos : Z) : list Z := [].

Create HintDb coder.

Lemma bytes_aligned al data pos : Forall (in_range 8) data -> Forall (in_range 8) (aligned al data pos).
Proof. intros. apply Forall_app. split; [|done]. by apply Forall_replicate. Qed.

Lemma bytes_wseq w1 w2 pos :
  (forall pos, Forall (in_range 8) (w1 pos)) -> (forall pos, Forall (in_range 8) (w2 pos)) ->
  Forall (in_range 8) (wseq w1 w2 pos).
Proof. intros. by apply Forall_app. Qed.

Lemma enc_ok_ext f w w' : enc_ok f w -> (forall pos, w pos = w' pos) -> enc_ok f w'.
Proof. intros H E e bs He Hl. rewrite <- E in *. by apply H. Qed.

Lemma dec_ok_ext {T} (m : M T) t w w' : dec_ok m t w -> (forall pos, w pos = w' pos) -> dec_ok m t w'.
Proof. intros H E d pre rest Hd. rewrite <- E in *. by eapply H. Qed.

Lemma enc_nil : enc_ok (fun e => Ok e) wnil.
Proof. intros e bs He _. exists e. unfold wnil. rewrite app_nil_r. by repeat split; try apply He. Qed.

Lemma enc_seq f g w1 w2 :
  enc_ok f w1 -> enc_ok g w2 -> enc_ok (fun e => e1 ← f e; g e1) (wseq w1 w2).
Proof.
  intros Hf Hg e bs He Hl. unfold wseq in Hl. autorewrite with zlen in Hl.
  pose proof (zlen_nonneg (w2 (zlen bs + zlen (w1 (zlen bs))))).
  destruct (Hf e bs He) as (e1 & E1 & H1 & M1); [lia|]. cbn. rewrite E1. cbn.
  destruct (Hg e1 _ H1) as (e2 & E2 & H2 & M2); [autorewrite with zlen; lia|].
  exists e2. rewrite E2. split; [done|]. split; [|by eapply same_meta_trans].
  unfold wseq. rewrite zlen_app in H2. by rewrite app_assoc.
Qed.

Lemma dec_ret {T} (t : T) : dec_ok (ret t) t wnil.
Proof.
  intros d pre rest Hd. unfold wnil, ret, advance. rewrite app_nil_r, <- (ap_pos _ _ _ Hd).
  by destruct d.
Qed.

Lemma dec_bind {T U} (m : M T) (k : T -> M U) t u w1 w2 :
  dec_ok m t w1 -> dec_ok (k t) u w2 -> dec_ok (bind m k) u (wseq w1 w2).
Proof.
  intros Hm Hk d pre rest Hd. unfold bind. unfold wseq in *. rewrite <- app_assoc in Hd.
  rewrite (Hm d pre _ Hd). cbn.
  apply at_pos_advance in Hd.
  rewrite <- zlen_app in Hd. rewrite (Hk _ _ _ Hd), advance_advance.
  by rewrite <- zlen_app, app_assoc.
Qed.

Lemma dec_map {T U} (f : T -> U) (m : M T) t w :
  dec_ok m t w -> dec_ok (x <- m ;; ret (f x)) (f t) w.
Proof.
  intros H. eapply dec_ok_ext; [apply (dec_bind _ _ t _ w wnil H), dec_ret|].
  intros pos. unfold wseq, wnil. apply app_nil_r.
Qed.

Lemma enc_fixed data al : 0 < al <= 4096 -> enc_ok (encodeFixedLengthData data al) (aligned al data).
Proof. intros Hal e bs He Hl. by apply encodeFixedLengthData_repr. Qed.

Lemma dec_fixed data al n :
  is_align al -> zlen data = n -> dec_ok (decodeFixedLengthData n al) data (aligned al data).
Proof. intros Hal <- d pre rest Hd. by eapply decodeFixedLengthData_at. Qed.

Lemma enc_arith n v : is_align (Z.of_nat n) -> enc_ok (encode_arith n v) (aligned (Z.of_nat n) (le_split n v)).
Proof. intros Hal. apply enc_fixed. apply is_align_bound in Hal. lia. Qed.

Lemma dec_arith n v :
  is_align (Z.of_nat n) -> 0 <= v < 256 ^ Z.of_nat n ->
  dec_ok (decode_arith n) v (aligned (Z.of_nat n) (le_split n v)).
Proof. intros Hal Hv d pre rest Hd. by eapply decode_arith_at. Qed.

#[export] Hint Resolve enc_nil enc_seq dec_ret dec_bind dec_map : coder.
#[export] Hint Resolve safe_bind safe_ret safe_fail safe_invalidate safe_if
  safe_decode_arith safe_decodeFixedLengthData arith_align : coder.

#[global] Program Instance uint_lawful n `{!ArithSize n} : LawfulCoder (uint n) := {
  encodable x := 0 <= uint_val x < 256 ^ Z.of_nat n;
  wire x := aligned (Z.of_nat n) (le_split n (uint_val x))
}.
Next Obligation. intros n Hn [v] Hv. by apply enc_arith. Qed.
Next Obligation. intros n Hn [v] pos _. apply bytes_aligned, le_split_bytes. Qed.
Next Obligation. intros n Hn [v] Hv. by apply (dec_map UInt), dec_arith. Qed.

#[global] Program Instance bool_lawful : LawfulCoder bool := {
  encodable _ := True;
  wire b := aligned 1 [if b then 1 else 0]
}.
Next Obligation. intros b _. pose proof (enc_arith 1 (if b then 1 else 0) arith_1). by destruct b. Qed.
Next Obligation. intros [|] pos _; apply bytes_aligned; by repeat constructor. Qed.
Next Obligation.
  intros b _. pose proof (dec_arith 1 (if b then 1 else 0) arith_1 ltac:(destruct b; cbn; lia)) as H.
  destruct b; (eapply dec_ok_ext;
    [apply (dec_bind _ (fun v d => b ← read_bool v; Ok (Some b, d)) _ _ _ wnil H), dec_ret|intros; apply app_nil_r]).
Qed.

Section OptionalLaws.
Context {T : Type} `{LawfulCoder T}.

Definition encodable_Optional (o : option T) : Prop :=
  match o with Some t => encodable t | None => True end.
Definition wire_Optional (o : option T) : Z -> list Z :=
  match o with Some t => wseq (wire true) (wire t) | None => wire false end.

#[global] Program Instance Optional_lawful : LawfulCoder (option T) := {
  encodable := encodable_Optional; wire := wire_Optional
}.
Next Obligation.
  intros [t|] Ht; [by apply enc_seq; apply encode_wire|]. by apply (encode_wire false).
Qed.
Next Obligation.
  intros [t|] pos Ht; [|by apply wire_bytes]. by apply bytes_wseq; intros; apply wire_bytes.
Qed.
Next Obligation.
  intros [t|] Ht.
  - apply (dec_bind _ _ true); [by apply (decode_wire true)|by apply dec_map, decode_wire].
  - eapply dec_ok_ext; [apply (dec_bind _ _ false); [by apply (decode_wire false)|apply dec_ret]|].
    intros. apply app_nil_r.
Qed.
End OptionalLaws.

Section PairLaws.
Context {T U : Type} `{LawfulCoder T, LawfulCoder U}.

#[global] Program Instance pair_lawful : LawfulCoder (T * U) := {
  encodable p := encodable p.1 /\ encodable p.2;
  wire p := wseq (wire p.1) (wire p.2)
}.
Next Obligation. intros [t u] [Ht Hu]. by apply enc_seq; apply encode_wire. Qed.
Next Obligation. intros [t u] pos [Ht Hu]. by apply bytes_wseq; intros; apply wire_bytes. Qed.
Next Obligation.
  intros [t u] [Ht Hu]. apply (dec_bind _ _ t); [by apply decode_wire|by apply dec_map, decode_wire].
Qed.

#[global] Program Instance KeyValuePair_lawful : LawfulCoder (KeyValuePair T U) := {
  encodable p := encodable (key p) /\ encodable (value p);
  wire p := wseq (wire (key p)) (wire (value p))
}.
Next Obligation. intros [t u] [Ht Hu]. by apply enc_seq; apply encode_wire. Qed.
Next Obligation. intros [t u] pos [Ht Hu]. by apply bytes_wseq; intros; apply wire_bytes. Qed.
Next Obligation.
  intros [t u] [Ht Hu]. apply (dec_bind _ _ t); [by apply decode_wire|by apply dec_map, decode_wire].
Qed.

Definition encodable_Expected (x : T + U) : Prop :=
  match x with inl t => encodable t | inr u => encodable u end.
Definition wire_Expected (x : T + U) : Z -> list Z :=
  match x with
  | inl t => wseq (wire true) (wire t)
  | inr u => wseq (wire false) (wire u)
  end.

#[global] Program Instance Expected_lawful : LawfulCoder (T + U) := {
  encodable := encodable_Expected; wire := wire_Expected
}.
Next Obligation. intros [t|u] Ht; by apply enc_seq; apply encode_wire. Qed.
Next Obligation. intros [t|u] pos Ht; by apply bytes_wseq; intros; apply wire_bytes. Qed.
Next Obligation.
  intros [t|u] Ht; [apply (dec_bind _ _ true)|apply (dec_bind _ _ false)].
  - by apply (decode_wire true).
  - by apply dec_map, decode_wire.
  - by apply (decode_wire false).
  - by apply dec_map, decode_wire.
Qed.
End PairLaws.

#[global] Program Instance tuple_nil_lawful : LawfulCoder (tuple []) := {
  encodable _ := True; wire _ := wnil
}.
Next Obligation. intros t _. apply enc_nil. Qed.
Next Obligation. constructor. Qed.
Next Obligation.
  intros t _. assert (t = tuple_nil) as ->; [|apply dec_ret].
  refine (match t as t' in tuple l return
    match l return tuple l -> Prop with [] => fun t => t = tuple_nil | _ => fun _ => True end t'
    with tuple_nil => eq_refl | tuple_cons _ _ => I end).
Qed.

Section TupleLaws.
Context {T : Type} {Ts : list Type} `{LawfulCoder T, LawfulCoder (tuple Ts)}.

Lemma tuple_eta (t : tuple (T :: Ts)) : t = tuple_cons (tuple_head t) (tuple_tail t).
Proof.
  refine (match t as t' in tuple l return
    match l return tuple l -> Prop with
    | [] => fun _ => True | _ :: _ => fun t => t = tuple_cons (tuple_head t) (tuple_tail t) end t'
    with tuple_nil => I | tuple_cons _ _ => eq_refl end).
Qed.

#[global] Program Instance tuple_cons_lawful : LawfulCoder (tuple (T :: Ts)) := {
  encodable t := encodable (tuple_head t) /\ encodable (tuple_tail t);
  wire t := wseq (wire (tuple_head t)) (wire (tuple_tail t))
}.
Next Obligation. intros t [Ht Hu]. by apply enc_seq; apply encode_wire. Qed.
Next Obligation. intros t pos [Ht Hu]. by apply bytes_wseq; intros; apply wire_bytes. Qed.
Next Obligation.
  intros t [Ht Hu]. rewrite (tuple_eta t). cbn.
  apply (dec_bind _ _ (tuple_head t)); [by apply decode_wire|].
  by apply (dec_map (fun s => tuple_cons (tuple_head t) s)), decode_wire.
Qed.
End TupleLaws.

(** ** Laws of the container coders *)

Section VectorLaws.
Context {T : Type} `{LawfulCoder T, !SizeOf T}.

Fixpoint wire_elements (l : list T) : Z -> list Z :=
  match l with
  | [] => wnil
  | x :: l => wseq (wire x) (wire_elements l)
  end.

Lemma enc_elements l : Forall encodable l -> enc_ok (encode_elements l) (wire_elements l).
Proof.
  induction 1 as [|x l Hx _ IH]; [apply enc_nil|]. cbn. by apply enc_seq; [apply encode_wire|].
Qed.

Lemma bytes_elements l pos : Forall encodable l -> Forall (in_range 8) (wire_elements l pos).
Proof.
  intros Hl. revert pos; induction Hl as [|x l Hx _ IH]; intros pos; [constructor|].
  apply bytes_wseq; [intros; by apply wire_bytes|done].
Qed.

(** The storage for [n] elements that are appended one by one stays below 4 GiB. *)
Definition storable (n : Z) : Prop := Z.max 16 (n + n / 4 + 1) <= UINT32_MAX / size_of (T := T).

Lemma append_capacity_storable n size capacity : storable n -> 0 <= size < n -> size <= capacity ->
  exists c, append_capacity (size_of (T := T)) size capacity = Some c /\ size + 1 <= c.
Proof.
  intros Hs Hn Hc. unfold append_capacity. destruct (Z.eqb_spec size capacity) as [<-|N]; cbn [negb]; [|exists capacity; split; [done|lia]].
  assert (size / 4 <= n / 4) by (apply Z.div_le_mono; lia). pose proof (Z.div_pos size 4 ltac:(lia) ltac:(lia)).
  rewrite (proj2 (Z.ltb_ge _ _)) by (unfold storable in Hs; lia). eexists. split; [done|]. lia.
Qed.

Lemma dec_elements l acc capacity :
  Forall encodable l -> storable (zlen acc + zlen l) -> zlen acc <= capacity ->
  dec_ok (decode_elements (List.length l) capacity acc) (acc ++ l) (wire_elements l).
Proof.
  intros Hl. revert acc capacity; induction Hl as [|x l Hx _ IH]; intros acc capacity Hs Hc; cbn.
  - rewrite app_nil_r. apply dec_ret.
  - apply (dec_bind _ _ x); [by apply decode_wire|]. rewrite zlen_cons in Hs. pose proof (zlen_nonneg l). pose proof (zlen_nonneg acc).
    destruct (append_capacity_storable _ (zlen acc) capacity Hs) as (c & -> & Hc'); [lia|done|].
    replace (acc ++ x :: l) with ((acc ++ [x]) ++ l) by by rewrite <- app_assoc. apply IH; rewrite zlen_app; change (zlen [x]) with 1; [|lia].
    by replace (zlen acc + 1 + zlen l) with (zlen acc + (1 + zlen l)) by lia.
Qed.

(** Sizes are 64-bit; the receiver must be able to store the elements. *)
#[global] Program Instance Vector_lawful : LawfulCoder (list T) := {
  encodable l := zlen l < 2 ^ 64 /\ storable (zlen l) /\ Forall encodable l;
  wire l := wseq (wire (UInt (n := 8) (zlen l))) (wire_elements l)
}.
Next Obligation.
  intros l (Hl & Hs & Hf). apply enc_seq; [|by apply enc_elements].
  apply encode_wire. cbn. pose proof (zlen_nonneg l). lia.
Qed.
Next Obligation.
  intros l pos (Hl & Hs & Hf). pose proof (zlen_nonneg l).
  apply bytes_wseq; intros; [apply wire_bytes; cbn; lia|by apply bytes_elements].
Qed.
Next Obligation.
  intros l (Hl & Hs & Hf). pose proof (zlen_nonneg l).
  apply (dec_bind _ _ (UInt (zlen l))); [apply decode_wire; cbn; lia|].
  cbn. rewrite to_nat_zlen. apply (dec_elements l [] 0); [done|done|]. done.
Qed.
End VectorLaws.

(** *** Vectors of arithmetic types *)

Lemma length_storage_bytes n l : List.length (storage_bytes n l) = (n * List.length l)%nat.
Proof.
  unfold storage_bytes. induction l as [|x l IH]; cbn; [lia|].
  rewrite length_app, length_le_split, IH. lia.
Qed.

Lemma zlen_storage_bytes n l : zlen (storage_bytes n l) = zlen l * Z.of_nat n.
Proof. unfold zlen. rewrite length_storage_bytes. lia. Qed.

Lemma bytes_storage n l : Forall (in_range 8) (storage_bytes n l).
Proof.
  unfold storage_bytes. induction l as [|x l IH]; cbn; [constructor|].
  apply Forall_app. split; [apply le_split_bytes|done].
Qed.

(** The elements of an array are read back from its storage. *)
Lemma storage_roundtrip n l :
  Forall (fun x => 0 <= x < 256 ^ Z.of_nat n) l ->
  storage_elements n (List.length l) (storage_bytes n l) = l.
Proof.
  induction 1 as [|x l Hx _ IH]; [done|]. unfold storage_bytes in *. cbn.
  rewrite take_app_length', drop_app_length' by by rewrite length_le_split.
  by rewrite le_combine_split, IH.
Qed.

(** Layout of an array of [n]-byte elements after its 64-bit size. *)
Definition wire_ArithVec {n} (v : arith_vec n) : Z -> list Z :=
  match v with
  | ArithVec l => wseq (wire (UInt (n := 8) (zlen l))) (aligned (Z.of_nat n) (storage_bytes n l))
  end.

(** Arrays within the 4 GiB limit of [Vector]. *)
Definition encodable_ArithVec {n} (v : arith_vec n) : Prop :=
  match v with
  | ArithVec l => zlen l <= UINT32_MAX / Z.of_nat n /\ Forall (fun x => 0 <= x < 256 ^ Z.of_nat n) l
  end.

Section ArithVectorLaws.
Context (n : nat) `{!ArithSize n}.

Lemma arith_pos : 0 < Z.of_nat n <= 8.
Proof. apply (is_align_bound _ arith_align). Qed.

Lemma encodable_size l : encodable_ArithVec (n := n) (ArithVec l) -> 0 <= zlen l < 2 ^ 64.
Proof.
  intros [Hl _]. pose proof arith_pos. pose proof (zlen_nonneg l).
  assert (UINT32_MAX / Z.of_nat n <= UINT32_MAX) by (apply Z.div_le_upper_bound; unfold UINT32_MAX; lia).
  unfold UINT32_MAX in *. lia.
Qed.

Lemma enc_ArithVec (v : arith_vec n) : encodable_ArithVec v -> enc_ok (encode v) (wire_ArithVec v).
Proof.
  destruct v as [l]. intros Hl. pose proof (encodable_size l Hl). pose proof arith_pos.
  apply enc_seq; [|apply enc_fixed; lia]. apply encode_wire. cbn. lia.
Qed.

Lemma bytes_ArithVec (v : arith_vec n) pos :
  encodable_ArithVec v -> Forall (in_range 8) (wire_ArithVec v pos).
Proof.
  destruct v as [l]. intros Hl. apply bytes_wseq; intros; apply bytes_aligned;
    [apply le_split_bytes|apply bytes_storage].
Qed.

Lemma dec_ArithVec (v : arith_vec n) : encodable_ArithVec v -> dec_ok decode v (wire_ArithVec v).
Proof.
  destruct v as [l]. intros Hl d pre rest Hd.
  pose proof (encodable_size l Hl) as Hsz. pose proof arith_pos. destruct Hl as [Hm Hf].
  unfold wire_ArithVec, wseq in *. rewrite <- app_assoc in Hd.
  unfold decode, ArithVector_coder, decode_ArithVector.
  cbn [wire uint_lawful uint_val] in *.
  rewrite (decode_arith_at 8 (zlen l) d pre _ arith_8 ltac:(lia) Hd). cbn [mbind res_bind].
  apply at_pos_advance in Hd. rewrite <- zlen_app in Hd.
  rewrite (proj2 (Z.leb_le (zlen l) SIZE_MAX)) by (unfold SIZE_MAX; lia). cbn [negb].
  rewrite (bufferIsLargeEnough_at n (zlen l) _ _ _ _ arith_align (zlen_storage_bytes n l) ltac:(lia) Hd).
  unfold Vector_grow_crashes. rewrite (proj2 (Z.ltb_ge _ _)) by lia. cbn [negb].
  rewrite <- zlen_storage_bytes, (decodeFixedLengthData_at _ _ _ _ _ arith_align Hd). cbn.
  rewrite to_nat_zlen, storage_roundtrip by done.
  rewrite advance_advance, <- app_assoc. by rewrite <- zlen_app.
Qed.

(** The size guard bounds the allocation by the message that was received. *)
Lemma bufferIsLargeEnough_bound k d :
  wf d -> 0 <= k -> bufferIsLargeEnoughToContain_arith n k d = true ->
  k * Z.of_nat n <= zlen (m_data d).
Proof.
  intros Hw Hk. unfold bufferIsLargeEnoughToContain_arith. destruct (_ <? k); [done|].
  intros E. pose proof arith_pos.
  pose proof (alignBufferPosition_spec (Z.of_nat n) (k * Z.of_nat n) d Hw arith_align ltac:(lia)) as Ha.
  unfold alignBufferPosition, bufferIsLargeEnoughToContain in *. rewrite E in Ha. cbn in Ha.
  destruct Ha as (_ & Hnz & Hb). destruct Hw as [W1 W2 W3 W6 W4 W5].
  pose proof (padding_range (m_bufferPos d) (Z.of_nat n) ltac:(lia)). lia.
Qed.

#[global] Instance ArithVector_lawful : LawfulCoder (arith_vec n) := {
  encodable := encodable_ArithVec;
  wire := wire_ArithVec;
  encode_wire := enc_ArithVec;
  wire_bytes := bytes_ArithVec;
  decode_wire := dec_ArithVec
}.
End ArithVectorLaws.

(** *** Hash tables

    The iterator visits every entry once, in some order. *)

Section HashMapLaws.
Context {K V : Type} `{Countable K, LawfulCoder K, LawfulCoder V}.
Variable iteration : gmap K V -> list (K * V).
Variable isValidKey : K -> bool.
Hypothesis iteration_perm : forall m, iteration m ≡ₚ map_to_list m.

Fixpoint wire_entries (l : list (K * V)) : Z -> list Z :=
  match l with
  | [] => wnil
  | (k, v) :: l => wseq (wire (mkKeyValuePair k v)) (wire_entries l)
  end.

Definition encodable_entry (kv : K * V) : Prop :=
  encodable kv.1 /\ encodable kv.2 /\ isValidKey kv.1 = true.

Definition encodable_HashMap (m : gmap K V) : Prop :=
  Z.of_nat (size m) < 2 ^ 32 /\ Forall encodable_entry (map_to_list m).

Definition wire_HashMap (m : gmap K V) : Z -> list Z :=
  wseq (wire (UInt (n := 4) (Z.of_nat (size m)))) (wire_entries (iteration m)).

Lemma enc_entries l : Forall encodable_entry l -> enc_ok (encode_entries l) (wire_entries l).
Proof.
  induction 1 as [|[k v] l (Hk & Hv & _) _ IH]; [apply enc_nil|]. cbn [encode_entries wire_entries].
  apply enc_seq; [|done]. by apply (encode_wire (mkKeyValuePair k v)).
Qed.

Lemma bytes_entries l pos : Forall encodable_entry l -> Forall (in_range 8) (wire_entries l pos).
Proof.
  intros Hl. revert pos; induction Hl as [|[k v] l (Hk & Hv & _) _ IH]; intros pos; [constructor|].
  apply bytes_wseq; [intros; by apply wire_bytes|done].
Qed.

Lemma bytes_HashMap m pos : encodable_HashMap m -> Forall (in_range 8) (wire_HashMap m pos).
Proof.
  intros [Hs Hf]. apply bytes_wseq; intros; [apply wire_bytes; cbn; lia|].
  apply bytes_entries. by rewrite iteration_perm.
Qed.

Lemma dec_entries l m :
  Forall encodable_entry l -> NoDup l.*1 -> (forall k, k ∈ l.*1 -> m !! k = None) ->
  dec_ok (decode_entries isValidKey (List.length l) m) (list_to_map l ∪ m) (wire_entries l).
Proof.
  intros Hl. revert m; induction Hl as [|[k v] l (Hk & Hv & Hval) _ IH]; intros m Hn Hm;
    cbn [decode_entries wire_entries List.length list_to_map foldr].
  - rewrite (left_id_L ∅ (∪)). apply dec_ret.
  - cbn in *. apply NoDup_cons in Hn as [Hn1 Hn2].
    eapply dec_ok_ext; [apply (dec_bind _ _ k); [by apply decode_wire|apply (dec_bind _ _ v); [by apply decode_wire|]]|].
    + rewrite Hval, (Hm k) by set_solver. cbn [negb].
      rewrite <- insert_union_l, insert_union_r by (apply not_elem_of_list_to_map_1; done).
      apply IH; [done|]. intros k' Hk'. rewrite lookup_insert_ne by set_solver. apply Hm. set_solver.
    + intros pos. unfold wire, KeyValuePair_lawful, wseq; cbn.
      by rewrite <- !app_assoc, zlen_app, Z.add_assoc.
Qed.

Lemma Permutation_size m : List.length (iteration m) = size m.
Proof. by rewrite (iteration_perm m), length_map_to_list. Qed.

(** Decoding the entries in iteration order rebuilds the map. *)
Lemma dec_iteration m :
  Forall encodable_entry (map_to_list m) ->
  dec_ok (decode_entries isValidKey (List.length (iteration m)) ∅) m (wire_entries (iteration m)).
Proof.
  intros Hf.
  assert (NoDup (iteration m).*1) as Hn by (rewrite iteration_perm; apply NoDup_fst_map_to_list).
  replace m with (list_to_map (M := gmap K V) (iteration m) ∪ ∅) at 2.
  - apply dec_entries; [by rewrite iteration_perm|done|done].
  - rewrite (right_id_L ∅ (∪)), (list_to_map_proper _ (map_to_list m)) by done.
    apply list_to_map_to_list.
Qed.

Lemma enc_HashMap m : encodable_HashMap m -> enc_ok (encode_HashMap iteration m) (wire_HashMap m).
Proof.
  intros [Hs Hf]. unfold encode_HashMap. rewrite wrap_small by lia.
  apply enc_seq; [apply encode_wire; cbn; lia|]. apply enc_entries. by rewrite iteration_perm.
Qed.

Lemma dec_HashMap m : encodable_HashMap m -> dec_ok (decode_HashMap isValidKey) m (wire_HashMap m).
Proof.
  intros [Hs Hf]. unfold decode_HashMap.
  apply (dec_bind _ _ (UInt (Z.of_nat (size m)))); [apply decode_wire; cbn; lia|].
  cbn [uint_val]. rewrite Nat2Z.id, <- Permutation_size. by apply dec_iteration.
Qed.

Definition HashMap_lawful : @LawfulCoder (gmap K V) (HashMap_coder iteration isValidKey) :=
  @Build_LawfulCoder (gmap K V) (HashMap_coder iteration isValidKey)
    encodable_HashMap wire_HashMap enc_HashMap bytes_HashMap dec_HashMap.
End HashMapLaws.

Section HashSetLaws.
Context {K : Type} `{Countable K, LawfulCoder K}.
Variable iteration : gset K -> list K.
Variable isValidValue : K -> bool.
Hypothesis iteration_perm : forall s, iteration s ≡ₚ elements s.

Definition encodable_HashSet (s : gset K) : Prop :=
  Z.of_nat (size s) < 2 ^ 64 /\ Forall (fun k => encodable k /\ isValidValue k = true) (elements s).

Definition wire_HashSet (s : gset K) : Z -> list Z :=
  wseq (wire (UInt (n := 8) (Z.of_nat (size s)))) (wire_elements (iteration s)).

Lemma dec_keys l (s : gset K) :
  Forall (fun k => encodable k /\ isValidValue k = true) l -> NoDup l -> (forall k, k ∈ l -> k ∉ s) ->
  dec_ok (decode_keys isValidValue (List.length l) s) (list_to_set l ∪ s) (wire_elements l).
Proof.
  intros Hl. revert s; induction Hl as [|k l (Hk & Hval) _ IH]; intros s Hn Hs;
    cbn [decode_keys wire_elements List.length list_to_set foldr].
  - rewrite (left_id_L ∅ (∪)). apply dec_ret.
  - apply NoDup_cons in Hn as [Hn1 Hn2].
    apply (dec_bind _ _ k); [by apply decode_wire|].
    rewrite Hval, decide_False by (apply Hs; set_solver). cbn [negb].
    replace ({[k]} ∪ list_to_set l ∪ s) with (list_to_set l ∪ ({[k]} ∪ s)) by set_solver.
    apply IH; [done|]. intros k' Hk'. specialize (Hs k'). set_solver.
Qed.

Lemma enc_HashSet s : encodable_HashSet s -> enc_ok (encode_HashSet iteration s) (wire_HashSet s).
Proof.
  intros [Hs Hf]. apply enc_seq; [apply encode_wire; cbn; lia|]. apply enc_elements.
  rewrite iteration_perm. by eapply Forall_impl; [done|intros ? []].
Qed.

Lemma dec_HashSet s : encodable_HashSet s -> dec_ok (decode_HashSet isValidValue) s (wire_HashSet s).
Proof.
  intros [Hs Hf]. apply (dec_bind _ _ (UInt (Z.of_nat (size s)))); [apply decode_wire; cbn; lia|].
  cbn [uint_val]. rewrite Nat2Z.id.
  assert (List.length (iteration s) = size s) as <- by by rewrite (iteration_perm s).
  replace s with (list_to_set (C := gset K) (iteration s) ∪ ∅) at 2.
  - apply dec_keys; [by rewrite iteration_perm|rewrite iteration_perm; apply NoDup_elements|set_solver].
  - rewrite (right_id_L ∅ (∪)). apply set_eq. intros x.
    by rewrite elem_of_list_to_set, iteration_perm, elem_of_elements.
Qed.

End HashSetLaws.

Section HashCountedSetLaws.
Context {K : Type} `{Countable K, LawfulCoder K}.
Variable iteration : gmap K (uint 4) -> list (K * uint 4).
Variable isValidValue : K -> bool.
Hypothesis iteration_perm : forall m, iteration m ≡ₚ map_to_list m.

Definition encodable_HashCountedSet (m : gmap K (uint 4)) : Prop :=
  Z.of_nat (size m) < 2 ^ 64 /\ Forall (encodable_entry isValidValue) (map_to_list m).

Definition wire_HashCountedSet (m : gmap K (uint 4)) : Z -> list Z :=
  wseq (wire (UInt (n := 8) (Z.of_nat (size m)))) (wire_entries (iteration m)).

Lemma encode_counted_entries l e : encode_counted l e = encode_entries l e.
Proof.
  revert e; induction l as [|[k c] l IH]; intros e; [done|].
  cbn [encode_counted encode_entries]. unfold encode at 3; cbn [KeyValuePair_coder encode_KeyValuePair key value].
  unfold encode_KeyValuePair; cbn [key value].
  destruct (encode k e) as [e1| | |]; cbn; [|done..].
  destruct (encode_uint c e1) as [e2| | |]; cbn; [apply IH|done..].
Qed.

Lemma decode_counted_entries n m : decode_counted isValidValue n m = decode_entries isValidValue n m.
Proof. revert m; induction n as [|n IH]; intros m; [done|]. cbn. by repeat f_equal. Qed.

Lemma enc_HashCountedSet m :
  encodable_HashCountedSet m -> enc_ok (encode_HashCountedSet iteration m) (wire_HashCountedSet m).
Proof.
  intros [Hs Hf]. apply enc_seq; [apply encode_wire; cbn; lia|].
  intros e bs. rewrite encode_counted_entries. eapply enc_entries. by rewrite iteration_perm.
Qed.

Lemma dec_HashCountedSet m :
  encodable_HashCountedSet m ->
  dec_ok (decode_HashCountedSet isValidValue) m (wire_HashCountedSet m).
Proof.
  intros [Hs Hf]. unfold decode_HashCountedSet.
  apply (dec_bind _ _ (UInt (Z.of_nat (size m)))); [apply decode_wire; cbn; lia|].
  cbn [uint_val]. rewrite decode_counted_entries, Nat2Z.id, <- (Permutation_size iteration iteration_perm).
  by apply dec_iteration.
Qed.

End HashCountedSetLaws.

(** *** Strings *)

Definition encodable_CString (s : CString) : Prop :=
  match s with
  | CNull => True
  | CBytes bytes => zlen bytes < UINT32_MAX /\ Forall (in_range 8) bytes
  end.

Definition wire_CString (s : CString) : Z -> list Z :=
  match s with
  | CNull => wire (UInt (n := 4) UINT32_MAX)
  | CBytes bytes => wseq (wire (UInt (n := 4) (zlen bytes))) (aligned 1 bytes)
  end.

Lemma mem_read_all {A} (l : list A) : mem_read l 0 (zlen l) = Ok l.
Proof. pose proof (mem_read_app [] l []) as E. by rewrite zlen_nil, app_nil_r in E. Qed.

Lemma enc_CString s : encodable_CString s -> enc_ok (encode s) (wire_CString s).
Proof.
  destruct s as [|bytes]; intros Hs; [by apply (encode_wire (UInt (n := 4) UINT32_MAX))|].
  destruct Hs as [Hs _]. unfold UINT32_MAX in Hs. pose proof (zlen_nonneg bytes).
  unfold encode; cbn [CString_coder]. unfold encode_CString.
  rewrite wrap_small, mem_read_all by lia. apply enc_seq; [apply encode_wire; cbn; lia|].
  apply enc_fixed. lia.
Qed.

Lemma bytes_CString s pos : encodable_CString s -> Forall (in_range 8) (wire_CString s pos).
Proof.
  destruct s as [|bytes]; intros Hs; [by apply bytes_aligned, le_split_bytes|].
  apply bytes_wseq; intros; apply bytes_aligned; [apply le_split_bytes|apply Hs].
Qed.

(** A decoder step behind a size check that succeeds. *)
Lemma dec_guarded {T} n k data (m : M T) (other : t -> res (option T * t)) v :
  is_align (Z.of_nat n) -> zlen data = k * Z.of_nat n -> 0 <= k ->
  dec_ok m v (aligned (Z.of_nat n) data) ->
  dec_ok (fun d => if negb (bufferIsLargeEnoughToContain_arith n k d) then other d else m d) v
    (aligned (Z.of_nat n) data).
Proof.
  intros Hal Hk Hk0 Hm d pre rest Hd. rewrite (bufferIsLargeEnough_at _ _ _ _ _ _ Hal Hk Hk0 Hd).
  by eapply Hm.
Qed.

Lemma dec_CString s : encodable_CString s -> dec_ok decode s (wire_CString s).
Proof.
  destruct s as [|bytes]; intros Hs.
  - eapply dec_ok_ext; [apply (dec_bind _ _ UINT32_MAX); [by apply (dec_arith 4); [apply arith_4|]|apply dec_ret]|].
    intros. apply app_nil_r.
  - destruct Hs as [Hs _]. pose proof (zlen_nonneg bytes).
    apply (dec_bind _ _ (zlen bytes)); [apply (dec_arith 4); [apply arith_4|unfold UINT32_MAX in Hs; cbn; lia]|].
    rewrite (proj2 (Z.eqb_neq _ _)) by lia.
    apply (dec_guarded 1 (zlen bytes)); [apply arith_1|lia|lia|]. by apply dec_map, dec_fixed; [apply arith_1|].
Qed.

#[global] Instance CString_lawful : LawfulCoder CString := {
  encodable := encodable_CString; wire := wire_CString;
  encode_wire := enc_CString; wire_bytes := bytes_CString; decode_wire := dec_CString
}.

Definition wide_chars (n : nat) (chars : list Z) : Prop :=
  zlen chars <= maxInternalLength n /\ Forall (fun x => 0 <= x < 256 ^ Z.of_nat n) chars.

Definition encodable_String (s : WString) : Prop :=
  match s with
  | SNull => True
  | S8 chars => wide_chars 1 chars
  | S16 chars => wide_chars 2 chars
  end.

Definition wire_text (n : nat) (is8Bit : bool) (chars : list Z) : Z -> list Z :=
  wseq (wire (UInt (n := 4) (zlen chars)))
    (wseq (wire is8Bit) (aligned (Z.of_nat n) (storage_bytes n chars))).

Definition wire_String (s : WString) : Z -> list Z :=
  match s with
  | SNull => wire (UInt (n := 4) UINT32_MAX)
  | S8 chars => wire_text 1 true chars
  | S16 chars => wire_text 2 false chars
  end.

(** A string that [StringImpl] can hold is shorter than the null marker. *)
Lemma wide_chars_length n chars : wide_chars n chars -> 0 <= zlen chars < UINT32_MAX.
Proof.
  intros [H _]. unfold maxInternalLength in H. pose proof (zlen_nonneg chars).
  unfold INT_MAX, UINT32_MAX in *. lia.
Qed.

Lemma enc_String s : encodable_String s -> enc_ok (encode s) (wire_String s).
Proof.
  destruct s as [|chars|chars]; intros Hs; [by apply (encode_wire (UInt (n := 4) UINT32_MAX))|..];
    pose proof (wide_chars_length _ _ Hs) as Hl; unfold UINT32_MAX in Hl;
    unfold encode; cbn [String_coder]; unfold encode_String; rewrite wrap_small by lia.
  - replace (zlen chars * 1) with (zlen (storage_bytes 1 chars)) by (rewrite zlen_storage_bytes; lia).
    rewrite mem_read_all. apply enc_seq; [apply encode_wire; cbn; lia|].
    apply enc_seq; [by apply (encode_wire true)|]. apply enc_fixed. lia.
  - replace (zlen chars * 2) with (zlen (storage_bytes 2 chars)) by (rewrite zlen_storage_bytes; lia).
    rewrite mem_read_all. apply enc_seq; [apply encode_wire; cbn; lia|].
    apply enc_seq; [by apply (encode_wire false)|]. apply enc_fixed. lia.
Qed.

Lemma bytes_String s pos : encodable_String s -> Forall (in_range 8) (wire_String s pos).
Proof.
  destruct s as [|chars|chars]; intros _; [by apply bytes_aligned, le_split_bytes|..];
    apply bytes_wseq; intros; [by apply bytes_aligned, le_split_bytes| |by apply bytes_aligned, le_split_bytes|];
    apply bytes_wseq; intros; ((by apply wire_bytes) || (by apply bytes_aligned, bytes_storage)).
Qed.

Lemma dec_text n chars :
  is_align (Z.of_nat n) -> wide_chars n chars ->
  dec_ok (decodeStringText n (zlen chars)) chars (aligned (Z.of_nat n) (storage_bytes n chars)).
Proof.
  intros Hal [Hl Hf]. unfold decodeStringText. pose proof (zlen_nonneg chars).
  rewrite (proj2 (Z.ltb_ge _ _)), andb_false_r by lia.
  apply (dec_guarded n (zlen chars)); [done|apply zlen_storage_bytes|lia|].
  pose proof (dec_map (storage_elements n (List.length chars)) _ _ _
    (dec_fixed (storage_bytes n chars) _ _ Hal (zlen_storage_bytes n chars))) as E.
  by rewrite storage_roundtrip, <- to_nat_zlen in E.
Qed.

Lemma dec_String s : encodable_String s -> dec_ok decode s (wire_String s).
Proof.
  destruct s as [|chars|chars]; intros Hs.
  - eapply dec_ok_ext; [apply (dec_bind _ _ UINT32_MAX); [by apply (dec_arith 4); [apply arith_4|]|apply dec_ret]|].
    intros. apply app_nil_r.
  - pose proof (wide_chars_length _ _ Hs) as Hl. unfold UINT32_MAX in Hl.
    apply (dec_bind _ _ (zlen chars)); [apply (dec_arith 4); [apply arith_4|cbn; lia]|].
    rewrite (proj2 (Z.eqb_neq _ _)) by (unfold UINT32_MAX; lia).
    apply (dec_bind _ _ true); [by apply (decode_wire true)|]. by apply dec_map, dec_text; [apply arith_1|].
  - pose proof (wide_chars_length _ _ Hs) as Hl. unfold UINT32_MAX in Hl.
    apply (dec_bind _ _ (zlen chars)); [apply (dec_arith 4); [apply arith_4|cbn; lia]|].
    rewrite (proj2 (Z.eqb_neq _ _)) by (unfold UINT32_MAX; lia).
    apply (dec_bind _ _ false); [by apply (decode_wire false)|]. by apply dec_map, dec_text; [apply arith_2|].
Qed.
#[global] Instance String_lawful : LawfulCoder WString := {
  encodable := encodable_String; wire := wire_String;
  encode_wire := enc_String; wire_bytes := bytes_String; decode_wire := dec_String
}.

(** *** Byte arrays and small types *)

Definition wire_DataReference (r : DataReference) : Z -> list Z :=
  match r with DataRef bytes => wseq (wire (UInt (n := 8) (zlen bytes))) (aligned 1 bytes) end.
Definition encodable_DataReference (r : DataReference) : Prop :=
  match r with DataRef bytes => zlen bytes < 2 ^ 64 /\ Forall (in_range 8) bytes end.

Lemma enc_DataReference r : encodable_DataReference r -> enc_ok (encode r) (wire_DataReference r).
Proof.
  destruct r as [bytes]. intros Hr. apply enc_seq; [apply (enc_arith 8 _ arith_8)|apply enc_fixed; lia].
Qed.

Lemma bytes_DataReference r pos :
  encodable_DataReference r -> Forall (in_range 8) (wire_DataReference r pos).
Proof.
  destruct r as [bytes]. intros Hr. apply bytes_wseq; intros; apply bytes_aligned;
    [apply le_split_bytes|apply Hr].
Qed.

Lemma dec_DataReference r : encodable_DataReference r -> dec_ok decode r (wire_DataReference r).
Proof.
  destruct r as [bytes]. intros [Hr _]. pose proof (zlen_nonneg bytes).
  apply dec_map. apply (dec_bind _ _ (zlen bytes)); [apply (dec_arith 8); [apply arith_8|cbn; lia]|].
  by apply (dec_fixed bytes 1 _ arith_1).
Qed.

#[global] Instance DataReference_lawful : LawfulCoder DataReference := {
  encodable := encodable_DataReference; wire := wire_DataReference;
  encode_wire := enc_DataReference; wire_bytes := bytes_DataReference; decode_wire := dec_DataReference
}.

#[global] Program Instance Monostate_lawful : LawfulCoder unit := {
  encodable _ := True; wire _ := wnil
}.
Next Obligation. intros [] _. apply enc_nil. Qed.
Next Obligation. constructor. Qed.
Next Obligation. intros [] _. apply dec_ret. Qed.

Definition wt_bits (t : WallTime) : uint 8 := match t with WallTimeBits b => b end.

#[global] Program Instance WallTime_lawful : LawfulCoder WallTime := {
  encodable t := encodable (wt_bits t); wire t := wire (wt_bits t)
}.
Next Obligation. intros [b] Hb. by apply (encode_wire b). Qed.
Next Obligation. intros [b] pos Hb. by apply (wire_bytes b). Qed.
Next Obligation. intros [b] Hb. by apply dec_map, (decode_wire b). Qed.

(** An option set round-trips when it has enumerator bits only. *)
Definition os_raw {n values} (s : optset n values) : Z := match s with OptSet raw => raw end.

#[global] Program Instance optset_lawful n values `{!ArithSize n} : LawfulCoder (optset n values) := {
  encodable s := 0 <= os_raw s < 256 ^ Z.of_nat n /\ OptionSet.isValidOptionSet values (os_raw s) = true;
  wire s := aligned (Z.of_nat n) (le_split n (os_raw s))
}.
Next Obligation. intros n values Hn [raw] _. by apply enc_arith. Qed.
Next Obligation. intros n values Hn [raw] pos _. apply bytes_aligned, le_split_bytes. Qed.
Next Obligation.
  intros n values Hn [raw] [Hr Hv]. apply dec_map.
  eapply dec_ok_ext; [eapply (dec_bind _ _ raw _ _ wnil); [by apply dec_arith|]|intros; apply app_nil_r].
  cbn in Hv. cbv zeta. rewrite OptionSet.fromRaw_valid, OptionSet.fromRaw_id by done. apply dec_ret.
Qed.

#[global] Program Instance enum_lawful n isValidEnum `{!ArithSize n} : LawfulCoder (enum n isValidEnum) := {
  encodable x := 0 <= enum_val x < 256 ^ Z.of_nat n /\ isValidEnum (enum_val x) = true;
  wire x := aligned (Z.of_nat n) (le_split n (enum_val x))
}.
Next Obligation. intros n f Hn [v] _. by apply enc_arith. Qed.
Next Obligation. intros n f Hn [v] pos _. apply bytes_aligned, le_split_bytes. Qed.
Next Obligation.
  intros n f Hn [v] [Hr Hv]. apply dec_map.
  eapply dec_ok_ext; [eapply (dec_bind _ _ v _ _ wnil); [by apply dec_arith|]|intros; apply app_nil_r].
  cbn in Hv. rewrite Hv. apply dec_ret.
Qed.

(** A box is coded as an optional value. *)
Section BoxLaws.
Context {T : Type} `{LawfulCoder T}.

Definition box_option (b : Box T) : option T :=
  match b with BoxNull => None | BoxOf v => Some v end.

Lemma encode_Box_Optional b e : encode_Box b e = encode_Optional (box_option b) e.
Proof. by destruct b. Qed.

#[global] Program Instance Box_lawful : LawfulCoder (Box T) := {
  encodable b := encodable (box_option b); wire b := wire (box_option b)
}.
Next Obligation.
  intros b Hb e bs. change (encode b e) with (encode_Box b e). rewrite encode_Box_Optional.
  exact (encode_wire (box_option b) Hb e bs).
Qed.
Next Obligation. intros b pos Hb. by apply (wire_bytes (box_option b)). Qed.
Next Obligation.
  intros [|v] Hb.
  - eapply dec_ok_ext; [apply (dec_bind _ _ false); [by apply (decode_wire false)|apply dec_ret]|].
    intros. apply app_nil_r.
  - apply (dec_bind _ _ true); [by apply (decode_wire true)|by apply dec_map, decode_wire].
Qed.
End BoxLaws.

(** *** Variants *)

Section VariantLaws.
Context {V : Type} (alts : list (alternative V)) (index : V -> nat).
Variable alt_wire : V -> Z -> list Z.
Variable alt_encodable : V -> Prop.
(** Every value is coded by the alternative its index names. *)
Hypothesis alts_count : 0 < Z.of_nat (List.length alts) < 2 ^ 32.
Hypothesis index_alt : forall v, alt_encodable v -> exists a, alts !! index v = Some a /\
  enc_ok (alt_encode a v) (alt_wire v) /\ dec_ok (alt_decode a) v (alt_wire v).

Definition wire_Variant (v : V) : Z -> list Z :=
  wseq (wire (UInt (n := 4) (Z.of_nat (index v)))) (alt_wire v).

(** The search from the last alternative reaches the one the index names. *)
Lemma VariantCoder_encode_at k v a e :
  alts !! index v = Some a -> (index v <= k < List.length alts)%nat ->
  VariantCoder_encode alts k v (Z.of_nat (index v)) e = alt_encode a v e.
Proof.
  intros Ha. induction k as [|k IH]; intros Hk; cbn.
  - assert (index v = 0%nat) as E by lia. by rewrite E in Ha; rewrite Ha.
  - destruct (lookup_lt_is_Some_2 alts (S k)) as [b Hb]; [lia|]. rewrite Hb.
    destruct (Z.eqb_spec (Z.of_nat (index v)) (Z.of_nat (S k))) as [E|E].
    + assert (index v = S k) as E' by lia. rewrite E' in Ha. congruence.
    + apply IH. lia.
Qed.

Lemma VariantCoder_decode_at k i a :
  alts !! i = Some a -> (i <= k < List.length alts)%nat ->
  VariantCoder_decode alts k (Z.of_nat i) = alt_decode a.
Proof.
  intros Ha. induction k as [|k IH]; intros Hk; cbn.
  - assert (i = 0%nat) as -> by lia. by rewrite Ha.
  - destruct (lookup_lt_is_Some_2 alts (S k)) as [b Hb]; [lia|]. rewrite Hb.
    destruct (Z.eqb_spec (Z.of_nat i) (Z.of_nat (S k))) as [E|E].
    + assert (i = S k) as -> by lia. congruence.
    + apply IH. lia.
Qed.

Lemma enc_Variant v : alt_encodable v -> enc_ok (encode_Variant alts index v) (wire_Variant v).
Proof.
  intros Hv. destruct (index_alt v Hv) as (a & Ha & He & _). apply lookup_lt_Some in Ha as Hlt.
  apply enc_seq; [apply encode_wire; cbn; lia|]. intros e bs.
  rewrite (VariantCoder_encode_at _ v a) by (done || lia). apply He.
Qed.

Lemma dec_Variant v : alt_encodable v -> dec_ok (decode_Variant alts) v (wire_Variant v).
Proof.
  intros Hv. destruct (index_alt v Hv) as (a & Ha & _ & Hd). apply lookup_lt_Some in Ha as Hlt.
  apply (dec_bind _ _ (UInt (Z.of_nat (index v)))); [apply decode_wire; cbn; lia|].
  cbn [uint_val]. by rewrite (VariantCoder_decode_at _ _ a) by (done || lia).
Qed.

(** An index past the last alternative is read as alternative 0. *)
Lemma VariantCoder_out_of_range k i a :
  alts !! 0%nat = Some a -> (k < List.length alts)%nat -> Z.of_nat k < i ->
  VariantCoder_decode alts k i = alt_decode a.
Proof.
  intros Ha. induction k as [|k IH]; intros Hk Hi; cbn; [by rewrite Ha|].
  destruct (lookup_lt_is_Some_2 alts (S k)) as [b Hb]; [lia|]. rewrite Hb.
  rewrite (proj2 (Z.eqb_neq _ _)) by lia. apply IH; lia.
Qed.
End VariantLaws.
