(* ===== verification/IpcMessages.v ===== *)
(** * IPC messages, end to end

    The theorems that put the encoder, the decoder and the argument coders
    together: what one process encodes is what the other decodes, whatever
    arrives is decoded without undefined behaviour, the flags in the header
    mean the same on both sides, and a wrapped message is unwrapped. *)
From stdpp Require Import gmap.
From S2P Require Import Prelude IpcEncoder IpcDecoder IpcCoders.
Import Decoder.

(** ** Reading the message out of the encoder *)

Lemma enc_repr_read e bs : enc_repr e bs -> mem_read (IpcEncoder.m_buffer e) 0 (m_bufferSize e) = Ok (Some <$> bs).
Proof.
  intros [H1 H2 H3 H4 H5]. unfold mem_read. rewrite H1, H2.
  pose proof (zlen_nonneg bs). rewrite !(proj2 (Z.leb_le _ _)) by lia. cbn.
  by rewrite to_nat_zlen, drop_0, H5.
Qed.

Lemma mapM_id_Some (bs : list Z) : mapM id (Some <$> bs) = Some bs.
Proof. induction bs as [|b bs IH]; [done|]. cbn. by rewrite IH. Qed.

(** A message in construction has no uninitialised byte. *)
Lemma enc_repr_bytes e bs : enc_repr e bs -> message_bytes e = Ok bs.
Proof. intros H. unfold message_bytes. rewrite (enc_repr_read _ _ H). cbn. by rewrite mapM_id_Some. Qed.

(** ** The header *)

Lemma bytes_header f name dest : in_range 8 f -> Forall (in_range 8) (header_bytes f name dest).
Proof.
  intros Hf. unfold header_bytes. rewrite !Forall_app, !Forall_cons, Forall_nil.
  by split_and!; try apply le_split_bytes.
Qed.

Lemma zlen_header f name dest : zlen (header_bytes f name dest) = 16.
Proof. done. Qed.

(** Preconditions on where and what a message is received. *)
Definition receivable (addr : Z) (bytes : list Z) : Prop :=
  0 < addr /\ addr mod 8 = 0 /\ addr + zlen bytes < 2 ^ 64 /\
  zlen bytes <= maxReceived /\ Forall (in_range 8) bytes.

Lemma new_wf addr bytes atts :
  receivable addr bytes ->
  wf (mk addr bytes addr (addr + zlen bytes) atts 0 None None).
Proof.
  intros (? & ? & ? & ? & ?). pose proof (zlen_nonneg bytes). constructor; cbn; try done. right. lia.
Qed.

(** The constructor on a message whose header has a valid name. *)
Lemma new_header isValidName addr f name dest rest atts :
  in_range 8 f -> in_range 16 name -> isValidName name = true -> in_range 64 dest ->
  receivable addr (header_bytes f name dest ++ rest) ->
  new isValidName addr (header_bytes f name dest ++ rest) atts =
    Ok (mk addr (header_bytes f name dest ++ rest) (addr + 16)
          (addr + zlen (header_bytes f name dest ++ rest)) atts
          (OptionSet.fromRaw MessageFlags_values f) (Some name) (Some dest)).
Proof.
  intros Hf Hname Hvalid Hdest Hrecv. pose proof Hrecv as (Ha1 & Ha2 & _).
  set (bytes := header_bytes f name dest ++ rest) in *.
  unfold new. rewrite Ha2. cbn [negb Z.eqb].
  pose proof (new_wf addr bytes atts Hrecv) as Hw0.
  set (d0 := mk addr bytes addr (addr + zlen bytes) atts 0 None None) in *.
  (* flags *)
  assert (at_pos d0 [] (aligned 1 (le_split 1 f) 0 ++ drop 1 bytes)) as A0.
  { assert (le_split 1 f = [f]) as ->; [|by constructor; cbn; [done|done|done|unfold zlen; cbn; lia]].
    unfold in_range in Hf. change (2 ^ 8) with 256 in Hf. cbn. by rewrite Z.mod_small. }
  assert (decode_arith 1 d0 = Ok (Some f, advance 1 d0)) as E0
    by (eapply (decode_arith_at 1 f d0 [] _ arith_1); [by apply Hf|done]).
  apply at_pos_advance in A0. change (zlen ([] ++ aligned 1 (le_split 1 f) 0)) with 1 in A0.
  (* name *)
  set (d1 := set_flags (OptionSet.fromRaw MessageFlags_values f) (advance 1 d0)).
  assert (at_pos d1 (take 1 bytes) (aligned 2 (le_split 2 name) 1 ++ drop 4 bytes)) as A1.
  { destruct A0 as [W P1 P2 P3]. constructor; [|done|done|done]. by destruct W; constructor. }
  assert (decode_arith 2 d1 = Ok (Some name, advance 4 d1)) as E1
    by (eapply (decode_arith_at 2 name d1 (take 1 bytes) _ arith_2); [by apply Hname|done]).
  apply at_pos_advance in A1.
  (* destination *)
  set (d2 := set_name name (advance 4 d1)).
  assert (at_pos d2 (take 4 bytes) (aligned 8 (le_split 8 dest) 4 ++ drop 16 bytes)) as A2.
  { destruct A1 as [W P1 P2 P3]. constructor; [|done|done|done]. by destruct W; constructor. }
  assert (decode_arith 8 d2 = Ok (Some dest, advance 16 d2)) as E2
    by (eapply (decode_arith_at 8 dest d2 (take 4 bytes) _ arith_8); [by apply Hdest|done]).
  unfold decode_into, decode_OptionSet, decode_enum, bind, ret, fail.
  rewrite E0. cbn [mbind res_bind]. rewrite OptionSet.fromRaw_valid. cbn [negb mbind res_bind].
  fold d1. rewrite E1. cbn [mbind res_bind]. rewrite Hvalid. cbn [negb mbind res_bind].
  fold d2. rewrite E2. done.
Qed.

(** ** Round trip *)

Lemma message_receivable {T : Type} `{LawfulCoder T} name dest (v : T) addr :
  encodable v -> 0 < addr -> addr mod 8 = 0 -> addr + 16 + zlen (wire v 16) < 2 ^ 64 ->
  16 + zlen (wire v 16) <= maxReceived -> receivable addr (header_bytes 0 name dest ++ wire v 16).
Proof.
  intros Hv Ha Ha8 Htop Hsmall. assert (in_range 8 0) as H8 by (unfold in_range; lia).
  unfold receivable. rewrite zlen_app, zlen_header, Forall_app.
  split_and!; [lia|lia|lia|lia|apply bytes_header, H8|exact (wire_bytes v 16 Hv)].
Qed.

(** What one process encoded is accepted and decoded by the other. *)
Lemma create_decode {T : Type} `{LawfulCoder T} isValidName name dest (v : T) addr atts :
  in_range 16 name -> isValidName name = true -> in_range 64 dest -> encodable v ->
  receivable addr (header_bytes 0 name dest ++ wire v 16) ->
  let bytes := header_bytes 0 name dest ++ wire v 16 in
  let d := mk addr bytes (addr + 16) (addr + zlen bytes) atts (OptionSet.fromRaw MessageFlags_values 0) (Some name) (Some dest) in
  create isValidName addr bytes atts = Ok (Some d) /\ decode d = Ok (Some v, advance (zlen bytes) d).
Proof.
  intros Hname Hvalid Hdest Hv Hrecv. cbv zeta. assert (in_range 8 0) as H8 by (unfold in_range; lia). split.
  - unfold create. rewrite (new_header _ _ _ _ _ _ _ H8 Hname Hvalid Hdest Hrecv). cbn [mbind res_bind].
    destruct Hrecv as (Ha & _). unfold isValid; cbn [m_bufferPos]. by rewrite (proj2 (Z.eqb_neq _ _)) by lia.
  - eapply (decode_wire v Hv _ (header_bytes 0 name dest) []). rewrite app_nil_r.
    pose proof (new_wf addr _ atts Hrecv) as [W1 W2 W3 W6 W4 W5]. destruct Hrecv as (_ & Ha8 & _). constructor; [|done..].
    constructor; try assumption. right. cbn [m_buffer m_bufferPos m_bufferEnd]. rewrite zlen_app, zlen_header.
    pose proof (zlen_nonneg (wire v 16)). lia.
Qed.

(** C1: a message that carries a value of any type with a lawful coder is
    decoded to the same name, destination and value: the encoder builds it
    without undefined behaviour and without an uninitialised byte, [create]
    accepts the bytes at any 8-aligned address, the decoded value is the encoded
    one and the decoder stands at the end of the message. *)
Theorem ipc_message_roundtrip {T : Type} `{LawfulCoder T} isValidName name dest (v : T) addr :
  in_range 16 name -> isValidName name = true -> in_range 64 dest -> encodable v ->
  0 < addr -> addr mod 8 = 0 -> addr + 16 + zlen (wire v 16) < 2 ^ 64 ->
  16 + zlen (wire v 16) <= maxReceived ->
  exists e0 e1 bytes d d',
    Encoder_new name dest = Ok e0 /\ encode v e0 = Ok e1 /\ message_bytes e1 = Ok bytes /\
    create isValidName addr bytes [] = Ok (Some d) /\
    m_messageName d = Some name /\ m_destinationID d = Some dest /\
    isSyncMessage d = false /\ shouldDispatchMessageWhenWaitingForSyncReply d = No /\
    decode d = Ok (Some v, d') /\ m_bufferPos d' = m_bufferEnd d'.
Proof.
  intros Hname Hvalid Hdest Hv Ha Ha8 Htop Hsmall.
  destruct (Encoder_new_repr name dest) as (e0 & E0 & R0 & _).
  destruct (encode_wire v Hv e0 _ R0) as (e1 & E1 & R1 & _).
  { rewrite zlen_header. unfold maxMessage, maxReceived in *. lia. }
  rewrite zlen_header in R1. pose proof (message_receivable name dest v addr Hv Ha Ha8 Htop Hsmall) as Hrecv.
  destruct (create_decode isValidName name dest v addr [] Hname Hvalid Hdest Hv Hrecv) as [Hc Hd].
  eexists e0, e1, _, _, _. split_and!; [done..|by apply enc_repr_bytes|exact Hc|done|done|done|done|exact Hd|done].
Qed.

(** A vector of pairs of a string and an optional 32-bit number. *)
#[local] Instance sample_size : SizeOf (WString * option (uint 4)) := 16.
Definition sample_value : list (WString * option (uint 4)) :=
  [(S8 [104; 105], Some (UInt 7)); (SNull, None); (S16 [8364], Some (UInt 65536))].

Lemma sample_encodable : encodable sample_value.
Proof.
  split; [reflexivity|]. split; [done|]. unfold sample_value. rewrite !Forall_cons, Forall_nil.
  cbn [encodable pair_lawful String_lawful encodable_String Optional_lawful encodable_Optional
    uint_lawful uint_val fst snd wide_chars].
  unfold wide_chars. rewrite !Forall_cons, !Forall_nil. split_and!; try done; cbn; lia.
Qed.

Lemma ipc_message_roundtrip_witness : exists e0 e1 bytes d d',
    Encoder_new 12 34 = Ok e0 /\ encode sample_value e0 = Ok e1 /\ message_bytes e1 = Ok bytes /\
    create (fun n => n =? 12) 4096 bytes [] = Ok (Some d) /\
    m_messageName d = Some 12 /\ m_destinationID d = Some 34 /\
    isSyncMessage d = false /\ shouldDispatchMessageWhenWaitingForSyncReply d = No /\
    decode d = Ok (Some sample_value, d') /\ m_bufferPos d' = m_bufferEnd d'.
Proof.
  assert (zlen (wire sample_value 16) = 44) as Hl by (vm_compute; reflexivity).
  apply (ipc_message_roundtrip (fun n => n =? 12) 12 34 sample_value 4096);
    rewrite ?Hl; unfold maxReceived, in_range; try lia; try reflexivity. apply sample_encodable.
Defined.

(** ** Safety of decoding *)

(** Storing a decoded header field. *)
Lemma safe_decode_into {A} (m : M A) (store : A -> t -> t) :
  safe m -> (forall a d, wf d -> wf (store a d) /\ step_ok d (store a d)) -> safe (decode_into m store).
Proof.
  intros Hm Hs. apply safe_bind; [done|]. intros a d Hd. destruct (Hs a d Hd).
  by eexists _, _.
Qed.

Lemma store_ok (store : t -> t) d :
  m_buffer (store d) = m_buffer d -> m_data (store d) = m_data d ->
  m_bufferEnd (store d) = m_bufferEnd d -> m_bufferPos (store d) = m_bufferPos d ->
  wf d -> wf (store d) /\ step_ok d (store d).
Proof.
  intros E1 E2 E3 E4 [W1 W2 W3 W6 W4 W5]. split; constructor; rewrite ?E1, ?E2, ?E3, ?E4; try done. lia.
Qed.

Lemma safe_header isValidName :
  safe (bind (decode_into (decode_OptionSet 1 MessageFlags_values) set_flags) (fun _ =>
        bind (decode_into (decode_enum 2 isValidName) set_name) (fun _ =>
        decode_into (decode_arith 8) set_dest))).
Proof.
  repeat (apply safe_bind; [|intros _]);
    (apply safe_decode_into; [|intros a d Hd; by apply (store_ok (fun d => _ a d))]);
    [apply safe_bind|apply safe_bind|]; intros; auto using arith_1, arith_2, arith_8 with coder.
Qed.

(** ** Message flags *)

Lemma messageFlags_repr e f bs : enc_repr e (f :: bs) -> messageFlags e = Ok f.
Proof.
  intros [_ _ _ _ H]. unfold messageFlags. destruct (IpcEncoder.m_buffer e) as [|c b];
    cbn in H; [discriminate|]. by injection H as -> _.
Qed.

Lemma set_messageFlags_repr g e f bs :
  enc_repr e (f :: bs) ->
  exists e', set_messageFlags g e = Ok e' /\ enc_repr e' (g :: bs) /\ same_meta e e'.
Proof.
  intros [H1 H2 H3 H4 H5]. unfold set_messageFlags.
  rewrite zlen_cons in *. pose proof (zlen_nonneg bs).
  change (zlen [Some g]) with 1. rewrite mem_write_ok by (change (zlen [Some g]) with 1; lia).
  cbn [mbind res_bind].
  eexists; split; [done|]. split; [|done].
  destruct (IpcEncoder.m_buffer e) as [|c b]; cbn in H5; [discriminate|]. injection H5 as _ H5.
  change (Z.to_nat 0) with 0%nat.
  constructor; cbn; rewrite ?zlen_cons, ?drop_0 in *; try lia. by rewrite H5.
Qed.

(** The flag byte after the two setters. *)
Definition flags_after (sync : bool) (s : ShouldDispatchWhenWaitingForSyncReply) (f : Z) : Z :=
  let b := flagBit SyncMessage in
  let y := flagBit DispatchMessageWhenWaitingForSyncReply in
  let u := flagBit DispatchMessageWhenWaitingForUnboundedSyncReply in
  let f := if sync then OptionSet.add f b else OptionSet.remove f b in
  match s with
  | No => OptionSet.remove (OptionSet.remove f y) u
  | Yes => OptionSet.remove (OptionSet.add f y) u
  | YesDuringUnboundedIPC => OptionSet.add (OptionSet.remove f y) u
  end.

(** What a decoder reads off a flag byte. *)
Definition read_flags (f : Z) : bool * ShouldDispatchWhenWaitingForSyncReply * bool :=
  let g := OptionSet.fromRaw MessageFlags_values f in
  (OptionSet.contains MessageFlags_values g (flagBit SyncMessage), shouldDispatch_of_flags g,
   OptionSet.contains MessageFlags_values g (flagBit UseFullySynchronousModeForTesting)).

#[local] Instance read_flags_dec : EqDecision (bool * ShouldDispatchWhenWaitingForSyncReply * bool).
Proof. solve_decision. Defined.

(** All flag bytes, checked by evaluation. *)
Lemma read_flags_after sync s f :
  in_range 8 f -> in_range 8 (flags_after sync s f) /\
  read_flags (flags_after sync s f) = (sync, s, (read_flags f).2).
Proof.
  intros Hf.
  assert (forallb (fun f => bool_decide (in_range 8 (flags_after sync s f)) &&
     bool_decide (read_flags (flags_after sync s f) = (sync, s, (read_flags f).2))) (seqZ 0 256) = true) as H
    by (destruct sync, s; vm_compute; reflexivity).
  rewrite forallb_forall in H. specialize (H f).
  rewrite <- list_elem_of_In, elem_of_seqZ in H. unfold in_range in Hf. change (2 ^ 8) with 256 in Hf.
  specialize (H ltac:(lia)). apply andb_true_iff in H as [H1 H2].
  split; by eapply bool_decide_eq_true_1.
Qed.

(** Setting the synchronous flag and then the dispatch mode of a message in
    construction changes the first byte and nothing else, and a decoder that
    receives that byte reads back exactly the mode that was set, with the
    full-synchronous flag as it was before. *)
Theorem message_flags_roundtrip sync s e f bs :
  in_range 8 f -> enc_repr e (f :: bs) ->
  exists e1 e2 g, setIsSyncMessage sync e = Ok e1 /\
    setShouldDispatchMessageWhenWaitingForSyncReply s e1 = Ok e2 /\
    enc_repr e2 (g :: bs) /\ same_meta e e2 /\
    (forall d, m_messageFlags d = OptionSet.fromRaw MessageFlags_values g ->
       isSyncMessage d = sync /\ shouldDispatchMessageWhenWaitingForSyncReply d = s /\
       shouldUseFullySynchronousModeForTesting d = (read_flags f).2).
Proof.
  intros Hf He. unfold setIsSyncMessage. rewrite (messageFlags_repr _ _ _ He). cbn [mbind res_bind].
  set (f1 := if sync then OptionSet.add f (flagBit SyncMessage) else OptionSet.remove f (flagBit SyncMessage)).
  destruct (set_messageFlags_repr f1 e f bs He) as (e1 & E1 & R1 & M1).
  exists e1. unfold setShouldDispatchMessageWhenWaitingForSyncReply.
  rewrite (messageFlags_repr _ _ _ R1). cbn [mbind res_bind].
  destruct (set_messageFlags_repr (flags_after sync s f) e1 f1 bs R1) as (e2 & E2 & R2 & M2).
  exists e2, (flags_after sync s f). split; [by destruct sync|]. split; [by destruct s|].
  split; [done|]. split; [by eapply same_meta_trans|]. intros d Hd.
  unfold isSyncMessage, shouldDispatchMessageWhenWaitingForSyncReply, shouldUseFullySynchronousModeForTesting.
  rewrite Hd. pose proof (read_flags_after sync s f Hf) as [_ R].
  split; [|split].
  - apply (f_equal (fun x => x.1.1) R).
  - apply (f_equal (fun x => x.1.2) R).
  - apply (f_equal snd R).
Qed.

Lemma message_flags_roundtrip_witness :
  exists e, Encoder_new 5 6 = Ok e /\
  exists e1 e2 g, setIsSyncMessage true e = Ok e1 /\
    setShouldDispatchMessageWhenWaitingForSyncReply YesDuringUnboundedIPC e1 = Ok e2 /\
    enc_repr e2 (g :: tail (header_bytes 0 5 6)) /\ same_meta e e2 /\
    (forall d, m_messageFlags d = OptionSet.fromRaw MessageFlags_values g ->
       isSyncMessage d = true /\ shouldDispatchMessageWhenWaitingForSyncReply d = YesDuringUnboundedIPC /\
       shouldUseFullySynchronousModeForTesting d = (read_flags 0).2).
Proof.
  destruct (Encoder_new_repr 5 6) as (e & E & R & _). exists e. split; [exact E|].
  apply (message_flags_roundtrip true YesDuringUnboundedIPC e 0 (tail (header_bytes 0 5 6)));
    [unfold in_range; lia|exact R].
Defined.

(** ** Wrapped messages *)

Lemma removeAttachment_snoc d atts a :
  m_attachments d = atts ++ [a] ->
  removeAttachment d = (Some a, mk (m_buffer d) (m_data d) (m_bufferPos d) (m_bufferEnd d) atts
                                  (m_messageFlags d) (m_messageName d) (m_destinationID d)).
Proof.
  intros E. unfold removeAttachment. rewrite E, last_snoc, length_app. cbn.
  by rewrite Nat.add_sub, take_app_length.
Qed.

(** Popping all attachments gives them in reverse order. *)
Lemma removeAllAttachments_spec d acc :
  removeAllAttachments (List.length (m_attachments d)) acc d =
    (acc ++ rev (m_attachments d),
     mk (m_buffer d) (m_data d) (m_bufferPos d) (m_bufferEnd d) [] (m_messageFlags d)
       (m_messageName d) (m_destinationID d)).
Proof.
  remember (m_attachments d) as atts eqn:E. revert d acc E.
  induction atts as [|a atts IH] using rev_ind; intros d acc E.
  - cbn. rewrite app_nil_r, E. by destruct d.
  - rewrite length_app, Nat.add_comm. cbn [List.length Nat.add removeAllAttachments].
    rewrite (removeAttachment_snoc d atts a) by done. rewrite IH by done. cbn.
    by rewrite rev_app_distr, <- app_assoc.
Qed.

Lemma foldl_addAttachment atts e bs :
  enc_repr e bs ->
  enc_repr (foldl (fun e a => addAttachment a e) e atts) bs /\
  IpcEncoder.m_attachments (foldl (fun e a => addAttachment a e) e atts)
    = IpcEncoder.m_attachments e ++ atts.
Proof.
  revert e; induction atts as [|a atts IH]; intros e He; cbn; [by rewrite app_nil_r|].
  destruct (IH (addAttachment a e)) as [H1 H2]; [by destruct He; constructor|].
  split; [done|]. rewrite H2. cbn. by rewrite <- app_assoc.
Qed.

(** The flag byte of the original message once it is marked for dispatch. *)
Definition marked (f : Z) : Z :=
  OptionSet.remove (OptionSet.add f (flagBit DispatchMessageWhenWaitingForSyncReply))
    (flagBit DispatchMessageWhenWaitingForUnboundedSyncReply).

Lemma marked_ok f :
  in_range 8 f -> in_range 8 (marked f) /\
  shouldDispatch_of_flags (OptionSet.fromRaw MessageFlags_values (marked f)) = Yes /\
  (read_flags (marked f)).1.1 = (read_flags f).1.1.
Proof.
  intros Hf.
  assert (forallb (fun f => bool_decide (in_range 8 (marked f)) &&
     bool_decide (shouldDispatch_of_flags (OptionSet.fromRaw MessageFlags_values (marked f)) = Yes) &&
     bool_decide ((read_flags (marked f)).1.1 = (read_flags f).1.1)) (seqZ 0 256) = true) as H
    by (vm_compute; reflexivity).
  rewrite forallb_forall in H. specialize (H f).
  rewrite <- list_elem_of_In, elem_of_seqZ in H. unfold in_range in Hf. change (2 ^ 8) with 256 in Hf.
  specialize (H ltac:(lia)). apply andb_true_iff in H as [H H3]. apply andb_true_iff in H as [H1 H2].
  split_and!; by eapply bool_decide_eq_true_1.
Qed.

(** What [wrapForTesting] builds: the wrapper's bytes, then the original
    message as a byte array; the original's attachments move to the wrapper. *)
Lemma wrapForTesting_repr o e f body wbytes :
  enc_repr o (f :: body) -> enc_repr e wbytes ->
  zlen wbytes + zlen (wire (DataRef (marked f :: body)) (zlen wbytes)) <= maxMessage ->
  1 + zlen body < 2 ^ 64 -> Forall (in_range 8) (marked f :: body) ->
  zlen (IpcEncoder.m_attachments o) <= 2 ^ 62 ->
  exists e', wrapForTesting o e = Ok e' /\
    enc_repr e' (wbytes ++ wire (DataRef (marked f :: body)) (zlen wbytes)) /\
    IpcEncoder.m_attachments e' = IpcEncoder.m_attachments e ++ IpcEncoder.m_attachments o.
Proof.
  intros Ho He Hm Hb Hr Ha. unfold wrapForTesting, setShouldDispatchMessageWhenWaitingForSyncReply.
  rewrite (messageFlags_repr _ _ _ Ho). cbn [mbind res_bind].
  destruct (set_messageFlags_repr (marked f) o f body Ho) as (o1 & E1 & R1 & M1).
  change (OptionSet.remove _ _) with (marked f). rewrite E1. cbn [mbind res_bind].
  rewrite (enc_repr_bytes _ _ R1). cbn [mbind res_bind].
  assert (encodable (DataRef (marked f :: body))) as Henc by (split; [rewrite zlen_cons; lia|done]).
  destruct (encode_wire _ Henc e wbytes He Hm) as (e1 & E2 & R2 & M2).
  change (encode (DataRef (marked f :: body)) e) with (encodeVariableLengthByteArray (marked f :: body) e) in E2.
  rewrite E2. cbn [mbind res_bind releaseAttachments].
  destruct M1 as (_ & _ & M1). rewrite M1.
  destruct (reserve_repr (zlen (IpcEncoder.m_attachments o)) e1 _ R2 Ha) as (e2 & -> & R3 & M3 & _).
  cbn [mbind res_bind]. destruct (foldl_addAttachment (IpcEncoder.m_attachments o) e2 _ R3) as [R4 M4].
  eexists. split; [done|]. split; [done|]. rewrite M4.
  by destruct M3 as (_ & _ & ->), M2 as (_ & _ & ->).
Qed.

(** A message that is wrapped into a synchronous one and received is
    unwrapped to the original message: same name, destination, body and
    attachments in the same order, now marked to be dispatched while waiting
    for a synchronous reply. *)
Theorem wrap_unwrap_roundtrip isValidName o e f name dest body fw wname wdest addr copyAddr :
  let inner := header_bytes (marked f) name dest ++ body in
  let outer := header_bytes fw wname wdest ++ wire (DataRef inner) 16 in
  in_range 8 f -> in_range 16 name -> isValidName name = true -> in_range 64 dest ->
  in_range 8 fw -> in_range 16 wname -> isValidName wname = true -> in_range 64 wdest ->
  enc_repr o (header_bytes f name dest ++ body) -> enc_repr e (header_bytes fw wname wdest) ->
  IpcEncoder.m_attachments e = [] -> zlen (IpcEncoder.m_attachments o) <= 2 ^ 62 ->
  receivable addr outer -> receivable copyAddr inner ->
  exists e' d d' d2,
    wrapForTesting o e = Ok e' /\ message_bytes e' = Ok outer /\
    create isValidName addr outer (IpcEncoder.m_attachments e') = Ok (Some d) /\
    unwrapForTesting isValidName copyAddr d = Ok (Some d', d2) /\
    m_messageName d' = Some name /\ m_destinationID d' = Some dest /\ m_data d' = inner /\
    m_attachments d' = IpcEncoder.m_attachments o /\ m_attachments d2 = [] /\
    shouldDispatchMessageWhenWaitingForSyncReply d' = Yes /\
    isSyncMessage d' = (read_flags f).1.1.
Proof.
  intros inner outer Hf Hn Hvn Hd Hfw Hwn Hvw Hwd Ho He Hae Hao Hro Hri.
  destruct (marked_ok f Hf) as (Hmf & Hdisp & Hsync).
  pose proof Hro as (Ho1 & Ho2 & Ho3 & Ho4 & Ho5). pose proof Hri as (Hi1 & Hi2 & Hi3 & Hi4 & Hi5).
  assert (Henc : encodable (DataRef inner)) by (split; [unfold maxReceived in Hi4; lia|done]).
  unfold outer in Ho4. rewrite zlen_app, zlen_header in Ho4.
  destruct (wrapForTesting_repr o e f (tail inner) _ Ho He) as (e' & E1 & R1 & A1).
  { rewrite zlen_header. change (marked f :: tail inner) with inner. unfold maxMessage, maxReceived in *. lia. }
  { pose proof (zlen_cons (marked f) (tail inner)) as Hz. change (marked f :: tail inner) with inner in Hz.
    unfold maxReceived in Hi4. lia. }
  { exact Hi5. } { exact Hao. }
  rewrite zlen_header in R1. change (marked f :: tail inner) with inner in R1. rewrite Hae in A1. cbn in A1.
  set (d := mk addr outer (addr + 16) (addr + zlen outer) (IpcEncoder.m_attachments e')
              (OptionSet.fromRaw MessageFlags_values fw) (Some wname) (Some wdest)).
  set (d1 := mk addr outer (addr + 16) (addr + zlen outer) []
              (OptionSet.fromRaw MessageFlags_values fw) (Some wname) (Some wdest)).
  assert (at_pos d1 (header_bytes fw wname wdest) (wire (DataRef inner) 16 ++ [])) as Hat.
  { rewrite app_nil_r. destruct (new_wf addr outer [] Hro) as [W1 W2 W3 W6 W4 W5]. constructor; [|done..].
    constructor; try assumption. right. cbn [m_buffer m_bufferPos m_bufferEnd d1].
    unfold outer. rewrite zlen_app, zlen_header. pose proof (zlen_nonneg (wire (DataRef inner) 16)). lia. }
  pose proof (decode_wire (DataRef inner) Henc d1 _ _ Hat) as E2.
  unfold decode in E2; cbn [DataReference_coder] in E2. unfold decode_DataReference, bind, ret in E2.
  destruct (decodeVariableLengthByteArray d1) as [[[b|] d2]| | |] eqn:E3; try discriminate.
  injection E2 as -> ->.
  eexists e', d, _, _. split_and!; [done|by apply enc_repr_bytes| | | | | | | | |].
  - unfold create, outer. rewrite (new_header _ _ _ _ _ _ _ Hfw Hwn Hvw Hwd Hro). cbn [mbind res_bind].
    unfold isValid; cbn [m_bufferPos]. by rewrite (proj2 (Z.eqb_neq _ _)) by lia.
  - unfold unwrapForTesting. rewrite removeAllAttachments_spec. cbn [app].
    change (mk (m_buffer d) _ _ _ _ _ _ _) with d1. rewrite E3. cbn [mbind res_bind].
    unfold create, inner. rewrite (new_header _ _ _ _ _ _ _ Hmf Hn Hvn Hd Hri). cbn [mbind res_bind].
    unfold isValid; cbn [m_bufferPos]. by rewrite (proj2 (Z.eqb_neq _ _)) by lia.
  - done.
  - done.
  - done.
  - cbn [m_attachments d]. by rewrite rev_involutive.
  - done.
  - exact Hdisp.
  - exact Hsync.
Qed.

Lemma bytes_check bytes :
  forallb (fun b => bool_decide (in_range 8 b)) bytes = true -> Forall (in_range 8) bytes.
Proof.
  intros H. rewrite forallb_forall in H. apply Forall_forall. intros x Hx. apply list_elem_of_In in Hx.
  by eapply bool_decide_eq_true_1, H.
Qed.

Lemma sample_receivable addr bytes :
  bool_decide (0 < addr /\ addr mod 8 = 0 /\ addr + zlen bytes < 2 ^ 64 /\ zlen bytes <= maxReceived) = true ->
  forallb (fun b => bool_decide (in_range 8 b)) bytes = true -> receivable addr bytes.
Proof.
  intros H1%bool_decide_eq_true_1 H2%bytes_check. unfold receivable. tauto.
Qed.

Lemma wrap_unwrap_roundtrip_witness :
  let inner := header_bytes (marked 8) 7 70 ++ [1; 2; 3] in
  let outer := header_bytes 1 9 0 ++ wire (DataRef inner) 16 in
  exists o e e' d d' d2, enc_repr o (header_bytes 8 7 70 ++ [1; 2; 3]) /\
    wrapForTesting o e = Ok e' /\ message_bytes e' = Ok outer /\
    create (fun _ => true) 64 outer (IpcEncoder.m_attachments e') = Ok (Some d) /\
    unwrapForTesting (fun _ => true) 128 d = Ok (Some d', d2) /\
    m_messageName d' = Some 7 /\ m_destinationID d' = Some 70 /\ m_data d' = inner /\
    m_attachments d' = IpcEncoder.m_attachments o /\ m_attachments d2 = [] /\
    shouldDispatchMessageWhenWaitingForSyncReply d' = Yes /\
    isSyncMessage d' = (read_flags 8).1.1.
Proof.
  cbv zeta.
  set (cells := Some <$> header_bytes 8 7 70 ++ [1; 2; 3]).
  set (o := mkEncoder 7 70 (cells ++ replicate (512 - List.length cells) None) 19 512 [mkAttachment SocketType 3 0]).
  set (e := mkEncoder 9 0 ((Some <$> header_bytes 1 9 0) ++ replicate 496 None) 16 512 []).
  assert (enc_repr o (header_bytes 8 7 70 ++ [1; 2; 3])) as Ho
    by (constructor; try reflexivity; vm_compute; intuition congruence).
  destruct (wrap_unwrap_roundtrip (fun _ => true) o e 8 7 70 [1; 2; 3] 1 9 0 64 128)
    as (e' & d & d' & d2 & H); try reflexivity; try (unfold in_range; lia).
  - exact Ho.
  - constructor; try reflexivity; vm_compute; intuition congruence.
  - vm_compute. congruence.
  - apply sample_receivable; vm_compute; reflexivity.
  - apply sample_receivable; vm_compute; reflexivity.
  - exists o, e, e', d, d', d2. split; [exact Ho|exact H].
Defined.

(** ** Rejection of malformed messages *)

(** A decoder that has been invalidated stays invalid: every later read of
    fixed-length data, of a number or of a byte array fails, and none of them
    touches the buffer. *)
Theorem invalid_decoder_stays_invalid d size al :
  wf d -> m_bufferPos d = 0 -> is_align al -> 0 <= size ->
  decodeFixedLengthData size al d = Ok (None, d) /\
  (forall n, ArithSize n -> decode_arith n d = Ok (None, d)) /\
  decodeVariableLengthByteArray d = Ok (None, d) /\ isValid d = false.
Proof.
  intros Hw Hp Hal Hs.
  assert (Hfix : forall size al, is_align al -> 0 <= size -> decodeFixedLengthData size al d = Ok (None, d)).
  { intros size' al' Hal' Hs'. unfold decodeFixedLengthData.
    pose proof (alignBufferPosition_spec al' size' d Hw Hal' Hs') as H.
    destruct (alignBufferPosition al' size' d) as [[|] d1]; [by destruct H as (_ & ? & _)|].
    rewrite H. do 2 f_equal. unfold markInvalid, set_pos. rewrite <- Hp. by destruct d. }
  assert (Har : forall n, ArithSize n -> decode_arith n d = Ok (None, d)).
  { intros n Hn. unfold decode_arith, bind. rewrite Hfix; [done|apply Hn|lia]. }
  split; [by apply Hfix|]. split; [done|]. split.
  - unfold decodeVariableLengthByteArray, bind. by rewrite (Har 8%nat arith_8).
  - unfold isValid. by rewrite Hp.
Qed.

Lemma invalid_decoder_stays_invalid_witness :
  let d := mk 8 [1; 2; 3; 4] 0 12 [] 0 None None in
  decodeFixedLengthData 0 1 d = Ok (None, d) /\
  (forall n, ArithSize n -> decode_arith n d = Ok (None, d)) /\
  decodeVariableLengthByteArray d = Ok (None, d) /\ isValid d = false.
Proof.
  apply invalid_decoder_stays_invalid; try reflexivity; try lia; [|by left].
  constructor; try reflexivity; try (vm_compute; congruence); [|by left].
  apply bytes_check. vm_compute. reflexivity.
Defined.

(** A message whose name is not a known message name is not rejected: the
    constructor returns early without marking the decoder invalid, so [create]
    returns a decoder that counts as valid and whose name and destination were
    never written. *)
Theorem create_accepts_unknown_name isValidName addr f name rest atts :
  in_range 8 f -> in_range 16 name -> isValidName name = false ->
  receivable addr ([f; 0] ++ le_split 2 name ++ rest) ->
  exists d, create isValidName addr ([f; 0] ++ le_split 2 name ++ rest) atts = Ok (Some d) /\
    isValid d = true /\ m_messageName d = None /\ m_destinationID d = None.
Proof.
  intros Hf Hname Hvalid Hrecv. pose proof Hrecv as (Ha1 & Ha2 & _).
  set (bytes := [f; 0] ++ le_split 2 name ++ rest) in *.
  pose proof (new_wf addr bytes atts Hrecv) as Hw0. unfold create, new. rewrite Ha2. cbn [negb Z.eqb].
  set (d0 := mk addr bytes addr (addr + zlen bytes) atts 0 None None) in *.
  assert (at_pos d0 [] (aligned 1 (le_split 1 f) 0 ++ drop 1 bytes)) as A0.
  { assert (le_split 1 f = [f]) as ->; [|by constructor; cbn; [done|done|done|unfold zlen; cbn; lia]].
    unfold in_range in Hf. change (2 ^ 8) with 256 in Hf. cbn. by rewrite Z.mod_small. }
  assert (decode_arith 1 d0 = Ok (Some f, advance 1 d0)) as E0
    by (eapply (decode_arith_at 1 f d0 [] _ arith_1); [by apply Hf|done]).
  apply at_pos_advance in A0. change (zlen ([] ++ aligned 1 (le_split 1 f) 0)) with 1 in A0.
  set (d1 := set_flags (OptionSet.fromRaw MessageFlags_values f) (advance 1 d0)).
  assert (at_pos d1 (take 1 bytes) (aligned 2 (le_split 2 name) 1 ++ drop 4 bytes)) as A1.
  { destruct A0 as [W P1 P2 P3]. constructor; [|done|done|done]. by destruct W; constructor. }
  assert (decode_arith 2 d1 = Ok (Some name, advance 4 d1)) as E1
    by (eapply (decode_arith_at 2 name d1 (take 1 bytes) _ arith_2); [by apply Hname|done]).
  unfold decode_into, decode_OptionSet, decode_enum, bind, ret, fail.
  rewrite E0. cbn [mbind res_bind]. rewrite OptionSet.fromRaw_valid. cbn [negb mbind res_bind].
  fold d1. rewrite E1. cbn [mbind res_bind]. rewrite Hvalid. cbn [negb mbind res_bind].
  assert (isValid (advance 4 d1) = true) as Hv.
  { unfold isValid, advance; cbn. by rewrite (proj2 (Z.eqb_neq _ _)) by lia. }
  rewrite Hv. by eexists.
Qed.

Lemma create_accepts_unknown_name_witness :
  exists d, create (fun n => n <? 1987) 8 ([0; 0] ++ le_split 2 60000 ++ [0; 0]) [] = Ok (Some d) /\
    isValid d = true /\ m_messageName d = None /\ m_destinationID d = None.
Proof.
  apply create_accepts_unknown_name; try (unfold in_range; lia); try reflexivity.
  apply sample_receivable; vm_compute; reflexivity.
Defined.

(** A variant whose index is past its last alternative is not rejected: it
    is decoded as alternative 0. *)
Theorem variant_index_out_of_range {V : Type} (alts : list (alternative V)) a i d d1 :
  alts !! 0%nat = Some a -> Z.of_nat (List.length alts) <= i ->
  decode (T := uint 4) d = Ok (Some (UInt i), d1) ->
  decode_Variant alts d = alt_decode a d1.
Proof.
  intros Ha Hi Hd. unfold decode_Variant, bind. rewrite Hd. cbn [mbind res_bind uint_val].
  apply lookup_lt_Some in Ha as Hl. by rewrite (VariantCoder_out_of_range alts _ i a) by (done || lia).
Qed.

(** A variant of a boolean and a byte. *)
Definition bool_or_byte : list (alternative (bool + uint 1)) :=
  [mkAlternative (fun v e => match v with inl b => encode b e | inr _ => UB end) (b <- decode ;; ret (inl b))%cf;
   mkAlternative (fun v e => match v with inr x => encode x e | inl _ => UB end) (x <- decode ;; ret (inr x))%cf].

Lemma variant_index_out_of_range_witness :
  let d := mk 8 [9; 0; 0; 0; 1] 8 13 [] 0 None None in
  exists a d1, decode_Variant bool_or_byte d = alt_decode a d1 /\
    decode_Variant bool_or_byte d = Ok (Some (inl true), set_pos 13 d).
Proof.
  set (d := mk 8 [9; 0; 0; 0; 1] 8 13 [] 0 None None). eexists _, (set_pos 12 d).
  split; [|vm_compute; reflexivity].
  apply (variant_index_out_of_range bool_or_byte _ 9 d (set_pos 12 d)); try reflexivity.
  vm_compute; congruence.
Defined.
