(* ===== verification/IpcSafety.v ===== *)
(** * Decoding whatever arrives

    Decoding is safe when it returns on every message, or ends the process with
    [CRASH()] where a vector cannot be stored, and never has undefined behaviour.
    The types it is safe for are those built without [bool]: the codes [Ty] name
    them, so that the theorem is about the coders themselves.  A [bool], and with
    it an [Optional], an [Expected] or a [String], is not safe: the byte of the message is
    read without a check ([bool_byte_undefined]). *)
From stdpp Require Import gmap.
From S2P Require Import Prelude IpcEncoder IpcDecoder IpcCoders IpcMessages.
Import Decoder.

Definition csafe {A} (m : M A) : Prop := forall d, wf d ->
  m d = Crash \/ exists o d', m d = Ok (o, d') /\ wf d' /\ step_ok d d'.

Lemma safe_csafe {A} (m : M A) : safe m -> csafe m.
Proof. intros Hm d Hd. right. by apply Hm. Qed.

Lemma csafe_crash {A} : csafe (fun _ => @Crash (option A * t)).
Proof. intros d _. by left. Qed.

Lemma csafe_bind {A B} (m : M A) (k : A -> M B) : csafe m -> (forall a, csafe (k a)) -> csafe (bind m k).
Proof.
  intros Hm Hk d Hd. unfold bind. destruct (Hm d Hd) as [->|(o & d1 & -> & Hd1 & S1)]; [by left|]. cbn.
  destruct o as [a|]; [|by eauto 6].
  destruct (Hk a d1 Hd1) as [->|(o2 & d2 & -> & Hd2 & S2)]; [by left|]. eauto 9 using step_ok_trans.
Qed.

Class SafeCoder (T : Type) `{ArgumentCoder T} := decode_safe : csafe decode.

#[export] Hint Resolve safe_csafe csafe_bind csafe_crash : coder.
#[export] Hint Extern 0 (csafe decode) => apply decode_safe : coder.

(** Safety of a compound decoder from the safety of its steps. *)
Ltac safe_steps := eauto 8 with coder.

(** ** Simple types *)

#[global] Instance uint_safe n `{!ArithSize n} : SafeCoder (uint n).
Proof. unfold SafeCoder, decode; cbn. unfold decode_uint. safe_steps. Qed.

#[global] Instance optset_safe n values `{!ArithSize n} : SafeCoder (optset n values).
Proof.
  unfold SafeCoder, decode; cbn. unfold decode_optset, decode_OptionSet.
  apply safe_csafe, safe_bind; [|safe_steps]. apply safe_bind; safe_steps.
Qed.

#[global] Instance enum_safe n isValidEnum `{!ArithSize n} : SafeCoder (enum n isValidEnum).
Proof.
  unfold SafeCoder, decode; cbn. unfold decode_enum_value, decode_enum.
  apply safe_csafe, safe_bind; [|safe_steps]. apply safe_bind; safe_steps.
Qed.

#[global] Instance Monostate_safe : SafeCoder unit.
Proof. apply safe_csafe, safe_ret. Qed.

#[global] Instance WallTime_safe : SafeCoder WallTime.
Proof. unfold SafeCoder, decode; cbn. unfold decode_WallTime. safe_steps. Qed.

(** ** Byte strings and arrays of numbers *)

Lemma safe_guarded {T} n k (m : M T) :
  safe m -> safe (fun d => if negb (bufferIsLargeEnoughToContain_arith n k d) then invalidate d else m d).
Proof.
  intros Hm d Hd. destruct (negb _); [by apply safe_invalidate|by apply Hm].
Qed.

Lemma safe_bind_arith {T} n (k : Z -> M T) :
  is_align (Z.of_nat n) -> (forall v, 0 <= v < 256 ^ Z.of_nat n -> safe (k v)) ->
  safe (bind (decode_arith n) k).
Proof.
  intros Hal Hk d Hd. unfold bind.
  destruct (decode_arith_spec n d Hd Hal) as (o & d1 & -> & Hd1 & S1 & Ho). cbn.
  destruct o as [v|]; [|by apply exit_with].
  destruct (Hk v Ho d1 Hd1) as (o2 & d2 & -> & ? & ?). apply exit_with; eauto using step_ok_trans.
Qed.

Lemma safe_CString : safe decode_CString.
Proof.
  apply safe_bind_arith; [apply arith_4|]. intros v Hv. apply safe_if; [safe_steps|].
  apply safe_guarded, safe_bind; [|safe_steps]. apply safe_decodeFixedLengthData; [apply arith_1|lia].
Qed.

Lemma safe_DataReference : safe decode_DataReference.
Proof.
  apply safe_bind; [|safe_steps]. apply safe_bind_arith; [apply arith_8|]. intros v Hv.
  apply (safe_decodeFixedLengthData v 1); [apply arith_1|lia].
Qed.

#[global] Instance CString_safe : SafeCoder CString.
Proof. apply safe_csafe, safe_CString. Qed.

#[global] Instance DataReference_safe : SafeCoder DataReference.
Proof. apply safe_csafe, safe_DataReference. Qed.

Section ArrayOfNumbers.
Context (n : nat) `{!ArithSize n}.

Lemma safe_ArithVec : safe (decode_ArithVector n).
Proof.
  intros d Hd. unfold decode_ArithVector; cbv zeta.
  destruct (decode_arith_spec 8 d Hd arith_8) as (o & d1 & -> & Hd1 & S1 & Ho). cbn [mbind res_bind].
  destruct o as [k|]; [|by apply exit_invalid].
  destruct (negb (k <=? _)); [by apply exit_invalid|].
  destruct (bufferIsLargeEnoughToContain_arith n k d1) eqn:E; cbn [negb];
    [|by apply exit_invalid].
  apply bufferIsLargeEnough_bound in E as Hk; [|done..|lia]. pose proof (arith_pos n).
  pose proof (wf_small _ Hd1). unfold maxReceived in *.
  unfold Vector_grow_crashes. rewrite (proj2 (Z.ltb_ge _ _)).
  2:{ apply Z.div_le_lower_bound; unfold UINT32_MAX; lia. }
  destruct (decodeFixedLengthData_spec (k * Z.of_nat n) (Z.of_nat n) d1 Hd1 arith_align)
    as (o2 & d2 & -> & Hd2 & S2 & Ho2); [lia|]. cbn.
  destruct o2; [apply exit_with|apply exit_invalid]; eauto using step_ok_trans.
Qed.

#[global] Instance ArithVector_safe : SafeCoder (arith_vec n).
Proof. apply safe_csafe, safe_ArithVec. Qed.
End ArrayOfNumbers.

(** ** Compound types *)

Section Compound.
Context {T U : Type} `{ArgumentCoder T, ArgumentCoder U, !SafeCoder T, !SafeCoder U, !SizeOf T}.

#[global] Instance pair_safe : SafeCoder (T * U).
Proof. unfold SafeCoder, decode; cbn. unfold decode_pair. safe_steps. Qed.

#[global] Instance KeyValuePair_safe : SafeCoder (KeyValuePair T U).
Proof. unfold SafeCoder, decode; cbn. unfold decode_KeyValuePair. safe_steps. Qed.

(** The storage is enlarged before an element is appended, or the process ends. *)
Lemma csafe_elements n : forall capacity (acc : list T), csafe (decode_elements n capacity acc).
Proof.
  induction n as [|n IH]; intros capacity acc; cbn; [safe_steps|]. apply csafe_bind; [safe_steps|]. intros x.
  destruct (append_capacity _ _ _); [apply IH|apply csafe_crash].
Qed.

#[global] Instance Vector_safe : SafeCoder (list T).
Proof. apply csafe_bind; [apply (uint_safe 8)|]. intros k. apply csafe_elements. Qed.
End Compound.

(** ** The types *)

Inductive Width := W8 | W16 | W32 | W64.
Definition bytes_of (w : Width) : nat := match w with W8 => 1 | W16 => 2 | W32 => 4 | W64 => 8 end.
#[global] Instance width_size w : ArithSize (bytes_of w).
Proof. destruct w; apply _. Qed.

Inductive Ty :=
  | TNumber (w : Width) | TEnum (w : Width) (isValidEnum : Z -> bool) | TOptionSet (w : Width) (values : list Z)
  | TMonostate | TWallTime | TCString | TDataReference | TArray (w : Width)
  | TPair (a b : Ty) | TKeyValuePair (a b : Ty) | TVector (element_size : Z) (a : Ty).

Fixpoint den (T : Ty) : Type :=
  match T with
  | TNumber w => uint (bytes_of w) | TEnum w valid => enum (bytes_of w) valid | TOptionSet w values => optset (bytes_of w) values
  | TMonostate => unit | TWallTime => WallTime | TCString => CString | TDataReference => DataReference | TArray w => arith_vec (bytes_of w)
  | TPair a b => den a * den b | TKeyValuePair a b => KeyValuePair (den a) (den b) | TVector _ a => list (den a)
  end.

Fixpoint coder_of (T : Ty) : ArgumentCoder (den T) :=
  match T with
  | TNumber w => uint_coder (bytes_of w) | TEnum w valid => enum_coder (bytes_of w) valid | TOptionSet w values => optset_coder (bytes_of w) values
  | TMonostate => Monostate_coder | TWallTime => WallTime_coder | TCString => CString_coder | TDataReference => DataReference_coder
  | TArray w => ArithVector_coder (bytes_of w)
  | TPair a b => @pair_coder _ _ (coder_of a) (coder_of b)
  | TKeyValuePair a b => @KeyValuePair_coder _ _ (coder_of a) (coder_of b)
  | TVector element_size a => @Vector_coder _ (coder_of a) element_size
  end.

Lemma coder_of_safe T : @SafeCoder (den T) (coder_of T).
Proof.
  induction T as [w|w valid|w values| | | | |w|a IHa b IHb|a IHa b IHb|s a IHa]; cbn [den coder_of]; try apply _.
  apply (@Vector_safe (den a) (coder_of a) IHa s).
Qed.



(** C36: an array of numbers of any width is decoded without [CRASH()] and without undefined
    behaviour from any message, whatever element count it claims: the count is compared with the
    bytes that are left before the storage is allocated. *)
Theorem array_count_checked n `{!ArithSize n} d : wf d ->
  exists o d', decode_ArithVector n d = Ok (o, d') /\ wf d' /\ step_ok d d' /\
    forall v, o = Some (ArithVec v) -> zlen v * Z.of_nat n <= zlen (m_data d).
Proof.
  intros Hd. destruct (safe_ArithVec n d Hd) as (o & d' & E & Hd' & St). exists o, d'. split_and!; [done..|].
  intros v ->. revert E. unfold decode_ArithVector; cbv zeta.
  destruct (decode_arith_spec 8 d Hd arith_8) as (o & d1 & -> & Hd1 & S1 & Ho). cbn [mbind res_bind].
  destruct o as [k|]; [|done]. destruct (negb (k <=? _)); [done|].
  destruct (bufferIsLargeEnoughToContain_arith n k d1) eqn:E; [|done]. cbn [negb].
  apply bufferIsLargeEnough_bound in E; [|done|done|lia]. rewrite (so_data _ _ S1) in E.
  destruct (Vector_grow_crashes n k); [done|].
  destruct (decodeFixedLengthData _ _ d1) as [[[bytes|] d2]| | |]; cbn; try done.
  intros [= <- <-]. assert (zlen (storage_elements n (Z.to_nat k) bytes) = k) as ->; [|done].
  assert (forall m l, List.length (storage_elements n m l) = m) as Hlen
    by (induction m as [|m IH]; intros l; cbn; [done|by rewrite IH]).
  unfold zlen. rewrite Hlen. lia.
Qed.

(** A message of twelve bytes that claims 2^63 elements. *)
Lemma array_count_checked_witness :
  let d := mk 8 ([0; 0; 0; 0; 0; 0; 0; 128] ++ [1; 0; 5; 0]) 8 20 [] 0 None None in
  exists o d', decode_ArithVector 2 d = Ok (o, d') /\ wf d' /\ step_ok d d' /\
    forall v, o = Some (ArithVec v) -> zlen v * Z.of_nat 2 <= zlen (m_data d).
Proof.
  apply (array_count_checked 2).
  constructor; try reflexivity; try (vm_compute; congruence); [|right; vm_compute; split; congruence].
  apply bytes_check. vm_compute. reflexivity.
Defined.

(** A byte that is no [bool] in the place of one makes the read undefined. *)
Lemma bool_byte_undefined : decode (T := bool) (mk 8 [2] 8 9 [] 0 None None) = UB /\ decode (T := option (uint 1)) (mk 8 [2; 7] 8 10 [] 0 None None) = UB.
Proof. split; vm_compute; reflexivity. Qed.
