(* ===== verification/IpcTransport.v ===== *)
(** * Messages on a socket (ipc/unix/ConnectionUnix.cpp, UnixMessage.h)

    A message is sent as one packet: a [MessageInfo], an [AttachmentInfo] per
    attachment, the body unless it is out of line, and the descriptors of the
    attachments as control data.  A body that does not fit is put in shared
    memory, whose descriptor is sent as one more attachment.  The receiver
    collects bytes and descriptors in two buffers and takes messages off them.

    Descriptors stand for open files, which have the same name on both ends, so
    a duplicated descriptor is the same one.  Shared memory is a store of such
    files: allocating adds a file of zeroes, the sender copies the body into it,
    the receiver maps it and reads it.  What the system answers (the descriptor
    of a new file, whether a mapping or a duplicate can be made) is an argument.

    A [bool] member of the structures that travel is kept as its byte; loading
    it is undefined unless the byte is 0 or 1 ([read_bool]).  The receiver takes
    the load as an argument, so that what depends on it can be told apart. *)
From stdpp Require Import gmap.
From S2P Require Import Prelude IpcEncoder IpcDecoder IpcCoders IpcMessages.

#[local] Open Scope cfetch_scope.

Module Transport.

(** ** Formats *)

Definition messageMaxSize : Z := 4096.
Definition attachmentMaxAmount : Z := 254.

Record MessageInfo := mk_MessageInfo { m_bodySize : Z; m_attachmentCount : Z; m_isBodyOutOfLine : Z }.

Definition MessageInfo_new (bodySize initialAttachmentCount : Z) : MessageInfo :=
  mk_MessageInfo bodySize initialAttachmentCount 0.
Definition setBodyOutOfLine (i : MessageInfo) : MessageInfo :=
  mk_MessageInfo (m_bodySize i) (u64 (m_attachmentCount i + 1)) 1.

Definition sizeof_MessageInfo : Z := 24.
(** The object representation: the constructor has cleared the padding. *)
Definition MessageInfo_bytes (i : MessageInfo) : list Z :=
  le_split 8 (m_bodySize i) ++ le_split 8 (m_attachmentCount i) ++ [m_isBodyOutOfLine i] ++ replicate 7 0.
(** [memcpy(&messageInfo, data, sizeof(messageInfo))] *)
Definition MessageInfo_of (bytes : list Z) : MessageInfo :=
  mk_MessageInfo (le_combine (take 8 bytes)) (le_combine (take 8 (drop 8 bytes)))
    (default 0 (bytes !! 16%nat)).

(** [m_type] as the integer that was received. *)
Record AttachmentInfo := mk_AttachmentInfo { m_type : Z; m_isNull : Z; m_size : Z }.

Definition type_code (t : AttachmentType) : Z :=
  match t with Uninitialized => 0 | SocketType => 1 | MappedMemoryType => 2 end.

Definition sizeof_AttachmentInfo : Z := 16.
(** The three bytes of padding are never written: [pad] is what is there. *)
Definition AttachmentInfo_bytes (pad : list Z) (i : AttachmentInfo) : list Z :=
  le_split 4 (m_type i) ++ [m_isNull i] ++ pad ++ le_split 8 (m_size i).
Definition AttachmentInfo_of (bytes : list Z) : AttachmentInfo :=
  mk_AttachmentInfo (le_combine (take 4 bytes)) (default 0 (bytes !! 4%nat)) (le_combine (take 8 (drop 8 bytes))).

(** [Vector<AttachmentInfo>] copied from the buffer. *)
Fixpoint AttachmentInfos_of (n : nat) (bytes : list Z) : list AttachmentInfo :=
  match n with
  | O => []
  | S n => AttachmentInfo_of (take 16 bytes) :: AttachmentInfos_of n (drop 16 bytes)
  end.

(** ** Sending *)

Record UnixMessage := mk_UnixMessage { u_attachments : list Attachment; u_info : MessageInfo; u_body : list Z }.

Definition UnixMessage_new (e : Encoder) : res UnixMessage :=
  body ← message_bytes e;
  let '(attachments, _) := releaseAttachments e in
  mret (mk_UnixMessage attachments (MessageInfo_new (m_bufferSize e) (zlen attachments)) body).

Definition appendAttachment (m : UnixMessage) (a : Attachment) : UnixMessage :=
  mk_UnixMessage (u_attachments m ++ [a]) (u_info m) (u_body m).

(** The packet: bytes and descriptors. *)
Record packet := mk_packet { p_bytes : list Z; p_fds : list Z }.

Definition has_fd (a : Attachment) : bool := negb (a_fileDescriptor a =? -1).

Definition info_of (a : Attachment) : AttachmentInfo :=
  match a_type a with
  | MappedMemoryType => mk_AttachmentInfo 2 (Z.b2z (negb (has_fd a))) (a_size a)
  | SocketType => mk_AttachmentInfo 1 (Z.b2z (negb (has_fd a))) 0
  | Uninitialized => mk_AttachmentInfo 0 0 0
  end.

(** [fdPtr[fdIndex++] = ...]: the descriptors written, in order. *)
Definition writes_fd (a : Attachment) : bool := match a_type a with Uninitialized => false | _ => has_fd a end.
Definition written_fds (attachments : list Attachment) : list Z :=
  a_fileDescriptor <$> filter (fun a => writes_fd a = true) attachments.

(** The control buffer has room for every attachment with a descriptor and was
    cleared before. *)
Definition control_fds (attachments : list Attachment) : list Z :=
  let attachmentFDBufferLength := length (filter (fun a => has_fd a = true) attachments) in
  written_fds attachments ++ replicate (attachmentFDBufferLength - length (written_fds attachments)) 0.

(** The three [iov]s of [sendOutputMessage]; [pads] is the padding of the
    attachment infos. *)
Definition packet_with (pads : nat -> list Z) (isBodyOutOfLine : bool) (m : UnixMessage) : packet :=
  let infos := mjoin (imap (fun i a => AttachmentInfo_bytes (pads i) (info_of a)) (u_attachments m)) in
  let body := if negb isBodyOutOfLine && negb (m_bodySize (u_info m) =? 0) then u_body m else [] in
  mk_packet (MessageInfo_bytes (u_info m) ++ infos ++ body) (control_fds (u_attachments m)).
Definition packet_of (pads : nat -> list Z) (m : UnixMessage) : res packet :=
  isBodyOutOfLine ← read_bool (m_isBodyOutOfLine (u_info m)); mret (packet_with pads isBodyOutOfLine m).

(** ** Shared memory *)

(** The open files that hold shared memory. *)
Notation memory := (gmap Z (list Z)).

(** What the system answers: the descriptor of the new file, whether it could
    be given its size and mapped, whether the descriptor could be duplicated. *)
Record allocation := mk_allocation { created : option Z; sized_and_mapped : bool; duplicated : bool }.

(** [SharedMemory::allocate]: a new file of [size] zeroes. *)
Definition SharedMemory_allocate (os : allocation) (size : Z) (M : memory) : option (Z * memory) :=
  match created os with
  | None => None
  | Some fd => if sized_and_mapped os then Some (fd, <[fd := replicate (Z.to_nat size) 0]> M) else None
  end.

(** [SharedMemory::createHandle]: a duplicate of the descriptor, and the size. *)
Definition createHandle (os : allocation) (fd size : Z) : option Attachment :=
  if duplicated os then Some (mkAttachment MappedMemoryType fd size) else None.

(** [memcpy] of [src] to the start of a mapped file. *)
Definition memcpy_shared (fd : Z) (src : list Z) (M : memory) : res memory :=
  file ← or_ub (M !! fd);
  if zlen src <=? zlen file then mret (<[fd := src ++ drop (length src) file]> M) else UB.

Definition pageSize : Z := 4096.

(** [SharedMemory::map], and the bytes the caller reads: behind the end of the
    file its last page reads as zero, and the next page is a fault.  [mmap] says
    whether the system makes the mapping. *)
Definition SharedMemory_map (mmap : Z -> Z -> bool) (M : memory) (fd size : Z) : res (option (list Z)) :=
  if negb (mmap fd size) then mret None
  else
    match M !! fd with
    | None => mret None
    | Some file =>
        let rest := (- zlen file) mod pageSize in
        if size <=? zlen file + rest then mret (Some (take (Z.to_nat size) (file ++ replicate (Z.to_nat rest) 0))) else Crash
    end.

(** The message that [sendOutgoingMessage] hands to [sendOutputMessage], or its
    [return false]. *)
Definition prepare (e : Encoder) (os : allocation) (M : memory) : res (option UnixMessage * memory) :=
  outputMessage ← UnixMessage_new e;
  if zlen (u_attachments outputMessage) >? attachmentMaxAmount - 1 then mret (None, M)
  else
    let messageSizeWithBodyInline :=
      u64 (sizeof_MessageInfo + zlen (u_attachments outputMessage) * sizeof_AttachmentInfo + m_bodySize (u_info outputMessage)) in
    if (messageSizeWithBodyInline >? messageMaxSize) && negb (m_bodySize (u_info outputMessage) =? 0) then
      match SharedMemory_allocate os (m_bufferSize e) M with
      | None => mret (None, M)
      | Some (fd, M) =>
          match createHandle os fd (m_bufferSize e) with
          | None => mret (None, M)
          | Some handle =>
              let outputMessage := mk_UnixMessage (u_attachments outputMessage) (setBodyOutOfLine (u_info outputMessage)) (u_body outputMessage) in
              M ← memcpy_shared fd (take (Z.to_nat (m_bodySize (u_info outputMessage))) (u_body outputMessage)) M;
              mret (Some (appendAttachment outputMessage handle), M)
          end
      end
    else mret (Some outputMessage, M).

(** [sendOutgoingMessage] for one message, and for messages one after the
    other: the packets handed to the socket. *)
Definition send_packet (pads : nat -> list Z) (e : Encoder) (os : allocation) (M : memory) : res (option packet * memory) :=
  '(m, M) ← prepare e os M;
  match m with
  | None => mret (None, M)
  | Some m => p ← packet_of pads m; mret (Some p, M)
  end.

Fixpoint send_packets (pads : nat -> list Z) (l : list (Encoder * allocation)) (M : memory) : res (list (option packet) * memory) :=
  match l with
  | [] => mret ([], M)
  | (e, os) :: l => '(p, M) ← send_packet pads e os M; '(ps, M) ← send_packets pads l M; mret (p :: ps, M)
  end.

(** ** Receiving *)

(** [m_readBuffer] and [m_fileDescriptors]. *)
Record receiver := mk_receiver { m_readBuffer : list Z; m_fileDescriptors : list Z }.

(** [Vector::operator[]] crashes outside the vector. *)
Definition vector_at {A} (l : list A) (i : Z) : res A := match l.[i] with Some a => Ok a | None => Crash end.

Section attachments.
(** The load of a [bool] from its byte. *)
Context (load : Z -> res bool).

Definition counts_fd (i : AttachmentInfo) : res bool :=
  if (m_type i =? 2) || (m_type i =? 1) then isNull ← load (m_isNull i); mret (negb isNull) else mret false.

(** [attachmentFileDescriptorCount] *)
Fixpoint count_fds (infos : list AttachmentInfo) : res Z :=
  match infos with
  | [] => mret 0
  | i :: infos => c ← counts_fd i; n ← count_fds infos; mret (Z.b2z c + n)
  end.

(** The loop that rebuilds the attachments, last one first: [acc] holds those
    of the infos before. *)
Fixpoint rebuild (fds : list Z) (infos : list AttachmentInfo) (fdIndex : Z) (acc : list Attachment) : res (list Attachment) :=
  match infos with
  | [] => mret acc
  | i :: infos =>
      if (m_type i =? 2) || (m_type i =? 1) then
        isNull ← load (m_isNull i);
        '(fd, fdIndex) ← (if negb isNull then fd ← vector_at fds fdIndex; mret (fd, fdIndex + 1) else mret (-1, fdIndex));
        let a := if m_type i =? 2 then mkAttachment MappedMemoryType fd (m_size i) else mkAttachment SocketType fd 0 in
        rebuild fds infos fdIndex (a :: acc)
      else rebuild fds infos fdIndex (mkAttachment Uninitialized (-1) 0 :: acc)
  end.
End attachments.

(** What a call of [processMessage] hands on: the body and the attachments that
    the decoder is made of. *)
Definition delivery : Type := list Z * list Attachment.

(** The messages and descriptors that stay in the buffers. *)
Definition consume {A} (l : list A) (n : Z) : list A := if zlen l >? n then drop (Z.to_nat n) l else [].

Section receive.
Context (load : Z -> res bool) (mmap : Z -> Z -> bool) (M : memory).

(** [processMessage] from the copy of the attachment infos on, for a message
    that has arrived completely; [None] is a [return false]. *)
Definition takeMessage (r : receiver) (messageInfo : MessageInfo) (isBodyOutOfLine : bool) (messageLength : Z) : res (option delivery * receiver) :=
  let attachmentCount := m_attachmentCount messageInfo in
  infoBytes ← mem_read (m_readBuffer r) sizeof_MessageInfo (sizeof_AttachmentInfo * attachmentCount);
  let attachmentInfo := AttachmentInfos_of (Z.to_nat attachmentCount) infoBytes in
  attachmentFileDescriptorCount ← count_fds load attachmentInfo;
  let attachmentCount :=
    if negb (attachmentCount =? 0) && isBodyOutOfLine then attachmentCount - 1 else attachmentCount in
  attachments ← rebuild load (m_fileDescriptors r) (take (Z.to_nat attachmentCount) attachmentInfo) 0 [];
  messageBody ←
    (if isBodyOutOfLine then
       i ← vector_at attachmentInfo attachmentCount;
       isNull ← load (m_isNull i);
       if isNull || negb (m_size i =? m_bodySize messageInfo) then mret None
       else
         fd ← vector_at (m_fileDescriptors r) (u64 (attachmentFileDescriptorCount - 1));
         SharedMemory_map mmap M fd (m_size i)
     else
       body ← mem_read (m_readBuffer r) (sizeof_MessageInfo + sizeof_AttachmentInfo * m_attachmentCount messageInfo)
                (m_bodySize messageInfo);
       mret (Some body));
  match messageBody with
  | None => mret (None, r)
  | Some messageBody =>
      mret (Some (messageBody, attachments),
            mk_receiver (consume (m_readBuffer r) messageLength)
              (if negb (attachmentFileDescriptorCount =? 0)
               then consume (m_fileDescriptors r) attachmentFileDescriptorCount else m_fileDescriptors r))
  end.

(** The member [m_isBodyOutOfLine] is loaded only when there are not too many
    attachments. *)
Definition processMessage (r : receiver) : res (option delivery * receiver) :=
  if zlen (m_readBuffer r) <? sizeof_MessageInfo then mret (None, r)
  else
    head ← mem_read (m_readBuffer r) 0 sizeof_MessageInfo;
    let messageInfo := MessageInfo_of head in
    if m_attachmentCount messageInfo >? attachmentMaxAmount then mret (None, r)
    else
      isBodyOutOfLine ← load (m_isBodyOutOfLine messageInfo);
      if negb isBodyOutOfLine && (m_bodySize messageInfo >? messageMaxSize) then mret (None, r)
      else
        let messageLength :=
          u64 (sizeof_MessageInfo + m_attachmentCount messageInfo * sizeof_AttachmentInfo
               + (if isBodyOutOfLine then 0 else m_bodySize messageInfo)) in
        if zlen (m_readBuffer r) <? messageLength then mret (None, r)
        else takeMessage r messageInfo isBodyOutOfLine messageLength.

(** [while (true) { if (!processMessage()) break; }] *)
Fixpoint processMessages (fuel : nat) (r : receiver) : res (list delivery * receiver) :=
  match fuel with
  | O => NoFuel
  | S fuel =>
      '(d, r) ← processMessage r;
      match d with
      | None => mret ([], r)
      | Some d => '(ds, r) ← processMessages fuel r; mret (d :: ds, r)
      end
  end.

(** A message has a header, so the buffer bounds the number of messages. *)
Definition process_fuel (r : receiver) : nat := S (length (m_readBuffer r)).

(** [readBytesFromSocket] with a packet waiting: the buffer has a fixed
    capacity, what does not fit of the packet is lost; a packet with more
    descriptors than the control buffer has room for is a failure. *)
Definition readBytesFromSocket (p : packet) (r : receiver) : option receiver :=
  if zlen (p_fds p) >? attachmentMaxAmount then None
  else
    Some (mk_receiver (m_readBuffer r ++ take (Z.to_nat (messageMaxSize - zlen (m_readBuffer r))) (p_bytes p))
            (m_fileDescriptors r ++ p_fds p)).

(** [readyReadHandler] with the packets waiting in the socket: it returns when
    there are none or a read fails, and closes the connection when nothing was
    read. *)
Inductive handler_result := WouldBlock | ReadFailed | DidClose.

Fixpoint readyReadHandler (packets : list packet) (r : receiver) : res (list delivery * receiver * handler_result) :=
  match packets with
  | [] => mret ([], r, WouldBlock)
  | p :: packets =>
      match readBytesFromSocket p r with
      | None => mret ([], r, ReadFailed)
      | Some r' =>
          if zlen (m_readBuffer r') =? zlen (m_readBuffer r) then mret ([], r', DidClose)
          else
            '(ds, r'') ← processMessages (process_fuel r') r';
            '(ds', r''', h) ← readyReadHandler packets r'';
            mret (ds ++ ds', r''', h)
      end
  end.

End receive.

(** ** Formats read back *)

Definition info_ok (i : MessageInfo) : Prop := in_range 64 (m_bodySize i) /\ in_range 64 (m_attachmentCount i).

Lemma zlen_MessageInfo i : zlen (MessageInfo_bytes i) = sizeof_MessageInfo.
Proof. unfold MessageInfo_bytes. autorewrite with zlen. reflexivity. Qed.

Lemma take_le_split n v rest : take n (le_split n v ++ rest) = le_split n v.
Proof. apply take_app_length'. by rewrite length_le_split. Qed.

Lemma drop_le_split n v rest : drop n (le_split n v ++ rest) = rest.
Proof. apply drop_app_length'. by rewrite length_le_split. Qed.

Lemma MessageInfo_roundtrip i : info_ok i -> MessageInfo_of (MessageInfo_bytes i) = i.
Proof.
  intros [H1 H2]. unfold in_range in *. unfold MessageInfo_of, MessageInfo_bytes. rewrite take_le_split, drop_le_split, take_le_split.
  rewrite !le_combine_split by lia. by destruct i.
Qed.

Definition ainfo_ok (i : AttachmentInfo) : Prop := in_range 32 (m_type i) /\ in_range 64 (m_size i).

Lemma zlen_AttachmentInfo pad i : length pad = 3%nat -> zlen (AttachmentInfo_bytes pad i) = sizeof_AttachmentInfo.
Proof. intros Hp. unfold AttachmentInfo_bytes. autorewrite with zlen. unfold zlen. rewrite Hp. reflexivity. Qed.

Lemma AttachmentInfo_roundtrip pad i : length pad = 3%nat -> ainfo_ok i -> AttachmentInfo_of (AttachmentInfo_bytes pad i) = i.
Proof.
  intros Hp [H1 H2]. unfold in_range in *. unfold AttachmentInfo_of, AttachmentInfo_bytes.
  destruct pad as [|x [|y [|z [|]]]]; try discriminate Hp. rewrite take_le_split.
  change (drop 8 (le_split 4 (m_type i) ++ [m_isNull i] ++ [x; y; z] ++ le_split 8 (m_size i))) with (le_split 8 (m_size i)).
  rewrite (firstn_all2 (le_split 8 _)) by (rewrite length_le_split; done). rewrite !le_combine_split by lia. by destruct i.
Qed.

Definition infos_bytes (pads : nat -> list Z) (l : list AttachmentInfo) : list Z :=
  mjoin (imap (fun i a => AttachmentInfo_bytes (pads i) a) l).

Lemma infos_bytes_cons pads i l :
  infos_bytes pads (i :: l) = AttachmentInfo_bytes (pads 0%nat) i ++ infos_bytes (fun n => pads (S n)) l.
Proof. reflexivity. Qed.

Definition pads_ok (pads : nat -> list Z) : Prop := forall i, length (pads i) = 3%nat.

Lemma zlen_infos pads l : pads_ok pads -> zlen (infos_bytes pads l) = sizeof_AttachmentInfo * zlen l.
Proof.
  revert pads. induction l as [|i l IH]; intros pads Hp; [done|].
  rewrite infos_bytes_cons, zlen_app, zlen_AttachmentInfo, IH, zlen_cons by (try intros ?; apply Hp). lia.
Qed.

Lemma infos_roundtrip pads l :
  pads_ok pads -> Forall ainfo_ok l -> AttachmentInfos_of (length l) (infos_bytes pads l) = l.
Proof.
  intros Hp Hl. revert pads Hp. induction Hl as [|i l Hi _ IH]; intros pads Hp; [done|].
  rewrite infos_bytes_cons. cbn [length AttachmentInfos_of].
  assert (Hn : length (AttachmentInfo_bytes (pads 0%nat) i) = 16%nat).
  { pose proof (zlen_AttachmentInfo (pads 0%nat) i (Hp 0%nat)). unfold zlen, sizeof_AttachmentInfo in *. lia. }
  rewrite take_app_length', drop_app_length' by done.
  rewrite AttachmentInfo_roundtrip, IH by (try done; try intros ?; apply Hp). done.
Qed.

(** ** Attachments *)

(** What the constructors of [Attachment] give; the size of one without a type
    has no meaning and is taken as 0. *)
Definition att_ok (a : Attachment) : Prop :=
  match a_type a with
  | Uninitialized => a_fileDescriptor a = -1 /\ a_size a = 0
  | SocketType => a_size a = 0
  | MappedMemoryType => in_range 64 (a_size a)
  end.

Lemma info_of_ok a : att_ok a -> ainfo_ok (info_of a).
Proof.
  unfold att_ok, info_of, ainfo_ok. destruct (a_type a); cbn; intros H; (split; [unfold in_range; lia|]); try done; unfold in_range; lia.
Qed.

Lemma read_b2z (b : bool) : read_bool (Z.b2z b) = Ok b.
Proof. by destruct b. Qed.

Lemma counts_info a : counts_fd read_bool (info_of a) = Ok (writes_fd a).
Proof. unfold counts_fd, info_of, writes_fd. destruct (a_type a); cbn -[read_bool]; rewrite ?read_b2z; cbn; by rewrite ?negb_involutive. Qed.

Lemma count_infos l : count_fds read_bool (info_of <$> l) = Ok (zlen (written_fds l)).
Proof.
  unfold written_fds. rewrite zlen_fmap. induction l as [|a l IH]; [done|].
  rewrite fmap_cons. cbn [count_fds]. rewrite counts_info. cbn [mbind res_bind]. rewrite IH. cbn [mbind res_bind mret res_ret].
  rewrite filter_cons. destruct (writes_fd a); case_decide; try done; rewrite ?zlen_cons; f_equal; cbn; lia.
Qed.

Lemma control_written l : Forall att_ok l -> control_fds l = written_fds l.
Proof.
  intros Hl. unfold control_fds. cbv zeta.
  replace (length (filter (fun a => has_fd a = true) l)) with (length (written_fds l)).
  { rewrite Nat.sub_diag. cbn. apply app_nil_r. }
  unfold written_fds. rewrite length_fmap. f_equal. induction Hl as [|a l Ha _ IH]; [done|].
  rewrite !filter_cons. assert (writes_fd a = has_fd a) as ->; [|by rewrite IH].
  unfold writes_fd, has_fd, att_ok in *. destruct (a_type a); [|done..]. by destruct Ha as [-> _].
Qed.

Lemma vector_at_app {A} (pre : list A) x post : vector_at (pre ++ x :: post) (zlen pre) = Ok x.
Proof. unfold vector_at. by rewrite zlookup_app. Qed.

Lemma rebuild_step fds a infos k acc :
  att_ok a ->
  rebuild read_bool fds (info_of a :: infos) k acc =
  if writes_fd a
  then fd ← vector_at fds k; rebuild read_bool fds infos (k + 1) (mkAttachment (a_type a) fd (a_size a) :: acc)
  else rebuild read_bool fds infos k (a :: acc).
Proof.
  destruct a as [t fd sz]. unfold att_ok, writes_fd, info_of, has_fd. cbn [a_type a_fileDescriptor a_size].
  destruct t; cbn -[vector_at]; [by intros [-> ->]|intros ->|intros _];
    (destruct (Z.eqb_spec fd (-1)) as [->|]; cbn [negb]; [done|]; by destruct (vector_at fds k)).
Qed.

(** The attachments come back in reverse order, each with its descriptor. *)
Lemma rebuild_spec l pre post acc :
  Forall att_ok l -> rebuild read_bool (pre ++ written_fds l ++ post) (info_of <$> l) (zlen pre) acc = Ok (rev l ++ acc).
Proof.
  intros Hl. revert pre acc. induction Hl as [|a l Ha _ IH]; intros pre acc; [done|].
  cbn [fmap list_fmap rev]. rewrite rebuild_step, <- app_assoc by done. unfold written_fds. rewrite filter_cons.
  destruct (writes_fd a); case_decide; try done.
  cbn [fmap list_fmap app]. rewrite vector_at_app. cbn [mbind res_bind].
  specialize (IH (pre ++ [a_fileDescriptor a]) (a :: acc)). rewrite zlen_app, <- app_assoc in IH. by destruct a.
Qed.

Lemma zlen_written l : zlen (written_fds l) <= zlen l.
Proof. unfold written_fds. rewrite zlen_fmap. unfold zlen. pose proof (length_filter (fun a => writes_fd a = true) l). lia. Qed.

(** ** One message *)

Lemma mem_read_head {A} (l rest : list A) n : zlen l = n -> mem_read (l ++ rest) 0 n = Ok l.
Proof. intros <-. exact (mem_read_app [] l rest). Qed.

Lemma mem_read_mid {A} (pre l rest : list A) k n : zlen pre = k -> zlen l = n -> mem_read (pre ++ l ++ rest) k n = Ok l.
Proof. intros <- <-. apply mem_read_app. Qed.

(** A message as the sender has prepared it. *)
Definition prepared_ok (m : UnixMessage) : Prop :=
  Forall att_ok (u_attachments m) /\ Forall (in_range 8) (u_body m) /\
  m_bodySize (u_info m) = zlen (u_body m) /\ m_attachmentCount (u_info m) = zlen (u_attachments m) /\
  zlen (u_attachments m) <= attachmentMaxAmount /\ zlen (u_body m) < 2 ^ 64.

Lemma consume_app {A} (l rest : list A) : consume (l ++ rest) (zlen l) = rest.
Proof.
  unfold consume. rewrite zlen_app, Z.gtb_ltb, to_nat_zlen, drop_app_length. destruct (Z.ltb_spec (zlen l) (zlen l + zlen rest)); [done|].
  destruct rest; [done|]. rewrite zlen_cons in *. pose proof (zlen_nonneg rest). lia.
Qed.

Lemma packet_bytes pads out m :
  p_bytes (packet_with pads out m) = MessageInfo_bytes (u_info m) ++ infos_bytes pads (info_of <$> u_attachments m) ++
    (if out then [] else if m_bodySize (u_info m) =? 0 then [] else u_body m).
Proof.
  unfold packet_with, infos_bytes. cbn [p_bytes]. f_equal. f_equal.
  - f_equal. rewrite imap_fmap. done.
  - by destruct out, (m_bodySize (u_info m) =? 0).
Qed.

(** A mapping of a whole file. *)
Lemma map_whole mmap (M : memory) fd file : M !! fd = Some file -> mmap fd (zlen file) = true -> SharedMemory_map mmap M fd (zlen file) = Ok (Some file).
Proof.
  intros HM Hm. unfold SharedMemory_map. rewrite Hm, HM. cbn [negb]. cbv zeta.
  pose proof (Z.mod_pos_bound (- zlen file) pageSize ltac:(unfold pageSize; lia)).
  rewrite (proj2 (Z.leb_le _ _)) by lia. by rewrite to_nat_zlen, take_app_length.
Qed.

Section one.
Context (mmap : Z -> Z -> bool) (M : memory) (pads : nat -> list Z) (m : UnixMessage) (out : bool) (rest fds : list Z).
Hypothesis Hpads : pads_ok pads.
Hypothesis Hm : prepared_ok m.
Hypothesis Hbyte : m_isBodyOutOfLine (u_info m) = Z.b2z out.

Lemma info_head : info_ok (u_info m) /\ MessageInfo_of (MessageInfo_bytes (u_info m)) = u_info m.
Proof.
  destruct Hm as (_ & _ & Hs & Hc & Hn & Hl). assert (Hi : info_ok (u_info m)); [|split; [done|by apply MessageInfo_roundtrip]].
  unfold info_ok, in_range, attachmentMaxAmount in *. rewrite Hs, Hc. pose proof (zlen_nonneg (u_body m)).
  pose proof (zlen_nonneg (u_attachments m)). lia.
Qed.

Lemma infos_back : AttachmentInfos_of (Z.to_nat (zlen (u_attachments m))) (infos_bytes pads (info_of <$> u_attachments m)) = info_of <$> u_attachments m.
Proof.
  destruct Hm as (Ha & _). rewrite to_nat_zlen, <- (length_fmap info_of). apply infos_roundtrip; [done|].
  apply Forall_fmap. eapply Forall_impl; [exact Ha|]. apply info_of_ok.
Qed.

(** The length of the message in the buffer. *)
Definition message_length (i : MessageInfo) (isBodyOutOfLine : bool) : Z :=
  sizeof_MessageInfo + m_attachmentCount i * sizeof_AttachmentInfo + (if isBodyOutOfLine then 0 else m_bodySize i).

(** A complete message passes the checks of the header. *)
Lemma processMessage_complete tail all_fds :
  (out = false -> zlen (u_body m) <= messageMaxSize) ->
  message_length (u_info m) out <= zlen (MessageInfo_bytes (u_info m) ++ tail) ->
  let r := mk_receiver (MessageInfo_bytes (u_info m) ++ tail) all_fds in
  processMessage read_bool mmap M r = takeMessage read_bool mmap M r (u_info m) out (message_length (u_info m) out).
Proof.
  intros Hsize Hlen. destruct info_head as [_ Hinfo]. destruct Hm as (_ & _ & Hs & Hc & Hn & _). cbv zeta.
  unfold processMessage. cbn [m_readBuffer]. pose proof (zlen_nonneg tail).
  rewrite zlen_app, zlen_MessageInfo in *. rewrite (proj2 (Z.ltb_ge _ _)) by lia.
  rewrite (mem_read_head (MessageInfo_bytes (u_info m)) tail _ (zlen_MessageInfo _)). cbn [mbind res_bind]. rewrite Hinfo. rewrite Hc. rewrite Z.gtb_ltb, (proj2 (Z.ltb_ge _ _)) by lia.
  rewrite Hbyte, read_b2z. cbn [mbind res_bind].
  assert (Hcheck : negb out && (m_bodySize (u_info m) >? messageMaxSize) = false).
  { destruct out; [done|]. rewrite Hs, Z.gtb_ltb. apply Z.ltb_ge. auto. }
  rewrite Hcheck. unfold message_length in *. rewrite Hc in *.
  pose proof (zlen_nonneg (u_attachments m)). pose proof (zlen_nonneg (u_body m)).
  rewrite (wrap_small 64).
  2:{ unfold sizeof_MessageInfo, sizeof_AttachmentInfo, attachmentMaxAmount, messageMaxSize in *.
      destruct out; [lia|]. specialize (Hsize eq_refl). lia. }
  rewrite (proj2 (Z.ltb_ge _ _)) by lia. done.
Qed.

Lemma consume_fds l : (if negb (zlen (written_fds l) =? 0) then consume (written_fds l ++ fds) (zlen (written_fds l)) else written_fds l ++ fds) = fds.
Proof.
  destruct (Z.eqb_spec (zlen (written_fds l)) 0) as [E|]; cbn [negb]; [|apply consume_app].
  destruct (written_fds l) as [|x k]; [done|]. rewrite zlen_cons in E. pose proof (zlen_nonneg k). lia.
Qed.

Lemma processMessage_inline :
  out = false -> zlen (u_body m) <= messageMaxSize ->
  processMessage read_bool mmap M (mk_receiver (p_bytes (packet_with pads out m) ++ rest) (p_fds (packet_with pads out m) ++ fds))
  = Ok (Some (u_body m, rev (u_attachments m)), mk_receiver rest fds).
Proof.
  intros Hin Hsize. pose proof Hm as (Ha & Hbytes & Hs & Hc & Hn & Hl). rewrite packet_bytes, Hin at 1. cbn [p_fds packet_with].
  rewrite (control_written _ Ha).
  assert (Hbody : (if m_bodySize (u_info m) =? 0 then [] else u_body m) = u_body m).
  { destruct (Z.eqb_spec (m_bodySize (u_info m)) 0) as [E|]; [|done]. rewrite Hs in E. destruct (u_body m) as [|x l]; [done|].
    rewrite zlen_cons in E. pose proof (zlen_nonneg l). lia. }
  rewrite Hbody, <- !app_assoc. set (infos := infos_bytes pads (info_of <$> u_attachments m)).
  assert (Hzi : zlen infos = sizeof_AttachmentInfo * zlen (u_attachments m)) by (unfold infos; by rewrite zlen_infos, zlen_fmap).
  pose proof (zlen_nonneg rest). pose proof (zlen_nonneg (u_body m)).
  assert (Hlen : message_length (u_info m) out = zlen (MessageInfo_bytes (u_info m) ++ infos ++ u_body m)).
  { unfold message_length. rewrite Hin, Hc, Hs, !zlen_app, zlen_MessageInfo. lia. }
  rewrite processMessage_complete by (auto; rewrite Hlen, !zlen_app; lia). rewrite Hlen.
  unfold takeMessage. cbn [m_readBuffer m_fileDescriptors]. cbv zeta. rewrite Hin, Hc, Hs, andb_false_r.
  rewrite (mem_read_mid (MessageInfo_bytes (u_info m)) infos _ _ _ (zlen_MessageInfo _) Hzi).
  cbn [mbind res_bind]. pose proof infos_back as Hback. fold infos in Hback. rewrite Hback, count_infos. cbn [mbind res_bind].
  rewrite (take_ge (info_of <$> u_attachments m)) by (rewrite length_fmap, to_nat_zlen; done).
  pose proof (rebuild_spec (u_attachments m) [] fds [] Ha) as Hre. change (zlen (@nil Z)) with 0 in Hre. cbn [app] in Hre.
  rewrite Hre. cbn [mbind res_bind].
  rewrite (app_assoc (MessageInfo_bytes _) infos), (mem_read_mid (MessageInfo_bytes _ ++ infos) (u_body m))
    by (done || rewrite zlen_app, zlen_MessageInfo, Hzi; done). cbn [mbind res_bind].
  rewrite app_nil_r, consume_fds. rewrite !app_assoc, consume_app. done.
Qed.

(** The body in shared memory. *)
Lemma processMessage_out_of_line atts fd :
  out = true -> u_attachments m = atts ++ [mkAttachment MappedMemoryType fd (zlen (u_body m))] ->
  fd <> -1 -> M !! fd = Some (u_body m) -> mmap fd (zlen (u_body m)) = true ->
  processMessage read_bool mmap M (mk_receiver (p_bytes (packet_with pads out m) ++ rest) (p_fds (packet_with pads out m) ++ fds))
  = Ok (Some (u_body m, rev atts), mk_receiver rest fds).
Proof.
  intros Hout Hatts Hfd HM Hmap. pose proof Hm as (Ha & Hbytes & Hs & Hc & Hn & Hl). rewrite packet_bytes, Hout, app_nil_r. cbn [p_fds packet_with].
  rewrite (control_written _ Ha), <- app_assoc. set (infos := infos_bytes pads (info_of <$> u_attachments m)).
  assert (Hzi : zlen infos = sizeof_AttachmentInfo * zlen (u_attachments m)) by (unfold infos; by rewrite zlen_infos, zlen_fmap).
  set (last_ := mkAttachment MappedMemoryType fd (zlen (u_body m))) in *.
  assert (Hcount : zlen (u_attachments m) = zlen atts + 1) by (by rewrite Hatts, zlen_app).
  assert (Hw : writes_fd last_ = true) by (unfold writes_fd, has_fd; cbn; by apply negb_true_iff, Z.eqb_neq).
  assert (Hwritten : written_fds (u_attachments m) = written_fds atts ++ [fd]).
  { rewrite Hatts. unfold written_fds. rewrite filter_app, fmap_app. f_equal. by rewrite filter_cons_True. }
  pose proof (zlen_nonneg rest). pose proof (zlen_nonneg atts). pose proof (zlen_nonneg (written_fds atts)).
  assert (Hlen : message_length (u_info m) out = zlen (MessageInfo_bytes (u_info m) ++ infos)).
  { unfold message_length. rewrite Hout, Hc, !zlen_app, zlen_MessageInfo. lia. }
  rewrite processMessage_complete by (try (by rewrite Hout); rewrite Hlen, !zlen_app; lia). rewrite Hlen.
  unfold takeMessage. cbn [m_readBuffer m_fileDescriptors]. cbv zeta. rewrite Hout, Hc, Hs, andb_true_r.
  rewrite (proj2 (Z.eqb_neq (zlen (u_attachments m)) 0)) by lia. cbn [negb].
  rewrite (mem_read_mid (MessageInfo_bytes (u_info m)) infos _ _ _ (zlen_MessageInfo _) Hzi).
  cbn [mbind res_bind]. pose proof infos_back as Hback. fold infos in Hback. rewrite Hback, count_infos. cbn [mbind res_bind].
  assert (Hinfos : info_of <$> u_attachments m = (info_of <$> atts) ++ [info_of last_]) by (by rewrite Hatts, fmap_app).
  rewrite Hinfos, Hcount. replace (zlen atts + 1 - 1) with (zlen (info_of <$> atts)) by (rewrite zlen_fmap; lia).
  rewrite to_nat_zlen, take_app_length. rewrite vector_at_app.
  pose proof (rebuild_spec atts [] ([fd] ++ fds) []) as Hre. change (zlen (@nil Z)) with 0 in Hre. cbn [app] in Hre.
  rewrite Hwritten, <- app_assoc. cbn [app]. rewrite Hre by (rewrite Hatts in Ha; by apply Forall_app in Ha as [? _]).
  cbn [mbind res_bind]. unfold last_ at 1 2 3. cbn [info_of a_type m_isNull m_size a_size]. rewrite Z.eqb_refl.
  unfold has_fd. cbn [a_fileDescriptor]. rewrite (proj2 (Z.eqb_neq fd (-1))) by done. cbn [negb Z.b2z read_bool mbind res_bind orb].
  assert (Hindex : u64 (zlen (written_fds atts ++ [fd]) - 1) = zlen (written_fds atts)).
  { rewrite zlen_app. change (zlen [fd]) with 1. pose proof (zlen_written atts).
    unfold attachmentMaxAmount in *. rewrite (wrap_small 64) by lia. lia. }
  rewrite Hindex, vector_at_app. cbn [mbind res_bind]. rewrite (map_whole mmap M fd _ HM Hmap). cbn [mbind res_bind mret res_ret].
  rewrite app_nil_r. replace (written_fds atts ++ fd :: fds) with (written_fds (u_attachments m) ++ fds) by (by rewrite Hwritten, <- app_assoc).
  rewrite <- Hwritten, consume_fds, app_assoc, consume_app. done.
Qed.

End one.

(** ** A connection *)

(** The message does not fit in line with its attachments. *)
Definition too_long (bs : list Z) (atts : list Attachment) : bool :=
  sizeof_MessageInfo + zlen atts * sizeof_AttachmentInfo + zlen bs >? messageMaxSize.

(** An encoder that holds the message [bs] with its attachments, at most 253 of
    them; when the message is too long, the system gives a new open file for
    the shared memory, the duplicate of its descriptor and the two mappings. *)
Record sendable (mmap : Z -> Z -> bool) (M : memory) (e : Encoder) (os : allocation) (bs : list Z) : Prop := {
  se_repr : enc_repr e bs;
  se_bytes : Forall (in_range 8) bs;
  se_nonempty : bs <> [];
  se_atts : Forall att_ok (m_attachments e);
  se_count : zlen (m_attachments e) <= attachmentMaxAmount - 1;
  se_small : zlen bs <= maxMessage;
  se_os : too_long bs (m_attachments e) = true ->
    exists fd, os = mk_allocation (Some fd) true true /\ fd <> -1 /\ M !! fd = None /\ mmap fd (zlen bs) = true
}.

(** The message that goes out, and the memory then. *)
Definition outgoing (e : Encoder) (os : allocation) (bs : list Z) : UnixMessage :=
  if too_long bs (m_attachments e)
  then mk_UnixMessage (m_attachments e ++ [mkAttachment MappedMemoryType (default (-1) (created os)) (zlen bs)])
         (mk_MessageInfo (zlen bs) (zlen (m_attachments e) + 1) 1) bs
  else mk_UnixMessage (m_attachments e) (MessageInfo_new (zlen bs) (zlen (m_attachments e))) bs.

Definition memory_after (e : Encoder) (os : allocation) (bs : list Z) (M : memory) : memory :=
  if too_long bs (m_attachments e) then <[default (-1) (created os) := bs]> M else M.

Definition out_packet (pads : nat -> list Z) (e : Encoder) (os : allocation) (bs : list Z) : packet :=
  packet_with pads (too_long bs (m_attachments e)) (outgoing e os bs).

Section connection.
Context (mmap : Z -> Z -> bool) (pads : nat -> list Z).
Hypothesis Hpads : pads_ok pads.

(** A new file takes the whole body. *)
Lemma copy_to_new_file (M : memory) fd bs :
  memcpy_shared fd bs (<[fd := replicate (Z.to_nat (zlen bs)) 0]> M) = Ok (<[fd := bs]> M).
Proof.
  unfold memcpy_shared. rewrite lookup_insert_eq. cbn [or_ub mbind res_bind]. rewrite to_nat_zlen. rewrite (proj2 (Z.leb_le _ _)) by (rewrite zlen_replicate; done).
  rewrite drop_ge by (by rewrite length_replicate). by rewrite app_nil_r, insert_insert_eq.
Qed.

Lemma prepare_outgoing M e os bs : sendable mmap M e os bs -> prepare e os M = Ok (Some (outgoing e os bs), memory_after e os bs M).
Proof.
  intros [Hr Hbytes Hne Hatts Hcount Hsmall Hos]. pose proof (zlen_nonneg (m_attachments e)) as Hna. pose proof (zlen_nonneg bs) as Hnb.
  assert (Hnz : zlen bs <> 0) by (destruct bs as [|x l]; [done|rewrite zlen_cons; pose proof (zlen_nonneg l); lia]).
  unfold outgoing, memory_after, prepare, UnixMessage_new. rewrite (enc_repr_bytes e bs Hr). cbn [mbind res_bind releaseAttachments].
  cbn [mret res_ret mbind res_bind]. cbn [u_attachments u_info MessageInfo_new m_bodySize u_body]. rewrite (er_size _ _ Hr).
  rewrite (Z.gtb_ltb _ (attachmentMaxAmount - 1)), (proj2 (Z.ltb_ge _ _)) by lia. unfold maxMessage in Hsmall.
  rewrite (wrap_small 64) by (unfold sizeof_MessageInfo, sizeof_AttachmentInfo, attachmentMaxAmount in *; lia).
  rewrite (proj2 (Z.eqb_neq (zlen bs) 0)), andb_true_r by done. fold (too_long bs (m_attachments e)).
  destruct (too_long bs (m_attachments e)); [|done].
  destruct (Hos eq_refl) as (fd & -> & _). unfold SharedMemory_allocate, createHandle. cbn [created sized_and_mapped duplicated default].
  cbn [setBodyOutOfLine MessageInfo_new u_info u_body m_bodySize]. rewrite (take_ge bs) by (by rewrite to_nat_zlen).
  rewrite copy_to_new_file. cbn [mbind res_bind]. unfold appendAttachment, setBodyOutOfLine, MessageInfo_new.
  cbn [u_attachments u_info u_body m_bodySize m_attachmentCount]. rewrite (wrap_small 64); [done|].
  unfold attachmentMaxAmount in *. lia.
Qed.

Lemma outgoing_byte e os bs : m_isBodyOutOfLine (u_info (outgoing e os bs)) = Z.b2z (too_long bs (m_attachments e)).
Proof. unfold outgoing. by destruct (too_long bs (m_attachments e)). Qed.

Lemma send_one M e os bs : sendable mmap M e os bs -> send_packet pads e os M = Ok (Some (out_packet pads e os bs), memory_after e os bs M).
Proof.
  intros Hs. unfold send_packet, packet_of. rewrite (prepare_outgoing M e os bs Hs). cbn [mbind res_bind].
  by rewrite outgoing_byte, read_b2z.
Qed.

Lemma outgoing_ok M e os bs : sendable mmap M e os bs -> prepared_ok (outgoing e os bs).
Proof.
  intros [Hr Hbytes Hne Hatts Hcount Hsmall Hos]. pose proof (zlen_nonneg bs). unfold outgoing, prepared_ok, maxMessage, MessageInfo_new in *.
  destruct (too_long bs (m_attachments e)); cbn [u_attachments u_body u_info m_bodySize m_attachmentCount].
  - rewrite zlen_app, Forall_app. change (zlen [_]) with 1. repeat split; try done; try lia.
    constructor; [|done]. unfold att_ok, in_range. cbn. lia.
  - repeat split; try done; lia.
Qed.

Lemma outgoing_size M e os bs :
  sendable mmap M e os bs -> 0 < zlen (p_bytes (out_packet pads e os bs)) <= messageMaxSize /\
  zlen (p_fds (out_packet pads e os bs)) <= attachmentMaxAmount.
Proof.
  intros Hs. destruct (outgoing_ok M e os bs Hs) as (Ha & _ & _ & _ & Hn & _). destruct Hs as [Hr Hbytes Hne Hatts Hcount Hsmall Hos].
  unfold out_packet. rewrite packet_bytes. cbn [packet_with p_fds]. rewrite (control_written _ Ha), !zlen_app, zlen_infos, zlen_fmap, zlen_MessageInfo by done.
  pose proof (zlen_written (u_attachments (outgoing e os bs))). split; [|lia].
  unfold outgoing, too_long, sizeof_MessageInfo, sizeof_AttachmentInfo, messageMaxSize, attachmentMaxAmount in *.
  pose proof (zlen_nonneg (m_attachments e)). pose proof (zlen_nonneg bs). rewrite Z.gtb_ltb.
  destruct (Z.ltb_spec 4096 (24 + zlen (m_attachments e) * 16 + zlen bs)); cbn [u_attachments u_info MessageInfo_new m_bodySize u_body].
  - rewrite zlen_app. change (zlen [_]) with 1. change (zlen (@nil Z)) with 0. lia.
  - destruct (zlen bs =? 0); [change (zlen (@nil Z)) with 0|]; lia.
Qed.

(** The memory at the receiver holds the body of the message. *)
Definition holds (M : memory) (e : Encoder) (os : allocation) (bs : list Z) : Prop :=
  too_long bs (m_attachments e) = true -> M !! default (-1) (created os) = Some bs.

(** One message: it becomes a packet that fits in the buffer, and the receiver
    takes it back off. *)
Lemma send_receive M M' e os bs rest fds :
  sendable mmap M e os bs -> holds M' e os bs ->
  let p := out_packet pads e os bs in
  processMessage read_bool mmap M' (mk_receiver (p_bytes p ++ rest) (p_fds p ++ fds))
  = Ok (Some (bs, rev (m_attachments e)), mk_receiver rest fds).
Proof.
  intros Hs Hh. pose proof (outgoing_ok M e os bs Hs) as Hok. pose proof (outgoing_byte e os bs) as Hb. destruct Hs as [Hr Hbytes Hne Hatts Hcount Hsmall Hos].
  cbv zeta. unfold out_packet, outgoing, holds in *. destruct (too_long bs (m_attachments e)) eqn:Hlong.
  - destruct (Hos eq_refl) as (fd & -> & Hfd & _ & Hmap).
    exact (processMessage_out_of_line mmap M' pads _ true rest fds Hpads Hok Hb (m_attachments e) fd eq_refl eq_refl Hfd (Hh eq_refl) Hmap).
  - refine (processMessage_inline mmap M' pads _ false rest fds Hpads Hok Hb eq_refl _). cbn [u_body].
    unfold too_long, sizeof_MessageInfo, sizeof_AttachmentInfo in Hlong. rewrite Z.gtb_ltb in Hlong. zb.
    pose proof (zlen_nonneg (m_attachments e)). lia.
Qed.

Lemma processMessage_empty M fds : processMessage read_bool mmap M (mk_receiver [] fds) = Ok (None, mk_receiver [] fds).
Proof. reflexivity. Qed.

(** A message to send, with what the system answers and the bytes it holds. *)
Notation item := (Encoder * allocation * list Z)%type.
Definition item_sendable (M : memory) (x : item) : Prop := sendable mmap M x.1.1 x.1.2 x.2.
Definition item_packet (x : item) : packet := out_packet pads x.1.1 x.1.2 x.2.
Definition item_delivery (x : item) : delivery := (x.2, rev (m_attachments x.1.1)).
Definition item_holds (M : memory) (x : item) : Prop := holds M x.1.1 x.1.2 x.2.

(** The packets of a list of messages are taken off one after the other. *)
Lemma receive_all (M : memory) (l : list item) :
  Forall (fun x => (exists M0, item_sendable M0 x) /\ item_holds M x) l ->
  readyReadHandler read_bool mmap M (item_packet <$> l) (mk_receiver [] []) = Ok (item_delivery <$> l, mk_receiver [] [], WouldBlock).
Proof.
  induction 1 as [|[[e os] bs] l [[M0 Hs] Hh] _ IH]; [done|]. rewrite !fmap_cons. cbn [readyReadHandler].
  unfold item_sendable, item_holds in *. cbn [fst snd] in *.
  destruct (outgoing_size M0 e os bs Hs) as [Hsize Hfds]. pose proof (send_receive M0 M e os bs [] [] Hs Hh) as Hone. cbv zeta in Hone.
  change (item_packet (e, os, bs)) with (out_packet pads e os bs). set (p := out_packet pads e os bs) in *. rewrite !app_nil_r in Hone.
  unfold readBytesFromSocket. cbn [m_readBuffer m_fileDescriptors app]. rewrite Z.gtb_ltb, (proj2 (Z.ltb_ge _ _)) by lia.
  change (zlen (@nil Z)) with 0. rewrite Z.sub_0_r, take_ge by (unfold zlen in *; lia). cbn [m_readBuffer].
  rewrite (proj2 (Z.eqb_neq _ _)) by lia. unfold process_fuel. cbn [m_readBuffer].
  destruct (length (p_bytes p)) as [|n] eqn:Hn; [unfold zlen in *; lia|]. cbn [processMessages]. rewrite Hone.
  cbn [mbind res_bind processMessages]. rewrite processMessage_empty. cbn [mbind res_bind mret res_ret].
  by rewrite IH.
Qed.

(** The open files that the system creates for the messages too long. *)
Definition item_file (x : item) : option Z := if too_long x.2 (m_attachments x.1.1) then created x.1.2 else None.

Lemma item_after (M : memory) (x : item) :
  item_sendable M x -> M ⊆ memory_after x.1.1 x.1.2 x.2 M /\ item_holds (memory_after x.1.1 x.1.2 x.2 M) x.
Proof.
  destruct x as [[e os] bs]. unfold item_sendable, item_holds, holds, memory_after. cbn [fst snd]. intros Hs.
  destruct (too_long bs (m_attachments e)) eqn:Hlong; [|done]. destruct (se_os _ _ _ _ _ Hs Hlong) as (fd & -> & _ & Hn & _).
  cbn [created from_option id]. split; [by apply insert_subseteq | by rewrite lookup_insert_eq].
Qed.

(** Sending does not disturb the messages that are to be sent in other files. *)
Lemma item_later (M : memory) (x y : item) :
  item_sendable M x -> item_sendable M y -> (forall fd, item_file x = Some fd -> item_file y <> Some fd) ->
  item_sendable (memory_after x.1.1 x.1.2 x.2 M) y.
Proof.
  destruct x as [[e os] bs], y as [[e' os'] bs']. unfold item_sendable, item_file, memory_after. cbn [fst snd]. intros Hx Hy Hne.
  destruct Hy as [Hr Hbytes Hnil Hatts Hcount Hsmall Hos]. split; try done. intros Hlong. destruct (Hos Hlong) as (fd & -> & Hfd & HM & Hmap).
  exists fd. split_and!; try done. rewrite Hlong in Hne. destruct (too_long bs (m_attachments e)) eqn:Hlx; [|done].
  destruct (se_os _ _ _ _ _ Hx Hlx) as (fdx & -> & _). cbn [created from_option id] in *. rewrite lookup_insert_ne; [done|].
  intros ->. by apply (Hne fd).
Qed.

Lemma send_all (l : list item) (M : memory) :
  Forall (item_sendable M) l -> NoDup (omap item_file l) ->
  exists M', send_packets pads (fst <$> l) M = Ok (Some ∘ item_packet <$> l, M') /\ M ⊆ M' /\ Forall (item_holds M') l.
Proof.
  revert M. induction l as [|[[e os] bs] l IH]; intros M Hl Hnd; [by exists M|]. apply Forall_cons in Hl as [Hx Hl].
  destruct (item_after M _ Hx) as [Hsub Hh]. set (M1 := memory_after _ _ _ M) in *.
  assert (Hl1 : Forall (item_sendable M1) l).
  { apply Forall_forall. intros y Hy. apply (item_later M (e, os, bs) y Hx); [by eapply Forall_forall in Hl|].
    intros fd Ef Ey. cbn [omap list_omap] in Hnd. rewrite Ef in Hnd. apply NoDup_cons in Hnd as [Hni _].
    apply Hni, list_elem_of_omap. by exists y. }
  destruct (IH M1 Hl1) as (M' & E & Hsub' & Hall).
  { cbn [omap list_omap] in Hnd. destruct (item_file _); [by apply NoDup_cons in Hnd as [_ ?] | done]. }
  exists M'. split_and!.
  - rewrite !fmap_cons. cbn [fst send_packets]. pose proof (send_one M e os bs Hx) as ->. cbn [mbind res_bind].
    change (memory_after e os bs M) with M1. by rewrite E.
  - by etrans.
  - constructor; [|done]. intros Hlong. specialize (Hh Hlong). by eapply lookup_weaken.
Qed.

End connection.

(** ** Arbitrary peers *)

(** Returned or crashed: no access outside an object, and the loops ended. *)
Definition sound {A} (m : res A) : Prop := (exists a, m = Ok a) \/ m = Crash.

Lemma sound_bind {A B} (m : res A) (k : A -> res B) :
  sound m -> (forall a, m = Ok a -> sound (k a)) -> sound (m ≫= k).
Proof. intros [[a ->]| ->] Hk; [by apply Hk | by right]. Qed.

Lemma sound_ret {A} (a : A) : sound (mret a).
Proof. left. by exists a. Qed.

Lemma sound_vector_at {A} (l : list A) i : sound (vector_at l i).
Proof. unfold vector_at. destruct l.[i]; [left; eauto | by right]. Qed.

Lemma sound_map mmap M fd size : sound (SharedMemory_map mmap M fd size).
Proof.
  unfold SharedMemory_map. destruct (negb _); [apply sound_ret|]. destruct (M !! fd); [|apply sound_ret]. cbv zeta.
  destruct (_ <=? _); [apply sound_ret | by right].
Qed.

(** A load that gives a value for every byte. *)
Definition total_load (load : Z -> res bool) : Prop := forall byte, exists b, load byte = Ok b.

Lemma sound_load load byte : total_load load -> sound (load byte).
Proof. intros Hl. left. apply Hl. Qed.

Lemma sound_count load infos : total_load load -> sound (count_fds load infos).
Proof.
  intros Hload. induction infos as [|i infos IH]; cbn [count_fds]; [apply sound_ret|]. apply sound_bind.
  - unfold counts_fd. destruct (_ || _); [|apply sound_ret]. apply sound_bind; [by apply sound_load | intros; apply sound_ret].
  - intros c _. apply sound_bind; [done | intros; apply sound_ret].
Qed.

Lemma sound_rebuild load fds infos k acc : total_load load -> sound (rebuild load fds infos k acc).
Proof.
  intros Hload. revert k acc. induction infos as [|i infos IH]; intros k acc; cbn [rebuild]; [apply sound_ret|].
  destruct (_ || _); [|apply IH]. apply sound_bind; [by apply sound_load|]. intros null _. apply sound_bind; [|intros [fd k'] _; apply IH].
  destruct (negb null); [|apply sound_ret]. apply sound_bind; [apply sound_vector_at | intros; apply sound_ret].
Qed.

Definition receiver_ok (r : receiver) : Prop := Forall (in_range 8) (m_readBuffer r).

Lemma bytes_take_range n k l : Forall (in_range 8) l -> Z.of_nat n <= k -> 0 <= le_combine (take n l) < 256 ^ k.
Proof.
  intros Hl Hk. pose proof (le_combine_range (take n l) (Forall_take _ _ _ Hl)) as Hr.
  assert (256 ^ zlen (take n l) <= 256 ^ k); [|lia]. apply Z.pow_le_mono_r; [lia|]. unfold zlen. rewrite length_take. lia.
Qed.

Lemma MessageInfo_of_range l : Forall (in_range 8) l -> info_ok (MessageInfo_of l).
Proof.
  intros Hl. unfold info_ok, MessageInfo_of, in_range. cbn [m_bodySize m_attachmentCount].
  change (2 ^ 64) with (256 ^ 8). split; apply bytes_take_range; try lia; [done | by apply Forall_drop].
Qed.

Section any_peer.
Context (load : Z -> res bool) (mmap : Z -> Z -> bool) (M : memory).
Hypothesis Hload : total_load load.

(** Either a message was taken off and the buffer is shorter, or nothing has
    changed. *)
Definition taken (r : receiver) (d : option delivery) (r' : receiver) : Prop :=
  match d with
  | Some _ => receiver_ok r' /\ (length (m_readBuffer r') < length (m_readBuffer r))%nat
  | None => r' = r
  end.

Lemma taken_nothing r d r' : mret (None, r) = Ok (d, r') -> taken r d r'.
Proof. by intros [= <- <-]. Qed.

(** A message that passes the checks is inside the buffer; taking it off makes
    the buffer shorter. *)
Lemma takeMessage_sound r i out :
  receiver_ok r -> info_ok i -> m_attachmentCount i <= attachmentMaxAmount -> message_length i out <= zlen (m_readBuffer r) ->
  sound (takeMessage load mmap M r i out (message_length i out)) /\
  forall d r', takeMessage load mmap M r i out (message_length i out) = Ok (d, r') -> taken r d r'.
Proof.
  intros Hr [Hi1 Hi2] Hc Hlen. unfold in_range, message_length, sizeof_MessageInfo, sizeof_AttachmentInfo in *.
  assert (Hinfo : exists bs, mem_read (m_readBuffer r) 24 (16 * m_attachmentCount i) = Ok bs).
  { destruct (mem_read_ok (m_readBuffer r) 24 (16 * m_attachmentCount i)) as (bs & E & _); [lia|lia| |by exists bs].
    destruct out; lia. }
  destruct Hinfo as [bs Hinfo]. split.
  - unfold takeMessage. cbv zeta. unfold sizeof_MessageInfo, sizeof_AttachmentInfo. rewrite Hinfo. cbn [mbind res_bind].
    apply sound_bind; [by apply sound_count|]. intros count _.
    apply sound_bind; [by apply sound_rebuild|]. intros atts _. apply sound_bind.
    + destruct out.
      * apply sound_bind; [apply sound_vector_at|]. intros a _. apply sound_bind; [by apply sound_load|]. intros null _.
        destruct (_ || _); [apply sound_ret|]. apply sound_bind; [apply sound_vector_at | intros; apply sound_map].
      * destruct (mem_read_ok (m_readBuffer r) (24 + 16 * m_attachmentCount i) (m_bodySize i)) as (body & -> & _); [lia..|].
        apply sound_ret.
    + intros [body|] _; apply sound_ret.
  - intros d r' E. unfold takeMessage in E. cbv zeta in E. unfold sizeof_MessageInfo, sizeof_AttachmentInfo in E. rewrite Hinfo in E.
    cbn [mbind res_bind] in E. apply res_bind_Ok in E as (count & _ & E). apply res_bind_Ok in E as (atts & _ & E).
    apply res_bind_Ok in E as ([body|] & _ & E); [|by apply taken_nothing].
    injection E as <- <-. unfold taken, consume. cbn [m_readBuffer]. rewrite Z.gtb_ltb. split.
    + unfold receiver_ok. cbn [m_readBuffer]. destruct (_ <? _); [by apply Forall_drop | by constructor].
    + destruct (Z.ltb_spec (24 + m_attachmentCount i * 16 + (if out then 0 else m_bodySize i)) (zlen (m_readBuffer r)));
        [rewrite length_drop|cbn [length]]; unfold zlen in *; destruct out; lia.
Qed.

Lemma read_head r : 24 <= zlen (m_readBuffer r) -> mem_read (m_readBuffer r) 0 24 = Ok (take 24 (m_readBuffer r)).
Proof. intros Hl. unfold mem_read. rewrite !(proj2 (Z.leb_le _ _)) by lia. done. Qed.

Lemma processMessage_sound r :
  receiver_ok r -> sound (processMessage load mmap M r) /\
  forall d r', processMessage load mmap M r = Ok (d, r') -> taken r d r'.
Proof.
  intros Hr. unfold processMessage. destruct (Z.ltb_spec (zlen (m_readBuffer r)) sizeof_MessageInfo); [split; [apply sound_ret|apply taken_nothing]|].
  unfold sizeof_MessageInfo in *. rewrite read_head by done. cbn [mbind res_bind].
  pose proof (MessageInfo_of_range _ (Forall_take _ 24 _ Hr)) as Hi.
  set (i := MessageInfo_of (take 24 (m_readBuffer r))) in *. cbv zeta.
  destruct (Z.gtb_spec (m_attachmentCount i) attachmentMaxAmount); [split; [apply sound_ret|apply taken_nothing]|].
  destruct (Hload (m_isBodyOutOfLine i)) as [out ->]. cbn [mbind res_bind].
  destruct (negb out && (m_bodySize i >? messageMaxSize)) eqn:Hbig; [split; [apply sound_ret|apply taken_nothing]|].
  assert (Hwrap : u64 (24 + m_attachmentCount i * sizeof_AttachmentInfo + (if out then 0 else m_bodySize i)) = message_length i out).
  { apply (wrap_small 64). destruct Hi. unfold message_length, sizeof_MessageInfo, in_range, attachmentMaxAmount, sizeof_AttachmentInfo, messageMaxSize in *.
    destruct out; cbn [negb andb] in Hbig; [lia|]. rewrite Z.gtb_ltb in Hbig. zb. lia. }
  rewrite Hwrap. destruct (Z.ltb_spec (zlen (m_readBuffer r)) (message_length i out)); [split; [apply sound_ret|apply taken_nothing]|].
  by apply takeMessage_sound.
Qed.

Lemma processMessages_sound fuel r :
  receiver_ok r -> (length (m_readBuffer r) < fuel)%nat -> sound (processMessages load mmap M fuel r) /\
  forall ds r', processMessages load mmap M fuel r = Ok (ds, r') -> receiver_ok r'.
Proof.
  revert r. induction fuel as [|fuel IH]; intros r Hr Hf; [lia|]. cbn [processMessages].
  destruct (processMessage_sound r Hr) as [[[[[d|] r'] E]|E] Hok]; rewrite E; cbn [mbind res_bind]; [| |split; [by right|done]].
  - destruct (Hok _ r' E) as [Hr' Hlt]. destruct (IH r' Hr' ltac:(lia)) as [[[[ds r''] E']|E'] Hok']; rewrite E'; cbn [mbind res_bind].
    + split; [apply sound_ret|]. intros ds' r3 [= _ <-]. by eapply Hok'.
    + split; [by right|done].
  - specialize (Hok _ r' E). cbn in Hok. subst r'. split; [apply sound_ret|]. by intros ds r3 [= _ <-].
Qed.

Lemma readyReadHandler_sound packets r :
  receiver_ok r -> Forall (fun p => Forall (in_range 8) (p_bytes p)) packets -> sound (readyReadHandler load mmap M packets r).
Proof.
  intros Hr Hp. revert r Hr. induction Hp as [|p packets Hp _ IH]; intros r Hr; cbn [readyReadHandler]; [apply sound_ret|].
  unfold readBytesFromSocket. destruct (_ >? _); [apply sound_ret|]. destruct (_ =? _); [apply sound_ret|].
  set (r1 := mk_receiver _ _). assert (Hr1 : receiver_ok r1) by (apply Forall_app; split; [done|by apply Forall_take]).
  destruct (processMessages_sound (process_fuel r1) r1 Hr1 ltac:(unfold process_fuel; lia)) as [Hs Hok].
  apply sound_bind; [done|]. intros [ds r2] E. apply sound_bind; [apply IH; by eapply Hok|].
  intros [[ds' r3] h] _. apply sound_ret.
Qed.

End any_peer.

(** ** Loads of invalid bytes *)

(** The first result is the second one, unless it is undefined. *)
Definition below {A} (m m' : res A) : Prop := m = UB \/ m = m'.

Lemma below_refl {A} (m : res A) : below m m.
Proof. by right. Qed.

Lemma below_bind {A B} (m m' : res A) (k k' : A -> res B) :
  below m m' -> (forall a, below (k a) (k' a)) -> below (m ≫= k) (m' ≫= k').
Proof. intros [->| ->] Hk; [by left|]. destruct m' as [a| | |]; [apply Hk | by right..]. Qed.

Section loads.
Context (load load' : Z -> res bool) (mmap : Z -> Z -> bool) (M : memory).
Hypothesis Hbelow : forall byte, below (load byte) (load' byte).

Ltac below_steps :=
  repeat first [ apply below_refl | apply below_bind; [|intros ?] | apply Hbelow
               | match goal with |- below (if ?c then _ else _) _ => destruct c end ].

Lemma below_count infos : below (count_fds load infos) (count_fds load' infos).
Proof. induction infos as [|i infos IH]; cbn [count_fds]; unfold counts_fd; below_steps. exact IH. Qed.

Lemma below_rebuild fds infos k acc : below (rebuild load fds infos k acc) (rebuild load' fds infos k acc).
Proof.
  revert k acc. induction infos as [|i infos IH]; intros k acc; cbn [rebuild]; [apply below_refl|].
  destruct (_ || _); [|apply IH]. apply below_bind; [apply Hbelow|]. intros null. apply below_bind; [apply below_refl|]. intros [fd k']. apply IH.
Qed.

Lemma below_takeMessage r i out len : below (takeMessage load mmap M r i out len) (takeMessage load' mmap M r i out len).
Proof.
  unfold takeMessage. cbv zeta. apply below_bind; [apply below_refl|]. intros bs. apply below_bind; [apply below_count|].
  intros count. apply below_bind; [apply below_rebuild|]. intros atts. apply below_bind; [below_steps|]. intros body. apply below_refl.
Qed.

Lemma below_processMessage r : below (processMessage load mmap M r) (processMessage load' mmap M r).
Proof.
  unfold processMessage. cbv zeta. destruct (_ <? _); [apply below_refl|]. apply below_bind; [apply below_refl|]. intros head.
  destruct (_ >? _); [apply below_refl|]. apply below_bind; [apply Hbelow|]. intros out.
  destruct (_ && _); [apply below_refl|]. destruct (_ <? _); [apply below_refl | apply below_takeMessage].
Qed.

Lemma below_processMessages fuel r : below (processMessages load mmap M fuel r) (processMessages load' mmap M fuel r).
Proof.
  revert r. induction fuel as [|fuel IH]; intros r; cbn [processMessages]; [apply below_refl|].
  apply below_bind; [apply below_processMessage|]. intros [[d|] r']; [|apply below_refl]. apply below_bind; [apply IH|]. intros; apply below_refl.
Qed.

Lemma below_handler packets r : below (readyReadHandler load mmap M packets r) (readyReadHandler load' mmap M packets r).
Proof.
  revert r. induction packets as [|p packets IH]; intros r; cbn [readyReadHandler]; [apply below_refl|].
  destruct (readBytesFromSocket p r) as [r'|]; [|apply below_refl]. destruct (_ =? _); [apply below_refl|].
  apply below_bind; [apply below_processMessages|]. intros [ds r'']. apply below_bind; [apply IH|]. intros; apply below_refl.
Qed.
End loads.

Lemma read_bool_below (load : Z -> res bool) byte : load 0 = Ok false -> load 1 = Ok true -> below (read_bool byte) (load byte).
Proof.
  intros H0 H1. unfold read_bool, below. destruct (Z.eqb_spec byte 0) as [->|]; [by right|].
  destruct (Z.eqb_spec byte 1) as [->|]; [by right | by left].
Qed.

(** ** A header that is refused *)

Section refusal.
Context (mmap : Z -> Z -> bool) (M : memory).

(** Too many attachments, or in line and too long. *)
Definition refused (i : MessageInfo) : bool :=
  (m_attachmentCount i >? attachmentMaxAmount) || ((m_isBodyOutOfLine i =? 0) && (m_bodySize i >? messageMaxSize)).

(** The buffer starts with a header that is refused. *)
Definition blocked (r : receiver) : Prop :=
  24 <= zlen (m_readBuffer r) /\ refused (MessageInfo_of (take 24 (m_readBuffer r))) = true.

Lemma blocked_process r : blocked r -> processMessage read_bool mmap M r = Ok (None, r).
Proof.
  intros [Hl Hf]. unfold processMessage, sizeof_MessageInfo. rewrite (proj2 (Z.ltb_ge _ _)) by lia.
  rewrite read_head by done. cbn [mbind res_bind]. unfold refused in Hf. destruct (_ >? attachmentMaxAmount); [done|].
  cbn [orb] in Hf. apply andb_prop in Hf as [->%Z.eqb_eq Hf]. cbn [read_bool Z.eqb mbind res_bind negb andb]. by rewrite Hf.
Qed.

Lemma blocked_more r bytes fds : blocked r -> blocked (mk_receiver (m_readBuffer r ++ bytes) fds).
Proof.
  intros [Hl Hf]. unfold blocked. cbn [m_readBuffer]. rewrite zlen_app. pose proof (zlen_nonneg bytes).
  split; [lia|]. rewrite take_app_le; [done|]. unfold zlen in Hl. lia.
Qed.

Lemma blocked_handler packets r :
  blocked r -> exists r' h, readyReadHandler read_bool mmap M packets r = Ok ([], r', h) /\ blocked r'.
Proof.
  revert r. induction packets as [|p packets IH]; intros r Hb; cbn [readyReadHandler]; [by exists r, WouldBlock|].
  unfold readBytesFromSocket. destruct (_ >? _); [by exists r, ReadFailed|].
  set (r1 := mk_receiver _ _). assert (Hb1 : blocked r1) by (by apply blocked_more).
  destruct (_ =? _); [by exists r1, DidClose|]. unfold process_fuel. cbn [processMessages].
  rewrite (blocked_process r1 Hb1). cbn [mbind res_bind mret res_ret].
  destruct (IH r1 Hb1) as (r2 & h & -> & Hb2). by exists r2, h.
Qed.

End refusal.

(** ** End to end *)



Definition sample_atts : list Attachment :=
  [mkAttachment SocketType 7 0; mkAttachment Uninitialized (-1) 0; mkAttachment MappedMemoryType (-1) 0; mkAttachment MappedMemoryType 8 4096].

Lemma sample_atts_ok : Forall att_ok sample_atts.
Proof. repeat constructor; cbn; unfold in_range; lia. Qed.

Definition sample_encoder (bs : list Z) (atts : list Attachment) : Encoder :=
  mkEncoder 0 0 ((Some <$> bs) ++ replicate (512 - length bs) None) (zlen bs) 512 atts.

Lemma sample_sendable mmap M bs atts os :
  (zlen bs <=? 512) = true -> Forall (in_range 8) bs -> bs <> [] -> Forall att_ok atts -> (zlen atts <=? 253) = true ->
  (too_long bs atts = true -> exists fd, os = mk_allocation (Some fd) true true /\ fd <> -1 /\ M !! fd = None /\ mmap fd (zlen bs) = true) ->
  sendable mmap M (sample_encoder bs atts) os bs.
Proof.
  intros Hl%Z.leb_le Hb Hne Ha Hc%Z.leb_le Hos. assert (Hr : enc_repr (sample_encoder bs atts) bs).
  { split; cbn [sample_encoder m_bufferSize m_buffer m_bufferCapacity]; try lia.
    - autorewrite with zlen. unfold zlen in *. lia.
    - apply take_app_length'. by rewrite length_fmap. }
  split; try done; unfold attachmentMaxAmount, maxMessage; cbn [sample_encoder m_attachments]; lia.
Qed.

(** 253 attachments leave no room for a body of 25 bytes. *)
Definition many_atts : list Attachment := replicate 253 (mkAttachment SocketType 7 0).
Definition sample_messages : list (Encoder * allocation * list Z) :=
  [(sample_encoder [1; 2; 3] sample_atts, mk_allocation None false false, [1; 2; 3]);
   (sample_encoder (replicate 30 5) many_atts, mk_allocation (Some 9) true true, replicate 30 5);
   (sample_encoder (replicate 40 6) many_atts, mk_allocation (Some 10) true true, replicate 40 6)].


#[local] Instance sample_size : SizeOf (WString * option (uint 4)) := 16.
Definition sample_bytes : list Z := header_bytes 0 12 34 ++ wire sample_value 16.




(** A header that is refused blocks the connection.  When the buffer starts
    with a header with too many attachments or too long a body, [processMessage]
    returns without consuming it; no packet that arrives later is handed on,
    however many there are. *)
Theorem transport_refused_header_blocks mmap M packets r :
  24 <= zlen (m_readBuffer r) -> refused (MessageInfo_of (take 24 (m_readBuffer r))) = true ->
  exists r' h, readyReadHandler read_bool mmap M packets r = Ok ([], r', h).
Proof.
  intros Hl Hf. destruct (blocked_handler mmap M packets r (conj Hl Hf)) as (r' & h & E & _). by exists r', h.
Qed.

Lemma transport_refused_header_blocks_witness :
  exists r' h, readyReadHandler read_bool (fun _ _ => true) ∅ [packet_with (fun _ => [0; 0; 0]) false (mk_UnixMessage [] (MessageInfo_new 1 0) [4])]
    (mk_receiver (MessageInfo_bytes (mk_MessageInfo 1 255 0)) []) = Ok ([], r', h).
Proof. apply transport_refused_header_blocks; [vm_compute; discriminate | reflexivity]. Defined.

End Transport.
