(* ===== verification/IpcOutput.v ===== *)
(** * Outgoing messages (ipc/Connection.cpp, ipc/unix/ConnectionUnix.cpp)

    [sendMessage] appends a message to the queue and schedules
    [sendOutgoingMessages] on the connection queue.  A message that the socket
    does not take is kept in [m_pendingOutputMessage], and the write monitor
    resumes when the socket is writable.  What a call of [sendmsg] or an
    allocation of shared memory gives is an input of the steps. *)
From S2P Require Import Prelude.

#[local] Open Scope cfetch_scope.

Module Output.

(** What the system does with a message: [sendmsg] succeeds, would block, finds
    the peer gone, fails in another way; or there is no shared memory for the
    body. *)
Inductive outcome := Sent | WouldBlock | PeerGone | SendError | NoSharedMemory.

#[global] Instance outcome_eq_dec : EqDecision outcome.
Proof. solve_decision. Defined.

Section Output.
Context {M : Type} (tooManyAttachments : M -> bool).

(** [scheduled] counts the calls of [sendOutgoingMessages] that wait on the
    connection queue; [monitor] says that the write monitor is started,
    [resume] that its function is scheduled.  [submitted], [sent] and [dropped]
    record the messages given to [sendMessage], taken by the socket and given
    up. *)
Record sender := mk_sender {
  isConnected : bool;
  outgoingMessages : list M;
  pendingOutputMessage : option M;
  scheduled : nat;
  monitor : bool;
  resume : bool;
  submitted : list M;
  sent : list M;
  dropped : list M
}.

Definition sender_new : sender := mk_sender true [] None 0 false false [] [] [].

(** [sendMessage], from any thread. *)
Definition sendMessage (m : M) (s : sender) : sender :=
  mk_sender (isConnected s) (outgoingMessages s ++ [m]) (pendingOutputMessage s) (S (scheduled s)) (monitor s) (resume s)
    (submitted s ++ [m]) (sent s) (dropped s).

Definition canSendOutgoingMessages (s : sender) : bool :=
  isConnected s && match pendingOutputMessage s with None => true | Some _ => false end.

(** [connectionDidClose], as far as the sender is concerned. *)
Definition close (s : sender) : sender :=
  mk_sender false (outgoingMessages s) (pendingOutputMessage s) (scheduled s) false (resume s)
    (submitted s) (sent s) (dropped s).

Definition drop_message (m : M) (s : sender) : sender :=
  mk_sender (isConnected s) (outgoingMessages s) (pendingOutputMessage s) (scheduled s) (monitor s) (resume s)
    (submitted s) (sent s) (dropped s ++ [m]).

(** [sendOutputMessage], for the outcome [o]: the result and the state. *)
Definition sendOutputMessage (m : M) (o : outcome) (s : sender) : bool * sender :=
  match o with
  | Sent =>
      (true, mk_sender (isConnected s) (outgoingMessages s) (pendingOutputMessage s) (scheduled s) (monitor s) (resume s)
        (submitted s) (sent s ++ [m]) (dropped s))
  | WouldBlock =>
      (false, mk_sender (isConnected s) (outgoingMessages s) (Some m) (scheduled s) true (resume s)
        (submitted s) (sent s) (dropped s))
  | PeerGone => (false, close (drop_message m s))
  | SendError | NoSharedMemory => (false, drop_message m s)
  end.

Definition sendOutgoingMessage (m : M) (o : outcome) (s : sender) : bool * sender :=
  if tooManyAttachments m then (false, drop_message m s) else sendOutputMessage m o s.

(** The loop of [sendOutgoingMessages]; [os] are the outcomes, one per message.
    Without an outcome for the next message the loop has not run so far: the
    step is not possible. *)
Fixpoint send_loop (queue : list M) (os : list outcome) (s : sender) : option sender :=
  match queue with
  | [] => Some s
  | m :: rest =>
      match os with
      | [] => None
      | o :: os =>
          let s1 := mk_sender (isConnected s) rest (pendingOutputMessage s) (scheduled s) (monitor s) (resume s)
            (submitted s) (sent s) (dropped s) in
          match sendOutgoingMessage m o s1 with
          | (true, s2) => send_loop rest os s2
          | (false, s2) => Some s2
          end
      end
  end.

Definition sendOutgoingMessages (os : list outcome) (s : sender) : option sender :=
  if canSendOutgoingMessages s then send_loop (outgoingMessages s) os s else Some s.

(** The function of the write monitor: it asks for the resumption and removes
    the monitor. *)
Definition writable (s : sender) : option sender :=
  if monitor s then
    Some (mk_sender (isConnected s) (outgoingMessages s) (pendingOutputMessage s) (scheduled s) false true
      (submitted s) (sent s) (dropped s))
  else None.

(** The resumption. *)
Definition resumeOutput (os : list outcome) (s : sender) : option sender :=
  if resume s then
    match pendingOutputMessage s, os with
    | Some m, o :: os =>
        let s1 := mk_sender (isConnected s) (outgoingMessages s) None (scheduled s) false false
          (submitted s) (sent s) (dropped s) in
        if isConnected s then sendOutgoingMessages os (snd (sendOutputMessage m o s1))
        else Some (drop_message m s1)
    | _, _ => None
    end
  else None.

Inductive step :=
| Submit (m : M)
| Flush (os : list outcome)
| Writable
| Resume (os : list outcome)
| Close.

Definition exec (st : step) (s : sender) : option sender :=
  match st with
  | Submit m => Some (sendMessage m s)
  | Flush os =>
      match scheduled s with
      | O => None
      | S n => sendOutgoingMessages os (mk_sender (isConnected s) (outgoingMessages s) (pendingOutputMessage s) n
                 (monitor s) (resume s) (submitted s) (sent s) (dropped s))
      end
  | Writable => writable s
  | Resume os => resumeOutput os s
  | Close => Some (close s)
  end.

Fixpoint run (ss : list step) (s : sender) : option sender :=
  match ss with
  | [] => Some s
  | st :: ss => exec st s ≫= run ss
  end.

(** ** Order *)

(** The messages that are not dropped, in the order in which they leave. *)
Definition line (s : sender) : list M := sent s ++ option_list (pendingOutputMessage s) ++ outgoingMessages s.

Record ordered (s : sender) : Prop := mk_ordered {
  in_order : line s `sublist_of` submitted s;
  all_there : submitted s ≡ₚ line s ++ dropped s
}.

(** A state in the middle of the loop: [m] has been taken off the queue. *)
Definition taken (m : M) (s : sender) : Prop :=
  sent s ++ m :: outgoingMessages s `sublist_of` submitted s /\
  submitted s ≡ₚ sent s ++ m :: outgoingMessages s ++ dropped s /\
  pendingOutputMessage s = None.

Lemma taken_drop m s : taken m s -> ordered (drop_message m s).
Proof.
  intros (A & B & C). constructor; unfold line; cbn; rewrite C; cbn.
  - etransitivity; [|exact A]. apply sublist_app; [done|]. by apply sublist_cons.
  - rewrite B. rewrite <- app_assoc. apply Permutation_app_head. rewrite app_assoc. apply Permutation_cons_append.
Qed.

Lemma close_ordered s : ordered s -> ordered (close s).
Proof. by intros [A B]. Qed.

Lemma taken_send m o s : taken m s -> ordered (snd (sendOutputMessage m o s)).
Proof.
  intros T. destruct o; cbn [sendOutputMessage snd]; [| |apply close_ordered|..]; try by apply taken_drop.
  - destruct T as (A & B & C). constructor; unfold line; cbn; rewrite C; cbn; rewrite <- app_assoc; cbn; [done|].
    by rewrite <- app_assoc.
  - destruct T as (A & B & C). constructor; unfold line; cbn; [done|]. by rewrite <- app_assoc.
Qed.

(** After a message that was taken there is no pending one. *)
Lemma send_true m o s s' : sendOutputMessage m o s = (true, s') -> pendingOutputMessage s' = pendingOutputMessage s /\ outgoingMessages s' = outgoingMessages s.
Proof. destruct o; try done. by intros [= <-]. Qed.

Lemma loop_ordered queue os s s' :
  outgoingMessages s = queue -> pendingOutputMessage s = None -> ordered s -> send_loop queue os s = Some s' -> ordered s'.
Proof.
  revert os s. induction queue as [|m rest IH]; intros os s Eq Ep O; cbn [send_loop]; [by intros [= <-]|].
  destruct os as [|o os]; [done|]. set (s1 := mk_sender _ _ _ _ _ _ _ _ _).
  assert (taken m s1) as T.
  { destruct O as [A B]. unfold line in A, B. rewrite Eq, Ep in A, B. cbn in A, B. unfold taken, s1. cbn. split; [done|]. split; [|done].
    rewrite B. by rewrite <- app_assoc. }
  unfold sendOutgoingMessage. destruct (tooManyAttachments m); [intros [= <-]; by apply taken_drop|].
  pose proof (taken_send m o s1 T) as O1. destruct (sendOutputMessage m o s1) as [[|] s2] eqn:E; [|by intros [= <-]].
  destruct (send_true _ _ _ _ E) as [E1 E2]. apply IH; [exact E2|by rewrite E1|exact O1].
Qed.

Lemma flush_ordered os s s' : ordered s -> sendOutgoingMessages os s = Some s' -> ordered s'.
Proof.
  intros O. unfold sendOutgoingMessages, canSendOutgoingMessages.
  destruct (isConnected s), (pendingOutputMessage s) eqn:E; cbn [andb]; try by intros [= <-].
  by apply loop_ordered.
Qed.

Lemma exec_ordered st s s' : ordered s -> exec st s = Some s' -> ordered s'.
Proof.
  intros O. destruct st as [m|os| |os|]; cbn [exec].
  - intros [= <-]. destruct O as [A B]. constructor; unfold line in *; cbn.
    + rewrite !app_assoc, <- (app_assoc (sent s)). by apply sublist_app.
    + rewrite B, <- !app_assoc. do 3 apply Permutation_app_head. apply Permutation_app_comm.
  - destruct (scheduled s) as [|n]; [done|]. apply flush_ordered. by destruct O.
  - unfold writable. destruct (monitor s); [|done]. intros [= <-]. by destruct O.
  - unfold resumeOutput. destruct (resume s); [|done]. destruct (pendingOutputMessage s) as [m|] eqn:Ep; [|done].
    destruct os as [|o os]; [done|]. set (s1 := mk_sender _ _ _ _ _ _ _ _ _).
    assert (taken m s1) as T.
    { destruct O as [A B]. unfold line in A, B. rewrite Ep in A, B. cbn in A, B. unfold taken, s1. cbn. split; [done|]. split; [|done].
      rewrite B. by rewrite <- app_assoc. }
    destruct (isConnected s); [|intros [= <-]; by apply taken_drop]. apply flush_ordered. by apply taken_send.
  - intros [= <-]. by apply close_ordered.
Qed.

Lemma run_ordered ss s s' : ordered s -> run ss s = Some s' -> ordered s'.
Proof.
  revert s. induction ss as [|st ss IH]; intros s O; cbn [run]; [by intros [= <-]|].
  destruct (exec st s) as [s1|] eqn:E; [|done]. cbn [mbind option_bind]. apply IH. exact (exec_ordered _ _ _ O E).
Qed.

(** ** Nothing is forgotten *)

(** No message and no allocation is refused. *)
Definition clean_outcome (o : outcome) : bool :=
  match o with Sent | WouldBlock | PeerGone => true | _ => false end.

Definition clean (st : step) : bool :=
  match st with
  | Submit m => negb (tooManyAttachments m)
  | Flush os | Resume os => forallb clean_outcome os
  | _ => true
  end.

(** As long as the connection is open, a message that waits will be looked at:
    the pending one by the monitor or its function, the others by a call that is
    scheduled or after the pending one. *)
Record flowing (s : sender) : Prop := mk_flowing {
  accepted : Forall (fun m => tooManyAttachments m = false) (outgoingMessages s);
  kept : isConnected s = true -> dropped s = [];
  watched : isConnected s = true -> pendingOutputMessage s <> None -> monitor s = true \/ resume s = true;
  queued : isConnected s = true -> pendingOutputMessage s = None -> outgoingMessages s <> [] -> (0 < scheduled s)%nat
}.

(** After a loop that was not cut short by a refusal. *)
Definition drained (s : sender) : Prop :=
  Forall (fun m => tooManyAttachments m = false) (outgoingMessages s) /\
  (isConnected s = true -> dropped s = [] /\ match pendingOutputMessage s with None => outgoingMessages s = [] | Some _ => monitor s = true end).

Lemma drained_flowing s : drained s -> flowing s.
Proof.
  intros [A B]. constructor; [done|by intros [? _]%B|..]; intros [_ H]%B Hp; [destruct (pendingOutputMessage s); [by left|done]|].
  intros Hq. by rewrite Hp in H.
Qed.

Lemma send_drained m o s :
  clean_outcome o = true -> Forall (fun m => tooManyAttachments m = false) (outgoingMessages s) -> dropped s = [] ->
  match sendOutputMessage m o s with
  | (true, s') => dropped s' = [] /\ outgoingMessages s' = outgoingMessages s /\ pendingOutputMessage s' = pendingOutputMessage s
      /\ isConnected s' = isConnected s
  | (false, s') => drained s'
  end.
Proof. destruct o; try done; intros _ A B; cbn; by repeat split. Qed.

Lemma loop_drained queue os s s' :
  outgoingMessages s = queue -> pendingOutputMessage s = None -> dropped s = [] ->
  Forall (fun m => tooManyAttachments m = false) queue -> forallb clean_outcome os = true ->
  send_loop queue os s = Some s' -> drained s'.
Proof.
  revert os s. induction queue as [|m rest IH]; intros os s Eq Ep Ed A Ho; cbn [send_loop].
  { intros [= <-]. split; [by rewrite Eq|]. intros _. by rewrite Ep. }
  destruct os as [|o os]; [done|]. set (s1 := mk_sender _ _ _ _ _ _ _ _ _). cbn [forallb] in Ho. apply andb_true_iff in Ho as [Ho Hos].
  apply Forall_cons in A as [Am A]. unfold sendOutgoingMessage. rewrite Am.
  pose proof (send_drained m o s1 Ho A Ed) as S. destruct (sendOutputMessage m o s1) as [[|] s2]; [|by intros [= <-]].
  destruct S as (S1 & S2 & S3 & S4). apply IH; [exact S2|by rewrite S3|done..].
Qed.

Lemma flush_flowing os s s' :
  forallb clean_outcome os = true -> Forall (fun m => tooManyAttachments m = false) (outgoingMessages s) ->
  (isConnected s = true -> dropped s = [] /\ (pendingOutputMessage s <> None -> monitor s = true \/ resume s = true)) ->
  sendOutgoingMessages os s = Some s' -> flowing s'.
Proof.
  intros Ho A K. unfold sendOutgoingMessages, canSendOutgoingMessages.
  destruct (isConnected s) eqn:Ec; cbn [andb]; [|intros [= <-]; constructor; by rewrite ?Ec].
  destruct (K eq_refl) as [K1 K2]. destruct (pendingOutputMessage s) eqn:E; cbn [andb].
  - intros [= <-]. constructor; [done..| |]; rewrite E; [by intros _ _; apply K2|done].
  - intros H. apply drained_flowing. exact (loop_drained _ _ _ _ eq_refl E K1 A Ho H).
Qed.

Lemma exec_flowing st s s' : clean st = true -> flowing s -> exec st s = Some s' -> flowing s'.
Proof.
  intros Hc [A B C D]. destruct st as [m|os| |os|]; cbn [exec clean] in *.
  - intros [= <-]. apply negb_true_iff in Hc. constructor; cbn; [|done..|intros; lia].
    apply Forall_app. split; [done|]. by apply Forall_singleton.
  - destruct (scheduled s) as [|n] eqn:Es; [done|]. apply flush_flowing; cbn; auto.
  - unfold writable. destruct (monitor s); [|done]. intros [= <-]. constructor; cbn; auto.
  - unfold resumeOutput. destruct (resume s); [|done]. destruct (pendingOutputMessage s) as [m|] eqn:Ep; [|done].
    destruct os as [|o os]; [done|]. cbn [forallb] in Hc. apply andb_true_iff in Hc as [Ho Hos].
    set (s1 := mk_sender _ _ _ _ _ _ _ _ _). destruct (isConnected s) eqn:Ec.
    + pose proof (send_drained m o s1 Ho A (B eq_refl)) as S. destruct (sendOutputMessage m o s1) as [[|] s2]; cbn [snd].
      * destruct S as (S1 & S2 & S3 & S4). apply flush_flowing; [done|by rewrite S2|]. intros _. by rewrite S3.
      * destruct S as [S1 S2]. apply flush_flowing; [done..|]. intros [S3 S4]%S2. split; [done|].
        intros Hp. left. by destruct (pendingOutputMessage s2).
    + intros [= <-]. by constructor; cbn; rewrite ?Ec.
  - intros [= <-]. by constructor.
Qed.

Lemma run_flowing ss s s' : forallb clean ss = true -> flowing s -> run ss s = Some s' -> flowing s'.
Proof.
  revert s. induction ss as [|st ss IH]; intros s Hc F; cbn [run forallb] in *; [by intros [= <-]|].
  apply andb_true_iff in Hc as [Hs Hc]. destruct (exec st s) as [s1|] eqn:E; [|done]. cbn [mbind option_bind].
  apply IH; [done|]. exact (exec_flowing _ _ _ Hs F E).
Qed.

Lemma sublist_permutation_eq (l k : list M) : l `sublist_of` k -> k ≡ₚ l -> l = k.
Proof.
  intros S P. apply Permutation_length in P. revert P. induction S as [|x l k S IH|x l k S IH]; intros P; [done|..].
  - f_equal. apply IH. cbn in P. lia.
  - apply sublist_length in S. cbn in P. lia.
Qed.

(** Nothing is left for the connection queue to do. *)
Definition quiet (s : sender) : bool :=
  bool_decide (scheduled s = 0%nat) && negb (monitor s) && negb (resume s).

End Output.

Arguments sender : clear implicits.
Arguments step : clear implicits.

(** ** Properties *)

(** C11: messages leave in order.  Whatever the socket does and however the
    submissions, the scheduled calls and the write monitor interleave, the
    messages taken by the socket, then the pending one, then the queue are in
    the order in which the messages were submitted; together with the messages
    given up they are all messages submitted, each once. *)
Theorem outgoing_messages_in_order {M} (tooMany : M -> bool) ss s :
  run tooMany ss sender_new = Some s ->
  sent s ++ option_list (pendingOutputMessage s) ++ outgoingMessages s `sublist_of` submitted s /\
  submitted s ≡ₚ (sent s ++ option_list (pendingOutputMessage s) ++ outgoingMessages s) ++ dropped s.
Proof. intros H. assert (ordered s) as [A B] by (apply (run_ordered tooMany ss sender_new); [by constructor|done]). by split. Qed.

(** Message 1 has to wait for the socket; message 2 cannot be sent. *)
Definition refuse_2 (m : Z) : bool := m =? 2.

Definition stalling_run : list (step Z) :=
  [Submit 1; Flush [WouldBlock]; Submit 2; Submit 3; Flush []; Flush []; Writable; Resume [Sent; Sent]].

Lemma outgoing_messages_in_order_witness :
  exists s, run refuse_2 stalling_run sender_new = Some s /\ [1] ++ [] ++ [3] `sublist_of` [1; 2; 3].
Proof.
  eexists. split; [vm_compute; reflexivity|].
  exact (proj1 (outgoing_messages_in_order refuse_2 stalling_run _ ltac:(vm_compute; reflexivity))).
Defined.

(** C12: when no message is refused and no call fails but for a full socket, an
    open connection with nothing left on its connection queue has sent all
    messages, in order: a message that had to wait is sent by the write
    monitor, and those behind it after it. *)
Theorem outgoing_messages_all_sent {M} (tooMany : M -> bool) ss s :
  forallb (clean tooMany) ss = true -> run tooMany ss sender_new = Some s -> isConnected s = true -> quiet s = true ->
  sent s = submitted s.
Proof.
  intros Hc HR Hi Hq. assert (ordered s) as [A B] by (apply (run_ordered tooMany ss sender_new); [by constructor|done]).
  assert (flowing tooMany s) as [_ K W Q] by (apply (run_flowing tooMany ss sender_new); [done|by constructor|done]).
  apply andb_true_iff in Hq as [[Hs Hm]%andb_true_iff Hr]. apply bool_decide_eq_true in Hs.
  apply negb_true_iff in Hm, Hr. rewrite (K Hi), app_nil_r in B.
  destruct (pendingOutputMessage s) as [m|] eqn:Ep; [destruct (W Hi); [done|congruence..]|].
  assert (outgoingMessages s = []) as Eo.
  { destruct (outgoingMessages s); [done|]. specialize (Q Hi eq_refl ltac:(done)). lia. }
  unfold line in A, B. rewrite Ep, Eo in A, B. cbn in A, B. rewrite !app_nil_r in A, B. by apply sublist_permutation_eq.
Qed.

Definition resumed_run : list (step Z) :=
  [Submit 1; Flush [WouldBlock]; Submit 3; Flush []; Writable; Resume [WouldBlock]; Writable; Resume [Sent; Sent]].

Lemma outgoing_messages_all_sent_witness :
  exists s, run refuse_2 resumed_run sender_new = Some s /\ sent s = [1; 3].
Proof.
  eexists. split; [vm_compute; reflexivity|].
  apply (outgoing_messages_all_sent refuse_2 resumed_run); [vm_compute; reflexivity..].
Defined.

(** A message that is refused when the output is resumed stops the queue.
    The calls of [sendOutgoingMessages] that were scheduled for the messages
    behind it have run while the socket was full and done nothing, and the loop
    ends at the refused message: the connection is open, nothing is scheduled,
    and message 3 stays until another message is sent. *)
Theorem refused_message_stalls_queue :
  exists s, run refuse_2 stalling_run sender_new = Some s /\ isConnected s = true /\ quiet s = true /\
    sent s = [1] /\ dropped s = [2] /\ outgoingMessages s = [3].
Proof. eexists. split; [vm_compute; reflexivity|]. by vm_compute. Qed.

End Output.
