(* ===== verification/IpcConnection.v ===== *)
(** * Connections (ipc/Connection.h, ipc/Connection.cpp)

    A connection receives messages on its connection queue and hands them to the
    main thread, where clients may wait for a reply or for a message while other
    messages are dispatched.  The model is a machine, [exec], whose labels are
    what the threads of the process may do next.  The connection queue runs
    [processIncomingMessage], [connectionDidClose] and [sendOutgoingMessages].
    The main thread runs the tasks of its run loop; what it is in the middle of
    is a stack of frames, one per call that a nested dispatch can interrupt (a
    handler of a client, a loop over messages, a wait).  The places where the
    main thread holds no lock are the places between two steps, so the labels of
    the connection queue may come between them.  The connection queue handles
    one message in one step.

    Clients are not fixed: the code of a client may, at each step, make any call
    of the interface ([Act]), run the main run loop, or return, and a theorem
    about all sequences of labels is a theorem about all clients.  The mode
    [allowFullySynchronousModeForTesting] is off, and so is
    [setShouldExitOnSyncMessageSendFailure], which ends the process. *)
From stdpp Require Import gmap.
From S2P Require Import Prelude IpcEncoder IpcDecoder.

#[local] Open Scope cfetch_scope.

Module Connection.

(** ** Data *)

(** Values of [MessageName] and [ReceiverName]. *)
Definition WrappedAsyncMessageForTesting : Z := 1983.
Definition SyncMessageReply : Z := 1984.
Definition AsyncReply : Z := 106.

(** [StrongEnumHashTraits<ReceiverName>]: the empty and the deleted value of a
    table cannot be keys. *)
Definition isValidReceiverKey (r : Z) : bool := negb (r =? 254) && negb (r =? 255).

(** The same for [uint64_t], whose empty value is 0 and whose deleted value is
    -1. *)
Definition isValidKey64 (k : Z) : bool := negb (k =? u64 (-1)) && negb (k =? 0).

(** What a connection looks at in a decoder.  [leadingID] is the [uint64_t] at
    the start of the body, when it can be decoded. *)
Record msg := mk_msg {
  messageName : Z;
  messageReceiverName : Z;
  destinationID : Z;
  isSyncMessage : bool;
  dispatchMode : ShouldDispatchWhenWaitingForSyncReply;
  fullySynchronous : bool;
  leadingID : option Z
}.

#[global] Instance msg_eq_dec : EqDecision msg.
Proof. solve_decision. Defined.

Record PendingSyncReply := mk_pending { p_syncRequestID : Z; replyDecoder : option msg; didReceiveReply : bool }.

Record WaitForMessageState := mk_waitState {
  w_messageName : Z;
  w_destinationID : Z;
  interruptIfSync : bool;
  dispatchSync : bool;
  messageWaitingInterrupted : bool;
  w_decoder : option msg
}.

(** An encoder in [m_outgoingMessages]. *)
Record outgoing := mk_outgoing {
  o_name : Z; o_dest : Z; o_sync : bool; o_mode : ShouldDispatchWhenWaitingForSyncReply; o_leadingID : option Z
}.

(** The state of a connection.  [m_throttlingLevel] is the level of the
    throttler, when there is one, and [m_timer] says whether its timer is
    active.  [m_parked] says whether the main thread is parked on
    [m_waitForMessageCondition].  [m_onlySendMarked] and
    [m_inDispatchMarkedCount] are the flag and the counter whose names end in
    [WhenProcessingSuchAMessage] and [MarkedDispatchWhenWaitingForSyncReplyCount].
    [m_asyncReplyHandlers] is the entry of the connection in
    [asyncReplyHandlerMap], with the identifiers of its handlers. *)
Record conn := mk_conn {
  m_isValid : bool;
  m_isConnected : bool;
  m_incomingMessages : list msg;
  m_throttlingLevel : option Z;
  m_timer : bool;
  m_pendingSyncReplies : list PendingSyncReply;
  m_shouldWaitForSyncReplies : bool;
  m_shouldWaitForMessages : bool;
  m_waitingForMessage : option WaitForMessageState;
  m_parked : bool;
  m_workQueueMessageReceivers : list Z;
  m_threadMessageReceivers : list Z;
  m_incomingSyncMessageCallbacks : list Z;
  m_nextIncomingSyncMessageCallbackID : Z;
  m_onlySendMarked : bool;
  m_inSendSyncCount : Z;
  m_inDispatchMessageCount : Z;
  m_inDispatchMarkedCount : Z;
  m_didReceiveInvalidMessage : bool;
  m_syncRequestID : Z;
  m_outgoingMessages : list outgoing;
  m_asyncReplyHandlers : option (list Z)
}.

(** The constructor, followed by [open]. *)
Definition Connection_new (onlySendMarked : bool) : conn :=
  mk_conn true true [] None false [] true true None false [] [] [] 0 onlySendMarked 0 0 0 false 0 [] None.

Definition set_valid v c := mk_conn v (m_isConnected c) (m_incomingMessages c) (m_throttlingLevel c) (m_timer c)
  (m_pendingSyncReplies c) (m_shouldWaitForSyncReplies c) (m_shouldWaitForMessages c) (m_waitingForMessage c)
  (m_parked c) (m_workQueueMessageReceivers c) (m_threadMessageReceivers c) (m_incomingSyncMessageCallbacks c)
  (m_nextIncomingSyncMessageCallbackID c) (m_onlySendMarked c) (m_inSendSyncCount c) (m_inDispatchMessageCount c)
  (m_inDispatchMarkedCount c) (m_didReceiveInvalidMessage c) (m_syncRequestID c) (m_outgoingMessages c)
  (m_asyncReplyHandlers c).
Definition set_connected v c := mk_conn (m_isValid c) v (m_incomingMessages c) (m_throttlingLevel c) (m_timer c)
  (m_pendingSyncReplies c) (m_shouldWaitForSyncReplies c) (m_shouldWaitForMessages c) (m_waitingForMessage c)
  (m_parked c) (m_workQueueMessageReceivers c) (m_threadMessageReceivers c) (m_incomingSyncMessageCallbacks c)
  (m_nextIncomingSyncMessageCallbackID c) (m_onlySendMarked c) (m_inSendSyncCount c) (m_inDispatchMessageCount c)
  (m_inDispatchMarkedCount c) (m_didReceiveInvalidMessage c) (m_syncRequestID c) (m_outgoingMessages c)
  (m_asyncReplyHandlers c).
Definition set_incoming v c := mk_conn (m_isValid c) (m_isConnected c) v (m_throttlingLevel c) (m_timer c)
  (m_pendingSyncReplies c) (m_shouldWaitForSyncReplies c) (m_shouldWaitForMessages c) (m_waitingForMessage c)
  (m_parked c) (m_workQueueMessageReceivers c) (m_threadMessageReceivers c) (m_incomingSyncMessageCallbacks c)
  (m_nextIncomingSyncMessageCallbackID c) (m_onlySendMarked c) (m_inSendSyncCount c) (m_inDispatchMessageCount c)
  (m_inDispatchMarkedCount c) (m_didReceiveInvalidMessage c) (m_syncRequestID c) (m_outgoingMessages c)
  (m_asyncReplyHandlers c).
Definition set_level v c := mk_conn (m_isValid c) (m_isConnected c) (m_incomingMessages c) v (m_timer c)
  (m_pendingSyncReplies c) (m_shouldWaitForSyncReplies c) (m_shouldWaitForMessages c) (m_waitingForMessage c)
  (m_parked c) (m_workQueueMessageReceivers c) (m_threadMessageReceivers c) (m_incomingSyncMessageCallbacks c)
  (m_nextIncomingSyncMessageCallbackID c) (m_onlySendMarked c) (m_inSendSyncCount c) (m_inDispatchMessageCount c)
  (m_inDispatchMarkedCount c) (m_didReceiveInvalidMessage c) (m_syncRequestID c) (m_outgoingMessages c)
  (m_asyncReplyHandlers c).
Definition set_timer v c := mk_conn (m_isValid c) (m_isConnected c) (m_incomingMessages c) (m_throttlingLevel c) v
  (m_pendingSyncReplies c) (m_shouldWaitForSyncReplies c) (m_shouldWaitForMessages c) (m_waitingForMessage c)
  (m_parked c) (m_workQueueMessageReceivers c) (m_threadMessageReceivers c) (m_incomingSyncMessageCallbacks c)
  (m_nextIncomingSyncMessageCallbackID c) (m_onlySendMarked c) (m_inSendSyncCount c) (m_inDispatchMessageCount c)
  (m_inDispatchMarkedCount c) (m_didReceiveInvalidMessage c) (m_syncRequestID c) (m_outgoingMessages c)
  (m_asyncReplyHandlers c).
Definition set_pending v c := mk_conn (m_isValid c) (m_isConnected c) (m_incomingMessages c) (m_throttlingLevel c)
  (m_timer c) v (m_shouldWaitForSyncReplies c) (m_shouldWaitForMessages c) (m_waitingForMessage c) (m_parked c)
  (m_workQueueMessageReceivers c) (m_threadMessageReceivers c) (m_incomingSyncMessageCallbacks c)
  (m_nextIncomingSyncMessageCallbackID c) (m_onlySendMarked c) (m_inSendSyncCount c) (m_inDispatchMessageCount c)
  (m_inDispatchMarkedCount c) (m_didReceiveInvalidMessage c) (m_syncRequestID c) (m_outgoingMessages c)
  (m_asyncReplyHandlers c).
Definition set_waitReplies v c := mk_conn (m_isValid c) (m_isConnected c) (m_incomingMessages c) (m_throttlingLevel c)
  (m_timer c) (m_pendingSyncReplies c) v (m_shouldWaitForMessages c) (m_waitingForMessage c) (m_parked c)
  (m_workQueueMessageReceivers c) (m_threadMessageReceivers c) (m_incomingSyncMessageCallbacks c)
  (m_nextIncomingSyncMessageCallbackID c) (m_onlySendMarked c) (m_inSendSyncCount c) (m_inDispatchMessageCount c)
  (m_inDispatchMarkedCount c) (m_didReceiveInvalidMessage c) (m_syncRequestID c) (m_outgoingMessages c)
  (m_asyncReplyHandlers c).
Definition set_waitMessages v c := mk_conn (m_isValid c) (m_isConnected c) (m_incomingMessages c) (m_throttlingLevel
  c) (m_timer c) (m_pendingSyncReplies c) (m_shouldWaitForSyncReplies c) v (m_waitingForMessage c) (m_parked c)
  (m_workQueueMessageReceivers c) (m_threadMessageReceivers c) (m_incomingSyncMessageCallbacks c)
  (m_nextIncomingSyncMessageCallbackID c) (m_onlySendMarked c) (m_inSendSyncCount c) (m_inDispatchMessageCount c)
  (m_inDispatchMarkedCount c) (m_didReceiveInvalidMessage c) (m_syncRequestID c) (m_outgoingMessages c)
  (m_asyncReplyHandlers c).
Definition set_waiting v c := mk_conn (m_isValid c) (m_isConnected c) (m_incomingMessages c) (m_throttlingLevel c)
  (m_timer c) (m_pendingSyncReplies c) (m_shouldWaitForSyncReplies c) (m_shouldWaitForMessages c) v (m_parked c)
  (m_workQueueMessageReceivers c) (m_threadMessageReceivers c) (m_incomingSyncMessageCallbacks c)
  (m_nextIncomingSyncMessageCallbackID c) (m_onlySendMarked c) (m_inSendSyncCount c) (m_inDispatchMessageCount c)
  (m_inDispatchMarkedCount c) (m_didReceiveInvalidMessage c) (m_syncRequestID c) (m_outgoingMessages c)
  (m_asyncReplyHandlers c).
Definition set_parked v c := mk_conn (m_isValid c) (m_isConnected c) (m_incomingMessages c) (m_throttlingLevel c)
  (m_timer c) (m_pendingSyncReplies c) (m_shouldWaitForSyncReplies c) (m_shouldWaitForMessages c) (m_waitingForMessage
  c) v (m_workQueueMessageReceivers c) (m_threadMessageReceivers c) (m_incomingSyncMessageCallbacks c)
  (m_nextIncomingSyncMessageCallbackID c) (m_onlySendMarked c) (m_inSendSyncCount c) (m_inDispatchMessageCount c)
  (m_inDispatchMarkedCount c) (m_didReceiveInvalidMessage c) (m_syncRequestID c) (m_outgoingMessages c)
  (m_asyncReplyHandlers c).
Definition set_receivers v c := mk_conn (m_isValid c) (m_isConnected c) (m_incomingMessages c) (m_throttlingLevel c)
  (m_timer c) (m_pendingSyncReplies c) (m_shouldWaitForSyncReplies c) (m_shouldWaitForMessages c) (m_waitingForMessage
  c) (m_parked c) v (m_threadMessageReceivers c) (m_incomingSyncMessageCallbacks c)
  (m_nextIncomingSyncMessageCallbackID c) (m_onlySendMarked c) (m_inSendSyncCount c) (m_inDispatchMessageCount c)
  (m_inDispatchMarkedCount c) (m_didReceiveInvalidMessage c) (m_syncRequestID c) (m_outgoingMessages c)
  (m_asyncReplyHandlers c).
Definition set_threadReceivers v c := mk_conn (m_isValid c) (m_isConnected c) (m_incomingMessages c)
  (m_throttlingLevel c) (m_timer c) (m_pendingSyncReplies c) (m_shouldWaitForSyncReplies c) (m_shouldWaitForMessages
  c) (m_waitingForMessage c) (m_parked c) (m_workQueueMessageReceivers c) v (m_incomingSyncMessageCallbacks c)
  (m_nextIncomingSyncMessageCallbackID c) (m_onlySendMarked c) (m_inSendSyncCount c) (m_inDispatchMessageCount c)
  (m_inDispatchMarkedCount c) (m_didReceiveInvalidMessage c) (m_syncRequestID c) (m_outgoingMessages c)
  (m_asyncReplyHandlers c).
Definition set_callbacks v0 v1 c := mk_conn (m_isValid c) (m_isConnected c) (m_incomingMessages c) (m_throttlingLevel
  c) (m_timer c) (m_pendingSyncReplies c) (m_shouldWaitForSyncReplies c) (m_shouldWaitForMessages c)
  (m_waitingForMessage c) (m_parked c) (m_workQueueMessageReceivers c) (m_threadMessageReceivers c) v0 v1
  (m_onlySendMarked c) (m_inSendSyncCount c) (m_inDispatchMessageCount c) (m_inDispatchMarkedCount c)
  (m_didReceiveInvalidMessage c) (m_syncRequestID c) (m_outgoingMessages c) (m_asyncReplyHandlers c).
Definition set_sends v c := mk_conn (m_isValid c) (m_isConnected c) (m_incomingMessages c) (m_throttlingLevel c)
  (m_timer c) (m_pendingSyncReplies c) (m_shouldWaitForSyncReplies c) (m_shouldWaitForMessages c) (m_waitingForMessage
  c) (m_parked c) (m_workQueueMessageReceivers c) (m_threadMessageReceivers c) (m_incomingSyncMessageCallbacks c)
  (m_nextIncomingSyncMessageCallbackID c) (m_onlySendMarked c) v (m_inDispatchMessageCount c) (m_inDispatchMarkedCount
  c) (m_didReceiveInvalidMessage c) (m_syncRequestID c) (m_outgoingMessages c) (m_asyncReplyHandlers c).
Definition set_dispatches v0 v1 c := mk_conn (m_isValid c) (m_isConnected c) (m_incomingMessages c) (m_throttlingLevel
  c) (m_timer c) (m_pendingSyncReplies c) (m_shouldWaitForSyncReplies c) (m_shouldWaitForMessages c)
  (m_waitingForMessage c) (m_parked c) (m_workQueueMessageReceivers c) (m_threadMessageReceivers c)
  (m_incomingSyncMessageCallbacks c) (m_nextIncomingSyncMessageCallbackID c) (m_onlySendMarked c) (m_inSendSyncCount
  c) v0 v1 (m_didReceiveInvalidMessage c) (m_syncRequestID c) (m_outgoingMessages c) (m_asyncReplyHandlers c).
Definition set_invalid v c := mk_conn (m_isValid c) (m_isConnected c) (m_incomingMessages c) (m_throttlingLevel c)
  (m_timer c) (m_pendingSyncReplies c) (m_shouldWaitForSyncReplies c) (m_shouldWaitForMessages c) (m_waitingForMessage
  c) (m_parked c) (m_workQueueMessageReceivers c) (m_threadMessageReceivers c) (m_incomingSyncMessageCallbacks c)
  (m_nextIncomingSyncMessageCallbackID c) (m_onlySendMarked c) (m_inSendSyncCount c) (m_inDispatchMessageCount c)
  (m_inDispatchMarkedCount c) v (m_syncRequestID c) (m_outgoingMessages c) (m_asyncReplyHandlers c).
Definition set_requestID v c := mk_conn (m_isValid c) (m_isConnected c) (m_incomingMessages c) (m_throttlingLevel c)
  (m_timer c) (m_pendingSyncReplies c) (m_shouldWaitForSyncReplies c) (m_shouldWaitForMessages c) (m_waitingForMessage
  c) (m_parked c) (m_workQueueMessageReceivers c) (m_threadMessageReceivers c) (m_incomingSyncMessageCallbacks c)
  (m_nextIncomingSyncMessageCallbackID c) (m_onlySendMarked c) (m_inSendSyncCount c) (m_inDispatchMessageCount c)
  (m_inDispatchMarkedCount c) (m_didReceiveInvalidMessage c) v (m_outgoingMessages c) (m_asyncReplyHandlers c).
Definition set_outgoing v c := mk_conn (m_isValid c) (m_isConnected c) (m_incomingMessages c) (m_throttlingLevel c)
  (m_timer c) (m_pendingSyncReplies c) (m_shouldWaitForSyncReplies c) (m_shouldWaitForMessages c) (m_waitingForMessage
  c) (m_parked c) (m_workQueueMessageReceivers c) (m_threadMessageReceivers c) (m_incomingSyncMessageCallbacks c)
  (m_nextIncomingSyncMessageCallbackID c) (m_onlySendMarked c) (m_inSendSyncCount c) (m_inDispatchMessageCount c)
  (m_inDispatchMarkedCount c) (m_didReceiveInvalidMessage c) (m_syncRequestID c) v (m_asyncReplyHandlers c).
Definition set_handlers v c := mk_conn (m_isValid c) (m_isConnected c) (m_incomingMessages c) (m_throttlingLevel c)
  (m_timer c) (m_pendingSyncReplies c) (m_shouldWaitForSyncReplies c) (m_shouldWaitForMessages c) (m_waitingForMessage
  c) (m_parked c) (m_workQueueMessageReceivers c) (m_threadMessageReceivers c) (m_incomingSyncMessageCallbacks c)
  (m_nextIncomingSyncMessageCallbackID c) (m_onlySendMarked c) (m_inSendSyncCount c) (m_inDispatchMessageCount c)
  (m_inDispatchMarkedCount c) (m_didReceiveInvalidMessage c) (m_syncRequestID c) (m_outgoingMessages c) v.

(** Functions dispatched to the main run loop. *)
Inductive task :=
| DispatchIncoming (i : nat)
| DispatchSyncFor (i : nat)
| ReportInvalid (i : nat) (name : Z)
| DidClose (i : nat).

#[global] Instance task_eq_dec : EqDecision task.
Proof. solve_decision. Defined.

(** What became of a message. *)
Inductive fate :=
| ToClient
| ToWorkQueue
| ToThread
| ToWaiter
| Rejected
| DroppedInvalid
| DroppedReply
| LostInWait.

(** Where a wait is in its loop. *)
Inductive phase := Dispatching | Checking | Waiting | TimedOut.

(** The calls the main thread is in, the innermost first.  [App] is code of a
    client, [InDispatch] code of a client called by [dispatchMessage]; the
    others are the loops and waits of the connection. *)
Inductive frame :=
| App
| InDispatch (i : nat) (marked oldInvalid : bool) (reply : option Z)
| RestoreInvalid (i : nat) (oldInvalid : bool)
| ClearHandlers (i : nat)
| CancelHandlers (i : nat) (ids : list Z)
| DispatchList (l : list (nat * msg))
| DispatchFor (i : nat) (l putBack : list (nat * msg))
| Batch (i : nat) (n : nat)
| WaitSync (i : nat) (requestID : Z) (p : phase)
| WaitBegin (i : nat) (name dest : Z) (interrupt dispatchSyncs : bool)
| WaitMessage (i : nat) (p : phase).

(** The process: its connections, the [SyncMessageState] they share, the main
    run loop and the main thread.  [received] and [fates] record the messages
    that came in and what became of them, [asyncCalls] the calls of reply
    handlers, with [true] for a reply and [false] for a cancellation. *)
Record world := mk_world {
  conns : list conn;
  m_messagesToDispatch : list (nat * msg);
  m_didSchedule : list nat;
  m_semaphore : bool;
  unboundedCount : Z;
  asyncReplyHandlerID : Z;
  tasks : list task;
  stack : list frame;
  received : list (nat * msg);
  fates : list (nat * msg * fate);
  asyncCalls : list (nat * Z * bool)
}.

Definition upd (i : nat) (f : conn -> conn) (W : world) : world := mk_world (alter f i (conns W))
  (m_messagesToDispatch W) (m_didSchedule W) (m_semaphore W) (unboundedCount W) (asyncReplyHandlerID W) (tasks W)
  (stack W) (received W) (fates W) (asyncCalls W).
Definition set_toDispatch l (W : world) : world := mk_world (conns W) l (m_didSchedule W) (m_semaphore W)
  (unboundedCount W) (asyncReplyHandlerID W) (tasks W) (stack W) (received W) (fates W) (asyncCalls W).
Definition set_didSchedule l (W : world) : world := mk_world (conns W) (m_messagesToDispatch W) l (m_semaphore W)
  (unboundedCount W) (asyncReplyHandlerID W) (tasks W) (stack W) (received W) (fates W) (asyncCalls W).
Definition set_semaphore b (W : world) : world := mk_world (conns W) (m_messagesToDispatch W) (m_didSchedule W) b
  (unboundedCount W) (asyncReplyHandlerID W) (tasks W) (stack W) (received W) (fates W) (asyncCalls W).
Definition set_unbounded n (W : world) : world := mk_world (conns W) (m_messagesToDispatch W) (m_didSchedule W)
  (m_semaphore W) n (asyncReplyHandlerID W) (tasks W) (stack W) (received W) (fates W) (asyncCalls W).
Definition set_asyncID n (W : world) : world := mk_world (conns W) (m_messagesToDispatch W) (m_didSchedule W)
  (m_semaphore W) (unboundedCount W) n (tasks W) (stack W) (received W) (fates W) (asyncCalls W).
Definition set_tasks l (W : world) : world := mk_world (conns W) (m_messagesToDispatch W) (m_didSchedule W)
  (m_semaphore W) (unboundedCount W) (asyncReplyHandlerID W) l (stack W) (received W) (fates W) (asyncCalls W).
Definition set_stack l (W : world) : world := mk_world (conns W) (m_messagesToDispatch W) (m_didSchedule W)
  (m_semaphore W) (unboundedCount W) (asyncReplyHandlerID W) (tasks W) l (received W) (fates W) (asyncCalls W).
Definition record_received i m (W : world) : world := mk_world (conns W) (m_messagesToDispatch W) (m_didSchedule W)
  (m_semaphore W) (unboundedCount W) (asyncReplyHandlerID W) (tasks W) (stack W) (received W ++ [(i, m)]) (fates W)
  (asyncCalls W).
Definition record_fate i m f (W : world) : world := mk_world (conns W) (m_messagesToDispatch W) (m_didSchedule W)
  (m_semaphore W) (unboundedCount W) (asyncReplyHandlerID W) (tasks W) (stack W) (received W) (fates W ++ [(i, m, f)])
  (asyncCalls W).
Definition record_call i id b (W : world) : world := mk_world (conns W) (m_messagesToDispatch W) (m_didSchedule W)
  (m_semaphore W) (unboundedCount W) (asyncReplyHandlerID W) (tasks W) (stack W) (received W) (fates W) (asyncCalls W
  ++ [(i, id, b)]).
Definition push (f : frame) (W : world) : world := set_stack (f :: stack W) W.
Definition dispatch (t : task) (W : world) : world := set_tasks (tasks W ++ [t]) W.

(** A fate for a message that may not be there. *)
Definition record_lost (i : nat) (om : option msg) (f : fate) (W : world) : world :=
  match om with Some m => record_fate i m f W | None => W end.

(** ** The connection queue *)

Definition hasOngoingUnboundedSyncIPC (W : world) : bool := 0 <? unboundedCount W.

(** Whether a message is dispatched while the main thread waits for a reply. *)
Definition dispatchable (m : msg) (W : world) : bool :=
  match dispatchMode m with
  | No => false
  | YesDuringUnboundedIPC => hasOngoingUnboundedSyncIPC W
  | Yes => true
  end.

Definition wakeUpClientRunLoop (W : world) : world := set_semaphore true W.

Definition notifyOne (i : nat) (W : world) : world := upd i (set_parked false) W.

(** [SyncMessageState::processIncomingMessage]; [None] is the result [false]. *)
Definition syncProcessIncomingMessage (i : nat) (m : msg) (W : world) : option world :=
  if dispatchable m W then
    let W1 := set_toDispatch (m_messagesToDispatch W ++ [(i, m)]) W in
    Some (wakeUpClientRunLoop
      (if bool_decide (i ∈ m_didSchedule W) then W1
       else dispatch (DispatchSyncFor i) (set_didSchedule (i :: m_didSchedule W) W1)))
  else None.

Definition enqueueIncomingMessage (i : nat) (m : msg) (c : conn) (W : world) : world :=
  let W1 := upd i (set_incoming (m_incomingMessages c ++ [m])) W in
  match m_throttlingLevel c with
  | Some _ => if zlen (m_incomingMessages c ++ [m]) =? 1 then dispatch (DispatchIncoming i) W1 else W1
  | None => dispatch (DispatchIncoming i) W1
  end.

(** The search of [processIncomingSyncReply], from the end: the new stack, the
    decoder that was there, and whether the request is the last one. *)
Fixpoint store_reply (m : msg) (l : list PendingSyncReply) : option (list PendingSyncReply * option msg * bool) :=
  match l with
  | [] => None
  | p :: rest =>
      match store_reply m rest with
      | Some (rest', old, last) => Some (p :: rest', old, last)
      | None =>
          if p_syncRequestID p =? destinationID m
          then Some (mk_pending (p_syncRequestID p) (Some m) true :: rest, replyDecoder p, bool_decide (length rest = 0%nat))
          else None
      end
  end.

Definition processIncomingSyncReply (i : nat) (m : msg) (c : conn) (W : world) : world :=
  match store_reply m (m_pendingSyncReplies c) with
  | Some (l, old, last) =>
      let W1 := record_lost i old DroppedReply (upd i (set_pending l) W) in
      if last then wakeUpClientRunLoop W1 else W1
  | None => record_fate i m DroppedReply W
  end.

(** [dispatchMessageToWorkQueueReceiver] and [dispatchMessageToThreadReceiver]. *)
Definition toWorkQueueReceiver (m : msg) (c : conn) : bool :=
  bool_decide (messageReceiverName m ∈ m_workQueueMessageReceivers c).

Definition toThreadReceiver (m : msg) (c : conn) : bool :=
  bool_decide (messageReceiverName m ∈ m_threadMessageReceivers c).

Definition is_for (name dest : Z) (m : msg) : bool := (messageName m =? name) && (destinationID m =? dest).

(** The part of [processIncomingMessage] under [m_waitForMessageMutex]; [None]
    when it does not return. *)
Definition offerToWaiter (i : nat) (m : msg) (c : conn) (W : world) : option world :=
  match m_waitingForMessage c with
  | Some w =>
      match w_decoder w with
      | Some _ => None
      | None =>
          if is_for (w_messageName w) (w_destinationID w) m then
            Some (notifyOne i (upd i (set_waiting (Some (mk_waitState (w_messageName w) (w_destinationID w)
              (interruptIfSync w) (dispatchSync w) (messageWaitingInterrupted w) (Some m)))) W))
          else
            match (if dispatchSync w && isSyncMessage m then syncProcessIncomingMessage i m W else None) with
            | Some W' => Some (notifyOne i W')
            | None =>
                if interruptIfSync w && isSyncMessage m then
                  let c' := set_parked false (set_waiting (Some (mk_waitState (w_messageName w) (w_destinationID w)
                    (interruptIfSync w) (dispatchSync w) true None)) c) in
                  Some (enqueueIncomingMessage i m c' (upd i (fun _ => c') W))
                else None
            end
      end
  | None => None
  end.

Definition processIncomingMessage (i : nat) (m : msg) (W : world) : option world :=
  c ← conns W !! i;
  let W := record_received i m W in
  if messageName m =? SyncMessageReply then Some (processIncomingSyncReply i m c W)
  else if negb (isValidReceiverKey (messageReceiverName m)) then
    Some (dispatch (ReportInvalid i (messageName m)) (record_fate i m Rejected W))
  else if toWorkQueueReceiver m c then Some (record_fate i m ToWorkQueue W)
  else if toThreadReceiver m c then Some (record_fate i m ToThread W)
  else
    let c1 := if isSyncMessage m then set_callbacks [] (m_nextIncomingSyncMessageCallbackID c) c else c in
    let W1 := upd i (fun _ => c1) W in
    match offerToWaiter i m c1 W1 with
    | Some W2 => Some W2
    | None =>
        match syncProcessIncomingMessage i m W1 with
        | Some W2 => Some W2
        | None => Some (enqueueIncomingMessage i m c1 W1)
        end
    end.

Definition platformInvalidate (c : conn) : conn := set_connected false c.

(** The main thread parks on the condition of one connection only, so
    [notifyAll] is [notifyOne]. *)
Definition connectionDidClose (i : nat) (W : world) : option world :=
  c ← conns W !! i;
  let c1 := set_waitReplies false (platformInvalidate c) in
  let c2 := set_waitMessages false
    (set_waiting (match m_waitingForMessage c1 with
                  | Some w => Some (mk_waitState (w_messageName w) (w_destinationID w) (interruptIfSync w)
                      (dispatchSync w) true (w_decoder w))
                  | None => None
                  end) c1) in
  let W1 := upd i (fun _ => set_parked false c2) W in
  let W2 := if bool_decide (length (m_pendingSyncReplies c) = 0%nat) then W1 else wakeUpClientRunLoop W1 in
  Some (dispatch (DidClose i) W2).

(** [sendOutgoingMessages], when the platform takes the first [n] messages. *)
Definition sendOutgoingMessages (i n : nat) (W : world) : option world :=
  c ← conns W !! i;
  if m_isConnected c then Some (upd i (set_outgoing (drop n (m_outgoingMessages c))) W) else None.

(** ** Sending *)

Definition createSyncMessageEncoder (c : conn) : Z * conn :=
  let id := u64 (m_syncRequestID c + 1) in (id, set_requestID id c).

(** The flags that [sendMessage] gives to a message. *)
Definition outgoing_mode (c : conn) (evenWhenWaiting evenUnbounded : bool) : ShouldDispatchWhenWaitingForSyncReply :=
  if evenWhenWaiting && (negb (m_onlySendMarked c) || negb (m_inDispatchMarkedCount c =? 0)) then Yes
  else if evenUnbounded then YesDuringUnboundedIPC
  else No.

Definition sendMessage (name dest : Z) (isSync : bool) (id : option Z) (evenWhenWaiting evenUnbounded : bool) (c : conn) : conn :=
  if m_isValid c then
    set_outgoing (m_outgoingMessages c ++ [mk_outgoing name dest isSync (outgoing_mode c evenWhenWaiting evenUnbounded) id]) c
  else c.

(** [sendWithAsyncReply]: [nextAsyncReplyHandlerID], [addAsyncReplyHandler] and
    the message. *)
Definition sendWithAsyncReply (i : nat) (name dest : Z) (evenWhenWaiting evenUnbounded : bool) (W : world) : option world :=
  c ← conns W !! i;
  let id := u64 (asyncReplyHandlerID W + 1) in
  let hs := match m_asyncReplyHandlers c with Some hs => hs | None => [] end in
  let c1 := set_handlers (Some (if bool_decide (id ∈ hs) then hs else id :: hs)) c in
  Some (upd i (fun _ => sendMessage name dest false (Some id) evenWhenWaiting evenUnbounded c1) (set_asyncID id W)).

(** [takeAsyncReplyHandler]: the connection afterwards, and whether there is a
    handler. *)
Definition takeAsyncReplyHandler (id : Z) (c : conn) : conn * bool :=
  match m_asyncReplyHandlers c with
  | None => (c, false)
  | Some hs =>
      if negb (isValidKey64 id) then (set_invalid true c, false)
      else if bool_decide (id ∈ hs) then (set_handlers (Some (filter (fun x => x <> id) hs)) c, true)
      else (c, false)
  end.

(** [clearAsyncReplyHandlers], up to the calls of the handlers. *)
Definition clearAsyncReplyHandlers (i : nat) (W : world) : option world :=
  c ← conns W !! i;
  let hs := match m_asyncReplyHandlers c with Some hs => hs | None => [] end in
  Some (push (CancelHandlers i hs) (upd i (set_handlers None) W)).

(** ** Dispatching on the main thread *)

(** The end of [dispatchMessage]. *)
Definition finishDispatch (i : nat) (marked oldInvalid valid : bool) (W : world) : option world :=
  c ← conns W !! i;
  let invalid := m_didReceiveInvalidMessage c || negb valid in
  let c1 := set_dispatches (u32 (m_inDispatchMessageCount c - 1))
    (if marked then u32 (m_inDispatchMarkedCount c - 1) else m_inDispatchMarkedCount c) (set_invalid invalid c) in
  Some (if invalid && m_isValid c
        then push App (push (RestoreInvalid i oldInvalid) (upd i (fun _ => c1) W))
        else upd i (fun _ => set_invalid oldInvalid c1) W).

(** What [dispatchSyncMessage] and [dispatchMessage(Decoder&)] do up to the call
    of a handler. *)
Inductive delivery :=
| Call (c : conn) (reply : option Z) (handler : option Z)
| Refuse (c : conn) (valid : bool).

(** [dispatchSyncMessage] *)
Definition dispatchSyncMessage (m : msg) (c : conn) : delivery :=
  match leadingID m with
  | Some id =>
      if id =? 0 then Refuse c false
      else if messageName m =? WrappedAsyncMessageForTesting then Refuse c false
      else Call c (Some id) None
  | None => Refuse c false
  end.

(** [dispatchMessage(Decoder&)] *)
Definition dispatchDecoder (m : msg) (c : conn) : delivery :=
  if messageReceiverName m =? AsyncReply then
    match leadingID m with
    | Some id => match takeAsyncReplyHandler id c with
                 | (c', true) => Call c' None (Some id)
                 | (c', false) => Refuse c' true
                 end
    | None => Refuse c false
    end
  else Call c None None.

Definition deliver (m : msg) (c : conn) : delivery :=
  if isSyncMessage m then dispatchSyncMessage m c else dispatchDecoder m c.

Definition dispatchMessage (i : nat) (m : msg) (W : world) : option world :=
  c ← conns W !! i;
  if negb (m_isValid c) then Some (record_fate i m DroppedInvalid W)
  else if toWorkQueueReceiver m c then Some (record_fate i m ToWorkQueue W)
  else if fullySynchronous m then Some (push App (record_fate i m Rejected W))
  else
    let marked := dispatchable m W in
    let old := m_didReceiveInvalidMessage c in
    let c1 := set_invalid false (set_dispatches (u32 (m_inDispatchMessageCount c + 1))
      (if marked then u32 (m_inDispatchMarkedCount c + 1) else m_inDispatchMarkedCount c) c) in
    match deliver m c1 with
    | Refuse c2 valid => finishDispatch i marked old valid (record_fate i m Rejected (upd i (fun _ => c2) W))
    | Call c2 reply handler =>
        let W1 := push (InDispatch i marked old reply) (record_fate i m ToClient (upd i (fun _ => c2) W)) in
        Some (match handler with Some id => record_call i id true W1 | None => W1 end)
    end.

Definition maxIncomingMessagesDispatchingBatchSize : Z := 600.
Definition maxThrottlingLevel : Z := 9.

(** [MessagesThrottler::numberOfMessagesToProcess]: the level afterwards, and
    the number of messages. *)
Definition numberOfMessagesToProcess (level total : Z) : Z * Z :=
  let batchSize := maxIncomingMessagesDispatchingBatchSize / (level + 1) in
  (if maxIncomingMessagesDispatchingBatchSize <? total then Z.min (level + 1) maxThrottlingLevel
   else if negb (level =? 0) then level - 1 else level,
   Z.min total batchSize).

Definition scheduleMessagesDispatch (i : nat) (level : Z) (W : world) : world :=
  if negb (level =? 0) then upd i (set_timer true) W else dispatch (DispatchIncoming i) W.

(** [takeFirst] of the incoming messages and the dispatch of the message. *)
Definition dispatchOneIncomingMessage (i : nat) (W : world) : option world :=
  c ← conns W !! i;
  match m_incomingMessages c with
  | [] => Some W
  | m :: rest => dispatchMessage i m (upd i (set_incoming rest) W)
  end.

(** The loop after the first message is the frame [Batch]. *)
Definition dispatchIncomingMessages (i : nat) (level : Z) (W : world) : option world :=
  c ← conns W !! i;
  match m_incomingMessages c with
  | [] => Some W
  | m :: rest =>
      let '(level', n) := numberOfMessagesToProcess level (zlen rest) in
      let W1 := upd i (fun c => set_level (Some level') (set_incoming rest c)) W in
      let W2 := if bool_decide (length rest = 0%nat) then W1 else scheduleMessagesDispatch i level' W1 in
      dispatchMessage i m (push (Batch i (Z.to_nat (n - 1))) W2)
  end.

(** [SyncMessageState::dispatchMessagesAndResetDidScheduleDispatchMessagesForConnection],
    up to its loop. *)
Definition dispatchMessagesForConnection (i : nat) (W : world) : world :=
  push (DispatchFor i (m_messagesToDispatch W) []) (set_toDispatch []
    (set_didSchedule (filter (fun j => j <> i) (m_didSchedule W)) W)).

Definition dispatchDidReceiveInvalidMessage (i : nat) (W : world) : option world :=
  c ← conns W !! i; Some (if m_isValid c then push App W else W).

(** The function that [connectionDidClose] dispatches to the main run loop. *)
Definition dispatchConnectionDidClose (i : nat) (W : world) : option world :=
  c ← conns W !! i;
  Some (if m_isValid c then push App (push (ClearHandlers i) (upd i (set_valid false) W)) else W).

(** A task of the run loop. *)
Definition run_task (t : task) (W : world) : option world :=
  match t with
  | DispatchIncoming i =>
      c ← conns W !! i;
      match m_throttlingLevel c with
      | Some level => dispatchIncomingMessages i level W
      | None => dispatchOneIncomingMessage i W
      end
  | DispatchSyncFor i => Some (dispatchMessagesForConnection i W)
  | ReportInvalid i _ => dispatchDidReceiveInvalidMessage i W
  | DidClose i => dispatchConnectionDidClose i W
  end.

(** The timer of the throttler. *)
Definition timerFired (i : nat) (W : world) : option world :=
  c ← conns W !! i;
  if m_timer c then
    match m_throttlingLevel c with
    | Some level => dispatchIncomingMessages i level (upd i (set_timer false) W)
    | None => None
    end
  else None.

(** ** Waiting *)

(** [SyncMessageState::dispatchMessages]: the swap; the loop is the frame. *)
Definition dispatchMessages (W : world) : world :=
  push (DispatchList (m_messagesToDispatch W)) (set_toDispatch [] W).

Definition sendSyncMessage (i : nat) (name dest : Z) (force : bool) (W : world) : option world :=
  c ← conns W !! i;
  let '(id, c1) := createSyncMessageEncoder c in
  if negb (m_isValid c) || negb (m_shouldWaitForSyncReplies c) then Some (upd i (fun _ => c1) W)
  else
    let c2 := set_sends (u32 (m_inSendSyncCount c + 1))
      (set_pending (m_pendingSyncReplies c ++ [mk_pending id None false]) c1) in
    Some (push (WaitSync i id Dispatching) (upd i (fun _ => sendMessage name dest true (Some id) true force c2) W)).

(** The end of [sendSyncMessage], with the reply that [waitForSyncReply]
    returns; a decoder that is left in the popped entry is destroyed. *)
Definition finishSendSync (i : nat) (reply left : option msg) (c : conn) (W : world) : world :=
  record_lost i left LostInWait (record_lost i reply ToWaiter
    (upd i (fun _ => set_sends (u32 (m_inSendSyncCount c - 1)) (set_pending (removelast (m_pendingSyncReplies c)) c)) W)).

(** One step of the loop of [waitForSyncReply]; [W] has the frames below. *)
Definition waitForSyncReply (i : nat) (id : Z) (p : phase) (W : world) : option world :=
  c ← conns W !! i;
  match p with
  | Dispatching => Some (dispatchMessages (push (WaitSync i id Checking) W))
  | Checking =>
      p ← last (m_pendingSyncReplies c);
      Some (if didReceiveReply p || negb (m_shouldWaitForSyncReplies c) then finishSendSync i (replyDecoder p) None c W
            else if negb (m_isValid c) then finishSendSync i None (replyDecoder p) c W
            else push (WaitSync i id Waiting) W)
  | Waiting => None
  | TimedOut => p ← last (m_pendingSyncReplies c); Some (finishSendSync i None (replyDecoder p) c W)
  end.

(** The search of [waitForMessage] in the incoming messages. *)
Fixpoint take_message (name dest : Z) (l : list msg) : option (msg * list msg) :=
  match l with
  | [] => None
  | m :: rest =>
      if is_for name dest m then Some (m, rest)
      else match take_message name dest rest with
           | Some (m', rest') => Some (m', m :: rest')
           | None => None
           end
  end.

Definition hasIncomingSyncMessage (c : conn) : bool := existsb isSyncMessage (m_incomingMessages c).

(** [waitForMessage] up to the point where it starts to wait, called by
    [waitForAndDispatchImmediately], which hands the message to the client. *)
Definition waitForMessage (i : nat) (name dest : Z) (interrupt dispatchSyncs : bool) (W : world) : option world :=
  c ← conns W !! i;
  Some (match take_message name dest (m_incomingMessages c) with
        | Some (m, rest) => push App (record_fate i m ToWaiter (upd i (set_incoming rest) W))
        | None =>
            if hasIncomingSyncMessage c && interrupt then W
            else push (WaitBegin i name dest interrupt dispatchSyncs) W
        end).

Definition beginWait (i : nat) (name dest : Z) (interrupt dispatchSyncs : bool) (W : world) : option world :=
  c ← conns W !! i;
  Some (match m_waitingForMessage c with
        | Some _ => W
        | None =>
            if m_shouldWaitForMessages c then
              push (WaitMessage i Dispatching)
                (upd i (set_waiting (Some (mk_waitState name dest interrupt dispatchSyncs false None))) W)
            else W
        end).

(** [m_waitingForMessage = nullptr], with what happens to a decoder in it. *)
Definition leaveWait (i : nat) (c : conn) (f : fate) (W : world) : world :=
  record_lost i (m_waitingForMessage c ≫= w_decoder) f (upd i (fun _ => set_parked false (set_waiting None c)) W).

(** One step of the loop of [waitForMessage]. *)
Definition waitForMessageStep (i : nat) (p : phase) (W : world) : option world :=
  c ← conns W !! i;
  match p with
  | Dispatching => Some (dispatchMessages (push (WaitMessage i Checking) W))
  | Checking =>
      w ← m_waitingForMessage c;
      Some (match w_decoder w with
            | Some _ => push App (leaveWait i c ToWaiter W)
            | None => push (WaitMessage i Waiting) (upd i (set_parked true) W)
            end)
  | Waiting => None
  | TimedOut => Some (leaveWait i c LostInWait W)
  end.

(** ** The machine *)

(** An operation that only changes the state of a connection. *)
Definition on_conn (i : nat) (f : conn -> conn) (W : world) : option world :=
  c ← conns W !! i; Some (upd i (fun _ => f c) W).

(** One step of the loops over messages; [W] has the frames below. *)
Definition dispatchList_step (l : list (nat * msg)) (W : world) : option world :=
  match l with
  | [] => Some W
  | (i, m) :: rest => dispatchMessage i m (push (DispatchList rest) W)
  end.

Definition dispatchFor_step (i : nat) (l putBack : list (nat * msg)) (W : world) : option world :=
  match l with
  | [] => Some (set_toDispatch (putBack ++ m_messagesToDispatch W) W)
  | (j, m) :: rest =>
      if bool_decide (i = j) then dispatchMessage j m (push (DispatchFor i rest putBack) W)
      else Some (push (DispatchFor i rest (putBack ++ [(j, m)])) W)
  end.

Definition batch_step (i n : nat) (W : world) : option world :=
  match n with
  | O => Some W
  | S n =>
      c ← conns W !! i;
      match m_incomingMessages c with
      | [] => Some W
      | m :: rest => dispatchMessage i m (push (Batch i n) (upd i (set_incoming rest) W))
      end
  end.

(** The loop of [clearAsyncReplyHandlers]. *)
Definition cancelHandlers_step (i : nat) (ids : list Z) (W : world) : option world :=
  match ids with
  | [] => Some W
  | id :: rest => Some (push App (push (CancelHandlers i rest) (record_call i id false W)))
  end.

(** One step of the main thread in a frame of the connection; [W] has the frames
    below.  Code of a client moves by [Act] and [Return]. *)
Definition main_step (f : frame) (W : world) : option world :=
  match f with
  | App | InDispatch _ _ _ _ => None
  | RestoreInvalid i old => on_conn i (set_invalid old) W
  | ClearHandlers i => clearAsyncReplyHandlers i W
  | CancelHandlers i ids => cancelHandlers_step i ids W
  | DispatchList l => dispatchList_step l W
  | DispatchFor i l putBack => dispatchFor_step i l putBack W
  | Batch i n => batch_step i n W
  | WaitSync i id p => waitForSyncReply i id p W
  | WaitBegin i name dest interrupt dispatchSyncs => beginWait i name dest interrupt dispatchSyncs W
  | WaitMessage i p => waitForMessageStep i p W
  end.

(** The main thread is woken up. *)
Definition wake (f : frame) (W : world) : option world :=
  match f with
  | WaitSync i id Waiting =>
      if m_semaphore W then Some (push (WaitSync i id Dispatching) (set_semaphore false W)) else None
  | WaitMessage i Waiting =>
      c ← conns W !! i;
      w ← m_waitingForMessage c;
      if m_parked c then None
      else Some (if messageWaitingInterrupted w then leaveWait i c LostInWait W
                 else push (WaitMessage i Dispatching) W)
  | _ => None
  end.

(** The time of a wait is over.  [BinarySemaphore::waitUntil] looks at the
    semaphore again before it says so. *)
Definition timeout (f : frame) (W : world) : option world :=
  match f with
  | WaitSync i id Waiting => if m_semaphore W then None else Some (push (WaitSync i id TimedOut) W)
  | WaitMessage i Waiting => Some (push (WaitMessage i TimedOut) W)
  | _ => None
  end.

(** The calls a client makes. *)
Inductive action :=
| Send (i : nat) (name dest : Z) (evenWhenWaiting evenUnbounded : bool)
| SendWithAsyncReply (i : nat) (name dest : Z) (evenWhenWaiting evenUnbounded : bool)
| SendSync (i : nat) (name dest : Z) (force : bool)
| WaitForAndDispatch (i : nat) (name dest : Z) (interrupt dispatchSyncs : bool)
| Invalidate (i : nat)
| MarkCurrentlyDispatchedMessageAsInvalid (i : nat)
| AddWorkQueueMessageReceiver (i : nat) (receiver : Z)
| RemoveWorkQueueMessageReceiver (i : nat) (receiver : Z)
| AddThreadMessageReceiver (i : nat) (receiver : Z)
| RemoveThreadMessageReceiver (i : nat) (receiver : Z)
| InstallIncomingSyncMessageCallback (i : nat)
| UninstallIncomingSyncMessageCallback (i : nat) (id : Z)
| EnableIncomingMessagesThrottling (i : nat)
| BeginUnboundedSynchronousIPC
| EndUnboundedSynchronousIPC
| IncrementMarkedCount (i : nat)
| DecrementMarkedCount (i : nat).

Definition set_add (x : Z) (l : list Z) : list Z := if bool_decide (x ∈ l) then l else x :: l.
Definition set_remove (x : Z) (l : list Z) : list Z := filter (fun y => y <> x) l.

Definition installIncomingSyncMessageCallback (c : conn) : conn :=
  let id := u64 (m_nextIncomingSyncMessageCallbackID c + 1) in
  set_callbacks (set_add id (m_incomingSyncMessageCallbacks c)) id c.

Definition enableIncomingMessagesThrottling (c : conn) : conn :=
  match m_throttlingLevel c with Some _ => c | None => set_level (Some 0) c end.

Definition uninstallIncomingSyncMessageCallback (id : Z) (c : conn) : conn :=
  set_callbacks (set_remove id (m_incomingSyncMessageCallbacks c)) (m_nextIncomingSyncMessageCallbackID c) c.

Definition addWorkQueueMessageReceiver (r : Z) (c : conn) : conn :=
  set_receivers (set_add r (m_workQueueMessageReceivers c)) c.
Definition removeWorkQueueMessageReceiver (r : Z) (c : conn) : conn :=
  set_receivers (set_remove r (m_workQueueMessageReceivers c)) c.
Definition addThreadMessageReceiver (r : Z) (c : conn) : conn :=
  set_threadReceivers (set_add r (m_threadMessageReceivers c)) c.
Definition removeThreadMessageReceiver (r : Z) (c : conn) : conn :=
  set_threadReceivers (set_remove r (m_threadMessageReceivers c)) c.

(** [invalidate]; the connection queue runs [platformInvalidate] later. *)
Definition invalidate (c : conn) : conn := set_valid false c.

Definition markCurrentlyDispatchedMessageAsInvalid (c : conn) : conn := set_invalid true c.

(** [incrementDispatchMessageMarkedDispatchWhenWaitingForSyncReplyCount] and its
    counterpart. *)
Definition incrementMarkedCount (c : conn) : conn := set_dispatches (m_inDispatchMessageCount c) (u32 (m_inDispatchMarkedCount c + 1)) c.
Definition decrementMarkedCount (c : conn) : conn := set_dispatches (m_inDispatchMessageCount c) (u32 (m_inDispatchMarkedCount c - 1)) c.

(** [sendSyncReply] *)
Definition sendSyncReply (id : Z) (c : conn) : conn := sendMessage SyncMessageReply id false None false false c.

Definition act (a : action) (W : world) : option world :=
  match a with
  | Send i name dest even unbounded => on_conn i (sendMessage name dest false None even unbounded) W
  | SendWithAsyncReply i name dest even unbounded => sendWithAsyncReply i name dest even unbounded W
  | SendSync i name dest force => sendSyncMessage i name dest force W
  | WaitForAndDispatch i name dest interrupt dispatchSyncs => waitForMessage i name dest interrupt dispatchSyncs W
  | Invalidate i => on_conn i invalidate W
  | MarkCurrentlyDispatchedMessageAsInvalid i => on_conn i markCurrentlyDispatchedMessageAsInvalid W
  | AddWorkQueueMessageReceiver i r => on_conn i (addWorkQueueMessageReceiver r) W
  | RemoveWorkQueueMessageReceiver i r => on_conn i (removeWorkQueueMessageReceiver r) W
  | AddThreadMessageReceiver i r => on_conn i (addThreadMessageReceiver r) W
  | RemoveThreadMessageReceiver i r => on_conn i (removeThreadMessageReceiver r) W
  | InstallIncomingSyncMessageCallback i => on_conn i installIncomingSyncMessageCallback W
  | UninstallIncomingSyncMessageCallback i id => on_conn i (uninstallIncomingSyncMessageCallback id) W
  | EnableIncomingMessagesThrottling i => on_conn i enableIncomingMessagesThrottling W
  | BeginUnboundedSynchronousIPC => Some (set_unbounded (u32 (unboundedCount W + 1)) W)
  | EndUnboundedSynchronousIPC => Some (set_unbounded (u32 (unboundedCount W - 1)) W)
  | IncrementMarkedCount i => on_conn i incrementMarkedCount W
  | DecrementMarkedCount i => on_conn i decrementMarkedCount W
  end.

(** Code of a client returns; a handler of a message keeps the encoder of its
    reply or takes it away, and may have found the message invalid. *)
Definition return_from (f : frame) (keepReply valid : bool) (W : world) : option world :=
  match f with
  | App => Some W
  | InDispatch i marked old reply =>
      W1 ← match reply with
           | Some id => if keepReply then on_conn i (sendSyncReply id) W else Some W
           | None => Some W
           end;
      finishDispatch i marked old valid W1
  | _ => None
  end.

(** What may happen next: the connection queue ([Incoming], [Closed],
    [PlatformInvalidate], [SendOutgoing]), a message sent by another thread, the
    main run loop, entered from the main function or from code of a client
    ([nested]), and the thread in one of its frames. *)
Inductive label :=
| Incoming (i : nat) (m : msg)
| Closed (i : nat)
| PlatformInvalidate (i : nat)
| SendOutgoing (i n : nat)
| ThreadSend (i : nat) (name dest : Z) (isSync evenWhenWaiting evenUnbounded : bool)
| RunTask (nested : bool)
| FireTimer (nested : bool) (i : nat)
| Enter
| Main
| Wake
| Timeout
| Act (a : action)
| Return (keepReply valid : bool).

Definition is_client (f : frame) : bool :=
  match f with App | InDispatch _ _ _ _ => true | _ => false end.

(** Whether the main thread can run its loop. *)
Definition in_loop (nested : bool) (W : world) : bool :=
  match stack W with
  | [] => negb nested
  | f :: _ => nested && is_client f
  end.

Definition exec (l : label) (W : world) : option world :=
  match l with
  | Incoming i m =>
      c ← conns W !! i; if m_isConnected c then processIncomingMessage i m W else None
  | Closed i =>
      c ← conns W !! i; if m_shouldWaitForSyncReplies c then connectionDidClose i W else None
  | PlatformInvalidate i =>
      c ← conns W !! i; if m_isValid c then None else Some (upd i platformInvalidate W)
  | SendOutgoing i n => sendOutgoingMessages i n W
  | ThreadSend i name dest isSync even unbounded => on_conn i (sendMessage name dest isSync None even unbounded) W
  | RunTask nested =>
      if in_loop nested W then
        match tasks W with
        | t :: ts => run_task t (set_tasks ts W)
        | [] => None
        end
      else None
  | FireTimer nested i => if in_loop nested W then timerFired i W else None
  | Enter => match stack W with [] => Some (push App W) | _ => None end
  | Main => match stack W with f :: fs => main_step f (set_stack fs W) | [] => None end
  | Wake => match stack W with f :: fs => wake f (set_stack fs W) | [] => None end
  | Timeout => match stack W with f :: fs => timeout f (set_stack fs W) | [] => None end
  | Act a => match stack W with f :: _ => if is_client f then act a W else None | [] => None end
  | Return keep valid =>
      match stack W with f :: fs => return_from f keep valid (set_stack fs W) | [] => None end
  end.

Fixpoint run (ls : list label) (W : world) : option world :=
  match ls with
  | [] => Some W
  | l :: ls => exec l W ≫= run ls
  end.

(** A process with its connections open. *)
Definition start (flags : list bool) : world :=
  mk_world (Connection_new <$> flags) [] [] false 0 0 [] [] [] [] [].

End Connection.
