(* ===== verification/IpcConnectionProps.v ===== *)
(** * Connections: no message is lost or duplicated

    The messages that came in are, at every moment, those that have a fate and
    those that are in a queue, in a loop of the main thread, in a pending reply
    or with a waiter. *)
From Stdlib Require Import Sorting.Permutation.
From stdpp Require Import gmap.
From S2P Require Import Prelude IpcEncoder IpcDecoder IpcConnection.

#[local] Open Scope cfetch_scope.

Module ConnectionProps.
Import Connection.

(** ** Messages in transit *)

Definition conn_msgs (c : conn) : list msg :=
  m_incomingMessages c ++ omap replyDecoder (m_pendingSyncReplies c) ++ option_list (m_waitingForMessage c ≫= w_decoder).

Definition frame_msgs (f : frame) : list (nat * msg) :=
  match f with
  | DispatchList l => l
  | DispatchFor _ l putBack => l ++ putBack
  | _ => []
  end.

Definition conns_msgs (l : list conn) : list (nat * msg) :=
  concat (imap (fun i c => pair i <$> conn_msgs c) l).

Definition transit (W : world) : list (nat * msg) :=
  conns_msgs (conns W) ++ m_messagesToDispatch W ++ concat (frame_msgs <$> stack W).

(** ** Counting *)

Definition occ (x : nat * msg) (l : list (nat * msg)) : Z := Z.of_nat (count_occ (decide_rel eq) l x).

Lemma occ_nil x : occ x [] = 0.
Proof. reflexivity. Qed.

Lemma occ_app x l k : occ x (l ++ k) = occ x l + occ x k.
Proof. unfold occ. rewrite count_occ_app. lia. Qed.

Lemma occ_cons x y l : occ x (y :: l) = occ x [y] + occ x l.
Proof. apply (occ_app x [y] l). Qed.


(** Messages with a fate and in transit, less the messages received. *)
Definition surplus (x : nat * msg) (W : world) : Z :=
  occ x ((fates W).*1) + occ x (transit W) - occ x (received W).

Definition at_conn (x : nat * msg) (i : nat) (c : conn) : Z := occ x (pair i <$> conn_msgs c).

Lemma imap_alter_occ x (f : conn -> conn) l i c k :
  l !! i = Some c ->
  occ x (concat (imap (fun j c => pair (k + j)%nat <$> conn_msgs c) (alter f i l))) =
  occ x (concat (imap (fun j c => pair (k + j)%nat <$> conn_msgs c) l))
    + at_conn x (k + i) (f c) - at_conn x (k + i) c.
Proof.
  revert i k. induction l as [|d l IH]; intros i k H; [done|].
  destruct i as [|i]; cbn in H.
  - injection H as ->. unfold at_conn. cbn. rewrite !occ_app, Nat.add_0_r. lia.
  - cbn. rewrite !occ_app.
    specialize (IH i (S k) H).
    replace (k + S i)%nat with (S k + i)%nat by lia.
    rewrite !(imap_ext ((λ (j : nat) (c0 : conn), pair (k + j)%nat <$> conn_msgs c0) ∘ S)
      (λ j c0, pair (S k + j)%nat <$> conn_msgs c0)).
    + rewrite IH. lia.
    + intros; cbn. by rewrite Nat.add_succ_r.
    + intros; cbn. by rewrite Nat.add_succ_r.
Qed.

Lemma surplus_upd x i f c W :
  conns W !! i = Some c -> surplus x (upd i f W) = surplus x W + at_conn x i (f c) - at_conn x i c.
Proof.
  intros H. unfold surplus, transit, conns_msgs. cbn [upd conns fates received m_messagesToDispatch stack].
  rewrite !occ_app. pose proof (imap_alter_occ x f _ i c 0 H) as E. cbn in E. cbn. lia.
Qed.

Lemma surplus_fate x i m f W : surplus x (record_fate i m f W) = surplus x W + occ x [(i, m)].
Proof. unfold surplus. cbn [record_fate fates received]. rewrite fmap_app, occ_app. change (transit (record_fate i m f W)) with (transit W). cbn [fmap list_fmap fst]. lia. Qed.

Lemma surplus_received x i m W : surplus x (record_received i m W) = surplus x W - occ x [(i, m)].
Proof. unfold surplus. cbn [record_received fates received]. rewrite occ_app. change (transit (record_received i m W)) with (transit W). lia. Qed.

(** The stack and the list of the waits, against the same state with others. *)
Lemma surplus_frames x W l fs :
  surplus x (set_toDispatch l (set_stack fs W)) =
  surplus x W + occ x l + occ x (concat (frame_msgs <$> fs))
    - occ x (m_messagesToDispatch W) - occ x (concat (frame_msgs <$> stack W)).
Proof.
  unfold surplus, transit. cbn [set_toDispatch set_stack fates received conns m_messagesToDispatch stack].
  rewrite !occ_app. lia.
Qed.

Lemma surplus_push x f W : surplus x (push f W) = surplus x W + occ x (frame_msgs f).
Proof.
  change (push f W) with (set_toDispatch (m_messagesToDispatch W) (set_stack (f :: stack W) W)).
  rewrite surplus_frames. cbn [fmap list_fmap concat]. rewrite occ_app. lia.
Qed.

Lemma surplus_toDispatch x l W :
  surplus x (set_toDispatch l W) = surplus x W + occ x l - occ x (m_messagesToDispatch W).
Proof.
  change (set_toDispatch l W) with (set_toDispatch l (set_stack (stack W) W)). rewrite surplus_frames. lia.
Qed.

Lemma surplus_pop x f fs W :
  stack W = f :: fs -> surplus x (set_stack fs W) = surplus x W - occ x (frame_msgs f).
Proof.
  intros H. change (set_stack fs W) with (set_toDispatch (m_messagesToDispatch W) (set_stack fs W)).
  rewrite surplus_frames, H. cbn [fmap list_fmap concat]. rewrite occ_app. lia.
Qed.

(** The other fields do not count. *)
Lemma surplus_didSchedule x l W : surplus x (set_didSchedule l W) = surplus x W.
Proof. reflexivity. Qed.
Lemma surplus_semaphore x b W : surplus x (set_semaphore b W) = surplus x W.
Proof. reflexivity. Qed.
Lemma surplus_tasks x l W : surplus x (set_tasks l W) = surplus x W.
Proof. reflexivity. Qed.
Lemma surplus_dispatch x t W : surplus x (dispatch t W) = surplus x W.
Proof. reflexivity. Qed.
Lemma surplus_asyncID x l W : surplus x (set_asyncID l W) = surplus x W.
Proof. reflexivity. Qed.
Lemma surplus_call x i id b W : surplus x (record_call i id b W) = surplus x W.
Proof. reflexivity. Qed.

Lemma surplus_lost x i om f W :
  surplus x (record_lost i om f W) = surplus x W + occ x (pair i <$> option_list om).
Proof. destruct om; [apply surplus_fate|change (surplus x W = surplus x W + 0); lia]. Qed.

Lemma lookup_upd W i f c : conns W !! i = Some c -> conns (upd i f W) !! i = Some (f c).
Proof. intros H. cbn. by rewrite list_lookup_alter_eq, H. Qed.

Lemma at_conn_eq x i c :
  at_conn x i c = occ x (pair i <$> m_incomingMessages c) + occ x (pair i <$> omap replyDecoder (m_pendingSyncReplies c))
    + occ x (pair i <$> option_list (m_waitingForMessage c ≫= w_decoder)).
Proof. unfold at_conn, conn_msgs. rewrite !fmap_app, !occ_app. lia. Qed.

Create Rewrite HintDb surplus.
#[local] Hint Rewrite surplus_fate surplus_received surplus_push surplus_toDispatch surplus_didSchedule
  surplus_semaphore surplus_tasks surplus_dispatch surplus_asyncID surplus_call surplus_lost : surplus.

(** Goals about the surplus of a computed state: rewrite what the helpers add,
    the updates of a connection with the state it has there. *)
Ltac conn_here :=
  cbn [conns upd push set_stack set_toDispatch set_didSchedule set_semaphore set_tasks dispatch record_fate
    record_received record_call set_asyncID wakeUpClientRunLoop notifyOne];
  rewrite ?list_lookup_alter_eq; repeat match goal with H : conns _ !! _ = Some _ |- _ => rewrite H end; reflexivity.

Ltac surplus :=
  repeat (autorewrite with surplus;
    try match goal with
    | |- context [surplus ?x (upd ?i ?f ?W)] =>
        let c := fresh "c" in evar (c : conn); let v := eval unfold c in c in clear c;
        rewrite (surplus_upd x i f v W) by conn_here
    end);
  rewrite ?at_conn_eq; cbn; rewrite ?occ_nil, ?app_nil_r, ?occ_app; try lia.

(** ** The connection queue *)

Lemma surplus_enqueue x i m c W :
  conns W !! i = Some c -> surplus x (enqueueIncomingMessage i m c W) = surplus x W + occ x [(i, m)].
Proof.
  intros H. unfold enqueueIncomingMessage.
  destruct (m_throttlingLevel c); [destruct (_ =? 1)|]; surplus; rewrite ?fmap_app, ?occ_app; cbn; lia.
Qed.

Lemma surplus_syncProcess x i m W W' :
  syncProcessIncomingMessage i m W = Some W' -> surplus x W' = surplus x W + occ x [(i, m)].
Proof.
  unfold syncProcessIncomingMessage, wakeUpClientRunLoop. destruct (dispatchable m W); [|done]. intros [= <-].
  destruct (bool_decide _); surplus.
Qed.

Lemma occ_replies x i p l :
  occ x (pair i <$> omap replyDecoder (p :: l)) =
  occ x (pair i <$> option_list (replyDecoder p)) + occ x (pair i <$> omap replyDecoder l).
Proof. rewrite <- occ_app, <- fmap_app. cbn. by destruct (replyDecoder p). Qed.

Lemma store_reply_occ x i m l l' old last :
  store_reply m l = Some (l', old, last) ->
  occ x (pair i <$> omap replyDecoder l') + occ x (pair i <$> option_list old) =
  occ x (pair i <$> omap replyDecoder l) + occ x [(i, m)].
Proof.
  revert l' old last. induction l as [|p l IH]; intros l' old last; cbn [store_reply]; [done|].
  destruct (store_reply m l) as [[[rest o] la]|] eqn:E.
  - intros [= <- <- <-]. specialize (IH _ _ _ eq_refl). rewrite !occ_replies. lia.
  - destruct (_ =? _); [|done]. intros [= <- <- <-]. rewrite !occ_replies. cbn [replyDecoder]. change (pair i <$> option_list (Some m)) with [(i, m)]. lia.
Qed.

Lemma surplus_syncReply x i m c W :
  conns W !! i = Some c -> surplus x (processIncomingSyncReply i m c W) = surplus x W + occ x [(i, m)].
Proof.
  intros H. unfold processIncomingSyncReply, wakeUpClientRunLoop.
  destruct (store_reply m (m_pendingSyncReplies c)) as [[[l old] last]|] eqn:E; [|surplus].
  pose proof (store_reply_occ x i _ _ _ _ _ E). destruct last; surplus.
Qed.

Lemma surplus_offer x i m c W W' :
  conns W !! i = Some c -> offerToWaiter i m c W = Some W' -> surplus x W' = surplus x W + occ x [(i, m)].
Proof.
  intros H. unfold offerToWaiter, notifyOne.
  destruct (m_waitingForMessage c) as [w|] eqn:Ew; [|done]. destruct (w_decoder w) eqn:Ed; [done|].
  destruct (is_for _ _ m).
  { intros [= <-]. surplus. rewrite Ew. cbn. rewrite Ed. cbn. rewrite ?occ_nil. lia. }
  destruct (if dispatchSync w && isSyncMessage m then _ else _) as [W1|] eqn:E.
  - intros [= <-]. destruct (dispatchSync w && isSyncMessage m); [|done].
    assert (conns W1 = conns W) as HW1.
    { unfold syncProcessIncomingMessage in E. destruct (dispatchable m W); [|done]. injection E as <-. by destruct (bool_decide _). }
    rewrite <- HW1 in H. rewrite (surplus_upd x i _ c W1 H), (surplus_syncProcess _ _ _ _ _ E), !at_conn_eq. cbn. lia.
  - clear E. destruct (interruptIfSync w && _); [|done]. intros [= <-]. rewrite surplus_enqueue by conn_here. surplus. rewrite Ew. cbn. rewrite Ed. cbn. rewrite ?occ_nil. lia.
Qed.

Lemma surplus_incoming x i m W W' : processIncomingMessage i m W = Some W' -> surplus x W' = surplus x W.
Proof.
  unfold processIncomingMessage. destruct (conns W !! i) as [c|] eqn:Hc; [|done]. cbn [mbind option_bind].
  pose proof (surplus_received x i m W) as HR. set (W0 := record_received i m W) in *.
  assert (conns W0 !! i = Some c) as H by done.
  destruct (_ =? _); [intros [= <-]; rewrite surplus_syncReply by done; lia|].
  destruct (negb _); [intros [= <-]; autorewrite with surplus; lia|].
  destruct (toWorkQueueReceiver m c); [intros [= <-]; autorewrite with surplus; lia|].
  destruct (toThreadReceiver m c); [intros [= <-]; autorewrite with surplus; lia|].
  set (c1 := if isSyncMessage m then _ else _). set (W1 := upd i (fun _ => c1) W0).
  assert (conns W1 !! i = Some c1) as H1 by exact (lookup_upd _ _ (fun _ => c1) _ H).
  assert (surplus x W1 = surplus x W0) as HS.
  { unfold W1. rewrite (surplus_upd _ _ _ c) by done. unfold c1. destruct (isSyncMessage m); rewrite !at_conn_eq; cbn; lia. }
  destruct (offerToWaiter i m c1 W1) as [W2|] eqn:E1;
    [intros [= <-]; rewrite (surplus_offer x _ _ _ _ _ H1 E1); lia|].
  destruct (syncProcessIncomingMessage i m W1) as [W2|] eqn:E2;
    [intros [= <-]; rewrite (surplus_syncProcess x _ _ _ _ E2); lia|].
  intros [= <-]. rewrite surplus_enqueue by done. lia.
Qed.

Lemma surplus_didClose x i W W' : connectionDidClose i W = Some W' -> surplus x W' = surplus x W.
Proof.
  unfold connectionDidClose, wakeUpClientRunLoop. destruct (conns W !! i) as [c|] eqn:Hc; [|done]. intros [= <-].
  destruct (bool_decide _); surplus; destruct (m_waitingForMessage c); cbn; lia.
Qed.

(** ** The main thread *)

(** Operations on one connection that leave its messages alone. *)
Lemma surplus_on_conn x i f W W' :
  on_conn i f W = Some W' -> (forall c, conn_msgs (f c) = conn_msgs c) -> surplus x W' = surplus x W.
Proof.
  unfold on_conn. destruct (conns W !! i) as [c|] eqn:Hc; [|done]. intros [= <-] Hf.
  rewrite (surplus_upd _ _ _ c) by done. unfold at_conn. rewrite Hf. lia.
Qed.

Lemma sendMessage_msgs name dest sync id e u c : conn_msgs (sendMessage name dest sync id e u c) = conn_msgs c.
Proof. unfold sendMessage. by destruct (m_isValid c). Qed.

Lemma surplus_finishDispatch x i marked old valid W W' :
  finishDispatch i marked old valid W = Some W' -> surplus x W' = surplus x W.
Proof.
  unfold finishDispatch. destruct (conns W !! i) as [c|] eqn:Hc; [|done]. intros [= <-].
  destruct (_ && _); surplus.
Qed.

Lemma deliver_msgs m c :
  match deliver m c with Call c' _ _ | Refuse c' _ => conn_msgs c' = conn_msgs c end.
Proof.
  unfold deliver, dispatchSyncMessage, dispatchDecoder, takeAsyncReplyHandler.
  repeat match goal with |- context [match ?e with _ => _ end] => lazymatch e with
    | context [match _ with _ => _ end] => fail | _ => destruct e end end; reflexivity.
Qed.

Lemma surplus_dispatchMessage x i m W W' :
  dispatchMessage i m W = Some W' -> surplus x W' = surplus x W + occ x [(i, m)].
Proof.
  unfold dispatchMessage. destruct (conns W !! i) as [c|] eqn:Hc; [|done]. cbn [mbind option_bind].
  destruct (negb _); [intros [= <-]; surplus|]. destruct (toWorkQueueReceiver m c); [intros [= <-]; surplus|].
  destruct (fullySynchronous m); [intros [= <-]; surplus|].
  set (c1 := set_invalid _ _). assert (conn_msgs c1 = conn_msgs c) as E1 by done.
  pose proof (deliver_msgs m c1) as E2. destruct (deliver m c1) as [c2 reply handler|c2 valid].
  - intros [= <-]. assert (at_conn x i c2 = at_conn x i c) by (unfold at_conn; congruence).
    destruct handler; autorewrite with surplus; rewrite (surplus_upd _ _ _ c) by done; cbn [frame_msgs]; rewrite occ_nil; lia.
  - intros H. rewrite (surplus_finishDispatch x _ _ _ _ _ _ H). autorewrite with surplus.
    rewrite (surplus_upd _ _ _ c) by done. assert (at_conn x i c2 = at_conn x i c) by (unfold at_conn; congruence). lia.
Qed.

Lemma surplus_cons x i m l : occ x (pair i <$> m :: l) = occ x [(i, m)] + occ x (pair i <$> l).
Proof. apply (occ_cons x (i, m)). Qed.

(** Take a message out of the incoming messages and dispatch it. *)
Lemma surplus_take x i m rest f c W :
  conns W !! i = Some c -> m_incomingMessages c = m :: rest ->
  conn_msgs (f c) = conn_msgs (set_incoming rest c) ->
  surplus x (upd i f W) = surplus x W - occ x [(i, m)].
Proof.
  intros H Em Ef. rewrite (surplus_upd x i f c W H). unfold at_conn. rewrite Ef.
  change (surplus x W + at_conn x i (set_incoming rest c) - at_conn x i c = surplus x W - occ x [(i, m)]).
  rewrite !at_conn_eq. cbn [set_incoming m_incomingMessages m_pendingSyncReplies m_waitingForMessage].
  rewrite Em, surplus_cons. lia.
Qed.

Lemma surplus_schedule x i level W c : conns W !! i = Some c -> surplus x (scheduleMessagesDispatch i level W) = surplus x W.
Proof. intros H. unfold scheduleMessagesDispatch. destruct (negb _); surplus. Qed.

Lemma surplus_dispatchOne x i W W' : dispatchOneIncomingMessage i W = Some W' -> surplus x W' = surplus x W.
Proof.
  unfold dispatchOneIncomingMessage. destruct (conns W !! i) as [c|] eqn:Hc; [|done]. cbn [mbind option_bind].
  destruct (m_incomingMessages c) as [|m rest] eqn:Em; [by intros [= <-]|].
  intros H. rewrite (surplus_dispatchMessage x _ _ _ _ H), (surplus_take x i m rest _ c) by done. lia.
Qed.

Lemma surplus_dispatchIncoming x i level W W' : dispatchIncomingMessages i level W = Some W' -> surplus x W' = surplus x W.
Proof.
  unfold dispatchIncomingMessages. destruct (conns W !! i) as [c|] eqn:Hc; [|done]. cbn [mbind option_bind].
  destruct (m_incomingMessages c) as [|m rest] eqn:Em; [by intros [= <-]|].
  destruct (numberOfMessagesToProcess level (zlen rest)) as [level' n].
  set (f := fun c => set_level (Some level') (set_incoming rest c)).
  pose proof (surplus_take x i m rest f c W Hc Em eq_refl) as HT. pose proof (lookup_upd _ _ f _ Hc) as Hl.
  intros H. rewrite (surplus_dispatchMessage x _ _ _ _ H), surplus_push. cbn [frame_msgs]. rewrite occ_nil.
  destruct (bool_decide _); [lia|]. rewrite (surplus_schedule _ _ _ _ _ Hl). lia.
Qed.

Lemma surplus_task x t W W' : run_task t W = Some W' -> surplus x W' = surplus x W.
Proof.
  destruct t as [i|i|i name|i]; cbn [run_task];
    unfold dispatchMessagesForConnection, dispatchDidReceiveInvalidMessage, dispatchConnectionDidClose; [|intros [= <-]| |];
    try (destruct (conns W !! i) as [c|] eqn:Hc; [|done]; cbn [mbind option_bind]).
  - destruct (m_throttlingLevel c); [apply surplus_dispatchIncoming|apply surplus_dispatchOne].
  - surplus.
  - intros [= <-]. destruct (m_isValid c); surplus.
  - intros [= <-]. destruct (m_isValid c); surplus.
Qed.

Lemma surplus_timer x i W W' : timerFired i W = Some W' -> surplus x W' = surplus x W.
Proof.
  unfold timerFired. destruct (conns W !! i) as [c|] eqn:Hc; [|done]. cbn [mbind option_bind].
  destruct (m_timer c); [|done]. destruct (m_throttlingLevel c); [|done].
  intros H. rewrite (surplus_dispatchIncoming x _ _ _ _ H). surplus.
Qed.

Lemma surplus_dispatchMessages x W : surplus x (dispatchMessages W) = surplus x W.
Proof. unfold dispatchMessages. autorewrite with surplus. cbn [frame_msgs]. rewrite occ_nil. lia. Qed.

Lemma occ_removelast x i l p :
  last l = Some p ->
  occ x (pair i <$> omap replyDecoder l) =
  occ x (pair i <$> omap replyDecoder (removelast l)) + occ x (pair i <$> option_list (replyDecoder p)).
Proof.
  induction l as [|q l IH]; [done|]. destruct l as [|r l].
  - intros [= ->]. rewrite occ_replies. cbn. lia.
  - intros H. specialize (IH H). change (removelast (q :: r :: l)) with (q :: removelast (r :: l)).
    rewrite (occ_replies x i q (r :: l)), (occ_replies x i q (removelast _)), IH. lia.
Qed.

Lemma surplus_finishSendSync x i reply left c p W :
  conns W !! i = Some c -> last (m_pendingSyncReplies c) = Some p ->
  reply = replyDecoder p /\ left = None \/ reply = None /\ left = replyDecoder p ->
  surplus x (finishSendSync i reply left c W) = surplus x W.
Proof.
  intros H Hl Hr. unfold finishSendSync. pose proof (occ_removelast x i _ _ Hl).
  autorewrite with surplus. rewrite (surplus_upd _ _ _ c) by done.
  rewrite !at_conn_eq. cbn [set_sends set_pending m_incomingMessages m_pendingSyncReplies m_waitingForMessage].
  destruct Hr as [[-> ->]|[-> ->]]; cbn [option_list fmap list_fmap]; rewrite occ_nil; lia.
Qed.

Lemma surplus_leaveWait x i c f W :
  conns W !! i = Some c -> surplus x (leaveWait i c f W) = surplus x W.
Proof.
  intros H. unfold leaveWait. autorewrite with surplus. rewrite (surplus_upd _ _ _ c) by done. rewrite !at_conn_eq.
  cbn [set_parked set_waiting m_incomingMessages m_pendingSyncReplies m_waitingForMessage option_list mbind option_bind].
  cbn [fmap list_fmap]. rewrite occ_nil. unfold mbind. lia.
Qed.

Ltac conn_of W i c Hc :=
  destruct (conns W !! i) as [c|] eqn:Hc; [|done]; cbn [mbind option_bind].

Lemma surplus_waitForSyncReply x i id p W W' : waitForSyncReply i id p W = Some W' -> surplus x W' = surplus x W.
Proof.
  unfold waitForSyncReply. conn_of W i c Hc.
  destruct p; [intros <-%(inj Some); rewrite surplus_dispatchMessages; surplus| |done|];
    destruct (last (m_pendingSyncReplies c)) as [p|] eqn:Hl; try done; cbn [mbind option_bind]; intros <-%(inj Some).
  - destruct (_ || _); [apply (surplus_finishSendSync _ _ _ _ _ p); auto|].
    destruct (negb _); [apply (surplus_finishSendSync _ _ _ _ _ p); auto|surplus].
  - apply (surplus_finishSendSync _ _ _ _ _ p); auto.
Qed.

Lemma surplus_waitForMessageStep x i p W W' : waitForMessageStep i p W = Some W' -> surplus x W' = surplus x W.
Proof.
  unfold waitForMessageStep. conn_of W i c Hc.
  destruct p; [intros <-%(inj Some); rewrite surplus_dispatchMessages; surplus| |done|].
  - destruct (m_waitingForMessage c) as [w|] eqn:Ew; [|done]. cbn [mbind option_bind]. intros <-%(inj Some).
    destruct (w_decoder w); [rewrite surplus_push, surplus_leaveWait by done; cbn; rewrite occ_nil; lia|surplus].
  - intros <-%(inj Some). by apply surplus_leaveWait.
Qed.

Lemma take_message_occ x i name dest l m rest :
  take_message name dest l = Some (m, rest) -> occ x (pair i <$> l) = occ x [(i, m)] + occ x (pair i <$> rest).
Proof.
  revert rest. induction l as [|n l IH]; intros rest; cbn [take_message]; [done|].
  destruct (is_for name dest n); [intros [= <- <-]; apply surplus_cons|].
  destruct (take_message name dest l) as [[m' rest']|]; [|done]. intros [= <- <-].
  rewrite !(surplus_cons x i n), (IH rest') by done. lia.
Qed.

Lemma surplus_waitForMessage x i name dest b d W W' : waitForMessage i name dest b d W = Some W' -> surplus x W' = surplus x W.
Proof.
  unfold waitForMessage. conn_of W i c Hc. intros <-%(inj Some).
  destruct (take_message name dest (m_incomingMessages c)) as [[m rest]|] eqn:E; [|destruct (_ && _); [done|surplus]].
  rewrite surplus_push, surplus_fate, (surplus_upd _ _ _ c) by done. rewrite !at_conn_eq.
  cbn [set_incoming m_incomingMessages m_pendingSyncReplies m_waitingForMessage frame_msgs].
  rewrite (take_message_occ x i _ _ _ _ _ E), occ_nil. lia.
Qed.

Lemma surplus_beginWait x i name dest b d W W' : beginWait i name dest b d W = Some W' -> surplus x W' = surplus x W.
Proof.
  unfold beginWait. conn_of W i c Hc. intros <-%(inj Some). destruct (m_waitingForMessage c) as [w|] eqn:Ew; [done|].
  destruct (m_shouldWaitForMessages c); [|done]. surplus. rewrite Ew. cbn. rewrite ?occ_nil. lia.
Qed.

Lemma surplus_main x f W W' : main_step f W = Some W' -> surplus x W' = surplus x W + occ x (frame_msgs f).
Proof.
  destruct f as [|i marked old reply|i old|i|i ids|l|i l pb|i n|i id p|i name dest b d|i p]; cbn [main_step frame_msgs];
    unfold cancelHandlers_step, dispatchList_step, dispatchFor_step, batch_step;
    rewrite ?occ_nil, ?Z.add_0_r; try done.
  - intros H. by apply (surplus_on_conn x _ _ _ _ H).
  - unfold clearAsyncReplyHandlers. conn_of W i c Hc. intros <-%(inj Some). surplus.
  - destruct ids; intros <-%(inj Some); surplus.
  - destruct l as [|[i m] l]; [intros <-%(inj Some); rewrite occ_nil; lia|]. intros H.
    rewrite (surplus_dispatchMessage x _ _ _ _ H), surplus_push, (occ_cons x (i, m) l). cbn [frame_msgs]. lia.
  - destruct l as [|[j m] l]; [intros <-%(inj Some); rewrite surplus_toDispatch, !occ_app, ?occ_nil; lia|].
    cbn [app]. rewrite (occ_cons x (j, m)). destruct (bool_decide _); intros H.
    + rewrite (surplus_dispatchMessage x _ _ _ _ H), surplus_push. cbn [frame_msgs]. lia.
    + injection H as <-. rewrite surplus_push. cbn [frame_msgs]. rewrite !occ_app. lia.
  - destruct n as [|n]; [by intros <-%(inj Some)|]. conn_of W i c Hc.
    destruct (m_incomingMessages c) as [|m rest] eqn:Em; [by intros <-%(inj Some)|].
    intros H. rewrite (surplus_dispatchMessage x _ _ _ _ H), surplus_push, (surplus_take x i m rest _ c) by done.
    cbn [frame_msgs]. rewrite occ_nil. lia.
  - apply surplus_waitForSyncReply.
  - apply surplus_beginWait.
  - apply surplus_waitForMessageStep.
Qed.

Lemma surplus_wake x f W W' : wake f W = Some W' -> surplus x W' = surplus x W + occ x (frame_msgs f).
Proof.
  destruct f as [| | | | | | | |i id p| |i p]; cbn [wake frame_msgs]; try done; destruct p; try done; rewrite occ_nil, Z.add_0_r.
  - destruct (m_semaphore W); [|done]. intros <-%(inj Some). surplus.
  - conn_of W i c Hc. destruct (m_waitingForMessage c) as [w|]; [|done]. cbn [mbind option_bind].
    destruct (m_parked c); [done|]. intros <-%(inj Some).
    destruct (messageWaitingInterrupted w); [by apply surplus_leaveWait|surplus].
Qed.

Lemma surplus_timeout x f W W' : timeout f W = Some W' -> surplus x W' = surplus x W + occ x (frame_msgs f).
Proof.
  destruct f as [| | | | | | | |i id p| |i p]; cbn [timeout frame_msgs]; try done; destruct p; try done; rewrite occ_nil, Z.add_0_r.
  - destruct (m_semaphore W); [done|]. intros <-%(inj Some). surplus.
  - intros <-%(inj Some). surplus.
Qed.

Lemma surplus_act x a W W' : act a W = Some W' -> surplus x W' = surplus x W.
Proof.
  destruct a as [i n d e u|i n d e u|i n d f|i n d b s|i|i|i r|i r|i r|i r|i|i id|i| | |i|i]; cbn [act];
    try (intros H; refine (surplus_on_conn _ _ _ _ _ H _); intros c; first [apply sendMessage_msgs|reflexivity]).
  - unfold sendWithAsyncReply. conn_of W i c Hc. intros <-%(inj Some).
    change (surplus x (upd i (fun _ => sendMessage n d false (Some (u64 (asyncReplyHandlerID W + 1))) e u (set_handlers (Some (set_add (u64 (asyncReplyHandlerID W + 1)) (default [] (m_asyncReplyHandlers c)))) c)) (set_asyncID (u64 (asyncReplyHandlerID W + 1)) W)) = surplus x W).
    rewrite (surplus_upd _ _ _ c) by done. unfold at_conn. rewrite sendMessage_msgs.
    change (conn_msgs (set_handlers _ c)) with (conn_msgs c). rewrite surplus_asyncID. lia.
  - unfold sendSyncMessage. conn_of W i c Hc. destruct (createSyncMessageEncoder c) as [id c1] eqn:E.
    injection E as <- <-. destruct (_ || _); intros <-%(inj Some); [surplus|].
    rewrite surplus_push, (surplus_upd _ _ _ c) by done. unfold at_conn. rewrite sendMessage_msgs.
    fold (at_conn x i c). match goal with |- context [conn_msgs ?d] => fold (at_conn x i d) end.
    rewrite !at_conn_eq. cbn. rewrite omap_app. cbn. rewrite app_nil_r, occ_nil. lia.
  - apply surplus_waitForMessage.
  - unfold enableIncomingMessagesThrottling. intros H. refine (surplus_on_conn _ _ _ _ _ H _).
    intros c. by destruct (m_throttlingLevel c).
  - by intros <-%(inj Some).
  - by intros <-%(inj Some).
Qed.

Lemma surplus_return x f keep valid W W' :
  return_from f keep valid W = Some W' -> surplus x W' = surplus x W + occ x (frame_msgs f).
Proof.
  destruct f as [|i marked old reply| | | | | | | | |]; cbn [return_from frame_msgs]; rewrite ?occ_nil; try done; [intros <-%(inj Some); lia|].
  destruct (match reply with Some id => _ | None => _ end) as [W1|] eqn:E; [|done]. cbn [mbind option_bind].
  intros H. rewrite (surplus_finishDispatch x _ _ _ _ _ _ H), Z.add_0_r.
  destruct reply as [id|]; [|by injection E as <-]. destruct keep; [|by injection E as <-].
  refine (surplus_on_conn _ _ _ _ _ E _). intros c. apply sendMessage_msgs.
Qed.

Lemma surplus_exec x l W W' : exec l W = Some W' -> surplus x W' = surplus x W.
Proof.
  destruct l as [i m|i|i|i n|i name dest sy e u|nested|nested i| | | | |a|keep valid]; cbn [exec].
  - conn_of W i c Hc. destruct (m_isConnected c); [apply surplus_incoming|done].
  - conn_of W i c Hc. destruct (m_shouldWaitForSyncReplies c); [apply surplus_didClose|done].
  - conn_of W i c Hc. destruct (m_isValid c); [done|]. intros <-%(inj Some). surplus.
  - unfold sendOutgoingMessages. conn_of W i c Hc. destruct (m_isConnected c); [|done]. intros <-%(inj Some). surplus.
  - intros H. refine (surplus_on_conn _ _ _ _ _ H _). intros c. apply sendMessage_msgs.
  - destruct (in_loop nested W); [|done]. destruct (tasks W) as [|t ts]; [done|].
    intros H. by rewrite (surplus_task x _ _ _ H).
  - destruct (in_loop nested W); [|done]. apply surplus_timer.
  - destruct (stack W); [|done]. intros <-%(inj Some). surplus.
  - destruct (stack W) as [|f fs] eqn:Es; [done|]. intros H. rewrite (surplus_main x _ _ _ H), (surplus_pop x f) by done. lia.
  - destruct (stack W) as [|f fs] eqn:Es; [done|]. intros H. rewrite (surplus_wake x _ _ _ H), (surplus_pop x f) by done. lia.
  - destruct (stack W) as [|f fs] eqn:Es; [done|]. intros H. rewrite (surplus_timeout x _ _ _ H), (surplus_pop x f) by done. lia.
  - destruct (stack W) as [|f fs] eqn:Es; [done|]. destruct (is_client f); [apply surplus_act|done].
  - destruct (stack W) as [|f fs] eqn:Es; [done|]. intros H. rewrite (surplus_return x _ _ _ _ _ H), (surplus_pop x f) by done. lia.
Qed.

(** ** Runs *)

(** Invariants, over the labels that satisfy [ok]. *)
Lemma run_invariant (ok : label -> bool) (P : world -> Prop) :
  (forall l W W', ok l = true -> P W -> exec l W = Some W' -> P W') ->
  forall ls W W', forallb ok ls = true -> P W -> run ls W = Some W' -> P W'.
Proof.
  intros Hstep ls. induction ls as [|l ls IH]; intros W W' Hok HP; cbn [run forallb] in *; [by intros [= <-]|].
  apply andb_true_iff in Hok as [Hl Hls].
  destruct (exec l W) as [W1|] eqn:E; [|done]. cbn [mbind option_bind]. eauto.
Qed.

(** The same over all labels. *)
Lemma run_invariant_all (P : world -> Prop) :
  (forall l W W', P W -> exec l W = Some W' -> P W') ->
  forall ls W W', P W -> run ls W = Some W' -> P W'.
Proof.
  intros H ls W W' HP HR. apply (run_invariant (fun _ => true) P) with (ls := ls) (W := W); eauto.
  by apply forallb_forall.
Qed.

Lemma start_conn flags i c : conns (start flags) !! i = Some c -> exists b, c = Connection_new b.
Proof. cbn. rewrite list_lookup_fmap. destruct (flags !! i) as [b|]; [|done]. intros [= <-]. by exists b. Qed.

Lemma conns_msgs_nil l : (forall c, c ∈ l -> conn_msgs c = []) -> conns_msgs l = [].
Proof.
  unfold conns_msgs. intros H. apply concat_nil_Forall, Forall_forall. intros y Hy.
  apply elem_of_lookup_imap in Hy as (i & c & -> & Hc). rewrite H; [done|]. by eapply list_elem_of_lookup_2.
Qed.

Lemma surplus_start x flags : surplus x (start flags) = 0.
Proof.
  unfold surplus, transit. rewrite conns_msgs_nil; [done|].
  intros c (i & Hi)%list_elem_of_lookup. by apply start_conn in Hi as [b ->].
Qed.

Lemma run_surplus x flags ls W : run ls (start flags) = Some W -> surplus x W = 0.
Proof.
  apply (run_invariant_all (fun W => surplus x W = 0)); [|apply surplus_start].
  intros l W1 W2 <- E. exact (surplus_exec x l W1 W2 E).
Qed.

Lemma surplus_permutation W : (forall x, surplus x W = 0) -> received W ≡ₚ (fates W).*1 ++ transit W.
Proof.
  intros HS. apply (Permutation_count_occ (decide_rel eq)). intros x. specialize (HS x). unfold surplus, occ in HS.
  rewrite count_occ_app. lia.
Qed.

(** C6: whatever the clients and the connection queues do, and however the main
    thread nests its loops, the messages that came in on the connections are
    exactly the messages with a fate and the messages in transit, with their
    multiplicities: none is lost without a reason of the list, none is
    delivered twice. *)
Theorem connection_conserves_messages flags ls W :
  run ls (start flags) = Some W -> received W ≡ₚ (fates W).*1 ++ transit W.
Proof. intros H. apply surplus_permutation. intros x. exact (run_surplus x flags ls W H). Qed.

(** ** A run: a handler on connection 0 sends a sync message; while it waits, a
    sync message on connection 1 is dispatched and answered; then the reply
    comes. *)
Definition msg_async : msg := mk_msg 5 1 7 false No false None.
Definition msg_sync : msg := mk_msg 6 2 8 true Yes false (Some 41).
Definition msg_reply : msg := mk_msg SyncMessageReply 105 1 false No false None.

Definition sample_run : list label :=
  [Incoming 0 msg_async; Incoming 1 msg_sync; RunTask false; Act (SendSync 0 9 9 false); Main; Main].

Definition sample_rest : list label :=
  [Return true true; Main; Main; Incoming 0 msg_reply; Wake; Main; Main; Main; Return true true; RunTask false; Main].

Definition sample_fates : list (nat * msg * fate) :=
  [(0%nat, msg_async, ToClient); (1%nat, msg_sync, ToClient); (0%nat, msg_reply, ToWaiter)].

Lemma connection_conserves_messages_witness :
  exists W, run (sample_run ++ sample_rest) (start [false; false]) = Some W /\ fates W = sample_fates /\
    received W ≡ₚ (fates W).*1 ++ transit W.
Proof.
  eexists. split; [vm_compute; reflexivity|]. split; [vm_compute; reflexivity|].
  apply (connection_conserves_messages [false; false] (sample_run ++ sample_rest)). vm_compute. reflexivity.
Defined.

End ConnectionProps.
