(* ===== verification/IpcConnectionDepth.v ===== *)
(** * Connections: the main thread and the state of the connections agree

    The stack of frames is the call stack of the main thread.  The pending sync
    replies, the counters and the waiting state of each connection say the same
    as that stack; the assertions of ipc/Connection.cpp about them hold. *)
From stdpp Require Import gmap.
From S2P Require Import Prelude IpcEncoder IpcDecoder IpcConnection IpcConnectionProps.

#[local] Open Scope cfetch_scope.

Module ConnectionDepth.
Import Connection ConnectionProps.

(** ** What the stack says of a connection *)

Fixpoint count (p : frame -> bool) (fs : list frame) : Z :=
  match fs with
  | [] => 0
  | f :: fs => if p f then count p fs + 1 else count p fs
  end.

Definition in_dispatch (i : nat) (f : frame) : bool :=
  match f with InDispatch j _ _ _ => bool_decide (j = i) | _ => false end.

Definition in_marked (i : nat) (f : frame) : bool :=
  match f with InDispatch j true _ _ => bool_decide (j = i) | _ => false end.

Definition in_wait (i : nat) (f : frame) : bool :=
  match f with WaitMessage j _ => bool_decide (j = i) | _ => false end.

(** The requests that wait for a reply, the oldest first. *)
Fixpoint wait_ids (i : nat) (fs : list frame) : list Z :=
  match fs with
  | [] => []
  | WaitSync j id _ :: fs => if bool_decide (j = i) then wait_ids i fs ++ [id] else wait_ids i fs
  | _ :: fs => wait_ids i fs
  end.

(** A pending reply has a decoder as soon as it was received, and the reply is
    one for its request. *)
Definition reply_ok (p : PendingSyncReply) : Prop :=
  match replyDecoder p with
  | Some m => didReceiveReply p = true /\ messageName m = SyncMessageReply /\ destinationID m = p_syncRequestID p
  | None => didReceiveReply p = false
  end.

(** What the calls of a client add to the counter of marked dispatches. *)
Definition counting (l : label) : option (nat * Z) :=
  match l with
  | Act (IncrementMarkedCount j) => Some (j, 1)
  | Act (DecrementMarkedCount j) => Some (j, -1)
  | _ => None
  end.
Definition marked_call (l : label) (i : nat) : Z :=
  match counting l with Some (j, d) => if bool_decide (j = i) then d else 0 | None => 0 end.

Fixpoint marked_calls (ls : list label) (i : nat) : Z :=
  match ls with [] => 0 | l :: ls => marked_call l i + marked_calls ls i end.

Section counted.
(** What clients have added to the counter of each connection. *)
Context (extra : nat -> Z).

Record matches (fs : list frame) (i : nat) (c : conn) : Prop := mk_matches {
  ids_match : p_syncRequestID <$> m_pendingSyncReplies c = wait_ids i fs;
  replies_match : Forall reply_ok (m_pendingSyncReplies c);
  sends_match : m_inSendSyncCount c = u32 (zlen (wait_ids i fs));
  dispatches_match : m_inDispatchMessageCount c = u32 (count (in_dispatch i) fs);
  marked_match : m_inDispatchMarkedCount c = u32 (count (in_marked i) fs + extra i);
  waiting_match : count (in_wait i) fs = match m_waitingForMessage c with Some _ => 1 | None => 0 end
}.

Definition agree (fs : list frame) (l : list conn) : Prop := forall i c, l !! i = Some c -> matches fs i c.

(** ** Moving frames *)

(** The connection a frame counts for. *)
Definition counts_for (f : frame) : option nat :=
  match f with
  | InDispatch i _ _ _ | WaitSync i _ _ | WaitMessage i _ => Some i
  | _ => None
  end.

Lemma matches_other f fs i c : counts_for f <> Some i -> matches (f :: fs) i c <-> matches fs i c.
Proof.
  intros H. assert (forall j : nat, Some j <> Some i -> bool_decide (j = i) = false) as Hb.
  { intros j Hj. apply bool_decide_eq_false_2. congruence. }
  destruct f as [|j marked o r|j o|j|j ids|l|j l pb|j n|j id p|j n d b e|j p]; cbn in H;
    split; intros [A B C D E F]; (constructor; [|exact B|..]); cbn in *; rewrite ?Hb in * by done;
    destruct_and?; try (destruct marked); rewrite ?Hb in * by done; assumption.
Qed.

Lemma agree_neutral f fs l : counts_for f = None -> agree (f :: fs) l <-> agree fs l.
Proof.
  intros H. split; intros A i c Hc; apply (matches_other f fs i c); [by rewrite H|auto|by rewrite H|auto].
Qed.

(** Change connection [i] and the frames that count for it. *)
Lemma agree_insert fs fs' l i c' :
  agree fs l ->
  (forall j c, j <> i -> matches fs j c -> matches fs' j c) ->
  matches fs' i c' -> agree fs' (<[i := c']> l).
Proof.
  intros A Ho Hi j c Hc. destruct (decide (j = i)) as [->|Hj].
  - apply list_lookup_insert_Some in Hc as [(_ & <- & _)|[? _]]; [done|congruence].
  - rewrite list_lookup_insert_ne in Hc by congruence. apply Ho; auto.
Qed.

Lemma upd_conns W i f c : conns W !! i = Some c -> conns (upd i f W) = <[i := f c]> (conns W).
Proof.
  intros H. cbn. revert i H. generalize (conns W). induction l as [|d l IH]; intros [|i] H; cbn in *; try done.
  - by injection H as ->.
  - f_equal. by apply IH.
Qed.

(** Steps that leave the frames alone and only touch other parts of a
    connection, and steps that change a reply or a waiter in place. *)
Definition keeps (c c' : conn) : Prop := forall fs i, matches fs i c -> matches fs i c'.

Lemma keeps_trans a b c : keeps a b -> keeps b c -> keeps a c.
Proof. intros A B fs i M. apply B, A, M. Qed.

Lemma keeps_view c c' :
  p_syncRequestID <$> m_pendingSyncReplies c' = p_syncRequestID <$> m_pendingSyncReplies c ->
  (Forall reply_ok (m_pendingSyncReplies c) -> Forall reply_ok (m_pendingSyncReplies c')) ->
  m_inSendSyncCount c' = m_inSendSyncCount c ->
  m_inDispatchMessageCount c' = m_inDispatchMessageCount c ->
  m_inDispatchMarkedCount c' = m_inDispatchMarkedCount c ->
  (m_waitingForMessage c' = None <-> m_waitingForMessage c = None) ->
  keeps c c'.
Proof.
  intros A B C D E F fs i [A' B' C' D' E' F']. constructor; [congruence|auto|congruence..|].
  rewrite F'. destruct (m_waitingForMessage c), (m_waitingForMessage c'); try done.
  - by destruct F as [F _]; specialize (F eq_refl).
  - by destruct F as [_ F]; specialize (F eq_refl).
Qed.

Lemma agree_keeps fs W i c f :
  conns W !! i = Some c -> keeps c (f c) -> agree fs (conns W) -> agree fs (conns (upd i f W)).
Proof.
  intros Hc Hk A. rewrite (upd_conns W i f c Hc). apply (agree_insert fs fs); [done|auto|]. by apply Hk, A.
Qed.

Ltac keeps := apply keeps_view; (reflexivity || tauto || done).

(** ** The connection queue *)

Lemma store_reply_keeps m l l' old b :
  messageName m = SyncMessageReply -> store_reply m l = Some (l', old, b) ->
  p_syncRequestID <$> l' = p_syncRequestID <$> l /\ (Forall reply_ok l -> Forall reply_ok l').
Proof.
  intros Hm. revert l' old b. induction l as [|p l IH]; intros l' old b; cbn [store_reply]; [done|].
  destruct (store_reply m l) as [[[rest o] la]|] eqn:E.
  - intros [= <- <- <-]. destruct (IH _ _ _ eq_refl) as [A B]. cbn. split; [by rewrite A|].
    intros [H1 H2]%Forall_cons. auto.
  - destruct (_ =? _) eqn:Ed; [|done]. intros [= <- <- <-]. cbn. split; [done|].
    intros [H1 H2]%Forall_cons. constructor; [|done]. cbn. apply Z.eqb_eq in Ed. auto.
Qed.

Lemma sync_conns i m W W' : syncProcessIncomingMessage i m W = Some W' -> conns W' = conns W /\ stack W' = stack W.
Proof.
  unfold syncProcessIncomingMessage. destruct (dispatchable m W); [|done]. intros [= <-].
  by destruct (bool_decide _).
Qed.

Lemma enqueue_keeps fs i m c W :
  conns W !! i = Some c -> agree fs (conns W) ->
  agree fs (conns (enqueueIncomingMessage i m c W)) /\ stack (enqueueIncomingMessage i m c W) = stack W.
Proof.
  intros Hc A. assert (agree fs (conns (upd i (set_incoming (m_incomingMessages c ++ [m])) W))) as A1.
  { apply (agree_keeps _ _ _ c); [done|keeps|done]. }
  unfold enqueueIncomingMessage. destruct (m_throttlingLevel c); [destruct (_ =? 1)|]; done.
Qed.

Lemma offer_keeps fs i m c W W' :
  conns W !! i = Some c -> agree fs (conns W) -> offerToWaiter i m c W = Some W' ->
  agree fs (conns W') /\ stack W' = stack W.
Proof.
  intros Hc A. unfold offerToWaiter, notifyOne.
  destruct (m_waitingForMessage c) as [w|] eqn:Ew; [|done]. destruct (w_decoder w); [done|].
  destruct (is_for _ _ m).
  - intros [= <-]. split; [|done]. refine (agree_keeps _ _ _ _ _ (lookup_upd _ _ _ _ Hc) _ _); [keeps|].
    apply (agree_keeps _ _ _ c); [done| |done]. apply keeps_view; cbn; try done. by rewrite Ew.
  - destruct (if dispatchSync w && isSyncMessage m then _ else _) as [W1|] eqn:E.
    + intros [= <-]. destruct (dispatchSync w && isSyncMessage m); [|done].
      apply sync_conns in E as [E1 E2]. split; [|done]. rewrite <- E1 in Hc, A.
      apply (agree_keeps _ _ _ c); [done|keeps|done].
    + clear E. destruct (interruptIfSync w && _); [|done]. intros <-%(inj Some).
      match goal with |- context [enqueueIncomingMessage i m ?d (upd i ?f W)] =>
        destruct (enqueue_keeps fs i m d (upd i f W)) as [B1 B2]; [exact (lookup_upd _ _ f _ Hc)| |exact (conj B1 B2)] end.
      apply (agree_keeps _ _ _ c); [done| |done]. apply keeps_view; cbn; try done. by rewrite Ew.
Qed.

Lemma incoming_keeps fs i m W W' :
  agree fs (conns W) -> processIncomingMessage i m W = Some W' -> agree fs (conns W') /\ stack W' = stack W.
Proof.
  intros A. unfold processIncomingMessage. conn_of W i c Hc.
  destruct (_ =? _) eqn:En.
  - apply Z.eqb_eq in En. intros <-%(inj Some). unfold processIncomingSyncReply.
    destruct (store_reply _ _) as [[[l old] b]|] eqn:E; [|done].
    destruct (store_reply_keeps _ _ _ _ _ En E) as [E1 E2].
    assert (agree fs (conns (upd i (set_pending l) W))) as A1.
    { apply (agree_keeps _ _ _ c); [done| |done]. by apply keeps_view. }
    destruct b, old; exact (conj A1 eq_refl).
  - destruct (negb _); [by intros [= <-]|]. destruct (toWorkQueueReceiver m c); [by intros [= <-]|].
    destruct (toThreadReceiver m c); [by intros [= <-]|].
    set (c1 := if isSyncMessage m then _ else _). set (W1 := upd i (fun _ => c1) (record_received i m W)).
    assert (conns W1 !! i = Some c1) as H1 by exact (lookup_upd (record_received i m W) _ (fun _ => c1) _ Hc).
    assert (agree fs (conns W1)) as A1.
    { apply (agree_keeps _ (record_received i m W) _ c); [done| |done]. unfold c1. destruct (isSyncMessage m); keeps. }
    destruct (offerToWaiter i m c1 W1) as [W2|] eqn:E1.
    { intros [= <-]. by apply (offer_keeps _ _ _ _ _ _ H1 A1 E1). }
    destruct (syncProcessIncomingMessage i m W1) as [W2|] eqn:E2.
    + intros [= <-]. by destruct (sync_conns _ _ _ _ E2) as [-> ->].
    + intros <-%(inj Some). exact (enqueue_keeps fs i m c1 W1 H1 A1).
Qed.

Lemma didClose_keeps fs i W W' :
  agree fs (conns W) -> connectionDidClose i W = Some W' -> agree fs (conns W') /\ stack W' = stack W.
Proof.
  intros A. unfold connectionDidClose. conn_of W i c Hc. intros <-%(inj Some).
  match goal with |- context [upd i ?f W] => assert (agree fs (conns (upd i f W))) as A1 end.
  { apply (agree_keeps _ _ _ c); [done| |done]. apply keeps_view; cbn; try done. by destruct (m_waitingForMessage c). }
  destruct (bool_decide _); exact (conj A1 eq_refl).
Qed.

(** ** Counters *)

Lemma u32_succ n : u32 (u32 n + 1) = u32 (n + 1).
Proof. unfold wrap. by rewrite Zplus_mod_idemp_l. Qed.

Lemma u32_pred n : u32 (u32 (n + 1) - 1) = u32 n.
Proof. unfold wrap. rewrite Zminus_mod_idemp_l. f_equal. lia. Qed.

(** Push, pop or replace a frame of connection [i], whose state becomes [f c]. *)
Lemma agree_push g fs W i c f :
  conns W !! i = Some c -> counts_for g = Some i -> agree fs (conns W) ->
  (matches fs i c -> matches (g :: fs) i (f c)) -> agree (g :: fs) (conns (upd i f W)).
Proof.
  intros Hc Hg A M. rewrite (upd_conns W i f c Hc). apply (agree_insert fs); [done| |by apply M, A].
  intros j d Hj. apply matches_other. congruence.
Qed.

Lemma agree_pop g fs W i c f :
  conns W !! i = Some c -> counts_for g = Some i -> agree (g :: fs) (conns W) ->
  (matches (g :: fs) i c -> matches fs i (f c)) -> agree fs (conns (upd i f W)).
Proof.
  intros Hc Hg A M. rewrite (upd_conns W i f c Hc). apply (agree_insert (g :: fs)); [done| |by apply M, A].
  intros j d Hj. apply matches_other. congruence.
Qed.

(** The frame [InDispatch] and its counters. *)
Lemma matches_enter fs i marked old r c :
  matches fs i c -> matches (InDispatch i marked old r :: fs) i
    (set_invalid false (set_dispatches (u32 (m_inDispatchMessageCount c + 1))
       (if marked then u32 (m_inDispatchMarkedCount c + 1) else m_inDispatchMarkedCount c) c)).
Proof.
  intros [A B C D E F]. constructor; cbn -[wrap]; rewrite ?bool_decide_eq_true_2 by done; try done.
  - by rewrite D, u32_succ.
  - destruct marked; cbn -[wrap]; rewrite ?bool_decide_eq_true_2 by done; rewrite E; [|done].
    rewrite u32_succ. f_equal. lia.
Qed.

Lemma matches_leave fs i marked old r v c :
  matches (InDispatch i marked old r :: fs) i c -> matches fs i
    (set_dispatches (u32 (m_inDispatchMessageCount c - 1))
       (if marked then u32 (m_inDispatchMarkedCount c - 1) else m_inDispatchMarkedCount c) (set_invalid v c)).
Proof.
  intros [A B C D E F]. cbn -[wrap] in *. rewrite ?bool_decide_eq_true_2 in * by done.
  constructor; cbn -[wrap]; try done.
  - by rewrite D, u32_pred.
  - destruct marked; cbn -[wrap] in E; rewrite ?bool_decide_eq_true_2 in E by done; rewrite E; [|done].
    replace (count (in_marked i) fs + 1 + extra i) with (count (in_marked i) fs + extra i + 1) by lia. apply u32_pred.
Qed.

(** The frame [WaitSync] with its pending reply. *)
Lemma matches_send fs i id p c :
  matches fs i c -> matches (WaitSync i id p :: fs) i
    (set_sends (u32 (m_inSendSyncCount c + 1)) (set_pending (m_pendingSyncReplies c ++ [mk_pending id None false]) c)).
Proof.
  intros [A B C D E F]. constructor; cbn -[wrap]; rewrite ?bool_decide_eq_true_2 by done; try done.
  - by rewrite fmap_app, A.
  - apply Forall_app. split; [done|]. by apply Forall_singleton.
  - rewrite C, u32_succ, zlen_app. done.
Qed.

Lemma matches_reply fs i id p c :
  matches (WaitSync i id p :: fs) i c ->
  (exists q, last (m_pendingSyncReplies c) = Some q /\ p_syncRequestID q = id /\ reply_ok q) /\
  matches fs i (set_sends (u32 (m_inSendSyncCount c - 1)) (set_pending (removelast (m_pendingSyncReplies c)) c)).
Proof.
  intros [A B C D E F]. cbn -[wrap] in *. rewrite ?bool_decide_eq_true_2 in * by done.
  destruct (exists_last (l := m_pendingSyncReplies c)) as (l & q & El).
  { intros El. rewrite El in A. symmetry in A. by apply app_eq_nil in A as [_ ?]. }
  rewrite El in A, B |- *. rewrite fmap_app in A. cbn in A. apply app_inj_tail in A as [A1 A2].
  apply Forall_app in B as [B1 B2]. split.
  - exists q. rewrite last_snoc. split; [done|]. split; [done|]. exact (proj1 (Forall_singleton _ _) B2).
  - rewrite removelast_last. constructor; cbn -[wrap]; try done.
    rewrite C, zlen_app. change (zlen [id]) with 1. by rewrite u32_pred.
Qed.

(** The frame [WaitMessage] and the waiting state. *)
Lemma count_nonneg p fs : 0 <= count p fs.
Proof. induction fs as [|f fs IH]; cbn; [lia|]. destruct (p f); lia. Qed.

Lemma matches_wait fs i w p c :
  m_waitingForMessage c = None -> matches fs i c -> matches (WaitMessage i p :: fs) i (set_waiting (Some w) c).
Proof.
  intros Hn [A B C D E F]. constructor; cbn; rewrite ?bool_decide_eq_true_2 by done; try done. rewrite F, Hn. done.
Qed.

Lemma matches_leaveWait fs i p c :
  matches (WaitMessage i p :: fs) i c ->
  (exists w, m_waitingForMessage c = Some w) /\ matches fs i (set_parked false (set_waiting None c)).
Proof.
  intros [A B C D E F]. cbn in *. rewrite ?bool_decide_eq_true_2 in * by done. pose proof (count_nonneg (in_wait i) fs).
  destruct (m_waitingForMessage c) as [w|]; [|lia]. split; [by exists w|]. constructor; cbn; try done. lia.
Qed.

(** ** Dispatching *)

Lemma finishDispatch_agree i marked old r valid W W' :
  agree (InDispatch i marked old r :: stack W) (conns W) ->
  finishDispatch i marked old valid W = Some W' -> agree (stack W') (conns W').
Proof.
  intros A. unfold finishDispatch. conn_of W i c Hc. intros <-%(inj Some).
  set (v := m_didReceiveInvalidMessage c || negb valid). destruct (v && m_isValid c).
  - apply agree_neutral, agree_neutral; [done..|]. refine (agree_pop (InDispatch i marked old r) _ W i c _ Hc eq_refl A _).
    apply matches_leave.
  - refine (agree_pop (InDispatch i marked old r) _ W i c _ Hc eq_refl A _). intros M. apply (matches_leave _ _ _ _ _ v) in M.
    revert M. generalize (stack W). intros fs M. by destruct M.
Qed.

Lemma deliver_keeps m c :
  match deliver m c with Call c' _ _ | Refuse c' _ => keeps c c' end.
Proof.
  unfold deliver, dispatchSyncMessage, dispatchDecoder, takeAsyncReplyHandler.
  repeat match goal with |- context [match ?e with _ => _ end] => lazymatch e with
    | context [match _ with _ => _ end] => fail | _ => destruct e end end; keeps.
Qed.

Lemma dispatchMessage_agree i m W W' :
  agree (stack W) (conns W) -> dispatchMessage i m W = Some W' -> agree (stack W') (conns W').
Proof.
  intros A. unfold dispatchMessage. conn_of W i c Hc.
  destruct (negb _); [by intros [= <-]|]. destruct (toWorkQueueReceiver m c); [by intros [= <-]|].
  destruct (fullySynchronous m); [intros <-%(inj Some); by apply agree_neutral|].
  set (marked := dispatchable m W). set (c1 := set_invalid _ _).
  pose proof (deliver_keeps m c1) as K. set (old := m_didReceiveInvalidMessage c).
  assert (forall r c2, keeps c1 c2 -> agree (InDispatch i marked old r :: stack W) (conns (upd i (fun _ => c2) W))) as P.
  { intros r c2 Hk. refine (agree_push (InDispatch i marked old r) _ W i c _ Hc eq_refl A _). intros M. apply Hk, matches_enter, M. }
  destruct (deliver m c1) as [c2 reply handler|c2 valid].
  - intros <-%(inj Some). destruct handler; exact (P reply c2 K).
  - intros H. refine (finishDispatch_agree i marked old None valid _ _ _ H). exact (P None c2 K).
Qed.

(** Take a message out of the queue of a connection and dispatch it, over the
    frames [fs] that do not count. *)
Lemma take_agree i f m c gs W W' :
  conns W !! i = Some c -> keeps c (f c) -> agree (stack W) (conns W) -> Forall (fun g => counts_for g = None) gs ->
  dispatchMessage i m (set_stack (gs ++ stack W) (upd i f W)) = Some W' -> agree (stack W') (conns W').
Proof.
  intros Hc Hk A Hg. apply dispatchMessage_agree. cbn [stack set_stack conns]. change (agree (gs ++ stack W) (conns (upd i f W))).
  assert (agree (stack W) (conns (upd i f W))) as A1 by (by apply (agree_keeps _ _ _ c)).
  induction Hg as [|g gs Hg' _ IH]; [done|]. by apply agree_neutral.
Qed.

(** ** The machine *)

Definition good (W : world) : Prop := agree (stack W) (conns W).

(** Frames that do not count come and go. *)
Lemma good_push g W : counts_for g = None -> good (push g W) <-> good W.
Proof. intros H. exact (agree_neutral g (stack W) (conns W) H). Qed.

Lemma good_upd i f c W : conns W !! i = Some c -> keeps c (f c) -> good W -> good (upd i f W).
Proof. intros Hc Hk A. exact (agree_keeps (stack W) W i c f Hc Hk A). Qed.

Lemma good_on_conn i f W W' : (forall c, keeps c (f c)) -> on_conn i f W = Some W' -> good W -> good W'.
Proof. intros Hk. unfold on_conn. conn_of W i c Hc. intros <-%(inj Some). exact (good_upd i (fun _ => f c) c W Hc (Hk c)). Qed.

Lemma send_keeps name dest sync id e u c : keeps c (sendMessage name dest sync id e u c).
Proof. unfold sendMessage. destruct (m_isValid c); keeps. Qed.

Lemma dispatchIncoming_good i level W W' : dispatchIncomingMessages i level W = Some W' -> good W -> good W'.
Proof.
  unfold dispatchIncomingMessages. conn_of W i c Hc. intros H A. revert H.
  destruct (m_incomingMessages c) as [|m rest]; [by intros [= <-]|].
  destruct (numberOfMessagesToProcess level (zlen rest)) as [level' n].
  set (f := fun c => set_level (Some level') (set_incoming rest c)). set (W1 := upd i f W).
  assert (good W1) as A1 by (apply (good_upd i f c); [done|keeps|done]).
  assert (good (if bool_decide (length rest = 0%nat) then W1 else scheduleMessagesDispatch i level' W1)) as A2.
  { destruct (bool_decide _); [done|]. unfold scheduleMessagesDispatch. destruct (negb _); [|done].
    apply (good_upd i _ (f c)); [exact (lookup_upd _ _ f _ Hc)|keeps|done]. }
  apply dispatchMessage_agree. by apply good_push.
Qed.

Lemma dispatchOne_good i W W' : dispatchOneIncomingMessage i W = Some W' -> good W -> good W'.
Proof.
  unfold dispatchOneIncomingMessage. conn_of W i c Hc. intros H A. revert H.
  destruct (m_incomingMessages c) as [|m rest]; [by intros [= <-]|].
  apply dispatchMessage_agree. apply (good_upd i _ c); [done|keeps|done].
Qed.

Lemma task_good t W W' : run_task t W = Some W' -> good W -> good W'.
Proof.
  destruct t as [i|i|i name|i]; cbn [run_task];
    unfold dispatchMessagesForConnection, dispatchDidReceiveInvalidMessage, dispatchConnectionDidClose; [|intros <-%(inj Some) A; by apply (good_push (DispatchFor _ _ _))| |].
  - conn_of W i c Hc. destruct (m_throttlingLevel c); [apply dispatchIncoming_good|apply dispatchOne_good].
  - conn_of W i c Hc. intros <-%(inj Some). destruct (m_isValid c); [|done]. by apply good_push.
  - conn_of W i c Hc. intros <-%(inj Some) A. destruct (m_isValid c); [|done].
    apply good_push, good_push; [done..|]. apply (good_upd i _ c); [done|keeps|done].
Qed.

Lemma timer_good i W W' : timerFired i W = Some W' -> good W -> good W'.
Proof.
  unfold timerFired. conn_of W i c Hc. destruct (m_timer c); [|done]. destruct (m_throttlingLevel c); [|done].
  intros H A. apply (dispatchIncoming_good _ _ _ _ H). apply (good_upd i _ c); [done|keeps|done].
Qed.

(** A step in a frame that counts: the connection of the frame and the frame
    above which the step continues. *)
Lemma reply_good i id p reply left c W :
  conns W !! i = Some c -> agree (WaitSync i id p :: stack W) (conns W) -> good (finishSendSync i reply left c W).
Proof.
  intros Hc A. assert (good (upd i (fun _ => set_sends (u32 (m_inSendSyncCount c - 1))
    (set_pending (removelast (m_pendingSyncReplies c)) c)) W)) as G.
  { refine (agree_pop (WaitSync i id p) _ W i c _ Hc eq_refl A _). apply matches_reply. }
  unfold finishSendSync. destruct reply, left; exact G.
Qed.

Lemma leaveWait_good i p c fa W :
  conns W !! i = Some c -> agree (WaitMessage i p :: stack W) (conns W) -> good (leaveWait i c fa W).
Proof.
  intros Hc A. assert (good (upd i (fun _ => set_parked false (set_waiting None c)) W)) as G.
  { refine (agree_pop (WaitMessage i p) _ W i c _ Hc eq_refl A _). apply matches_leaveWait. }
  unfold leaveWait. by destruct (m_waitingForMessage c ≫= w_decoder).
Qed.

(** The phase of a wait does not count. *)
Lemma agree_phase_sync i id p q fs l : agree (WaitSync i id p :: fs) l -> agree (WaitSync i id q :: fs) l.
Proof. intros A j c Hc. by destruct (A j c Hc). Qed.

Lemma agree_phase_wait i p q fs l : agree (WaitMessage i p :: fs) l -> agree (WaitMessage i q :: fs) l.
Proof. intros A j c Hc. by destruct (A j c Hc). Qed.

Lemma waitSync_good i id p W W' :
  agree (WaitSync i id p :: stack W) (conns W) -> waitForSyncReply i id p W = Some W' -> good W'.
Proof.
  intros A. unfold waitForSyncReply. conn_of W i c Hc.
  destruct p; [|destruct (last _) as [q|]; [cbn [mbind option_bind]|done]|done|destruct (last _) as [q|]; [cbn [mbind option_bind]|done]];
    intros <-%(inj Some).
  - apply (good_push (DispatchList _)); [done|]. exact (agree_phase_sync _ _ _ Checking _ _ A).
  - destruct (_ || _); [by apply (reply_good i id Checking)|]. destruct (negb _); [by apply (reply_good i id Checking)|].
    exact (agree_phase_sync _ _ _ Waiting _ _ A).
  - by apply (reply_good i id TimedOut).
Qed.

Lemma waitMessage_good i p W W' :
  agree (WaitMessage i p :: stack W) (conns W) -> waitForMessageStep i p W = Some W' -> good W'.
Proof.
  intros A. unfold waitForMessageStep. conn_of W i c Hc.
  destruct p; [|destruct (m_waitingForMessage c) as [w|]; [cbn [mbind option_bind]|done]|done|]; intros <-%(inj Some).
  - apply (good_push (DispatchList _)); [done|]. exact (agree_phase_wait _ _ Checking _ _ A).
  - destruct (w_decoder w); [apply good_push; [done|]; by apply (leaveWait_good i Checking)|].
    apply (agree_phase_wait i Checking). apply (agree_keeps _ W i c); [done|keeps|done].
  - by apply (leaveWait_good i TimedOut).
Qed.

Lemma main_good f W W' : agree (f :: stack W) (conns W) -> main_step f W = Some W' -> good W'.
Proof.
  destruct f as [|i marked old reply|i old|i|i ids|l|i l pb|i n|i id p|i name dest b d|i p]; cbn [main_step];
    unfold cancelHandlers_step, dispatchList_step, dispatchFor_step, batch_step; try done;
    try (intros A; apply agree_neutral in A; [|done]; change (good W) in A).
  - intros H. refine (good_on_conn _ _ _ _ _ H A). intros c. keeps.
  - unfold clearAsyncReplyHandlers. conn_of W i c Hc. intros <-%(inj Some). apply good_push; [done|].
    apply (good_upd i _ c); [done|keeps|done].
  - destruct ids; intros <-%(inj Some); [done|]. by apply (good_push App), (good_push (CancelHandlers _ _)).
  - destruct l as [|[i m] l]; [by intros <-%(inj Some)|]. apply dispatchMessage_agree. by apply good_push.
  - destruct l as [|[j m] l]; [by intros <-%(inj Some)|]. destruct (bool_decide _).
    + apply dispatchMessage_agree. by apply good_push.
    + intros <-%(inj Some). by apply good_push.
  - destruct n as [|n]; [by intros <-%(inj Some)|]. conn_of W i c Hc.
    destruct (m_incomingMessages c) as [|m rest]; [by intros <-%(inj Some)|].
    apply dispatchMessage_agree. apply good_push; [done|]. apply (good_upd i _ c); [done|keeps|done].
  - apply waitSync_good.
  - unfold beginWait. conn_of W i c Hc. intros <-%(inj Some).
    destruct (m_waitingForMessage c) as [w|] eqn:Ew; [done|]. destruct (m_shouldWaitForMessages c); [|done].
    refine (agree_push (WaitMessage i Dispatching) _ W i c _ Hc eq_refl A _). by apply matches_wait.
  - apply waitMessage_good.
Qed.

Lemma wake_good f W W' : agree (f :: stack W) (conns W) -> wake f W = Some W' -> good W'.
Proof.
  intros A. destruct f as [| | | | | | | |i id p| |i p]; cbn [wake]; try done; destruct p; try done.
  - destruct (m_semaphore W); [|done]. intros <-%(inj Some). exact (agree_phase_sync _ _ _ Dispatching _ _ A).
  - conn_of W i c Hc. destruct (m_waitingForMessage c) as [w|]; [|done]. cbn [mbind option_bind].
    destruct (m_parked c); [done|]. intros <-%(inj Some).
    destruct (messageWaitingInterrupted w); [by apply (leaveWait_good i Waiting)|].
    exact (agree_phase_wait _ _ Dispatching _ _ A).
Qed.

Lemma timeout_good f W W' : agree (f :: stack W) (conns W) -> timeout f W = Some W' -> good W'.
Proof.
  intros A. destruct f as [| | | | | | | |i id p| |i p]; cbn [timeout]; try done; destruct p; try done.
  - destruct (m_semaphore W); [done|]. intros <-%(inj Some). exact (agree_phase_sync _ _ _ TimedOut _ _ A).
  - intros <-%(inj Some). exact (agree_phase_wait _ _ TimedOut _ _ A).
Qed.

Lemma act_good a W W' : (forall i, marked_call (Act a) i = 0) -> act a W = Some W' -> good W -> good W'.
Proof.
  intros Hm.
  destruct a as [i n d e u|i n d e u|i n d f|i n d b s|i|i|i r|i r|i r|i r|i|i id|i| | |i|i]; cbn [act];
    try (apply good_on_conn; intros c; first [apply send_keeps|keeps]).
  - unfold sendWithAsyncReply. conn_of W i c Hc. intros <-%(inj Some) A.
    apply (good_upd i _ c (set_asyncID _ W)); [done| |done].
    refine (keeps_trans _ _ _ _ (send_keeps _ _ _ _ _ _ _)). keeps.
  - unfold sendSyncMessage. conn_of W i c Hc. destruct (createSyncMessageEncoder c) as [id c1] eqn:E.
    injection E as <- <-. destruct (_ || _); intros <-%(inj Some) A; [apply (good_upd i _ c); [done|keeps|done]|].
    refine (agree_push (WaitSync i _ Dispatching) _ W i c _ Hc eq_refl A _). intros M. apply send_keeps.
    assert (keeps c (set_requestID (u64 (m_syncRequestID c + 1)) c)) as K by keeps.
    exact (matches_send _ i _ Dispatching _ (K _ _ M)).
  - unfold waitForMessage. conn_of W i c Hc. intros <-%(inj Some) A.
    destruct (take_message _ _ _) as [[m rest]|].
    + apply (good_push App); [done|]. apply (good_upd i _ c); [done|keeps|done].
    + destruct (_ && _); [done|]. by apply good_push.
  - apply good_on_conn. intros c. unfold enableIncomingMessagesThrottling. destruct (m_throttlingLevel c); keeps.
  - by intros <-%(inj Some).
  - by intros <-%(inj Some).
  - specialize (Hm i). cbn in Hm. by rewrite bool_decide_eq_true_2 in Hm.
  - specialize (Hm i). cbn in Hm. by rewrite bool_decide_eq_true_2 in Hm.
Qed.

Lemma return_good f keep valid W W' : agree (f :: stack W) (conns W) -> return_from f keep valid W = Some W' -> good W'.
Proof.
  destruct f as [|i marked old reply| | | | | | | | |]; cbn [return_from]; try done;
    [intros A <-%(inj Some); by apply agree_neutral in A|].
  intros A. destruct (match reply with Some id => _ | None => _ end) as [W1|] eqn:E; [|done]. cbn [mbind option_bind].
  assert (agree (InDispatch i marked old reply :: stack W1) (conns W1)) as A1.
  { destruct reply as [id|]; [|by injection E as <-]. destruct keep; [|by injection E as <-]. revert E.
    unfold on_conn. conn_of W i c Hc. intros <-%(inj Some). apply (agree_keeps _ W i c); [done|apply send_keeps|done]. }
  exact (finishDispatch_agree _ _ _ _ _ _ _ A1).
Qed.

Lemma exec_unmarked l W W' : (forall i, marked_call l i = 0) -> good W -> exec l W = Some W' -> good W'.
Proof.
  intros Hm A. destruct l as [i m|i|i|i n|i name dest sy e u|nested|nested i| | | | |a|keep valid]; cbn [exec].
  - conn_of W i c Hc. destruct (m_isConnected c); [|done]. intros [B E]%(incoming_keeps _ _ _ _ _ A). unfold good. by rewrite E.
  - conn_of W i c Hc. destruct (m_shouldWaitForSyncReplies c); [|done].
    intros [B E]%(didClose_keeps _ _ _ _ A). unfold good. by rewrite E.
  - conn_of W i c Hc. destruct (m_isValid c); [done|]. intros <-%(inj Some). apply (good_upd i _ c); [done|keeps|done].
  - unfold sendOutgoingMessages. conn_of W i c Hc. destruct (m_isConnected c); [|done].
    intros <-%(inj Some). apply (good_upd i _ c); [done|keeps|done].
  - intros H. refine (good_on_conn _ _ _ _ _ H A). intros c. apply send_keeps.
  - destruct (in_loop nested W); [|done]. destruct (tasks W) as [|t ts]; [done|]. intros H. by apply (task_good _ _ _ H).
  - destruct (in_loop nested W); [|done]. intros H. by apply (timer_good _ _ _ H).
  - destruct (stack W); [|done]. intros <-%(inj Some). by apply good_push.
  - destruct (stack W) as [|f fs] eqn:Es; [done|]. apply (main_good f). unfold good in A. by rewrite Es in A.
  - destruct (stack W) as [|f fs] eqn:Es; [done|]. apply (wake_good f). unfold good in A. by rewrite Es in A.
  - destruct (stack W) as [|f fs] eqn:Es; [done|]. apply (timeout_good f). unfold good in A. by rewrite Es in A.
  - destruct (stack W) as [|f fs] eqn:Es; [done|]. destruct (is_client f); [|done]. intros H. by apply (act_good _ _ _ Hm H).
  - destruct (stack W) as [|f fs] eqn:Es; [done|]. apply (return_good f). unfold good in A. by rewrite Es in A.
Qed.

End counted.

(** A change of the counter by a client. *)
Lemma matches_extra extra extra' fs i c n m :
  m = u32 (n + extra' i - extra i) -> n = m_inDispatchMarkedCount c -> matches extra fs i c ->
  matches extra' fs i (set_dispatches (m_inDispatchMessageCount c) m c).
Proof.
  intros -> -> [A B C D E F]. constructor; cbn -[wrap]; try done. rewrite E. unfold wrap.
  rewrite <- Z.add_sub_assoc, Zplus_mod_idemp_l. f_equal. lia.
Qed.

Lemma matches_ext extra extra' fs i c : extra i = extra' i -> matches extra fs i c -> matches extra' fs i c.
Proof. intros Ee [A B C D E F]. constructor; try done. by rewrite E, Ee. Qed.

Lemma good_marked extra W i (f : conn -> conn) W' (d : Z) :
  (forall c, f c = set_dispatches (m_inDispatchMessageCount c) (u32 (m_inDispatchMarkedCount c + d)) c) ->
  on_conn i f W = Some W' -> good extra W -> good (fun j => extra j + (if bool_decide (i = j) then d else 0)) W'.
Proof.
  intros Hf. unfold on_conn. conn_of W i c Hc. intros <-%(inj Some) G. unfold good. cbn [stack upd].
  rewrite (upd_conns W i (fun _ => f c) c Hc). intros j c' Hj. destruct (decide (j = i)) as [->|Hne].
  - apply list_lookup_insert_Some in Hj as [(_ & <- & _)|[? _]]; [|congruence]. rewrite Hf.
    apply (matches_extra extra _ _ _ _ (m_inDispatchMarkedCount c)); [|done|by apply G].
    rewrite bool_decide_eq_true_2 by done. f_equal. lia.
  - rewrite list_lookup_insert_ne in Hj by congruence. apply (matches_ext extra); [|by apply G].
    rewrite bool_decide_eq_false_2 by congruence. lia.
Qed.

Lemma exec_counting l j d W W' : counting l = Some (j, d) -> exec l W = Some W' ->
  on_conn j (fun c => set_dispatches (m_inDispatchMessageCount c) (u32 (m_inDispatchMarkedCount c + d)) c) W = Some W'.
Proof.
  destruct l as [| | | | | | | | | | |a|]; try done. destruct a; try done; intros [= <- <-]; cbn [exec];
    (destruct (stack W) as [|f fs]; [done|]); by destruct (is_client f).
Qed.

Lemma exec_good extra l W W' : good extra W -> exec l W = Some W' -> good (fun i => extra i + marked_call l i) W'.
Proof.
  intros G H. unfold marked_call. destruct (counting l) as [[j d]|] eqn:E.
  - by apply (good_marked extra W j _ _ d (fun c => eq_refl) (exec_counting _ _ _ _ _ E H)).
  - assert (forall i, marked_call l i = 0) as Hm by (intros i; unfold marked_call; by rewrite E).
    pose proof (exec_unmarked extra _ _ _ Hm G H) as G'. intros i c Hc. apply (matches_ext extra); [lia|by apply G'].
Qed.

Lemma start_good flags : good (fun _ => 0) (start flags).
Proof. intros i c (b & ->)%start_conn. by constructor. Qed.

Lemma run_from_good extra ls W W' : good extra W -> run ls W = Some W' -> good (fun i => extra i + marked_calls ls i) W'.
Proof.
  revert extra W. induction ls as [|l ls IH]; intros extra W G; cbn [run marked_calls].
  - intros [= <-] i c Hc. apply (matches_ext extra); [lia|by apply G].
  - destruct (exec l W) as [W1|] eqn:E; [|done]. cbn [mbind option_bind]. intros H. pose proof (IH _ _ (exec_good _ _ _ _ G E) H) as G'.
    intros i c Hc. specialize (G' i c Hc). by apply (matches_ext (fun i => extra i + marked_call l i + marked_calls ls i)); [lia|].
Qed.

Lemma run_good flags ls W : run ls (start flags) = Some W -> good (marked_calls ls) W.
Proof.
  intros H i c Hc. apply (matches_ext (fun i => 0 + marked_calls ls i)); [done|]. by apply (run_from_good _ _ _ _ (start_good flags) H).
Qed.

(** C8: in every run, the pending sync replies of a connection are the calls of
    [sendSyncMessage] on the stack of the main thread, in their order; a reply
    that is stored for a request is a reply for this request; and the counters
    of sends and of dispatches are the numbers of these calls, as unsigned
    integers, so that they are back at 0 when the main thread is idle.  The
    counter of marked dispatches is their number plus what clients have added to
    it, less what they have taken from it, themselves. *)
Theorem connection_counters_match_stack flags ls W i c :
  run ls (start flags) = Some W -> conns W !! i = Some c ->
  p_syncRequestID <$> m_pendingSyncReplies c = wait_ids i (stack W) /\
  (forall p m, p ∈ m_pendingSyncReplies c -> replyDecoder p = Some m -> destinationID m = p_syncRequestID p) /\
  m_inSendSyncCount c = u32 (zlen (wait_ids i (stack W))) /\
  m_inDispatchMessageCount c = u32 (count (in_dispatch i) (stack W)) /\
  m_inDispatchMarkedCount c = u32 (count (in_marked i) (stack W) + marked_calls ls i).
Proof.
  intros H Hc. destruct (run_good _ _ _ H i c Hc) as [A B C D E F]. repeat (split; [done|]). split; [|done].
  intros p m Hp Hm. rewrite Forall_forall in B. specialize (B p Hp). unfold reply_ok in B. rewrite Hm in B. apply B.
Qed.

(** In the middle of the sample run, connection 0 is in a dispatch and waits for
    the reply to request 1; here a client has also counted a marked dispatch. *)
Definition counted_run : list label := Enter :: Act (IncrementMarkedCount 0) :: Return false true :: sample_run.

Lemma connection_counters_match_stack_witness :
  exists W c, run counted_run (start [false; false]) = Some W /\ conns W !! 0%nat = Some c /\
    p_syncRequestID <$> m_pendingSyncReplies c = [1] /\ m_inDispatchMessageCount c = 1 /\
    m_inDispatchMarkedCount c = u32 (count (in_marked 0) (stack W) + 1).
Proof.
  eexists _, _. split; [vm_compute; reflexivity|]. split; [reflexivity|].
  match goal with |- p_syncRequestID <$> m_pendingSyncReplies ?c = _ /\ _ =>
    destruct (connection_counters_match_stack [false; false] counted_run _ 0 c ltac:(vm_compute; reflexivity) eq_refl)
      as (A & _ & _ & D & E) end.
  split; [exact A|]. split; [exact D|exact E].
Defined.

End ConnectionDepth.
