(* ===== verification/IpcConnectionLive.v ===== *)
(** * Connections: no message is stranded

    A message waits in a queue only while something that will dispatch it is
    scheduled: a task or the timer for the incoming messages of a connection, a
    task for the messages dispatched during waits.  So when the main thread is
    idle, every message that came in has got its fate.  The second half needs
    that clients do not run the main run loop from their handlers, and a run
    shows that it is needed. *)
From stdpp Require Import gmap.
From S2P Require Import Prelude IpcEncoder IpcDecoder IpcConnection IpcConnectionProps IpcConnectionDepth.

#[local] Open Scope cfetch_scope.

Module ConnectionLive.
Import Connection ConnectionProps ConnectionDepth.

(** ** What is scheduled *)

Definition pending_tasks (i : nat) (ts : list task) : Z := zlen (filter (fun t => t = DispatchIncoming i) ts).

Definition queue_ok (ts : list task) (i : nat) (c : conn) : Prop :=
  m_incomingMessages c <> [] ->
  match m_throttlingLevel c with
  | None => zlen (m_incomingMessages c) <= pending_tasks i ts
  | Some _ => 1 <= pending_tasks i ts \/ m_timer c = true
  end.

Definition queued (W : world) : Prop := forall i c, conns W !! i = Some c -> queue_ok (tasks W) i c.

(** A loop of [DispatchSyncFor] holds messages of other connections; their
    tasks are still to come. *)
Definition frame_ok (ids : list nat) (f : frame) : Prop :=
  match f with
  | DispatchFor i l putBack =>
      (forall j m, (j, m) ∈ l -> j = i \/ j ∈ ids) /\ (forall j m, (j, m) ∈ putBack -> j ∈ ids)
  | _ => True
  end.

Record synced (W : world) : Prop := mk_synced {
  scheduled_tasks : forall j, j ∈ m_didSchedule W -> DispatchSyncFor j ∈ tasks W;
  scheduled_messages : forall j m, (j, m) ∈ m_messagesToDispatch W -> j ∈ m_didSchedule W;
  scheduled_frames : Forall (frame_ok (m_didSchedule W)) (stack W)
}.

(** ** Steps that do not touch the queues *)

Definition qview (c : conn) : list msg * option Z * bool := (m_incomingMessages c, m_throttlingLevel c, m_timer c).

(** Frames that hold no messages to put back, and in which the main thread is not
    parked for a reply. *)
Definition plain (f : frame) : Prop :=
  match f with DispatchFor _ _ _ | WaitSync _ _ Waiting => False | _ => True end.

Record light (W W' : world) : Prop := mk_light {
  light_tasks : tasks W' = tasks W;
  light_toDispatch : m_messagesToDispatch W' = m_messagesToDispatch W;
  light_didSchedule : m_didSchedule W' = m_didSchedule W;
  light_conns : forall j, qview <$> conns W' !! j = qview <$> conns W !! j;
  light_stack : exists gs, stack W' = gs ++ stack W /\ Forall plain gs
}.

Lemma light_refl W : light W W.
Proof. by constructor; [..|exists []]. Qed.

Lemma light_trans A B C : light A B -> light B C -> light A C.
Proof.
  intros [T D S V (gs & K & P)] [T' D' S' V' (gs' & K' & P')]. constructor; try congruence.
  exists (gs' ++ gs). rewrite K', K. split; [by rewrite app_assoc|]. by apply Forall_app.
Qed.

#[global] Instance light_preorder : PreOrder light.
Proof. split; [exact light_refl|exact light_trans]. Qed.

Lemma light_upd i f c W : conns W !! i = Some c -> qview (f c) = qview c -> light W (upd i f W).
Proof.
  intros Hc Hf. constructor; try done; [|by exists []]. intros j. cbn. rewrite list_lookup_alter.
  case_decide as E; [|done]. subst j. rewrite Hc. cbn. by rewrite Hf.
Qed.

Lemma light_push f W : plain f -> light W (push f W).
Proof. intros H. constructor; try done. exists [f]. split; [done|]. by apply Forall_singleton. Qed.

(** Fields the queues do not depend on. *)
Lemma light_same W W' :
  tasks W' = tasks W -> m_messagesToDispatch W' = m_messagesToDispatch W -> m_didSchedule W' = m_didSchedule W ->
  conns W' = conns W -> stack W' = stack W -> light W W'.
Proof. intros A B C D E. constructor; [done..|by rewrite D|exists []; by rewrite E]. Qed.

Lemma light_fate i m f W : light W (record_fate i m f W).
Proof. by apply light_same. Qed.

Lemma light_call i id b W : light W (record_call i id b W).
Proof. by apply light_same. Qed.

Lemma light_lost i om f W : light W (record_lost i om f W).
Proof. destruct om; [apply light_fate|apply light_refl]. Qed.

Lemma queue_view ts i c c' : qview c' = qview c -> queue_ok ts i c -> queue_ok ts i c'.
Proof. intros [= E1 E2 E3] H. unfold queue_ok. by rewrite E1, E2, E3. Qed.

Lemma light_queued W W' : light W W' -> queued W -> queued W'.
Proof.
  intros L Q i c' Hc'. pose proof (light_conns _ _ L i) as E. rewrite Hc' in E.
  destruct (conns W !! i) as [c|] eqn:Hc; [|done]. injection E as E1 E2 E3.
  rewrite (light_tasks _ _ L). refine (queue_view _ _ c _ _ (Q i c Hc)). unfold qview. congruence.
Qed.

Lemma plain_ok ids f : plain f -> frame_ok ids f.
Proof. by destruct f. Qed.

Lemma light_synced W W' : light W W' -> synced W -> synced W'.
Proof.
  intros [T D S V (gs & K & P)] [A B C]. constructor; rewrite ?T, ?D, ?S; [done..|].
  rewrite K. apply Forall_app. split; [|done]. eapply Forall_impl; [exact P|]. apply plain_ok.
Qed.

Lemma on_conn_light i f W W' : (forall c, qview (f c) = qview c) -> on_conn i f W = Some W' -> light W W'.
Proof. intros Hf. unfold on_conn. conn_of W i c Hc. intros <-%(inj Some). exact (light_upd i (fun _ => f c) c W Hc (Hf c)). Qed.

Lemma send_view name dest sync id e u c : qview (sendMessage name dest sync id e u c) = qview c.
Proof. unfold sendMessage. by destruct (m_isValid c). Qed.

Lemma finishDispatch_light i marked old valid W W' : finishDispatch i marked old valid W = Some W' -> light W W'.
Proof.
  unfold finishDispatch. conn_of W i c Hc. intros <-%(inj Some). destruct (_ && _).
  - etransitivity; [|by apply light_push]. etransitivity; [|by apply light_push]. by apply (light_upd i _ c).
  - by apply (light_upd i _ c).
Qed.

Lemma deliver_view m c :
  match deliver m c with Call c' _ _ | Refuse c' _ => qview c' = qview c end.
Proof.
  unfold deliver, dispatchSyncMessage, dispatchDecoder, takeAsyncReplyHandler.
  repeat match goal with |- context [match ?e with _ => _ end] => lazymatch e with
    | context [match _ with _ => _ end] => fail | _ => destruct e end end; reflexivity.
Qed.

Lemma dispatchMessage_light i m W W' : dispatchMessage i m W = Some W' -> light W W'.
Proof.
  unfold dispatchMessage. conn_of W i c Hc.
  destruct (negb _); [intros <-%(inj Some); apply light_fate|].
  destruct (toWorkQueueReceiver m c); [intros <-%(inj Some); apply light_fate|].
  destruct (fullySynchronous m).
  { intros <-%(inj Some). etransitivity; [apply light_fate|by apply light_push]. }
  set (c1 := set_invalid _ _). pose proof (deliver_view m c1) as V.
  assert (forall c2 f, qview c2 = qview c1 -> light W (record_fate i m f (upd i (fun _ => c2) W))) as P.
  { intros c2 f E. etransitivity; [|apply light_fate]. by apply (light_upd i _ c). }
  destruct (deliver m c1) as [c2 reply handler|c2 valid].
  - intros <-%(inj Some). etransitivity; [exact (P c2 ToClient V)|].
    destruct handler as [id|]; [etransitivity; [|apply light_call]|]; by apply light_push.
  - intros H. etransitivity; [exact (P c2 Rejected V)|]. exact (finishDispatch_light _ _ _ _ _ _ H).
Qed.

(** ** The incoming messages *)

Lemma pending_app i ts us : pending_tasks i (ts ++ us) = pending_tasks i ts + pending_tasks i us.
Proof. unfold pending_tasks. by rewrite filter_app, zlen_app. Qed.

Lemma pending_nonneg i ts : 0 <= pending_tasks i ts.
Proof. apply zlen_nonneg. Qed.

Lemma pending_cons i t ts :
  pending_tasks i (t :: ts) = (if decide (t = DispatchIncoming i) then 1 else 0) + pending_tasks i ts.
Proof. unfold pending_tasks. rewrite filter_cons. case_decide; [|done]. by rewrite zlen_cons. Qed.

Lemma queue_more ts us i c : queue_ok ts i c -> queue_ok (ts ++ us) i c.
Proof.
  unfold queue_ok. rewrite pending_app. pose proof (pending_nonneg i us) as Hp. intros H Hne. specialize (H Hne).
  destruct (m_throttlingLevel c); [destruct H; [left; lia|by right]|lia].
Qed.

Lemma queued_dispatch t W : queued W -> queued (dispatch t W).
Proof. intros Q i c Hc. cbn [dispatch set_tasks tasks]. apply queue_more. by apply Q. Qed.

(** Every connection but [i]. *)
Definition queued_but (i : nat) (W : world) : Prop :=
  forall j c, j <> i -> conns W !! j = Some c -> queue_ok (tasks W) j c.

Lemma queued_but_upd i f W : queued_but i W -> queued_but i (upd i f W).
Proof. intros Q j c Hj Hc. cbn in Hc. rewrite list_lookup_alter_ne in Hc by congruence. by apply Q. Qed.

Lemma queued_all i W :
  queued_but i W -> (forall c, conns W !! i = Some c -> queue_ok (tasks W) i c) -> queued W.
Proof. intros Q Qi j c Hc. destruct (decide (j = i)) as [->|Hj]; [by apply Qi|by apply Q]. Qed.

Lemma queued_is_but i W : queued W -> queued_but i W.
Proof. intros Q j c _ Hc. by apply Q. Qed.

Lemma queued_upd i f c W :
  conns W !! i = Some c -> queued_but i W -> queue_ok (tasks W) i (f c) -> queued (upd i f W).
Proof.
  intros Hc Q Qi. apply (queued_all i); [by apply queued_but_upd|].
  intros c' Hc'. rewrite (lookup_upd W i f c Hc) in Hc'. by injection Hc' as <-.
Qed.

Lemma pending_here i ts : pending_tasks i (ts ++ [DispatchIncoming i]) = pending_tasks i ts + 1.
Proof. rewrite pending_app, pending_cons, decide_True by done. done. Qed.

Lemma enqueue_queued i m c W :
  conns W !! i = Some c -> queued W -> queued (enqueueIncomingMessage i m c W).
Proof.
  intros Hc Q. pose proof (Q i c Hc) as Qi. unfold enqueueIncomingMessage.
  set (f := set_incoming (m_incomingMessages c ++ [m])).
  assert (queue_ok (tasks W ++ [DispatchIncoming i]) i (f c)) as H1.
  { intros _. cbn. rewrite pending_here. destruct (m_throttlingLevel c) eqn:El.
    - left. pose proof (pending_nonneg i (tasks W)). lia.
    - rewrite zlen_app. unfold queue_ok in Qi. rewrite El in Qi. change (zlen [m]) with 1.
      destruct (m_incomingMessages c); [pose proof (pending_nonneg i (tasks W)); change (zlen (@nil msg)) with 0; lia|].
      specialize (Qi ltac:(done)). lia. }
  assert (queued (dispatch (DispatchIncoming i) (upd i f W))) as H2.
  { apply (queued_upd i f c (dispatch (DispatchIncoming i) W)); [done| |done].
    by apply queued_is_but, queued_dispatch. }
  destruct (m_throttlingLevel c) eqn:El; [|exact H2]. destruct (_ =? 1) eqn:En; [exact H2|].
  apply Z.eqb_neq in En. rewrite zlen_app in En. apply (queued_upd i f c); [done|by apply queued_is_but|].
  intros _. cbn. rewrite El. unfold queue_ok in Qi. rewrite El in Qi. apply Qi. intros Ee. by rewrite Ee in En.
Qed.

Lemma sync_queued i m W W' : syncProcessIncomingMessage i m W = Some W' -> queued W -> queued W'.
Proof.
  unfold syncProcessIncomingMessage, wakeUpClientRunLoop. destruct (dispatchable m W); [|done]. intros <-%(inj Some) Q.
  destruct (bool_decide _); [exact Q|]. exact (queued_dispatch (DispatchSyncFor i) W Q).
Qed.

Lemma queued_view i f c W : conns W !! i = Some c -> qview (f c) = qview c -> queued W -> queued (upd i f W).
Proof. intros Hc Hv. apply light_queued. by apply (light_upd i f c). Qed.

Lemma offer_queued i m c W W' :
  conns W !! i = Some c -> offerToWaiter i m c W = Some W' -> queued W -> queued W'.
Proof.
  intros Hc H Q. revert H. unfold offerToWaiter, notifyOne.
  destruct (m_waitingForMessage c) as [w|]; [|done]. destruct (w_decoder w); [done|].
  destruct (is_for _ _ m).
  - intros <-%(inj Some). refine (queued_view _ _ _ _ (lookup_upd _ _ _ _ Hc) _ _); [done|]. by apply (queued_view i _ c).
  - destruct (if dispatchSync w && isSyncMessage m then _ else _) as [W1|] eqn:E.
    + intros <-%(inj Some). destruct (dispatchSync w && isSyncMessage m); [|done].
      pose proof (sync_queued _ _ _ _ E Q). apply sync_conns in E as [E1 E2]. rewrite <- E1 in Hc.
      by apply (queued_view i _ c).
    + clear E. destruct (interruptIfSync w && _); [|done]. intros <-%(inj Some).
      match goal with |- context [enqueueIncomingMessage i m ?d (upd i ?f W)] =>
        apply (enqueue_queued i m d (upd i f W)); [exact (lookup_upd _ _ f _ Hc)|] end.
      by apply (queued_view i _ c).
Qed.

Lemma incoming_queued i m W W' : processIncomingMessage i m W = Some W' -> queued W -> queued W'.
Proof.
  unfold processIncomingMessage. conn_of W i c Hc. intros H Q. revert H.
  destruct (_ =? _).
  { intros <-%(inj Some). unfold processIncomingSyncReply. destruct (store_reply _ _) as [[[l old] b]|]; [|exact Q].
    assert (queued (upd i (set_pending l) W)) as Q1 by (by apply (queued_view i _ c)).
    destruct b, old; exact Q1. }
  destruct (negb _); [intros <-%(inj Some); by apply (queued_dispatch _ (record_fate i m Rejected (record_received i m W)))|].
  destruct (toWorkQueueReceiver m c); [by intros <-%(inj Some)|]. destruct (toThreadReceiver m c); [by intros <-%(inj Some)|].
  set (c1 := if isSyncMessage m then _ else _). set (W1 := upd i (fun _ => c1) (record_received i m W)).
  assert (conns W1 !! i = Some c1) as H1 by exact (lookup_upd (record_received i m W) _ (fun _ => c1) _ Hc).
  assert (queued W1) as Q1.
  { apply (queued_view i _ c (record_received i m W)); [done| |done]. unfold c1. by destruct (isSyncMessage m). }
  destruct (offerToWaiter i m c1 W1) as [W2|] eqn:E1; [intros <-%(inj Some); exact (offer_queued _ _ _ _ _ H1 E1 Q1)|].
  destruct (syncProcessIncomingMessage i m W1) as [W2|] eqn:E2; [intros <-%(inj Some); exact (sync_queued _ _ _ _ E2 Q1)|].
  intros <-%(inj Some). by apply enqueue_queued.
Qed.

Lemma didClose_queued i W W' : connectionDidClose i W = Some W' -> queued W -> queued W'.
Proof.
  unfold connectionDidClose. conn_of W i c Hc. intros <-%(inj Some) Q. apply queued_dispatch.
  match goal with |- context [upd i ?f W] => assert (queued (upd i f W)) as Q1 by (by apply (queued_view i f c)) end.
  by destruct (bool_decide _).
Qed.

(** ** The main thread and the incoming messages *)

(** A message is taken out of the queue: what is needed is no more than before. *)
Lemma queue_take ts i m rest c :
  m_incomingMessages c = m :: rest -> queue_ok ts i c -> queue_ok ts i (set_incoming rest c).
Proof.
  intros Em Q Hne. unfold queue_ok in Q. rewrite Em in Q. specialize (Q ltac:(done)).
  cbn in *. destruct (m_throttlingLevel c); [done|]. rewrite zlen_cons in Q. lia.
Qed.

Lemma dispatchIncoming_queued i level W W' :
  dispatchIncomingMessages i level W = Some W' -> queued_but i W -> queued W'.
Proof.
  unfold dispatchIncomingMessages. conn_of W i c Hc. intros H Q. revert H.
  destruct (m_incomingMessages c) as [|m rest] eqn:Em.
  { intros <-%(inj Some). apply (queued_all i); [done|]. intros c' Hc'. rewrite Hc in Hc'. injection Hc' as <-.
    intros Hne. by rewrite Em in Hne. }
  destruct (numberOfMessagesToProcess level (zlen rest)) as [level' n].
  set (f := fun c => set_level (Some level') (set_incoming rest c)). set (W1 := upd i f W).
  assert (queued (if bool_decide (length rest = 0%nat) then W1 else scheduleMessagesDispatch i level' W1)) as Q2.
  { assert (conns W1 !! i = Some (f c)) as Hf by exact (lookup_upd _ _ f _ Hc). case_bool_decide as E.
    - apply (queued_upd i f c); [done..|]. intros Hne. by destruct rest.
    - unfold scheduleMessagesDispatch. destruct (negb _).
      + apply (queued_upd i _ (f c)); [done|by apply queued_but_upd|]. intros _. by right.
      + apply (queued_upd i f c (dispatch (DispatchIncoming i) W)); [done| |].
        * intros j d Hj Hd. apply queue_more. by apply Q.
        * intros _. left. cbn [dispatch set_tasks tasks]. rewrite pending_here.
          pose proof (pending_nonneg i (tasks W)). lia. }
  intros H. apply (light_queued _ _ (dispatchMessage_light _ _ _ _ H)). exact Q2.
Qed.

Lemma dispatchOne_queued i c W W' :
  conns W !! i = Some c -> m_throttlingLevel c = None -> zlen (m_incomingMessages c) <= pending_tasks i (tasks W) + 1 ->
  dispatchOneIncomingMessage i W = Some W' -> queued_but i W -> queued W'.
Proof.
  intros Hc El Hn. unfold dispatchOneIncomingMessage. rewrite Hc. cbn [mbind option_bind]. intros H Q. revert H.
  destruct (m_incomingMessages c) as [|m rest] eqn:Em.
  { intros <-%(inj Some). apply (queued_all i); [done|]. intros c' Hc'. rewrite Hc in Hc'. injection Hc' as <-.
    intros Hne. by rewrite Em in Hne. }
  intros H. apply (light_queued _ _ (dispatchMessage_light _ _ _ _ H)).
  apply (queued_upd i _ c); [done..|]. intros _. cbn. rewrite El. rewrite zlen_cons in Hn. lia.
Qed.

Lemma queued_tail t ts W : tasks W = t :: ts -> (forall i, t <> DispatchIncoming i) -> queued W -> queued (set_tasks ts W).
Proof.
  intros Et Ht Q i c Hc. pose proof (Q i c Hc) as Qi. unfold queue_ok in *. rewrite Et, pending_cons, decide_False in Qi by done.
  exact Qi.
Qed.

Lemma task_queued t ts W W' : tasks W = t :: ts -> run_task t (set_tasks ts W) = Some W' -> queued W -> queued W'.
Proof.
  intros Et. destruct t as [i|i|i name|i]; cbn [run_task];
    unfold dispatchMessagesForConnection, dispatchDidReceiveInvalidMessage, dispatchConnectionDidClose.
  - change (conns (set_tasks ts W)) with (conns W). conn_of W i c Hc. intros H Q.
    assert (queued_but i (set_tasks ts W)) as Qb.
    { intros j d Hj Hd. pose proof (Q j d Hd) as Qj. unfold queue_ok in *.
      rewrite Et, pending_cons, decide_False in Qj by congruence. exact Qj. }
    destruct (m_throttlingLevel c) as [level|] eqn:El; [exact (dispatchIncoming_queued _ _ _ _ H Qb)|].
    apply (dispatchOne_queued i c (set_tasks ts W) W'); [done..| |done|done].
    pose proof (Q i c Hc) as Qi. unfold queue_ok in Qi. rewrite El, Et, pending_cons, decide_True in Qi by done.
    cbn [set_tasks tasks]. destruct (m_incomingMessages c) eqn:Em; [pose proof (pending_nonneg i ts); change (zlen (@nil msg)) with 0; lia|].
    specialize (Qi ltac:(done)). lia.
  - intros <-%(inj Some) Q. by apply (queued_tail (DispatchSyncFor i) ts W) in Q.
  - change (conns (set_tasks ts W)) with (conns W). conn_of W i c Hc. intros <-%(inj Some) Q.
    apply (queued_tail _ _ W Et) in Q; [|done]. by destruct (m_isValid c).
  - change (conns (set_tasks ts W)) with (conns W). conn_of W i c Hc. intros <-%(inj Some) Q.
    apply (queued_tail _ _ W Et) in Q; [|done]. destruct (m_isValid c); [|done].
    exact (queued_view i (set_valid false) c (set_tasks ts W) Hc eq_refl Q).
Qed.

Lemma timer_queued i W W' : timerFired i W = Some W' -> queued W -> queued W'.
Proof.
  unfold timerFired. conn_of W i c Hc. destruct (m_timer c); [|done]. destruct (m_throttlingLevel c); [|done].
  intros H Q. apply (dispatchIncoming_queued _ _ _ _ H). by apply queued_but_upd, queued_is_but.
Qed.

Lemma finishSendSync_light i reply left c W : conns W !! i = Some c -> light W (finishSendSync i reply left c W).
Proof.
  intros Hc. unfold finishSendSync. etransitivity; [|apply light_lost]. etransitivity; [|apply light_lost].
  by apply (light_upd i _ c).
Qed.

Lemma leaveWait_light i c f W : conns W !! i = Some c -> light W (leaveWait i c f W).
Proof. intros Hc. unfold leaveWait. etransitivity; [|apply light_lost]. by apply (light_upd i _ c). Qed.

(** The steps of a wait: the swap of [dispatchMessages], with which the messages
    of the list go to a frame, and the begin of the wait for the semaphore. *)
Definition swap_or_light (W W' : world) : Prop :=
  light W W' \/ light (set_toDispatch [] W) W' \/ exists i id, W' = push (WaitSync i id Waiting) W.

Lemma waitSync_light i id p W W' : waitForSyncReply i id p W = Some W' -> swap_or_light W W'.
Proof.
  unfold waitForSyncReply. conn_of W i c Hc.
  destruct p; [|destruct (last _) as [q|]; [cbn [mbind option_bind]|done]|done|destruct (last _) as [q|]; [cbn [mbind option_bind]|done]];
    intros <-%(inj Some).
  - right; left. etransitivity; [exact (light_push (WaitSync i id Checking) (set_toDispatch [] W) I)|by apply (light_push (DispatchList _))].
  - destruct (_ || _); [left; by apply finishSendSync_light|].
    destruct (negb _); [left; by apply finishSendSync_light|right; right; by exists i, id].
  - left. by apply finishSendSync_light.
Qed.

Lemma waitMessage_light i p W W' : waitForMessageStep i p W = Some W' -> swap_or_light W W'.
Proof.
  unfold waitForMessageStep. conn_of W i c Hc.
  destruct p; [|destruct (m_waitingForMessage c) as [w|]; [cbn [mbind option_bind]|done]|done|]; intros <-%(inj Some).
  - right; left. etransitivity; [exact (light_push (WaitMessage i Checking) (set_toDispatch [] W) I)|by apply (light_push (DispatchList _))].
  - left. destruct (w_decoder w).
    + etransitivity; [|by apply light_push]. by apply leaveWait_light.
    + etransitivity; [|by apply light_push]. by apply (light_upd i _ c).
  - left. by apply leaveWait_light.
Qed.

Lemma swap_queued W W' : swap_or_light W W' -> queued W -> queued W'.
Proof. intros [L|[L|(i & id & ->)]] Q; [exact (light_queued _ _ L Q)..|exact Q]. Qed.

Lemma swap_synced W W' : swap_or_light W W' -> synced W -> synced W'.
Proof.
  intros [L|[L|(i & id & ->)]]; [exact (light_synced _ _ L)| |].
  - intros [A B C]. apply (light_synced _ _ L). constructor; [done| |done]. intros j m H. by apply elem_of_nil in H.
  - intros [A B C]. constructor; [done..|]. by constructor.
Qed.

(** A step in a frame: the frame below is the state [W]. *)
Lemma main_queued f W W' : main_step f W = Some W' -> queued W -> queued W'.
Proof.
  destruct f as [|i marked old reply|i old|i|i ids|l|i l pb|i n|i id p|i name dest b d|i p]; cbn [main_step];
    unfold cancelHandlers_step, dispatchList_step, dispatchFor_step, batch_step; try done.
  - intros H. apply light_queued. by refine (on_conn_light _ _ _ _ _ H).
  - unfold clearAsyncReplyHandlers. conn_of W i c Hc. intros <-%(inj Some) Q. by apply (queued_view i _ c).
  - by destruct ids; intros <-%(inj Some).
  - destruct l as [|[i m] l]; [by intros <-%(inj Some)|]. intros H Q.
    exact (light_queued _ _ (dispatchMessage_light _ _ _ _ H) Q).
  - destruct l as [|[j m] l]; [by intros <-%(inj Some)|]. destruct (bool_decide _); [|by intros <-%(inj Some)].
    intros H Q. exact (light_queued _ _ (dispatchMessage_light _ _ _ _ H) Q).
  - destruct n as [|n]; [by intros <-%(inj Some)|]. conn_of W i c Hc.
    destruct (m_incomingMessages c) as [|m rest] eqn:Em; [by intros <-%(inj Some)|].
    intros H Q. apply (light_queued _ _ (dispatchMessage_light _ _ _ _ H)).
    apply (queued_upd i _ c W Hc (queued_is_but _ _ Q)). exact (queue_take _ _ _ _ _ Em (Q i c Hc)).
  - intros H. exact (swap_queued _ _ (waitSync_light _ _ _ _ _ H)).
  - unfold beginWait. conn_of W i c Hc. intros <-%(inj Some) Q. destruct (m_waitingForMessage c); [done|].
    destruct (m_shouldWaitForMessages c); [|done]. by apply (queued_view i _ c).
  - intros H. exact (swap_queued _ _ (waitMessage_light _ _ _ _ H)).
Qed.

Lemma wake_light f W W' : wake f W = Some W' -> light W W'.
Proof.
  destruct f as [| | | | | | | |i id p| |i p]; cbn [wake]; try done; destruct p; try done.
  - destruct (m_semaphore W); [|done]. intros <-%(inj Some). etransitivity; [|by apply light_push]. by apply light_same.
  - conn_of W i c Hc. destruct (m_waitingForMessage c) as [w|]; [|done]. cbn [mbind option_bind].
    destruct (m_parked c); [done|]. intros <-%(inj Some).
    destruct (messageWaitingInterrupted w); [by apply leaveWait_light|by apply light_push].
Qed.

Lemma timeout_light f W W' : timeout f W = Some W' -> light W W'.
Proof.
  destruct f as [| | | | | | | |i id p| |i p]; cbn [timeout]; try done; destruct p; try done.
  - destruct (m_semaphore W); [done|]. intros <-%(inj Some). by apply light_push.
  - intros <-%(inj Some). by apply light_push.
Qed.

Lemma return_light f keep valid W W' : return_from f keep valid W = Some W' -> light W W'.
Proof.
  destruct f as [|i marked old reply| | | | | | | | |]; cbn [return_from]; try done; [by intros <-%(inj Some)|].
  destruct (match reply with Some id => _ | None => _ end) as [W1|] eqn:E; [|done]. cbn [mbind option_bind].
  intros H. transitivity W1; [|exact (finishDispatch_light _ _ _ _ _ _ H)].
  destruct reply as [id|]; [|by injection E as <-]. destruct keep; [|by injection E as <-].
  refine (on_conn_light _ _ _ _ _ E). intros c. apply send_view.
Qed.

Lemma take_message_length name dest l m rest :
  take_message name dest l = Some (m, rest) -> zlen l = zlen rest + 1.
Proof.
  revert rest. induction l as [|n l IH]; intros rest; cbn [take_message]; [done|].
  destruct (is_for name dest n); [intros [= <- <-]; by rewrite zlen_cons, Z.add_comm|].
  destruct (take_message name dest l) as [[m' rest']|]; [|done]. intros [= <- <-].
  rewrite !zlen_cons, (IH rest' eq_refl). lia.
Qed.

(** The calls of a client that take a message or start the throttling. *)
Lemma act_queued a W W' : act a W = Some W' -> queued W -> queued W'.
Proof.
  destruct a as [i n d e u|i n d e u|i n d f|i n d b s|i|i|i r|i r|i r|i r|i|i id|i| | |i|i]; cbn [act];
    try (intros H; apply light_queued; refine (on_conn_light _ _ _ _ _ H); intros c; first [apply send_view|reflexivity]).
  - unfold sendWithAsyncReply. conn_of W i c Hc. intros <-%(inj Some) Q.
    apply (queued_view i _ c (set_asyncID _ W)); [done|by rewrite send_view|done].
  - unfold sendSyncMessage. conn_of W i c Hc. destruct (createSyncMessageEncoder c) as [id c1] eqn:E.
    injection E as <- <-. destruct (_ || _); intros <-%(inj Some) Q; apply (queued_view i _ c W Hc); try done.
    by rewrite send_view.
  - unfold waitForMessage. conn_of W i c Hc. intros <-%(inj Some) Q.
    destruct (take_message _ _ _) as [[m rest]|] eqn:E; [|by destruct (_ && _)].
    apply (queued_upd i _ c W Hc (queued_is_but _ _ Q)). pose proof (Q i c Hc) as Qi. intros Hne. unfold queue_ok in Qi.
    pose proof (take_message_length _ _ _ _ _ E) as Hl.
    cbn in *. assert (m_incomingMessages c <> []) as Hn by (intros En; rewrite En in Hl; pose proof (zlen_nonneg rest); change (zlen (@nil msg)) with 0 in Hl; lia).
    specialize (Qi Hn). destruct (m_throttlingLevel c); [done|lia].
  - unfold on_conn. conn_of W i c Hc. intros <-%(inj Some) Q. apply (queued_upd i _ c W Hc (queued_is_but _ _ Q)).
    unfold enableIncomingMessagesThrottling. destruct (m_throttlingLevel c) eqn:El; [by apply Q|].
    pose proof (Q i c Hc) as Qi. intros Hne. left. cbn in Hne. unfold queue_ok in Qi. rewrite El in Qi. specialize (Qi Hne).
    destruct (m_incomingMessages c) as [|m l]; [done|]. rewrite zlen_cons in Qi. pose proof (zlen_nonneg l). lia.
  - by intros <-%(inj Some).
  - by intros <-%(inj Some).
Qed.

Lemma exec_queued l W W' : queued W -> exec l W = Some W' -> queued W'.
Proof.
  intros Q. destruct l as [i m|i|i|i n|i name dest sy e u|nested|nested i| | | | |a|keep valid]; cbn [exec].
  - conn_of W i c Hc. destruct (m_isConnected c); [|done]. intros H. exact (incoming_queued _ _ _ _ H Q).
  - conn_of W i c Hc. destruct (m_shouldWaitForSyncReplies c); [|done]. intros H. exact (didClose_queued _ _ _ H Q).
  - conn_of W i c Hc. destruct (m_isValid c); [done|]. intros <-%(inj Some). by apply (queued_view i _ c).
  - unfold sendOutgoingMessages. conn_of W i c Hc. destruct (m_isConnected c); [|done].
    intros <-%(inj Some). by apply (queued_view i _ c).
  - intros H. refine (light_queued _ _ (on_conn_light _ _ _ _ _ H) Q). intros c. apply send_view.
  - destruct (in_loop nested W); [|done]. destruct (tasks W) as [|t ts] eqn:Et; [done|]. intros H. exact (task_queued _ _ _ _ Et H Q).
  - destruct (in_loop nested W); [|done]. intros H. exact (timer_queued _ _ _ H Q).
  - destruct (stack W); [|done]. by intros <-%(inj Some).
  - destruct (stack W) as [|f fs]; [done|]. intros H. exact (main_queued _ _ _ H Q).
  - destruct (stack W) as [|f fs]; [done|]. intros H. exact (light_queued _ _ (wake_light _ _ _ H) Q).
  - destruct (stack W) as [|f fs]; [done|]. intros H. exact (light_queued _ _ (timeout_light _ _ _ H) Q).
  - destruct (stack W) as [|f fs]; [done|]. destruct (is_client f); [|done]. intros H. exact (act_queued _ _ _ H Q).
  - destruct (stack W) as [|f fs]; [done|]. intros H. exact (light_queued _ _ (return_light _ _ _ _ _ H) Q).
Qed.

Lemma run_queued flags ls W : run ls (start flags) = Some W -> queued W.
Proof.
  apply (run_invariant_all queued); [intros; by eapply exec_queued|].
  intros i c (b & ->)%start_conn. done.
Qed.

(** ** The messages dispatched during waits *)

(** Steps that only add tasks, and frames other than [DispatchFor]. *)
Record mild (W W' : world) : Prop := mk_mild {
  mild_tasks : tasks W ⊆ tasks W';
  mild_toDispatch : m_messagesToDispatch W' = m_messagesToDispatch W;
  mild_didSchedule : m_didSchedule W' = m_didSchedule W;
  mild_stack : exists gs, stack W' = gs ++ stack W /\ Forall plain gs
}.

Lemma light_mild W W' : light W W' -> mild W W'.
Proof. intros [T D S V K]. by constructor; [rewrite T|..]. Qed.

#[global] Instance mild_preorder : PreOrder mild.
Proof.
  split; [intros W; by apply light_mild|].
  intros A B C [T D S (gs & K & P)] [T' D' S' (gs' & K' & P')]. constructor; [set_solver|congruence..|].
  exists (gs' ++ gs). rewrite K', K. split; [by rewrite app_assoc|]. by apply Forall_app.
Qed.

Lemma mild_upd i f W : mild W (upd i f W).
Proof. constructor; try done. by exists []. Qed.

Lemma mild_dispatch t W : mild W (dispatch t W).
Proof. constructor; try done; [cbn; set_solver|by exists []]. Qed.

Lemma mild_push f W : plain f -> mild W (push f W).
Proof. intros H. by apply light_mild, light_push. Qed.

Lemma mild_synced W W' : mild W W' -> synced W -> synced W'.
Proof.
  intros [T D S (gs & K & P)] [A B C]. constructor; rewrite ?D, ?S; [set_solver|done|].
  rewrite K. apply Forall_app. split; [|done]. eapply Forall_impl; [exact P|]. apply plain_ok.
Qed.

Lemma enqueue_mild i m c W : mild W (enqueueIncomingMessage i m c W).
Proof.
  unfold enqueueIncomingMessage. destruct (m_throttlingLevel c); [destruct (_ =? 1)|];
    first [apply mild_upd|etransitivity; [apply mild_upd|apply mild_dispatch]].
Qed.

Lemma sync_synced i m W W' : syncProcessIncomingMessage i m W = Some W' -> synced W -> synced W'.
Proof.
  unfold syncProcessIncomingMessage, wakeUpClientRunLoop. destruct (dispatchable m W); [|done].
  intros <-%(inj Some) [A B C]. case_bool_decide as E.
  - constructor; [done| |done]. cbn. intros j k [H|H]%elem_of_app; [by eapply B|]. apply list_elem_of_singleton in H. congruence.
  - constructor; cbn.
    + intros j [->|H]%elem_of_cons; [set_solver|]. apply elem_of_app. left. by apply A.
    + intros j k [H|H]%elem_of_app; [apply elem_of_cons; right; by eapply B|].
      apply list_elem_of_singleton in H. injection H as -> ->. apply elem_of_cons. by left.
    + eapply Forall_impl; [exact C|]. intros f. destruct f; cbn; try done. intros [F1 F2]. split.
      * intros j k [->|H]%F1; [by left|right; set_solver].
      * intros j k H%F2. set_solver.
Qed.

Lemma offer_synced i m c W W' : offerToWaiter i m c W = Some W' -> synced W -> synced W'.
Proof.
  unfold offerToWaiter, notifyOne. destruct (m_waitingForMessage c) as [w|]; [|done]. destruct (w_decoder w); [done|].
  destruct (is_for _ _ m).
  - intros <-%(inj Some). apply mild_synced. etransitivity; apply mild_upd.
  - destruct (if dispatchSync w && isSyncMessage m then _ else _) as [W1|] eqn:E.
    + intros <-%(inj Some) S. destruct (dispatchSync w && isSyncMessage m); [|done].
      apply (mild_synced W1); [apply mild_upd|]. exact (sync_synced _ _ _ _ E S).
    + clear E. destruct (interruptIfSync w && _); [|done]. intros <-%(inj Some). apply mild_synced.
      etransitivity; [apply mild_upd|apply enqueue_mild].
Qed.

Lemma incoming_synced i m W W' : processIncomingMessage i m W = Some W' -> synced W -> synced W'.
Proof.
  unfold processIncomingMessage. conn_of W i c Hc. intros H S. revert H.
  assert (synced (record_received i m W)) as S0 by (by destruct S).
  destruct (_ =? _).
  { intros <-%(inj Some). unfold processIncomingSyncReply. destruct (store_reply _ _) as [[[l old] b]|]; [|by destruct S].
    destruct b, old; by destruct S. }
  destruct (negb _).
  { intros <-%(inj Some). refine (mild_synced _ _ _ S0). etransitivity; [apply light_mild, light_fate|apply mild_dispatch]. }
  destruct (toWorkQueueReceiver m c); [intros <-%(inj Some); by destruct S|].
  destruct (toThreadReceiver m c); [intros <-%(inj Some); by destruct S|].
  set (c1 := if isSyncMessage m then _ else _). set (W1 := upd i (fun _ => c1) (record_received i m W)).
  assert (synced W1) as S1 by exact (mild_synced _ _ (mild_upd i (fun _ => c1) _) S0).
  destruct (offerToWaiter i m c1 W1) as [W2|] eqn:E1; [intros <-%(inj Some); exact (offer_synced _ _ _ _ _ E1 S1)|].
  destruct (syncProcessIncomingMessage i m W1) as [W2|] eqn:E2; [intros <-%(inj Some); exact (sync_synced _ _ _ _ E2 S1)|].
  intros <-%(inj Some). exact (mild_synced _ _ (enqueue_mild i m c1 W1) S1).
Qed.

Lemma dispatchIncoming_mild i level W W' : dispatchIncomingMessages i level W = Some W' -> mild W W'.
Proof.
  unfold dispatchIncomingMessages. conn_of W i c Hc. destruct (m_incomingMessages c) as [|m rest]; [by intros <-%(inj Some)|].
  destruct (numberOfMessagesToProcess level (zlen rest)) as [level' n]. intros H.
  etransitivity; [|exact (light_mild _ _ (dispatchMessage_light _ _ _ _ H))]. etransitivity; [|by apply mild_push].
  destruct (bool_decide _); [apply mild_upd|]. etransitivity; [apply mild_upd|].
  unfold scheduleMessagesDispatch. destruct (negb _); [apply mild_upd|apply mild_dispatch].
Qed.

Lemma dispatchOne_mild i W W' : dispatchOneIncomingMessage i W = Some W' -> mild W W'.
Proof.
  unfold dispatchOneIncomingMessage. conn_of W i c Hc. destruct (m_incomingMessages c) as [|m rest]; [by intros <-%(inj Some)|].
  intros H. etransitivity; [|exact (light_mild _ _ (dispatchMessage_light _ _ _ _ H))]. apply mild_upd.
Qed.

(** A task that is run while no frame holds messages. *)
Lemma task_synced t ts W W' :
  stack W = [] -> tasks W = t :: ts -> run_task t (set_tasks ts W) = Some W' -> synced W -> synced W'.
Proof.
  intros Es Et H [A B C]. rewrite Et in A.
  assert ((forall i, t <> DispatchSyncFor i) -> synced (set_tasks ts W)) as S.
  { intros Ht. constructor; [|done..]. intros j [E|E]%A%elem_of_cons; [by destruct (Ht j)|done]. }
  destruct t as [i|i|i name|i]; cbn [run_task] in H;
    unfold dispatchMessagesForConnection, dispatchDidReceiveInvalidMessage, dispatchConnectionDidClose in H; [| |revert H..].
  - revert H. change (conns (set_tasks ts W)) with (conns W). conn_of W i c Hc. intros H. specialize (S ltac:(done)).
    destruct (m_throttlingLevel c); [exact (mild_synced _ _ (dispatchIncoming_mild _ _ _ _ H) S)|exact (mild_synced _ _ (dispatchOne_mild _ _ _ H) S)].
  - injection H as <-. constructor; cbn.
    + intros j [Hj H]%list_elem_of_filter. apply A, elem_of_cons in H as [[= ->]|H]; done.
    + intros j m H. by apply elem_of_nil in H.
    + rewrite Es. apply Forall_singleton. cbn. split; [|intros j m H; by apply elem_of_nil in H].
      intros j m H%B. destruct (decide (j = i)) as [->|Hj]; [by left|right]. by apply list_elem_of_filter.
  - change (conns (set_tasks ts W)) with (conns W). conn_of W i c Hc. intros <-%(inj Some). specialize (S ltac:(done)).
    destruct (m_isValid c); [|done]. exact (mild_synced _ _ (mild_push App _ I) S).
  - change (conns (set_tasks ts W)) with (conns W). conn_of W i c Hc. intros <-%(inj Some). specialize (S ltac:(done)).
    destruct (m_isValid c); [|done]. refine (mild_synced _ _ _ S). etransitivity; [apply mild_upd|].
    etransitivity; by apply mild_push.
Qed.

Lemma synced_pop f fs W : stack W = f :: fs -> synced W -> synced (set_stack fs W) /\ frame_ok (m_didSchedule W) f.
Proof. intros E [A B C]. rewrite E in C. apply Forall_cons in C as [C1 C2]. by split; [constructor|]. Qed.

Lemma synced_push f W : frame_ok (m_didSchedule W) f -> synced W -> synced (push f W).
Proof. intros F [A B C]. constructor; [done..|]. cbn. by constructor. Qed.

Lemma main_synced f W W' : frame_ok (m_didSchedule W) f -> main_step f W = Some W' -> synced W -> synced W'.
Proof.
  intros F. destruct f as [|i marked old reply|i old|i|i ids|l|i l pb|i n|i id p|i name dest b d|i p]; cbn [main_step];
    unfold cancelHandlers_step, dispatchList_step, dispatchFor_step, batch_step; try done.
  - intros H. apply mild_synced, light_mild. by refine (on_conn_light _ _ _ _ _ H).
  - unfold clearAsyncReplyHandlers. conn_of W i c Hc. intros <-%(inj Some). apply mild_synced.
    etransitivity; [apply mild_upd|by apply mild_push].
  - destruct ids; intros <-%(inj Some); [done|]. apply mild_synced.
    etransitivity; [apply light_mild, light_call|]. etransitivity; by apply mild_push.
  - destruct l as [|[i m] l]; [by intros <-%(inj Some)|]. intros H. apply mild_synced.
    etransitivity; [|exact (light_mild _ _ (dispatchMessage_light _ _ _ _ H))]. by apply mild_push.
  - destruct F as [F1 F2]. destruct l as [|[j m] l].
    { intros <-%(inj Some) [A B C]. constructor; [done| |done]. cbn. intros j m [H|H]%elem_of_app; eauto. }
    intros H S. assert (forall pb', (forall j m, (j, m) ∈ pb' -> j ∈ m_didSchedule W) -> synced (push (DispatchFor i l pb') W)) as P.
    { intros pb' Hp. apply synced_push; [|done]. split; [|done]. intros k n Hk. apply (F1 k n). by apply elem_of_cons; right. }
    case_bool_decide as E.
    + exact (light_synced _ _ (dispatchMessage_light _ _ _ _ H) (P pb F2)).
    + injection H as <-. apply P. intros k n [Hk|Hk]%elem_of_app; [eauto|]. apply list_elem_of_singleton in Hk as [= -> ->].
      destruct (F1 j m) as [->|Hj]; [apply elem_of_cons; by left|done|done].
  - destruct n as [|n]; [by intros <-%(inj Some)|]. conn_of W i c Hc.
    destruct (m_incomingMessages c) as [|m rest]; [by intros <-%(inj Some)|]. intros H. apply mild_synced.
    etransitivity; [|exact (light_mild _ _ (dispatchMessage_light _ _ _ _ H))]. etransitivity; [apply mild_upd|by apply mild_push].
  - intros H. exact (swap_synced _ _ (waitSync_light _ _ _ _ _ H)).
  - unfold beginWait. conn_of W i c Hc. intros <-%(inj Some). destruct (m_waitingForMessage c); [done|].
    destruct (m_shouldWaitForMessages c); [|done]. apply mild_synced. etransitivity; [apply mild_upd|by apply mild_push].
  - intros H. exact (swap_synced _ _ (waitMessage_light _ _ _ _ H)).
Qed.

Lemma act_mild a W W' : act a W = Some W' -> mild W W'.
Proof.
  destruct a as [i n d e u|i n d e u|i n d f|i n d b s|i|i|i r|i r|i r|i r|i|i id|i| | |i|i]; cbn [act];
    try (unfold on_conn; conn_of W i c Hc; intros <-%(inj Some); apply mild_upd).
  - unfold sendWithAsyncReply. conn_of W i c Hc. intros <-%(inj Some).
    etransitivity; [|apply mild_upd]. by apply light_mild, light_same.
  - unfold sendSyncMessage. conn_of W i c Hc. destruct (createSyncMessageEncoder c) as [id c1].
    destruct (_ || _); intros <-%(inj Some); [apply mild_upd|]. etransitivity; [apply mild_upd|by apply mild_push].
  - unfold waitForMessage. conn_of W i c Hc. intros <-%(inj Some). destruct (take_message _ _ _) as [[m rest]|].
    + etransitivity; [apply mild_upd|]. etransitivity; [apply light_mild, light_fate|by apply mild_push].
    + destruct (_ && _); [done|by apply mild_push].
  - intros <-%(inj Some). by apply light_mild, light_same.
  - intros <-%(inj Some). by apply light_mild, light_same.
Qed.

(** Clients do not run the main run loop. *)
Definition not_nested (l : label) : bool :=
  match l with RunTask nested => negb nested | _ => true end.

Lemma exec_synced l W W' : not_nested l = true -> synced W -> exec l W = Some W' -> synced W'.
Proof.
  intros Hn S. destruct l as [i m|i|i|i n|i name dest sy e u|nested|nested i| | | | |a|keep valid]; cbn [exec].
  - conn_of W i c Hc. destruct (m_isConnected c); [|done]. intros H. exact (incoming_synced _ _ _ _ H S).
  - conn_of W i c Hc. destruct (m_shouldWaitForSyncReplies c); [|done]. unfold connectionDidClose. rewrite Hc.
    intros <-%(inj Some). refine (mild_synced _ _ _ S). etransitivity; [|apply mild_dispatch].
    destruct (bool_decide _); [apply mild_upd|]. etransitivity; [apply mild_upd|by apply light_mild, light_same].
  - conn_of W i c Hc. destruct (m_isValid c); [done|]. intros <-%(inj Some). exact (mild_synced _ _ (mild_upd i _ W) S).
  - unfold sendOutgoingMessages. conn_of W i c Hc. destruct (m_isConnected c); [|done].
    intros <-%(inj Some). exact (mild_synced _ _ (mild_upd i _ W) S).
  - unfold on_conn. conn_of W i c Hc. intros <-%(inj Some). exact (mild_synced _ _ (mild_upd i _ W) S).
  - destruct nested; [done|]. unfold in_loop. destruct (stack W) eqn:Es; [|done]. cbn [negb].
    destruct (tasks W) as [|t ts] eqn:Et; [done|]. intros H. exact (task_synced _ _ _ _ Es Et H S).
  - destruct (in_loop nested W); [|done]. unfold timerFired. conn_of W i c Hc. destruct (m_timer c); [|done].
    destruct (m_throttlingLevel c); [|done]. intros H. refine (mild_synced _ _ _ S).
    etransitivity; [|exact (dispatchIncoming_mild _ _ _ _ H)]. apply mild_upd.
  - destruct (stack W); [|done]. intros <-%(inj Some). exact (mild_synced _ _ (mild_push App W I) S).
  - destruct (stack W) as [|f fs] eqn:Es; [done|]. destruct (synced_pop f fs W Es S) as [S' F].
    intros H. exact (main_synced f (set_stack fs W) W' F H S').
  - destruct (stack W) as [|f fs] eqn:Es; [done|]. destruct (synced_pop f fs W Es S) as [S' F].
    intros H. exact (light_synced _ _ (wake_light _ _ _ H) S').
  - destruct (stack W) as [|f fs] eqn:Es; [done|]. destruct (synced_pop f fs W Es S) as [S' F].
    intros H. exact (light_synced _ _ (timeout_light _ _ _ H) S').
  - destruct (stack W) as [|f fs]; [done|]. destruct (is_client f); [|done]. intros H. exact (mild_synced _ _ (act_mild _ _ _ H) S).
  - destruct (stack W) as [|f fs] eqn:Es; [done|]. destruct (synced_pop f fs W Es S) as [S' F].
    intros H. exact (light_synced _ _ (return_light _ _ _ _ _ H) S').
Qed.

Lemma run_synced flags ls W : forallb not_nested ls = true -> run ls (start flags) = Some W -> synced W.
Proof.
  intros Hn. apply (run_invariant not_nested synced); [intros; by eapply exec_synced|done|].
  constructor; cbn; [| |constructor]; intros j; [intros H|intros m H]; by apply elem_of_nil in H.
Qed.

(** ** Nothing is left *)

(** The main thread waits for the run loop, and nothing is scheduled. *)
Definition idle (W : world) : bool :=
  bool_decide (tasks W = []) && bool_decide (length (stack W) = 0%nat) && forallb (fun c => negb (m_timer c)) (conns W).

Lemma idle_spec W : idle W = true -> tasks W = [] /\ stack W = [] /\ forall i c, conns W !! i = Some c -> m_timer c = false.
Proof.
  unfold idle. intros [[H1 H2]%andb_true_iff H3]%andb_true_iff. apply bool_decide_eq_true in H1, H2.
  split; [done|]. split; [by apply nil_length_inv|]. intros i c Hc. rewrite forallb_forall in H3.
  apply negb_true_iff, H3, list_elem_of_In. by eapply list_elem_of_lookup_2.
Qed.

Lemma idle_conn_msgs extra W i c : good extra W -> queued W -> idle W = true -> conns W !! i = Some c -> conn_msgs c = [].
Proof.
  intros G Q (Ht & Es & Htm)%idle_spec Hc. destruct (G i c Hc) as [A B C D E F]. rewrite Es in A, F. cbn in A, F.
  apply fmap_nil_inv in A. unfold conn_msgs. rewrite A. destruct (m_waitingForMessage c); [done|].
  specialize (Q i c Hc). unfold queue_ok in Q. rewrite Ht, (Htm i c Hc) in Q. change (pending_tasks i []) with 0 in Q.
  destruct (m_incomingMessages c) as [|m l]; [done|]. specialize (Q ltac:(done)).
  destruct (m_throttlingLevel c); [by destruct Q|]. rewrite zlen_cons in Q. pose proof (zlen_nonneg l). lia.
Qed.

(** C7: when clients do not run the main run loop from their handlers, and the
    main thread has nothing left to do, every message that came in has been
    handed to a client, a receiver or a waiter, or dropped for one of the listed
    reasons; no message is left in a queue that nobody will look at. *)
Theorem connection_idle_no_message_left flags ls W :
  forallb not_nested ls = true -> run ls (start flags) = Some W -> idle W = true ->
  received W ≡ₚ (fates W).*1.
Proof.
  intros Hn HR Hi. assert (transit W = []) as ET.
  { pose proof (run_good _ _ _ HR) as G. pose proof (run_queued _ _ _ HR) as Q. destruct (run_synced _ _ _ Hn HR) as [A B C].
    unfold transit. rewrite conns_msgs_nil.
    2:{ intros c (i & Hc)%list_elem_of_lookup. by apply (idle_conn_msgs (marked_calls ls) W i). }
    apply idle_spec in Hi as (Ht & Es & _). rewrite Es. cbn. rewrite app_nil_r.
    destruct (m_messagesToDispatch W) as [|[j m] l]; [done|].
    specialize (B j m (list_elem_of_here _ _)). specialize (A j B). rewrite Ht in A. by apply elem_of_nil in A. }
  pose proof (surplus_permutation W (fun x => run_surplus x flags ls W HR)) as P. by rewrite ET, app_nil_r in P.
Qed.

Lemma connection_idle_no_message_left_witness :
  exists W, run (sample_run ++ sample_rest) (start [false; false]) = Some W /\ received W ≡ₚ sample_fates.*1.
Proof.
  eexists. split; [vm_compute; reflexivity|].
  apply (connection_idle_no_message_left [false; false] (sample_run ++ sample_rest)); vm_compute; reflexivity.
Defined.

(** ** When a client runs the main run loop *)

Definition msg_yes : msg := mk_msg 5 1 7 false Yes false None.

(** Messages for connections 0 and 1 are dispatched in the loop for connection
    0, whose client runs the run loop: the task for connection 1 finds nothing,
    and then the message is put back. *)
Definition nested_run : list label :=
  [Incoming 0 msg_yes; Incoming 1 msg_yes; RunTask false; Main; RunTask true; Main; Return true true; Main; Main].

(** With a client that runs the main run loop while
    [dispatchMessagesAndResetDidScheduleDispatchMessagesForConnection] is in its
    loop, a message of another connection can be put back after the task that
    was to dispatch it has run: the main thread is idle and the message stays. *)
Theorem nested_run_loop_strands_message :
  exists W, run nested_run (start [false; false]) = Some W /\ idle W = true /\
    m_messagesToDispatch W = [(1%nat, msg_yes)] /\ (fates W).*1 = [(0%nat, msg_yes)].
Proof. eexists. split; [vm_compute; reflexivity|]. by vm_compute. Qed.

End ConnectionLive.
