(* ===== verification/IpcConnectionWait.v ===== *)
(** * Connections: waiting for replies and for messages

    A wait for a sync reply is always woken up by the reply and by the close of
    the connection.  A wait for a message is not: the close, or the message
    itself, may come at a moment where it goes unnoticed. *)
From stdpp Require Import gmap.
From S2P Require Import Prelude IpcEncoder IpcDecoder IpcConnection IpcConnectionProps IpcConnectionDepth IpcConnectionLive.

#[local] Open Scope cfetch_scope.

Module ConnectionWait.
Import Connection ConnectionProps ConnectionDepth ConnectionLive.

(** ** Sync replies *)

(** The innermost request has its reply, or will never have one. *)
Definition answered (c : conn) : bool :=
  match last (m_pendingSyncReplies c) with
  | Some p => didReceiveReply p || negb (m_shouldWaitForSyncReplies c)
  | None => false
  end.

Definition parked_on (W : world) : option nat :=
  match stack W with WaitSync i _ Waiting :: _ => Some i | _ => None end.

(** While the main thread is parked in a wait that can end, the semaphore is
    set. *)
Definition awake (W : world) : Prop :=
  forall i c, parked_on W = Some i -> conns W !! i = Some c -> answered c = true -> m_semaphore W = true.

(** Steps of other threads leave the stack alone; they set the semaphore, or
    leave it and whether a request is answered. *)
Record outside (W W' : world) : Prop := mk_outside {
  outside_stack : stack W' = stack W;
  outside_awake : m_semaphore W' = true \/
    m_semaphore W' = m_semaphore W /\
    forall i c', conns W' !! i = Some c' -> exists c, conns W !! i = Some c /\ answered c' = answered c
}.

Lemma outside_keeps W W' : outside W W' -> awake W -> awake W'.
Proof.
  intros [E [Hs|[Hs Hc]]] A i c' Hp Hc' Ha; [done|]. rewrite Hs. destruct (Hc i c' Hc') as (c & Hi & E1).
  apply (A i c); [|done|congruence]. unfold parked_on in *. by rewrite E in Hp.
Qed.

Lemma outside_upd i f c W :
  conns W !! i = Some c -> answered (f c) = answered c -> outside W (upd i f W).
Proof.
  intros Hc Hf. constructor; [done|]. right. split; [done|]. intros j c' Hj. cbn in Hj. rewrite list_lookup_alter in Hj.
  case_decide as E; [|by exists c']. subst j. rewrite Hc in Hj. injection Hj as <-. by exists c.
Qed.

Lemma outside_conns W W' : stack W' = stack W -> conns W' = conns W -> (m_semaphore W' = true \/ m_semaphore W' = m_semaphore W) -> outside W W'.
Proof.
  intros E Ec [Hs|Hs]; (constructor; [done|]); [by left|right]. split; [done|].
  intros i c Hi. exists c. by rewrite <- Ec.
Qed.

#[global] Instance outside_preorder : PreOrder outside.
Proof.
  split; [intros W; by apply outside_conns; auto|].
  intros A B C [E1 H1] [E2 H2]. constructor; [congruence|]. destruct H2 as [H2|[H2 K2]]; [by left|].
  destruct H1 as [H1|[H1 K1]]; [left; congruence|right]. split; [congruence|].
  intros i c' Hi. destruct (K2 i c' Hi) as (c & Hc & Ha). destruct (K1 i c Hc) as (b & Hb & Hab). exists b. split; [done|congruence].
Qed.

Lemma sync_outside i m W W' : syncProcessIncomingMessage i m W = Some W' -> outside W W'.
Proof.
  intros H. pose proof (sync_conns _ _ _ _ H) as [E1 E2]. apply outside_conns; [done..|]. left. revert H.
  unfold syncProcessIncomingMessage. destruct (dispatchable m W); [|done]. by intros <-%(inj Some).
Qed.

Lemma enqueue_outside i m c W : conns W !! i = Some c -> outside W (enqueueIncomingMessage i m c W).
Proof.
  intros Hc. transitivity (upd i (set_incoming (m_incomingMessages c ++ [m])) W); [by apply (outside_upd i _ c)|].
  unfold enqueueIncomingMessage. destruct (m_throttlingLevel c); [destruct (_ =? 1)|]; apply outside_conns; auto.
Qed.

(** A reply for a request that is not the innermost one changes nothing there;
    one for the innermost request sets the semaphore. *)
Lemma store_reply_last m l l' old :
  store_reply m l = Some (l', old, false) -> last l' = last l.
Proof.
  revert l' old. induction l as [|p l IH]; intros l' old; cbn [store_reply]; [done|].
  destruct (store_reply m l) as [[[rest o] la]|] eqn:E.
  - intros [= <- <- ->]. specialize (IH _ _ eq_refl).
    destruct l as [|q l]; [done|]. destruct rest as [|r rest]; [|by rewrite !last_cons_cons].
    cbn [store_reply] in E. destruct (store_reply m l) as [[[? ?] ?]|]; [done|]. by destruct (_ =? _).
  - destruct (_ =? _); [|done]. intros [= <- <- Hl]. apply bool_decide_eq_false in Hl. destruct l; [done|]. by rewrite !last_cons_cons.
Qed.

Lemma incoming_outside i m W W' : processIncomingMessage i m W = Some W' -> outside W W'.
Proof.
  unfold processIncomingMessage. conn_of W i c Hc. destruct (_ =? _).
  { intros <-%(inj Some). unfold processIncomingSyncReply.
    destruct (store_reply _ _) as [[[l old] b]|] eqn:E; [|by apply outside_conns; auto].
    destruct b; [destruct old; constructor; [done|by left|done|by left]|].
    assert (outside W (upd i (set_pending l) W)) as O.
    { apply (outside_upd i _ c); [done|]. unfold answered. cbn. by rewrite (store_reply_last _ _ _ _ E). }
    transitivity (upd i (set_pending l) W); [done|]. destruct old; apply outside_conns; auto. }
  destruct (negb _); [intros <-%(inj Some); apply outside_conns; auto|].
  destruct (toWorkQueueReceiver m c); [intros <-%(inj Some); apply outside_conns; auto|].
  destruct (toThreadReceiver m c); [intros <-%(inj Some); apply outside_conns; auto|].
  set (c1 := if isSyncMessage m then _ else _). set (W1 := upd i (fun _ => c1) (record_received i m W)).
  assert (conns W1 !! i = Some c1) as H1 by exact (lookup_upd (record_received i m W) _ (fun _ => c1) _ Hc).
  intros H. transitivity W1.
  { transitivity (record_received i m W); [apply outside_conns; auto|]. apply (outside_upd i _ c); [done|].
    unfold c1. by destruct (isSyncMessage m). }
  revert H. destruct (offerToWaiter i m c1 W1) as [W2|] eqn:E1.
  2:{ destruct (syncProcessIncomingMessage i m W1) as [W2|] eqn:E2; intros <-%(inj Some);
        [exact (sync_outside _ _ _ _ E2)|by apply enqueue_outside]. }
  intros <-%(inj Some). revert E1. unfold offerToWaiter, notifyOne.
  destruct (m_waitingForMessage c1) as [w|]; [|done]. destruct (w_decoder w); [done|]. destruct (is_for _ _ m).
  - intros <-%(inj Some). refine (transitivity (outside_upd i _ c1 _ H1 _) (outside_upd i _ _ _ (lookup_upd _ _ _ _ H1) _)); done.
  - destruct (if dispatchSync w && isSyncMessage m then _ else _) as [W3|] eqn:E.
    + intros <-%(inj Some). destruct (dispatchSync w && isSyncMessage m); [|done]. pose proof (sync_outside _ _ _ _ E) as O.
      transitivity W3; [done|]. apply sync_conns in E as [E1 _]. apply (outside_upd i _ c1); [by rewrite E1|done].
    + clear E. destruct (interruptIfSync w && _); [|done]. intros <-%(inj Some).
      match goal with |- context [enqueueIncomingMessage i m ?d (upd i ?f W1)] =>
        transitivity (upd i f W1); [by apply (outside_upd i _ c1)|apply enqueue_outside; exact (lookup_upd _ _ f _ H1)] end.
Qed.

Definition calm (f : frame) : Prop := match f with WaitSync _ _ Waiting => False | _ => True end.

(** Only the innermost frame may be parked, and then it is not forgotten. *)
Definition settled (W : world) : Prop := Forall calm (tail (stack W)) /\ awake W.

Lemma outside_settled W W' : outside W W' -> settled W -> settled W'.
Proof. intros O [C A]. split; [by rewrite (outside_stack _ _ O)|exact (outside_keeps _ _ O A)]. Qed.

Lemma calm_settled W : Forall calm (stack W) -> settled W.
Proof.
  intros C. split; [destruct (stack W); [constructor|by apply Forall_cons in C as [_ C]]|]. intros i c Hp. unfold parked_on in Hp.
  destruct (stack W) as [|f fs]; [done|]. apply Forall_cons in C as [C _]. destruct f; try done. by destruct p.
Qed.

Lemma grown_settled W W' gs : stack W' = gs ++ stack W -> Forall plain gs -> Forall calm (stack W) -> settled W'.
Proof.
  intros E P C. apply calm_settled. rewrite E. apply Forall_app. split; [|done]. eapply Forall_impl; [exact P|].
  intros f. by destruct f.
Qed.

Lemma mild_settled W W' : mild W W' -> Forall calm (stack W) -> settled W'.
Proof. intros [_ _ _ (gs & E & P)]. exact (grown_settled W W' gs E P). Qed.

Lemma light_settled W W' : light W W' -> Forall calm (stack W) -> settled W'.
Proof. intros L. exact (mild_settled _ _ (light_mild _ _ L)). Qed.

Lemma task_settled t W W' : run_task t W = Some W' -> Forall calm (stack W) -> settled W'.
Proof.
  intros H C. destruct t as [i|i|i name|i]; cbn [run_task] in H;
    unfold dispatchMessagesForConnection, dispatchDidReceiveInvalidMessage, dispatchConnectionDidClose in H; revert H.
  - conn_of W i c Hc. intros H. destruct (m_throttlingLevel c);
      [exact (mild_settled _ _ (dispatchIncoming_mild _ _ _ _ H) C)|exact (mild_settled _ _ (dispatchOne_mild _ _ _ H) C)].
  - intros <-%(inj Some). apply calm_settled. by constructor.
  - conn_of W i c Hc. intros <-%(inj Some). apply calm_settled. destruct (m_isValid c); by repeat constructor.
  - conn_of W i c Hc. intros <-%(inj Some). apply calm_settled. destruct (m_isValid c); by repeat constructor.
Qed.

Lemma waitSync_settled i id p W W' : waitForSyncReply i id p W = Some W' -> Forall calm (stack W) -> settled W'.
Proof.
  intros H C. destruct (waitSync_light _ _ _ _ _ H) as [L|[L|(j & jd & E)]]; [exact (light_settled _ _ L C)..|].
  revert H. subst W'. unfold waitForSyncReply. conn_of W i c Hc.
  destruct p; [by intros E%(inj Some)%(f_equal stack)| |done|].
  2:{ destruct (last _); [|done]. intros E%(inj Some)%(f_equal stack). cbn in E. unfold finishSendSync in E.
      destruct (replyDecoder p); apply (f_equal length) in E; cbn in E; lia. }
  destruct (last (m_pendingSyncReplies c)) as [p|] eqn:El; [|done]. cbn [mbind option_bind]. intros E%(inj Some).
  split; [done|]. intros k d Hk Hd Ha. exfalso. injection Hk as <-. destruct (_ || _) eqn:Eo.
  { apply (f_equal (length ∘ stack)) in E. unfold finishSendSync in E. destruct (replyDecoder p); cbn in E; lia. }
  destruct (negb (m_isValid c)).
  { apply (f_equal (length ∘ stack)) in E. unfold finishSendSync in E. destruct (replyDecoder p); cbn in E; lia. }
  apply (f_equal stack) in E. injection E as <- <-. change (conns W !! i = Some d) in Hd. rewrite Hc in Hd. injection Hd as <-.
  unfold answered in Ha. rewrite El in Ha. congruence.
Qed.

Lemma main_settled f W W' : main_step f W = Some W' -> Forall calm (stack W) -> settled W'.
Proof.
  intros H C. destruct f as [|i marked old reply|i old|i|i ids|l|i l pb|i n|i id p|i name dest b d|i p]; cbn [main_step] in H;
    unfold cancelHandlers_step, dispatchList_step, dispatchFor_step, batch_step in H; try done.
  - refine (light_settled _ _ _ C). by refine (on_conn_light _ _ _ _ _ H).
  - revert H. unfold clearAsyncReplyHandlers. conn_of W i c Hc. intros <-%(inj Some). apply calm_settled. by repeat constructor.
  - destruct ids; injection H as <-; apply calm_settled; by repeat constructor.
  - destruct l as [|[i m] l]; [injection H as <-; by apply calm_settled|].
    apply (light_settled _ _ (dispatchMessage_light _ _ _ _ H)). by constructor.
  - destruct l as [|[j m] l]; [injection H as <-; by apply calm_settled|]. destruct (bool_decide _).
    + apply (light_settled _ _ (dispatchMessage_light _ _ _ _ H)). by constructor.
    + injection H as <-. apply calm_settled. by constructor.
  - destruct n as [|n]; [injection H as <-; by apply calm_settled|]. revert H. conn_of W i c Hc.
    destruct (m_incomingMessages c) as [|m rest]; [intros <-%(inj Some); by apply calm_settled|].
    intros H. apply (light_settled _ _ (dispatchMessage_light _ _ _ _ H)). by constructor.
  - exact (waitSync_settled _ _ _ _ _ H C).
  - revert H. unfold beginWait. conn_of W i c Hc. intros <-%(inj Some). apply calm_settled.
    destruct (m_waitingForMessage c); [done|]. destruct (m_shouldWaitForMessages c); [|done]. by constructor.
  - destruct (waitMessage_light _ _ _ _ H) as [L|[L|(j & id & ->)]]; [exact (light_settled _ _ L C)..|].
    exfalso. revert H. unfold waitForMessageStep. conn_of W i c Hc.
    destruct p; [by intros E%(inj Some)%(f_equal stack)| |done|].
    + destruct (m_waitingForMessage c) as [w|]; [|done]. cbn [mbind option_bind]. destruct (w_decoder w); by intros E%(inj Some)%(f_equal stack).
    + intros E%(inj Some)%(f_equal (length ∘ stack)). unfold leaveWait in E. destruct (m_waitingForMessage c ≫= w_decoder); cbn in E; lia.
Qed.

Lemma exec_settled l W W' : settled W -> exec l W = Some W' -> settled W'.
Proof.
  intros S. assert (forall nested, in_loop nested W = true -> Forall calm (stack W)) as HL.
  { intros nested. unfold in_loop. destruct S as [C _]. destruct (stack W) as [|f fs]; [done|].
    intros [_ H]%andb_true_iff. constructor; [by destruct f|done]. }
  destruct l as [i m|i|i|i n|i name dest sy e u|nested|nested i| | | | |a|keep valid]; cbn [exec].
  - conn_of W i c Hc. destruct (m_isConnected c); [|done]. intros H. exact (outside_settled _ _ (incoming_outside _ _ _ _ H) S).
  - conn_of W i c Hc. destruct (m_shouldWaitForSyncReplies c); [|done]. unfold connectionDidClose. rewrite Hc.
    intros <-%(inj Some). refine (outside_settled _ _ _ S). constructor; [by destruct (bool_decide _)|].
    case_bool_decide as E; [right; split; [done|]|by left]. intros j c' Hj. cbn in Hj. rewrite list_lookup_alter in Hj.
    case_decide as Ej; [|by exists c']. subst j. rewrite Hc in Hj. injection Hj as <-. exists c. split; [done|].
    unfold answered. cbn. apply nil_length_inv in E. by rewrite E.
  - conn_of W i c Hc. destruct (m_isValid c); [done|]. intros <-%(inj Some). refine (outside_settled _ _ _ S). by apply (outside_upd i _ c).
  - unfold sendOutgoingMessages. conn_of W i c Hc. destruct (m_isConnected c); [|done].
    intros <-%(inj Some). refine (outside_settled _ _ _ S). by apply (outside_upd i _ c).
  - unfold on_conn. conn_of W i c Hc. intros <-%(inj Some). refine (outside_settled _ _ _ S). apply (outside_upd i _ c); [done|].
    unfold sendMessage. by destruct (m_isValid c).
  - destruct (in_loop nested W) eqn:El; [|done]. destruct (tasks W) as [|t ts]; [done|]. intros H. exact (task_settled _ _ _ H (HL _ El)).
  - destruct (in_loop nested W) eqn:El; [|done]. unfold timerFired. conn_of W i c Hc. destruct (m_timer c); [|done].
    destruct (m_throttlingLevel c); [|done]. intros H. exact (mild_settled _ _ (dispatchIncoming_mild _ _ _ _ H) (HL _ El)).
  - destruct (stack W) eqn:Es; [|done]. intros <-%(inj Some). apply calm_settled. cbn. rewrite Es. by repeat constructor.
  - destruct S as [C _]. destruct (stack W) as [|f fs] eqn:Es; [done|]. intros H. exact (main_settled _ _ _ H C).
  - destruct S as [C _]. destruct (stack W) as [|f fs] eqn:Es; [done|]. intros H. exact (light_settled _ _ (wake_light _ _ _ H) C).
  - destruct S as [C _]. destruct (stack W) as [|f fs] eqn:Es; [done|]. intros H. exact (light_settled _ _ (timeout_light _ _ _ H) C).
  - destruct S as [C _]. destruct (stack W) as [|f fs] eqn:Es; [done|]. destruct (is_client f) eqn:Ef; [|done].
    intros H. apply (mild_settled _ _ (act_mild _ _ _ H)). rewrite Es. constructor; [by destruct f|done].
  - destruct S as [C _]. destruct (stack W) as [|f fs] eqn:Es; [done|]. intros H. exact (light_settled _ _ (return_light _ _ _ _ _ H) C).
Qed.

Lemma run_settled flags ls W : run ls (start flags) = Some W -> settled W.
Proof. apply (run_invariant_all settled); [intros; by eapply exec_settled|]. by split; [constructor|]. Qed.

(** The fate of the decoder in a pending reply. *)
Definition reply_fate (i : nat) (p : PendingSyncReply) : list (nat * msg * fate) :=
  match replyDecoder p with Some m => [(i, m, ToWaiter)] | None => [] end.

(** The steps of a wait that is woken up and has nothing to dispatch. *)
Lemma woken_wait_ends W i id fs c p :
  stack W = WaitSync i id Waiting :: fs -> conns W !! i = Some c -> last (m_pendingSyncReplies c) = Some p ->
  didReceiveReply p || negb (m_shouldWaitForSyncReplies c) = true -> m_semaphore W = true -> m_messagesToDispatch W = [] ->
  exists W', run [Wake; Main; Main; Main] W = Some W' /\ stack W' = fs /\ fates W' = fates W ++ reply_fate i p.
Proof.
  intros Es Hc El Ha Hs Hd.
  set (W1 := push (WaitSync i id Dispatching) (set_semaphore false (set_stack fs W))).
  set (W2 := dispatchMessages (push (WaitSync i id Checking) (set_stack fs W1))).
  set (W3 := set_stack (WaitSync i id Checking :: fs) W2).
  set (W4 := finishSendSync i (replyDecoder p) None c (set_stack fs W3)).
  assert (exec Wake W = Some W1) as E1.
  { cbn [exec]. rewrite Es. cbn [wake set_stack m_semaphore]. by rewrite Hs. }
  assert (exec Main W1 = Some W2) as E2.
  { unfold exec. change (stack W1) with (WaitSync i id Dispatching :: fs). cbn [main_step];
    unfold cancelHandlers_step, dispatchList_step, dispatchFor_step, batch_step. unfold waitForSyncReply.
    change (conns (set_stack fs W1)) with (conns W). by rewrite Hc. }
  assert (exec Main W2 = Some W3) as E3 by (unfold exec, W3, W2, dispatchMessages; cbn; by rewrite Hd).
  assert (exec Main W3 = Some W4) as E4.
  { unfold exec. change (stack W3) with (WaitSync i id Checking :: fs). cbn [main_step];
    unfold cancelHandlers_step, dispatchList_step, dispatchFor_step, batch_step. unfold waitForSyncReply.
    change (conns (set_stack fs W3)) with (conns W). rewrite Hc. cbn [mbind option_bind]. rewrite El. cbn [mbind option_bind].
    by rewrite Ha. }
  exists W4. split; [unfold run; rewrite E1; cbn [mbind option_bind]; rewrite E2; cbn [mbind option_bind]; rewrite E3;
    cbn [mbind option_bind]; by rewrite E4|].
  unfold W4, finishSendSync, reply_fate. destruct (replyDecoder p); cbn [record_lost]; [done|]. split; [done|].
  by rewrite app_nil_r.
Qed.


Definition answered_wait : list label :=
  [Enter; Act (SendSync 0 9 9 false); Main; Main; Main; Incoming 0 msg_reply].


(** ** Messages *)

Definition no_timeout (l : label) : bool := match l with Timeout => false | _ => true end.

(** A client waits for a message; the connection is closed while
    [dispatchMessages] runs, when nobody is parked on the condition. *)
Definition closed_wait : list label :=
  [Enter; Act (WaitForAndDispatch 0 5 7 false false); Main; Main; Closed 0; Main; Main].

(** The connection is closed and the main thread is parked for a message. *)
Definition hung (W : world) : Prop :=
  stack W = [WaitMessage 0 Waiting; App] /\
  exists c, conns W = [c] /\ m_isConnected c = false /\ m_shouldWaitForSyncReplies c = false /\ m_parked c = true.

Lemma hung_step l W W' : no_timeout l = true -> hung W -> exec l W = Some W' -> hung W'.
Proof.
  intros Hl (Es & c & Ec & H1 & H2 & H3).
  assert (forall i d, conns W !! i = Some d -> i = 0%nat /\ d = c) as HC.
  { intros i d. rewrite Ec. destruct i as [|i]; [|by destruct i]. by intros [= <-]. }
  assert (forall f, m_isConnected (f c) = false -> m_shouldWaitForSyncReplies (f c) = false -> m_parked (f c) = true ->
    hung (upd 0 f W)) as HU.
  { intros f A B D. split; [done|]. exists (f c). by rewrite (upd_conns W 0 f c) by (by rewrite Ec); rewrite Ec. }
  destruct l as [i m|i|i|i n|i name dest sy e u|nested|nested i| | | | |a|keep valid]; cbn [exec]; unfold in_loop; rewrite ?Es;
    cbn [is_client andb main_step]; rewrite ?andb_false_r; try done.
  - conn_of W i d Hc. apply HC in Hc as [-> ->]. by rewrite H1.
  - conn_of W i d Hc. apply HC in Hc as [-> ->]. by rewrite H2.
  - conn_of W i d Hc. apply HC in Hc as [-> ->]. destruct (m_isValid c); [done|]. intros <-%(inj Some). by apply HU.
  - unfold sendOutgoingMessages. conn_of W i d Hc. apply HC in Hc as [-> ->]. by rewrite H1.
  - unfold on_conn. conn_of W i d Hc. apply HC in Hc as [-> ->]. intros <-%(inj Some).
    apply HU; unfold sendMessage; by destruct (m_isValid c).
  - unfold waitForMessageStep. cbn. by destruct (conns W).
  - cbn [wake set_stack conns]. rewrite Ec. cbn. destruct (m_waitingForMessage c); [|done]. cbn. by rewrite H3.
Qed.

(** [waitForMessage] does not look at [messageWaitingInterrupted] before it
    parks.  When the connection is closed while the wait dispatches other
    messages, the notification finds nobody, and the main thread stays in the
    wait until its timeout, whatever the other threads do. *)
Theorem closed_connection_hangs_wait :
  exists W, run closed_wait (start [false]) = Some W /\
    forall ls W', forallb no_timeout ls = true -> run ls W = Some W' -> stack W' = [WaitMessage 0 Waiting; App].
Proof.
  eexists. split; [vm_compute; reflexivity|]. intros ls W' Hl HR.
  enough (hung W') as [? _] by done. revert HR. apply (run_invariant no_timeout hung hung_step); [done|].
  split; [reflexivity|]. eexists. by repeat split.
Qed.

(** The message arrives after the look into the queue and before the state of
    the wait is set. *)
Definition missed_wait : list label :=
  [Enter; Act (WaitForAndDispatch 0 5 7 false false); Incoming 0 msg_async; Main; Main; Main; Main].

(** The message is handed to the waiter, then the connection is closed. *)
Definition lost_wait : list label :=
  [Enter; Act (WaitForAndDispatch 0 5 7 false false); Main; Main; Main; Main; Incoming 0 msg_async; Closed 0; Wake].

(** [waitForMessage] can wait for a message that has come.  In the first
    run the main thread is parked, and times out, while the message it waits for
    is in the queue of incoming messages; in the second the message was stored
    for the waiter and is destroyed because the connection closes before the
    waiter runs. *)
Theorem awaited_message_missed :
  (exists W W' c, run missed_wait (start [false]) = Some W /\ stack W = [WaitMessage 0 Waiting; App] /\
    conns W !! 0%nat = Some c /\ m_parked c = true /\ m_incomingMessages c = [msg_async] /\
    run [Timeout; Main] W = Some W' /\ stack W' = [App] /\ fates W' = []) /\
  (exists W, run lost_wait (start [false]) = Some W /\ stack W = [App] /\ fates W = [(0%nat, msg_async, LostInWait)]).
Proof.
  split.
  - do 3 eexists. split; [vm_compute; reflexivity|]. split; [reflexivity|]. split; [reflexivity|].
    split; [reflexivity|]. split; [reflexivity|]. split; [vm_compute; reflexivity|]. by split.
  - eexists. split; [vm_compute; reflexivity|]. by split.
Qed.

(** ** Throttling *)

(** A run of [dispatchIncomingMessages] is asked for at most 600 messages
    and at most the messages that are there, at least 60 of them when there are
    so many, and the throttling level stays between 0 and 9; it goes up while
    more than 600 messages wait and down to 0 when there are fewer. *)
Theorem throttling_bounds level total :
  0 <= level <= 9 -> 0 <= total ->
  let '(level', n) := numberOfMessagesToProcess level total in
  0 <= level' <= 9 /\ Z.min total 60 <= n <= Z.min total 600 /\
  (600 < total -> level' = Z.min (level + 1) 9) /\ (total <= 600 -> level' = Z.max (level - 1) 0).
Proof.
  intros Hl Ht. unfold numberOfMessagesToProcess, maxIncomingMessagesDispatchingBatchSize, maxThrottlingLevel.
  assert (60 <= 600 / (level + 1) <= 600) as Hb.
  { split; [apply Z.div_le_lower_bound; lia|]. apply Z.div_le_upper_bound; nia. }
  destruct (600 <? total) eqn:E; zb; [lia|]. destruct (level =? 0) eqn:E0; cbn [negb]; zb; lia.
Qed.

Lemma throttling_bounds_witness :
  let '(level', n) := numberOfMessagesToProcess 3 1000 in level' = 4 /\ n = 150 /\ 60 <= n <= 600.
Proof.
  pose proof (throttling_bounds 3 1000 ltac:(lia) ltac:(lia)) as H. vm_compute (numberOfMessagesToProcess 3 1000) in *.
  destruct H as (_ & H & _). split; [reflexivity|]. split; [reflexivity|lia].
Defined.

End ConnectionWait.
