(* ===== verification/IpcConnectionAsync.v ===== *)
(** * Connections: handlers of async replies

    [sendWithAsyncReply] registers a completion handler under a new identifier.
    Each handler is called exactly once, with the reply or with a cancellation,
    or is still registered. *)
From stdpp Require Import gmap.
From S2P Require Import Prelude IpcEncoder IpcDecoder IpcConnection IpcConnectionProps.

#[local] Open Scope cfetch_scope.

Module ConnectionAsync.
Import Connection ConnectionProps.

(** ** The handlers that are registered *)

Definition handlers (c : conn) : list Z := match m_asyncReplyHandlers c with Some hs => hs | None => [] end.

(** The handlers that [clearAsyncReplyHandlers] has taken out and not called. *)
Definition frame_ids (f : frame) : list Z := match f with CancelHandlers _ ids => ids | _ => [] end.

Definition registered (W : world) : list Z := concat (handlers <$> conns W) ++ concat (frame_ids <$> stack W).

Definition called (W : world) : list Z := (snd ∘ fst) <$> asyncCalls W.

Record hsame (W W' : world) : Prop := mk_hsame {
  hsame_calls : asyncCalls W' = asyncCalls W;
  hsame_id : asyncReplyHandlerID W' = asyncReplyHandlerID W;
  hsame_conns : handlers <$> conns W' = handlers <$> conns W;
  hsame_stack : concat (frame_ids <$> stack W') = concat (frame_ids <$> stack W)
}.

#[global] Instance hsame_preorder : PreOrder hsame.
Proof. split; [by constructor|]. intros A B C [] []. constructor; congruence. Qed.

Lemma hsame_upd i f c W : conns W !! i = Some c -> handlers (f c) = handlers c -> hsame W (upd i f W).
Proof.
  intros Hc Hf. constructor; try done. cbn [upd conns]. apply list_eq. intros j. rewrite !list_lookup_fmap, list_lookup_alter.
  case_decide as E; [|done]. subst j. rewrite Hc. cbn. by rewrite Hf.
Qed.

Lemma hsame_push f W : frame_ids f = [] -> hsame W (push f W).
Proof. intros H. constructor; try done. cbn. by rewrite H. Qed.

Lemma hsame_pop f fs W : stack W = f :: fs -> frame_ids f = [] -> hsame W (set_stack fs W).
Proof. intros E H. constructor; try done. cbn. rewrite E. cbn. by rewrite H. Qed.

Lemma hsame_same W W' :
  asyncCalls W' = asyncCalls W -> asyncReplyHandlerID W' = asyncReplyHandlerID W -> conns W' = conns W ->
  stack W' = stack W -> hsame W W'.
Proof. intros A B C D. constructor; [done..|by rewrite C|by rewrite D]. Qed.

Lemma hsame_lost i om f W : hsame W (record_lost i om f W).
Proof. destruct om; by apply hsame_same. Qed.

(** Peel a computed state, from the outside. *)
Ltac hsame :=
  cbv beta zeta;
  lazymatch goal with
  | |- hsame ?W ?W => reflexivity
  | |- hsame _ (push _ _) => etransitivity; [|apply hsame_push; reflexivity]; hsame
  | |- hsame _ (upd ?i ?f ?W) =>
      etransitivity; [|eapply (hsame_upd i f _ W); [conn_here|try reflexivity]]; [hsame|..]
  | |- hsame _ (record_lost _ _ _ _) => etransitivity; [|apply hsame_lost]; hsame
  | |- hsame _ (dispatch _ ?W) => transitivity W; [hsame|by apply hsame_same]
  | |- hsame _ (record_fate _ _ _ ?W) => transitivity W; [hsame|by apply hsame_same]
  | |- hsame _ (record_received _ _ ?W) => transitivity W; [hsame|by apply hsame_same]
  | |- hsame _ (set_toDispatch _ ?W) => transitivity W; [hsame|by apply hsame_same]
  | |- hsame _ (set_didSchedule _ ?W) => transitivity W; [hsame|by apply hsame_same]
  | |- hsame _ (set_semaphore _ ?W) => transitivity W; [hsame|by apply hsame_same]
  | |- hsame _ (set_unbounded _ ?W) => transitivity W; [hsame|by apply hsame_same]
  | |- hsame _ (set_tasks _ ?W) => transitivity W; [hsame|by apply hsame_same]
  | |- hsame _ (if ?b then _ else _) => destruct b; hsame
  | |- hsame _ (match ?b with Some _ => _ | None => _ end) => destruct b; hsame
  | |- _ => idtac
  end.

(** ** Steps that leave the handlers alone *)

Lemma sync_hsame i m W W' : syncProcessIncomingMessage i m W = Some W' -> hsame W W'.
Proof.
  unfold syncProcessIncomingMessage, wakeUpClientRunLoop. destruct (dispatchable m W); [|done]. intros <-%(inj Some). hsame.
Qed.

Lemma enqueue_hsame i m c W : conns W !! i = Some c -> hsame W (enqueueIncomingMessage i m c W).
Proof. intros Hc. unfold enqueueIncomingMessage. hsame. Qed.

Lemma offer_hsame i m c W W' : conns W !! i = Some c -> offerToWaiter i m c W = Some W' -> hsame W W'.
Proof.
  intros Hc. unfold offerToWaiter, notifyOne. destruct (m_waitingForMessage c) as [w|]; [|done].
  destruct (w_decoder w); [done|]. destruct (is_for _ _ m); [intros <-%(inj Some); hsame|].
  destruct (if dispatchSync w && isSyncMessage m then _ else _) as [W3|] eqn:E.
  - intros <-%(inj Some). destruct (dispatchSync w && isSyncMessage m); [|done]. transitivity W3; [exact (sync_hsame _ _ _ _ E)|].
    destruct (sync_hsame _ _ _ _ E) as [_ _ Ec _]. assert (exists d, conns W3 !! i = Some d) as [d Hd].
    { apply (f_equal (fun l => l !! i)) in Ec. rewrite !list_lookup_fmap, Hc in Ec. destruct (conns W3 !! i) as [d|]; [by exists d|done]. }
    hsame.
  - clear E. destruct (interruptIfSync w && _); [|done]. intros <-%(inj Some).
    match goal with |- context [enqueueIncomingMessage i m ?d (upd i ?f W)] =>
      transitivity (upd i f W); [hsame|apply enqueue_hsame; exact (lookup_upd _ _ f _ Hc)] end.
Qed.

Lemma incoming_hsame i m W W' : processIncomingMessage i m W = Some W' -> hsame W W'.
Proof.
  unfold processIncomingMessage. conn_of W i c Hc. destruct (_ =? _).
  { intros <-%(inj Some). unfold processIncomingSyncReply, wakeUpClientRunLoop.
    destruct (store_reply _ _) as [[[l old] b]|]; hsame. }
  destruct (negb _); [intros <-%(inj Some); hsame|]. destruct (toWorkQueueReceiver m c); [intros <-%(inj Some); hsame|].
  destruct (toThreadReceiver m c); [intros <-%(inj Some); hsame|].
  set (c1 := if isSyncMessage m then _ else _). set (W1 := upd i (fun _ => c1) (record_received i m W)).
  assert (conns W1 !! i = Some c1) as H1 by exact (lookup_upd (record_received i m W) _ (fun _ => c1) _ Hc).
  assert (hsame W W1) as S1 by (unfold W1; hsame; unfold c1; by destruct (isSyncMessage m)).
  intros H. transitivity W1; [done|]. revert H.
  destruct (offerToWaiter i m c1 W1) as [W2|] eqn:E1; [intros <-%(inj Some); exact (offer_hsame _ _ _ _ _ H1 E1)|].
  destruct (syncProcessIncomingMessage i m W1) as [W2|] eqn:E2; [intros <-%(inj Some); exact (sync_hsame _ _ _ _ E2)|].
  intros <-%(inj Some). by apply enqueue_hsame.
Qed.

Lemma finishDispatch_hsame i marked old valid W W' : finishDispatch i marked old valid W = Some W' -> hsame W W'.
Proof. unfold finishDispatch. conn_of W i c Hc. intros <-%(inj Some). hsame. Qed.

Lemma on_conn_hsame i f W W' : (forall c, handlers (f c) = handlers c) -> on_conn i f W = Some W' -> hsame W W'.
Proof. intros Hf. unfold on_conn. conn_of W i c Hc. intros <-%(inj Some). hsame. by rewrite Hf. Qed.

Lemma send_handlers name dest sync id e u c : handlers (sendMessage name dest sync id e u c) = handlers c.
Proof. unfold sendMessage. by destruct (m_isValid c). Qed.

(** ** Steps that call handlers *)

(** Identifiers go from the registered to the called ones. *)
Record moved (W W' : world) : Prop := mk_moved {
  moved_id : asyncReplyHandlerID W' = asyncReplyHandlerID W;
  moved_ids : called W' ++ registered W' ≡ₚ called W ++ registered W
}.

Lemma hsame_moved W W' : hsame W W' -> moved W W'.
Proof. intros [A B C D]. constructor; [done|]. unfold called, registered. by rewrite A, C, D. Qed.

#[global] Instance moved_preorder : PreOrder moved.
Proof.
  split; [intros W; by apply hsame_moved|]. intros A B C [I1 P1] [I2 P2]. constructor; [congruence|]. by rewrite P2.
Qed.

Lemma handlers_split l i c :
  l !! i = Some c -> exists R, concat (handlers <$> l) ≡ₚ handlers c ++ R /\
    forall f : conn -> conn, concat (handlers <$> alter f i l) ≡ₚ handlers (f c) ++ R.
Proof.
  revert i. induction l as [|d l IH]; intros [|i] H; try done.
  - injection H as ->. by exists (concat (handlers <$> l)).
  - destruct (IH i H) as (R & E1 & E2). exists (handlers d ++ R). split.
    + cbn. rewrite E1. by rewrite !(Permutation_app_comm (handlers d)), app_assoc.
    + intros f. cbn. change (list_alter f i l) with (alter f i l). rewrite (E2 f).
      by rewrite !(Permutation_app_comm (handlers d)), app_assoc.
Qed.

Lemma filter_out (id : Z) hs : NoDup hs -> id ∈ hs -> id :: filter (fun x => x <> id) hs ≡ₚ hs.
Proof.
  intros Hn Hi. apply NoDup_Permutation; [|done|].
  - constructor; [|by apply NoDup_filter]. intros [H _]%list_elem_of_filter. done.
  - intros x. rewrite elem_of_cons, list_elem_of_filter. destruct (decide (x = id)) as [->|Hx]; naive_solver.
Qed.

Lemma take_handlers id c c' b :
  takeAsyncReplyHandler id c = (c', b) -> NoDup (handlers c) ->
  (if b then id :: handlers c' ≡ₚ handlers c else handlers c' = handlers c) .
Proof.
  unfold takeAsyncReplyHandler, handlers. destruct (m_asyncReplyHandlers c) as [hs|] eqn:E; [|intros [= <- <-]; by rewrite E].
  destruct (negb _); [intros [= <- <-] _; cbn; by rewrite E|]. case_bool_decide as Hi; intros [= <- <-] Hn; [|by rewrite E].
  cbn. by apply filter_out.
Qed.

Lemma deliver_handlers m c :
  NoDup (handlers c) ->
  match deliver m c with
  | Call c' _ (Some id) => id :: handlers c' ≡ₚ handlers c
  | Call c' _ None | Refuse c' _ => handlers c' = handlers c
  end.
Proof.
  intros Hn. unfold deliver, dispatchSyncMessage, dispatchDecoder. destruct (isSyncMessage m).
  { destruct (leadingID m) as [id|]; [|done]. destruct (id =? 0); [done|]. by destruct (messageName m =? _). }
  destruct (messageReceiverName m =? _); [|done]. destruct (leadingID m) as [id|]; [|done].
  destruct (takeAsyncReplyHandler id c) as [c' [|]] eqn:E; exact (take_handlers _ _ _ _ E Hn).
Qed.

Lemma nodup_handlers W i c : NoDup (registered W) -> conns W !! i = Some c -> NoDup (handlers c).
Proof.
  intros Hn Hc. destruct (handlers_split _ _ _ Hc) as (R & E & _). unfold registered in Hn. rewrite E in Hn.
  by apply NoDup_app in Hn as [[Hn _]%NoDup_app _].
Qed.

Lemma dispatchMessage_moved i m W W' : NoDup (registered W) -> dispatchMessage i m W = Some W' -> moved W W'.
Proof.
  intros Hn. unfold dispatchMessage. conn_of W i c Hc.
  destruct (negb _); [intros <-%(inj Some); apply hsame_moved; hsame|].
  destruct (toWorkQueueReceiver m c); [intros <-%(inj Some); apply hsame_moved; hsame|].
  destruct (fullySynchronous m); [intros <-%(inj Some); apply hsame_moved; hsame|].
  set (c1 := set_invalid _ _). assert (NoDup (handlers c1)) as Hn1 by exact (nodup_handlers W i c Hn Hc).
  pose proof (deliver_handlers m c1 Hn1) as E. destruct (deliver m c1) as [c2 reply [id|]|c2 valid].
  - intros <-%(inj Some). constructor; [done|]. destruct (handlers_split _ _ _ Hc) as (R & E1 & E2).
    change (handlers c1) with (handlers c) in E. unfold called, registered. cbn. rewrite fmap_app. cbn.
    change (list_alter (λ _ : conn, c2) i (conns W)) with (alter (λ _ : conn, c2) i (conns W)).
    rewrite (E2 (fun _ => c2)), E1, <- E. cbn. rewrite <- !app_assoc. cbn. done.
  - intros <-%(inj Some). apply hsame_moved. hsame. exact E.
  - intros H. transitivity (upd i (fun _ => c2) W); [apply hsame_moved; hsame; exact E|].
    transitivity (record_fate i m Rejected (upd i (fun _ => c2) W)); [apply hsame_moved; hsame|].
    apply hsame_moved. exact (finishDispatch_hsame _ _ _ _ _ _ H).
Qed.

(** A message is dispatched from a state with the same handlers. *)
Lemma dispatch_after i m W W1 W' : NoDup (registered W) -> hsame W W1 -> dispatchMessage i m W1 = Some W' -> moved W W'.
Proof.
  intros Hn HS H. transitivity W1; [by apply hsame_moved|]. apply (dispatchMessage_moved i m); [|done].
  destruct HS as [_ _ C D]. unfold registered. by rewrite C, D.
Qed.

Lemma dispatchIncoming_moved i level W W' :
  NoDup (registered W) -> dispatchIncomingMessages i level W = Some W' -> moved W W'.
Proof.
  intros Hn. unfold dispatchIncomingMessages. conn_of W i c Hc.
  destruct (m_incomingMessages c) as [|m rest]; [by intros <-%(inj Some)|].
  destruct (numberOfMessagesToProcess level (zlen rest)) as [level' n]. apply dispatch_after; [done|].
  unfold scheduleMessagesDispatch. hsame.
Qed.

Lemma task_moved t W W' : NoDup (registered W) -> run_task t W = Some W' -> moved W W'.
Proof.
  intros Hn. destruct t as [i|i|i name|i]; cbn [run_task];
    unfold dispatchMessagesForConnection, dispatchDidReceiveInvalidMessage, dispatchConnectionDidClose.
  - conn_of W i c Hc. destruct (m_throttlingLevel c); [by apply dispatchIncoming_moved|].
    unfold dispatchOneIncomingMessage. rewrite Hc. cbn [mbind option_bind].
    destruct (m_incomingMessages c) as [|m rest]; [by intros <-%(inj Some)|]. apply dispatch_after; [done|]. hsame.
  - intros <-%(inj Some). apply hsame_moved. hsame.
  - conn_of W i c Hc. intros <-%(inj Some). apply hsame_moved. hsame.
  - conn_of W i c Hc. intros <-%(inj Some). apply hsame_moved. hsame.
Qed.

Lemma finishSendSync_hsame i reply left c W : conns W !! i = Some c -> hsame W (finishSendSync i reply left c W).
Proof. intros Hc. unfold finishSendSync. hsame. Qed.

Lemma leaveWait_hsame i c f W : conns W !! i = Some c -> hsame W (leaveWait i c f W).
Proof. intros Hc. unfold leaveWait. hsame. Qed.

Lemma waitSync_hsame i id p W W' : waitForSyncReply i id p W = Some W' -> hsame W W'.
Proof.
  unfold waitForSyncReply, dispatchMessages. conn_of W i c Hc.
  destruct p; [|destruct (last _) as [q|]; [cbn [mbind option_bind]|done]|done|destruct (last _) as [q|]; [cbn [mbind option_bind]|done]];
    intros <-%(inj Some); hsame; by apply finishSendSync_hsame.
Qed.

Lemma waitMessage_hsame i p W W' : waitForMessageStep i p W = Some W' -> hsame W W'.
Proof.
  unfold waitForMessageStep, dispatchMessages. conn_of W i c Hc.
  destruct p; [|destruct (m_waitingForMessage c) as [w|]; [cbn [mbind option_bind]|done]|done|];
    intros <-%(inj Some); hsame; by apply leaveWait_hsame.
Qed.

(** A step in a frame without handlers to cancel. *)
Lemma main_moved f W W' :
  frame_ids f = [] -> NoDup (registered W) -> main_step f W = Some W' -> moved W W'.
Proof.
  intros Hf Hn H. destruct f as [|i marked old reply|i old|i|i ids|l|i l pb|i n|i id p|i name dest b d|i p]; cbn [main_step] in H;
    unfold cancelHandlers_step, dispatchList_step, dispatchFor_step, batch_step in H; try done.
  - apply hsame_moved. by refine (on_conn_hsame _ _ _ _ _ H).
  - revert H. unfold clearAsyncReplyHandlers. conn_of W i c Hc. intros <-%(inj Some). constructor; [done|].
    destruct (handlers_split _ _ _ Hc) as (R & E1 & E2). unfold called, registered. cbn.
    change (list_alter (set_handlers None) i (conns W)) with (alter (set_handlers None) i (conns W)).
    rewrite (E2 (set_handlers None)), E1. cbn. fold (handlers c). apply Permutation_app_head.
    rewrite !app_assoc. apply Permutation_app_tail, Permutation_app_comm.
  - cbn in Hf. subst ids. injection H as <-. done.
  - destruct l as [|[i m] l]; [by injection H as <-|]. refine (dispatch_after _ _ _ _ _ Hn _ H). hsame.
  - destruct l as [|[j m] l]; [injection H as <-; apply hsame_moved; hsame|]. destruct (bool_decide _).
    + refine (dispatch_after _ _ _ _ _ Hn _ H). hsame.
    + injection H as <-. apply hsame_moved. hsame.
  - destruct n as [|n]; [by injection H as <-|]. revert H. conn_of W i c Hc.
    destruct (m_incomingMessages c) as [|m rest]; [by intros <-%(inj Some)|]. intros H.
    refine (dispatch_after _ _ _ _ _ Hn _ H). hsame.
  - apply hsame_moved. exact (waitSync_hsame _ _ _ _ _ H).
  - revert H. unfold beginWait. conn_of W i c Hc. intros <-%(inj Some). apply hsame_moved. hsame.
  - apply hsame_moved. exact (waitMessage_hsame _ _ _ _ H).
Qed.

(** One handler is cancelled. *)
Lemma cancel_moved i id ids fs W :
  stack W = CancelHandlers i (id :: ids) :: fs ->
  moved W (push App (push (CancelHandlers i ids) (record_call i id false (set_stack fs W)))).
Proof.
  intros Es. constructor; [done|]. unfold called, registered. cbn. rewrite fmap_app, Es. cbn.
  rewrite <- app_assoc. apply Permutation_app_head. cbn. rewrite <- Permutation_middle. done.
Qed.

Lemma wake_hsame f W W' : wake f W = Some W' -> hsame W W'.
Proof.
  destruct f as [| | | | | | | |i id p| |i p]; cbn [wake]; try done; destruct p; try done.
  - destruct (m_semaphore W); [|done]. intros <-%(inj Some). hsame.
  - conn_of W i c Hc. destruct (m_waitingForMessage c) as [w|]; [|done]. cbn [mbind option_bind].
    destruct (m_parked c); [done|]. intros <-%(inj Some). hsame. by apply leaveWait_hsame.
Qed.

Lemma timeout_hsame f W W' : timeout f W = Some W' -> hsame W W'.
Proof.
  destruct f as [| | | | | | | |i id p| |i p]; cbn [timeout]; try done; destruct p; try done.
  - destruct (m_semaphore W); [done|]. intros <-%(inj Some). hsame.
  - intros <-%(inj Some). hsame.
Qed.

Lemma return_hsame f keep valid W W' : return_from f keep valid W = Some W' -> hsame W W'.
Proof.
  destruct f as [|i marked old reply| | | | | | | | |]; cbn [return_from]; try done; [by intros <-%(inj Some)|].
  destruct (match reply with Some id => _ | None => _ end) as [W1|] eqn:E; [|done]. cbn [mbind option_bind].
  intros H. transitivity W1; [|exact (finishDispatch_hsame _ _ _ _ _ _ H)].
  destruct reply as [id|]; [|by injection E as <-]. destruct keep; [|by injection E as <-].
  refine (on_conn_hsame _ _ _ _ _ E). intros c. apply send_handlers.
Qed.

(** A new identifier is registered. *)
Definition registers (W W' : world) : Prop :=
  asyncReplyHandlerID W' = u64 (asyncReplyHandlerID W + 1) /\
  (u64 (asyncReplyHandlerID W + 1) ∉ registered W ->
   called W' ++ registered W' ≡ₚ called W ++ registered W ++ [u64 (asyncReplyHandlerID W + 1)]).

Lemma sendWithAsyncReply_registers i name dest e u W W' :
  sendWithAsyncReply i name dest e u W = Some W' -> registers W W'.
Proof.
  unfold sendWithAsyncReply. conn_of W i c Hc. intros <-%(inj Some). split; [done|]. intros Hi.
  destruct (handlers_split _ _ _ Hc) as (R & E1 & E2). unfold called, registered. cbn [upd set_asyncID asyncCalls conns stack].
  set (id := u64 (asyncReplyHandlerID W + 1)) in *. fold (handlers c).
  assert (id ∉ handlers c) as Hh.
  { intros Hh. apply Hi. unfold registered. rewrite E1. rewrite !elem_of_app. auto. }
  rewrite bool_decide_eq_false_2 by done. rewrite E2, E1, send_handlers. cbn [handlers set_handlers m_asyncReplyHandlers].
  apply Permutation_app_head. rewrite <- !app_comm_cons. rewrite <- Permutation_cons_append. done.
Qed.

Lemma act_moved a W W' : act a W = Some W' -> moved W W' \/ registers W W'.
Proof.
  destruct a as [i n d e u|i n d e u|i n d f|i n d b s|i|i|i r|i r|i r|i r|i|i id|i| | |i|i]; cbn [act]; intros H;
    try (left; apply hsame_moved; refine (on_conn_hsame _ _ _ _ _ H); intros c; first [apply send_handlers|reflexivity]).
  - right. exact (sendWithAsyncReply_registers _ _ _ _ _ _ _ H).
  - left. apply hsame_moved. revert H. unfold sendSyncMessage. conn_of W i c Hc. destruct (createSyncMessageEncoder c) as [id c1] eqn:E.
    injection E as <- <-. destruct (_ || _); intros <-%(inj Some); hsame. by rewrite send_handlers.
  - left. apply hsame_moved. revert H. unfold waitForMessage. conn_of W i c Hc. intros <-%(inj Some).
    destruct (take_message _ _ _) as [[m rest]|]; hsame.
  - left. apply hsame_moved. refine (on_conn_hsame _ _ _ _ _ H). intros c. unfold enableIncomingMessagesThrottling.
    by destruct (m_throttlingLevel c).
  - left. apply hsame_moved. injection H as <-. hsame.
  - left. apply hsame_moved. injection H as <-. hsame.
Qed.

Lemma nodup_same W W' : hsame W W' -> NoDup (registered W) -> NoDup (registered W').
Proof. intros [_ _ C D]. unfold registered. by rewrite C, D. Qed.

Lemma exec_moved l W W' : NoDup (registered W) -> exec l W = Some W' -> moved W W' \/ registers W W'.
Proof.
  intros Hn. destruct l as [i m|i|i|i n|i name dest sy e u|nested|nested i| | | | |a|keep valid]; cbn [exec]; [..|].
  - conn_of W i c Hc. destruct (m_isConnected c); [|done]. intros H. left. apply hsame_moved. exact (incoming_hsame _ _ _ _ H).
  - conn_of W i c Hc. destruct (m_shouldWaitForSyncReplies c); [|done]. unfold connectionDidClose. rewrite Hc.
    intros <-%(inj Some). left. apply hsame_moved. unfold wakeUpClientRunLoop. hsame.
  - conn_of W i c Hc. destruct (m_isValid c); [done|]. intros <-%(inj Some). left. apply hsame_moved. hsame.
  - unfold sendOutgoingMessages. conn_of W i c Hc. destruct (m_isConnected c); [|done].
    intros <-%(inj Some). left. apply hsame_moved. hsame.
  - intros H. left. apply hsame_moved. refine (on_conn_hsame _ _ _ _ _ H). intros c. apply send_handlers.
  - destruct (in_loop nested W); [|done]. destruct (tasks W) as [|t ts]; [done|]. intros H. left.
    transitivity (set_tasks ts W); [apply hsame_moved; hsame|]. exact (task_moved t (set_tasks ts W) W' Hn H).
  - destruct (in_loop nested W); [|done]. unfold timerFired. conn_of W i c Hc. destruct (m_timer c); [|done].
    destruct (m_throttlingLevel c); [|done]. intros H. left. assert (hsame W (upd i (set_timer false) W)) as S by hsame.
    transitivity (upd i (set_timer false) W); [by apply hsame_moved|].
    exact (dispatchIncoming_moved _ _ _ _ (nodup_same _ _ S Hn) H).
  - destruct (stack W); [|done]. intros <-%(inj Some). left. apply hsame_moved. hsame.
  - destruct (stack W) as [|f fs] eqn:Es; [done|]. intros H. left. destruct (decide (frame_ids f = [])) as [Ef|Ef].
    + pose proof (hsame_pop f fs W Es Ef) as S. transitivity (set_stack fs W); [by apply hsame_moved|].
      exact (main_moved f _ _ Ef (nodup_same _ _ S Hn) H).
    + destruct f; try done. destruct ids as [|id ids]; [done|]. injection H as <-. exact (cancel_moved _ _ _ _ _ Es).
  - destruct (stack W) as [|f fs] eqn:Es; [done|]. intros H. left. assert (frame_ids f = []) as Ef by (by destruct f).
    transitivity (set_stack fs W); [exact (hsame_moved _ _ (hsame_pop f fs W Es Ef))|]. exact (hsame_moved _ _ (wake_hsame _ _ _ H)).
  - destruct (stack W) as [|f fs] eqn:Es; [done|]. intros H. left. assert (frame_ids f = []) as Ef by (by destruct f).
    transitivity (set_stack fs W); [exact (hsame_moved _ _ (hsame_pop f fs W Es Ef))|]. exact (hsame_moved _ _ (timeout_hsame _ _ _ H)).
  - destruct (stack W) as [|f fs]; [done|]. destruct (is_client f); [|done]. apply act_moved.
  - destruct (stack W) as [|f fs] eqn:Es; [done|]. intros H. left. assert (frame_ids f = []) as Ef by (by destruct f).
    transitivity (set_stack fs W); [exact (hsame_moved _ _ (hsame_pop f fs W Es Ef))|]. exact (hsame_moved _ _ (return_hsame _ _ _ _ _ H)).
Qed.

(** ** Exactly once *)

Definition once (W : world) : Prop :=
  0 <= asyncReplyHandlerID W /\ called W ++ registered W ≡ₚ seqZ 1 (asyncReplyHandlerID W).

Lemma once_nodup W : once W -> NoDup (called W ++ registered W).
Proof. intros [_ P]. rewrite P. apply NoDup_seqZ. Qed.

Lemma exec_once l W W' :
  asyncReplyHandlerID W + 1 < 2 ^ 64 -> once W -> exec l W = Some W' ->
  once W' /\ asyncReplyHandlerID W' <= asyncReplyHandlerID W + 1.
Proof.
  intros Hb O H. pose proof (once_nodup W O) as Hn. apply NoDup_app in Hn as (_ & _ & Hn).
  destruct O as [H0 P]. destruct (exec_moved l W W' Hn H) as [[I M]|[I M]].
  - unfold once. rewrite I, M. split; [done|lia].
  - unfold wrap in I, M. rewrite Z.mod_small in I, M by lia. unfold once. rewrite I. split; [|lia]. split; [lia|].
    rewrite M. 2:{ intros Hi. assert (asyncReplyHandlerID W + 1 ∈ called W ++ registered W) as E by (by apply elem_of_app; right).
      rewrite P in E. apply elem_of_seqZ in E. lia. }
    rewrite app_assoc, P. rewrite (seqZ_app 1 (asyncReplyHandlerID W) 1) by lia. apply Permutation_app_head.
    replace (1 + asyncReplyHandlerID W) with (asyncReplyHandlerID W + 1) by lia. done.
Qed.

Lemma run_once ls W W' :
  asyncReplyHandlerID W + Z.of_nat (length ls) < 2 ^ 64 -> once W -> run ls W = Some W' -> once W'.
Proof.
  revert W. induction ls as [|l ls IH]; intros W Hb O; cbn [run]; [by intros [= <-]|].
  destruct (exec l W) as [W1|] eqn:E; [|done]. cbn [mbind option_bind]. cbn [length] in Hb.
  destruct (exec_once l W W1 ltac:(lia) O E) as [O1 B]. apply IH; [lia|done].
Qed.

(** C10: in every run in which fewer than 2^64 steps are made, the identifiers
    of the handlers that were called, with a reply or with a cancellation, and
    of the handlers that are registered are, together and without repetition,
    the identifiers given out: every completion handler is called at most once,
    and one that was not called is still registered. *)
Theorem async_handlers_called_once flags ls W :
  Z.of_nat (length ls) < 2 ^ 64 -> run ls (start flags) = Some W ->
  called W ++ registered W ≡ₚ seqZ 1 (asyncReplyHandlerID W) /\ NoDup (called W).
Proof.
  intros Hl HR. assert (once W) as O.
  { apply (run_once ls (start flags)); [exact Hl| |done]. split; [done|]. unfold registered, called. cbn. rewrite app_nil_r.
    apply Permutation_nil_r, concat_nil_Forall, Forall_fmap, Forall_fmap, Forall_forall. by intros b. }
  split; [by destruct O|]. apply once_nodup, NoDup_app in O. by destruct O.
Qed.

(** Two handlers: the first gets its reply, the second is cancelled when the
    connection closes. *)
Definition msg_async_reply : msg := mk_msg 20 AsyncReply 0 false No false (Some 1).

Definition async_run : list label :=
  [Enter; Act (SendWithAsyncReply 0 5 7 false false); Act (SendWithAsyncReply 0 5 7 false false); Return true true;
   Incoming 0 msg_async_reply; RunTask false; Return true true; Closed 0; RunTask false; Return true true; Main; Main;
   Return true true; Main].

Lemma async_handlers_called_once_witness :
  exists W, run async_run (start [false]) = Some W /\ asyncCalls W = [(0%nat, 1, true); (0%nat, 2, false)] /\
    called W ++ registered W ≡ₚ seqZ 1 2.
Proof.
  eexists. split; [vm_compute; reflexivity|]. split; [reflexivity|].
  apply (async_handlers_called_once [false] async_run); [vm_compute; reflexivity|vm_compute; reflexivity].
Defined.

End ConnectionAsync.
