(* ===== verification/CList.v ===== *)
(** * Intrusive lists (PurCFetcher/include/private/list.h)

    The circular doubly linked list that a [purc_fetcher_instance] carries.  The
    store maps the address of each [struct list_head] to its two pointers;
    address 0 is NULL, and an access through a pointer that is not the address
    of a list head is [UB].  Aliasing is the source's: head, entry and their
    neighbours may be the same object, and each operation performs the source's
    assignments one by one.

    [ring h head l] says that in store [h] the circle that starts at [head]
    visits exactly the entries [l], in that order, in both directions; the
    specifications say what each operation does to the entries of the rings it
    touches and that no other object changes. *)
From stdpp Require Import gmap.
From S2P Require Import Prelude.

Module CList.

Record list_head := mk_list_head { next : Z; prev : Z }.

Abbreviation heap := (gmap Z list_head).
Abbreviation M := (ST heap).

Definition NULL : Z := 0.

(** [*p], [p->next = v] and [p->prev = v]. *)
Definition load (p : Z) : M list_head := fun h => n ← or_ub (h !! p); Ok (n, h).
Definition store_next (p v : Z) : M unit := fun h =>
  n ← or_ub (h !! p); Ok (tt, <[p := mk_list_head v (prev n)]> h).
Definition store_prev (p v : Z) : M unit := fun h =>
  n ← or_ub (h !! p); Ok (tt, <[p := mk_list_head (next n) v]> h).

Definition INIT_LIST_HEAD (l : Z) : M unit :=
  store_prev l l;; store_next l l.

Definition list_empty (head : Z) : M bool :=
  n ← load head; mret (next n =? head).

Definition list_is_first (l head : Z) : M bool :=
  n ← load l; mret (prev n =? head).

Definition list_is_last (l head : Z) : M bool :=
  n ← load l; mret (next n =? head).

Definition _list_del (entry : Z) : M unit :=
  n ← load entry;
  store_prev (next n) (prev n);;
  n ← load entry;
  store_next (prev n) (next n).

Definition list_del (entry : Z) : M unit :=
  _list_del entry;;
  store_prev entry NULL;; store_next entry NULL.

Definition _list_add (_new prev next : Z) : M unit :=
  store_prev next _new;;
  store_next _new next;;
  store_prev _new prev;;
  store_next prev _new.

Definition list_del_init (entry : Z) : M unit :=
  _list_del entry;; INIT_LIST_HEAD entry.

Definition list_add (_new head : Z) : M unit :=
  n ← load head; _list_add _new head (next n).

Definition list_add_tail (_new head : Z) : M unit :=
  n ← load head; _list_add _new (prev n) head.

Definition list_move (l head : Z) : M unit :=
  _list_del l;; list_add l head.

Definition list_move_tail (entry head : Z) : M unit :=
  _list_del entry;; list_add_tail entry head.

Definition _list_splice (l prev_ next_ : Z) : M unit :=
  e ← list_empty l;
  if (e : bool) then mret tt
  else
    n ← load l;
    let first := next n in
    let last := prev n in
    store_prev first prev_;;
    store_next prev_ first;;
    store_next last next_;;
    store_prev next_ last.

Definition list_splice (l head : Z) : M unit :=
  n ← load head; _list_splice l head (next n).

Definition list_splice_tail (l head : Z) : M unit :=
  n ← load head; _list_splice l (prev n) head.

Definition list_splice_init (l head : Z) : M unit :=
  n ← load head; _list_splice l head (next n);; INIT_LIST_HEAD l.

Definition list_splice_tail_init (l head : Z) : M unit :=
  n ← load head; _list_splice l (prev n) head;; INIT_LIST_HEAD l.

(** [for (p = head->next; p != head; p = p->next) body(p);] *)
Fixpoint for_each_from {A} (fuel : nat) (body : Z -> A -> M A) (p head : Z) (a : A) : M A :=
  match fuel with
  | O => fun _ => NoFuel
  | S fuel =>
      if p =? head then mret a
      else a ← body p a; n ← load p; for_each_from fuel body (next n) head a
  end.

Definition list_for_each {A} (fuel : nat) (body : Z -> A -> M A) (head : Z) (a : A) : M A :=
  n ← load head; for_each_from fuel body (next n) head a.

(** [for (p = head->next, n = p->next; p != head; p = n, n = p->next) body(p);] *)
Fixpoint for_each_safe_from {A} (fuel : nat) (body : Z -> A -> M A) (p nx head : Z) (a : A) : M A :=
  match fuel with
  | O => fun _ => NoFuel
  | S fuel =>
      if p =? head then mret a
      else a ← body p a; n ← load nx; for_each_safe_from fuel body nx (next n) head a
  end.

Definition list_for_each_safe {A} (fuel : nat) (body : Z -> A -> M A) (head : Z) (a : A) : M A :=
  n ← load head; n1 ← load (next n);
  for_each_safe_from fuel body (next n) (next n1) head a.

(** [for (p = head->prev; p != head; p = p->prev) body(p);] *)
Fixpoint for_each_prev_from {A} (fuel : nat) (body : Z -> A -> M A) (p head : Z) (a : A) : M A :=
  match fuel with
  | O => fun _ => NoFuel
  | S fuel =>
      if p =? head then mret a
      else a ← body p a; n ← load p; for_each_prev_from fuel body (prev n) head a
  end.

Definition list_for_each_prev {A} (fuel : nat) (body : Z -> A -> M A) (head : Z) (a : A) : M A :=
  n ← load head; for_each_prev_from fuel body (prev n) head a.

(** ** Rings *)

(** The pairs of neighbours on the path from [p] through [l] to [q]. *)
Fixpoint links (p : Z) (l : list Z) (q : Z) : list (Z * Z) :=
  match l with
  | [] => [(p, q)]
  | x :: l => (p, x) :: links x l q
  end.

(** The two fields of the object at [a]. *)
Definition nx (h : heap) (a : Z) : option Z := next <$> h !! a.
Definition pv (h : heap) (a : Z) : option Z := prev <$> h !! a.

(** [b] follows [a] in the store. *)
Definition linked (h : heap) (ab : Z * Z) : Prop :=
  nx h ab.1 = Some ab.2 /\ pv h ab.2 = Some ab.1.

Definition ring (h : heap) (head : Z) (l : list Z) : Prop :=
  NoDup (head :: l) /\ Forall (linked h) (links head l head).

(** The stores agree on every object outside [ps]. *)
Definition frame (ps : list Z) (h h' : heap) : Prop :=
  forall a, a ∉ ps -> h' !! a = h !! a.

(** ** Splitting a path *)

Definition lst (p : Z) (l : list Z) : Z := List.last l p.
Definition fst_of (l : list Z) (q : Z) : Z := List.hd q l.

Fixpoint pre (p : Z) (l : list Z) : list (Z * Z) :=
  match l with [] => [] | x :: l => (p, x) :: pre x l end.

Definition post (l : list Z) (q : Z) : list (Z * Z) :=
  match l with [] => [] | x :: l => links x l q end.

Lemma lst_cons p x l : lst p (x :: l) = lst x l.
Proof. unfold lst. revert p x; induction l as [|y l IH]; intros p x; [done|].
  change (List.last (y :: l) p = List.last (y :: l) x). by rewrite !IH.
Qed.

Lemma links_mid p m l q : links p (m ++ l) q = links p m (fst_of l q) ++ post l q.
Proof. revert p; induction m as [|x m IH]; intros p; [by destruct l|]. cbn. by rewrite IH. Qed.

Lemma links_split p l1 m l2 q :
  links p (l1 ++ m ++ l2) q = pre p l1 ++ links (lst p l1) m (fst_of l2 q) ++ post l2 q.
Proof.
  revert p; induction l1 as [|x l1 IH]; intros p; [exact (links_mid p m l2 q)|].
  rewrite lst_cons. cbn. by rewrite IH.
Qed.

Lemma links_fst p l q : (links p l q).*1 = p :: l.
Proof. revert p; induction l as [|x l IH]; intros p; cbn; [done|]. f_equal. apply IH. Qed.

Lemma links_snd p l q : (links p l q).*2 = l ++ [q].
Proof. revert p; induction l as [|x l IH]; intros p; cbn; [done|]. f_equal. apply IH. Qed.

Lemma pre_fst p l : exists k, (pre p l).*1 = k /\ k ++ [lst p l] = p :: l.
Proof.
  revert p; induction l as [|x l IH]; intros p; [by exists []|].
  destruct (IH x) as (k & Hk & E). rewrite lst_cons.
  exists (p :: k). cbn. by rewrite Hk, E.
Qed.

Lemma pre_snd p l : (pre p l).*2 = l.
Proof. revert p; induction l as [|x l IH]; intros p; cbn; [done|]. by rewrite IH. Qed.

Lemma post_fst l q : (post l q).*1 = l.
Proof. destruct l; [done|]. apply links_fst. Qed.

Lemma post_snd l q : exists k, (post l q).*2 = k /\ fst_of l q :: k = l ++ [q].
Proof. destruct l as [|x l]; [by exists []|]. exists (l ++ [q]). cbn. by rewrite links_snd. Qed.

(** ** Single assignments *)

Lemma nx_insert h p n a : nx (<[p := n]> h) a = if decide (a = p) then Some (next n) else nx h a.
Proof. unfold nx. destruct (decide (a = p)) as [->|]; by simplify_map_eq. Qed.

Lemma pv_insert h p n a : pv (<[p := n]> h) a = if decide (a = p) then Some (prev n) else pv h a.
Proof. unfold pv. destruct (decide (a = p)) as [->|]; by simplify_map_eq. Qed.

Definition live (h : heap) (p : Z) : Prop := is_Some (h !! p).

Lemma live_nx h p : live h p -> exists q, nx h p = Some q.
Proof. intros [n Hn]. exists (next n). unfold nx. by rewrite Hn. Qed.

Lemma live_insert h p q n : live h p -> live (<[q := n]> h) p.
Proof. intros H. apply lookup_insert_is_Some'. by right. Qed.

Lemma nx_live h p q : nx h p = Some q -> live h p.
Proof. unfold nx, live. destruct (h !! p); [eauto | done]. Qed.

Lemma pv_live h p q : pv h p = Some q -> live h p.
Proof. unfold pv, live. destruct (h !! p); [eauto | done]. Qed.

(** What a run of an operation does to the two fields of every object. *)
Definition writes (m : M unit) (h : heap) (ps : list Z) (fn fp : Z -> option Z) : Prop :=
  exists h', m h = Ok (tt, h') /\ (forall a, nx h' a = fn a) /\ (forall a, pv h' a = fp a)
    /\ frame ps h h' /\ (forall a, live h' a <-> live h a).

Lemma live_insert_iff h p n a : live h p -> live (<[p := n]> h) a <-> live h a.
Proof.
  intros Hp. unfold live. rewrite lookup_insert_is_Some'. split; [intros [<-|]|]; auto.
Qed.

Lemma store_next_writes h p v : live h p ->
  writes (store_next p v) h [p] (fun a => if decide (a = p) then Some v else nx h a) (pv h).
Proof.
  intros [n Hn]. eexists. split; [unfold store_next; by rewrite Hn|].
  split_and!; intros a; rewrite ?nx_insert, ?pv_insert; [done| |intros Ha|].
  - case_decide as E; [|done]. subst. unfold pv. by rewrite Hn.
  - apply lookup_insert_ne. set_solver.
  - apply live_insert_iff. by exists n.
Qed.

Lemma store_prev_writes h p v : live h p ->
  writes (store_prev p v) h [p] (nx h) (fun a => if decide (a = p) then Some v else pv h a).
Proof.
  intros [n Hn]. eexists. split; [unfold store_prev; by rewrite Hn|].
  split_and!; intros a; rewrite ?nx_insert, ?pv_insert; [ |done|intros Ha|].
  - case_decide as E; [|done]. subst. unfold nx. by rewrite Hn.
  - apply lookup_insert_ne. set_solver.
  - apply live_insert_iff. by exists n.
Qed.

(** [load p] followed by [k], when both fields of [p] are known. *)
Lemma load_bind {A} (k : list_head -> M A) h p a b :
  nx h p = Some a -> pv h p = Some b -> (load p ≫= k) h = k (mk_list_head a b) h.
Proof.
  unfold nx, pv, load, mbind, ST_bind. destruct (h !! p) as [[n' p']|] eqn:E; [|done].
  by intros [= <-] [= <-].
Qed.

(** Prove that an address is live in a store reached from one where it is. *)
Ltac live_tac :=
  repeat match goal with H : forall a, live ?h a <-> _ |- live ?h _ => apply H end;
  eauto using nx_live, pv_live.

(** Run the next assignment of the goal's operation. *)
Ltac run_store :=
  let run lem h p v tac :=
    destruct (lem h p v) as (?h & ?E & ?N & ?P & ?F & ?L); [live_tac | tac] in
  match goal with
  | |- exists _, (store_prev ?p ?v ≫= ?k) ?h = _ /\ _ =>
      run store_prev_writes h p v ltac:(erewrite ST_bind_Ok by eassumption)
  | |- exists _, (store_next ?p ?v ≫= ?k) ?h = _ /\ _ =>
      run store_next_writes h p v ltac:(erewrite ST_bind_Ok by eassumption)
  | |- exists _, store_prev ?p ?v ?h = _ /\ _ =>
      run store_prev_writes h p v ltac:(eexists; split; [eassumption|])
  | |- exists _, store_next ?p ?v ?h = _ /\ _ =>
      run store_next_writes h p v ltac:(eexists; split; [eassumption|])
  end.

(** Rewrite the fields of a store into those of the store the run began with. *)
Ltac fields :=
  repeat match goal with
  | H : forall a, nx ?h a = _ |- context [nx ?h _] => rewrite H
  | H : forall a, pv ?h a = _ |- context [pv ?h _] => rewrite H
  end.

(** Close the goal left when every assignment has run. *)
Ltac run_done :=
  split_and!; intros a; fields;
  [ by repeat case_decide | by repeat case_decide
  | let Ha := fresh in intros Ha;
    repeat match goal with F : frame _ _ ?h |- context [?h !! _] => rewrite F by set_solver end; done
  | repeat match goal with H : forall a, live ?h a <-> _ |- context [live ?h _] => rewrite H end; done ].

Lemma _list_add_writes h _new p q :
  live h _new -> live h p -> live h q -> _new ≠ p -> _new ≠ q ->
  writes (_list_add _new p q) h [_new; p; q]
    (fun a => if decide (a = p) then Some _new else if decide (a = _new) then Some q else nx h a)
    (fun a => if decide (a = _new) then Some p else if decide (a = q) then Some _new else pv h a).
Proof.
  intros Ln Lp Lq Hp Hq. unfold writes, _list_add.
  do 4 run_store. run_done.
Qed.

Lemma _list_del_writes h e p q :
  nx h e = Some q -> pv h e = Some p -> live h p -> live h q ->
  writes (_list_del e) h [p; q]
    (fun a => if decide (a = p) then Some q else nx h a)
    (fun a => if decide (a = q) then Some p else pv h a).
Proof.
  intros Hn Hp Lp Lq. unfold writes, _list_del. rewrite (load_bind _ h e q p) by done. cbn [next prev].
  run_store. rewrite (load_bind _ h0 e q p) by (fields; by repeat case_decide). cbn [next prev].
  run_store. run_done.
Qed.

Lemma INIT_LIST_HEAD_writes h l : live h l ->
  writes (INIT_LIST_HEAD l) h [l]
    (fun a => if decide (a = l) then Some l else nx h a)
    (fun a => if decide (a = l) then Some l else pv h a).
Proof. intros Hl. unfold writes, INIT_LIST_HEAD. do 2 run_store. run_done. Qed.

Lemma clear_entry_writes h e : live h e ->
  writes (store_prev e NULL;; store_next e NULL) h [e]
    (fun a => if decide (a = e) then Some NULL else nx h a)
    (fun a => if decide (a = e) then Some NULL else pv h a).
Proof. intros He. unfold writes. do 2 run_store. run_done. Qed.

(** Splicing a non-empty ring: [first] and [last] are the ends of its entries. *)
Lemma _list_splice_writes h l first last p q :
  nx h l = Some first -> pv h l = Some last -> first ≠ l ->
  live h first -> live h last -> live h p -> live h q ->
  writes (_list_splice l p q) h [first; p; last; q]
    (fun a => if decide (a = last) then Some q else if decide (a = p) then Some first else nx h a)
    (fun a => if decide (a = q) then Some last else if decide (a = first) then Some p else pv h a).
Proof.
  intros Hn Hp Hne Lf Ll Lp Lq. unfold writes, _list_splice, list_empty.
  rewrite (ST_bind_Ok _ _ _ false h)
    by (rewrite (load_bind _ h l first last) by done; unfold mret, ST_ret; cbn; by rewrite (proj2 (Z.eqb_neq _ _) Hne)).
  rewrite (load_bind _ h l first last) by done. cbn [next prev].
  do 4 run_store. run_done.
Qed.

(** ** Rings under assignment *)

Lemma ring_live h head l a : ring h head l -> a ∈ head :: l -> live h a.
Proof.
  intros [_ HF] Ha. rewrite <- (links_fst head l head) in Ha.
  apply list_elem_of_fmap in Ha as (ab & -> & Hab).
  rewrite Forall_forall in HF. destruct (HF _ Hab) as [H _]. eauto using nx_live.
Qed.

Lemma ring_frame h h' head l ps :
  ring h head l -> frame ps h h' -> (forall a, a ∈ ps -> a ∉ head :: l) -> ring h' head l.
Proof.
  intros [ND HF] Fr Hps. split; [done|]. rewrite Forall_forall in HF |- *. intros [a b] Hab.
  assert (a ∈ head :: l) by (rewrite <- (links_fst head l head); by apply (list_elem_of_fmap_2 fst) in Hab).
  assert (b ∈ l ++ [head]) by (rewrite <- (links_snd head l head); by apply (list_elem_of_fmap_2 snd) in Hab).
  destruct (HF _ Hab) as [Ha Hb]. unfold linked, nx, pv in *. cbn in *.
  rewrite !Fr by set_solver. done.
Qed.

(** The neighbours of a segment. *)
Lemma ring_linked h head l1 m l2 :
  ring h head (l1 ++ m ++ l2) -> Forall (linked h) (links (lst head l1) m (fst_of l2 head)).
Proof. intros [_ HF]. rewrite links_split, !Forall_app in HF. tauto. Qed.

Lemma NoDup_insert_entry (head e : Z) l1 l2 :
  NoDup (head :: l1 ++ e :: l2) <-> NoDup (head :: l1 ++ l2) /\ e ∉ head :: l1 ++ l2.
Proof.
  assert (E : head :: l1 ++ e :: l2 ≡ₚ e :: head :: l1 ++ l2)
    by (rewrite <- Permutation_middle; apply perm_swap).
  rewrite E, NoDup_cons. tauto.
Qed.

Lemma NoDup_drop_middle (head : Z) l1 m l2 :
  NoDup (head :: l1 ++ m ++ l2) -> NoDup (head :: l1 ++ l2).
Proof.
  induction m as [|e m IH]; [done|]. intros H. apply IH. by apply NoDup_insert_entry in H as [].
Qed.

(** Replacing the segment [m] of a ring by [m']: only the links between the two
    neighbours of the segment may change. *)
Lemma ring_replace h h' head l1 m m' l2 :
  ring h head (l1 ++ m ++ l2) -> NoDup (head :: l1 ++ m' ++ l2) ->
  Forall (linked h') (links (lst head l1) m' (fst_of l2 head)) ->
  (forall a, a ∈ head :: l1 ++ l2 -> a ≠ lst head l1 -> nx h' a = nx h a) ->
  (forall a, a ∈ head :: l1 ++ l2 -> a ≠ fst_of l2 head -> pv h' a = pv h a) ->
  ring h' head (l1 ++ m' ++ l2).
Proof.
  intros [ND HF] ND' HF' Hn Hp. split; [done|].
  rewrite links_split, !Forall_app in HF |- *. destruct HF as (HF1 & _ & HF2).
  destruct (pre_fst head l1) as (k1 & Ek1 & E1). destruct (post_snd l2 head) as (k2 & Ek2 & E2).
  assert (N1 : NoDup (head :: l1 ++ l2)) by (by apply NoDup_drop_middle in ND).
  assert (N2 : NoDup (l1 ++ l2 ++ [head])) by (rewrite app_assoc, <- Permutation_cons_append; done).
  rewrite app_comm_cons, <- E1, <- app_assoc in N1. cbn in N1. rewrite <- E2 in N2.
  rewrite !Forall_forall in *.
  assert (I1 : forall x, x ∈ k1 -> x ∈ head :: l1) by (intros x Hx; rewrite <- E1; set_solver).
  assert (I2 : forall x, x ∈ k2 -> x ∈ l2 ++ [head]) by (intros x Hx; rewrite <- E2; set_solver).
  apply NoDup_app in N1 as (_ & D1 & N1), N2 as (_ & D2 & N2).
  apply NoDup_cons in N1 as [N1 _], N2 as [N2 _].
  split_and!; [intros [a b] Hab|done|intros [a b] Hab].
  - destruct (HF1 _ Hab) as [Ha Hb].
    apply (list_elem_of_fmap_2 fst) in Hab as Ia. apply (list_elem_of_fmap_2 snd) in Hab as Ib.
    rewrite Ek1 in Ia. rewrite pre_snd in Ib. split; cbn in *; [rewrite Hn | rewrite Hp]; set_solver.
  - destruct (HF2 _ Hab) as [Ha Hb].
    apply (list_elem_of_fmap_2 fst) in Hab as Ia. apply (list_elem_of_fmap_2 snd) in Hab as Ib.
    rewrite Ek2 in Ib. rewrite post_fst in Ia. split; cbn in *; [rewrite Hn | rewrite Hp]; set_solver.
Qed.

Lemma ring_nil_links h head l : ring h head l -> nx h head = Some (fst_of l head) /\ pv h head = Some (lst head l).
Proof.
  intros H. split.
  - pose proof (ring_linked h head [] [] l H) as HF. cbn in HF. inversion_clear HF as [|? ? [E _] _]. done.
  - assert (H' : ring h head (l ++ [] ++ [])) by (by rewrite !app_nil_r).
    pose proof (ring_linked h head l [] [] H') as HF. cbn in HF. inversion_clear HF as [|? ? [_ E] _]. done.
Qed.

Lemma lst_in p l : lst p l ∈ p :: l.
Proof. destruct (pre_fst p l) as (k & _ & <-). set_solver. Qed.

Lemma fst_of_in l q : fst_of l q ∈ q :: l.
Proof. destruct l; set_solver. Qed.

Lemma lst_app p l1 l2 : lst p (l1 ++ l2) = lst (lst p l1) l2.
Proof.
  revert p; induction l1 as [|x l1 IH]; intros p; [done|]. by rewrite <- app_comm_cons, !lst_cons, IH.
Qed.

(** [_list_add] between two neighbours of a ring. *)
Lemma _list_add_ring h head l1 l2 _new :
  ring h head (l1 ++ l2) -> live h _new -> _new ∉ head :: l1 ++ l2 ->
  exists h', _list_add _new (lst head l1) (fst_of l2 head) h = Ok (tt, h')
    /\ ring h' head (l1 ++ _new :: l2) /\ frame (_new :: head :: l1 ++ l2) h h'
    /\ (forall a, live h' a <-> live h a).
Proof.
  intros R Ln Hnew. pose proof (lst_in head l1). pose proof (fst_of_in l2 head).
  destruct (_list_add_writes h _new (lst head l1) (fst_of l2 head)) as (h' & E & N & P & F & L);
    [done | eapply ring_live; [done|set_solver].. | set_solver | set_solver |].
  exists h'. split_and!; [done| |intros a Ha; apply F; set_solver|done].
  destruct (R) as [ND _].
  apply (ring_replace h h' head l1 [] [_new] l2); [done| | |intros a Ha Hne..].
  - by apply NoDup_insert_entry.
  - repeat constructor; cbn; fields; repeat case_decide; try done; set_solver.
  - fields. repeat case_decide; try done; set_solver.
  - fields. repeat case_decide; try done; set_solver.
Qed.

(** [_list_del] of an entry of a ring; the entry itself keeps its pointers. *)
Lemma _list_del_ring h head l1 e l2 :
  ring h head (l1 ++ e :: l2) ->
  exists h', _list_del e h = Ok (tt, h') /\ ring h' head (l1 ++ l2)
    /\ frame (head :: l1 ++ l2) h h' /\ (forall a, live h' a <-> live h a).
Proof.
  intros R. pose proof (lst_in head l1). pose proof (fst_of_in l2 head). destruct (R) as [ND _].
  pose proof (ring_linked h head l1 [e] l2 R) as HF. cbn in HF.
  inversion_clear HF as [|? ? [_ Hp] HF']. inversion_clear HF' as [|? ? [Hn _] _]. cbn in Hn, Hp.
  destruct (_list_del_writes h e (lst head l1) (fst_of l2 head)) as (h' & E & N & P & F & L);
    [done|done|eapply ring_live; [done|set_solver]..|].
  exists h'. split_and!; [done| |intros a Ha; apply F; set_solver|done].
  apply (ring_replace h h' head l1 [e] [] l2); [done| | |intros a Ha Hne..].
  - by apply NoDup_insert_entry in ND as [ND' _].
  - repeat constructor; cbn; fields; by case_decide.
  - fields. by case_decide.
  - fields. by case_decide.
Qed.

(** Splicing the entries [m] of the ring at [l] between two neighbours of another ring. *)
Lemma _list_splice_ring h l m head l1 l2 :
  ring h l m -> ring h head (l1 ++ l2) -> (forall a, a ∈ l :: m -> a ∉ head :: l1 ++ l2) ->
  exists h', _list_splice l (lst head l1) (fst_of l2 head) h = Ok (tt, h')
    /\ ring h' head (l1 ++ m ++ l2) /\ frame (m ++ head :: l1 ++ l2) h h'
    /\ (forall a, live h' a <-> live h a).
Proof.
  intros Rl R Hd. destruct (ring_nil_links h l m Rl) as [Hn Hp]. destruct m as [|x m].
  { exists h. split_and!; [|done|done|done]. unfold _list_splice, list_empty.
    erewrite ST_bind_Ok by (rewrite (load_bind _ h l l l) by done; done). cbn. by rewrite Z.eqb_refl. }
  destruct (Rl) as [NDl HFl]. destruct (R) as [ND _].
  pose proof (lst_in head l1) as I1. pose proof (fst_of_in l2 head) as I2.
  rewrite lst_cons in Hp. pose proof (lst_in x m) as I3. change (fst_of (x :: m) l) with x in Hn.
  destruct (_list_splice_writes h l x (lst x m) (lst head l1) (fst_of l2 head)) as (h' & E & N & P & F & L);
    [done|done| | |..|].
  { apply NoDup_cons in NDl as [Hx _]. intros ->. apply Hx, list_elem_of_here. }
  1,2: eapply (ring_live h l (x :: m)); [done|set_solver].
  1,2: eapply (ring_live h head (l1 ++ l2)); [done|set_solver].
  assert (Dpq : forall a, a ∈ x :: m -> a ≠ lst head l1 /\ a ≠ fst_of l2 head).
  { intros a Ha. specialize (Hd a ltac:(by right)). clear -Hd I1 I2. set_solver. }
  exists h'. split_and!; [done| |intros a Ha; apply F; clear -Ha I1 I2 I3; set_solver|done].
  apply (ring_replace h h' head l1 [] (x :: m) l2); [done| | |intros a Ha Hne..].
  - apply NoDup_cons in NDl as [_ NDm]. clear -ND NDm Hd. cbn in ND.
    assert (E : head :: l1 ++ (x :: m) ++ l2 ≡ₚ (x :: m) ++ head :: l1 ++ l2) by solve_Permutation.
    rewrite E. apply NoDup_app. split_and!; [done|set_solver|done].
  - cbn [links]. pose proof (links_split x m [] [] (fst_of l2 head)) as EL.
    cbn in EL. rewrite app_nil_r in EL. rewrite EL. clear EL.
    pose proof (links_split x m [] [] l) as EL. cbn in EL. rewrite app_nil_r in EL.
    cbn [links] in HFl. rewrite EL in HFl. clear EL.
    destruct (pre_fst x m) as (k & Ek & EE).
    assert (Dk : forall a, a ∈ k -> a ≠ lst x m /\ a ∈ x :: m).
    { intros a Ha. rewrite <- EE in NDl. rewrite <- EE. clear -NDl Ha.
      apply NoDup_cons in NDl as [_ NDl]. apply NoDup_app in NDl. set_solver. }
    assert (Dm : x ∉ m) by (by apply NoDup_cons in NDl as [_ [? _]%NoDup_cons]).
    apply Forall_cons in HFl as [_ HFl]. apply Forall_app in HFl as [HFl _].
    apply Forall_cons; split; [|apply Forall_app; split; [|repeat constructor]].
    + destruct (Dpq x ltac:(left)), (Dpq (lst x m) I3). split; cbn; fields; repeat case_decide; congruence.
    + rewrite Forall_forall in HFl |- *. intros [a b] Hab. destruct (HFl _ Hab) as [Ha Hb].
      apply (list_elem_of_fmap_2 fst) in Hab as Ia. apply (list_elem_of_fmap_2 snd) in Hab as Ib.
      rewrite Ek in Ia. rewrite pre_snd in Ib. cbn in *. destruct (Dk a Ia) as [Hal Ham].
      destruct (Dpq a Ham), (Dpq b ltac:(by right)).
      split; cbn; fields; repeat case_decide; congruence.
    + cbn. fields. by case_decide.
    + cbn. fields. by case_decide.
  - fields. repeat case_decide; [subst; by destruct (Hd (lst x m)); [right|]|done|done].
  - fields. repeat case_decide; [done|subst; by destruct (Hd x); [right; left|]|done].
Qed.

(** ** Abstract specification: a directory of lists

    [A !! head = Some l] is the list that starts at [head].  [astep] gives each
    operation its meaning on lists, with the conditions its callers must meet:
    an entry that is added is in no list, an entry that is deleted is in one,
    and the two lists of a splice differ. *)

Abbreviation rings := (gmap Z (list Z)).

Definition used (A : rings) (a : Z) : Prop := exists head l, A !! head = Some l /\ a ∈ head :: l.

Inductive op :=
| OInit (n : Z) | OAdd (n head : Z) | OAddTail (n head : Z)
| ODel (e : Z) | ODelInit (e : Z) | OMove (e head : Z) | OMoveTail (e head : Z)
| OSplice (l head : Z) | OSpliceTail (l head : Z)
| OSpliceInit (l head : Z) | OSpliceTailInit (l head : Z).

Definition exec (o : op) : M unit :=
  match o with
  | OInit n => INIT_LIST_HEAD n
  | OAdd n head => list_add n head
  | OAddTail n head => list_add_tail n head
  | ODel e => list_del e
  | ODelInit e => list_del_init e
  | OMove e head => list_move e head
  | OMoveTail e head => list_move_tail e head
  | OSplice l head => list_splice l head
  | OSpliceTail l head => list_splice_tail l head
  | OSpliceInit l head => list_splice_init l head
  | OSpliceTailInit l head => list_splice_tail_init l head
  end.

(** The object an operation brings in must be a list head of the store. *)
Definition arg (o : op) : option Z :=
  match o with OInit n | OAdd n _ | OAddTail n _ => Some n | _ => None end.

Inductive astep (A : rings) : op -> rings -> Prop :=
| astep_init n : ~ used A n -> astep A (OInit n) (<[n := []]> A)
| astep_add n head l : ~ used A n -> A !! head = Some l ->
    astep A (OAdd n head) (<[head := n :: l]> A)
| astep_add_tail n head l : ~ used A n -> A !! head = Some l ->
    astep A (OAddTail n head) (<[head := l ++ [n]]> A)
| astep_del e head l1 l2 : A !! head = Some (l1 ++ e :: l2) ->
    astep A (ODel e) (<[head := l1 ++ l2]> A)
| astep_del_init e head l1 l2 : A !! head = Some (l1 ++ e :: l2) ->
    astep A (ODelInit e) (<[e := []]> (<[head := l1 ++ l2]> A))
| astep_move e head0 l1 l2 head l : A !! head0 = Some (l1 ++ e :: l2) ->
    <[head0 := l1 ++ l2]> A !! head = Some l ->
    astep A (OMove e head) (<[head := e :: l]> (<[head0 := l1 ++ l2]> A))
| astep_move_tail e head0 l1 l2 head l : A !! head0 = Some (l1 ++ e :: l2) ->
    <[head0 := l1 ++ l2]> A !! head = Some l ->
    astep A (OMoveTail e head) (<[head := l ++ [e]]> (<[head0 := l1 ++ l2]> A))
| astep_splice l m head k : A !! l = Some m -> A !! head = Some k -> l ≠ head ->
    astep A (OSplice l head) (<[head := m ++ k]> (delete l A))
| astep_splice_tail l m head k : A !! l = Some m -> A !! head = Some k -> l ≠ head ->
    astep A (OSpliceTail l head) (<[head := k ++ m]> (delete l A))
| astep_splice_init l m head k : A !! l = Some m -> A !! head = Some k -> l ≠ head ->
    astep A (OSpliceInit l head) (<[l := []]> (<[head := m ++ k]> (delete l A)))
| astep_splice_tail_init l m head k : A !! l = Some m -> A !! head = Some k -> l ≠ head ->
    astep A (OSpliceTailInit l head) (<[l := []]> (<[head := k ++ m]> (delete l A))).

(** The store holds the lists of the directory, as disjoint rings. *)
Definition repr (h : heap) (A : rings) : Prop :=
  (forall head l, A !! head = Some l -> ring h head l) /\
  (forall h1 l1 h2 l2, A !! h1 = Some l1 -> A !! h2 = Some l2 -> h1 ≠ h2 ->
     forall a, a ∈ h1 :: l1 -> a ∉ h2 :: l2).

(** [a] is in no list but the one at [head]. *)
Definition fresh_for (A : rings) (head a : Z) : Prop :=
  forall h1 l1, A !! h1 = Some l1 -> h1 ≠ head -> a ∉ h1 :: l1.

Lemma repr_insert h h' A head l ps :
  repr h A -> ring h' head l -> frame ps h h' ->
  (forall a, a ∈ ps -> fresh_for A head a) -> (forall a, a ∈ head :: l -> fresh_for A head a) ->
  repr h' (<[head := l]> A).
Proof.
  intros [HR HD] R F Hps Hl. split.
  - intros hd k [[<- <-]|[Hne Hk]]%lookup_insert_Some; [done|].
    eapply ring_frame; [by apply HR|done|]. intros a Ha. eapply Hps; [done|done|congruence].
  - intros h1 l1 h2 l2 H1 H2 Hne a Ha.
    apply lookup_insert_Some in H1 as [[<- <-]|[Hn1 H1]], H2 as [[<- <-]|[Hn2 H2]].
    + done.
    + eapply Hl; [done|done|congruence].
    + intros Hb. eapply (Hl a Hb); [done|congruence|done].
    + by apply (HD h1 l1 h2 l2).
Qed.

Lemma repr_delete h A l : repr h A -> repr h (delete l A).
Proof.
  intros [HR HD]. split.
  - intros hd k [_ ?]%lookup_delete_Some. by apply HR.
  - intros h1 l1 h2 l2 [_ ?]%lookup_delete_Some [_ ?]%lookup_delete_Some. by apply HD.
Qed.

Lemma used_fresh A head a : ~ used A a -> fresh_for A head a.
Proof. intros H h1 l1 H1 _ Ha. apply H. by exists h1, l1. Qed.

Lemma repr_fresh h A head l a : repr h A -> A !! head = Some l -> a ∈ head :: l -> fresh_for A head a.
Proof. intros [_ HD] Hl Ha h1 l1 H1 Hne. eapply HD; [exact Hl|exact H1|done|done]. Qed.

(** Running a step that returns, with a postcondition on the store. *)
Definition returns (m : M unit) (h : heap) (Q : heap -> Prop) : Prop :=
  exists h', m h = Ok (tt, h') /\ Q h' /\ (forall a, live h' a <-> live h a).

Lemma returns_seq m k h (Q1 Q : heap -> Prop) :
  returns m h Q1 -> (forall h1, Q1 h1 -> (forall a, live h1 a <-> live h a) -> returns k h1 Q) ->
  returns (m;; k) h Q.
Proof.
  intros (h1 & E & HQ & L) Hk. destruct (Hk h1 HQ L) as (h2 & E2 & HQ2 & L2).
  exists h2. split; [by erewrite ST_bind_Ok|]. split; [done|]. intros a. by rewrite L2.
Qed.

Lemma returns_writes m h ps fn fp (Q : heap -> Prop) :
  writes m h ps fn fp ->
  (forall h', (forall a, nx h' a = fn a) -> (forall a, pv h' a = fp a) -> frame ps h h' -> Q h') ->
  returns m h Q.
Proof. intros (h' & E & N & P & F & L) HQ. exists h'. split_and!; auto. Qed.

Lemma returns_load (k : list_head -> M unit) h head l Q :
  ring h head l ->
  returns (k (mk_list_head (fst_of l head) (lst head l))) h Q -> returns (load head ≫= k) h Q.
Proof.
  intros [Hn Hp]%ring_nil_links (h' & E & H). exists h'. split; [|done].
  by rewrite (load_bind k h head _ _ Hn Hp).
Qed.

(** Each operation takes a represented directory to the directory [astep] names. *)

Lemma INIT_LIST_HEAD_repr h A n : repr h A -> live h n -> ~ used A n ->
  returns (INIT_LIST_HEAD n) h (fun h' => repr h' (<[n := []]> A)).
Proof.
  intros HA Ln Hn. eapply returns_writes; [by apply INIT_LIST_HEAD_writes|].
  intros h' N P F. eapply repr_insert; [done| |exact F|..].
  - split; [apply NoDup_singleton|]. repeat constructor; cbn; fields; by case_decide.
  - intros a ->%list_elem_of_singleton. by apply used_fresh.
  - intros a ->%list_elem_of_singleton. by apply used_fresh.
Qed.

Lemma _list_add_repr h A head l1 l2 n :
  repr h A -> A !! head = Some (l1 ++ l2) -> live h n -> ~ used A n ->
  returns (_list_add n (lst head l1) (fst_of l2 head)) h (fun h' => repr h' (<[head := l1 ++ n :: l2]> A)).
Proof.
  intros HA Hl Ln Hn. destruct (_list_add_ring h head l1 l2 n) as (h' & E & R & F & L);
    [by apply HA|done|intros Ha; apply Hn; by exists head, (l1 ++ l2)|].
  exists h'. split_and!; [done| |done].
  eapply repr_insert; [done|done|exact F|..]; intros a Ha.
  - apply elem_of_cons in Ha as [->|Ha]; [by apply used_fresh|by eapply repr_fresh].
  - assert (a = n \/ a ∈ head :: l1 ++ l2) as [->|Ha'] by set_solver; [by apply used_fresh|by eapply repr_fresh].
Qed.

Lemma list_add_repr h A head l n : repr h A -> A !! head = Some l -> live h n -> ~ used A n ->
  returns (list_add n head) h (fun h' => repr h' (<[head := n :: l]> A)).
Proof.
  intros HA Hl Ln Hn. eapply returns_load; [by apply HA|]. by apply (_list_add_repr h A head [] l n).
Qed.

Lemma list_add_tail_repr h A head l n : repr h A -> A !! head = Some l -> live h n -> ~ used A n ->
  returns (list_add_tail n head) h (fun h' => repr h' (<[head := l ++ [n]]> A)).
Proof.
  intros HA Hl Ln Hn. eapply returns_load; [by apply HA|].
  apply (_list_add_repr h A head l [] n); [done|by rewrite app_nil_r|done|done].
Qed.

(** After [_list_del] the entry is in no list. *)
Lemma _list_del_repr h A head l1 e l2 : repr h A -> A !! head = Some (l1 ++ e :: l2) ->
  returns (_list_del e) h (fun h' => repr h' (<[head := l1 ++ l2]> A)) /\
  live h e /\ ~ used (<[head := l1 ++ l2]> A) e.
Proof.
  intros HA Hl. assert (R : ring h head (l1 ++ e :: l2)) by (by apply HA).
  destruct (_list_del_ring h head l1 e l2 R) as (h' & E & R' & F & L).
  pose proof (proj1 R) as ND. apply NoDup_insert_entry in ND as [_ He].
  split_and!.
  - exists h'. split_and!; [done| |done]. eapply repr_insert; [done|done|exact F|..];
      intros a Ha; eapply repr_fresh; [done|done|set_solver|done|done|set_solver].
  - eapply ring_live; [by apply HA|set_solver].
  - intros (hd & k & [[<- <-]|[Hne Hk]]%lookup_insert_Some & Hin); [done|].
    eapply (repr_fresh h A head); [done|exact Hl| |exact Hk|congruence|exact Hin]. set_solver.
Qed.

Lemma returns_del h A head l1 e l2 k Q :
  repr h A -> A !! head = Some (l1 ++ e :: l2) ->
  (forall h1, repr h1 (<[head := l1 ++ l2]> A) -> live h1 e -> ~ used (<[head := l1 ++ l2]> A) e ->
     returns k h1 Q) ->
  returns (_list_del e;; k) h Q.
Proof.
  intros HA Hl Hk. destruct (_list_del_repr h A head l1 e l2 HA Hl) as (Hd & Le & He).
  eapply returns_seq; [exact Hd|]. intros h1 H1 L1. apply Hk; [done|by apply L1|done].
Qed.

Lemma _list_splice_repr h A l m head l1 l2 :
  repr h A -> A !! l = Some m -> A !! head = Some (l1 ++ l2) -> l ≠ head ->
  returns (_list_splice l (lst head l1) (fst_of l2 head)) h
    (fun h' => repr h' (<[head := l1 ++ m ++ l2]> (delete l A))) /\
  live h l /\ ~ used (<[head := l1 ++ m ++ l2]> (delete l A)) l.
Proof.
  intros HA Hl Hh Hne. assert (R : ring h l m) by (by apply HA).
  assert (Hdis : forall a, a ∈ l :: m -> a ∉ head :: l1 ++ l2)
    by (intros a Ha; by eapply (proj2 HA l m head (l1 ++ l2))).
  destruct (_list_splice_ring h l m head l1 l2) as (h' & E & R' & F & L); [done|by apply HA|done|].
  assert (Hfr : forall a, a ∈ m ++ head :: l1 ++ l2 -> fresh_for (delete l A) head a).
  { intros a [Ha|Ha]%elem_of_app h1 k1 [Hn1 H1]%lookup_delete_Some Hh1.
    - eapply (proj2 HA l m h1 k1); [done..|by right].
    - by eapply (repr_fresh h A head). }
  split_and!.
  - exists h'. split_and!; [done| |done].
    eapply repr_insert; [by apply repr_delete|done|exact F|done|]. intros a Ha. apply Hfr. set_solver.
  - eapply ring_live; [exact R|left].
  - intros (hd & k & [[<- <-]|[Hn Hk]]%lookup_insert_Some & Hin).
    + assert (l ∉ m) by (destruct R as [[? _]%NoDup_cons _]; done).
      pose proof (Hdis l ltac:(left)). set_solver.
    + apply lookup_delete_Some in Hk as [Hn' Hk]. eapply (proj2 HA l m hd k); [done..|left|done].
Qed.

(** Clearing the pointers of an entry that is in no list. *)
Lemma clear_entry_repr h A e : repr h A -> live h e -> ~ used A e ->
  returns (store_prev e NULL;; store_next e NULL) h (fun h' => repr h' A).
Proof.
  intros HA Le He. eapply returns_writes; [by apply clear_entry_writes|].
  intros h' _ _ F. destruct HA as [HR HD]. split; [|done]. intros hd k Hk.
  eapply ring_frame; [by apply HR|exact F|].
  intros a ->%list_elem_of_singleton Ha. apply He. by exists hd, k.
Qed.

Lemma exec_simulates h A o A' :
  repr h A -> astep A o A' -> (forall n, arg o = Some n -> live h n) ->
  returns (exec o) h (fun h' => repr h' A').
Proof.
  intros HA Hs Hlive. destruct Hs; cbn [exec arg] in *.
  - apply INIT_LIST_HEAD_repr; auto.
  - apply list_add_repr; auto.
  - apply list_add_tail_repr; auto.
  - eapply returns_del; [done|done|]. intros. by apply clear_entry_repr.
  - eapply returns_del; [done|done|]. intros. by apply INIT_LIST_HEAD_repr.
  - eapply returns_del; [done|done|]. intros. by apply list_add_repr.
  - eapply returns_del; [done|done|]. intros. by apply list_add_tail_repr.
  - eapply returns_load; [by apply HA|]. by apply (_list_splice_repr h A l m head [] k).
  - eapply returns_load; [by apply HA|]. cbn [prev].
    edestruct (_list_splice_repr h A l m head k []) as (Hs & _); [done|done|by rewrite app_nil_r|done|].
    by rewrite app_nil_r in Hs.
  - eapply returns_load; [by apply HA|]. cbn [next].
    destruct (_list_splice_repr h A l m head [] k) as (Hs & Ll & Hu); [done..|].
    eapply returns_seq; [exact Hs|]. intros h1 R1 L1. apply INIT_LIST_HEAD_repr; [done|by apply L1|done].
  - eapply returns_load; [by apply HA|]. cbn [prev].
    edestruct (_list_splice_repr h A l m head k []) as (Hs & Ll & Hu); [done|done|by rewrite app_nil_r|done|].
    rewrite app_nil_r in Hs, Hu.
    eapply returns_seq; [exact Hs|]. intros h1 R1 L1. apply INIT_LIST_HEAD_repr; [done|by apply L1|done].
Qed.

(** ** Sequences of operations *)

Fixpoint exec_all (os : list op) : M unit :=
  match os with [] => mret tt | o :: os => exec o;; exec_all os end.

Inductive asteps : rings -> list op -> rings -> Prop :=
| asteps_nil A : asteps A [] A
| asteps_cons A o A1 os A2 : astep A o A1 -> asteps A1 os A2 -> asteps A (o :: os) A2.

(** ** Traversals *)

Section traversal.
Context {S : Type} (body : Z -> S -> M S) (f : Z -> S -> S).
Hypothesis body_reads : forall p a h, body p a h = Ok (f p a, h).

Lemma for_each_from_path h head l : forall fuel p a,
  Forall (linked h) (links p l head) -> head ∉ l -> (length l < fuel)%nat ->
  for_each_from fuel body (fst_of l head) head a h = Ok (foldl (fun a p => f p a) a l, h).
Proof.
  induction l as [|x l IH]; intros [|fuel] p a HF Hh Hfuel; [cbn in Hfuel; lia| |cbn in Hfuel; lia|]; cbn.
  - by rewrite Z.eqb_refl.
  - apply not_elem_of_cons in Hh as [Hx Hh]. rewrite (proj2 (Z.eqb_neq _ _)) by congruence.
    erewrite ST_bind_Ok by apply body_reads.
    cbn in HF. apply Forall_cons in HF as [[_ Hp] HF].
    assert (Hn : nx h x = Some (fst_of l head)) by (destruct l; by apply Forall_cons in HF as [[? _] _]).
    rewrite (load_bind _ h x _ _ Hn Hp). apply (IH fuel x); [done|done|cbn in Hfuel; lia].
Qed.

Lemma for_each_prev_from_path h head l : forall fuel q a,
  Forall (linked h) (links head l q) -> head ∉ l -> (length l < fuel)%nat ->
  for_each_prev_from fuel body (lst head l) head a h = Ok (foldl (fun a p => f p a) a (rev l), h).
Proof.
  induction l as [|x l IH] using rev_ind; intros [|fuel] q a HF Hh Hfuel;
    [cbn in Hfuel; lia| |cbn in Hfuel; lia|]; cbn.
  - by rewrite Z.eqb_refl.
  - rewrite lst_app, rev_app_distr. change (lst (lst head l) [x]) with x. cbn [rev app foldl].
    rewrite not_elem_of_app, list_elem_of_singleton in Hh. destruct Hh as [Hh Hx].
    rewrite (proj2 (Z.eqb_neq _ _)) by congruence.
    erewrite ST_bind_Ok by apply body_reads.
    pose proof (links_split head l [x] [] q) as EL. rewrite app_nil_r in EL. rewrite EL in HF.
    apply Forall_app in HF as [HF1 HF2]. cbn in HF2.
    apply Forall_cons in HF2 as [[Hn1 Hp] HF2]. apply Forall_cons in HF2 as [[Hn _] _]. cbn in Hn, Hp.
    rewrite (load_bind _ h x _ _ Hn Hp). cbn [prev].
    apply (IH fuel x); [|done|rewrite length_app in Hfuel; cbn in Hfuel; lia].
    pose proof (links_split head l [] [] x) as EL'. rewrite !app_nil_r in EL'. rewrite EL'.
    apply Forall_app. split; [done|]. by repeat constructor.
Qed.

End traversal.

(** [list_del(p)] as the body of a safe traversal, collecting the entries. *)
Definition del_body (p : Z) (a : list Z) : M (list Z) := list_del p;; mret (a ++ [p]).

(** The pointers of a deleted entry. *)
Definition detached (h : heap) (e : Z) : Prop := nx h e = Some NULL /\ pv h e = Some NULL.

Lemma list_del_ring h head l1 e l2 :
  ring h head (l1 ++ e :: l2) ->
  exists h', list_del e h = Ok (tt, h') /\ ring h' head (l1 ++ l2) /\ detached h' e
    /\ frame (head :: l1 ++ e :: l2) h h'.
Proof.
  intros R. destruct (_list_del_ring h head l1 e l2 R) as (h1 & E1 & R1 & F1 & L1).
  pose proof (proj1 R) as ND. apply NoDup_insert_entry in ND as [_ He].
  assert (Le : live h1 e) by (apply L1; eapply ring_live; [exact R|set_solver]).
  destruct (clear_entry_writes h1 e Le) as (h' & E & N & P & F & L).
  exists h'. split_and!.
  - unfold list_del. by erewrite ST_bind_Ok.
  - eapply ring_frame; [exact R1|exact F|]. by intros a ->%list_elem_of_singleton.
  - split; fields; by case_decide.
  - intros a Ha. rewrite F, F1 by set_solver. done.
Qed.

Lemma drain_from head l : forall fuel h p nn a,
  ring h head l -> p = fst_of l head -> nx h p = Some nn -> (length l < fuel)%nat ->
  exists h', for_each_safe_from fuel del_body p nn head a h = Ok (a ++ l, h')
    /\ ring h' head [] /\ Forall (detached h') l /\ frame (head :: l) h h'.
Proof.
  induction l as [|x l IH]; intros [|fuel] h p nn a R -> Hnn Hfuel;
    [cbn in Hfuel; lia| |cbn in Hfuel; lia|]; cbn [for_each_safe_from fst_of List.hd].
  - rewrite Z.eqb_refl, app_nil_r. by exists h.
  - pose proof (proj1 R) as ND. apply NoDup_cons in ND as [Hh ND]. apply not_elem_of_cons in Hh as [Hx Hh].
    change (List.hd head (x :: l)) with x in *. rewrite (proj2 (Z.eqb_neq _ _)) by congruence.
    destruct (list_del_ring h head [] x l R) as (h1 & E1 & R1 & D1 & F1).
    assert (Eb : del_body x a h = Ok (a ++ [x], h1)) by (unfold del_body; by erewrite ST_bind_Ok).
    erewrite ST_bind_Ok by exact Eb.
    pose proof (ring_linked h head [] [x] l R) as HL. cbn in HL.
    apply Forall_cons in HL as [_ HL]. apply Forall_cons in HL as [[Hn _] _]. cbn in Hn.
    change (fst_of (x :: l) head) with x in Hnn. rewrite Hn in Hnn. injection Hnn as <-.
    pose proof (fst_of_in l head) as Hin.
    destruct (ring_live h1 head l (fst_of l head)) as [[nn' pp'] Hnode]; [done|done|].
    assert (Hn' : nx h1 (fst_of l head) = Some nn') by (unfold nx; by rewrite Hnode).
    assert (Hp' : pv h1 (fst_of l head) = Some pp') by (unfold pv; by rewrite Hnode).
    rewrite (load_bind _ h1 _ _ _ Hn' Hp'). cbn [next].
    destruct (IH fuel h1 (fst_of l head) nn' (a ++ [x])) as (h' & E & R' & D & F);
      [done|done|done|cbn in Hfuel; lia|].
    exists h'. rewrite <- app_assoc in E. split_and!; [done|done| |].
    + apply Forall_cons. split; [|done]. apply NoDup_cons in ND as [Hxl _].
      unfold detached, nx, pv. rewrite F by (apply not_elem_of_cons; split; [congruence|done]). exact D1.
    + intros b Hb. rewrite F, F1 by set_solver. done.
Qed.

Lemma exec_all_simulates os : forall h A A',
  repr h A -> asteps A os A' -> (forall o n, o ∈ os -> arg o = Some n -> live h n) ->
  returns (exec_all os) h (fun h' => repr h' A').
Proof.
  induction os as [|o os IH]; intros h A A' HA Hs Hlive; inversion Hs; subst.
  - exists h. done.
  - eapply returns_seq; [eapply exec_simulates; [exact HA|eassumption|]; intros n; apply Hlive; left|].
    intros h1 R1 L1. eapply IH; [exact R1|eassumption|]. intros o' n Ho Hn. apply L1. by eapply Hlive; [right|].
Qed.

(** ** Theorems *)

(** The list operations refine operations on sequences.  Whatever sequence
    of initialisations, additions, deletions, moves and splices a client
    performs, if each step meets the client obligations of [astep] (entries that
    are added are in no list, entries that are deleted are in one, spliced lists
    differ), then the pointer code returns (it makes no undefined access) and
    the store it leaves holds exactly the lists the abstract operations give,
    as disjoint rings that agree in both directions. *)
Theorem list_ops_refine (h : heap) (A A' : rings) (os : list op) :
  repr h A -> asteps A os A' -> (forall o n, o ∈ os -> arg o = Some n -> live h n) ->
  exists h', exec_all os h = Ok (tt, h') /\ repr h' A'.
Proof.
  intros HA Hs Hl. destruct (exec_all_simulates os h A A' HA Hs Hl) as (h' & E & R & _). by exists h'.
Qed.

(** Three objects, of which none is initialised. *)
Definition demo_heap : heap := <[8 := mk_list_head 0 0]> (<[16 := mk_list_head 0 0]> {[24 := mk_list_head 0 0]}).

Lemma list_ops_refine_witness :
  exists h', exec_all [OInit 8; OAddTail 16 8; OAdd 24 8; ODel 16] demo_heap = Ok (tt, h')
    /\ repr h' (<[8 := [24]]> (<[8 := [24; 16]]> (<[8 := [16]]> (<[8 := []]> ∅)))).
Proof.
  apply (list_ops_refine demo_heap ∅).
  - split; intros *; by rewrite lookup_empty.
  - assert (U : forall (A : rings) n, (forall hd k, A !! hd = Some k -> n ∉ hd :: k) -> ~ used A n)
      by (intros A n H (hd & k & Hk & Hn); by apply (H hd k)).
    econstructor; [apply astep_init, U; intros ??; by rewrite lookup_empty|].
    econstructor; [apply (astep_add_tail _ 16 8 []); [|done]; apply U; intros ?? [[<- <-]|[_ ?]]%lookup_insert_Some; [set_solver|done]|].
    econstructor; [apply (astep_add _ 24 8 [16]); [|done]|].
    { apply U. intros ?? [[<- <-]|[_ [[<- <-]|[_ ?]]%lookup_insert_Some]]%lookup_insert_Some; [set_solver..|done]. }
    econstructor; [apply (astep_del _ 16 8 [24] []); done|]. constructor.
  - intros o n Ho Hn. repeat (apply elem_of_cons in Ho as [->|Ho]; [cbn in Hn; try discriminate Hn; injection Hn as <-; by eexists|]).
    by apply not_elem_of_nil in Ho.
Defined.

(** Traversals.  On a ring with entries [l], and with more fuel than
    entries, [list_for_each] ends after visiting exactly the entries of [l] in
    order, and [list_for_each_prev] after visiting them in the opposite order,
    for any loop body that only reads the store. *)
Theorem list_for_each_visits {S} (body : Z -> S -> M S) (f : Z -> S -> S) h head l fuel a :
  (forall p a h, body p a h = Ok (f p a, h)) -> ring h head l -> (length l < fuel)%nat ->
  list_for_each fuel body head a h = Ok (foldl (fun a p => f p a) a l, h) /\
  list_for_each_prev fuel body head a h = Ok (foldl (fun a p => f p a) a (rev l), h).
Proof.
  intros Hb R Hf. destruct (ring_nil_links h head l R) as [Hn Hp]. destruct (R) as [[Hh _]%NoDup_cons HF].
  unfold list_for_each, list_for_each_prev. rewrite !(load_bind _ h head _ _ Hn Hp). cbn [next prev].
  split; [by eapply for_each_from_path | by eapply for_each_prev_from_path].
Qed.

(** A ring of two entries. *)
Definition demo_ring : heap :=
  <[8 := mk_list_head 16 24]> (<[16 := mk_list_head 24 8]> {[24 := mk_list_head 8 16]}).

Lemma demo_ring_ok : ring demo_ring 8 [16; 24].
Proof. split; [apply (bool_decide_unpack _); reflexivity|]. repeat constructor; reflexivity. Qed.

Lemma list_for_each_visits_witness :
  list_for_each 3 (fun p a => mret (a + p)) 8 0 demo_ring = Ok (40, demo_ring) /\
  list_for_each_prev 3 (fun p a => mret (a + p)) 8 0 demo_ring = Ok (40, demo_ring).
Proof.
  apply (list_for_each_visits (fun p a => mret (a + p)) (fun p a => a + p) demo_ring 8 [16; 24] 3 0);
    [done | apply demo_ring_ok | cbn; lia].
Defined.

(** Draining a list.  A [list_for_each_safe] whose body deletes the current
    entry with [list_del] ends (with more fuel than entries), has visited every
    entry once and in order, leaves the list empty and every former entry with
    null pointers, and changes no object outside the list. *)
Theorem list_for_each_safe_drains (h : heap) head l fuel :
  ring h head l -> (length l < fuel)%nat ->
  exists h', list_for_each_safe fuel del_body head [] h = Ok (l, h')
    /\ ring h' head [] /\ Forall (detached h') l /\ frame (head :: l) h h'.
Proof.
  intros R Hf. destruct (ring_nil_links h head l R) as [Hn Hp].
  unfold list_for_each_safe. rewrite (load_bind _ h head _ _ Hn Hp). cbn [next].
  destruct (ring_live h head l (fst_of l head)) as [[nn pp] Hnode]; [done|apply fst_of_in|].
  assert (Hn' : nx h (fst_of l head) = Some nn) by (unfold nx; by rewrite Hnode).
  assert (Hp' : pv h (fst_of l head) = Some pp) by (unfold pv; by rewrite Hnode).
  rewrite (load_bind _ h _ _ _ Hn' Hp'). cbn [next]. by apply (drain_from head l fuel h _ nn []).
Qed.

Lemma list_for_each_safe_drains_witness :
  exists h', list_for_each_safe 3 del_body 8 [] demo_ring = Ok ([16; 24], h') /\ ring h' 8 []
    /\ Forall (detached h') [16; 24] /\ frame [8; 16; 24] demo_ring h'.
Proof. apply (list_for_each_safe_drains demo_ring 8 [16; 24] 3); [apply demo_ring_ok | cbn; lia]. Defined.

End CList.
