(* ===== verification/Fetcher.v ===== *)
(** * The C interface of the fetcher

    - [Facade]: capi/capi/fetcher.c, the C API that forwards each call to the
      fetcher created by [pcfetcher_init], for any backend ([Backend] is the
      table of functions of [struct pcfetcher]);
    - [LocalBackend]: capi/capi/fetcher-local.cpp, the backend of builds without
      the fetcher process, with its heap of [struct pcfetcher] objects;
    - [Instance]: instance/instance.c and instance/features.c;
    - [Debug]: utils/debug.c;
    - [Ports]: ports/vasprintf.c.

    Pointers are addresses, 0 is NULL; C strings passed through are opaque
    optional byte strings. *)
From stdpp Require Import gmap.
From S2P Require Import Prelude CList.

(** A [const char*] argument or result: [None] is NULL. *)
Abbreviation cstr := (option (list Z)).

Inductive pcfetcher_request_method :=
| PCFETCHER_REQUEST_METHOD_GET
| PCFETCHER_REQUEST_METHOD_POST
| PCFETCHER_REQUEST_METHOD_DELETE.

(** [struct pcfetcher_resp_header] *)
Record pcfetcher_resp_header := mk_resp_header { ret_code : Z; mime_type : cstr; sz_resp : Z }.

(** The functions a backend provides, each on the fetcher it is given and on the
    backend's own state [W].  Variants, streams and callbacks are the addresses
    the C code passes around; the two out-parameters of [cookie_get] and the
    response header of [request_sync] are part of the results. *)
Class Backend (W : Type) := {
  bk_init : Z -> Z -> ST W Z;
  bk_term : Z -> ST W Z;
  bk_set_base_url : Z -> cstr -> ST W cstr;
  bk_cookie_set : Z -> cstr -> cstr -> cstr -> cstr -> Z -> bool -> ST W unit;
  bk_cookie_get : Z -> cstr -> cstr -> cstr -> ST W (cstr * option (Z * bool));
  bk_cookie_remove : Z -> cstr -> cstr -> cstr -> ST W cstr;
  bk_request_async : Z -> cstr -> pcfetcher_request_method -> Z -> Z -> Z -> Z -> ST W Z;
  bk_request_sync : Z -> cstr -> pcfetcher_request_method -> Z -> Z ->
    ST W (Z * option pcfetcher_resp_header);
  bk_check_response : Z -> Z -> ST W Z
}.

Module Facade.
Section facade.
Context {W : Type} `{Backend W}.

(** The static variable of fetcher.c next to the backend's state. *)
Record world := mk_world { s_fetcher : Z; backend : W }.

Definition PURC_VARIANT_INVALID : Z := 0.

(** A call of the backend. *)
Definition fwd {A} (m : ST W A) : ST world A := fun w =>
  '(a, b) ← m (backend w); Ok (a, mk_world (s_fetcher w) b).

Definition get_fetcher : ST world Z := fun w => Ok (s_fetcher w, w).
Definition set_fetcher (p : Z) : ST world unit := fun w => Ok (tt, mk_world p (backend w)).

Definition pcfetcher_init (max_conns cache_quota : Z) : ST world Z :=
  f ← get_fetcher;
  if negb (f =? 0) then mret 0
  else
    p ← fwd (bk_init max_conns cache_quota);
    set_fetcher p;; mret 0.

Definition pcfetcher_term : ST world Z :=
  f ← get_fetcher;
  if f =? 0 then mret 0
  else
    ret ← fwd (bk_term f);
    set_fetcher 0;; mret ret.

Definition pcfetcher_set_base_url (base_url : cstr) : ST world cstr :=
  f ← get_fetcher;
  if f =? 0 then mret None else fwd (bk_set_base_url f base_url).

Definition pcfetcher_cookie_set (domain path name content : cstr) (expire_time : Z) (secure : bool)
    : ST world unit :=
  f ← get_fetcher;
  if f =? 0 then mret tt else fwd (bk_cookie_set f domain path name content expire_time secure).

Definition pcfetcher_cookie_get (domain path name : cstr) : ST world (cstr * option (Z * bool)) :=
  f ← get_fetcher;
  if f =? 0 then mret (None, None) else fwd (bk_cookie_get f domain path name).

Definition pcfetcher_cookie_remove (domain path name : cstr) : ST world cstr :=
  f ← get_fetcher;
  if f =? 0 then mret None else fwd (bk_cookie_remove f domain path name).

Definition pcfetcher_request_async (url : cstr) (method : pcfetcher_request_method)
    (params timeout handler ctxt : Z) : ST world Z :=
  f ← get_fetcher;
  if f =? 0 then mret PURC_VARIANT_INVALID
  else fwd (bk_request_async f url method params timeout handler ctxt).

Definition pcfetcher_request_sync (url : cstr) (method : pcfetcher_request_method)
    (params timeout : Z) : ST world (Z * option pcfetcher_resp_header) :=
  f ← get_fetcher;
  if f =? 0 then mret (0, None) else fwd (bk_request_sync f url method params timeout).

Definition pcfetcher_check_response (timeout_ms : Z) : ST world Z :=
  f ← get_fetcher;
  if f =? 0 then mret 0 else fwd (bk_check_response f timeout_ms).

(** ** Calls as data *)

Inductive call :=
| CInit (max_conns cache_quota : Z)
| CTerm
| CSetBaseUrl (url : cstr)
| CCookieSet (domain path name content : cstr) (expire : Z) (secure : bool)
| CCookieGet (domain path name : cstr)
| CCookieRemove (domain path name : cstr)
| CRequestAsync (url : cstr) (m : pcfetcher_request_method) (params timeout handler ctxt : Z)
| CRequestSync (url : cstr) (m : pcfetcher_request_method) (params timeout : Z)
| CCheckResponse (timeout_ms : Z).

Inductive result :=
| RInt (z : Z) | RStr (s : cstr) | RVoid
| RCookie (c : cstr * option (Z * bool)) | RSync (r : Z * option pcfetcher_resp_header).

Definition api (c : call) : ST world result :=
  match c with
  | CInit m q => r ← pcfetcher_init m q; mret (RInt r)
  | CTerm => r ← pcfetcher_term; mret (RInt r)
  | CSetBaseUrl u => r ← pcfetcher_set_base_url u; mret (RStr r)
  | CCookieSet d p n c e s => pcfetcher_cookie_set d p n c e s;; mret RVoid
  | CCookieGet d p n => r ← pcfetcher_cookie_get d p n; mret (RCookie r)
  | CCookieRemove d p n => r ← pcfetcher_cookie_remove d p n; mret (RStr r)
  | CRequestAsync u m p t h x => r ← pcfetcher_request_async u m p t h x; mret (RInt r)
  | CRequestSync u m p t => r ← pcfetcher_request_sync u m p t; mret (RSync r)
  | CCheckResponse t => r ← pcfetcher_check_response t; mret (RInt r)
  end.

(** The result of a call that has no fetcher to go to. *)
Definition null_result (c : call) : result :=
  match c with
  | CInit _ _ | CTerm | CCheckResponse _ => RInt 0
  | CSetBaseUrl _ | CCookieRemove _ _ _ => RStr None
  | CCookieSet _ _ _ _ _ _ => RVoid
  | CCookieGet _ _ _ => RCookie (None, None)
  | CRequestAsync _ _ _ _ _ _ => RInt PURC_VARIANT_INVALID
  | CRequestSync _ _ _ _ => RSync (0, None)
  end.

(** What the backend does for a call on the fetcher [f]; a repeated [init] is
    answered without the backend. *)
Definition backend_call (f : Z) (c : call) : ST W result :=
  match c with
  | CInit _ _ => mret (RInt 0)
  | CTerm => r ← bk_term f; mret (RInt r)
  | CSetBaseUrl u => r ← bk_set_base_url f u; mret (RStr r)
  | CCookieSet d p n c e s => bk_cookie_set f d p n c e s;; mret RVoid
  | CCookieGet d p n => r ← bk_cookie_get f d p n; mret (RCookie r)
  | CCookieRemove d p n => r ← bk_cookie_remove f d p n; mret (RStr r)
  | CRequestAsync u m p t h x => r ← bk_request_async f u m p t h x; mret (RInt r)
  | CRequestSync u m p t => r ← bk_request_sync f u m p t; mret (RSync r)
  | CCheckResponse t => r ← bk_check_response f t; mret (RInt r)
  end.

Fixpoint run {S R} (step : call -> ST S R) (cs : list call) : ST S (list R) :=
  match cs with
  | [] => mret []
  | c :: cs => r ← step c; rs ← run step cs; mret (r :: rs)
  end.

(** A session as the backend sees it: one [init], the calls on the fetcher it
    returned, one [term]. *)
Definition session (max_conns cache_quota : Z) (cs : list call) : ST W (list result) :=
  f ← bk_init max_conns cache_quota;
  rs ← run (backend_call f) cs;
  r ← bk_term f;
  mret (RInt 0 :: rs ++ [RInt r]).

Definition no_term (cs : list call) : Prop := Forall (fun c => c ≠ CTerm) cs.
Definition no_init (cs : list call) : Prop := Forall (fun c => forall m q, c ≠ CInit m q) cs.

Lemma fwd_bind {A B} (m : ST W A) (g : A -> B) w :
  (r ← fwd m; mret (g r)) w = fwd (r ← m; mret (g r)) w.
Proof. unfold fwd, mbind, ST_bind, mret, ST_ret, res_bind. cbn. by destruct (m (backend w)) as [[? ?]| | |]. Qed.

(** With a fetcher, every call but [term] is the backend's. *)
Lemma api_live f b c : f ≠ 0 -> c ≠ CTerm ->
  api c (mk_world f b) = fwd (backend_call f c) (mk_world f b).
Proof.
  intros Hf Hc. apply Z.eqb_neq in Hf.
  destruct c; try done; cbn [api backend_call]; rewrite <- ?fwd_bind;
    unfold pcfetcher_init, pcfetcher_set_base_url, pcfetcher_cookie_set, pcfetcher_cookie_get,
      pcfetcher_cookie_remove, pcfetcher_request_async, pcfetcher_request_sync,
      pcfetcher_check_response, get_fetcher, mbind, ST_bind, mret, ST_ret; cbn; by rewrite Hf.
Qed.

Lemma api_null c w : s_fetcher w = 0 -> (forall m q, c ≠ CInit m q) -> api c w = Ok (null_result c, w).
Proof.
  destruct w as [f b]. cbn. intros -> Hc. destruct c; try done. by destruct (Hc max_conns cache_quota).
Qed.

Lemma run_live f cs : f ≠ 0 -> no_term cs -> forall b,
  run api cs (mk_world f b) = fwd (run (backend_call f) cs) (mk_world f b).
Proof.
  intros Hf. induction 1 as [|c cs Hc _ IH]; intros b; [done|]. cbn [run].
  unfold mbind, ST_bind. rewrite api_live by done. unfold fwd, mbind, res_bind in *. cbn.
  destruct (backend_call f c b) as [[r b1]| | |]; try done. rewrite IH. cbn.
  by destruct (run (backend_call f) cs b1) as [[rs b2]| | |].
Qed.

Lemma run_app {S R} (step : call -> ST S R) cs1 cs2 s :
  run step (cs1 ++ cs2) s = (rs1 ← run step cs1; rs2 ← run step cs2; mret (rs1 ++ rs2)) s.
Proof.
  revert s; induction cs1 as [|c cs1 IH]; intros s; cbn [run app]; unfold mbind, ST_bind in *.
  - unfold mret, ST_ret. cbn. by destruct (run step cs2 s) as [[? ?]| | |].
  - destruct (step c s) as [[r s1]| | |]; try done. rewrite IH.
    destruct (run step cs1 s1) as [[rs s2]| | |]; try done.
    unfold mret, ST_ret. cbn. by destruct (run step cs2 s2) as [[? ?]| | |].
Qed.

Lemma run_session w m q f b cs :
  s_fetcher w = 0 -> bk_init m q (backend w) = Ok (f, b) -> f ≠ 0 -> no_term cs ->
  run api (CInit m q :: cs ++ [CTerm]) w = fwd (session m q cs) w.
Proof.
  destruct w as [f0 b0]; cbn [s_fetcher backend]. intros -> Hinit Hf Hcs.
  assert (E : api (CInit m q) (mk_world 0 b0) = Ok (RInt 0, mk_world f b))
    by (cbn; unfold pcfetcher_init, get_fetcher, fwd, set_fetcher, mbind, ST_bind, res_bind, mret, ST_ret;
        cbn; by rewrite Hinit).
  cbn [run]. erewrite ST_bind_Ok by exact E.
  unfold session, mbind, ST_bind, fwd, res_bind. cbn [backend s_fetcher]. rewrite Hinit.
  rewrite run_app. unfold mbind, ST_bind. rewrite run_live by done. unfold fwd, mbind, res_bind. cbn.
  destruct (run (backend_call f) cs b) as [[rs b1]| | |]; try done. cbn.
  unfold pcfetcher_term, get_fetcher, set_fetcher, mbind, ST_bind, fwd, res_bind, mret, ST_ret. cbn.
  rewrite (proj2 (Z.eqb_neq _ _) Hf). cbn. by destruct (bk_term f b1) as [[r b2]| | |].
Qed.

(** A session of the C API is a session of the backend.  From the state
    without a fetcher, [pcfetcher_init], any calls but [pcfetcher_term] (a
    repeated [pcfetcher_init] among them is a no-op that returns 0), and then
    [pcfetcher_term], do exactly what the backend does when it is initialised
    once, gets every call with the pointer it returned, and is terminated once;
    afterwards the API has no fetcher again.  The backend's failures (crash,
    undefined behaviour) are the API's. *)
Theorem facade_session w m q f b cs :
  s_fetcher w = 0 -> bk_init m q (backend w) = Ok (f, b) -> f ≠ 0 -> no_term cs ->
  run api (CInit m q :: cs ++ [CTerm]) w = fwd (session m q cs) w.
Proof. apply run_session. Qed.

(** Without a fetcher (before [pcfetcher_init], and again after
    [pcfetcher_term]) every sequence of API calls other than [pcfetcher_init]
    returns the null result of each call and touches nothing: no backend
    function is called. *)
Theorem facade_without_fetcher w cs :
  s_fetcher w = 0 -> no_init cs -> run api cs w = Ok (null_result <$> cs, w).
Proof.
  intros Hw. induction 1 as [|c cs Hc _ IH]; [done|]. cbn [run].
  erewrite ST_bind_Ok by (by apply api_null). by erewrite ST_bind_Ok by exact IH.
Qed.

End facade.
Arguments world : clear implicits.
End Facade.

Module LocalBackend.

(** The functions of fetcher-local.cpp that a [struct pcfetcher] can point to. *)
Inductive fn :=
| fn_init | fn_term | fn_set_base_url | fn_cookie_set | fn_cookie_get | fn_cookie_remove
| fn_request_async | fn_request_sync | fn_check_response.

(** [struct pcfetcher]; a field is [None] until it is assigned. *)
Record pcfetcher := mk_pcfetcher {
  max_conns : option Z;
  cache_quota : option Z;
  init : option fn;
  term : option fn;
  set_base_url : option fn;
  cookie_set : option fn;
  cookie_get : option fn;
  cookie_remove : option fn;
  request_async : option fn;
  request_sync : option fn;
  check_response : option fn
}.

#[global] Instance fn_eq_dec : EqDecision fn.
Proof. solve_decision. Defined.

Abbreviation heap := (gmap Z pcfetcher).

Section local.
(** [malloc(sizeof(struct pcfetcher))] in a heap: 0 or a fresh address. *)
Context (malloc : heap -> Z).

(** The statement [fetcher->cache_quota;] of the source assigns nothing. *)
Definition pcfetcher_local_init (max_conns cache_quota : Z) : ST heap Z := fun h =>
  let fetcher := malloc h in
  if fetcher =? 0 then UB
  else
    Ok (fetcher,
        <[fetcher := mk_pcfetcher (Some max_conns) None (Some fn_init) (Some fn_term)
           (Some fn_set_base_url) (Some fn_cookie_set) (Some fn_cookie_get) (Some fn_cookie_remove)
           (Some fn_request_async) (Some fn_request_sync) (Some fn_check_response)]> h).

Definition pcfetcher_local_term (fetcher : Z) : ST heap Z := fun h =>
  _ ← or_ub (h !! fetcher); Ok (0, delete fetcher h).

Definition pcfetcher_local_set_base_url (fetcher : Z) (base_url : cstr) : ST heap cstr := mret None.
Definition pcfetcher_cookie_local_set (fetcher : Z) (domain path name content : cstr) (expire : Z)
  (secure : bool) : ST heap unit := mret tt.
Definition pcfetcher_cookie_local_get (fetcher : Z) (domain path name : cstr)
  : ST heap (cstr * option (Z * bool)) := mret (None, None).
Definition pcfetcher_cookie_loccal_remove (fetcher : Z) (domain path name : cstr) : ST heap cstr := mret None.
Definition pcfetcher_local_request_async (fetcher : Z) (url : cstr) (method : pcfetcher_request_method)
  (params timeout handler ctxt : Z) : ST heap Z := mret 0.
Definition pcfetcher_local_request_sync (fetcher : Z) (url : cstr) (method : pcfetcher_request_method)
  (params timeout : Z) : ST heap (Z * option pcfetcher_resp_header) := mret (0, None).
Definition pcfetcher_local_check_response (fetcher : Z) (timeout_ms : Z) : ST heap Z := mret 0.

(** [fetcher->field(fetcher, ...)]: the field is loaded and the function it
    holds is called; a field that holds no function of that type is [UB]. *)
Definition through {A} (field : pcfetcher -> option fn) (expected : fn) (fetcher : Z) (body : ST heap A)
    : ST heap A := fun h =>
  s ← or_ub (h !! fetcher);
  g ← or_ub (field s);
  if decide (g = expected) then body h else UB.

#[global] Instance local_backend : Backend heap := {
  bk_init := pcfetcher_local_init;
  bk_term f := through term fn_term f (pcfetcher_local_term f);
  bk_set_base_url f u := through set_base_url fn_set_base_url f (pcfetcher_local_set_base_url f u);
  bk_cookie_set f d p n c e s :=
    through cookie_set fn_cookie_set f (pcfetcher_cookie_local_set f d p n c e s);
  bk_cookie_get f d p n := through cookie_get fn_cookie_get f (pcfetcher_cookie_local_get f d p n);
  bk_cookie_remove f d p n :=
    through cookie_remove fn_cookie_remove f (pcfetcher_cookie_loccal_remove f d p n);
  bk_request_async f u m p t h x :=
    through request_async fn_request_async f (pcfetcher_local_request_async f u m p t h x);
  bk_request_sync f u m p t :=
    through request_sync fn_request_sync f (pcfetcher_local_request_sync f u m p t);
  bk_check_response f t :=
    through check_response fn_check_response f (pcfetcher_local_check_response f t)
}.

(** malloc returns NULL or the address of no live object. *)
Hypothesis malloc_fresh : forall h, malloc h ≠ 0 -> h !! malloc h = None.

Lemma local_call f (s : pcfetcher) h c :
  h !! f = Some s -> c ≠ Facade.CTerm ->
  init s = Some fn_init -> term s = Some fn_term -> set_base_url s = Some fn_set_base_url ->
  cookie_set s = Some fn_cookie_set -> cookie_get s = Some fn_cookie_get ->
  cookie_remove s = Some fn_cookie_remove -> request_async s = Some fn_request_async ->
  request_sync s = Some fn_request_sync -> check_response s = Some fn_check_response ->
  Facade.backend_call f c h = Ok (Facade.null_result c, h).
Proof.
  intros Hs Hc ? ? ? ? ? ? ? ? ?. destruct c; try done; cbn;
    unfold mbind, ST_bind, through, or_ub; rewrite Hs; cbn;
    repeat match goal with H : _ = Some _ |- _ => rewrite H end; cbn; by rewrite decide_True.
Qed.

(** A session with the local backend.  When memory is available, a session
    of the C API in a build without the fetcher process runs without undefined
    behaviour, answers every call with its null result and frees what it
    allocated: the heap at the end is the heap at the start.  In between, the
    fetcher's [cache_quota] has never been written, whatever quota was given to
    [pcfetcher_init]. *)
Theorem local_session h m q cs :
  malloc h ≠ 0 -> Facade.no_term cs ->
  Facade.run Facade.api (Facade.CInit m q :: cs ++ [Facade.CTerm]) (Facade.mk_world 0 h)
    = Ok (Facade.RInt 0 :: (Facade.null_result <$> cs) ++ [Facade.RInt 0], Facade.mk_world 0 h)
  /\ exists f s h', pcfetcher_local_init m q h = Ok (f, h') /\ h' !! f = Some s
       /\ max_conns s = Some m /\ cache_quota s = None.
Proof.
  intros Hm Hcs. pose proof (malloc_fresh h Hm) as Hfresh.
  assert (Hi : exists s, pcfetcher_local_init m q h = Ok (malloc h, <[malloc h := s]> h) /\
    s = mk_pcfetcher (Some m) None (Some fn_init) (Some fn_term)
           (Some fn_set_base_url) (Some fn_cookie_set) (Some fn_cookie_get) (Some fn_cookie_remove)
           (Some fn_request_async) (Some fn_request_sync) (Some fn_check_response)).
  { eexists. split; [|reflexivity]. unfold pcfetcher_local_init. by rewrite (proj2 (Z.eqb_neq _ _) Hm). }
  destruct Hi as (s & Hi & Hs). split.
  - rewrite (Facade.run_session _ m q (malloc h) (<[malloc h := s]> h)) by done.
    assert (Hrun : Facade.run (Facade.backend_call (malloc h)) cs (<[malloc h := s]> h)
      = Ok (Facade.null_result <$> cs, <[malloc h := s]> h)).
    { clear Hi. induction Hcs as [|c cs Hc _ IH]; [done|]. cbn [Facade.run].
      erewrite ST_bind_Ok by (eapply local_call; [by rewrite lookup_insert_eq|done|by subst s..]).
      by erewrite ST_bind_Ok by exact IH. }
    unfold Facade.session, Facade.fwd. cbn [Facade.backend].
    erewrite ST_bind_Ok by exact Hi. erewrite ST_bind_Ok by exact Hrun.
    assert (Ht : bk_term (malloc h) (<[malloc h := s]> h) = Ok (0, h)).
    { cbn. unfold through, pcfetcher_local_term. rewrite lookup_insert_eq. subst s. cbn.
      by rewrite delete_insert_id. }
    by erewrite ST_bind_Ok by exact Ht.
  - exists (malloc h), s, (<[malloc h := s]> h). rewrite lookup_insert_eq. by subst s.
Qed.

End local.
End LocalBackend.

(** ** Witnesses of the sessions *)

(** An allocator with room for one object. *)
Definition demo_malloc (h : LocalBackend.heap) : Z :=
  match h !! 8 with None => 8 | Some _ => 0 end.

Lemma demo_malloc_fresh h : demo_malloc h ≠ 0 -> h !! demo_malloc h = None.
Proof. unfold demo_malloc. by destruct (h !! 8) eqn:E. Qed.

Lemma local_session_witness :
  Facade.run (Facade.api (H := LocalBackend.local_backend demo_malloc))
    [Facade.CInit 4 100; Facade.CCheckResponse 10; Facade.CTerm] (Facade.mk_world 0 ∅)
    = Ok ([Facade.RInt 0; Facade.RInt 0; Facade.RInt 0], Facade.mk_world 0 ∅)
  /\ exists f s h', LocalBackend.pcfetcher_local_init demo_malloc 4 100 ∅ = Ok (f, h') /\ h' !! f = Some s
       /\ LocalBackend.max_conns s = Some 4 /\ LocalBackend.cache_quota s = None.
Proof.
  apply (LocalBackend.local_session demo_malloc demo_malloc_fresh ∅ 4 100 [Facade.CCheckResponse 10]);
    [done | by repeat constructor].
Defined.

Lemma facade_session_witness :
  let B := LocalBackend.local_backend demo_malloc in
  Facade.run (Facade.api (H := B)) [Facade.CInit 4 100; Facade.CInit 1 1; Facade.CTerm] (Facade.mk_world 0 ∅)
  = Facade.fwd (Facade.session (H := B) 4 100 [Facade.CInit 1 1]) (Facade.mk_world 0 ∅).
Proof.
  intros B.
  eapply (Facade.facade_session (H := B) (Facade.mk_world 0 ∅) 4 100 8 _ [Facade.CInit 1 1]);
    [done | vm_compute; reflexivity | done | by repeat constructor].
Defined.

Lemma facade_without_fetcher_witness :
  let B := LocalBackend.local_backend demo_malloc in
  Facade.run (Facade.api (H := B)) [Facade.CTerm; Facade.CCheckResponse 7] (Facade.mk_world 0 ∅)
  = Ok ([Facade.RInt 0; Facade.RInt 0], Facade.mk_world 0 ∅).
Proof.
  intros B. apply (Facade.facade_without_fetcher (H := B) (Facade.mk_world 0 ∅) [Facade.CTerm; Facade.CCheckResponse 7]);
    [done | by repeat constructor].
Defined.

Module Instance.

(** The fields of [struct purc_fetcher_instance] but its list head, which is an
    object of the store of list heads, 24 bytes into the instance. *)
Record purc_fetcher_instance := mk_instance { errcode : Z; app_name : Z; runner_name : Z }.

Definition list_offset : Z := 24.

Record store := mk_store { instances : gmap Z purc_fetcher_instance; heads : CList.heap }.

(** [calloc] of an instance: 0, or an address whose object is filled with zero. *)
Definition purc_fetcher_init (calloc : store -> Z) (app runner extra_info : Z) : ST store Z := fun s =>
  let inst := calloc s in
  if inst =? 0 then Ok (inst, s)
  else Ok (inst, mk_store (<[inst := mk_instance 0 0 0]> (instances s))
                   (<[inst + list_offset := CList.mk_list_head 0 0]> (heads s))).

Definition purc_fetcher_cleanup (inst : Z) : ST store bool :=
  if inst =? 0 then mret false else mret true.

Inductive purc_fetcher_feature :=
| PURCFETCHER_FEATURE_HTML | PURCFETCHER_FEATURE_XGML | PURCFETCHER_FEATURE_XML
| PURCFETCHER_FEATURE_LCMD | PURCFETCHER_FEATURE_LSQL | PURCFETCHER_FEATURE_RSQL
| PURCFETCHER_FEATURE_HTTP | PURCFETCHER_FEATURE_HIBUS | PURCFETCHER_FEATURE_MQTT
| PURCFETCHER_FEATURE_SSL.

(** The [PURCFETCHER_ENABLE_*] macros, which the build writes. *)
Record features := mk_features {
  ENABLE_HTML : bool; ENABLE_XGML : bool; ENABLE_XML : bool; ENABLE_LCMD : bool; ENABLE_LSQL : bool;
  ENABLE_RSQL : bool; ENABLE_HTTP : bool; ENABLE_HIBUS : bool; ENABLE_MQTT : bool; ENABLE_SSL : bool
}.

(** [None] is a value of the C enumeration's integer type outside the enumerators. *)
Definition purc_fetcher_is_feature_enabled (cfg : features) (feature : option purc_fetcher_feature) : bool :=
  match feature with
  | Some PURCFETCHER_FEATURE_HTML => ENABLE_HTML cfg
  | Some PURCFETCHER_FEATURE_XGML => ENABLE_XGML cfg
  | Some PURCFETCHER_FEATURE_XML => ENABLE_XML cfg
  | Some PURCFETCHER_FEATURE_LCMD => ENABLE_LCMD cfg
  | Some PURCFETCHER_FEATURE_LSQL => ENABLE_LSQL cfg
  | Some PURCFETCHER_FEATURE_RSQL => ENABLE_RSQL cfg
  | Some PURCFETCHER_FEATURE_HTTP => ENABLE_HTTP cfg
  | Some PURCFETCHER_FEATURE_HIBUS => ENABLE_HIBUS cfg
  | Some PURCFETCHER_FEATURE_MQTT => ENABLE_MQTT cfg
  | Some PURCFETCHER_FEATURE_SSL => ENABLE_SSL cfg
  | None => false
  end.

(** The list head of a new instance is not a list.  After a successful
    [purc_fetcher_init] its two pointers are NULL: [list_empty] answers false
    although nothing was added, and adding an entry, iterating over the list or
    deleting the head are accesses through NULL. *)
Theorem new_instance_list_unusable (calloc : store -> Z) app runner extra s n :
  calloc s ≠ 0 -> heads s !! 0 = None -> calloc s + list_offset ≠ 0 ->
  exists inst s', purc_fetcher_init calloc app runner extra s = Ok (inst, s') /\
    CList.list_empty (inst + list_offset) (heads s') = Ok (false, heads s') /\
    CList.list_add n (inst + list_offset) (heads s') = UB /\
    CList.list_add_tail n (inst + list_offset) (heads s') = UB /\
    CList.list_del (inst + list_offset) (heads s') = UB.
Proof.
  intros Hc H0 Hne. unfold purc_fetcher_init. rewrite (proj2 (Z.eqb_neq _ _) Hc).
  eexists _, _. split; [reflexivity|]. cbn [heads].
  set (h := <[_ := _]> (heads s)). set (a := calloc s + list_offset) in *.
  assert (Ha : h !! a = Some (CList.mk_list_head 0 0)) by apply lookup_insert_eq.
  assert (Hz : h !! 0 = None) by (unfold h; by rewrite lookup_insert_ne).
  unfold CList.list_empty, CList.list_add, CList.list_add_tail, CList._list_add, CList.list_del, CList._list_del.
  rewrite !(CList.load_bind _ h a 0 0) by (unfold CList.nx, CList.pv; by rewrite Ha). cbn [CList.next CList.prev].
  split_and!.
  - destruct (Z.eqb_spec 0 a); [by subst|done].
  - unfold mbind at 1, ST_bind at 1, CList.store_prev at 1. by rewrite Hz.
  - unfold mbind, ST_bind, CList.store_prev, CList.store_next, mbind, res_bind, or_ub. rewrite Ha. cbn.
    destruct (<[a := _]> h !! n) as [x|] eqn:En; [|done].
    assert (n ≠ 0) by (intros ->; rewrite lookup_insert_ne in En by done; congruence).
    rewrite lookup_insert_eq. by rewrite !lookup_insert_ne, Hz by done.
  - unfold mbind, ST_bind, CList.load, CList.store_prev, mbind, res_bind, or_ub. rewrite Ha. cbn. by rewrite Hz.
Qed.

Lemma new_instance_list_unusable_witness :
  let s := mk_store ∅ {[ 200 := CList.mk_list_head 200 200 ]} in
  exists inst s', purc_fetcher_init (fun _ => 16) 1 2 3 s = Ok (inst, s') /\
    CList.list_empty (inst + list_offset) (heads s') = Ok (false, heads s') /\
    CList.list_add 200 (inst + list_offset) (heads s') = UB /\
    CList.list_add_tail 200 (inst + list_offset) (heads s') = UB /\
    CList.list_del (inst + list_offset) (heads s') = UB.
Proof. intros s. apply (new_instance_list_unusable (fun _ => 16) 1 2 3 s 200); [lia | reflexivity | done]. Defined.

End Instance.

Module Debug.

Inductive sink := Stdout | Stderr | Syslog (priority : Z).

Definition LOG_ERR : Z := 3.
Definition LOG_INFO : Z := 6.
Definition LOG_DEBUG : Z := 7.

(** The two flags of debug.c and what has been written, last first; a message
    stands for its format with its arguments. *)
Record state := mk_state { _syslog : bool; _debug : bool; out : list (sink * list Z) }.

Section debug.
(** [HAVE(VSYSLOG)] of the build. *)
Context (have_vsyslog : bool).

Definition fbutils_enable_debug (debug : bool) (s : state) : state := mk_state (_syslog s) debug (out s).
Definition fbutils_enable_syslog (syslog : bool) (s : state) : state := mk_state syslog (_debug s) (out s).

Definition emit (k : sink) (msg : list Z) (s : state) : state :=
  mk_state (_syslog s) (_debug s) ((k, msg) :: out s).

Definition fbutils_debug (msg : list Z) (s : state) : state :=
  if _debug s then
    if (have_vsyslog && _syslog s)%bool then emit (Syslog LOG_DEBUG) msg s else emit Stdout msg s
  else s.

Definition fbutils_error (msg : list Z) (s : state) : state :=
  if (have_vsyslog && _syslog s)%bool then emit (Syslog LOG_ERR) msg s else emit Stderr msg s.

Definition fbutils_info (msg : list Z) (s : state) : state :=
  if (have_vsyslog && _syslog s)%bool then emit (Syslog LOG_INFO) msg s else emit Stderr msg s.

End debug.
End Debug.

Module Ports.

Section vasprintf.
(** [va_list] is passed by reference on the platforms of the build (x86-64,
    AArch64): a formatting call consumes the arguments it reads.  [vformat ap]
    is what the C library produces for the format: the text or an error, and
    the arguments left; reading past the last argument is [UB]. *)
Context {arg : Type} (vformat : list arg -> res (option (list Z) * list arg)).
Context (malloc_ok : Z -> bool).

(** [vsnprintf(&_T_emptybuffer, 0, fmt, ap)]: the length, or -1. *)
Definition vsnprintf0 (ap : list arg) : res (Z * list arg) :=
  '(t, ap) ← vformat ap;
  Ok (match t with Some text => zlen text | None => -1 end, ap).

(** [vsprintf(b, fmt, ap)] writes the text and its terminator into the block. *)
Definition vsprintf (b : list cell) (ap : list arg) : res (Z * list cell * list arg) :=
  '(t, ap) ← vformat ap;
  match t with
  | Some text => b ← mem_write b 0 ((Some <$> text) ++ [Some 0]); Ok (zlen text, b, ap)
  | None => Ok (-1, b, ap)
  end.

(** The value returned and the block stored in [*buf], if any. *)
Definition vasprintf (buf_is_null : bool) (ap : list arg) : res (Z * option (list cell)) :=
  if buf_is_null then Ok (-1, None)
  else
    '(n, ap) ← vsnprintf0 ap;
    if n =? INT_MAX then UB
    else
      let chars := n + 1 in
      let chars := if chars <? 0 then chars * -1 else chars in
      if negb (malloc_ok chars) then Ok (-1, None)
      else
        '(chars, b, ap) ← vsprintf (replicate (Z.to_nat chars) None) ap;
        if chars <? 0 then Ok (chars, None) else Ok (chars, Some b).

(** [vasprintf] formats from the same [va_list] twice.  For a format that
    reads no arguments it returns the length of the text and a block that holds
    exactly the text and its terminator; for one that consumes arguments and
    cannot be formatted again from what is left of them, the second pass reads
    arguments that were never passed, which is undefined behaviour. *)
Theorem vasprintf_formats_twice ap ap' text :
  vformat ap = Ok (Some text, ap') -> zlen text < INT_MAX -> malloc_ok (zlen text + 1) = true ->
  (ap' = ap -> vasprintf false ap = Ok (zlen text, Some ((Some <$> text) ++ [Some 0]))) /\
  (vformat ap' = UB -> vasprintf false ap = UB).
Proof.
  intros Hf Hlen Hm. pose proof (zlen_nonneg text) as Hpos.
  assert (E : vasprintf false ap =
    ('(chars, b, _) ← vsprintf (replicate (Z.to_nat (zlen text + 1)) None) ap';
     if chars <? 0 then Ok (chars, None) else Ok (chars, Some b))).
  { unfold vasprintf, vsnprintf0. rewrite Hf. cbn.
    rewrite (proj2 (Z.eqb_neq _ _)) by lia. rewrite (proj2 (Z.ltb_ge _ _)) by lia. by rewrite Hm. }
  rewrite E. unfold vsprintf. split; intros H; [subst ap'; rewrite Hf | by rewrite H]. cbn.
  unfold mem_write. autorewrite with zlen. rewrite Z2Nat.id by lia.
  rewrite (proj2 (Z.leb_le _ _)) by lia. cbn.
  rewrite take_0. cbn. rewrite drop_ge by (rewrite length_replicate, length_app, length_fmap; unfold zlen; cbn; lia).
  rewrite app_nil_r, (proj2 (Z.leb_le (0 + _) _)) by lia. cbn. by rewrite (proj2 (Z.ltb_ge _ _)) by lia.
Qed.
End vasprintf.

(** A formatter for the format "%c" (one argument) and for a literal text. *)
Definition format_c (ap : list Z) : res (option (list Z) * list Z) :=
  match ap with c :: ap => Ok (Some [c], ap) | [] => UB end.

Lemma vasprintf_formats_twice_witness :
  (@vasprintf Z (fun ap => Ok (Some [104; 105], ap)) (fun _ => true) false [] = Ok (2, Some [Some 104; Some 105; Some 0]))
  /\ @vasprintf Z format_c (fun _ => true) false [65] = UB.
Proof.
  split.
  - by apply (vasprintf_formats_twice (fun ap => Ok (Some [104; 105], ap)) (fun _ => true) [] [] [104; 105]).
  - by apply (vasprintf_formats_twice format_c (fun _ => true) [65] [] [65]).
Defined.

End Ports.
