(* ===== verification/CLib.v ===== *)
(** * The C library as the sources use it

    C strings are lists of bytes without their terminator; a [char] array that
    holds one is a list of bytes whose string ends at the first 0.  [strcmp]
    orders strings by their unsigned bytes; [bsearch] is the binary search over
    a sorted array; [qsort] is any function that meets its specification, since
    the order of equal elements is unspecified. *)
From stdpp Require Import sorting.
From S2P Require Import Prelude.

(** ** Strings *)

(** The string at the start of a block: its bytes up to the terminator. *)
Fixpoint c_str (b : list Z) : list Z :=
  match b with
  | [] => []
  | c :: b => if c =? 0 then [] else c :: c_str b
  end.

(** A string: no byte is 0. *)
Definition is_str (s : list Z) : Prop := Forall (fun c => 0 < c < 256) s.

Fixpoint strcmp (a b : list Z) : Z :=
  match a, b with
  | [], [] => 0
  | [], _ :: _ => -1
  | _ :: _, [] => 1
  | x :: a, y :: b => if x <? y then -1 else if y <? x then 1 else strcmp a b
  end.

(** [strchr(s, c)] as the text before and the text after the first [c]. *)
Fixpoint strchr (s : list Z) (c : Z) : option (list Z * list Z) :=
  match s with
  | [] => None
  | x :: s => if x =? c then Some ([], s)
              else match strchr s c with Some (a, b) => Some (x :: a, b) | None => None end
  end.

(** [strrchr(s, c) + 1]: the text after the last [c]. *)
Fixpoint strrchr_after (s : list Z) (c : Z) : option (list Z) :=
  match s with
  | [] => None
  | x :: s => match strrchr_after s c with
              | Some r => Some r
              | None => if x =? c then Some s else None
              end
  end.

(** [fgets(line, n, file)] with [file] the unread bytes: at most [n - 1] of them,
    up to and including a newline. *)
Fixpoint fgets_bytes (n : nat) (file : list Z) : list Z * list Z :=
  match n, file with
  | O, _ => ([], file)
  | _, [] => ([], [])
  | S n, c :: file =>
      if c =? 10 then ([c], file)
      else let '(l, rest) := fgets_bytes n file in (c :: l, rest)
  end.

Definition fgets (n : Z) (file : list Z) : option (list Z * list Z) :=
  match file with
  | [] => None
  | _ => Some (fgets_bytes (Z.to_nat (n - 1)) file)
  end.

Lemma strcmp_refl a : strcmp a a = 0.
Proof. induction a as [|x a IH]; cbn; [done|]. by rewrite Z.ltb_irrefl. Qed.

Lemma strcmp_eq a b : strcmp a b = 0 <-> a = b.
Proof.
  split; [|intros ->; apply strcmp_refl].
  revert b; induction a as [|x a IH]; intros [|y b]; cbn; try done.
  repeat zcase; try done. intros E. f_equal; [lia | by apply IH].
Qed.

Lemma strcmp_antisym a b : strcmp a b = - strcmp b a.
Proof.
  revert b; induction a as [|x a IH]; intros [|y b]; cbn; try done.
  repeat zcase; try lia; apply IH.
Qed.

Lemma strcmp_lt_trans a b c : strcmp a b < 0 -> strcmp b c < 0 -> strcmp a c < 0.
Proof.
  revert b c; induction a as [|x a IH]; intros [|y b] [|z c]; cbn; try lia.
  repeat zcase; try lia; apply IH.
Qed.

(** The order [qsort] sorts by and [bsearch] relies on. *)
Definition str_le (a b : list Z) : Prop := strcmp a b <= 0.

#[global] Instance str_le_dec : RelDecision str_le.
Proof. intros a b. unfold str_le. apply _. Defined.

Lemma str_le_trans a b c : str_le a b -> str_le b c -> str_le a c.
Proof.
  unfold str_le. intros H1 H2.
  destruct (Z.eq_dec (strcmp a b) 0) as [->%strcmp_eq|]; [done|].
  destruct (Z.eq_dec (strcmp b c) 0) as [<-%strcmp_eq|]; [done|].
  pose proof (strcmp_lt_trans a b c). lia.
Qed.

Lemma str_le_total a b : str_le a b \/ str_le b a.
Proof. unfold str_le. rewrite (strcmp_antisym b a). lia. Qed.

(** ** Sorting and searching *)

Section keyed.
Context {A : Type} (key : A -> list Z).

Definition key_le (x y : A) : Prop := str_le (key x) (key y).

#[global] Instance key_le_dec : RelDecision key_le.
Proof. intros x y. unfold key_le. apply _. Defined.

#[global] Instance key_le_trans : Transitive key_le.
Proof. intros x y z. apply str_le_trans. Qed.

#[global] Instance key_le_total : Total key_le.
Proof. intros x y. apply str_le_total. Qed.

(** An array in the order of its keys. *)
Definition key_sorted (l : list A) : Prop := StronglySorted key_le l.

Lemma key_sorted_short l : zlen l <= 1 -> key_sorted l.
Proof.
  unfold key_sorted. destruct l as [|x [|y l]]; [constructor|repeat constructor|].
  rewrite !zlen_cons. pose proof (zlen_nonneg l). lia.
Qed.

(** The C standard's contract of [qsort] with a comparison of the keys. *)
Class Qsort := {
  qsort : list A -> list A;
  qsort_perm l : qsort l ≡ₚ l;
  qsort_sorted l : key_sorted (qsort l)
}.

(** [bsearch]: the index of an element with the key, if it finds one. *)
Fixpoint bsearch_loop (fuel : nat) (k : list Z) (l : list A) (lo hi : nat) : option nat :=
  match fuel with
  | O => None
  | S fuel =>
      if decide (lo < hi)%nat then
        let idx := Nat.div2 (lo + hi) in
        match l !! idx with
        | None => None
        | Some e =>
            let c := strcmp k (key e) in
            if c <? 0 then bsearch_loop fuel k l lo idx
            else if c >? 0 then bsearch_loop fuel k l (S idx) hi
            else Some idx
        end
      else None
  end.

Definition bsearch (k : list Z) (l : list A) : option A :=
  i ← bsearch_loop (S (length l)) k l 0 (length l); l !! i.

Lemma sorted_lookup l i j x y :
  StronglySorted key_le l -> l !! i = Some x -> l !! j = Some y -> (i < j)%nat -> key_le x y.
Proof.
  intros HS. revert i j. induction HS as [|a l HS IH HF]; intros i j Hi Hj Hij; [done|].
  destruct j as [|j]; [lia|]. cbn in Hj. destruct i as [|i]; cbn in Hi.
  - injection Hi as <-. rewrite Forall_forall in HF. apply HF. by eapply list_elem_of_lookup_2.
  - eapply IH; [done|done|lia].
Qed.

Lemma bsearch_loop_some fuel k l lo hi i :
  bsearch_loop fuel k l lo hi = Some i -> exists e, l !! i = Some e /\ key e = k.
Proof.
  revert lo hi; induction fuel as [|fuel IH]; intros lo hi; cbn [bsearch_loop]; [done|].
  case_decide; [|done]. cbv zeta. destruct (l !! Nat.div2 (lo + hi)) as [e|] eqn:He; [|done].
  destruct (_ <? 0) eqn:E1; [apply IH|]. destruct (_ >? 0) eqn:E2; [apply IH|].
  intros [= <-]. exists e. split; [done|]. zb. symmetry. apply strcmp_eq. lia.
Qed.

(** An element with the key inside the window is not missed. *)
Lemma bsearch_loop_none fuel k l lo hi :
  StronglySorted key_le l -> (hi <= length l)%nat -> (hi - lo < fuel)%nat ->
  bsearch_loop fuel k l lo hi = None ->
  forall i e, l !! i = Some e -> (lo <= i < hi)%nat -> key e ≠ k.
Proof.
  intros HS. revert lo hi; induction fuel as [|fuel IH]; intros lo hi Hhi Hf; [lia|]. cbn [bsearch_loop]. cbv zeta.
  case_decide as Hlt; [|intros; lia].
  assert (Hidx : (lo <= Nat.div2 (lo + hi) < hi)%nat) by (rewrite Nat.div2_div; pose proof (Nat.div_mod_eq (lo + hi) 2); pose proof (Nat.mod_upper_bound (lo + hi) 2); lia).
  destruct (lookup_lt_is_Some_2 l (Nat.div2 (lo + hi))) as [m Hm]; [lia|]. rewrite Hm.
  destruct (_ <? 0) eqn:E1; [|destruct (_ >? 0) eqn:E2]; zb; intros Hn i e Hi Hr Hk.
  - destruct (decide (i < Nat.div2 (lo + hi))%nat); [apply (IH lo (Nat.div2 (lo + hi)) ltac:(lia) ltac:(lia) Hn i e Hi ltac:(lia) Hk)|].
    assert (HL : str_le (key m) (key e)).
    { destruct (decide (i = Nat.div2 (lo + hi))) as [->|]; [simplify_eq; unfold str_le; rewrite strcmp_refl; lia|].
      eapply (sorted_lookup l _ i); [done|exact Hm|exact Hi|lia]. }
    unfold str_le in HL. rewrite Hk, strcmp_antisym in HL. lia.
  - destruct (decide (Nat.div2 (lo + hi) < i)%nat); [apply (IH (S (Nat.div2 (lo + hi))) hi ltac:(lia) ltac:(lia) Hn i e Hi ltac:(lia) Hk)|].
    assert (HL : str_le (key e) (key m)).
    { destruct (decide (i = Nat.div2 (lo + hi))) as [->|]; [simplify_eq; unfold str_le; rewrite strcmp_refl; lia|].
      eapply (sorted_lookup l i); [done|exact Hi|exact Hm|lia]. }
    unfold str_le in HL. rewrite Hk in HL. lia.
  - done.
Qed.

(** On a sorted array [bsearch] finds an element with the key iff there is one. *)
Lemma bsearch_spec k l : key_sorted l ->
  match bsearch k l with
  | Some e => e ∈ l /\ key e = k
  | None => forall e, e ∈ l -> key e ≠ k
  end.
Proof.
  intros HS. unfold bsearch. destruct (bsearch_loop _ _ _ _ _) as [i|] eqn:E; cbn.
  - apply bsearch_loop_some in E as (e & He & Hk). rewrite He. split; [by eapply list_elem_of_lookup_2|done].
  - intros e [i Hi]%list_elem_of_lookup. pose proof (lookup_lt_Some _ _ _ Hi).
    eapply bsearch_loop_none; [done| | |exact E|exact Hi|]; lia.
Qed.

End keyed.
Arguments Qsort {A} key.
Arguments qsort {A} key {_}.
Arguments qsort_perm {A} key {_}.
Arguments qsort_sorted {A} key {_}.

(** A sort that meets the contract. *)
Definition merge_qsort {A} (key : A -> list Z) : Qsort key.
Proof.
  refine {| qsort := merge_sort (key_le key) |}.
  - apply merge_sort_Permutation.
  - intros l. apply (StronglySorted_merge_sort _ _).
Defined.

(** ** Lemmas on reading lines *)

Lemma fgets_bytes_app n file l rest : fgets_bytes n file = (l, rest) -> file = l ++ rest /\ (length l <= n)%nat.
Proof.
  revert file l rest; induction n as [|n IH]; intros [|c file] l rest; cbn; try (intros [= <- <-]; split; cbn; [done|lia]).
  destruct (c =? 10); [intros [= <- <-]; split; cbn; [done|lia]|].
  destruct (fgets_bytes n file) as [l' rest'] eqn:E. intros [= <- <-]. apply IH in E as [-> Hl]. cbn. split; [done|lia].
Qed.

Lemma fgets_shorter n file l rest : 2 <= n -> fgets n file = Some (l, rest) ->
  file = l ++ rest /\ l ≠ [] /\ zlen l < n.
Proof.
  intros Hn. unfold fgets. destruct file as [|c file]; [done|]. intros [= E].
  pose proof (fgets_bytes_app _ _ _ _ E) as [Ha Hl]. split_and!; [done| |unfold zlen; lia].
  intros ->. destruct (Z.to_nat (n - 1)) as [|m] eqn:Em; [lia|]. cbn in E.
  destruct (c =? 10); [done|]. by destruct (fgets_bytes m file).
Qed.
