(* ===== verification/XdgInt.v ===== *)
(** * xdgmime helpers (third-party/xdgmime/src/xdgmimeint.c)

    Strings are read where the C code reads them: a block is the list of its
    bytes, terminator included, and a read past its end is [UB].  [char] is
    signed, as on the platforms of the build, so a byte with the high bit set
    that is assigned to an [xdg_unichar_t] unmasked is sign-extended. *)
From S2P Require Import Prelude CLib.

#[local] Open Scope cfetch_scope.

Module XdgInt.

Definition _xdg_utf8_skip_data : list Z :=
  replicate 192 1 ++ replicate 32 2 ++ replicate 16 3 ++ replicate 8 4 ++ replicate 4 5 ++ [6; 6; 1; 1].

(** [_xdg_utf8_next_char(p) - p] for a byte. *)
Definition utf8_skip (b : Z) : res Z := or_ub _xdg_utf8_skip_data.[b].

(** The loop over the continuation bytes; [n] of them are left. *)
Fixpoint ucs4_loop (n : nat) (s : list Z) (p : Z) (result : Z) : res Z :=
  match n with
  | O => Ok result
  | S n =>
      b ← or_ub s.[p];
      ucs4_loop n s (p + 1) (Z.lor (u32 (Z.shiftl result 6)) (Z.land b 63))
  end.

Definition _xdg_utf8_to_ucs4 (s : list Z) (p : Z) : res Z :=
  b ← or_ub s.[p];
  if Z.land b 128 =? 0 then Ok (u32 (i8 b))
  else if Z.land b 64 =? 0 then Ok (u32 (i8 b))
  else if Z.land b 32 =? 0 then ucs4_loop 1 s (p + 1) (Z.land b 31)
  else if Z.land b 16 =? 0 then ucs4_loop 2 s (p + 1) (Z.land b 15)
  else if Z.land b 8 =? 0 then ucs4_loop 3 s (p + 1) (Z.land b 7)
  else if Z.land b 4 =? 0 then ucs4_loop 4 s (p + 1) (Z.land b 3)
  else if Z.land b 2 =? 0 then ucs4_loop 5 s (p + 1) (Z.land b 1)
  else ucs4_loop 0 s (p + 1) (u32 (i8 b)).

(** [tolower] of the C locale on an unsigned char. *)
Definition tolower (c : Z) : Z := if (65 <=? c) && (c <=? 90) then c + 32 else c.

Definition _xdg_ucs4_to_lower (source : Z) : Z :=
  if Z.land source 255 =? source then tolower (u8 source) else source.

Definition _xdg_utf8_validate (source : list Z) : bool := true.

Definition _xdg_get_base_name (file_name : option (list Z)) : option (list Z) :=
  match file_name with
  | None => None
  | Some f => match strrchr_after f 47 with None => Some f | Some base_name => Some base_name end
  end.

(** The loop of [_xdg_convert_to_ucs4]: [out] holds the characters written so
    far, in an array of [cap] elements. *)
Fixpoint convert_loop (fuel : nat) (s : list Z) (cap p : Z) (out : list Z) : res (list Z) :=
  match fuel with
  | O => NoFuel
  | S fuel =>
      b ← or_ub s.[p];
      if b =? 0 then
        if zlen out <? cap then Ok out else UB
      else
        c ← _xdg_utf8_to_ucs4 s p;
        if zlen out <? cap then
          k ← utf8_skip b;
          convert_loop fuel s cap (p + k) (out ++ [c])
        else UB
  end.

(** The array without its terminating 0, and [*len]. *)
Definition _xdg_convert_to_ucs4 (s : list Z) : res (list Z * Z) :=
  let cap := zlen (c_str s) + 1 in
  out ← convert_loop (S (length s)) s cap 0 [];
  Ok (out, zlen out).

(** [source[i] = source[j]; ...] of one step of the reversal. *)
Definition swap (l : list Z) (i j : nat) : res (list Z) :=
  c ← or_ub (l !! i);
  d ← or_ub (l !! j);
  Ok (<[j := c]> (<[i := d]> l)).

Fixpoint reverse_loop (fuel : nat) (source : list Z) (len i : Z) : res (list Z) :=
  match fuel with
  | O => NoFuel
  | S fuel =>
      if i <? len - i - 1 then
        source ← swap source (Z.to_nat i) (Z.to_nat (len - i - 1));
        reverse_loop fuel source len (i + 1)
      else Ok source
  end.

Definition _xdg_reverse_ucs4 (source : list Z) (len : Z) : res (list Z) :=
  reverse_loop (S (Z.to_nat len)) source len 0.

Inductive fallback_type := XDG_MIME_TYPE_UNKNOWN | XDG_MIME_TYPE_TEXTPLAIN.

Fixpoint fallback_loop (fuel : nat) (data : list Z) (len i : Z) : res fallback_type :=
  match fuel with
  | O => NoFuel
  | S fuel =>
      if (i <? 128) && (i <? len) then
        c ← or_ub data.[i];
        if (c <? 32) && negb (c =? 9) && negb (c =? 10) && negb (c =? 13)
        then Ok XDG_MIME_TYPE_UNKNOWN
        else fallback_loop fuel data len (i + 1)
      else Ok XDG_MIME_TYPE_TEXTPLAIN
  end.

Definition _xdg_binary_or_text_fallback (data : list Z) (len : Z) : res fallback_type :=
  fallback_loop 129 data len 0.

(** ** UTF-8 *)

(** The encoding of a character on up to six bytes (RFC 2279). *)
Fixpoint cont_bytes (n : nat) (c : Z) : list Z :=
  match n with
  | O => []
  | S n => cont_bytes n (c / 64) ++ [128 + c mod 64]
  end.

Definition utf8_encode (c : Z) : list Z :=
  if c <? 2 ^ 7 then [c]
  else if c <? 2 ^ 11 then (192 + c / 64) :: cont_bytes 1 c
  else if c <? 2 ^ 16 then (224 + c / 64 ^ 2) :: cont_bytes 2 c
  else if c <? 2 ^ 21 then (240 + c / 64 ^ 3) :: cont_bytes 3 c
  else if c <? 2 ^ 26 then (248 + c / 64 ^ 4) :: cont_bytes 4 c
  else (252 + c / 64 ^ 5) :: cont_bytes 5 c.

Lemma byte_forall (P : Z -> bool) lo hi b :
  forallb P ((fun k => lo + Z.of_nat k) <$> seq 0 (Z.to_nat (hi - lo))) = true -> lo <= b < hi -> P b = true.
Proof.
  rewrite forallb_forall. intros H Hb. apply H. apply list_elem_of_In, list_elem_of_fmap.
  exists (Z.to_nat (b - lo)). split; [lia|]. apply elem_of_seq. lia.
Qed.

Lemma lor_shift r x : 0 <= r < 2 ^ 26 -> 0 <= x < 64 -> Z.lor (u32 (Z.shiftl r 6)) x = 64 * r + x.
Proof.
  intros Hr Hx. rewrite wrap_small by (rewrite Z.shiftl_mul_pow2 by lia; change (2 ^ 6) with 64; lia).
  rewrite lor_shiftl_add by (change (2 ^ 6) with 64; lia). change (2 ^ 6) with 64. lia.
Qed.

(** The six-bit digits of a character, most significant first. *)
Fixpoint digits (n : nat) (c : Z) : list Z :=
  match n with O => [] | S n => digits n (c / 64) ++ [c mod 64] end.

Definition undigits (r : Z) (ds : list Z) : Z := foldl (fun r d => 64 * r + d) r ds.

Lemma cont_bytes_digits n c : cont_bytes n c = Z.add 128 <$> digits n c.
Proof. revert c; induction n as [|n IH]; intros c; cbn; [done|]. by rewrite IH, fmap_app. Qed.

Lemma digits_range n c : Forall (fun d => 0 <= d < 64) (digits n c).
Proof.
  revert c; induction n as [|n IH]; intros c; cbn; [constructor|].
  apply Forall_app. split; [apply IH|]. repeat constructor; apply Z.mod_pos_bound; lia.
Qed.

Lemma length_digits n c : length (digits n c) = n.
Proof. revert c; induction n as [|n IH]; intros c; cbn; [done|]. rewrite length_app, IH. cbn. lia. Qed.

Lemma undigits_digits n c r : undigits r (digits n c) = r * 64 ^ Z.of_nat n + c mod 64 ^ Z.of_nat n.
Proof.
  unfold undigits. revert c; induction n as [|n IH]; intros c; [cbn; rewrite Z.mod_1_r; lia|].
  cbn [digits]. rewrite foldl_app, IH. cbn [foldl].
  rewrite Nat2Z.inj_succ, Z.pow_succ_r, Z.rem_mul_r by lia. lia.
Qed.

Lemma ucs4_loop_ok ds : forall pre post r,
  Forall (fun d => 0 <= d < 64) ds -> 0 <= r -> (r + 1) * 64 ^ zlen ds <= 2 ^ 32 ->
  ucs4_loop (length ds) (pre ++ (Z.add 128 <$> ds) ++ post) (zlen pre) r = Ok (undigits r ds).
Proof.
  induction ds as [|d ds IH]; intros pre post r HF Hr Hb; [done|].
  apply Forall_cons in HF as [Hd HF]. rewrite zlen_cons, Z.add_comm, Z.pow_add_r in Hb by (try apply zlen_nonneg; lia).
  assert (Hp : 0 < 64 ^ zlen ds) by (apply Z.pow_pos_nonneg; [lia|apply zlen_nonneg]).
  cbn [length fmap list_fmap app ucs4_loop]. rewrite zlookup_app. cbn.
  replace (Z.land (128 + d) 63) with d by (symmetry; exact (land_low 2 d 6 ltac:(lia) ltac:(lia))).
  rewrite lor_shift by nia.
  replace (pre ++ (128 + d) :: (Z.add 128 <$> ds) ++ post)
    with ((pre ++ [128 + d]) ++ (Z.add 128 <$> ds) ++ post) by (by rewrite <- app_assoc).
  replace (zlen pre + 1) with (zlen (pre ++ [128 + d])) by (by rewrite zlen_app).
  rewrite IH; [done|done|lia|]. nia.
Qed.

(** What the chain of tests makes of a lead byte: the number of continuation
    bytes and the bits it contributes. *)
Definition lead (b : Z) : option (nat * Z) :=
  if Z.land b 128 =? 0 then None
  else if Z.land b 64 =? 0 then None
  else if Z.land b 32 =? 0 then Some (1%nat, Z.land b 31)
  else if Z.land b 16 =? 0 then Some (2%nat, Z.land b 15)
  else if Z.land b 8 =? 0 then Some (3%nat, Z.land b 7)
  else if Z.land b 4 =? 0 then Some (4%nat, Z.land b 3)
  else if Z.land b 2 =? 0 then Some (5%nat, Z.land b 1)
  else Some (0%nat, u32 (i8 b)).

Lemma utf8_to_ucs4_lead s p b : s.[p] = Some b ->
  _xdg_utf8_to_ucs4 s p =
    match lead b with None => Ok (u32 (i8 b)) | Some (n, r) => ucs4_loop n s (p + 1) r end.
Proof. intros Hb. unfold _xdg_utf8_to_ucs4, lead. rewrite Hb. cbn. by repeat case_match. Qed.

(** The lead bytes of sequences with [n] continuation bytes lie in one range,
    and the skip table agrees. *)
Definition lead_ok (base : Z) (n : nat) (b : Z) : bool :=
  match lead b, _xdg_utf8_skip_data.[b] with
  | Some (m, r), Some k => (m =? n)%nat && (r =? b - base) && (k =? Z.of_nat n + 1)
  | _, _ => false
  end.

Lemma lead_ok_spec base n b : lead_ok base n b = true ->
  lead b = Some (n, b - base) /\ utf8_skip b = Ok (Z.of_nat n + 1).
Proof.
  unfold lead_ok, utf8_skip. destruct (lead b) as [[m r]|]; [|done].
  destruct (_xdg_utf8_skip_data.[b]) as [k|]; [|done].
  intros ((->%Nat.eqb_eq & ->%Z.eqb_eq)%andb_prop & ->%Z.eqb_eq)%andb_prop. done.
Qed.

Lemma lead_range base n lim b :
  (base, n, lim) ∈ [(192, 1%nat, 224); (224, 2%nat, 240); (240, 3%nat, 248); (248, 4%nat, 252); (252, 5%nat, 254)] ->
  base <= b < lim -> lead b = Some (n, b - base) /\ utf8_skip b = Ok (Z.of_nat n + 1).
Proof.
  intros Hin Hb. apply lead_ok_spec. repeat (apply elem_of_cons in Hin as [[= -> -> ->]|Hin];
    [refine (byte_forall (lead_ok _ _) _ _ b _ Hb); vm_compute; reflexivity|]).
  by apply not_elem_of_nil in Hin.
Qed.

Lemma ascii_byte b : 0 < b < 128 -> lead b = None /\ u32 (i8 b) = b /\ utf8_skip b = Ok 1.
Proof.
  intros Hb.
  pose (P b := match lead b, _xdg_utf8_skip_data.[b] with
    | None, Some k => (u32 (i8 b) =? b) && (k =? 1) | _, _ => false end).
  assert (HP : P b = true) by (refine (byte_forall P 0 128 b _ ltac:(lia)); vm_compute; reflexivity).
  unfold P in HP. unfold utf8_skip. destruct (lead b); [done|]. destruct (_xdg_utf8_skip_data.[b]) as [k|]; [|done].
  apply andb_prop in HP as [->%Z.eqb_eq ->%Z.eqb_eq]. done.
Qed.

Lemma lead_multi b : 192 <= b < 254 ->
  exists n r, lead b = Some (S n, r) /\ utf8_skip b = Ok (Z.of_nat n + 2).
Proof.
  intros Hb.
  assert (K : forall base n lim, (base, S n, lim) ∈ [(192, 1%nat, 224); (224, 2%nat, 240); (240, 3%nat, 248); (248, 4%nat, 252); (252, 5%nat, 254)] ->
    base <= b < lim -> exists n r, lead b = Some (S n, r) /\ utf8_skip b = Ok (Z.of_nat n + 2)).
  { intros base n lim Hin Hr. destruct (lead_range base (S n) lim b Hin Hr) as [H1 H2].
    exists n, (b - base). split; [done|]. rewrite H2. f_equal. lia. }
  destruct (Z.ltb_spec b 224); [apply (K 192 0%nat 224); [left|lia]|].
  destruct (Z.ltb_spec b 240); [apply (K 224 1%nat 240); [do 1 right; left|lia]|].
  destruct (Z.ltb_spec b 248); [apply (K 240 2%nat 248); [do 2 right; left|lia]|].
  destruct (Z.ltb_spec b 252); [apply (K 248 3%nat 252); [do 3 right; left|lia]|].
  apply (K 252 4%nat 254); [do 4 right; left|lia].
Qed.

(** A multi-byte sequence is decoded to its character. *)
Lemma decode_multi base n lim c pre post :
  (base, n, lim) ∈ [(192, 1%nat, 224); (224, 2%nat, 240); (240, 3%nat, 248); (248, 4%nat, 252); (252, 5%nat, 254)] ->
  0 <= c < 2 ^ 31 -> 0 <= c / 64 ^ Z.of_nat n < lim - base ->
  let e := (base + c / 64 ^ Z.of_nat n) :: cont_bytes n c in
  _xdg_utf8_to_ucs4 (pre ++ e ++ post) (zlen pre) = Ok c /\
  utf8_skip (base + c / 64 ^ Z.of_nat n) = Ok (zlen e).
Proof.
  intros Hin Hc Hl e. set (q := c / 64 ^ Z.of_nat n) in *.
  destruct (lead_range base n lim (base + q) Hin ltac:(lia)) as [HL HS].
  assert (Hp : 0 < 64 ^ Z.of_nat n) by (apply Z.pow_pos_nonneg; lia).
  split.
  - rewrite (utf8_to_ucs4_lead _ _ (base + q)) by apply zlookup_app. rewrite HL.
    unfold e. rewrite cont_bytes_digits.
    replace (pre ++ ((base + q) :: (Z.add 128 <$> digits n c)) ++ post)
      with ((pre ++ [base + q]) ++ (Z.add 128 <$> digits n c) ++ post) by (by rewrite <- app_assoc).
    replace (zlen pre + 1) with (zlen (pre ++ [base + q])) by (by rewrite zlen_app).
    pose proof (ucs4_loop_ok (digits n c) (pre ++ [base + q]) post (base + q - base)) as HU.
    rewrite length_digits in HU. rewrite HU; clear HU.
    + rewrite undigits_digits. f_equal. unfold q. pose proof (Z.div_mod c (64 ^ Z.of_nat n)). lia.
    + apply digits_range.
    + lia.
    + unfold zlen. rewrite length_digits. replace (base + q - base) with q by lia.
      assert (q * 64 ^ Z.of_nat n <= c) by (unfold q; pose proof (Z.mul_div_le c (64 ^ Z.of_nat n)); lia).
      assert (64 ^ Z.of_nat n <= 64 ^ 5).
      { apply Z.pow_le_mono_r; [lia|]. clear -Hin.
        repeat (apply elem_of_cons in Hin as [[= _ -> _]|Hin]; [lia|]). by apply not_elem_of_nil in Hin. }
      nia.
  - rewrite HS. f_equal. unfold e. rewrite cont_bytes_digits, zlen_cons, zlen_fmap. unfold zlen. rewrite length_digits. lia.
Qed.

Lemma decode_char c pre post : 0 < c < 2 ^ 31 ->
  _xdg_utf8_to_ucs4 (pre ++ utf8_encode c ++ post) (zlen pre) = Ok c /\
  exists b tl, utf8_encode c = b :: tl /\ b ≠ 0 /\ utf8_skip b = Ok (zlen (utf8_encode c)).
Proof.
  intros Hc. unfold utf8_encode.
  destruct (Z.ltb_spec c (2 ^ 7)) as [H7|H7].
  { destruct (ascii_byte c ltac:(lia)) as (HL & HV & HS). split.
    - rewrite (utf8_to_ucs4_lead _ _ c) by apply zlookup_app. by rewrite HL, HV.
    - exists c, []. split_and!; [done|lia|done]. }
  assert (K : forall base n lim, (base, n, lim) ∈ [(192, 1%nat, 224); (224, 2%nat, 240); (240, 3%nat, 248); (248, 4%nat, 252); (252, 5%nat, 254)] ->
     192 <= base -> c < (lim - base) * 64 ^ Z.of_nat n ->
     let e := (base + c / 64 ^ Z.of_nat n) :: cont_bytes n c in
     _xdg_utf8_to_ucs4 (pre ++ e ++ post) (zlen pre) = Ok c /\
     exists b tl, e = b :: tl /\ b ≠ 0 /\ utf8_skip b = Ok (zlen e)).
  { intros base n lim Hin Hb Hlim e. assert (0 < 64 ^ Z.of_nat n) by (apply Z.pow_pos_nonneg; lia).
    assert (0 <= c / 64 ^ Z.of_nat n < lim - base)
      by (split; [apply Z.div_pos; lia|apply Z.div_lt_upper_bound; lia]).
    destruct (decode_multi base n lim c pre post Hin ltac:(lia) ltac:(done)) as [H1 H2].
    split; [exact H1|]. eexists _, _. split; [reflexivity|]. split; [lia|exact H2]. }
  repeat zcase.
  - apply (K 192 1%nat 224); [left|lia|lia].
  - apply (K 224 2%nat 240); [do 1 right; left|lia|lia].
  - apply (K 240 3%nat 248); [do 2 right; left|lia|lia].
  - apply (K 248 4%nat 252); [do 3 right; left|lia|lia].
  - apply (K 252 5%nat 254); [do 4 right; left|lia|lia].
Qed.

(** ** Conversion of a whole string *)

Definition encode_all (cs : list Z) : list Z := mjoin (utf8_encode <$> cs).

Definition chars (cs : list Z) : Prop := Forall (fun c => 0 < c < 2 ^ 31) cs.

Lemma utf8_encode_bytes c : 0 < c < 2 ^ 31 -> Forall (fun b => b ≠ 0) (utf8_encode c) /\ 1 <= zlen (utf8_encode c).
Proof.
  intros Hc.
  assert (K : forall base n, 0 < base ->
    Forall (fun b => b ≠ 0) ((base + c / 64 ^ Z.of_nat n) :: cont_bytes n c)
    /\ 1 <= zlen ((base + c / 64 ^ Z.of_nat n) :: cont_bytes n c)).
  { intros base n Hb. split.
    - constructor.
      + assert (0 <= c / 64 ^ Z.of_nat n) by (apply Z.div_pos; [lia|apply Z.pow_pos_nonneg; lia]). lia.
      + rewrite cont_bytes_digits. apply Forall_fmap. eapply Forall_impl; [apply digits_range|]. cbn. lia.
    - rewrite zlen_cons. pose proof (zlen_nonneg (cont_bytes n c)). lia. }
  unfold utf8_encode. repeat zcase.
  - split; [repeat constructor; lia|done].
  - apply (K 192 1%nat). lia.
  - apply (K 224 2%nat). lia.
  - apply (K 240 3%nat). lia.
  - apply (K 248 4%nat). lia.
  - apply (K 252 5%nat). lia.
Qed.

Lemma c_str_app s post : Forall (fun b => b ≠ 0) s -> c_str (s ++ 0 :: post) = s.
Proof. induction 1 as [|b s Hb _ IH]; [done|]. cbn. by rewrite (proj2 (Z.eqb_neq _ _) Hb), IH. Qed.

Lemma encode_all_bytes cs : chars cs -> Forall (fun b => b ≠ 0) (encode_all cs) /\ zlen cs <= zlen (encode_all cs).
Proof.
  induction 1 as [|c cs Hc _ [IH1 IH2]]; [by split|].
  destruct (utf8_encode_bytes c Hc). change (encode_all (c :: cs)) with (utf8_encode c ++ encode_all cs).
  split; [by apply Forall_app|]. autorewrite with zlen. lia.
Qed.

(** The loop consumes well-formed characters one by one. *)
Lemma convert_loop_chars cs : forall fuel pre post cap out,
  chars cs -> zlen out + zlen cs <= cap ->
  convert_loop (length cs + fuel) (pre ++ encode_all cs ++ post) cap (zlen pre) out =
  convert_loop fuel (pre ++ encode_all cs ++ post) cap (zlen pre + zlen (encode_all cs)) (out ++ cs).
Proof.
  induction cs as [|c cs IH]; intros fuel pre post cap out Hcs Hcap.
  { cbn. by rewrite app_nil_r, Z.add_0_r. }
  apply Forall_cons in Hcs as [Hc Hcs]. change (encode_all (c :: cs)) with (utf8_encode c ++ encode_all cs).
  rewrite <- app_assoc. destruct (decode_char c pre (encode_all cs ++ post) Hc) as (HD & b & tl & He & Hb & Hs).
  cbn [length Nat.add convert_loop].
  assert (Hl : (pre ++ utf8_encode c ++ encode_all cs ++ post).[zlen pre] = Some b)
    by (rewrite He; apply zlookup_app).
  rewrite Hl, HD. cbn. rewrite (proj2 (Z.eqb_neq _ _) Hb).
  rewrite zlen_cons in Hcap. pose proof (zlen_nonneg cs). rewrite (proj2 (Z.ltb_lt _ _)) by lia.
  rewrite Hs. cbn. rewrite <- zlen_app, app_assoc.
  rewrite IH by (rewrite ?zlen_app, ?zlen_cons, ?zlen_nil; (done || lia)).
  f_equal; [rewrite !zlen_app; lia|by rewrite <- app_assoc].
Qed.

Lemma convert_ok cs post :
  chars cs -> _xdg_convert_to_ucs4 (encode_all cs ++ 0 :: post) = Ok (cs, zlen cs).
Proof.
  intros Hcs. destruct (encode_all_bytes cs Hcs) as [Hb Hlen]. pose proof (zlen_nonneg cs).
  unfold _xdg_convert_to_ucs4. rewrite c_str_app by done.
  set (L := length (encode_all cs ++ 0 :: post)).
  replace (S L) with (length cs + S (L - length cs))%nat
    by (unfold L; rewrite length_app; unfold zlen in Hlen; lia).
  pose proof (convert_loop_chars cs (S (L - length cs)) [] (0 :: post)
    (zlen (encode_all cs) + 1) [] Hcs) as E. cbn [app] in E. rewrite zlen_nil in E. rewrite E by lia.
  cbn [convert_loop]. rewrite Z.add_0_l, zlookup_app. cbn.
  rewrite (proj2 (Z.ltb_lt _ _)) by lia. done.
Qed.

(** UTF-8 to UCS-4.  [_xdg_convert_to_ucs4] of a string that is the UTF-8
    encoding (of up to six bytes per character) of the characters [cs] reads
    inside the string, writes inside the array it allocated, ends, and returns
    exactly [cs] and their number. *)
Theorem convert_to_ucs4_decodes cs post :
  chars cs -> _xdg_convert_to_ucs4 (encode_all cs ++ 0 :: post) = Ok (cs, zlen cs).
Proof. apply convert_ok. Qed.

Lemma convert_to_ucs4_decodes_witness :
  _xdg_convert_to_ucs4 [97; 195; 169; 226; 130; 172; 0] = Ok ([97; 233; 8364], 3).
Proof. apply (convert_to_ucs4_decodes [97; 233; 8364] []). repeat constructor; lia. Defined.

(** A truncated sequence is read past its terminator.  A string whose last
    character is a lead byte without its continuation bytes makes
    [_xdg_convert_to_ucs4] step over the terminating 0 and read beyond the
    string; [_xdg_utf8_validate], which should reject it, accepts everything. *)
Theorem convert_to_ucs4_truncated cs b :
  chars cs -> 192 <= b < 254 ->
  _xdg_utf8_validate (encode_all cs ++ [b]) = true /\
  _xdg_convert_to_ucs4 (encode_all cs ++ [b; 0]) = UB.
Proof.
  intros Hcs Hb. split; [done|]. destruct (encode_all_bytes cs Hcs) as [Hne Hlen]. pose proof (zlen_nonneg cs).
  unfold _xdg_convert_to_ucs4.
  change (encode_all cs ++ [b; 0]) with (encode_all cs ++ [b] ++ 0 :: []). rewrite app_assoc, c_str_app
    by (apply Forall_app; split; [done|repeat constructor; lia]). rewrite <- app_assoc.
  set (cap := zlen _ + 1). assert (Hcap : cap = zlen (encode_all cs) + 2) by (unfold cap; autorewrite with zlen; lia).
  replace (S (length (encode_all cs ++ [b] ++ [0])))
    with (length cs + S (S (length (encode_all cs) + 1 - length cs)))%nat
    by (rewrite length_app; unfold zlen in Hlen; cbn; lia).
  pose proof (convert_loop_chars cs (S (S (length (encode_all cs) + 1 - length cs))) [] [b; 0] cap [] Hcs) as E.
  cbn [app] in E. rewrite zlen_nil in E. cbn [app]. rewrite E by lia. rewrite Z.add_0_l. clear E.
  set (p := zlen (encode_all cs)). set (s := encode_all cs ++ [b; 0]).
  assert (H0 : s.[p] = Some b) by apply zlookup_app.
  assert (Hend : forall k, 2 <= k -> s.[p + k] = None).
  { intros k Hk. unfold zlookup. pose proof (zlen_nonneg (encode_all cs)). rewrite (proj2 (Z.leb_le _ _)) by (unfold p; lia).
    apply lookup_ge_None_2. unfold s, p, zlen. rewrite length_app. cbn. lia. }
  destruct (lead_multi b Hb) as (n & r & HL & HS).
  cbn [convert_loop]. rewrite H0. cbn [or_ub mbind res_bind]. rewrite (proj2 (Z.eqb_neq _ _)) by lia.
  rewrite (utf8_to_ucs4_lead _ _ b), HL by done.
  assert (H1 : s.[p + 1] = Some 0).
  { unfold s, p. replace (encode_all cs ++ [b; 0]) with ((encode_all cs ++ [b]) ++ [0]) by (by rewrite <- app_assoc).
    rewrite <- (zlen_app _ [b]). apply zlookup_app. }
  cbn [ucs4_loop]. rewrite H1. cbn [or_ub mbind res_bind]. replace (p + 1 + 1) with (p + 2) by lia.
  destruct n as [|n]; cbn [ucs4_loop]; [|by rewrite Hend].
  cbn [mbind res_bind]. rewrite (proj2 (Z.ltb_lt _ _)) by (cbn [app]; lia).
  rewrite HS. cbn [mbind res_bind]. by rewrite Hend.
Qed.

Lemma convert_to_ucs4_truncated_witness :
  _xdg_utf8_validate [97; 195] = true /\ _xdg_convert_to_ucs4 [97; 195; 0] = UB.
Proof. apply (convert_to_ucs4_truncated [97] 195); [repeat constructor; lia | lia]. Defined.

(** ** Reversal, text fallback *)

Lemma swap_ends pre x m y post :
  swap (pre ++ x :: m ++ y :: post) (length pre) (length pre + S (length m)) = Ok (pre ++ y :: m ++ x :: post).
Proof.
  unfold swap. rewrite (list_lookup_middle pre (m ++ y :: post) x (length pre) eq_refl). cbn.
  assert (E : forall z w, pre ++ z :: m ++ w :: post = (pre ++ z :: m) ++ w :: post)
    by (intros; by rewrite <- app_assoc).
  rewrite (E x y) at 1. rewrite (list_lookup_middle (pre ++ x :: m)) by (rewrite length_app; cbn; lia). cbn. f_equal.
  replace (length pre) with (length pre + 0)%nat at 2 by lia. rewrite insert_app_r. cbn.
  rewrite (E y y). replace (length pre + S (length m))%nat with (length (pre ++ y :: m) + 0)%nat
    by (rewrite length_app; cbn; lia).
  rewrite insert_app_r. cbn. by rewrite <- app_assoc.
Qed.

Lemma reverse_loop_rev n : forall m pre post fuel,
  (length m < n)%nat -> length pre = length post -> (length m < fuel)%nat ->
  reverse_loop fuel (pre ++ m ++ post) (zlen (pre ++ m ++ post)) (zlen pre) = Ok (pre ++ rev m ++ post).
Proof.
  induction n as [|n IH]; intros m pre post fuel Hn Hlen Hf; [lia|].
  destruct fuel as [|fuel]; [lia|]. cbn [reverse_loop].
  assert (zlen pre = zlen post) by (unfold zlen; lia).
  destruct m as [|x m]; [|destruct (exists_last (l := x :: m)) as (m0 & y & Em); [done|]].
  - rewrite (proj2 (Z.ltb_ge _ _)) by (autorewrite with zlen; lia). done.
  - destruct m0 as [|x0 m0].
    { cbn in Em. injection Em as -> ->. autorewrite with zlen.
      rewrite (proj2 (Z.ltb_ge _ _)) by lia. done. }
    injection Em as <- ->. pose proof (zlen_nonneg m0).
    rewrite (proj2 (Z.ltb_lt _ _)) by (autorewrite with zlen; lia).
    assert (Es : swap (pre ++ (x :: m0 ++ [y]) ++ post) (Z.to_nat (zlen pre))
       (Z.to_nat (zlen (pre ++ (x :: m0 ++ [y]) ++ post) - zlen pre - 1)) = Ok ((pre ++ [y]) ++ m0 ++ (x :: post))).
    { rewrite to_nat_zlen. replace (Z.to_nat _) with (length pre + S (length m0))%nat
        by (autorewrite with zlen; unfold zlen in *; lia).
      rewrite <- app_assoc. cbn [app]. rewrite <- app_assoc. apply swap_ends. }
    rewrite Es. cbn [mbind res_bind].
    replace (zlen (pre ++ (x :: m0 ++ [y]) ++ post)) with (zlen ((pre ++ [y]) ++ m0 ++ x :: post))
      by (autorewrite with zlen; lia).
    replace (zlen pre + 1) with (zlen (pre ++ [y])) by (autorewrite with zlen; lia).
    cbn [length] in Hn, Hf. rewrite length_app in Hn, Hf. cbn in Hn, Hf.
    rewrite IH; [|lia|rewrite !length_app; cbn; lia|lia].
    f_equal. cbn [rev]. rewrite rev_app_distr. cbn. by rewrite <- !app_assoc.
Qed.

(** [_xdg_reverse_ucs4] reverses the array in place. *)
Lemma reverse_ucs4_rev l : _xdg_reverse_ucs4 l (zlen l) = Ok (rev l).
Proof.
  unfold _xdg_reverse_ucs4. pose proof (reverse_loop_rev (S (length l)) l [] [] (S (Z.to_nat (zlen l)))) as E.
  cbn in E. rewrite !app_nil_r in E. apply E; rewrite ?to_nat_zlen; lia.
Qed.

Definition is_binary_char (c : Z) : bool :=
  (c <? 32) && negb (c =? 9) && negb (c =? 10) && negb (c =? 13).

Lemma fallback_loop_spec fuel : forall pre data len,
  len <= zlen (pre ++ data) -> zlen pre <= 128 -> 128 - zlen pre < Z.of_nat fuel ->
  fallback_loop fuel (pre ++ data) len (zlen pre) =
  Ok (if existsb is_binary_char (take (Z.to_nat (Z.min 128 len - zlen pre)) data)
      then XDG_MIME_TYPE_UNKNOWN else XDG_MIME_TYPE_TEXTPLAIN).
Proof.
  induction fuel as [|fuel IH]; intros pre data len Hlen H128 Hf; [lia|]. cbn [fallback_loop].
  destruct ((zlen pre <? 128) && (zlen pre <? len)) eqn:E.
  - zb. destruct data as [|c data]; [rewrite app_nil_r in Hlen; lia|].
    rewrite zlookup_app. cbn [or_ub mbind res_bind].
    replace (Z.to_nat (Z.min 128 len - zlen pre)) with (S (Z.to_nat (Z.min 128 len - zlen (pre ++ [c]))))
      by (autorewrite with zlen; lia). cbn [take existsb]. unfold is_binary_char at 1.
    destruct ((c <? 32) && _ && _ && _); [done|]. cbn [orb].
    replace (pre ++ c :: data) with ((pre ++ [c]) ++ data) in * by (by rewrite <- app_assoc).
    replace (zlen pre + 1) with (zlen (pre ++ [c])) by (by autorewrite with zlen).
    apply IH; autorewrite with zlen in *; lia.
  - apply andb_false_iff in E. replace (Z.to_nat _) with 0%nat by (destruct E; zb; lia). done.
Qed.

(** [_xdg_binary_or_text_fallback] looks at no more than the first 128 bytes. *)
Lemma binary_or_text_fallback_spec data len : len <= zlen data ->
  _xdg_binary_or_text_fallback data len =
  Ok (if existsb is_binary_char (take (Z.to_nat (Z.min 128 len)) data)
      then XDG_MIME_TYPE_UNKNOWN else XDG_MIME_TYPE_TEXTPLAIN).
Proof.
  intros H. pose proof (fallback_loop_spec 129 [] data len H) as E. rewrite zlen_nil, !Z.sub_0_r in E.
  apply E; lia.
Qed.

End XdgInt.
