(* ===== verification/XdgTables.v ===== *)
(** * The alias, icon and parent tables of xdgmime
    (xdgmimealias.c, xdgmimeicon.c, xdgmimeparent.c)

    A table is read from text files, one entry per line, sorted with [qsort]
    and searched with [bsearch].  A file is the list of its bytes; [fgets] with
    the source's buffer of 255 bytes cuts longer lines.  The array of a table
    has [alloc] slots while a file is read; a write to a slot at or past [alloc]
    is [UB], and so is an [int] overflow of [alloc].

    The alias and icon files are the same code up to the separator and the
    names of the two fields: [Pairs] is that code, [Alias] and [Icon] are its
    two uses. *)
From S2P Require Import Prelude CLib.

Module Pairs.

(** [struct XdgAlias] (alias, mime_type), [struct XdgIcon] (mime_type, icon_name). *)
Record entry := mk_entry { e_key : list Z; e_value : list Z }.

#[global] Instance entry_eq_dec : EqDecision entry.
Proof. solve_decision. Defined.

Section pairs.
(** The separator: a space for aliases, a colon for icons. *)
Context (sep : Z).
Context {QS : Qsort e_key}.

(** The body of the loop up to [strdup]: [sep[strlen (sep) - 1] = 0] drops the
    last byte after the separator (the newline of a complete line); when nothing
    follows the separator it overwrites the separator's own 0. *)
Definition parse_line (line : list Z) : option entry :=
  match line with
  | 35 :: _ => None
  | _ =>
      match strchr (c_str line) sep with
      | None => None
      | Some (k, v) => Some (mk_entry k (removelast v))
      end
  end.

Fixpoint read_loop (fuel : nat) (file : list Z) (alloc : Z) (l : list entry) : res (list entry) :=
  match fuel with
  | O => NoFuel
  | S fuel =>
      match fgets 255 file with
      | None => Ok l
      | Some (line, file) =>
          match parse_line line with
          | None => read_loop fuel file alloc l
          | Some e =>
              alloc ← (if zlen l =? alloc then (if alloc * 2 <=? INT_MAX then Ok (alloc * 2) else UB) else Ok alloc);
              if zlen l <? alloc then read_loop fuel file alloc (l ++ [e]) else UB
          end
      end
  end.

(** [file = None] is a file that cannot be opened. *)
Definition read_from_file (l : list entry) (file : option (list Z)) : res (list entry) :=
  match file with
  | None => Ok l
  | Some file =>
      if zlen l + 16 <=? INT_MAX then
        l ← read_loop (S (length file)) file (zlen l + 16) l;
        Ok (if zlen l >? 1 then qsort e_key l else l)
      else UB
  end.

Definition lookup (l : list entry) (key : list Z) : option (list Z) :=
  if zlen l >? 0 then e_value <$> bsearch e_key key l else None.

(** The text [dump] prints. *)
Definition dump (l : list entry) : list Z :=
  mjoin ((fun e => e_key e ++ [32] ++ e_value e ++ [10]) <$> l).

(** ** Reference: the entries of a file *)

(** The pieces [fgets] delivers. *)
Fixpoint pieces (fuel : nat) (file : list Z) : list (list Z) :=
  match fuel with
  | O => []
  | S fuel => match fgets 255 file with None => [] | Some (line, file) => line :: pieces fuel file end
  end.

Definition file_entries (file : list Z) : list entry := omap parse_line (pieces (length file) file).

Lemma pieces_fuel n : forall m file, (length file <= n)%nat -> (length file <= m)%nat -> pieces n file = pieces m file.
Proof.
  induction n as [|n IH]; intros [|m] [|c file] Hn Hm; cbn [length] in *; try lia; try done; cbn [pieces].
  destruct (fgets 255 (c :: file)) as [[line rest]|] eqn:E; [|done].
  apply fgets_shorter in E as (E & Hl & _); [|lia]. f_equal.
  assert (length (c :: file) = length line + length rest)%nat by (rewrite E; apply length_app).
  assert (length line ≠ 0)%nat by (by destruct line). cbn [length] in *.
  apply IH; lia.
Qed.

Lemma file_entries_step file line rest : fgets 255 file = Some (line, rest) ->
  file_entries file = (match parse_line line with Some e => [e] | None => [] end) ++ file_entries rest.
Proof.
  intros E. pose proof E as E0. apply fgets_shorter in E0 as (-> & Hne & _); [|lia].
  assert (Hlen : (1 <= length line)%nat) by (destruct line; [done|cbn; lia]).
  unfold file_entries. destruct (length (line ++ rest)) as [|n] eqn:En; [rewrite length_app in En; lia|].
  cbn [pieces]. rewrite E. rewrite (pieces_fuel n (length rest)) by (rewrite length_app in En; lia).
  cbn [omap list_omap]. by destruct (parse_line line).
Qed.

(** The loop appends the entries of the file, inside the array. *)
Lemma read_loop_entries fuel : forall file alloc l,
  (length file < fuel)%nat -> 0 < alloc -> zlen l <= alloc -> (alloc <= 16 + 2 * zlen l) ->
  zlen l + zlen file < 2 ^ 28 ->
  read_loop fuel file alloc l = Ok (l ++ file_entries file).
Proof.
  induction fuel as [|fuel IH]; intros file alloc l Hf Ha Hl Hal Hmax; [lia|]. cbn [read_loop].
  pose proof (zlen_nonneg file) as Hfile.
  destruct (fgets 255 file) as [[line rest]|] eqn:E.
  2: { destruct file; [|done]. cbn. by rewrite app_nil_r. }
  pose proof E as E0. apply fgets_shorter in E0 as (-> & Hne & _); [|lia].
  assert (Hlen : (1 <= length line)%nat) by (destruct line; [done|cbn; lia]).
  rewrite (file_entries_step _ _ _ E).
  rewrite length_app in Hf. rewrite zlen_app in Hmax.
  assert (1 <= zlen line) by (unfold zlen; lia). pose proof (zlen_nonneg rest). pose proof (zlen_nonneg l).
  destruct (parse_line line) as [e|]; [|by apply IH; lia].
  rewrite app_assoc.
  destruct (Z.eqb_spec (zlen l) alloc) as [Heq|Hneq].
  - rewrite (proj2 (Z.leb_le _ _)) by (unfold INT_MAX; lia). cbn.
    rewrite (proj2 (Z.ltb_lt _ _)) by lia. apply IH; autorewrite with zlen; lia.
  - cbn. rewrite (proj2 (Z.ltb_lt _ _)) by lia. apply IH; autorewrite with zlen; lia.
Qed.

Lemma read_from_file_entries l file :
  zlen l + zlen file < 2 ^ 28 -> key_sorted e_key l ->
  exists l', read_from_file l (Some file) = Ok l' /\ key_sorted e_key l' /\ l' ≡ₚ l ++ file_entries file.
Proof.
  intros Hmax Hs. pose proof (zlen_nonneg l). pose proof (zlen_nonneg file).
  unfold read_from_file. rewrite (proj2 (Z.leb_le _ _)) by (unfold INT_MAX; lia).
  rewrite read_loop_entries by lia. cbn. eexists. split; [reflexivity|].
  rewrite Z.gtb_ltb. destruct (Z.ltb_spec 1 (zlen (l ++ file_entries file))) as [H1|H1].
  - split; [apply qsort_sorted|apply qsort_perm].
  - split; [by apply key_sorted_short|done].
Qed.

Lemma lookup_spec l key : key_sorted e_key l ->
  match lookup l key with
  | Some v => mk_entry key v ∈ l
  | None => forall v, mk_entry key v ∉ l
  end.
Proof.
  intros Hs. unfold lookup. rewrite Z.gtb_ltb. destruct (Z.ltb_spec 0 (zlen l)) as [Hl|Hl].
  - pose proof (bsearch_spec e_key key l Hs) as HB. destruct (bsearch e_key key l) as [[k v]|]; cbn in *.
    + by destruct HB as [? <-].
    + intros v Hv. by apply (HB _ Hv).
  - destruct l as [|e l]; [by intros ? ?%not_elem_of_nil|]. rewrite zlen_cons in Hl. pose proof (zlen_nonneg l). lia.
Qed.

(** Reading several files into a new table. *)
Fixpoint read_files (l : list entry) (files : list (option (list Z))) : res (list entry) :=
  match files with
  | [] => Ok l
  | f :: files => l ← read_from_file l f; read_files l files
  end.

Definition opened (files : list (option (list Z))) : list (list Z) := omap id files.

Lemma file_entries_length file : zlen (file_entries file) <= zlen file.
Proof.
  unfold file_entries, zlen. apply Nat2Z.inj_le.
  assert (K : forall n file, (length (omap parse_line (pieces n file)) <= n)%nat).
  { induction n as [|n IH]; intros f; cbn [pieces]; [done|].
    destruct (fgets 255 f) as [[line rest]|]; cbn; [|lia]. specialize (IH rest).
    destruct (parse_line line); cbn; lia. }
  apply K.
Qed.

Lemma read_files_entries files : forall l,
  zlen l + zlen (mjoin (opened files)) < 2 ^ 28 -> key_sorted e_key l ->
  exists l', read_files l files = Ok l' /\ key_sorted e_key l' /\ l' ≡ₚ l ++ mjoin (file_entries <$> opened files).
Proof.
  induction files as [|[f|] files IH]; intros l Hmax Hs; cbn [read_files].
  - exists l. cbn. by rewrite app_nil_r.
  - change (mjoin (opened (Some f :: files))) with (f ++ mjoin (opened files)) in Hmax. rewrite zlen_app in Hmax.
    pose proof (zlen_nonneg (mjoin (opened files))).
    destruct (read_from_file_entries l f) as (l1 & E1 & S1 & P1); [lia|done|]. rewrite E1. cbn [mbind res_bind].
    destruct (IH l1) as (l2 & E2 & S2 & P2); [|done|].
    + assert (zlen l1 = zlen l + zlen (file_entries f)) by (unfold zlen; rewrite P1, length_app; lia).
      pose proof (file_entries_length f). lia.
    + exists l2. split_and!; [done|done|]. rewrite P2, P1, <- app_assoc. done.
  - by apply IH.
Qed.

End pairs.
End Pairs.


(** ** Aliases: [alias mime_type] lines *)
Module Alias.
Section alias.
Context {QS : Qsort Pairs.e_key}.

Definition _xdg_mime_alias_list_new : list Pairs.entry := [].
Definition _xdg_mime_alias_list_lookup : list Pairs.entry -> list Z -> option (list Z) := Pairs.lookup.
Definition _xdg_mime_alias_read_from_file : list Pairs.entry -> option (list Z) -> res (list Pairs.entry) :=
  Pairs.read_from_file 32.
Definition _xdg_mime_alias_list_dump : list Pairs.entry -> list Z := Pairs.dump.

(** The entries the alias files hold. *)
Definition alias_entries (files : list (option (list Z))) : list Pairs.entry :=
  mjoin (Pairs.file_entries 32 <$> Pairs.opened files).

(** Alias lookup.  Reading any files (unreadable ones are skipped) of
    together less than 2^28 bytes into a new table stays inside the table's
    array and ends, for every sorting function that meets the contract of
    [qsort]; a lookup in the result returns the MIME type of some line for the
    alias when one of the files has one, and NULL when none has. *)
Theorem alias_lookup_correct files alias :
  zlen (mjoin (Pairs.opened files)) < 2 ^ 28 ->
  exists l, Pairs.read_files 32 _xdg_mime_alias_list_new files = Ok l /\
    match _xdg_mime_alias_list_lookup l alias with
    | Some m => Pairs.mk_entry alias m ∈ alias_entries files
    | None => forall m, Pairs.mk_entry alias m ∉ alias_entries files
    end.
Proof.
  intros Hmax. destruct (Pairs.read_files_entries 32 files []) as (l & E & HS & HP); [done|by apply key_sorted_short|].
  exists l. split; [done|]. pose proof (Pairs.lookup_spec l alias HS) as HL.
  unfold alias_entries, _xdg_mime_alias_list_lookup.
  destruct (Pairs.lookup l alias) as [m|]; [|intros m]; by rewrite <- HP.
Qed.
End alias.

Lemma alias_lookup_correct_witness :
  let _ := merge_qsort Pairs.e_key in
  exists l, Pairs.read_files 32 _xdg_mime_alias_list_new [Some [120; 32; 97; 10]; None] = Ok l /\
    match _xdg_mime_alias_list_lookup l [120] with
    | Some m => Pairs.mk_entry [120] m ∈ alias_entries [Some [120; 32; 97; 10]; None]
    | None => forall m, Pairs.mk_entry [120] m ∉ alias_entries [Some [120; 32; 97; 10]; None]
    end.
Proof. intros QS. apply (@alias_lookup_correct QS [Some [120; 32; 97; 10]; None] [120]). vm_compute. done. Defined.
End Alias.

(** ** Icons: [mime_type:icon_name] lines *)
Module Icon.
Section icon.
Context {QS : Qsort Pairs.e_key}.

Definition _xdg_mime_icon_list_new : list Pairs.entry := [].
Definition _xdg_mime_icon_list_lookup : list Pairs.entry -> list Z -> option (list Z) := Pairs.lookup.
Definition _xdg_mime_icon_read_from_file : list Pairs.entry -> option (list Z) -> res (list Pairs.entry) :=
  Pairs.read_from_file 58.
Definition _xdg_mime_icon_list_dump : list Pairs.entry -> list Z := Pairs.dump.
End icon.
End Icon.

(** ** Parents: [mime parent] lines *)
Module Parent.

Record XdgMimeParents := mk_parents { mime : list Z; parents : list (list Z) }.

#[global] Instance XdgMimeParents_eq_dec : EqDecision XdgMimeParents.
Proof. solve_decision. Defined.

Section parent.
Context {QS : Qsort mime}.

Definition _xdg_mime_parent_list_new : list XdgMimeParents := [].

(** The first entry whose [mime] is [line]. *)
Fixpoint find_entry (l : list XdgMimeParents) (line : list Z) : option nat :=
  match l with
  | [] => None
  | e :: l => if strcmp (mime e) line =? 0 then Some O else S <$> find_entry l line
  end.

(** [entry->parents[n_parents - 1] = strdup (sep)] after growing the array. *)
Definition add_to (p : list Z) (e : XdgMimeParents) : XdgMimeParents :=
  mk_parents (mime e) (parents e ++ [p]).

Fixpoint parent_loop (fuel : nat) (file : list Z) (alloc : Z) (l : list XdgMimeParents)
    : res (list XdgMimeParents) :=
  match fuel with
  | O => NoFuel
  | S fuel =>
      match fgets 255 file with
      | None => Ok l
      | Some (line, file) =>
          match Pairs.parse_line 32 line with
          | None => parent_loop fuel file alloc l
          | Some e =>
              match find_entry l (Pairs.e_key e) with
              | Some i => parent_loop fuel file alloc (alter (add_to (Pairs.e_value e)) i l)
              | None =>
                  alloc ← (if zlen l =? alloc then (if alloc * 2 <=? INT_MAX then Ok (alloc * 2) else UB) else Ok alloc);
                  if zlen l <? alloc
                  then parent_loop fuel file alloc (l ++ [mk_parents (Pairs.e_key e) [Pairs.e_value e]])
                  else UB
              end
          end
      end
  end.

Definition _xdg_mime_parent_read_from_file (l : list XdgMimeParents) (file : option (list Z))
    : res (list XdgMimeParents) :=
  match file with
  | None => Ok l
  | Some file =>
      if zlen l + 16 <=? INT_MAX then
        l ← parent_loop (S (length file)) file (zlen l + 16) l;
        Ok (if zlen l >? 1 then qsort mime l else l)
      else UB
  end.

Definition _xdg_mime_parent_list_lookup (l : list XdgMimeParents) (m : list Z) : option (list (list Z)) :=
  if zlen l >? 0 then parents <$> bsearch mime m l else None.

Definition _xdg_mime_parent_list_dump (l : list XdgMimeParents) : list Z :=
  mjoin ((fun e => mjoin ((fun p => mime e ++ [32] ++ p ++ [10]) <$> parents e)) <$> l).

Fixpoint read_files (l : list XdgMimeParents) (files : list (option (list Z))) : res (list XdgMimeParents) :=
  match files with
  | [] => Ok l
  | f :: files => l ← _xdg_mime_parent_read_from_file l f; read_files l files
  end.

(** ** Reference: the parents of a type in a sequence of lines *)

Definition parents_of (es : list Pairs.entry) (m : list Z) : list (list Z) :=
  omap (fun e => if decide (Pairs.e_key e = m) then Some (Pairs.e_value e) else None) es.

(** The table holds the lines [es]: one entry per type, with its parents in order. *)
Definition holds (l : list XdgMimeParents) (es : list Pairs.entry) : Prop :=
  NoDup (mime <$> l) /\
  (forall e, e ∈ l -> parents e = parents_of es (mime e)) /\
  (forall m, m ∈ mime <$> l <-> parents_of es m ≠ []).

Lemma holds_perm l l' es : l' ≡ₚ l -> holds l es -> holds l' es.
Proof.
  intros HP (H1 & H2 & H3). unfold holds. split_and!.
  - by rewrite HP.
  - intros e. rewrite HP. apply H2.
  - intros m. rewrite <- H3. by rewrite HP.
Qed.

Lemma parents_of_snoc es e m :
  parents_of (es ++ [e]) m = parents_of es m ++ (if decide (Pairs.e_key e = m) then [Pairs.e_value e] else []).
Proof. unfold parents_of. rewrite omap_app. cbn. by case_decide. Qed.

Lemma find_entry_spec l line :
  match find_entry l line with
  | Some i => exists e l1 l2, l = l1 ++ e :: l2 /\ i = length l1 /\ mime e = line
  | None => line ∉ mime <$> l
  end.
Proof.
  induction l as [|e l IH]; [apply not_elem_of_nil|]. cbn [find_entry].
  destruct (Z.eqb_spec (strcmp (mime e) line) 0) as [He|He].
  - exists e, [], l. split_and!; [done|done|by apply strcmp_eq].
  - destruct (find_entry l line) as [i|]; cbn.
    + destruct IH as (e' & l1 & l2 & -> & -> & Hm). by exists e', (e :: l1), l2.
    + apply not_elem_of_cons. split; [|done]. intros ->. apply He, strcmp_refl.
Qed.

(** One line added to a table that holds [es]. *)
Lemma holds_new l es e : holds l es -> Pairs.e_key e ∉ mime <$> l ->
  holds (l ++ [mk_parents (Pairs.e_key e) [Pairs.e_value e]]) (es ++ [e]).
Proof.
  intros (H1 & H2 & H3) Hn. assert (Hz : parents_of es (Pairs.e_key e) = []).
  { destruct (decide (parents_of es (Pairs.e_key e) = [])) as [|Hne]; [done|]. by apply H3 in Hne. }
  unfold holds. rewrite fmap_app. cbn. split_and!.
  - apply NoDup_app. split_and!; [done| |apply NoDup_singleton]. intros m Hm ->%list_elem_of_singleton. done.
  - intros x [Hx| ->%list_elem_of_singleton]%elem_of_app; rewrite parents_of_snoc; cbn.
    + rewrite decide_False, app_nil_r; [by apply H2|]. intros Heq. apply Hn. rewrite Heq. by apply list_elem_of_fmap_2.
    + by rewrite Hz, decide_True.
  - intros m. rewrite elem_of_app, list_elem_of_singleton, H3, parents_of_snoc. case_decide as Hd.
    + subst m. split; [intros _; by destruct (parents_of es _)|by right].
    + rewrite app_nil_r. split; [intros [?| ->]; done|by left].
Qed.

Lemma holds_update l1 x l2 es e : holds (l1 ++ x :: l2) es -> mime x = Pairs.e_key e ->
  holds (l1 ++ add_to (Pairs.e_value e) x :: l2) (es ++ [e]).
Proof.
  intros (H1 & H2 & H3) Hx. unfold holds. rewrite fmap_app, fmap_cons in *. cbn [mime add_to].
  assert (Hu : forall y, y ∈ l1 \/ y ∈ l2 -> mime y ≠ mime x).
  { intros y Hy Heq. apply NoDup_app in H1 as (_ & D1 & [D2 _]%NoDup_cons).
    destruct Hy as [Hy|Hy]; [apply (D1 (mime x))|apply D2]; rewrite <- ?Heq; try apply list_elem_of_fmap_2; try done.
    rewrite Heq. left. }
  split_and!; [done| |].
  - intros y [Hy|[->|Hy]%elem_of_cons]%elem_of_app; rewrite parents_of_snoc; cbn [mime add_to parents].
    + rewrite decide_False by (rewrite <- Hx; intros E; by apply (Hu y); [left|]).
      rewrite app_nil_r. apply H2, elem_of_app. by left.
    + rewrite decide_True by done. f_equal. apply H2, elem_of_app. right. left.
    + rewrite decide_False by (rewrite <- Hx; intros E; by apply (Hu y); [right|]).
      rewrite app_nil_r. apply H2, elem_of_app. right. by right.
  - intros m. rewrite H3, parents_of_snoc. case_decide as Hd; [|by rewrite app_nil_r].
    split; [by destruct (parents_of es m)|intros _]. apply H3. subst m. rewrite <- Hx.
    apply elem_of_app. right. left.
Qed.

Lemma parent_loop_holds fuel : forall file alloc l es,
  (length file < fuel)%nat -> 0 < alloc -> zlen l <= alloc -> alloc <= 16 + 2 * zlen l ->
  zlen l + zlen file < 2 ^ 28 -> holds l es ->
  exists l', parent_loop fuel file alloc l = Ok l' /\ holds l' (es ++ Pairs.file_entries 32 file)
    /\ zlen l' <= zlen l + zlen file.
Proof.
  induction fuel as [|fuel IH]; intros file alloc l es Hf Ha Hl Hal Hmax Hh; [lia|]. cbn [parent_loop].
  pose proof (zlen_nonneg file) as Hfile.
  destruct (fgets 255 file) as [[line rest]|] eqn:E.
  2: { destruct file; [|done]. exists l. cbn. rewrite app_nil_r. split_and!; [done|done|]. rewrite zlen_nil. lia. }
  rewrite (Pairs.file_entries_step 32 _ _ _ E).
  pose proof E as E0. apply fgets_shorter in E0 as (-> & Hne & _); [|lia].
  assert (Hlen : (1 <= length line)%nat) by (destruct line; [done|cbn; lia]).
  rewrite length_app in Hf. rewrite zlen_app in Hmax |- *.
  assert (1 <= zlen line) by (unfold zlen; lia). pose proof (zlen_nonneg rest). pose proof (zlen_nonneg l).
  destruct (Pairs.parse_line 32 line) as [e|].
  2: { destruct (IH rest alloc l es) as (l' & E' & H' & L'); [lia..|done|]. exists l'. split_and!; [done|done|lia]. }
  rewrite app_assoc. pose proof (find_entry_spec l (Pairs.e_key e)) as HF.
  destruct (find_entry l (Pairs.e_key e)) as [i|].
  - destruct HF as (x & l1 & l2 & -> & -> & Hx).
    assert (Ea : alter (add_to (Pairs.e_value e)) (length l1) (l1 ++ x :: l2) = l1 ++ add_to (Pairs.e_value e) x :: l2).
    { replace (length l1) with (length l1 + 0)%nat by lia. by rewrite alter_app_r. }
    rewrite Ea.
    assert (Ez : zlen (l1 ++ add_to (Pairs.e_value e) x :: l2) = zlen (l1 ++ x :: l2)) by (by autorewrite with zlen).
    destruct (IH rest alloc (l1 ++ add_to (Pairs.e_value e) x :: l2) (es ++ [e])) as (l' & E' & H' & L');
      rewrite ?Ez; [lia..|by apply holds_update|].
    exists l'. split_and!; [done|done|lia].
  - assert (Hgo : forall alloc', 0 < alloc' -> zlen l < alloc' -> alloc' <= 16 + 2 * (zlen l + 1) ->
      exists l', (if zlen l <? alloc'
                  then parent_loop fuel rest alloc' (l ++ [mk_parents (Pairs.e_key e) [Pairs.e_value e]]) else UB) = Ok l'
        /\ holds l' ((es ++ [e]) ++ Pairs.file_entries 32 rest) /\ zlen l' <= zlen l + (zlen line + zlen rest)).
    { intros alloc' Ha' Hl' Hal'. rewrite (proj2 (Z.ltb_lt _ _)) by lia.
      destruct (IH rest alloc' (l ++ [mk_parents (Pairs.e_key e) [Pairs.e_value e]]) (es ++ [e])) as (l' & E' & H' & L');
        autorewrite with zlen; [lia..|by apply holds_new|].
      autorewrite with zlen in L'. exists l'. split_and!; [done|done|lia]. }
    destruct (Z.eqb_spec (zlen l) alloc) as [Heq|Hneq]; [|apply Hgo; lia].
    rewrite (proj2 (Z.leb_le _ _)) by (unfold INT_MAX; lia). apply Hgo; lia.
Qed.

Lemma read_from_file_holds l es file :
  zlen l + zlen file < 2 ^ 28 -> key_sorted mime l -> holds l es ->
  exists l', _xdg_mime_parent_read_from_file l (Some file) = Ok l' /\ key_sorted mime l'
    /\ holds l' (es ++ Pairs.file_entries 32 file) /\ zlen l' <= zlen l + zlen file.
Proof.
  intros Hmax Hs Hh. pose proof (zlen_nonneg l). pose proof (zlen_nonneg file).
  unfold _xdg_mime_parent_read_from_file. rewrite (proj2 (Z.leb_le _ _)) by (unfold INT_MAX; lia).
  destruct (parent_loop_holds (S (length file)) file (zlen l + 16) l es) as (l1 & E & H1 & L1); [lia..|done|].
  rewrite E. cbn [mbind res_bind]. eexists. split; [reflexivity|].
  rewrite Z.gtb_ltb. destruct (Z.ltb_spec 1 (zlen l1)).
  - split_and!; [apply qsort_sorted|by eapply holds_perm; [apply qsort_perm|]|].
    unfold zlen in *. rewrite qsort_perm. done.
  - split_and!; [by apply key_sorted_short|done|done].
Qed.

Lemma read_files_holds files : forall l es,
  zlen l + zlen (mjoin (Pairs.opened files)) < 2 ^ 28 -> key_sorted mime l -> holds l es ->
  exists l', read_files l files = Ok l' /\ key_sorted mime l'
    /\ holds l' (es ++ mjoin (Pairs.file_entries 32 <$> Pairs.opened files)).
Proof.
  induction files as [|[f|] files IH]; intros l es Hmax Hs Hh; cbn [read_files].
  - exists l. cbn. by rewrite app_nil_r.
  - change (mjoin (Pairs.opened (Some f :: files))) with (f ++ mjoin (Pairs.opened files)) in Hmax.
    rewrite zlen_app in Hmax. pose proof (zlen_nonneg (mjoin (Pairs.opened files))).
    destruct (read_from_file_holds l es f) as (l1 & E1 & S1 & H1 & L1); [lia|done|done|].
    rewrite E1. cbn [mbind res_bind]. destruct (IH l1 (es ++ Pairs.file_entries 32 f)) as (l2 & E2 & S2 & H2); [lia|done|done|].
    exists l2. split_and!; [done|done|]. by rewrite <- app_assoc in H2.
  - by apply IH.
Qed.

(** Parent lookup.  After reading any files of together less than 2^28
    bytes into a new table, for every sorting function that meets the contract
    of [qsort], a lookup returns exactly the parents the files list for the
    type, in the order of the lines (over the order of the files), and NULL
    when there is none. *)
Theorem parent_lookup_correct files m :
  zlen (mjoin (Pairs.opened files)) < 2 ^ 28 ->
  exists l, read_files _xdg_mime_parent_list_new files = Ok l /\
    _xdg_mime_parent_list_lookup l m =
      match parents_of (mjoin (Pairs.file_entries 32 <$> Pairs.opened files)) m with
      | [] => None
      | ps => Some ps
      end.
Proof.
  intros Hmax.
  destruct (read_files_holds files [] []) as (l & E & HS & HD & HP & HN); [done|by apply key_sorted_short| |].
  { split_and!; [constructor|by intros ? ?%not_elem_of_nil|]. intros x. cbn. split; [by intros ?%not_elem_of_nil|done]. }
  exists l. split; [done|]. cbn [app] in HP, HN. set (es := mjoin (Pairs.file_entries 32 <$> _)) in *.
  assert (HB : match bsearch mime m l with Some e => Some (parents e) | None => None end
    = match parents_of es m with [] => None | ps => Some ps end).
  { pose proof (bsearch_spec mime m l HS) as HB. destruct (bsearch mime m l) as [e|].
    - destruct HB as [He <-]. rewrite (HP e He).
      assert (parents_of es (mime e) ≠ []) by (apply HN, list_elem_of_fmap_2, He). by destruct (parents_of es (mime e)).
    - destruct (decide (parents_of es m = [])) as [->|Hne]; [done|].
      apply HN, list_elem_of_fmap in Hne as (e & -> & He). by destruct (HB e He). }
  unfold _xdg_mime_parent_list_lookup. rewrite <- HB. rewrite Z.gtb_ltb.
  destruct (Z.ltb_spec 0 (zlen l)); [done|]. destruct l as [|? l']; [done|].
  rewrite zlen_cons in *. pose proof (zlen_nonneg l'). lia.
Qed.

End parent.

Lemma parent_lookup_correct_witness :
  let _ := merge_qsort mime in
  exists l, read_files _xdg_mime_parent_list_new [Some [97; 32; 98; 10; 97; 32; 99; 10]] = Ok l /\
    _xdg_mime_parent_list_lookup l [97] = Some [[98]; [99]].
Proof.
  intros QS. apply (@parent_lookup_correct QS [Some [97; 32; 98; 10; 97; 32; 99; 10]] [97]). vm_compute. done.
Defined.

End Parent.
