(* ===== verification/XdgGlob.v ===== *)
(** * Glob patterns (third-party/xdgmime/src/xdgmimeglob.c)

    The glob hash keeps three kinds of patterns: literal names, suffix patterns
    ("simple": a star and then text without metacharacters) in a trie over the
    reversed suffix, and all others, matched with [fnmatch].  A chain of
    siblings ([next]) is a list of nodes and NULL is the empty list; the code
    never shares nodes, so a trie is a tree.  Reads and writes outside the
    code's arrays ([mimes[10]], [prefix[25]], the text before its first byte)
    are [UB]. *)
From S2P Require Import Prelude CLib XdgInt.
Import XdgInt.

#[local] Open Scope cfetch_scope.

Module XdgGlob.

Inductive XdgGlobHashNode := Node {
  character : Z;
  node_mime_type : option (list Z);
  node_weight : Z;
  node_case_sensitive : bool;
  child : list XdgGlobHashNode
}.

Record XdgGlobList := mk_glob_list {
  data : list Z;
  mime_type : list Z;
  weight : Z;
  case_sensitive : bool
}.

Record XdgGlobHash := mk_glob_hash {
  literal_list : list XdgGlobList;
  simple_node : list XdgGlobHashNode;
  full_list : list XdgGlobList
}.

Inductive XdgGlobType := XDG_GLOB_LITERAL | XDG_GLOB_SIMPLE | XDG_GLOB_FULL.

Record MimeWeight := mk_mime_weight { mime : list Z; mw_weight : Z }.

(** ** Pattern lists *)

Definition _xdg_glob_list_append (glob_list : list XdgGlobList) (data_ mime_type_ : list Z) (weight_ : Z)
    (case_sensitive_ : bool) : list XdgGlobList :=
  if existsb (fun e => (strcmp (data e) data_ =? 0) && (strcmp (mime_type e) mime_type_ =? 0)) glob_list
  then glob_list
  else glob_list ++ [mk_glob_list data_ mime_type_ weight_ case_sensitive_].

(** ** The trie *)

Definition _xdg_glob_hash_node_new (c : Z) : XdgGlobHashNode := Node c None 0 false [].

(** The search for the node of a character among siblings, with the node that
    is inserted when there is none: the siblings before it, it, the siblings after. *)
Fixpoint locate (c : Z) (ns : list XdgGlobHashNode)
    : list XdgGlobHashNode * XdgGlobHashNode * list XdgGlobHashNode :=
  match ns with
  | [] => ([], _xdg_glob_hash_node_new c, [])
  | n :: r =>
      if c <? character n then ([], _xdg_glob_hash_node_new c, ns)
      else if c =? character n then ([], n, r)
      else let '(l1, x, l2) := locate c r in (n :: l1, x, l2)
  end.

(** [while (child && child->character == 0)]: is the type already there?  (Nodes
    of character 0 always have a type.) *)
Fixpoint has_alternative (m : list Z) (ns : list XdgGlobHashNode) : bool :=
  match ns with
  | [] => false
  | n :: r =>
      if character n =? 0 then
        match node_mime_type n with
        | Some m' => if strcmp m' m =? 0 then true else has_alternative m r
        | None => has_alternative m r
        end
      else false
  end.

(** The end of the text: the node gets the type, or an extra child of character
    0 when it already has another one. *)
Definition set_mime (node : XdgGlobHashNode) (m : list Z) (w : Z) (cs : bool) : XdgGlobHashNode :=
  match node_mime_type node with
  | Some m' =>
      if negb (strcmp m' m =? 0) && negb (has_alternative m (child node))
      then Node (character node) (node_mime_type node) (node_weight node) (node_case_sensitive node)
             (Node 0 (Some m) w cs [] :: child node)
      else node
  | None => Node (character node) (Some m) w cs (child node)
  end.

Definition set_child (node : XdgGlobHashNode) (c : list XdgGlobHashNode) : XdgGlobHashNode :=
  Node (character node) (node_mime_type node) (node_weight node) (node_case_sensitive node) c.

(** [text] is the array with its terminating 0. *)
Fixpoint _xdg_glob_hash_insert_ucs4 (text : list Z) (ns : list XdgGlobHashNode) (m : list Z) (w : Z) (cs : bool)
    : res (list XdgGlobHashNode) :=
  match text with
  | [] => UB
  | c :: text =>
      let '(l1, node, l2) := locate c ns in
      match text with
      | [] => UB
      | t :: _ =>
          if t =? 0 then Ok (l1 ++ set_mime node m w cs :: l2)
          else
            ch ← _xdg_glob_hash_insert_ucs4 text (child node) m w cs;
            Ok (l1 ++ set_child node ch :: l2)
      end
  end.

Definition _xdg_glob_hash_insert_text (ns : list XdgGlobHashNode) (text : list Z) (m : list Z) (w : Z) (cs : bool)
    : res (list XdgGlobHashNode) :=
  '(unitext, len) ← _xdg_convert_to_ucs4 text;
  unitext ← _xdg_reverse_ucs4 unitext len;
  _xdg_glob_hash_insert_ucs4 (unitext ++ [0]) ns m w cs.

(** ** Lookup *)

(** [node->mime_type && (case_sensitive_check || !node->case_sensitive)] *)
Definition node_item (cs_check : bool) (n : XdgGlobHashNode) : option MimeWeight :=
  match node_mime_type n with
  | Some m => if cs_check || negb (node_case_sensitive n) then Some (mk_mime_weight m (node_weight n)) else None
  | None => None
  end.

(** [while (n < n_mime_types && node && node->character == 0)] *)
Fixpoint alternatives (cs_check : bool) (n_mime_types : Z) (ns : list XdgGlobHashNode) (acc : list MimeWeight)
    : list MimeWeight :=
  match ns with
  | [] => acc
  | n :: r =>
      if (zlen acc <? n_mime_types) && (character n =? 0) then
        alternatives cs_check n_mime_types r
          (match node_item cs_check n with Some i => acc ++ [i] | None => acc end)
      else acc
  end.

(** [for (node = ...; node && character >= node->character; ...)]: the node with
    the character, if the loop reaches it. *)
Fixpoint find_char (c : Z) (ns : list XdgGlobHashNode) : option XdgGlobHashNode :=
  match ns with
  | [] => None
  | n :: r => if c >=? character n then (if c =? character n then Some n else find_char c r) else None
  end.

(** The types written to [mime_types]; their number is the result. *)
Fixpoint _xdg_glob_hash_node_lookup_file_name (ns : list XdgGlobHashNode) (file_name : list Z) (len : nat)
    (cs_check : bool) (n_mime_types : Z) : res (list MimeWeight) :=
  match ns with
  | [] => Ok []
  | _ =>
      match len with
      | O => UB
      | S len =>
          b ← or_ub file_name.[Z.of_nat len];
          match find_char (u32 (i8 b)) ns with
          | None => Ok []
          | Some node =>
              r ← (if (0 <? Z.of_nat len)
                   then _xdg_glob_hash_node_lookup_file_name (child node) file_name len cs_check n_mime_types
                   else Ok []);
              match r with
              | [] => Ok (alternatives cs_check n_mime_types (child node)
                            (match node_item cs_check node with Some i => [i] | None => [] end))
              | _ => Ok r
              end
          end
      end
  end.

Definition ISUPPER (c : Z) : bool := (65 <=? c) && (c <=? 90).

Definition ascii_tolower (str : list Z) : list Z := (fun c => if ISUPPER c then c - 65 + 97 else c) <$> str.

Section lookup.
(** [fnmatch (pattern, name, 0) == 0] of the C library, and [qsort] with
    [compare_mime_weight]. *)
Context (fnmatch : list Z -> list Z -> bool).
Context (sort_weights : list MimeWeight -> list MimeWeight).

(** [for (list = full_list; list && n < n_mime_types; ...)] writing [mimes[10]]. *)
Fixpoint full_loop (l : list XdgGlobList) (file_name : list Z) (n_mime_types : Z) (acc : list MimeWeight)
    : res (list MimeWeight) :=
  match l with
  | [] => Ok acc
  | e :: l =>
      if zlen acc <? n_mime_types then
        if fnmatch (data e) file_name then
          if zlen acc <? 10 then full_loop l file_name n_mime_types (acc ++ [mk_mime_weight (mime_type e) (weight e)])
          else UB
        else full_loop l file_name n_mime_types acc
      else Ok acc
  end.

(** [file_name] is the string without its terminator; the result is the array
    [mime_types] up to the returned count. *)
Definition _xdg_glob_hash_lookup_file_name (glob_hash : XdgGlobHash) (file_name : list Z) (n_mime_types : Z)
    : res (list (list Z)) :=
  let lower_case := ascii_tolower file_name in
  match List.find (fun e => strcmp (data e) file_name =? 0) (literal_list glob_hash) with
  | Some e => Ok [mime_type e]
  | None =>
      match List.find (fun e => negb (case_sensitive e) && (strcmp (data e) lower_case =? 0))
              (literal_list glob_hash) with
      | Some e => Ok [mime_type e]
      | None =>
          let len := length file_name in
          mimes ← _xdg_glob_hash_node_lookup_file_name (simple_node glob_hash) lower_case len false 10;
          mimes ← (if zlen mimes =? 0
                   then _xdg_glob_hash_node_lookup_file_name (simple_node glob_hash) file_name len true 10
                   else Ok mimes);
          mimes ← (if zlen mimes =? 0
                   then full_loop (full_list glob_hash) file_name n_mime_types []
                   else Ok mimes);
          Ok (take (Z.to_nat n_mime_types) (mime <$> sort_weights mimes))
      end
  end.
End lookup.

(** ** Listing the suffixes of a type *)

(** [strcasecmp (a, b) == 0] on ASCII. *)
Definition strcaseeq (a b : list Z) : bool := strcmp (ascii_tolower a) (ascii_tolower b) =? 0.

(** State: the suffixes found and the [prefix] array; the flag is the result. *)
Record gs_state := mk_gs { globs : list (list Z); prefix : list cell }.

Section simple_globs.
Context (m : list Z) (n_globs : Z).

Definition collect_prefix (p : list cell) (depth : nat) : res (list Z) :=
  l ← or_ub (mapM id (take depth p)); Ok (rev (u8 <$> l)).

(** [get_simple_globs (node)] on a chain of siblings: the first node, its
    children, then the rest of the chain. *)
Fixpoint get_simple_globs_node (node : XdgGlobHashNode) (depth : nat) (rest : gs_state -> res (bool * gs_state))
    (s : gs_state) : res (bool * gs_state) :=
  if zlen (globs s) >=? n_globs then Ok (false, s)
  else
    p ← mem_write (prefix s) (Z.of_nat depth) [Some (character node)];
    g ← (match node_mime_type node with
         | Some mt => if strcaseeq mt m then x ← collect_prefix p depth; Ok (globs s ++ [x]) else Ok (globs s)
         | None => Ok (globs s)
         end);
    let s := mk_gs g p in
    '(ok, s) ← (match child node with
                | [] => Ok (true, s)
                | ch =>
                    (fix chain (ns : list XdgGlobHashNode) (s : gs_state) : res (bool * gs_state) :=
                       match ns with
                       | [] => Ok (true, s)
                       | n :: ns => get_simple_globs_node n (S depth)
                                      (match ns with [] => fun s => Ok (true, s) | _ => chain ns end) s
                       end) ch s
                end);
    if (ok : bool) then
      '(ok, s) ← rest s;
      if (ok : bool) then Ok (zlen (globs s) <? n_globs, s) else Ok (false, s)
    else Ok (false, s).

Fixpoint get_simple_globs (ns : list XdgGlobHashNode) (depth : nat) (s : gs_state) : res (bool * gs_state) :=
  match ns with
  | [] => Ok (true, s)
  | n :: ns => get_simple_globs_node n depth
                 (match ns with [] => fun s => Ok (true, s) | _ => get_simple_globs ns depth end) s
  end.
End simple_globs.

(** [unaliased] is [xdg_mime_unalias_mime_type (mime)]. *)
Definition _xdg_glob_hash_get_simple_globs (glob_hash : XdgGlobHash) (unaliased : list Z) (n_globs : Z)
    : res (list (list Z)) :=
  match simple_node glob_hash with
  | [] => Ok []
  | ns => '(_, s) ← get_simple_globs unaliased n_globs ns 0 (mk_gs [] (replicate 25 None)); Ok (globs s)
  end.

(** ** Adding patterns *)

Definition _xdg_glob_hash_new : XdgGlobHash := mk_glob_hash [] [] [].

Fixpoint determine_loop (fuel : nat) (glob : list Z) (p : Z) (maybe first_char : bool) : res XdgGlobType :=
  match fuel with
  | O => NoFuel
  | S fuel =>
      b ← or_ub glob.[p];
      if b =? 0 then Ok (if maybe then XDG_GLOB_SIMPLE else XDG_GLOB_LITERAL)
      else if (b =? 42) && first_char then
        k ← utf8_skip b; determine_loop fuel glob (p + k) true false
      else if (b =? 92) || (b =? 91) || (b =? 63) || (b =? 42) then Ok XDG_GLOB_FULL
      else k ← utf8_skip b; determine_loop fuel glob (p + k) maybe false
  end.

Definition _xdg_glob_determine_type (glob : list Z) : res XdgGlobType :=
  determine_loop (S (length glob)) glob 0 false true.

(** [glob] is the array with its terminating 0. *)
Definition _xdg_glob_hash_append_glob (h : XdgGlobHash) (glob m : list Z) (w : Z) (cs : bool) : res XdgGlobHash :=
  type ← _xdg_glob_determine_type glob;
  match type with
  | XDG_GLOB_LITERAL =>
      Ok (mk_glob_hash (_xdg_glob_list_append (literal_list h) (c_str glob) m w cs) (simple_node h) (full_list h))
  | XDG_GLOB_SIMPLE =>
      ns ← _xdg_glob_hash_insert_text (simple_node h) (drop 1 glob) m w cs;
      Ok (mk_glob_hash (literal_list h) ns (full_list h))
  | XDG_GLOB_FULL =>
      Ok (mk_glob_hash (literal_list h) (simple_node h) (_xdg_glob_list_append (full_list h) (c_str glob) m w cs))
  end.

(** ** Reading a globs file *)

(** [atoi]: digits after blanks and a sign; a value outside [int] is [UB]. *)
Fixpoint atoi_digits (s : list Z) (acc : Z) : Z :=
  match s with
  | c :: s => if (48 <=? c) && (c <=? 57) then atoi_digits s (10 * acc + (c - 48)) else acc
  | [] => acc
  end.

Fixpoint skip_space (s : list Z) : list Z :=
  match s with
  | c :: r => if (c =? 32) || ((9 <=? c) && (c <=? 13)) then skip_space r else s
  | [] => []
  end.

Definition atoi (s : list Z) : res Z :=
  let v := match skip_space s with
           | 45 :: s => - atoi_digits s 0
           | 43 :: s => atoi_digits s 0
           | s => atoi_digits s 0
           end in
  if (INT_MIN <=? v) && (v <=? INT_MAX) then Ok v else UB.

(** [strstr (p, "cs")] with the character before it: what precedes and what follows. *)
Fixpoint strstr_cs (before : option Z) (s : list Z) : option (option Z * list Z) :=
  match s with
  | 99 :: ((115 :: r) as s') => Some (before, r)
  | c :: s => strstr_cs (Some c) s
  | [] => None
  end.

Definition cs_flag (flags : list Z) : bool :=
  match strstr_cs None flags with
  | Some (before, after) =>
      (match before with None => true | Some c => c =? 44 end) &&
      (match after with [] => true | c :: _ => c =? 44 end)
  | None => false
  end.

(** A line's mime type, glob, weight and flag; [None] is [continue]. *)
Definition parse_glob_line (version_two : bool) (line : list Z) : res (option (list Z * list Z * Z * bool)) :=
  match line with
  | [] | 35 :: _ | 0 :: _ => Ok None
  | _ =>
      let s := c_str line in
      let s := match last s with Some 10 => removelast s | _ => s end in
      hd ← (if version_two then
              match strchr s 58 with
              | None => Ok None
              | Some (w, p) => w ← atoi w; Ok (Some (w, p))
              end
            else Ok (Some (50, s)));
      match hd with
      | None => Ok None
      | Some (weight, p) =>
          match strchr p 58 with
          | None => Ok None
          | Some (mimetype, glob) =>
              if version_two then
                match strchr glob 58 with
                | None => Ok (Some (mimetype, glob, weight, false))
                | Some (glob, flags) =>
                    let flags := match strchr flags 58 with Some (f, _) => f | None => flags end in
                    Ok (Some (mimetype, glob, weight, cs_flag flags))
                end
              else Ok (Some (mimetype, glob, weight, false))
          end
      end
  end.

(** The glob is followed in the line buffer by its 0; a malformed glob that runs
    past it would read on in the buffer, which the model also counts as [UB]. *)
Fixpoint glob_read_loop (fuel : nat) (file : list Z) (version_two : bool) (h : XdgGlobHash) : res XdgGlobHash :=
  match fuel with
  | O => NoFuel
  | S fuel =>
      match fgets 255 file with
      | None => Ok h
      | Some (line, file) =>
          p ← parse_glob_line version_two line;
          match p with
          | None => glob_read_loop fuel file version_two h
          | Some (mimetype, glob, weight, cs) =>
              h ← _xdg_glob_hash_append_glob h (glob ++ [0]) mimetype weight cs;
              glob_read_loop fuel file version_two h
          end
      end
  end.

Definition _xdg_mime_glob_read_from_file (h : XdgGlobHash) (file : option (list Z)) (version_two : bool)
    : res XdgGlobHash :=
  match file with None => Ok h | Some f => glob_read_loop (S (length f)) f version_two h end.

(** ** Reference: the patterns of a trie

    [entries_at ns path] are the types the trie has for the suffix whose
    reversed text is [path], the first one first. *)

Record item := mk_item { i_mime : list Z; i_weight : Z; i_cs : bool }.

Definition own_item (n : XdgGlobHashNode) : list item :=
  match node_mime_type n with Some m => [mk_item m (node_weight n) (node_case_sensitive n)] | None => [] end.

(** The children of character 0 come first. *)
Fixpoint zero_items (ns : list XdgGlobHashNode) : list item :=
  match ns with
  | [] => []
  | n :: r => if character n =? 0 then own_item n ++ zero_items r else []
  end.

Definition node_items (n : XdgGlobHashNode) : list item := own_item n ++ zero_items (child n).

Fixpoint find_path (ns : list XdgGlobHashNode) (path : list Z) : option XdgGlobHashNode :=
  match path with
  | [] => None
  | [c] => find_char c ns
  | c :: path => match find_char c ns with Some n => find_path (child n) path | None => None end
  end.

Definition entries_at (ns : list XdgGlobHashNode) (path : list Z) : list item :=
  match find_path ns path with Some n => node_items n | None => [] end.

(** A new type for a suffix goes behind the first one; a known type is dropped. *)
Definition add_item (l : list item) (i : item) : list item :=
  match l with
  | [] => [i]
  | x :: r => if existsb (fun y => strcmp (i_mime y) (i_mime i) =? 0) l then l else x :: i :: r
  end.

(** Siblings: the nodes of character 0 and then increasing characters; a node
    of character 0 is a leaf with a type. *)
Definition sib_lt (a b : XdgGlobHashNode) : Prop :=
  character a < character b \/ (character a = 0 /\ character b = 0).

Fixpoint siblings_ok (ns : list XdgGlobHashNode) : Prop :=
  match ns with
  | [] => True
  | n :: r => 0 <= character n /\ (character n = 0 -> node_mime_type n ≠ None)
      /\ Forall (sib_lt n) r /\ siblings_ok r
  end.

Fixpoint wf_node (n : XdgGlobHashNode) : Prop :=
  match n with
  | Node _ m _ _ ch =>
      siblings_ok ch /\ (m = None -> Forall (fun x => character x ≠ 0) ch) /\
      (fix all (l : list XdgGlobHashNode) : Prop := match l with [] => True | x :: l => wf_node x /\ all l end) ch
  end.

Definition wf (ns : list XdgGlobHashNode) : Prop := siblings_ok ns /\ Forall wf_node ns.

Lemma wf_node_unfold n :
  wf_node n <-> wf (child n) /\ (node_mime_type n = None -> Forall (fun x => character x ≠ 0) (child n)).
Proof.
  destruct n as [c m w cs ch]. unfold wf. cbn.
  assert (E : forall l, (fix all (l : list XdgGlobHashNode) : Prop := match l with [] => True | x :: l => wf_node x /\ all l end) l <-> Forall wf_node l).
  { induction l as [|x l IH]; [split; [constructor|done]|]. rewrite Forall_cons, IH. done. }
  rewrite E. tauto.
Qed.

(** *** Finding and inserting a character *)

Lemma find_char_none c ns : Forall (fun n => character n ≠ c) ns -> find_char c ns = None.
Proof. induction 1 as [|n r Hn _ IH]; [done|]. cbn. rewrite Z.geb_leb. repeat zcase; try done; lia. Qed.

Lemma find_char_app c l1 x l2 :
  siblings_ok (l1 ++ x :: l2) -> 0 < c -> character x = c -> find_char c (l1 ++ x :: l2) = Some x.
Proof.
  intros HS Hc Hx. induction l1 as [|n l1 IH]; cbn [app find_char].
  - rewrite Z.geb_leb. subst c. by rewrite (proj2 (Z.leb_le _ _) (Z.le_refl _)), Z.eqb_refl.
  - destruct HS as (_ & _ & HF & HS). rewrite Forall_app, Forall_cons in HF. destruct HF as (_ & Hlt & _).
    unfold sib_lt in Hlt. rewrite Z.geb_leb, (proj2 (Z.leb_le _ _)) by lia.
    rewrite (proj2 (Z.eqb_neq _ _)) by lia. by apply IH.
Qed.

Lemma find_char_other c l1 x x' l2 : character x = character x' -> c ≠ character x ->
  find_char c (l1 ++ x' :: l2) = find_char c (l1 ++ x :: l2).
Proof.
  intros Hx Hc. induction l1 as [|n l1 IH]; cbn [app find_char].
  - rewrite <- Hx. destruct (c >=? character x); [|done]. rewrite (proj2 (Z.eqb_neq _ _)) by done. done.
  - by rewrite IH.
Qed.

(** What [locate] finds: the node of the character or a new one, in its place. *)
Lemma locate_spec c ns l1 x l2 :
  siblings_ok ns -> 0 < c -> locate c ns = (l1, x, l2) ->
  character x = c /\ siblings_ok (l1 ++ x :: l2) /\
  ((ns = l1 ++ x :: l2) \/
   (x = _xdg_glob_hash_node_new c /\ ns = l1 ++ l2 /\ Forall (fun n => character n ≠ c) ns)).
Proof.
  intros HS Hc. revert l1 x l2; induction ns as [|n r IH]; intros l1 x l2; cbn [locate].
  - intros [= <- <- <-]. split; [done|]. split; [cbn; split_and!; [lia|lia|constructor|done]|]. right. done.
  - destruct HS as (Hn & Hm & HF & HS). destruct (Z.ltb_spec c (character n)) as [Hlt|Hge].
    + intros [= <- <- <-]. split; [done|]. split.
      * cbn. split_and!; [lia|lia| |lia|done|done|done]. constructor; [left; cbn; lia|].
        eapply Forall_impl; [exact HF|]. unfold sib_lt. cbn. lia.
      * right. split_and!; [done|done|]. constructor; [lia|]. eapply Forall_impl; [exact HF|]. unfold sib_lt. cbn. lia.
    + destruct (Z.eqb_spec c (character n)) as [Heq|Hne].
      * intros [= <- <- <-]. split; [done|]. split; [|by left]. cbn. done.
      * destruct (locate c r) as [[l1' x'] l2'] eqn:E. intros [= <- <- <-].
        destruct (IH HS _ _ _ eq_refl) as (Hx & HS' & Hcase). split; [done|]. cbn [app siblings_ok].
        assert (Hnx : sib_lt n x') by (left; lia).
        split; [split_and!; try done|].
        -- destruct Hcase as [Hr|(_ & Hr & _)]; rewrite Hr in HF; rewrite ?Forall_app, ?Forall_cons in *; tauto.
        -- destruct Hcase as [->|(-> & -> & Hall)]; [by left|]. right. split_and!; [done|done|].
           constructor; [lia|done].
Qed.

Lemma siblings_replace l1 x x' l2 :
  character x' = character x -> 0 < character x -> siblings_ok (l1 ++ x :: l2) -> siblings_ok (l1 ++ x' :: l2).
Proof.
  intros Hc Hpos. induction l1 as [|n l1 IH]; cbn [app siblings_ok].
  - intros (H1 & H2 & H3 & H4). split_and!; [lia|lia| |done]. eapply Forall_impl; [exact H3|].
    unfold sib_lt. by rewrite Hc.
  - intros (H1 & H2 & H3 & H4). split_and!; [done|done| |by apply IH].
    rewrite Forall_app, Forall_cons in *. unfold sib_lt in *. rewrite Hc. done.
Qed.

(** *** Inserting a suffix *)

Lemma has_alternative_items m ns :
  has_alternative m ns = existsb (fun y => strcmp (i_mime y) m =? 0) (zero_items ns).
Proof.
  induction ns as [|n r IH]; [done|]. cbn. destruct (character n =? 0); [|done].
  unfold own_item. destruct (node_mime_type n) as [m'|]; [|done]. cbn. by destruct (strcmp m' m =? 0).
Qed.

Lemma zero_items_nonzero ns : Forall (fun x => character x ≠ 0) ns -> zero_items ns = [].
Proof. destruct 1 as [|n r Hn _]; [done|]. cbn. by rewrite (proj2 (Z.eqb_neq _ _) Hn). Qed.

Lemma set_mime_items n m w cs : wf_node n ->
  node_items (set_mime n m w cs) = add_item (node_items n) (mk_item m w cs).
Proof.
  intros [_ Hz]%wf_node_unfold. unfold set_mime, node_items.
  destruct (node_mime_type n) as [m'|] eqn:Em.
  - assert (Ho : own_item n = [mk_item m' (node_weight n) (node_case_sensitive n)]) by (unfold own_item; by rewrite Em).
    rewrite Ho. cbn [app add_item existsb i_mime]. rewrite <- has_alternative_items.
    destruct (strcmp m' m =? 0) eqn:E1; cbn; [by rewrite Ho|].
    destruct (has_alternative m (child n)) eqn:E2; cbn; [by rewrite Ho|]. unfold own_item. by cbn.
  - assert (Ho : own_item n = []) by (unfold own_item; by rewrite Em).
    rewrite Ho. cbn. rewrite zero_items_nonzero by auto. done.
Qed.

Lemma set_mime_wf n m w cs : wf_node n -> wf_node (set_mime n m w cs).
Proof.
  intros Hn. pose proof Hn as [[HS HF] Hz]%wf_node_unfold. unfold set_mime.
  destruct (node_mime_type n) as [m'|] eqn:Em.
  - destruct (_ && _); [|done]. apply wf_node_unfold. cbn [child node_mime_type]. split; [|done].
    split; [|constructor; [apply wf_node_unfold; cbn; split; [by split|done]|done]].
    cbn. split_and!; [lia|done| |done]. clear -HS. induction (child n) as [|x r IH]; [constructor|].
    destruct HS as (H1 & H2 & H3 & H4). constructor; [unfold sib_lt; cbn; lia|]. by apply IH.
  - apply wf_node_unfold. cbn. split; [by split|done].
Qed.

Lemma character_set_mime n m w cs : character (set_mime n m w cs) = character n.
Proof. unfold set_mime. destruct (node_mime_type n); [|done]. by destruct (_ && _). Qed.

Lemma wf_new c : wf_node (_xdg_glob_hash_node_new c).
Proof. apply wf_node_unfold. cbn. split; [by split|constructor]. Qed.

Lemma entries_at_cons c path ns : path ≠ [] ->
  entries_at ns (c :: path) = match find_char c ns with Some n => entries_at (child n) path | None => [] end.
Proof. destruct path; [done|]. intros _. unfold entries_at. cbn. by destruct (find_char c ns). Qed.

Lemma entries_at_one c ns :
  entries_at ns [c] = match find_char c ns with Some n => node_items n | None => [] end.
Proof. done. Qed.

(** Replacing the node of one character changes the patterns behind it only. *)
Lemma entries_at_replace ns l1 x x' l2 c :
  siblings_ok ns -> 0 < c -> locate c ns = (l1, x, l2) -> character x' = c ->
  siblings_ok (l1 ++ x' :: l2) /\
  find_char c (l1 ++ x' :: l2) = Some x' /\
  (forall d, d ≠ c -> find_char d (l1 ++ x' :: l2) = find_char d ns) /\
  zero_items (l1 ++ x' :: l2) = zero_items ns /\
  (find_char c ns = Some x \/ (find_char c ns = None /\ x = _xdg_glob_hash_node_new c)).
Proof.
  intros HS Hc HL Hx'. destruct (locate_spec c ns l1 x l2 HS Hc HL) as (Hx & HS' & Hcase).
  assert (HSx' : siblings_ok (l1 ++ x' :: l2)) by (apply (siblings_replace l1 x x' l2); [lia|lia|done]).
  split_and!; [done|by apply find_char_app| | |].
  - intros d Hd. rewrite (find_char_other d l1 x x' l2) by lia.
    destruct Hcase as [->|(-> & -> & _)]; [done|]. clear -HS' Hd.
    induction l1 as [|n l1 IH]; cbn [app find_char].
    + cbn. rewrite !Z.geb_leb. destruct (Z.leb_spec c d).
      * by rewrite (proj2 (Z.eqb_neq _ _) Hd).
      * destruct l2 as [|n r]; [done|]. destruct HS' as (_ & _ & HF & _). apply Forall_cons in HF as [Hlt _].
        unfold sib_lt in Hlt. cbn in Hlt |- *. rewrite Z.geb_leb. rewrite (proj2 (Z.leb_gt _ _)) by (cbn in *; lia). done.
    + destruct HS' as (_ & _ & _ & HS'). by rewrite IH.
  - assert (Hz : zero_items (l1 ++ x' :: l2) = zero_items (l1 ++ x :: l2)).
    { clear -Hx Hx' Hc. induction l1 as [|n l1 IH]; cbn [app zero_items]; [|by rewrite IH].
      rewrite !(proj2 (Z.eqb_neq _ _)) by lia. done. }
    rewrite Hz. destruct Hcase as [->|(-> & -> & _)]; [done|]. clear -HS' Hc.
    induction l1 as [|n l1 IH]; cbn [app zero_items].
    + cbn. rewrite (proj2 (Z.eqb_neq _ _)) by lia. destruct l2 as [|n r]; [done|].
      destruct HS' as (_ & _ & HF & _). apply Forall_cons in HF as [Hlt _]. unfold sib_lt in Hlt. cbn in *.
      by rewrite (proj2 (Z.eqb_neq _ _)) by lia.
    + destruct HS' as (_ & _ & _ & HS'). by rewrite IH.
  - destruct Hcase as [->|(-> & -> & Hall)].
    + left. by apply find_char_app.
    + right. split; [by apply find_char_none|done].
Qed.

(** Inserting a suffix adds its type to the patterns of that suffix and leaves
    the other patterns alone. *)
Lemma insert_ucs4_spec text m w cs : forall ns,
  wf ns -> text ≠ [] -> Forall (fun c => 0 < c) text ->
  exists ns', _xdg_glob_hash_insert_ucs4 (text ++ [0]) ns m w cs = Ok ns' /\ wf ns' /\
    zero_items ns' = zero_items ns /\
    (Forall (fun x => character x ≠ 0) ns -> Forall (fun x => character x ≠ 0) ns') /\
    (forall path, path ≠ [] -> Forall (fun c => 0 < c) path ->
       entries_at ns' path =
         if decide (path = text) then add_item (entries_at ns path) (mk_item m w cs) else entries_at ns path).
Proof.
  induction text as [|c text IH]; intros ns [HS HF] Hne Hpos; [done|]. clear Hne.
  apply Forall_cons in Hpos as [Hc Hpos]. cbn [app _xdg_glob_hash_insert_ucs4].
  destruct (locate c ns) as [[l1 x] l2] eqn:HL.
  destruct (locate_spec c ns l1 x l2 HS Hc HL) as (Hx & _ & Hcase).
  assert (Hwfx : wf_node x /\ Forall wf_node l1 /\ Forall wf_node l2).
  { destruct Hcase as [->|(-> & -> & _)]; rewrite ?Forall_app, ?Forall_cons in HF; [tauto|].
    split; [apply wf_new|tauto]. }
  destruct Hwfx as (Hwfx & Hl1 & Hl2).
  assert (Hzero : forall x', character x' = c -> Forall (fun x => character x ≠ 0) ns ->
    Forall (fun x => character x ≠ 0) (l1 ++ x' :: l2)).
  { intros x' Hc' Hall. destruct Hcase as [->|(_ & -> & _)]; rewrite ?Forall_app, ?Forall_cons in *;
      (split_and!; [tauto|lia|tauto]). }
  assert (Hentry : match find_char c ns with Some n => node_items n | None => [] end = node_items x /\
    forall p, match find_char c ns with Some n => entries_at (child n) p | None => [] end = entries_at (child x) p).
  { destruct (entries_at_replace ns l1 x x l2 c HS Hc HL Hx) as (_ & _ & _ & _ & [->|[-> ->]]); [done|].
    split; [done|]. intros [|d [|e p]]; done. }
  destruct Hentry as [Hitem Hsub].
  destruct text as [|t text].
  - cbn [app]. rewrite Z.eqb_refl. set (x' := set_mime x m w cs).
    assert (Hx' : character x' = c) by (unfold x'; by rewrite character_set_mime).
    destruct (entries_at_replace ns l1 x x' l2 c HS Hc HL Hx') as (HS' & Hfind & Hother & Hzi & _).
    eexists. split; [reflexivity|]. split_and!.
    + split; [done|]. apply Forall_app. split; [done|]. constructor; [by apply set_mime_wf|done].
    + done.
    + by apply Hzero.
    + intros [|d [|e p]] Hp Hpp; [done| |].
      * rewrite !entries_at_one. destruct (decide (d = c)) as [->|Hd].
        -- rewrite decide_True by done. rewrite Hfind, Hitem. unfold x'. by apply set_mime_items.
        -- rewrite decide_False by congruence. by rewrite Hother.
      * rewrite decide_False by congruence. rewrite !entries_at_cons by done.
        destruct (decide (d = c)) as [->|Hd]; [|by rewrite Hother].
        rewrite Hfind, Hsub. unfold x', set_mime. destruct (node_mime_type x); [|done].
        destruct (_ && _); [|done]. cbn [child]. apply Forall_cons in Hpp as [_ [He _]%Forall_cons].
        assert (Hz : forall q, find_char e (Node 0 (Some m) w cs [] :: q) = find_char e q).
        { intros q. cbn. rewrite Z.geb_leb, (proj2 (Z.leb_le _ _)) by lia. by rewrite (proj2 (Z.eqb_neq _ _)) by lia. }
        unfold entries_at. destruct p; cbn [find_path]; by rewrite Hz.
  - apply Forall_cons in Hpos as [Ht Hpos]. cbn [app]. rewrite (proj2 (Z.eqb_neq t 0)) by lia.
    pose proof Hwfx as [Hwfc Hmz]%wf_node_unfold.
    destruct (IH (child x) Hwfc) as (ch & Ech & Hwfch & Hzich & Hzch & Hch); [done|by constructor|].
    cbn [app] in Ech. rewrite Ech. cbn [mbind res_bind]. set (x' := set_child x ch).
    assert (Hx' : character x' = c) by (unfold x'; by cbn).
    destruct (entries_at_replace ns l1 x x' l2 c HS Hc HL Hx') as (HS' & Hfind & Hother & Hzi & _).
    eexists. split; [reflexivity|]. split_and!.
    + split; [done|]. apply Forall_app. split; [done|]. constructor; [|done].
      apply wf_node_unfold. cbn. split; [done|]. intros Hm. by apply Hzch, Hmz.
    + done.
    + by apply Hzero.
    + intros [|d p] Hp Hpp; [done|]. apply Forall_cons in Hpp as [Hd0 Hpp]. destruct (decide (d = c)) as [->|Hd].
      * destruct p as [|e p].
        -- rewrite decide_False by congruence. rewrite !entries_at_one, Hfind, Hitem.
           unfold node_items, own_item. cbn. by rewrite Hzich.
        -- apply Forall_cons in Hpp as [He Hpp]. rewrite !(entries_at_cons c (e :: p)) by done.
           rewrite Hfind, Hsub. cbn [child x' set_child]. rewrite Hch by (done || by constructor).
           destruct (decide (e :: p = t :: text)) as [->|Hne];
             [by rewrite decide_True|rewrite decide_False by congruence; done].
      * rewrite decide_False by congruence. destruct p as [|e p].
        -- rewrite !entries_at_one. by rewrite Hother.
        -- rewrite !entries_at_cons by done. by rewrite Hother.
Qed.

(** *** Lookup finds the longest suffix *)

Definition accept (cs_check : bool) (l : list item) : list MimeWeight :=
  (fun i => mk_mime_weight (i_mime i) (i_weight i)) <$> List.filter (fun i => cs_check || negb (i_cs i)) l.

Lemma accept_app cs l k : accept cs (l ++ k) = accept cs l ++ accept cs k.
Proof. unfold accept. by rewrite List.filter_app, fmap_app. Qed.

Lemma accept_own cs n : accept cs (own_item n) = match node_item cs n with Some i => [i] | None => [] end.
Proof. unfold own_item, node_item. destruct (node_mime_type n); [|done]. cbn. by destruct (_ || _). Qed.

Lemma alternatives_spec cs n ns : forall acc, zlen acc <= n ->
  alternatives cs n ns acc = take (Z.to_nat n) (acc ++ accept cs (zero_items ns)).
Proof.
  induction ns as [|x r IH]; intros acc Hn; cbn [alternatives zero_items].
  - cbn. rewrite app_nil_r, take_ge; [done|]. unfold zlen in Hn. lia.
  - destruct (Z.ltb_spec (zlen acc) n) as [Hlt|Hge]; cbn [andb].
    + destruct (character x =? 0).
      * rewrite accept_app, accept_own, app_assoc.
        destruct (node_item cs x); rewrite IH by (autorewrite with zlen; lia); [done|]. by rewrite app_nil_r.
      * cbn. rewrite app_nil_r, take_ge; [done|]. unfold zlen in Hn. lia.
    + rewrite take_app_le by (unfold zlen in *; lia). rewrite take_ge; [done|]. unfold zlen in Hn. lia.
Qed.

(** The result of the recursive search along a reversed name. *)
Fixpoint best (cs : bool) (n : Z) (ns : list XdgGlobHashNode) (path : list Z) : list MimeWeight :=
  match path with
  | [] => []
  | c :: path =>
      match find_char c ns with
      | None => []
      | Some x => match best cs n (child x) path with
                  | [] => take (Z.to_nat n) (accept cs (node_items x))
                  | r => r
                  end
      end
  end.

Lemma best_nil cs n path : best cs n [] path = [].
Proof. by destruct path. Qed.

(** The characters the code compares: the bytes, sign-extended. *)
Definition codes (name : list Z) : list Z := (fun b => u32 (i8 b)) <$> name.

Lemma lookup_best cs n name : 1 <= n -> forall len ns, (len <= length name)%nat -> len ≠ 0%nat \/ ns = [] ->
  _xdg_glob_hash_node_lookup_file_name ns name len cs n = Ok (best cs n ns (rev (take len (codes name)))).
Proof.
  intros Hn. induction len as [|len IH]; intros ns Hlen Hor.
  { destruct Hor as [Hz| ->]; done. }
  destruct ns as [|x0 r0]; [by rewrite best_nil|]. set (ns := x0 :: r0) in *.
  destruct (lookup_lt_is_Some_2 name len Hlen) as [b Hb].
  assert (Hrev : rev (take (S len) (codes name)) = u32 (i8 b) :: rev (take len (codes name))).
  { rewrite (take_S_r _ _ (u32 (i8 b))) by (unfold codes; by rewrite list_lookup_fmap, Hb). by rewrite rev_app_distr. }
  rewrite Hrev. change (_xdg_glob_hash_node_lookup_file_name ns name (S len) cs n)
    with (b ← or_ub (zlookup name (Z.of_nat len));
          match find_char (u32 (i8 b)) ns with
          | None => Ok []
          | Some node =>
              r ← (if (0 <? Z.of_nat len)
                   then _xdg_glob_hash_node_lookup_file_name (child node) name len cs n else Ok []);
              match r with
              | [] => Ok (alternatives cs n (child node) (match node_item cs node with Some i => [i] | None => [] end))
              | _ => Ok r
              end
          end).
  unfold zlookup. rewrite (proj2 (Z.leb_le _ _)) by lia. rewrite Nat2Z.id, Hb. cbn [or_ub mbind res_bind best].
  destruct (find_char (u32 (i8 b)) ns) as [x|]; [|done].
  assert (Hr : (if (0 <? Z.of_nat len) then _xdg_glob_hash_node_lookup_file_name (child x) name len cs n else Ok [])
    = Ok (best cs n (child x) (rev (take len (codes name))))).
  { destruct (Z.ltb_spec 0 (Z.of_nat len)); [apply IH; lia|]. by replace len with 0%nat by lia. }
  rewrite Hr. cbn [mbind res_bind]. destruct (best cs n (child x) _); [|done]. f_equal.
  rewrite <- accept_own, alternatives_spec, <- accept_app; [done|].
  rewrite accept_own. destruct (node_item cs x); autorewrite with zlen; lia.
Qed.

(** The first non-empty answer for the prefixes of a path, longest first. *)
Fixpoint longest {A} (f : list Z -> list A) (path : list Z) (k : nat) : list A :=
  match k with
  | O => []
  | S k => match f (take (S k) path) with [] => longest f path k | r => r end
  end.

Lemma longest_ext {A} (f g : list Z -> list A) path k :
  (k <= length path)%nat -> (forall q, q ≠ [] -> f q = g q) -> longest f path k = longest g path k.
Proof.
  intros Hk H. induction k as [|k IH]; [done|]. cbn [longest]. rewrite IH by lia.
  rewrite H; [done|]. destruct path; [cbn in Hk; lia|done].
Qed.

Lemma longest_cons {A} (f : list Z -> list A) c path k :
  longest f (c :: path) (S k) = match longest (fun q => f (c :: q)) path k with [] => f [c] | r => r end.
Proof.
  induction k as [|k IH]; [change (longest f (c :: path) 1) with (match f [c] with [] => [] | r => r end); cbn [longest]; destruct (f [c]); reflexivity|].
  change (longest f (c :: path) (S (S k)))
    with (match f (take (S (S k)) (c :: path)) with [] => longest f (c :: path) (S k) | r => r end).
  rewrite IH. cbn [longest]. change (take (S (S k)) (c :: path)) with (c :: take (S k) path).
  by destruct (f (c :: take (S k) path)).
Qed.

Lemma longest_nil {A} path k : longest (fun _ => @nil A) path k = [].
Proof. induction k; [done|]. cbn. done. Qed.

Lemma best_longest cs n path : forall ns,
  best cs n ns path = longest (fun p => take (Z.to_nat n) (accept cs (entries_at ns p))) path (length path).
Proof.
  induction path as [|c path IH]; intros ns; [done|]. cbn [best length]. rewrite longest_cons.
  rewrite entries_at_one.
  assert (E : longest (fun q => take (Z.to_nat n) (accept cs (entries_at ns (c :: q)))) path (length path)
    = longest (fun q => match find_char c ns with
        | Some x => take (Z.to_nat n) (accept cs (entries_at (child x) q)) | None => [] end) path (length path)).
  { apply longest_ext; [done|]. intros q Hq. rewrite entries_at_cons by done. by destruct (find_char c ns);
      [|destruct (Z.to_nat n)]. }
  rewrite E. destruct (find_char c ns) as [x|]; [by rewrite IH|]. rewrite longest_nil. by destruct (Z.to_nat n).
Qed.

(** The first non-empty answer for the suffixes of a text, longest first. *)
Fixpoint longest_suffix {A} (f : list Z -> list A) (s : list Z) : list A :=
  match s with
  | [] => []
  | _ :: r => match f s with [] => longest_suffix f r | x => x end
  end.

Lemma longest_rev {A} (f : list Z -> list A) s :
  longest (fun p => f (rev p)) (rev s) (length s) = longest_suffix f s.
Proof.
  induction s as [|c s IH]; [done|]. cbn [length longest longest_suffix].
  rewrite take_ge by (rewrite length_rev; done). rewrite rev_involutive.
  assert (E : forall k, (k <= length s)%nat -> longest (fun p => f (rev p)) (rev (c :: s)) k = longest (fun p => f (rev p)) (rev s) k).
  { induction k as [|k IHk]; intros Hk; [done|]. cbn [longest]. rewrite IHk by lia. cbn [rev].
    rewrite take_app_le by (rewrite length_rev; lia). done. }
  rewrite E by lia. by rewrite IH.
Qed.

(** ** The trie of a list of patterns *)

Record pattern := mk_pattern { p_text : list Z; p_item : item }.

(** Adding the suffix patterns in order, as UTF-8 text. *)
Fixpoint add_patterns (ps : list pattern) (ns : list XdgGlobHashNode) : res (list XdgGlobHashNode) :=
  match ps with
  | [] => Ok ns
  | p :: ps =>
      ns ← _xdg_glob_hash_insert_text ns (encode_all (p_text p) ++ [0]) (i_mime (p_item p)) (i_weight (p_item p))
             (i_cs (p_item p));
      add_patterns ps ns
  end.

Definition pattern_ok (p : pattern) : Prop := p_text p ≠ [] /\ chars (p_text p).

(** The types a list of patterns gives to a suffix. *)
Definition ref_items (ps : list pattern) (start : list item) (text : list Z) : list item :=
  foldl (fun acc p => if decide (p_text p = text) then add_item acc (p_item p) else acc) start ps.

Lemma add_patterns_spec ps : forall ns, Forall pattern_ok ps -> wf ns ->
  exists ns', add_patterns ps ns = Ok ns' /\ wf ns' /\
    forall path, path ≠ [] -> Forall (fun c => 0 < c) path ->
      entries_at ns' path = ref_items ps (entries_at ns path) (rev path).
Proof.
  induction ps as [|p ps IH]; intros ns Hps Hwf; [by exists ns|].
  apply Forall_cons in Hps as [[Hne Hch] Hps]. cbn [add_patterns]. unfold _xdg_glob_hash_insert_text.
  rewrite convert_ok by done. cbn [mbind res_bind]. rewrite reverse_ucs4_rev. cbn [mbind res_bind].
  destruct (insert_ucs4_spec (rev (p_text p)) (i_mime (p_item p)) (i_weight (p_item p)) (i_cs (p_item p)) ns Hwf)
    as (ns1 & E1 & Hwf1 & _ & _ & H1).
  { intros Hr. apply Hne. rewrite <- (rev_involutive (p_text p)), Hr. done. }
  { apply Forall_rev. eapply Forall_impl; [exact Hch|]. cbn. lia. }
  rewrite E1. cbn [mbind res_bind]. destruct (IH ns1 Hps Hwf1) as (ns2 & E2 & Hwf2 & H2).
  exists ns2. split_and!; [done|done|]. intros path Hp Hpos. rewrite H2, H1 by done.
  unfold ref_items. cbn [foldl]. f_equal.
  destruct (decide (path = rev (p_text p))) as [->|Hn].
  - rewrite rev_involutive, decide_True by done. by destruct (p_item p).
  - rewrite decide_False; [done|]. intros Ht. apply Hn. by rewrite Ht, rev_involutive.
Qed.

(** ** Theorems *)

Lemma code_byte b : 0 < b < 256 -> 0 < u32 (i8 b) /\ (u32 (i8 b) < 128 \/ 2 ^ 31 <= u32 (i8 b)).
Proof.
  intros Hb.
  pose (P b := (0 <? u32 (i8 b)) && ((u32 (i8 b) <? 128) || (2 ^ 31 <=? u32 (i8 b)))).
  assert (HP : P b = true) by (refine (byte_forall P 1 256 b _ ltac:(lia)); vm_compute; reflexivity).
  unfold P in HP. apply andb_prop in HP as [H1%Z.ltb_lt H2]. split; [done|].
  apply orb_prop in H2 as [H2%Z.ltb_lt|H2%Z.leb_le]; lia.
Qed.

Lemma codes_pos name : is_str name -> Forall (fun c => 0 < c) (codes name).
Proof. intros H. apply Forall_fmap. eapply Forall_impl; [exact H|]. intros b Hb. by apply code_byte. Qed.

Lemma longest_suffix_ext {A} (f g : list Z -> list A) (P : Z -> Prop) s :
  Forall P s -> (forall q, q ≠ [] -> Forall P q -> f q = g q) -> longest_suffix f s = longest_suffix g s.
Proof.
  intros HP H. induction s as [|c s IH]; [done|]. cbn [longest_suffix]. rewrite (H (c :: s)) by done.
  apply Forall_cons in HP as [_ HP]. by rewrite IH.
Qed.

(** Lookup in a trie, in terms of its patterns. *)
Lemma lookup_entries cs n name ns : 1 <= n -> name ≠ [] ->
  _xdg_glob_hash_node_lookup_file_name ns name (length name) cs n =
  Ok (longest_suffix (fun t => take (Z.to_nat n) (accept cs (entries_at ns (rev t)))) (codes name)).
Proof.
  intros Hn Hne. rewrite lookup_best; [|done|done|left; by destruct name].
  f_equal. assert (Hl : length name = length (codes name)) by (unfold codes; by rewrite length_fmap).
  rewrite Hl, firstn_all. rewrite best_longest, length_rev, <- longest_rev.
  apply longest_ext; [by rewrite length_rev|]. intros q _. by rewrite rev_involutive.
Qed.

Lemma entries_at_nil path : entries_at [] path = [].
Proof. by destruct path as [|c [|d path]]. Qed.

Definition lookup_ref (ps : list pattern) (cs : bool) (name : list Z) : list MimeWeight :=
  longest_suffix (fun t => take 10 (accept cs (ref_items ps [] t))) (codes name).

Lemma lookup_patterns ps ns cs name :
  Forall pattern_ok ps -> add_patterns ps [] = Ok ns -> is_str name -> name ≠ [] ->
  _xdg_glob_hash_node_lookup_file_name ns name (length name) cs 10 = Ok (lookup_ref ps cs name).
Proof.
  intros Hps E Hname Hne. destruct (add_patterns_spec ps [] Hps) as (ns' & E' & _ & H); [by split|].
  rewrite E' in E. injection E as ->. rewrite lookup_entries by done. f_equal.
  eapply longest_suffix_ext; [by apply codes_pos|]. intros q Hq Hpos.
  rewrite H; [by rewrite rev_involutive, entries_at_nil| |by apply Forall_rev].
  intros Hr. apply Hq. by rewrite <- (rev_involutive q), Hr.
Qed.

(** Suffix patterns.  Inserting any suffix patterns (UTF-8 texts of
    characters, none empty) into an empty trie succeeds, and a lookup of any
    non-empty name then returns exactly the types of the longest suffix of the
    name for which some pattern qualifies (at most ten, the first type first,
    each type once, case-sensitive patterns only when they are asked for); the
    search reads inside the name and ends. *)
Theorem glob_longest_suffix ps cs name :
  Forall pattern_ok ps -> is_str name -> name ≠ [] ->
  exists ns, add_patterns ps [] = Ok ns /\
    _xdg_glob_hash_node_lookup_file_name ns name (length name) cs 10 = Ok (lookup_ref ps cs name).
Proof.
  intros Hps Hname Hne. destruct (add_patterns_spec ps [] Hps) as (ns & E & _ & _); [by split|].
  exists ns. split; [done|]. by apply lookup_patterns.
Qed.

(** Patterns ".gz" (two types) and ".tar.gz". *)
Definition demo_patterns : list pattern :=
  [mk_pattern [46; 103; 122] (mk_item [120] 50 false); mk_pattern [46; 116; 97; 114; 46; 103; 122] (mk_item [121] 50 false);
   mk_pattern [46; 103; 122] (mk_item [122] 60 false)].

Lemma glob_longest_suffix_witness :
  exists ns, add_patterns demo_patterns [] = Ok ns /\
    _xdg_glob_hash_node_lookup_file_name ns [97; 46; 103; 122] 4 false 10
      = Ok [mk_mime_weight [120] 50; mk_mime_weight [122] 60].
Proof.
  apply (glob_longest_suffix demo_patterns false [97; 46; 103; 122]); [|repeat constructor; lia|done].
  repeat constructor; cbn; try lia; discriminate.
Defined.

(** Patterns with characters outside ASCII never match.  The trie holds the
    decoded characters of a pattern, the lookup compares the bytes of the name
    (sign-extended), so adding a pattern with a character from 128 on anywhere
    in the list of patterns changes no lookup, not even of a name that ends
    in the pattern's own UTF-8 text. *)
Theorem glob_non_ascii_ignored ps1 p ps2 cs name c :
  Forall pattern_ok (ps1 ++ p :: ps2) -> is_str name -> name ≠ [] -> c ∈ p_text p -> 128 <= c ->
  exists ns ns', add_patterns (ps1 ++ p :: ps2) [] = Ok ns /\ add_patterns (ps1 ++ ps2) [] = Ok ns' /\
    _xdg_glob_hash_node_lookup_file_name ns name (length name) cs 10 =
    _xdg_glob_hash_node_lookup_file_name ns' name (length name) cs 10.
Proof.
  intros Hps Hname Hne Hc Hbig.
  assert (Hps' : Forall pattern_ok (ps1 ++ ps2)) by (rewrite Forall_app, Forall_cons in *; tauto).
  destruct (add_patterns_spec _ [] Hps) as (ns & E & _ & _); [by split|].
  destruct (add_patterns_spec _ [] Hps') as (ns' & E' & _ & _); [by split|].
  exists ns, ns'. split_and!; [done|done|].
  rewrite (lookup_patterns _ _ _ _ Hps E), (lookup_patterns _ _ _ _ Hps' E') by done. f_equal.
  unfold lookup_ref. apply (longest_suffix_ext _ _ (fun c => c < 128 \/ 2 ^ 31 <= c)).
  - apply Forall_fmap. eapply Forall_impl; [exact Hname|]. intros b Hb. by apply code_byte.
  - intros q _ Hq. do 2 f_equal. unfold ref_items. rewrite !foldl_app. cbn [foldl].
    rewrite decide_False; [done|]. intros <-. rewrite Forall_forall in Hq. specialize (Hq c Hc).
    rewrite Forall_app, Forall_cons in Hps. destruct Hps as (_ & [_ Hch] & _).
    unfold chars in Hch. rewrite Forall_forall in Hch. specialize (Hch c Hc). cbn in Hch. lia.
Qed.

Lemma glob_non_ascii_ignored_witness :
  exists ns ns', add_patterns [mk_pattern [233] (mk_item [120] 50 false)] [] = Ok ns /\ add_patterns [] [] = Ok ns' /\
    _xdg_glob_hash_node_lookup_file_name ns [97; 195; 169] 3 true 10 =
    _xdg_glob_hash_node_lookup_file_name ns' [97; 195; 169] 3 true 10.
Proof.
  apply (glob_non_ascii_ignored [] (mk_pattern [233] (mk_item [120] 50 false)) [] true [97; 195; 169] 233);
    [repeat constructor; cbn; try lia; discriminate | repeat constructor; lia | done | left | lia].
Defined.

Section full.
Context (fnmatch : list Z -> list Z -> bool).
Context (sort_weights : list MimeWeight -> list MimeWeight).

Definition full_matches (l : list XdgGlobList) (name : list Z) : list MimeWeight :=
  (fun e => mk_mime_weight (mime_type e) (weight e)) <$> List.filter (fun e => fnmatch (data e) name) l.

Lemma full_loop_spec l name n : n <= 10 -> forall acc, zlen acc <= n ->
  full_loop fnmatch l name n acc = Ok (take (Z.to_nat n) (acc ++ full_matches l name)).
Proof.
  intros Hn. induction l as [|e l IH]; intros acc Hacc; cbn [full_loop full_matches List.filter].
  - cbn. rewrite app_nil_r, take_ge; [done|]. unfold zlen in Hacc. lia.
  - destruct (Z.ltb_spec (zlen acc) n).
    + unfold full_matches. cbn [List.filter]. destruct (fnmatch (data e) name); [|by apply IH].
      rewrite (proj2 (Z.ltb_lt _ _)) by lia. rewrite IH by (autorewrite with zlen; lia). cbn. by rewrite <- app_assoc.
    + f_equal. rewrite take_app_le by (unfold zlen in *; lia). rewrite take_ge; [done|]. unfold zlen in *. lia.
Qed.

Definition first_nonempty {A} (l k : list A) : list A := match l with [] => k | _ => l end.

(** What a lookup means: an exact literal, a case-insensitive literal, the
    longest suffix (first ignoring case, then respecting it), or the patterns
    that match, by descending weight. *)
Definition glob_ref (h : XdgGlobHash) (name : list Z) (n : Z) : list (list Z) :=
  let suffix cs s := longest_suffix (fun t => take 10 (accept cs (entries_at (simple_node h) (rev t)))) (codes s) in
  match List.find (fun e => strcmp (data e) name =? 0) (literal_list h) with
  | Some e => [mime_type e]
  | None =>
      match List.find (fun e => negb (case_sensitive e) && (strcmp (data e) (ascii_tolower name) =? 0)) (literal_list h) with
      | Some e => [mime_type e]
      | None =>
          take (Z.to_nat n) (mime <$> sort_weights
            (first_nonempty (suffix false (ascii_tolower name))
              (first_nonempty (suffix true name) (take (Z.to_nat n) (full_matches (full_list h) name)))))
      end
  end.

Lemma zlen_zero {A B} (l : list A) (a b : B) : (if zlen l =? 0 then a else b) = match l with [] => a | _ => b end.
Proof. destruct l; [done|]. rewrite zlen_cons. rewrite (proj2 (Z.eqb_neq _ _)); [done|]. pose proof (zlen_nonneg l). lia. Qed.

(** Looking up a file name.  For every glob hash, non-empty name and
    result array of one to ten entries, [_xdg_glob_hash_lookup_file_name]
    stays inside its arrays, ends, and returns what the reference says: an
    exact literal, then a literal regardless of case, then the types of the
    longest matching suffix, then those of the general patterns, at most as
    many as the array holds. *)
Theorem glob_lookup_correct (h : XdgGlobHash) name n :
  name ≠ [] -> 1 <= n <= 10 ->
  _xdg_glob_hash_lookup_file_name fnmatch sort_weights h name n = Ok (glob_ref h name n) /\
  zlen (glob_ref h name n) <= n.
Proof.
  intros Hne Hn. unfold _xdg_glob_hash_lookup_file_name, glob_ref. cbv zeta.
  destruct (List.find _ (literal_list h)); [split; [done|rewrite zlen_cons, zlen_nil; lia]|].
  destruct (List.find _ (literal_list h)); [split; [done|rewrite zlen_cons, zlen_nil; lia]|].
  assert (Hlow : length name = length (ascii_tolower name)) by (unfold ascii_tolower; by rewrite length_fmap).
  assert (Hne' : ascii_tolower name ≠ []) by (by destruct name).
  split.
  - rewrite Hlow at 1. rewrite !lookup_entries by (done || lia). change (Z.to_nat 10) with 10%nat.
    cbn [mbind res_bind]. rewrite zlen_zero.
    set (s1 := longest_suffix _ (codes (ascii_tolower name))).
    destruct s1 as [|x s1]; cbn [mbind res_bind first_nonempty]; rewrite zlen_zero; [|done].
    set (s2 := longest_suffix _ (codes name)).
    destruct s2 as [|y s2]; cbn [mbind res_bind first_nonempty]; [|done].
    rewrite full_loop_spec by (rewrite ?zlen_nil; lia). done.
  - unfold zlen. rewrite length_take. lia.
Qed.

End full.

(** An insertion sort by descending weight. *)
Fixpoint insert_weight (x : MimeWeight) (l : list MimeWeight) : list MimeWeight :=
  match l with [] => [x] | y :: l => if mw_weight y <? mw_weight x then x :: y :: l else y :: insert_weight x l end.
Definition sort_demo (l : list MimeWeight) : list MimeWeight := foldr insert_weight [] l.

Definition demo_hash : XdgGlobHash :=
  mk_glob_hash [mk_glob_list [97] [108] 50 false] [] [mk_glob_list [42; 91] [102] 50 false; mk_glob_list [42; 63] [103] 60 false].

Lemma glob_lookup_correct_witness :
  _xdg_glob_hash_lookup_file_name (fun _ _ => true) sort_demo demo_hash [98; 99] 2 = Ok [[103]; [102]] /\
  zlen [[103]; [102]] <= 2.
Proof. apply (glob_lookup_correct (fun _ _ => true) sort_demo demo_hash [98; 99] 2); [done | lia]. Defined.

(** Where a lookup or an insertion leaves its arrays.  Looking up the
    empty name in a hash that has suffix patterns (and no literal for it) reads
    the byte before the name; with room for more than ten results, an eleventh
    general pattern that matches is written past [mimes[10]]; and adding the
    pattern "*" reads past the end of the empty converted text. *)
Theorem glob_array_overruns fnmatch sort_weights ns es name n h m w cs :
  (ns ≠ [] -> _xdg_glob_hash_lookup_file_name fnmatch sort_weights (mk_glob_hash [] ns es) [] n = UB) /\
  (10 < n -> 10 < zlen es -> Forall (fun e => fnmatch (data e) name = true) es ->
     _xdg_glob_hash_lookup_file_name fnmatch sort_weights (mk_glob_hash [] [] es) name n = UB) /\
  _xdg_glob_hash_append_glob h [42; 0] m w cs = UB.
Proof.
  split_and!.
  - intros Hns. by destruct ns.
  - intros Hn Hes Hall. unfold _xdg_glob_hash_lookup_file_name. cbn [literal_list simple_node List.find full_list].
    assert (E : forall len s b k, _xdg_glob_hash_node_lookup_file_name [] s len b k = Ok []) by (by intros []).
    rewrite (E _ (ascii_tolower name)). cbn [mbind res_bind]. rewrite zlen_zero, E. cbn [mbind res_bind]. rewrite zlen_zero.
    assert (K : forall es acc, zlen acc <= 10 -> 10 < zlen acc + zlen es ->
      Forall (fun e => fnmatch (data e) name = true) es -> full_loop fnmatch es name n acc = UB).
    { clear es Hes Hall. induction es as [|e es IH]; intros acc Hacc Hlen Hall; [rewrite zlen_nil in Hlen; lia|].
      apply Forall_cons in Hall as [He Hall]. cbn [full_loop]. rewrite (proj2 (Z.ltb_lt _ _)) by lia. rewrite He.
      destruct (Z.ltb_spec (zlen acc) 10); [|done]. apply IH; autorewrite with zlen in *; try done; lia. }
    rewrite K; [done|rewrite zlen_nil; lia|rewrite zlen_nil; lia|done].
  - unfold _xdg_glob_hash_append_glob. change (_xdg_glob_determine_type [42; 0]) with (Ok XDG_GLOB_SIMPLE).
    cbn [mbind res_bind]. unfold _xdg_glob_hash_insert_text. cbn [drop].
    change (_xdg_convert_to_ucs4 [0]) with (Ok (@nil Z, 0)). cbn [mbind res_bind].
    change (_xdg_reverse_ucs4 [] 0) with (Ok (@nil Z)). cbn [mbind res_bind app _xdg_glob_hash_insert_ucs4].
    by destruct (locate 0 (simple_node h)) as [[? ?] ?].
Qed.

Lemma glob_array_overruns_witness :
  let ns := [Node 103 (Some [1]) 50 false []] in
  let es := replicate 11 (mk_glob_list [42; 42] [102] 50 false) in
  _xdg_glob_hash_lookup_file_name (fun _ _ => true) sort_demo (mk_glob_hash [] ns es) [] 1 = UB /\
  _xdg_glob_hash_lookup_file_name (fun _ _ => true) sort_demo (mk_glob_hash [] [] es) [97] 11 = UB /\
  _xdg_glob_hash_append_glob _xdg_glob_hash_new [42; 0] [109] 50 false = UB.
Proof.
  intros ns es.
  destruct (glob_array_overruns (fun _ _ => true) sort_demo ns es [97] 11 _xdg_glob_hash_new [109] 50 false) as (_ & H2 & H3).
  destruct (glob_array_overruns (fun _ _ => true) sort_demo ns es [97] 1 _xdg_glob_hash_new [109] 50 false) as (H1 & _ & _).
  split_and!; [by apply H1 | apply H2; [lia | vm_compute; reflexivity | by repeat constructor] | exact H3].
Defined.

(** The trie of a single pattern. *)
Fixpoint chain (text : list Z) (m : list Z) (w : Z) (cs : bool) : list XdgGlobHashNode :=
  match text with
  | [] => []
  | [c] => [Node c (Some m) w cs []]
  | c :: text => [Node c None 0 false (chain text m w cs)]
  end.

Lemma insert_chain text m w cs : text ≠ [] -> Forall (fun c => 0 < c) text ->
  _xdg_glob_hash_insert_ucs4 (text ++ [0]) [] m w cs = Ok (chain text m w cs).
Proof.
  induction text as [|c [|d text] IH]; intros Hne Hpos; [done|done|].
  apply Forall_cons in Hpos as [Hc Hpos]. specialize (IH ltac:(done) Hpos). cbn [app] in IH |- *.
  pose proof Hpos as [Hd _]%Forall_cons.
  change (_xdg_glob_hash_insert_ucs4 (c :: d :: text ++ [0]) [] m w cs) with
    (if d =? 0 then Ok [set_mime (_xdg_glob_hash_node_new c) m w cs]
     else ch ← _xdg_glob_hash_insert_ucs4 (d :: text ++ [0]) [] m w cs;
          Ok [set_child (_xdg_glob_hash_node_new c) ch]).
  rewrite (proj2 (Z.eqb_neq d 0)) by lia. by rewrite IH.
Qed.

Lemma chain_overflow m n_globs text mt w cs : forall depth p,
  text ≠ [] -> 1 <= n_globs -> length p = 25%nat -> (depth <= 25)%nat -> (25 < depth + length text)%nat ->
  get_simple_globs m n_globs (chain text mt w cs) depth (mk_gs [] p) = UB.
Proof.
  induction text as [|c text IH]; intros depth p Hne Hn Hp Hd Hlen; [done|].
  assert (Hnode : forall x, get_simple_globs m n_globs [x] depth (mk_gs [] p)
    = get_simple_globs_node m n_globs x depth (fun s => Ok (true, s)) (mk_gs [] p)) by done.
  assert (Hw : forall y, depth = 25%nat -> mem_write p (Z.of_nat depth) [Some y] = UB).
  { intros y ->. unfold mem_write, zlen. rewrite Hp. done. }
  assert (Hw' : forall y, (depth < 25)%nat -> exists p', mem_write p (Z.of_nat depth) [Some y] = Ok p' /\ length p' = 25%nat).
  { intros y Hlt. unfold mem_write, zlen. rewrite Hp, !(proj2 (Z.leb_le _ _)) by (cbn; lia). cbn [andb].
    eexists. split; [reflexivity|]. rewrite !length_app, length_take, length_drop. cbn. lia. }
  destruct text as [|d text].
  - cbn in Hlen. cbn [chain]. rewrite Hnode. cbn [get_simple_globs_node globs prefix character].
    rewrite zlen_nil, Z.geb_leb, (proj2 (Z.leb_gt _ _)) by lia. by rewrite Hw by lia.
  - change (chain (c :: d :: text) mt w cs) with [Node c None 0 false (chain (d :: text) mt w cs)]. rewrite Hnode.
    cbn [get_simple_globs_node globs prefix character child node_mime_type].
    rewrite zlen_nil, Z.geb_leb, (proj2 (Z.leb_gt _ _)) by lia.
    destruct (decide (depth = 25%nat)) as [->|Hne25]; [by rewrite Hw|].
    destruct (Hw' c ltac:(lia)) as (p' & -> & Hp'). cbn [mbind res_bind].
    assert (E : get_simple_globs m n_globs (chain (d :: text) mt w cs) (S depth) (mk_gs [] p') = UB)
      by (apply IH; cbn [length] in *; (done || lia)).
    destruct (chain (d :: text) mt w cs) as [|x [|y r]] eqn:Ech; [by destruct text| |by destruct text].
    change (get_simple_globs m n_globs [x] (S depth) (mk_gs [] p'))
      with (get_simple_globs_node m n_globs x (S depth) (fun s => Ok (true, s)) (mk_gs [] p')) in E.
    by rewrite E.
Qed.

(** Listing the suffixes of a type.  [_xdg_glob_hash_get_simple_globs]
    records the path to each node in an array of 25 characters without a check:
    with a single suffix pattern of 26 characters or more in the hash, whatever
    its type, any call that asks for at least one suffix writes past it. *)
Theorem simple_globs_prefix_overflow text mt w cs m n_globs :
  chars text -> (25 < length text)%nat -> 1 <= n_globs ->
  exists ns, _xdg_glob_hash_insert_text [] (encode_all text ++ [0]) mt w cs = Ok ns /\
    _xdg_glob_hash_get_simple_globs (mk_glob_hash [] ns []) m n_globs = UB.
Proof.
  intros Hch Hlen Hn.
  assert (Hne : rev text ≠ []) by (intros Hr; apply (f_equal length) in Hr; rewrite length_rev in Hr; cbn in Hr; lia).
  exists (chain (rev text) mt w cs). split.
  - unfold _xdg_glob_hash_insert_text. rewrite convert_ok by done. cbn [mbind res_bind].
    rewrite reverse_ucs4_rev. cbn [mbind res_bind]. apply insert_chain; [done|].
    apply Forall_rev. eapply Forall_impl; [exact Hch|]. cbn. lia.
  - unfold _xdg_glob_hash_get_simple_globs. cbn [simple_node].
    pose proof (chain_overflow m n_globs (rev text) mt w cs 0 (replicate 25 None) Hne Hn eq_refl) as E.
    rewrite length_rev in E. specialize (E ltac:(lia) ltac:(lia)).
    destruct (chain (rev text) mt w cs) eqn:Ech; [by destruct (rev text) as [|? [|? ?]]|]. by rewrite E.
Qed.

Lemma simple_globs_prefix_overflow_witness :
  exists ns, _xdg_glob_hash_insert_text [] (encode_all (replicate 26 97) ++ [0]) [109] 50 false = Ok ns /\
    _xdg_glob_hash_get_simple_globs (mk_glob_hash [] ns []) [120] 1 = UB.
Proof.
  apply (simple_globs_prefix_overflow (replicate 26 97) [109] 50 false [120] 1);
    [repeat constructor; lia | rewrite length_replicate; lia | lia].
Defined.

End XdgGlob.
