(* ===== verification/XdgMagic.v ===== *)
(** * Magic rules (third-party/xdgmime/src/xdgmimemagic.c)

    The parser reads a stream: the unread bytes of the file, [ungetc] puts one
    back.  A rule (match) has a priority, a type and a chain of matchlets whose
    [indent] fields spell a forest; chains linked by [next] are lists.  [int]
    and [unsigned int] arithmetic is written out; an access outside a buffer and
    an [int] overflow are [UB].  [malloc] is taken to succeed (of size 0 too, as
    in the GNU C library). *)
From Stdlib Require Import Sorted.
From S2P Require Import Prelude CLib.

#[local] Open Scope cfetch_scope.

Module XdgMagic.

Inductive XdgMimeMagicState :=
| XDG_MIME_MAGIC_SECTION | XDG_MIME_MAGIC_MAGIC | XDG_MIME_MAGIC_ERROR | XDG_MIME_MAGIC_EOF.

#[global] Instance state_eq_dec : EqDecision XdgMimeMagicState.
Proof. solve_decision. Defined.

Record XdgMimeMagicMatchlet := mk_matchlet {
  indent : Z;
  offset : Z;
  value_length : Z;
  value : list Z;
  mask : option (list Z);
  range_length : Z;
  word_size : Z
}.

(** [mime_type] is NULL until the header has been read. *)
Record XdgMimeMagicMatch := mk_match {
  mime_type : option (list Z);
  priority : Z;
  matchlet : list XdgMimeMagicMatchlet
}.

Record XdgMimeMagic := mk_magic { match_list : list XdgMimeMagicMatch; max_extent : Z }.

Definition _xdg_mime_magic_match_new : XdgMimeMagicMatch := mk_match None 0 [].
Definition _xdg_mime_magic_matchlet_new : XdgMimeMagicMatchlet := mk_matchlet 0 0 0 [] None 1 1.

(** ** The stream *)

Abbreviation stream := (list Z).
Abbreviation F := (ST stream).

(** [getc_unlocked]; [None] is EOF. *)
Definition getc : F (option Z) := fun s =>
  match s with [] => Ok (None, []) | c :: s => Ok (Some c, s) end.
Definition ungetc (c : Z) : F unit := fun s => Ok (tt, c :: s).
(** [fread] of [n] bytes; fewer are delivered at the end of the file. *)
Definition fread (n : Z) : F (list Z) := fun s => Ok (take (Z.to_nat n) s, drop (Z.to_nat n) s).

Definition isdigit (c : Z) : bool := (48 <=? c) && (c <=? 57).

(** ** Pieces of a line *)

(** The loop of [_xdg_mime_magic_read_to_newline]: [buf] in a block of [len]
    bytes; the flag is [*end_of_file]. *)
Fixpoint read_to_newline_loop (s : stream) (len : Z) (buf : list Z) : res (list Z * bool * stream) :=
  match s with
  | [] => if zlen buf <? len then Ok (buf, true, []) else UB
  | c :: s =>
      if (c =? 10) || (c =? 0) then (if zlen buf <? len then Ok (buf, false, s) else UB)
      else if zlen buf <? len then
        let buf := buf ++ [c] in
        read_to_newline_loop s (if zlen buf mod 128 =? 127 then len + 128 else len) buf
      else UB
  end.

Definition _xdg_mime_magic_read_to_newline : F (list Z * bool) := fun s =>
  '(buf, eof, s) ← read_to_newline_loop s 128 []; Ok ((buf, eof), s).

Definition MAX_NUMBER_SIZE : Z := 30.

(** The digits read, whether EOF was seen, and the rest of the stream. *)
Fixpoint read_digits (n : nat) (s : stream) : list Z * bool * stream :=
  match n with
  | O => ([], false, s)
  | S n =>
      match s with
      | [] => ([], true, [])
      | c :: r =>
          if isdigit c then let '(ds, eof, r') := read_digits n r in (c :: ds, eof, r')
          else ([], false, s)
      end
  end.

(** [strtol] of the digits. *)
Definition number_of (ds : list Z) : Z := foldl (fun a d => 10 * a + (d - 48)) 0 ds.

(** The number or -1; the flag is set when EOF was seen and left alone otherwise. *)
Definition _xdg_mime_magic_read_a_number : F (Z * bool) := fun s =>
  let '(ds, eof, s) := read_digits (Z.to_nat MAX_NUMBER_SIZE) s in
  let v := match ds with [] => -1 | _ => if number_of ds >? INT_MAX then -1 else number_of ds end in
  Ok ((v, eof), s).

(** ** Headers *)

Definition set_header (m : XdgMimeMagicMatch) (prio : Z) (mime : option (list Z)) : XdgMimeMagicMatch :=
  mk_match mime prio (matchlet m).

(** After the first character [c] of a header. *)
Definition parse_header_rest (m : XdgMimeMagicMatch) (c : Z) : F (XdgMimeMagicState * XdgMimeMagicMatch) :=
  if negb (c =? 91) then mret (XDG_MIME_MAGIC_ERROR, m)
  else
    '(prio, eof) ← _xdg_mime_magic_read_a_number;
    let m := set_header m prio (mime_type m) in
    if (eof : bool) then mret (XDG_MIME_MAGIC_EOF, m)
    else if prio =? -1 then mret (XDG_MIME_MAGIC_ERROR, m)
    else
      c ← getc;
      match c with
      | None => mret (XDG_MIME_MAGIC_EOF, m)
      | Some c =>
          if negb (c =? 58) then mret (XDG_MIME_MAGIC_ERROR, m)
          else
            '(buffer, eof) ← _xdg_mime_magic_read_to_newline;
            if (eof : bool) then mret (XDG_MIME_MAGIC_EOF, m)
            else
              match strchr buffer 93 with
              | None => mret (XDG_MIME_MAGIC_ERROR, m)
              | Some (mime, _) => mret (XDG_MIME_MAGIC_MAGIC, set_header m prio (Some mime))
              end
      end.

Definition _xdg_mime_magic_parse_header (m : XdgMimeMagicMatch) : F (XdgMimeMagicState * XdgMimeMagicMatch) :=
  c ← getc;
  match c with
  | None => mret (XDG_MIME_MAGIC_EOF, m)
  | Some c => parse_header_rest m c
  end.

Fixpoint parse_error_loop (s : stream) : XdgMimeMagicState * stream :=
  match s with
  | [] => (XDG_MIME_MAGIC_EOF, [])
  | c :: s => if c =? 10 then (XDG_MIME_MAGIC_SECTION, s) else parse_error_loop s
  end.

Definition _xdg_mime_magic_parse_error : F XdgMimeMagicState := fun s => Ok (parse_error_loop s).

(** ** Byte swapping (little-endian hosts)

    The loop reads the word at byte [i] of the block, but adds [i] to a pointer
    to words for the store, so it stores [word_size * i] bytes into the block. *)
Fixpoint swap_loop (fuel : nat) (ws : Z) (i : Z) (b : list Z) : res (list Z) :=
  match fuel with
  | O => NoFuel
  | S fuel =>
      if i <? zlen b then
        w ← mem_read b i ws;
        b' ← (if (ws * i + ws <=? zlen b)
              then Ok (take (Z.to_nat (ws * i)) b ++ rev w ++ drop (Z.to_nat (ws * i + ws)) b)
              else UB);
        swap_loop fuel ws (i + ws) b'
      else Ok b
  end.

(** Value and mask are swapped in the same loop, independently of each other. *)
Definition byte_swap (m : XdgMimeMagicMatchlet) : res XdgMimeMagicMatchlet :=
  v ← swap_loop (S (length (value m))) (word_size m) 0 (value m);
  k ← (match mask m with
       | Some k => k ← swap_loop (S (length k)) (word_size m) 0 k; Ok (Some k)
       | None => Ok None
       end);
  Ok (mk_matchlet (indent m) (offset m) (value_length m) v k (range_length m) (word_size m)).

(** ** Lines *)

Definition set_matchlets (m : XdgMimeMagicMatch) (l : list XdgMimeMagicMatchlet) : XdgMimeMagicMatch :=
  mk_match (mime_type m) (priority m) l.

(** The end of a line: [c] is the character after the last field. *)
Definition finish_line (m : XdgMimeMagicMatch) (ml : XdgMimeMagicMatchlet) (c : option Z)
    : F (XdgMimeMagicState * XdgMimeMagicMatch) :=
  match c with
  | None => mret (XDG_MIME_MAGIC_EOF, m)
  | Some c =>
      if c =? 10 then
        if word_size ml >? 1 then
          if negb (value_length ml mod word_size ml =? 0) then mret (XDG_MIME_MAGIC_ERROR, m)
          else
            ml ← st_lift (byte_swap ml);
            mret (XDG_MIME_MAGIC_MAGIC, set_matchlets m (ml :: matchlet m))
        else mret (XDG_MIME_MAGIC_MAGIC, set_matchlets m (ml :: matchlet m))
      else mret (XDG_MIME_MAGIC_ERROR, m)
  end.

(** [+range]: from the character before it. *)
Definition parse_range (m : XdgMimeMagicMatch) (ml : XdgMimeMagicMatchlet) (c : option Z)
    : F (XdgMimeMagicState * XdgMimeMagicMatch) :=
  if decide (c = Some 43) then
    '(r, eof) ← _xdg_mime_magic_read_a_number;
    if (eof : bool) then mret (XDG_MIME_MAGIC_EOF, m)
    else if u32 r =? u32 (-1) then mret (XDG_MIME_MAGIC_ERROR, m)
    else
      c ← getc;
      finish_line m (mk_matchlet (indent ml) (offset ml) (value_length ml) (value ml) (mask ml) (u32 r) (word_size ml)) c
  else finish_line m ml c.

(** [~word-size] *)
Definition parse_word_size (m : XdgMimeMagicMatch) (ml : XdgMimeMagicMatchlet) (c : option Z)
    : F (XdgMimeMagicState * XdgMimeMagicMatch) :=
  if decide (c = Some 126) then
    '(w, eof) ← _xdg_mime_magic_read_a_number;
    let w := u32 w in
    if (eof : bool) then mret (XDG_MIME_MAGIC_EOF, m)
    else if negb (w =? 0) && negb (w =? 1) && negb (w =? 2) && negb (w =? 4) then mret (XDG_MIME_MAGIC_ERROR, m)
    else
      c ← getc;
      parse_range m (mk_matchlet (indent ml) (offset ml) (value_length ml) (value ml) (mask ml) (range_length ml) w) c
  else parse_range m ml c.

(** [&mask] *)
Definition parse_mask (m : XdgMimeMagicMatch) (ml : XdgMimeMagicMatchlet) (c : option Z)
    : F (XdgMimeMagicState * XdgMimeMagicMatch) :=
  if decide (c = Some 38) then
    k ← fread (value_length ml);
    if negb (zlen k =? value_length ml) then mret (XDG_MIME_MAGIC_EOF, m)
    else
      c ← getc;
      parse_word_size m (mk_matchlet (indent ml) (offset ml) (value_length ml) (value ml) (Some k) (range_length ml) (word_size ml)) c
  else parse_word_size m ml c.

(** The value: two length bytes, then the bytes. *)
Definition parse_value (m : XdgMimeMagicMatch) (ind off : Z) : F (XdgMimeMagicState * XdgMimeMagicMatch) :=
  c ← getc;
  match c with
  | None => mret (XDG_MIME_MAGIC_EOF, m)
  | Some hi =>
      c ← getc;
      match c with
      | None => mret (XDG_MIME_MAGIC_EOF, m)
      | Some lo =>
          let vl := Z.shiftl (Z.land hi 255) 8 + Z.land lo 255 in
          v ← fread vl;
          if negb (zlen v =? vl) then mret (XDG_MIME_MAGIC_EOF, m)
          else
            c ← getc;
            parse_mask m (mk_matchlet ind off vl v None 1 1) c
      end
  end.

(** After the indent: [c] must be ['>']. *)
Definition parse_offset (m : XdgMimeMagicMatch) (ind : Z) (c : Z) : F (XdgMimeMagicState * XdgMimeMagicMatch) :=
  if negb (c =? 62) then mret (XDG_MIME_MAGIC_ERROR, m)
  else
    '(off, eof) ← _xdg_mime_magic_read_a_number;
    if (eof : bool) then mret (XDG_MIME_MAGIC_EOF, m)
    else if off =? -1 then mret (XDG_MIME_MAGIC_ERROR, m)
    else
      c ← getc;
      match c with
      | None => mret (XDG_MIME_MAGIC_EOF, m)
      | Some c => if negb (c =? 61) then mret (XDG_MIME_MAGIC_ERROR, m) else parse_value m ind off
      end.

(** A line that starts with the number of its indent. *)
Definition parse_indent (m : XdgMimeMagicMatch) : F (XdgMimeMagicState * XdgMimeMagicMatch) :=
  '(ind, eof) ← _xdg_mime_magic_read_a_number;
  if (eof : bool) then mret (XDG_MIME_MAGIC_EOF, m)
  else if ind =? -1 then mret (XDG_MIME_MAGIC_ERROR, m)
  else
    c ← getc;
    match c with
    | None => mret (XDG_MIME_MAGIC_EOF, m)
    | Some c => parse_offset m ind c
    end.

Definition _xdg_mime_magic_parse_magic_line (m : XdgMimeMagicMatch) : F (XdgMimeMagicState * XdgMimeMagicMatch) :=
  c ← getc;
  match c with
  | None => mret (XDG_MIME_MAGIC_EOF, m)
  | Some c =>
      if c =? 91 then ungetc c;; mret (XDG_MIME_MAGIC_SECTION, m)
      else if c =? 10 then mret (XDG_MIME_MAGIC_MAGIC, m)
      else if isdigit c then ungetc c;; parse_indent m
      else parse_offset m 0 c
  end.

(** ** Matching *)

(** The loop over [j]: the bytes of the value against the data at [i]. *)
Fixpoint compare_bytes (v : list Z) (k : option (list Z)) (data : list Z) (i : Z) : res bool :=
  match v with
  | [] => Ok true
  | x :: v =>
      d ← or_ub data.[i];
      match k with
      | None => if x =? d then compare_bytes v None data (i + 1) else Ok false
      | Some k =>
          match k with
          | [] => UB
          | y :: k => if Z.land x y =? Z.land d y then compare_bytes v (Some k) data (i + 1) else Ok false
          end
      end
  end.

(** The loop over [i]: comparisons are on [unsigned int] and [size_t]. *)
Fixpoint compare_loop (fuel : nat) (m : XdgMimeMagicMatchlet) (data : list Z) (len i : Z) : res bool :=
  match fuel with
  | O => NoFuel
  | S fuel =>
      if u32 i <? u32 (offset m + range_length m) then
        if u32 (i + value_length m) >? len then Ok false
        else
          ok ← compare_bytes (value m) (mask m) data i;
          if (ok : bool) then Ok true
          else if i =? INT_MAX then UB else compare_loop fuel m data len (i + 1)
      else Ok false
  end.

Definition _xdg_mime_magic_matchlet_compare_to_data (m : XdgMimeMagicMatchlet) (data : list Z) (len : Z) : res bool :=
  compare_loop (S (S (Z.to_nat len))) m data len (offset m).

(** [do matchlet = matchlet->next; while (matchlet && matchlet->indent > indent)] *)
Fixpoint skip_children (ms : list XdgMimeMagicMatchlet) (ind : Z) : list XdgMimeMagicMatchlet :=
  match ms with
  | [] => []
  | m :: r => if indent m >? ind then skip_children r ind else ms
  end.

Fixpoint _xdg_mime_magic_matchlet_compare_level (fuel : nat) (ms : list XdgMimeMagicMatchlet) (data : list Z)
    (len ind : Z) : res bool :=
  match fuel with
  | O => NoFuel
  | S fuel =>
      match ms with
      | [] => Ok false
      | m :: r =>
          if negb (indent m =? ind) then Ok false
          else
            ok ← _xdg_mime_magic_matchlet_compare_to_data m data len;
            found ← (if (ok : bool) then
                       match r with
                       | [] => Ok true
                       | n :: _ =>
                           if indent n <=? ind then Ok true
                           else _xdg_mime_magic_matchlet_compare_level fuel r data len (ind + 1)
                       end
                     else Ok false);
            if (found : bool) then Ok true
            else _xdg_mime_magic_matchlet_compare_level fuel (skip_children r ind) data len ind
      end
  end.

Definition _xdg_mime_magic_match_compare_to_data (m : XdgMimeMagicMatch) (data : list Z) (len : Z) : res bool :=
  _xdg_mime_magic_matchlet_compare_level (S (length (matchlet m))) (matchlet m) data len 0.

(** ** The list of rules *)

Fixpoint insert_after (m : XdgMimeMagicMatch) (l : list XdgMimeMagicMatch) : list XdgMimeMagicMatch :=
  match l with
  | [] => [m]
  | x :: l => if priority x <? priority m then m :: x :: l else x :: insert_after m l
  end.

Definition _xdg_mime_magic_insert_match (g : XdgMimeMagic) (m : XdgMimeMagicMatch) : XdgMimeMagic :=
  match match_list g with
  | [] => mk_magic [m] (max_extent g)
  | h :: t =>
      if priority m >? priority h then mk_magic (m :: h :: t) (max_extent g)
      else mk_magic (h :: insert_after m t) (max_extent g)
  end.

Definition _xdg_mime_magic_new : XdgMimeMagic := mk_magic [] 0.

Definition _xdg_mime_magic_get_buffer_extents (g : XdgMimeMagic) : Z := max_extent g.

Section lookup.
(** [_xdg_mime_mime_type_equal] of xdgmime.c. *)
Context (mime_type_equal : list Z -> option (list Z) -> bool).

(** [mime_types[n] = NULL] for the candidates equal to a type that did not match. *)
Definition strike (mt : option (list Z)) (mimes : list (option (list Z))) : list (option (list Z)) :=
  (fun o => match o with Some m => if mime_type_equal m mt then None else o | None => None end) <$> mimes.

Fixpoint lookup_loop (l : list XdgMimeMagicMatch) (data : list Z) (len : Z) (mimes : list (option (list Z)))
    : res (option (option (list Z) * Z) * list (option (list Z))) :=
  match l with
  | [] => Ok (None, mimes)
  | m :: l =>
      ok ← _xdg_mime_magic_match_compare_to_data m data len;
      if (ok : bool) then Ok (Some (mime_type m, priority m), mimes)
      else lookup_loop l data len (strike (mime_type m) mimes)
  end.

(** The type, its priority ([*result_prio]) and the candidates that are left. *)
Definition _xdg_mime_magic_lookup_data (g : XdgMimeMagic) (data : list Z) (len : Z) (mimes : list (option (list Z)))
    : res (option (list Z) * Z * list (option (list Z))) :=
  '(hit, mimes) ← lookup_loop (match_list g) data len mimes;
  let '(mt, prio) := match hit with Some (mt, prio) => (mt, prio) | None => (None, 0) end in
  let mt := match mt with
            | Some _ => mt
            | None => foldl (fun a o => match o with Some m => Some m | None => a end) None mimes
            end in
  Ok (mt, prio, mimes).
End lookup.

Definition _xdg_mime_update_mime_magic_extents (g : XdgMimeMagic) : XdgMimeMagic :=
  let extent m := i32 (u32 (value_length m + offset m + range_length m)) in
  mk_magic (match_list g)
    (foldl (fun a mt => foldl (fun a m => if a <? extent m then extent m else a) a (matchlet mt)) 0 (match_list g)).

(** Reversal by relinking. *)
Fixpoint mirror_loop (tmp new_list : list XdgMimeMagicMatchlet) : list XdgMimeMagicMatchlet :=
  match tmp with [] => new_list | m :: tmp => mirror_loop tmp (m :: new_list) end.

Definition _xdg_mime_magic_matchlet_mirror (l : list XdgMimeMagicMatchlet) : list XdgMimeMagicMatchlet :=
  match l with [] | [_] => l | _ => mirror_loop l [] end.

(** ** The file *)

Fixpoint read_loop (fuel : nat) (st : XdgMimeMagicState) (m : XdgMimeMagicMatch) (g : XdgMimeMagic) (s : stream)
    : res XdgMimeMagic :=
  match fuel with
  | O => NoFuel
  | S fuel =>
      match st with
      | XDG_MIME_MAGIC_EOF => Ok g
      | XDG_MIME_MAGIC_SECTION =>
          '((st, m), s) ← _xdg_mime_magic_parse_header _xdg_mime_magic_match_new s;
          read_loop fuel st m g s
      | XDG_MIME_MAGIC_MAGIC =>
          '((st, m), s) ← _xdg_mime_magic_parse_magic_line m s;
          if bool_decide (st = XDG_MIME_MAGIC_SECTION) || (bool_decide (st = XDG_MIME_MAGIC_EOF) && bool_decide (is_Some (mime_type m)))
          then read_loop fuel st m (_xdg_mime_magic_insert_match g
                 (set_matchlets m (_xdg_mime_magic_matchlet_mirror (matchlet m)))) s
          else read_loop fuel st m g s
      | XDG_MIME_MAGIC_ERROR =>
          '(st, s) ← _xdg_mime_magic_parse_error s;
          read_loop fuel st m g s
      end
  end.

Definition _xdg_mime_magic_read_magic_file (g : XdgMimeMagic) (s : stream) : res XdgMimeMagic :=
  g ← read_loop (2 * length s + 3) XDG_MIME_MAGIC_SECTION _xdg_mime_magic_match_new g s;
  Ok (_xdg_mime_update_mime_magic_extents g).

(** "MIME-Magic\0\n" *)
Definition magic_header : list Z := [77; 73; 77; 69; 45; 77; 97; 103; 105; 99; 0; 10].

Definition _xdg_mime_magic_read_from_file (g : XdgMimeMagic) (file : option (list Z)) : res XdgMimeMagic :=
  match file with
  | None => Ok g
  | Some f =>
      if decide (take 12 f = magic_header) then _xdg_mime_magic_read_magic_file g (drop 12 f) else Ok g
  end.

(** ** Reading always ends

    [good b m P]: the step [m] ends without crashing and leaves no more of the
    stream than it was given; on a stream without a tilde (when [b] is true) it
    has no undefined behaviour either, leaves such a stream, and its result
    satisfies [P].  (The tilde introduces a word size, and only words longer
    than a byte are swapped.) *)
Definition good {A} (b : bool) (m : F A) (P : A -> Prop) : Prop := forall s,
  (b = true -> 126 ∉ s) ->
  match m s with
  | Ok (a, s') => (length s' <= length s)%nat /\ (b = true -> (126 ∉ s') /\ P a)
  | UB => b = false
  | _ => False
  end.

Lemma good_ret {A} b (a : A) (P : A -> Prop) : (b = true -> P a) -> good b (mret a) P.
Proof. intros HP s Hs. cbn. auto. Qed.

Lemma good_bind {A B} b (m : F A) (k : A -> F B) (P : A -> Prop) (Q : B -> Prop) :
  good b m P -> (forall a, (b = true -> P a) -> good b (k a) Q) -> good b (m ≫= k) Q.
Proof.
  intros Hm Hk s Hs. specialize (Hm s Hs). unfold mbind, ST_bind. destruct (m s) as [[a s1]| | |]; try done.
  destruct Hm as [Hl Ha]. specialize (Hk a (fun H => proj2 (Ha H)) s1 (fun H => proj1 (Ha H))).
  destruct (k a s1) as [[x s2]| | |]; try done. destruct Hk as [Hl2 Hx]. split; [lia|done].
Qed.

Lemma good_weaken {A} b (m : F A) (P Q : A -> Prop) : good b m P -> (forall a, P a -> Q a) -> good b m Q.
Proof.
  intros Hm HPQ s Hs. specialize (Hm s Hs). destruct (m s) as [[a s1]| | |]; try done.
  destruct Hm as [Hl Ha]. split; [done|]. intros H. destruct (Ha H). auto.
Qed.

Lemma good_getc b : good b getc (fun c => c ≠ Some 126).
Proof.
  intros [|c s] Hs; cbn.
  - split; [done|]. intros H. split; [apply not_elem_of_nil|done].
  - split; [lia|]. intros H. specialize (Hs H). apply not_elem_of_cons in Hs as [Hc Hs]. split; [done|congruence].
Qed.

Lemma good_fread b n : good b (fread n) (fun _ => True).
Proof.
  intros s Hs. cbn. split; [rewrite length_drop; lia|]. intros H. split; [|done]. intros Hin. apply (Hs H).
  rewrite <- (take_drop (Z.to_nat n) s). apply elem_of_app. by right.
Qed.

Lemma read_digits_suffix n : forall s, exists p, s = p ++ snd (read_digits n s) /\
  (match s with c :: _ => isdigit c = true -> n ≠ O -> p ≠ [] | [] => True end).
Proof.
  induction n as [|n IH]; intros [|c s]; cbn; try by exists [].
  destruct (isdigit c); [|by exists []]. destruct (IH s) as (p & Hp & _).
  destruct (read_digits n s) as [[ds eof] r]. exists (c :: p). cbn in *. by rewrite <- Hp.
Qed.

Lemma good_number b : good b _xdg_mime_magic_read_a_number (fun _ => True).
Proof.
  intros s Hs. unfold _xdg_mime_magic_read_a_number.
  destruct (read_digits_suffix (Z.to_nat MAX_NUMBER_SIZE) s) as (p & Hp & _).
  destruct (read_digits _ s) as [[ds eof] r]. cbn in *. subst s. rewrite length_app.
  split; [lia|]. intros H. split; [|done]. specialize (Hs H). rewrite not_elem_of_app in Hs. tauto.
Qed.

(** The buffer of a line is always large enough. *)
Lemma read_to_newline_loop_ok s : forall k buf, zlen buf <= 128 * k - 2 ->
  exists buf' eof p s', read_to_newline_loop s (128 * k) buf = Ok (buf', eof, s') /\ s = p ++ s'.
Proof.
  induction s as [|c s IH]; intros k buf Hlt; cbn [read_to_newline_loop];
    rewrite (proj2 (Z.ltb_lt _ _)) by lia; [by exists buf, true, [], []|].
  destruct (_ || _); [by exists buf, false, [c], s|].
  assert (Hgo : exists k', (if zlen (buf ++ [c]) mod 128 =? 127 then 128 * k + 128 else 128 * k) = 128 * k'
    /\ zlen (buf ++ [c]) <= 128 * k' - 2).
  { autorewrite with zlen. destruct (Z.eqb_spec ((zlen buf + (1 + 0)) mod 128) 127) as [Hm|Hm]; [exists (k + 1)|exists k].
    - split; lia.
    - split; [done|]. destruct (Z.eq_dec (zlen buf) (128 * k - 2)) as [He|]; [|lia]. exfalso. apply Hm.
      rewrite He. replace (128 * k - 2 + (1 + 0)) with (127 + (k - 1) * 128) by lia. by rewrite Z_mod_plus_full. }
  destruct Hgo as (k' & -> & Hk'). destruct (IH k' (buf ++ [c]) Hk') as (b & e & p & s' & E & ->).
  by exists b, e, (c :: p), s'.
Qed.

Lemma good_to_newline b : good b _xdg_mime_magic_read_to_newline (fun _ => True).
Proof.
  intros s Hs. unfold _xdg_mime_magic_read_to_newline.
  destruct (read_to_newline_loop_ok s 1 []) as (x & e & p & s' & E & ->); [rewrite zlen_nil; lia|].
  change (128 * 1) with 128 in E. rewrite E. cbn. rewrite length_app. split; [lia|]. intros H. split; [|done].
  specialize (Hs H). rewrite not_elem_of_app in Hs. tauto.
Qed.

Lemma swap_loop_ends ws : 0 < ws -> forall fuel i b, 0 <= i -> (0 < fuel)%nat -> zlen b - i < Z.of_nat fuel ->
  match swap_loop fuel ws i b with NoFuel | Crash => False | _ => True end.
Proof.
  intros Hws. induction fuel as [|fuel IH]; intros i b Hi Hf Hm; cbn [swap_loop]; [lia|].
  destruct (Z.ltb_spec i (zlen b)) as [Hlt|]; [|done].
  destruct (mem_read b i ws) as [w| | |] eqn:Ew; cbn [mbind res_bind]; try done.
  2,3: unfold mem_read in Ew; by destruct (_ && _).
  destruct (Z.leb_spec (ws * i + ws) (zlen b)) as [Hle|]; [|done]. cbn [mbind res_bind].
  assert (Hw : zlen w = ws).
  { unfold mem_read in Ew. destruct (_ && _) eqn:Ec; [|done]. injection Ew as <-. zb.
    unfold zlen in *. rewrite length_take, length_drop. lia. }
  assert (Hb : zlen (take (Z.to_nat (ws * i)) b ++ rev w ++ drop (Z.to_nat (ws * i + ws)) b) = zlen b).
  { unfold zlen in *. rewrite !length_app, length_take, length_rev, length_drop. nia. }
  apply IH; rewrite ?Hb; lia.
Qed.

Lemma byte_swap_ends m : 0 < word_size m -> match byte_swap m with NoFuel | Crash => False | _ => True end.
Proof.
  intros Hws. unfold byte_swap.
  assert (K : forall b, match swap_loop (S (length b)) (word_size m) 0 b with NoFuel | Crash => False | _ => True end)
    by (intros b; apply swap_loop_ends; unfold zlen; lia).
  pose proof (K (value m)). destruct (swap_loop _ _ 0 (value m)); cbn [mbind res_bind]; try done.
  destruct (mask m) as [k|]; [|done]. pose proof (K k). by destruct (swap_loop _ _ 0 k).
Qed.

(** Automation for the parser's steps. *)
Create HintDb magic discriminated.
#[local] Hint Resolve good_getc good_fread good_number good_to_newline : magic.

Abbreviation any := (fun _ => True).

Ltac steps :=
  repeat match goal with
  | |- good _ (mbind _ _) _ => eapply good_bind; [solve [eauto with magic]|let x := fresh "x" in intros x ?; try destruct x as [? ?]]
  | |- good _ (mret _) _ => apply good_ret; done
  | |- good _ (match ?x with _ => _ end) _ => destruct x eqn:?
  | |- good _ _ _ => solve [eauto with magic]
  end.

Lemma good_finish b m ml c : (b = true -> word_size ml <= 1) -> good b (finish_line m ml c) any.
Proof.
  intros Hw. unfold finish_line. destruct c as [c|]; [|steps]. destruct (c =? 10); [|steps].
  destruct (word_size ml >? 1) eqn:E; [|steps]. destruct (negb _); [steps|]. zb.
  eapply (good_bind b _ _ any); [|intros; steps].
  intros s Hs. unfold st_lift. pose proof (byte_swap_ends ml ltac:(lia)).
  destruct b; [specialize (Hw eq_refl); lia|]. by destruct (byte_swap ml).
Qed.

Lemma good_range b m ml c : (b = true -> word_size ml <= 1) -> good b (parse_range m ml c) any.
Proof.
  intros Hw. unfold parse_range. case_decide; [|by apply good_finish]. steps. by apply good_finish.
Qed.

Lemma good_word_size b m ml c :
  (b = true -> word_size ml <= 1 /\ c ≠ Some 126) -> good b (parse_word_size m ml c) any.
Proof.
  intros Hw. unfold parse_word_size. case_decide as Hc.
  - steps. apply good_range. intros Hb. by destruct (Hw Hb).
  - apply good_range. intros Hb. by destruct (Hw Hb).
Qed.

Lemma good_mask b m ml c :
  (b = true -> word_size ml <= 1 /\ c ≠ Some 126) -> good b (parse_mask m ml c) any.
Proof.
  intros Hw. unfold parse_mask. case_decide as Hc; [|by apply good_word_size].
  steps. apply good_word_size. intros Hb. destruct (Hw Hb). auto.
Qed.

Lemma good_value b m i o : good b (parse_value m i o) any.
Proof. unfold parse_value. cbv zeta. steps. apply good_mask. intros Hb. cbn. split; [lia|auto]. Qed.
#[local] Hint Resolve good_value : magic.

Lemma good_offset b m i c : good b (parse_offset m i c) any.
Proof. unfold parse_offset. steps. Qed.
#[local] Hint Resolve good_offset : magic.

(** *** Progress *)

(** The next state's measure: what the loop still has to do at most. *)
Definition measure (st : XdgMimeMagicState) (s : stream) : nat :=
  match st with
  | XDG_MIME_MAGIC_EOF => 1
  | XDG_MIME_MAGIC_MAGIC => 2 * length s + 3
  | _ => 2 * length s + 2
  end.

(** A step of the reader from state [st0]: it ends, makes progress, and has
    undefined behaviour at most when a tilde was there. *)
Definition progress {A} (b : bool) (st0 : XdgMimeMagicState) (s : stream)
    (r : res (A * stream)) (st : A -> XdgMimeMagicState) : Prop :=
  match r with
  | Ok (a, s') => (measure (st a) s' < measure st0 s)%nat /\ (b = true -> 126 ∉ s')
  | UB => b = false
  | _ => False
  end.

Lemma good_progress_at {A} b (m : F A) P c s s1 st0 st :
  good b m P -> (b = true -> 126 ∉ s1) -> (length s1 <= length s)%nat -> st0 ≠ XDG_MIME_MAGIC_EOF ->
  progress b st0 (c :: s) (m s1) st.
Proof.
  intros Hm Hs Hl Hst. specialize (Hm s1 Hs). unfold progress.
  destruct (m s1) as [[a s2]| | |]; try done. destruct Hm as [Hl2 Ha].
  split; [|intros Hb; by destruct (Ha Hb)]. unfold measure. cbn [length]. destruct st0, (st a); try done; lia.
Qed.

Lemma good_progress {A} b (m : F A) P c s st0 st :
  good b m P -> (b = true -> 126 ∉ c :: s) -> st0 ≠ XDG_MIME_MAGIC_EOF -> progress b st0 (c :: s) (m s) st.
Proof.
  intros Hm Hs Hst. eapply good_progress_at; [done| |lia|done].
  intros Hb. specialize (Hs Hb). rewrite not_elem_of_cons in Hs. tauto.
Qed.

Lemma good_header_rest b m c : good b (parse_header_rest m c) any.
Proof. unfold parse_header_rest. steps. Qed.

Lemma header_progress b m s : (b = true -> 126 ∉ s) ->
  progress b XDG_MIME_MAGIC_SECTION s (_xdg_mime_magic_parse_header m s) fst.
Proof.
  intros Hs. destruct s as [|c s]; [split; [cbn; lia|done]|].
  change (_xdg_mime_magic_parse_header m (c :: s)) with (parse_header_rest m c s).
  eapply good_progress; [apply good_header_rest|done|done].
Qed.

Lemma error_progress b s : (b = true -> 126 ∉ s) ->
  progress b XDG_MIME_MAGIC_ERROR s (_xdg_mime_magic_parse_error s) id.
Proof.
  intros Hs. unfold _xdg_mime_magic_parse_error, progress.
  assert (K : forall s, let '(st, s') := parse_error_loop s in exists p, s = p ++ s' /\ (st = XDG_MIME_MAGIC_EOF \/ p ≠ [])
    /\ (st = XDG_MIME_MAGIC_EOF \/ st = XDG_MIME_MAGIC_SECTION)).
  { clear. induction s as [|c s IH]; cbn; [exists []; auto|]. destruct (c =? 10); [exists [c]; auto|].
    destruct (parse_error_loop s) as [st s']. destruct IH as (p & -> & _ & H). exists (c :: p). auto. }
  specialize (K s). destruct (parse_error_loop s) as [st s']. destruct K as (p & -> & Hp & Hst).
  split; [|intros Hb; specialize (Hs Hb); rewrite not_elem_of_app in Hs; tauto].
  unfold measure. rewrite length_app. destruct Hst as [->| ->]; cbn; [lia|].
  destruct Hp as [|Hp]; [done|]. destruct p; [done|]. cbn. lia.
Qed.

Lemma line_progress b m s : (b = true -> 126 ∉ s) ->
  progress b XDG_MIME_MAGIC_MAGIC s (_xdg_mime_magic_parse_magic_line m s) fst.
Proof.
  intros Hs. destruct s as [|c s]; [split; [cbn; lia|done]|].
  change (_xdg_mime_magic_parse_magic_line m (c :: s)) with
    ((if c =? 91 then ungetc c;; mret (XDG_MIME_MAGIC_SECTION, m)
      else if c =? 10 then mret (XDG_MIME_MAGIC_MAGIC, m)
      else if isdigit c then ungetc c;; parse_indent m
      else parse_offset m 0 c) s).
  destruct (Z.eqb_spec c 91); [split; [cbn; lia|done]|].
  destruct (Z.eqb_spec c 10).
  { split; [cbn; lia|]. intros Hb. specialize (Hs Hb). rewrite not_elem_of_cons in Hs. tauto. }
  destruct (isdigit c) eqn:Ed; [|eapply good_progress; [apply good_offset|done|done]].
  change ((ungetc c;; parse_indent m) s) with (parse_indent m (c :: s)). unfold parse_indent.
  assert (En : exists v eof s1, _xdg_mime_magic_read_a_number (c :: s) = Ok ((v, eof), s1)
    /\ (length s1 <= length s)%nat /\ (b = true -> 126 ∉ s1)).
  { unfold _xdg_mime_magic_read_a_number.
    destruct (read_digits_suffix (Z.to_nat MAX_NUMBER_SIZE) (c :: s)) as (p & Hp & Hne).
    destruct (read_digits _ (c :: s)) as [[ds eof] r]. cbn [snd] in Hp. eexists _, _, _. split; [reflexivity|].
    assert (p ≠ []) by (by apply Hne). destruct p as [|d p]; [done|]. injection Hp as -> ->.
    rewrite length_app. split; [lia|]. intros Hb. specialize (Hs Hb).
    rewrite app_comm_cons, not_elem_of_app in Hs. tauto. }
  destruct En as (v & eof & s1 & En & Hl & Hclean). erewrite ST_bind_Ok by exact En.
  eapply (good_progress_at _ _ any); [|done|done|done]. cbv beta iota. steps.
Qed.

Lemma read_loop_ends b : forall fuel st m g s,
  (measure st s <= fuel)%nat -> (b = true -> 126 ∉ s) ->
  match read_loop fuel st m g s with Ok _ => True | UB => b = false | _ => False end.
Proof.
  induction fuel as [|fuel IH]; intros st m g s Hf Hs; [destruct st; cbn in Hf; lia|].
  destruct st; cbn [read_loop].
  - pose proof (header_progress b _xdg_mime_magic_match_new s Hs) as H.
    destruct (_xdg_mime_magic_parse_header _ s) as [[[st m'] s1]| | |]; try done. destruct H as [Hm Hs1].
    cbn [mbind res_bind fst] in *. apply IH; [lia|done].
  - pose proof (line_progress b m s Hs) as H.
    destruct (_xdg_mime_magic_parse_magic_line m s) as [[[st m'] s1]| | |]; try done. destruct H as [Hm Hs1].
    cbn [mbind res_bind fst] in *. destruct (_ || _); (apply IH; [lia|done]).
  - pose proof (error_progress b s Hs) as H.
    destruct (_xdg_mime_magic_parse_error s) as [[st s1]| | |]; try done. destruct H as [Hm Hs1].
    cbn [mbind res_bind id] in *. apply IH; [unfold id in Hm; lia|done].
  - done.
Qed.

(** Reading a magic file.  Whatever bytes the file holds, the reader ends
    (its state machine makes progress on every step) and does not crash, and
    when no tilde is among the bytes it also has no undefined behaviour: it
    returns the rules it has read. *)
Theorem magic_read_ends g s :
  match _xdg_mime_magic_read_magic_file g s with
  | Ok _ => True
  | UB => 126 ∈ s
  | Crash | NoFuel => False
  end.
Proof.
  unfold _xdg_mime_magic_read_magic_file.
  destruct (decide (126 ∈ s)) as [Hin|Hin].
  - pose proof (read_loop_ends false (2 * length s + 3) XDG_MIME_MAGIC_SECTION _xdg_mime_magic_match_new g s
      ltac:(cbn; lia) ltac:(done)) as H. destruct (read_loop _ _ _ g s); done.
  - pose proof (read_loop_ends true (2 * length s + 3) XDG_MIME_MAGIC_SECTION _xdg_mime_magic_match_new g s
      ltac:(cbn; lia) ltac:(done)) as H. destruct (read_loop _ _ _ g s); done.
Qed.

(** ** Byte swapping *)

Lemma mem_read_length {A} (b : list A) i n w : mem_read b i n = Ok w -> zlen w = n.
Proof.
  unfold mem_read. destruct (_ && _) eqn:Ec; [|done]. intros [= <-]. zb.
  unfold zlen in *. rewrite length_take, length_drop. lia.
Qed.

Lemma swap_store_length (b w : list Z) j n :
  0 <= j -> zlen w = n -> j + n <= zlen b ->
  zlen (take (Z.to_nat j) b ++ rev w ++ drop (Z.to_nat (j + n)) b) = zlen b.
Proof. unfold zlen. intros. rewrite !length_app, length_take, length_rev, length_drop. lia. Qed.

(** From any word on, a block of at least two words is overrun. *)
Lemma swap_loop_overruns ws k : 2 <= ws -> 2 <= k -> forall fuel j b, 0 <= j < k -> zlen b = k * ws ->
  k * ws - j * ws < Z.of_nat fuel -> swap_loop fuel ws (j * ws) b = UB.
Proof.
  intros Hws Hk. induction fuel as [|fuel IH]; intros j b Hj Hb Hf; cbn [swap_loop]; [nia|].
  rewrite (proj2 (Z.ltb_lt _ _)) by nia.
  destruct (mem_read b (j * ws) ws) as [w| | |] eqn:Ew; cbn [mbind res_bind]; try done.
  2,3: unfold mem_read in Ew; by destruct (_ && _).
  apply mem_read_length in Ew.
  destruct (Z.leb_spec (ws * (j * ws) + ws) (zlen b)) as [Hle|]; [|done]. cbn [mbind res_bind].
  replace (j * ws + ws) with ((j + 1) * ws) by lia.
  apply IH; [nia| |nia]. rewrite swap_store_length; [done|nia|done|done].
Qed.

Lemma swap_loop_words ws k b : 2 <= ws -> 0 <= k -> zlen b = k * ws ->
  swap_loop (S (length b)) ws 0 b = if k <=? 1 then Ok (rev b) else UB.
Proof.
  intros Hws Hk Hb. destruct (Z.leb_spec k 1) as [H1|H1].
  2:{ apply (swap_loop_overruns ws k Hws ltac:(lia) (S (length b)) 0); unfold zlen in *; lia. }
  destruct b as [|x b]; [done|]. assert (k = 1) as -> by (rewrite zlen_cons in Hb; pose proof (zlen_nonneg b); nia).
  rewrite Z.mul_1_l in Hb. revert Hb. generalize (x :: b). clear. intros l <-.
  assert (Hl : zlen (rev l) = zlen l) by (unfold zlen; by rewrite length_rev).
  assert (Er : mem_read l 0 (zlen l) = Ok l).
  { pose proof (mem_read_app [] l []) as E. by rewrite app_nil_r in E. }
  destruct l as [|x b]; [done|]. cbn [length swap_loop].
  pose proof (zlen_nonneg b). rewrite (proj2 (Z.ltb_lt _ _)) by (rewrite zlen_cons; lia).
  rewrite Er. cbn [mbind res_bind]. rewrite Z.mul_0_r, !Z.add_0_l, Z.leb_refl.
  change (Z.to_nat 0) with O. cbn [take mbind res_bind app].
  rewrite to_nat_zlen, drop_all, app_nil_r, Hl, Z.ltb_irrefl. done.
Qed.

(** The byte swap of a line with words of 2 or 4 bytes, for a value (and
    mask) of [k] words: a value of one word is reversed, as the format asks; one
    of two or more words makes the loop write outside the block, because the
    store scales the byte index by the word size. *)
Theorem byte_swap_spec m k :
  word_size m = 2 \/ word_size m = 4 -> 0 <= k ->
  zlen (value m) = k * word_size m -> (forall x, mask m = Some x -> zlen x = k * word_size m) ->
  byte_swap m = if k <=? 1
    then Ok (mk_matchlet (indent m) (offset m) (value_length m) (rev (value m)) (@rev Z <$> mask m)
               (range_length m) (word_size m))
    else UB.
Proof.
  intros Hw Hk Hv Hm. unfold byte_swap. rewrite (swap_loop_words _ k) by lia.
  destruct (k <=? 1) eqn:E; [|done]. cbn [mbind res_bind]. destruct (mask m) as [x|]; [|done].
  rewrite (swap_loop_words _ k), E by (try apply Hm; lia || done). done.
Qed.

Definition swap_example (v : list Z) : XdgMimeMagicMatchlet := mk_matchlet 0 4 (zlen v) v (Some v) 1 2.

Lemma byte_swap_spec_witness :
  byte_swap (swap_example [1; 2]) = Ok (mk_matchlet 0 4 2 [2; 1] (Some [2; 1]) 1 2) /\
  byte_swap (swap_example [1; 2; 3; 4]) = UB.
Proof.
  split.
  - apply (byte_swap_spec (swap_example [1; 2]) 1); [by left|lia|done|]. by intros x [= <-].
  - apply (byte_swap_spec (swap_example [1; 2; 3; 4]) 2); [by left|lia|done|]. by intros x [= <-].
Defined.

(** ** What a rule means

    The reference: the indents of a rule's lines spell a forest; a rule matches
    when some path from a root to a leaf matches line by line. *)
Inductive rule_tree := Rule (m : XdgMimeMagicMatchlet) (children : list rule_tree).

Definition at_level (d : Z) (m : XdgMimeMagicMatchlet) : XdgMimeMagicMatchlet :=
  mk_matchlet d (offset m) (value_length m) (value m) (mask m) (range_length m) (word_size m).

Fixpoint lines (d : Z) (t : rule_tree) : list XdgMimeMagicMatchlet :=
  let 'Rule m cs := t in at_level d m :: flat_map (lines (d + 1)) cs.

(** The bytes at [i], all inside the data, equal the value under the mask. *)
Definition matches_at (m : XdgMimeMagicMatchlet) (data : list Z) (i : Z) : bool :=
  let d := take (length (value m)) (drop (Z.to_nat i) data) in
  (i + zlen (value m) <=? zlen data) &&
  match mask m with
  | None => bool_decide (value m = d)
  | Some k => bool_decide (zip_with Z.land (value m) k = zip_with Z.land d k)
  end.

(** Some position in the range of the line does. *)
Definition line_holds (m : XdgMimeMagicMatchlet) (data : list Z) : bool :=
  existsb (matches_at m data) (seqZ (offset m) (range_length m)).

Fixpoint rule_holds (data : list Z) (t : rule_tree) : bool :=
  let 'Rule m cs := t in line_holds m data && match cs with [] => true | _ => existsb (rule_holds data) cs end.

(** What the reader guarantees of a line, and no [unsigned] wrap. *)
Definition wf_line (m : XdgMimeMagicMatchlet) : Prop :=
  0 <= offset m /\ 0 <= range_length m /\ offset m + range_length m <= INT_MAX /\
  value_length m = zlen (value m) /\ value_length m < 2 ^ 16 /\
  (forall k, mask m = Some k -> length k = length (value m)).

Inductive wf_tree : rule_tree -> Prop :=
| wf_Rule m cs : wf_line m -> Forall wf_tree cs -> wf_tree (Rule m cs).

Lemma compare_bytes_spec v : forall k data i, 0 <= i -> i + zlen v <= zlen data ->
  (forall x, k = Some x -> length x = length v) ->
  let d := take (length v) (drop (Z.to_nat i) data) in
  compare_bytes v k data i = Ok match k with
    | None => bool_decide (v = d)
    | Some x => bool_decide (zip_with Z.land v x = zip_with Z.land d x)
    end.
Proof.
  induction v as [|x v IH]; intros k data i Hi Hd Hk; cbv zeta.
  { destruct k; cbn; [|done]. by rewrite bool_decide_eq_true_2. }
  rewrite zlen_cons in Hd. pose proof (zlen_nonneg v).
  destruct (drop (Z.to_nat i) data) as [|d data'] eqn:Ed.
  { apply (f_equal length) in Ed. rewrite length_drop in Ed. cbn in Ed. unfold zlen in *. lia. }
  assert (El : zlookup data i = Some d).
  { unfold zlookup. rewrite (proj2 (Z.leb_le _ _)) by lia.
    pose proof (lookup_drop data (Z.to_nat i) 0) as L. rewrite Ed, Nat.add_0_r in L. by rewrite <- L. }
  assert (Ed' : drop (Z.to_nat (i + 1)) data = data').
  { replace (Z.to_nat (i + 1)) with (Z.to_nat i + 1)%nat by lia. rewrite <- drop_drop. by rewrite Ed. }
  cbn [compare_bytes]. rewrite El. cbn [or_ub mbind res_bind length take].
  destruct k as [[|y k]|].
  - by specialize (Hk [] eq_refl).
  - cbn [zip_with]. destruct (Z.eqb_spec (Z.land x y) (Z.land d y)) as [->|Hne].
    + rewrite IH, Ed'; [|lia..|intros ? [= <-]; specialize (Hk _ eq_refl); cbn in Hk; lia].
      f_equal. apply bool_decide_ext. split; congruence.
    + rewrite bool_decide_eq_false_2; congruence.
  - destruct (Z.eqb_spec x d) as [->|Hne].
    + rewrite (IH None), Ed' by (lia || done). f_equal. apply bool_decide_ext. split; congruence.
    + rewrite bool_decide_eq_false_2; congruence.
Qed.

Lemma matches_at_short m data i : 0 <= i -> zlen data < i + zlen (value m) -> matches_at m data i = false.
Proof.
  intros Hi Hd. unfold matches_at. by rewrite (proj2 (Z.leb_gt _ _)) by lia.
Qed.

Lemma matches_at_short_all m data : forall n i, 0 <= i -> zlen data < i + zlen (value m) ->
  existsb (matches_at m data) (seqZ i n) = false.
Proof.
  intros n i Hi Hd. apply not_true_is_false. intros (j & Hj%list_elem_of_In%elem_of_seqZ & Hm)%existsb_exists.
  rewrite matches_at_short in Hm; [done|lia|lia].
Qed.

Lemma compare_loop_spec m data : wf_line m -> zlen data <= INT_MAX -> forall fuel i,
  offset m <= i <= offset m + range_length m -> (0 < fuel)%nat -> zlen data + 1 - i < Z.of_nat fuel ->
  compare_loop fuel m data (zlen data) i = Ok (existsb (matches_at m data) (seqZ i (offset m + range_length m - i))).
Proof.
  intros (Ho & Hr & Hor & Hvl & Hv16 & Hk) Hd. unfold INT_MAX in *.
  induction fuel as [|fuel IH]; intros i Hi Hf Hm; [lia|].
  cbn [compare_loop]. pose proof (zlen_nonneg (value m)). rewrite !wrap_small by lia.
  destruct (Z.ltb_spec i (offset m + range_length m)) as [Hlt|Hge]; [|by rewrite seqZ_nil by lia].
  destruct (Z.gtb_spec (i + value_length m) (zlen data)) as [Hgt|Hle]; [by rewrite matches_at_short_all by lia|].
  rewrite compare_bytes_spec by (done || lia). cbn [mbind res_bind].
  rewrite seqZ_cons by lia. cbn [existsb].
  assert (Hat : matches_at m data i = match mask m with
    | None => bool_decide (value m = take (length (value m)) (drop (Z.to_nat i) data))
    | Some x => bool_decide (zip_with Z.land (value m) x =
                  zip_with Z.land (take (length (value m)) (drop (Z.to_nat i) data)) x)
    end).
  { unfold matches_at. rewrite (proj2 (Z.leb_le _ _)) by lia. by destruct (mask m). }
  rewrite <- Hat. destruct (matches_at m data i); [done|]. unfold INT_MAX.
  destruct (Z.eqb_spec i (2 ^ 31 - 1)) as [|_]; [lia|].
  rewrite IH by lia. cbn [orb]. do 3 f_equal; lia.
Qed.

Lemma compare_to_data_spec m data : wf_line m -> zlen data <= INT_MAX ->
  _xdg_mime_magic_matchlet_compare_to_data m data (zlen data) = Ok (line_holds m data).
Proof.
  intros Hm Hd. unfold _xdg_mime_magic_matchlet_compare_to_data, line_holds.
  pose proof (zlen_nonneg data). rewrite compare_loop_spec; try done.
  - do 3 f_equal; lia.
  - destruct Hm. lia.
  - lia.
  - destruct Hm. lia.
Qed.

(** The forest is read off the indents: what follows a node's lines at its own
    level or above is not below it. *)
Definition above (d : Z) (ms : list XdgMimeMagicMatchlet) : Prop :=
  match ms with [] => True | m :: _ => indent m <= d end.

Lemma skip_children_above d ms : above d ms -> skip_children ms d = ms.
Proof. destruct ms; cbn; [done|]. intros. by destruct (Z.gtb_spec (indent x) d); [lia|]. Qed.

Lemma skip_children_app d l rest : Forall (fun m => d < indent m) l -> above d rest ->
  skip_children (l ++ rest) d = rest.
Proof.
  induction 1 as [|m l Hm _ IH]; intros Hr; cbn; [by apply skip_children_above|].
  destruct (Z.gtb_spec (indent m) d); [by apply IH|lia].
Qed.

Lemma lines_below : forall t d e, d < e -> Forall (fun m => d < indent m) (lines e t).
Proof.
  fix IH 1. intros [m cs] d e Hde. cbn. constructor; [done|].
  induction cs as [|c cs IHcs]; cbn; [constructor|]. apply Forall_app. split; [apply IH; lia|done].
Qed.

Lemma forest_below cs d e : d < e -> Forall (fun m => d < indent m) (flat_map (lines e) cs).
Proof.
  intros Hde. induction cs as [|c cs IH]; cbn; [constructor|]. apply Forall_app. split; [by apply lines_below|done].
Qed.

Lemma above_forest d ts rest : above (d - 1) rest -> above d (flat_map (lines d) ts ++ rest).
Proof. intros Hr. destruct ts as [|[m cs] ts]; cbn; [|lia]. destruct rest; cbn in *; [done|lia]. Qed.

Lemma compare_level_spec data : zlen data <= INT_MAX -> forall fuel ts d rest,
  Forall wf_tree ts -> above (d - 1) rest -> (length (flat_map (lines d) ts ++ rest) < fuel)%nat ->
  _xdg_mime_magic_matchlet_compare_level fuel (flat_map (lines d) ts ++ rest) data (zlen data) d
  = Ok (existsb (rule_holds data) ts).
Proof.
  intros Hd. induction fuel as [|fuel IH]; intros ts d rest Hts Hr Hf; [lia|].
  destruct ts as [|[m cs] ts].
  { cbn [flat_map app existsb _xdg_mime_magic_matchlet_compare_level]. destruct rest as [|r rest]; [done|].
    cbn in Hr. destruct (Z.eqb_spec (indent r) d); [lia|done]. }
  apply Forall_cons in Hts as [Ht Hts]. inversion Ht as [? ? Hm Hcs]; subst.
  cbn [flat_map lines app existsb _xdg_mime_magic_matchlet_compare_level].
  cbn [flat_map lines app length] in Hf. rewrite <- app_assoc in Hf |- *.
  set (after := flat_map (lines d) ts ++ rest) in *.
  assert (Ha : above d after) by by apply above_forest.
  assert (Hla : (length after < fuel)%nat) by (rewrite length_app in Hf; lia).
  change (indent (at_level d m)) with d. rewrite Z.eqb_refl. cbn [negb].
  rewrite (compare_to_data_spec (at_level d m)) by done. cbn [mbind res_bind rule_holds].
  change (line_holds (at_level d m) data) with (line_holds m data).
  rewrite skip_children_app by (try apply forest_below; lia || done).
  pose proof (IH ts d rest Hts Hr Hla) as E. fold after in E. rewrite E. clear E.
  destruct (line_holds m data); cbn [andb orb]; [|done].
  destruct cs as [|[c gs] cs].
  - cbn [flat_map app]. destruct after as [|n after']; [done|]. cbn in Ha. by rewrite (proj2 (Z.leb_le _ _)) by lia.
  - pose proof (IH (Rule c gs :: cs) (d + 1) after Hcs ltac:(by replace (d + 1 - 1) with d by lia) ltac:(lia)) as E.
    cbn [flat_map lines app] in E |- *. change (indent (at_level (d + 1) c)) with (d + 1).
    rewrite (proj2 (Z.leb_gt _ _)) by lia. rewrite E. by destruct (existsb _ (Rule c gs :: cs)).
Qed.

Lemma match_compare_spec mt prio ts data : Forall wf_tree ts -> zlen data <= INT_MAX ->
  _xdg_mime_magic_match_compare_to_data (mk_match mt prio (flat_map (lines 0) ts)) data (zlen data)
  = Ok (existsb (rule_holds data) ts).
Proof.
  intros Hts Hd. unfold _xdg_mime_magic_match_compare_to_data. cbn [matchlet].
  pose proof (compare_level_spec data Hd (S (length (flat_map (lines 0) ts))) ts 0 [] Hts) as H.
  rewrite app_nil_r in H. apply H; [done|lia].
Qed.

(** Matching a rule against data.  For a rule whose lines are those of a
    forest (well-formed lines, the data at most [INT_MAX] bytes) the flat scan
    over indents stays inside the data, ends, and finds a match exactly when
    some path from a root to a leaf matches line by line. *)
Theorem magic_rule_matches mt prio ts data :
  Forall wf_tree ts -> zlen data <= INT_MAX ->
  _xdg_mime_magic_match_compare_to_data (mk_match mt prio (flat_map (lines 0) ts)) data (zlen data)
  = Ok (existsb (rule_holds data) ts).
Proof. apply match_compare_spec. Qed.

(** "PK" at 0, and below it "x" somewhere in bytes 3 to 5, masked to ignore case. *)
Definition forest_example : list rule_tree :=
  [Rule (mk_matchlet 0 0 2 [80; 75] None 1 1) [Rule (mk_matchlet 0 3 1 [88] (Some [223]) 3 1) []]].

Lemma magic_rule_matches_witness :
  _xdg_mime_magic_match_compare_to_data (mk_match None 50 (flat_map (lines 0) forest_example)) [80; 75; 0; 0; 120; 0] 6
  = Ok true /\
  _xdg_mime_magic_match_compare_to_data (mk_match None 50 (flat_map (lines 0) forest_example)) [80; 75; 120; 0] 4
  = Ok false.
Proof.
  assert (Forall wf_tree forest_example).
  { unfold forest_example. repeat constructor; unfold INT_MAX; cbn; try lia; try done.
    by intros k [= <-]. }
  split.
  - apply (magic_rule_matches None 50 forest_example [80; 75; 0; 0; 120; 0]); [done|by vm_compute].
  - apply (magic_rule_matches None 50 forest_example [80; 75; 120; 0]); [done|by vm_compute].
Defined.

(** ** Priorities *)

Definition rule := (option (list Z) * Z * list rule_tree)%type.
Definition as_match (r : rule) : XdgMimeMagicMatch :=
  let '(mt, prio, ts) := r in mk_match mt prio (flat_map (lines 0) ts).
Definition holds (data : list Z) (r : rule) : bool := existsb (rule_holds data) (snd r).

(** The insertion point: after every rule of at least the same priority. *)
Lemma insert_match_spec g m :
  exists l1 l2, match_list g = l1 ++ l2 /\ match_list (_xdg_mime_magic_insert_match g m) = l1 ++ m :: l2 /\
    Forall (fun x => priority m <= priority x) l1 /\
    match l2 with [] => True | x :: _ => priority x < priority m end.
Proof.
  assert (K : forall t, exists l1 l2, t = l1 ++ l2 /\ insert_after m t = l1 ++ m :: l2 /\
    Forall (fun x => priority m <= priority x) l1 /\ match l2 with [] => True | x :: _ => priority x < priority m end).
  { induction t as [|x t (l1 & l2 & -> & E & H1 & H2)]; cbn; [by exists [], []|].
    destruct (Z.ltb_spec (priority x) (priority m)); [by exists [], (x :: l1 ++ l2)|].
    exists (x :: l1), l2. rewrite E. split_and!; try done. by constructor. }
  unfold _xdg_mime_magic_insert_match. destruct (match_list g) as [|h t]; [by exists [], []|].
  destruct (Z.gtb_spec (priority m) (priority h)); [exists [], (h :: t); split_and!; [done|done|done|lia]|].
  destruct (K t) as (l1 & l2 & -> & E & H1 & H2). exists (h :: l1), l2. cbn [match_list]. rewrite E.
  split_and!; try done. by constructor; [lia|].
Qed.

Definition rule_type (r : rule) : option (list Z) := fst (fst r).
Definition rule_priority (r : rule) : Z := snd (fst r).

(** The reference: of the rules that match, the first one with the highest
    priority. *)
Definition better (data : list Z) (acc : option rule) (r : rule) : option rule :=
  if holds data r then
    match acc with Some b => if rule_priority b <? rule_priority r then Some r else acc | None => Some r end
  else acc.
Definition best (data : list Z) (rs : list rule) : option rule := foldl (better data) None rs.

(** The rules as the list holds them. *)
Definition descending (l : list rule) : Prop :=
  StronglySorted (fun a b => rule_priority b <= rule_priority a) l.

Lemma as_match_priority r : priority (as_match r) = rule_priority r.
Proof. by destruct r as [[? ?] ?]. Qed.

Lemma descending_insert l1 m l2 : descending (l1 ++ l2) ->
  Forall (fun x => rule_priority m <= rule_priority x) l1 ->
  match l2 with [] => True | x :: _ => rule_priority x < rule_priority m end ->
  descending (l1 ++ m :: l2) /\ Forall (fun x => rule_priority x < rule_priority m) l2.
Proof.
  unfold descending. induction l1 as [|y l1 IH]; cbn; intros Hs H1 H2.
  - assert (Hl2 : Forall (fun x => rule_priority x < rule_priority m) l2).
    { destruct l2 as [|x l2]; [done|]. apply StronglySorted_inv in Hs as [_ Hx]. constructor; [done|].
      eapply Forall_impl; [exact Hx|]. cbn. lia. }
    split; [|done]. constructor; [done|]. eapply Forall_impl; [exact Hl2|]. cbn. lia.
  - apply StronglySorted_inv in Hs as [Hs Hy]. apply Forall_cons in H1 as [Hmy H1].
    destruct (IH Hs H1 H2) as [IH1 IH2]. split; [|done]. constructor; [done|].
    rewrite Forall_app in Hy. rewrite Forall_app, Forall_cons. tauto.
Qed.

Lemma insert_rule data lr e r : descending lr ->
  exists lr', match_list (_xdg_mime_magic_insert_match (mk_magic (as_match <$> lr) e) (as_match r)) = as_match <$> lr'
    /\ descending lr' /\ lr' ≡ₚ r :: lr /\ find (holds data) lr' = better data (find (holds data) lr) r.
Proof.
  intros Hs. destruct (insert_match_spec (mk_magic (as_match <$> lr) e) (as_match r)) as (l1 & l2 & E & -> & H1 & H2).
  cbn [match_list] in E. apply fmap_app_inv in E as (a & b & -> & -> & ->).
  rewrite as_match_priority in *.
  assert (Ha : Forall (fun x => rule_priority r <= rule_priority x) a).
  { rewrite Forall_forall in H1. apply Forall_forall. intros x Hx. rewrite <- (as_match_priority x). by apply H1, list_elem_of_fmap_2. }
  assert (Hb : match b with [] => True | x :: _ => rule_priority x < rule_priority r end).
  { destruct b; [done|]. cbn in H2. by rewrite as_match_priority in H2. }
  destruct (descending_insert a r b Hs Ha Hb) as [Hd Hlt].
  exists (a ++ r :: b). split_and!; [by rewrite fmap_app|done|by rewrite <- Permutation_middle|].
  clear -Ha Hlt. induction Ha as [|x a Hx _ IH]; cbn [find app].
  - unfold better. destruct (holds data r); [|done]. destruct (find (holds data) b) as [y|] eqn:Ey; [|done].
    apply find_some in Ey as [Hin _]. rewrite Forall_forall in Hlt. apply list_elem_of_In in Hin.
    by rewrite (proj2 (Z.ltb_lt _ _)) by by apply Hlt.
  - destruct (holds data x) eqn:E; [|done]. unfold better. destruct (holds data r); [|done].
    by rewrite (proj2 (Z.ltb_ge _ _)) by lia.
Qed.

Lemma insert_extent g m : max_extent (_xdg_mime_magic_insert_match g m) = max_extent g.
Proof. unfold _xdg_mime_magic_insert_match. destruct (match_list g); [done|]. by destruct (_ >? _). Qed.

Lemma insert_rules data : forall rs lr e, descending lr ->
  exists lr', foldl _xdg_mime_magic_insert_match (mk_magic (as_match <$> lr) e) (as_match <$> rs)
      = mk_magic (as_match <$> lr') e
    /\ descending lr' /\ lr' ≡ₚ rs ++ lr /\ find (holds data) lr' = foldl (better data) (find (holds data) lr) rs.
Proof.
  induction rs as [|r rs IH]; intros lr e Hs; cbn; [by exists lr|].
  destruct (insert_rule data lr e r Hs) as (l' & E & Hd & Hp & Hf).
  pose proof (insert_extent (mk_magic (as_match <$> lr) e) (as_match r)) as Ex.
  destruct (_xdg_mime_magic_insert_match _ (as_match r)) as [l0 e0]. cbn in E, Ex. subst l0 e0.
  destruct (IH l' e Hd) as (l2 & -> & Hd2 & Hp2 & Hf2). exists l2. split_and!; [done|done| |by rewrite Hf2, Hf].
  rewrite Hp2, Hp. by rewrite Permutation_middle.
Qed.

Section lookup_spec.
Context (mime_type_equal : list Z -> option (list Z) -> bool).

(** The candidates left when no rule matches: those that no rule is about. *)
Definition unclaimed (rs : list rule) (o : option (list Z)) : option (list Z) :=
  match o with
  | Some m => if existsb (fun r => mime_type_equal m (rule_type r)) rs then None else Some m
  | None => None
  end.

Lemma strike_unclaimed r rs mimes :
  unclaimed rs <$> strike mime_type_equal (rule_type r) mimes = unclaimed (r :: rs) <$> mimes.
Proof.
  unfold strike. rewrite <- list_fmap_compose. apply list_fmap_ext. intros i [m|] _; cbn; [|done].
  by destruct (mime_type_equal m (rule_type r)).
Qed.

Lemma lookup_loop_spec data : zlen data <= INT_MAX -> forall lr mimes,
  Forall (fun r => Forall wf_tree (snd r)) lr -> exists mimes',
  lookup_loop mime_type_equal (as_match <$> lr) data (zlen data) mimes
  = Ok ((fun r => (rule_type r, rule_priority r)) <$> find (holds data) lr, mimes') /\
  (find (holds data) lr = None -> mimes' = unclaimed lr <$> mimes).
Proof.
  intros Hd. induction lr as [|[[mt prio] ts] lr IH]; intros mimes Hw; cbn [fmap list_fmap lookup_loop find].
  { eexists. split; [done|]. intros _. rewrite <- (list_fmap_id mimes) at 1. apply list_fmap_ext. by intros i [|]. }
  apply Forall_cons in Hw as [Ht Hw]. cbn [as_match]. rewrite match_compare_spec by done.
  cbn [mbind res_bind]. unfold holds at 1 3. cbn [snd]. destruct (existsb (rule_holds data) ts) eqn:Eh.
  - eexists. split; [done|]. done.
  - destruct (IH (strike mime_type_equal mt mimes) Hw) as (mimes' & E & Hn). exists mimes'. split; [exact E|].
    intros Hf. rewrite (Hn Hf). exact (strike_unclaimed (mt, prio, ts) lr mimes).
Qed.

Lemma unclaimed_perm rs rs' o : rs ≡ₚ rs' -> unclaimed rs o = unclaimed rs' o.
Proof.
  intros Hp. destruct o as [m|]; [|done]. cbn.
  assert (existsb (fun r => mime_type_equal m (rule_type r)) rs = existsb (fun r => mime_type_equal m (rule_type r)) rs') as ->;
    [|done].
  apply eq_true_iff_eq. rewrite !existsb_exists.
  split; intros (x & Hx & Hm); exists x; (split; [|done]); eapply Permutation_in; [..|done]; done.
Qed.

(** C40: looking data up in a set of rules.  Whatever order the rules were
    read in, the lookup returns the type and priority of the matching rule with
    the highest priority, of several the one read first; when none matches, the
    last candidate that no rule is about. *)
Theorem magic_lookup_best rs data mimes :
  zlen data <= INT_MAX -> Forall (fun r => Forall wf_tree (snd r)) rs ->
  Forall (fun r => is_Some (rule_type r)) rs ->
  let g := foldl _xdg_mime_magic_insert_match _xdg_mime_magic_new (as_match <$> rs) in
  match best data rs with
  | Some r => exists left, _xdg_mime_magic_lookup_data mime_type_equal g data (zlen data) mimes
      = Ok (rule_type r, rule_priority r, left)
  | None => let left := unclaimed rs <$> mimes in
      _xdg_mime_magic_lookup_data mime_type_equal g data (zlen data) mimes
      = Ok (foldl (fun a o => match o with Some m => Some m | None => a end) None left, 0, left)
  end.
Proof.
  intros Hd Hw Ht. cbv zeta.
  destruct (insert_rules data rs [] 0 ltac:(constructor)) as (lr & Eg & _ & Hp & Hf).
  change (mk_magic (as_match <$> []) 0) with _xdg_mime_magic_new in Eg. rewrite Eg. clear Eg.
  rewrite app_nil_r in Hp. change (find (holds data) lr = best data rs) in Hf.
  unfold _xdg_mime_magic_lookup_data. cbn [match_list].
  destruct (lookup_loop_spec data Hd lr mimes) as (left & -> & Hn); [by rewrite Hp|].
  rewrite Hf in Hn |- *. cbn [mbind res_bind]. destruct (best data rs) as [r|] eqn:Eb; cbn [fmap option_fmap option_map].
  - exists left. assert (Hin : r ∈ rs).
    { rewrite <- Hp. apply list_elem_of_In. by apply find_some in Hf as [? _]. }
    rewrite Forall_forall in Ht. destruct (Ht r Hin) as [mt ->]. done.
  - rewrite (Hn eq_refl). rewrite (list_fmap_ext _ (unclaimed rs) mimes); [done|].
    intros i o _. by apply unclaimed_perm.
Qed.
End lookup_spec.

(** Two rules match; the one read last has the higher priority. *)
Definition rules_example : list rule :=
  [(Some [97], 40, forest_example); (Some [98], 60, forest_example); (Some [99], 60, forest_example)].

Lemma magic_lookup_best_witness : exists left,
  _xdg_mime_magic_lookup_data (fun _ _ => false)
    (foldl _xdg_mime_magic_insert_match _xdg_mime_magic_new (as_match <$> rules_example))
    [80; 75; 0; 0; 120; 0] 6 [] = Ok (Some [98], 60, left).
Proof.
  apply (magic_lookup_best (fun _ _ => false) rules_example [80; 75; 0; 0; 120; 0] []); [by vm_compute| |].
  - assert (Forall wf_tree forest_example).
    { unfold forest_example. repeat constructor; unfold INT_MAX; cbn; try lia; try done. by intros k [= <-]. }
    unfold rules_example. rewrite !Forall_cons. done.
  - repeat constructor; by eexists.
Defined.

End XdgMagic.
