(* ===== verification/WtfBuffer.v ===== *)
(** * Raw buffers of objects (WTF/wtf/Vector.h, the part under [Vector])

    [VectorBufferBase] hands out storage in which [VectorTypeOperations]
    constructs, moves and destroys objects.  A buffer is a list of slots, a slot
    holds an object or is raw storage.  The element type is one that has to be
    moved and destroyed object by object ([VectorMover<false>],
    [VectorDestructor<true>], [VectorCopier<false>]).  Reading, moving or
    destroying raw storage is [UB]; so is, to keep objects from getting lost
    unnoticed, constructing over a live object and freeing a buffer that still
    holds one.  [malloc] is taken to succeed. *)
From S2P Require Import Prelude.

#[local] Open Scope cfetch_scope.

Module Buffer.

Section buffer.
Context {T : Type}.

Abbreviation slot := (option T).
Abbreviation buf := (list slot).

(** ** Slots *)

Definition load (b : buf) (i : Z) : res T :=
  match b.[i] with Some (Some v) => Ok v | _ => UB end.

Definition construct (b : buf) (i : Z) (v : T) : res buf :=
  match b.[i] with Some None => Ok (<[Z.to_nat i := Some v]> b) | _ => UB end.

Definition destroy (b : buf) (i : Z) : res buf :=
  match b.[i] with Some (Some _) => Ok (<[Z.to_nat i := None]> b) | _ => UB end.

(** Assignment to a live object. *)
Definition assign (b : buf) (i : Z) (v : T) : res buf :=
  match b.[i] with Some (Some _) => Ok (<[Z.to_nat i := Some v]> b) | _ => UB end.

(** [std::swap] of two objects. *)
Definition swap_slots (b : buf) (i j : Z) : res buf :=
  x ← load b i; y ← load b j; b ← assign b i y; assign b j x.

(** ** [VectorTypeOperations]

    The loops run [while (src != srcEnd)]; [count] is the number of their
    iterations, and a range whose end is before its begin runs away. *)
Definition count (src srcEnd : Z) : res nat := if srcEnd <? src then UB else Ok (Z.to_nat (srcEnd - src)).

Fixpoint destruct_loop (n : nat) (b : buf) (cur : Z) : res buf :=
  match n with O => Ok b | S n => b ← destroy b cur; destruct_loop n b (cur + 1) end.
Definition destruct (b : buf) (from to : Z) : res buf := n ← count from to; destruct_loop n b from.

(** [VectorMover<false>::move] within a buffer. *)
Fixpoint move_loop (n : nat) (b : buf) (src dst : Z) : res buf :=
  match n with
  | O => Ok b
  | S n => v ← load b src; b ← construct b dst v; b ← destroy b src; move_loop n b (src + 1) (dst + 1)
  end.

(** The loop of [moveOverlapping] that works from the end. *)
Fixpoint move_backward_loop (n : nat) (b : buf) (srcEnd dstEnd : Z) : res buf :=
  match n with
  | O => Ok b
  | S n =>
      let srcEnd := srcEnd - 1 in let dstEnd := dstEnd - 1 in
      v ← load b srcEnd; b ← construct b dstEnd v; b ← destroy b srcEnd; move_backward_loop n b srcEnd dstEnd
  end.

Definition moveOverlapping (b : buf) (src srcEnd dst : Z) : res buf :=
  n ← count src srcEnd;
  if src >? dst then move_loop n b src dst
  else move_backward_loop n b srcEnd (dst + (srcEnd - src)).

(** [move] from one buffer into another: both are returned. *)
Fixpoint move_between_loop (n : nat) (from : buf) (src : Z) (to : buf) (dst : Z) : res (buf * buf) :=
  match n with
  | O => Ok (from, to)
  | S n =>
      v ← load from src; to ← construct to dst v; from ← destroy from src;
      move_between_loop n from (src + 1) to (dst + 1)
  end.
Definition move_between (from : buf) (src srcEnd : Z) (to : buf) (dst : Z) : res (buf * buf) :=
  n ← count src srcEnd; move_between_loop n from src to dst.

(** [uninitializedCopy] from another buffer or from the same one. *)
Fixpoint copy_loop (n : nat) (from : buf) (src : Z) (to : buf) (dst : Z) : res buf :=
  match n with
  | O => Ok to
  | S n => v ← load from src; to ← construct to dst v; copy_loop n from (src + 1) to (dst + 1)
  end.
Definition uninitializedCopy (from : buf) (src srcEnd : Z) (to : buf) (dst : Z) : res buf :=
  n ← count src srcEnd; copy_loop n from src to dst.

Fixpoint copy_within_loop (n : nat) (b : buf) (src dst : Z) : res buf :=
  match n with
  | O => Ok b
  | S n => v ← load b src; b ← construct b dst v; copy_within_loop n b (src + 1) (dst + 1)
  end.

Fixpoint fill_loop (n : nat) (b : buf) (dst : Z) (v : T) : res buf :=
  match n with O => Ok b | S n => b ← construct b dst v; fill_loop n b (dst + 1) v end.
Definition uninitializedFill (b : buf) (dst dstEnd : Z) (v : T) : res buf :=
  n ← count dst dstEnd; fill_loop n b dst v.

(** [VectorInitializer<true, false>]: [T()] in every slot. *)
Definition initializeIfNonPOD (b : buf) (begin end_ : Z) (default : T) : res buf :=
  n ← count begin end_; fill_loop n b begin default.

(** ** [VectorBufferBase] *)

(** [allocateBuffer]: storage for [newCapacity] objects of [sizeofT] bytes. *)
Definition allocateBuffer (sizeofT newCapacity : Z) : res buf :=
  if newCapacity >? UINT32_MAX / sizeofT then Crash
  else let sizeToAllocate := u64 (newCapacity * sizeofT) in
       Ok (replicate (Z.to_nat (u32 (sizeToAllocate / sizeofT))) None).

Definition tryAllocateBuffer (sizeofT newCapacity : Z) : option buf :=
  if newCapacity >? UINT32_MAX / sizeofT then None
  else let sizeToAllocate := u64 (newCapacity * sizeofT) in
       Some (replicate (Z.to_nat (u32 (sizeToAllocate / sizeofT))) None).

Definition is_raw (s : slot) : bool := match s with None => true | Some _ => false end.

(** [deallocateBuffer] of a buffer. *)
Definition deallocateBuffer (b : buf) : res unit := if forallb is_raw b then Ok tt else UB.

(** ** Segments *)

(** [objs l]: slots that hold the objects of [l]; [raw k]: raw storage. *)
Definition objs (l : list T) : buf := Some <$> l.
Definition raw (k : nat) : buf := replicate k None.

Lemma zlen_objs l : zlen (objs l) = zlen l.
Proof. apply zlen_fmap. Qed.
Lemma zlen_raw k : zlen (raw k) = Z.of_nat k.
Proof. apply zlen_replicate. Qed.
Lemma objs_app l k : objs (l ++ k) = objs l ++ objs k.
Proof. apply fmap_app. Qed.
Lemma raw_app k j : raw (k + j) = raw k ++ raw j.
Proof. apply replicate_add. Qed.
Lemma raw_S_end k : raw (S k) = raw k ++ [None].
Proof. apply replicate_S_end. Qed.

(** [app_assoc] around an element that heads the middle part. *)
Lemma app_cons_assoc {A} (pre : list A) x mid post : pre ++ x :: mid ++ post = (pre ++ x :: mid) ++ post.
Proof. apply (app_assoc pre (x :: mid) post). Qed.

Lemma insert_mid (pre post : buf) x y i : zlen pre = i -> <[Z.to_nat i := y]> (pre ++ x :: post) = pre ++ y :: post.
Proof. intros <-. rewrite to_nat_zlen, <- (Nat.add_0_r (length pre)), insert_app_r. done. Qed.

Lemma zlookup_mid (pre post : buf) x i : zlen pre = i -> zlookup (pre ++ x :: post) i = Some x.
Proof. intros <-. apply zlookup_app. Qed.

Lemma load_mid pre v post i : zlen pre = i -> load (pre ++ Some v :: post) i = Ok v.
Proof. intros Hi. unfold load. by rewrite zlookup_mid. Qed.

Lemma construct_mid pre v post i : zlen pre = i -> construct (pre ++ None :: post) i v = Ok (pre ++ Some v :: post).
Proof. intros Hi. unfold construct. by rewrite zlookup_mid, insert_mid. Qed.

Lemma destroy_mid pre v post i : zlen pre = i -> destroy (pre ++ Some v :: post) i = Ok (pre ++ None :: post).
Proof. intros Hi. unfold destroy. by rewrite zlookup_mid, insert_mid. Qed.

Lemma assign_mid pre v w post i : zlen pre = i -> assign (pre ++ Some v :: post) i w = Ok (pre ++ Some w :: post).
Proof. intros Hi. unfold assign. by rewrite zlookup_mid, insert_mid. Qed.

Lemma count_ok a b : a <= b -> count a b = Ok (Z.to_nat (b - a)).
Proof. intros. unfold count. by rewrite (proj2 (Z.ltb_ge _ _)). Qed.

Lemma destruct_ok l : forall pre post a b, zlen pre = a -> b = a + zlen l ->
  destruct (pre ++ objs l ++ post) a b = Ok (pre ++ raw (length l) ++ post).
Proof.
  intros pre post a b Ha ->. unfold destruct. rewrite count_ok by (pose proof (zlen_nonneg l); lia).
  cbn [mbind res_bind]. replace (Z.to_nat (a + zlen l - a)) with (length l) by (unfold zlen; lia).
  revert pre a Ha. induction l as [|x l IH]; intros pre a Ha; [done|]. cbn [length destruct_loop objs fmap list_fmap app].
  rewrite destroy_mid by done. cbn [mbind res_bind].
  specialize (IH (pre ++ [None]) (a + 1)). rewrite <- !app_assoc in IH. apply IH.
  autorewrite with zlen. lia.
Qed.

(** Moving a block of objects down over [k > 0] raw slots. *)
Lemma move_down_ok l : forall pre k post src srcEnd dst, zlen pre = dst -> src = dst + Z.of_nat k ->
  srcEnd = src + zlen l -> (0 < k)%nat ->
  moveOverlapping (pre ++ raw k ++ objs l ++ post) src srcEnd dst = Ok (pre ++ objs l ++ raw k ++ post).
Proof.
  intros pre k post src srcEnd dst Hp -> -> Hk. unfold moveOverlapping.
  rewrite count_ok by (pose proof (zlen_nonneg l); lia). cbn [mbind res_bind].
  destruct (Z.gtb_spec (dst + Z.of_nat k) dst) as [_|]; [|lia].
  replace (Z.to_nat (dst + Z.of_nat k + zlen l - (dst + Z.of_nat k))) with (length l) by (unfold zlen; lia).
  revert pre dst Hp. induction l as [|x l IH]; intros pre dst Hp; [done|]. destruct k as [|k]; [lia|].
  cbn [length move_loop objs fmap list_fmap app].
  rewrite app_assoc, load_mid by (rewrite zlen_app, zlen_raw; lia). cbn [mbind res_bind].
  rewrite <- app_assoc. cbn [raw replicate app]. rewrite construct_mid by done. cbn [mbind res_bind].
  change (replicate k None) with (raw k).
  rewrite (app_cons_assoc pre (Some x) (raw k)), destroy_mid by (autorewrite with zlen; rewrite zlen_raw; lia).
  cbn [mbind res_bind].
  specialize (IH (pre ++ [Some x]) (dst + 1)). rewrite <- !app_assoc in IH.
  replace (dst + Z.of_nat (S k) + 1) with (dst + 1 + Z.of_nat (S k)) by lia.
  rewrite <- app_cons_assoc. cbn [app] in IH.
  assert (Er : raw k ++ None :: objs l ++ post = raw (S k) ++ objs l ++ post) by (rewrite raw_S_end, <- app_assoc; done).
  unfold objs in Er at 1. rewrite Er. apply IH. autorewrite with zlen. lia.
Qed.

(** Moving a block of objects up over [k > 0] raw slots. *)
Lemma move_up_ok l : forall pre k post src srcEnd dst, zlen pre = src -> dst = src + Z.of_nat k ->
  srcEnd = src + zlen l -> (0 < k)%nat ->
  moveOverlapping (pre ++ objs l ++ raw k ++ post) src srcEnd dst = Ok (pre ++ raw k ++ objs l ++ post).
Proof.
  intros pre k post src srcEnd dst Hp -> -> Hk. unfold moveOverlapping.
  rewrite count_ok by (pose proof (zlen_nonneg l); lia). cbn [mbind res_bind].
  destruct (Z.gtb_spec src (src + Z.of_nat k)) as [|_]; [lia|].
  replace (Z.to_nat (src + zlen l - src)) with (length l) by (unfold zlen; lia).
  replace (src + Z.of_nat k + (src + zlen l - src)) with (src + zlen l + Z.of_nat k) by lia.
  revert post. induction l as [|x l IH] using rev_ind; intros post; [done|].
  destruct k as [|k]; [lia|]. rewrite length_app, Nat.add_1_r. cbn [move_backward_loop].
  rewrite objs_app. change (objs [x]) with [Some x]. autorewrite with zlen. cbv zeta.
  rewrite <- !app_assoc. cbn [app].
  rewrite (app_assoc pre (objs l)), load_mid by (rewrite zlen_app, zlen_objs; lia). cbn [mbind res_bind].
  assert (Er : raw (S k) ++ post = raw k ++ None :: post) by (rewrite raw_S_end, <- app_assoc; done).
  rewrite Er.
  rewrite (app_cons_assoc _ (Some x) (raw k)), construct_mid
    by (autorewrite with zlen; rewrite zlen_objs, zlen_raw; lia).
  cbn [mbind res_bind]. rewrite <- app_cons_assoc.
  rewrite destroy_mid by (autorewrite with zlen; rewrite zlen_objs; lia). cbn [mbind res_bind].
  specialize (IH (Some x :: post)).
  rewrite <- app_assoc. change (None :: raw k ++ Some x :: post) with (raw (S k) ++ Some x :: post).
  replace (src + (zlen l + (1 + 0)) - 1) with (src + zlen l) by lia.
  replace (src + (zlen l + (1 + 0)) + Z.of_nat (S k) - 1) with (src + zlen l + Z.of_nat (S k)) by lia.
  rewrite IH. done.
Qed.

(** Moving an object onto itself destroys it. *)
Lemma move_onto_self l pre post src : l ≠ [] -> zlen pre = src ->
  moveOverlapping (pre ++ objs l ++ post) src (src + zlen l) src = UB.
Proof.
  intros Hl Hp. destruct l as [|x l _] using rev_ind; [done|]. unfold moveOverlapping.
  rewrite count_ok by (pose proof (zlen_nonneg (l ++ [x])); lia). cbn [mbind res_bind].
  destruct (Z.gtb_spec src src) as [|_]; [lia|].
  replace (Z.to_nat (src + zlen (l ++ [x]) - src)) with (S (length l)) by (autorewrite with zlen; unfold zlen; lia).
  cbn [move_backward_loop]. rewrite objs_app. change (objs [x]) with [Some x]. autorewrite with zlen.
  rewrite <- !app_assoc. cbn [app].
  rewrite (app_assoc pre (objs l)), load_mid by (rewrite zlen_app, zlen_objs; lia). cbn [mbind res_bind].
  unfold construct. rewrite zlookup_mid by (rewrite zlen_app, zlen_objs; lia). done.
Qed.

Lemma move_between_ok l : forall pre post pre' post' src srcEnd dst,
  zlen pre = src -> zlen pre' = dst -> srcEnd = src + zlen l ->
  move_between (pre ++ objs l ++ post) src srcEnd (pre' ++ raw (length l) ++ post') dst
  = Ok (pre ++ raw (length l) ++ post, pre' ++ objs l ++ post').
Proof.
  intros pre post pre' post' src srcEnd dst Hp Hp' ->. unfold move_between.
  rewrite count_ok by (pose proof (zlen_nonneg l); lia). cbn [mbind res_bind].
  replace (Z.to_nat (src + zlen l - src)) with (length l) by (unfold zlen; lia).
  revert pre pre' src dst Hp Hp'. induction l as [|x l IH]; intros pre pre' src dst Hp Hp'; [done|].
  cbn [length raw replicate objs fmap list_fmap app move_between_loop].
  rewrite load_mid by done. cbn [mbind res_bind]. rewrite construct_mid by done. cbn [mbind res_bind].
  rewrite destroy_mid by done. cbn [mbind res_bind].
  specialize (IH (pre ++ [None]) (pre' ++ [Some x]) (src + 1) (dst + 1)). rewrite <- !app_assoc in IH.
  apply IH; autorewrite with zlen; lia.
Qed.

Lemma copy_ok l : forall pre post pre' post' src srcEnd dst,
  zlen pre = src -> zlen pre' = dst -> srcEnd = src + zlen l ->
  uninitializedCopy (pre ++ objs l ++ post) src srcEnd (pre' ++ raw (length l) ++ post') dst
  = Ok (pre' ++ objs l ++ post').
Proof.
  intros pre post pre' post' src srcEnd dst Hp Hp' ->. unfold uninitializedCopy.
  rewrite count_ok by (pose proof (zlen_nonneg l); lia). cbn [mbind res_bind].
  replace (Z.to_nat (src + zlen l - src)) with (length l) by (unfold zlen; lia).
  revert pre pre' src dst Hp Hp'. induction l as [|x l IH]; intros pre pre' src dst Hp Hp'; [done|].
  cbn [length raw replicate objs fmap list_fmap app copy_loop].
  rewrite load_mid by done. cbn [mbind res_bind]. rewrite construct_mid by done. cbn [mbind res_bind].
  specialize (IH (pre ++ [Some x]) (pre' ++ [Some x]) (src + 1) (dst + 1)). rewrite <- !app_assoc in IH.
  apply IH; autorewrite with zlen; lia.
Qed.

Lemma fill_ok v n : forall pre post dst, zlen pre = dst ->
  fill_loop n (pre ++ raw n ++ post) dst v = Ok (pre ++ objs (replicate n v) ++ post).
Proof.
  induction n as [|n IH]; intros pre post dst Hp; [done|].
  cbn [raw replicate objs fmap list_fmap app fill_loop]. rewrite construct_mid by done. cbn [mbind res_bind].
  specialize (IH (pre ++ [Some v]) post (dst + 1)). rewrite <- !app_assoc in IH. apply IH. autorewrite with zlen. lia.
Qed.

Lemma allocate_ok sz n : 0 < sz -> 0 <= n -> n * sz <= UINT32_MAX -> allocateBuffer sz n = Ok (raw (Z.to_nat n)).
Proof.
  unfold allocateBuffer, UINT32_MAX. intros Hsz Hn Hmax.
  destruct (Z.gtb_spec n ((2 ^ 32 - 1) / sz)) as [Hgt|_].
  { exfalso. assert (n <= (2 ^ 32 - 1) / sz); [|lia]. apply Z.div_le_lower_bound; lia. }
  cbv zeta. rewrite (wrap_small 64) by nia. rewrite Z.div_mul by lia. rewrite wrap_small by nia. done.
Qed.

Lemma allocate_crash sz n : 0 < sz -> UINT32_MAX < n * sz -> allocateBuffer sz n = Crash.
Proof.
  unfold allocateBuffer. intros Hsz Hmax. destruct (Z.gtb_spec n (UINT32_MAX / sz)) as [_|Hle]; [done|].
  exfalso. pose proof (Z.mul_div_le UINT32_MAX sz Hsz). nia.
Qed.

Lemma deallocate_raw n : deallocateBuffer (raw n) = Ok tt.
Proof. unfold deallocateBuffer. by rewrite (proj2 (forallb_forall _ _)) by (by intros x [-> _]%list_elem_of_In%elem_of_replicate). Qed.

End buffer.
End Buffer.
