(* ===== verification/WtfVector.v ===== *)
(** * Vector (WTF/wtf/Vector.h)

    [Vector<T, 0, CrashOnOverflow, 16>] over the buffers of WtfBuffer, in a
    release build, for an element type that is moved and destroyed object by
    object.  An argument passed by reference may refer to an object elsewhere
    ([Other]) or to an element of the vector itself ([Own]). *)
From S2P Require Import Prelude WtfBuffer.

#[local] Open Scope cfetch_scope.

Module Vector.
Import Buffer.

Section vector.
Context {T : Type}.
Context (sizeofT : Z).
(** [T()] *)
Context (default : T).

Record Vector := mk_vector { buffer : list (option T); m_size : Z }.

Inductive ref := Other (v : T) | Own (i : Z).
(** The begin of an array of objects; [FreedArray] points into storage that was given back. *)
Inductive array_ref := OtherArray (l : list T) | OwnArray (i : Z) | FreedArray.

Definition minCapacity : Z := 16.

Definition capacity (v : Vector) : Z := zlen (buffer v).
Definition isEmpty (v : Vector) : bool := m_size v =? 0.
Definition vector_empty : Vector := mk_vector [] 0.

Definition deref (v : Vector) (r : ref) : res T :=
  match r with Other x => Ok x | Own i => load (buffer v) i end.

(** ** Capacity *)

Definition reserveCapacity (v : Vector) (newCapacity : Z) : res Vector :=
  if newCapacity <=? capacity v then Ok v
  else
    nb ← allocateBuffer sizeofT newCapacity;
    '(old, nb) ← move_between (buffer v) 0 (m_size v) nb 0;
    deallocateBuffer old;;
    Ok (mk_vector nb (m_size v)).

Definition tryReserveCapacity (v : Vector) (newCapacity : Z) : res (bool * Vector) :=
  if newCapacity <=? capacity v then Ok (true, v)
  else
    match tryAllocateBuffer sizeofT newCapacity with
    | None => Ok (false, v)
    | Some nb =>
        '(old, nb) ← move_between (buffer v) 0 (m_size v) nb 0;
        deallocateBuffer old;;
        Ok (true, mk_vector nb (m_size v))
    end.

Definition reserveInitialCapacity (v : Vector) (initialCapacity : Z) : res Vector :=
  if initialCapacity >? 0 then nb ← allocateBuffer sizeofT initialCapacity; Ok (mk_vector nb (m_size v)) else Ok v.

Definition grown (v : Vector) (newMinCapacity : Z) : Z :=
  Z.max newMinCapacity (Z.max minCapacity (u64 (capacity v + capacity v / 4 + 1))).

Definition expandCapacity (v : Vector) (newMinCapacity : Z) : res Vector := reserveCapacity v (grown v newMinCapacity).
Definition tryExpandCapacity (v : Vector) (newMinCapacity : Z) : res (bool * Vector) :=
  tryReserveCapacity v (grown v newMinCapacity).

(** [T* expandCapacity(newMinCapacity, T* ptr)], for one element: a pointer into the vector is
    recomputed from its index after the move, another one is returned as it is
    (a pointer to the raw storage behind the elements would dangle: [UB]). *)
Definition expandCapacity_ref (v : Vector) (newMinCapacity : Z) (ptr : ref) : res (Vector * ref) :=
  match ptr with
  | Other _ => v ← expandCapacity v newMinCapacity; Ok (v, ptr)
  | Own i =>
      if (i <? 0) || (m_size v <=? i) then UB
      else v ← expandCapacity v newMinCapacity; Ok (v, Own i)
  end.

(** [template<typename U> U* expandCapacity(newMinCapacity, U* ptr)], which the calls with a
    [const U*] select: the pointer is returned as it is, so that one into the
    vector is left pointing to the old storage. *)
Definition expandCapacity_array (v : Vector) (newMinCapacity : Z) (ptr : array_ref) : res (Vector * array_ref) :=
  let moves := negb (grown v newMinCapacity <=? capacity v) in
  v ← expandCapacity v newMinCapacity;
  Ok (v, match ptr with OwnArray i => if moves then FreedArray else ptr | _ => ptr end).

(** ** Size *)

Definition shrink (v : Vector) (size : Z) : res Vector :=
  b ← destruct (buffer v) size (m_size v); Ok (mk_vector b (u32 size)).

Definition grow (v : Vector) (size : Z) : res Vector :=
  v ← (if size >? capacity v then expandCapacity v size else Ok v);
  b ← (if capacity v =? 0 then Ok (buffer v) else initializeIfNonPOD (buffer v) (m_size v) size default);
  Ok (mk_vector b (u32 size)).

Definition resize (v : Vector) (size : Z) : res Vector :=
  if size <=? m_size v then b ← destruct (buffer v) size (m_size v); Ok (mk_vector b (u32 size))
  else
    v ← (if size >? capacity v then expandCapacity v size else Ok v);
    b ← (if capacity v =? 0 then Ok (buffer v) else initializeIfNonPOD (buffer v) (m_size v) size default);
    Ok (mk_vector b (u32 size)).

Definition resizeToFit (v : Vector) (size : Z) : res Vector := v ← reserveCapacity v size; resize v size.

(** [shouldReallocateBuffer] is false: the elements cannot be moved with memcpy. *)
Definition shrinkCapacity (v : Vector) (newCapacity : Z) : res Vector :=
  if newCapacity >=? capacity v then Ok v
  else
    v ← (if newCapacity <? m_size v then shrink v newCapacity else Ok v);
    if newCapacity >? 0 then
      nb ← allocateBuffer sizeofT newCapacity;
      '(old, nb) ← move_between (buffer v) 0 (m_size v) nb 0;
      deallocateBuffer old;;
      Ok (mk_vector nb (m_size v))
    else deallocateBuffer (buffer v);; Ok (mk_vector [] (m_size v)).

Definition shrinkToFit (v : Vector) : res Vector := shrinkCapacity v (m_size v).
Definition clear (v : Vector) : res Vector := shrinkCapacity v 0.

(** ** Access *)

Definition at_ (v : Vector) (i : Z) : res T := if i >=? m_size v then Crash else load (buffer v) i.
Definition first (v : Vector) : res T := at_ v 0.
Definition last (v : Vector) : res T := at_ v (u64 (m_size v - 1)).

Definition removeLast (v : Vector) : res Vector := if isEmpty v then Crash else shrink v (m_size v - 1).
Definition takeLast (v : Vector) : res (T * Vector) := x ← last v; v ← removeLast v; Ok (x, v).

(** [notFound] is [None]. *)
Fixpoint find_loop (n : nat) (v : Vector) (matches : T -> bool) (i : Z) : res (option Z) :=
  match n with
  | O => Ok None
  | S n => x ← at_ v i; if matches x then Ok (Some i) else find_loop n v matches (i + 1)
  end.
Definition findMatching (v : Vector) (matches : T -> bool) : res (option Z) := find_loop (Z.to_nat (m_size v)) v matches 0.

Fixpoint reverse_find_loop (n : nat) (v : Vector) (matches : T -> bool) (i : Z) : res (option Z) :=
  match n with
  | O => Ok None
  | S n =>
      let index := m_size v - i in
      x ← at_ v index; if matches x then Ok (Some index) else reverse_find_loop n v matches (i + 1)
  end.
Definition reverseFind (v : Vector) (matches : T -> bool) : res (option Z) :=
  reverse_find_loop (Z.to_nat (m_size v)) v matches 1.

Definition contains (v : Vector) (matches : T -> bool) : res bool :=
  r ← findMatching v matches; Ok (match r with Some _ => true | None => false end).

(** ** Appending *)

Definition appendSlowCase (v : Vector) (value : ref) : res Vector :=
  '(v, ptr) ← expandCapacity_ref v (m_size v + 1) value;
  x ← deref v ptr;
  b ← construct (buffer v) (m_size v) x;
  Ok (mk_vector b (u32 (m_size v + 1))).

Definition append (v : Vector) (value : ref) : res Vector :=
  if negb (m_size v =? capacity v) then
    x ← deref v value;
    b ← construct (buffer v) (m_size v) x;
    Ok (mk_vector b (u32 (m_size v + 1)))
  else appendSlowCase v value.

Definition uncheckedAppend (v : Vector) (x : T) : res Vector :=
  b ← construct (buffer v) (m_size v) x; Ok (mk_vector b (u32 (m_size v + 1))).

Definition appendIfNotContains (v : Vector) (x : T) (equals : T -> bool) : res (bool * Vector) :=
  c ← contains v equals;
  if (c : bool) then Ok (false, v) else v ← append v (Other x); Ok (true, v).

(** [uninitializedCopy(data, &data[dataSize], dst)] *)
Definition copy_from (b : list (option T)) (data : array_ref) (dataSize dst : Z) : res (list (option T)) :=
  match data with
  | OtherArray l => uninitializedCopy (objs l) 0 dataSize b dst
  | OwnArray i => n ← count i (i + dataSize); copy_within_loop n b i dst
  | FreedArray => if dataSize =? 0 then Ok b else UB
  end.

Definition append_array (v : Vector) (data : array_ref) (dataSize : Z) : res Vector :=
  let newSize := u64 (m_size v + dataSize) in
  '(v, data) ← (if newSize >? capacity v then expandCapacity_array v newSize data else Ok (v, data));
  if newSize <? m_size v then Crash
  else
    b ← copy_from (buffer v) data dataSize (m_size v);
    Ok (mk_vector b (u32 newSize)).

(** [appendVector] of a vector that is moved from. *)
Fixpoint unchecked_append_all (v : Vector) (l : list T) : res Vector :=
  match l with [] => Ok v | x :: l => v ← uncheckedAppend v x; unchecked_append_all v l end.
Definition appendVector_move (v : Vector) (l : list T) : res Vector :=
  let newSize := u64 (m_size v + zlen l) in
  v ← (if newSize >? capacity v then expandCapacity v newSize else Ok v);
  unchecked_append_all v l.

(** ** Inserting and removing *)

Definition insert_array (v : Vector) (position : Z) (data : array_ref) (dataSize : Z) : res Vector :=
  let newSize := u64 (m_size v + dataSize) in
  '(v, data) ← (if newSize >? capacity v then expandCapacity_array v newSize data else Ok (v, data));
  if newSize <? m_size v then Crash
  else
    b ← moveOverlapping (buffer v) position (m_size v) (position + dataSize);
    b ← copy_from b data dataSize position;
    Ok (mk_vector b (u32 newSize)).

Definition insert (v : Vector) (position : Z) (value : ref) : res Vector :=
  '(v, ptr) ← (if m_size v =? capacity v then expandCapacity_ref v (m_size v + 1) value else Ok (v, value));
  b ← moveOverlapping (buffer v) position (m_size v) (position + 1);
  x ← deref (mk_vector b (m_size v)) ptr;
  b ← construct b position x;
  Ok (mk_vector b (u32 (m_size v + 1))).

Definition remove (v : Vector) (position : Z) : res Vector :=
  b ← destroy (buffer v) position;
  b ← moveOverlapping b (position + 1) (m_size v) position;
  Ok (mk_vector b (u32 (m_size v - 1))).

Definition remove_range (v : Vector) (position len : Z) : res Vector :=
  b ← destruct (buffer v) position (position + len);
  b ← moveOverlapping b (position + len) (m_size v) position;
  Ok (mk_vector b (u32 (m_size v - len))).

Fixpoint remove_first_loop (n : nat) (v : Vector) (matches : T -> bool) (i : Z) : res (bool * Vector) :=
  match n with
  | O => Ok (false, v)
  | S n =>
      x ← at_ v i;
      if matches x then v ← remove v i; Ok (true, v) else remove_first_loop n v matches (i + 1)
  end.
Definition removeFirstMatching (v : Vector) (matches : T -> bool) (startIndex : Z) : res (bool * Vector) :=
  remove_first_loop (Z.to_nat (m_size v - startIndex)) v matches startIndex.

(** The hole is the raw storage between [holeBegin] and [holeEnd]. *)
Record hole_state := mk_hole { h_buffer : list (option T); holeBegin : Z; holeEnd : Z; matchCount : Z }.

Fixpoint remove_all_loop (n : nat) (matches : T -> bool) (end_ it : Z) (h : hole_state) : res hole_state :=
  match n with
  | O => Ok h
  | S n =>
      x ← load (h_buffer h) it;
      h ← (if matches x then
             '(b, hb) ← (if holeBegin h =? end_ then Ok (h_buffer h, it)
                         else if negb (holeEnd h =? it) then
                           b ← moveOverlapping (h_buffer h) (holeEnd h) it (holeBegin h);
                           Ok (b, holeBegin h + (it - holeEnd h))
                         else Ok (h_buffer h, holeBegin h));
             b ← destroy b it;
             Ok (mk_hole b hb (it + 1) (u32 (matchCount h + 1)))
           else Ok h);
      remove_all_loop n matches end_ (it + 1) h
  end.

Definition removeAllMatching (v : Vector) (matches : T -> bool) (startIndex : Z) : res (Z * Vector) :=
  let end_ := m_size v in
  h ← remove_all_loop (Z.to_nat (end_ - startIndex)) matches end_ startIndex (mk_hole (buffer v) end_ end_ 0);
  b ← (if negb (holeEnd h =? end_) then moveOverlapping (h_buffer h) (holeEnd h) end_ (holeBegin h) else Ok (h_buffer h));
  Ok (matchCount h, mk_vector b (u32 (m_size v - matchCount h))).

(** ** Whole vectors *)

Fixpoint assign_all (b : list (option T)) (i : Z) (l : list T) : res (list (option T)) :=
  match l with [] => Ok b | x :: l => b ← assign b i x; assign_all b (i + 1) l end.

(** [fill(const T& val, newSize)]: [val] is read after the storage was prepared. *)
Definition fill (v : Vector) (val : ref) (newSize : Z) : res Vector :=
  v ← (if m_size v >? newSize then shrink v newSize
       else if newSize >? capacity v then v ← clear v; reserveCapacity v newSize
       else Ok v);
  if newSize =? 0 then Ok (mk_vector (buffer v) 0)
  else
    x ← deref v val;
    b ← assign_all (buffer v) 0 (replicate (Z.to_nat (m_size v)) x);
    b ← uninitializedFill b (m_size v) newSize x;
    Ok (mk_vector b (u32 newSize)).

(** [operator=] from another vector, whose elements are [l]. *)
Definition operator_assign (v : Vector) (l : list T) : res Vector :=
  v ← (if m_size v >? zlen l then shrink v (zlen l)
       else if zlen l >? capacity v then v ← clear v; reserveCapacity v (zlen l)
       else Ok v);
  b ← assign_all (buffer v) 0 (take (Z.to_nat (m_size v)) l);
  b ← uninitializedCopy (objs l) (m_size v) (zlen l) b (m_size v);
  Ok (mk_vector b (u32 (zlen l))).

(** The copy constructor. *)
Definition vector_copy (other : Vector) : res Vector :=
  b ← (if capacity other =? 0 then Ok [] else allocateBuffer sizeofT (capacity other));
  b ← (if zlen b =? 0 then Ok b else uninitializedCopy (buffer other) 0 (m_size other) b 0);
  Ok (mk_vector b (u32 (m_size other))).

Definition swap (a b : Vector) : Vector * Vector := (b, a).

Fixpoint vector_reverse_loop (n : nat) (v : Vector) (i : Z) : res Vector :=
  match n with
  | O => Ok v
  | S n =>
      _ ← at_ v i; _ ← at_ v (m_size v - 1 - i);
      b ← swap_slots (buffer v) i (m_size v - 1 - i);
      vector_reverse_loop n (mk_vector b (m_size v)) (i + 1)
  end.
Definition reverse (v : Vector) : res Vector := vector_reverse_loop (Z.to_nat (m_size v / 2)) v 0.

(** ** Vectors represent lists *)

Context (sizeofT_pos : 0 < sizeofT).

Record rep (v : Vector) (l : list T) : Prop := mk_rep {
  rep_buffer : exists k, buffer v = objs l ++ raw k;
  rep_size : m_size v = zlen l;
  rep_bytes : capacity v * sizeofT <= UINT32_MAX
}.

Lemma le_mul_size n : 0 <= n -> n <= n * sizeofT.
Proof. nia. Qed.

Lemma rep_capacity v l : rep v l -> zlen l <= capacity v /\ 0 <= capacity v <= UINT32_MAX.
Proof.
  intros [[k Hb] Hs Hc]. unfold capacity in *. rewrite Hb in *. autorewrite with zlen in *.
  rewrite zlen_objs, zlen_raw in *. pose proof (zlen_nonneg l).
  split; [lia|]. split; [lia|]. etrans; [apply le_mul_size; lia|done].
Qed.

Lemma rep_split v l : rep v l -> buffer v = objs l ++ raw (Z.to_nat (capacity v - zlen l)) /\ m_size v = zlen l /\
  zlen l <= capacity v /\ 0 <= capacity v <= UINT32_MAX.
Proof.
  intros H. pose proof (rep_capacity v l H). destruct H as [[k Hb] Hs Hc]. split_and!; try lia.
  rewrite Hb at 1. f_equal. f_equal. unfold capacity. rewrite Hb. autorewrite with zlen. rewrite zlen_objs, zlen_raw. lia.
Qed.

Lemma rep_intro b n l k : b = objs l ++ raw k -> n = zlen l -> (zlen l + Z.of_nat k) * sizeofT <= UINT32_MAX ->
  rep (mk_vector b (u32 n)) l.
Proof.
  intros -> -> Hc. pose proof (zlen_nonneg l). pose proof (le_mul_size (zlen l + Z.of_nat k) ltac:(lia)).
  split; cbn; [by exists k|apply wrap_small; unfold UINT32_MAX in *; lia|].
  unfold capacity. cbn. autorewrite with zlen. rewrite zlen_objs, zlen_raw. done.
Qed.

Lemma rep_empty : rep vector_empty [].
Proof. split; [by exists O|done|]. change (0 * sizeofT <= UINT32_MAX). unfold UINT32_MAX. lia. Qed.

(** [fits n]: storage for [n] objects can be allocated. *)
Definition fits (n : Z) : Prop := n * sizeofT <= UINT32_MAX.

(** A step that may need storage for [n] objects: it crashes when that is too
    much, and otherwise satisfies [P]. *)
Definition needs {A} (n : Z) (r : res A) (P : A -> Prop) : Prop :=
  match r with Ok a => P a | Crash => ~ fits n | _ => False end.

Lemma needs_bind {A B} n (r : res A) (f : A -> res B) (P : A -> Prop) (Q : B -> Prop) :
  needs n r P -> (forall a, P a -> needs n (f a) Q) -> needs n (r ≫= f) Q.
Proof. destruct r; cbn; auto. Qed.

Lemma needs_Ok {A} n (r : res A) a (P : A -> Prop) : r = Ok a -> P a -> needs n r P.
Proof. by intros ->. Qed.

Lemma reserve_spec v l n : rep v l ->
  needs n (reserveCapacity v n) (fun v' => rep v' l /\ capacity v' = Z.max n (capacity v)).
Proof.
  intros H. pose proof (rep_split v l H) as (Hb & Hs & Hl & Hc). pose proof (zlen_nonneg l). unfold reserveCapacity.
  destruct (Z.leb_spec n (capacity v)); [cbn; split; [done|lia]|].
  destruct (Z.le_gt_cases (n * sizeofT) UINT32_MAX) as [Hf|Hf].
  2:{ rewrite allocate_crash by done. cbn. unfold fits. lia. }
  rewrite allocate_ok by (done || lia). cbn [mbind res_bind]. rewrite Hb, Hs.
  assert (En : Z.to_nat n = (length l + Z.to_nat (n - zlen l))%nat) by (unfold zlen in *; lia).
  rewrite En, raw_app.
  pose proof (move_between_ok l [] (raw (Z.to_nat (capacity v - zlen l))) [] (raw (Z.to_nat (n - zlen l)))
    0 (zlen l) 0 eq_refl eq_refl ltac:(lia)) as E. cbn [app] in E. rewrite E. clear E. cbn [mbind res_bind].
  rewrite <- raw_app, deallocate_raw. cbn [mbind res_bind needs].
  assert (Hcap : capacity (mk_vector (objs l ++ raw (Z.to_nat (n - zlen l))) (zlen l)) = n).
  { unfold capacity. cbn. autorewrite with zlen. rewrite zlen_objs, zlen_raw. lia. }
  split; [|lia]. split; cbn [buffer m_size]; [by eexists|done|]. by rewrite Hcap.
Qed.

Lemma expand_spec v l n : rep v l ->
  needs (grown v n) (expandCapacity v n) (fun v' => rep v' l /\ capacity v' = Z.max (grown v n) (capacity v)).
Proof. apply reserve_spec. Qed.

Lemma grown_ge v n : n <= grown v n.
Proof. unfold grown. lia. Qed.

Lemma rep_inv v l : rep v l -> exists k, v = mk_vector (objs l ++ raw k) (zlen l) /\ fits (zlen l + Z.of_nat k)
  /\ capacity v = zlen l + Z.of_nat k.
Proof.
  intros [[k Hb] Hs Hc]. destruct v as [b n]. cbn in *. subst. exists k. unfold capacity in *. cbn in *.
  autorewrite with zlen in *. rewrite zlen_objs, zlen_raw in *. done.
Qed.

Lemma capacity_mk l k n : capacity (mk_vector (objs l ++ raw k) n) = zlen l + Z.of_nat k.
Proof. unfold capacity. cbn. autorewrite with zlen. by rewrite zlen_objs, zlen_raw. Qed.

(** The result of an operation that leaves [l] and [k] raw slots. *)
Lemma rep_mk l k n : n = zlen l -> fits (zlen l + Z.of_nat k) -> rep (mk_vector (objs l ++ raw k) (u32 n)) l.
Proof. intros. by apply (rep_intro _ _ _ k). Qed.

Lemma zlen_take (l : list T) n : 0 <= n <= zlen l -> zlen (take (Z.to_nat n) l) = n.
Proof. unfold zlen. intros. rewrite length_take. lia. Qed.
Lemma zlen_drop (l : list T) n : 0 <= n <= zlen l -> zlen (drop (Z.to_nat n) l) = zlen l - n.
Proof. unfold zlen. intros. rewrite length_drop. lia. Qed.

Lemma objs_split (l : list T) n : objs l = objs (take n l) ++ objs (drop n l).
Proof. by rewrite <- objs_app, take_drop. Qed.

Lemma shrink_spec v l n : rep v l -> 0 <= n <= zlen l ->
  exists v', shrink v n = Ok v' /\ rep v' (take (Z.to_nat n) l) /\ capacity v' = capacity v.
Proof.
  intros (k & -> & Hf & Hc)%rep_inv Hn. rewrite Hc. unfold shrink. cbn [buffer m_size].
  pose proof (zlen_take l n Hn). pose proof (zlen_drop l n Hn). pose proof (zlen_nonneg l).
  rewrite (objs_split l (Z.to_nat n)), <- app_assoc.
  rewrite (destruct_ok (drop (Z.to_nat n) l)) by (rewrite ?zlen_objs; lia). cbn [mbind res_bind].
  rewrite <- raw_app. eexists. split; [done|]. rewrite !capacity_mk.
  replace (Z.of_nat (length (drop (Z.to_nat n) l) + k)) with (zlen l - n + Z.of_nat k) by (unfold zlen in *; lia).
  split; [|lia]. apply rep_mk; [done|]. unfold fits in *.
  replace (Z.of_nat (length (drop (Z.to_nat n) l) + k)) with (zlen l - n + Z.of_nat k) by (unfold zlen in *; lia).
  rewrite H. by replace (n + (zlen l - n + Z.of_nat k)) with (zlen l + Z.of_nat k) by lia.
Qed.

Lemma initialize_spec (l : list T) k n x : zlen l <= n <= zlen l + Z.of_nat k ->
  exists k', initializeIfNonPOD (objs l ++ raw k) (zlen l) n x = Ok (objs (l ++ replicate (Z.to_nat (n - zlen l)) x) ++ raw k')
    /\ n + Z.of_nat k' = zlen l + Z.of_nat k.
Proof.
  intros Hn. unfold initializeIfNonPOD. rewrite count_ok by lia. cbn [mbind res_bind].
  exists (k - Z.to_nat (n - zlen l))%nat. split; [|lia].
  replace k with (Z.to_nat (n - zlen l) + (k - Z.to_nat (n - zlen l)))%nat at 1 by lia.
  rewrite raw_app, fill_ok by (by rewrite zlen_objs). by rewrite objs_app, <- app_assoc.
Qed.

(** A vector with room for [n] elements, expanded when needed. *)
Lemma ensure_spec v l n : rep v l ->
  needs (grown v n) (if n >? capacity v then expandCapacity v n else Ok v)
    (fun v' => rep v' l /\ n <= capacity v' /\ capacity v <= capacity v').
Proof.
  intros H. destruct (Z.gtb_spec n (capacity v)); [|cbn; split; [done|lia]].
  pose proof (expand_spec v l n H) as He. unfold needs in *. destruct (expandCapacity v n); try done.
  destruct He as [He ->]. split; [done|]. pose proof (grown_ge v n). lia.
Qed.

(** The common part of [grow] and [resize]. *)
Lemma grow_spec v l n : rep v l -> zlen l <= n ->
  needs (grown v n) (grow v n) (fun v' => rep v' (l ++ replicate (Z.to_nat (n - zlen l)) default)).
Proof.
  intros H Hn. unfold grow. eapply needs_bind; [by apply ensure_spec|].
  intros v1 (H1 & Hc1 & _). apply rep_inv in H1 as (k & -> & Hf & Hc). cbn [buffer m_size].
  rewrite Hc in Hc1 |- *. pose proof (zlen_nonneg l). destruct (Z.eqb_spec (zlen l + Z.of_nat k) 0) as [E|E].
  - cbn [mbind res_bind needs]. assert (n = zlen l) as -> by lia. rewrite Z.sub_diag. cbn [replicate Z.to_nat].
    rewrite app_nil_r. by apply rep_mk.
  - destruct (initialize_spec l k n default ltac:(lia)) as (k' & -> & Hk). cbn [mbind res_bind needs].
    apply rep_mk; autorewrite with zlen; unfold fits in *; [lia|].
    replace (zlen l + Z.of_nat (Z.to_nat (n - zlen l)) + Z.of_nat k') with (zlen l + Z.of_nat k) by lia. done.
Qed.

Lemma resize_spec v l n : rep v l -> 0 <= n ->
  needs (grown v n) (resize v n)
    (fun v' => rep v' (take (Z.to_nat n) l ++ replicate (Z.to_nat (n - zlen l)) default)).
Proof.
  intros H Hn. unfold resize. rewrite (rep_size _ _ H). destruct (Z.leb_spec n (zlen l)) as [Hle|Hgt].
  - destruct (shrink_spec v l n H ltac:(lia)) as (v' & E & Hr & _). unfold shrink in E.
    rewrite (rep_size _ _ H) in E. rewrite E. cbn.
    replace (Z.to_nat (n - zlen l)) with O by lia. by rewrite app_nil_r.
  - rewrite take_ge by (unfold zlen in *; lia). pose proof (grow_spec v l n H ltac:(lia)) as Hg.
    exact Hg.
Qed.

Lemma shrinkCapacity_spec v l n : rep v l -> 0 <= n ->
  exists v', shrinkCapacity v n = Ok v' /\ rep v' (take (Z.to_nat n) l) /\ capacity v' = Z.min n (capacity v).
Proof.
  intros H Hn. unfold shrinkCapacity. pose proof (rep_capacity v l H) as Hcap.
  rewrite Z.geb_leb. destruct (Z.leb_spec (capacity v) n) as [Hle|Hgt].
  { exists v. rewrite take_ge by (unfold zlen in *; lia). split_and!; [done|done|lia]. }
  assert (Hv : exists v1, (if n <? m_size v then shrink v n else Ok v) = Ok v1 /\
    rep v1 (take (Z.to_nat n) l) /\ capacity v1 = capacity v).
  { rewrite (rep_size _ _ H). destruct (Z.ltb_spec n (zlen l)); [apply shrink_spec; [done|lia]|].
    exists v. by rewrite take_ge by (unfold zlen in *; lia). }
  destruct Hv as (v1 & -> & H1 & Hc1). cbn [mbind res_bind].
  assert (Hl1 : zlen (take (Z.to_nat n) l) <= n) by (unfold zlen; rewrite length_take; lia).
  set (l1 := take (Z.to_nat n) l) in *. pose proof (rep_bytes _ _ H1) as Hb1. apply rep_inv in H1 as (k & -> & Hf & Hc).
  cbn [buffer m_size]. destruct (Z.gtb_spec n 0) as [Hpos|Hz].
  - rewrite allocate_ok by (try nia; done). cbn [mbind res_bind].
    assert (En : Z.to_nat n = (length l1 + Z.to_nat (n - zlen l1))%nat) by (unfold zlen in *; lia).
    rewrite En, raw_app.
    pose proof (move_between_ok l1 [] (raw k) [] (raw (Z.to_nat (n - zlen l1))) 0 (zlen l1) 0 eq_refl eq_refl
      ltac:(lia)) as E. cbn [app] in E. rewrite E. clear E. cbn [mbind res_bind].
    rewrite <- raw_app, deallocate_raw. cbn [mbind res_bind]. eexists. split; [done|]. rewrite capacity_mk.
    split; [|lia]. split; cbn; [by eexists|done|]. rewrite capacity_mk.
    replace (zlen l1 + Z.of_nat (Z.to_nat (n - zlen l1))) with n by lia. nia.
  - assert (l1 = []) as E1 by (apply length_zero_iff_nil; unfold zlen in *; lia).
    rewrite E1. cbn [objs fmap list_fmap app]. rewrite deallocate_raw. cbn [mbind res_bind].
    eexists. split; [done|]. split; [apply rep_empty|].
    unfold capacity at 1. cbn [buffer]. rewrite zlen_nil. lia.
Qed.

(** ** Reading *)

Lemma load_own (l : list T) k i x : l !! Z.to_nat i = Some x -> 0 <= i -> load (objs l ++ raw k) i = Ok x.
Proof.
  intros Hx Hi. pose proof (lookup_lt_Some _ _ _ Hx).
  rewrite <- (take_drop_middle l (Z.to_nat i) x Hx). rewrite objs_app, <- app_assoc.
  apply load_mid. rewrite zlen_objs, zlen_take; unfold zlen; lia.
Qed.

Lemma at_spec v l i : rep v l -> 0 <= i -> at_ v i = match l !! Z.to_nat i with Some x => Ok x | None => Crash end.
Proof.
  intros (k & -> & _ & _)%rep_inv Hi. unfold at_. cbn [buffer m_size]. rewrite Z.geb_leb.
  destruct (l !! Z.to_nat i) as [x|] eqn:E.
  - pose proof (lookup_lt_Some _ _ _ E). rewrite (proj2 (Z.leb_gt _ _)) by (unfold zlen; lia). by apply load_own.
  - apply lookup_ge_None in E. by rewrite (proj2 (Z.leb_le _ _)) by (unfold zlen; lia).
Qed.

(** The position of the first match at or behind [i]. *)
Fixpoint find_from (matches : T -> bool) (l : list T) (i : Z) : option Z :=
  match l with [] => None | x :: l => if matches x then Some i else find_from matches l (i + 1) end.

Lemma find_loop_spec v l f : rep v l -> forall k i, l = take i l ++ k -> (i <= length l)%nat ->
  find_loop (length k) v f (Z.of_nat i) = Ok (find_from f k (Z.of_nat i)).
Proof.
  intros H. induction k as [|x k IH]; intros i El Hi; [done|]. cbn [length find_loop find_from].
  assert (Ex : l !! i = Some x).
  { rewrite El, lookup_app_r by (rewrite length_take; lia). rewrite length_take, Nat.min_l, Nat.sub_diag by lia. done. }
  rewrite (at_spec _ _ _ H), Nat2Z.id, Ex by lia. cbn [mbind res_bind]. destruct (f x); [done|].
  replace (Z.of_nat i + 1) with (Z.of_nat (S i)) by lia. pose proof (lookup_lt_Some _ _ _ Ex).
  apply IH; [|lia]. rewrite El at 1. rewrite (take_S_r _ _ _ Ex), <- app_assoc. done.
Qed.

Lemma findMatching_spec v l f : rep v l -> findMatching v f = Ok (find_from f l 0).
Proof.
  intros H. unfold findMatching. rewrite (rep_size _ _ H), to_nat_zlen.
  apply (find_loop_spec v l f H l 0%nat); [done|lia].
Qed.

Lemma removeLast_spec v l : rep v l ->
  match l with
  | [] => removeLast v = Crash
  | _ => exists v', removeLast v = Ok v' /\ rep v' (take (length l - 1) l)
  end.
Proof.
  intros H. unfold removeLast, isEmpty. rewrite (rep_size _ _ H). destruct l as [|x l]; [done|].
  rewrite zlen_cons. pose proof (zlen_nonneg l). destruct (Z.eqb_spec (1 + zlen l) 0); [lia|].
  destruct (shrink_spec v (x :: l) (1 + zlen l - 1) H ltac:(rewrite zlen_cons; lia)) as (v' & -> & Hr & _).
  exists v'. split; [done|]. replace (length (x :: l) - 1)%nat with (Z.to_nat (1 + zlen l - 1)); [done|].
  unfold zlen. cbn. lia.
Qed.

(** ** Appending *)

Definition value_of (l : list T) (r : ref) : option T := match r with Other x => Some x | Own i => zlookup l i end.

Lemma deref_spec l k n r x : value_of l r = Some x -> deref (mk_vector (objs l ++ raw k) n) r = Ok x.
Proof.
  destruct r as [y|i]; cbn; [by intros [= ->]|]. unfold zlookup.
  destruct (Z.leb_spec 0 i); [|done]. intros. by apply load_own.
Qed.

Lemma expand_ref_spec v l n r x : rep v l -> value_of l r = Some x ->
  needs (grown v n) (expandCapacity_ref v n r)
    (fun '(v', r') => r' = r /\ rep v' l /\ n <= capacity v' /\ capacity v <= capacity v').
Proof.
  intros H Hx. pose proof (expand_spec v l n H) as He. pose proof (grown_ge v n) as Hg.
  assert (K : needs (grown v n) (v ← expandCapacity v n; Ok (v, r))
    (fun '(v', r') => r' = r /\ rep v' l /\ n <= capacity v' /\ capacity v <= capacity v')).
  { eapply needs_bind; [exact He|]. cbn. intros v' [Hr Hc]. split_and!; [done|done|lia|lia]. }
  destruct r as [y|i]; [exact K|]. cbn in Hx |- *. unfold zlookup in Hx.
  destruct (Z.leb_spec 0 i) as [Hi|]; [|done]. apply lookup_lt_Some in Hx.
  rewrite (proj2 (Z.ltb_ge _ _)), (rep_size _ _ H), (proj2 (Z.leb_gt _ _)) by (unfold zlen; lia). exact K.
Qed.

Lemma construct_end (l : list T) k x n : n = zlen l ->
  construct (objs l ++ raw (S k)) n x = Ok (objs (l ++ [x]) ++ raw k).
Proof. intros ->. cbn [raw replicate]. rewrite construct_mid by apply zlen_objs. by rewrite objs_app, <- app_assoc. Qed.

Lemma uncheckedAppend_spec v l x : rep v l -> zlen l < capacity v ->
  exists v', uncheckedAppend v x = Ok v' /\ rep v' (l ++ [x]) /\ capacity v' = capacity v.
Proof.
  intros (k & -> & Hf & Hc)%rep_inv Hlt. rewrite Hc in *. destruct k as [|k]; [lia|].
  unfold uncheckedAppend. cbn [buffer m_size]. rewrite construct_end by done. cbn [mbind res_bind].
  eexists. split; [done|]. rewrite capacity_mk. autorewrite with zlen. split; [|lia].
  apply rep_mk; autorewrite with zlen; [lia|]. by replace (zlen l + (1 + 0) + Z.of_nat k) with (zlen l + Z.of_nat (S k)) by lia.
Qed.

Lemma append_spec v l r x : rep v l -> value_of l r = Some x ->
  needs (grown v (zlen l + 1)) (append v r) (fun v' => rep v' (l ++ [x])).
Proof.
  intros H Hx. unfold append, appendSlowCase. rewrite (rep_size _ _ H).
  pose proof (rep_capacity v l H) as Hcap. destruct (Z.eqb_spec (zlen l) (capacity v)) as [E|E]; cbn [negb].
  - eapply needs_bind; [by eapply expand_ref_spec|]. intros [v' r'] (-> & H' & Hc' & _).
    destruct (uncheckedAppend_spec v' l x H' ltac:(lia)) as (v'' & E2 & Hr & _).
    destruct (rep_inv _ _ H') as (k & -> & _ & _). rewrite (deref_spec l k _ r x Hx). cbn [mbind res_bind].
    unfold uncheckedAppend in E2. by rewrite E2.
  - destruct (uncheckedAppend_spec v l x H ltac:(lia)) as (v'' & E2 & Hr & _).
    destruct (rep_inv _ _ H) as (k & -> & _ & _). rewrite (deref_spec l k _ r x Hx). cbn [mbind res_bind].
    unfold uncheckedAppend in E2. cbn [m_size] in E2. by rewrite E2.
Qed.

Definition values_of (l : list T) (r : array_ref) (n : Z) : option (list T) :=
  match r with
  | OtherArray k => if n <=? zlen k then Some (take (Z.to_nat n) k) else None
  | OwnArray i => if (0 <=? i) && (i <? zlen l) && (i + n <=? zlen l) then Some (take (Z.to_nat n) (drop (Z.to_nat i) l))
                  else None
  | FreedArray => None
  end.

(** A pointer into the vector is used only where nothing is reallocated. *)
Definition stays (v : Vector) (r : array_ref) (newSize : Z) : Prop := match r with OtherArray _ => True | _ => newSize <= capacity v end.

Lemma copy_within_ok n : forall (l : list T) k i, (i + n <= length l)%nat ->
  copy_within_loop n (objs l ++ raw (n + k)) (Z.of_nat i) (zlen l)
  = Ok (objs (l ++ take n (drop i l)) ++ raw k).
Proof.
  induction n as [|n IH]; intros l k i Hi; [by rewrite app_nil_r|].
  cbn [copy_within_loop Nat.add]. destruct (lookup_lt_is_Some_2 l i) as [x Hx]; [lia|].
  rewrite (load_own l _ (Z.of_nat i) x) by (rewrite ?Nat2Z.id; done || lia). cbn [mbind res_bind].
  rewrite construct_end by done. cbn [mbind res_bind].
  specialize (IH (l ++ [x]) k (S i)). rewrite length_app in IH. cbn [length] in IH.
  replace (Z.of_nat (S i)) with (Z.of_nat i + 1) in IH by lia.
  replace (zlen (l ++ [x])) with (zlen l + 1) in IH by (autorewrite with zlen; lia).
  rewrite IH by lia. rewrite (drop_S l x i Hx). cbn [take]. rewrite drop_app_le by lia.
  rewrite take_app_le by (rewrite length_drop; lia). by rewrite <- app_assoc.
Qed.

Lemma copy_from_end l k r n xs : 0 <= n -> values_of l r n = Some xs -> n <= Z.of_nat k ->
  exists k', copy_from (objs l ++ raw k) r n (zlen l) = Ok (objs (l ++ xs) ++ raw k') /\
    zlen xs = n /\ Z.of_nat k' = Z.of_nat k - n.
Proof.
  intros Hn Hv Hk. exists (k - Z.to_nat n)%nat.
  assert (Ek : k = (Z.to_nat n + (k - Z.to_nat n))%nat) by lia. destruct r as [m|i|]; cbn in Hv |- *; [| |done].
  - destruct (Z.leb_spec n (zlen m)); [|done]. injection Hv as <-. split_and!; [|by apply zlen_take|lia].
    rewrite Ek at 1. rewrite raw_app, (objs_split m (Z.to_nat n)).
    pose proof (copy_ok (take (Z.to_nat n) m) [] (objs (drop (Z.to_nat n) m)) (objs l) (raw (k - Z.to_nat n)) 0 n (zlen l)
      eq_refl (zlen_objs l) ltac:(rewrite zlen_take; lia)) as E.
    replace (length (take (Z.to_nat n) m)) with (Z.to_nat n) in E by (rewrite length_take; unfold zlen in *; lia).
    cbn [app] in E. rewrite E. by rewrite objs_app, <- app_assoc.
  - destruct (_ && _) eqn:Ec; [|done]. injection Hv as <-. zb. rewrite count_ok by lia. cbn [mbind res_bind].
    replace (Z.to_nat (i + n - i)) with (Z.to_nat n) by lia. rewrite Ek at 1.
    pose proof (copy_within_ok (Z.to_nat n) l (k - Z.to_nat n) (Z.to_nat i) ltac:(unfold zlen in *; lia)) as E.
    rewrite Z2Nat.id in E by lia. rewrite E. split_and!; [done| |lia].
    unfold zlen in *. rewrite length_take, length_drop. lia.
Qed.

(** Room for an array of elements. *)
Lemma ensure_array_spec v l n r : rep v l -> stays v r n ->
  needs (grown v n) (if n >? capacity v then expandCapacity_array v n r else Ok (v, r))
    (fun '(v', r') => r' = r /\ rep v' l /\ n <= capacity v').
Proof.
  intros H Hr. pose proof (ensure_spec v l n H) as He.
  destruct (Z.gtb_spec n (capacity v)) as [Hgt|Hle]; [|cbn; split_and!; [done|done|lia]].
  destruct r as [y|i|]; [|cbn in Hr; lia..]. unfold expandCapacity_array. cbv zeta.
  eapply needs_bind; [exact He|]. cbn. intros v' (Hr' & Hc & _). done.
Qed.

Lemma append_array_spec v l r n xs : rep v l -> 0 <= n < 2 ^ 63 -> values_of l r n = Some xs -> stays v r (zlen l + n) ->
  needs (grown v (zlen l + n)) (append_array v r n) (fun v' => rep v' (l ++ xs)).
Proof.
  intros H Hn Hx Hst. unfold append_array. cbv zeta. pose proof (rep_capacity v l H) as Hcap.
  rewrite (rep_size _ _ H), (wrap_small 64) by (unfold UINT32_MAX in *; pose proof (zlen_nonneg l); lia).
  eapply needs_bind; [by apply (ensure_array_spec v l _ r H)|].
  intros [v' r'] (-> & H' & Hc'). rewrite (rep_size _ _ H'). rewrite (proj2 (Z.ltb_ge _ _)) by lia.
  apply rep_inv in H' as (k & -> & Hf & Hc). cbn [buffer].
  destruct (copy_from_end l k r n xs ltac:(lia) Hx ltac:(lia)) as (k' & -> & Hxs & Hk'). cbn [mbind res_bind needs].
  apply rep_mk; autorewrite with zlen; [lia|]. by replace (zlen l + zlen xs + Z.of_nat k') with (zlen l + Z.of_nat k) by lia.
Qed.

Lemma unchecked_append_all_spec xs : forall v l, rep v l -> zlen l + zlen xs <= capacity v ->
  exists v', unchecked_append_all v xs = Ok v' /\ rep v' (l ++ xs).
Proof.
  induction xs as [|x xs IH]; intros v l H Hc; cbn [unchecked_append_all]; [exists v; by rewrite app_nil_r|].
  rewrite zlen_cons in Hc. pose proof (zlen_nonneg xs).
  destruct (uncheckedAppend_spec v l x H ltac:(lia)) as (v1 & -> & H1 & Hc1). cbn [mbind res_bind].
  destruct (IH v1 (l ++ [x]) H1) as (v2 & E & H2); [rewrite Hc1; autorewrite with zlen; lia|].
  exists v2. rewrite <- app_assoc in H2. done.
Qed.

Lemma appendVector_move_spec v l xs : rep v l -> zlen xs <= UINT32_MAX ->
  needs (grown v (zlen l + zlen xs)) (appendVector_move v xs) (fun v' => rep v' (l ++ xs)).
Proof.
  intros H Hxs. unfold appendVector_move. cbv zeta. pose proof (rep_capacity v l H) as Hcap.
  pose proof (zlen_nonneg l). pose proof (zlen_nonneg xs).
  rewrite (rep_size _ _ H), (wrap_small 64) by (unfold UINT32_MAX in *; lia).
  eapply needs_bind; [by apply ensure_spec|]. intros v1 (Hr1 & Hc1 & _).
  destruct (unchecked_append_all_spec xs v1 l Hr1 Hc1) as (v2 & -> & Hr2). exact Hr2.
Qed.

(** ** Inserting *)

(** A gap of [n > 0] raw slots in front of the element at [p]. *)
Lemma make_gap (l : list T) k p n : 0 <= p <= zlen l -> 0 < n <= Z.of_nat k ->
  moveOverlapping (objs l ++ raw k) p (zlen l) (p + n)
  = Ok (objs (take (Z.to_nat p) l) ++ raw (Z.to_nat n) ++ objs (drop (Z.to_nat p) l) ++ raw (k - Z.to_nat n)).
Proof.
  intros Hp Hn. replace k with (Z.to_nat n + (k - Z.to_nat n))%nat at 1 by lia.
  rewrite raw_app, (objs_split l (Z.to_nat p)), <- app_assoc.
  rewrite (move_up_ok (drop (Z.to_nat p) l)); try done.
  - by rewrite zlen_objs, zlen_take.
  - lia.
  - rewrite zlen_drop; lia.
  - lia.
Qed.

Lemma insert_array_spec v l p xs : rep v l -> 0 <= p <= zlen l -> 0 < zlen xs < 2 ^ 63 ->
  needs (grown v (zlen l + zlen xs)) (insert_array v p (OtherArray xs) (zlen xs))
    (fun v' => rep v' (take (Z.to_nat p) l ++ xs ++ drop (Z.to_nat p) l)).
Proof.
  intros H Hp Hn. unfold insert_array. cbv zeta. pose proof (rep_capacity v l H) as Hcap.
  rewrite (rep_size _ _ H), (wrap_small 64) by (unfold UINT32_MAX in *; pose proof (zlen_nonneg l); lia).
  eapply needs_bind; [by apply (ensure_array_spec v l _ _ H)|].
  intros [v' r'] (-> & H' & Hc'). rewrite (rep_size _ _ H'). rewrite (proj2 (Z.ltb_ge _ _)) by lia.
  apply rep_inv in H' as (k & -> & Hf & Hc). cbn [buffer copy_from].
  rewrite make_gap by lia. cbn [mbind res_bind].
  pose proof (copy_ok xs [] [] (objs (take (Z.to_nat p) l))
    (objs (drop (Z.to_nat p) l) ++ raw (k - Z.to_nat (zlen xs))) 0 (zlen xs) p eq_refl
    ltac:(by rewrite zlen_objs, zlen_take) ltac:(lia)) as E.
  rewrite to_nat_zlen in E |- *. cbn [app] in E. rewrite app_nil_r in E. rewrite E. cbn [mbind res_bind needs].
  rewrite !app_assoc, <- !objs_app, <- app_assoc.
  assert (El : zlen (take (Z.to_nat p) l ++ xs ++ drop (Z.to_nat p) l) = zlen l + zlen xs)
    by (autorewrite with zlen; rewrite zlen_take, zlen_drop; lia).
  apply rep_mk; [lia|]. rewrite El.
  replace (zlen l + zlen xs + Z.of_nat (k - length xs)) with (zlen l + Z.of_nat k) by (unfold zlen in *; lia). done.
Qed.

(** What a reference denotes once the elements from [p] on have moved up. *)
Definition value_after_gap (l : list T) (p : Z) (r : ref) : option T :=
  match r with
  | Other x => Some x
  | Own i => if i <? p then zlookup l i else if i =? p then None else zlookup l (i - 1)
  end.

Lemma load_gap (l : list T) k p i : 0 <= p <= zlen l -> 0 <= i < zlen l ->
  load (objs (take (Z.to_nat p) l) ++ raw 1 ++ objs (drop (Z.to_nat p) l) ++ raw k) i
  = match value_after_gap l p (Own i) with Some x => Ok x | None => UB end.
Proof.
  intros Hp Hi. unfold value_after_gap, load, zlookup.
  rewrite (proj2 (Z.leb_le 0 i)) by lia.
  assert (Hlt : length (objs (take (Z.to_nat p) l)) = Z.to_nat p)
    by (unfold objs; rewrite length_fmap, length_take; unfold zlen in *; lia).
  destruct (Z.ltb_spec i p) as [H1|H1]; [|destruct (Z.eqb_spec i p) as [->|H2]].
  - destruct (lookup_lt_is_Some_2 l (Z.to_nat i)) as [x Hx]; [unfold zlen in *; lia|].
    rewrite lookup_app_l by lia. unfold objs at 1. rewrite list_lookup_fmap, lookup_take_lt, Hx by lia. done.
  - rewrite lookup_app_r by lia. rewrite Hlt, Nat.sub_diag. done.
  - destruct (lookup_lt_is_Some_2 l (Z.to_nat (i - 1))) as [x Hx]; [unfold zlen in *; lia|].
    rewrite lookup_app_r by lia. rewrite Hlt. rewrite (proj2 (Z.leb_le 0 (i - 1))), Hx by lia.
    rewrite lookup_app_r by (cbn; lia). cbn [raw replicate length].
    rewrite lookup_app_l by (unfold objs; rewrite length_fmap, length_drop; unfold zlen in *; lia).
    unfold objs. rewrite list_lookup_fmap, lookup_drop.
    replace (Z.to_nat p + (Z.to_nat i - Z.to_nat p - 1))%nat with (Z.to_nat (i - 1)) by lia. by rewrite Hx.
Qed.

(** [insert] in front of [p], for every reference: the value that is inserted
    is what the reference denotes after the move. *)
Lemma insert_general v l p r x : rep v l -> 0 <= p <= zlen l -> value_of l r = Some x ->
  match value_after_gap l p r with
  | Some y => needs (grown v (zlen l + 1)) (insert v p r)
      (fun v' => rep v' (take (Z.to_nat p) l ++ y :: drop (Z.to_nat p) l))
  | None => insert v p r = UB \/ insert v p r = Crash /\ ~ fits (grown v (zlen l + 1))
  end.
Proof.
  intros H Hp Hx. unfold insert. rewrite (rep_size _ _ H). pose proof (rep_capacity v l H) as Hcap.
  assert (Hroom : needs (grown v (zlen l + 1))
    (if zlen l =? capacity v then expandCapacity_ref v (zlen l + 1) r else Ok (v, r))
    (fun '(v', r') => r' = r /\ rep v' l /\ zlen l < capacity v')).
  { destruct (Z.eqb_spec (zlen l) (capacity v)); [|cbn; split_and!; [done|done|lia]].
    pose proof (expand_ref_spec v l (zlen l + 1) r x H Hx) as He. unfold needs in *.
    destruct (expandCapacity_ref v (zlen l + 1) r) as [[v' r']| | |]; try done.
    destruct He as (-> & Hr & Hc & _). split_and!; [done|done|lia]. }
  assert (Hd : forall k n, deref (mk_vector (objs (take (Z.to_nat p) l) ++ raw 1 ++ objs (drop (Z.to_nat p) l) ++ raw k) n) r
    = match value_after_gap l p r with Some y => Ok y | None => UB end).
  { intros k n. destruct r as [y|i]; [done|]. cbn [deref buffer]. apply load_gap; [lia|].
    cbn in Hx. unfold zlookup in Hx. destruct (Z.leb_spec 0 i); [|done]. apply lookup_lt_Some in Hx.
    unfold zlen. lia. }
  unfold needs in Hroom.
  destruct (if zlen l =? capacity v then _ else _) as [[v' r']| | |]; try done; cbn [mbind res_bind].
  2:{ destruct (value_after_gap l p r); [done|]. by right. }
  destruct Hroom as (-> & H' & Hlt). apply rep_inv in H' as (k & -> & Hf & Hc). cbn [buffer m_size].
  rewrite make_gap by lia. cbn [mbind res_bind]. change (Z.to_nat 1) with 1%nat. rewrite Hd.
  destruct (value_after_gap l p r) as [y|]; cbn [mbind res_bind]; [|by left].
  cbn [raw replicate app]. rewrite construct_mid by (by rewrite zlen_objs, zlen_take). cbn [mbind res_bind needs].
  replace (objs (take (Z.to_nat p) l) ++ Some y :: objs (drop (Z.to_nat p) l) ++ raw (k - 1))
    with (objs (take (Z.to_nat p) l ++ y :: drop (Z.to_nat p) l) ++ raw (k - 1))
    by (rewrite objs_app, <- app_assoc; done).
  assert (El : zlen (take (Z.to_nat p) l ++ y :: drop (Z.to_nat p) l) = zlen l + 1)
    by (autorewrite with zlen; rewrite zlen_take, zlen_drop; lia).
  apply rep_mk; [lia|]. rewrite El. by replace (zlen l + 1 + Z.of_nat (k - 1)) with (zlen l + Z.of_nat k) by lia.
Qed.

Lemma insert_spec v l p r x : rep v l -> 0 <= p <= zlen l -> value_of l r = Some x ->
  (forall i, r = Own i -> i < p) ->
  needs (grown v (zlen l + 1)) (insert v p r) (fun v' => rep v' (take (Z.to_nat p) l ++ x :: drop (Z.to_nat p) l)).
Proof.
  intros H Hp Hx Hr. pose proof (insert_general v l p r x H Hp Hx) as G.
  assert (E : value_after_gap l p r = Some x); [|by rewrite E in G].
  destruct r as [y|i]; [done|]. cbn in *. by rewrite (proj2 (Z.ltb_lt _ _)) by by apply Hr.
Qed.

(** ** Removing *)

(** Closing a gap of [n > 0] raw slots behind [l1]. *)
Lemma close_gap (l1 l2 : list T) n k p q e : p = zlen l1 -> q = p + Z.of_nat n -> e = q + zlen l2 -> (0 < n)%nat ->
  moveOverlapping (objs l1 ++ raw n ++ objs l2 ++ raw k) q e p = Ok (objs (l1 ++ l2) ++ raw (n + k)).
Proof.
  intros -> -> -> Hn. rewrite (move_down_ok l2) by (rewrite ?zlen_objs; done || lia).
  by rewrite raw_app, objs_app, <- app_assoc.
Qed.

Lemma fits_eq n m : n = m -> fits n -> fits m.
Proof. by intros ->. Qed.

Lemma remove_range_spec v l p n : rep v l -> 0 <= p -> 0 < n -> p + n <= zlen l ->
  exists v', remove_range v p n = Ok v' /\ rep v' (take (Z.to_nat p) l ++ drop (Z.to_nat (p + n)) l).
Proof.
  intros (k & -> & Hf & Hc)%rep_inv Hp Hn Hl. unfold remove_range. cbn [buffer m_size].
  set (l1 := take (Z.to_nat p) l). set (l3 := drop (Z.to_nat (p + n)) l).
  set (l2 := take (Z.to_nat n) (drop (Z.to_nat p) l)).
  assert (E : l = l1 ++ l2 ++ l3).
  { unfold l1, l2, l3. replace (Z.to_nat (p + n)) with (Z.to_nat p + Z.to_nat n)%nat by lia.
    by rewrite <- drop_drop, take_drop, take_drop. }
  assert (Z1 : zlen l1 = p) by (apply zlen_take; lia).
  assert (Z2 : zlen l2 = n) by (unfold l2; rewrite zlen_take; [done|]; rewrite zlen_drop; lia).
  assert (Z3 : zlen l3 = zlen l - (p + n)) by (apply zlen_drop; lia).
  assert (Eo : objs l = objs l1 ++ objs l2 ++ objs l3) by (rewrite <- !objs_app; by f_equal).
  rewrite Eo, <- !app_assoc.
  rewrite (destruct_ok l2) by (rewrite ?zlen_objs; lia). cbn [mbind res_bind].
  rewrite (close_gap l1 l3) by (unfold zlen in *; lia). cbn [mbind res_bind].
  eexists. split; [done|]. apply rep_mk; autorewrite with zlen; [lia|].
  eapply fits_eq; [|exact Hf]. unfold zlen in *. lia.
Qed.

Lemma remove_spec v l p : rep v l -> 0 <= p < zlen l ->
  exists v', remove v p = Ok v' /\ rep v' (take (Z.to_nat p) l ++ drop (Z.to_nat (p + 1)) l).
Proof.
  intros H Hp. destruct (remove_range_spec v l p 1 H ltac:(lia) ltac:(lia) ltac:(lia)) as (v' & E & Hr).
  exists v'. split; [|done]. rewrite <- E. unfold remove, remove_range, destruct.
  rewrite count_ok by lia. replace (Z.to_nat (p + 1 - p)) with 1%nat by lia. cbn [mbind res_bind destruct_loop].
  destruct (destroy (buffer v) p); done.
Qed.

Lemma remove_first_loop_spec v l f : rep v l -> forall k i, l = take i l ++ k -> (i <= length l)%nat ->
  exists v', remove_first_loop (length k) v f (Z.of_nat i)
    = Ok (match find_from f k (Z.of_nat i) with Some _ => true | None => false end, v') /\
  rep v' match find_from f k (Z.of_nat i) with Some j => take (Z.to_nat j) l ++ drop (Z.to_nat (j + 1)) l | None => l end.
Proof.
  intros H. induction k as [|x k IH]; intros i El Hi; [by exists v|]. cbn [length remove_first_loop find_from].
  assert (Ex : l !! i = Some x).
  { rewrite El, lookup_app_r by (rewrite length_take; lia). rewrite length_take, Nat.min_l, Nat.sub_diag by lia. done. }
  pose proof (lookup_lt_Some _ _ _ Ex).
  rewrite (at_spec _ _ _ H), Nat2Z.id, Ex by lia. cbn [mbind res_bind]. destruct (f x).
  - destruct (remove_spec v l (Z.of_nat i) H ltac:(unfold zlen; lia)) as (v' & -> & Hr). by exists v'.
  - replace (Z.of_nat i + 1) with (Z.of_nat (S i)) by lia.
    apply IH; [|lia]. rewrite El at 1. rewrite (take_S_r _ _ _ Ex), <- app_assoc. done.
Qed.

Lemma removeFirstMatching_spec v l f start : rep v l -> 0 <= start <= zlen l ->
  let hit := find_from f (drop (Z.to_nat start) l) start in
  exists v', removeFirstMatching v f start = Ok (match hit with Some _ => true | None => false end, v') /\
  rep v' match hit with Some j => take (Z.to_nat j) l ++ drop (Z.to_nat (j + 1)) l | None => l end.
Proof.
  intros H Hs. cbv zeta. unfold removeFirstMatching. rewrite (rep_size _ _ H).
  pose proof (remove_first_loop_spec v l f H (drop (Z.to_nat start) l) (Z.to_nat start)
    ltac:(by rewrite take_drop) ltac:(unfold zlen in *; lia)) as K.
  rewrite length_drop, Z2Nat.id in K by lia.
  by replace (Z.to_nat (zlen l - start)) with (length l - Z.to_nat start)%nat by (unfold zlen in *; lia).
Qed.

(** Inside [remove_all_loop]: [kept], the hole of [h] raw slots, the elements
    [pend] that will be moved down with the next match, and the [rest]. *)
Lemma remove_all_loop_hole f k e : forall rest kept h pend c,
  (0 < h)%nat -> e = zlen kept + Z.of_nat h + zlen pend + zlen rest -> 0 <= c -> c + zlen rest <= UINT32_MAX ->
  exists kept' h' pend',
  remove_all_loop (length rest) f e (zlen kept + Z.of_nat h + zlen pend)
    (mk_hole (objs kept ++ raw h ++ objs pend ++ objs rest ++ raw k) (zlen kept) (zlen kept + Z.of_nat h) c)
  = Ok (mk_hole (objs kept' ++ raw h' ++ objs pend' ++ raw k) (zlen kept') (zlen kept' + Z.of_nat h')
          (c + zlen (List.filter f rest))) /\
  kept' ++ pend' = kept ++ pend ++ List.filter (fun x => negb (f x)) rest /\ (0 < h')%nat /\
  zlen kept' + Z.of_nat h' + zlen pend' = e.
Proof.
  induction rest as [|x rest IH]; intros kept h pend c Hh He Hc0 Hc.
  { exists kept, h, pend. cbn [length remove_all_loop List.filter objs fmap list_fmap app].
    rewrite app_nil_r, zlen_nil, Z.add_0_r in *. done. }
  rewrite zlen_cons in He, Hc. pose proof (zlen_nonneg kept). pose proof (zlen_nonneg pend). pose proof (zlen_nonneg rest).
  cbn [length remove_all_loop h_buffer holeBegin holeEnd matchCount].
  assert (Eb : objs kept ++ raw h ++ objs pend ++ objs (x :: rest) ++ raw k
    = (objs kept ++ raw h ++ objs pend) ++ Some x :: objs rest ++ raw k) by (rewrite <- !app_assoc; done).
  assert (Ex : load (objs kept ++ raw h ++ objs pend ++ objs (x :: rest) ++ raw k) (zlen kept + Z.of_nat h + zlen pend) = Ok x).
  { rewrite Eb. apply load_mid. autorewrite with zlen. rewrite !zlen_objs, zlen_raw. lia. }
  rewrite Ex. cbn [mbind res_bind]. destruct (f x) eqn:Ef; cbn [List.filter negb]; rewrite Ef; cbn [negb].
  - destruct (Z.eqb_spec (zlen kept) e); [lia|].
    assert (K : (if negb (zlen kept + Z.of_nat h =? zlen kept + Z.of_nat h + zlen pend) then
        b ← moveOverlapping (objs kept ++ raw h ++ objs pend ++ objs (x :: rest) ++ raw k) (zlen kept + Z.of_nat h)
              (zlen kept + Z.of_nat h + zlen pend) (zlen kept);
        Ok (b, zlen kept + (zlen kept + Z.of_nat h + zlen pend - (zlen kept + Z.of_nat h)))
      else Ok (objs kept ++ raw h ++ objs pend ++ objs (x :: rest) ++ raw k, zlen kept))
      = Ok ((objs (kept ++ pend) ++ raw h) ++ Some x :: objs rest ++ raw k, zlen (kept ++ pend))).
    { rewrite zlen_app. destruct (Z.eqb_spec (zlen kept + Z.of_nat h) (zlen kept + Z.of_nat h + zlen pend)) as [E|E]; cbn [negb].
      - assert (pend = []) as -> by (apply length_zero_iff_nil; unfold zlen in *; lia).
        rewrite app_nil_r, zlen_nil, Z.add_0_r. cbn [objs fmap list_fmap app]. by rewrite <- app_assoc.
      - rewrite (move_down_ok pend) by (rewrite ?zlen_objs; done || lia). cbn [mbind res_bind].
        rewrite objs_app, <- !app_assoc. f_equal. f_equal. lia. }
    rewrite K. clear K. cbn [mbind res_bind].
    rewrite destroy_mid by (autorewrite with zlen; rewrite zlen_objs, zlen_raw; autorewrite with zlen; lia).
    cbn [mbind res_bind]. rewrite wrap_small by (unfold UINT32_MAX in *; lia).
    destruct (IH (kept ++ pend) (S h) [] (c + 1)) as (k' & h' & p' & E & Hk & Hh' & Hend);
      [lia|autorewrite with zlen; lia|lia|lia|].
    exists k', h', p'. split_and!; [|by rewrite Hk, <- app_assoc|done|done].
    rewrite zlen_cons. replace (c + (1 + zlen (List.filter f rest))) with (c + 1 + zlen (List.filter f rest)) by lia.
    rewrite <- E. rewrite raw_S_end, !zlen_app, zlen_nil, <- !app_assoc. cbn [objs fmap list_fmap app].
    replace (zlen kept + zlen pend + Z.of_nat (S h) + 0) with (zlen kept + Z.of_nat h + zlen pend + 1) by lia.
    by replace (zlen kept + zlen pend + Z.of_nat (S h)) with (zlen kept + Z.of_nat h + zlen pend + 1) by lia.
  - destruct (IH kept h (pend ++ [x]) c) as (k' & h' & p' & E & Hk & Hh' & Hend);
      [done|autorewrite with zlen; lia|done|lia|].
    exists k', h', p'. split_and!; [|by rewrite Hk, <- !app_assoc|done|done].
    rewrite <- E, objs_app, zlen_app, <- !app_assoc. change (zlen [x]) with 1.
    by rewrite Z.add_assoc.
Qed.

Lemma remove_all_loop_start f k e : forall rest pre,
  e = zlen pre + zlen rest -> zlen rest <= UINT32_MAX ->
  let r := remove_all_loop (length rest) f e (zlen pre) (mk_hole (objs (pre ++ rest) ++ raw k) e e 0) in
  (List.filter f rest = [] /\ r = Ok (mk_hole (objs (pre ++ rest) ++ raw k) e e 0)) \/
  exists kept h pend, r = Ok (mk_hole (objs kept ++ raw h ++ objs pend ++ raw k) (zlen kept) (zlen kept + Z.of_nat h)
      (zlen (List.filter f rest))) /\
    kept ++ pend = pre ++ List.filter (fun x => negb (f x)) rest /\ (0 < h)%nat /\ zlen kept + Z.of_nat h + zlen pend = e.
Proof.
  induction rest as [|x rest IH]; intros pre He Hc; cbv zeta; [by left|].
  rewrite zlen_cons in He, Hc. pose proof (zlen_nonneg pre). pose proof (zlen_nonneg rest).
  cbn [length remove_all_loop h_buffer holeBegin holeEnd matchCount].
  assert (Eb : objs (pre ++ x :: rest) ++ raw k = objs pre ++ Some x :: objs rest ++ raw k)
    by (rewrite objs_app, <- app_assoc; done).
  rewrite Eb, load_mid by apply zlen_objs. cbn [mbind res_bind].
  destruct (f x) eqn:Ef; cbn [List.filter negb]; rewrite Ef; cbn [negb].
  - right. rewrite Z.eqb_refl. cbn [mbind res_bind]. rewrite destroy_mid by apply zlen_objs. cbn [mbind res_bind].
    destruct (remove_all_loop_hole f k e rest pre 1 [] 1) as (k' & h' & p' & E & Hk & Hh' & Hend);
      [lia|rewrite zlen_nil; lia|lia|lia|].
    exists k', h', p'. split_and!; [|done|done|done].
    rewrite zlen_nil, Z.add_0_r in E. rewrite zlen_cons. exact E.
  - destruct (IH (pre ++ [x])) as [[E1 E2]|(k' & h' & p' & E & Hk & Hh' & Hend)]; [autorewrite with zlen; lia|lia|left|right].
    + split; [done|]. rewrite zlen_app in E2. rewrite <- Eb. rewrite <- app_assoc in E2. exact E2.
    + exists k', h', p'. rewrite <- !app_assoc in *. rewrite zlen_app in E. rewrite <- Eb. split_and!; done.
Qed.

Lemma filter_partition (f : T -> bool) l : zlen l = zlen (List.filter f l) + zlen (List.filter (fun x => negb (f x)) l).
Proof. induction l as [|x l IH]; [done|]. cbn [List.filter]. destruct (f x); cbn [negb]; rewrite !zlen_cons; lia. Qed.

Lemma filter_none (f : T -> bool) l : List.filter f l = [] -> List.filter (fun x => negb (f x)) l = l.
Proof. induction l as [|x l IH]; [done|]. cbn [List.filter]. destruct (f x); [done|]. cbn. intros. by rewrite IH. Qed.

Lemma removeAllMatching_spec v l f start : rep v l -> 0 <= start <= zlen l ->
  let tail := drop (Z.to_nat start) l in
  exists v', removeAllMatching v f start = Ok (zlen (List.filter f tail), v') /\
  rep v' (take (Z.to_nat start) l ++ List.filter (fun x => negb (f x)) tail).
Proof.
  intros H Hs. cbv zeta. pose proof (rep_capacity v l H) as Hcap. apply rep_inv in H as (k & -> & Hf & Hc).
  unfold removeAllMatching. cbn [buffer m_size].
  set (tail := drop (Z.to_nat start) l). set (pre := take (Z.to_nat start) l).
  assert (Zt : zlen tail = zlen l - start) by (by apply zlen_drop). assert (Zp : zlen pre = start) by (by apply zlen_take).
  assert (El : objs (pre ++ tail) = objs l) by (by unfold pre, tail; rewrite take_drop).
  pose proof (filter_partition f tail) as Hpart.
  pose proof (remove_all_loop_start f k (zlen l) tail pre ltac:(lia) ltac:(lia)) as Hloop. cbv zeta in Hloop.
  rewrite El, Zp in Hloop. replace (length tail) with (Z.to_nat (zlen l - start)) in Hloop by (unfold zlen in *; lia).
  destruct Hloop as [[E1 ->]|(kept & h & pend & -> & Hk & Hh & Hend)];
    cbn [mbind res_bind holeEnd holeBegin h_buffer matchCount].
  - rewrite Z.eqb_refl. cbn [negb mbind res_bind]. rewrite (filter_none f tail E1), E1.
    change (zlen []) with 0. rewrite Z.sub_0_r.
    eexists. split; [done|]. unfold pre, tail. rewrite take_drop. by apply rep_mk.
  - assert (Hz : zlen kept + zlen pend = zlen l - zlen (List.filter f tail))
      by (rewrite <- zlen_app, Hk, zlen_app; lia).
    assert (Hb : (if negb (zlen kept + Z.of_nat h =? zlen l)
      then moveOverlapping (objs kept ++ raw h ++ objs pend ++ raw k) (zlen kept + Z.of_nat h) (zlen l) (zlen kept)
      else Ok (objs kept ++ raw h ++ objs pend ++ raw k)) = Ok (objs (kept ++ pend) ++ raw (h + k))).
    { destruct (Z.eqb_spec (zlen kept + Z.of_nat h) (zlen l)); cbn [negb]; [|by apply close_gap; lia].
      assert (pend = []) as -> by (apply length_zero_iff_nil; unfold zlen in *; lia).
      rewrite app_nil_r, raw_app. done. }
    rewrite Hb. cbn [mbind res_bind]. eexists. split; [done|]. rewrite <- Hk.
    apply rep_mk; rewrite zlen_app; [lia|]. eapply fits_eq; [|exact Hf]. lia.
Qed.

(** ** Whole vectors *)

Lemma assign_all_ok xs : forall pre l post i, zlen pre = i -> length l = length xs ->
  assign_all (pre ++ objs l ++ post) i xs = Ok (pre ++ objs xs ++ post).
Proof.
  induction xs as [|x xs IH]; intros pre [|y l] post i Hi Hl; try done. cbn [assign_all objs fmap list_fmap app].
  rewrite assign_mid by done. cbn [mbind res_bind].
  specialize (IH (pre ++ [Some x]) l post (i + 1)). rewrite <- !app_assoc in IH. apply IH; [|by injection Hl].
  autorewrite with zlen. lia.
Qed.

Lemma load_raw k i : load (raw k : list (option T)) i = UB.
Proof.
  unfold load, zlookup. destruct (0 <=? i); [|done]. destruct (raw k !! Z.to_nat i) as [o|] eqn:E; [|done].
  by apply lookup_replicate in E as [-> _].
Qed.

(** The storage that [fill] and [operator=] prepare for [n] elements. *)
Definition prepare (v : Vector) (n : Z) : res Vector :=
  if m_size v >? n then shrink v n
  else if n >? capacity v then v ← clear v; reserveCapacity v n
  else Ok v.

(** A reference to another object or to an element that the preparation leaves alone. *)
Definition survives (v : Vector) (r : ref) (n : Z) : Prop := match r with Other _ => True | Own i => i < n <= capacity v end.

Lemma prepare_keeps v l n r x : rep v l -> 0 <= n -> value_of l r = Some x ->
  needs n (prepare v n) (fun v' => exists l', rep v' l' /\ zlen l' <= n <= capacity v' /\ (survives v r n -> value_of l' r = Some x)).
Proof.
  intros H Hn Hx. unfold prepare. rewrite (rep_size _ _ H). pose proof (rep_capacity v l H) as Hcap.
  destruct (Z.gtb_spec (zlen l) n) as [Hgt|Hle].
  - destruct (shrink_spec v l n H ltac:(lia)) as (v' & -> & Hr & Hc). cbn. eexists. split; [exact Hr|].
    rewrite zlen_take by lia. split; [lia|]. destruct r as [y|i]; [done|]. cbn [value_of] in Hx |- *. unfold zlookup in *. destruct (Z.leb_spec 0 i); [|done].
    intros Hi. cbn in Hi. by rewrite lookup_take_lt by lia.
  - destruct (Z.gtb_spec n (capacity v)); [|cbn [needs]; exists l; split; [exact H|split; [lia|intros _; exact Hx]]].
    destruct (shrinkCapacity_spec v l 0 H ltac:(lia)) as (v1 & E & Hr & Hc1). unfold clear. rewrite E. cbn [mbind res_bind].
    change (take (Z.to_nat 0) l) with (@nil T) in Hr. pose proof (reserve_spec v1 [] n Hr) as Hres.
    unfold needs in *. destruct (reserveCapacity v1 n); try done. destruct Hres as [Hr2 Hc2]. exists [].
    split; [done|]. rewrite zlen_nil. split; [lia|]. destruct r as [y|i]; [done|]. cbn. lia.
Qed.

Lemma prepare_spec v l n : rep v l -> 0 <= n ->
  needs n (prepare v n) (fun v' => exists l', rep v' l' /\ zlen l' <= n <= capacity v').
Proof.
  intros H Hn. pose proof (prepare_keeps v l n (Other default) default H Hn eq_refl) as P. unfold needs in *.
  destruct (prepare v n); try done. destruct P as (l' & Hr & Hl & _). by exists l'.
Qed.

Lemma fill_spec v l r x n : rep v l -> 0 <= n -> value_of l r = Some x -> survives v r n \/ n = 0 ->
  needs n (fill v r n) (fun v' => rep v' (replicate (Z.to_nat n) x)).
Proof.
  intros H Hn Hx Hs. change (fill v r n) with (v ← prepare v n;
    if n =? 0 then Ok (mk_vector (buffer v) 0) else
    x ← deref v r; b ← assign_all (buffer v) 0 (replicate (Z.to_nat (m_size v)) x);
    b ← uninitializedFill b (m_size v) n x; Ok (mk_vector b (u32 n))).
  eapply needs_bind; [by apply (prepare_keeps v l n r x)|]. intros v' (l' & Hr & Hl' & Hx').
  destruct (Z.eqb_spec n 0) as [->|Hn0].
  { destruct l'; [|rewrite zlen_cons in Hl'; pose proof (zlen_nonneg l'); lia]. apply rep_inv in Hr as (k & -> & Hf & Hc). cbn. by apply (rep_mk [] k 0). }
  apply rep_inv in Hr as (k & -> & Hf & Hc). rewrite Hc in Hl'. destruct Hs as [Hs|]; [|done]. rewrite (deref_spec l' k _ r x (Hx' Hs)). cbn [mbind res_bind buffer m_size].
  rewrite (assign_all_ok _ [] l' (raw k) 0) by (done || by rewrite length_replicate, to_nat_zlen).
  cbn [mbind res_bind app]. unfold uninitializedFill. rewrite count_ok by lia. cbn [mbind res_bind].
  replace k with (Z.to_nat (n - zlen l') + (k - Z.to_nat (n - zlen l')))%nat by lia.
  rewrite raw_app, fill_ok by (rewrite zlen_objs, zlen_replicate; unfold zlen; lia). cbn [mbind res_bind needs].
  pose proof (zlen_nonneg l'). rewrite app_assoc, <- objs_app, <- replicate_add.
  replace (Z.to_nat (zlen l') + Z.to_nat (n - zlen l'))%nat with (Z.to_nat n) by lia.
  apply rep_mk; rewrite zlen_replicate; [lia|]. eapply fits_eq; [|exact Hf]. lia.
Qed.

Lemma assign_spec v l xs : rep v l -> needs (zlen xs) (operator_assign v xs) (fun v' => rep v' xs).
Proof.
  intros H. pose proof (zlen_nonneg xs). change (operator_assign v xs) with (v ← prepare v (zlen xs);
    b ← assign_all (buffer v) 0 (take (Z.to_nat (m_size v)) xs);
    b ← uninitializedCopy (objs xs) (m_size v) (zlen xs) b (m_size v); Ok (mk_vector b (u32 (zlen xs)))).
  eapply needs_bind; [by apply (prepare_spec v l)|]. intros v' (l' & (k & -> & Hf & Hc)%rep_inv & Hl').
  rewrite Hc in Hl'. cbn [buffer m_size]. pose proof (zlen_nonneg l').
  rewrite (assign_all_ok _ [] l' (raw k) 0) by (done || (rewrite length_take; unfold zlen in *; lia)).
  cbn [mbind res_bind app]. set (p := Z.to_nat (zlen l')).
  assert (Zd : zlen (drop p xs) = zlen xs - zlen l') by (apply zlen_drop; lia).
  assert (Zt : zlen (take p xs) = zlen l') by (apply zlen_take; lia).
  replace k with (length (drop p xs) + (k - length (drop p xs)))%nat by (unfold zlen in *; lia). rewrite raw_app.
  pose proof (copy_ok (drop p xs) (objs (take p xs)) [] (objs (take p xs)) (raw (k - length (drop p xs)))
    (zlen l') (zlen xs) (zlen l') ltac:(by rewrite zlen_objs) ltac:(by rewrite zlen_objs) ltac:(lia)) as E.
  rewrite app_nil_r, <- (objs_split xs p) in E.
  rewrite E. cbn [mbind res_bind needs]. rewrite app_assoc, <- objs_split.
  apply rep_mk; [done|]. eapply fits_eq; [|exact Hf]. unfold zlen in *. lia.
Qed.

Lemma ends_assoc {A} (pre mid post : list A) x y : pre ++ (x :: mid ++ [y]) ++ post = (pre ++ x :: mid) ++ y :: post.
Proof. rewrite <- app_assoc. cbn [app]. by rewrite <- app_assoc. Qed.

(** The elements between two blocks of [i] that have changed places are still
    to be reversed. *)
Lemma reverse_loop_spec k : forall n pre mid post,
  fits (zlen (pre ++ mid ++ post) + Z.of_nat k) -> length pre = length post -> n = Nat.div2 (length mid) ->
  vector_reverse_loop n (mk_vector (objs (pre ++ mid ++ post) ++ raw k) (zlen (pre ++ mid ++ post))) (zlen pre)
  = Ok (mk_vector (objs (pre ++ rev mid ++ post) ++ raw k) (zlen (pre ++ mid ++ post))).
Proof.
  induction n as [|n IH]; intros pre mid post Hf Hl Hn.
  { by destruct mid as [|x [|y mid]]. }
  destruct mid as [|x mid]; [done|]. destruct mid as [|y mid _] using rev_ind; [done|].
  assert (Hz : zlen (pre ++ (x :: mid ++ [y]) ++ post) = zlen pre + zlen mid + zlen post + 2)
    by (autorewrite with zlen; lia).
  assert (Hrep : rep (mk_vector (objs (pre ++ (x :: mid ++ [y]) ++ post) ++ raw k) (zlen (pre ++ (x :: mid ++ [y]) ++ post)))
    (pre ++ (x :: mid ++ [y]) ++ post)) by (split; [by eexists|done|by rewrite capacity_mk]).
  pose proof (zlen_nonneg pre). pose proof (zlen_nonneg mid). pose proof (zlen_nonneg post).
  assert (Hlz : zlen pre = zlen post) by (unfold zlen; lia).
  set (j := zlen pre + 1 + zlen mid).
  assert (Ej : zlen (pre ++ (x :: mid ++ [y]) ++ post) - 1 - zlen pre = j) by (unfold j; lia).
  assert (E1 : (pre ++ (x :: mid ++ [y]) ++ post) !! Z.to_nat (zlen pre) = Some x).
  { rewrite lookup_app_r by (unfold zlen; lia). unfold zlen. by rewrite Nat2Z.id, Nat.sub_diag. }
  assert (E2 : (pre ++ (x :: mid ++ [y]) ++ post) !! Z.to_nat j = Some y).
  { rewrite ends_assoc, lookup_app_r; rewrite ?length_app; cbn [length]; unfold j, zlen; [|lia].
    replace (Z.to_nat (Z.of_nat (length pre) + 1 + Z.of_nat (length mid)) - (length pre + S (length mid)))%nat with O by lia. done. }
  cbn [vector_reverse_loop]. cbn [m_size buffer]. rewrite Ej.
  rewrite (at_spec _ _ (zlen pre) Hrep), E1 by lia. cbn [mbind res_bind].
  rewrite (at_spec _ _ j Hrep), E2 by (unfold j; lia). cbn [mbind res_bind].
  unfold swap_slots. rewrite (load_own _ _ _ _ E1) by lia. cbn [mbind res_bind].
  rewrite (load_own _ _ _ _ E2) by (unfold j; lia). cbn [mbind res_bind].
  assert (A1 : assign (objs (pre ++ (x :: mid ++ [y]) ++ post) ++ raw k) (zlen pre) y
    = Ok ((objs pre ++ Some y :: objs mid) ++ Some y :: objs post ++ raw k)).
  { rewrite ends_assoc, !objs_app, <- !app_assoc. cbn [objs fmap list_fmap app]. by rewrite assign_mid by apply zlen_objs. }
  rewrite A1. cbn [mbind res_bind].
  rewrite assign_mid by (unfold j; autorewrite with zlen; rewrite !zlen_objs; lia). cbn [mbind res_bind].
  specialize (IH (pre ++ [y]) mid (x :: post)). replace (zlen (pre ++ [y])) with (zlen pre + 1) in IH by (by rewrite zlen_app).
  assert (Hz2 : zlen ((pre ++ [y]) ++ mid ++ x :: post) = zlen (pre ++ (x :: mid ++ [y]) ++ post))
    by (autorewrite with zlen; lia).
  rewrite <- Hz2. replace ((objs pre ++ Some y :: objs mid) ++ Some x :: objs post ++ raw k)
    with (objs ((pre ++ [y]) ++ mid ++ x :: post) ++ raw k) by (rewrite !objs_app, <- !app_assoc; done).
  rewrite IH; [|by rewrite Hz2|rewrite length_app; cbn; lia|].
  - do 3 f_equal. rewrite <- app_assoc. cbn [rev]. rewrite rev_app_distr. cbn [rev app]. by rewrite <- !app_assoc.
  - cbn [length] in Hn. rewrite length_app, Nat.add_1_r in Hn. cbn in Hn. lia.
Qed.

Lemma reverse_spec v l : rep v l -> exists v', reverse v = Ok v' /\ rep v' (rev l).
Proof.
  intros (k & -> & Hf & Hc)%rep_inv. unfold reverse. cbn [m_size].
  pose proof (reverse_loop_spec k (Nat.div2 (length l)) [] l []) as E.
  cbn [app] in E. rewrite app_nil_r in E. rewrite zlen_nil in E.
  replace (Z.to_nat (zlen l / 2)) with (Nat.div2 (length l)).
  2:{ rewrite Nat.div2_div. unfold zlen. rewrite <- (Nat2Z.id (length l / 2)), Nat2Z.inj_div. done. }
  rewrite E by done. rewrite app_nil_r. eexists. split; [done|].
  assert (El : zlen (rev l) = zlen l) by (unfold zlen; by rewrite length_rev).
  split; cbn; [by eexists|done|]. by rewrite capacity_mk, El.
Qed.

(** ** Operations *)

Inductive op :=
| Append (r : ref)
| AppendArray (r : array_ref) (n : Z)
| AppendVectorMove (l : list T)
| AppendIfNotContains (x : T) (equals : T -> bool)
| Insert (p : Z) (r : ref)
| InsertArray (p : Z) (l : list T)
| Remove (p : Z)
| RemoveRange (p n : Z)
| RemoveLast
| RemoveFirstMatching (f : T -> bool) (start : Z)
| RemoveAllMatching (f : T -> bool) (start : Z)
| Reverse
| Fill (r : ref) (n : Z)
| Assign (l : list T)
| Resize (n : Z)
| Grow (n : Z)
| Shrink (n : Z)
| ReserveCapacity (n : Z)
| ShrinkCapacity (n : Z)
| FindMatching (f : T -> bool).

Inductive answer := Nothing | Flag (b : bool) | Number (n : Z) | Position (o : option Z).

Definition quiet (r : res Vector) : res (answer * Vector) := v ← r; Ok (Nothing, v).
Definition flagged (r : res (bool * Vector)) : res (answer * Vector) := '(b, v) ← r; Ok (Flag b, v).

Definition exec (v : Vector) (o : op) : res (answer * Vector) :=
  match o with
  | Append r => quiet (append v r)
  | AppendArray r n => quiet (append_array v r n)
  | AppendVectorMove l => quiet (appendVector_move v l)
  | AppendIfNotContains x f => flagged (appendIfNotContains v x f)
  | Insert p r => quiet (insert v p r)
  | InsertArray p l => quiet (insert_array v p (OtherArray l) (zlen l))
  | Remove p => quiet (remove v p)
  | RemoveRange p n => quiet (remove_range v p n)
  | RemoveLast => quiet (removeLast v)
  | RemoveFirstMatching f start => flagged (removeFirstMatching v f start)
  | RemoveAllMatching f start => '(n, v) ← removeAllMatching v f start; Ok (Number n, v)
  | Reverse => quiet (reverse v)
  | Fill r n => quiet (fill v r n)
  | Assign l => quiet (operator_assign v l)
  | Resize n => quiet (resize v n)
  | Grow n => quiet (grow v n)
  | Shrink n => quiet (shrink v n)
  | ReserveCapacity n => quiet (reserveCapacity v n)
  | ShrinkCapacity n => quiet (shrinkCapacity v n)
  | FindMatching f => r ← findMatching v f; Ok (Position r, v)
  end.

(** What the caller has to see to: the assertions of the source; references to
    elements that exist; an inserted element that is not at or behind the
    place of insertion; an appended array, and an element to fill with, that is in the vector itself only when
    the storage is kept; ranges that are inserted or removed are not empty, and an inserted array is elsewhere. *)
Definition allowed (v : Vector) (l : list T) (o : op) : Prop :=
  match o with
  | Append r => is_Some (value_of l r)
  | AppendArray r n => 0 <= n < 2 ^ 63 /\ is_Some (values_of l r n) /\ stays v r (zlen l + n)
  | AppendVectorMove k => zlen k <= UINT32_MAX
  | Insert p r => 0 <= p <= zlen l /\ is_Some (value_of l r) /\ (forall i, r = Own i -> i < p)
  | InsertArray p k => 0 <= p <= zlen l /\ 0 < zlen k < 2 ^ 63
  | Remove p => 0 <= p < zlen l
  | RemoveRange p n => 0 <= p /\ 0 < n /\ p + n <= zlen l
  | RemoveLast => l ≠ []
  | RemoveFirstMatching _ start | RemoveAllMatching _ start => 0 <= start <= zlen l
  | Fill r n => 0 <= n /\ is_Some (value_of l r) /\ (survives v r n \/ n = 0)
  | Resize n | ReserveCapacity n | ShrinkCapacity n => 0 <= n
  | Grow n => zlen l <= n
  | Shrink n => 0 <= n <= zlen l
  | _ => True
  end.

(** The same operation on a list. *)
Definition spec (l : list T) (o : op) : answer * list T :=
  match o with
  | Append r => (Nothing, match value_of l r with Some x => l ++ [x] | None => l end)
  | AppendArray r n => (Nothing, match values_of l r n with Some xs => l ++ xs | None => l end)
  | AppendVectorMove k => (Nothing, l ++ k)
  | AppendIfNotContains x f => if existsb f l then (Flag false, l) else (Flag true, l ++ [x])
  | Insert p r => (Nothing, match value_of l r with
                            | Some x => take (Z.to_nat p) l ++ x :: drop (Z.to_nat p) l
                            | None => l end)
  | InsertArray p k => (Nothing, take (Z.to_nat p) l ++ k ++ drop (Z.to_nat p) l)
  | Remove p => (Nothing, take (Z.to_nat p) l ++ drop (Z.to_nat (p + 1)) l)
  | RemoveRange p n => (Nothing, take (Z.to_nat p) l ++ drop (Z.to_nat (p + n)) l)
  | RemoveLast => (Nothing, take (length l - 1) l)
  | RemoveFirstMatching f start =>
      match find_from f (drop (Z.to_nat start) l) start with
      | Some j => (Flag true, take (Z.to_nat j) l ++ drop (Z.to_nat (j + 1)) l)
      | None => (Flag false, l)
      end
  | RemoveAllMatching f start =>
      let tail := drop (Z.to_nat start) l in
      (Number (zlen (List.filter f tail)), take (Z.to_nat start) l ++ List.filter (fun x => negb (f x)) tail)
  | Reverse => (Nothing, rev l)
  | Fill r n => (Nothing, match value_of l r with Some x => replicate (Z.to_nat n) x | None => l end)
  | Assign k => (Nothing, k)
  | Resize n => (Nothing, take (Z.to_nat n) l ++ replicate (Z.to_nat (n - zlen l)) default)
  | Grow n => (Nothing, l ++ replicate (Z.to_nat (n - zlen l)) default)
  | Shrink n => (Nothing, take (Z.to_nat n) l)
  | ReserveCapacity _ => (Nothing, l)
  | ShrinkCapacity n => (Nothing, take (Z.to_nat n) l)
  | FindMatching f => (Position (find_from f l 0), l)
  end.

(** The number of elements an operation needs storage for. *)
Definition demand (v : Vector) (l : list T) (o : op) : Z :=
  match o with
  | Append _ | AppendIfNotContains _ _ | Insert _ _ => grown v (zlen l + 1)
  | AppendArray _ n => grown v (zlen l + n)
  | AppendVectorMove k | InsertArray _ k => grown v (zlen l + zlen k)
  | Fill _ n | ReserveCapacity n => n
  | Assign k => zlen k
  | Resize n | Grow n => grown v n
  | _ => 0
  end.

Lemma find_from_existsb f (l : list T) : forall i, match find_from f l i with Some _ => true | None => false end = existsb f l.
Proof. induction l as [|x l IH]; intros i; [done|]. cbn. destruct (f x); [done|]. apply IH. Qed.

(** The outcome of an operation that represents the list operation [s]. *)
Definition refines (n : Z) (r : res (answer * Vector)) (s : answer * list T) : Prop :=
  needs n r (fun '(a, v') => a = fst s /\ rep v' (snd s)).

Lemma refines_quiet n r l : needs n r (fun v' => rep v' l) -> refines n (quiet r) (Nothing, l).
Proof. intros H. unfold refines, quiet. eapply needs_bind; [exact H|]. done. Qed.

Lemma refines_quiet_ok n r l : (exists v', r = Ok v' /\ rep v' l) -> refines n (quiet r) (Nothing, l).
Proof. intros (v' & -> & H). by apply refines_quiet. Qed.

Lemma appendIfNotContains_spec v l x f : rep v l ->
  refines (grown v (zlen l + 1)) (flagged (appendIfNotContains v x f)) (spec l (AppendIfNotContains x f)).
Proof.
  intros H. cbn [spec]. unfold appendIfNotContains, contains. rewrite (findMatching_spec v l f H).
  cbn [mbind res_bind]. rewrite find_from_existsb. destruct (existsb f l); [done|].
  pose proof (append_spec v l (Other x) x H eq_refl) as Ha. unfold refines, flagged, needs in *.
  by destruct (append v (Other x)).
Qed.

Lemma exec_refines v l o : rep v l -> allowed v l o -> refines (demand v l o) (exec v o) (spec l o).
Proof.
  intros H Ha. destruct o; cbn [allowed exec spec demand] in *.
  - destruct Ha as [x Hx]. rewrite Hx. apply refines_quiet, append_spec; done.
  - destruct Ha as (Hn & [xs Hx] & Hs). rewrite Hx. apply refines_quiet, append_array_spec; done.
  - apply refines_quiet, appendVector_move_spec; done.
  - apply appendIfNotContains_spec, H.
  - destruct Ha as (Hp & [x Hx] & Hr). rewrite Hx. apply refines_quiet, insert_spec; done.
  - destruct Ha as (Hp & Hn). apply refines_quiet, insert_array_spec; done.
  - apply refines_quiet_ok, remove_spec; done.
  - destruct Ha as (Hp & Hn & Hl). apply refines_quiet_ok, remove_range_spec; done.
  - pose proof (removeLast_spec v l H). destruct l; [done|]. by apply refines_quiet_ok.
  - destruct (removeFirstMatching_spec v l f start H Ha) as (v' & E & Hr). unfold flagged. rewrite E.
    cbn [mbind res_bind]. by destruct (find_from f (drop (Z.to_nat start) l) start).
  - destruct (removeAllMatching_spec v l f start H Ha) as (v' & E & Hr). rewrite E. done.
  - apply refines_quiet_ok, reverse_spec, H.
  - destruct Ha as (Hn & [x Hx] & Hs). rewrite Hx. apply refines_quiet. by eapply fill_spec.
  - apply refines_quiet. by eapply assign_spec.
  - apply refines_quiet, resize_spec; done.
  - apply refines_quiet, grow_spec; done.
  - destruct (shrink_spec v l n H Ha) as (v' & E & Hr & _). apply refines_quiet_ok. by exists v'.
  - apply refines_quiet. pose proof (reserve_spec v l n H) as Hr. unfold needs in *.
    destruct (reserveCapacity v n) as [v'| | |]; [by destruct Hr|done..].
  - destruct (shrinkCapacity_spec v l n H Ha) as (v' & E & Hr & _). apply refines_quiet_ok. by exists v'.
  - rewrite (findMatching_spec v l f H). done.
Qed.

(** C38: [Vector] implements lists.  Every operation, called as its assertions
    ask, keeps the objects exactly in the first [size()] slots (none lost, none
    destroyed twice, none read when dead), has on them the effect and the result
    of the list operation, and crashes only when the storage it asks for
    exceeds what an [unsigned] byte count can express.  The argument of [append] may be an element of the vector
    that a reallocation moves.  Excluded, since the code fails there: an array to append that lies in the vector when the vector is reallocated, a value to fill with that is an element which
    the call destroys first, inserting an element of the vector at or before its own place, and inserting or removing an empty range. *)
Theorem vector_implements_list v l o :
  rep v l -> allowed v l o ->
  match exec v o with
  | Ok (a, v') => a = fst (spec l o) /\ rep v' (snd (spec l o))
  | Crash => ~ fits (demand v l o)
  | UB | NoFuel => False
  end.
Proof. apply exec_refines. Qed.

(** Arguments in storage that is given up.  Appending an array that lies in the vector itself reads the old
    storage when there is not enough room, since the pointer is not adjusted; filling a vector
    with one of its elements reads it after [clear]. *)
Theorem vector_own_arguments_freed v l i n :
  rep v l -> 0 <= i < zlen l -> 0 < n ->
  (i + n <= zlen l -> capacity v < zlen l + n -> fits (grown v (zlen l + n)) -> append_array v (OwnArray i) n = UB) /\
  (capacity v < n -> fits n -> fill v (Own i) n = UB).
Proof.
  intros H Hi Hn. pose proof (rep_capacity v l H) as Hcap. split.
  - intros Hin Hc Hf. unfold append_array. cbv zeta. rewrite (rep_size _ _ H), (wrap_small 64) by (unfold UINT32_MAX in *; lia).
    destruct (Z.gtb_spec (zlen l + n) (capacity v)); [|lia]. unfold expandCapacity_array. cbv zeta.
    pose proof (expand_spec v l (zlen l + n) H) as He. unfold needs in He. pose proof (grown_ge v (zlen l + n)).
    rewrite (proj2 (Z.leb_gt _ _)) by lia. cbn [negb]. destruct (expandCapacity v (zlen l + n)) as [v'| | |]; try done.
    destruct He as [Hr _]. cbn [mbind res_bind]. rewrite (rep_size _ _ Hr), (proj2 (Z.ltb_ge _ _)) by lia. cbn [copy_from].
    by rewrite (proj2 (Z.eqb_neq _ _)) by lia.
  - intros Hc Hf. unfold fill. rewrite (rep_size _ _ H). destruct (Z.gtb_spec (zlen l) n); [lia|]. destruct (Z.gtb_spec n (capacity v)); [|lia].
    destruct (shrinkCapacity_spec v l 0 H ltac:(lia)) as (v1 & E & Hr & Hc1). unfold clear. rewrite E. cbn [mbind res_bind].
    change (take (Z.to_nat 0) l) with (@nil T) in Hr. pose proof (reserve_spec v1 [] n Hr) as Hres.
    unfold needs in *. destruct (reserveCapacity v1 n) as [v2| | |]; try done. destruct Hres as [Hr2 _]. cbn [mbind res_bind].
    rewrite (proj2 (Z.eqb_neq _ _)) by lia. apply rep_inv in Hr2 as (k & -> & _ & _). cbn [deref buffer objs fmap list_fmap app].
    by rewrite load_raw.
Qed.

(** [insert] of an element of the vector itself.  The reference is used
    after the elements at and behind the place of insertion have moved up, so an
    element at that place is read from raw storage, and one behind it yields its
    predecessor. *)
Theorem vector_insert_own_element v l p i x :
  rep v l -> 0 <= p <= i -> zlookup l i = Some x -> fits (grown v (zlen l + 1)) ->
  (i = p -> insert v p (Own i) = UB) /\
  (p < i -> exists v' y, zlookup l (i - 1) = Some y /\ insert v p (Own i) = Ok v' /\
     rep v' (take (Z.to_nat p) l ++ y :: drop (Z.to_nat p) l)).
Proof.
  intros H Hp Hx Hf. assert (Hi : i < zlen l).
  { unfold zlookup in Hx. destruct (0 <=? i); [|done]. apply lookup_lt_Some in Hx. unfold zlen. lia. }
  pose proof (insert_general v l p (Own i) x H ltac:(lia) Hx) as G. unfold value_after_gap in G.
  rewrite (proj2 (Z.ltb_ge _ _)) in G by lia. split.
  - intros ->. rewrite Z.eqb_refl in G. destruct G as [G|[_ G]]; [done|]. by exfalso.
  - intros Hlt. destruct (Z.eqb_spec i p); [lia|].
    destruct (lookup_lt_is_Some_2 l (Z.to_nat (i - 1))) as [y Hy]; [unfold zlen in *; lia|].
    assert (Ey : zlookup l (i - 1) = Some y) by (unfold zlookup; by rewrite (proj2 (Z.leb_le _ _)) by lia).
    rewrite Ey in G |- *. unfold needs in G. destruct (insert v p (Own i)) as [v'| | |]; try done.
    by exists v', y.
Qed.

(** Empty ranges.  Inserting no elements, or removing none, in front of an
    element moves the elements behind onto themselves: [moveOverlapping] takes
    its backward branch, constructs each object over the live one and then
    destroys it. *)
Theorem vector_empty_range_destroys v l p :
  rep v l -> 0 <= p < zlen l ->
  insert_array v p (OtherArray []) 0 = UB /\ remove_range v p 0 = UB.
Proof.
  intros H Hp. pose proof (rep_capacity v l H) as Hcap. apply rep_inv in H as (k & -> & Hf & Hc). rewrite Hc in Hcap.
  assert (Hm : moveOverlapping (objs l ++ raw k) p (zlen l) p = UB).
  { rewrite (objs_split l (Z.to_nat p)), <- app_assoc.
    assert (Zd : zlen (drop (Z.to_nat p) l) = zlen l - p) by (apply zlen_drop; lia).
    replace (zlen l) with (p + zlen (drop (Z.to_nat p) l)) by lia.
    apply move_onto_self; [|by rewrite zlen_objs, zlen_take by lia]. intros E. rewrite E, zlen_nil in Zd. lia. }
  split.
  - unfold insert_array. cbv zeta. cbn [m_size]. rewrite Z.add_0_r, (wrap_small 64) by (unfold UINT32_MAX in *; lia).
    rewrite Hc. destruct (Z.gtb_spec (zlen l) (zlen l + Z.of_nat k)); [lia|]. cbn [mbind res_bind].
    rewrite Z.ltb_irrefl. cbn [m_size buffer]. by rewrite Z.add_0_r, Hm.
  - unfold remove_range, destruct. cbn [buffer m_size]. rewrite Z.add_0_r, count_ok, Z.sub_diag by lia.
    change (Z.to_nat 0) with O. cbn [mbind res_bind destruct_loop]. by rewrite Hm.
Qed.

End vector.

(** [1;2;3] live, and storage for [k] more. *)
Definition example (k : nat) : @Vector Z := mk_vector (objs [1; 2; 3] ++ raw k) 3.

Lemma example_rep k : (k < 100)%nat -> rep 8 (example k) [1; 2; 3].
Proof.
  intros Hk. split; [by exists k|done|]. unfold example. rewrite capacity_mk.
  unfold UINT32_MAX. change (zlen [1; 2; 3]) with 3. lia.
Qed.

(** The reference to the second element survives the reallocation that [Append] needs. *)
Lemma vector_implements_list_witness :
  exec 8 0 (example 0) (Append (Own 1)) = Ok (Nothing, mk_vector (objs [1; 2; 3; 2] ++ raw 12) 4) /\
  rep 8 (mk_vector (objs [1; 2; 3; 2] ++ raw 12) 4) [1; 2; 3; 2].
Proof.
  assert (E : exec 8 0 (example 0) (Append (Own 1)) =
    Ok (Nothing, mk_vector (objs [1; 2; 3; 2] ++ raw 12) 4)) by (vm_compute; reflexivity).
  split; [exact E|].
  pose proof (vector_implements_list 8 0 ltac:(lia) (example 0) [1; 2; 3] (Append (Own 1))
    ltac:(apply example_rep; lia) ltac:(by eexists)) as K.
  rewrite E in K. exact (proj2 K).
Defined.

Lemma vector_own_arguments_freed_witness : append_array 8 (example 0) (OwnArray 1) 2 = UB /\ fill 8 (example 0) (Own 1) 4 = UB.
Proof.
  split.
  - apply (vector_own_arguments_freed 8 ltac:(lia) (example 0) [1; 2; 3] 1 2); try (by vm_compute). apply example_rep; lia.
  - apply (vector_own_arguments_freed 8 ltac:(lia) (example 0) [1; 2; 3] 1 4); try (by vm_compute). apply example_rep; lia.
Defined.

Lemma vector_insert_own_element_witness :
  insert 8 (example 2) 1 (Own 1) = UB /\
  exists v' y, zlookup [1; 2; 3] 1 = Some y /\ insert 8 (example 2) 1 (Own 2) = Ok v' /\ rep 8 v' ([1] ++ y :: [2; 3]).
Proof.
  split.
  - apply (vector_insert_own_element 8 ltac:(lia) (example 2) [1; 2; 3] 1 1 2); try done.
    + apply example_rep; lia.
  - apply (vector_insert_own_element 8 ltac:(lia) (example 2) [1; 2; 3] 1 2 3); try done.
    + apply example_rep; lia.
Defined.

Lemma vector_empty_range_destroys_witness :
  insert_array 8 (example 2) 0 (OtherArray []) 0 = UB /\ remove_range (example 2) 2 0 = UB.
Proof.
  split.
  - apply (vector_empty_range_destroys 8 ltac:(lia) (example 2) [1; 2; 3] 0); [apply example_rep; lia|by vm_compute].
  - apply (vector_empty_range_destroys 8 ltac:(lia) (example 2) [1; 2; 3] 2); [apply example_rep; lia|by vm_compute].
Defined.

End Vector.
