(* ===== verification/WtfDeque.v ===== *)
(** * Deque (WTF/wtf/Deque.h)

    A circular buffer over the buffers of WtfBuffer, without inline capacity and
    in a release build: the queue of incoming and outgoing messages of an IPC
    connection.  One slot always stays free, so that equal start and end mean
    empty. *)
From S2P Require Import Prelude WtfBuffer WtfVector.

#[local] Open Scope cfetch_scope.

Module Deque.
Import Buffer.

Section deque.
Context {T : Type}.
Context (sizeofT : Z).
(** [T()] *)
Context (default : T).

Record Deque := mk_deque { m_start : Z; m_end : Z; m_buffer : list (option T) }.

Definition capacity (d : Deque) : Z := zlen (m_buffer d).
Definition deque_empty : Deque := mk_deque 0 0 [].

Definition size (d : Deque) : Z :=
  if m_start d <=? m_end d then m_end d - m_start d else m_end d + capacity d - m_start d.
Definition isEmpty (d : Deque) : bool := m_start d =? m_end d.

(** ** Iterators: an index *)

Definition begin_ (d : Deque) : Z := m_start d.
Definition end_ (d : Deque) : Z := m_end d.
Definition increment (d : Deque) (m_index : Z) : Z := if m_index =? u64 (capacity d - 1) then 0 else m_index + 1.
Definition decrement (d : Deque) (m_index : Z) : Z := if m_index =? 0 then u64 (capacity d - 1) else m_index - 1.
Definition after (d : Deque) (m_index : Z) : res T := load (m_buffer d) m_index.
Definition before (d : Deque) (m_index : Z) : res T :=
  load (m_buffer d) (if m_index =? 0 then u64 (capacity d - 1) else m_index - 1).

(** [std::find_if(begin(), end(), predicate)] *)
Fixpoint find_loop (fuel : nat) (d : Deque) (predicate : T -> bool) (it : Z) : res Z :=
  match fuel with
  | O => NoFuel
  | S fuel =>
      if it =? end_ d then Ok it
      else x ← after d it; if predicate x then Ok it else find_loop fuel d predicate (increment d it)
  end.
Definition findIf (d : Deque) (predicate : T -> bool) : res Z :=
  find_loop (S (length (m_buffer d))) d predicate (begin_ d).
Definition contains (d : Deque) (equals : T -> bool) : res bool :=
  it ← findIf d equals; Ok (negb (it =? end_ d)).

Definition first (d : Deque) : res T := load (m_buffer d) (m_start d).
Definition last (d : Deque) : res T := after d (decrement d (end_ d)).

(** ** Storage *)

Definition destroyAll (d : Deque) : res (list (option T)) :=
  if m_start d <=? m_end d then destruct (m_buffer d) (m_start d) (m_end d)
  else b ← destruct (m_buffer d) 0 (m_end d); destruct b (m_start d) (capacity d).

Definition clear (d : Deque) : res Deque :=
  b ← destroyAll d; deallocateBuffer b;; Ok (mk_deque 0 0 []).

Definition swap (a b : Deque) : Deque * Deque := (b, a).

(** The copy constructor. *)
Definition deque_copy (other : Deque) : res Deque :=
  b ← (if capacity other =? 0 then Ok [] else allocateBuffer sizeofT (capacity other));
  b ← (if m_start other <=? m_end other
       then uninitializedCopy (m_buffer other) (m_start other) (m_end other) b (m_start other)
       else b ← uninitializedCopy (m_buffer other) 0 (m_end other) b 0;
            uninitializedCopy (m_buffer other) (m_start other) (capacity other) b (m_start other));
  Ok (mk_deque (m_start other) (m_end other) b).

Definition expandCapacity (d : Deque) : res Deque :=
  let oldCapacity := capacity d in
  nb ← allocateBuffer sizeofT (Z.max 16 (u64 (oldCapacity + oldCapacity / 4 + 1)));
  if m_start d <=? m_end d then
    '(old, nb) ← move_between (m_buffer d) (m_start d) (m_end d) nb (m_start d);
    deallocateBuffer old;;
    Ok (mk_deque (m_start d) (m_end d) nb)
  else
    '(old, nb) ← move_between (m_buffer d) 0 (m_end d) nb 0;
    let newStart := u64 (zlen nb - (oldCapacity - m_start d)) in
    '(old, nb) ← move_between old (m_start d) oldCapacity nb newStart;
    deallocateBuffer old;;
    Ok (mk_deque newStart (m_end d) nb).

Definition expandCapacityIfNeeded (d : Deque) : res Deque :=
  if negb (m_start d =? 0) then
    if negb (m_end d + 1 =? m_start d) then Ok d else expandCapacity d
  else if negb (m_end d =? 0) then
    if negb (m_end d =? u64 (capacity d - 1)) then Ok d else expandCapacity d
  else if negb (capacity d =? 0) then Ok d
  else expandCapacity d.

(** ** Ends *)

Definition append (d : Deque) (value : T) : res Deque :=
  d ← expandCapacityIfNeeded d;
  b ← construct (m_buffer d) (m_end d) value;
  Ok (mk_deque (m_start d) (if m_end d =? u64 (capacity d - 1) then 0 else m_end d + 1) b).

Definition prepend (d : Deque) (value : T) : res Deque :=
  d ← expandCapacityIfNeeded d;
  let start := if m_start d =? 0 then u64 (capacity d - 1) else m_start d - 1 in
  b ← construct (m_buffer d) start value;
  Ok (mk_deque start (m_end d) b).

Definition removeFirst (d : Deque) : res Deque :=
  b ← destroy (m_buffer d) (m_start d);
  Ok (mk_deque (if m_start d =? u64 (capacity d - 1) then 0 else m_start d + 1) (m_end d) b).

Definition removeLast (d : Deque) : res Deque :=
  let e := if m_end d =? 0 then u64 (capacity d - 1) else m_end d - 1 in
  b ← destroy (m_buffer d) e;
  Ok (mk_deque (m_start d) e b).

Definition takeFirst (d : Deque) : res (T * Deque) := x ← first d; d ← removeFirst d; Ok (x, d).
Definition takeLast (d : Deque) : res (T * Deque) := x ← last d; d ← removeLast d; Ok (x, d).

(** ** In the middle *)

Definition remove (d : Deque) (position : Z) : res Deque :=
  if position =? m_end d then Ok d
  else
    b ← destroy (m_buffer d) position;
    if position >=? m_start d then
      b ← moveOverlapping b (m_start d) position (m_start d + 1);
      Ok (mk_deque (u64 (m_start d + 1) mod capacity d) (m_end d) b)
    else
      b ← moveOverlapping b (position + 1) (m_end d) position;
      Ok (mk_deque (m_start d) (u64 (m_end d - 1 + capacity d) mod capacity d) b).

(** [while (count--)] *)
Fixpoint remove_matching_loop (count : nat) (d : Deque) (func : T -> bool) : res Deque :=
  match count with
  | O => Ok d
  | S count =>
      '(value, d) ← takeFirst d;
      d ← (if negb (func value) then append d value else Ok d);
      remove_matching_loop count d func
  end.
Definition removeAllMatching (d : Deque) (func : T -> bool) : res Deque :=
  remove_matching_loop (Z.to_nat (size d)) d func.

Fixpoint bubble_loop (fuel : nat) (d : Deque) (func : T -> bool) (iter : Z) : res Deque :=
  match fuel with
  | O => NoFuel
  | S fuel =>
      if iter =? begin_ d then Ok d
      else
        let prev := decrement d iter in
        x ← after d prev;
        if negb (func x) then Ok d
        else b ← swap_slots (m_buffer d) prev iter; bubble_loop fuel (mk_deque (m_start d) (m_end d) b) func prev
  end.
Definition appendAndBubble (d : Deque) (value : T) (func : T -> bool) : res Deque :=
  d ← append d value; bubble_loop (S (length (m_buffer d))) d func (decrement d (end_ d)).

(** [while (count--) prepend(takeLast());] *)
Fixpoint rotate_back (count : nat) (d : Deque) : res Deque :=
  match count with
  | O => Ok d
  | S count => '(x, d) ← takeLast d; d ← prepend d x; rotate_back count d
  end.

(** [todo] elements are still to be looked at, [count] have been. *)
Fixpoint take_first_loop (todo count : nat) (d : Deque) (func : T -> bool) : res (T * Deque) :=
  match todo with
  | O => Ok (default, d)
  | S todo =>
      '(candidate, d) ← takeFirst d;
      if func candidate then d ← rotate_back count d; Ok (candidate, d)
      else d ← append d candidate; take_first_loop todo (S count) d func
  end.
Definition takeFirst_if (d : Deque) (func : T -> bool) : res (T * Deque) :=
  take_first_loop (Z.to_nat (u32 (size d))) 0 d func.

(** [while (count--) append(takeFirst());] *)
Fixpoint rotate_forward (count : nat) (d : Deque) : res Deque :=
  match count with
  | O => Ok d
  | S count => '(x, d) ← takeFirst d; d ← append d x; rotate_forward count d
  end.

Fixpoint take_last_loop (todo count : nat) (d : Deque) (func : T -> bool) : res (T * Deque) :=
  match todo with
  | O => Ok (default, d)
  | S todo =>
      '(candidate, d) ← takeLast d;
      if func candidate then d ← rotate_forward count d; Ok (candidate, d)
      else d ← prepend d candidate; take_last_loop todo (S count) d func
  end.
Definition takeLast_if (d : Deque) (func : T -> bool) : res (T * Deque) :=
  take_last_loop (Z.to_nat (u32 (size d))) 0 d func.

(** ** Deques represent lists *)

Context (sizeofT_pos : 0 < sizeofT).

Abbreviation fits := (Vector.fits sizeofT).
Abbreviation needs := (Vector.needs sizeofT).

(** The elements are in one block, or at the end and the begin of the buffer. *)
Inductive layout : Deque -> list T -> Prop :=
| straight (a : nat) l (b : nat) :
    ((0 < b)%nat /\ (2 <= a + length l + b)%nat \/ (a = 0%nat /\ l = [] /\ b = 0%nat)) ->
    layout (mk_deque (Z.of_nat a) (Z.of_nat a + zlen l) (raw a ++ objs l ++ raw b)) l
| wrapped l2 (g : nat) l1 :
    (0 < g)%nat -> l1 ≠ [] ->
    layout (mk_deque (zlen l2 + Z.of_nat g) (zlen l2) (objs l2 ++ raw g ++ objs l1)) (l1 ++ l2).

Definition rep (d : Deque) (l : list T) : Prop := layout d l /\ fits (capacity d).

(** The slots that are free. *)
Definition room (d : Deque) (l : list T) : Z := capacity d - zlen l.

Lemma cap_straight a (l : list T) b s e : capacity (mk_deque s e (raw a ++ objs l ++ raw b)) = Z.of_nat a + zlen l + Z.of_nat b.
Proof. unfold capacity. cbn [m_buffer]. autorewrite with zlen. rewrite zlen_objs, !zlen_raw. lia. Qed.
Lemma cap_wrapped (l2 : list T) g l1 s e : capacity (mk_deque s e (objs l2 ++ raw g ++ objs l1)) = zlen l2 + Z.of_nat g + zlen l1.
Proof. unfold capacity. cbn [m_buffer]. autorewrite with zlen. rewrite !zlen_objs, !zlen_raw. lia. Qed.

Lemma fits_le n : fits n -> 0 <= n -> n <= UINT32_MAX.
Proof. unfold Vector.fits. nia. Qed.

Lemma last_index n : fits n -> 1 <= n -> u64 (n - 1) = n - 1.
Proof. intros Hf Hn. pose proof (fits_le n Hf ltac:(lia)). apply wrap_small. unfold UINT32_MAX in *. lia. Qed.

Lemma deque_rep_empty : rep deque_empty [].
Proof.
  split; [|change (0 * sizeofT <= UINT32_MAX); unfold UINT32_MAX; lia].
  apply (straight 0 [] 0). by right.
Qed.

Lemma size_spec d l : rep d l -> size d = zlen l.
Proof.
  intros [Hl _]. pose proof (zlen_nonneg l). unfold size. destruct Hl as [a l b Hb|l2 g l1 Hg Hl1]; cbn [m_start m_end].
  - rewrite (proj2 (Z.leb_le _ _)) by lia. lia.
  - rewrite (proj2 (Z.leb_gt _ _)) by lia. rewrite cap_wrapped, zlen_app. lia.
Qed.

Lemma deque_isEmpty_spec d l : rep d l -> isEmpty d = bool_decide (l = []).
Proof.
  intros [Hl _]. pose proof (zlen_nonneg l). unfold isEmpty. destruct Hl as [a l b Hb|l2 g l1 Hg Hl1]; cbn [m_start m_end].
  - destruct l as [|x l]; [by rewrite zlen_nil, Z.add_0_r, Z.eqb_refl|]. rewrite zlen_cons in *.
    pose proof (zlen_nonneg l). by rewrite (proj2 (Z.eqb_neq _ _)) by lia.
  - rewrite (proj2 (Z.eqb_neq _ _)) by lia. symmetry. apply bool_decide_eq_false_2. intros E. by apply app_eq_nil in E as [-> _].
Qed.

(** ** Expanding *)

Definition grown (d : Deque) : Z := Z.max 16 (capacity d + capacity d / 4 + 1).

Lemma deque_expand_spec d l : rep d l ->
  needs (grown d) (expandCapacity d) (fun d' => rep d' l /\ capacity d' = grown d).
Proof.
  intros [Hl Hf]. assert (Hc0 : 0 <= capacity d) by apply zlen_nonneg.
  pose proof (fits_le _ Hf Hc0) as Hmax. pose proof (zlen_nonneg l).
  unfold expandCapacity. cbv zeta. rewrite (wrap_small 64 (capacity d + capacity d / 4 + 1)) by (unfold UINT32_MAX in *; zdiv). fold (grown d).
  assert (Hgt : capacity d < grown d) by (unfold grown; zdiv). assert (Hg16 : 16 <= grown d) by (unfold grown; lia).
  set (n := grown d) in *. clearbody n.
  destruct (Z.le_gt_cases (n * sizeofT) UINT32_MAX) as [Hfn|Hfn].
  2:{ rewrite allocate_crash by done. cbn. unfold Vector.fits. lia. }
  rewrite allocate_ok by (done || lia). cbn [mbind res_bind]. pose proof (fits_le n Hfn ltac:(lia)) as Hn.
  destruct Hl as [a l b Hb|l2 g l1 Hg Hl1]; cbn [m_start m_end m_buffer] in *.
  - rewrite cap_straight in *. rewrite (proj2 (Z.leb_le _ _)) by lia.
    set (b' := (Z.to_nat n - a - length l)%nat).
    replace (raw (Z.to_nat n)) with (raw a ++ raw (length l) ++ raw b' : list (option T))
      by (rewrite <- !raw_app; f_equal; unfold b', zlen in *; lia).
    rewrite (move_between_ok l) by (rewrite ?zlen_raw; lia). cbn [mbind res_bind].
    rewrite <- !raw_app, deallocate_raw. cbn [mbind res_bind Vector.needs].
    assert (Hc : capacity (mk_deque (Z.of_nat a) (Z.of_nat a + zlen l) (raw a ++ objs l ++ raw b')) = n)
      by (rewrite cap_straight; unfold b', zlen in *; lia).
    split; [|done]. split; [|by rewrite Hc]. apply straight. left. unfold b', zlen in *. lia.
  - rewrite cap_wrapped in *. pose proof (zlen_nonneg l1). pose proof (zlen_nonneg l2). rewrite (proj2 (Z.leb_gt _ _)) by lia.
    set (g' := (Z.to_nat n - length l2 - length l1)%nat).
    replace (raw (Z.to_nat n)) with (raw (length l2) ++ raw (g' + length l1) : list (option T))
      by (rewrite <- !raw_app; f_equal; unfold g', zlen in *; lia).
    pose proof (move_between_ok l2 [] (raw g ++ objs l1) [] (raw (g' + length l1)) 0 (zlen l2) 0 eq_refl eq_refl ltac:(lia)) as E.
    cbn [app] in E. rewrite E. clear E. cbn [mbind res_bind].
    autorewrite with zlen. rewrite zlen_objs, zlen_raw.
    replace (zlen l2 + Z.of_nat (g' + length l1) - (zlen l2 + Z.of_nat g + zlen l1 - (zlen l2 + Z.of_nat g)))
      with (zlen l2 + Z.of_nat g') by (unfold zlen; lia).
    rewrite (wrap_small 64) by (unfold g', UINT32_MAX, zlen in *; lia).
    pose proof (move_between_ok l1 (raw (length l2) ++ raw g) [] (objs l2 ++ raw g') [] (zlen l2 + Z.of_nat g)
      (zlen l2 + Z.of_nat g + zlen l1) (zlen l2 + Z.of_nat g') ltac:(rewrite zlen_app, !zlen_raw; unfold zlen; lia)
      ltac:(rewrite zlen_app, zlen_objs, zlen_raw; lia) ltac:(lia)) as E.
    rewrite !app_nil_r, <- !app_assoc in E. rewrite (raw_app g' (length l1)), E. clear E. cbn [mbind res_bind].
    rewrite <- !raw_app, deallocate_raw. cbn [mbind res_bind Vector.needs].
    assert (Hc : capacity (mk_deque (zlen l2 + Z.of_nat g') (zlen l2) (objs l2 ++ raw g' ++ objs l1)) = n)
      by (rewrite cap_wrapped; unfold g', zlen in *; lia).
    split; [|done]. split; [|by rewrite Hc]. apply wrapped; [unfold g', zlen in *; lia|done].
Qed.

(** After [expandCapacityIfNeeded] two slots are free. *)
Lemma expand_if_needed_spec d l : rep d l ->
  (2 <= room d l -> expandCapacityIfNeeded d = Ok d) /\
  needs (grown d) (expandCapacityIfNeeded d) (fun d' => rep d' l /\ 2 <= room d' l).
Proof.
  intros H. assert (He : needs (grown d) (expandCapacity d) (fun d' => rep d' l /\ 2 <= room d' l) \/ 2 <= room d l).
  { destruct (Z.le_gt_cases 2 (room d l)) as [|Hr]; [by right|left]. pose proof (deque_expand_spec d l H) as He.
    unfold Vector.needs in *. destruct (expandCapacity d) as [d'| | |]; try done. destruct He as [Hr' Hc'].
    split; [done|]. unfold room in *. rewrite Hc'. unfold grown.
    enough (0 <= zlen l <= capacity d) by zdiv. split; [apply zlen_nonneg|]. destruct H as [[a k b Hb|l2 g l1 Hg Hl1] _];
      [rewrite cap_straight; lia|rewrite cap_wrapped, zlen_app; lia]. }
  assert (K : expandCapacityIfNeeded d = if room d l <? 2 then expandCapacity d else Ok d).
  { clear He. destruct H as [Hl Hf]. unfold expandCapacityIfNeeded, room. pose proof (zlen_nonneg l) as Hz.
    destruct Hl as [a l b Hb|l2 g l1 Hg Hl1]; cbn [m_start m_end] in *.
    - rewrite cap_straight in *. unfold zlen in *.
      assert (b = 0%nat -> a = 0%nat /\ length l = 0%nat) by (destruct Hb as [?|(? & -> & ?)]; [lia|done]).
      destruct (Z.eqb_spec (Z.of_nat a) 0) as [Ea|Ea]; cbn [negb].
      + destruct (Z.eqb_spec (Z.of_nat a + Z.of_nat (length l)) 0) as [El|El]; cbn [negb].
        * destruct (Z.eqb_spec (Z.of_nat a + Z.of_nat (length l) + Z.of_nat b) 0); cbn [negb];
            [by rewrite (proj2 (Z.ltb_lt _ _)) by lia|by rewrite (proj2 (Z.ltb_ge _ _)) by lia].
        * rewrite (last_index _ Hf) by lia.
          destruct (Z.eqb_spec (Z.of_nat a + Z.of_nat (length l)) (Z.of_nat a + Z.of_nat (length l) + Z.of_nat b - 1)); cbn [negb];
            [by rewrite (proj2 (Z.ltb_lt _ _)) by lia|by rewrite (proj2 (Z.ltb_ge _ _)) by lia].
      + rewrite (proj2 (Z.eqb_neq _ _)) by lia. cbn [negb]. by rewrite (proj2 (Z.ltb_ge _ _)) by lia.
    - rewrite cap_wrapped in *. rewrite zlen_app in *. pose proof (zlen_nonneg l1). pose proof (zlen_nonneg l2).
      rewrite (proj2 (Z.eqb_neq (zlen l2 + Z.of_nat g) 0)) by lia. cbn [negb].
      destruct (Z.eqb_spec (zlen l2 + 1) (zlen l2 + Z.of_nat g)); cbn [negb];
        [by rewrite (proj2 (Z.ltb_lt _ _)) by lia|by rewrite (proj2 (Z.ltb_ge _ _)) by lia]. }
  rewrite K. split; [intros; by rewrite (proj2 (Z.ltb_ge _ _)) by lia|].
  destruct (Z.ltb_spec (room d l) 2) as [Hr|Hr]; [destruct He; [done|lia]|]. cbn. done.
Qed.

(** ** Ends *)

Lemma straight_rep a l b s e : (0 < b)%nat -> (2 <= a + length l + b)%nat ->
  s = Z.of_nat a -> e = Z.of_nat a + zlen l -> fits (Z.of_nat a + zlen l + Z.of_nat b) ->
  rep (mk_deque s e (raw a ++ objs l ++ raw b)) l.
Proof. intros Hb Hc -> -> Hf. split; [apply straight; by left|by rewrite cap_straight]. Qed.

Lemma wrapped_rep l2 g l1 s e : (0 < g)%nat -> l1 ≠ [] ->
  s = zlen l2 + Z.of_nat g -> e = zlen l2 -> fits (zlen l2 + Z.of_nat g + zlen l1) ->
  rep (mk_deque s e (objs l2 ++ raw g ++ objs l1)) (l1 ++ l2).
Proof. intros Hg Hl -> -> Hf. split; [by apply wrapped|by rewrite cap_wrapped]. Qed.

Lemma deque_fits_eq n m : fits n -> n = m -> fits m.
Proof. by intros H <-. Qed.

Definition append_body (d : Deque) (x : T) : res Deque :=
  b ← construct (m_buffer d) (m_end d) x;
  Ok (mk_deque (m_start d) (if m_end d =? u64 (capacity d - 1) then 0 else m_end d + 1) b).

Lemma append_body_spec d l x : rep d l -> 2 <= room d l ->
  exists d', append_body d x = Ok d' /\ rep d' (l ++ [x]) /\ capacity d' = capacity d.
Proof.
  intros [Hl Hf] Hr. unfold append_body, room in *.
  destruct Hl as [a l b Hb|l2 g l1 Hg Hl1]; cbn [m_start m_end m_buffer] in *.
  - rewrite cap_straight in *. pose proof (zlen_nonneg l). rewrite (last_index _ Hf) by lia.
    destruct b as [|b]; [destruct Hb as [?|(-> & -> & _)]; lia|].
    assert (Ec : construct (raw a ++ objs l ++ raw (S b)) (Z.of_nat a + zlen l) x = Ok (raw a ++ objs (l ++ [x]) ++ raw b)).
    { cbn [raw replicate]. rewrite app_assoc, construct_mid by (rewrite zlen_app, zlen_objs, zlen_raw; lia).
      by rewrite objs_app, <- !app_assoc. }
    rewrite Ec. cbn [mbind res_bind]. eexists. split; [done|]. rewrite cap_straight, zlen_app. change (zlen [x]) with 1.
    split; [|lia]. destruct (Z.eqb_spec (Z.of_nat a + zlen l) (Z.of_nat a + zlen l + Z.of_nat (S b) - 1)) as [E|E].
    + assert (b = 0%nat) as -> by lia. cbn [raw replicate]. rewrite app_nil_r.
      pose proof (wrapped_rep [] a (l ++ [x]) (Z.of_nat a) 0) as W. rewrite app_nil_r in W. apply W; try done.
      * unfold zlen in *. lia.
      * by destruct l.
      * eapply deque_fits_eq; [exact Hf|]. rewrite zlen_app, zlen_nil. change (zlen [x]) with 1. lia.
    + apply straight_rep; [lia|rewrite length_app; cbn; unfold zlen in *; lia|done|rewrite zlen_app; change (zlen [x]) with 1; lia|].
      eapply deque_fits_eq; [exact Hf|]. rewrite zlen_app. change (zlen [x]) with 1. lia.
  - rewrite cap_wrapped, zlen_app in *. pose proof (zlen_nonneg l1). pose proof (zlen_nonneg l2).
    rewrite (last_index _ Hf) by lia. destruct g as [|g]; [lia|].
    cbn [raw replicate app]. rewrite construct_mid by apply zlen_objs. cbn [mbind res_bind].
    rewrite (proj2 (Z.eqb_neq _ _)) by lia. eexists. split; [done|].
    replace (objs l2 ++ Some x :: replicate g None ++ objs l1) with (objs (l2 ++ [x]) ++ raw g ++ objs l1)
      by (rewrite objs_app, <- app_assoc; done).
    rewrite cap_wrapped, zlen_app. change (zlen [x]) with 1. split; [|lia]. rewrite <- app_assoc.
    apply wrapped_rep; try done; try lia; rewrite ?zlen_app; change (zlen [x]) with 1; [lia|lia|].
    eapply deque_fits_eq; [exact Hf|]. lia.
Qed.

Definition prepend_body (d : Deque) (x : T) : res Deque :=
  let start := if m_start d =? 0 then u64 (capacity d - 1) else m_start d - 1 in
  b ← construct (m_buffer d) start x;
  Ok (mk_deque start (m_end d) b).

Lemma prepend_body_spec d l x : rep d l -> 2 <= room d l ->
  exists d', prepend_body d x = Ok d' /\ rep d' (x :: l) /\ capacity d' = capacity d.
Proof.
  intros [Hl Hf] Hr. unfold prepend_body, room in *. cbv zeta.
  destruct Hl as [a l b Hb|l2 g l1 Hg Hl1]; cbn [m_start m_end m_buffer] in *.
  - rewrite cap_straight in *. pose proof (zlen_nonneg l). rewrite (last_index _ Hf) by lia.
    destruct a as [|a].
    + change (Z.of_nat 0) with 0 in *. change (@raw T 0) with (@nil (option T)) in *. cbn [app].
      rewrite Z.eqb_refl. destruct b as [|b]; [lia|].
      assert (Ec : construct (objs l ++ raw (S b)) (0 + zlen l + Z.of_nat (S b) - 1) x = Ok (objs l ++ raw b ++ objs [x])).
      { rewrite raw_S_end, app_assoc, construct_mid by (rewrite zlen_app, zlen_objs, zlen_raw; lia). by rewrite <- app_assoc. }
      rewrite Ec. cbn [mbind res_bind]. eexists. split; [done|]. rewrite cap_wrapped. change (zlen [x]) with 1. split; [|lia].
      change (x :: l) with ([x] ++ l). apply wrapped_rep; try done; try lia.
      change (zlen [x]) with 1. eapply deque_fits_eq; [exact Hf|]. lia.
    + rewrite (proj2 (Z.eqb_neq _ _)) by lia.
      assert (Ec : construct (raw (S a) ++ objs l ++ raw b) (Z.of_nat (S a) - 1) x = Ok (raw a ++ objs (x :: l) ++ raw b)).
      { rewrite raw_S_end, <- app_assoc. cbn [app]. rewrite construct_mid by (rewrite zlen_raw; lia). done. }
      rewrite Ec. cbn [mbind res_bind]. eexists. split; [done|]. rewrite cap_straight, zlen_cons. split; [|lia].
      apply straight_rep; [destruct Hb as [?|(? & _)]; lia|cbn [length]; destruct Hb as [?|(? & _)]; lia|lia|rewrite zlen_cons; lia|].
      eapply deque_fits_eq; [exact Hf|]. rewrite zlen_cons. lia.
  - rewrite cap_wrapped, zlen_app in *. pose proof (zlen_nonneg l1). pose proof (zlen_nonneg l2).
    rewrite (proj2 (Z.eqb_neq _ _)) by lia. destruct g as [|g]; [lia|].
    assert (Ec : construct (objs l2 ++ raw (S g) ++ objs l1) (zlen l2 + Z.of_nat (S g) - 1) x = Ok (objs l2 ++ raw g ++ objs (x :: l1))).
    { rewrite raw_S_end, <- app_assoc. cbn [app]. rewrite app_assoc, construct_mid by (rewrite zlen_app, zlen_objs, zlen_raw; lia).
      by rewrite <- app_assoc. }
    rewrite Ec. cbn [mbind res_bind]. eexists. split; [done|]. rewrite cap_wrapped, zlen_cons. split; [|lia].
    change (x :: l1 ++ l2) with ((x :: l1) ++ l2). apply wrapped_rep; try done; try lia.
    rewrite zlen_cons. eapply deque_fits_eq; [exact Hf|]. lia.
Qed.

Lemma append_room d l x : rep d l -> 2 <= room d l ->
  exists d', append d x = Ok d' /\ rep d' (l ++ [x]) /\ capacity d' = capacity d.
Proof.
  intros H Hr. unfold append. rewrite (proj1 (expand_if_needed_spec d l H) Hr). by apply append_body_spec.
Qed.

Lemma prepend_room d l x : rep d l -> 2 <= room d l ->
  exists d', prepend d x = Ok d' /\ rep d' (x :: l) /\ capacity d' = capacity d.
Proof.
  intros H Hr. unfold prepend. rewrite (proj1 (expand_if_needed_spec d l H) Hr). by apply prepend_body_spec.
Qed.

Lemma deque_append_spec d l x : rep d l -> needs (grown d) (append d x) (fun d' => rep d' (l ++ [x])).
Proof.
  intros H. unfold append. eapply Vector.needs_bind; [apply (expand_if_needed_spec d l H)|].
  intros d' [H' Hr']. destruct (append_body_spec d' l x H' Hr') as (d2 & E & H2 & _).
  by eapply Vector.needs_Ok.
Qed.

Lemma prepend_spec d l x : rep d l -> needs (grown d) (prepend d x) (fun d' => rep d' (x :: l)).
Proof.
  intros H. unfold prepend. eapply Vector.needs_bind; [apply (expand_if_needed_spec d l H)|].
  intros d' [H' Hr']. destruct (prepend_body_spec d' l x H' Hr') as (d2 & E & H2 & _).
  by eapply Vector.needs_Ok.
Qed.

Lemma deque_rep_inv d l : rep d l ->
  (exists a b, d = mk_deque (Z.of_nat a) (Z.of_nat a + zlen l) (raw a ++ objs l ++ raw b) /\
     ((0 < b)%nat /\ (2 <= a + length l + b)%nat \/ (a = 0%nat /\ l = [] /\ b = 0%nat)) /\
     fits (Z.of_nat a + zlen l + Z.of_nat b)) \/
  (exists l2 g l1, l = l1 ++ l2 /\ d = mk_deque (zlen l2 + Z.of_nat g) (zlen l2) (objs l2 ++ raw g ++ objs l1) /\
     (0 < g)%nat /\ l1 ≠ [] /\ fits (zlen l2 + Z.of_nat g + zlen l1)).
Proof.
  intros [Hl Hf]. destruct Hl as [a l b Hb|l2 g l1 Hg Hl1]; [left|right].
  - rewrite cap_straight in Hf. by exists a, b.
  - rewrite cap_wrapped in Hf. by exists l2, g, l1.
Qed.

Lemma first_spec d x l : rep d (x :: l) -> first d = Ok x.
Proof.
  intros [(a & b & -> & _ & _)|(l2 & g & l1 & El & -> & _ & Hl1 & _)]%deque_rep_inv; unfold first; cbn [m_buffer m_start].
  - cbn [objs fmap list_fmap app]. apply load_mid, zlen_raw.
  - destruct l1 as [|y l1]; [done|]. injection El as -> _. rewrite app_assoc. cbn [objs fmap list_fmap].
    apply load_mid. rewrite zlen_app, zlen_objs, zlen_raw. lia.
Qed.

Lemma removeFirst_spec d x l : rep d (x :: l) ->
  exists d', removeFirst d = Ok d' /\ rep d' l /\ capacity d' = capacity d.
Proof.
  intros [(a & b & -> & Hb & Hf)|(l2 & g & l1 & El & -> & Hg & Hl1 & Hf)]%deque_rep_inv; unfold removeFirst; cbn [m_buffer m_start m_end].
  - rewrite cap_straight, zlen_cons in *. pose proof (zlen_nonneg l). destruct Hb as [[Hb Hc]|(_ & ? & _)]; [|done].
    cbn [objs fmap list_fmap app]. rewrite destroy_mid by apply zlen_raw. cbn [mbind res_bind].
    rewrite (last_index _ Hf), (proj2 (Z.eqb_neq _ _)) by lia. eexists. split; [done|].
    replace (raw a ++ None :: (Some <$> l) ++ raw b) with (raw (S a) ++ objs l ++ raw b) by (rewrite raw_S_end, <- app_assoc; done).
    rewrite cap_straight. split; [|lia]. cbn [length] in Hc.
    apply straight_rep; try lia. eapply deque_fits_eq; [exact Hf|]. lia.
  - rewrite cap_wrapped in *. destruct l1 as [|y l1]; [done|]. injection El as -> ->. rewrite zlen_cons in *.
    pose proof (zlen_nonneg l1). pose proof (zlen_nonneg l2). rewrite (last_index _ Hf) by lia.
    rewrite app_assoc. cbn [objs fmap list_fmap]. rewrite destroy_mid by (rewrite zlen_app, zlen_objs, zlen_raw; lia).
    cbn [mbind res_bind]. eexists. split; [done|].
    replace ((objs l2 ++ raw g) ++ None :: (Some <$> l1)) with (objs l2 ++ raw (S g) ++ objs l1)
      by (rewrite raw_S_end, <- !app_assoc; done).
    rewrite cap_wrapped. split; [|lia].
    destruct (Z.eqb_spec (zlen l2 + Z.of_nat g) (zlen l2 + Z.of_nat g + (1 + zlen l1) - 1)) as [E|E].
    + assert (l1 = []) as -> by (apply length_zero_iff_nil; unfold zlen in *; lia). cbn [app].
      change (objs []) with (@nil (option T)). rewrite app_nil_r.
      apply (straight_rep 0 l2 (S g)); [lia|lia|done|lia|]. eapply deque_fits_eq; [exact Hf|]. rewrite zlen_nil. lia.
    + apply wrapped_rep; try lia; [|eapply deque_fits_eq; [exact Hf|]; lia]. intros ->. rewrite zlen_nil in E. lia.
Qed.

Lemma takeFirst_spec d x l : rep d (x :: l) ->
  exists d', takeFirst d = Ok (x, d') /\ rep d' l /\ capacity d' = capacity d.
Proof.
  intros H. unfold takeFirst. rewrite (first_spec d x l H). cbn [mbind res_bind].
  destruct (removeFirst_spec d x l H) as (d' & -> & Hr). by exists d'.
Qed.

(** The index of the last element. *)
Lemma last_slot d l x : rep d (l ++ [x]) -> exists pre post,
  m_buffer d = pre ++ Some x :: post /\ zlen pre = decrement d (m_end d) /\
  rep (mk_deque (m_start d) (zlen pre) (pre ++ None :: post)) l.
Proof.
  intros [(a & b & -> & Hb & Hf)|(l2 & g & l1 & El & -> & Hg & Hl1 & Hf)]%deque_rep_inv; unfold decrement; cbn [m_buffer m_start m_end].
  - rewrite cap_straight, zlen_app in *. change (zlen [x]) with 1 in *. pose proof (zlen_nonneg l).
    destruct Hb as [[Hb Hc]|(_ & ? & _)]; [|by destruct l].
    exists (raw a ++ objs l), (raw b). rewrite (proj2 (Z.eqb_neq _ _)) by lia.
    rewrite objs_app, zlen_app, zlen_objs, zlen_raw, <- !app_assoc. split_and!; [done|lia|].
    rewrite length_app in Hc. cbn in Hc. apply (straight_rep a l (S b)); try lia. eapply deque_fits_eq; [exact Hf|]. lia.
  - rewrite cap_wrapped in *. pose proof (zlen_nonneg l1). pose proof (zlen_nonneg l2).
    destruct l2 as [|y l2 _] using rev_ind.
    + rewrite app_nil_r in El. subst l1. rewrite zlen_nil, zlen_app in *. change (zlen [x]) with 1 in *.
      rewrite Z.eqb_refl, (last_index _ Hf) by (pose proof (zlen_nonneg l); lia).
      exists (raw g ++ objs l), []. change (objs []) with (@nil (option T)).
      rewrite objs_app, zlen_app, zlen_objs, zlen_raw, <- !app_assoc. split_and!; [done|lia|].
      apply (straight_rep g l 1); try lia. eapply deque_fits_eq; [exact Hf|]. lia.
    + rewrite app_assoc in El. apply app_inj_tail in El as [-> <-]. rewrite zlen_app in *. change (zlen [x]) with 1 in *.
      pose proof (zlen_nonneg l2). rewrite (proj2 (Z.eqb_neq _ _)) by lia.
      exists (objs l2), (raw g ++ objs l1). rewrite zlen_objs, objs_app, <- app_assoc. split_and!; [done|lia|].
      change (None :: raw g ++ objs l1) with (raw (S g) ++ objs l1).
      apply wrapped_rep; try lia; [done|]. eapply deque_fits_eq; [exact Hf|]. lia.
Qed.

Lemma takeLast_spec d x l : rep d (l ++ [x]) ->
  exists d', takeLast d = Ok (x, d') /\ rep d' l /\ capacity d' = capacity d.
Proof.
  intros H. destruct (last_slot d l x H) as (pre & post & Eb & Ep & Hr).
  unfold takeLast, last, after, removeLast, end_. rewrite <- Ep, Eb, load_mid by done. cbn [mbind res_bind].
  change (if m_end d =? 0 then u64 (capacity d - 1) else m_end d - 1) with (decrement d (m_end d)).
  rewrite <- Ep, destroy_mid by done. cbn [mbind res_bind]. eexists. split; [done|]. split; [done|].
  unfold capacity. rewrite Eb. cbn [m_buffer]. autorewrite with zlen. lia.
Qed.

Lemma room_cons d d' x l : capacity d' = capacity d -> room d' l = room d (x :: l) + 1.
Proof. unfold room. rewrite zlen_cons. lia. Qed.

Lemma room_snoc d d' x l : capacity d' = capacity d -> room d' l = room d (l ++ [x]) + 1.
Proof. unfold room. rewrite zlen_app. change (zlen [x]) with 1. lia. Qed.

Lemma room_pos d x l : rep d (x :: l) -> 1 <= room d (x :: l).
Proof.
  unfold room. intros [(a & b & -> & Hb & Hf)|(l2 & g & l1 & El & -> & Hg & Hl1 & Hf)]%deque_rep_inv.
  - rewrite cap_straight. destruct Hb as [?|(_ & ? & _)]; [lia|done].
  - rewrite cap_wrapped, El, zlen_app. lia.
Qed.

Lemma rep_perm_room d l : rep d l -> l ≠ [] -> 1 <= room d l.
Proof. destruct l as [|x l]; [done|]. intros H _. by apply (room_pos d x l). Qed.

(** ** Rotations *)

Lemma remove_matching_spec f : forall todo d kept, rep d (todo ++ kept) ->
  exists d', remove_matching_loop (length todo) d f = Ok d' /\
    rep d' (kept ++ List.filter (fun x => negb (f x)) todo).
Proof.
  induction todo as [|x todo IH]; intros d kept H; cbn [length remove_matching_loop List.filter].
  { exists d. by rewrite app_nil_r. }
  cbn [app] in H. pose proof (room_pos d x _ H) as Hr.
  destruct (takeFirst_spec d x _ H) as (d1 & -> & H1 & Hc1). cbn [mbind res_bind]. destruct (f x); cbn [negb].
  - cbn [mbind res_bind]. by apply IH.
  - destruct (append_room d1 _ x H1) as (d2 & -> & H2 & _); [rewrite (room_cons d d1 x) by done; lia|].
    cbn [mbind res_bind]. rewrite <- app_assoc in H2. destruct (IH d2 (kept ++ [x]) H2) as (d3 & -> & H3).
    exists d3. by rewrite <- app_assoc in H3.
Qed.

Lemma rotate_back_spec : forall n s d l, length s = n -> rep d (l ++ s) ->
  exists d', rotate_back n d = Ok d' /\ rep d' (s ++ l) /\ capacity d' = capacity d.
Proof.
  induction n as [|n IH]; intros s d l Hs H; cbn [rotate_back].
  { destruct s; [|done]. exists d. by rewrite app_nil_r in H. }
  destruct s as [|x s _] using rev_ind; [done|]. rewrite length_app, Nat.add_1_r in Hs. injection Hs as Hs.
  rewrite app_assoc in H. pose proof (rep_perm_room _ _ H ltac:(by destruct (l ++ s))) as Hr.
  destruct (takeLast_spec d x (l ++ s) H) as (d1 & -> & H1 & Hc1). cbn [mbind res_bind].
  destruct (prepend_room d1 _ x H1) as (d2 & -> & H2 & Hc2); [rewrite (room_snoc d d1 x) by done; lia|].
  cbn [mbind res_bind]. destruct (IH s d2 (x :: l) Hs H2) as (d3 & -> & H3 & Hc3).
  exists d3. rewrite <- app_assoc. split_and!; [done|done|lia].
Qed.

Lemma rotate_forward_spec : forall n s d l, length s = n -> rep d (s ++ l) ->
  exists d', rotate_forward n d = Ok d' /\ rep d' (l ++ s) /\ capacity d' = capacity d.
Proof.
  induction n as [|n IH]; intros [|x s] d l Hs H; try done; cbn [rotate_forward].
  { exists d. by rewrite app_nil_r. }
  injection Hs as Hs. cbn [app] in H. pose proof (room_pos d x _ H) as Hr.
  destruct (takeFirst_spec d x _ H) as (d1 & -> & H1 & Hc1). cbn [mbind res_bind].
  destruct (append_room d1 _ x H1) as (d2 & -> & H2 & Hc2); [rewrite (room_cons d d1 x) by done; lia|].
  cbn [mbind res_bind]. rewrite <- app_assoc in H2. destruct (IH s d2 (l ++ [x]) Hs H2) as (d3 & -> & H3 & Hc3).
  exists d3. rewrite <- app_assoc in H3. split_and!; [done|done|lia].
Qed.

(** Taking the first element that matches out of a list. *)
Fixpoint take_first (f : T -> bool) (l : list T) : option (T * list T) :=
  match l with
  | [] => None
  | x :: l => if f x then Some (x, l) else (fun '(y, k) => (y, x :: k)) <$> take_first f l
  end.

Definition or_default (o : option (T * list T)) (l : list T) : T * list T :=
  match o with Some r => r | None => (default, l) end.

Lemma take_first_loop_spec f : forall todo seen d, rep d (todo ++ seen) ->
  let r := or_default ((fun '(y, k) => (y, seen ++ k)) <$> take_first f todo) (seen ++ todo) in
  exists d', take_first_loop (length todo) (length seen) d f = Ok (fst r, d') /\ rep d' (snd r).
Proof.
  induction todo as [|x todo IH]; intros seen d H; cbv zeta; cbn [length take_first_loop take_first].
  { exists d. by rewrite app_nil_r. }
  cbn [app] in H. pose proof (room_pos d x _ H) as Hr.
  destruct (takeFirst_spec d x _ H) as (d1 & -> & H1 & Hc1). cbn [mbind res_bind]. destruct (f x).
  - destruct (rotate_back_spec (length seen) seen d1 todo eq_refl H1) as (d2 & -> & H2 & _). by exists d2.
  - destruct (append_room d1 _ x H1) as (d2 & -> & H2 & Hc2); [rewrite (room_cons d d1 x) by done; lia|].
    cbn [mbind res_bind]. rewrite <- app_assoc in H2. specialize (IH (seen ++ [x]) d2 H2). cbv zeta in IH.
    rewrite length_app, Nat.add_1_r in IH. destruct IH as (d3 & E & H3). exists d3.
    rewrite E. destruct (take_first f todo) as [[y k]|]; cbn in *; by rewrite <- app_assoc in H3.
Qed.

Lemma take_last_loop_spec f : forall todo seen d, rep d (seen ++ rev todo) ->
  let r := or_default ((fun '(y, k) => (y, rev k ++ seen)) <$> take_first f todo) (rev todo ++ seen) in
  exists d', take_last_loop (length todo) (length seen) d f = Ok (fst r, d') /\ rep d' (snd r).
Proof.
  induction todo as [|x todo IH]; intros seen d H; cbv zeta; cbn [length take_last_loop take_first rev] in *.
  { exists d. by rewrite app_nil_r in H. }
  rewrite app_assoc in H. pose proof (rep_perm_room _ _ H ltac:(by destruct (seen ++ rev todo))) as Hr.
  destruct (takeLast_spec d x _ H) as (d1 & -> & H1 & Hc1). cbn [mbind res_bind]. destruct (f x).
  - destruct (rotate_forward_spec (length seen) seen d1 (rev todo) eq_refl H1) as (d2 & -> & H2 & _). by exists d2.
  - destruct (prepend_room d1 _ x H1) as (d2 & -> & H2 & Hc2); [rewrite (room_snoc d d1 x) by done; lia|].
    cbn [mbind res_bind]. specialize (IH (x :: seen) d2 H2). cbv zeta in IH. destruct IH as (d3 & E & H3).
    exists d3. cbn [length] in E. rewrite E.
    destruct (take_first f todo) as [[y k]|]; cbn in *; by rewrite <- app_assoc.
Qed.

Lemma size_bounds d l : rep d l -> zlen l <= UINT32_MAX.
Proof.
  intros [(a & b & -> & _ & Hf)|(l2 & g & l1 & -> & -> & _ & _ & Hf)]%deque_rep_inv; apply fits_le in Hf; rewrite ?zlen_app;
    try pose proof (zlen_nonneg l); try (pose proof (zlen_nonneg l1); pose proof (zlen_nonneg l2)); lia.
Qed.

(** ** Positions *)

(** The index of the element at position [j]. *)
Definition pos (d : Deque) (j : Z) : Z :=
  if m_start d + j <? capacity d then m_start d + j else m_start d + j - capacity d.

(** Where an element is: in the block, or in one of the two. *)
Lemma slot_cases d p x s : rep d (p ++ x :: s) ->
  (exists a b, d = mk_deque (Z.of_nat a) (Z.of_nat a + zlen (p ++ x :: s)) (raw a ++ objs p ++ Some x :: objs s ++ raw b) /\
     (0 < b)%nat /\ fits (Z.of_nat a + zlen (p ++ x :: s) + Z.of_nat b)) \/
  (exists l2 g s1, s = s1 ++ l2 /\ (0 < g)%nat /\ fits (zlen l2 + Z.of_nat g + zlen (p ++ x :: s1)) /\
     d = mk_deque (zlen l2 + Z.of_nat g) (zlen l2) (objs l2 ++ raw g ++ objs p ++ Some x :: objs s1)) \/
  (exists l1 p2 g, p = l1 ++ p2 /\ (0 < g)%nat /\ l1 ≠ [] /\ fits (zlen (p2 ++ x :: s) + Z.of_nat g + zlen l1) /\
     d = mk_deque (zlen (p2 ++ x :: s) + Z.of_nat g) (zlen (p2 ++ x :: s)) (objs p2 ++ Some x :: objs s ++ raw g ++ objs l1)).
Proof.
  intros [(a & b & -> & Hb & Hf)|(l2 & g & l1 & El & -> & Hg & Hl1 & Hf)]%deque_rep_inv; [left|right].
  - destruct Hb as [[Hb _]|(_ & ? & _)]; [|by destruct p]. exists a, b. by rewrite objs_app, <- app_assoc.
  - apply app_eq_app in El as (k & [[-> ->]|[-> E2]]); [right|].
    { exists l1, k, g. by rewrite objs_app, <- app_assoc. }
    destruct k as [|z k]; [right|left].
    + cbn in E2. subst l2. rewrite app_nil_r in *. exists p, [], g. rewrite app_nil_r. done.
    + injection E2 as <- ->. exists l2, g, k. by rewrite objs_app.
Qed.

Lemma slot_spec d p x s : rep d (p ++ x :: s) -> exists pre post,
  m_buffer d = pre ++ Some x :: post /\ zlen pre = pos d (zlen p) /\
  (forall y, rep (mk_deque (m_start d) (m_end d) (pre ++ Some y :: post)) (p ++ y :: s)).
Proof.
  unfold pos, capacity. pose proof (zlen_nonneg p). pose proof (zlen_nonneg s).
  intros [(a & b & -> & Hb & Hf)|[(l2 & g & s1 & -> & Hg & Hf & ->)|(l1 & p2 & g & -> & Hg & Hl1 & Hf & ->)]]%slot_cases;
    cbn [m_buffer m_start m_end]; autorewrite with zlen in *; rewrite !zlen_objs, ?zlen_raw.
  - rewrite (proj2 (Z.ltb_lt _ _)) by lia. exists (raw a ++ objs p), (objs s ++ raw b).
    rewrite zlen_app, zlen_objs, zlen_raw, <- !app_assoc. split_and!; [done|done|]. intros y.
    rewrite <- app_assoc. change (Some y :: objs s ++ raw b) with (objs (y :: s) ++ raw b).
    rewrite (app_assoc (objs p)), <- objs_app.
    apply straight_rep; rewrite ?length_app, ?zlen_app, ?zlen_cons; cbn [length]; try lia. done.
  - pose proof (zlen_nonneg l2). pose proof (zlen_nonneg s1). rewrite (proj2 (Z.ltb_lt _ _)) by lia.
    exists (objs l2 ++ raw g ++ objs p), (objs s1). rewrite !zlen_app, !zlen_objs, zlen_raw, <- !app_assoc.
    split_and!; [done|lia|]. intros y. rewrite <- !app_assoc. change (Some y :: objs s1) with (objs (y :: s1)).
    rewrite <- objs_app. change (y :: s1 ++ l2) with ((y :: s1) ++ l2). rewrite (app_assoc p).
    apply wrapped_rep; rewrite ?zlen_app, ?zlen_cons; try lia; [by destruct p|done].
  - pose proof (zlen_nonneg p2). pose proof (zlen_nonneg l1). rewrite (proj2 (Z.ltb_ge _ _)) by lia.
    exists (objs p2), (objs s ++ raw g ++ objs l1). rewrite zlen_objs. split_and!; [done|lia|]. intros y.
    change (Some y :: objs s ++ raw g ++ objs l1) with (objs (y :: s) ++ raw g ++ objs l1).
    rewrite (app_assoc (objs p2)), <- objs_app, <- (app_assoc l1).
    apply wrapped_rep; rewrite ?zlen_app, ?zlen_cons; try lia; done.
Qed.

Lemma capacity_pos d l : rep d l -> l ≠ [] -> 2 <= capacity d /\ u64 (capacity d - 1) = capacity d - 1 /\ zlen l < capacity d.
Proof.
  intros H Hl. pose proof (rep_perm_room d l H Hl) as Hr. unfold room in Hr. destruct H as [_ Hf].
  destruct l as [|x l]; [done|]. rewrite zlen_cons in *. pose proof (zlen_nonneg l).
  rewrite last_index by (done || lia). lia.
Qed.

Lemma start_bounds d l : rep d l -> l ≠ [] -> 0 <= m_start d < capacity d.
Proof.
  intros [(a & b & -> & Hb & Hf)|(l2 & g & l1 & El & -> & Hg & Hl1 & Hf)]%deque_rep_inv Hl; cbn [m_start].
  - rewrite cap_straight. pose proof (zlen_nonneg l). destruct Hb as [?|(_ & ? & _)]; [lia|done].
  - rewrite cap_wrapped. destruct l1; [done|]. rewrite zlen_cons. pose proof (zlen_nonneg l1). pose proof (zlen_nonneg l2). lia.
Qed.

Lemma pos_end d l : rep d l -> l ≠ [] -> pos d (zlen l) = m_end d.
Proof.
  unfold pos. intros [(a & b & -> & Hb & Hf)|(l2 & g & l1 & El & -> & Hg & Hl1 & Hf)]%deque_rep_inv Hl; cbn [m_start m_end].
  - rewrite cap_straight. destruct Hb as [?|(_ & ? & _)]; [|done]. by rewrite (proj2 (Z.ltb_lt _ _)) by lia.
  - rewrite cap_wrapped, El, zlen_app. pose proof (zlen_nonneg l2). rewrite (proj2 (Z.ltb_ge _ _)) by lia. lia.
Qed.

Lemma pos_inj d l i j : rep d l -> 0 <= i <= zlen l -> 0 <= j <= zlen l -> pos d i = pos d j -> i = j.
Proof.
  intros H Hi Hj. destruct (decide (length l = 0%nat)) as [E0|E0]; [unfold zlen in *; lia|].
  assert (Hl : l ≠ []) by (by intros ->).
  destruct (capacity_pos d l H Hl) as (Hc & _ & Hlt). unfold pos.
  destruct (Z.ltb_spec (m_start d + i) (capacity d)), (Z.ltb_spec (m_start d + j) (capacity d)); lia.
Qed.

Lemma increment_pos d l j : rep d l -> l ≠ [] -> 0 <= j < zlen l -> increment d (pos d j) = pos d (j + 1).
Proof.
  intros H Hl Hj. destruct (capacity_pos d l H Hl) as (Hc & Eu & Hlt). pose proof (start_bounds d l H Hl).
  unfold increment, pos. rewrite Eu.
  destruct (Z.ltb_spec (m_start d + j) (capacity d)), (Z.ltb_spec (m_start d + (j + 1)) (capacity d)); try lia.
  - rewrite (proj2 (Z.eqb_neq _ _)) by lia. lia.
  - rewrite (proj2 (Z.eqb_eq _ _)) by lia. lia.
  - rewrite (proj2 (Z.eqb_neq _ _)) by lia. lia.
Qed.

Lemma decrement_pos d l j : rep d l -> l ≠ [] -> 0 <= j < zlen l -> decrement d (pos d (j + 1)) = pos d j.
Proof.
  intros H Hl Hj. destruct (capacity_pos d l H Hl) as (Hc & Eu & Hlt). pose proof (start_bounds d l H Hl).
  unfold decrement, pos. rewrite Eu.
  destruct (Z.ltb_spec (m_start d + j) (capacity d)), (Z.ltb_spec (m_start d + (j + 1)) (capacity d)); try lia.
  - rewrite (proj2 (Z.eqb_neq _ _)) by lia. lia.
  - rewrite (proj2 (Z.eqb_eq _ _)) by lia. lia.
  - rewrite (proj2 (Z.eqb_neq _ _)) by lia. lia.
Qed.

Lemma pos_0 d l : rep d l -> l ≠ [] -> pos d 0 = m_start d.
Proof. intros H Hl. pose proof (start_bounds d l H Hl). unfold pos. rewrite (proj2 (Z.ltb_lt _ _)) by lia. lia. Qed.

Lemma find_from_shift f (l : list T) : forall i, Vector.find_from f l i = (fun j => j + i) <$> Vector.find_from f l 0.
Proof.
  induction l as [|x l IH]; intros i; [done|]. cbn. destruct (f x); [cbn; f_equal; lia|].
  rewrite (IH (i + 1)), (IH (0 + 1)). destruct (Vector.find_from f l 0); [|done]. cbn. f_equal. lia.
Qed.

Lemma deque_find_loop_spec d l f : rep d l -> l ≠ [] -> forall k p fuel, l = p ++ k -> (length k < fuel)%nat ->
  find_loop fuel d f (pos d (zlen p)) = Ok match Vector.find_from f k (zlen p) with Some j => pos d j | None => m_end d end.
Proof.
  intros H Hl. induction k as [|x k IH]; intros p fuel El Hf; (destruct fuel as [|fuel]; [cbn in Hf; lia|]);
    cbn [find_loop Vector.find_from]; unfold end_.
  - rewrite app_nil_r in El. subst p. by rewrite (pos_end d l H Hl), Z.eqb_refl.
  - pose proof (zlen_nonneg p). pose proof (zlen_nonneg k).
    assert (Hz : zlen l = zlen p + 1 + zlen k) by (subst l; rewrite zlen_app, zlen_cons; lia).
    destruct (Z.eqb_spec (pos d (zlen p)) (m_end d)) as [E|E].
    { rewrite <- (pos_end d l H Hl) in E. apply (pos_inj d l) in E; [lia|done|lia|lia]. }
    assert (Hs : rep d (p ++ x :: k)) by (by rewrite <- El). destruct (slot_spec d p x k Hs) as (pre & post & Eb & Ep & _).
    unfold after. rewrite <- Ep, Eb, load_mid by done. cbn [mbind res_bind]. destruct (f x); [by rewrite Ep|].
    rewrite Ep, (increment_pos d l) by (done || lia).
    specialize (IH (p ++ [x]) fuel). rewrite zlen_app in IH. change (zlen [x]) with 1 in IH.
    apply IH; [by rewrite <- app_assoc|cbn in Hf; lia].
Qed.

Lemma findIf_spec d l f : rep d l ->
  findIf d f = Ok match Vector.find_from f l 0 with Some j => pos d j | None => m_end d end.
Proof.
  intros H. unfold findIf, begin_. assert (Hd : l = [] \/ l ≠ []) by (destruct l; [by left|by right]). destruct Hd as [->|Hl].
  - cbn [find_loop]. unfold end_. pose proof (deque_isEmpty_spec d [] H) as E. unfold isEmpty in E. rewrite E.
    apply Z.eqb_eq in E. by rewrite E.
  - rewrite <- (pos_0 d l H Hl). destruct (capacity_pos d l H Hl) as (_ & _ & Hlt). unfold capacity, zlen in Hlt.
    apply (deque_find_loop_spec d l f H Hl l []); [done|lia].
Qed.

Lemma contains_spec d l f : rep d l -> contains d f = Ok (existsb f l).
Proof.
  intros H. unfold contains. rewrite (findIf_spec d l f H). cbn [mbind res_bind]. unfold end_.
  rewrite <- (Vector.find_from_existsb f l 0). destruct (Vector.find_from f l 0) as [j|] eqn:E; [|by rewrite Z.eqb_refl].
  assert (Hj : 0 <= j < zlen l).
  { clear H. revert j E. induction l as [|x l IH]; intros j E; [done|]. cbn in E. rewrite zlen_cons. pose proof (zlen_nonneg l).
    destruct (f x); [injection E as <-; lia|]. rewrite find_from_shift in E.
    destruct (Vector.find_from f l 0) as [i|]; [|done]. injection E as <-. specialize (IH i eq_refl). lia. }
  assert (Hl : l ≠ []) by (intros E0; rewrite E0 in Hj; change (zlen (@nil T)) with 0 in Hj; lia).
  destruct (Z.eqb_spec (pos d j) (m_end d)) as [E2|]; [|done].
  rewrite <- (pos_end d l H Hl) in E2. apply (pos_inj d l) in E2; [lia|done|lia|lia].
Qed.

(** ** In the middle *)

Lemma deque_remove_spec d p x s : rep d (p ++ x :: s) ->
  exists d', remove d (pos d (zlen p)) = Ok d' /\ rep d' (p ++ s).
Proof.
  intros H. pose proof (zlen_nonneg p). pose proof (zlen_nonneg s).
  assert (Hne : (pos d (zlen p) =? m_end d) = false).
  { apply Z.eqb_neq. rewrite <- (pos_end d _ H) by (by destruct p).
    intros E. apply (pos_inj d _ _ _ H) in E; rewrite ?zlen_app, ?zlen_cons in *; lia. }
  unfold remove. rewrite Hne. clear Hne. unfold pos, capacity.
  destruct (slot_cases d p x s H) as [(a & b & -> & Hb & Hf)|[(l2 & g & s1 & -> & Hg & Hf & ->)|(l1 & p2 & g & -> & Hg & Hl1 & Hf & ->)]];
    clear H; cbn [m_buffer m_start m_end]; autorewrite with zlen in *; rewrite !zlen_objs, ?zlen_raw; rewrite Z.geb_leb.
  - pose proof (fits_le _ Hf ltac:(lia)) as Hmax. rewrite (proj2 (Z.ltb_lt _ _)), (proj2 (Z.leb_le _ _)) by lia.
    rewrite app_assoc, destroy_mid by (rewrite zlen_app, zlen_objs, zlen_raw; lia). cbn [mbind res_bind].
    rewrite <- app_assoc. change (None :: objs s ++ raw b) with (raw 1 ++ objs s ++ raw b).
    rewrite (move_up_ok p) by (rewrite ?zlen_raw; lia). cbn [mbind res_bind].
    rewrite wrap_small, Z.mod_small by (unfold UINT32_MAX in *; lia). eexists. split; [done|].
    rewrite (app_assoc (objs p)), <- objs_app, app_assoc, <- raw_app.
    apply straight_rep; rewrite ?length_app, ?zlen_app; unfold zlen in *; try lia. eapply deque_fits_eq; [exact Hf|]. lia.
  - pose proof (zlen_nonneg l2). pose proof (zlen_nonneg s1). pose proof (fits_le _ Hf ltac:(lia)) as Hmax.
    rewrite (proj2 (Z.ltb_lt _ _)), (proj2 (Z.leb_le _ _)) by lia.
    rewrite (app_assoc (raw g)), (app_assoc (objs l2)), destroy_mid by (rewrite !zlen_app, !zlen_objs, zlen_raw; lia).
    cbn [mbind res_bind]. rewrite <- !app_assoc, (app_assoc (objs l2)).
    change (None :: objs s1) with (raw 1 ++ objs s1).
    rewrite (move_up_ok p) by (rewrite ?zlen_app, ?zlen_objs, ?zlen_raw; lia). cbn [mbind res_bind].
    rewrite wrap_small by (unfold UINT32_MAX in *; lia). eexists. split; [done|].
    rewrite <- (app_assoc (objs l2)), (app_assoc (raw g)), <- raw_app, <- objs_app, (app_assoc p).
    destruct (Z.eq_dec (zlen p + zlen s1) 0) as [E|E].
    + assert (p ++ s1 = []) as -> by (apply length_zero_iff_nil; rewrite length_app; unfold zlen in *; lia).
      cbn [app]. change (objs []) with (@nil (option T)). rewrite app_nil_r.
      replace (zlen l2 + (Z.of_nat g + (zlen p + (1 + zlen s1)))) with (zlen l2 + Z.of_nat g + 1) by lia.
      rewrite Z_mod_same_full. apply (straight_rep 0 l2 (g + 1)); try lia. eapply deque_fits_eq; [exact Hf|]. lia.
    + rewrite Z.mod_small by lia. apply wrapped_rep; rewrite ?zlen_app; try lia.
      * intros E2. apply app_eq_nil in E2 as [-> ->]. apply E. done.
      * eapply deque_fits_eq; [exact Hf|]. lia.
  - pose proof (zlen_nonneg p2). pose proof (zlen_nonneg l1). pose proof (fits_le _ Hf ltac:(lia)) as Hmax.
    rewrite (proj2 (Z.ltb_ge _ _)) by lia. rewrite (proj2 (Z.leb_gt _ _)) by lia.
    replace (zlen p2 + (1 + zlen s) + Z.of_nat g + (zlen l1 + zlen p2) - (zlen p2 + (1 + (zlen s + (Z.of_nat g + zlen l1)))))
      with (zlen p2) by lia.
    rewrite destroy_mid by apply zlen_objs. cbn [mbind res_bind].
    change (None :: objs s ++ raw g ++ objs l1) with (raw 1 ++ objs s ++ raw g ++ objs l1).
    rewrite (move_down_ok s) by (rewrite ?zlen_objs; lia). cbn [mbind res_bind].
    rewrite wrap_small by (unfold UINT32_MAX in *; lia). eexists. split; [done|].
    replace (zlen p2 + (1 + zlen s) - 1 + (zlen p2 + (1 + (zlen s + (Z.of_nat g + zlen l1)))))
      with (zlen p2 + zlen s + 1 * (zlen p2 + (1 + (zlen s + (Z.of_nat g + zlen l1))))) by lia.
    rewrite Z_mod_plus_full, Z.mod_small by lia.
    rewrite (app_assoc (objs p2)), <- objs_app, (app_assoc (raw 1)), <- raw_app, <- (app_assoc l1).
    apply wrapped_rep; rewrite ?zlen_app; try lia; [done|]. eapply deque_fits_eq; [exact Hf|]. lia.
Qed.

(** The place of a new element, on the reversed list: it goes in front of the
    elements for which the callback holds. *)
Fixpoint bubble (f : T -> bool) (r : list T) (x : T) : list T :=
  match r with [] => [x] | y :: r' => if f y then y :: bubble f r' x else x :: r end.

Lemma swap_adjacent d q y x s : rep d (q ++ y :: x :: s) ->
  exists b, swap_slots (m_buffer d) (pos d (zlen q)) (pos d (zlen q + 1)) = Ok b /\
    rep (mk_deque (m_start d) (m_end d) b) (q ++ x :: y :: s) /\ zlen b = capacity d.
Proof.
  intros H. destruct (slot_spec d q y (x :: s) H) as (pre & post & Eb & Ep & Hw).
  assert (H2 : rep d ((q ++ [y]) ++ x :: s)) by (by rewrite <- app_assoc).
  destruct (slot_spec d _ x s H2) as (pre2 & post2 & Eb2 & Ep2 & _). rewrite zlen_app in Ep2. change (zlen [y]) with 1 in Ep2.
  assert (L1 : load (m_buffer d) (zlen pre) = Ok y) by (rewrite Eb; by apply load_mid).
  assert (L2 : load (m_buffer d) (zlen pre2) = Ok x) by (rewrite Eb2; by apply load_mid).
  assert (A1 : assign (m_buffer d) (zlen pre) x = Ok (pre ++ Some x :: post)) by (rewrite Eb; by apply assign_mid).
  unfold swap_slots. rewrite <- Ep, <- Ep2, L1. cbn [mbind res_bind]. rewrite L2. cbn [mbind res_bind].
  rewrite A1. cbn [mbind res_bind].
  specialize (Hw x). set (d1 := mk_deque (m_start d) (m_end d) (pre ++ Some x :: post)) in *.
  assert (H3 : rep d1 ((q ++ [x]) ++ x :: s)) by (by rewrite <- app_assoc).
  assert (Hcap : capacity d1 = capacity d) by (unfold capacity; rewrite Eb; unfold d1; cbn; autorewrite with zlen; done).
  destruct (slot_spec d1 _ x s H3) as (pre3 & post3 & Eb3 & Ep3 & Hw3). rewrite zlen_app in Ep3. change (zlen [x]) with 1 in Ep3.
  assert (Epos : zlen pre2 = zlen pre3) by (rewrite Ep2, Ep3; unfold pos; by rewrite Hcap).
  change (pre ++ Some x :: post) with (m_buffer d1). rewrite Eb3, assign_mid by done.
  eexists. split; [done|]. split; [specialize (Hw3 y); by rewrite <- app_assoc in Hw3|].
  rewrite <- Hcap. unfold capacity. rewrite Eb3. autorewrite with zlen. done.
Qed.

Lemma bubble_loop_spec f : forall fuel p d x s, rep d (p ++ x :: s) -> (length p < fuel)%nat ->
  exists d', bubble_loop fuel d f (pos d (zlen p)) = Ok d' /\ rep d' (rev (bubble f (rev p) x) ++ s).
Proof.
  induction fuel as [|fuel IH]; intros p d x s H Hf; [lia|]. cbn [bubble_loop]. unfold begin_.
  assert (Hl : p ++ x :: s ≠ []) by (by destruct p).
  rewrite <- (pos_0 d _ H Hl). destruct p as [|y q _] using rev_ind.
  { change (zlen []) with 0. rewrite Z.eqb_refl. by exists d. }
  rewrite rev_app_distr. cbn [rev app bubble]. rewrite zlen_app. change (zlen [y]) with 1.
  pose proof (zlen_nonneg q). pose proof (zlen_nonneg s).
  assert (Hz : zlen ((q ++ [y]) ++ x :: s) = zlen q + 2 + zlen s) by (autorewrite with zlen; lia).
  destruct (Z.eqb_spec (pos d (zlen q + 1)) (pos d 0)) as [E|_].
  { apply (pos_inj d _ _ _ H) in E; lia. }
  rewrite (decrement_pos d _ (zlen q) H) by (done || lia).
  assert (H2 : rep d (q ++ y :: x :: s)) by (by rewrite <- app_assoc in H).
  destruct (slot_spec d q y (x :: s) H2) as (pre & post & Eb & Ep & _).
  assert (L1 : load (m_buffer d) (pos d (zlen q)) = Ok y) by (rewrite <- Ep, Eb; by apply load_mid).
  unfold after. rewrite L1. cbn [mbind res_bind].
  destruct (f y); cbn [negb].
  - destruct (swap_adjacent d q y x s H2) as (b & -> & Hb & Hcb). cbn [mbind res_bind]. rewrite (pos_0 d _ H Hl).
    set (d1 := mk_deque (m_start d) (m_end d) b) in *.
    assert (Ep1 : pos d (zlen q) = pos d1 (zlen q)) by (unfold pos, d1; cbn; unfold capacity at 3 4; cbn; by rewrite Hcb).
    rewrite Ep1. destruct (IH q d1 x (y :: s) Hb) as (d' & E & Hr); [rewrite length_app in Hf; cbn in Hf; lia|].
    exists d'. split; [done|]. cbn [rev]. by rewrite <- app_assoc.
  - exists d. split; [done|]. cbn [rev]. rewrite rev_involutive, <- !app_assoc. exact H2.
Qed.

Lemma appendAndBubble_spec d l x f : rep d l ->
  needs (grown d) (appendAndBubble d x f) (fun d' => rep d' (rev (bubble f (rev l) x))).
Proof.
  intros H. unfold appendAndBubble. eapply Vector.needs_bind; [by apply deque_append_spec|]. intros d1 H1. unfold end_.
  assert (Hl : l ++ [x] ≠ []) by (by destruct l).
  rewrite <- (pos_end d1 _ H1 Hl), zlen_app. change (zlen [x]) with 1.
  rewrite (decrement_pos d1 _ (zlen l) H1) by (try done; rewrite zlen_app; change (zlen [x]) with 1; pose proof (zlen_nonneg l); lia).
  destruct (capacity_pos d1 _ H1 Hl) as (_ & _ & Hlt). unfold capacity, zlen in Hlt. rewrite length_app in Hlt.
  destruct (bubble_loop_spec f (S (length (m_buffer d1))) l d1 x [] H1 ltac:(cbn in Hlt; lia)) as (d' & E & Hr).
  rewrite E. cbn. by rewrite app_nil_r in Hr.
Qed.

(** ** The whole deque *)

Lemma deque_clear_spec d l : rep d l -> clear d = Ok deque_empty.
Proof.
  unfold clear, destroyAll. pose proof (zlen_nonneg l).
  intros [(a & b & -> & _ & _)|(l2 & g & l1 & -> & -> & Hg & _ & _)]%deque_rep_inv; cbn [m_buffer m_start m_end].
  - rewrite (proj2 (Z.leb_le _ _)), (destruct_ok l) by (rewrite ?zlen_raw; lia). cbn [mbind res_bind].
    by rewrite <- !raw_app, deallocate_raw.
  - rewrite (proj2 (Z.leb_gt _ _)) by lia. rewrite cap_wrapped.
    pose proof (destruct_ok l2 [] (raw g ++ objs l1) 0 (zlen l2) eq_refl ltac:(lia)) as E. cbn [app] in E. rewrite E. clear E.
    cbn [mbind res_bind].
    pose proof (destruct_ok l1 (raw (length l2) ++ raw g) [] (zlen l2 + Z.of_nat g) (zlen l2 + Z.of_nat g + zlen l1)
      ltac:(rewrite zlen_app, !zlen_raw; unfold zlen; lia) eq_refl) as E.
    rewrite !app_nil_r, <- !app_assoc in E. rewrite E. cbn [mbind res_bind]. by rewrite <- !raw_app, deallocate_raw.
Qed.

Lemma deque_copy_spec d l : rep d l -> deque_copy d = Ok d.
Proof.
  intros H. unfold deque_copy. pose proof (zlen_nonneg l).
  assert (Ha : (if capacity d =? 0 then Ok [] else allocateBuffer sizeofT (capacity d)) = Ok (raw (Z.to_nat (capacity d)) : list (option T))).
  { destruct H as [_ Hf]. assert (0 <= capacity d) by apply zlen_nonneg.
    destruct (Z.eqb_spec (capacity d) 0) as [->|]; [done|]. by rewrite allocate_ok by (done || lia). }
  rewrite Ha. cbn [mbind res_bind]. clear Ha.
  destruct (deque_rep_inv d l H) as [(a & b & -> & _ & _)|(l2 & g & l1 & -> & -> & Hg & _ & _)]; clear H; cbn [m_buffer m_start m_end].
  - rewrite cap_straight, (proj2 (Z.leb_le _ _)) by lia.
    replace (Z.to_nat (Z.of_nat a + zlen l + Z.of_nat b)) with (a + (length l + b))%nat by (unfold zlen; lia).
    rewrite !raw_app. rewrite (copy_ok l) by (rewrite ?zlen_raw; lia). done.
  - rewrite cap_wrapped, (proj2 (Z.leb_gt _ _)) by lia.
    replace (Z.to_nat (zlen l2 + Z.of_nat g + zlen l1)) with (length l2 + (g + length l1))%nat by (unfold zlen; lia).
    rewrite !raw_app.
    pose proof (copy_ok l2 [] (raw g ++ objs l1) [] (raw g ++ raw (length l1)) 0 (zlen l2) 0 eq_refl eq_refl ltac:(lia)) as E.
    cbn [app] in E. rewrite E. clear E. cbn [mbind res_bind].
    pose proof (copy_ok l1 (objs l2 ++ raw g) [] (objs l2 ++ raw g) [] (zlen l2 + Z.of_nat g) (zlen l2 + Z.of_nat g + zlen l1)
      (zlen l2 + Z.of_nat g) ltac:(rewrite zlen_app, zlen_objs, zlen_raw; lia)
      ltac:(rewrite zlen_app, zlen_objs, zlen_raw; lia) eq_refl) as E.
    rewrite !app_nil_r, <- !app_assoc in E. by rewrite E.
Qed.

(** ** Operations *)

Inductive op :=
| Append (x : T) | Prepend (x : T) | TakeFirst | TakeLast
| RemoveAt (j : Z)
| FindAndRemove (f : T -> bool)
| RemoveAllMatching (f : T -> bool)
| AppendAndBubble (x : T) (f : T -> bool)
| TakeFirstIf (f : T -> bool) | TakeLastIf (f : T -> bool)
| Contains (f : T -> bool) | Size | IsEmpty | Clear | Copy.

Inductive answer := Nothing | Value (x : T) | Flag (b : bool) | Number (n : Z).

Definition quiet (r : res Deque) : res (answer * Deque) := d ← r; Ok (Nothing, d).
Definition valued (r : res (T * Deque)) : res (answer * Deque) := '(x, d) ← r; Ok (Value x, d).

Definition exec (d : Deque) (o : op) : res (answer * Deque) :=
  match o with
  | Append x => quiet (append d x)
  | Prepend x => quiet (prepend d x)
  | TakeFirst => valued (takeFirst d)
  | TakeLast => valued (takeLast d)
  | RemoveAt j => quiet (remove d (pos d j))
  | FindAndRemove f => quiet (it ← findIf d f; remove d it)
  | RemoveAllMatching f => quiet (removeAllMatching d f)
  | AppendAndBubble x f => quiet (appendAndBubble d x f)
  | TakeFirstIf f => valued (takeFirst_if d f)
  | TakeLastIf f => valued (takeLast_if d f)
  | Contains f => b ← contains d f; Ok (Flag b, d)
  | Size => Ok (Number (size d), d)
  | IsEmpty => Ok (Flag (isEmpty d), d)
  | Clear => quiet (clear d)
  | Copy => quiet (deque_copy d)
  end.

Definition allowed (l : list T) (o : op) : Prop :=
  match o with
  | TakeFirst | TakeLast => l ≠ []
  | RemoveAt j => 0 <= j < zlen l
  | _ => True
  end.

Definition spec (l : list T) (o : op) : answer * list T :=
  match o with
  | Append x => (Nothing, l ++ [x])
  | Prepend x => (Nothing, x :: l)
  | TakeFirst => match l with [] => (Nothing, l) | x :: k => (Value x, k) end
  | TakeLast => match rev l with [] => (Nothing, l) | x :: k => (Value x, rev k) end
  | RemoveAt j => (Nothing, take (Z.to_nat j) l ++ drop (S (Z.to_nat j)) l)
  | FindAndRemove f => (Nothing, snd (or_default (take_first f l) l))
  | RemoveAllMatching f => (Nothing, List.filter (fun x => negb (f x)) l)
  | AppendAndBubble x f => (Nothing, rev (bubble f (rev l) x))
  | TakeFirstIf f => let '(x, k) := or_default (take_first f l) l in (Value x, k)
  | TakeLastIf f => let '(x, k) := or_default (take_first f (rev l)) (rev l) in (Value x, rev k)
  | Contains f => (Flag (existsb f l), l)
  | Size => (Number (zlen l), l)
  | IsEmpty => (Flag (bool_decide (l = [])), l)
  | Clear => (Nothing, [])
  | Copy => (Nothing, l)
  end.

(** The storage an operation may ask for. *)
Definition demand (d : Deque) (o : op) : Z :=
  match o with Append _ | Prepend _ | AppendAndBubble _ _ => grown d | _ => 0 end.

Definition refines (n : Z) (r : res (answer * Deque)) (s : answer * list T) : Prop :=
  needs n r (fun '(a, d') => a = fst s /\ rep d' (snd s)).

Lemma deque_refines_quiet n r l : needs n r (fun d' => rep d' l) -> refines n (quiet r) (Nothing, l).
Proof. intros H. unfold refines, quiet. eapply Vector.needs_bind; [exact H|]. done. Qed.

Lemma take_first_split f (l : list T) :
  match take_first f l with
  | Some (x, k) => exists p s, l = p ++ x :: s /\ k = p ++ s /\ Vector.find_from f l 0 = Some (zlen p)
  | None => Vector.find_from f l 0 = None
  end.
Proof.
  induction l as [|y l IH]; [done|]. cbn. destruct (f y); [by exists [], l|]. rewrite find_from_shift.
  destruct (take_first f l) as [[x k]|]; cbn; [|by rewrite IH]. destruct IH as (p & s & -> & -> & E).
  exists (y :: p), s. rewrite E. cbn. split_and!; try done. rewrite zlen_cons. f_equal. lia.
Qed.

Lemma find_and_remove_spec d l f : rep d l ->
  exists d', (it ← findIf d f; remove d it) = Ok d' /\ rep d' (snd (or_default (take_first f l) l)).
Proof.
  intros H. rewrite (findIf_spec d l f H). cbn [mbind res_bind]. pose proof (take_first_split f l) as K.
  destruct (take_first f l) as [[x k]|].
  - destruct K as (p & s & -> & -> & ->). cbn. by apply deque_remove_spec with x.
  - rewrite K. unfold remove. rewrite Z.eqb_refl. by exists d.
Qed.

Lemma deque_exec_refines d l o : rep d l -> allowed l o -> refines (demand d o) (exec d o) (spec l o).
Proof.
  intros H Ha. pose proof (size_spec d l H) as Hsz. pose proof (size_bounds d l H) as Hsb. pose proof (zlen_nonneg l) as Hz.
  assert (Hcount : Z.to_nat (u32 (size d)) = length l)
    by (rewrite Hsz, wrap_small by (unfold UINT32_MAX in *; lia); apply to_nat_zlen).
  destruct o; cbn [allowed exec spec demand] in *.
  - apply deque_refines_quiet, deque_append_spec, H.
  - apply deque_refines_quiet, prepend_spec, H.
  - destruct l as [|x l]; [done|]. destruct (takeFirst_spec d x l H) as (d' & E & Hr & _). unfold valued. by rewrite E.
  - destruct l as [|x l _] using rev_ind; [done|]. rewrite rev_app_distr. cbn [rev app]. rewrite rev_involutive.
    destruct (takeLast_spec d x l H) as (d' & E & Hr & _). unfold valued. by rewrite E.
  - destruct (lookup_lt_is_Some_2 l (Z.to_nat j)) as [x Hx]; [unfold zlen in *; lia|].
    rewrite <- (take_drop_middle l _ x Hx) in H. destruct (deque_remove_spec d _ x _ H) as (d' & E & Hr).
    rewrite Vector.zlen_take in E by lia. unfold quiet. by rewrite E.
  - destruct (find_and_remove_spec d l f H) as (d' & E & Hr). unfold quiet. by rewrite E.
  - unfold removeAllMatching. rewrite Hsz, to_nat_zlen.
    destruct (remove_matching_spec f l d []) as (d' & E & Hr); [by rewrite app_nil_r|]. unfold quiet. by rewrite E.
  - apply deque_refines_quiet, appendAndBubble_spec, H.
  - unfold takeFirst_if. rewrite Hcount. destruct (take_first_loop_spec f l [] d) as (d' & E & Hr); [by rewrite app_nil_r|].
    change (length (@nil T)) with O in E. unfold valued. rewrite E. by destruct (take_first f l) as [[y k]|].
  - unfold takeLast_if. rewrite Hcount, <- length_rev.
    destruct (take_last_loop_spec f (rev l) [] d) as (d' & E & Hr); [by rewrite rev_involutive|].
    change (length (@nil T)) with O in E. unfold valued. rewrite E. rewrite app_nil_r in Hr.
    destruct (take_first f (rev l)) as [[y k]|]; cbn in *; [by rewrite app_nil_r in Hr|done].
  - by rewrite (contains_spec d l f H).
  - by rewrite Hsz.
  - by rewrite (deque_isEmpty_spec d l H).
  - rewrite (deque_clear_spec d l H). split; [done|apply deque_rep_empty].
  - rewrite (deque_copy_spec d l H). done.
Qed.

(** [Deque] implements a double-ended queue.  Every operation, called as
    its assertions ask, keeps each object in exactly one slot of the circular
    buffer, whether or not it wraps around, has the effect and the result of the
    list operation (rotations that look for an element restore the order), ends,
    and crashes only when the larger buffer it needs cannot be expressed. *)
Theorem deque_implements_list d l o :
  rep d l -> allowed l o ->
  match exec d o with
  | Ok (a, d') => a = fst (spec l o) /\ rep d' (snd (spec l o))
  | Crash => ~ fits (demand d o)
  | UB | NoFuel => False
  end.
Proof. apply deque_exec_refines. Qed.
End deque.

(** A buffer of five slots that holds [1;2;3;4] wrapped around: it has to grow. *)
Definition example : @Deque Z := mk_deque 3 2 [Some 3; Some 4; None; Some 1; Some 2].

Lemma deque_example_rep : rep 8 example [1; 2; 3; 4].
Proof.
  split; [|by vm_compute]. apply (wrapped [3; 4] 1 [1; 2]); [lia|done].
Qed.

Lemma deque_implements_list_witness :
  exec 8 0 example (AppendAndBubble 9 (fun y => y >? 2)) =
    Ok (Nothing, mk_deque 14 3 ([Some 9; Some 3; Some 4] ++ replicate 11 None ++ [Some 1; Some 2])) /\
  rep 8 (mk_deque 14 3 ([Some 9; Some 3; Some 4] ++ replicate 11 None ++ [Some 1; Some 2])) [1; 2; 9; 3; 4].
Proof.
  assert (E : exec 8 0 example (AppendAndBubble 9 (fun y => y >? 2)) =
    Ok (Nothing, mk_deque 14 3 ([Some 9; Some 3; Some 4] ++ replicate 11 None ++ [Some 1; Some 2])))
    by (vm_compute; reflexivity).
  split; [exact E|].
  pose proof (deque_implements_list 8 0 ltac:(lia) example [1; 2; 3; 4] (AppendAndBubble 9 (fun y => y >? 2))
    deque_example_rep I) as K.
  rewrite E in K. exact (proj2 K).
Defined.
End Deque.
