(* ===== verification/WtfChecked.v ===== *)
(** * Overflow-checked arithmetic (WTF/wtf/CheckedArithmetic.h)

    Integer types are given by their width and signedness, values are integers
    in their range.  Both implementations of the arithmetic operations are
    modelled: the one on the compiler's overflow builtins and the portable one,
    whose intermediate results are computed in the promoted type (leaving it is
    [UB] for a signed type).  The overflow handlers are the instances of a
    class. *)
From S2P Require Import Prelude.

#[local] Open Scope cfetch_scope.

Module Checked.

(** ** Integer types *)

Record ity := mk_ity { bits : Z; is_signed : bool }.

Definition min_ (t : ity) : Z := if is_signed t then - 2 ^ (bits t - 1) else 0.
Definition max_ (t : ity) : Z := if is_signed t then 2 ^ (bits t - 1) - 1 else 2 ^ bits t - 1.
Definition in_ty (t : ity) (v : Z) : bool := (min_ t <=? v) && (v <=? max_ t).
(** [static_cast<t>] *)
Definition cast (t : ity) (v : Z) : Z := if is_signed t then swrap (bits t) v else wrap (bits t) v.

(** The widths that C++ implementations have here. *)
Definition standard (t : ity) : Prop := bits t = 8 \/ bits t = 16 \/ bits t = 32 \/ bits t = 64.

Definition int_t : ity := mk_ity 32 true.
Definition unsigned_t : ity := mk_ity 32 false.

(** Integer promotion: narrower types compute in [int]. *)
Definition promote (t : ity) : ity := if bits t <? 32 then int_t else t.

(** A value computed in the promoted type of [t]. *)
Definition arith (t : ity) (v : Z) : res Z :=
  if is_signed (promote t) then if in_ty (promote t) v then Ok v else UB
  else Ok (cast (promote t) v).

(** ** Bounds *)

Definition inBounds (target source : ity) (value : Z) : bool :=
  match bits target >=? bits source, is_signed target, is_signed source with
  | false, false, false => value <=? max_ target
  | false, true, true => (min_ target <=? value) && (value <=? max_ target)
  | false, false, true => cast (mk_ity (bits source) false) value <=? max_ target
  | false, true, false => value <=? cast source (max_ target)
  | true, false, false => true
  | true, true, true => true
  | true, true, false => if bits target >? bits source then true else value <=? cast source (max_ target)
  | true, false, true => 0 <=? value
  end.

Definition isInBounds (target source : ity) (value : Z) : bool := inBounds target source value.

(** The value stored in [output], when it is. *)
Definition convertSafely (target source : ity) (input : Z) : option Z :=
  if negb (isInBounds target source input) then None else Some (cast target input).

(** ** Result types *)

Definition SignednessSelector (u v : ity) : ity :=
  match is_signed u, is_signed v with
  | true, true => u
  | false, false => u
  | true, false => v
  | false, true => u
  end.

Definition ResultType (u v : ity) : ity :=
  if bits u >? bits v then u else if bits u =? bits v then SignednessSelector u v else v.

(** ** Arithmetic with the compiler's builtins

    [__builtin_add_overflow] and its like compute the exact result and report
    whether it fits. *)
Definition builtin (r : ity) (exact : Z) : option Z := if in_ty r exact then Some exact else None.

Definition add (r : ity) (lhs rhs : Z) : option Z := builtin r (lhs + rhs).
Definition sub (r : ity) (lhs rhs : Z) : option Z := builtin r (lhs - rhs).
Definition multiply (r : ity) (lhs rhs : Z) : option Z := builtin r (lhs * rhs).

(** Division of two operands of the same signedness: the quotient is computed in
    their common promoted type. *)
Definition divide_same (u v r : ity) (lhs rhs : Z) : res (option Z) :=
  if rhs =? 0 then Ok None
  else q ← arith (ResultType u v) (Z.quot lhs rhs); Ok (Some (cast r q)).

(** [int] and [unsigned]: in 64 bits. *)
Definition divide_mixed (r : ity) (lhs rhs : Z) : res (option Z) :=
  if rhs =? 0 then Ok None else Ok (Some (cast r (Z.quot lhs rhs))).

Definition divide (u v r : ity) (lhs rhs : Z) : res (option Z) :=
  if eqb (is_signed u) (is_signed v) then divide_same u v r lhs rhs else divide_mixed r lhs rhs.

(** The operand types for which [ArithmeticOperations] is defined. *)
Definition supported (u v : ity) : bool :=
  eqb (is_signed u) (is_signed v) || ((bits u =? 32) && (bits v =? 32)).

(** ** Portable arithmetic, on operands of the result type *)

Definition signsMatch (lhs rhs : Z) : bool := 0 <=? Z.lxor lhs rhs.

Definition add_signed (t : ity) (lhs rhs : Z) : res (option Z) :=
  over ← (if signsMatch lhs rhs then
            if 0 <=? lhs then x ← arith t (max_ t - rhs); Ok (x <? lhs)
            else temp ← arith t (lhs - min_ t); n ← arith t (- cast t temp); Ok (rhs <? n)
          else Ok false);
  if (over : bool) then Ok None else s ← arith t (lhs + rhs); Ok (Some (cast t s)).

Definition sub_signed (t : ity) (lhs rhs : Z) : res (option Z) :=
  over ← (if negb (signsMatch lhs rhs) then
            if 0 <=? lhs then x ← arith t (max_ t + rhs); Ok (lhs >? x)
            else x ← arith t (max_ t + lhs); Ok (rhs >? x)
          else Ok false);
  if (over : bool) then Ok None else s ← arith t (lhs - rhs); Ok (Some (cast t s)).

Definition multiply_signed (t : ity) (lhs rhs : Z) : res (option Z) :=
  over ← (if signsMatch lhs rhs then
            if 0 <=? lhs then
              if negb (lhs =? 0) then Ok (Z.quot (max_ t) lhs <? rhs) else Ok false
            else if (lhs =? min_ t) || (rhs =? min_ t) then Ok true
            else nl ← arith t (- lhs); nr ← arith t (- rhs); Ok (Z.quot (max_ t) nl <? nr)
          else if lhs <? 0 then
            if negb (rhs =? 0) then Ok (lhs <? Z.quot (min_ t) rhs) else Ok false
          else
            if negb (lhs =? 0) then Ok (rhs <? Z.quot (min_ t) lhs) else Ok false);
  if (over : bool) then Ok None else s ← arith t (lhs * rhs); Ok (Some (cast t s)).

Definition add_unsigned (t : ity) (lhs rhs : Z) : res (option Z) :=
  s ← arith t (lhs + rhs);
  let temp := cast t s in
  if temp <? lhs then Ok None else Ok (Some temp).

Definition sub_unsigned (t : ity) (lhs rhs : Z) : res (option Z) :=
  s ← arith t (lhs - rhs);
  let temp := cast t s in
  if temp >? lhs then Ok None else Ok (Some temp).

Definition multiply_unsigned (t : ity) (lhs rhs : Z) : res (option Z) :=
  if (lhs =? 0) || (rhs =? 0) then Ok (Some 0)
  else if Z.quot (max_ t) lhs <? rhs then Ok None
  else s ← arith t (lhs * rhs); Ok (Some (cast t s)).

(** ** Overflow handlers *)

Class OverflowHandler (H : Type) := {
  no_overflow : H;
  overflowed : H -> res H;
  hasOverflowed : H -> bool;
  clearOverflow : H -> H;
  observesOverflow : bool
}.

(** Assertions are off in a release build. *)
Inductive AssertNoOverflow := assert_no_overflow.
#[global] Instance AssertNoOverflow_handler : OverflowHandler AssertNoOverflow := {|
  no_overflow := assert_no_overflow;
  overflowed h := Ok h;
  hasOverflowed _ := false;
  clearOverflow h := h;
  observesOverflow := false
|}.

Inductive CrashOnOverflow := crash_on_overflow.
#[global] Instance CrashOnOverflow_handler : OverflowHandler CrashOnOverflow := {|
  no_overflow := crash_on_overflow;
  overflowed _ := Crash;
  hasOverflowed _ := false;
  clearOverflow h := h;
  observesOverflow := true
|}.

Record RecordOverflow := mk_record { m_overflowed : bool }.
#[global] Instance RecordOverflow_handler : OverflowHandler RecordOverflow := {|
  no_overflow := mk_record false;
  overflowed _ := Ok (mk_record true);
  hasOverflowed := m_overflowed;
  clearOverflow _ := mk_record false;
  observesOverflow := true
|}.

Record ConditionalCrashOnOverflow := mk_conditional { c_overflowed : bool; m_shouldCrashOnOverflow : bool }.
#[global] Instance ConditionalCrashOnOverflow_handler : OverflowHandler ConditionalCrashOnOverflow := {|
  no_overflow := mk_conditional false true;
  overflowed h := if m_shouldCrashOnOverflow h then Crash else Ok (mk_conditional true (m_shouldCrashOnOverflow h));
  hasOverflowed := c_overflowed;
  clearOverflow h := mk_conditional false (m_shouldCrashOnOverflow h);
  observesOverflow := true
|}.

(** ** [Checked] *)

Section checked.
Context {H : Type} `{OverflowHandler H}.

Record Checked := mk_checked { m_value : Z; handler : H }.

(** [if (b) this->overflowed();] *)
Definition overflow_if (b : bool) (h : H) : res H := if b then overflowed h else Ok h.

(** [Checked(ResultOverflowedTag)] *)
Definition checked_overflowed : res Checked := h ← overflowed no_overflow; Ok (mk_checked 0 h).

(** [Checked(U value)] and [Checked(const Checked<U, OverflowHandler>&)] *)
Definition checked_of (t u : ity) (value : Z) : res Checked :=
  h ← overflow_if (negb (isInBounds t u value)) no_overflow; Ok (mk_checked (cast t value) h).
Definition checked_convert (t u : ity) (rhs : Checked) : res Checked :=
  h ← overflow_if (negb (isInBounds t u (m_value rhs))) (handler rhs); Ok (mk_checked (cast t (m_value rhs)) h).

(** [operator=(Checked)] *)
Definition checked_assign (t : ity) (self rhs : Checked) : res Checked :=
  h ← overflow_if (hasOverflowed (handler rhs)) (clearOverflow (handler self));
  Ok (mk_checked (cast t (m_value rhs)) h).

(** The increment itself is [m_value++]. *)
Definition incr (t : ity) (c : Checked) : res Checked :=
  h ← overflow_if (m_value c =? max_ t) (handler c); v ← arith t (m_value c + 1); Ok (mk_checked (cast t v) h).
Definition decr (t : ity) (c : Checked) : res Checked :=
  h ← overflow_if (m_value c =? min_ t) (handler c); v ← arith t (m_value c - 1); Ok (mk_checked (cast t v) h).

Definition unsafeGet (c : Checked) : res Z := if hasOverflowed (handler c) then Crash else Ok (m_value c).
(** [true] is [DidOverflow]. *)
Definition safeGet (c : Checked) : Z * bool := (m_value c, hasOverflowed (handler c)).

Inductive binop := Add | Sub | Mul | Div.

(** [safeAdd<OverflowHandler>] and its like: a handler that does not observe
    overflow gets the plain operation, on the operands converted to their common
    type. *)
Definition safe_op (o : binop) (u v r : ity) (lhs rhs : Z) : res (option Z) :=
  if observesOverflow then
    match o with
    | Add => Ok (add r lhs rhs)
    | Sub => Ok (sub r lhs rhs)
    | Mul => Ok (multiply r lhs rhs)
    | Div => divide u v r lhs rhs
    end
  else
    let common := ResultType u v in
    let lhs := cast (promote common) lhs in
    let rhs := cast (promote common) rhs in
    match o with
    | Add => s ← arith common (lhs + rhs); Ok (Some (cast r s))
    | Sub => s ← arith common (lhs - rhs); Ok (Some (cast r s))
    | Mul => s ← arith common (lhs * rhs); Ok (Some (cast r s))
    | Div => if rhs =? 0 then UB else s ← arith common (Z.quot lhs rhs); Ok (Some (cast r s))
    end.

(** [operator+=(U rhs)] and its like: the value is left alone when the
    operation overflows. *)
Definition assign_op (o : binop) (t u : ity) (c : Checked) (rhs : Z) : res Checked :=
  r ← safe_op o t u t (m_value c) rhs;
  match r with
  | Some v => Ok (mk_checked v (handler c))
  | None => h ← overflowed (handler c); Ok (mk_checked (m_value c) h)
  end.

(** [operator+=(Checked<U, V> rhs)] *)
Definition assign_op_checked (o : binop) (t u : ity) (c rhs : Checked) : res Checked :=
  h ← overflow_if (hasOverflowed (handler rhs)) (handler c);
  assign_op o t u (mk_checked (m_value c) h) (m_value rhs).

(** [operator+(Checked<U>, Checked<V>)] and its like. *)
Definition binary (o : binop) (u v : ity) (lhs rhs : Checked) : res Checked :=
  let '(x, ox) := safeGet lhs in
  let '(y, oy) := safeGet rhs in
  let t := ResultType u v in
  r ← safe_op o u v t x y;
  match r with
  | Some result => if ox || oy then checked_overflowed else checked_of t t result
  | None => checked_overflowed
  end.

Definition binary_right (o : binop) (u v : ity) (lhs : Checked) (rhs : Z) : res Checked :=
  r ← checked_of v v rhs; binary o u v lhs r.
Definition binary_left (o : binop) (u v : ity) (lhs : Z) (rhs : Checked) : res Checked :=
  l ← checked_of u u lhs; binary o u v l rhs.

Definition checked_eq (c : Checked) (rhs : Checked) : res bool :=
  a ← unsafeGet c; b ← unsafeGet rhs; Ok (a =? b).
Definition checked_eq_value (c : Checked) (rhs : Z) : res bool := a ← unsafeGet c; Ok (a =? rhs).
Definition checked_lt (c : Checked) (rhs : Checked) : res bool :=
  a ← unsafeGet c; b ← unsafeGet rhs; Ok (a <? b).
Definition checked_le (c : Checked) (rhs : Checked) : res bool :=
  a ← unsafeGet c; b ← unsafeGet rhs; Ok (a <=? b).
Definition checked_not (c : Checked) : res bool := a ← unsafeGet c; Ok (a =? 0).
End checked.
Arguments Checked : clear implicits.

(** ** Sums and products *)

(** The arguments are values with their types. *)
Fixpoint checked_fold (o : binop) (t : ity) (first : ity * Z) (args : list (ity * Z)) : res (Checked RecordOverflow) :=
  c ← checked_of t (fst first) (snd first);
  match args with
  | [] => Ok c
  | next :: args => rest ← checked_fold o t next args; binary o t t c rest
  end.

Definition checkedSum (t : ity) (first : ity * Z) (args : list (ity * Z)) := checked_fold Add t first args.
Definition checkedProduct (t : ity) (first : ity * Z) (args : list (ity * Z)) := checked_fold Mul t first args.
Definition sumOverflows (t : ity) (first : ity * Z) (args : list (ity * Z)) : res bool :=
  c ← checkedSum t first args; Ok (hasOverflowed (handler c)).
Definition productOverflows (t : ity) (first : ity * Z) (args : list (ity * Z)) : res bool :=
  c ← checkedProduct t first args; Ok (hasOverflowed (handler c)).
Definition differenceOverflows (t u : ity) (left right : Z) : res bool :=
  a ← @checked_of RecordOverflow _ t u left;
  b ← @checked_of RecordOverflow _ t u right;
  c ← binary Sub t t a b; Ok (hasOverflowed (handler c)).

(** ** Ranges *)

(** Work through the eight standard types. *)
Ltac types t Ht :=
  let b := fresh "b" in let sg := fresh "sg" in
  destruct t as [b sg]; unfold standard in Ht; cbn [bits] in Ht;
  destruct Ht as [-> | [-> | [-> | ->]]]; destruct sg.

Lemma in_ty_spec t v : in_ty t v = true <-> min_ t <= v <= max_ t.
Proof. unfold in_ty. rewrite andb_true_iff, !Z.leb_le. done. Qed.

Lemma in_ty_false t v : in_ty t v = false <-> v < min_ t \/ max_ t < v.
Proof. unfold in_ty. rewrite andb_false_iff, !Z.leb_gt. done. Qed.

Lemma swrap_small w v : 0 < w -> - 2 ^ (w - 1) <= v <= 2 ^ (w - 1) - 1 -> swrap w v = v.
Proof.
  intros Hw Hv. unfold swrap. assert (2 ^ w = 2 * 2 ^ (w - 1)).
  { rewrite <- Z.pow_succ_r by lia. f_equal. lia. }
  rewrite Z.mod_small by lia. lia.
Qed.

Lemma cast_id t v : 0 < bits t -> in_ty t v = true -> cast t v = v.
Proof.
  intros Hb [Hl Hu]%in_ty_spec. unfold cast, min_, max_ in *. destruct (is_signed t).
  - by apply swrap_small.
  - apply wrap_small. lia.
Qed.

Lemma standard_bits t : standard t -> 8 <= bits t <= 64.
Proof. unfold standard. lia. Qed.

Lemma isInBounds_aux target source v :
  standard target -> standard source -> in_ty source v = true ->
  isInBounds target source v = in_ty target v /\
  convertSafely target source v = if in_ty target v then Some v else None.
Proof.
  intros Ht Hs Hv.
  assert (K : isInBounds target source v = in_ty target v).
  { apply in_ty_spec in Hv. apply eq_true_iff_eq. rewrite in_ty_spec. revert Hv.
    types target Ht; types source Hs; unfold isInBounds, inBounds, cast, min_, max_, wrap, swrap; cbn [bits is_signed];
      cbn -[Z.modulo Z.sub Z.add Z.le Z.leb]; rewrite ?andb_true_iff, ?Z.leb_le; zdiv. }
  unfold convertSafely. rewrite K. split; [done|]. destruct (in_ty target v) eqn:E; [|done].
  cbn. pose proof (standard_bits target Ht). by rewrite cast_id by (lia || done).
Qed.

(** [isInBounds] is exact.  For all pairs of integer types, of any width
    and signedness, the check that the template picks accepts a value of the
    source type exactly when the target type can represent it, and then
    [convertSafely] stores that value. *)
Theorem isInBounds_exact target source v :
  standard target -> standard source -> in_ty source v = true ->
  isInBounds target source v = in_ty target v /\
  convertSafely target source v = if in_ty target v then Some v else None.
Proof. apply isInBounds_aux. Qed.

Lemma isInBounds_exact_witness :
  isInBounds (mk_ity 32 false) (mk_ity 64 true) (-1) = false /\ convertSafely (mk_ity 8 true) (mk_ity 8 false) 200 = None.
Proof.
  split.
  - apply (isInBounds_exact (mk_ity 32 false) (mk_ity 64 true) (-1)); unfold standard; cbn; [lia|lia|done].
  - apply (isInBounds_exact (mk_ity 8 true) (mk_ity 8 false) 200); unfold standard; cbn; [lia|lia|done].
Defined.

(** ** Checked expressions *)

Inductive expr := Lit (t : ity) (v : Z) | Bin (o : binop) (a b : expr).

Fixpoint type_of (e : expr) : ity :=
  match e with Lit t _ => t | Bin _ a b => ResultType (type_of a) (type_of b) end.

Definition exact_op (o : binop) (x y : Z) : Z :=
  match o with Add => x + y | Sub => x - y | Mul => x * y | Div => Z.quot x y end.

(** The mathematical value. *)
Fixpoint exact (e : expr) : Z := match e with Lit _ v => v | Bin o a b => exact_op o (exact a) (exact b) end.

(** Every intermediate result fits the type it is computed in. *)
Fixpoint all_fit (e : expr) : bool :=
  match e with
  | Lit _ _ => true
  | Bin o a b => all_fit a && all_fit b && in_ty (type_of e) (exact e)
  end.

(** Literals of their types, and sums, differences and products of operands
    whose types can be combined. *)
Fixpoint wf (e : expr) : Prop :=
  match e with
  | Lit t v => standard t /\ in_ty t v = true
  | Bin o a b => o ≠ Div /\ wf a /\ wf b /\ supported (type_of a) (type_of b) = true
  end.

Fixpoint eval {H} `{OverflowHandler H} (e : expr) : res (Checked H) :=
  match e with
  | Lit t v => checked_of t t v
  | Bin o a b => x ← eval a; y ← eval b; binary o (type_of a) (type_of b) x y
  end.

Lemma ResultType_standard u v : standard u -> standard v -> standard (ResultType u v).
Proof.
  intros Hu Hv. unfold ResultType, SignednessSelector. destruct (_ >? _); [done|]. destruct (_ =? _); [|done].
  by destruct (is_signed u), (is_signed v).
Qed.

Lemma type_of_standard e : wf e -> standard (type_of e).
Proof.
  induction e as [t v|o a IHa b IHb]; cbn; [by intros [? _]|]. intros (_ & Ha & Hb & _).
  apply ResultType_standard; auto.
Qed.

Lemma isInBounds_same t v : standard t -> in_ty t v = true -> isInBounds t t v = true.
Proof.
  intros Ht Hv. unfold isInBounds, inBounds. rewrite Z.geb_leb, Z.leb_refl.
  destruct (is_signed t); done.
Qed.

Lemma checked_of_fits {H} `{OverflowHandler H} t v : standard t -> in_ty t v = true ->
  checked_of t t v = Ok (mk_checked v no_overflow).
Proof.
  intros Ht Hv. unfold checked_of. rewrite isInBounds_same by done. cbn.
  pose proof (standard_bits t Ht). by rewrite cast_id by (lia || done).
Qed.

(** A builtin on exact operands. *)
Lemma safe_op_exact {H} `{OverflowHandler H} o u v r x y : observesOverflow = true -> o ≠ Div ->
  safe_op o u v r x y = Ok (builtin r (exact_op o x y)).
Proof. intros Ho Hd. unfold safe_op. rewrite Ho. by destruct o. Qed.

Lemma eval_record e : wf e -> exists c, @eval RecordOverflow _ e = Ok c /\
  m_overflowed (handler c) = negb (all_fit e) /\ (all_fit e = true -> m_value c = exact e).
Proof.
  induction e as [t v|o a IHa b IHb]; cbn [wf eval all_fit exact].
  { intros [Ht Hv]. rewrite checked_of_fits by done. by eexists. }
  intros (Ho & Ha & Hb & _). destruct (IHa Ha) as (x & -> & Fx & Vx). destruct (IHb Hb) as (y & -> & Fy & Vy).
  cbn [mbind res_bind type_of]. unfold binary, safeGet. cbn [hasOverflowed RecordOverflow_handler]. rewrite Fx, Fy.
  rewrite safe_op_exact by done. cbn [mbind res_bind]. set (t := ResultType (type_of a) (type_of b)).
  assert (Ht : standard t) by (apply ResultType_standard; by apply type_of_standard).
  destruct (all_fit a); [rewrite (Vx eq_refl)|].
  - destruct (all_fit b); [rewrite (Vy eq_refl)|]; cbn [negb orb andb].
    + unfold builtin. destruct (in_ty t (exact_op o (exact a) (exact b))) eqn:E; [|by eexists].
      rewrite checked_of_fits by done. by eexists.
    + destruct (builtin _ _); by eexists.
  - cbn [negb orb andb]. destruct (builtin _ _); by eexists.
Qed.

Lemma eval_crash e : wf e -> @eval CrashOnOverflow _ e =
  if all_fit e then Ok (mk_checked (exact e) crash_on_overflow) else Crash.
Proof.
  induction e as [t v|o a IHa b IHb]; cbn [wf eval all_fit exact].
  { intros [Ht Hv]. by rewrite checked_of_fits. }
  intros (Ho & Ha & Hb & _). rewrite (IHa Ha), (IHb Hb). destruct (all_fit a); [|done]. cbn [mbind res_bind andb].
  destruct (all_fit b); [|done]. cbn [mbind res_bind andb type_of]. unfold binary, safeGet. cbn [hasOverflowed CrashOnOverflow_handler].
  cbn [m_value handler]. rewrite safe_op_exact by done. cbn [mbind res_bind orb]. set (t := ResultType (type_of a) (type_of b)).
  assert (Ht : standard t) by (apply ResultType_standard; by apply type_of_standard).
  unfold builtin. destruct (in_ty t _) eqn:E; [|done]. by rewrite checked_of_fits.
Qed.

(** Checked expressions never give a wrong number.  An expression of sums,
    differences and products over values of any standard types, evaluated with
    [CrashOnOverflow], crashes exactly when some intermediate result does not fit
    the type it is computed in and otherwise is its mathematical value; with
    [RecordOverflow] the flag is set exactly then, and while it is not set the
    value is the mathematical one. *)
Theorem checked_expression_exact e : wf e ->
  @eval CrashOnOverflow _ e = (if all_fit e then Ok (mk_checked (exact e) crash_on_overflow) else Crash) /\
  exists c, @eval RecordOverflow _ e = Ok c /\ hasOverflowed (handler c) = negb (all_fit e) /\
    unsafeGet c = if all_fit e then Ok (exact e) else Crash.
Proof.
  intros Hw. split; [by apply eval_crash|]. destruct (eval_record e Hw) as (c & E & F & V). exists c.
  split; [done|]. split; [done|]. unfold unsafeGet. cbn [hasOverflowed RecordOverflow_handler]. rewrite F.
  destruct (all_fit e); cbn; [|done]. by rewrite V.
Qed.

(** [size + count * itemSize] in 64 bits with a 32-bit count. *)
Definition expr_example (n : Z) : expr := Bin Add (Lit (mk_ity 64 false) 100) (Bin Mul (Lit unsigned_t n) (Lit (mk_ity 64 false) (2 ^ 40))).

Lemma expr_example_wf n : in_ty unsigned_t n = true -> wf (expr_example n).
Proof.
  intros Hn. unfold expr_example, standard. cbn [wf type_of]. split_and!; try done; try (unfold standard; cbn; lia); by vm_compute.
Qed.

Lemma checked_expression_exact_witness :
  @eval CrashOnOverflow _ (expr_example 5) = Ok (mk_checked (100 + 5 * 2 ^ 40) crash_on_overflow) /\
  @eval CrashOnOverflow _ (expr_example (2 ^ 25)) = Crash.
Proof.
  split.
  - apply (checked_expression_exact (expr_example 5)). apply expr_example_wf; vm_compute; done.
  - apply (checked_expression_exact (expr_example (2 ^ 25))). apply expr_example_wf; vm_compute; done.
Defined.

(** ** Sums *)

Definition argument_ok (a : ity * Z) : Prop := standard (fst a) /\ in_ty (fst a) (snd a) = true.

Fixpoint total (args : list (ity * Z)) : Z := match args with [] => 0 | a :: args => snd a + total args end.

(** Every argument and the sum fit. *)
Definition sum_fits (t : ity) (args : list (ity * Z)) : bool :=
  forallb (fun a => in_ty t (snd a)) args && (total args <=? max_ t).

Lemma total_nonneg t args : is_signed t = false -> forallb (fun a => in_ty t (snd a)) args = true -> 0 <= total args.
Proof.
  intros Hs. induction args as [|a args IH]; cbn; [lia|]. intros [Ha Hr]%andb_true_iff.
  apply in_ty_spec in Ha. unfold min_ in Ha. rewrite Hs in Ha. specialize (IH Hr). lia.
Qed.

Lemma max_nonneg t : standard t -> 0 <= max_ t.
Proof. intros Ht. types t Ht; done. Qed.

Lemma checked_of_record t u v : standard t -> standard u -> in_ty u v = true ->
  exists c, @checked_of RecordOverflow _ t u v = Ok c /\ m_overflowed (handler c) = negb (in_ty t v) /\
    (in_ty t v = true -> m_value c = v).
Proof.
  intros Ht Hu Hv. unfold checked_of. rewrite (proj1 (isInBounds_aux t u v Ht Hu Hv)).
  pose proof (standard_bits t Ht). destruct (in_ty t v) eqn:E; cbn; eexists; (split; [done|]); (split; [done|]); [|done].
  intros _. apply cast_id; [lia|done].
Qed.

(** The outcome of a sum over [args]. *)
Definition sum_ok (t : ity) (args : list (ity * Z)) (c : Checked RecordOverflow) : Prop :=
  m_overflowed (handler c) = negb (sum_fits t args) /\ (sum_fits t args = true -> m_value c = total args).

Lemma ResultType_same t : ResultType t t = t.
Proof. unfold ResultType, SignednessSelector. rewrite Z.gtb_ltb, Z.ltb_irrefl, Z.eqb_refl. by destruct (is_signed t). Qed.

Lemma sum_step t a args c rest : standard t -> is_signed t = false -> args ≠ [] ->
  m_overflowed (handler c) = negb (in_ty t (snd a)) -> (in_ty t (snd a) = true -> m_value c = snd a) ->
  sum_ok t args rest -> exists c', binary Add t t c rest = Ok c' /\ sum_ok t (a :: args) c'.
Proof.
  intros Ht Hs Hne Fc Vc [Fr Vr]. unfold binary, safeGet. cbn [hasOverflowed RecordOverflow_handler]. rewrite Fc, Fr.
  rewrite safe_op_exact by done. cbn [mbind res_bind]. rewrite ResultType_same. unfold sum_ok.
  assert (Hsum : sum_fits t (a :: args) = in_ty t (snd a) && forallb (fun a => in_ty t (snd a)) args && (snd a + total args <=? max_ t))
    by done.
  rewrite Hsum. clear Hsum. cbn [total].
  destruct (in_ty t (snd a)) eqn:Ea; cbn [negb orb andb]; [|destruct (builtin _ _); by eexists].
  destruct (sum_fits t args) eqn:Es; cbn [negb orb].
  - rewrite (Vc eq_refl), (Vr eq_refl). unfold sum_fits in Es. apply andb_true_iff in Es as [Ef Et].
    rewrite Ef. cbn [andb exact_op]. pose proof (total_nonneg t args Hs Ef). apply in_ty_spec in Ea.
    unfold builtin, in_ty. assert (min_ t = 0) as Hmin by (unfold min_; by rewrite Hs). rewrite Hmin in *.
    rewrite (proj2 (Z.leb_le 0 _)) by lia. cbn [andb orb negb]. destruct (Z.leb_spec (snd a + total args) (max_ t)) as [Hle|Hgt].
    + rewrite checked_of_fits; [|done|apply in_ty_spec; lia]. eexists. by repeat split.
    + by eexists.
  - assert (Hf : forallb (fun a => in_ty t (snd a)) args && (snd a + total args <=? max_ t) = false).
    { unfold sum_fits in Es. apply andb_false_iff. apply andb_false_iff in Es as [Es|Es]; [by left|right].
      apply in_ty_spec in Ea. assert (min_ t = 0) as Hmin by (unfold min_; by rewrite Hs). zb. apply Z.leb_gt. lia. }
    rewrite Hf. destruct (builtin _ _); by eexists.
Qed.

Lemma checkedSum_spec t : standard t -> is_signed t = false -> forall args a, argument_ok a -> Forall argument_ok args ->
  exists c, checkedSum t a args = Ok c /\ sum_ok t (a :: args) c.
Proof.
  intros Ht Hs. unfold checkedSum. induction args as [|b args IH]; intros a [Hta Hva] Hargs; cbn [checked_fold];
    destruct (checked_of_record t (fst a) (snd a) Ht Hta Hva) as (c & -> & Fc & Vc); cbn [mbind res_bind].
  - exists c. split; [done|]. unfold sum_ok, sum_fits. cbn [forallb total]. rewrite andb_true_r, Z.add_0_r, Fc.
    destruct (in_ty t (snd a)) eqn:E; cbn [negb andb]; [|done]. apply in_ty_spec in E.
    rewrite (proj2 (Z.leb_le _ _)) by lia. split; [done|]. by intros _; apply Vc.
  - apply Forall_cons in Hargs as [Hb Hargs]. destruct (IH b Hb Hargs) as (rest & -> & Hr). cbn [mbind res_bind].
    by apply sum_step.
Qed.

(** [sumOverflows] for an unsigned type is exact: whatever the types of the
    arguments, it answers true exactly when an argument or the mathematical sum
    does not fit, and otherwise [checkedSum] is the sum. *)
Theorem sumOverflows_exact t a args :
  standard t -> is_signed t = false -> argument_ok a -> Forall argument_ok args ->
  sumOverflows t a args = Ok (negb (sum_fits t (a :: args))) /\
  (sum_fits t (a :: args) = true ->
     (c ← checkedSum t a args; unsafeGet c) = Ok (total (a :: args))).
Proof.
  intros Ht Hs Ha Hargs. destruct (checkedSum_spec t Ht Hs args a Ha Hargs) as (c & E & F & V).
  unfold sumOverflows. rewrite E. cbn [mbind res_bind hasOverflowed RecordOverflow_handler]. rewrite F.
  split; [done|]. intros Hf. unfold unsafeGet. cbn [hasOverflowed RecordOverflow_handler]. by rewrite F, Hf, (V Hf).
Qed.

Lemma sumOverflows_exact_witness :
  sumOverflows unsigned_t (int_t, 7) [(mk_ity 8 false, 255); (mk_ity 64 true, 2 ^ 32 - 300)] = Ok false /\
  sumOverflows unsigned_t (int_t, -1) [(int_t, 2)] = Ok true.
Proof.
  split.
  - apply (sumOverflows_exact unsigned_t (int_t, 7) [(mk_ity 8 false, 255); (mk_ity 64 true, 2 ^ 32 - 300)]);
      unfold standard; cbn; try lia; try done; repeat constructor; unfold standard; cbn; try lia; done.
  - apply (sumOverflows_exact unsigned_t (int_t, -1) [(int_t, 2)]);
      unfold standard; cbn; try lia; try done; repeat constructor; unfold standard; cbn; try lia; done.
Defined.

(** ** Portable arithmetic against the builtins *)

Lemma signsMatch_spec l r : signsMatch l r = eqb (0 <=? l) (0 <=? r).
Proof.
  unfold signsMatch. destruct (Z.leb_spec 0 (Z.lxor l r)) as [Hx|Hx].
  - apply Z.lxor_nonneg in Hx. destruct (Z.leb_spec 0 l), (Z.leb_spec 0 r); try done; lia.
  - assert (~ (0 <= l <-> 0 <= r)) as Hn by (rewrite <- Z.lxor_nonneg; lia).
    destruct (Z.leb_spec 0 l), (Z.leb_spec 0 r); try done; exfalso; apply Hn; lia.
Qed.

(** In the promoted type of a signed type there is room for the type itself and
    its negative. *)
Lemma arith_signed t v : standard t -> is_signed t = true -> in_ty t v = true -> arith t v = Ok v.
Proof.
  intros Ht Hs [Hl Hu]%in_ty_spec. unfold arith. revert Hl Hu. types t Ht; cbn in Hs; try done;
    unfold min_, max_, promote, in_ty; cbn; intros; rewrite !(proj2 (Z.leb_le _ _)) by lia; done.
Qed.

Lemma arith_unsigned t v : standard t -> is_signed t = false -> - max_ t <= v <= 2 * max_ t -> exists s,
  arith t v = Ok s /\ cast t s = cast t v.
Proof.
  intros Ht Hs. unfold arith. types t Ht; cbn in Hs; try done; unfold max_, min_, promote, in_ty, cast, wrap; cbn -[Z.modulo];
    intros Hv; try (rewrite !(proj2 (Z.leb_le _ _)) by lia; by eexists);
    (eexists; split; [done|]; by rewrite Zmod_mod).
Qed.

Lemma quot_lt_pos m l r : 0 <= m -> 0 < l -> 0 <= r -> (Z.quot m l <? r) = (m <? l * r).
Proof.
  intros Hm Hl Hr. rewrite Z.quot_div_nonneg by lia. destruct (Z.ltb_spec (m / l) r), (Z.ltb_spec m (l * r)); try done.
  - assert (l * (m / l) <= m < l * (m / l) + l) by (pose proof (Z.div_mod m l); pose proof (Z.mod_pos_bound m l); lia). nia.
  - assert (l * (m / l) <= m) by (apply Z.mul_div_le; lia). nia.
Qed.

Lemma quot_lt_neg m l r : 0 <= m -> 0 < r -> l < 0 -> (l <? Z.quot (- m) r) = (l * r <? - m).
Proof.
  intros Hm Hr Hl. rewrite Z.quot_opp_l by lia. pose proof (quot_lt_pos m r (- l) Hm Hr ltac:(lia)) as E.
  destruct (Z.ltb_spec (Z.quot m r) (- l)), (Z.ltb_spec m (r * - l)); try done;
    destruct (Z.ltb_spec l (- Z.quot m r)), (Z.ltb_spec (l * r) (- m)); try done; lia.
Qed.

Lemma min_max_signed t : standard t -> is_signed t = true -> min_ t = - max_ t - 1 /\ 0 < max_ t.
Proof. intros Ht Hs. types t Ht; cbn in Hs; try done; unfold min_, max_; cbn; lia. Qed.

Lemma min_max_unsigned t : standard t -> is_signed t = false -> min_ t = 0 /\ 0 < max_ t /\ 2 ^ bits t = max_ t + 1.
Proof. intros Ht Hs. types t Ht; cbn in Hs; try done; unfold min_, max_; cbn; lia. Qed.

(** The final step of the signed operations, when the result fits. *)
Lemma finish_signed t v : standard t -> is_signed t = true -> in_ty t v = true ->
  (s ← arith t v; Ok (Some (cast t s))) = Ok (builtin t v).
Proof.
  intros Ht Hs Hv. rewrite arith_signed by done. cbn [mbind res_bind]. unfold builtin. rewrite Hv.
  pose proof (standard_bits t Ht). by rewrite cast_id by (lia || done).
Qed.

Lemma builtin_none t v : v < min_ t \/ max_ t < v -> builtin t v = None.
Proof. intros Hv. unfold builtin. apply in_ty_false in Hv. by rewrite Hv. Qed.

Lemma add_signed_spec t l r : standard t -> is_signed t = true -> in_ty t l = true -> in_ty t r = true ->
  add_signed t l r = Ok (add t l r).
Proof.
  intros Ht Hs Hl Hr. destruct (min_max_signed t Ht Hs) as [Hmin Hmax]. pose proof (standard_bits t Ht).
  apply in_ty_spec in Hl, Hr. unfold add_signed, add. rewrite signsMatch_spec.
  destruct (Z.leb_spec 0 l), (Z.leb_spec 0 r); cbn [eqb].
  - rewrite (arith_signed t (max_ t - r)) by (done || (apply in_ty_spec; lia)). cbn [mbind res_bind].
    destruct (Z.ltb_spec (max_ t - r) l); [by rewrite builtin_none by lia|].
    apply finish_signed; [done|done|apply in_ty_spec; lia].
  - apply finish_signed; [done|done|apply in_ty_spec; lia].
  - apply finish_signed; [done|done|apply in_ty_spec; lia].
  - rewrite (arith_signed t (l - min_ t)) by (done || (apply in_ty_spec; lia)). cbn [mbind res_bind].
    rewrite (cast_id t (l - min_ t)) by (lia || (apply in_ty_spec; lia)).
    rewrite (arith_signed t (- (l - min_ t))) by (done || (apply in_ty_spec; lia)). cbn [mbind res_bind].
    destruct (Z.ltb_spec r (- (l - min_ t))); [by rewrite builtin_none by lia|].
    apply finish_signed; [done|done|apply in_ty_spec; lia].
Qed.

Lemma sub_signed_spec t l r : standard t -> is_signed t = true -> in_ty t l = true -> in_ty t r = true ->
  sub_signed t l r = Ok (if (l <? 0) && (0 <=? r) && (l - r =? min_ t) then None else sub t l r).
Proof.
  intros Ht Hs Hl Hr. destruct (min_max_signed t Ht Hs) as [Hmin Hmax].
  apply in_ty_spec in Hl, Hr. unfold sub_signed, sub. rewrite signsMatch_spec.
  destruct (Z.leb_spec 0 l), (Z.leb_spec 0 r), (Z.ltb_spec l 0); try lia; cbn [eqb negb andb].
  - apply finish_signed; [done|done|apply in_ty_spec; lia].
  - rewrite (arith_signed t (max_ t + r)) by (done || (apply in_ty_spec; lia)). cbn [mbind res_bind].
    destruct (Z.gtb_spec l (max_ t + r)); [by rewrite builtin_none by lia|].
    apply finish_signed; [done|done|apply in_ty_spec; lia].
  - rewrite (arith_signed t (max_ t + l)) by (done || (apply in_ty_spec; lia)). cbn [mbind res_bind].
    destruct (Z.gtb_spec r (max_ t + l)).
    + destruct (Z.eqb_spec (l - r) (min_ t)); [done|by rewrite builtin_none by lia].
    + destruct (Z.eqb_spec (l - r) (min_ t)); [lia|]. apply finish_signed; [done|done|apply in_ty_spec; lia].
  - apply finish_signed; [done|done|apply in_ty_spec; lia].
Qed.

Lemma multiply_signed_spec t l r : standard t -> is_signed t = true -> in_ty t l = true -> in_ty t r = true ->
  multiply_signed t l r = Ok (multiply t l r).
Proof.
  intros Ht Hs Hl Hr. destruct (min_max_signed t Ht Hs) as [Hmin Hmax].
  apply in_ty_spec in Hl, Hr. unfold multiply_signed, multiply. rewrite signsMatch_spec.
  assert (Hfin : min_ t <= l * r <= max_ t -> (s ← arith t (l * r); Ok (Some (cast t s))) = Ok (builtin t (l * r))).
  { intros. apply finish_signed; [done|done|by apply in_ty_spec]. }
  assert (Hmin' : min_ t = - (max_ t + 1)) by lia.
  destruct (Z.leb_spec 0 l), (Z.leb_spec 0 r); cbn [eqb].
  - destruct (Z.eqb_spec l 0) as [->|Hl0]; cbn [negb mbind res_bind]; [apply Hfin; lia|].
    rewrite quot_lt_pos by lia. destruct (Z.ltb_spec (max_ t) (l * r)); [by rewrite builtin_none by lia|].
    apply Hfin. nia.
  - rewrite (proj2 (Z.ltb_ge l 0)) by lia.
    destruct (Z.eqb_spec l 0) as [->|Hl0]; cbn [negb mbind res_bind]; [apply Hfin; lia|].
    rewrite Hmin', quot_lt_neg by lia. destruct (Z.ltb_spec (r * l) (- (max_ t + 1))); [by rewrite builtin_none by lia|].
    apply Hfin. nia.
  - rewrite (proj2 (Z.ltb_lt l 0)) by lia.
    destruct (Z.eqb_spec r 0) as [->|Hr0]; cbn [negb mbind res_bind]; [apply Hfin; lia|].
    rewrite Hmin', quot_lt_neg by lia. destruct (Z.ltb_spec (l * r) (- (max_ t + 1))); [by rewrite builtin_none by lia|].
    apply Hfin. nia.
  - destruct (Z.eqb_spec l (min_ t)) as [El|El]; cbn [orb mbind res_bind]; [by rewrite builtin_none by nia|].
    destruct (Z.eqb_spec r (min_ t)) as [Er|Er]; cbn [orb mbind res_bind]; [by rewrite builtin_none by nia|].
    rewrite (arith_signed t (- l)) by (done || (apply in_ty_spec; lia)). cbn [mbind res_bind].
    rewrite (arith_signed t (- r)) by (done || (apply in_ty_spec; lia)). cbn [mbind res_bind].
    rewrite quot_lt_pos by lia. replace (- l * - r) with (l * r) by lia.
    destruct (Z.ltb_spec (max_ t) (l * r)); [by rewrite builtin_none by lia|]. apply Hfin. nia.
Qed.

Lemma cast_unsigned t v : is_signed t = false -> cast t v = v mod 2 ^ bits t.
Proof. intros Hs. unfold cast. by rewrite Hs. Qed.

Lemma unsigned_spec t l r : standard t -> is_signed t = false -> in_ty t l = true -> in_ty t r = true ->
  add_unsigned t l r = Ok (add t l r) /\ sub_unsigned t l r = Ok (sub t l r) /\
  multiply_unsigned t l r = Ok (multiply t l r).
Proof.
  intros Ht Hs Hl Hr. destruct (min_max_unsigned t Ht Hs) as (Hmin & Hmax & Hpow).
  apply in_ty_spec in Hl, Hr. rewrite Hmin in *. unfold add_unsigned, sub_unsigned, multiply_unsigned, add, sub, multiply.
  assert (Hin : forall v, 0 <= v <= max_ t -> builtin t v = Some v /\ v mod (max_ t + 1) = v).
  { intros v Hv. split; [|apply Z.mod_small; lia]. unfold builtin. rewrite (proj2 (in_ty_spec t v)); [done|lia]. }
  assert (Hout : forall v, v < 0 \/ max_ t < v -> builtin t v = None) by (intros; apply builtin_none; lia).
  split_and!.
  - destruct (arith_unsigned t (l + r) Ht Hs ltac:(lia)) as (s & -> & Ec). cbn [mbind res_bind]. cbv zeta.
    rewrite Ec, cast_unsigned, Hpow by done. destruct (Z.le_gt_cases (l + r) (max_ t)) as [Hle|Hgt].
    + destruct (Hin (l + r) ltac:(lia)) as [-> ->]. by rewrite (proj2 (Z.ltb_ge _ _)) by lia.
    + rewrite Hout by lia. replace (l + r) with (l + r - (max_ t + 1) + 1 * (max_ t + 1)) by lia.
      rewrite Z_mod_plus_full, Z.mod_small by lia. by rewrite (proj2 (Z.ltb_lt _ _)) by lia.
  - destruct (arith_unsigned t (l - r) Ht Hs ltac:(lia)) as (s & -> & Ec). cbn [mbind res_bind]. cbv zeta.
    rewrite Ec, cast_unsigned, Hpow by done. rewrite Z.gtb_ltb. destruct (Z.le_gt_cases r l) as [Hle|Hgt].
    + destruct (Hin (l - r) ltac:(lia)) as [-> ->]. by rewrite (proj2 (Z.ltb_ge _ _)) by lia.
    + rewrite Hout by lia. replace (l - r) with (l - r + (max_ t + 1) + (-1) * (max_ t + 1)) by lia.
      rewrite Z_mod_plus_full, Z.mod_small by lia. by rewrite (proj2 (Z.ltb_lt _ _)) by lia.
  - destruct (Z.eqb_spec l 0) as [->|Hl0]; cbn [orb]; [rewrite Z.mul_0_l; by destruct (Hin 0 ltac:(lia)) as [-> _]|].
    destruct (Z.eqb_spec r 0) as [->|Hr0]; cbn [orb]; [rewrite Z.mul_0_r; by destruct (Hin 0 ltac:(lia)) as [-> _]|].
    rewrite quot_lt_pos by lia. destruct (Z.ltb_spec (max_ t) (l * r)); [by rewrite Hout by lia|].
    destruct (arith_unsigned t (l * r) Ht Hs ltac:(nia)) as (s & -> & Ec). cbn [mbind res_bind].
    rewrite Ec, cast_unsigned, Hpow by done. destruct (Hin (l * r) ltac:(nia)) as [-> ->]. done.
Qed.

(** The portable implementation against the builtins.  For every standard
    type and all operands of it, the portable addition and multiplication, signed
    and unsigned, and the unsigned subtraction never leave the range of the type
    they compute in and agree with the builtins.  The portable signed subtraction
    agrees except when a negative minuend and a non-negative subtrahend give
    exactly the minimum of the type: that representable result is reported as an
    overflow. *)
Theorem portable_arithmetic t l r :
  standard t -> in_ty t l = true -> in_ty t r = true ->
  (is_signed t = true ->
     add_signed t l r = Ok (add t l r) /\ multiply_signed t l r = Ok (multiply t l r) /\
     sub_signed t l r = Ok (if (l <? 0) && (0 <=? r) && (l - r =? min_ t) then None else sub t l r)) /\
  (is_signed t = false ->
     add_unsigned t l r = Ok (add t l r) /\ sub_unsigned t l r = Ok (sub t l r) /\
     multiply_unsigned t l r = Ok (multiply t l r)).
Proof.
  intros Ht Hl Hr. split; intros Hs.
  - split_and!; [by apply add_signed_spec|by apply multiply_signed_spec|by apply sub_signed_spec].
  - by apply unsigned_spec.
Qed.

Lemma portable_arithmetic_witness :
  sub_signed int_t (-1) (2 ^ 31 - 1) = Ok None /\ sub int_t (-1) (2 ^ 31 - 1) = Some (- 2 ^ 31) /\
  add_signed (mk_ity 8 true) 100 27 = Ok (Some 127).
Proof.
  split; [|split; [done|]].
  - destruct (portable_arithmetic int_t (-1) (2 ^ 31 - 1)) as [K _]; [unfold standard; cbn; lia|done|done|].
    destruct (K eq_refl) as (_ & _ & E). exact E.
  - destruct (portable_arithmetic (mk_ity 8 true) 100 27) as [K _]; [unfold standard; cbn; lia|done|done|].
    destruct (K eq_refl) as (E & _ & _). exact E.
Defined.

(** Division is only checked for a zero divisor.  For two signed operands
    the quotient of the minimum by -1 is computed all the same, which is
    undefined for types of at least the width of [int]; for [int] and [unsigned]
    operands a quotient below zero is converted to the unsigned result without an
    overflow being reported. *)
Theorem divide_unchecked t x y :
  (is_signed t = true -> standard t -> 32 <= bits t -> divide t t t (min_ t) (-1) = UB) /\
  (x < 0 -> 0 < y -> in_ty int_t x = true -> in_ty unsigned_t y = true -> Z.quot x y ≠ 0 ->
     ResultType int_t unsigned_t = unsigned_t /\
     divide int_t unsigned_t unsigned_t x y = Ok (Some (2 ^ 32 + Z.quot x y))).
Proof.
  split.
  - intros Hs Ht Hb. unfold divide, divide_same. rewrite eqb_reflx, ResultType_same. cbn [Z.eqb].
    destruct (min_max_signed t Ht Hs) as [Hmin Hmax].
    assert (Hq : Z.quot (min_ t) (-1) = max_ t + 1) by (rewrite Hmin; change (-1) with (- (1)); rewrite Z.quot_opp_r, Z.quot_1_r; lia).
    rewrite Hq. unfold arith, promote. rewrite (proj2 (Z.ltb_ge _ _)), Hs by lia.
    by rewrite (proj2 (in_ty_false t (max_ t + 1))) by lia.
  - intros Hx Hy Hix Hiy Hq. split; [done|]. unfold divide. cbn [is_signed int_t unsigned_t eqb]. unfold divide_mixed.
    rewrite (proj2 (Z.eqb_neq _ _)) by lia. apply in_ty_spec in Hix. unfold min_, max_ in Hix. cbn in Hix.
    assert (Hqr : Z.quot x y <= 0 /\ x <= Z.quot x y).
    { pose proof (Z.quot_opp_l (- x) y ltac:(lia)) as E. rewrite Z.opp_involutive in E. rewrite E, Z.quot_div_nonneg by lia.
      pose proof (Z.div_pos (- x) y ltac:(lia) ltac:(lia)). pose proof (Z.div_le_upper_bound (- x) y (- x) ltac:(lia) ltac:(nia)). lia. }
    unfold cast, wrap. cbn [is_signed unsigned_t bits].
    replace (Z.quot x y) with (2 ^ 32 + Z.quot x y + (-1) * 2 ^ 32) at 1 by lia.
    rewrite Z_mod_plus_full, Z.mod_small by lia. done.
Qed.

Lemma divide_unchecked_witness :
  divide int_t int_t int_t (- 2 ^ 31) (-1) = UB /\ divide int_t unsigned_t unsigned_t (-4) 2 = Ok (Some 4294967294).
Proof.
  split.
  - apply (divide_unchecked int_t 0 0); [done|unfold standard; cbn; lia|cbn; lia].
  - apply (divide_unchecked int_t (-4) 2); [lia|lia|done|done|done].
Defined.
End Checked.
