(* ===== verification/WtfBits.v ===== *)
(** * Bit counting and searching (WTF/wtf/StdLibExtras.h, MathExtras.h)

    [bitCount] counts the set bits of a word with parallel sums of bit fields;
    [findBitInWord] searches a word for a bit of a given value, with [ctz] or,
    in its portable form, bit by bit.  Words are integers in the range of their
    unsigned type. *)
From S2P Require Import Prelude.

#[local] Open Scope cfetch_scope.

Module Bits.

(** ** Operations *)

Definition bitCount (bits : Z) : Z :=
  let bits := u32 (bits - Z.land (Z.shiftr bits 1) 0x55555555) in
  let bits := u32 (Z.land bits 0x33333333 + Z.land (Z.shiftr bits 2) 0x33333333) in
  Z.shiftr (u32 (Z.land (u32 (bits + Z.shiftr bits 4)) 0xF0F0F0F * 0x1010101)) 24.

Definition bitCount64 (bits : Z) : Z := bitCount (u32 bits) + bitCount (u32 (Z.shiftr bits 32)).

(** The loop of [ctzConstexpr]: [n] iterations are left. *)
Fixpoint ctz_loop (n : nat) (uValue zeroCount : Z) : Z :=
  match n with
  | O => zeroCount
  | S n => if negb (Z.land uValue 1 =? 0) then zeroCount else ctz_loop n (Z.shiftr uValue 1) (zeroCount + 1)
  end.

Definition ctzConstexpr (bitSize value : Z) : Z := ctz_loop (Z.to_nat bitSize) value 0.

(** [__builtin_ctzll] of a non-zero value counts its trailing zeros. *)
Definition ctz (bitSize uValue : Z) : Z := if negb (uValue =? 0) then ctzConstexpr 64 uValue else bitSize.

(** The result and the new value of [startOrResultIndex]. *)
Definition findBitInWord (w word startOrResultIndex endIndex : Z) (value : bool) : bool * Z :=
  let index := startOrResultIndex in
  let word := Z.shiftr word index in
  let word := Z.lxor word (wrap w (Z.b2z value - 1)) in
  let index := index + ctz w word in
  if index <? endIndex then (true, index) else (false, endIndex).

(** The branch for other compilers and processors. *)
Fixpoint findBitInWord_loop (fuel : nat) (word index endIndex : Z) (value : bool) : res (bool * Z) :=
  match fuel with
  | O => NoFuel
  | S fuel =>
      if index <? endIndex then
        if Z.land word 1 =? Z.b2z value then Ok (true, index)
        else findBitInWord_loop fuel (Z.shiftr word 1) (index + 1) endIndex value
      else Ok (false, endIndex)
  end.

Definition findBitInWord_portable (word startOrResultIndex endIndex : Z) (value : bool) : res (bool * Z) :=
  findBitInWord_loop (S (Z.to_nat (endIndex - startOrResultIndex)))
    (Z.shiftr word startOrResultIndex) startOrResultIndex endIndex value.

(** ** Reference definitions *)

(** The positions below [w] of the set bits of [x], in order. *)
Definition set_bits (w x : Z) : list Z := filter (fun i => Z.testbit x i = true) (seqZ 0 w).
Definition popcount (w x : Z) : Z := zlen (set_bits w x).

(** The first [n] with [P n] of the interval from [a] to [e], or [e]. *)
Definition first_from (P : Z -> Prop) `{forall n, Decision (P n)} (a e : Z) : Z :=
  default e (head (filter P (seqZ a (e - a)))).

(** ** Positional notation *)

Fixpoint horner (k : Z) (ds : list Z) : Z :=
  match ds with [] => 0 | d :: ds => d + 2 ^ k * horner k ds end.

Definition digits (k : Z) (ds : list Z) : Prop := Forall (in_range k) ds.

(** Mask of the digits selected by [sel]. *)
Definition select (k : Z) (sel : list bool) : list Z := (fun b : bool => if b then 2 ^ k - 1 else 0) <$> sel.
Definition keep (ds : list Z) (sel : list bool) : list Z := zip_with (fun d (b : bool) => if b then d else 0) ds sel.

Lemma in_range_bits w v : 0 <= w -> in_range w v <-> forall i, w <= i -> Z.testbit v i = false.
Proof.
  intros Hw. split.
  - intros Hv i Hi. rewrite <- (Z.mod_small v (2 ^ w)) by done. apply Z.mod_pow2_bits_high. lia.
  - intros Hb. assert (E : v mod 2 ^ w = v); [|rewrite <- E; by apply (wrap_range w v)].
    apply Z.bits_inj'. intros i Hi. destruct (Z.ltb_spec i w).
    + apply Z.mod_pow2_bits_low. lia.
    + rewrite Z.mod_pow2_bits_high by lia. symmetry. by apply Hb.
Qed.

Lemma land_digit k d x c m :
  0 <= k -> in_range k d -> in_range k c ->
  Z.land (d + 2 ^ k * x) (c + 2 ^ k * m) = Z.land d c + 2 ^ k * Z.land x m.
Proof.
  intros Hk Hd Hc. unfold in_range in *.
  replace (d + 2 ^ k * x) with (Z.lor (Z.shiftl x k) d) by (rewrite lor_shiftl_add by lia; ring).
  replace (c + 2 ^ k * m) with (Z.lor (Z.shiftl m k) c) by (rewrite lor_shiftl_add by lia; ring).
  assert (0 <= Z.land d c < 2 ^ k).
  { split; [apply Z.land_nonneg; lia|].
    rewrite <- (Z.mod_small d (2 ^ k)), <- (Z.land_ones d k), <- Z.land_assoc, (Z.land_comm (Z.ones k)), Z.land_assoc,
      Z.land_ones by lia. apply Z.mod_pos_bound. lia. }
  replace (Z.land d c + _) with (Z.lor (Z.shiftl (Z.land x m) k) (Z.land d c)) by (rewrite lor_shiftl_add by lia; ring).
  apply Z.bits_inj'. intros i Hi. rewrite !Z.land_spec, !Z.lor_spec, !Z.land_spec.
  destruct (Z.ltb_spec i k).
  - rewrite !Z.shiftl_spec_low by lia. done.
  - rewrite !Z.shiftl_spec by lia.
    assert (Hh : forall v, 0 <= v < 2 ^ k -> Z.testbit v i = false).
    { intros v Hv. rewrite <- (Z.mod_small v (2 ^ k)) by lia. apply Z.mod_pow2_bits_high. lia. }
    rewrite !Hh, !orb_false_r, Z.land_spec by lia. done.
Qed.

Lemma land_keep k ds sel :
  0 <= k -> digits k ds -> length ds = length sel ->
  Z.land (horner k ds) (horner k (select k sel)) = horner k (keep ds sel).
Proof.
  intros Hk Hds. revert sel. induction Hds as [|d ds Hd _ IH]; intros [|s sel] Hl; try done.
  cbn -[Z.pow Z.land Z.mul]. unfold select, keep in IH.
  rewrite land_digit, IH by (auto; destruct s; unfold in_range in *; lia).
  f_equal. destruct s; [|apply Z.land_0_r].
  replace (2 ^ k - 1) with (Z.ones k) by (rewrite Z.ones_equiv; lia).
  rewrite Z.land_ones by lia. by apply Z.mod_small.
Qed.

Lemma horner_shiftr k d ds : 0 < k -> in_range k d -> Z.shiftr (horner k (d :: ds)) k = horner k ds.
Proof.
  intros. cbn -[Z.pow Z.mul]. rewrite Z.shiftr_div_pow2, Z.mul_comm, Z.div_add, Z.div_small by (unfold in_range in *; lia).
  lia.
Qed.

(** ** Counting *)

(** The bits of [x] from position [i] on. *)
Definition bits_from (i : Z) (n : nat) (x : Z) : list Z := (fun j => Z.b2z (Z.testbit x j)) <$> seqZ i (Z.of_nat n).

Lemma horner_bits n x i :
  0 <= i -> 0 <= x < 2 ^ (i + Z.of_nat n) -> horner 1 (bits_from i n x) = Z.shiftr x i.
Proof.
  revert i. induction n as [|n IH]; intros i Hi Hx; unfold bits_from.
  - cbn [seqZ fmap horner]. rewrite Z.add_0_r in Hx. rewrite Z.shiftr_div_pow2, Z.div_small by lia. done.
  - rewrite seqZ_cons by lia. rewrite Nat2Z.inj_succ, Z.pred_succ. cbn [fmap list_fmap horner].
    unfold bits_from in IH. rewrite IH by (try replace (Z.succ i + Z.of_nat n) with (i + Z.of_nat (S n)) by lia; lia).
    rewrite <- Z.add_1_r, <- Z.shiftr_shiftr by lia.
    rewrite <- Z.div2_spec, <- (Z.add_0_l i), <- Z.shiftr_spec, Z.add_0_l by lia.
    rewrite Z.bit0_odd, Z.pow_1_r. pose proof (Z.div2_odd (Z.shiftr x i)). lia.
Qed.

Lemma popcount_sum w x : popcount w x = foldr Z.add 0 ((fun j => Z.b2z (Z.testbit x j)) <$> seqZ 0 w).
Proof.
  unfold popcount, set_bits. induction (seqZ 0 w) as [|j l IH]; [done|].
  rewrite filter_cons. cbn [fmap list_fmap foldr]. destruct (Z.testbit x j) eqn:E; case_decide; try done.
  rewrite zlen_cons, IH. cbn. lia.
Qed.

(** Sums of adjacent elements. *)
Fixpoint pairs (l : list Z) : list Z :=
  match l with a :: b :: l => a + b :: pairs l | _ => [] end.

(** A list of [n] elements, spelt out. *)
Tactic Notation "spelt" integer(n) hyp(l) hyp(Hl) :=
  do n (destruct l as [|? l]; [discriminate Hl|]); destruct l; [clear Hl|discriminate Hl];
  repeat match goal with
  | H : Forall _ (_ :: _) |- _ => apply Forall_cons in H as [? H]
  | H : Forall _ [] |- _ => clear H
  end; cbv beta in *.

Fixpoint alternate (n : nat) : list bool := match n with O => [] | S n => true :: false :: alternate n end.

(** The masked digits of [l] and of [l] shifted by one digit. *)
Lemma land_even k d l n :
  0 < k -> in_range k d -> digits k l -> length l = (2 * n + 1)%nat ->
  Z.land (horner k (d :: l)) (horner k (select k (alternate (S n)))) = horner k (keep (d :: l) (alternate (S n))) /\
  Z.land (Z.shiftr (horner k (d :: l)) k) (horner k (select k (alternate (S n)))) = horner k (keep (l ++ [0]) (alternate (S n))).
Proof.
  intros Hk Hd Hl Hn.
  assert (Ha : length (alternate (S n)) = (2 * n + 2)%nat).
  { clear. induction n as [|n IH]; [done|]. cbn [alternate length] in *. lia. }
  split.
  - apply land_keep; [lia | by constructor | cbn [length]; lia].
  - rewrite horner_shiftr by done.
    replace (horner k l) with (horner k (l ++ [0])).
    2:{ clear. induction l as [|e l IH]; cbn -[Z.pow Z.mul]; [lia|]. by rewrite IH. }
    apply land_keep; [lia | | rewrite length_app; cbn [length]; lia].
    apply Forall_app; split; [done|]. constructor; [|constructor]. split; [lia|]. apply Z.pow_pos_nonneg; lia.
Qed.

Lemma fields1 bs :
  length bs = 32%nat -> Forall (fun b => 0 <= b <= 1) bs ->
  u32 (horner 1 bs - Z.land (Z.shiftr (horner 1 bs) 1) 0x55555555) = horner 2 (pairs bs).
Proof.
  intros Hl Hb. destruct bs as [|b bs]; [done|]. apply Forall_cons in Hb as [Hb0 Hb].
  change 0x55555555 with (horner 1 (select 1 (alternate 16))).
  destruct (land_even 1 b bs 15) as [_ ->]; [lia | unfold in_range; lia | | cbn in Hl |- *; lia |].
  { unfold digits. eapply Forall_impl; [exact Hb|]. unfold in_range. cbn. lia. }
  spelt 31 bs Hl. cbn -[u32 Z.mul Z.add]. unfold u32. rewrite Z.mod_small; lia.
Qed.

Lemma fields2 ds :
  length ds = 16%nat -> Forall (fun d => 0 <= d <= 2) ds ->
  u32 (Z.land (horner 2 ds) 0x33333333 + Z.land (Z.shiftr (horner 2 ds) 2) 0x33333333) = horner 4 (pairs ds).
Proof.
  intros Hl Hd. destruct ds as [|d ds]; [done|]. apply Forall_cons in Hd as [Hd0 Hd].
  change 0x33333333 with (horner 2 (select 2 (alternate 8))).
  destruct (land_even 2 d ds 7) as [-> ->]; [lia | unfold in_range; lia | | cbn in Hl |- *; lia |].
  { unfold digits. eapply Forall_impl; [exact Hd|]. unfold in_range. cbn. lia. }
  spelt 15 ds Hl. cbn -[u32 Z.mul Z.add]. unfold u32. rewrite Z.mod_small; lia.
Qed.

Lemma fields4 ds :
  length ds = 8%nat -> Forall (fun d => 0 <= d <= 4) ds ->
  Z.shiftr (u32 (Z.land (u32 (horner 4 ds + Z.shiftr (horner 4 ds) 4)) 0xF0F0F0F * 0x1010101)) 24 = foldr Z.add 0 ds.
Proof.
  intros Hl Hd. spelt 8 ds Hl. rewrite horner_shiftr by (unfold in_range; lia).
  replace (u32 (horner 4 _ + _))
    with (horner 4 [z + z0; z0 + z1; z1 + z2; z2 + z3; z3 + z4; z4 + z5; z5 + z6; z6])
    by (cbn -[u32 Z.mul Z.add]; unfold u32; rewrite Z.mod_small; lia).
  change 0xF0F0F0F with (horner 4 (select 4 (alternate 4))).
  rewrite land_keep by (try done; repeat constructor; unfold in_range; lia).
  cbn -[u32 Z.mul Z.add Z.shiftr]. rewrite Z.shiftr_div_pow2 by lia. unfold u32.
  set (g0 := z + z0). set (g1 := z1 + z2). set (g2 := z3 + z4). set (g3 := z5 + z6).
  assert (0 <= g0 <= 8 /\ 0 <= g1 <= 8 /\ 0 <= g2 <= 8 /\ 0 <= g3 <= 8) by lia.
  replace (z + _) with (g0 + g1 + g2 + g3) by lia. clearbody g0 g1 g2 g3.
  symmetry. apply (Z.div_unique_pos _ _ _ (g0 + 2 ^ 8 * (g0 + g1) + 2 ^ 16 * (g0 + g1 + g2))); [lia|].
  symmetry. apply (Z.mod_unique_pos _ _ (g1 + g2 + g3 + 2 ^ 8 * (g2 + g3) + 2 ^ 16 * g3)); lia.
Qed.

Lemma pairs_bound l k :
  Forall (fun d => 0 <= d <= k) l -> Forall (fun d => 0 <= d <= 2 * k) (pairs l).
Proof.
  intros H. assert (G : forall n l, (length l <= n)%nat -> Forall (fun d => 0 <= d <= k) l -> Forall (fun d => 0 <= d <= 2 * k) (pairs l)).
  { clear. induction n as [|n IH]; intros [|a [|b l]] Hl HF; cbn [pairs length] in *; try constructor; try lia.
    - repeat (apply Forall_cons in HF as [? HF]). lia.
    - apply IH; [lia|]. repeat (apply Forall_cons in HF as [? HF]). done. }
  exact (G _ l (le_n _) H).
Qed.

(** The count of a 32-bit word. *)
Lemma bitCount_spec x : 0 <= x < 2 ^ 32 -> bitCount x = popcount 32 x.
Proof.
  intros Hx. rewrite popcount_sum. change (seqZ 0 32) with (seqZ 0 (Z.of_nat 32)). fold (bits_from 0 32 x).
  rewrite <- (Z.shiftr_0_r x) at 1. rewrite <- (horner_bits 32 x 0) by lia.
  assert (Hb : Forall (fun b => 0 <= b <= 1) (bits_from 0 32 x)).
  { apply Forall_fmap, Forall_forall. intros j _. cbn. destruct (Z.testbit x j); cbn; lia. }
  assert (Hl : length (bits_from 0 32 x) = 32%nat) by done.
  generalize dependent (bits_from 0 32 x). intros bs Hb Hl. unfold bitCount.
  rewrite fields1 by done. apply pairs_bound in Hb as Hb2. apply pairs_bound in Hb2 as Hb4.
  assert (Hs : length (pairs bs) = 16%nat /\ length (pairs (pairs bs)) = 8%nat /\
               foldr Z.add 0 (pairs (pairs bs)) = foldr Z.add 0 bs).
  { clear Hb Hb2 Hb4. spelt 32 bs Hl. cbn. lia. }
  destruct Hs as (H2 & H4 & <-). rewrite fields2 by done. by apply fields4.
Qed.

Lemma list_filter_ext_seqZ (P Q : Z -> Prop) `{forall n, Decision (P n)} `{forall n, Decision (Q n)} a n :
  (forall i, a <= i < a + n -> P i <-> Q i) -> filter P (seqZ a n) = filter Q (seqZ a n).
Proof.
  intros E. assert (HF : Forall (fun i => P i <-> Q i) (seqZ a n)) by (by apply Forall_seqZ).
  induction HF as [|i l Hi _ IH]; [done|]. rewrite !filter_cons, IH. repeat case_decide; tauto.
Qed.

Lemma list_filter_none (P : Z -> Prop) `{forall n, Decision (P n)} l : (forall n, n ∈ l -> ~ P n) -> filter P l = [].
Proof.
  induction l as [|i l IH]; intros Hl; [done|]. rewrite filter_cons_False by (apply Hl; by left).
  apply IH. intros n Hn. apply Hl. by right.
Qed.

Lemma set_bits_split w1 w2 x :
  0 <= w1 -> 0 <= w2 -> set_bits (w1 + w2) x = set_bits w1 x ++ (Z.add w1 <$> set_bits w2 (Z.shiftr x w1)).
Proof.
  intros H1 H2. unfold set_bits. rewrite seqZ_app, filter_app by done. f_equal.
  rewrite Z.add_0_l, <- (Z.add_0_r w1) at 1. rewrite <- fmap_add_seqZ.
  assert (Hl : Forall (fun i => 0 <= i) (seqZ 0 w2)) by (apply Forall_seqZ; lia).
  induction Hl as [|i l Hi _ IH]; [done|]. cbn [fmap list_fmap]. rewrite !filter_cons.
  rewrite Z.shiftr_spec, (Z.add_comm i) by done. cbn in IH.
  case_decide; [cbn [fmap list_fmap]; by rewrite IH | done].
Qed.

Lemma bitCount64_spec x : 0 <= x < 2 ^ 64 -> bitCount64 x = popcount 64 x.
Proof.
  intros Hx. unfold bitCount64. rewrite !bitCount_spec by (unfold u32; apply Z.mod_pos_bound; lia).
  unfold popcount. rewrite (set_bits_split 32 32), zlen_app, zlen_fmap by lia. f_equal.
  - f_equal. unfold set_bits. apply list_filter_ext_seqZ. intros i Hi. unfold u32. by rewrite Z.mod_pow2_bits_low by lia.
  - f_equal. unfold u32. rewrite Z.mod_small; [done|]. rewrite Z.shiftr_div_pow2 by lia.
    split; [apply Z.div_pos; lia | apply Z.div_lt_upper_bound; lia].
Qed.

(** ** Searching *)

Section first.
Context (P : Z -> Prop) `{forall n, Decision (P n)}.

Lemma first_from_end a e : e <= a -> first_from P a e = e.
Proof. intros. unfold first_from. by rewrite seqZ_nil by lia. Qed.

Lemma first_from_step a e : a < e -> first_from P a e = if decide (P a) then a else first_from P (a + 1) e.
Proof.
  intros. unfold first_from. rewrite seqZ_cons, filter_cons by lia.
  case_decide; [done|]. by replace (Z.pred (e - a)) with (e - (a + 1)) by lia.
Qed.

(** The first position is below the end and no earlier one has the property. *)
Lemma first_from_spec a e : a <= e ->
  a <= first_from P a e <= e /\ (first_from P a e < e -> P (first_from P a e)) /\
  forall m, a <= m < first_from P a e -> ~ P m.
Proof.
  intros Hae. remember (Z.to_nat (e - a)) as n. revert a Hae Heqn. induction n as [|n IH]; intros a Hae Hn.
  - rewrite first_from_end by lia. repeat split; lia.
  - rewrite first_from_step by lia. case_decide; [repeat split; [lia..|done|lia]|].
    destruct (IH (a + 1)) as (?&?&Hm); [lia..|]. repeat split; [lia..|done|].
    intros m ?. destruct (decide (m = a)) as [->|]; [done | apply Hm; lia].
Qed.

Lemma first_from_unique a e r :
  a <= r <= e -> (r < e -> P r) -> (forall m, a <= m < r -> ~ P m) -> first_from P a e = r.
Proof.
  intros Hr HP Hm. destruct (first_from_spec a e) as (Hf & HfP & Hfm); [lia|].
  destruct (Z.lt_trichotomy (first_from P a e) r) as [|[|]]; [|done|].
  - exfalso. apply (Hm (first_from P a e)); [lia|]. apply HfP. lia.
  - exfalso. apply (Hfm r); [lia|]. apply HP. lia.
Qed.

Lemma first_from_skip a b e : a <= b <= e -> (forall m, a <= m < b -> ~ P m) -> first_from P a e = first_from P b e.
Proof.
  intros Hb Hm. destruct (first_from_spec b e) as (Hf & HfP & Hfm); [lia|].
  apply first_from_unique; [lia|done|]. intros m ?. destruct (Z.ltb_spec m b); [apply Hm | apply Hfm]; lia.
Qed.

Lemma filter_first a e :
  filter P (seqZ a (e - a)) =
  if first_from P a e <? e then first_from P a e :: filter P (seqZ (first_from P a e + 1) (e - (first_from P a e + 1))) else [].
Proof.
  remember (Z.to_nat (e - a)) as n. revert a Heqn. induction n as [|n IH]; intros a Hn.
  - rewrite first_from_end, Z.ltb_irrefl, seqZ_nil by lia. done.
  - rewrite first_from_step, seqZ_cons, filter_cons by lia.
    replace (Z.pred (e - a)) with (e - (a + 1)) by lia. unfold Z.succ. case_decide.
    + by rewrite (proj2 (Z.ltb_lt _ _)) by lia.
    + apply IH. lia.
Qed.
End first.

Lemma land_1 v : Z.land v 1 = Z.b2z (Z.testbit v 0).
Proof. rewrite Z.bit0_odd. change 1 with (Z.ones 1). rewrite Z.land_ones, Z.pow_1_r by lia. apply Zmod_odd. Qed.

Lemma ctz_loop_spec n v c :
  ctz_loop n v c = c + first_from (fun i => Z.testbit v i = true) 0 (Z.of_nat n).
Proof.
  revert v c. induction n as [|n IH]; intros v c; cbn [ctz_loop]; [rewrite first_from_end; lia|].
  rewrite land_1, first_from_step by lia. case_decide as E.
  - rewrite E. cbn. lia.
  - apply not_true_is_false in E. rewrite E. cbn [Z.b2z negb Z.eqb]. rewrite IH.
    set (r := first_from (fun i => Z.testbit (Z.shiftr v 1) i = true) 0 (Z.of_nat n)).
    pose proof (first_from_spec (fun i => Z.testbit (Z.shiftr v 1) i = true) 0 (Z.of_nat n) ltac:(lia)) as (Hr & HP & Hm).
    fold r in Hr, HP, Hm. rewrite (first_from_unique _ _ _ (r + 1)); [lia..| |].
    + intros. specialize (HP ltac:(lia)). by rewrite Z.shiftr_spec in HP by lia.
    + intros m Hm2 Hb. apply (Hm (m - 1)); [lia|]. rewrite Z.shiftr_spec by lia. by replace (m - 1 + 1) with m by lia.
Qed.

Lemma findBitInWord_loop_spec fuel word index endIndex value :
  0 <= index -> (Z.to_nat (endIndex - index) < fuel)%nat -> index <= endIndex ->
  let r := first_from (fun i => Z.testbit word i = value) index endIndex in
  findBitInWord_loop fuel (Z.shiftr word index) index endIndex value = Ok (r <? endIndex, r).
Proof.
  revert index. induction fuel as [|fuel IH]; intros index Hi Hf He; [lia|]. cbn [findBitInWord_loop]. cbv zeta.
  destruct (Z.ltb_spec index endIndex).
  - rewrite first_from_step by done. rewrite land_1, Z.shiftr_spec, Z.add_0_l by lia.
    case_decide as E.
    + rewrite E, Z.eqb_refl. by rewrite (proj2 (Z.ltb_lt _ _)) by lia.
    + rewrite (proj2 (Z.eqb_neq _ _)) by (by destruct (Z.testbit word index), value).
      rewrite Z.shiftr_shiftr by lia. apply IH; lia.
  - rewrite first_from_end, Z.ltb_irrefl by lia. done.
Qed.

Section find.
Context (w word startIndex endIndex : Z) (value : bool).
Hypothesis Hw : 0 < w <= 64.
Hypothesis Hword : in_range w word.
Hypothesis Hindex : 0 <= startIndex <= endIndex /\ endIndex <= w.

Local Abbreviation first := (first_from (fun i => Z.testbit word i = value) startIndex endIndex).

Lemma findBitInWord_portable_spec :
  findBitInWord_portable word startIndex endIndex value = Ok (first <? endIndex, first).
Proof. apply findBitInWord_loop_spec; lia. Qed.

(** The word [ctz] is applied to has a bit set where the searched one has the
    value. *)
Lemma find_word i :
  0 <= i < w -> Z.testbit (Z.lxor (Z.shiftr word startIndex) (wrap w (Z.b2z value - 1))) i = true
  <-> Z.testbit word (startIndex + i) = value.
Proof.
  intros Hi. rewrite Z.lxor_spec, Z.shiftr_spec, (Z.add_comm i) by lia. unfold wrap. rewrite Z.mod_pow2_bits_low by lia.
  destruct value; cbn [Z.b2z Z.sub Z.add Z.opp Z.pos_sub].
  - change (1 - 1) with 0. by rewrite Z.bits_0, xorb_false_r.
  - change (0 - 1) with (-1). rewrite Z.bits_m1, xorb_true_r by lia. apply negb_true_iff.
Qed.

Lemma find_word_range : in_range w (Z.lxor (Z.shiftr word startIndex) (wrap w (Z.b2z value - 1))).
Proof.
  apply in_range_bits; [lia|]. intros i Hi. rewrite Z.lxor_spec, Z.shiftr_spec by lia.
  rewrite (proj1 (in_range_bits w word ltac:(lia)) Hword) by lia.
  by rewrite (proj1 (in_range_bits w _ ltac:(lia)) (wrap_range w _ ltac:(lia))) by lia.
Qed.

Lemma ctz_spec v : in_range w v -> ctz w v = first_from (fun i => Z.testbit v i = true) 0 w.
Proof.
  intros Hv. unfold ctz, ctzConstexpr. destruct (Z.eqb_spec v 0) as [->|Hz]; cbn [negb].
  - symmetry. apply first_from_unique; [lia|lia|]. intros m _. by rewrite Z.bits_0.
  - rewrite ctz_loop_spec, Z.add_0_l. change (Z.of_nat (Z.to_nat 64)) with 64.
    destruct (first_from_spec (fun i => Z.testbit v i = true) 0 w) as (Hr & HP & Hm); [lia|].
    apply first_from_unique; [lia| |done]. intros _. apply HP.
    destruct (Z.eq_dec (first_from (fun i => Z.testbit v i = true) 0 w) w) as [E|]; [|lia]. rewrite E in Hm.
    exfalso. apply Hz, Z.bits_inj'. intros i Hi. rewrite Z.bits_0. destruct (Z.ltb_spec i w).
    + apply not_true_is_false, Hm. lia.
    + by apply (proj1 (in_range_bits w v ltac:(lia)) Hv).
Qed.

Lemma findBitInWord_spec : findBitInWord w word startIndex endIndex value = (first <? endIndex, first).
Proof.
  unfold findBitInWord. cbv zeta. rewrite ctz_spec by apply find_word_range.
  set (v := Z.lxor _ _).
  destruct (first_from_spec (fun i => Z.testbit v i = true) 0 w) as (Hr & HP & Hm); [lia|].
  set (r := first_from (fun i => Z.testbit v i = true) 0 w) in *.
  destruct (Z.ltb_spec (startIndex + r) endIndex).
  - rewrite (first_from_unique _ _ _ (startIndex + r)); [by rewrite (proj2 (Z.ltb_lt _ _))|lia| |].
    + intros _. apply find_word; [lia|]. apply HP. lia.
    + intros m Hm2 E. apply (Hm (m - startIndex)); [lia|]. apply find_word; [lia|].
      by replace (startIndex + (m - startIndex)) with m by lia.
  - rewrite (first_from_unique _ _ _ endIndex); [by rewrite Z.ltb_irrefl|lia|lia|].
    intros m Hm2 E. apply (Hm (m - startIndex)); [lia|]. apply find_word; [lia|].
    by replace (startIndex + (m - startIndex)) with m by lia.
Qed.
End find.

End Bits.
