(* ===== verification/WtfBitmap.v ===== *)
(** * Fixed-size bitmaps (WTF/wtf/Bitmap.h)

    A bitmap is the array of its words.  The template parameters are the size
    in bits and the width of the word type, which is the default one of 32 or 64
    bits.  The abstract value of a bitmap is the set of the positions that are
    set; every operation is shown to compute the corresponding operation on
    sets. *)
From stdpp Require Import gmap.
From S2P Require Import Prelude WtfBits.

#[local] Open Scope cfetch_scope.

Module Bitmap.
Import Bits.

(** ** The words *)

(** [BitmapWordType]: the width of the default word type. *)
Definition BitmapWordType (size : Z) : Z := if size <=? 32 then 32 else 64.

(** A read-modify-write of [bits[i]]. *)
Definition modify (bits : list Z) (i : Z) (f : Z -> Z) : res (list Z) :=
  match bits.[i] with Some v => Ok (<[Z.to_nat i := f v]> bits) | None => UB end.

Section bitmap.
Context (bitmapSize bitsInWord : Z).

Definition numberOfWords : Z := u32 (u64 (bitmapSize + bitsInWord - 1) / bitsInWord).

(** [~v] in the word type. *)
Definition word_not (v : Z) : Z := wrap bitsInWord (Z.lnot v).
(** [one << k] *)
Definition one_shl (k : Z) : Z := wrap bitsInWord (Z.shiftl 1 k).
Definition clearAll : list Z := replicate (Z.to_nat numberOfWords) 0.
(** The constructor. *)
Definition Bitmap_ : list Z := clearAll.

(** ** Single bits *)

Definition get (bits : list Z) (n : Z) : res bool :=
  word ← or_ub bits.[n / bitsInWord];
  mret (negb (Z.land word (one_shl (n mod bitsInWord)) =? 0)).

Definition set (bits : list Z) (n : Z) : res (list Z) :=
  modify bits (n / bitsInWord) (fun word => Z.lor word (one_shl (n mod bitsInWord))).

Definition clear (bits : list Z) (n : Z) : res (list Z) :=
  modify bits (n / bitsInWord) (fun word => Z.land word (word_not (one_shl (n mod bitsInWord)))).

Definition set_value (bits : list Z) (n : Z) (value : bool) : res (list Z) :=
  if value then set bits n else clear bits n.

Definition testAndSet (bits : list Z) (n : Z) : res (bool * list Z) :=
  let mask := one_shl (n mod bitsInWord) in
  let index := n / bitsInWord in
  word ← or_ub bits.[index];
  let result := negb (Z.land word mask =? 0) in
  bits' ← modify bits index (fun word => Z.lor word mask);
  mret (result, bits').

Definition testAndClear (bits : list Z) (n : Z) : res (bool * list Z) :=
  let mask := one_shl (n mod bitsInWord) in
  let index := n / bitsInWord in
  word ← or_ub bits.[index];
  let result := negb (Z.land word mask =? 0) in
  bits' ← modify bits index (fun word => Z.land word (word_not mask));
  mret (result, bits').

Definition nextPossiblyUnset (bits : list Z) (start : Z) : res Z :=
  word ← or_ub bits.[start / bitsInWord];
  if word_not word =? 0 then mret (((start / bitsInWord) + 1) * bitsInWord) else mret (start + 1).

(** ** Whole bitmaps *)

(** [remainingBits] and its [mask], for a size that is not a multiple of the
    word size. *)
Definition remainder_mask : Z := wrap bitsInWord (one_shl (bitmapSize mod bitsInWord) - 1).

(** The [if constexpr] that clears the bits of the last word past the size. *)
Definition mask_last (bits : list Z) : res (list Z) :=
  if negb (bitmapSize mod bitsInWord =? 0)
  then modify bits (numberOfWords - 1) (fun word => Z.land word remainder_mask)
  else mret bits.

Definition invert (bits : list Z) : res (list Z) := mask_last (word_not <$> bits).

(** The loops over both arrays read and write each word once, at its index. *)
Definition merge (bits other : list Z) : list Z := zip_with Z.lor bits other.
Definition filter_ (bits other : list Z) : list Z := zip_with Z.land bits other.
Definition exclude (bits other : list Z) : list Z := zip_with (fun a b => Z.land a (word_not b)) bits other.
Definition or_assign (bits other : list Z) : list Z := zip_with Z.lor bits other.
Definition and_assign (bits other : list Z) : list Z := zip_with Z.land bits other.
Definition xor_assign (bits other : list Z) : list Z := zip_with Z.lxor bits other.

(** The new values of the bitmap and of [other]. *)
Definition mergeAndClear (bits other : list Z) : list Z * list Z := (zip_with Z.lor bits other, (fun _ => 0) <$> other).
Definition setAndClear (bits other : list Z) : list Z * list Z := (zip_with (fun _ b => b) bits other, (fun _ => 0) <$> other).

Fixpoint isEmpty (bits : list Z) : bool :=
  match bits with
  | [] => true
  | word :: bits => if negb (word =? 0) then false else isEmpty bits
  end.

(** The loop of [isFull] from word [i] on. *)
Fixpoint isFull_from (i : Z) (bits : list Z) : bool :=
  match bits with
  | [] => true
  | word :: bits =>
      if negb (word_not word =? 0) then
        if negb (bitmapSize mod bitsInWord =? 0) then
          if i =? numberOfWords - 1
          then if Z.land word remainder_mask =? remainder_mask then true else false
          else false
        else false
      else isFull_from (i + 1) bits
  end.
Definition isFull (bits : list Z) : bool := isFull_from 0 bits.

Fixpoint subsumes (bits other : list Z) : bool :=
  match bits, other with
  | myBits :: bits, otherBits :: other =>
      if negb (Z.lor myBits otherBits =? myBits) then false else subsumes bits other
  | _, _ => true
  end.

Fixpoint equal (bits other : list Z) : bool :=
  match bits, other with
  | a :: bits, b :: other => if negb (a =? b) then false else equal bits other
  | _, _ => true
  end.

Definition not_equal (bits other : list Z) : bool := negb (equal bits other).

(** ** Searches *)

(** [for (j = i; j <= i + runLength - 1; j++)]: [n] positions are left. *)
Fixpoint run_found (bits : list Z) (n : nat) (j : Z) : res bool :=
  match n with
  | O => mret true
  | S n => b ← get bits j; if b : bool then mret false else run_found bits n (j + 1)
  end.

Fixpoint run_loop (bits : list Z) (runLength : Z) (n : nat) (i : Z) : res Z :=
  match n with
  | O => mret (-1)
  | S n =>
      found ← run_found bits (Z.to_nat runLength) i;
      if found : bool then mret i else run_loop bits runLength n (i + 1)
  end.

Definition findRunOfZeros (bits : list Z) (runLength : Z) : res Z :=
  let runLength := if runLength =? 0 then 1 else runLength in
  if runLength >? bitmapSize then mret (-1)
  else run_loop bits runLength (Z.to_nat (bitmapSize - runLength + 1)) 0.

(** [for ( ; (start % bitsInWord); ++start)] *)
Fixpoint count_head (fuel : nat) (bits : list Z) (start result : Z) : res (Z * Z) :=
  match fuel with
  | O => NoFuel
  | S fuel =>
      if start mod bitsInWord =? 0 then mret (start, result)
      else b ← get bits start; count_head fuel bits (start + 1) (if b : bool then result + 1 else result)
  end.

Definition word_count (word : Z) : Z := if bitsInWord =? 32 then bitCount word else bitCount64 word.

Definition count (bits : list Z) (start : Z) : res Z :=
  '(start, result) ← count_head (S (Z.to_nat bitsInWord)) bits start 0;
  mret (foldl (fun result word => result + word_count word) result (drop (Z.to_nat (start / bitsInWord)) bits)).

(** [for (; word; ++j)]: the arguments of the calls of [func]. *)
Fixpoint each_bit (fuel : nat) (word base j : Z) : res (list Z) :=
  match fuel with
  | O => NoFuel
  | S fuel =>
      if word =? 0 then mret []
      else
        rest ← each_bit fuel (Z.shiftr word 1) base (j + 1);
        mret (if negb (Z.land word 1 =? 0) then (base + j) :: rest else rest)
  end.

Fixpoint each_word (bits : list Z) (i : Z) : res (list Z) :=
  match bits with
  | [] => mret []
  | word :: bits =>
      calls ← each_bit (S (Z.to_nat bitsInWord)) word (i * bitsInWord) 0;
      rest ← each_word bits (i + 1);
      mret (calls ++ rest)
  end.
Definition forEachSetBit (bits : list Z) : res (list Z) := each_word bits 0.

(** The loop of [findBit] over the words from [wordIndex] on. *)
Fixpoint find_loop (bits : list Z) (skipValue wordIndex startIndexInWord : Z) (value : bool) : Z :=
  match bits with
  | [] => bitmapSize
  | word :: bits =>
      let next := find_loop bits skipValue (wordIndex + 1) 0 value in
      if negb (word =? skipValue) then
        match findBitInWord bitsInWord word startIndexInWord bitsInWord value with
        | (true, index) => wordIndex * bitsInWord + index
        | (false, _) => next
        end
      else next
  end.

Definition findBit (bits : list Z) (startIndex : Z) (value : bool) : Z :=
  let skipValue := wrap bitsInWord (- Z.lxor (Z.b2z value) 1) in
  let wordIndex := startIndex / bitsInWord in
  let startIndexInWord := startIndex - wordIndex * bitsInWord in
  find_loop (drop (Z.to_nat wordIndex) bits) skipValue wordIndex startIndexInWord value.

(** Iteration: [iterator] is the bitmap and an index. *)
Definition begin_ (bits : list Z) : Z := findBit bits 0 true.
Definition end_ : Z := bitmapSize.
Definition iterator_next (bits : list Z) (m_index : Z) : Z := findBit bits (m_index + 1) true.

(** [for (it = begin(); it != end(); ++it)]: the values of [*it]. *)
Fixpoint iterate (fuel : nat) (bits : list Z) (m_index : Z) : res (list Z) :=
  match fuel with
  | O => NoFuel
  | S fuel =>
      if m_index =? end_ then mret []
      else rest ← iterate fuel bits (iterator_next bits m_index); mret (m_index :: rest)
  end.

(** ** Regular patterns *)

(** [while (index < limit)] *)
Fixpoint nth_loop (fuel : nat) (bits : list Z) (wordIndex index limit n : Z) : res (list Z * Z) :=
  match fuel with
  | O => NoFuel
  | S fuel =>
      if index <? limit then
        bits' ← modify bits wordIndex (fun word => Z.lor word (one_shl index));
        nth_loop fuel bits' wordIndex (u64 (index + n)) limit n
      else mret (bits, index)
  end.

(** [while (wordIndex < endWordIndex)]: [k] words are left. *)
Fixpoint nth_words (k : nat) (bits : list Z) (wordIndex index n : Z) : res (list Z * Z * Z) :=
  match k with
  | O => mret (bits, wordIndex, index)
  | S k =>
      '(bits, index) ← nth_loop (S (Z.to_nat bitsInWord)) bits wordIndex index bitsInWord n;
      nth_words k bits (wordIndex + 1) (u64 (index - bitsInWord)) n
  end.

Definition setEachNthBit (bits : list Z) (n start end' : Z) : res (list Z) :=
  let wordIndex := start / bitsInWord in
  let endWordIndex := end' / bitsInWord in
  let index := start - wordIndex * bitsInWord in
  '(bits, wordIndex, index) ← nth_words (Z.to_nat (endWordIndex - wordIndex)) bits wordIndex index n;
  let endIndex := end' - endWordIndex * bitsInWord in
  '(bits, _) ← nth_loop (S (Z.to_nat bitsInWord)) bits wordIndex index endIndex n;
  mask_last bits.

End bitmap.

Example bitmap_40 :
  (b ← setEachNthBit 40 64 (Bitmap_ 40 64) 7 3 40; forEachSetBit 64 b) = Ok [3; 10; 17; 24; 31; 38].
Proof. reflexivity. Qed.

Example bitmap_100 :
  (b ← setEachNthBit 100 64 (Bitmap_ 100 64) 13 5 100; x ← count 64 b 20; y ← iterate 100 64 200 b (begin_ 100 64 b); mret (x, y))
  = Ok (6, [5; 18; 31; 44; 57; 70; 83; 96]).
Proof. reflexivity. Qed.

(** ** The set of a bitmap *)

Section proofs.
Context (N w : Z).
Hypothesis Hw : w = 32 \/ w = 64.
Hypothesis HN : 0 <= N < 2 ^ 32.

(** The bit at position [n]. *)
Definition bit (b : list Z) (n : Z) : bool := Z.testbit (default 0 b.[n / w]) (n mod w).

Record wf (b : list Z) : Prop := {
  wf_len : zlen b = numberOfWords N w;
  wf_words : Forall (in_range w) b
}.

(** [b] holds the set [X]; the bits past the size are clear. *)
Record rep (b : list Z) (X : gset Z) : Prop := {
  rep_wf : wf b;
  rep_bit n : 0 <= n -> bit b n = bool_decide (n ∈ X);
  rep_bound n : n ∈ X -> 0 <= n < N
}.

Lemma words_bound : N <= numberOfWords N w * w < N + w /\ 0 <= numberOfWords N w.
Proof.
  unfold numberOfWords, wrap. rewrite (Z.mod_small _ (2 ^ 64)) by lia.
  rewrite Z.mod_small by (destruct Hw; subst; zdiv). destruct Hw; subst; zdiv.
Qed.

Lemma index_bound b n : wf b -> 0 <= n < N -> 0 <= n / w < zlen b /\ 0 <= n mod w < w.
Proof. intros [Hl _] Hn. rewrite Hl. pose proof words_bound. destruct Hw; subst; zdiv. Qed.

Lemma zlookup_word b i : wf b -> 0 <= i < zlen b -> exists v, b.[i] = Some v /\ in_range w v.
Proof.
  intros [_ Hf] Hi. unfold zlookup. rewrite (proj2 (Z.leb_le _ _)) by lia.
  destruct (lookup_lt_is_Some_2 b (Z.to_nat i)) as [v Hv]; [unfold zlen in *; lia|].
  exists v. split; [done|]. by eapply Forall_lookup_1.
Qed.

Lemma bit_insert b i v n :
  0 <= i < zlen b -> 0 <= n -> bit (<[Z.to_nat i := v]> b) n = if n / w =? i then Z.testbit v (n mod w) else bit b n.
Proof.
  intros Hi Hn. unfold bit, zlookup. assert (0 <= n / w) by (apply Z.div_pos; lia).
  rewrite (proj2 (Z.leb_le 0 (n / w))) by done. destruct (Z.eqb_spec (n / w) i) as [->|].
  - rewrite list_lookup_insert_eq by (unfold zlen in *; lia). done.
  - rewrite list_lookup_insert_ne by lia. done.
Qed.

Lemma one_shl_bit k j : 0 <= k < w -> 0 <= j -> Z.testbit (one_shl w k) j = (j =? k).
Proof.
  intros. unfold one_shl. rewrite Z.shiftl_1_l, wrap_small.
  - rewrite Z.pow2_bits_eqb by lia. by rewrite Z.eqb_sym.
  - split; [apply Z.pow_nonneg; lia | apply Z.pow_lt_mono_r; lia].
Qed.

Lemma word_not_bit v j : 0 <= j -> Z.testbit (word_not w v) j = (j <? w) && negb (Z.testbit v j).
Proof.
  intros. unfold word_not, wrap. destruct (Z.ltb_spec j w).
  - rewrite Z.mod_pow2_bits_low, Z.lnot_spec by lia. done.
  - rewrite Z.mod_pow2_bits_high by lia. done.
Qed.

Lemma test_mask v k : 0 <= k < w -> negb (Z.land v (one_shl w k) =? 0) = Z.testbit v k.
Proof.
  intros Hk. destruct (Z.testbit v k) eqn:E.
  - apply negb_true_iff, Z.eqb_neq. intros H0. apply (f_equal (fun z => Z.testbit z k)) in H0.
    rewrite Z.land_spec, one_shl_bit, Z.eqb_refl, E, Z.bits_0 in H0 by lia. done.
  - apply negb_false_iff, Z.eqb_eq, Z.bits_inj'. intros j Hj.
    rewrite Z.land_spec, one_shl_bit, Z.bits_0 by lia. destruct (Z.eqb_spec j k) as [->|]; [by rewrite E|].
    by rewrite andb_false_r.
Qed.

Lemma range_lor u v : in_range w u -> in_range w v -> in_range w (Z.lor u v).
Proof.
  rewrite !(in_range_bits w) by lia. intros Hu Hv i Hi. by rewrite Z.lor_spec, Hu, Hv.
Qed.

Lemma range_land u v : in_range w u -> in_range w (Z.land u v).
Proof. rewrite !(in_range_bits w) by lia. intros Hu i Hi. by rewrite Z.land_spec, Hu. Qed.

(** A read-modify-write of the word of position [n]. *)
Lemma modify_spec b n f :
  wf b -> 0 <= n < N -> (forall v, in_range w v -> in_range w (f v)) ->
  exists b' v, modify b (n / w) f = Ok b' /\ wf b' /\ b.[n / w] = Some v /\ in_range w v /\
    forall m, 0 <= m -> bit b' m = if m / w =? n / w then Z.testbit (f v) (m mod w) else bit b m.
Proof.
  intros Hb Hn Hf. destruct (index_bound b n Hb Hn) as [Hi _].
  destruct (zlookup_word b (n / w) Hb Hi) as (v & Hv & Hr). unfold modify. rewrite Hv.
  exists (<[Z.to_nat (n / w) := f v]> b), v. split; [done|]. split; [|split; [done|split; [done|]]].
  - destruct Hb as [Hl HF]. split; [unfold zlen in *; by rewrite length_insert|].
    apply Forall_insert; [done|auto].
  - intros m Hm. by apply bit_insert.
Qed.

Lemma same_pos m n : m / w = n / w -> m mod w = n mod w -> m = n.
Proof. intros. rewrite (Z.div_mod m w), (Z.div_mod n w) by lia. congruence. Qed.

Lemma get_spec b n : wf b -> 0 <= n < N -> get w b n = Ok (bit b n).
Proof.
  intros Hb Hn. destruct (index_bound b n Hb Hn) as [Hi Hk].
  destruct (zlookup_word b (n / w) Hb Hi) as (v & Hv & _). unfold get, bit. rewrite Hv. cbn.
  by rewrite test_mask.
Qed.

(** ** Single bits *)

Lemma set_spec b n :
  wf b -> 0 <= n < N -> exists b', set w b n = Ok b' /\ wf b' /\ forall m, 0 <= m -> bit b' m = (m =? n) || bit b m.
Proof.
  intros Hb Hn. destruct (index_bound b n Hb Hn) as [_ Hk].
  destruct (modify_spec b n (fun word => Z.lor word (one_shl w (n mod w))) Hb Hn) as (b' & v & E & Hb' & Hv & _ & Hbit).
  { intros u Hu. apply range_lor; [done|]. apply wrap_range. lia. }
  exists b'. split; [done|]. split; [done|]. intros m Hm. rewrite Hbit by done.
  pose proof (Z.mod_pos_bound m w ltac:(lia)). destruct (Z.eqb_spec (m / w) (n / w)) as [Ed|Ed].
  - rewrite Z.lor_spec, one_shl_bit by lia. unfold bit. rewrite Ed, Hv. cbn. rewrite orb_comm. f_equal.
    apply eq_bool_prop_intro. rewrite !Is_true_true, !Z.eqb_eq. split; [by apply same_pos | by intros ->].
  - rewrite (proj2 (Z.eqb_neq m n)) by (by intros ->). done.
Qed.

Lemma bitmap_clear_spec b n :
  wf b -> 0 <= n < N -> exists b', clear w b n = Ok b' /\ wf b' /\ forall m, 0 <= m -> bit b' m = negb (m =? n) && bit b m.
Proof.
  intros Hb Hn. destruct (index_bound b n Hb Hn) as [_ Hk].
  destruct (modify_spec b n (fun word => Z.land word (word_not w (one_shl w (n mod w)))) Hb Hn) as (b' & v & E & Hb' & Hv & _ & Hbit).
  { intros u Hu. by apply range_land. }
  exists b'. split; [done|]. split; [done|]. intros m Hm. rewrite Hbit by done.
  pose proof (Z.mod_pos_bound m w ltac:(lia)). destruct (Z.eqb_spec (m / w) (n / w)) as [Ed|Ed].
  - rewrite Z.land_spec, word_not_bit, one_shl_bit, (proj2 (Z.ltb_lt _ _)) by lia. unfold bit. rewrite Ed, Hv. cbn.
    rewrite andb_comm. f_equal. f_equal.
    apply eq_bool_prop_intro. rewrite !Is_true_true, !Z.eqb_eq. split; [by apply same_pos | by intros ->].
  - rewrite (proj2 (Z.eqb_neq m n)) by (by intros ->). done.
Qed.

(** The test reads the bit and the update is that of [set] or [clear]. *)
Lemma testAndSet_set b n : wf b -> 0 <= n < N -> testAndSet w b n = (b' ← set w b n; mret (bit b n, b')).
Proof.
  intros Hb Hn. destruct (index_bound b n Hb Hn) as [Hi Hk].
  destruct (zlookup_word b (n / w) Hb Hi) as (v & Hv & _). unfold testAndSet, set, modify, bit. rewrite Hv. cbn.
  by rewrite test_mask.
Qed.

Lemma testAndClear_clear b n : wf b -> 0 <= n < N -> testAndClear w b n = (b' ← clear w b n; mret (bit b n, b')).
Proof.
  intros Hb Hn. destruct (index_bound b n Hb Hn) as [Hi Hk].
  destruct (zlookup_word b (n / w) Hb Hi) as (v & Hv & _). unfold testAndClear, clear, modify, bit. rewrite Hv. cbn.
  by rewrite test_mask.
Qed.

Section refine.
Context (b : list Z) (X : gset Z) (Hrep : rep b X).
Let Hb : wf b := rep_wf _ _ Hrep.

Lemma rep_get n : 0 <= n < N -> get w b n = Ok (bool_decide (n ∈ X)).
Proof. intros Hn. rewrite get_spec by done. f_equal. apply (rep_bit _ _ Hrep). lia. Qed.

Lemma rep_set n : 0 <= n < N -> exists b', set w b n = Ok b' /\ rep b' ({[n]} ∪ X).
Proof.
  intros Hn. destruct (set_spec b n Hb Hn) as (b' & E & Hb' & Hbit). exists b'. split; [done|].
  split; [done| |].
  - intros m Hm. rewrite Hbit, (rep_bit _ _ Hrep) by done. apply eq_bool_prop_intro.
    rewrite orb_True, !bool_decide_spec, Is_true_true, Z.eqb_eq. set_solver.
  - intros m Hm. apply elem_of_union in Hm as [->%elem_of_singleton|Hm]; [done|]. by apply (rep_bound _ _ Hrep).
Qed.

Lemma rep_clear n : 0 <= n < N -> exists b', clear w b n = Ok b' /\ rep b' (X ∖ {[n]}).
Proof.
  intros Hn. destruct (bitmap_clear_spec b n Hb Hn) as (b' & E & Hb' & Hbit). exists b'. split; [done|].
  split; [done| |].
  - intros m Hm. rewrite Hbit, (rep_bit _ _ Hrep) by done. apply eq_bool_prop_intro.
    rewrite andb_True, negb_True, !bool_decide_spec, Is_true_true, Z.eqb_eq. set_solver.
  - intros m Hm. apply (rep_bound _ _ Hrep). set_solver.
Qed.

Lemma rep_testAndSet n :
  0 <= n < N -> exists b', testAndSet w b n = Ok (bool_decide (n ∈ X), b') /\ rep b' ({[n]} ∪ X).
Proof.
  intros Hn. destruct (rep_set n Hn) as (b' & E & H'). exists b'. split; [|done].
  rewrite testAndSet_set, E, (rep_bit _ _ Hrep) by (done || lia). done.
Qed.

Lemma rep_testAndClear n :
  0 <= n < N -> exists b', testAndClear w b n = Ok (bool_decide (n ∈ X), b') /\ rep b' (X ∖ {[n]}).
Proof.
  intros Hn. destruct (rep_clear n Hn) as (b' & E & H'). exists b'. split; [|done].
  rewrite testAndClear_clear, E, (rep_bit _ _ Hrep) by (done || lia). done.
Qed.

End refine.

(** ** Whole bitmaps *)

Lemma bit_outside b n : zlen b * w <= n -> bit b n = false.
Proof.
  intros Hn. unfold bit, zlookup. assert (zlen b <= n / w) by (apply Z.div_le_lower_bound; lia).
  pose proof (zlen_nonneg b). rewrite (proj2 (Z.leb_le _ _)) by lia.
  rewrite lookup_ge_None_2 by (unfold zlen in *; lia). cbn. apply Z.bits_0.
Qed.

Lemma bit_zip f (g : bool -> bool -> bool) b c :
  wf b -> wf c -> g false false = false ->
  (forall u v, in_range w u -> in_range w v -> in_range w (f u v) /\
     forall k, 0 <= k < w -> Z.testbit (f u v) k = g (Z.testbit u k) (Z.testbit v k)) ->
  wf (zip_with f b c) /\ forall n, 0 <= n -> bit (zip_with f b c) n = g (bit b n) (bit c n).
Proof.
  intros Hb Hc Hg Hf. assert (Hl : zlen (zip_with f b c) = zlen b).
  { unfold zlen. rewrite length_zip_with. destruct Hb as [Hb _], Hc as [Hc _]. unfold zlen in *. lia. }
  assert (Hlc : zlen c = zlen b) by (destruct Hb, Hc; congruence). split.
  - split; [rewrite Hl; apply Hb|]. apply Forall_lookup_2. intros i x Hx.
    apply lookup_zip_with_Some in Hx as (u & v & -> & Hu & Hv).
    apply Hf; [eapply Forall_lookup_1; [apply Hb|done] | eapply Forall_lookup_1; [apply Hc|done]].
  - intros n Hn. destruct (Z.ltb_spec (n / w) (zlen b)).
    + assert (0 <= n / w) by (apply Z.div_pos; lia).
      destruct (zlookup_word b (n / w) Hb) as (u & Hu & Ru); [lia|].
      destruct (zlookup_word c (n / w) Hc) as (v & Hv & Rv); [lia|].
      unfold bit. rewrite Hu, Hv. unfold zlookup in *. rewrite (proj2 (Z.leb_le _ _)) in * by done.
      rewrite lookup_zip_with, Hu. cbn. rewrite Hv. cbn. apply Hf; [done..|]. apply Z.mod_pos_bound. lia.
    + assert (zlen b * w <= n) by (destruct Hw; subst; zdiv).
      rewrite !bit_outside by (rewrite ?Hl, ?Hlc; lia). done.
Qed.

Lemma remainder_mask_bit j : N mod w <> 0 -> 0 <= j -> Z.testbit (remainder_mask N w) j = (j <? N mod w).
Proof.
  intros Hr Hj. pose proof (Z.mod_pos_bound N w ltac:(lia)). unfold remainder_mask, one_shl.
  assert (0 < 2 ^ (N mod w) < 2 ^ w) by (split; [apply Z.pow_pos_nonneg | apply Z.pow_lt_mono_r]; lia).
  rewrite Z.shiftl_1_l, (wrap_small w (2 ^ _)), wrap_small by lia.
  replace (2 ^ (N mod w) - 1) with (Z.ones (N mod w)) by (rewrite Z.ones_equiv; lia).
  destruct (Z.ltb_spec j (N mod w)); [apply Z.ones_spec_low; lia | apply Z.ones_spec_high; lia].
Qed.

(** The bits past the size are cleared. *)
Lemma mask_last_spec b :
  wf b -> exists b', mask_last N w b = Ok b' /\ wf b' /\ forall m, 0 <= m -> bit b' m = (m <? N) && bit b m.
Proof.
  intros Hb. pose proof words_bound as [Hnw _]. unfold mask_last.
  destruct (Z.eqb_spec (N mod w) 0) as [E|E]; cbn [negb].
  - exists b. split; [done|]. split; [done|]. intros m Hm. destruct (Z.ltb_spec m N); [done|].
    apply bit_outside. rewrite (wf_len _ Hb). destruct Hw; subst; zdiv.
  - assert (Hlast : numberOfWords N w - 1 = (N - 1) / w) by (destruct Hw; subst; zdiv). rewrite Hlast.
    destruct (modify_spec b (N - 1) (fun word => Z.land word (remainder_mask N w)) Hb)
      as (b' & v & Em & Hb' & Hv & _ & Hbit).
    { destruct Hw; subst; zdiv. } { intros u Hu. by apply range_land. }
    exists b'. split; [done|]. split; [done|]. intros m Hm. rewrite Hbit by done.
    destruct (Z.eqb_spec (m / w) ((N - 1) / w)) as [Ed|Ed].
    + pose proof (Z.mod_pos_bound m w ltac:(lia)). rewrite Z.land_spec, remainder_mask_bit by lia.
      unfold bit. rewrite Ed, Hv, andb_comm. cbn. f_equal.
      apply eq_bool_prop_intro. rewrite !Is_true_true, !Z.ltb_lt. destruct Hw; subst; zdiv.
    + destruct (Z.ltb_spec m N); [done|]. apply bit_outside. rewrite (wf_len _ Hb). destruct Hw; subst; zdiv.
Qed.

Definition all : gset Z := list_to_set (seqZ 0 N).

Lemma elem_of_all n : n ∈ all <-> 0 <= n < N.
Proof. unfold all. rewrite elem_of_list_to_set, elem_of_seqZ. lia. Qed.

Lemma rep_clearAll : rep (clearAll N w) ∅.
Proof.
  assert (Hz : forall n, bit (clearAll N w) n = false).
  { intros n. unfold bit, clearAll, zlookup. destruct (0 <=? n / w); [|apply Z.bits_0].
    destruct (replicate _ _ !! _) eqn:E; [apply lookup_replicate in E as [-> _]|]; apply Z.bits_0. }
  pose proof words_bound. split.
  - split; [unfold clearAll; rewrite zlen_replicate; lia|]. apply Forall_replicate. unfold in_range. destruct Hw; subst; lia.
  - intros n _. rewrite Hz. symmetry. apply bool_decide_eq_false. set_solver.
  - intros n. set_solver.
Qed.

Lemma bit_not b : wf b ->
  wf (word_not w <$> b) /\ forall n, 0 <= n -> bit (word_not w <$> b) n = (n / w <? zlen b) && negb (bit b n).
Proof.
  intros Hb. split.
  - split; [rewrite zlen_fmap; apply Hb|]. apply Forall_fmap, Forall_forall. intros v _. apply wrap_range. lia.
  - intros n Hn. unfold bit, zlookup. assert (0 <= n / w) by (apply Z.div_pos; lia).
    rewrite (proj2 (Z.leb_le _ _)), list_lookup_fmap by done. destruct (Z.ltb_spec (n / w) (zlen b)).
    + destruct (lookup_lt_is_Some_2 b (Z.to_nat (n / w))) as [v ->]; [unfold zlen in *; lia|]. cbn.
      pose proof (Z.mod_pos_bound n w ltac:(lia)). rewrite word_not_bit, (proj2 (Z.ltb_lt _ _)) by lia. done.
    + rewrite lookup_ge_None_2 by (unfold zlen in *; lia). cbn. apply Z.bits_0.
Qed.

Lemma rep_invert b X : rep b X -> exists b', invert N w b = Ok b' /\ rep b' (all ∖ X).
Proof.
  intros HR. pose proof (rep_wf _ _ HR) as Hb. unfold invert. destruct (bit_not b Hb) as [Hb1 Hn].
  destruct (mask_last_spec _ Hb1) as (b' & E & Hb' & Hbit). exists b'. split; [done|]. split; [done| |].
  - intros n Hn0. rewrite Hbit, Hn, (rep_bit _ _ HR) by done. destruct (Z.ltb_spec n N).
    + destruct (index_bound b n Hb ltac:(lia)) as [Hi _]. rewrite (proj2 (Z.ltb_lt _ _)) by lia. cbn [andb].
      rewrite <- bool_decide_not. apply bool_decide_ext. rewrite elem_of_difference, elem_of_all. naive_solver lia.
    + symmetry. apply bool_decide_eq_false. rewrite elem_of_difference, elem_of_all. lia.
  - intros n. rewrite elem_of_difference, elem_of_all. lia.
Qed.

(** Word by word operations on two bitmaps. *)
Section binary.
Context (b c : list Z) (X Y : gset Z) (HX : rep b X) (HY : rep c Y).

Lemma rep_zip f g Z' :
  g false false = false ->
  (forall u v, in_range w u -> in_range w v -> in_range w (f u v) /\
     forall k, 0 <= k < w -> Z.testbit (f u v) k = g (Z.testbit u k) (Z.testbit v k)) ->
  (forall n, n ∈ Z' <-> g (bool_decide (n ∈ X)) (bool_decide (n ∈ Y)) = true) ->
  rep (zip_with f b c) Z'.
Proof.
  intros Hg Hf HZ. destruct (bit_zip f g b c (rep_wf _ _ HX) (rep_wf _ _ HY) Hg Hf) as [Hb Hbit]. split; [done| |].
  - intros n Hn. rewrite Hbit, (rep_bit _ _ HX), (rep_bit _ _ HY) by done. apply eq_bool_prop_intro.
    by rewrite bool_decide_spec, Is_true_true, HZ.
  - intros n Hn. apply HZ in Hn. destruct (decide (n ∈ X)) as [H1|H1]; [by apply (rep_bound _ _ HX)|].
    destruct (decide (n ∈ Y)) as [H2|H2]; [by apply (rep_bound _ _ HY)|].
    rewrite !bool_decide_false, Hg in Hn by done. done.
Qed.

Lemma rep_merge : rep (merge b c) (X ∪ Y).
Proof.
  apply (rep_zip Z.lor orb); [done| |].
  - intros u v Hu Hv. split; [by apply range_lor|]. intros k _. apply Z.lor_spec.
  - intros n. rewrite elem_of_union, orb_true_iff, !bool_decide_eq_true. done.
Qed.

Lemma rep_filter : rep (filter_ b c) (X ∩ Y).
Proof.
  apply (rep_zip Z.land andb); [done| |].
  - intros u v Hu Hv. split; [by apply range_land|]. intros k _. apply Z.land_spec.
  - intros n. rewrite elem_of_intersection, andb_true_iff, !bool_decide_eq_true. done.
Qed.

Lemma rep_exclude : rep (exclude w b c) (X ∖ Y).
Proof.
  apply (rep_zip _ (fun p q => p && negb q)); [done| |].
  - intros u v Hu Hv. split; [by apply range_land|]. intros k Hk.
    rewrite Z.land_spec, word_not_bit, (proj2 (Z.ltb_lt _ _)) by lia. done.
  - intros n. rewrite elem_of_difference, andb_true_iff, negb_true_iff, bool_decide_eq_true, bool_decide_eq_false. done.
Qed.

Lemma rep_xor : rep (xor_assign b c) ((X ∖ Y) ∪ (Y ∖ X)).
Proof.
  apply (rep_zip Z.lxor xorb); [done| |].
  - intros u v Hu Hv. split; [|intros k _; apply Z.lxor_spec]. apply in_range_bits; [lia|]. intros i Hi.
    rewrite Z.lxor_spec, (proj1 (in_range_bits w u ltac:(lia)) Hu), (proj1 (in_range_bits w v ltac:(lia)) Hv) by lia. done.
  - intros n. destruct (decide (n ∈ X)), (decide (n ∈ Y));
      rewrite ?(bool_decide_true (n ∈ X)), ?(bool_decide_false (n ∈ X)), ?(bool_decide_true (n ∈ Y)), ?(bool_decide_false (n ∈ Y)) by done;
      cbn; set_solver.
Qed.

Lemma rep_copy : rep (zip_with (fun _ v => v) b c) Y.
Proof.
  apply (rep_zip _ (fun _ q => q)); [done|done|]. intros n. by rewrite bool_decide_eq_true.
Qed.

Lemma rep_zero : rep ((fun _ => 0) <$> c) ∅.
Proof.
  replace ((fun _ => 0) <$> c) with (clearAll N w); [apply rep_clearAll|].
  unfold clearAll. rewrite <- (wf_len _ (rep_wf _ _ HY)), to_nat_zlen. clear.
  induction c as [|v l IH]; [done|]. cbn. by rewrite IH.
Qed.

End binary.

(** ** Comparisons *)

Lemma bit_word b i u k : 0 <= i -> 0 <= k < w -> b.[i] = Some u -> bit b (i * w + k) = Z.testbit u k.
Proof.
  intros Hi Hk Hu. unfold bit. rewrite Z.div_add_l, Z.div_small, Z.add_0_r, Hu by lia.
  by rewrite Z.add_comm, Z_mod_plus_full, Z.mod_small by lia.
Qed.

(** A set has one representation, and a bitmap one set. *)
Lemma rep_inj b c X : rep b X -> rep c X -> b = c.
Proof.
  intros HB HC. pose proof (rep_wf _ _ HB) as Hb. pose proof (rep_wf _ _ HC) as Hc.
  assert (Hl : zlen b = zlen c) by (destruct Hb, Hc; congruence).
  apply list_eq_same_length with (length b); [unfold zlen in *; lia | done |].
  intros i u v Hi Hu Hv. assert (Hb0 : b.[Z.of_nat i] = Some u) by (unfold zlookup; by rewrite (proj2 (Z.leb_le _ _)), Nat2Z.id by lia).
  assert (Hc0 : c.[Z.of_nat i] = Some v) by (unfold zlookup; by rewrite (proj2 (Z.leb_le _ _)), Nat2Z.id by lia).
  pose proof (Forall_lookup_1 _ _ _ _ (wf_words _ Hb) Hu) as Ru. pose proof (Forall_lookup_1 _ _ _ _ (wf_words _ Hc) Hv) as Rv.
  apply Z.bits_inj'. intros k Hk. destruct (Z.ltb_spec k w).
  - rewrite <- (bit_word b (Z.of_nat i) u), <- (bit_word c (Z.of_nat i) v) by (done || lia).
    rewrite (rep_bit _ _ HB), (rep_bit _ _ HC) by lia. done.
  - rewrite (proj1 (in_range_bits w u ltac:(lia)) Ru), (proj1 (in_range_bits w v ltac:(lia)) Rv) by lia. done.
Qed.

Lemma rep_fun b X Y : rep b X -> rep b Y -> X = Y.
Proof.
  intros HX HY. apply set_eq. intros n. split; intros Hn.
  - pose proof (rep_bound _ _ HX n Hn). apply (bool_decide_eq_true (n ∈ Y)). rewrite <- (rep_bit _ _ HY) by lia.
    rewrite (rep_bit _ _ HX) by lia. by apply bool_decide_eq_true.
  - pose proof (rep_bound _ _ HY n Hn). apply (bool_decide_eq_true (n ∈ X)). rewrite <- (rep_bit _ _ HX) by lia.
    rewrite (rep_bit _ _ HY) by lia. by apply bool_decide_eq_true.
Qed.

Lemma bitmap_isEmpty_spec b : isEmpty b = true <-> b = replicate (length b) 0.
Proof.
  induction b as [|v b IH]; [done|]. cbn [isEmpty length replicate]. destruct (Z.eqb_spec v 0) as [->|]; cbn [negb].
  - rewrite IH. split; [congruence | by intros [= E]].
  - split; [done | by intros [= ? _]].
Qed.

Lemma equal_spec b c : length b = length c -> equal b c = true <-> b = c.
Proof.
  revert c. induction b as [|u b IH]; intros [|v c] Hl; try done. cbn [equal]. injection Hl as Hl.
  destruct (Z.eqb_spec u v) as [->|]; cbn [negb].
  - rewrite IH by done. split; [congruence | by intros [= E]].
  - split; [done | by intros [= ? _]].
Qed.

Lemma subsumes_spec b c : length b = length c -> subsumes b c = true <-> merge b c = b.
Proof.
  revert c. induction b as [|u b IH]; intros [|v c] Hl; try done. cbn [subsumes merge zip_with]. injection Hl as Hl.
  destruct (Z.eqb_spec (Z.lor u v) u) as [E|E]; cbn [negb].
  - rewrite IH by done. unfold merge. split; [congruence | by intros [= _ ?]].
  - split; [done | by intros [= ? _]].
Qed.

Section compare.
Context (b c : list Z) (X Y : gset Z) (HX : rep b X) (HY : rep c Y).

Lemma rep_length : length b = length c.
Proof. destruct (rep_wf _ _ HX), (rep_wf _ _ HY). unfold zlen in *. lia. Qed.

Lemma rep_isEmpty : isEmpty b = bool_decide (X = ∅).
Proof.
  apply eq_bool_prop_intro. rewrite Is_true_true, bool_decide_spec, bitmap_isEmpty_spec.
  assert (E : replicate (length b) 0 = clearAll N w).
  { unfold clearAll. by rewrite <- (wf_len _ (rep_wf _ _ HX)), to_nat_zlen. }
  rewrite E. split.
  - intros Eb. eapply rep_fun; [exact HX|]. rewrite Eb. apply rep_clearAll.
  - intros ->. eapply rep_inj; [exact HX | apply rep_clearAll].
Qed.

Lemma rep_equal : equal b c = bool_decide (X = Y).
Proof.
  apply eq_bool_prop_intro. rewrite Is_true_true, bool_decide_spec, equal_spec by apply rep_length. split.
  - intros Eb. eapply rep_fun; [exact HX|]. by rewrite Eb.
  - intros ->. by eapply rep_inj.
Qed.

Lemma rep_subsumes : subsumes b c = bool_decide (Y ⊆ X).
Proof.
  apply eq_bool_prop_intro. rewrite Is_true_true, bool_decide_spec, subsumes_spec by apply rep_length.
  pose proof (rep_merge _ _ _ _ HX HY) as HM. split.
  - intros E. rewrite E in HM. rewrite <- (rep_fun _ _ _ HM HX). set_solver.
  - intros E. eapply rep_inj; [exact HM|]. by replace (X ∪ Y) with X by set_solver.
Qed.
End compare.

(** What [isFull] accepts of word [j]: the positions below the size are set. *)
Definition full_word (j word : Z) : Prop := forall k, 0 <= k < w -> j * w + k < N -> Z.testbit word k = true.

Lemma word_not_zero v : in_range w v -> word_not w v = 0 <-> forall k, 0 <= k < w -> Z.testbit v k = true.
Proof.
  intros Hv. split.
  - intros E k Hk. apply (f_equal (fun z => Z.testbit z k)) in E.
    rewrite word_not_bit, (proj2 (Z.ltb_lt _ _)), Z.bits_0 in E by lia. by apply negb_false_iff in E.
  - intros H. apply Z.bits_inj'. intros k Hk. rewrite word_not_bit, Z.bits_0 by lia.
    destruct (Z.ltb_spec k w); [|done]. by rewrite H by lia.
Qed.

Lemma land_remainder v :
  N mod w <> 0 -> Z.land v (remainder_mask N w) = remainder_mask N w <-> forall k, 0 <= k < N mod w -> Z.testbit v k = true.
Proof.
  intros Hr. split.
  - intros E k Hk. apply (f_equal (fun z => Z.testbit z k)) in E.
    rewrite Z.land_spec, remainder_mask_bit, (proj2 (Z.ltb_lt _ _)), andb_true_r in E by lia. done.
  - intros H. apply Z.bits_inj'. intros k Hk. rewrite Z.land_spec, remainder_mask_bit by lia.
    destruct (Z.ltb_spec k (N mod w)); [by rewrite H by lia | by rewrite andb_false_r].
Qed.

Lemma isFull_from_spec i b :
  0 <= i -> i + zlen b = numberOfWords N w -> Forall (in_range w) b ->
  isFull_from N w i b = true <-> forall j word, b !! j = Some word -> full_word (i + Z.of_nat j) word.
Proof.
  pose proof words_bound as [Hnw _]. revert i. induction b as [|v b IH]; intros i Hi Hl Hf; [done|].
  apply Forall_cons in Hf as [Hv Hf]. rewrite zlen_cons in Hl. pose proof (zlen_nonneg b) as Hzb.
  assert (Hsplit : (forall j word, (v :: b) !! j = Some word -> full_word (i + Z.of_nat j) word)
    <-> full_word i v /\ (forall j word, b !! j = Some word -> full_word (i + 1 + Z.of_nat j) word)).
  { split.
    - intros H. split; [specialize (H 0%nat v eq_refl); by rewrite Z.add_0_r in H|]. intros j word Hj.
      specialize (H (S j) word Hj). by replace (i + 1 + Z.of_nat j) with (i + Z.of_nat (S j)) by lia.
    - intros [H0 H] [|j] word Hj; [injection Hj as <-; by rewrite Z.add_0_r|].
      replace (i + Z.of_nat (S j)) with (i + 1 + Z.of_nat j) by lia. by apply H. }
  rewrite Hsplit. clear Hsplit. cbn [isFull_from]. destruct (Z.eqb_spec (word_not w v) 0) as [E|E]; cbn [negb].
  - rewrite IH by (done || lia). assert (full_word i v); [|tauto].
    intros k Hk _. by apply (word_not_zero v).
  - assert (Hno : i <> numberOfWords N w - 1 \/ N mod w = 0 -> ~ full_word i v).
    { intros Hi2 Hfull. apply E, word_not_zero; [done|]. intros k Hk. apply Hfull; [done|].
      destruct Hw; subst; zdiv. }
    destruct (Z.eqb_spec (N mod w) 0) as [Er|Er]; cbn [negb]; [split; [done|]; intros []; exfalso; tauto|].
    destruct (Z.eqb_spec i (numberOfWords N w - 1)) as [Ei|Ei]; [|split; [done|]; intros []; exfalso; tauto].
    destruct b as [|? b]; [|rewrite zlen_cons in Hl; pose proof (zlen_nonneg b); lia].
    assert (HE : Z.land v (remainder_mask N w) = remainder_mask N w <-> full_word i v).
    { rewrite land_remainder by done. split; intros H1 k Hk; intros; apply H1; destruct Hw; subst; zdiv. }
    destruct (Z.eqb_spec (Z.land v (remainder_mask N w)) (remainder_mask N w)) as [E2|E2].
    + split; [|done]. intros _. split; [tauto|]. by intros j word Hj.
    + split; [done|]. intros []. exfalso. tauto.
Qed.

Lemma rep_isFull b X : rep b X -> isFull N w b = bool_decide (X = all).
Proof.
  intros HR. pose proof (rep_wf _ _ HR) as Hb. apply eq_bool_prop_intro. rewrite Is_true_true, bool_decide_spec.
  unfold isFull. rewrite isFull_from_spec by (try lia; apply Hb). split.
  - intros H. apply set_eq. intros n. rewrite elem_of_all. split; [apply (rep_bound _ _ HR)|]. intros Hn.
    destruct (index_bound b n Hb Hn) as [Hi Hk]. destruct (zlookup_word b (n / w) Hb Hi) as (v & Hv & _).
    apply (bool_decide_eq_true (n ∈ X)). rewrite <- (rep_bit _ _ HR) by lia. unfold bit. rewrite Hv. cbn.
    unfold zlookup in Hv. rewrite (proj2 (Z.leb_le _ _)) in Hv by lia. apply (H _ _ Hv); [done|].
    rewrite Z.add_0_l, Z2Nat.id by lia. destruct Hw; subst; zdiv.
  - intros -> j word Hj k Hk Hn. rewrite Z.add_0_l in Hn.
    rewrite <- (bit_word b (Z.of_nat j) word) by (try done; unfold zlookup; rewrite ?(proj2 (Z.leb_le _ _)), ?Nat2Z.id by lia; done || lia).
    rewrite (rep_bit _ _ HR) by lia. apply bool_decide_eq_true, elem_of_all. lia.
Qed.

(** ** Searches *)

(** The words before and from word [i] on. *)
Lemma drop_cons (b : list Z) i v l : 0 <= i -> drop (Z.to_nat i) b = v :: l -> b.[i] = Some v /\ drop (Z.to_nat (i + 1)) b = l.
Proof.
  intros Hi E. split.
  - unfold zlookup. rewrite (proj2 (Z.leb_le _ _)) by done. rewrite <- (Nat.add_0_r (Z.to_nat i)), <- lookup_drop, E. done.
  - replace (Z.to_nat (i + 1)) with (Z.to_nat i + 1)%nat by lia. by rewrite <- drop_drop, E.
Qed.

Lemma drop_zlen b i v l : wf b -> 0 <= i -> drop (Z.to_nat i) b = v :: l -> i < zlen b /\ in_range w v.
Proof.
  intros Hb Hi E. assert (i < zlen b).
  { destruct (Z.ltb_spec i (zlen b)); [done|]. rewrite drop_ge in E by (unfold zlen in *; lia). done. }
  split; [done|]. destruct (drop_cons b i v l Hi E) as [Hv _]. destruct (zlookup_word b i Hb) as (v' & Hv' & Hr); [lia|].
  by replace v with v' by congruence.
Qed.

Lemma drop_nil (b : list Z) i : 0 <= i -> drop (Z.to_nat i) b = [] -> zlen b <= i.
Proof. intros Hi E. apply (f_equal length) in E. rewrite length_drop in E. cbn in E. unfold zlen. lia. Qed.

Lemma skip_word v value : in_range w v ->
  v = wrap w (- Z.lxor (Z.b2z value) 1) -> forall k, 0 <= k < w -> Z.testbit v k <> value.
Proof.
  intros Hv -> k Hk. unfold wrap. rewrite Z.mod_pow2_bits_low by lia. destruct value.
  - change (- Z.lxor (Z.b2z true) 1) with 0. by rewrite Z.bits_0.
  - change (- Z.lxor (Z.b2z false) 1) with (-1). by rewrite Z.bits_m1 by lia.
Qed.

Section find.
Context (b : list Z) (value : bool) (Hb : wf b).
Let e := zlen b * w.
Let first a := first_from (fun n => bit b n = value) a e.

Lemma bitmap_find_loop_spec l i s :
  0 <= i <= zlen b -> 0 <= s < w -> drop (Z.to_nat i) b = l -> i * w + s <= e ->
  find_loop N w l (wrap w (- Z.lxor (Z.b2z value) 1)) i s value =
  if first (i * w + s) <? e then first (i * w + s) else N.
Proof.
  revert i s. induction l as [|v l IH]; intros i s Hi Hs Hd Hle.
  - apply drop_nil in Hd; [|lia]. unfold first. rewrite first_from_end by lia. by rewrite Z.ltb_irrefl.
  - destruct (drop_zlen b i v l Hb ltac:(lia) Hd) as [Hlt Hr]. destruct (drop_cons b i v l ltac:(lia) Hd) as [Hv Hd'].
    assert (Hnext : (forall k, s <= k < w -> Z.testbit v k <> value) -> first (i * w + s) = first ((i + 1) * w + 0)).
    { intros Hk. unfold first. apply first_from_skip; [unfold e; nia|]. intros m Hm.
      replace m with (i * w + (m - i * w)) by lia. rewrite (bit_word b i v) by (done || lia). apply Hk. lia. }
    cbn [find_loop]. rewrite IH by (done || lia || (unfold e; nia)).
    destruct (Z.eqb_spec v (wrap w (- Z.lxor (Z.b2z value) 1))) as [E|E]; cbn [negb].
    + rewrite Hnext; [done|]. intros k Hk. apply (skip_word v value); done || lia.
    + rewrite findBitInWord_spec by (done || lia).
      destruct (first_from_spec (fun k => Z.testbit v k = value) s w) as (Hf & HfP & Hfm); [lia|].
      set (r := first_from _ s w) in *. destruct (Z.ltb_spec r w).
      * unfold first. rewrite (first_from_unique _ _ _ (i * w + r)).
        -- by rewrite (proj2 (Z.ltb_lt _ _)) by (unfold e; nia).
        -- unfold e. nia.
        -- intros _. rewrite (bit_word b i v) by (done || lia). by apply HfP.
        -- intros m Hm. replace m with (i * w + (m - i * w)) by lia. rewrite (bit_word b i v) by (done || lia). apply Hfm. lia.
      * rewrite Hnext; [done|]. intros k Hk. apply Hfm. lia.
Qed.
End find.

Lemma word_count_spec v : in_range w v -> word_count w v = popcount w v.
Proof.
  intros Hv. unfold word_count. destruct Hw; subst; cbn [Z.eqb Pos.eqb]; [by apply bitCount_spec | by apply bitCount64_spec].
Qed.

Lemma mod_up start : start mod w <> 0 -> (- start) mod w = (- (start + 1)) mod w + 1.
Proof. intros. destruct Hw; subst; zdiv. Qed.

Section search.
Context (b : list Z) (X : gset Z) (Hrep : rep b X).

Lemma rep_is_wf : wf b.
Proof. apply Hrep. Qed.

Lemma words_end : N <= zlen b * w.
Proof. rewrite (wf_len _ rep_is_wf). pose proof words_bound. lia. Qed.

Lemma rep_findBit start value :
  0 <= start <= N -> findBit N w b start value = first_from (fun n => bool_decide (n ∈ X) = value) start N.
Proof.
  intros Hs. pose proof words_end as He. unfold findBit. cbv zeta.
  pose proof (Z.div_mod start w ltac:(lia)). pose proof (Z.mod_pos_bound start w ltac:(lia)).
  pose proof (Z.div_pos start w ltac:(lia) ltac:(lia)).
  assert (start / w <= zlen b) by nia.
  rewrite (bitmap_find_loop_spec b value rep_is_wf) by (done || lia).
  replace (start / w * w + (start - start / w * w)) with start by lia.
  destruct (first_from_spec (fun n => bit b n = value) start (zlen b * w)) as (Hf & HfP & Hfm); [lia|].
  set (r := first_from _ start (zlen b * w)) in *. symmetry.
  assert (Hbit : forall m, start <= m -> bit b m = bool_decide (m ∈ X)) by (intros; apply (rep_bit _ _ Hrep); lia).
  assert (Hpad : value = false -> N < zlen b * w -> r <= N).
  { intros -> Hlt. destruct (Z.leb_spec r N); [done|]. exfalso. apply (Hfm N); [lia|].
    rewrite Hbit by lia. apply bool_decide_eq_false. intros Hin. apply (rep_bound _ _ Hrep) in Hin. lia. }
  assert (Htrue : r < zlen b * w -> value = true -> r < N).
  { intros Hlt ->. specialize (HfP Hlt). rewrite Hbit in HfP by lia.
    apply bool_decide_eq_true in HfP. apply (rep_bound _ _ Hrep) in HfP. lia. }
  apply first_from_unique.
  - destruct (Z.ltb_spec r (zlen b * w)) as [Hlt|]; [|lia]. destruct value; [specialize (Htrue Hlt eq_refl); lia|].
    destruct (Z.ltb_spec N (zlen b * w)) as [Hp|]; [specialize (Hpad eq_refl Hp)|]; lia.
  - intros Hlt. destruct (Z.ltb_spec r (zlen b * w)); [|lia]. rewrite <- Hbit by lia. by apply HfP.
  - intros m Hm. rewrite <- Hbit by lia. apply Hfm. destruct (Z.ltb_spec r (zlen b * w)); lia.
Qed.

(** The members of [X] from [a] to [e], in order. *)
Definition members (a e : Z) : list Z := filter (fun n => n ∈ X) (seqZ a (e - a)).
(** The set bits from [a] to [e]. *)
Definition ones (a e : Z) : list Z := filter (fun n => bit b n = true) (seqZ a (e - a)).

Lemma ones_app a m e : a <= m <= e -> ones a e = ones a m ++ ones m e.
Proof.
  intros H. unfold ones. replace (e - a) with ((m - a) + (e - m)) by lia.
  rewrite seqZ_app, filter_app by lia. by replace (a + (m - a)) with m by lia.
Qed.

Lemma ones_members a : 0 <= a <= N -> ones a (zlen b * w) = members a N.
Proof.
  intros Ha. pose proof words_end. rewrite (ones_app a N) by lia. unfold ones, members.
  assert (E : filter (fun n => bit b n = true) (seqZ N (zlen b * w - N)) = []).
  { apply list_filter_none. intros n Hn. apply elem_of_seqZ in Hn.
    rewrite (rep_bit _ _ Hrep), bool_decide_eq_true by lia. intros Hin. apply (rep_bound _ _ Hrep) in Hin. lia. }
  rewrite E, app_nil_r. apply list_filter_ext_seqZ. intros n Hn.
  rewrite (rep_bit _ _ Hrep), bool_decide_eq_true by lia. done.
Qed.

(** The set bits of one word. *)
Lemma ones_word i v : 0 <= i -> b.[i] = Some v -> ones (i * w) ((i + 1) * w) = Z.add (i * w) <$> set_bits w v.
Proof.
  intros Hi Hv. unfold ones, set_bits. replace ((i + 1) * w - i * w) with w by lia.
  rewrite <- (Z.add_0_r (i * w)) at 1. rewrite <- fmap_add_seqZ.
  assert (HF : Forall (fun k => 0 <= k < w) (seqZ 0 w)) by (apply Forall_seqZ; lia).
  induction HF as [|k l Hk _ IH]; [done|]. cbn [fmap list_fmap]. rewrite !filter_cons.
  rewrite (bit_word b i v) by done. case_decide; cbn [fmap list_fmap]; [f_equal|]; exact IH.
Qed.

Lemma count_words l i acc :
  0 <= i <= zlen b -> drop (Z.to_nat i) b = l ->
  foldl (fun result word => result + word_count w word) acc l = acc + zlen (ones (i * w) (zlen b * w)).
Proof.
  revert i acc. induction l as [|v l IH]; intros i acc Hi Hd.
  - apply drop_nil in Hd; [|lia]. replace i with (zlen b) by lia. unfold ones. rewrite Z.sub_diag, seqZ_nil by lia.
    cbn. unfold zlen. cbn. lia.
  - destruct (drop_zlen b i v l rep_is_wf ltac:(lia) Hd) as [Hlt Hr]. destruct (drop_cons b i v l ltac:(lia) Hd) as [Hv Hd'].
    cbn [foldl]. rewrite (IH (i + 1)) by (done || lia). rewrite (ones_app (i * w) ((i + 1) * w)) by nia.
    rewrite zlen_app, (ones_word i v), zlen_fmap, word_count_spec by (done || lia). unfold popcount. lia.
Qed.

Lemma get_inside n : 0 <= n < zlen b * w -> get w b n = Ok (bit b n).
Proof.
  intros Hn. assert (0 <= n / w < zlen b) by (split; [apply Z.div_pos; lia | apply Z.div_lt_upper_bound; lia]).
  destruct (zlookup_word b (n / w) rep_is_wf) as (v & Hv & _); [lia|]. unfold get, bit. rewrite Hv. cbn.
  rewrite test_mask; [done|]. apply Z.mod_pos_bound. lia.
Qed.

Lemma ones_step n e : n < e -> ones n e = (if bit b n then [n] else []) ++ ones (n + 1) e.
Proof.
  intros Hn. rewrite (ones_app n (n + 1)) by lia. f_equal. unfold ones. replace (n + 1 - n) with 1 by lia.
  rewrite seqZ_cons, seqZ_nil, filter_cons by lia. by destruct (bit b n).
Qed.

Lemma count_head_spec fuel start acc :
  0 <= start <= zlen b * w -> (- start) mod w < Z.of_nat fuel ->
  exists start', start <= start' <= zlen b * w /\ start' mod w = 0 /\
    count_head w fuel b start acc = Ok (start', acc + zlen (ones start start')).
Proof.
  revert start acc. induction fuel as [|fuel IH]; intros start acc Hs Hf.
  { pose proof (Z.mod_pos_bound (- start) w ltac:(lia)). lia. }
  cbn [count_head]. destruct (Z.eqb_spec (start mod w) 0) as [E|E].
  - exists start. split; [lia|]. split; [done|]. unfold ones. rewrite Z.sub_diag, seqZ_nil by lia.
    unfold zlen. cbn. by rewrite Z.add_0_r.
  - assert (start < zlen b * w).
    { destruct (Z.eq_dec start (zlen b * w)) as [->|]; [|lia]. by rewrite Z.mod_mul in E by lia. }
    rewrite get_inside by lia. cbn [mbind res_bind].
    destruct (IH (start + 1) (if bit b start then acc + 1 else acc)) as (s' & Hs' & Hm & ->); [lia| |].
    + rewrite mod_up in Hf by done. lia.
    + exists s'. split; [lia|]. split; [done|]. rewrite (ones_step start) by lia.
      rewrite zlen_app. f_equal. f_equal. destruct (bit b start); [change (zlen [start]) with 1|change (zlen (@nil Z)) with 0]; lia.
Qed.

Lemma rep_count start : 0 <= start <= N -> count w b start = Ok (zlen (members start N)).
Proof.
  intros Hs. pose proof words_end. unfold count.
  destruct (count_head_spec (S (Z.to_nat w)) start 0) as (s' & Hs' & Hm & ->); [lia| |].
  { pose proof (Z.mod_pos_bound (- start) w ltac:(lia)). lia. }
  cbn [mbind res_bind mret res_ret]. pose proof (Z.div_mod s' w ltac:(lia)).
  assert (0 <= s' / w <= zlen b) by (split; [apply Z.div_pos; lia | apply Z.div_le_upper_bound; lia]).
  rewrite (count_words _ (s' / w)) by done.
  rewrite <- ones_members, (ones_app start s' (zlen b * w)), zlen_app by lia.
  replace (s' / w * w) with s' by lia. by rewrite Z.add_0_l.
Qed.

(** ** Enumerations *)

Lemma set_bits_0 n : set_bits n 0 = [].
Proof. apply list_filter_none. intros i _. by rewrite Z.bits_0. Qed.

Lemma set_bits_1 v : set_bits 1 v = if Z.testbit v 0 then [0] else [].
Proof. unfold set_bits. rewrite seqZ_cons, seqZ_nil, filter_cons by lia. by destruct (Z.testbit v 0). Qed.

Lemma each_bit_spec n v base j :
  in_range (Z.of_nat n) v -> each_bit (S n) v base j = Ok (Z.add (base + j) <$> set_bits (Z.of_nat n) v).
Proof.
  revert v j. induction n as [|n IH]; intros v j Hv.
  - unfold in_range in Hv. change (2 ^ Z.of_nat 0) with 1 in Hv. replace v with 0 by lia. done.
  - remember (S n) as m eqn:Em. cbn [each_bit]. subst m. destruct (Z.eqb_spec v 0) as [->|Hz]; [by rewrite set_bits_0|].
    assert (in_range (Z.of_nat n) (Z.shiftr v 1)).
    { apply in_range_bits; [lia|]. intros i Hi. rewrite Z.shiftr_spec by lia.
      apply (proj1 (in_range_bits (Z.of_nat (S n)) v ltac:(lia)) Hv). lia. }
    rewrite IH by done. cbn [mbind res_bind mret res_ret].
    replace (Z.of_nat (S n)) with (1 + Z.of_nat n) by lia. rewrite (set_bits_split 1), fmap_app by lia.
    rewrite <- list_fmap_compose. rewrite land_1.
    assert (E : Z.add (base + (j + 1)) <$> set_bits (Z.of_nat n) (Z.shiftr v 1) = (Z.add (base + j) ∘ Z.add 1) <$> set_bits (Z.of_nat n) (Z.shiftr v 1)).
    { apply list_fmap_ext. intros _ x _. cbn. lia. }
    rewrite E, set_bits_1. f_equal. destruct (Z.testbit v 0); cbn; [by rewrite Z.add_0_r | done].
Qed.

Lemma each_word_spec l i :
  0 <= i <= zlen b -> drop (Z.to_nat i) b = l -> each_word w l i = Ok (ones (i * w) (zlen b * w)).
Proof.
  revert i. induction l as [|v l IH]; intros i Hi Hd.
  - apply drop_nil in Hd; [|lia]. replace i with (zlen b) by lia. unfold ones. by rewrite Z.sub_diag, seqZ_nil by lia.
  - destruct (drop_zlen b i v l rep_is_wf ltac:(lia) Hd) as [Hlt Hr]. destruct (drop_cons b i v l ltac:(lia) Hd) as [Hv Hd'].
    cbn [each_word]. rewrite each_bit_spec by (rewrite Z2Nat.id by lia; done). cbn [mbind res_bind].
    rewrite (IH (i + 1)) by (done || lia). cbn [mbind res_bind mret res_ret].
    rewrite (ones_app (i * w) ((i + 1) * w)) by nia. rewrite (ones_word i v), Z2Nat.id, Z.add_0_r by (done || lia). done.
Qed.

Lemma rep_forEachSetBit : forEachSetBit w b = Ok (members 0 N).
Proof.
  unfold forEachSetBit. pose proof (zlen_nonneg b). rewrite (each_word_spec b 0) by (done || lia).
  by rewrite Z.mul_0_l, ones_members by lia.
Qed.

Lemma iterate_spec fuel a :
  0 <= a <= N -> N - a < Z.of_nat fuel -> iterate N w fuel b (findBit N w b a true) = Ok (members a N).
Proof.
  revert a. induction fuel as [|fuel IH]; intros a Ha Hf; [lia|]. cbn [iterate]. unfold end_, iterator_next.
  rewrite rep_findBit by done. unfold members.
  destruct (first_from_spec (fun n => bool_decide (n ∈ X) = true) a N) as (Hr & _); [lia|].
  rewrite (list_filter_ext_seqZ (fun n => n ∈ X) (fun n => bool_decide (n ∈ X) = true))
    by (intros; by rewrite bool_decide_eq_true).
  rewrite (filter_first _ a). set (r := first_from _ a N) in *.
  destruct (Z.eqb_spec r N) as [E|E]; [by rewrite E, Z.ltb_irrefl|]. rewrite (proj2 (Z.ltb_lt _ _)) by lia.
  rewrite (IH (r + 1)) by lia. cbn [mbind res_bind mret res_ret]. f_equal. f_equal. unfold members.
  apply list_filter_ext_seqZ. intros. by rewrite bool_decide_eq_true.
Qed.

(** ** Runs *)

(** No member from [i] to [i + k]. *)
Definition free_run (k i : Z) : Prop := Forall (fun j => j ∉ X) (seqZ i k).
#[global] Instance free_run_dec k i : Decision (free_run k i).
Proof. unfold free_run. apply _. Defined.

Lemma free_run_succ n j : free_run (Z.of_nat (S n)) j <-> (j ∉ X) /\ free_run (Z.of_nat n) (j + 1).
Proof.
  unfold free_run. rewrite seqZ_cons by lia. replace (Z.pred (Z.of_nat (S n))) with (Z.of_nat n) by lia. by rewrite Forall_cons.
Qed.

Lemma run_found_spec n j :
  0 <= j -> j + Z.of_nat n <= N -> run_found w b n j = Ok (bool_decide (free_run (Z.of_nat n) j)).
Proof.
  revert j. induction n as [|n IH]; intros j Hj Hn; [done|]. cbn [run_found].
  rewrite (rep_get b X Hrep) by lia. cbn [mbind res_bind].
  rewrite (bool_decide_ext _ _ (free_run_succ n j)). destruct (decide (j ∈ X)) as [Hin|Hin].
  - rewrite bool_decide_true by done. rewrite bool_decide_false; [done|]. by intros [? _].
  - rewrite (bool_decide_false (j ∈ X)), IH by (done || lia). f_equal. apply bool_decide_ext. tauto.
Qed.

Lemma run_loop_spec k n i :
  0 <= i -> 0 <= k -> i + Z.of_nat n + k <= N + 1 ->
  let r := first_from (free_run k) i (i + Z.of_nat n) in
  run_loop w b k n i = Ok (if r <? i + Z.of_nat n then r else -1).
Proof.
  cbv zeta. revert i. induction n as [|n IH]; intros i Hi Hk Hn.
  - rewrite first_from_end, Z.ltb_irrefl by lia. done.
  - cbn [run_loop]. rewrite run_found_spec by lia. cbn [mbind res_bind]. rewrite Z2Nat.id by done.
    rewrite first_from_step by lia. case_decide as E.
    + rewrite bool_decide_true by done. by rewrite (proj2 (Z.ltb_lt _ _)) by lia.
    + rewrite bool_decide_false by done. rewrite IH by lia.
      by replace (i + 1 + Z.of_nat n) with (i + Z.of_nat (S n)) by lia.
Qed.

(** The first free run of the length, at least one, or -1. *)
Definition free_run_spec (runLength : Z) : Z :=
  let k := Z.max 1 runLength in
  let r := first_from (free_run k) 0 (N - k + 1) in
  if r <? N - k + 1 then r else -1.

Lemma rep_findRunOfZeros runLength :
  0 <= runLength -> findRunOfZeros N w b runLength = Ok (free_run_spec runLength).
Proof.
  intros Hr. unfold findRunOfZeros, free_run_spec.
  replace (if runLength =? 0 then 1 else runLength) with (Z.max 1 runLength) by (destruct (Z.eqb_spec runLength 0); lia).
  cbv zeta. set (k := Z.max 1 runLength). rewrite Z.gtb_ltb. destruct (Z.ltb_spec N k).
  - rewrite first_from_end, Z.ltb_irrefl by lia. done.
  - rewrite run_loop_spec by lia. by rewrite Z2Nat.id, Z.add_0_l by lia.
Qed.

End search.

(** ** Regular patterns *)

Lemma pattern_step n start p m :
  0 < n -> (p - start) mod n = 0 -> (m - start) mod n = 0 -> p <= m < p + n -> m = p.
Proof.
  intros Hn Hp Hm Hr. apply Z.mod_divide in Hp as [x Hx]; [|lia]. apply Z.mod_divide in Hm as [y Hy]; [|lia].
  assert (Hd : m - p = (y - x) * n) by lia. generalize dependent (y - x). intros d Hd. clear Hx Hy.
  destruct (Z.lt_trichotomy d 0) as [|[->|]]; nia.
Qed.

Section pattern.
Context (n start end' : Z) (b0 : list Z).
Hypothesis Hn : 0 < n <= 2 ^ 64 - w.
Hypothesis Hstart : 0 <= start <= end'.
Hypothesis Hend : end' <= N.

(** The positions of the pattern that are below [p]. *)
Definition hit (p m : Z) : bool := (start <=? m) && (m <? p) && (m <? end') && ((m - start) mod n =? 0).

(** The positions below [p] are done and [p] is one of the pattern. *)
Record progress (b : list Z) (p : Z) : Prop := {
  pr_wf : wf b;
  pr_bits m : 0 <= m -> bit b m = bit b0 m || hit p m;
  pr_pos : start <= p /\ (p - start) mod n = 0
}.

Lemma progress_step b p :
  progress b p -> p < end' -> exists b', set w b p = Ok b' /\ progress b' (p + n).
Proof.
  intros [Hb Hbits [Hp Hc]] Hlt. destruct (set_spec b p Hb) as (b' & E & Hb' & Hbit); [lia|].
  exists b'. split; [done|]. split; [done| |].
  - intros m Hm. rewrite Hbit, Hbits by done. rewrite orb_comm, <- orb_assoc. f_equal. unfold hit.
    destruct (Z.eqb_spec m p) as [->|Hne].
    + rewrite orb_true_r. rewrite Hc. repeat rewrite (proj2 (Z.leb_le _ _)) by lia.
      repeat rewrite (proj2 (Z.ltb_lt _ _)) by lia. done.
    + rewrite orb_false_r. apply eq_bool_prop_intro. rewrite !andb_True, !Is_true_true, Z.leb_le, !Z.ltb_lt, Z.eqb_eq.
      split; [lia|]. intros [[[? ?] ?] Hm2]. repeat split; try done. destruct (Z.ltb_spec m p); [done|].
      exfalso. apply Hne. apply (pattern_step n start); lia.
  - split; [lia|]. replace (p + n - start) with ((p - start) + 1 * n) by lia. rewrite Z.mod_add by lia. done.
Qed.

Lemma nth_loop_spec fuel b i index limit :
  0 <= i -> 0 <= index < 2 ^ 64 -> limit <= w -> i * w + limit <= end' ->
  Z.max 0 (limit - index) < Z.of_nat fuel -> progress b (i * w + index) ->
  exists b' index', nth_loop w fuel b i index limit n = Ok (b', index') /\
    limit <= index' < 2 ^ 64 /\ progress b' (i * w + index').
Proof.
  revert b index. induction fuel as [|fuel IH]; intros b index Hi Hx Hl He Hf Hp; [lia|].
  cbn [nth_loop]. destruct (Z.ltb_spec index limit) as [Hlt|]; [|exists b, index; split; [done|split; [lia|done]]].
  destruct (progress_step b (i * w + index) Hp) as (b1 & Hset & Hp1); [lia|].
  unfold set in Hset. rewrite Z.div_add_l, Z.div_small, Z.add_0_r in Hset by lia.
  rewrite (Z.add_comm (i * w)), Z_mod_plus_full, Z.mod_small in Hset by lia. rewrite Hset. cbn [mbind res_bind].
  rewrite (wrap_small 64) by lia. apply IH; [lia..|]. by replace (i * w + (index + n)) with (i * w + index + n) by lia.
Qed.

Lemma nth_words_spec k b i index :
  0 <= i -> 0 <= index < 2 ^ 64 -> (i + Z.of_nat k) * w <= end' -> progress b (i * w + index) ->
  exists b' index', nth_words w k b i index n = Ok (b', i + Z.of_nat k, index') /\
    0 <= index' < 2 ^ 64 /\ progress b' ((i + Z.of_nat k) * w + index').
Proof.
  revert b i index. induction k as [|k IH]; intros b i index Hi Hx He Hp.
  - exists b, index. cbn [nth_words]. by rewrite Z.add_0_r.
  - cbn [nth_words]. destruct (nth_loop_spec (S (Z.to_nat w)) b i index w) as (b1 & x1 & -> & Hx1 & Hp1); [lia|lia|lia|nia|lia|done|].
    cbn [mbind res_bind]. rewrite (wrap_small 64) by lia.
    replace (i + Z.of_nat (S k)) with (i + 1 + Z.of_nat k) by lia. apply IH; [lia|lia|lia|].
    by replace ((i + 1) * w + (x1 - w)) with (i * w + x1) by lia.
Qed.

Lemma setEachNthBit_spec :
  wf b0 -> (forall m, N <= m -> bit b0 m = false) ->
  exists b', setEachNthBit N w b0 n start end' = Ok b' /\ wf b' /\
    forall m, 0 <= m -> bit b' m = bit b0 m || hit end' m.
Proof.
  intros Hb0 Hpad. unfold setEachNthBit. cbv zeta.
  pose proof (Z.div_mod start w ltac:(lia)). pose proof (Z.mod_pos_bound start w ltac:(lia)).
  pose proof (Z.div_mod end' w ltac:(lia)). pose proof (Z.mod_pos_bound end' w ltac:(lia)).
  pose proof (Z.div_pos start w ltac:(lia) ltac:(lia)). pose proof (Z.div_le_mono start end' w ltac:(lia) ltac:(lia)).
  destruct (nth_words_spec (Z.to_nat (end' / w - start / w)) b0 (start / w) (start - start / w * w))
    as (b1 & x1 & -> & Hx1 & Hp1); [lia|lia|nia| |].
  { replace (start / w * w + (start - start / w * w)) with start by lia. split; [done| |].
    - intros m Hm. unfold hit. destruct (Z.leb_spec start m); [|by rewrite orb_false_r].
      rewrite (proj2 (Z.ltb_ge m start)) by lia. by rewrite orb_false_r.
    - split; [lia|]. by rewrite Z.sub_diag, Z.mod_0_l by lia. }
  cbn [mbind res_bind]. replace (start / w + Z.of_nat (Z.to_nat (end' / w - start / w))) with (end' / w) in * by lia.
  destruct (nth_loop_spec (S (Z.to_nat w)) b1 (end' / w) x1 (end' - end' / w * w))
    as (b2 & x2 & -> & Hx2 & [Hb2 Hbits _]); [lia|lia|lia|lia|lia|done|].
  cbn [mbind res_bind]. destruct (mask_last_spec b2 Hb2) as (b' & -> & Hb' & Hbit').
  exists b'. split; [done|]. split; [done|]. intros m Hm. rewrite Hbit', Hbits by done.
  destruct (Z.ltb_spec m N).
  - cbn [andb]. f_equal. unfold hit. destruct (Z.ltb_spec m end'); [|by rewrite !andb_false_r].
    by rewrite !(proj2 (Z.ltb_lt m _)) by lia.
  - rewrite Hpad by lia. unfold hit. rewrite (proj2 (Z.ltb_ge m end')) by lia. by rewrite !andb_false_r.
Qed.
End pattern.

(** The pattern as a set. *)
Definition pattern (n start end' : Z) : gset Z :=
  list_to_set (filter (fun m => (m - start) mod n = 0) (seqZ start (end' - start))).

Lemma rep_setEachNthBit b X n start end' :
  rep b X -> 0 < n <= 2 ^ 64 - w -> 0 <= start <= end' -> end' <= N ->
  exists b', setEachNthBit N w b n start end' = Ok b' /\ rep b' (pattern n start end' ∪ X).
Proof.
  intros HR Hn Hs He.
  destruct (setEachNthBit_spec n start end' b Hn Hs He) as (b' & E & Hb' & Hbit); [apply HR| |].
  { intros m Hm. rewrite (rep_bit _ _ HR), bool_decide_eq_false by lia. intros Hin. apply (rep_bound _ _ HR) in Hin. lia. }
  assert (Hel : forall m, m ∈ pattern n start end' <-> start <= m < end' /\ (m - start) mod n = 0).
  { intros m. unfold pattern. rewrite elem_of_list_to_set, list_elem_of_filter, elem_of_seqZ. lia. }
  exists b'. split; [done|]. split; [done| |].
  - intros m Hm. rewrite Hbit, (rep_bit _ _ HR) by done. apply eq_bool_prop_intro. unfold hit.
    rewrite orb_True, !bool_decide_spec, !andb_True, !Is_true_true, Z.leb_le, !Z.ltb_lt, Z.eqb_eq, elem_of_union, Hel. tauto.
  - intros m. rewrite elem_of_union, Hel. intros [?|Hin]; [lia|]. by apply (rep_bound _ _ HR).
Qed.

(** ** Moving past full words *)

Lemma nextPossiblyUnset_spec b X start :
  rep b X -> 0 <= start < N ->
  exists r, nextPossiblyUnset w b start = Ok r /\ start < r /\ forall m, start < m < r -> m < N -> m ∈ X.
Proof.
  intros HR Hs. pose proof (rep_wf _ _ HR) as Hb. destruct (index_bound b start Hb Hs) as [Hi Hk].
  destruct (zlookup_word b (start / w) Hb Hi) as (v & Hv & Hr). unfold nextPossiblyUnset. rewrite Hv. cbn [or_ub mbind res_bind].
  pose proof (Z.div_mod start w ltac:(lia)). destruct (Z.eqb_spec (word_not w v) 0) as [E|E]; eexists; (split; [done|]); split; try lia.
  intros m Hm HmN. apply (bool_decide_eq_true (m ∈ X)). rewrite <- (rep_bit _ _ HR) by lia.
  replace m with (start / w * w + (m - start / w * w)) by lia. rewrite (bit_word b (start / w) v) by (done || lia).
  apply (word_not_zero v); [done|done|lia].
Qed.

End proofs.

End Bitmap.
