(* ===== verification/WtfBitmapOps.v ===== *)
(** * Programs over bitmaps, sequential and concurrent (WTF/wtf/Bitmap.h, Atomics.h)

    The first part runs arbitrary sequences of calls on two bitmaps and shows
    that they behave as the same sequence on two finite sets.  The second part
    interleaves threads that call the concurrent operations of one bitmap, each
    a loop around a weak compare-and-swap of one word, and shows that every
    execution is one of sequential operations, a filter one per word. *)
From stdpp Require Import gmap relations.
From S2P Require Import Prelude WtfBits WtfBitmap.

#[local] Open Scope cfetch_scope.

Module BitmapOps.
Import Bits Bitmap.

(** ** Sequences of calls *)

(** A call on the first of two bitmaps, with the second as [other]; [Swap]
    exchanges their roles. *)
Inductive op :=
| Get (n : Z) | Set_ (n : Z) | SetValue (n : Z) (value : bool) | Clear (n : Z)
| TestAndSet (n : Z) | TestAndClear (n : Z)
| ClearAll | Invert | Merge | Filter | Exclude | OrAssign | AndAssign | Xor | MergeAndClear | SetAndClear
| SetEachNthBit (n start end' : Z)
| Count (start : Z) | IsEmpty | IsFull | Subsumes | Equal | NotEqual
| FindBit (start : Z) (value : bool) | FindRunOfZeros (runLength : Z)
| ForEachSetBit | Iterate
| Swap.

Inductive out := Nothing | Bool (b : bool) | Index (i : Z) | Indices (l : list Z).

Section programs.
Context (N w : Z).

Definition step (s : list Z * list Z) (o : op) : res (out * (list Z * list Z)) :=
  let '(b, c) := s in
  match o with
  | Get n => r ← get w b n; mret (Bool r, (b, c))
  | Set_ n => b' ← set w b n; mret (Nothing, (b', c))
  | SetValue n value => b' ← set_value w b n value; mret (Nothing, (b', c))
  | Clear n => b' ← clear w b n; mret (Nothing, (b', c))
  | TestAndSet n => '(r, b') ← testAndSet w b n; mret (Bool r, (b', c))
  | TestAndClear n => '(r, b') ← testAndClear w b n; mret (Bool r, (b', c))
  | ClearAll => mret (Nothing, (clearAll N w, c))
  | Invert => b' ← invert N w b; mret (Nothing, (b', c))
  | Merge => mret (Nothing, (merge b c, c))
  | Filter => mret (Nothing, (filter_ b c, c))
  | Exclude => mret (Nothing, (exclude w b c, c))
  | OrAssign => mret (Nothing, (or_assign b c, c))
  | AndAssign => mret (Nothing, (and_assign b c, c))
  | Xor => mret (Nothing, (xor_assign b c, c))
  | MergeAndClear => mret (Nothing, mergeAndClear b c)
  | SetAndClear => mret (Nothing, setAndClear b c)
  | SetEachNthBit n start end' => b' ← setEachNthBit N w b n start end'; mret (Nothing, (b', c))
  | Count start => r ← count w b start; mret (Index r, (b, c))
  | IsEmpty => mret (Bool (isEmpty b), (b, c))
  | IsFull => mret (Bool (isFull N w b), (b, c))
  | Subsumes => mret (Bool (subsumes b c), (b, c))
  | Equal => mret (Bool (equal b c), (b, c))
  | NotEqual => mret (Bool (not_equal b c), (b, c))
  | FindBit start value => mret (Index (findBit N w b start value), (b, c))
  | FindRunOfZeros k => r ← findRunOfZeros N w b k; mret (Index r, (b, c))
  | ForEachSetBit => r ← forEachSetBit w b; mret (Indices r, (b, c))
  | Iterate => r ← iterate N w (S (Z.to_nat N)) b (begin_ N w b); mret (Indices r, (b, c))
  | Swap => mret (Nothing, (c, b))
  end.

(** The same calls on sets. *)
Definition set_step (s : gset Z * gset Z) (o : op) : out * (gset Z * gset Z) :=
  let '(X, Y) := s in
  match o with
  | Get n => (Bool (bool_decide (n ∈ X)), (X, Y))
  | Set_ n | SetValue n true => (Nothing, ({[n]} ∪ X, Y))
  | Clear n | SetValue n false => (Nothing, (X ∖ {[n]}, Y))
  | TestAndSet n => (Bool (bool_decide (n ∈ X)), ({[n]} ∪ X, Y))
  | TestAndClear n => (Bool (bool_decide (n ∈ X)), (X ∖ {[n]}, Y))
  | ClearAll => (Nothing, (∅, Y))
  | Invert => (Nothing, (all N ∖ X, Y))
  | Merge | OrAssign => (Nothing, (X ∪ Y, Y))
  | Filter | AndAssign => (Nothing, (X ∩ Y, Y))
  | Exclude => (Nothing, (X ∖ Y, Y))
  | Xor => (Nothing, ((X ∖ Y) ∪ (Y ∖ X), Y))
  | MergeAndClear => (Nothing, (X ∪ Y, ∅))
  | SetAndClear => (Nothing, (Y, ∅))
  | SetEachNthBit n start end' => (Nothing, (pattern n start end' ∪ X, Y))
  | Count start => (Index (zlen (members X start N)), (X, Y))
  | IsEmpty => (Bool (bool_decide (X = ∅)), (X, Y))
  | IsFull => (Bool (bool_decide (X = all N)), (X, Y))
  | Subsumes => (Bool (bool_decide (Y ⊆ X)), (X, Y))
  | Equal => (Bool (bool_decide (X = Y)), (X, Y))
  | NotEqual => (Bool (bool_decide (X <> Y)), (X, Y))
  | FindBit start value => (Index (first_from (fun n => bool_decide (n ∈ X) = value) start N), (X, Y))
  | FindRunOfZeros k => (Index (free_run_spec N X k), (X, Y))
  | ForEachSetBit | Iterate => (Indices (members X 0 N), (X, Y))
  | Swap => (Nothing, (Y, X))
  end.

(** The arguments the header's assertions and indexing allow. *)
Definition valid (o : op) : bool :=
  match o with
  | Get n | Set_ n | SetValue n _ | Clear n | TestAndSet n | TestAndClear n => (0 <=? n) && (n <? N)
  | SetEachNthBit n start end' => (0 <? n) && (n <=? 2 ^ 64 - w) && (0 <=? start) && (start <=? end') && (end' <=? N)
  | Count start | FindBit start _ => (0 <=? start) && (start <=? N)
  | FindRunOfZeros k => 0 <=? k
  | _ => true
  end.

Fixpoint exec (s : list Z * list Z) (ops : list op) : res (list out * (list Z * list Z)) :=
  match ops with
  | [] => mret ([], s)
  | o :: ops => '(r, s') ← step s o; '(rs, s'') ← exec s' ops; mret (r :: rs, s'')
  end.

Fixpoint set_exec (s : gset Z * gset Z) (ops : list op) : list out * (gset Z * gset Z) :=
  match ops with
  | [] => ([], s)
  | o :: ops => let '(r, s') := set_step s o in let '(rs, s'') := set_exec s' ops in (r :: rs, s'')
  end.

Hypothesis Hw : w = 32 \/ w = 64.
Hypothesis HN : 0 <= N < 2 ^ 32.

(** Both bitmaps hold their sets. *)
Definition reps (s : list Z * list Z) (a : gset Z * gset Z) : Prop := rep N w s.1 a.1 /\ rep N w s.2 a.2.

Lemma step_refines s a o :
  reps s a -> valid o = true -> exists s', step s o = Ok ((set_step a o).1, s') /\ reps s' (set_step a o).2.
Proof.
  destruct s as [b c], a as [X Y]. intros [HX HY] Hv. cbn in HX, HY. unfold reps.
  destruct o; cbn [valid] in Hv; zb; cbn [step set_step fst snd].
  - erewrite rep_get by (eassumption || lia). eauto.
  - destruct (rep_set N w Hw HN b X HX n) as (b' & -> & H'); [lia|]. eauto.
  - unfold set_value. destruct value.
    + destruct (rep_set N w Hw HN b X HX n) as (b' & -> & H'); [lia|]. eauto.
    + destruct (rep_clear N w Hw HN b X HX n) as (b' & -> & H'); [lia|]. eauto.
  - destruct (rep_clear N w Hw HN b X HX n) as (b' & -> & H'); [lia|]. eauto.
  - destruct (rep_testAndSet N w Hw HN b X HX n) as (b' & -> & H'); [lia|]. eauto.
  - destruct (rep_testAndClear N w Hw HN b X HX n) as (b' & -> & H'); [lia|]. eauto.
  - eexists. split; [done|]. split; [by apply rep_clearAll | done].
  - destruct (rep_invert N w Hw HN b X HX) as (b' & -> & H'). eauto.
  - eexists. split; [done|]. split; [by apply rep_merge | done].
  - eexists. split; [done|]. split; [by apply rep_filter | done].
  - eexists. split; [done|]. split; [by apply rep_exclude | done].
  - eexists. split; [done|]. split; [by apply rep_merge | done].
  - eexists. split; [done|]. split; [by apply rep_filter | done].
  - eexists. split; [done|]. split; [by apply rep_xor | done].
  - eexists. split; [done|]. split; [by apply rep_merge | by eapply rep_zero].
  - eexists. split; [done|]. split; [by eapply rep_copy | by eapply rep_zero].
  - destruct (rep_setEachNthBit N w Hw HN b X n start end' HX) as (b' & -> & H'); [lia..|]. eauto.
  - erewrite rep_count by (eassumption || lia). eauto.
  - erewrite rep_isEmpty by (eassumption || lia). eauto.
  - erewrite rep_isFull by (eassumption || lia). eauto.
  - erewrite rep_subsumes by (eassumption || lia). eauto.
  - erewrite rep_equal by (eassumption || lia). eauto.
  - unfold not_equal. erewrite rep_equal by (eassumption || lia). rewrite <- bool_decide_not. eauto.
  - erewrite rep_findBit by (eassumption || lia). eauto.
  - erewrite rep_findRunOfZeros by (eassumption || lia). eauto.
  - erewrite rep_forEachSetBit by (eassumption || lia). eauto.
  - unfold begin_. erewrite iterate_spec by (eassumption || lia). eauto.
  - eauto.
Qed.

Lemma exec_sets s a ops :
  reps s a -> forallb valid ops = true -> exists s', exec s ops = Ok ((set_exec a ops).1, s') /\ reps s' (set_exec a ops).2.
Proof.
  revert s a. induction ops as [|o ops IH]; intros s a Hr Hv; cbn [exec set_exec]; [by exists s|].
  cbn [forallb] in Hv. zb. destruct (step_refines s a o Hr) as (s1 & -> & H1); [done|]. cbn [mbind res_bind].
  destruct (set_step a o) as [r a1]. cbn [fst snd] in *. destruct (IH s1 a1 H1) as (s2 & -> & H2); [done|].
  cbn [mbind res_bind]. destruct (set_exec a1 ops) as [rs a2]. by exists s2.
Qed.

End programs.

(** Bitmaps are finite sets.  For every size below 2^32 and both word
    types, any sequence of calls with arguments inside the bitmap, starting with
    two new bitmaps, runs without leaving the arrays, its loops end, and every
    result (tests, counts, comparisons, searches, enumerations) is the one of
    the same operations on two finite sets of positions, which the bitmaps hold
    at the end; the bits of the last word past the size stay clear. *)
Theorem bitmap_implements_set N w ops :
  w = 32 \/ w = 64 -> 0 <= N < 2 ^ 32 -> forallb (valid N w) ops = true ->
  exists b c, exec N w (Bitmap_ N w, Bitmap_ N w) ops = Ok ((set_exec N (∅, ∅) ops).1, (b, c)) /\
    rep N w b (set_exec N (∅, ∅) ops).2.1 /\ rep N w c (set_exec N (∅, ∅) ops).2.2.
Proof.
  intros Hw HN Hv.
  destruct (exec_sets N w Hw HN (Bitmap_ N w, Bitmap_ N w) (∅, ∅) ops) as ([b c] & E & H1 & H2); [|done|by exists b, c].
  split; by apply rep_clearAll.
Qed.

Definition sample_ops : list op :=
  [SetEachNthBit 7 3 100; TestAndSet 5; TestAndSet 10; Swap; Set_ 10; SetValue 99 true; Swap; Xor; Invert;
   Count 20; FindBit 0 false; FindRunOfZeros 1; Swap; Subsumes; ForEachSetBit; Iterate; MergeAndClear; IsFull].

Lemma bitmap_implements_set_witness :
  (exec 100 64 (Bitmap_ 100 64, Bitmap_ 100 64) sample_ops ≫= (fun r => mret r.1))
  = Ok [Nothing; Bool false; Bool true; Nothing; Nothing; Nothing; Nothing; Nothing; Nothing;
        Index 68; Index 3; Index 3; Nothing; Bool false; Indices [10; 99]; Indices [10; 99]; Nothing; Bool false].
Proof.
  destruct (bitmap_implements_set 100 64 sample_ops) as (b & c & E & _); [by right|lia|reflexivity|].
  rewrite E. vm_compute. reflexivity.
Defined.

(** ** Concurrent calls *)

(** The calls threads make on the shared bitmap. *)
Inductive request :=
| ConcurrentTestAndSet (n : Z)
| ConcurrentTestAndClear (n : Z)
| ConcurrentFilter (other : list Z).

(** Where a thread is: before its load of word [i], before the compare-and-swap
    of word [i] that expects [oldValue], or returned. *)
Inductive location :=
| Load (i : Z)
| Cas (i oldValue newValue : Z)
| Return (result : bool).

Record thread := mk_thread { req : request; pc : location }.
Record world := mk_world { words : list Z; threads : list thread }.

Section concurrent.
Context (N w : Z).

(** The function given to [transactionRelaxed]: [None] is a [return false], the
    other value is that of the updated reference. *)
Definition set_func (n value : Z) : option Z :=
  let mask := one_shl w (n mod w) in
  if negb (Z.land value mask =? 0) then None else Some (Z.lor value mask).
Definition clear_func (n value : Z) : option Z :=
  let mask := one_shl w (n mod w) in
  if Z.land value mask =? 0 then None else Some (Z.land value (word_not w mask)).

(** One iteration of [Atomic::transaction], cut at its load and its
    compare-and-swap, which may fail spuriously; the caller negates its result. *)
Definition transaction (func : Z -> option Z) (bits : list Z) (at_ : location) (spurious : bool) : res (list Z * location) :=
  match at_ with
  | Load i =>
      oldValue ← or_ub bits.[i];
      match func oldValue with
      | None => mret (bits, Return (negb false))
      | Some newValue => mret (bits, Cas i oldValue newValue)
      end
  | Cas i oldValue newValue =>
      current ← or_ub bits.[i];
      if negb spurious && (current =? oldValue)
      then mret (<[Z.to_nat i := newValue]> bits, Return (negb true))
      else mret (bits, Load i)
  | Return _ => mret (bits, at_)
  end.

Definition concurrentTestAndSet (n : Z) := transaction (set_func n).
Definition concurrentTestAndClear (n : Z) := transaction (clear_func n).

(** The loop of [concurrentFilter], cut in the same way. *)
Definition concurrentFilter (other bits : list Z) (at_ : location) (spurious : bool) : res (list Z * location) :=
  match at_ with
  | Load i =>
      if i <? numberOfWords N w then
        otherBits ← or_ub other.[i];
        if otherBits =? 0 then bits' ← modify bits i (fun _ => 0); mret (bits', Load (i + 1))
        else
          oldBits ← or_ub bits.[i];
          let filteredBits := Z.land oldBits otherBits in
          if oldBits =? filteredBits then mret (bits, Load (i + 1)) else mret (bits, Cas i oldBits filteredBits)
      else mret (bits, Return true)
  | Cas i oldBits filteredBits =>
      current ← or_ub bits.[i];
      if negb spurious && (current =? oldBits)
      then mret (<[Z.to_nat i := filteredBits]> bits, Load (i + 1))
      else mret (bits, Load i)
  | Return _ => mret (bits, at_)
  end.

Definition thread_step (bits : list Z) (t : thread) (spurious : bool) : res (list Z * location) :=
  match req t with
  | ConcurrentTestAndSet n => concurrentTestAndSet n bits (pc t) spurious
  | ConcurrentTestAndClear n => concurrentTestAndClear n bits (pc t) spurious
  | ConcurrentFilter other => concurrentFilter other bits (pc t) spurious
  end.

Definition start (r : request) : thread :=
  mk_thread r match r with
              | ConcurrentTestAndSet n | ConcurrentTestAndClear n => Load (n / w)
              | ConcurrentFilter _ => Load 0
              end.

Definition returned (t : thread) : bool := match pc t with Return _ => true | _ => false end.

(** A step of thread [k]. *)
Inductive world_step : world -> world -> Prop :=
| thread_steps W k t spurious bits' pc' :
    threads W !! k = Some t -> returned t = false ->
    thread_step (words W) t spurious = Ok (bits', pc') ->
    world_step W (mk_world bits' (<[k := mk_thread (req t) pc']> (threads W))).

(** ** Sequential histories *)

(** An atomic operation with the result its caller received.  A filter is one
    operation per word: the call as a whole is not atomic. *)
Inductive event :=
| DidTestAndSet (n : Z) (result : bool)
| DidTestAndClear (n : Z) (result : bool)
| DidFilterWord (i otherBits : Z).

(** [concurrentTestAndSet] answers as [testAndSet] does, whether the bit was
    set; [concurrentTestAndClear] answers the opposite of [testAndClear], whether
    the bit was clear. *)
Definition replay_event (bits : list Z) (e : event) : res (list Z) :=
  match e with
  | DidTestAndSet n result => '(r, bits') ← testAndSet w bits n; if Bool.eqb r result then mret bits' else UB
  | DidTestAndClear n result => '(r, bits') ← testAndClear w bits n; if Bool.eqb (negb r) result then mret bits' else UB
  | DidFilterWord i otherBits => modify bits i (fun word => Z.land word otherBits)
  end.

Fixpoint replay (bits : list Z) (log : list (nat * event)) : res (list Z) :=
  match log with
  | [] => mret bits
  | (_, e) :: log => bits' ← replay_event bits e; replay bits' log
  end.

Definition events_of (k : nat) (log : list (nat * event)) : list event := (filter (fun x => x.1 = k) log).*2.

(** The first [i] words of a filter. *)
Definition filtered (other : list Z) (i : Z) : list event :=
  imap (fun j v => DidFilterWord (Z.of_nat j) v) (take (Z.to_nat i) other).

(** The operations a thread has performed. *)
Definition performed (t : thread) : list event :=
  match req t, pc t with
  | ConcurrentTestAndSet n, Return r => [DidTestAndSet n r]
  | ConcurrentTestAndClear n, Return r => [DidTestAndClear n r]
  | ConcurrentFilter other, (Load i | Cas i _ _) => filtered other i
  | ConcurrentFilter other, Return _ => filtered other (numberOfWords N w)
  | _, _ => []
  end.

Definition valid_request (r : request) : Prop :=
  match r with
  | ConcurrentTestAndSet n | ConcurrentTestAndClear n => 0 <= n < N
  | ConcurrentFilter other => wf N w other
  end.

(** What a thread holds at its location. *)
Definition good (t : thread) : Prop :=
  valid_request (req t) /\
  match req t, pc t with
  | ConcurrentTestAndSet n, Load i => i = n / w
  | ConcurrentTestAndSet n, Cas i old new => i = n / w /\ set_func n old = Some new
  | ConcurrentTestAndClear n, Load i => i = n / w
  | ConcurrentTestAndClear n, Cas i old new => i = n / w /\ clear_func n old = Some new
  | ConcurrentFilter other, Load i => 0 <= i <= numberOfWords N w
  | ConcurrentFilter other, Cas i old new => 0 <= i < numberOfWords N w /\ exists o, other.[i] = Some o /\ new = Z.land old o
  | _, Return _ => True
  end.

Hypothesis Hw : w = 32 \/ w = 64.
Hypothesis HN : 0 <= N < 2 ^ 32.

Fixpoint replay_events (bits : list Z) (es : list event) : res (list Z) :=
  match es with [] => mret bits | e :: es => bits' ← replay_event bits e; replay_events bits' es end.

Lemma modify_at bits i v f : bits.[i] = Some v -> modify bits i f = Ok (<[Z.to_nat i := f v]> bits).
Proof. unfold modify. by intros ->. Qed.

Lemma insert_same (bits : list Z) i v : bits.[i] = Some v -> <[Z.to_nat i := v]> bits = bits.
Proof. unfold zlookup. destruct (0 <=? i); [|done]. intros. by apply list_insert_id. Qed.

Lemma wf_insert bits i v : wf N w bits -> in_range w v -> wf N w (<[Z.to_nat i := v]> bits).
Proof. intros [Hl Hf] Hv. split; [unfold zlen in *; by rewrite length_insert | by apply Forall_insert]. Qed.

Section events.
Context (bits : list Z) (n v : Z).
Hypothesis Hk : 0 <= n mod w < w.
Hypothesis Hv : bits.[n / w] = Some v.
Hypothesis Hr : in_range w v.

Lemma set_func_none : set_func n v = None -> replay_event bits (DidTestAndSet n true) = Ok bits.
Proof.
  unfold set_func. rewrite test_mask by done. destruct (Z.testbit v (n mod w)) eqn:E; [intros _|done].
  cbn [replay_event]. unfold testAndSet. rewrite Hv. cbn [or_ub mbind res_bind]. rewrite test_mask by done.
  rewrite (modify_at _ _ v) by done. rewrite E. cbn. f_equal.
  replace (Z.lor v (one_shl w (n mod w))) with v; [by apply insert_same|].
  apply Z.bits_inj'. intros j Hj. rewrite Z.lor_spec, one_shl_bit by lia.
  destruct (Z.eqb_spec j (n mod w)) as [->|]; [by rewrite E | by rewrite orb_false_r].
Qed.

Lemma set_func_some v' :
  set_func n v = Some v' -> replay_event bits (DidTestAndSet n false) = Ok (<[Z.to_nat (n / w) := v']> bits).
Proof.
  unfold set_func. rewrite test_mask by done. destruct (Z.testbit v (n mod w)) eqn:E; [done|intros [= <-]].
  cbn [replay_event]. unfold testAndSet. rewrite Hv. cbn [or_ub mbind res_bind]. rewrite test_mask by done.
  rewrite (modify_at _ _ v) by done. by rewrite E.
Qed.

Lemma clear_func_none : clear_func n v = None -> replay_event bits (DidTestAndClear n true) = Ok bits.
Proof.
  unfold clear_func. rewrite <- (negb_involutive (_ =? _)), test_mask by done.
  destruct (Z.testbit v (n mod w)) eqn:E; [done|intros _].
  cbn [replay_event]. unfold testAndClear. rewrite Hv. cbn [or_ub mbind res_bind]. rewrite test_mask by done.
  rewrite (modify_at _ _ v) by done. rewrite E. cbn. f_equal.
  transitivity (<[Z.to_nat (n / w) := v]> bits); [|by apply insert_same]. f_equal.
  apply Z.bits_inj'. intros j Hj. rewrite Z.land_spec, word_not_bit, one_shl_bit by lia.
  destruct (Z.ltb_spec j w); [|by rewrite (proj1 (in_range_bits w v ltac:(lia)) Hr) by lia].
  destruct (Z.eqb_spec j (n mod w)) as [->|]; [by rewrite E | by rewrite andb_true_r].
Qed.

Lemma clear_func_some v' :
  clear_func n v = Some v' -> replay_event bits (DidTestAndClear n false) = Ok (<[Z.to_nat (n / w) := v']> bits).
Proof.
  unfold clear_func. rewrite <- (negb_involutive (_ =? _)), test_mask by done.
  destruct (Z.testbit v (n mod w)) eqn:E; [intros [= <-]|done].
  cbn [replay_event]. unfold testAndClear. rewrite Hv. cbn [or_ub mbind res_bind]. rewrite test_mask by done.
  rewrite (modify_at _ _ v) by done. by rewrite E.
Qed.

Lemma set_func_range v' : set_func n v = Some v' -> in_range w v'.
Proof.
  unfold set_func. destruct (negb _); [done|]. intros [= <-]. apply range_lor; [done..|]. apply wrap_range. lia.
Qed.

Lemma clear_func_range v' : clear_func n v = Some v' -> in_range w v'.
Proof. unfold clear_func. destruct (_ =? _); [done|]. intros [= <-]. by apply range_land. Qed.
End events.

(** A step of a transaction performs nothing, or the operation it returns from. *)
Lemma transaction_sim func ev bits n at_ spurious bits' at' :
  wf N w bits -> 0 <= n < N ->
  (forall v, bits.[n / w] = Some v -> in_range w v ->
     (func v = None -> replay_event bits (ev true) = Ok bits) /\
     (forall v', func v = Some v' -> in_range w v' /\ replay_event bits (ev false) = Ok (<[Z.to_nat (n / w) := v']> bits))) ->
  match at_ with Load i => i = n / w | Cas i old new => i = n / w /\ func old = Some new | Return _ => False end ->
  transaction func bits at_ spurious = Ok (bits', at') ->
  wf N w bits' /\
  match at' with
  | Load i => i = n / w /\ bits' = bits
  | Cas i old new => (i = n / w /\ func old = Some new) /\ bits' = bits
  | Return r => replay_event bits (ev r) = Ok bits'
  end.
Proof.
  intros Hb Hn Hev Hat Hstep. destruct (index_bound N w Hw HN bits n Hb Hn) as [Hi Hk].
  destruct (zlookup_word N w bits (n / w) Hb Hi) as (v & Hv & Hr). destruct (Hev v Hv Hr) as [Hnone Hsome].
  destruct at_ as [i|i old new|r]; [subst i| destruct Hat as [-> Hf] |done]; cbn [transaction] in Hstep;
    rewrite Hv in Hstep; cbn [or_ub mbind res_bind] in Hstep.
  - destruct (func v) as [v'|] eqn:Ef; res_inv; simplify_eq; split; auto.
  - destruct (negb spurious && (v =? old)) eqn:E; res_inv; simplify_eq; [|by split].
    zb. subst old. destruct (Hsome new Hf) as [Hr' ?]. split; [by apply wf_insert | done].
Qed.

Lemma range_0 : in_range w 0.
Proof. split; [lia|]. apply Z.pow_pos_nonneg; lia. Qed.

Lemma filtered_succ other i o : 0 <= i -> other.[i] = Some o -> filtered other (i + 1) = filtered other i ++ [DidFilterWord i o].
Proof.
  intros Hi Ho. unfold zlookup in Ho. rewrite (proj2 (Z.leb_le _ _)) in Ho by done. unfold filtered.
  replace (Z.to_nat (i + 1)) with (S (Z.to_nat i)) by lia. rewrite (take_S_r _ _ o), imap_app by done. f_equal.
  cbn. rewrite length_take, Nat.add_0_r. apply lookup_lt_Some in Ho. rewrite Nat.min_l by lia. by rewrite Z2Nat.id.
Qed.

(** The same for a step of [concurrentFilter]. *)
Lemma filter_sim other bits at_ spurious bits' at' :
  wf N w bits -> good (mk_thread (ConcurrentFilter other) at_) -> returned (mk_thread (ConcurrentFilter other) at_) = false ->
  concurrentFilter other bits at_ spurious = Ok (bits', at') ->
  wf N w bits' /\ good (mk_thread (ConcurrentFilter other) at') /\
  exists es, performed (mk_thread (ConcurrentFilter other) at') = performed (mk_thread (ConcurrentFilter other) at_) ++ es /\
    replay_events bits es = Ok bits'.
Proof.
  intros Hb [Ho Hat] Hret Hstep. cbn in Ho. unfold good, performed. cbn [req pc] in *.
  assert (Hword : forall i, 0 <= i < numberOfWords N w -> exists v, bits.[i] = Some v /\ in_range w v).
  { intros i Hi. apply (zlookup_word N w bits i Hb). by rewrite (wf_len _ _ _ Hb). }
  destruct at_ as [i|i old new|r]; [| |done]; cbn [concurrentFilter] in Hstep.
  - destruct (Z.ltb_spec i (numberOfWords N w)) as [Hi|Hi]; [|res_inv; simplify_eq].
    + destruct (zlookup_word N w other i Ho) as (o & Eo & _); [rewrite (wf_len _ _ _ Ho); lia|].
      destruct (Hword i ltac:(lia)) as (v & Ev & Rv). rewrite Eo, Ev in Hstep. cbn [or_ub mbind res_bind] in Hstep.
      assert (Hrep : replay_events bits [DidFilterWord i o] = Ok (<[Z.to_nat i := Z.land v o]> bits)).
      { cbn [replay_events replay_event]. by rewrite (modify_at _ _ v) by done. }
      destruct (Z.eqb_spec o 0) as [->|]; [|destruct (Z.eqb_spec v (Z.land v o)) as [E|]]; cbn [mbind res_bind] in Hstep.
      * rewrite (modify_at _ _ v) in Hstep by done. cbn [mbind res_bind] in Hstep. res_inv; simplify_eq.
        rewrite Z.land_0_r in Hrep. split; [by apply wf_insert; [|apply range_0]|].
        split; [split; [done|lia]|]. exists [DidFilterWord i 0]. split; [by apply filtered_succ; [lia|] | done].
      * res_inv; simplify_eq. rewrite <- E, insert_same in Hrep by done. split; [done|].
        split; [split; [done|lia]|]. exists [DidFilterWord i o]. split; [by apply filtered_succ; [lia|] | done].
      * res_inv; simplify_eq. split; [done|]. split; [by split; [|split; [lia|eauto]]|]. exists []. by rewrite app_nil_r.
    + split; [done|]. split; [done|]. exists []. rewrite app_nil_r. split; [|done]. f_equal. lia.
  - destruct Hat as [Hi (o & Eo & ->)]. destruct (Hword i Hi) as (v & Ev & Rv). rewrite Ev in Hstep.
    cbn [or_ub mbind res_bind] in Hstep. destruct (negb spurious && (v =? old)) eqn:E; res_inv; simplify_eq.
    + zb. subst old. split; [apply wf_insert; [done | by apply range_land]|]. split; [split; [done|lia]|].
      exists [DidFilterWord i o]. split; [by apply filtered_succ; [lia|]|]. cbn. by rewrite (modify_at _ _ v) by done.
    + split; [done|]. split; [split; [done|lia]|]. exists []. by rewrite app_nil_r.
Qed.

Lemma transaction_events (ev : bool -> event) P Q bits bits' at' :
  match at' with
  | Load i => P i /\ bits' = bits
  | Cas i old new => Q i old new /\ bits' = bits
  | Return r => replay_event bits (ev r) = Ok bits'
  end ->
  replay_events bits (match at' with Return r => [ev r] | _ => [] end) = Ok bits'.
Proof. destruct at'; [by intros [_ ->]|by intros [_ ->]|]. cbn [replay_events]. by intros ->. Qed.

Lemma thread_sim bits t spurious bits' pc' :
  wf N w bits -> good t -> returned t = false -> thread_step bits t spurious = Ok (bits', pc') ->
  wf N w bits' /\ good (mk_thread (req t) pc') /\
  exists es, performed (mk_thread (req t) pc') = performed t ++ es /\ replay_events bits es = Ok bits'.
Proof.
  intros Hb Hg Hret Hstep. destruct t as [[n|n|other] at_]; [| |exact (filter_sim other bits at_ spurious bits' pc' Hb Hg Hret Hstep)];
    unfold thread_step in Hstep; destruct Hg as [Hn Hat]; cbn [req pc valid_request] in *;
    destruct (index_bound N w Hw HN bits n Hb Hn) as [_ Hk].
  - destruct (transaction_sim (set_func n) (DidTestAndSet n) bits n at_ spurious bits' pc') as [Hb' H']; try done.
    { intros v Hv Hr. split; [by apply set_func_none|]. intros v' Hf.
      split; [by eapply set_func_range | by eapply set_func_some]. }
    { by destruct at_. }
    split; [done|]. split; [split; [done|]; destruct pc'; cbn; tauto|].
    eexists. split; [|exact (transaction_events (DidTestAndSet n) (fun i => i = n / w) (fun i old new => i = n / w /\ set_func n old = Some new) _ _ _ H')].
    by destruct at_, pc'.
  - destruct (transaction_sim (clear_func n) (DidTestAndClear n) bits n at_ spurious bits' pc') as [Hb' H']; try done.
    { intros v Hv Hr. split; [by apply clear_func_none|]. intros v' Hf.
      split; [by eapply clear_func_range | by eapply clear_func_some]. }
    { by destruct at_. }
    split; [done|]. split; [split; [done|]; destruct pc'; cbn; tauto|].
    eexists. split; [|exact (transaction_events (DidTestAndClear n) (fun i => i = n / w) (fun i old new => i = n / w /\ clear_func n old = Some new) _ _ _ H')].
    by destruct at_, pc'.
Qed.

Lemma replay_app bits l1 l2 : replay bits (l1 ++ l2) = (replay bits l1 ≫= fun bits' => replay bits' l2).
Proof.
  revert bits. induction l1 as [|[k e] l1 IH]; intros bits; [done|]. cbn [replay app].
  destruct (replay_event bits e); cbn; auto.
Qed.

Lemma replay_tagged bits k es : replay bits ((fun e => (k, e)) <$> es) = replay_events bits es.
Proof.
  revert bits. induction es as [|e es IH]; intros bits; [done|]. cbn [replay fmap list_fmap replay_events].
  destruct (replay_event bits e); cbn; auto.
Qed.

Lemma events_of_app k l1 l2 : events_of k (l1 ++ l2) = events_of k l1 ++ events_of k l2.
Proof. unfold events_of. by rewrite filter_app, fmap_app. Qed.

Lemma events_of_tagged k j es : events_of k ((fun e => (j, e)) <$> es) = if decide (j = k) then es else [].
Proof.
  unfold events_of. induction es as [|e es IH]; [by case_decide|]. cbn [fmap list_fmap]. rewrite filter_cons. cbn [fst].
  destruct (decide (j = k)); [|done]. cbn [fmap list_fmap snd]. f_equal. exact IH.
Qed.

(** The world is the result of a sequential history in which each thread has
    performed what its location says. *)
Definition explained (b0 : list Z) (reqs : list request) (W : world) : Prop :=
  wf N w (words W) /\ Forall good (threads W) /\ req <$> threads W = reqs /\
  exists log, replay b0 log = Ok (words W) /\
    forall k t, threads W !! k = Some t -> events_of k log = performed t.

Lemma explained_start b0 reqs :
  wf N w b0 -> Forall valid_request reqs -> explained b0 reqs (mk_world b0 (start <$> reqs)).
Proof.
  intros Hb Hv. pose proof (words_bound N w Hw HN) as [_ Hnw]. split; [done|]. split; [|split].
  - apply Forall_fmap. eapply Forall_impl; [exact Hv|]. intros [n|n|other] Hr; (split; [done|]); cbn; lia.
  - cbn [threads]. rewrite <- list_fmap_compose. transitivity (id <$> reqs); [by apply list_fmap_ext | apply list_fmap_id].
  - exists []. split; [done|]. intros k t Ht. apply list_lookup_fmap_Some in Ht as (r & -> & _). by destruct r.
Qed.

Lemma explained_step b0 reqs W W' : explained b0 reqs W -> world_step W W' -> explained b0 reqs W'.
Proof.
  intros (Hb & Hg & Hreq & log & Hlog & Hev) Hstep. destruct Hstep as [W k t spurious bits' pc' Hk Hret Hstep].
  pose proof (Forall_lookup_1 _ _ _ _ Hg Hk) as Hgt.
  destruct (thread_sim (words W) t spurious bits' pc' Hb Hgt Hret Hstep) as (Hb' & Hg' & es & Hperf & Hes).
  split; [done|]. split; [by apply Forall_insert|]. split.
  - cbn. rewrite list_fmap_insert. cbn. rewrite Hreq. apply list_insert_id.
    by rewrite <- Hreq, list_lookup_fmap, Hk.
  - exists (log ++ ((fun e => (k, e)) <$> es)). split.
    + rewrite replay_app, Hlog. cbn [mbind res_bind words]. by rewrite replay_tagged.
    + cbn [threads]. intros j u Hu. rewrite events_of_app, events_of_tagged.
      destruct (decide (k = j)) as [<-|Hne].
      * rewrite list_lookup_insert_eq in Hu by (by eapply lookup_lt_Some). injection Hu as <-.
        by rewrite (Hev k t) by done.
      * rewrite list_lookup_insert_ne in Hu by done. rewrite app_nil_r. by apply Hev.
Qed.

Lemma explained_reachable b0 reqs W W' : explained b0 reqs W -> rtc world_step W W' -> explained b0 reqs W'.
Proof. intros H0 Hr. induction Hr as [|W1 W2 W3 Hs _ IH]; [done|]. by apply IH, (explained_step _ _ W1). Qed.

(** ** Threads return *)

(** A thread alone, with no spurious failure. *)
Fixpoint solo (fuel : nat) (bits : list Z) (t : thread) : res (list Z * bool) :=
  match pc t with
  | Return r => mret (bits, r)
  | _ =>
      match fuel with
      | O => NoFuel
      | S fuel => '(bits', pc') ← thread_step bits t false; solo fuel bits' (mk_thread (req t) pc')
      end
  end.

(** The steps a thread still needs when it runs alone: a failed comparison
    costs one more turn. *)
Definition needs (bits : list Z) (t : thread) : nat :=
  let stale i old := if decide (bits.[i] = Some old) then 1%nat else 3%nat in
  match req t, pc t with
  | _, Return _ => 0
  | ConcurrentFilter _, Load i => 2 * Z.to_nat (numberOfWords N w - i) + 1
  | ConcurrentFilter _, Cas i old _ => 2 * Z.to_nat (numberOfWords N w - (i + 1)) + 1 + stale i old
  | _, Load _ => 2
  | _, Cas i old _ => stale i old
  end%nat.

Lemma stale_spec (bits : list Z) i v old :
  bits.[i] = Some v -> (if decide (bits.[i] = Some old) then 1%nat else 3%nat) = if v =? old then 1%nat else 3%nat.
Proof. intros ->. destruct (Z.eqb_spec v old); case_decide; congruence. Qed.

Lemma transaction_total func bits i at_ (v : Z) :
  bits.[i] = Some v -> match at_ with Load j | Cas j _ _ => j = i | Return _ => False end ->
  let cost bits at_ := match at_ with
    | Load _ => 2 | Cas j old _ => if decide (bits.[j] = Some old) then 1 else 3 | Return _ => 0 end%nat in
  exists bits' at', transaction func bits at_ false = Ok (bits', at') /\ (cost bits' at' < cost bits at_)%nat.
Proof.
  intros Hv Hat. cbv beta zeta. destruct at_ as [j|j old new|]; [subst j..|done]; cbn [transaction].
  - rewrite Hv. cbn [or_ub mbind res_bind]. destruct (func v); do 2 eexists; (split; [done|]); cbv beta iota; [|lia]. rewrite (stale_spec _ _ v), Z.eqb_refl by done. cbv iota. lia.
  - rewrite (stale_spec _ _ v), Hv by done. cbn [or_ub mbind res_bind negb andb].
    destruct (Z.eqb_spec v old); do 2 eexists; (split; [done|]); cbv beta iota; lia.
Qed.

Lemma filter_total other bits at_ :
  wf N w bits -> good (mk_thread (ConcurrentFilter other) at_) -> returned (mk_thread (ConcurrentFilter other) at_) = false ->
  exists bits' at', concurrentFilter other bits at_ false = Ok (bits', at') /\
    (needs bits' (mk_thread (ConcurrentFilter other) at') < needs bits (mk_thread (ConcurrentFilter other) at_))%nat.
Proof.
  intros Hb [Ho Hat] Hret. cbn [req pc valid_request] in *. unfold needs. cbn [req pc]. cbv zeta.
  assert (Hword : forall i, 0 <= i < numberOfWords N w -> exists v, bits.[i] = Some v /\ in_range w v).
  { intros i Hi. apply (zlookup_word N w bits i Hb). by rewrite (wf_len _ _ _ Hb). }
  destruct at_ as [i|i old new|]; [| |done]; cbn [concurrentFilter].
  - destruct (Z.ltb_spec i (numberOfWords N w)) as [Hi|Hi]; [|do 2 eexists; split; [done|]; cbv beta iota; lia].
    destruct (zlookup_word N w other i Ho) as (o & Eo & _); [rewrite (wf_len _ _ _ Ho); lia|].
    destruct (Hword i ltac:(lia)) as (v & Ev & _). rewrite Eo, Ev. cbn [or_ub mbind res_bind].
    destruct (Z.eqb_spec o 0); [|destruct (Z.eqb_spec v (Z.land v o))].
    + rewrite (modify_at _ _ v) by done. cbn [mbind res_bind]. do 2 eexists. split; [done|]. cbv beta iota. lia.
    + do 2 eexists. split; [done|]. cbv beta iota. lia.
    + do 2 eexists. split; [done|]. cbv beta iota. rewrite (stale_spec _ _ v), Z.eqb_refl by done. cbv iota. lia.
  - destruct Hat as [Hi (o & Eo & ->)]. destruct (Hword i Hi) as (v & Ev & _). rewrite (stale_spec _ _ v), Ev by done.
    cbn [or_ub mbind res_bind negb andb]. destruct (Z.eqb_spec v old); do 2 eexists; (split; [done|]); cbv beta iota; lia.
Qed.

Lemma thread_step_total bits t :
  wf N w bits -> good t -> returned t = false ->
  exists bits' pc', thread_step bits t false = Ok (bits', pc') /\ (needs bits' (mk_thread (req t) pc') < needs bits t)%nat.
Proof.
  intros Hb Hg Hret. destruct t as [[n|n|other] at_]; [| |exact (filter_total other bits at_ Hb Hg Hret)];
    destruct Hg as [Hn Hat]; cbn [req pc valid_request] in *;
    destruct (index_bound N w Hw HN bits n Hb Hn) as [Hi _]; destruct (zlookup_word N w bits (n / w) Hb Hi) as (v & Hv & _).
  - destruct (transaction_total (set_func n) bits (n / w) at_ v Hv) as (b' & at' & E & Hlt); [destruct at_; naive_solver|].
    exists b', at'. split; [exact E|]. by destruct at_, at'.
  - destruct (transaction_total (clear_func n) bits (n / w) at_ v Hv) as (b' & at' & E & Hlt); [destruct at_; naive_solver|].
    exists b', at'. split; [exact E|]. by destruct at_, at'.
Qed.

Lemma solo_returns fuel bits t :
  wf N w bits -> good t -> (needs bits t <= fuel)%nat ->
  exists bits' r, solo fuel bits t = Ok (bits', r).
Proof.
  revert bits t. induction fuel as [|fuel IH]; intros bits t Hb Hg Hf.
  - destruct (returned t) eqn:Hret; [destruct t as [r [| |]]; try done; by do 2 eexists|].
    destruct (thread_step_total bits t Hb Hg Hret) as (? & ? & _ & ?). lia.
  - destruct (returned t) eqn:Hret; [destruct t as [r [| |]]; try done; by do 2 eexists|].
    destruct (thread_step_total bits t Hb Hg Hret) as (b' & pc' & E & Hlt).
    destruct (thread_sim bits t false b' pc' Hb Hg Hret E) as (Hb' & Hg' & _).
    destruct (IH b' (mk_thread (req t) pc') Hb' Hg' ltac:(lia)) as (b2 & r & E2). exists b2, r.
    destruct t as [q [| |]]; [| |done]; cbn [solo pc] in *; rewrite E; exact E2.
Qed.

Lemma needs_bound bits t : good t -> (needs bits t <= 2 * Z.to_nat (numberOfWords N w) + 3)%nat.
Proof.
  intros [_ Hat]. unfold needs. destruct t as [[n|n|other] [i|i old new|r]]; cbn [req pc] in *; try case_decide; lia.
Qed.

End concurrent.

(** C39: concurrent bit operations are atomic, and filters are word by word.  Threads call [concurrentTestAndSet],
    [concurrentTestAndClear] and [concurrentFilter] on one bitmap; their loads
    and compare-and-swaps interleave in any order and a compare-and-swap may
    fail at any time.  In every state they reach, the bitmap is what one
    sequential history of [testAndSet], [testAndClear] and single filtered words
    gives.  Each bit operation that has returned occurs in it exactly once, with
    the result its caller received: for [concurrentTestAndSet] the result of [testAndSet] there, for
    [concurrentTestAndClear] the opposite of the result of [testAndClear] there.  A filter
    occurs as one operation for each word before its position, in order, between
    which operations of other threads may lie: it is not one atomic operation.  No call can be blocked: from every such state each thread
    returns in at most twice the number of words and three of its own steps
    when it runs alone. *)
Theorem concurrent_calls_atomic N w b0 reqs W :
  w = 32 \/ w = 64 -> 0 <= N < 2 ^ 32 -> wf N w b0 -> Forall (valid_request N w) reqs ->
  rtc (world_step N w) (mk_world b0 (start w <$> reqs)) W ->
  wf N w (words W) /\ req <$> threads W = reqs /\
  (exists log, replay w b0 log = Ok (words W) /\
     forall k t, threads W !! k = Some t -> events_of k log = performed N w t) /\
  (forall k t, threads W !! k = Some t ->
     exists bits r, solo N w (2 * Z.to_nat (numberOfWords N w) + 3) (words W) t = Ok (bits, r)).
Proof.
  intros Hw HN Hb Hv Hr.
  destruct (explained_reachable N w Hw HN b0 reqs _ W (explained_start N w Hw HN b0 reqs Hb Hv) Hr)
    as (Hb' & Hg & Hreq & log & Hlog & Hev).
  split; [done|]. split; [done|]. split; [by exists log|]. intros k t Hk.
  pose proof (Forall_lookup_1 _ _ _ _ Hg Hk) as Hgt.
  apply (solo_returns N w Hw HN); [done|done|]. by apply needs_bound.
Qed.

(** A schedule: the thread that moves and whether its compare-and-swap fails
    spuriously. *)
Fixpoint schedule (N w : Z) (W : world) (l : list (nat * bool)) : option world :=
  match l with
  | [] => Some W
  | (k, spurious) :: l =>
      match threads W !! k with
      | Some t =>
          match returned t, thread_step N w (words W) t spurious with
          | false, Ok (bits', pc') => schedule N w (mk_world bits' (<[k := mk_thread (req t) pc']> (threads W))) l
          | _, _ => None
          end
      | None => None
      end
  end.

Lemma schedule_steps N w W l W' : schedule N w W l = Some W' -> rtc (world_step N w) W W'.
Proof.
  revert W. induction l as [|[k sp] l IH]; intros W; cbn [schedule]; [by intros [= ->]|].
  destruct (threads W !! k) as [t|] eqn:Hk; [|done]. destruct (returned t) eqn:Hret; [done|].
  destruct (thread_step N w (words W) t sp) as [[bits' pc']| | |] eqn:E; try done.
  intros Hs. eapply rtc_l; [by econstructor | by apply IH].
Qed.

(** Two threads set bit 5, one clears it and one filters: the first setter's
    compare-and-swap fails because the second one was faster. *)
Definition sample_world : world :=
  mk_world (Bitmap_ 40 64) (start 64 <$> [ConcurrentTestAndSet 5; ConcurrentTestAndSet 5; ConcurrentTestAndClear 5; ConcurrentFilter [1]]).
Definition sample_schedule : list (nat * bool) :=
  [(0%nat, false); (1%nat, false); (1%nat, true); (1%nat, false); (1%nat, false); (0%nat, false); (3%nat, false);
   (0%nat, false); (2%nat, false); (2%nat, false); (3%nat, true); (3%nat, false); (3%nat, false)].

Lemma concurrent_calls_atomic_witness :
  exists W log, schedule 40 64 sample_world sample_schedule = Some W /\
    pc <$> threads W = [Return true; Return false; Return false; Return true] /\
    replay 64 (Bitmap_ 40 64) log = Ok [0] /\
    events_of 0 log = [DidTestAndSet 5 true] /\ events_of 1 log = [DidTestAndSet 5 false] /\
    events_of 2 log = [DidTestAndClear 5 false] /\ events_of 3 log = [DidFilterWord 0 1].
Proof.
  eexists. assert (E : schedule 40 64 sample_world sample_schedule = Some _) by (vm_compute; reflexivity).
  pose proof (schedule_steps _ _ _ _ _ E) as Hr.
  apply concurrent_calls_atomic in Hr as (_ & _ & (log & Hlog & Hev) & _);
    [| by right | lia | split; [done | repeat constructor; unfold in_range; lia]
    | repeat constructor; cbn; unfold in_range; lia].
  exists log. split; [exact E|]. split; [reflexivity|]. split; [exact Hlog|].
  split; [exact (Hev 0%nat _ eq_refl)|]. split; [exact (Hev 1%nat _ eq_refl)|].
  split; [exact (Hev 2%nat _ eq_refl)|exact (Hev 3%nat _ eq_refl)].
Defined.

End BitmapOps.
