(* ===== verification/WtfString.v ===== *)
(** * Strings (WTF/wtf/text, WTF/wtf/ASCIICType.h)

    A [StringImpl] is the list of its code units, 8 or 16 bits wide; the code has
    a copy of each function per width, of one body, and a string of either width
    is the same list here.  A [String] is a pointer to a [StringImpl] or null.
    Positions are unsigned, [notFound] is the largest [size_t].  A read outside a
    string is [UB], and so is an overflow of a signed integer.

    The ICU library decides which code units above Latin-1 are white space: a
    parameter, the class [ICU]. *)

From S2P Require Import Prelude.

Local Open Scope cf.

Module Str.

(** ** Characters (ASCIICType.h, ASCIICType.cpp) *)

Definition isASCII (c : Z) : bool := Z.land c (Z.lnot 127) =? 0.
Definition isASCIILower (c : Z) : bool := (97 <=? c) && (c <=? 122).
Definition toASCIILowerUnchecked (c : Z) : Z := Z.lor c 32.
Definition isASCIIAlpha (c : Z) : bool := isASCIILower (toASCIILowerUnchecked c).
Definition isASCIIDigit (c : Z) : bool := (48 <=? c) && (c <=? 57).

Definition isASCIIHexDigit (c : Z) : bool :=
  isASCIIDigit c || ((97 <=? toASCIILowerUnchecked c) && (toASCIILowerUnchecked c <=? 102)).

Definition isASCIISpace (c : Z) : bool :=
  (c <=? 32) && ((c =? 32) || ((c <=? 13) && (9 <=? c))).

Definition isASCIIUpper (c : Z) : bool := (65 <=? c) && (c <=? 90).

(** The template, for 16-bit code units. *)
Definition toASCIILower (c : Z) : Z := Z.lor c (Z.shiftl (Z.b2z (isASCIIUpper c)) 5).

(** The table behind the specialisation for 8-bit code units. *)
Definition asciiCaseFoldTable : list Z := [
    0x00; 0x01; 0x02; 0x03; 0x04; 0x05; 0x06; 0x07; 0x08; 0x09; 0x0a; 0x0b; 0x0c; 0x0d; 0x0e; 0x0f;
    0x10; 0x11; 0x12; 0x13; 0x14; 0x15; 0x16; 0x17; 0x18; 0x19; 0x1a; 0x1b; 0x1c; 0x1d; 0x1e; 0x1f;
    0x20; 0x21; 0x22; 0x23; 0x24; 0x25; 0x26; 0x27; 0x28; 0x29; 0x2a; 0x2b; 0x2c; 0x2d; 0x2e; 0x2f;
    0x30; 0x31; 0x32; 0x33; 0x34; 0x35; 0x36; 0x37; 0x38; 0x39; 0x3a; 0x3b; 0x3c; 0x3d; 0x3e; 0x3f;
    0x40; 0x61; 0x62; 0x63; 0x64; 0x65; 0x66; 0x67; 0x68; 0x69; 0x6a; 0x6b; 0x6c; 0x6d; 0x6e; 0x6f;
    0x70; 0x71; 0x72; 0x73; 0x74; 0x75; 0x76; 0x77; 0x78; 0x79; 0x7a; 0x5b; 0x5c; 0x5d; 0x5e; 0x5f;
    0x60; 0x61; 0x62; 0x63; 0x64; 0x65; 0x66; 0x67; 0x68; 0x69; 0x6a; 0x6b; 0x6c; 0x6d; 0x6e; 0x6f;
    0x70; 0x71; 0x72; 0x73; 0x74; 0x75; 0x76; 0x77; 0x78; 0x79; 0x7a; 0x7b; 0x7c; 0x7d; 0x7e; 0x7f;
    0x80; 0x81; 0x82; 0x83; 0x84; 0x85; 0x86; 0x87; 0x88; 0x89; 0x8a; 0x8b; 0x8c; 0x8d; 0x8e; 0x8f;
    0x90; 0x91; 0x92; 0x93; 0x94; 0x95; 0x96; 0x97; 0x98; 0x99; 0x9a; 0x9b; 0x9c; 0x9d; 0x9e; 0x9f;
    0xa0; 0xa1; 0xa2; 0xa3; 0xa4; 0xa5; 0xa6; 0xa7; 0xa8; 0xa9; 0xaa; 0xab; 0xac; 0xad; 0xae; 0xaf;
    0xb0; 0xb1; 0xb2; 0xb3; 0xb4; 0xb5; 0xb6; 0xb7; 0xb8; 0xb9; 0xba; 0xbb; 0xbc; 0xbd; 0xbe; 0xbf;
    0xc0; 0xc1; 0xc2; 0xc3; 0xc4; 0xc5; 0xc6; 0xc7; 0xc8; 0xc9; 0xca; 0xcb; 0xcc; 0xcd; 0xce; 0xcf;
    0xd0; 0xd1; 0xd2; 0xd3; 0xd4; 0xd5; 0xd6; 0xd7; 0xd8; 0xd9; 0xda; 0xdb; 0xdc; 0xdd; 0xde; 0xdf;
    0xe0; 0xe1; 0xe2; 0xe3; 0xe4; 0xe5; 0xe6; 0xe7; 0xe8; 0xe9; 0xea; 0xeb; 0xec; 0xed; 0xee; 0xef;
    0xf0; 0xf1; 0xf2; 0xf3; 0xf4; 0xf5; 0xf6; 0xf7; 0xf8; 0xf9; 0xfa; 0xfb; 0xfc; 0xfd; 0xfe; 0xff ].

Definition toASCIILower8 (c : Z) : res Z := or_ub asciiCaseFoldTable.[c].

(** The assertion that [character] is a hexadecimal digit is not part of a release build. *)
Definition toASCIIHexValue (c : Z) : Z :=
  if c <? 65 then u8 (c - 48) else Z.land (c - 65 + 10) 15.

Definition toASCIIHexValue2 (first second : Z) : Z :=
  u8 (Z.lor (Z.shiftl (toASCIIHexValue first) 4) (toASCIIHexValue second)).

Definition lowerNibbleToASCIIHexDigit (value : Z) : Z :=
  let nibble := Z.land value 15 in nibble + (if nibble <? 10 then 48 else 65 - 10).

Definition upperNibbleToASCIIHexDigit (value : Z) : Z :=
  let nibble := Z.shiftr value 4 in nibble + (if nibble <? 10 then 48 else 65 - 10).

(** [u_charDirection(c) == U_WHITE_SPACE_NEUTRAL]. *)
Class ICU := { u_white_space_neutral : Z -> bool }.

Definition isLatin1 (c : Z) : bool := c <=? 255.

Definition isSpaceOrNewline `{ICU} (c : Z) : bool :=
  if isLatin1 c then isASCIISpace c else u_white_space_neutral c.

(** ** Comparison (StringCommon.h) *)

Abbreviation StringImpl := (list Z).

(** The code units of a literal. *)
Fixpoint lit (s : String.string) : StringImpl :=
  match s with
  | String.EmptyString => []
  | String.String c s => Z.of_N (Ascii.N_of_ascii c) :: lit s
  end.
Arguments lit s%_string_scope.

(** [equal] on code units of different widths. *)
Fixpoint equal (a b : StringImpl) (length : nat) : res bool :=
  match length with
  | O => Ok true
  | S n =>
      match a, b with
      | x :: a, y :: b => if x =? y then equal a b n else Ok false
      | _, _ => UB
      end
  end.

(** [unalignedLoad] of an unsigned type of [n] bytes. *)
Definition unalignedLoad (n : Z) (p : list Z) : res Z :=
  bytes ← mem_read p 0 n; Ok (le_combine bytes).

Definition load_differs (n : Z) (a b : list Z) : res bool :=
  x ← unalignedLoad n a; y ← unalignedLoad n b; Ok (negb (x =? y)).

(** The loop over 64-bit words; the result is whether a difference was found,
    and where the pointers are. *)
Fixpoint equal_words (dwordLength : nat) (a b : list Z) : res (bool * list Z * list Z) :=
  match dwordLength with
  | O => Ok (false, a, b)
  | S n =>
      d ← load_differs 8 a b;
      if (d : bool) then Ok (true, a, b) else equal_words n (drop 8 a) (drop 8 b)
  end.

(** One of the tails of 4, 2 or 1 bytes. *)
Definition equal_tail (length n : Z) (a b : list Z) (k : list Z -> list Z -> res bool) : res bool :=
  if negb (Z.land length n =? 0)
  then d ← load_differs n a b;
       if (d : bool) then Ok false else k (drop (Z.to_nat n) a) (drop (Z.to_nat n) b)
  else k a b.

(** [equal] on two strings of 8-bit code units, on 64-bit processors. *)
Definition equal8 (a b : list Z) (length : Z) : res bool :=
  '(differs, a, b) ← equal_words (Z.to_nat (Z.shiftr length 3)) a b;
  if (differs : bool) then Ok false else
  equal_tail length 4 a b (fun a b =>
  equal_tail length 2 a b (fun a b =>
  equal_tail length 1 a b (fun _ _ => Ok true))).

Fixpoint equalIgnoringASCIICase_loop (a b : StringImpl) (length : nat) : res bool :=
  match length with
  | O => Ok true
  | S n =>
      match a, b with
      | x :: a, y :: b =>
          if toASCIILower x =? toASCIILower y then equalIgnoringASCIICase_loop a b n else Ok false
      | _, _ => UB
      end
  end.

Definition equalIgnoringASCIICase (a b : StringImpl) : res bool :=
  if negb (zlen a =? zlen b) then Ok false else equalIgnoringASCIICase_loop a b (length a).

Definition startsWith (reference prefix : StringImpl) : res bool :=
  if zlen reference <? zlen prefix then Ok false else equal reference prefix (length prefix).

Definition endsWith (reference suffix : StringImpl) : res bool :=
  if zlen reference <? zlen suffix then Ok false
  else equal (drop (length reference - length suffix) reference) suffix (length suffix).

(** ** Searching (StringCommon.h, StringImpl.h, StringImpl.cpp) *)

Definition notFound : Z := 2 ^ 64 - 1.

Fixpoint find_loop (fuel : nat) (characters : StringImpl) (matchCharacter index : Z) : res Z :=
  match fuel with
  | O => NoFuel
  | S fuel =>
      if index <? zlen characters then
        c ← or_ub characters.[index];
        if c =? matchCharacter then Ok index else find_loop fuel characters matchCharacter (index + 1)
      else Ok notFound
  end.

Definition find_char (characters : StringImpl) (matchCharacter index : Z) : res Z :=
  find_loop (S (length characters)) characters matchCharacter index.

(** The two sums at the start of a search. *)
Definition running_hash (characters : StringImpl) (offset matchLength : Z) : res Z :=
  window ← mem_read characters offset matchLength;
  Ok (foldl (fun hash c => u32 (hash + c)) 0 window).

(** The condition of the search loops: the hashes differ or the characters do. *)
Definition mismatch (searchCharacters matchCharacters : StringImpl) (i searchHash matchHash : Z) : res bool :=
  if negb (searchHash =? matchHash) then Ok true
  else e ← equal (drop (Z.to_nat i) searchCharacters) matchCharacters (length matchCharacters); Ok (negb e).

Fixpoint findInner_loop (fuel : nat) (searchCharacters matchCharacters : StringImpl)
    (index delta searchHash matchHash i : Z) : res Z :=
  match fuel with
  | O => NoFuel
  | S fuel =>
      differ ← mismatch searchCharacters matchCharacters i searchHash matchHash;
      if (differ : bool) then
        if i =? delta then Ok notFound else
        add ← or_ub searchCharacters.[i + zlen matchCharacters];
        sub ← or_ub searchCharacters.[i];
        findInner_loop fuel searchCharacters matchCharacters index delta
          (u32 (u32 (searchHash + add) - sub)) matchHash (i + 1)
      else Ok (index + i)
  end.

Definition findInner (searchCharacters matchCharacters : StringImpl) (index searchLength matchLength : Z) : res Z :=
  let delta := u32 (searchLength - matchLength) in
  searchHash ← running_hash searchCharacters 0 matchLength;
  matchHash ← running_hash matchCharacters 0 matchLength;
  findInner_loop (S (length searchCharacters)) searchCharacters matchCharacters index delta searchHash matchHash 0.

Definition findCommon (haystack needle : StringImpl) (start : Z) : res Z :=
  let needleLength := zlen needle in
  if needleLength =? 1 then c ← or_ub needle.[0]; find_char haystack c start
  else if zlen haystack <? start then Ok notFound
  else if needleLength =? 0 then Ok start
  else
    let searchLength := zlen haystack - start in
    if searchLength <? needleLength then Ok notFound
    else findInner (drop (Z.to_nat start) haystack) needle start searchLength needleLength.

Fixpoint reverseFind_loop (fuel : nat) (characters : StringImpl) (matchCharacter index : Z) : res Z :=
  match fuel with
  | O => NoFuel
  | S fuel =>
      c ← or_ub characters.[index];
      if c =? matchCharacter then Ok index
      else if index =? 0 then Ok notFound
      else reverseFind_loop fuel characters matchCharacter (index - 1)
  end.

Definition reverseFind_char (characters : StringImpl) (matchCharacter index : Z) : res Z :=
  let length' := zlen characters in
  if length' =? 0 then Ok notFound else
  let index := if length' <=? index then length' - 1 else index in
  reverseFind_loop (S (length characters)) characters matchCharacter index.

Fixpoint reverseFindInner_loop (fuel : nat) (searchCharacters matchCharacters : StringImpl)
    (searchHash matchHash delta : Z) : res Z :=
  match fuel with
  | O => NoFuel
  | S fuel =>
      differ ← mismatch searchCharacters matchCharacters delta searchHash matchHash;
      if (differ : bool) then
        if delta =? 0 then Ok notFound else
        let delta := delta - 1 in
        sub ← or_ub searchCharacters.[delta + zlen matchCharacters];
        add ← or_ub searchCharacters.[delta];
        reverseFindInner_loop fuel searchCharacters matchCharacters
          (u32 (u32 (searchHash - sub) + add)) matchHash delta
      else Ok delta
  end.

Definition reverseFindInner (searchCharacters matchCharacters : StringImpl) (index length' matchLength : Z) : res Z :=
  let delta := Z.min index (length' - matchLength) in
  searchHash ← running_hash searchCharacters delta matchLength;
  matchHash ← running_hash matchCharacters 0 matchLength;
  reverseFindInner_loop (S (length searchCharacters)) searchCharacters matchCharacters searchHash matchHash delta.

Definition reverseFind_impl (s matchString : StringImpl) (index : Z) : res Z :=
  let matchLength := zlen matchString in
  let ourLength := zlen s in
  if matchLength =? 0 then Ok (Z.min index ourLength)
  else if matchLength =? 1 then c ← or_ub matchString.[0]; reverseFind_char s c index
  else if ourLength <? matchLength then Ok notFound
  else reverseFindInner s matchString index ourLength matchLength.

Definition find_impl (s matchString : StringImpl) : res Z :=
  let matchLength := zlen matchString in
  if matchLength =? 1 then c ← or_ub matchString.[0]; find_char s c 0
  else if zlen s <? matchLength then Ok notFound
  else if matchLength =? 0 then Ok 0
  else findInner s matchString 0 (zlen s) matchLength.

(** ** Parts and conversions of a string (StringImpl.cpp) *)

Definition substring_impl (s : StringImpl) (start length' : Z) : res StringImpl :=
  if zlen s <=? start then Ok [] else
  let maxLength := zlen s - start in
  if (maxLength <=? length') && (start =? 0) then Ok s else
  mem_read s start (if maxLength <=? length' then maxLength else length').

Definition toASCIILower_from (data : StringImpl) (failingIndex : nat) : StringImpl :=
  take failingIndex data ++ (toASCIILower <$> drop failingIndex data).

Fixpoint first_upper (data : StringImpl) : option nat :=
  match data with
  | [] => None
  | c :: data => if isASCIIUpper c then Some O else S <$> first_upper data
  end.

Definition convertToASCIILowercase_impl (s : StringImpl) : StringImpl :=
  match first_upper s with
  | None => s
  | Some failingIndex => toASCIILower_from s failingIndex
  end.

Fixpoint strip_start (fuel : nat) (predicate : Z -> bool) (s : StringImpl) (start end_ : Z) : res Z :=
  match fuel with
  | O => NoFuel
  | S fuel =>
      if start <=? end_ then
        c ← or_ub s.[start];
        if predicate c then strip_start fuel predicate s (start + 1) end_ else Ok start
      else Ok start
  end.

Fixpoint strip_end (fuel : nat) (predicate : Z -> bool) (s : StringImpl) (end_ : Z) : res Z :=
  match fuel with
  | O => NoFuel
  | S fuel =>
      if negb (end_ =? 0) then
        c ← or_ub s.[end_];
        if predicate c then strip_end fuel predicate s (end_ - 1) else Ok end_
      else Ok end_
  end.

Definition stripMatchedCharacters (predicate : Z -> bool) (s : StringImpl) : res StringImpl :=
  if zlen s =? 0 then Ok s else
  let end_ := zlen s - 1 in
  start ← strip_start (S (length s)) predicate s 0 end_;
  if end_ <? start then Ok [] else
  end_ ← strip_end (S (length s)) predicate s end_;
  if (start =? 0) && (end_ =? zlen s - 1) then Ok s else
  mem_read s start (end_ + 1 - start).

(** ** Integers (StringToIntegerConversion.h, WTFString.cpp, IntegerToStringConversion.h) *)

Definition isCharacterAllowedInBase (c base : Z) : bool :=
  if 127 <? c then false
  else if isASCIIDigit c then c - 48 <? base
  else if isASCIIAlpha c then
    let base := if 36 <? base then 36 else base in
    ((97 <=? c) && (c <? 97 + base - 10)) || ((65 <=? c) && (c <? 65 + base - 10))
  else false.

Section conversion.
Context `{ICU}.

Fixpoint skip_space (data : StringImpl) : StringImpl :=
  match data with
  | c :: data' => if isSpaceOrNewline c then skip_space data' else data
  | [] => []
  end.

Definition digitValue (c : Z) : Z :=
  if isASCIIDigit c then c - 48 else if 97 <=? c then c - 97 + 10 else c - 65 + 10.

(** [base * value + digitValue] in a signed type of [w] bits; outside its range it is [UB]. *)
Definition signed_result (w z : Z) : res Z :=
  if (- 2 ^ (w - 1) <=? z) && (z <? 2 ^ (w - 1)) then Ok z else UB.

(** The digits of a signed [IntegralType] of [w] bits: the value and the rest of
    the data, [None] where the code jumps to [bye]. *)
Fixpoint read_digits (w base value : Z) (isNegative : bool) (data : StringImpl) : res (option (Z * StringImpl)) :=
  match data with
  | c :: data' =>
      if isCharacterAllowedInBase c base then
        let integralMax := 2 ^ (w - 1) - 1 in
        let maxMultiplier := integralMax / base in
        let digit := digitValue c in
        if (maxMultiplier <? value) || ((value =? maxMultiplier) && (integralMax mod base + Z.b2z isNegative <? digit))
        then Ok None
        else value ← signed_result w (base * value + digit); read_digits w base value isNegative data'
      else Ok (Some (value, data))
  | [] => Ok (Some (value, []))
  end.

(** [toIntegralType] for a signed type of [w] bits; [None] is a conversion that failed. *)
Definition toIntegralType (w : Z) (data : StringImpl) (base : Z) : res (option Z) :=
  let data := skip_space data in
  let '(isNegative, data) :=
    match data with
    | c :: data' => if c =? 45 then (true, data') else if c =? 43 then (false, data') else (false, data)
    | [] => (false, [])
    end in
  match data with
  | [] => Ok None
  | c :: _ =>
      if negb (isCharacterAllowedInBase c base) then Ok None else
      r ← read_digits w base 0 isNegative data;
      match r with
      | None => Ok None
      | Some (value, data) =>
          value ← (if isNegative : bool then signed_result w (- value) else Ok value);
          match skip_space data with [] => Ok (Some value) | _ => Ok None end
      end
  end.

Fixpoint count_while (p : Z -> bool) (data : StringImpl) : nat :=
  match data with
  | c :: data => if p c then S (count_while p data) else O
  | [] => O
  end.

Definition lengthOfCharactersAsInteger (data : StringImpl) : nat :=
  let i := count_while isSpaceOrNewline data in
  let i := match drop i data with
           | c :: _ => if (c =? 43) || (c =? 45) then S i else i
           | [] => i
           end in
  (i + count_while isASCIIDigit (drop i data))%nat.

Definition charactersToInt (data : StringImpl) : res (option Z) :=
  toIntegralType 32 (take (lengthOfCharactersAsInteger data) data) 10.

End conversion.

(** The digits are written from the end of [buf], which has [size] cells. *)
Fixpoint number_digits (size : nat) (number : Z) (p : StringImpl) : res (nat * StringImpl) :=
  match size with
  | O => UB
  | S size =>
      let p := number mod 10 + 48 :: p in
      let number := number / 10 in
      if number =? 0 then Ok (size, p) else number_digits size number p
  end.

(** [numberToStringImpl] for an unsigned type of 32 bits. *)
Definition numberToStringImpl (negative : bool) (number : Z) : res StringImpl :=
  '(size, p) ← number_digits (4 * 3 + 1) number [];
  if (negative : bool) then match size with O => UB | S _ => Ok (45 :: p) end else Ok p.

(** [numberToStringSigned] for [int]. *)
Definition numberToStringSigned (number : Z) : res StringImpl :=
  if number <? 0
  then opposite ← signed_result 32 (- number); numberToStringImpl true (u32 opposite)
  else numberToStringImpl false (u32 number).

(** ** The class String (WTFString.h, WTFString.cpp) *)

Abbreviation String := (option StringImpl).

Definition MaxLength : Z := 2 ^ 31 - 1.

Definition emptyString : String := Some [].

Definition chars (s : String) : StringImpl := default [] s.

Definition isNull (s : String) : bool := match s with None => true | Some _ => false end.
Definition isEmpty (s : String) : bool := match s with None => true | Some l => zlen l =? 0 end.
Definition length_ (s : String) : Z := match s with None => 0 | Some l => zlen l end.

Definition characterAt (s : String) (index : Z) : res Z :=
  match s with
  | None => Ok 0
  | Some l => if zlen l <=? u32 index then Ok 0 else or_ub l.[u32 index]
  end.

Definition find_uchar (s : String) (character start : Z) : res Z :=
  match s with None => Ok notFound | Some l => find_char l character (u32 start) end.

Definition find (s matchString : String) : res Z :=
  match s, matchString with Some l, Some m => find_impl l m | _, _ => Ok notFound end.

Definition find_at (s matchString : String) (start : Z) : res Z :=
  match s, matchString with Some l, Some m => findCommon l m (u32 start) | _, _ => Ok notFound end.

Definition reverseFind (s matchString : String) : res Z :=
  match s, matchString with Some l, Some m => reverseFind_impl l m MaxLength | _, _ => Ok notFound end.

Definition startsWith_ (s prefix : String) : res bool :=
  match s with
  | None => Ok (isEmpty prefix)
  | Some l => match prefix with None => Ok true | Some p => startsWith l p end
  end.

(** [endsWith] of a string literal, whose array has one cell more than the literal. *)
Definition endsWith_literal (s : String) (suffix : StringImpl) : res bool :=
  match s with None => Ok false | Some l => endsWith l suffix end.

Definition substring (s : String) (position length' : Z) : res String :=
  match s with
  | None => Ok None
  | Some l => r ← substring_impl l (u32 position) (u32 length'); Ok (Some r)
  end.

Definition convertToASCIILowercase (s : String) : String := convertToASCIILowercase_impl <$> s.

Definition strip (predicate : Z -> bool) (s : String) : res String :=
  match s with None => Ok None | Some l => r ← stripMatchedCharacters predicate l; Ok (Some r) end.

Definition stripWhiteSpace `{ICU} (s : String) : res String := strip isSpaceOrNewline s.

Definition stripLeadingAndTrailingCharacters (predicate : Z -> bool) (s : String) : res String := strip predicate s.

(** [equalIgnoringASCIICase] of a string and a C string. *)
Definition equalIgnoringASCIICase_ (a : String) (b : StringImpl) : res bool :=
  equalIgnoringASCIICase (chars a) b.

Definition toInt `{ICU} (s : String) : res (option Z) :=
  match s with None => Ok None | Some l => charactersToInt l end.

Definition number (n : Z) : res String := r ← numberToStringSigned n; Ok (Some r).

(** [splitInternal<allowEmptyEntries>] for a separator found by [find_sep] and of
    length [separatorLength]. *)
Fixpoint split_loop (fuel : nat) (allowEmptyEntries : bool) (find_sep : Z -> res Z) (separatorLength : Z)
    (s : String) (startPos : Z) (result : list String) : res (list String) :=
  match fuel with
  | O => NoFuel
  | S fuel =>
      endPos ← find_sep startPos;
      if negb (endPos =? notFound) then
        result ← (if allowEmptyEntries || negb (startPos =? endPos)
                  then piece ← substring s startPos (endPos - startPos); Ok (result ++ [piece])
                  else Ok result);
        split_loop fuel allowEmptyEntries find_sep separatorLength s (u32 (endPos + separatorLength)) result
      else if allowEmptyEntries || negb (startPos =? length_ s)
        then piece ← substring s startPos MaxLength; Ok (result ++ [piece])
        else Ok result
  end.

Definition splitInternal (allowEmptyEntries : bool) (s separator : String) : res (list String) :=
  split_loop (S (S (length (chars s)))) allowEmptyEntries (find_at s separator) (length_ separator) s 0 [].

Definition splitInternal_uchar (allowEmptyEntries : bool) (s : String) (separator : Z) : res (list String) :=
  split_loop (S (S (length (chars s)))) allowEmptyEntries (find_uchar s separator) 1 s 0 [].

Definition split (s separator : String) : res (list String) := splitInternal false s separator.
Definition split_uchar (s : String) (separator : Z) : res (list String) := splitInternal_uchar false s separator.
Definition splitAllowingEmptyEntries (s : String) (separator : Z) : res (list String) :=
  splitInternal_uchar true s separator.

(** ** Reference definitions *)

(** The position of the first element that satisfies [p]. *)
Fixpoint index_of (p : Z -> bool) (l : list Z) : option nat :=
  match l with
  | [] => None
  | c :: l => if p c then Some O else S <$> index_of p l
  end.

(** The parts of a string between the characters that satisfy [p]. *)
Fixpoint pieces (p : Z -> bool) (l : list Z) : list (list Z) :=
  match l with
  | [] => [[]]
  | c :: l =>
      if p c then [] :: pieces p l
      else match pieces p l with x :: xs => (c :: x) :: xs | [] => [[c]] end
  end.

Definition nonempty (l : list Z) : bool := match l with [] => false | _ => true end.

(** The parts that are not empty. *)
Definition words (p : Z -> bool) (l : list Z) : list (list Z) := List.filter nonempty (pieces p l).

(** [m] stands in [s] at position [k]. *)
Definition occurs (s m : list Z) (k : nat) : Prop := exists pre post, s = pre ++ m ++ post /\ length pre = k.

(** Without the characters of [p] at its start and at its end. *)
Fixpoint drop_while (p : Z -> bool) (l : list Z) : list Z :=
  match l with
  | c :: l' => if p c then drop_while p l' else l
  | [] => []
  end.

Definition trim (p : Z -> bool) (l : list Z) : list Z := reverse (drop_while p (reverse (drop_while p l))).

(** ** Comparison *)

Lemma str_equal_spec a b n :
  (n <= length a)%nat -> (n <= length b)%nat -> equal a b n = Ok (bool_decide (take n a = take n b)).
Proof.
  revert a b; induction n as [|n IH]; intros [|x a] [|y b]; cbn; intros; try lia; try done.
  destruct (Z.eqb_spec x y) as [->|].
  - rewrite IH by lia. f_equal. apply bool_decide_ext. split; congruence.
  - rewrite bool_decide_false; congruence.
Qed.

Lemma equal_refl_prefix m post n : n = length m -> equal (m ++ post) m n = Ok true.
Proof.
  intros ->. rewrite str_equal_spec by (rewrite ?length_app; lia).
  rewrite take_app_length, firstn_all. by rewrite bool_decide_true.
Qed.

Lemma le_combine_inj l k :
  length l = length k -> Forall (in_range 8) l -> Forall (in_range 8) k -> le_combine l = le_combine k -> l = k.
Proof.
  revert k; induction l as [|x l IH]; intros [|y k]; cbn; intros L Fl Fk E; try done.
  apply Forall_cons in Fl as [Hx Fl], Fk as [Hy Fk]. unfold in_range in Hx, Hy.
  change (2 ^ 8) with 256 in *. assert (x = y) as -> by lia. f_equal. apply IH; auto; lia.
Qed.

Lemma load_differs_spec n a b :
  0 <= n -> n <= zlen a -> n <= zlen b -> Forall (in_range 8) a -> Forall (in_range 8) b ->
  load_differs n a b = Ok (bool_decide (take (Z.to_nat n) a <> take (Z.to_nat n) b)).
Proof.
  intros Hn La Lb Fa Fb. unfold load_differs, unalignedLoad, mem_read.
  rewrite !(proj2 (Z.leb_le _ _)) by lia. cbn. rewrite !drop_0. f_equal.
  unfold zlen in *.
  destruct (decide (take (Z.to_nat n) a = take (Z.to_nat n) b)) as [E|E].
  - rewrite E, Z.eqb_refl, bool_decide_false; [done|tauto].
  - rewrite bool_decide_true by done. apply negb_true_iff, Z.eqb_neq. contradict E.
    apply le_combine_inj; [by rewrite !length_take; lia|by apply Forall_take..|done].
Qed.

(** Comparing a block of [k] characters first and the rest afterwards. *)
Lemma take_block {A} (a b : list A) k n :
  (k <= n)%nat -> take n a = take n b <-> take k a = take k b /\ take (n - k) (drop k a) = take (n - k) (drop k b).
Proof.
  intros Hk. replace n with (k + (n - k))%nat at 1 2 by lia. rewrite <- !take_take_drop. split.
  - intros E. apply app_inj_1 in E; [done|].
    apply (f_equal length) in E. rewrite !length_app, !length_take, !length_drop in E. rewrite !length_take. lia.
  - by intros [-> ->].
Qed.

Lemma equal_words_spec d a b :
  (8 * d <= length a)%nat -> (8 * d <= length b)%nat -> Forall (in_range 8) a -> Forall (in_range 8) b ->
  exists a' b', equal_words d a b = Ok (bool_decide (take (8 * d) a <> take (8 * d) b), a', b') /\
    (take (8 * d) a = take (8 * d) b -> a' = drop (8 * d) a /\ b' = drop (8 * d) b).
Proof.
  revert a b; induction d as [|d IH]; intros a b La Lb Fa Fb; cbn [equal_words].
  - rewrite Nat.mul_0_r, !drop_0. exists a, b. rewrite bool_decide_false; [done|]. intros N; by apply N.
  - rewrite load_differs_spec by (try unfold zlen; (lia || done)). cbn [mbind res_bind].
    change (Z.to_nat 8) with 8%nat.
    pose proof (take_block a b 8 (8 * S d) ltac:(lia)) as B.
    replace (8 * S d - 8)%nat with (8 * d)%nat in B by lia.
    destruct (decide (take 8 a = take 8 b)) as [E|E].
    + rewrite (bool_decide_false (_ <> _)) by tauto.
      destruct (IH (drop 8 a) (drop 8 b)) as (a' & b' & -> & H'); rewrite ?length_drop; try lia; try by apply Forall_drop.
      exists a', b'. split; [do 3 f_equal; apply bool_decide_ext; tauto|].
      intros E'. rewrite !drop_drop in H'. replace (8 * S d)%nat with (8 + 8 * d)%nat by lia. tauto.
    + rewrite (bool_decide_true (_ <> _)) by done. exists a, b. split; [|tauto].
      do 3 f_equal. symmetry. apply bool_decide_true. tauto.
Qed.

Lemma equal_block {A} `{EqDecision A} (a b : list A) k n :
  bool_decide (take (k + n) a = take (k + n) b) =
  (bool_decide (take k a = take k b) && bool_decide (take n (drop k a) = take n (drop k b)))%bool.
Proof.
  rewrite <- bool_decide_and. apply bool_decide_ext. rewrite (take_block a b k) by lia.
  by replace (k + n - k)%nat with n by lia.
Qed.

Lemma equal_tail_step length' n m rest a b k :
  0 <= n -> m = (if Z.land length' n =? 0 then 0%nat else Z.to_nat n) ->
  Z.of_nat m <= zlen a -> Z.of_nat m <= zlen b -> Forall (in_range 8) a -> Forall (in_range 8) b ->
  k (drop m a) (drop m b) = Ok (bool_decide (take rest (drop m a) = take rest (drop m b))) ->
  equal_tail length' n a b k = Ok (bool_decide (take (m + rest) a = take (m + rest) b)).
Proof.
  intros Hn -> La Lb Fa Fb Hk. rewrite equal_block. unfold equal_tail. destruct (_ =? _); cbn [negb].
  - rewrite !drop_0 in *. by rewrite (bool_decide_true (take 0 a = take 0 b)).
  - rewrite load_differs_spec by (lia || done). cbn [mbind res_bind].
    destruct (decide (take (Z.to_nat n) a = take (Z.to_nat n) b)).
    + rewrite (bool_decide_true (_ = _)), bool_decide_false by tauto. by rewrite Hk.
    + by rewrite (bool_decide_false (take (Z.to_nat n) a = _)), bool_decide_true by tauto.
Qed.

(** A length is its 64-bit words and its low three bits. *)
Lemma length_bits L :
  0 <= L -> L = 8 * Z.shiftr L 3 + Z.land L 4 + Z.land L 2 + Z.land L 1.
Proof.
  intros HL. rewrite Z.shiftr_div_pow2 by lia. change (2 ^ 3) with 8.
  assert (B : forall k, Z.land 7 k = k -> Z.land L k = Z.land (L mod 8) k).
  { intros k Hk. change (L mod 8) with (L mod 2 ^ 3). rewrite <- Z.land_ones, <- Z.land_assoc by lia.
    change (Z.ones 3) with 7. by rewrite Hk. }
  rewrite (B 4), (B 2), (B 1) by done.
  pose proof (Z.div_mod L 8 ltac:(lia)) as E. pose proof (Z.mod_pos_bound L 8 ltac:(lia)) as Hr.
  set (r := L mod 8) in *. clearbody r.
  assert (r = 0 \/ r = 1 \/ r = 2 \/ r = 3 \/ r = 4 \/ r = 5 \/ r = 6 \/ r = 7) as C by lia.
  assert (r = Z.land r 4 + Z.land r 2 + Z.land r 1) by (destruct_or! C; by subst r).
  lia.
Qed.

Lemma length_bit_nat L n : (n = 4 \/ n = 2 \/ n = 1) ->
  Z.of_nat (if Z.land L n =? 0 then 0%nat else Z.to_nat n) = Z.land L n.
Proof.
  intros Hn. destruct (Z.eqb_spec (Z.land L n) 0) as [->|N]; [done|].
  assert (exists k, 0 <= k /\ n = 2 ^ k) as (k & Hk & ->) by (destruct_or! Hn; subst n; [exists 2|exists 1|exists 0]; lia).
  rewrite Z2Nat.id by lia. rewrite Z.land_comm in *.
  assert (T : Z.land (2 ^ k) L = if Z.testbit L k then 2 ^ k else 0).
  { apply Z.bits_inj'. intros i Hi. rewrite Z.land_spec, Z.pow2_bits_eqb by lia.
    destruct (Z.eqb_spec k i) as [->|N'].
    - destruct (Z.testbit L i); [by rewrite Z.pow2_bits_eqb, Z.eqb_refl by lia|by rewrite Z.bits_0].
    - destruct (Z.testbit L k); [|by rewrite Z.bits_0].
      rewrite Z.pow2_bits_eqb by lia. by rewrite (proj2 (Z.eqb_neq k i)). }
  rewrite T in *. by destruct (Z.testbit L k).
Qed.

(** The word-wise comparison compares characters. *)
Lemma equal8_spec a b n :
  (n <= length a)%nat -> (n <= length b)%nat -> Forall (in_range 8) a -> Forall (in_range 8) b ->
  equal8 a b (Z.of_nat n) = Ok (bool_decide (take n a = take n b)).
Proof.
  intros La Lb Fa Fb. unfold equal8. set (L := Z.of_nat n).
  set (d := Z.to_nat (Z.shiftr L 3)).
  pose (m4 := if Z.land L 4 =? 0 then 0%nat else Z.to_nat 4).
  pose (m2 := if Z.land L 2 =? 0 then 0%nat else Z.to_nat 2).
  pose (m1 := if Z.land L 1 =? 0 then 0%nat else Z.to_nat 1).
  assert (Hn : n = (8 * d + (m4 + (m2 + m1)))%nat).
  { pose proof (length_bits L ltac:(lia)). pose proof (Z.shiftr_nonneg L 3).
    pose proof (length_bit_nat L 4); pose proof (length_bit_nat L 2); pose proof (length_bit_nat L 1). lia. }
  destruct (equal_words_spec d a b) as (a' & b' & -> & E'); try lia; try done. cbn [mbind res_bind].
  destruct (decide (take (8 * d) a = take (8 * d) b)) as [E|E].
  2:{ rewrite (bool_decide_true (_ <> _)) by done. rewrite bool_decide_false; [done|].
      rewrite (take_block a b (8 * d)) by lia. tauto. }
  rewrite (bool_decide_false (_ <> _)) by tauto. destruct (E' E) as [-> ->].
  rewrite Hn, equal_block, (bool_decide_true (take (8 * d) a = _)) by done. cbn [andb].
  apply equal_tail_step; try done; try by apply Forall_drop. 1,2: unfold zlen; rewrite length_drop; lia. rewrite !drop_drop.
  apply equal_tail_step; try done; try by apply Forall_drop. 1,2: unfold zlen; rewrite length_drop; lia. rewrite !drop_drop.
  rewrite <- (Nat.add_0_r m1).
  apply equal_tail_step; try done; try by apply Forall_drop. 1,2: unfold zlen; rewrite length_drop; lia.
Qed.

(** ** Searching for a character *)

Lemma zlookup_lt {A} (l : list A) i : 0 <= i < zlen l -> exists x, l.[i] = Some x /\ l !! Z.to_nat i = Some x.
Proof.
  intros Hi. unfold zlookup. rewrite (proj2 (Z.leb_le 0 i)) by lia.
  destruct (lookup_lt_is_Some_2 l (Z.to_nat i)) as [x E]; [unfold zlen in *; lia|]. eauto.
Qed.

Lemma find_loop_spec_str fuel s c i :
  0 <= i -> (length s - Z.to_nat i < fuel)%nat ->
  find_loop fuel s c i =
  Ok (match index_of (fun x => x =? c) (drop (Z.to_nat i) s) with Some k => i + Z.of_nat k | None => notFound end).
Proof.
  revert i; induction fuel as [|fuel IH]; intros i Hi Hf; [lia|]. cbn [find_loop].
  destruct (Z.ltb_spec i (zlen s)) as [L|L].
  - destruct (zlookup_lt s i) as (x & -> & E); [lia|]. cbn [or_ub mbind res_bind].
    rewrite (drop_S _ _ _ E). cbn [index_of]. destruct (x =? c); [f_equal; lia|].
    unfold zlen in L. rewrite IH by lia. replace (Z.to_nat (i + 1)) with (S (Z.to_nat i)) by lia.
    destruct (index_of _ _); cbn; f_equal; lia.
  - rewrite drop_ge by (unfold zlen in L; lia). done.
Qed.

Lemma find_char_spec s c i :
  0 <= i ->
  find_char s c i =
  Ok (match index_of (fun x => x =? c) (drop (Z.to_nat i) s) with Some k => i + Z.of_nat k | None => notFound end).
Proof. intros. apply find_loop_spec_str; lia. Qed.

Lemma index_of_Some p l k :
  index_of p l = Some k -> exists pre c post, l = pre ++ c :: post /\ length pre = k /\ p c = true /\
    Forall (fun x => p x = false) pre.
Proof.
  revert k; induction l as [|x l IH]; intros k; cbn; [done|]. destruct (p x) eqn:E.
  - intros [= <-]. by exists [], x, l.
  - destruct (index_of p l) as [j|]; [|done]. intros [= <-].
    destruct (IH j eq_refl) as (pre & c & post & -> & <- & Hc & F). exists (x :: pre), c, post. auto.
Qed.

Lemma index_of_None p l : index_of p l = None <-> Forall (fun x => p x = false) l.
Proof.
  induction l as [|x l IH]; cbn; [done|]. rewrite Forall_cons. destruct (p x) eqn:E; [naive_solver|].
  rewrite <- IH. destruct (index_of p l); naive_solver.
Qed.

Lemma index_of_app p pre c post :
  p c = true -> Forall (fun x => p x = false) pre -> index_of p (pre ++ c :: post) = Some (length pre).
Proof. intros Hc. induction 1 as [|x pre Hx _ IH]; cbn; [by rewrite Hc|]. by rewrite Hx, IH. Qed.

Lemma index_of_lt p l k : index_of p l = Some k -> (k < length l)%nat.
Proof. intros (pre & c & post & -> & <- & _)%index_of_Some. rewrite length_app. cbn. lia. Qed.

(** ** Searching for a string *)

Lemma hash_sum (l : list Z) h : foldl (fun hash c => u32 (hash + c)) (u32 h) l = u32 (h + foldr Z.add 0 l).
Proof.
  revert h; induction l as [|c l IH]; intros h; cbn [foldl foldr]; [by rewrite Z.add_0_r|].
  replace (u32 (u32 h + c)) with (u32 (h + c)) by (unfold wrap; by rewrite Zplus_mod_idemp_l).
  rewrite IH. f_equal. lia.
Qed.

(** The window of [n] characters at [i]. *)
Definition window (s : list Z) (i n : nat) : list Z := take n (drop i s).
Definition hash (l : list Z) : Z := u32 (foldr Z.add 0 l).

Lemma running_hash_spec s i n :
  (i + n <= length s)%nat -> running_hash s (Z.of_nat i) (Z.of_nat n) = Ok (hash (window s i n)).
Proof.
  intros. unfold running_hash, mem_read. rewrite !(proj2 (Z.leb_le _ _)) by (unfold zlen; lia).
  cbn [andb mbind res_bind]. rewrite !Nat2Z.id. f_equal. change 0 with (u32 0) at 1. by rewrite hash_sum.
Qed.

Lemma sum_app (l k : list Z) : foldr Z.add 0 (l ++ k) = foldr Z.add 0 l + foldr Z.add 0 k.
Proof. induction l; cbn; lia. Qed.

(** Moving the window by one character adds the sum at one end and takes it off at the other. *)
Lemma window_slide s i n x y :
  s !! i = Some x -> s !! (i + n)%nat = Some y ->
  foldr Z.add 0 (window s (S i) n) = foldr Z.add 0 (window s i n) + y - x.
Proof.
  intros Hx Hy. unfold window.
  assert (E : x :: take n (drop (S i) s) = take n (drop i s) ++ [y]).
  { rewrite (drop_S _ _ _ Hx), <- take_S_r.
    - done.
    - rewrite <- (drop_S _ _ _ Hx). rewrite lookup_drop. done. }
  apply (f_equal (foldr Z.add 0)) in E. rewrite sum_app in E. cbn in E. lia.
Qed.

Lemma hash_slide_up s i n x y :
  s !! i = Some x -> s !! (i + n)%nat = Some y ->
  u32 (u32 (hash (window s i n) + y) - x) = hash (window s (S i) n).
Proof.
  intros Hx Hy. unfold hash. rewrite (window_slide s i n x y) by done. unfold wrap.
  by rewrite Zplus_mod_idemp_l, Zminus_mod_idemp_l.
Qed.

Lemma hash_slide_down s i n x y :
  s !! i = Some x -> s !! (i + n)%nat = Some y ->
  u32 (u32 (hash (window s (S i) n) - y) + x) = hash (window s i n).
Proof.
  intros Hx Hy. unfold hash. rewrite (window_slide s i n x y) by done. unfold wrap.
  rewrite Zminus_mod_idemp_l, Zplus_mod_idemp_l. f_equal. lia.
Qed.

Lemma occurs_window s m k : occurs s m k <-> (k + length m <= length s)%nat /\ window s k (length m) = m.
Proof.
  unfold occurs, window. split.
  - intros (pre & post & -> & <-). rewrite !length_app, drop_app_length, take_app_length. split; [lia|done].
  - intros [L E]. exists (take k s), (drop (k + length m) s). split; [|rewrite length_take; lia].
    rewrite <- E at 1. by rewrite <- drop_drop, take_drop, take_drop.
Qed.

(** The condition of the loops is decided by the characters alone. *)
Lemma mismatch_spec s m i :
  (i + length m <= length s)%nat ->
  mismatch s m (Z.of_nat i) (hash (window s i (length m))) (hash (window m 0 (length m))) =
  Ok (bool_decide (window s i (length m) <> m)).
Proof.
  intros L. unfold mismatch. rewrite Nat2Z.id.
  assert (W : window m 0 (length m) = m) by (unfold window; by rewrite drop_0, firstn_all). rewrite W.
  destruct (Z.eqb_spec (hash (window s i (length m))) (hash m)) as [E|E]; cbn [negb].
  - rewrite str_equal_spec by (rewrite ?length_drop; lia). cbn [mbind res_bind]. rewrite (firstn_all m).
    fold (window s i (length m)). f_equal. rewrite <- bool_decide_not. by apply bool_decide_ext.
  - rewrite bool_decide_true; [done|]. contradict E. by rewrite E.
Qed.

(** The first occurrence at or after [from], the last one at or before [upto]. *)
Definition found_first (s m : list Z) (from : nat) (o : option nat) : Prop :=
  match o with
  | Some k => (from <= k)%nat /\ occurs s m k /\ forall j, (from <= j < k)%nat -> ~ occurs s m j
  | None => forall j, (from <= j)%nat -> ~ occurs s m j
  end.

Definition found_last (s m : list Z) (upto : nat) (o : option nat) : Prop :=
  match o with
  | Some k => (k <= upto)%nat /\ occurs s m k /\ forall j, (k < j <= upto)%nat -> ~ occurs s m j
  | None => forall j, (j <= upto)%nat -> ~ occurs s m j
  end.

(** Positions as the code returns them. *)
Definition position (o : option nat) : Z := match o with Some k => Z.of_nat k | None => notFound end.

Lemma zlookup_nat {A} (l : list A) i x : l !! i = Some x -> l.[Z.of_nat i] = Some x.
Proof. intros E. unfold zlookup. by rewrite (proj2 (Z.leb_le 0 _)), Nat2Z.id by lia. Qed.

Lemma found_first_skip s m i o : ~ occurs s m i -> found_first s m (S i) o -> found_first s m i o.
Proof.
  intros N. destruct o as [k|]; cbn.
  - intros (H1 & H2 & H3). split; [lia|]. split; [done|]. intros j Hj.
    destruct (decide (j = i)) as [->|]; [done|]. apply H3. lia.
  - intros H3 j Hj. destruct (decide (j = i)) as [->|]; [done|]. apply H3. lia.
Qed.

Lemma found_last_skip s m i o : ~ occurs s m (S i) -> found_last s m i o -> found_last s m (S i) o.
Proof.
  intros N. destruct o as [k|]; cbn.
  - intros (H1 & H2 & H3). split; [lia|]. split; [done|]. intros j Hj.
    destruct (decide (j = S i)) as [->|]; [done|]. apply H3. lia.
  - intros H3 j Hj. destruct (decide (j = S i)) as [->|]; [done|]. apply H3. lia.
Qed.

Lemma findInner_loop_spec fuel s m base i :
  (i + length m <= length s)%nat -> (length s - i < fuel)%nat ->
  exists o, found_first s m i o /\
  findInner_loop fuel s m base (Z.of_nat (length s - length m)) (hash (window s i (length m)))
    (hash (window m 0 (length m))) (Z.of_nat i) = Ok (match o with Some k => base + Z.of_nat k | None => notFound end).
Proof.
  revert i; induction fuel as [|fuel IH]; intros i L Hf; [lia|]. cbn [findInner_loop].
  rewrite mismatch_spec by done. cbn [mbind res_bind].
  case_bool_decide as W.
  2:{ exists (Some i). split; [|done]. split; [lia|]. split; [|lia].
      apply occurs_window. split; [done|]. apply dec_stable. tauto. }
  assert (N : ~ occurs s m i) by (rewrite occurs_window; tauto).
  destruct (Z.eqb_spec (Z.of_nat i) (Z.of_nat (length s - length m))) as [E|E].
  - exists None. split; [|done]. intros j Hj (H1 & H2)%occurs_window.
    assert (j = i) as -> by lia. tauto.
  - assert (L' : (i + length m < length s)%nat) by lia.
    destruct (lookup_lt_is_Some_2 s i) as [x Hx]; [lia|].
    destruct (lookup_lt_is_Some_2 s (i + length m)) as [y Hy]; [lia|].
    rewrite (zlookup_nat s i x Hx). unfold zlen. rewrite <- Nat2Z.inj_add, (zlookup_nat _ _ y Hy).
    cbn [or_ub mbind res_bind]. rewrite (hash_slide_up s i (length m) x y) by done.
    replace (Z.of_nat i + 1) with (Z.of_nat (S i)) by lia.
    destruct (IH (S i)) as (o & Ho & ->); [lia..|]. exists o. split; [by apply found_first_skip|done].
Qed.

Lemma reverseFindInner_loop_spec fuel s m i :
  (i + length m <= length s)%nat -> (i < fuel)%nat ->
  exists o, found_last s m i o /\
  reverseFindInner_loop fuel s m (hash (window s i (length m))) (hash (window m 0 (length m))) (Z.of_nat i) =
  Ok (position o).
Proof.
  revert i; induction fuel as [|fuel IH]; intros i L Hf; [lia|]. cbn [reverseFindInner_loop].
  rewrite mismatch_spec by done. cbn [mbind res_bind].
  case_bool_decide as W.
  2:{ exists (Some i). split; [|done]. split; [lia|]. split; [|lia].
      apply occurs_window. split; [done|]. apply dec_stable. tauto. }
  assert (N : ~ occurs s m i) by (rewrite occurs_window; tauto).
  destruct i as [|i].
  - exists None. split; [|done]. intros j Hj. by assert (j = 0%nat) as -> by lia.
  - destruct (lookup_lt_is_Some_2 s i) as [x Hx]; [lia|].
    destruct (lookup_lt_is_Some_2 s (i + length m)) as [y Hy]; [lia|].
    rewrite (proj2 (Z.eqb_neq _ 0)) by lia. cbv zeta.
    replace (Z.of_nat (S i) - 1) with (Z.of_nat i) by lia.
    rewrite (zlookup_nat s i x Hx). unfold zlen. rewrite <- Nat2Z.inj_add, (zlookup_nat _ _ y Hy).
    cbn [or_ub mbind res_bind]. rewrite (hash_slide_down s i (length m) x y) by done.
    destruct (IH i) as (o & Ho & ->); [lia..|]. exists o. split; [by apply found_last_skip|done].
Qed.

Lemma findInner_spec s m base :
  (length m <= length s)%nat -> zlen s <= MaxLength ->
  exists o, found_first s m 0 o /\
  findInner s m base (zlen s) (zlen m) = Ok (match o with Some k => base + Z.of_nat k | None => notFound end).
Proof.
  intros L B. unfold findInner, MaxLength in *. unfold zlen in *.
  rewrite (running_hash_spec s 0), (running_hash_spec m 0) by lia. cbn [mbind res_bind].
  rewrite wrap_small by (cbn -[Z.of_nat]; lia).
  replace (Z.of_nat (length s) - Z.of_nat (length m)) with (Z.of_nat (length s - length m)) by lia.
  apply findInner_loop_spec; lia.
Qed.

(** One character is a string of length one. *)
Lemma occurs_char s c k : occurs s [c] k <-> s !! k = Some c.
Proof.
  unfold occurs. split.
  - intros (pre & post & -> & <-). by apply list_lookup_middle.
  - intros E. exists (take k s), (drop (S k) s). split; [by rewrite <- (take_drop_middle s k c) at 1|].
    apply lookup_lt_Some in E. rewrite length_take. lia.
Qed.

Lemma index_of_first s c from :
  found_first s [c] from ((fun k => (from + k)%nat) <$> index_of (fun x => x =? c) (drop from s)).
Proof.
  destruct (index_of _ _) as [k|] eqn:E; cbn.
  - apply index_of_Some in E as (pre & x & post & E & <- & ->%Z.eqb_eq & F).
    assert (Lk : forall j, s !! (from + j)%nat = (pre ++ c :: post) !! j) by (intros j; by rewrite <- lookup_drop, E).
    split; [lia|]. split; [by rewrite occurs_char, Lk, list_lookup_middle|].
    intros j Hj. rewrite occurs_char. replace j with (from + (j - from))%nat by lia. rewrite Lk.
    rewrite lookup_app_l by lia. intros Hc. eapply Forall_lookup_1 in F; [|done]. by rewrite Z.eqb_refl in F.
  - intros j Hj. rewrite occurs_char. apply index_of_None in E.
    replace j with (from + (j - from))%nat by lia. rewrite <- lookup_drop. intros Hc.
    eapply Forall_lookup_1 in E; [|done]. by rewrite Z.eqb_refl in E.
Qed.

Lemma occurs_bound s m k : occurs s m k -> (k + length m <= length s)%nat.
Proof. by intros [? _]%occurs_window. Qed.

Lemma occurs_nil s k : occurs s [] k <-> (k <= length s)%nat.
Proof. rewrite occurs_window. cbn. rewrite Nat.add_0_r. by split; [intros []|]. Qed.

Lemma occurs_drop s m n k : (n <= length s)%nat -> occurs (drop n s) m k <-> occurs s m (n + k).
Proof. intros. rewrite !occurs_window. unfold window. rewrite length_drop, drop_drop. split; intros []; split; done || lia. Qed.

Lemma found_first_drop s m n o :
  (n <= length s)%nat -> found_first (drop n s) m 0 o -> found_first s m n ((fun k => (n + k)%nat) <$> o).
Proof.
  intros Ln. destruct o as [k|]; cbn.
  - intros (_ & H2 & H3). split; [lia|]. split; [by apply occurs_drop|].
    intros j Hj. replace j with (n + (j - n))%nat by lia. rewrite <- occurs_drop by done. apply H3. lia.
  - intros H3 j Hj. replace j with (n + (j - n))%nat by lia. rewrite <- occurs_drop by done. apply H3. lia.
Qed.

Lemma findCommon_spec s m start :
  zlen s <= MaxLength -> exists o, found_first s m start o /\ findCommon s m (Z.of_nat start) = Ok (position o).
Proof.
  intros B. unfold findCommon.
  destruct (decide (length m = 1%nat)) as [L1|L1].
  { destruct m as [|c [|??]]; try done. change (zlen [c] =? 1) with true. change ([c].[0]) with (Some c).
    cbn [or_ub mbind res_bind]. rewrite find_char_spec by lia. rewrite Nat2Z.id. eexists. split; [apply index_of_first|].
    destruct (index_of _ _); cbn; f_equal; lia. }
  unfold zlen in *. rewrite (proj2 (Z.eqb_neq _ 1)) by lia.
  destruct (Z.ltb_spec (Z.of_nat (length s)) (Z.of_nat start)).
  { exists None. split; [|done]. intros j Hj ?%occurs_bound. lia. }
  destruct (Z.eqb_spec (Z.of_nat (length m)) 0).
  { destruct m; [|done]. exists (Some start). split; [|done]. split; [lia|]. split; [|lia].
    apply occurs_nil. lia. }
  destruct (Z.ltb_spec (Z.of_nat (length s) - Z.of_nat start) (Z.of_nat (length m))).
  { exists None. split; [|done]. intros j Hj ?%occurs_bound. lia. }
  rewrite Nat2Z.id.
  destruct (findInner_spec (drop start s) m (Z.of_nat start)) as (o & Ho & E); rewrite ?length_drop;
    [lia|unfold zlen; rewrite length_drop; lia|].
  unfold zlen in E. rewrite length_drop, Nat2Z.inj_sub in E by lia. rewrite E.
  eexists. split; [apply found_first_drop, Ho; lia|]. destruct o; cbn; f_equal; lia.
Qed.

Lemma find_impl_spec s m :
  zlen s <= MaxLength -> exists o, found_first s m 0 o /\ find_impl s m = Ok (position o).
Proof.
  intros B. enough (find_impl s m = findCommon s m 0) as -> by (apply (findCommon_spec s m 0 B)).
  unfold find_impl, findCommon. rewrite drop_0, Z.sub_0_r. pose proof (zlen_nonneg s).
  destruct (Z.eqb_spec (zlen m) 1); [done|]. rewrite (proj2 (Z.ltb_ge (zlen s) 0)) by lia.
  destruct (Z.eqb_spec (zlen m) 0); [|done]. by rewrite (proj2 (Z.ltb_ge _ _)) by lia.
Qed.

Lemma reverseFind_loop_spec fuel s c i :
  (i < length s)%nat -> (i < fuel)%nat ->
  exists o, found_last s [c] i o /\ reverseFind_loop fuel s c (Z.of_nat i) = Ok (position o).
Proof.
  revert i; induction fuel as [|fuel IH]; intros i L Hf; [lia|]. cbn [reverseFind_loop].
  destruct (lookup_lt_is_Some_2 s i L) as [x Hx]. rewrite (zlookup_nat _ _ _ Hx). cbn [or_ub mbind res_bind].
  destruct (Z.eqb_spec x c) as [->|N].
  - exists (Some i). split; [|done]. split; [lia|]. split; [by apply occurs_char|lia].
  - assert (N' : ~ occurs s [c] i) by (rewrite occurs_char; congruence).
    destruct i as [|i].
    + exists None. split; [|done]. intros j Hj. by assert (j = 0%nat) as -> by lia.
    + rewrite (proj2 (Z.eqb_neq _ 0)) by lia. replace (Z.of_nat (S i) - 1) with (Z.of_nat i) by lia.
      destruct (IH i) as (o & Ho & ->); [lia..|]. exists o. split; [by apply found_last_skip|done].
Qed.

(** What is found before the end of the string is found up to any later position. *)
Lemma found_last_end s m i j o :
  (length s - length m <= i)%nat -> (i <= j)%nat -> found_last s m i o -> found_last s m j o.
Proof.
  intros Hi Hj. destruct o as [k|]; cbn.
  - intros (H1 & H2 & H3). split; [lia|]. split; [done|]. intros x Hx.
    destruct (decide (x <= i)%nat); [apply H3; lia|]. intros ?%occurs_bound. lia.
  - intros H3 x Hx. destruct (decide (x <= i)%nat); [apply H3; lia|]. intros O%occurs_bound. lia.
Qed.

Lemma reverseFind_impl_spec s m index :
  zlen s <= MaxLength -> exists o, found_last s m index o /\ reverseFind_impl s m (Z.of_nat index) = Ok (position o).
Proof.
  intros B. unfold reverseFind_impl. unfold zlen in *.
  destruct (Z.eqb_spec (Z.of_nat (length m)) 0) as [E0|N0].
  { destruct m; [|done]. exists (Some (Nat.min index (length s))). split; [|cbn; f_equal; lia].
    split; [lia|]. split; [apply occurs_nil; lia|]. intros j Hj ?%occurs_nil. lia. }
  destruct (Z.eqb_spec (Z.of_nat (length m)) 1) as [E1|N1].
  { destruct m as [|c [|??]]; try (cbn [length] in E1; lia). change ([c].[0]) with (Some c).
    cbn [or_ub mbind res_bind]. unfold reverseFind_char, zlen.
    destruct (Z.eqb_spec (Z.of_nat (length s)) 0) as [E|E].
    { exists None. split; [|done]. intros j Hj O%occurs_bound. cbn in O. lia. }
    destruct (Z.leb_spec (Z.of_nat (length s)) (Z.of_nat index)).
    - replace (Z.of_nat (length s) - 1) with (Z.of_nat (length s - 1)) by lia.
      destruct (reverseFind_loop_spec (S (length s)) s c (length s - 1)) as (o & Ho & ->); [lia..|].
      exists o. split; [|done]. eapply found_last_end, Ho; cbn; lia.
    - apply reverseFind_loop_spec; lia. }
  destruct (Z.ltb_spec (Z.of_nat (length s)) (Z.of_nat (length m))).
  { exists None. split; [|done]. intros j Hj ?%occurs_bound. lia. }
  unfold reverseFindInner.
  replace (Z.min _ _) with (Z.of_nat (Nat.min index (length s - length m))) by lia.
  rewrite running_hash_spec, (running_hash_spec m 0) by lia. cbn [mbind res_bind].
  destruct (reverseFindInner_loop_spec (S (length s)) s m (Nat.min index (length s - length m))) as (o & Ho & ->); [lia..|].
  exists o. split; [|done]. destruct (decide (index <= length s - length m)%nat).
  - by rewrite Nat.min_l in Ho by lia.
  - eapply found_last_end, Ho; lia.
Qed.

(** Searching a string for another one gives the first occurrence at or after
    the start, or the last one, and [notFound] exactly when there is none; the
    running hash, which may wrap around and collide, never changes the answer and
    no character outside of the strings is read. *)
Theorem string_search_correct s m start :
  zlen s <= MaxLength -> Z.of_nat start <= MaxLength ->
  (exists o, find_at (Some s) (Some m) (Z.of_nat start) = Ok (position o) /\ found_first s m start o) /\
  (exists o, find (Some s) (Some m) = Ok (position o) /\ found_first s m 0 o) /\
  (exists o, reverseFind (Some s) (Some m) = Ok (position o) /\ found_last s m (length s) o).
Proof.
  intros B Bs. unfold MaxLength in *. cbn [find_at find reverseFind].
  rewrite wrap_small by (cbn -[Z.of_nat]; lia).
  destruct (findCommon_spec s m start B) as (o & ? & ->), (find_impl_spec s m B) as (o' & ? & ->).
  destruct (reverseFind_impl_spec s m (Z.to_nat MaxLength) B) as (l & Hl & E).
  rewrite Z2Nat.id in E by done. rewrite E. split; [by exists o|]. split; [by exists o'|].
  exists l. split; [done|]. unfold zlen in B.
  assert (length s <= Z.to_nat MaxLength)%nat by (unfold MaxLength; lia).
  destruct l as [k|]; cbn in *.
  - destruct Hl as (? & O & N). pose proof (occurs_bound _ _ _ O). split; [lia|]. split; [done|].
    intros j Hj. apply N. lia.
  - intros j Hj. apply Hl. lia.
Qed.

Lemma string_search_witness :
  (exists o, find_at (Some [97; 98; 97; 98]) (Some [98; 97]) (Z.of_nat 0) = Ok (position o) /\
     found_first [97; 98; 97; 98] [98; 97] 0 o) /\
  find_at (Some [97; 98; 97; 98]) (Some [98; 97]) 0 = Ok 1.
Proof.
  split; [|done]. apply (string_search_correct [97; 98; 97; 98] [98; 97] 0); by vm_compute.
Defined.

(** ** Parts of strings *)

Definition fits (s : list Z) : Prop := zlen s <= MaxLength.

Lemma u32_small z : 0 <= z <= MaxLength + 1 -> u32 z = z.
Proof. intros. apply wrap_small. unfold MaxLength in *. cbn. lia. Qed.

Lemma u32_nat n : Z.of_nat n <= MaxLength + 1 -> u32 (Z.of_nat n) = Z.of_nat n.
Proof. intros. apply u32_small. lia. Qed.

Lemma substring_impl_spec s p n :
  substring_impl s (Z.of_nat p) (Z.of_nat n) = Ok (take n (drop p s)).
Proof.
  unfold substring_impl, zlen. destruct (Z.leb_spec (Z.of_nat (length s)) (Z.of_nat p)).
  { by rewrite drop_ge, take_nil by lia. }
  destruct (Z.leb_spec (Z.of_nat (length s) - Z.of_nat p) (Z.of_nat n)) as [L|L]; cbn [andb].
  - rewrite (take_ge (drop p s)) by (rewrite length_drop; lia).
    destruct (Z.eqb_spec (Z.of_nat p) 0) as [E|E]; [assert (p = 0%nat) as -> by lia; by rewrite drop_0|].
    unfold mem_read, zlen. rewrite !(proj2 (Z.leb_le _ _)) by lia. cbn [andb]. rewrite Nat2Z.id.
    by rewrite take_ge by (rewrite length_drop; lia).
  - unfold mem_read, zlen. rewrite !(proj2 (Z.leb_le _ _)) by lia. cbn [andb]. by rewrite !Nat2Z.id.
Qed.

Lemma substring_spec s p n :
  Z.of_nat p <= MaxLength + 1 -> Z.of_nat n <= MaxLength + 1 ->
  substring (Some s) (Z.of_nat p) (Z.of_nat n) = Ok (Some (take n (drop p s))).
Proof. intros. cbn [substring]. by rewrite !u32_nat, substring_impl_spec by done. Qed.

(** The rest of a string: the default length is no limit. *)
Lemma substring_rest s p :
  fits s -> Z.of_nat p <= MaxLength + 1 -> substring (Some s) (Z.of_nat p) MaxLength = Ok (Some (drop p s)).
Proof.
  intros F Hp. assert (P : 0 <= MaxLength) by done. assert (E := Z2Nat.id MaxLength P).
  set (n := Z.to_nat MaxLength) in *. clearbody n.
  rewrite <- E, substring_spec by lia. rewrite take_ge; [done|].
  rewrite length_drop. unfold fits, zlen in F. lia.
Qed.

Lemma substring_null p n : substring None p n = Ok None.
Proof. done. Qed.

(** ** Splitting *)

Lemma pieces_index p l k : index_of p l = Some k -> pieces p l = take k l :: pieces p (drop (S k) l).
Proof.
  revert k; induction l as [|c l IH]; intros k; [done|]. cbn [index_of pieces].
  destruct (p c); [by intros [= <-]|]. destruct (index_of p l) as [j|]; [|done]. intros [= <-].
  rewrite (IH j eq_refl). done.
Qed.

Lemma pieces_None p l : index_of p l = None -> pieces p l = [l].
Proof.
  induction l as [|c l IH]; [done|]. cbn [index_of pieces].
  destruct (p c); [done|]. destruct (index_of p l); [done|]. by rewrite IH.
Qed.

(** What the loop appends for the rest [l] of the string. *)
Definition split_ref (allowEmptyEntries : bool) (p : Z -> bool) (l : list Z) : list (list Z) :=
  if allowEmptyEntries then pieces p l else words p l.

Lemma split_ref_index allow p l k :
  index_of p l = Some k ->
  split_ref allow p l = (if allow || negb (k =? 0)%nat then [take k l] else []) ++ split_ref allow p (drop (S k) l).
Proof.
  intros E. pose proof (index_of_lt _ _ _ E). unfold split_ref, words. rewrite (pieces_index _ _ _ E).
  destruct allow; [done|]. cbn [List.filter orb].
  destruct l as [|c l]; [cbn in *; lia|]. destruct k as [|k]; done.
Qed.

Lemma split_ref_None allow p l :
  index_of p l = None -> split_ref allow p l = if allow || negb (length l =? 0)%nat then [l] else [].
Proof.
  intros E. unfold split_ref, words. rewrite (pieces_None _ _ E). by destruct allow, l.
Qed.

Lemma split_loop_spec fuel allow find_sep p s start result :
  fits s ->
  (forall i, (i <= length s)%nat ->
     find_sep (Z.of_nat i) = Ok (match index_of p (drop i s) with Some k => Z.of_nat i + Z.of_nat k | None => notFound end)) ->
  (start <= length s)%nat -> (length s - start < fuel)%nat ->
  split_loop fuel allow find_sep 1 (Some s) (Z.of_nat start) result =
  Ok (result ++ (Some <$> split_ref allow p (drop start s))).
Proof.
  intros F Hfind. unfold fits, zlen in F. assert (MaxLength < notFound) as MN by (by vm_compute).
  revert start result; induction fuel as [|fuel IH]; intros start result Hs Hf; [lia|].
  cbn [split_loop]. rewrite Hfind by done. destruct (index_of p (drop start s)) as [k|] eqn:E; cbn [mbind res_bind].
  - pose proof (index_of_lt _ _ _ E) as Lk. rewrite length_drop in Lk.
    rewrite (proj2 (Z.eqb_neq _ notFound)) by lia. cbn [negb].
    rewrite (split_ref_index _ _ _ _ E), drop_drop.
    replace (Z.of_nat start + Z.of_nat k + 1) with (Z.of_nat (start + S k)) by lia.
    rewrite u32_nat by lia.
    replace (Z.of_nat start =? Z.of_nat start + Z.of_nat k) with (k =? 0)%nat
      by (apply eq_bool_prop_intro; rewrite !Is_true_true, Nat.eqb_eq, Z.eqb_eq; lia).
    destruct (allow || _); cbn [mbind res_bind].
    + replace (Z.of_nat start + Z.of_nat k - Z.of_nat start) with (Z.of_nat k) by lia.
      rewrite substring_spec by lia. cbn [mbind res_bind]. rewrite IH by lia.
      by rewrite fmap_app, <- app_assoc.
    + by rewrite IH by lia.
  - rewrite Z.eqb_refl. cbn [negb]. rewrite (split_ref_None _ _ _ E), length_drop. cbn [length_]. unfold zlen.
    replace (Z.of_nat start =? Z.of_nat (length s)) with (length s - start =? 0)%nat
      by (apply eq_bool_prop_intro; rewrite !Is_true_true, Nat.eqb_eq, Z.eqb_eq; lia).
    destruct (allow || _); [|by rewrite app_nil_r]. by rewrite substring_rest by (done || lia).
Qed.

Lemma find_uchar_spec s c i :
  fits s -> (i <= length s)%nat ->
  find_uchar (Some s) c (Z.of_nat i) =
  Ok (match index_of (fun x => x =? c) (drop i s) with Some k => Z.of_nat i + Z.of_nat k | None => notFound end).
Proof.
  intros F L. cbn [find_uchar]. unfold fits, zlen in F. rewrite u32_nat by lia.
  rewrite find_char_spec by lia. by rewrite Nat2Z.id.
Qed.

Lemma split_uchar_spec s c : fits s -> split_uchar (Some s) c = Ok (Some <$> words (fun x => x =? c) s).
Proof.
  intros F. apply (split_loop_spec _ false _ (fun x => x =? c) s 0 []); [done| |lia|cbn; lia].
  intros i Hi. by apply find_uchar_spec.
Qed.

Lemma splitAllowingEmptyEntries_spec s c :
  fits s -> splitAllowingEmptyEntries (Some s) c = Ok (Some <$> pieces (fun x => x =? c) s).
Proof.
  intros F. apply (split_loop_spec _ true _ (fun x => x =? c) s 0 []); [done| |lia|cbn; lia].
  intros i Hi. by apply find_uchar_spec.
Qed.

Lemma split_spec s c : fits s -> split (Some s) (Some [c]) = Ok (Some <$> words (fun x => x =? c) s).
Proof.
  intros F. apply (split_loop_spec _ false _ (fun x => x =? c) s 0 []); [done| |lia|cbn; lia].
  intros i Hi. rewrite <- find_uchar_spec by done. cbn [find_at find_uchar]. unfold findCommon.
  change (zlen [c] =? 1) with true. by change ([c].[0]) with (Some c).
Qed.

Lemma split_null sep : split None sep = Ok [].
Proof. done. Qed.

(** ** Stripping *)

Lemma drop_while_split p l :
  exists x, l = x ++ drop_while p l /\ Forall (fun c => p c = true) x /\
    match drop_while p l with [] => True | d :: _ => p d = false end.
Proof.
  induction l as [|c l (x & E & F & H)]; cbn; [by exists []|].
  destruct (p c) eqn:Hc; [|by exists []]. exists (c :: x). cbn. rewrite <- E. auto.
Qed.

Lemma strip_start_spec fuel p x s' i :
  Forall (fun c => p c = true) x -> match s' with [] => True | d :: _ => p d = false end ->
  (i <= length x)%nat -> (length x - i < fuel)%nat ->
  strip_start fuel p (x ++ s') (Z.of_nat i) (zlen (x ++ s') - 1) = Ok (zlen x).
Proof.
  intros Fx Hs. revert i; induction fuel as [|fuel IH]; intros i Hi Hf; [lia|]. cbn [strip_start].
  unfold zlen. rewrite length_app.
  destruct (decide (i = length x)) as [->|N].
  - destruct s' as [|d s']; cbn [length].
    + rewrite (proj2 (Z.leb_gt _ _)) by lia. done.
    + rewrite (proj2 (Z.leb_le _ _)) by lia. fold (zlen x). rewrite zlookup_app. cbn. by rewrite Hs.
  - rewrite (proj2 (Z.leb_le _ _)) by lia.
    destruct (lookup_lt_is_Some_2 x i) as [c Hc]; [lia|].
    rewrite (zlookup_nat _ i c) by (by apply lookup_app_l_Some). cbn [or_ub mbind res_bind].
    rewrite (Forall_lookup_1 _ _ _ _ Fx Hc). replace (Z.of_nat i + 1) with (Z.of_nat (S i)) by lia.
    unfold zlen in IH. rewrite <- IH with (i := S i) by lia. by rewrite length_app.
Qed.

Lemma strip_end_spec fuel p pre c post k :
  p c = false -> Forall (fun c => p c = true) post -> (k <= length post)%nat -> (length pre + k < fuel)%nat ->
  strip_end fuel p (pre ++ c :: post) (Z.of_nat (length pre + k)) = Ok (zlen pre).
Proof.
  intros Hc Fp. revert fuel; induction k as [|k IH]; intros [|fuel] Hk Hf; try lia; cbn [strip_end].
  - rewrite Nat.add_0_r. destruct (Z.eqb_spec (Z.of_nat (length pre)) 0); cbn [negb]; [done|].
    fold (zlen pre). rewrite zlookup_app. cbn. by rewrite Hc.
  - rewrite (proj2 (Z.eqb_neq _ 0)) by lia. cbn [negb].
    destruct (lookup_lt_is_Some_2 post k) as [d Hd]; [lia|].
    rewrite (zlookup_nat _ _ d).
    2:{ rewrite lookup_app_r by lia. by replace (length pre + S k - length pre)%nat with (S k) by lia. }
    cbn [or_ub mbind res_bind]. rewrite (Forall_lookup_1 _ _ _ _ Fp Hd).
    replace (Z.of_nat (length pre + S k) - 1) with (Z.of_nat (length pre + k)) by lia. apply IH; lia.
Qed.

Lemma stripMatchedCharacters_spec p s : stripMatchedCharacters p s = Ok (trim p s).
Proof.
  unfold stripMatchedCharacters. destruct (Z.eqb_spec (zlen s) 0) as [E|N]; [by destruct s|].
  destruct (drop_while_split p s) as (x & E & Fx & Hs). unfold trim. set (s' := drop_while p s) in *. clearbody s'. subst s.
  rewrite (strip_start_spec _ p x s' 0) by (done || (rewrite ?length_app; lia)).
  cbn [mbind res_bind]. destruct s' as [|d s'].
  { rewrite (proj2 (Z.ltb_lt _ _)); [done|]. rewrite app_nil_r. lia. }
  rewrite (proj2 (Z.ltb_ge _ _)) by (autorewrite with zlen; pose proof (zlen_nonneg s'); lia).
  destruct (drop_while_split p (reverse (d :: s'))) as (y & Ey & Fy & Hy).
  set (w := drop_while p (reverse (d :: s'))) in *. clearbody w.
  apply (f_equal reverse) in Ey. rewrite reverse_involutive, reverse_app in Ey.
  destruct w as [|c w].
  { exfalso. rewrite reverse_nil in Ey. cbn [app] in Ey. assert (In d y) as I.
    { apply list_elem_of_In, elem_of_reverse. rewrite <- Ey. left. }
    apply list_elem_of_In, (list_elem_of_lookup_1 y) in I as [j Hj].
    apply (Forall_lookup_1 _ _ _ _ Fy) in Hj. congruence. }
  rewrite reverse_cons in Ey |- *. rewrite Ey.
  set (pre := reverse w) in *. set (post := reverse y) in *.
  assert (Fp : Forall (fun c => p c = true) post) by (by apply Forall_reverse). clearbody pre post. clear Ey.
  replace (zlen (x ++ (pre ++ [c]) ++ post) - 1) with (Z.of_nat (length (x ++ pre) + length post))
    by (unfold zlen; rewrite !length_app; cbn; lia).
  replace (x ++ (pre ++ [c]) ++ post) with ((x ++ pre) ++ c :: post) by (by rewrite <- !app_assoc).
  rewrite strip_end_spec by (done || lia || (rewrite !length_app; cbn; lia)). cbn [mbind res_bind].
  destruct (_ && _)%bool eqn:B.
  - zb. assert (x = []) as -> by (by destruct x). cbn [app] in *. unfold zlen in *. f_equal.
    assert (post = []) as -> by (apply nil_length_inv; lia). done.
  - replace (zlen (x ++ pre) + 1 - zlen x) with (zlen (pre ++ [c])) by (autorewrite with zlen; lia).
    replace ((x ++ pre) ++ c :: post) with (x ++ (pre ++ [c]) ++ post) by (by rewrite <- !app_assoc).
    apply mem_read_app.
Qed.

Lemma strip_spec p s : strip p (Some s) = Ok (Some (trim p s)).
Proof. cbn [strip]. by rewrite stripMatchedCharacters_spec. Qed.

Lemma stripWhiteSpace_spec `{ICU} s : stripWhiteSpace (Some s) = Ok (Some (trim isSpaceOrNewline s)).
Proof. apply strip_spec. Qed.

(** ** Case *)

Lemma toASCIILower_other c : isASCIIUpper c = false -> toASCIILower c = c.
Proof. intros E. unfold toASCIILower. rewrite E. apply Z.lor_0_r. Qed.

Lemma toASCIILower8_spec c : 0 <= c < 256 -> toASCIILower8 c = Ok (toASCIILower c).
Proof.
  intros Hc. assert (H : forallb (fun c => match toASCIILower8 c with Ok d => d =? toASCIILower c | _ => false end)
    (Z.of_nat <$> seq 0 256) = true) by (by vm_compute).
  rewrite forallb_forall in H. assert (I : In c (Z.of_nat <$> seq 0 256)).
  { apply list_elem_of_In, list_elem_of_fmap. exists (Z.to_nat c). split; [lia|]. apply elem_of_seq. lia. }
  specialize (H c I). destruct (toASCIILower8 c); try done. by apply Z.eqb_eq in H as ->.
Qed.

Lemma convertToASCIILowercase_spec s : convertToASCIILowercase_impl s = toASCIILower <$> s.
Proof.
  unfold convertToASCIILowercase_impl, toASCIILower_from.
  induction s as [|c s IH]; [done|]. cbn [first_upper]. destruct (isASCIIUpper c) eqn:E; [done|].
  cbn [fmap list_fmap]. rewrite (toASCIILower_other c) by done.
  destruct (first_upper s) as [n|]; cbn; congruence.
Qed.

Lemma equalIgnoringASCIICase_spec a b :
  equalIgnoringASCIICase a b = Ok (bool_decide (toASCIILower <$> a = toASCIILower <$> b)).
Proof.
  unfold equalIgnoringASCIICase, zlen. destruct (Z.eqb_spec (Z.of_nat (length a)) (Z.of_nat (length b))) as [E|E].
  - cbn [negb]. apply Nat2Z.inj in E. revert b E; induction a as [|x a IH]; intros [|y b] E; try done.
    cbn [equalIgnoringASCIICase_loop length fmap list_fmap].
    destruct (Z.eqb_spec (toASCIILower x) (toASCIILower y)) as [->|N].
    + rewrite IH by (cbn in E; lia). f_equal. apply bool_decide_ext. split; [by intros ->|by intros [= ->]].
    + rewrite bool_decide_false; [done|]. by intros [= ?].
  - cbn [negb]. rewrite bool_decide_false; [done|]. intros H. apply (f_equal length) in H.
    rewrite !length_fmap in H. lia.
Qed.

Lemma startsWith_spec s m : startsWith s m = Ok (bool_decide (take (length m) s = m)).
Proof.
  unfold startsWith, zlen. destruct (Z.ltb_spec (Z.of_nat (length s)) (Z.of_nat (length m))).
  - rewrite bool_decide_false; [done|]. intros E. apply (f_equal length) in E. rewrite length_take in E. lia.
  - by rewrite str_equal_spec, firstn_all by lia.
Qed.

(** ** Integers *)

(** The number that a list of decimal digits writes, after the digits of [v]. *)
Definition decimal (v : Z) (ds : list Z) : Z := foldl (fun v c => 10 * v + (c - 48)) v ds.

Fixpoint take_while (p : Z -> bool) (l : list Z) : list Z :=
  match l with
  | c :: l => if p c then c :: take_while p l else []
  | [] => []
  end.

(** The sign and the digits at the start of a text, after white space. *)
Definition split_sign (l : list Z) : bool * list Z :=
  match l with
  | c :: l' => if c =? 45 then (true, l') else if c =? 43 then (false, l') else (false, l)
  | [] => (false, [])
  end.

Definition int_prefix `{ICU} (s : list Z) : option (bool * list Z) :=
  let '(negative, l) := split_sign (skip_space s) in
  match take_while isASCIIDigit l with [] => None | ds => Some (negative, ds) end.

Definition digits (ds : list Z) : Prop := Forall (fun c => isASCIIDigit c = true) ds.

Lemma digit_range c : isASCIIDigit c = true -> 0 <= c - 48 <= 9.
Proof. unfold isASCIIDigit. intros. zb. lia. Qed.

Lemma isCharacterAllowedInBase_10 c : isCharacterAllowedInBase c 10 = isASCIIDigit c.
Proof.
  unfold isCharacterAllowedInBase. destruct (isASCIIDigit c) eqn:E.
  - apply digit_range in E. rewrite (proj2 (Z.ltb_ge 127 c)) by lia. apply Z.ltb_lt. lia.
  - destruct (127 <? c); [done|]. destruct (isASCIIAlpha c); [|done]. cbn [Z.ltb Z.compare Pos.compare].
    change (36 <? 10) with false. cbn beta iota zeta.
    destruct (Z.leb_spec 97 c), (Z.ltb_spec c (97 + 10 - 10)), (Z.leb_spec 65 c), (Z.ltb_spec c (65 + 10 - 10));
      cbn; done || lia.
Qed.

Lemma digit_not_space `{ICU} c : isASCIIDigit c = true -> isSpaceOrNewline c = false.
Proof.
  intros D%digit_range. unfold isSpaceOrNewline, isLatin1, isASCIISpace.
  by rewrite (proj2 (Z.leb_le c 255)), (proj2 (Z.leb_gt c 32)) by lia.
Qed.

Lemma decimal_mono v ds : digits ds -> 0 <= v -> v <= decimal v ds.
Proof.
  unfold decimal. intros D. revert v; induction D as [|c ds Hc _ IH]; intros v Hv; cbn [foldl]; [lia|].
  apply digit_range in Hc. etrans; [|apply IH; lia]. lia.
Qed.

Definition int_result (negative : bool) (m : Z) : Z := if negative then - m else m.

(** Reading the digits of an [int]: the value when it fits, no value otherwise. *)
Lemma read_digits_spec negative ds v :
  digits ds -> 0 <= v <= INT_MAX ->
  if decimal v ds <=? INT_MAX then read_digits 32 10 v negative ds = Ok (Some (decimal v ds, []))
  else read_digits 32 10 v negative ds = Ok None \/ read_digits 32 10 v negative ds = UB.
Proof.
  intros D. revert v; induction D as [|c ds Hc D IH]; intros v Hv.
  { cbn. by rewrite (proj2 (Z.leb_le v INT_MAX)) by lia. }
  cbn [read_digits]. rewrite isCharacterAllowedInBase_10, Hc.
  pose proof (digit_range c Hc) as Rc. unfold digitValue. rewrite Hc.
  change (2 ^ (32 - 1) - 1) with 2147483647. change (2147483647 / 10) with 214748364. change (2147483647 mod 10) with 7.
  unfold INT_MAX in *. change (2 ^ 31 - 1) with 2147483647 in *.
  change (decimal v (c :: ds)) with (decimal (10 * v + (c - 48)) ds).
  pose proof (decimal_mono (10 * v + (c - 48)) ds D ltac:(lia)) as M.
  destruct (Z.ltb_spec 214748364 v); cbn [orb].
  { rewrite (proj2 (Z.leb_gt _ _)) by lia. by left. }
  destruct (_ && _)%bool eqn:B.
  { zb. rewrite (proj2 (Z.leb_gt _ _)) by (destruct negative; cbn in *; lia). by left. }
  unfold signed_result. change (2 ^ (32 - 1)) with 2147483648.
  rewrite (proj2 (Z.leb_le (- 2147483648) _)) by lia. cbn [andb].
  destruct (Z.ltb_spec (10 * v + (c - 48)) 2147483648).
  - cbn [mbind res_bind]. apply IH. lia.
  - rewrite (proj2 (Z.leb_gt _ _)) by lia. by right.
Qed.

Lemma read_digits_min v ds :
  digits ds -> 0 <= v <= INT_MAX -> decimal v ds = - INT_MIN -> read_digits 32 10 v true ds = UB.
Proof.
  unfold INT_MIN, INT_MAX. change (- - 2 ^ 31) with 2147483648. change (2 ^ 31 - 1) with 2147483647.
  intros D. revert v; induction D as [|c ds Hc D IH]; intros v Hv E; [cbn in E; lia|].
  cbn [read_digits]. rewrite isCharacterAllowedInBase_10, Hc.
  pose proof (digit_range c Hc) as Rc. unfold digitValue. rewrite Hc.
  change (2 ^ (32 - 1) - 1) with 2147483647. change (2147483647 / 10) with 214748364. change (2147483647 mod 10) with 7.
  change (decimal v (c :: ds)) with (decimal (10 * v + (c - 48)) ds) in E.
  pose proof (decimal_mono (10 * v + (c - 48)) ds D ltac:(lia)) as M. cbn [Z.b2z].
  rewrite (proj2 (Z.ltb_ge 214748364 v)) by lia. cbn [orb].
  destruct (_ && _)%bool eqn:B; [zb; lia|].
  unfold signed_result. change (2 ^ (32 - 1)) with 2147483648.
  rewrite (proj2 (Z.leb_le (- 2147483648) _)) by lia. cbn [andb].
  destruct (Z.ltb_spec (10 * v + (c - 48)) 2147483648); [|done]. cbn [mbind res_bind]. apply IH; [lia|done].
Qed.

Lemma take_while_digits l : digits (take_while isASCIIDigit l).
Proof. unfold digits. induction l as [|c l IH]; cbn; [done|]. destruct (isASCIIDigit c) eqn:E; [by constructor|done]. Qed.

Lemma take_count p l : take (count_while p l) l = take_while p l.
Proof. induction l as [|c l IH]; cbn; [done|]. destruct (p c); cbn; [by rewrite IH|done]. Qed.

Section toInt.
Context `{ICU}.

Lemma skip_space_split s :
  exists sp, s = sp ++ skip_space s /\ length sp = count_while isSpaceOrNewline s /\
    Forall (fun c => isSpaceOrNewline c = true) sp /\
    match skip_space s with [] => True | c :: _ => isSpaceOrNewline c = false end.
Proof.
  induction s as [|c s (sp & E & L & F & N)]; cbn; [by exists []|].
  destruct (isSpaceOrNewline c) eqn:Hc; [|by exists []]. exists (c :: sp). cbn. rewrite <- E, L. auto.
Qed.

Lemma skip_space_app sp l :
  Forall (fun c => isSpaceOrNewline c = true) sp ->
  match l with [] => True | c :: _ => isSpaceOrNewline c = false end -> skip_space (sp ++ l) = l.
Proof.
  intros F Hl. induction F as [|c sp Hc _ IH]; cbn [app skip_space]; [|by rewrite Hc].
  destruct l as [|c l]; [done|]. cbn. by rewrite Hl.
Qed.

Definition integer_chars (l : list Z) : list Z :=
  match l with
  | c :: l' => if (c =? 43) || (c =? 45) then c :: take_while isASCIIDigit l' else take_while isASCIIDigit l
  | [] => []
  end.

(** The characters that are handed to [toIntegralType]. *)
Lemma taken_integer s :
  exists sp, take (lengthOfCharactersAsInteger s) s = sp ++ integer_chars (skip_space s) /\
    Forall (fun c => isSpaceOrNewline c = true) sp.
Proof.
  destruct (skip_space_split s) as (sp & E & L & F & _). exists sp. split; [|done].
  unfold lengthOfCharactersAsInteger. rewrite <- L. set (l := skip_space s) in *. clearbody l. subst s.
  rewrite drop_app_length. destruct l as [|c l].
  { rewrite app_nil_r, drop_all. cbn. by rewrite Nat.add_0_r, firstn_all, app_nil_r. }
  cbn [integer_chars]. destruct (_ || _).
  - replace (drop (S (length sp)) (sp ++ c :: l)) with l
      by (replace (S (length sp)) with (length (sp ++ [c])) by (rewrite length_app; cbn; lia);
          rewrite (cons_middle c sp l), app_assoc; by rewrite drop_app_length).
    rewrite take_app_ge by lia. f_equal.
    replace (S (length sp) + _ - length sp)%nat with (S (count_while isASCIIDigit l)) by lia.
    cbn. by rewrite take_count.
  - rewrite drop_app_length, take_app_ge by lia. f_equal.
    replace (length sp + _ - length sp)%nat with (count_while isASCIIDigit (c :: l)) by lia. apply take_count.
Qed.

Lemma integer_chars_head l : match integer_chars l with [] => True | c :: _ => isSpaceOrNewline c = false end.
Proof.
  destruct l as [|c l]; cbn; [done|]. destruct (Z.eqb_spec c 43) as [->|]; cbn; [done|].
  destruct (Z.eqb_spec c 45) as [->|]; cbn; [done|]. destruct (isASCIIDigit c) eqn:E; [|done].
  by apply digit_not_space.
Qed.

Lemma integer_chars_sign l :
  split_sign (integer_chars l) = (fst (split_sign l), take_while isASCIIDigit (snd (split_sign l))).
Proof.
  destruct l as [|c l]; [done|]. cbn [integer_chars split_sign].
  destruct (Z.eqb_spec c 45) as [->|N5]; [by rewrite orb_true_r|].
  destruct (Z.eqb_spec c 43) as [->|N3]; [done|]. cbn [orb fst snd take_while].
  destruct (isASCIIDigit c) eqn:E; [|done]. cbn.
  by rewrite (proj2 (Z.eqb_neq c 45)), (proj2 (Z.eqb_neq c 43)) by done.
Qed.

(** [toInt] converts the digits after the white space and the sign. *)
Lemma charactersToInt_spec s :
  charactersToInt s =
  match int_prefix s with
  | None => Ok None
  | Some (negative, ds) =>
      r ← read_digits 32 10 0 negative ds;
      match r with
      | None => Ok None
      | Some (value, data) =>
          value ← (if negative : bool then signed_result 32 (- value) else Ok value);
          match skip_space data with [] => Ok (Some value) | _ => Ok None end
      end
  end.
Proof.
  unfold charactersToInt, toIntegralType, int_prefix. destruct (taken_integer s) as (sp & -> & F).
  rewrite skip_space_app by (done || apply integer_chars_head).
  change (match integer_chars (skip_space s) with
    | [] => (false, []) | c :: data' => if c =? 45 then (true, data') else if c =? 43 then (false, data')
      else (false, integer_chars (skip_space s)) end) with (split_sign (integer_chars (skip_space s))).
  rewrite integer_chars_sign. destruct (split_sign (skip_space s)) as [negative l]. cbn [fst snd].
  pose proof (take_while_digits l) as D. destruct (take_while isASCIIDigit l) as [|c ds]; [done|].
  rewrite isCharacterAllowedInBase_10. apply Forall_cons in D as [-> _]. done.
Qed.

Lemma int_prefix_digits s negative ds : int_prefix s = Some (negative, ds) -> digits ds /\ ds <> [].
Proof.
  unfold int_prefix. destruct (split_sign _) as [b l]. pose proof (take_while_digits l) as D.
  destruct (take_while _ l); [done|]. by intros [= _ <-].
Qed.

(** The conversion of a text to an [int] reads white space, a sign and decimal
    digits and ignores what follows; it gives the number that the digits write when
    an [int] other than the smallest can hold it, and fails when there are no digits.
    For a larger magnitude it never gives a value, but for the text of the smallest
    [int] the computation overflows, which is undefined. *)
Theorem toInt_correct s :
  match int_prefix s with
  | None => toInt (Some s) = Ok None
  | Some (negative, ds) =>
      let m := decimal 0 ds in
      if m <=? INT_MAX then toInt (Some s) = Ok (Some (int_result negative m))
      else (forall v, toInt (Some s) <> Ok (Some v)) /\
           (negative = true -> - m = INT_MIN -> toInt (Some s) = UB)
  end.
Proof.
  cbn [toInt]. rewrite charactersToInt_spec. destruct (int_prefix s) as [[negative ds]|] eqn:E; [|done].
  destruct (int_prefix_digits _ _ _ E) as [D _]. cbv zeta.
  pose proof (read_digits_spec negative ds 0 D) as R. unfold INT_MAX in R at 1. specialize (R ltac:(lia)).
  pose proof (decimal_mono 0 ds D ltac:(lia)) as M.
  destruct (Z.leb_spec (decimal 0 ds) INT_MAX) as [L|L].
  - rewrite R. cbn [mbind res_bind skip_space]. destruct negative; [|done]. unfold signed_result, INT_MAX in *.
    change (2 ^ (32 - 1)) with 2147483648. change (2 ^ 31 - 1) with 2147483647 in L.
    by rewrite (proj2 (Z.leb_le _ _)), (proj2 (Z.ltb_lt _ _)) by lia.
  - split; [by destruct R as [-> | ->]|]. intros -> Em.
    rewrite read_digits_min; [done|done|unfold INT_MAX; lia|lia].
Qed.

End toInt.

(** *** Printing *)

Lemma decimal_app v ds c : decimal v (ds ++ [c]) = 10 * decimal v ds + (c - 48).
Proof. unfold decimal. by rewrite foldl_app. Qed.

Lemma number_digits_spec size n p k :
  (1 <= k <= size)%nat -> 0 <= n < 10 ^ Z.of_nat k ->
  exists size' ds, number_digits size n p = Ok (size', ds ++ p) /\ digits ds /\ ds <> [] /\ decimal 0 ds = n /\
    (size' + length ds = size)%nat /\ (length ds <= k)%nat /\ (length ds = 1%nat \/ head ds <> Some 48).
Proof.
  revert n p k; induction size as [|size IH]; intros n p k Hk Hn; [lia|]. cbn [number_digits].
  pose proof (Z.mod_pos_bound n 10 ltac:(lia)) as Hm. pose proof (Z.div_mod n 10 ltac:(lia)) as E.
  assert (Dd : isASCIIDigit (n mod 10 + 48) = true)
    by (unfold isASCIIDigit; by rewrite !(proj2 (Z.leb_le _ _)) by lia).
  destruct (Z.eqb_spec (n / 10) 0) as [Z0|N0].
  - exists size, [n mod 10 + 48]. split; [done|]. split; [by constructor|]. split; [done|].
    split; [cbn; lia|]. cbn [length]. lia.
  - destruct k as [|[|k]]; [lia|exfalso; apply N0, Z.div_small; cbn in Hn; lia|].
    destruct (IH (n / 10) (n mod 10 + 48 :: p) (S k)) as (size' & ds & -> & D & Nn & V & L1 & L2 & Hd).
    + lia.
    + rewrite Nat2Z.inj_succ, Z.pow_succ_r in Hn by lia.
      split; [apply Z.div_pos; lia|apply Z.div_lt_upper_bound; lia].
    + exists size', (ds ++ [n mod 10 + 48]). rewrite <- app_assoc. split; [done|].
      split; [apply Forall_app; split; [done|by constructor]|]. split; [by destruct ds|].
      rewrite decimal_app, V, length_app. cbn [length]. split; [lia|]. split; [lia|]. split; [lia|].
      right. destruct ds as [|c [|c' ds]]; [done| |destruct Hd as [Hd|Hd]; done || by cbn in *].
      cbn in *. intros [= ->]. lia.
Qed.

Lemma take_while_all p l : Forall (fun c => p c = true) l -> take_while p l = l.
Proof. induction 1 as [|c l Hc _ IH]; cbn; [done|]. by rewrite Hc, IH. Qed.

(** The text of an [int]: a sign and digits without leading zeros. *)
Lemma numberToStringSigned_spec n :
  INT_MIN < n <= INT_MAX ->
  exists ds, numberToStringSigned n = Ok ((if n <? 0 then [45] else []) ++ ds) /\
    digits ds /\ decimal 0 ds = Z.abs n /\ (length ds = 1%nat \/ head ds <> Some 48) /\ ds <> [].
Proof.
  unfold INT_MIN, INT_MAX. change (2 ^ 31) with 2147483648. intros Hn.
  destruct (number_digits_spec (4 * 3 + 1) (Z.abs n) [] 10) as (size' & ds & E & D & Nn & V & L1 & L2 & Hd); [lia|lia|].
  rewrite app_nil_r in E. exists ds. split; [|done].
  unfold numberToStringSigned, numberToStringImpl. destruct (Z.ltb_spec n 0) as [L|L].
  - unfold signed_result. change (2 ^ (32 - 1)) with 2147483648.
    rewrite (proj2 (Z.leb_le _ _)), (proj2 (Z.ltb_lt _ _)) by lia. cbn [andb mbind res_bind].
    rewrite wrap_small by (change (2 ^ 32) with 4294967296; lia). replace (- n) with (Z.abs n) by lia. rewrite E.
    cbn [mbind res_bind]. by destruct size' as [|size']; [lia|].
  - rewrite wrap_small by (change (2 ^ 32) with 4294967296; lia). rewrite Z.abs_eq in E by lia. by rewrite E.
Qed.

Lemma toInt_signed `{ICU} n ds :
  INT_MIN < n <= INT_MAX -> digits ds -> ds <> [] -> decimal 0 ds = Z.abs n ->
  charactersToInt ((if n <? 0 then [45] else []) ++ ds) = Ok (Some n).
Proof.
  intros Hn D Nn V. rewrite charactersToInt_spec.
  assert (P : int_prefix ((if n <? 0 then [45] else []) ++ ds) = Some (n <? 0, ds)).
  { destruct (n <? 0); unfold int_prefix.
    - cbn. rewrite take_while_all by done. by destruct ds.
    - destruct ds as [|c ds]; [done|]. pose proof D as [Hc _]%Forall_cons. cbn [app skip_space].
      rewrite (digit_not_space c Hc). apply digit_range in Hc. cbn [split_sign].
      rewrite (proj2 (Z.eqb_neq c 45)), (proj2 (Z.eqb_neq c 43)) by lia. by rewrite take_while_all by done. }
  rewrite P. pose proof (read_digits_spec (n <? 0) ds 0 D) as R.
  unfold INT_MIN, INT_MAX in *. change (2 ^ 31) with 2147483648 in *.
  rewrite V, (proj2 (Z.leb_le (Z.abs n) _)) in R by lia. rewrite R by lia. cbn [mbind res_bind skip_space].
  destruct (Z.ltb_spec n 0) as [L|L]; [|cbn; do 2 f_equal; lia]. unfold signed_result.
  change (2 ^ (32 - 1)) with 2147483648. rewrite (proj2 (Z.leb_le _ _)), (proj2 (Z.ltb_lt _ _)) by lia.
  cbn. do 2 f_equal. lia.
Qed.

(** A number that is printed is read back, for every [int] but the smallest,
    whose printing is undefined. *)
Theorem number_toInt_roundtrip `{ICU} n :
  INT_MIN < n <= INT_MAX -> exists s, number n = Ok (Some s) /\ toInt (Some s) = Ok (Some n).
Proof.
  intros Hn. destruct (numberToStringSigned_spec n Hn) as (ds & E & D & V & _ & Nn).
  unfold number. rewrite E. eexists. split; [done|]. by apply toInt_signed.
Qed.

(** Latin-1 white space only. *)
Definition plain_icu : ICU := {| u_white_space_neutral := fun _ => false |}.

Lemma number_toInt_witness :
  exists s, number (-1204) = Ok (Some s) /\ @toInt plain_icu (Some s) = Ok (Some (-1204)).
Proof. apply number_toInt_roundtrip. by vm_compute. Defined.

End Str.
