(* ===== verification/WtfJson.v ===== *)
(** * JSON values (WTF/wtf/JSONValues.h, JSONValues.cpp)

    The values that the fetcher builds for the results of commands and queries,
    their text and the parser.  A pointer into the text that is parsed is the
    rest of the text; a token lies between two such pointers.  The hash map of an
    object is the list of its entries, new ones at the end; the null [String] is
    the empty bucket of the map, so using it as a key is [UB].

    The numbers are of type [double].  Their printing and parsing is the library
    of WTF/wtf/dtoa: the class [Doubles] stands for it, [DoublesLaws] for what the
    JSON code needs from it. *)

From stdpp Require Import sets.
From S2P Require Import Prelude WtfString.

Local Open Scope cf.

Module Json.
Export Str.

(** ** Numbers *)

Class Doubles := {
  double : Type;
  (** The conversion of an [int]. *)
  double_of_int : Z -> double;
  isfinite : double -> bool;
  (** Whether a number is [-0.0], and [0.0]. *)
  negative_zero : double -> bool;
  positive_zero : double;
  (** The characters that [StringBuilder::appendNumber] appends. *)
  number_text : double -> StringImpl;
  charactersToDouble : StringImpl -> option double }.

Section json.
Context `{ICU} `{Doubles}.

(** ** Values *)

Inductive Value :=
| Null
| Boolean (boolean : bool)
| Double (number : double)
| Integer (number : double)
| Text (string : String)
| Object (m_map : list (StringImpl * Value)) (m_order : list StringImpl)
| Array (m_array : list Value).

Definition create_int (value : Z) : Value := Integer (double_of_int value).
Definition create_string (value : String) : Value := Text value.
Definition Object_create : Value := Object [] [].

(** [HashMap::find] and [HashMap::set] on the entries. *)
Fixpoint map_find {V} (name : StringImpl) (m : list (StringImpl * V)) : option V :=
  match m with
  | [] => None
  | (k, v) :: m => if bool_decide (k = name) then Some v else map_find name m
  end.

Fixpoint map_set {V} (name : StringImpl) (v : V) (m : list (StringImpl * V)) : list (StringImpl * V) :=
  match m with
  | [] => [(name, v)]
  | (k, w) :: m => if bool_decide (k = name) then (k, v) :: m else (k, w) :: map_set name v m
  end.

Fixpoint map_remove {V} (name : StringImpl) (m : list (StringImpl * V)) : list (StringImpl * V) :=
  match m with
  | [] => []
  | (k, w) :: m => if bool_decide (k = name) then m else (k, w) :: map_remove name m
  end.

(** [ObjectBase::setValue]; the other setters call it or have the same body. *)
Definition setValue (object : Value) (name : String) (value : Value) : res Value :=
  match object, name with
  | Object m_map m_order, Some name =>
      let isNewEntry := match map_find name m_map with None => true | Some _ => false end in
      Ok (Object (map_set name value m_map) (if isNewEntry : bool then m_order ++ [name] else m_order))
  | _, _ => UB
  end.

Definition setInteger (object : Value) (name : String) (value : Z) : res Value := setValue object name (create_int value).
Definition setString (object : Value) (name value : String) : res Value := setValue object name (create_string value).

Definition getValue (object : Value) (name : String) : res (option Value) :=
  match object, name with
  | Object m_map _, Some name => Ok (map_find name m_map)
  | _, _ => UB
  end.

Fixpoint remove_first (name : StringImpl) (l : list StringImpl) : list StringImpl :=
  match l with
  | [] => []
  | k :: l => if bool_decide (k = name) then l else k :: remove_first name l
  end.

(** [ObjectBase::remove]. *)
Definition remove (object : Value) (name : String) : res Value :=
  match object, name with
  | Object m_map m_order, Some name => Ok (Object (map_remove name m_map) (remove_first name m_order))
  | _, _ => UB
  end.

Definition pushValue (array value : Value) : res Value :=
  match array with Array l => Ok (Array (l ++ [value])) | _ => UB end.

Definition pushString (array : Value) (value : String) : res Value := pushValue array (create_string value).

(** ** Writing *)

Definition escape_char (codeUnit : Z) : StringImpl :=
  if codeUnit =? 8 then [92; 98]
  else if codeUnit =? 12 then [92; 102]
  else if codeUnit =? 10 then [92; 110]
  else if codeUnit =? 13 then [92; 114]
  else if codeUnit =? 9 then [92; 116]
  else if codeUnit =? 92 then [92; 92]
  else if codeUnit =? 34 then [92; 34]
  else if (32 <=? codeUnit) && (codeUnit <? 127) && negb (codeUnit =? 60) && negb (codeUnit =? 62) then [codeUnit]
  else [92; 117;
        upperNibbleToASCIIHexDigit (u8 (Z.shiftr codeUnit 8)); lowerNibbleToASCIIHexDigit (u8 (Z.shiftr codeUnit 8));
        upperNibbleToASCIIHexDigit (u8 codeUnit); lowerNibbleToASCIIHexDigit (u8 codeUnit)].

Definition escapeString (builder string : StringImpl) : StringImpl :=
  foldl (fun builder codeUnit => builder ++ escape_char codeUnit) builder string.

Definition appendDoubleQuotedString (builder string : StringImpl) : StringImpl :=
  escapeString (builder ++ [34]) string ++ [34].

Definition nullString : StringImpl := [110; 117; 108; 108].
Definition trueString : StringImpl := [116; 114; 117; 101].
Definition falseString : StringImpl := [102; 97; 108; 115; 101].

(** The loop of [ArrayBase::writeJSON] over the writers of its elements. *)
Fixpoint write_elements (first : bool) (writers : list (StringImpl -> res StringImpl)) (output : StringImpl) : res StringImpl :=
  match writers with
  | [] => Ok output
  | w :: writers =>
      output ← w (if first then output else output ++ [44]);
      write_elements false writers output
  end.

(** The loop of [ObjectBase::writeJSON]; an entry of [m_order] that is not in the
    map is a bucket that is not there. *)
Fixpoint write_members (first : bool) (writers : list (StringImpl * (StringImpl -> res StringImpl)))
    (m_order : list StringImpl) (output : StringImpl) : res StringImpl :=
  match m_order with
  | [] => Ok output
  | key :: m_order =>
      w ← or_ub (map_find key writers);
      output ← w (appendDoubleQuotedString (if first then output else output ++ [44]) key ++ [58]);
      write_members false writers m_order output
  end.

Fixpoint writeJSON (v : Value) (output : StringImpl) : res StringImpl :=
  match v with
  | Null => Ok (output ++ nullString)
  | Boolean b => Ok (output ++ if b then trueString else falseString)
  | Text s => Ok (appendDoubleQuotedString output (chars s))
  | Double d | Integer d => Ok (output ++ if isfinite d then number_text d else nullString)
  | Object m_map m_order =>
      output ← write_members true (List.map (fun '(k, v) => (k, writeJSON v)) m_map) m_order (output ++ [123]);
      Ok (output ++ [125])
  | Array l =>
      output ← write_elements true (List.map writeJSON l) (output ++ [91]);
      Ok (output ++ [93])
  end.

Definition toJSONString (v : Value) : res String := r ← writeJSON v []; Ok (Some r).

(** ** Tokens *)

Definition stackLimit : Z := 1000.

Inductive Token :=
| ObjectBegin | ObjectEnd | ArrayBegin | ArrayEnd | TString | TNumber | BoolTrue | BoolFalse | TNull
| ListSeparator | ObjectPairSeparator | Invalid.

(** The loop compares and advances in one expression: on a difference both
    pointers are already past the characters that differ. *)
Fixpoint const_loop (start token : StringImpl) : StringImpl * StringImpl :=
  match start, token with
  | c :: start', t :: token' => if c =? t then const_loop start' token' else (start', token')
  | _, _ => (start, token)
  end.

Definition parseConstToken (start token : StringImpl) : option StringImpl :=
  match const_loop start token with
  | (start, []) => Some start
  | _ => None
  end.

Fixpoint skip_digits (start : StringImpl) : StringImpl :=
  match start with
  | c :: start' => if isASCIIDigit c then skip_digits start' else start
  | [] => []
  end.

Definition readInt (start : StringImpl) (canHaveLeadingZeros : bool) : option StringImpl :=
  match start with
  | [] => None
  | c :: _ =>
      let haveLeadingZero := c =? 48 in
      let rest := skip_digits start in
      let length' := zlen start - zlen rest in
      if length' =? 0 then None
      else if negb canHaveLeadingZeros && (1 <? length') && haveLeadingZero then None
      else Some rest
  end.

Definition parse_exponent (start : StringImpl) : option StringImpl :=
  match start with
  | [] => Some []
  | c :: start' =>
      if (c =? 101) || (c =? 69) then
        match start' with
        | [] => None
        | c :: start'' =>
            if (c =? 45) || (c =? 43)
            then match start'' with [] => None | _ => readInt start'' true end
            else readInt start' true
        end
      else Some start
  end.

Definition parse_fraction (start : StringImpl) : option StringImpl :=
  match start with
  | [] => Some []
  | c :: start' =>
      if c =? 46 then
        rest ← readInt start' true;
        match rest with [] => Some [] | _ => parse_exponent rest end
      else parse_exponent start
  end.

Definition parseNumberToken (start : StringImpl) : option StringImpl :=
  match start with
  | [] => None
  | c :: start' =>
      rest ← readInt (if c =? 45 then start' else start) false;
      parse_fraction rest
  end.

Fixpoint readHexDigits (start : StringImpl) (digits : nat) {struct digits} : option StringImpl :=
  match digits with
  | O => Some start
  | S digits =>
      match start with
      | c :: start => if isASCIIHexDigit c then readHexDigits start digits else None
      | [] => None
      end
  end.

Definition simple_escape (c : Z) : bool :=
  (c =? 92) || (c =? 47) || (c =? 98) || (c =? 102) || (c =? 110) || (c =? 114) || (c =? 116) || (c =? 118) || (c =? 34).

Fixpoint parseStringToken (fuel : nat) (start : StringImpl) : res (option StringImpl) :=
  match fuel with
  | O => NoFuel
  | S fuel =>
      match start with
      | [] => Ok None
      | c :: start =>
          match (c =? 92), start with
          | true, c :: start =>
              if c =? 120 then match readHexDigits start 2 with None => Ok None | Some start => parseStringToken fuel start end
              else if c =? 117 then match readHexDigits start 4 with None => Ok None | Some start => parseStringToken fuel start end
              else if simple_escape c then parseStringToken fuel start
              else Ok None
          | _, _ => if c =? 34 then Ok (Some start) else parseStringToken fuel start
          end
      end
  end.

Definition token_or (t : Token) (r : option StringImpl) (start : StringImpl) : Token * StringImpl * StringImpl :=
  match r with Some end_ => (t, start, end_) | None => (Invalid, start, []) end.

(** [parseToken]: the token, [tokenStart] and [tokenEnd]. *)
Definition parseToken (start : StringImpl) : res (Token * StringImpl * StringImpl) :=
  let start := skip_space start in
  match start with
  | [] => Ok (Invalid, [], [])
  | c :: rest =>
      if c =? 110 then Ok (token_or TNull (parseConstToken start nullString) start)
      else if c =? 116 then Ok (token_or BoolTrue (parseConstToken start trueString) start)
      else if c =? 102 then Ok (token_or BoolFalse (parseConstToken start falseString) start)
      else if c =? 91 then Ok (ArrayBegin, start, rest)
      else if c =? 93 then Ok (ArrayEnd, start, rest)
      else if c =? 44 then Ok (ListSeparator, start, rest)
      else if c =? 123 then Ok (ObjectBegin, start, rest)
      else if c =? 125 then Ok (ObjectEnd, start, rest)
      else if c =? 58 then Ok (ObjectPairSeparator, start, rest)
      else if isASCIIDigit c || (c =? 45) then Ok (token_or TNumber (parseNumberToken start) start)
      else if c =? 34 then r ← parseStringToken (S (length rest)) rest; Ok (token_or TString r start)
      else Ok (Invalid, start, [])
  end.

(** ** Strings in the text *)

Definition simple_unescape (c : Z) : Z :=
  if c =? 98 then 8 else if c =? 102 then 12 else if c =? 110 then 10 else if c =? 114 then 13
  else if c =? 116 then 9 else if c =? 118 then 11 else c.

Fixpoint decodeString_loop (fuel : nat) (start output : StringImpl) : res (option StringImpl) :=
  match fuel with
  | O => NoFuel
  | S fuel =>
      match start with
      | [] => Ok (Some output)
      | c :: start =>
          if negb (c =? 92) then decodeString_loop fuel start (output ++ [c]) else
          match start with
          | [] => Ok None
          | c :: start =>
              if c =? 120 then
                match start with
                | a :: b :: start => decodeString_loop fuel start (output ++ [toASCIIHexValue2 a b])
                | _ => Ok None
                end
              else if c =? 117 then
                match start with
                | a :: b :: c :: d :: start =>
                    decodeString_loop fuel start
                      (output ++ [Z.lor (Z.shiftl (toASCIIHexValue2 a b) 8) (toASCIIHexValue2 c d)])
                | _ => Ok None
                end
              else if simple_escape c then decodeString_loop fuel start (output ++ [simple_unescape c])
              else Ok None
          end
      end
  end.

(** [decodeString] of the characters between [start] and [end]. *)
Definition decodeString (text : StringImpl) : res (option String) :=
  match text with
  | [] => Ok (Some emptyString)
  | _ => r ← decodeString_loop (S (length text)) text [];
         Ok (match r with Some output => Some (Some output) | None => None end)
  end.

(** The characters of a string token between its quotes: from [tokenStart + 1] to
    [tokenEnd - 1]. *)
Definition quoted (tokenStart tokenEnd : StringImpl) : StringImpl :=
  take (length tokenStart - length tokenEnd - 2) (drop 1 tokenStart).

Definition between (tokenStart tokenEnd : StringImpl) : StringImpl :=
  take (length tokenStart - length tokenEnd) tokenStart.

(** ** Parsing *)

(** The value and the rest of the text; [None] is the null pointer. *)
Abbreviation parsed := (option (Value * StringImpl)).

(** After an element: the next token, where a comma must be followed by something
    else than [closing].  [None]: the text is not accepted. *)
Definition after_element (closing : Token -> bool) (start : StringImpl) :
    res (option (Token * StringImpl * StringImpl * StringImpl)) :=
  '(token, tokenStart, tokenEnd) ← parseToken start;
  match token with
  | ListSeparator =>
      let start := tokenEnd in
      '(token, tokenStart, tokenEnd) ← parseToken start;
      if closing token then Ok None else Ok (Some (token, tokenStart, tokenEnd, start))
  | _ => if closing token then Ok (Some (token, tokenStart, tokenEnd, start)) else Ok None
  end.

Definition is_array_end (t : Token) : bool := match t with ArrayEnd => true | _ => false end.
Definition is_object_end (t : Token) : bool := match t with ObjectEnd => true | _ => false end.

(** The two loops of [buildValue] for any function [build] that parses the values. *)
Fixpoint array_loop (fuel : nat) (build : StringImpl -> res parsed)
    (token : Token) (tokenEnd start : StringImpl) (array : Value) : res parsed :=
  match fuel with
  | O => NoFuel
  | S fuel =>
      if is_array_end token then Ok (Some (array, tokenEnd)) else
      node ← build start;
      match node with
      | None => Ok None
      | Some (node, start) =>
          array ← pushValue array node;
          next ← after_element is_array_end start;
          match next with
          | None => Ok None
          | Some (token, _, tokenEnd, start) => array_loop fuel build token tokenEnd start array
          end
      end
  end.

Fixpoint object_loop (fuel : nat) (build : StringImpl -> res parsed)
    (token : Token) (tokenStart tokenEnd : StringImpl) (object : Value) : res parsed :=
  match fuel with
  | O => NoFuel
  | S fuel =>
      if is_object_end token then Ok (Some (object, tokenEnd)) else
      match token with
      | TString =>
          key ← decodeString (quoted tokenStart tokenEnd);
          match key with
          | None => Ok None
          | Some key =>
              '(token, _, tokenEnd) ← parseToken tokenEnd;
              match token with
              | ObjectPairSeparator =>
                  value ← build tokenEnd;
                  match value with
                  | None => Ok None
                  | Some (value, start) =>
                      object ← setValue object key value;
                      next ← after_element is_object_end start;
                      match next with
                      | None => Ok None
                      | Some (token, tokenStart, tokenEnd, _) => object_loop fuel build token tokenStart tokenEnd object
                      end
                  end
              | _ => Ok None
              end
          end
      | _ => Ok None
      end
  end.

(** [depth] runs up to [stackLimit]; [fuel] bounds the nesting and the loops. *)
Fixpoint buildValue (fuel : nat) (start : StringImpl) (depth : Z) : res parsed :=
  match fuel with
  | O => NoFuel
  | S fuel =>
      if stackLimit <? depth then Ok None else
      '(token, tokenStart, tokenEnd) ← parseToken start;
      match token with
      | TNull => Ok (Some (Null, tokenEnd))
      | BoolTrue => Ok (Some (Boolean true, tokenEnd))
      | BoolFalse => Ok (Some (Boolean false, tokenEnd))
      | TNumber =>
          match charactersToDouble (between tokenStart tokenEnd) with
          | None => Ok None
          | Some value => Ok (Some (Double value, tokenEnd))
          end
      | TString =>
          value ← decodeString (quoted tokenStart tokenEnd);
          match value with
          | None => Ok None
          | Some value => Ok (Some (Text value, tokenEnd))
          end
      | ArrayBegin =>
          let start := tokenEnd in
          '(token, _, tokenEnd) ← parseToken start;
          array_loop fuel (fun start => buildValue fuel start (depth + 1)) token tokenEnd start (Array [])
      | ObjectBegin =>
          let start := tokenEnd in
          '(token, tokenStart, tokenEnd) ← parseToken start;
          object_loop fuel (fun start => buildValue fuel start (depth + 1)) token tokenStart tokenEnd Object_create
      | _ => Ok None
      end
  end.

(** [Value::parseJSON]; [None] is the result false. *)
Definition parseJSON (jsonInput : String) : res (option Value) :=
  result ← buildValue (S (length (chars jsonInput))) (chars jsonInput) 0;
  match result with
  | None => Ok None
  | Some (v, tokenEnd) => if forallb isSpaceOrNewline tokenEnd then Ok (Some v) else Ok None
  end.

(** ** Induction on values *)

Section value_ind.
Variable P : Value -> Prop.
Hypothesis PNull : P Null.
Hypothesis PBoolean : forall b, P (Boolean b).
Hypothesis PDouble : forall d, P (Double d).
Hypothesis PInteger : forall d, P (Integer d).
Hypothesis PText : forall s, P (Text s).
Hypothesis PObject : forall m o, Forall (fun kv => P (snd kv)) m -> P (Object m o).
Hypothesis PArray : forall l, Forall P l -> P (Array l).

Fixpoint value_induction (v : Value) : P v :=
  match v with
  | Null => PNull
  | Boolean b => PBoolean b
  | Double d => PDouble d
  | Integer d => PInteger d
  | Text s => PText s
  | Object m o => PObject m o
      ((fix go (m : list (StringImpl * Value)) : Forall (fun kv => P (snd kv)) m :=
          match m with
          | [] => Forall_nil_2 _
          | kv :: m => Forall_cons_2 _ _ _ (value_induction (snd kv)) (go m)
          end) m)
  | Array l => PArray l
      ((fix go (l : list Value) : Forall P l :=
          match l with [] => Forall_nil_2 _ | v :: l => Forall_cons_2 _ _ _ (value_induction v) (go l) end) l)
  end.
End value_ind.

(** ** Well-formed values and their text *)

Definition code_units (s : StringImpl) : Prop := Forall (in_range 16) s.

(** The map of an object and the order of its keys agree. *)
Fixpoint wf (v : Value) : Prop :=
  match v with
  | Text s => code_units (chars s)
  | Object m o => m.*1 = o /\ NoDup o /\ Forall code_units o /\ Forall id (List.map (fun kv => wf (snd kv)) m)
  | Array l => Forall id (List.map wf l)
  | _ => True
  end.

(** How deep the objects and arrays of a value are nested. *)
Fixpoint height (v : Value) : nat :=
  match v with
  | Object m _ => S (foldr Nat.max 0%nat (List.map (fun kv => height (snd kv)) m))
  | Array l => S (foldr Nat.max 0%nat (List.map height l))
  | _ => O
  end.

(** The number that the text of a number stands for: the sign of a zero is not
    written ([UNIQUE_ZERO] in WTF/wtf/dtoa). *)
Definition written_number (d : double) : double := if negative_zero d then positive_zero else d.

(** The value that the text of a value stands for. *)
Fixpoint meaning (v : Value) : Value :=
  match v with
  | Double d | Integer d => if isfinite d then Double (written_number d) else Null
  | Text s => Text (Some (chars s))
  | Object m o => Object (List.map (fun kv => (fst kv, meaning (snd kv))) m) o
  | Array l => Array (List.map meaning l)
  | v => v
  end.

Definition escaped (s : StringImpl) : StringImpl := flat_map escape_char s.
Definition quote (s : StringImpl) : StringImpl := 34 :: escaped s ++ [34].

Fixpoint commas (l : list StringImpl) : StringImpl :=
  match l with
  | [] => []
  | [x] => x
  | x :: l => x ++ 44 :: commas l
  end.

Fixpoint text (v : Value) : StringImpl :=
  match v with
  | Null => nullString
  | Boolean b => if b then trueString else falseString
  | Double d | Integer d => if isfinite d then number_text d else nullString
  | Text s => quote (chars s)
  | Object m _ => 123 :: commas (List.map (fun kv => quote (fst kv) ++ 58 :: text (snd kv)) m) ++ [125]
  | Array l => 91 :: commas (List.map text l) ++ [93]
  end.

(** *** Operations on objects *)

Lemma map_set_keys {V} name (v : V) m :
  (map_set name v m).*1 = if map_find name m is Some _ then m.*1 else m.*1 ++ [name].
Proof.
  induction m as [|[k w] m IH]; [done|]. cbn. case_bool_decide; [done|]. cbn. rewrite IH.
  by destruct (map_find name m).
Qed.

Lemma map_find_None {V} name (m : list (StringImpl * V)) : map_find name m = None <-> name ∉ m.*1.
Proof.
  induction m as [|[k w] m IH]; cbn; [split; [intros _ []%not_elem_of_nil|done]|].
  rewrite not_elem_of_cons. case_bool_decide; [naive_solver|]. rewrite IH. naive_solver.
Qed.

Lemma map_find_In {V} k (v : V) m : NoDup m.*1 -> (k, v) ∈ m -> map_find k m = Some v.
Proof.
  induction m as [|[k' w] m IH]; cbn; [by intros _ ?%elem_of_nil|].
  intros [N D]%NoDup_cons [E|I]%elem_of_cons.
  - injection E as -> ->. by rewrite bool_decide_true.
  - rewrite bool_decide_false; [by apply IH|]. intros ->. apply N, list_elem_of_fmap. by exists (k, v).
Qed.

Lemma map_set_find {V} name (v : V) m k :
  map_find k (map_set name v m) = if bool_decide (name = k) then Some v else map_find k m.
Proof.
  induction m as [|[k' w] m IH]; cbn; [done|].
  destruct (decide (k' = name)) as [->|N].
  - rewrite (bool_decide_true (name = name)) by done. cbn. by case_bool_decide.
  - rewrite (bool_decide_false (k' = name)) by done. cbn. rewrite IH. do 2 case_bool_decide; try done. congruence.
Qed.

(** *** Writing *)

Lemma escapeString_app out s : escapeString out s = out ++ escaped s.
Proof.
  unfold escapeString, escaped. revert out; induction s as [|c s IH]; intros out; cbn; [by rewrite app_nil_r|].
  by rewrite IH, <- app_assoc.
Qed.

Lemma appendDoubleQuotedString_app out s : appendDoubleQuotedString out s = out ++ quote s.
Proof. unfold appendDoubleQuotedString, quote. rewrite escapeString_app. by rewrite <- !app_assoc. Qed.

(** [w] appends the text [x]. *)
Definition appends (w : StringImpl -> res StringImpl) (x : StringImpl) : Prop := forall out, w out = Ok (out ++ x).

Lemma commas_cons x l : commas (x :: l) = x ++ (if l is [] then [] else 44 :: commas l).
Proof. destruct l; cbn; [by rewrite app_nil_r|done]. Qed.

Lemma write_elements_spec first ws xs out :
  Forall2 appends ws xs ->
  write_elements first ws out = Ok (out ++ (if xs is [] then [] else if first then commas xs else 44 :: commas xs)).
Proof.
  intros F. revert first out; induction F as [|w x ws xs Hw _ IH]; intros first out; cbn [write_elements].
  { by rewrite app_nil_r. }
  rewrite Hw. cbn [mbind res_bind]. rewrite IH, commas_cons.
  destruct first, xs; rewrite ?app_nil_r, <- ?app_assoc; done.
Qed.

Lemma write_members_spec first ws m out :
  (forall k x, (k, x) ∈ m -> exists w, map_find k ws = Some w /\ appends w x) ->
  write_members first ws m.*1 out =
  Ok (out ++ (let xs := List.map (fun kv => quote (fst kv) ++ 58 :: snd kv) m in
              if xs is [] then [] else if first then commas xs else 44 :: commas xs)).
Proof.
  revert first out; induction m as [|[k x] m IH]; intros first out Hm; cbn [write_members fmap list_fmap List.map fst snd].
  { by rewrite app_nil_r. }
  destruct (Hm k x) as (w & -> & Hw); [left|]. cbn [or_ub mbind res_bind].
  rewrite Hw, appendDoubleQuotedString_app. cbn [mbind res_bind]. rewrite IH by (intros; apply Hm; by right).
  cbv zeta. rewrite commas_cons. destruct first, m; cbn [List.map]; rewrite ?app_nil_r, <- ?app_assoc; done.
Qed.

Lemma map_find_fmap {V W} (f : V -> W) k (m : list (StringImpl * V)) :
  map_find k (List.map (fun '(k, v) => (k, f v)) m) = f <$> map_find k m.
Proof. induction m as [|[k' v] m IH]; cbn; [done|]. by case_bool_decide. Qed.

Lemma Forall_id_map {A} (P : A -> Prop) l : Forall id (List.map P l) <-> Forall P l.
Proof. induction l as [|x l IH]; cbn; [by split; constructor|]. by rewrite !Forall_cons, IH. Qed.

(** The text of a well-formed value is written, whatever was written before. *)
Lemma writeJSON_text v : wf v -> appends (writeJSON v) (text v).
Proof.
  induction v as [|b|d|d|s|m o IH|l IH] using value_induction; intros Hv out; cbn [writeJSON text]; try done.
  - by rewrite appendDoubleQuotedString_app.
  - cbn [wf] in Hv. destruct Hv as (<- & D & _ & W).
    rewrite (Forall_id_map (fun kv => wf (snd kv))) in W.
    assert (E : m.*1 = (List.map (fun kv => (fst kv, text (snd kv))) m).*1).
    { clear. induction m as [|[k v] m IH]; cbn; [done|]. by rewrite <- IH. }
    rewrite E at 1. rewrite write_members_spec.
    + cbn [mbind res_bind]. f_equal. rewrite List.map_map. cbv zeta. cbn [fst snd].
      destruct m as [|kv m]; cbn [List.map]; rewrite <- !app_assoc; done.
    + intros k x ([k' v] & Ek & I)%list_elem_of_fmap. cbn in Ek. injection Ek as -> ->.
      exists (writeJSON v). rewrite map_find_fmap, (map_find_In k' v m) by done. split; [done|].
      rewrite Forall_forall in IH, W. exact (IH (k', v) I (W (k', v) I)).
  - cbn [wf] in Hv. rewrite Forall_id_map in Hv.
    rewrite (write_elements_spec true _ (List.map text l)).
    + cbn [mbind res_bind]. f_equal. destruct l; cbn [List.map]; rewrite <- !app_assoc; done.
    + change (Forall2 appends (writeJSON <$> l) (text <$> l)). rewrite Forall2_fmap. apply Forall_Forall2_diag.
      apply Forall_forall. intros v I. rewrite Forall_forall in IH, Hv. auto.
Qed.

(** *** String tokens *)

Lemma hex_byte b : in_range 8 b ->
  isASCIIHexDigit (upperNibbleToASCIIHexDigit b) = true /\ isASCIIHexDigit (lowerNibbleToASCIIHexDigit b) = true /\
  toASCIIHexValue2 (upperNibbleToASCIIHexDigit b) (lowerNibbleToASCIIHexDigit b) = b.
Proof.
  intros R. unfold in_range in R. change (2 ^ 8) with 256 in R.
  assert (T : forallb (fun b => isASCIIHexDigit (upperNibbleToASCIIHexDigit b) &&
    isASCIIHexDigit (lowerNibbleToASCIIHexDigit b) &&
    (toASCIIHexValue2 (upperNibbleToASCIIHexDigit b) (lowerNibbleToASCIIHexDigit b) =? b))%bool (Z.of_nat <$> seq 0 256) = true)
    by (by vm_compute).
  rewrite forallb_forall in T. assert (I : In b (Z.of_nat <$> seq 0 256)).
  { apply list_elem_of_In, list_elem_of_fmap. exists (Z.to_nat b). split; [lia|]. apply elem_of_seq. lia. }
  apply T in I. zb. auto.
Qed.

Lemma code_unit_bytes c : in_range 16 c ->
  in_range 8 (u8 (Z.shiftr c 8)) /\ in_range 8 (u8 c) /\ Z.lor (Z.shiftl (u8 (Z.shiftr c 8)) 8) (u8 c) = c.
Proof.
  intros R. unfold in_range in R. change (2 ^ 16) with 65536 in R.
  split; [by apply wrap_range|]. split; [by apply wrap_range|].
  rewrite Z.shiftr_div_pow2 by lia. change (2 ^ 8) with 256.
  rewrite lor_shiftl_add; [|lia|apply (wrap_range 8 c); lia]. unfold wrap. change (2 ^ 8) with 256.
  rewrite (Z.mod_small (c / 256)) by (split; [apply Z.div_pos; lia|apply Z.div_lt_upper_bound; lia]).
  pose proof (Z.div_mod c 256). lia.
Qed.

(** What an escaped character is to the two loops over a string token. *)
Lemma escape_char_cases c : in_range 16 c ->
  (escape_char c = [c] /\ c <> 92 /\ c <> 34) \/
  (exists e, escape_char c = [92; e] /\ simple_escape e = true /\ simple_unescape e = c /\ e <> 120 /\ e <> 117) \/
  (exists a b d e, escape_char c = [92; 117; a; b; d; e] /\ isASCIIHexDigit a = true /\ isASCIIHexDigit b = true /\
     isASCIIHexDigit d = true /\ isASCIIHexDigit e = true /\
     Z.lor (Z.shiftl (toASCIIHexValue2 a b) 8) (toASCIIHexValue2 d e) = c).
Proof.
  intros R. unfold escape_char.
  destruct (Z.eqb_spec c 8) as [->|]; [right; left; by exists 98|].
  destruct (Z.eqb_spec c 12) as [->|]; [right; left; by exists 102|].
  destruct (Z.eqb_spec c 10) as [->|]; [right; left; by exists 110|].
  destruct (Z.eqb_spec c 13) as [->|]; [right; left; by exists 114|].
  destruct (Z.eqb_spec c 9) as [->|]; [right; left; by exists 116|].
  destruct (Z.eqb_spec c 92) as [->|]; [right; left; by exists 92|].
  destruct (Z.eqb_spec c 34) as [->|]; [right; left; by exists 34|].
  destruct (_ && _)%bool; [by left|]. right; right.
  destruct (code_unit_bytes c R) as (Rh & Rl & E).
  destruct (hex_byte _ Rh) as (H1 & H2 & H3), (hex_byte _ Rl) as (H4 & H5 & H6).
  eexists _, _, _, _. split; [done|]. rewrite H3, H6. auto.
Qed.

Lemma parseStringToken_char fuel c rest :
  in_range 16 c -> parseStringToken (S fuel) (escape_char c ++ rest) = parseStringToken fuel rest.
Proof.
  intros R. destruct (escape_char_cases c R) as [(-> & N & N')|[(e & -> & S & _ & N & N')|(a & b & d & e & -> & A & B & D & E & _)]].
  - cbn. by rewrite (proj2 (Z.eqb_neq c 92)), (proj2 (Z.eqb_neq c 34)) by done.
  - cbn [app parseStringToken]. change (92 =? 92) with true. cbn iota beta.
    by rewrite (proj2 (Z.eqb_neq e 120)), (proj2 (Z.eqb_neq e 117)), S by done.
  - cbn [app parseStringToken]. change (92 =? 92) with true. change (117 =? 120) with false.
    change (117 =? 117) with true. cbn iota. cbn [readHexDigits]. by rewrite A, B, D, E.
Qed.

Lemma parseStringToken_escaped s r fuel :
  code_units s -> (length s < fuel)%nat -> parseStringToken fuel (escaped s ++ 34 :: r) = Ok (Some r).
Proof.
  intros F. revert fuel; induction F as [|c s Hc _ IH]; intros [|fuel] L; cbn [length] in L; try lia; [done|].
  cbn [escaped flat_map]. rewrite <- app_assoc, parseStringToken_char by done. apply IH. lia.
Qed.

Lemma decodeString_char fuel c rest out :
  in_range 16 c -> decodeString_loop (S fuel) (escape_char c ++ rest) out = decodeString_loop fuel rest (out ++ [c]).
Proof.
  intros R. destruct (escape_char_cases c R) as [(-> & N & N')|[(e & -> & S & U & N & N')|(a & b & d & e & -> & _ & _ & _ & _ & E)]].
  - cbn. by rewrite (proj2 (Z.eqb_neq c 92)) by done.
  - cbn [app decodeString_loop]. change (92 =? 92) with true. cbn [negb].
    by rewrite (proj2 (Z.eqb_neq e 120)), (proj2 (Z.eqb_neq e 117)), S, U by done.
  - cbn [app decodeString_loop]. change (92 =? 92) with true. cbn [negb]. change (117 =? 120) with false.
    change (117 =? 117) with true. cbn iota. by rewrite E.
Qed.

Lemma decodeString_escaped s : code_units s -> decodeString (escaped s) = Ok (Some (Some s)).
Proof.
  intros F. assert (G : forall fuel out, (length s < fuel)%nat -> decodeString_loop fuel (escaped s) out = Ok (Some (out ++ s))).
  { induction F as [|c s Hc _ IH]; intros [|fuel] out L; cbn [length] in L; try lia; [by rewrite app_nil_r|].
    cbn [escaped flat_map]. rewrite decodeString_char, IH by (done || lia). by rewrite <- app_assoc. }
  unfold decodeString. destruct (escaped s) as [|e es] eqn:E.
  - destruct F as [|c s Hc _]; [done|]. cbn in E. by destruct (escape_char_cases c Hc) as [(R & _)|[(? & R & _)|(?&?&?&?&R&_)]]; rewrite R in E.
  - rewrite G; [done|]. rewrite <- E. clear. unfold escaped.
    induction s as [|c s IH]; cbn; [lia|]. rewrite length_app.
    assert (1 <= length (escape_char c))%nat by (unfold escape_char; repeat case_match; cbn; lia). cbn in *. lia.
Qed.

(** *** Parsing what was written *)

(** What may follow a value in a text. *)
Definition delimited (r : StringImpl) : Prop :=
  match r with [] => True | c :: _ => c = 44 \/ c = 93 \/ c = 125 end.

End json.

(** What the code relies on: the text of a finite number is a number token that is
    read back, a negative zero as the positive one. *)
Class DoublesLaws `{Doubles} := {
  number_text_head d : isfinite d = true -> exists c rest, number_text d = c :: rest /\ (isASCIIDigit c || (c =? 45)) = true;
  number_text_token d r : isfinite d = true -> delimited r -> parseNumberToken (number_text d ++ r) = Some r;
  number_text_value d : isfinite d = true -> charactersToDouble (number_text d) = Some (written_number d) }.

Section parse.
Context `{ICU} `{DoublesLaws}.

Lemma skip_space_head c l : isSpaceOrNewline c = false -> skip_space (c :: l) = c :: l.
Proof. intros E. cbn. by rewrite E. Qed.

Lemma parseToken_quote s r : code_units s -> parseToken (quote s ++ r) = Ok (TString, quote s ++ r, r).
Proof.
  intros F. unfold parseToken, quote. cbn [app]. rewrite skip_space_head by done.
  change (34 =? 34) with true. cbn -[parseStringToken].
  rewrite <- app_assoc. cbn [app]. rewrite parseStringToken_escaped; [done|done|].
  rewrite length_app. cbn. enough (length s <= length (escaped s))%nat by lia. clear.
  unfold escaped. induction s as [|c s IH]; cbn; [lia|]. rewrite length_app.
  assert (1 <= length (escape_char c))%nat by (unfold escape_char; repeat case_match; cbn; lia). lia.
Qed.

Lemma quoted_quote s r : quoted (quote s ++ r) r = escaped s.
Proof.
  unfold quoted, quote. cbn [app skipn]. rewrite <- app_assoc.
  replace (_ - _ - _)%nat with (length (escaped s)) by (cbn; rewrite length_app; cbn; lia).
  by rewrite drop_0, take_app_length.
Qed.

Lemma between_app x r : between (x ++ r) r = x.
Proof. unfold between. rewrite length_app. by replace (length x + length r - length r)%nat with (length x) by lia; rewrite take_app_length. Qed.

Lemma parseConstToken_app tok r : parseConstToken (tok ++ r) tok = Some r.
Proof.
  unfold parseConstToken. enough (const_loop (tok ++ r) tok = (r, [])) as -> by done.
  induction tok as [|c tok IH]; cbn; [by destruct r|]. by rewrite Z.eqb_refl.
Qed.

Lemma parseToken_number d r :
  isfinite d = true -> delimited r -> parseToken (number_text d ++ r) = Ok (TNumber, number_text d ++ r, r).
Proof.
  intros F D. pose proof (number_text_token d r F D) as T.
  destruct (number_text_head d F) as (c & rest & E & Hc). rewrite E in *. cbn [app] in *.
  assert (Rc : 48 <= c <= 57 \/ c = 45).
  { unfold isASCIIDigit in Hc. apply orb_true_iff in Hc as [?|?]; zb; lia. }
  unfold parseToken. rewrite skip_space_head.
  2:{ destruct Rc as [Rc | ->]; [|done]. apply digit_not_space. unfold isASCIIDigit. by rewrite !(proj2 (Z.leb_le _ _)) by lia. }
  repeat match goal with |- context [if c =? ?k then _ else _] => rewrite (proj2 (Z.eqb_neq c k)) by lia end.
  by rewrite Hc, T.
Qed.

(** The token that a value starts with. *)
Definition starts_value (t : Token) : Prop :=
  match t with ArrayEnd | ObjectEnd | ListSeparator | ObjectPairSeparator | Invalid => False | _ => True end.

Lemma parseToken_null r : parseToken (nullString ++ r) = Ok (TNull, nullString ++ r, r).
Proof. by destruct r. Qed.

Lemma parseToken_bool b r :
  parseToken ((if b : bool then trueString else falseString) ++ r) =
  Ok (if b then BoolTrue else BoolFalse, (if b then trueString else falseString) ++ r, r).
Proof. by destruct b, r. Qed.

Lemma text_token v r :
  wf v -> delimited r -> exists t e, parseToken (text v ++ r) = Ok (t, text v ++ r, e) /\ starts_value t.
Proof.
  intros W D. destruct v as [|b|d|d|s|m o|l]; cbn [text].
  - rewrite parseToken_null. by eexists _, _.
  - rewrite parseToken_bool. by destruct b; eexists _, _.
  - destruct (isfinite d) eqn:F; [rewrite parseToken_number by done|rewrite parseToken_null]; by eexists _, _.
  - destruct (isfinite d) eqn:F; [rewrite parseToken_number by done|rewrite parseToken_null]; by eexists _, _.
  - rewrite parseToken_quote by done. by eexists _, _.
  - cbn [app]. eexists _, _. split; [reflexivity|done].
  - cbn [app]. eexists _, _. split; [reflexivity|done].
Qed.

(** [build] parses each of the values [vs] up to their delimiter. *)
Definition parses (build : StringImpl -> res (option (Value * StringImpl))) (v : Value) : Prop :=
  forall r, delimited r -> build (text v ++ r) = Ok (Some (meaning v, r)).

Lemma parseToken_punctuation c t r :
  In (c, t) [(91, ArrayBegin); (93, ArrayEnd); (44, ListSeparator); (123, ObjectBegin); (125, ObjectEnd); (58, ObjectPairSeparator)] ->
  parseToken (c :: r) = Ok (t, c :: r, r).
Proof. cbn. intros I. destruct_or! I; by injection I as <- <-. Qed.

Lemma elements_token v l r :
  wf v -> exists t s e, parseToken (commas (List.map text (v :: l)) ++ 93 :: r) = Ok (t, s, e) /\ starts_value t.
Proof.
  intros W. cbn [List.map]. rewrite commas_cons, <- app_assoc.
  destruct (text_token v ((if List.map text l is [] then [] else 44 :: commas (List.map text l)) ++ 93 :: r) W)
    as (t & e & E & S); [destruct l; cbn; auto|]. rewrite E. eauto.
Qed.

Lemma array_loop_spec fuel build t e l acc r :
  Forall wf l -> Forall (parses build) l -> (length l < fuel)%nat ->
  (l = [] -> t = ArrayEnd /\ e = r) -> (l <> [] -> starts_value t) ->
  array_loop fuel build t e (commas (List.map text l) ++ 93 :: r) (Array acc) =
  Ok (Some (Array (acc ++ List.map meaning l), r)).
Proof.
  intros W P. revert fuel t e acc. induction P as [|v l Hv _ IH]; intros [|fuel] t e acc L T E; cbn [length] in L; try lia.
  - destruct T as [-> ->]; [done|]. cbn. by rewrite app_nil_r.
  - apply Forall_cons in W as [Wv W]. cbn [array_loop].
    assert (is_array_end t = false) as -> by (destruct t; try done; by destruct E).
    cbn [List.map]. rewrite commas_cons, <- app_assoc.
    rewrite Hv by (destruct l; cbn; auto). cbn [mbind res_bind pushValue].
    unfold after_element. destruct l as [|v' l].
    + cbn [List.map app]. rewrite (parseToken_punctuation 93 ArrayEnd) by (cbn; auto). cbn [mbind res_bind is_array_end].
      destruct fuel; [lia|]. done.
    + change (if List.map text (v' :: l) is [] then [] else 44 :: commas (List.map text (v' :: l)))
        with (44 :: commas (List.map text (v' :: l))). cbn [app].
      rewrite (parseToken_punctuation 44 ListSeparator) by (cbn; auto). cbn [mbind res_bind].
      destruct (elements_token v' l r) as (t' & s' & e' & -> & S); [by apply Forall_cons in W as []|].
      cbn [mbind res_bind]. assert (is_array_end t' = false) as -> by (by destruct t').
      cbn [mbind res_bind]. rewrite (IH W) by (done || lia). by rewrite <- app_assoc.
Qed.

(** *** Members of an object *)

Definition member (kv : StringImpl * Value) : StringImpl := quote (fst kv) ++ 58 :: text (snd kv).

Definition meanings (m : list (StringImpl * Value)) : list (StringImpl * Value) :=
  List.map (fun kv => (fst kv, meaning (snd kv))) m.

Lemma map_set_new {V} k (v : V) m : k ∉ m.*1 -> map_set k v m = m ++ [(k, v)].
Proof.
  induction m as [|[k' w] m IH]; cbn; [done|]. rewrite not_elem_of_cons. intros [N M].
  rewrite bool_decide_false by done. by rewrite IH.
Qed.

Lemma meanings_keys m : (meanings m).*1 = m.*1.
Proof. induction m as [|[k v] m IH]; cbn; [done|]. unfold meanings in IH. by rewrite IH. Qed.

(** What follows the key of the first of the members [kv :: m]. *)
Definition after_key (v : Value) (m : list (StringImpl * Value)) (r : StringImpl) : StringImpl :=
  58 :: text v ++ (if m is [] then [] else 44 :: commas (List.map member m)) ++ 125 :: r.

Lemma members_token k v m r :
  code_units k ->
  parseToken (commas (List.map member ((k, v) :: m)) ++ 125 :: r) = Ok (TString, quote k ++ after_key v m r, after_key v m r).
Proof.
  intros C. cbn [List.map]. rewrite commas_cons. change (member (k, v)) with (quote k ++ 58 :: text v).
  rewrite <- !app_assoc. cbn [app].
  replace (58 :: text v ++ _) with (after_key v m r) by (unfold after_key; by destruct m).
  by rewrite parseToken_quote.
Qed.

Lemma object_loop_spec fuel build t s e m m0 r :
  Forall (fun kv => wf (snd kv)) m -> Forall (fun kv => code_units (fst kv)) m ->
  Forall (fun kv => parses build (snd kv)) m -> NoDup (m0 ++ m).*1 -> (length m < fuel)%nat ->
  (m = [] -> t = ObjectEnd /\ e = r) ->
  (m <> [] -> parseToken (commas (List.map member m) ++ 125 :: r) = Ok (t, s, e)) ->
  object_loop fuel build t s e (Object (meanings m0) m0.*1) =
  Ok (Some (Object (meanings (m0 ++ m)) (m0 ++ m).*1, r)).
Proof.
  intros W C P. revert fuel t s e m0 W C. induction P as [|[k v] m Hv _ IH]; intros [|fuel] t s e m0 W C D L T E;
    cbn [length] in L; try lia.
  - destruct T as [-> ->]; [done|]. cbn. by rewrite !app_nil_r.
  - apply Forall_cons in W as [Wv W], C as [Ck C]. cbn [fst snd] in *.
    rewrite members_token in E by done. specialize (E ltac:(done)). injection E as <- <- <-.
    cbn [object_loop is_object_end].
    change (34 :: (escaped k ++ [34]) ++ after_key v m r) with (quote k ++ after_key v m r).
    rewrite quoted_quote, decodeString_escaped by done. cbn [mbind res_bind].
    unfold after_key at 1. rewrite (parseToken_punctuation 58 ObjectPairSeparator) by (cbn; auto 10). cbn [mbind res_bind].
    rewrite Hv by (destruct m; cbn; auto). cbn [mbind res_bind setValue].
    assert (N : k ∉ m0.*1).
    { rewrite fmap_app in D. apply NoDup_app in D as (_ & D & _). intros I. apply (D k I). left. }
    rewrite (proj2 (map_find_None k (meanings m0))) by (by rewrite meanings_keys).
    rewrite map_set_new by (by rewrite meanings_keys). cbn [mbind res_bind].
    replace (meanings m0 ++ [(k, meaning v)]) with (meanings (m0 ++ [(k, v)])) by (unfold meanings; by rewrite List.map_app).
    replace (m0.*1 ++ [k]) with ((m0 ++ [(k, v)]).*1) by (by rewrite fmap_app).
    replace (m0 ++ (k, v) :: m) with ((m0 ++ [(k, v)]) ++ m) in * by (by rewrite <- app_assoc).
    unfold after_element. destruct m as [|[k' v'] m].
    + cbn [List.map app]. rewrite (parseToken_punctuation 125 ObjectEnd) by (cbn; auto 10). cbn [mbind res_bind is_object_end].
      destruct fuel; [lia|]. cbn [mbind res_bind object_loop is_object_end]. by rewrite app_nil_r.
    + cbn [app]. rewrite (parseToken_punctuation 44 ListSeparator) by (cbn; auto 10). cbn [mbind res_bind].
      pose proof C as [Ck' _]%Forall_cons. rewrite members_token by done. cbn [mbind res_bind is_object_end].
      cbn [mbind res_bind]. apply IH; try done; try lia. intros _. by apply members_token.
Qed.

Lemma commas_length xs x :
  Forall (fun x => (0 < length x)%nat) xs -> x ∈ xs -> (length x <= length (commas xs))%nat.
Proof.
  induction 1 as [|y ys Hy _ IH]; [by intros ?%elem_of_nil|]. rewrite commas_cons, length_app.
  intros [->|I]%elem_of_cons; [lia|]. destruct ys; [by apply elem_of_nil in I|]. cbn [length]. specialize (IH I). lia.
Qed.

Lemma commas_count xs : Forall (fun x => (0 < length x)%nat) xs -> (length xs <= length (commas xs))%nat.
Proof.
  induction 1 as [|y ys Hy _ IH]; [done|]. rewrite commas_cons, length_app. destruct ys; cbn [length] in *; lia.
Qed.

Lemma text_nonempty v : (0 < length (text v))%nat.
Proof.
  destruct v as [|[]|d|d|s|m o|l]; cbn [text]; try (cbn; lia).
  all: destruct (isfinite d) eqn:F; [|cbn; lia]; destruct (number_text_head d F) as (c & rest & -> & _); cbn; lia.
Qed.

Lemma member_length kv : (length (text (snd kv)) < length (member kv))%nat.
Proof. unfold member. rewrite length_app. cbn. lia. Qed.

Lemma foldr_max_le {A} (f : A -> nat) l x : x ∈ l -> (f x <= foldr Nat.max 0 (List.map f l))%nat.
Proof. induction l as [|y l IH]; cbn; [by intros ?%elem_of_nil|]. intros [->|I]%elem_of_cons; [lia|]. specialize (IH I). lia. Qed.

(** The parser reads the text of a value, whatever delimiter follows. *)
Lemma buildValue_text v fuel depth :
  wf v -> 0 <= depth -> Z.of_nat (height v) + depth <= stackLimit -> (length (text v) < fuel)%nat ->
  parses (fun start => buildValue fuel start depth) v.
Proof.
  revert fuel depth. induction v as [|b|d|d|s|m o IH|l IH] using value_induction; intros [|fuel] depth W Hd Hh L r D;
    try lia; cbn [buildValue]; rewrite (proj2 (Z.ltb_ge stackLimit depth)) by lia; cbn [text meaning].
  - by rewrite parseToken_null.
  - rewrite parseToken_bool. by destruct b.
  - destruct (isfinite d) eqn:F; [|by rewrite parseToken_null]. rewrite parseToken_number by done. cbn [mbind res_bind].
    by rewrite between_app, number_text_value.
  - destruct (isfinite d) eqn:F; [|by rewrite parseToken_null]. rewrite parseToken_number by done. cbn [mbind res_bind].
    by rewrite between_app, number_text_value.
  - rewrite parseToken_quote by done. cbn [mbind res_bind]. by rewrite quoted_quote, decodeString_escaped.
  - cbn [app]. rewrite <- app_assoc. cbn [app].
    rewrite (parseToken_punctuation 123 ObjectBegin) by (cbn; auto 10). cbn [mbind res_bind]. cbv zeta.
    destruct W as (<- & ND & C & W). rewrite (Forall_id_map (fun kv => wf (snd kv))) in W.
    assert (C' : Forall (fun kv : StringImpl * Value => code_units (fst kv)) m) by (exact (proj1 (Forall_fmap fst code_units m) C)).
    change (text (Object m m.*1)) with (123 :: commas (List.map member m) ++ [125]) in L. cbn [height] in Hh.
    assert (Ne : Forall (fun x => (0 < length x)%nat) (List.map member m)).
    { apply Forall_fmap, Forall_forall. intros kv _. cbn. pose proof (member_length kv). lia. }
    pose proof (commas_count _ Ne) as Lc. rewrite List.length_map in Lc.
    cbn [length] in L. rewrite length_app in L. cbn [length] in L.
    assert (P : Forall (fun kv => parses (fun start => buildValue fuel start (depth + 1)) (snd kv)) m).
    { apply Forall_forall. intros kv I. rewrite Forall_forall in IH, W. apply IH; [done|by apply W|lia| |].
      - pose proof (foldr_max_le (fun kv : StringImpl * Value => height (snd kv)) m kv I). cbn in *. lia.
      - pose proof (member_length kv).
        pose proof (commas_length _ (member kv) Ne (proj2 (list_elem_of_fmap _ _ _) (ex_intro _ kv (conj eq_refl I)))). lia. }
    change (List.map (fun kv => quote (fst kv) ++ 58 :: text (snd kv)) m) with (List.map member m).
    destruct m as [|[k v] m].
    + cbn [List.map commas app]. rewrite (parseToken_punctuation 125 ObjectEnd) by (cbn; auto 10). cbn [mbind res_bind].
      by destruct fuel; [lia|].
    + pose proof C' as [Ck _]%Forall_cons. rewrite members_token by done. cbn [mbind res_bind].
      apply (object_loop_spec fuel _ TString _ _ ((k, v) :: m) [] r); try done; [lia|].
      intros _. by apply members_token.
  - cbn [app]. rewrite <- app_assoc. cbn [app].
    rewrite (parseToken_punctuation 91 ArrayBegin) by (cbn; auto 10). cbn [mbind res_bind]. cbv zeta.
    cbn [wf] in W. rewrite Forall_id_map in W. cbn [text] in L. cbn [height] in Hh.
    assert (Ne : Forall (fun x => (0 < length x)%nat) (List.map text l)).
    { apply Forall_fmap, Forall_forall. intros v _. apply text_nonempty. }
    pose proof (commas_count _ Ne) as Lc. rewrite List.length_map in Lc.
    cbn [length] in L. rewrite length_app in L. cbn [length] in L.
    assert (P : Forall (parses (fun start => buildValue fuel start (depth + 1))) l).
    { apply Forall_forall. intros v I. rewrite Forall_forall in IH, W. apply IH; [done|by apply W|lia| |].
      - pose proof (foldr_max_le height l v I). lia.
      - pose proof (commas_length _ (text v) Ne (proj2 (list_elem_of_fmap _ _ _) (ex_intro _ v (conj eq_refl I)))). lia. }
    destruct l as [|v l].
    + cbn [List.map commas app]. rewrite (parseToken_punctuation 93 ArrayEnd) by (cbn; auto 10). cbn [mbind res_bind].
      by destruct fuel; [lia|].
    + pose proof W as [Wv _]%Forall_cons. destruct (elements_token v l r Wv) as (t & s & e & -> & S). cbn [mbind res_bind].
      by apply (array_loop_spec fuel _ t e (v :: l) [] r); try done; lia.
Qed.

Lemma text_parses v :
  wf v -> Z.of_nat (height v) <= stackLimit ->
  toJSONString v = Ok (Some (text v)) /\ parseJSON (Some (text v)) = Ok (Some (meaning v)).
Proof.
  intros W Hh. unfold toJSONString, parseJSON. rewrite (writeJSON_text v W). split; [done|].
  cbn [chars default id from_option]. pose proof (buildValue_text v (S (length (text v))) 0 W) as P.
  specialize (P ltac:(lia) ltac:(lia) ltac:(lia) [] I). rewrite app_nil_r in P. cbv beta in P. by rewrite P.
Qed.

(** C16: the text of a JSON value whose objects and arrays are nested at most 1000
    deep is parsed back to the value, with integers read as doubles, a negative zero as
    zero, numbers that are not finite as null and a null string as the empty one. *)
Theorem json_roundtrip v :
  wf v -> Z.of_nat (height v) <= stackLimit ->
  exists s, toJSONString v = Ok (Some s) /\ parseJSON (Some s) = Ok (Some (meaning v)).
Proof. intros W Hh. exists (text v). by apply text_parses. Qed.

(** The parser accepts a constant whose last character is wrong: every text of
    four characters that starts with "nul" is null, one that starts with "tru" is true
    and one of five characters that starts with "fals" is false. *)
Theorem json_misspelt_constant c :
  parseJSON (Some [110; 117; 108; c]) = Ok (Some Null) /\
  parseJSON (Some [116; 114; 117; c]) = Ok (Some (Boolean true)) /\
  parseJSON (Some [102; 97; 108; 115; c]) = Ok (Some (Boolean false)).
Proof.
  assert (E : forall s t e v, parseToken s = Ok (t, s, e) ->
    (t = TNull /\ v = Null \/ t = BoolTrue /\ v = Boolean true \/ t = BoolFalse /\ v = Boolean false) -> e = [] ->
    parseJSON (Some s) = Ok (Some v)).
  { intros s t e v E C ->. unfold parseJSON. cbn [chars default from_option id buildValue].
    change (stackLimit <? 0) with false. rewrite E. cbn [mbind res_bind].
    by destruct_or! C; destruct C as [-> ->]. }
  assert (P : forall pre t c, parseConstToken (pre ++ [c]) (pre ++ [t]) = Some []).
  { intros pre t' c'. unfold parseConstToken. enough (const_loop (pre ++ [c']) (pre ++ [t']) = ([], [])) as -> by done.
    induction pre as [|x pre IH]; cbn [app const_loop]; [by destruct (c' =? t')|]. by rewrite Z.eqb_refl. }
  pose proof (P [110; 117; 108] 108 c) as P1. pose proof (P [116; 114; 117] 101 c) as P2.
  pose proof (P [102; 97; 108; 115] 101 c) as P3. cbn [app] in P1, P2, P3.
  split; [|split]; (eapply E; [|by eauto|done]); unfold parseToken; rewrite skip_space_head by done.
  - change (110 =? 110) with true. cbn iota. unfold nullString. by rewrite P1.
  - change (116 =? 110) with false. change (116 =? 116) with true. cbn iota. unfold trueString. by rewrite P2.
  - change (102 =? 110) with false. change (102 =? 116) with false. change (102 =? 102) with true. cbn iota.
    unfold falseString. by rewrite P3.
Qed.

End parse.

(** ** Objects *)

Section objects.
Context `{Doubles}.

Lemma map_remove_keys {V} name (m : list (StringImpl * V)) : (map_remove name m).*1 = remove_first name m.*1.
Proof. induction m as [|[k w] m IH]; cbn; [done|]. case_bool_decide; [done|]. cbn. by rewrite IH. Qed.

Lemma remove_first_incl name l : remove_first name l ⊆ l.
Proof. induction l as [|k l IH]; cbn; [done|]. case_bool_decide; set_solver. Qed.

Lemma remove_first_NoDup name l : NoDup l -> NoDup (remove_first name l).
Proof.
  induction 1 as [|k l N D IH]; cbn; [constructor|]. case_bool_decide; [done|]. constructor; [|done].
  intros I. by apply N, (remove_first_incl name).
Qed.

Lemma map_remove_find {V} name (m : list (StringImpl * V)) k :
  NoDup m.*1 -> map_find k (map_remove name m) = if bool_decide (name = k) then None else map_find k m.
Proof.
  induction m as [|[k' w] m IH]; cbn; [by intros _; case_bool_decide|]. intros [N D]%NoDup_cons.
  destruct (decide (k' = name)) as [->|Nk].
  - rewrite (bool_decide_true (name = name)) by done.
    destruct (decide (name = k)) as [<-|]; [by rewrite bool_decide_true, (proj2 (map_find_None name m))|].
    by rewrite !bool_decide_false.
  - rewrite (bool_decide_false (k' = name)) by done. cbn. rewrite IH by done.
    destruct (decide (k' = k)) as [->|]; [by rewrite (bool_decide_true (k = k)), bool_decide_false by congruence|].
    by rewrite (bool_decide_false (k' = k)).
Qed.

Lemma map_remove_Forall {V} (P : StringImpl * V -> Prop) name m : Forall P m -> Forall P (map_remove name m).
Proof. induction 1 as [|[k w] m Hk Hm IH]; cbn; [constructor|]. case_bool_decide; [done|]. by constructor. Qed.

Lemma map_set_Forall {V} (P : V -> Prop) name v m :
  P v -> Forall (fun kv : StringImpl * V => P (snd kv)) m -> Forall (fun kv => P (snd kv)) (map_set name v m).
Proof. intros Hv. induction 1 as [|[k w] m Hk Hm IH]; cbn; [by constructor|]. case_bool_decide; by constructor. Qed.

(** Setting and removing members keeps the map of an object and the order of its
    keys in agreement, without duplicates; a member that was set is found with its
    value, one that was removed is not found, and the others are as before. *)
Theorem object_members object m_map m_order name value :
  object = Object m_map m_order -> wf object -> wf value -> code_units name ->
  (exists object', setValue object (Some name) value = Ok object' /\ wf object' /\
    forall k, getValue object' (Some k) =
      if bool_decide (name = k) then Ok (Some value) else getValue object (Some k)) /\
  (exists object', remove object (Some name) = Ok object' /\ wf object' /\
    forall k, getValue object' (Some k) = if bool_decide (name = k) then Ok None else getValue object (Some k)).
Proof.
  intros -> W Wv Cn. cbn [wf] in W. destruct W as (<- & D & C & W).
  rewrite (Forall_id_map (fun kv => wf (snd kv))) in W. split.
  - eexists. split; [done|]. cbn [wf]. rewrite (Forall_id_map (fun kv => wf (snd kv))), map_set_keys.
    destruct (map_find name m_map) as [w|] eqn:E.
    + split; [|intros k; cbn [getValue]; rewrite map_set_find; by case_bool_decide].
      split; [done|]. split; [done|]. split; [done|]. by apply map_set_Forall.
    + split; [|intros k; cbn [getValue]; rewrite map_set_find; by case_bool_decide].
      split; [done|]. apply map_find_None in E. split; [|split; [|by apply map_set_Forall]].
      * apply NoDup_app. split; [done|]. split; [|apply NoDup_singleton]. intros x Ix ->%list_elem_of_singleton. done.
      * apply Forall_app. split; [done|]. by constructor.
  - eexists. split; [done|]. cbn [wf]. rewrite (Forall_id_map (fun kv => wf (snd kv))), map_remove_keys. split.
    + split; [done|]. split; [by apply remove_first_NoDup|]. split; [|by apply map_remove_Forall].
      apply Forall_forall. intros x I. rewrite Forall_forall in C. apply C, (remove_first_incl name), I.
    + intros k. cbn [getValue]. rewrite map_remove_find by done. by case_bool_decide.
Qed.

End objects.
(** ** Numbers that are integers

    The numbers that the fetcher puts into its answers are of type [int]; for these
    and a negative zero the laws above hold. *)

Inductive small_double := Small (n : Z) | MinusZero.

Definition int_doubles : Doubles := {|
  double := small_double;
  double_of_int := Small;
  isfinite := fun d => match d with Small n => (INT_MIN <? n) && (n <=? INT_MAX) | MinusZero => true end;
  negative_zero := fun d => match d with Small _ => false | MinusZero => true end;
  positive_zero := Small 0;
  number_text := fun d => match numberToStringSigned (match d with Small n => n | MinusZero => 0 end) with Ok s => s | _ => [] end;
  charactersToDouble := fun s => match @charactersToInt plain_icu s with Ok o => Small <$> o | _ => None end |}.

Lemma skip_digits_app ds r :
  digits ds -> match r with [] => True | c :: _ => isASCIIDigit c = false end -> skip_digits (ds ++ r) = r.
Proof.
  intros D Hr. induction D as [|c ds Hc _ IH]; cbn [app skip_digits]; [|by rewrite Hc].
  destruct r as [|c r]; [done|]. cbn. by rewrite Hr.
Qed.

Lemma readInt_digits ds r b :
  digits ds -> ds <> [] -> (length ds = 1%nat \/ head ds <> Some 48) ->
  match r with [] => True | c :: _ => isASCIIDigit c = false end -> readInt (ds ++ r) b = Some r.
Proof.
  intros D N Hd Hr. unfold readInt. destruct ds as [|c ds]; [done|]. rewrite skip_digits_app by done.
  change ((c :: ds) ++ r) with (c :: ds ++ r). autorewrite with zlen. pose proof (zlen_nonneg ds).
  rewrite (proj2 (Z.eqb_neq _ 0)) by lia.
  destruct (_ && _)%bool eqn:B; [|done]. zb. exfalso.
  destruct Hd as [L|Hd]; [|cbn in Hd; congruence]. unfold zlen in *. cbn in L. lia.
Qed.

Lemma delimited_not_digit r : delimited r -> match r with [] => True | c :: _ => isASCIIDigit c = false end.
Proof. destruct r as [|c r]; [done|]. cbn. by intros [-> | [-> | ->]]. Qed.

Definition small_value (d : small_double) : Z := match d with Small n => n | MinusZero => 0 end.

#[global] Instance int_doubles_laws : @DoublesLaws int_doubles.
Proof.
  assert (P : forall d, @isfinite int_doubles d = true -> exists ds,
    @number_text int_doubles d = (if small_value d <? 0 then [45] else []) ++ ds /\ digits ds /\ decimal 0 ds = Z.abs (small_value d) /\
    (length ds = 1%nat \/ head ds <> Some 48) /\ ds <> [] /\ INT_MIN < small_value d <= INT_MAX).
  { intros [d|] F; cbn in F; [zb; destruct (numberToStringSigned_spec d) as (ds & E & ? & ? & ? & ?); [done|]|
      destruct (numberToStringSigned_spec 0) as (ds & E & ? & ? & ? & ?); [done|]]; exists ds; cbn -[numberToStringSigned]; by rewrite E. }
  split; intros d.
  - intros F. destruct (P d F) as (ds & -> & D & _ & _ & N & _). destruct ds as [|c ds]; [done|].
    apply Forall_cons in D as [Hc _]. destruct (small_value d <? 0); cbn [app]; eexists _, _; (split; [done|]); [done|by rewrite Hc].
  - intros r F Dr. destruct (P d F) as (ds & -> & D & _ & Hd & N & _).
    assert (R : readInt (ds ++ r) false = Some r) by (by apply readInt_digits, delimited_not_digit).
    assert (Fr : parse_fraction r = Some r) by (destruct r as [|c r]; [done|]; by destruct Dr as [-> | [-> | ->]]).
    unfold parseNumberToken. destruct (small_value d <? 0); cbn [app].
    + change (45 =? 45) with true. cbn iota. by rewrite R.
    + destruct ds as [|c ds]; [done|]. cbn [app]. apply Forall_cons in D as [Hc%digit_range _].
      rewrite (proj2 (Z.eqb_neq c 45)) by lia. change (c :: ds ++ r) with ((c :: ds) ++ r). by rewrite R.
  - intros F. destruct (P d F) as (ds & -> & D & V & _ & N & R). cbn [charactersToDouble int_doubles].
    rewrite toInt_signed by done. by destruct d.
Qed.

(** A record of an answer: its text is parsed back, the status as a number and a
    negative zero as zero. *)
Lemma json_roundtrip_witness :
  let v := @Object int_doubles [([115], Integer (Small 200 : @double int_doubles)); ([122], Double (MinusZero : @double int_doubles));
    ([108], Array [Text (Some [97; 34; 60; 20013]); Text None])] [[115]; [122]; [108]] in
  exists s, toJSONString v = Ok (Some s) /\ @parseJSON plain_icu int_doubles (Some s) = Ok (Some (meaning v)) /\
    @getValue int_doubles (meaning v) (Some [122]) = Ok (Some (Double (Small 0 : @double int_doubles))).
Proof.
  intros v. destruct (@json_roundtrip plain_icu int_doubles int_doubles_laws v) as (s & E1 & E2).
  - cbn [wf List.map snd]. unfold code_units. split; [done|]. split; [apply (bool_decide_unpack _); by vm_compute|].
    split; [apply (bool_decide_unpack _); by vm_compute|]. repeat (apply Forall_cons; split); try apply Forall_nil; try done.
  - by vm_compute.
  - exists s. split; [exact E1|]. split; [exact E2|]. reflexivity.
Defined.

Lemma object_members_witness :
  let o := @Object int_doubles [([97], Null)] [[97]] in
  exists object', setValue o (Some [98]) (Boolean true) = Ok object' /\ wf object' /\
    forall k, getValue object' (Some k) = if bool_decide ([98] = k) then Ok (Some (Boolean true)) else getValue o (Some k).
Proof.
  intros o. eapply (object_members o _ _ [98] (Boolean true)); [done| |done|by repeat constructor].
  cbn. repeat (split || constructor); try done. by intros ?%elem_of_nil.
Defined.

End Json.
