(* ===== verification/CmdFilters.v ===== *)
(** * Filters for the output of commands (PurCFetcher/network/filter)

    The lines that a command prints are rows of columns.  Filters, which the
    request names, split rows or columns and select some of them; a format turns
    each row into a JSON value.  The vectors of the code are lists; the checks of
    [operator[]] and of [append] that end the process are [Crash], the other
    accesses outside of a vector are [UB], and so is an overflow of [int].

    The library functions for Unicode are parameters, the class [Unicode].  Text
    printed for debugging is left out, and so is the language that the filters for
    words and sentences store and never read. *)

From Stdlib Require Ascii String.
Import String.StringSyntax.
From S2P Require Import Prelude WtfString WtfJson.

Local Open Scope cf.

Module Filters.
Export Json.

Inductive GUnicodeType :=
| G_UNICODE_LOWERCASE_LETTER | G_UNICODE_MODIFIER_LETTER | G_UNICODE_OTHER_LETTER | G_UNICODE_TITLECASE_LETTER
| G_UNICODE_UPPERCASE_LETTER | G_UNICODE_DECIMAL_NUMBER | G_UNICODE_LETTER_NUMBER | G_UNICODE_OTHER_NUMBER
| G_UNICODE_ANOTHER.

Class Unicode := {
  (** [U8_NEXT(source, offset, length, character)]: the new offset and the character,
      negative for an ill-formed sequence. *)
  U8_NEXT : StringImpl -> Z -> Z -> Z * Z;
  g_utf8_get_char : StringImpl -> Z;
  g_unichar_type : Z -> GUnicodeType;
  (** The bytes that [g_unichar_to_utf8] stores. *)
  g_unichar_to_utf8 : Z -> StringImpl }.

Abbreviation Row := (list String).

Section filters.
Context `{ICU} `{Doubles} `{Unicode}.

(** ** Vectors *)

Definition vec_at {A} (v : list A) (i : Z) : res A :=
  if zlen v <=? u64 i then Crash else or_ub v.[u64 i].

Definition vec_shrink {A} (v : list A) (size : Z) : res (list A) :=
  if u64 size <=? zlen v then Ok (take (Z.to_nat (u64 size)) v) else UB.

(** [result.append(data + offset, dataSize)] for elements of [sizeofT] bytes. *)
Definition vec_append {A} (sizeofT : Z) (result data : list A) (offset dataSize : Z) : res (list A) :=
  let newSize := u64 (zlen result + u64 dataSize) in
  if (UINT32_MAX / sizeofT <? newSize) || (newSize <? zlen result) then Crash
  else slice ← mem_read data offset (u64 dataSize); Ok (result ++ slice).

Definition sizeof_String : Z := 8.
Definition sizeof_Row : Z := 16.

(** [int] arithmetic. *)
Definition int_of (z : Z) : res Z := signed_result 32 z.

(** [for (i = 0; i < v.size(); i++) result.appendVector(f(v[i]))]. *)
Fixpoint append_each {A B} (f : A -> res (list B)) (v : list A) : res (list B) :=
  match v with
  | [] => Ok []
  | x :: v => r ← f x; rest ← append_each f v; Ok (r ++ rest)
  end.

(** [for (i = 0; i < v.size(); i++) result.append(f(v[i]))]. *)
Definition append_one {A B} (f : A -> res B) (v : list A) : res (list B) :=
  append_each (fun x => r ← f x; Ok [r]) v.

(** The [doFilter] of the column filters: the row vector as it is when it is empty. *)
Definition for_rows (f : Row -> res (list Row)) (rowVec : list Row) : res (list Row) :=
  if zlen rowVec =? 0 then Ok rowVec else append_each f rowVec.

Definition for_columns (f : Row -> res Row) (rowVec : list Row) : res (list Row) :=
  if zlen rowVec =? 0 then Ok rowVec else append_one f rowVec.

(** ** Selecting: head, tail, pick, cut, ignore

    The filters of lines and of columns are the same code on rows and on the
    columns of a row. *)

Section select.
Context {A : Type} (sizeofT : Z).

(** LineHeadFilter.cpp, ColumnHeadFilter.cpp *)
Definition head_filter (lines : list A) (param : String) : res (list A) :=
  if (zlen lines =? 0) || isEmpty param then Ok lines else
  limit ← toInt param;
  match limit with
  | None => Ok lines
  | Some limit =>
      let size := i32 (zlen lines) in
      if limit <? size then vec_shrink lines limit else Ok lines
  end.

(** LineTailFilter.cpp, ColumnTailFilter.cpp *)
Definition tail_filter (lines : list A) (param : String) : res (list A) :=
  if (zlen lines =? 0) || isEmpty param then Ok lines else
  limit ← toInt param;
  match limit with
  | None => Ok lines
  | Some limit =>
      let size := i32 (zlen lines) in
      if size <? limit then Ok lines else vec_append sizeofT [] lines (size - limit) limit
  end.

(** The parameters of pick, cut and ignore: two parts between commas, stripped. *)
Definition two_params (param : String) : res (option (String * String)) :=
  paramVec ← split param (Some (lit ","));
  if zlen paramVec <? 2 then Ok None else
  p0 ← vec_at paramVec 0; p0 ← stripWhiteSpace p0;
  p1 ← vec_at paramVec 1; p1 ← stripWhiteSpace p1;
  Ok (Some (p0, p1)).

(** [left * i + right] *)
Definition progression (left_ right_ i : Z) : res Z := p ← int_of (left_ * i); int_of (p + right_).

(** The loop over the positions of the progression below [size]. *)
Fixpoint progression_loop {B} (fuel : nat) (left_ right_ size : Z) (visit : B -> Z -> res B) (i n : Z) (acc : B) : res B :=
  match fuel with
  | O => NoFuel
  | S fuel =>
      if n <? size then
        acc ← (if 0 <=? n then visit acc n else Ok acc);
        i ← int_of (i + 1);
        n ← progression left_ right_ i;
        progression_loop fuel left_ right_ size visit i n acc
      else Ok acc
  end.

Definition with_progression (fuel : nat) (lines : list A) (param : String) (k : Z -> Z -> Z -> Z -> res (list A)) : res (list A) :=
  if (zlen lines =? 0) || isEmpty param then Ok lines else
  params ← two_params param;
  match params with
  | None => Ok lines
  | Some (sleft, sright) =>
      left_ ← toInt sleft;
      match left_ with
      | None => Ok lines
      | Some left_ =>
          right_ ← toInt sright;
          match right_ with
          | None => Ok lines
          | Some right_ =>
              let size := i32 (zlen lines) in
              n ← progression left_ right_ 0;
              k left_ right_ size n
          end
      end
  end.

(** LinePickFilter.cpp, ColumnPickFilter.cpp *)
Definition pick_filter (fuel : nat) (lines : list A) (param : String) : res (list A) :=
  with_progression fuel lines param (fun left_ right_ size n =>
    progression_loop fuel left_ right_ size (fun result n => x ← vec_at lines n; Ok (result ++ [x])) 0 n []).

(** The last loop of cut. *)
Fixpoint cut_loop (lines : list A) (indexVec : list Z) (i : Z) : list A :=
  match lines with
  | [] => []
  | x :: lines => if existsb (Z.eqb i) indexVec then cut_loop lines indexVec (i + 1) else x :: cut_loop lines indexVec (i + 1)
  end.

(** LineCutFilter.cpp, ColumnCutFilter.cpp *)
Definition cut_filter (fuel : nat) (lines : list A) (param : String) : res (list A) :=
  with_progression fuel lines param (fun left_ right_ size n =>
    indexVec ← progression_loop fuel left_ right_ size (fun indexVec n => Ok (indexVec ++ [n])) 0 n [];
    Ok (cut_loop (take (Z.to_nat size) lines) indexVec 0)).

(** What ignore removes, once [ignoreBegin] is known. *)
Definition ignore_range (lines : list A) (ignoreBegin ignoreSize : Z) : res (list A) :=
  result ← vec_append sizeofT [] lines 0 ignoreBegin;
  stop ← int_of (ignoreBegin + ignoreSize);
  if stop <? i32 (zlen lines)
  then vec_append sizeofT result lines stop (zlen lines - ignoreBegin - ignoreSize)
  else Ok result.

(** LineIgnoreFilter.cpp: [start] is an [int]. *)
Definition line_ignore_filter (lines : list A) (param : String) : res (list A) :=
  if (zlen lines =? 0) || isEmpty param then Ok lines else
  params ← two_params param;
  match params with
  | None => Ok lines
  | Some (begin_, size) =>
      limit ← toInt size;
      match limit with
      | None => Ok lines
      | Some limit =>
          number ← toInt begin_;
          dollar ← equalIgnoringASCIICase_ begin_ (lit "$");
          match number, dollar with
          | None, false => Ok lines
          | _, _ =>
              let start := match number with Some n => n | None => i32 (u64 (zlen lines - 1)) end in
              if limit =? 0 then Ok [] else
              ignoreBegin ← (if 0 <? limit then Ok start else s ← int_of (start + limit); int_of (s + 1));
              ignoreSize ← int_of (Z.abs limit);
              if i32 (zlen lines) <? start then Ok lines else ignore_range lines ignoreBegin ignoreSize
          end
      end
  end.

(** ColumnIgnoreFilter.cpp: [start] is a [size_t]. *)
Definition column_ignore_filter (lines : list A) (param : String) : res (list A) :=
  if (zlen lines =? 0) || isEmpty param then Ok lines else
  params ← two_params param;
  match params with
  | None => Ok lines
  | Some (begin_, size) =>
      limit ← toInt size;
      match limit with
      | None => Ok lines
      | Some limit =>
          number ← toInt begin_;
          dollar ← equalIgnoringASCIICase_ begin_ (lit "$");
          match number, dollar with
          | None, false => Ok lines
          | _, _ =>
              let start := match number with Some n => u64 n | None => u64 (zlen lines - 1) end in
              if limit =? 0 then Ok [] else
              let ignoreBegin := i32 (if 0 <? limit then start else u64 (start + limit + 1)) in
              ignoreSize ← int_of (Z.abs limit);
              if zlen lines <? start then Ok lines else ignore_range lines ignoreBegin ignoreSize
          end
      end
  end.

End select.

(** The filters of columns: the same for each row. *)
Definition ColumnHead_doFilter (rowVec : list Row) (param : String) : res (list Row) :=
  for_columns (fun row => head_filter row param) rowVec.
Definition ColumnTail_doFilter (rowVec : list Row) (param : String) : res (list Row) :=
  for_columns (fun row => tail_filter sizeof_String row param) rowVec.
Definition ColumnPick_doFilter (fuel : nat) (rowVec : list Row) (param : String) : res (list Row) :=
  for_columns (fun row => pick_filter fuel row param) rowVec.
Definition ColumnCut_doFilter (fuel : nat) (rowVec : list Row) (param : String) : res (list Row) :=
  for_columns (fun row => cut_filter fuel row param) rowVec.
Definition ColumnIgnore_doFilter (rowVec : list Row) (param : String) : res (list Row) :=
  for_columns (fun row => column_ignore_filter sizeof_String row param) rowVec.

(** ** Splitting lines *)

(** The rows that a split of the columns of a row gives: the first part of a column
    goes to the row that the last part of the column before it started, which is
    [lastRow]; what is in [lastRow] at the end is not part of the result. *)
Fixpoint split_row_loop (splitColumn : String -> res (list String)) (row : Row) (lastRow : Row) : res (list Row) :=
  match row with
  | [] => Ok []
  | column :: row =>
      splitRet ← splitColumn column;
      first ← vec_at splitRet 0;
      let rowVec := [lastRow ++ [first]] in
      let size := i32 (zlen splitRet) in
      if size =? 1 then rest ← split_row_loop splitColumn row []; Ok (rowVec ++ rest)
      else
        let last := size - 1 in
        let middle := List.map (fun s => [s]) (take (Z.to_nat (last - 1)) (drop 1 splitRet)) in
        lastPart ← vec_at splitRet last;
        rest ← split_row_loop splitColumn row [lastPart];
        Ok (rowVec ++ middle ++ rest)
  end.

(** LineSplitFilter.cpp *)
Definition LineSplit_splitRowByUChar (row : Row) (uc : Z) : res (list Row) :=
  split_row_loop (fun column => split_uchar column uc) row [].

Definition LineSplit_splitRow (doFilter : list Row -> String -> res (list Row)) (row : Row) (param : String) : res (list Row) :=
  c ← characterAt param 0;
  if 1 <? length_ param then
    result ← LineSplit_splitRowByUChar row c;
    param ← substring param 1 (length_ param - 1);
    doFilter result param
  else LineSplit_splitRowByUChar row c.

(** The recursion takes a character off the parameter; [fuel] is one more than its length. *)
Fixpoint LineSplit_loop (fuel : nat) (rowVec : list Row) (param : String) : res (list Row) :=
  match fuel with
  | O => NoFuel
  | S fuel =>
      if isEmpty param || (zlen rowVec =? 0) then Ok rowVec
      else append_each (fun row => LineSplit_splitRow (LineSplit_loop fuel) row param) rowVec
  end.

Definition LineSplit_doFilter (rowVec : list Row) (param : String) : res (list Row) :=
  LineSplit_loop (S (length (chars param))) rowVec param.

(** FilterBase.cpp: the characters of a text in UTF-8, up to the first ill-formed one. *)
Fixpoint splitUTF8_loop (fuel : nat) (source : StringImpl) (sourceOffset : Z) (result : list String) : res (list String) :=
  match fuel with
  | O => NoFuel
  | S fuel =>
      if sourceOffset <? zlen source then
        let begin_ := sourceOffset in
        let '(sourceOffset, character) := U8_NEXT source sourceOffset (zlen source) in
        if character <? 0 then Ok result
        else piece ← mem_read source begin_ (sourceOffset - begin_);
             splitUTF8_loop fuel source sourceOffset (result ++ [Some piece])
      else Ok result
  end.

Definition splitUTF8 (source : StringImpl) : res (list String) := splitUTF8_loop (S (length source)) source 0 [].

(** [splitLine] of the filters for characters and letters. *)
Definition splitLine (line : String) : res (list String) :=
  if isEmpty line then Ok [] else splitUTF8 (chars line).

(** [doFilterInner] and [filterInnter] of LineCharsFilter.cpp and ColumnCharsFilter.cpp. *)
Definition chars_inner (lines : list String) : res (list String) :=
  if zlen lines =? 0 then Ok lines else append_each splitLine lines.

Definition letter_or_number (t : GUnicodeType) : bool :=
  match t with G_UNICODE_ANOTHER => false | _ => true end.

Definition is_letter (s : String) : bool := letter_or_number (g_unichar_type (g_utf8_get_char (chars s))).

(** [doFilterInner] and [filterInnter] of LineLettersFilter.cpp and ColumnLettersFilter.cpp. *)
Definition letters_inner (lines : list String) : res (list String) :=
  if zlen lines =? 0 then Ok lines else
  result ← append_each splitLine lines;
  if zlen result =? 0 then Ok result else Ok (List.filter is_letter result).

(** Each part becomes a row: [splitRow] of LineCharsFilter.cpp and LineLettersFilter.cpp. *)
Definition rows_of (inner : list String -> res (list String)) (row : Row) : res (list Row) :=
  lineVec ← inner row; Ok (List.map (fun s => [s]) lineVec).

Definition LineChars_doFilter (rowVec : list Row) : res (list Row) := for_rows (rows_of chars_inner) rowVec.
Definition LineLetters_doFilter (rowVec : list Row) : res (list Row) := for_rows (rows_of letters_inner) rowVec.

(** FilterBase.h, FilterBase.cpp: the constructor of [UCharBreaker] stores the text
    and leaves the characters and their attributes empty; nothing calls
    [doUStrGetBreaks]. *)
Record UCharBreakAttr := { is_word_boundary : bool; is_sentence_boundary : bool }.

Record UCharBreaker := { m_text : StringImpl; m_uchar : list Z; m_breakAttrs : list UCharBreakAttr }.

Definition UCharBreaker_new (text : StringImpl) : UCharBreaker := {| m_text := text; m_uchar := []; m_breakAttrs := [] |}.

(** The loop of [splitLine] in LineWordsFilter.cpp and ColumnWordsFilter.cpp. *)
Fixpoint words_loop (p : list Z) (attrs : list UCharBreakAttr) (i : Z) (sb : StringImpl) (result : list String) : res (list String) :=
  match p with
  | [] => Ok (if zlen sb =? 0 then result else result ++ [Some sb])
  | wc :: p =>
      attr ← or_ub attrs.[i];
      let save := letter_or_number (g_unichar_type wc) || negb (is_word_boundary attr) in
      let '(sb, result) :=
        if (save : bool) then
          let '(sb, result) :=
            if is_word_boundary attr && negb (zlen sb =? 0) then ([], result ++ [Some sb]) else (sb, result) in
          (sb ++ g_unichar_to_utf8 wc, result)
        else (sb, result) in
      words_loop p attrs (i + 1) sb result
  end.

Definition words_splitLine (line : String) : res (list String) :=
  if isEmpty line then Ok [] else
  let breaker := UCharBreaker_new (chars line) in
  words_loop (m_uchar breaker) (m_breakAttrs breaker) 0 [] [].

(** The loop of [splitLine] in LineSentencesFilter.cpp and ColumnSentencesFilter.cpp. *)
Fixpoint sentences_loop (p : list Z) (attrs : list UCharBreakAttr) (i : Z) (sb : StringImpl) (result : list String) : res (list String) :=
  match p with
  | [] => Ok (if zlen sb =? 0 then result else result ++ [Some sb])
  | wc :: p =>
      attr ← or_ub attrs.[i];
      let isLetterOrNumber := letter_or_number (g_unichar_type wc) in
      let '(sb, result) :=
        if is_sentence_boundary attr then
          let '(sb, result) := if negb (zlen sb =? 0) then ([], result ++ [Some sb]) else (sb, result) in
          (if isLetterOrNumber : bool then sb ++ g_unichar_to_utf8 wc else sb, result)
        else (sb ++ g_unichar_to_utf8 wc, result) in
      sentences_loop p attrs (i + 1) sb result
  end.

Definition sentences_splitLine (line : String) : res (list String) :=
  if isEmpty line then Ok [] else
  let breaker := UCharBreaker_new (chars line) in
  sentences_loop (m_uchar breaker) (m_breakAttrs breaker) 0 [] [].

Definition LineWords_doFilter (rowVec : list Row) : res (list Row) :=
  for_rows (fun row => split_row_loop words_splitLine row []) rowVec.

Definition LineSentences_doFilter (rowVec : list Row) : res (list Row) :=
  for_rows (fun row => split_row_loop sentences_splitLine row []) rowVec.

(** ** Splitting columns *)

(** [splitRow] of the column filters: one row of the parts. *)
Definition row_of (inner : list String -> res (list String)) (row : Row) : res (list Row) :=
  parts ← inner row; Ok [parts].

Definition ColumnChars_doFilter (rowVec : list Row) : res (list Row) := for_rows (row_of chars_inner) rowVec.
Definition ColumnLetters_doFilter (rowVec : list Row) : res (list Row) := for_rows (row_of letters_inner) rowVec.

Definition breaks_inner (splitLine : String -> res (list String)) (lines : list String) : res (list String) :=
  if zlen lines =? 0 then Ok lines else append_each splitLine lines.

Definition ColumnWords_doFilter (rowVec : list Row) : res (list Row) :=
  for_rows (row_of (breaks_inner words_splitLine)) rowVec.

Definition ColumnSentences_doFilter (rowVec : list Row) : res (list Row) :=
  for_rows (row_of (breaks_inner sentences_splitLine)) rowVec.

(** ColumnDelimiterFilter.cpp *)
Definition Delimiter_splitLine (filterInnter : list String -> String -> res (list String)) (line param : String) : res (list String) :=
  if 1 <? length_ param then
    c ← characterAt param 0;
    result ← split_uchar line c;
    param ← substring param 1 (length_ param - 1);
    filterInnter result param
  else split line param.

Fixpoint Delimiter_filterInnter (fuel : nat) (lines : list String) (param : String) : res (list String) :=
  match fuel with
  | O => NoFuel
  | S fuel =>
      if zlen lines =? 0 then Ok lines
      else append_each (fun line => Delimiter_splitLine (Delimiter_filterInnter fuel) line param) lines
  end.

Definition Delimiter_doFilter (rowVec : list Row) (param : String) : res (list Row) :=
  if isEmpty param || (zlen rowVec =? 0) then Ok rowVec
  else append_each (row_of (fun row => Delimiter_filterInnter (S (length (chars param))) row param)) rowVec.

(** ** Formats *)

Definition isSingleQuotes (character : Z) : bool := character =? 39.

Fixpoint push_strings (array : Value) (l : list String) : res Value :=
  match l with
  | [] => Ok array
  | s :: l => array ← pushString array s; push_strings array l
  end.

(** The loop of FormatArray.cpp that joins the columns from [i] on. *)
Fixpoint join_loop (fuel : nat) (lineColumns : list String) (split_ : String) (i size : Z) (sb : StringImpl) : res StringImpl :=
  match fuel with
  | O => NoFuel
  | S fuel =>
      if i <? size then
        column ← vec_at lineColumns i;
        i ← int_of (i + 1);
        join_loop fuel lineColumns split_ i size (sb ++ chars column ++ chars split_)
      else Ok sb
  end.

(** The parameters of the array format. *)
Definition array_params (param : String) : res (Z * String) :=
  if isEmpty param then Ok (0, Some (lit ":")) else
  paramVec ← split param (Some (lit ","));
  if 2 <=? zlen paramVec then
    p0 ← vec_at paramVec 0; left_ ← toInt p0;
    p1 ← vec_at paramVec 1; split_ ← stripLeadingAndTrailingCharacters isSingleQuotes p1;
    Ok (default 0 left_, split_)
  else Ok (0, Some (lit ":")).

Definition FormatArray_doFormat (lineColumns : list String) (param : String) : res Value :=
  if zlen lineColumns =? 0 then Ok (Array []) else
  '(left_, split_) ← array_params param;
  let size := i32 (zlen lineColumns) in
  if left_ =? 0 then push_strings (Array []) (take (Z.to_nat size) lineColumns)
  else
    array ← push_strings (Array []) (take (Z.to_nat (Z.min left_ size)) lineColumns);
    sb ← join_loop (S (length lineColumns)) lineColumns split_ left_ size [];
    if zlen sb =? 0 then Ok array
    else sb ← mem_read sb 0 (u32 (zlen sb - length_ split_)); pushString array (Some sb).

(** The keys of FormatKeys.cpp: stripped of white space and of quotes, if that leaves something. *)
Definition clean_key (key : String) : res (list String) :=
  key ← stripWhiteSpace key;
  key ← stripLeadingAndTrailingCharacters isSingleQuotes key;
  Ok (if length_ key =? 0 then [] else [key]).

Definition format_keys (param : String) : res (list String) :=
  if isEmpty param then Ok [] else
  keys ← split param (Some (lit ",")); append_each clean_key keys.

Fixpoint set_members (object : Value) (keys : list String) (lineColumns : list String) : res Value :=
  match keys, lineColumns with
  | k :: keys, c :: lineColumns => object ← setString object k c; set_members object keys lineColumns
  | _, _ => Ok object
  end.

(** The members without a key of their own: "C" and the index. *)
Fixpoint set_numbered (object : Value) (i : Z) (lineColumns : list String) : res Value :=
  match lineColumns with
  | [] => Ok object
  | c :: lineColumns =>
      n ← number i;
      object ← setString object (Some (lit "C" ++ chars n)) c;
      set_numbered object (i + 1) lineColumns
  end.

Definition FormatKeys_doFormat (lineColumns : list String) (param : String) : res Value :=
  keyVec ← format_keys param;
  result ← set_members Object_create keyVec lineColumns;
  set_numbered result (zlen keyVec) (drop (length keyVec) lineColumns).

(** ** The filter manager (CmdFilterManager.cpp) *)

Inductive FilterType :=
| FilterTypeUnknown | FilterTypeLineSplit | FilterTypeLineCut | FilterTypeColumnSplit | FilterTypeColumnCut | FilterTypeFormat.

(** The virtual functions of [FilterBase]; [doFormat] is that of a [FormatBase]. *)
Record FilterBase := {
  name : StringImpl;
  type : FilterType;
  doFilter : list Row -> String -> res (list Row);
  doFormat : option (list String -> String -> res Value) }.

Definition filter (name : StringImpl) (type : FilterType) (doFilter : list Row -> String -> res (list Row)) : FilterBase :=
  {| name := name; type := type; doFilter := doFilter; doFormat := None |}.

(** [FormatBase::doFilter] returns the rows as they are. *)
Definition format (name : StringImpl) (doFormat : list String -> String -> res Value) : FilterBase :=
  {| name := name; type := FilterTypeFormat; doFilter := fun rowVec _ => Ok rowVec; doFormat := Some doFormat |}.

(** [initFilterVec]; [fuel] bounds the loops of pick and cut. *)
Definition m_filterVec (fuel : nat) : list FilterBase := [
  filter (lit "chars") FilterTypeLineSplit (fun rows _ => LineChars_doFilter rows);
  filter (lit "cut") FilterTypeLineCut (cut_filter fuel);
  filter (lit "head") FilterTypeLineCut head_filter;
  filter (lit "ignore") FilterTypeLineCut (line_ignore_filter sizeof_Row);
  filter (lit "letters") FilterTypeLineSplit (fun rows _ => LineLetters_doFilter rows);
  filter (lit "pick") FilterTypeLineCut (pick_filter fuel);
  filter (lit "sentences") FilterTypeLineSplit (fun rows _ => LineSentences_doFilter rows);
  filter (lit "split") FilterTypeLineSplit LineSplit_doFilter;
  filter (lit "tail") FilterTypeLineCut (tail_filter sizeof_Row);
  filter (lit "words") FilterTypeLineSplit (fun rows _ => LineWords_doFilter rows);

  filter (lit "cchars") FilterTypeColumnSplit (fun rows _ => ColumnChars_doFilter rows);
  filter (lit "ccut") FilterTypeColumnCut (ColumnCut_doFilter fuel);
  filter (lit "delimiter") FilterTypeColumnSplit Delimiter_doFilter;
  filter (lit "chead") FilterTypeColumnCut ColumnHead_doFilter;
  filter (lit "cignore") FilterTypeColumnCut ColumnIgnore_doFilter;
  filter (lit "cletters") FilterTypeColumnSplit (fun rows _ => ColumnLetters_doFilter rows);
  filter (lit "cpick") FilterTypeColumnCut (ColumnPick_doFilter fuel);
  filter (lit "csentences") FilterTypeColumnSplit (fun rows _ => ColumnSentences_doFilter rows);
  filter (lit "ctail") FilterTypeColumnCut ColumnTail_doFilter;
  filter (lit "cwords") FilterTypeColumnSplit (fun rows _ => ColumnWords_doFilter rows);

  format (lit "array") FormatArray_doFormat;
  format (lit "keys") FormatKeys_doFormat ].

(** [initNameFilterMap] *)
Definition m_nameFilterMap (fuel : nat) : list (StringImpl * FilterBase) :=
  foldl (fun m f => map_set (convertToASCIILowercase_impl (name f)) f m) [] (m_filterVec fuel).

Record CmdFilterManager := {
  m_formatFilter : list String;
  m_formatParamFilter : list String;
  m_filterNameVec : list String;
  m_filterParamVec : list String }.

Definition CmdFilterManager_new : CmdFilterManager :=
  {| m_formatFilter := []; m_formatParamFilter := []; m_filterNameVec := []; m_filterParamVec := [] |}.

Definition lookup_filter (fuel : nat) (name : String) : option FilterBase :=
  match name with None => None | Some name => map_find name (m_nameFilterMap fuel) end.

Definition addFilter (fuel : nat) (m : CmdFilterManager) (name_ param : String) : res (bool * CmdFilterManager) :=
  if isEmpty name_ then Ok (false, m) else
  nameLowerCase ← stripWhiteSpace (convertToASCIILowercase name_);
  match lookup_filter fuel nameLowerCase with
  | None => Ok (false, m)
  | Some f =>
      match type f with
      | FilterTypeLineSplit | FilterTypeLineCut | FilterTypeColumnSplit | FilterTypeColumnCut =>
          Ok (true, {| m_formatFilter := m_formatFilter m; m_formatParamFilter := m_formatParamFilter m;
                       m_filterNameVec := m_filterNameVec m ++ [nameLowerCase];
                       m_filterParamVec := m_filterParamVec m ++ [param] |})
      | FilterTypeFormat =>
          Ok (true, {| m_formatFilter := m_formatFilter m ++ [nameLowerCase];
                       m_formatParamFilter := m_formatParamFilter m ++ [param];
                       m_filterNameVec := m_filterNameVec m; m_filterParamVec := m_filterParamVec m |})
      | FilterTypeUnknown => Ok (false, m)
      end
  end.

Definition doFilterInner (fuel : nat) (lineListVec : list Row) (filterName filterParam : String) : res (list Row) :=
  match lookup_filter fuel filterName with
  | None => Ok lineListVec
  | Some f => doFilter f lineListVec filterParam
  end.

Fixpoint filter_loop (fuel : nat) (names params : list String) (lineListVec : list Row) : res (list Row) :=
  match names with
  | [] => Ok lineListVec
  | n :: names =>
      p ← vec_at params 0;
      lineListVec ← doFilterInner fuel lineListVec n p;
      filter_loop fuel names (drop 1 params) lineListVec
  end.

(** The format: the last one that was added, or the keys format. *)
Definition manager_doFormat (fuel : nat) (m : CmdFilterManager) (lineColumns : list String) : res Value :=
  let formatSize := zlen (m_formatFilter m) in
  '(name, param) ← (if negb (formatSize =? 0)
                    then n ← vec_at (m_formatFilter m) (formatSize - 1);
                         p ← vec_at (m_formatParamFilter m) (formatSize - 1); Ok (n, p)
                    else Ok (Some (lit "keys"), Some []));
  match lookup_filter fuel name with
  | None => Ok Null
  | Some f => match doFormat f with None => UB | Some doFormat => doFormat lineColumns param end
  end.

Definition manager_doFilter (fuel : nat) (m : CmdFilterManager) (lines : list String) : res (list Value) :=
  lineListVec ← filter_loop fuel (m_filterNameVec m) (m_filterParamVec m) (List.map (fun l => [l]) lines);
  append_one (manager_doFormat fuel m) lineListVec.

End filters.
End Filters.
