(* ===== verification/CmdFilterProps.v ===== *)
(** * Filters for the output of commands: what they compute

    The selecting filters against the positions they select, the splitting filters
    against the parts of a text between separators, the formats against the
    columns they are given. *)

From Stdlib Require Ascii String.
Import String.StringSyntax.
From S2P Require Import Prelude WtfString WtfJson CmdFilters.

Local Open Scope cf.

Module FilterProps.
Import Filters.

Section props.
Context `{ICU} `{Doubles} `{Unicode}.

(** ** Head and tail *)

Definition small {A} (l : list A) : Prop := zlen l * sizeof_Row <= UINT32_MAX.

Lemma u64_small z : 0 <= z < 2 ^ 64 -> u64 z = z.
Proof. apply wrap_small. Qed.

Lemma i32_small z : 0 <= z < 2 ^ 31 -> i32 z = z.
Proof.
  intros Hz. unfold swrap. change (2 ^ (32 - 1)) with (2 ^ 31). rewrite Z.mod_small; [lia|].
  change (2 ^ 32) with (2 ^ 31 + 2 ^ 31). lia.
Qed.

Lemma small_i32 {A} (l : list A) : small l -> i32 (zlen l) = zlen l.
Proof.
  unfold small, sizeof_Row, UINT32_MAX. intros S. apply i32_small. pose proof (zlen_nonneg l). lia.
Qed.

Lemma u64_negative z : - 2 ^ 31 <= z < 0 -> u64 z = 2 ^ 64 + z.
Proof.
  intros. unfold wrap. replace z with (2 ^ 64 + z + (-1) * 2 ^ 64) at 1 by lia.
  rewrite Z_mod_plus_full. apply Z.mod_small. lia.
Qed.

Lemma vec_append_ok {A} sizeofT (result data : list A) offset n :
  (sizeofT = sizeof_Row \/ sizeofT = sizeof_String) -> 0 <= offset -> 0 <= n -> offset + n <= zlen data ->
  (zlen result + n) * sizeof_Row <= UINT32_MAX ->
  vec_append sizeofT result data offset n = Ok (result ++ take (Z.to_nat n) (drop (Z.to_nat offset) data)).
Proof.
  intros Hs Ho Hn L S. unfold vec_append, sizeof_Row, sizeof_String, UINT32_MAX in *.
  change (2 ^ 32) with 4294967296 in *. pose proof (zlen_nonneg result).
  rewrite (u64_small n) by lia. rewrite u64_small by lia.
  rewrite (proj2 (Z.ltb_ge ((4294967296 - 1) / sizeofT) _)).
  2:{ destruct Hs as [-> | ->]; [change ((4294967296 - 1) / 16) with 268435455|change ((4294967296 - 1) / 8) with 536870911]; lia. }
  rewrite (proj2 (Z.ltb_ge _ (zlen result))) by lia. cbn [orb].
  unfold mem_read. by rewrite !(proj2 (Z.leb_le _ _)) by lia.
Qed.

Lemma vec_append_negative {A} sizeofT (data : list A) offset n :
  (sizeofT = sizeof_Row \/ sizeofT = sizeof_String) -> - 2 ^ 31 <= n < 0 ->
  vec_append sizeofT [] data offset n = Crash.
Proof.
  intros Hs Hn. unfold vec_append. rewrite zlen_nil, (u64_negative n) by lia. cbn [Z.add].
  rewrite u64_small by lia. rewrite (proj2 (Z.ltb_lt (UINT32_MAX / sizeofT) _)); [done|].
  unfold sizeof_Row, sizeof_String, UINT32_MAX in *.
  destruct Hs as [-> | ->]; [change ((2 ^ 32 - 1) / 16) with 268435455|change ((2 ^ 32 - 1) / 8) with 536870911]; lia.
Qed.

Lemma not_empty {A} (l : list A) param limit :
  l <> [] -> toInt param = Ok (Some limit) -> ((zlen l =? 0) || isEmpty param)%bool = false.
Proof.
  intros N T. destruct l as [|x l]; [done|]. rewrite zlen_cons, (proj2 (Z.eqb_neq _ 0)) by (pose proof (zlen_nonneg l); lia).
  destruct param as [[|c p]|]; try done. 
Qed.

(** [head] keeps the first lines and [tail] the last ones, all of them when there
    are fewer; a negative number makes [head] destroy memory outside of the vector
    and ends the process in [tail]. *)
Theorem head_tail_select {A} sizeofT (lines : list A) param limit :
  sizeofT = sizeof_Row \/ sizeofT = sizeof_String -> small lines -> lines <> [] -> toInt param = Ok (Some limit) ->
  INT_MIN <= limit <= INT_MAX ->
  head_filter lines param = (if 0 <=? limit then Ok (take (Z.to_nat limit) lines) else UB) /\
  tail_filter sizeofT lines param =
    (if 0 <=? limit then Ok (drop (length lines - Z.to_nat limit) lines) else Crash).
Proof.
  intros Hs S N T R. unfold head_filter, tail_filter. rewrite (not_empty lines param limit N T), T. cbn [mbind res_bind].
  rewrite small_i32 by done. unfold small, sizeof_Row, UINT32_MAX in S. unfold INT_MIN, INT_MAX in R.
  change (2 ^ 32) with 4294967296 in *. change (2 ^ 31) with 2147483648 in *. pose proof (zlen_nonneg lines).
  split.
  - unfold vec_shrink. destruct (Z.leb_spec 0 limit).
    + destruct (Z.ltb_spec limit (zlen lines)).
      * rewrite u64_small by lia. by rewrite (proj2 (Z.leb_le limit _)) by lia.
      * rewrite take_ge; [done|]. unfold zlen in *. lia.
    + rewrite (proj2 (Z.ltb_lt _ _)) by lia. rewrite u64_negative by (change (2 ^ 31) with 2147483648; lia).
      rewrite (proj2 (Z.leb_gt _ _)); [done|]. lia.
  - destruct (Z.leb_spec 0 limit).
    + destruct (Z.ltb_spec (zlen lines) limit).
      * replace (length lines - Z.to_nat limit)%nat with 0%nat by (unfold zlen in *; lia). by rewrite drop_0.
      * rewrite vec_append_ok; [|done|lia|lia|lia|unfold sizeof_Row, UINT32_MAX; rewrite zlen_nil; lia].
        cbn [app]. f_equal. replace (Z.to_nat (zlen lines - limit)) with (length lines - Z.to_nat limit)%nat by (unfold zlen in *; lia).
        apply take_ge. rewrite length_drop. unfold zlen in *. lia.
    + rewrite (proj2 (Z.ltb_ge _ _)) by lia. apply vec_append_negative; [done|]. change (2 ^ 31) with 2147483648. lia.
Qed.

(** ** Pick and cut *)

(** The positions [left * i + right] for [i >= 0]. *)
Definition selected (left_ n j : Z) : bool := (n <=? j) && ((j - n) mod left_ =? 0).

(** The elements whose index, counted from [i], satisfies [f]. *)
Fixpoint select {A} (f : Z -> bool) (i : Z) (l : list A) : list A :=
  match l with
  | [] => []
  | x :: l => if f i then x :: select f (i + 1) l else select f (i + 1) l
  end.

Definition positions (f : Z -> bool) (size : nat) : list Z := List.filter f (Z.of_nat <$> seq 0 size).

Lemma selected_next left_ n j : 0 < left_ -> n < j -> selected (left_) (n + left_) j = selected left_ n j.
Proof.
  intros Hl Hj. unfold selected. rewrite (proj2 (Z.leb_le n j)) by lia. cbn [andb].
  replace (j - (n + left_)) with (j - n + (-1) * left_) by lia. rewrite Z_mod_plus_full.
  destruct (Z.eqb_spec ((j - n) mod left_) 0) as [E|E]; [|by rewrite andb_false_r].
  rewrite andb_true_r. apply Z.leb_le. pose proof (Z.div_mod (j - n) left_ ltac:(lia)) as D.
  rewrite E in D. assert (0 < (j - n) / left_) by nia. nia.
Qed.

Lemma selected_self left_ n : 0 < left_ -> selected left_ n n = true.
Proof. intros. unfold selected. by rewrite Z.leb_refl, Z.sub_diag, Z.mod_0_l by lia. Qed.

Lemma selected_below left_ n j : j < n -> selected left_ n j = false.
Proof. intros. unfold selected. by rewrite (proj2 (Z.leb_gt n j)) by lia. Qed.

Lemma filter_ext_in {A} (f g : A -> bool) l : (forall x, In x l -> f x = g x) -> List.filter f l = List.filter g l.
Proof. apply List.filter_ext_in. Qed.

Lemma filter_nothing {A} (f : A -> bool) l : (forall x, In x l -> f x = false) -> List.filter f l = [].
Proof.
  induction l as [|x l IH]; intros F; cbn; [done|]. rewrite F by (by left). apply IH. intros y I. apply F. by right.
Qed.

Lemma in_positions x a k : In x (Z.of_nat <$> seq a k) -> Z.of_nat a <= x < Z.of_nat a + Z.of_nat k.
Proof. intros (y & -> & I%elem_of_seq)%list_elem_of_In%list_elem_of_fmap. lia. Qed.

(** The positions from [n] on are [n], when it is one, and those from [n + left] on. *)
Lemma positions_step left_ n size :
  0 < left_ -> n < Z.of_nat size ->
  positions (selected left_ n) size = (if 0 <=? n then [n] else []) ++ positions (selected left_ (n + left_)) size.
Proof.
  intros Hl Hn. unfold positions. destruct (Z.leb_spec 0 n) as [L|L].
  - assert (Q : size = (Z.to_nat n + S (size - Z.to_nat n - 1))%nat) by lia.
    set (rest := (size - Z.to_nat n - 1)%nat) in *. clearbody rest. subst size.
    rewrite seq_app. cbn [seq Nat.add].
    rewrite fmap_app, fmap_cons, !List.filter_app. cbn [List.filter]. rewrite Z2Nat.id by lia.
    rewrite selected_self, (selected_below left_ (n + left_) n) by lia.
    rewrite (filter_nothing (selected left_ n)), (filter_nothing (selected left_ (n + left_)) (_ <$> seq 0 _)).
    + cbn [app]. f_equal. apply filter_ext_in. intros x I%in_positions. symmetry. apply selected_next; lia.
    + intros x I%in_positions. apply selected_below. lia.
    + intros x I%in_positions. apply selected_below. lia.
  - cbn [app]. apply filter_ext_in. intros x I%in_positions. symmetry. apply selected_next; lia.
Qed.

Lemma positions_end left_ n size : Z.of_nat size <= n -> positions (selected left_ n) size = [].
Proof. intros. apply filter_nothing. intros x I%in_positions. apply selected_below. lia. Qed.

Fixpoint fold_res {A B} (f : B -> A -> res B) (acc : B) (l : list A) : res B :=
  match l with [] => Ok acc | x :: l => acc ← f acc x; fold_res f acc l end.

Lemma int_of_ok z : INT_MIN <= z <= INT_MAX -> int_of z = Ok z.
Proof.
  unfold int_of, signed_result, INT_MIN, INT_MAX. change (2 ^ (32 - 1)) with (2 ^ 31). intros.
  by rewrite (proj2 (Z.leb_le _ _)), (proj2 (Z.ltb_lt _ _)) by lia.
Qed.

Lemma progression_ok left_ right_ i :
  INT_MIN <= left_ * i <= INT_MAX -> INT_MIN <= left_ * i + right_ <= INT_MAX ->
  progression left_ right_ i = Ok (left_ * i + right_).
Proof. intros A B. unfold progression. rewrite int_of_ok by done. cbn [mbind res_bind]. by rewrite int_of_ok. Qed.

Lemma int_of_inv z r : int_of z = Ok r -> r = z.
Proof. unfold int_of, signed_result. by case_match; intros [= ->]. Qed.

Lemma progression_inv left_ right_ i r : progression left_ right_ i = Ok r -> r = left_ * i + right_.
Proof. unfold progression. intros E. res_inv. apply int_of_inv in Hr as ->. by apply int_of_inv. Qed.

Lemma progression_loop_spec {B} fuel left_ right_ size (visit : B -> Z -> res B) i acc :
  0 < left_ -> 0 <= i -> Z.of_nat size + left_ + Z.max 0 (- right_) <= INT_MAX -> INT_MIN <= right_ ->
  (Z.to_nat (Z.of_nat size - (left_ * i + right_)) < fuel)%nat ->
  progression_loop fuel left_ right_ (Z.of_nat size) visit i (left_ * i + right_) acc =
  fold_res visit acc (positions (selected left_ (left_ * i + right_)) size).
Proof.
  intros Hl Hi Hb Hr. revert i Hi acc; induction fuel as [|fuel IH]; intros i Hi acc Hf; [lia|]. cbn [progression_loop].
  unfold INT_MAX, INT_MIN in *. change (2 ^ 31) with 2147483648 in *.
  destruct (Z.ltb_spec (left_ * i + right_) (Z.of_nat size)) as [L|L].
  2:{ by rewrite positions_end. }
  rewrite positions_step by done.
  assert (E : left_ * i + right_ + left_ = left_ * (i + 1) + right_) by lia. rewrite E.
  assert (step : forall acc,
    (i' ← int_of (i + 1); n ← progression left_ right_ i'; progression_loop fuel left_ right_ (Z.of_nat size) visit i' n acc) =
    fold_res visit acc (positions (selected left_ (left_ * (i + 1) + right_)) size)).
  { intros a. rewrite int_of_ok by (unfold INT_MIN, INT_MAX; change (2 ^ 31) with 2147483648; nia). cbn [mbind res_bind].
    rewrite progression_ok by (unfold INT_MIN, INT_MAX; change (2 ^ 31) with 2147483648; nia). cbn [mbind res_bind].
    apply IH; lia. }
  destruct (0 <=? _); cbn [app fold_res].
  - destruct (visit acc _); cbn [mbind res_bind]; done || apply step.
  - cbn [mbind res_bind]. apply step.
Qed.

(** A step that is not positive never gets past the end. *)
Lemma progression_diverges {B} fuel left_ right_ size (visit : B -> Z -> res B) i acc r :
  left_ <= 0 -> 0 <= i -> left_ * i + right_ < size ->
  progression_loop fuel left_ right_ size visit i (left_ * i + right_) acc <> Ok r.
Proof.
  intros Hl. revert i acc; induction fuel as [|fuel IH]; intros i acc Hi Hn; [done|]. cbn [progression_loop].
  rewrite (proj2 (Z.ltb_lt _ size)) by done. intros E. res_inv.
  apply int_of_inv in Hr0 as ->. apply progression_inv in Hr1 as ->.
  eapply (IH (i + 1)); [lia|nia|exact E].
Qed.

Lemma fold_vec_at {A} (lines : list A) ps acc :
  zlen lines < 2 ^ 64 -> Forall (fun j => 0 <= j < zlen lines) ps ->
  fold_res (fun result n => x ← vec_at lines n; Ok (result ++ [x])) acc ps =
  Ok (acc ++ omap (fun j => lines !! Z.to_nat j) ps).
Proof.
  intros B F. revert acc; induction F as [|j ps Hj _ IH]; intros acc; cbn [fold_res omap list_omap]; [by rewrite app_nil_r|].
  destruct (zlookup_lt lines j Hj) as (x & Ez & ->).
  assert (V : vec_at lines j = Ok x).
  { unfold vec_at. rewrite u64_small by lia. rewrite (proj2 (Z.leb_gt _ _)) by lia. by rewrite Ez. }
  cbv beta. rewrite V. cbn [mbind res_bind]. by rewrite IH, <- app_assoc.
Qed.

Lemma fold_append ps acc :
  fold_res (fun (indexVec : list Z) n => Ok (indexVec ++ [n])) acc ps = Ok (acc ++ ps).
Proof. revert acc; induction ps as [|j ps IH]; intros acc; cbn; [by rewrite app_nil_r|]. by rewrite IH, <- app_assoc. Qed.

Lemma positions_range f size : Forall (fun j => 0 <= j < Z.of_nat size) (positions f size).
Proof.
  apply Forall_forall. intros x [I _]%list_elem_of_In%List.filter_In. apply in_positions in I. lia.
Qed.

Lemma omap_select {A} f (pre l : list A) :
  omap (fun j => (pre ++ l) !! Z.to_nat j) (List.filter f (Z.of_nat <$> seq (length pre) (length l))) = select f (zlen pre) l.
Proof.
  revert pre; induction l as [|x l IH]; intros pre; [done|]. cbn [length seq]. rewrite fmap_cons. cbn [List.filter].
  specialize (IH (pre ++ [x])). rewrite <- app_assoc, length_app in IH. cbn [app length] in IH.
  replace (length pre + 1)%nat with (S (length pre)) in IH by lia.
  cbn [select]. fold (zlen pre). replace (zlen pre + 1) with (zlen (pre ++ [x])) by (autorewrite with zlen; lia).
  destruct (f (zlen pre)); [|done]. cbn [omap list_omap]. rewrite to_nat_zlen, list_lookup_middle by done. by rewrite IH.
Qed.

Lemma positions_select {A} f (l : list A) : omap (fun j => l !! Z.to_nat j) (positions f (length l)) = select f 0 l.
Proof. apply (omap_select f [] l). Qed.

Lemma existsb_positions f size j : 0 <= j < Z.of_nat size -> existsb (Z.eqb j) (positions f size) = f j.
Proof.
  intros Hj. apply eq_bool_prop_intro. rewrite !Is_true_true, existsb_exists. split.
  - intros (x & I & ->%Z.eqb_eq). apply List.filter_In in I. tauto.
  - intros Hf. exists j. split; [|apply Z.eqb_refl]. apply List.filter_In. split; [|done].
    apply list_elem_of_In, list_elem_of_fmap. exists (Z.to_nat j). split; [lia|]. apply elem_of_seq. lia.
Qed.

Lemma select_ext {A} f g i (l : list A) : (forall j, i <= j < i + zlen l -> f j = g j) -> select f i l = select g i l.
Proof.
  revert i; induction l as [|x l IH]; intros i E; cbn; [done|]. rewrite zlen_cons in E. pose proof (zlen_nonneg l).
  rewrite E by lia. by rewrite (IH (i + 1)) by (intros; apply E; lia).
Qed.

Lemma cut_loop_select {A} (l : list A) idx i : cut_loop l idx i = select (fun j => negb (existsb (Z.eqb j) idx)) i l.
Proof. revert i; induction l as [|x l IH]; intros i; cbn; [done|]. by destruct (existsb _ _); cbn; rewrite IH. Qed.

Lemma select_partition {A} f i (l : list A) : select f i l ++ select (fun j => negb (f j)) i l ≡ₚ l.
Proof.
  revert i; induction l as [|x l IH]; intros i; cbn; [done|]. destruct (f i); cbn; [by rewrite IH|].
  by rewrite <- Permutation_middle, IH.
Qed.

(** The parameter names the progression [left], [right]. *)
Definition progression_param (param : String) (left_ right_ : Z) : Prop :=
  isEmpty param = false /\ exists sleft sright, two_params param = Ok (Some (sleft, sright)) /\
    toInt sleft = Ok (Some left_) /\ toInt sright = Ok (Some right_).

Lemma with_progression_spec {A} fuel (lines : list A) param left_ right_ k :
  small lines -> lines <> [] -> progression_param param left_ right_ -> INT_MIN <= right_ <= INT_MAX ->
  with_progression fuel lines param k = k left_ right_ (zlen lines) right_.
Proof.
  intros S N (P & sl & sr & E & El & Er) R. unfold with_progression. rewrite P.
  destruct lines as [|x lines]; [done|]. rewrite (proj2 (Z.eqb_neq _ 0)) by (rewrite zlen_cons; pose proof (zlen_nonneg lines); lia).
  cbn [orb]. rewrite E. cbn [mbind res_bind]. rewrite El. cbn [mbind res_bind]. rewrite Er. cbn [mbind res_bind].
  rewrite small_i32 by done. rewrite progression_ok by (rewrite Z.mul_0_r; unfold INT_MIN, INT_MAX in *; lia).
  cbn [mbind res_bind]. by rewrite Z.mul_0_r.
Qed.

(** With a positive step, [pick] gives the lines at the positions
    [left * i + right], in order, and [cut] gives the other lines, in order; together
    they are all the lines.  This is so as long as the positions stay within the
    range of [int], and with a fuel that exceeds the distance from the first position
    to the end. *)
Theorem pick_cut_partition {A} fuel (lines : list A) param left_ right_ :
  small lines -> lines <> [] -> progression_param param left_ right_ -> 0 < left_ -> INT_MIN <= right_ <= INT_MAX ->
  zlen lines + left_ + Z.max 0 (- right_) <= INT_MAX -> Z.max 0 (zlen lines - right_) < Z.of_nat fuel ->
  exists picked kept, pick_filter fuel lines param = Ok picked /\ cut_filter fuel lines param = Ok kept /\
    picked = select (selected left_ right_) 0 lines /\ kept = select (fun j => negb (selected left_ right_ j)) 0 lines /\
    picked ++ kept ≡ₚ lines.
Proof.
  intros S N P Hl R Hb Hf. eexists _, _. split; [|split; [|split; [done|split; [done|apply select_partition]]]].
  - unfold pick_filter. rewrite (with_progression_spec fuel lines param left_ right_) by done.
    pose proof (progression_loop_spec fuel left_ right_ (length lines)
      (fun result n => x ← vec_at lines n; Ok (result ++ [x])) 0 [] Hl ltac:(lia) Hb ltac:(lia)) as E.
    rewrite Z.mul_0_r, Z.add_0_l in E. fold (zlen lines) in E. rewrite E by lia. rewrite fold_vec_at.
    + cbn [app]. by rewrite positions_select.
    + unfold small, sizeof_Row, UINT32_MAX in S. change (2 ^ 32) with 4294967296 in S. lia.
    + apply positions_range.
  - unfold cut_filter. rewrite (with_progression_spec fuel lines param left_ right_) by done.
    pose proof (progression_loop_spec fuel left_ right_ (length lines)
      (fun indexVec n => Ok (indexVec ++ [n])) 0 [] Hl ltac:(lia) Hb ltac:(lia)) as E.
    rewrite Z.mul_0_r, Z.add_0_l in E. fold (zlen lines) in E. rewrite E by lia. rewrite fold_append. cbn [app mbind res_bind].
    rewrite to_nat_zlen, firstn_all, cut_loop_select. f_equal. apply select_ext. intros j Hj.
    by rewrite existsb_positions by (unfold zlen in Hj; lia).
Qed.

(** With a step of zero or less and a first position before the end of the lines,
    [pick] and [cut] do not return: no amount of fuel gives a result. *)
Theorem pick_cut_diverge {A} fuel (lines : list A) param left_ right_ r :
  small lines -> lines <> [] -> progression_param param left_ right_ -> left_ <= 0 -> INT_MIN <= right_ < zlen lines ->
  pick_filter fuel lines param <> Ok r /\ cut_filter fuel lines param <> Ok r.
Proof.
  intros S N P Hl R. assert (R' : INT_MIN <= right_ <= INT_MAX).
  { unfold small, sizeof_Row, UINT32_MAX, INT_MAX in *. pose proof (zlen_nonneg lines). lia. }
  unfold pick_filter, cut_filter. rewrite !(with_progression_spec fuel lines param left_ right_) by done. split.
  - pose proof (progression_diverges fuel left_ right_ (zlen lines)
      (fun result n => x ← vec_at lines n; Ok (result ++ [x])) 0 [] r Hl ltac:(lia)) as D.
    rewrite Z.mul_0_r, Z.add_0_l in D. apply D. lia.
  - intros E. res_inv. revert Hr. pose proof (progression_diverges fuel left_ right_ (zlen lines)
      (fun indexVec n => Ok (indexVec ++ [n])) 0 [] r0 Hl ltac:(lia)) as D.
    rewrite Z.mul_0_r, Z.add_0_l in D. apply D. lia.
Qed.

(** ** Ignore *)

(** The parameter of [ignore]: a start, or a dollar sign for the last line, and a length. *)
Definition ignore_param {A} (lines : list A) (param : String) (start limit : Z) : Prop :=
  isEmpty param = false /\ exists begin_ size, two_params param = Ok (Some (begin_, size)) /\
    toInt size = Ok (Some limit) /\
    (toInt begin_ = Ok (Some start) \/
     toInt begin_ = Ok None /\ chars begin_ = lit "$" /\ start = zlen lines - 1).

Definition range_begin (start limit : Z) : Z := if 0 <? limit then start else start + limit + 1.

Lemma ignore_range_spec {A} sizeofT (lines : list A) b n :
  sizeofT = sizeof_Row \/ sizeofT = sizeof_String -> small lines -> INT_MIN <= b <= zlen lines -> 0 < n -> b + n <= INT_MAX ->
  ignore_range sizeofT lines b n =
  if 0 <=? b then Ok (take (Z.to_nat b) lines ++ drop (Z.to_nat (b + n)) lines) else Crash.
Proof.
  intros Hs S Hb Hn Hm. unfold ignore_range. pose proof (zlen_nonneg lines).
  unfold INT_MIN, INT_MAX in *. change (2 ^ 31) with 2147483648 in *.
  pose proof S as S'. unfold small, UINT32_MAX in S'. change (2 ^ 32) with 4294967296 in S'.
  destruct (Z.leb_spec 0 b) as [L|L].
  2:{ rewrite vec_append_negative; [done|done|change (2 ^ 31) with 2147483648; lia]. }
  assert (sizeof_Row = 16) as E16 by done.
  rewrite vec_append_ok; [|done|lia|lia|lia|unfold UINT32_MAX; rewrite zlen_nil; lia]. cbn [mbind res_bind app].
  rewrite int_of_ok by (unfold INT_MIN, INT_MAX; lia). cbn [mbind res_bind]. rewrite small_i32 by done.
  change (drop (Z.to_nat 0) lines) with (drop 0 lines). rewrite drop_0.
  destruct (Z.ltb_spec (b + n) (zlen lines)).
  - rewrite vec_append_ok; [|done|lia|lia|lia|].
    + f_equal. f_equal. apply take_ge. rewrite length_drop. unfold zlen in *. lia.
    + unfold UINT32_MAX. unfold zlen in *. rewrite length_take. lia.
  - rewrite (drop_ge lines) by (unfold zlen in *; lia). by rewrite app_nil_r.
Qed.

Lemma ignore_dollar {A} (lines : list A) begin_ start :
  toInt begin_ = Ok (Some start) \/ toInt begin_ = Ok None /\ chars begin_ = lit "$" /\ start = zlen lines - 1 ->
  exists number dollar, toInt begin_ = Ok number /\ equalIgnoringASCIICase_ begin_ (lit "$") = Ok dollar /\
    (number = Some start \/ number = None /\ dollar = true /\ start = zlen lines - 1).
Proof.
  intros C. unfold equalIgnoringASCIICase_. rewrite equalIgnoringASCIICase_spec.
  destruct C as [->|(-> & E & ->)]; eexists _, _; (split; [done|]); (split; [done|]); [by left|].
  right. rewrite E. by rewrite bool_decide_true.
Qed.

Lemma i32_u64 z : i32 (u64 z) = i32 z.
Proof.
  unfold swrap, wrap. f_equal. rewrite <- (Zplus_mod_idemp_l (z mod 2 ^ 64)), Z.mod_mod_divide, Zplus_mod_idemp_l; [done|].
  by exists (2 ^ 32).
Qed.

Lemma i32_int z : INT_MIN <= z <= INT_MAX -> i32 z = z.
Proof.
  unfold INT_MIN, INT_MAX, swrap. change (2 ^ (32 - 1)) with (2 ^ 31). intros. rewrite Z.mod_small; [lia|].
  change (2 ^ 32) with (2 ^ 31 + 2 ^ 31). lia.
Qed.

(** What is left of the lines. *)
Definition ignored {A} (lines : list A) (start limit : Z) : res (list A) :=
  let b := range_begin start limit in
  if limit =? 0 then Ok []
  else if 0 <=? b then Ok (take (Z.to_nat b) lines ++ drop (Z.to_nat (b + Z.abs limit)) lines)
  else Crash.

Section ignore.
Context {A} (sizeofT : Z) (lines : list A) (start limit : Z).
Hypothesis Hsize : sizeofT = sizeof_Row \/ sizeofT = sizeof_String.
Hypothesis Hsmall : small lines.
Hypothesis Hstart : 0 <= start <= zlen lines.
Hypothesis Hlimit : INT_MIN < limit <= INT_MAX.
Hypothesis Hend : start + Z.abs limit <= INT_MAX.

Lemma ignored_range : limit <> 0 -> ignore_range sizeofT lines (range_begin start limit) (Z.abs limit) = ignored lines start limit.
Proof.
  intros Hz. unfold ignored. rewrite (proj2 (Z.eqb_neq limit 0)) by done.
  apply ignore_range_spec; try done; unfold range_begin, INT_MIN, INT_MAX in *; try (destruct (Z.ltb_spec 0 limit)); lia.
Qed.

Lemma line_ignored :
  (if limit =? 0 then Ok [] else
   ignoreBegin ← (if 0 <? limit then Ok start else s ← int_of (start + limit); int_of (s + 1));
   ignoreSize ← int_of (Z.abs limit);
   if i32 (zlen lines) <? start then Ok lines else ignore_range sizeofT lines ignoreBegin ignoreSize) =
  ignored lines start limit.
Proof.
  destruct (Z.eqb_spec limit 0) as [E|E]; [unfold ignored; by rewrite E|]. rewrite <- ignored_range by done.
  unfold range_begin, INT_MIN, INT_MAX in *. rewrite small_i32 by done.
  rewrite (int_of_ok (Z.abs limit)) by (unfold INT_MIN, INT_MAX; lia).
  destruct (Z.ltb_spec 0 limit).
  2: do 2 (rewrite int_of_ok by (unfold INT_MIN, INT_MAX; lia); cbn [mbind res_bind]).
  all: cbn [mbind res_bind]; by rewrite (proj2 (Z.ltb_ge (zlen lines) start)) by lia.
Qed.

Lemma column_ignored :
  (if limit =? 0 then Ok [] else
   let ignoreBegin := i32 (if 0 <? limit then start else u64 (start + limit + 1)) in
   ignoreSize ← int_of (Z.abs limit);
   if zlen lines <? start then Ok lines else ignore_range sizeofT lines ignoreBegin ignoreSize) =
  ignored lines start limit.
Proof.
  destruct (Z.eqb_spec limit 0) as [E|E]; [unfold ignored; by rewrite E|]. rewrite <- ignored_range by done.
  unfold range_begin, INT_MIN, INT_MAX in *. cbv zeta.
  rewrite (int_of_ok (Z.abs limit)) by (unfold INT_MIN, INT_MAX; lia). cbn [mbind res_bind].
  rewrite (proj2 (Z.ltb_ge (zlen lines) start)) by lia. f_equal.
  destruct (Z.ltb_spec 0 limit); rewrite ?i32_u64; apply i32_int; unfold INT_MIN, INT_MAX; lia.
Qed.

(** [ignore] removes the given number of lines from the start on, or up to the
    start and backwards for a negative number; when the range begins before the first
    line the process ends, and a number of zero removes everything. *)
Theorem ignore_removes_range param :
  lines <> [] -> ignore_param lines param start limit ->
  line_ignore_filter sizeofT lines param = ignored lines start limit /\
  column_ignore_filter sizeofT lines param = ignored lines start limit.
Proof.
  intros N (P & begin_ & size & E2 & El & C). unfold line_ignore_filter, column_ignore_filter. rewrite P.
  assert (0 < zlen lines) by (destruct lines as [|x l]; [done|]; rewrite zlen_cons; pose proof (zlen_nonneg l); lia).
  rewrite (proj2 (Z.eqb_neq (zlen lines) 0)) by lia. cbn [orb]. rewrite E2. cbn [mbind res_bind]. rewrite El. cbn [mbind res_bind].
  destruct (ignore_dollar lines begin_ start C) as (number & dollar & -> & -> & D). cbn [mbind res_bind].
  rewrite i32_u64, (i32_int (zlen lines - 1)) by (unfold small, sizeof_Row, UINT32_MAX, INT_MIN, INT_MAX in *; lia).
  rewrite <- line_ignored at 1. rewrite <- column_ignored.
  assert (u64 start = start /\ u64 (zlen lines - 1) = zlen lines - 1) as [E3 E4]
    by (unfold small, sizeof_Row, UINT32_MAX in *; split; apply u64_small; lia).
  destruct D as [-> | (-> & -> & Es)]; rewrite ?E3, ?E4, <- ?Es; done.
Qed.
End ignore.

(** ** Splitting at separators *)

(** [c] is one of the characters of [ps]. *)
Definition one_of (ps : list Z) (c : Z) : bool := existsb (Z.eqb c) ps.

Lemma pieces_cons p s : exists x xs, pieces p s = x :: xs.
Proof. induction s as [|c s (x & xs & E)]; cbn; [eauto|]. rewrite E. destruct (p c); eauto. Qed.

(** Splitting at one kind of separator after another. *)
Lemma pieces_or p q s : pieces (fun c => p c || q c) s = flat_map (pieces q) (pieces p s).
Proof.
  induction s as [|c s IH]; [done|]. cbn [pieces]. rewrite IH. destruct (pieces_cons p s) as (x & xs & ->).
  destruct (p c); cbn [orb flat_map pieces]; [done|]. destruct (q c); [done|].
  destruct (pieces_cons q x) as (y & ys & ->). done.
Qed.

Lemma filter_flat_map {A B} (f : B -> bool) (g : A -> list B) l :
  List.filter f (flat_map g l) = flat_map (fun x => List.filter f (g x)) l.
Proof. induction l as [|x l IH]; cbn; [done|]. by rewrite List.filter_app, IH. Qed.

Lemma words_or p q s : words (fun c => p c || q c) s = flat_map (words q) (words p s).
Proof.
  unfold words at 1. rewrite pieces_or, filter_flat_map. unfold words at 2.
  induction (pieces p s) as [|x xs IH]; cbn; [done|]. destruct x as [|c x]; cbn [nonempty]; [done|]. cbn. by rewrite IH.
Qed.

Lemma words_ext p q s : (forall c, p c = q c) -> words p s = words q s.
Proof.
  intros E. unfold words. f_equal. induction s as [|c s IH]; cbn; [done|]. by rewrite E, IH.
Qed.

Lemma pieces_length p s x : In x (pieces p s) -> (length x <= length s)%nat.
Proof.
  revert x; induction s as [|c s IH]; intros x; cbn; [intros [<-|[]]; done|].
  destruct (p c).
  - cbn. intros [<-|I]; cbn; [lia|]. apply IH in I. lia.
  - destruct (pieces_cons p s) as (y & ys & E). rewrite E in *. cbn in *.
    intros [<-|I]; cbn; [specialize (IH y ltac:(auto))|specialize (IH x ltac:(auto))]; lia.
Qed.

Lemma words_fits p s x : fits s -> In x (words p s) -> fits x.
Proof.
  unfold fits, zlen. intros F [I _]%List.filter_In. apply pieces_length in I. lia.
Qed.

(** The characters of a column. *)
Definition fits_row (row : Row) : Prop := Forall (fun s => fits (chars s)) row.

Lemma split_uchar_chars column c : fits (chars column) -> split_uchar column c = Ok (Some <$> words (fun x => x =? c) (chars column)).
Proof. destruct column as [s|]; intros F; [by apply split_uchar_spec|done]. Qed.

Lemma split_chars column c : fits (chars column) -> split column (Some [c]) = Ok (Some <$> words (fun x => x =? c) (chars column)).
Proof. destruct column as [s|]; intros F; [by apply split_spec|done]. Qed.

Lemma append_each_ok {A B} (f : A -> res (list B)) g l : (forall x, In x l -> f x = Ok (g x)) -> append_each f l = Ok (flat_map g l).
Proof.
  induction l as [|x l IH]; intros E; cbn; [done|]. rewrite E by (by left). cbn [mbind res_bind].
  rewrite IH; [done|]. intros y I. apply E. by right.
Qed.

Lemma flat_map_fmap {A B C} (f : B -> list C) (g : A -> B) l : flat_map f (g <$> l) = flat_map (fun x => f (g x)) l.
Proof. induction l as [|x l IH]; cbn; [done|]. by rewrite IH. Qed.

Lemma fmap_flat_map {A B C} (f : B -> C) (g : A -> list B) l : f <$> flat_map g l = flat_map (fun x => f <$> g x) l.
Proof. induction l as [|x l IH]; cbn; [done|]. by rewrite fmap_app, IH. Qed.

Lemma substring_tail c ps : fits (c :: ps) -> substring (Some (c :: ps)) 1 (length_ (Some (c :: ps)) - 1) = Ok (Some ps).
Proof.
  intros F. unfold fits, MaxLength in F. rewrite zlen_cons in F.
  change 1 with (Z.of_nat 1) at 1. cbn [length_]. rewrite zlen_cons.
  replace (1 + zlen ps - 1) with (Z.of_nat (length ps)) by (unfold zlen; lia).
  rewrite substring_spec by (unfold MaxLength; unfold zlen in F; lia). cbn [skipn].
  by rewrite drop_0, firstn_all.
Qed.

(** The columns that the separators [ps] make of the columns of a row. *)
Definition split_columns (ps : list Z) (row : Row) : Row :=
  flat_map (fun column => Some <$> words (one_of ps) (chars column)) row.

Lemma Delimiter_spec fuel ps row :
  ps <> [] -> fits ps -> fits_row row -> (length ps < fuel)%nat ->
  Delimiter_filterInnter fuel row (Some ps) = Ok (split_columns ps row).
Proof.
  revert ps row; induction fuel as [|fuel IH]; intros ps row N F R L; [lia|]. cbn [Delimiter_filterInnter].
  destruct (Z.eqb_spec (zlen row) 0) as [E|E]; [by destruct row|].
  apply append_each_ok. intros column I. apply list_elem_of_In in I.
  unfold fits_row in R. rewrite Forall_forall in R. specialize (R _ I). cbn beta in R. unfold Delimiter_splitLine.
  destruct ps as [|c ps]; [done|]. destruct ps as [|d ps].
  - change (1 <? length_ (Some [c])) with false. cbn iota. rewrite split_chars by done. f_equal. f_equal.
    apply words_ext. intros x. cbn. by rewrite orb_false_r.
  - set (rest := d :: ps) in *. assert ((1 <? length_ (Some (c :: rest))) = true) as ->.
    { apply Z.ltb_lt. unfold rest. cbn [length_]. rewrite !zlen_cons. pose proof (zlen_nonneg ps). lia. }
    change (characterAt (Some (c :: rest)) 0) with (Ok c : res Z). cbn [mbind res_bind].
    rewrite split_uchar_chars by done. cbn [mbind res_bind]. rewrite substring_tail by done. cbn [mbind res_bind].
    rewrite IH; [|done| | |cbn in *; lia].
    + f_equal. unfold split_columns. rewrite flat_map_fmap. cbn [chars default from_option id].
      rewrite <- fmap_flat_map. f_equal. symmetry.
      rewrite <- words_or. apply words_ext. intros x. done.
    + unfold fits in *. rewrite zlen_cons in F. lia.
    + apply Forall_fmap, Forall_forall. intros x Ix%list_elem_of_In. cbn. by eapply words_fits.
Qed.

(** The delimiter filter splits each column at every character of its parameter,
    whatever their order: the columns become the maximal parts without a separator,
    in order, and empty parts are dropped. *)
Theorem delimiter_splits rows ps :
  ps <> [] -> fits ps -> Forall fits_row rows ->
  Delimiter_doFilter rows (Some ps) = Ok (split_columns ps <$> rows).
Proof.
  intros N F R. unfold Delimiter_doFilter. assert (isEmpty (Some ps) = false) as ->.
  { destruct ps as [|c ps]; [done|]. cbn. apply Z.eqb_neq. rewrite zlen_cons. pose proof (zlen_nonneg ps). lia. }
  cbn [orb]. destruct (Z.eqb_spec (zlen rows) 0); [by destruct rows|].
  rewrite (append_each_ok _ (fun row => [split_columns ps row])).
  - done.
  - intros row I%list_elem_of_In. unfold row_of. rewrite Forall_forall in R.
    by rewrite Delimiter_spec by (done || (cbn; lia) || by apply R).
Qed.

Lemma words_count p s : (length (words p s) <= length s)%nat.
Proof.
  unfold words. induction s as [|c s IH]; cbn [pieces]; [done|]. destruct (p c); cbn [List.filter nonempty length]; [lia|].
  destruct (pieces_cons p s) as (x & xs & E). rewrite E in *. cbn [List.filter nonempty length] in *.
  destruct x; cbn [nonempty length] in *; lia.
Qed.

Lemma fmap_map_singletons (ws : list StringImpl) :
  List.map (fun s : String => [s]) (Some <$> ws) = (fun w => [Some w]) <$> ws.
Proof. induction ws as [|w ws IH]; [done|]. cbn. by f_equal. Qed.

Lemma vec_at_nat {A} (l : list A) i x : zlen l < 2 ^ 64 -> l !! i = Some x -> vec_at l (Z.of_nat i) = Ok x.
Proof.
  intros B E. pose proof (lookup_lt_Some _ _ _ E). unfold vec_at, zlen in *. rewrite u64_small by lia.
  rewrite (proj2 (Z.leb_gt _ _)) by lia. by rewrite (zlookup_nat _ _ _ E).
Qed.

(** Splitting a line at a character loses the part after the last separator: a line
    of two or more parts gives rows for all its parts but the last.  A line that
    consists of separators only, or is empty, ends the process. *)
Theorem line_split_loses_last s c :
  fits s ->
  LineSplit_doFilter [[Some s]] (Some [c]) =
  match words (fun x => x =? c) s with
  | [] => Crash
  | [w] => Ok [[Some w]]
  | ws => Ok ((fun w => [Some w]) <$> take (length ws - 1) ws)
  end.
Proof.
  intros F. unfold LineSplit_doFilter. cbn [chars default from_option id length LineSplit_loop].
  change (isEmpty (Some [c]) || (zlen [[Some s]] =? 0)) with false. cbn iota. cbn [append_each].
  unfold LineSplit_splitRow, LineSplit_splitRowByUChar. change (1 <? length_ (Some [c])) with false.
  change (characterAt (Some [c]) 0) with (Ok c : res Z). cbn [mbind res_bind split_row_loop].
  rewrite split_uchar_spec by done. cbn [mbind res_bind].
  pose proof (words_count (fun x => x =? c) s) as B. unfold fits, MaxLength, zlen in F.
  destruct (words _ s) as [|w [|w' ws]]; [done|done|].
  set (l := Some <$> w :: w' :: ws). assert (Ll : length l = S (S (length ws))) by (unfold l; by rewrite length_fmap).
  cbn [length] in B. assert (Zl : zlen l = Z.of_nat (S (S (length ws)))) by (unfold zlen; by rewrite Ll).
  change (vec_at l 0) with (vec_at l (Z.of_nat 0)). rewrite (vec_at_nat l 0 (Some w)) by (done || lia).
  cbn [mbind res_bind]. rewrite Zl, i32_small by lia. rewrite (proj2 (Z.eqb_neq _ 1)) by lia.
  destruct (lookup_lt_is_Some_2 l (S (length ws))) as [x Hx]; [lia|].
  replace (Z.of_nat (S (S (length ws))) - 1) with (Z.of_nat (S (length ws))) by lia.
  rewrite (vec_at_nat l _ x) by (done || lia). cbn [mbind res_bind app]. f_equal. rewrite !app_nil_r.
  replace (Z.to_nat (Z.of_nat (S (length ws)) - 1)) with (length ws) by lia. unfold l. cbn [fmap list_fmap skipn].
  replace (length (w :: w' :: ws) - 1)%nat with (S (length ws)) by (cbn [length]; lia).
  cbn [length Nat.sub firstn fmap list_fmap]. f_equal.
  change (Some w' :: (Some <$> ws)) with (Some <$> w' :: ws). rewrite <- fmap_take, fmap_map_singletons. done.
Qed.

(** ** Words and sentences *)

Lemma empty_eqb {A} (x : A) l : (zlen (x :: l) =? 0) = false.
Proof. rewrite zlen_cons. pose proof (zlen_nonneg l). apply Z.eqb_neq. lia. Qed.

Lemma for_rows_each f rows : for_rows f rows = append_each f rows.
Proof. unfold for_rows. destruct rows; [done|]. by rewrite empty_eqb. Qed.

Lemma breaks_inner_each f lines : breaks_inner f lines = append_each f lines.
Proof. unfold breaks_inner. destruct lines; [done|]. by rewrite empty_eqb. Qed.

Lemma words_splitLine_nothing line : words_splitLine line = Ok [].
Proof. unfold words_splitLine. by destruct (isEmpty line). Qed.

Lemma sentences_splitLine_nothing line : sentences_splitLine line = Ok [].
Proof. unfold sentences_splitLine. by destruct (isEmpty line). Qed.

Section nothing.
Context (splitLine : String -> res (list String)) (nothing : forall line, splitLine line = Ok []).

Lemma lines_of_nothing row rows :
  for_rows (fun row => split_row_loop splitLine row []) (row :: rows) =
  (match row with [] => for_rows (fun row => split_row_loop splitLine row []) rows | _ => Crash end).
Proof.
  rewrite !for_rows_each. destruct row as [|x row]; cbn; [|by rewrite nothing]. by destruct (append_each _ _).
Qed.

Lemma columns_of_nothing rows : for_rows (row_of (breaks_inner splitLine)) rows = Ok ((fun _ => []) <$> rows).
Proof.
  rewrite for_rows_each. rewrite (append_each_ok _ (fun _ => [[]])).
  - done.
  - intros row _. unfold row_of. rewrite breaks_inner_each, (append_each_ok _ (fun _ => [])) by done. cbn.
    f_equal. f_equal. by induction row.
Qed.

End nothing.

(** The filters for words and sentences see an empty text, since nothing fills the
    characters of the breaker: the line filters end the process on any row that has a
    column, and the column filters leave rows without columns. *)
Theorem word_filters_see_nothing row rows :
  LineWords_doFilter (row :: rows) = (match row with [] => LineWords_doFilter rows | _ => Crash end) /\
  LineSentences_doFilter (row :: rows) = (match row with [] => LineSentences_doFilter rows | _ => Crash end) /\
  ColumnWords_doFilter rows = Ok ((fun _ => []) <$> rows) /\
  ColumnSentences_doFilter rows = Ok ((fun _ => []) <$> rows).
Proof.
  pose proof words_splitLine_nothing. pose proof sentences_splitLine_nothing.
  repeat split; (apply lines_of_nothing || apply columns_of_nothing); done.
Qed.

(** ** The manager *)

Section manager.
Context (fuel : nat).

(** What a table holds is what was put there. *)
Lemma map_find_Forall {V} (P : V -> Prop) k v (m : list (StringImpl * V)) :
  Forall (fun e => P e.2) m -> map_find k m = Some v -> P v.
Proof.
  induction 1 as [|[k' v'] m Pm F IH]; cbn; [done|]. case_bool_decide; [|done]. by intros [= <-].
Qed.

Lemma table_Forall (P : FilterBase -> Prop) fs m :
  Forall P fs -> Forall (fun e => P e.2) m ->
  Forall (fun e => P e.2) (foldl (fun m f => map_set (convertToASCIILowercase_impl (name f)) f m) m fs).
Proof. intros F. revert m. induction F as [|f fs Pf F IH]; intros m Pm; cbn; [done|]. apply IH. by apply map_set_Forall. Qed.

(** Every filter of the table either has a format or changes the rows. *)
Definition well_typed (f : FilterBase) : Prop :=
  match type f with
  | FilterTypeUnknown => False
  | FilterTypeFormat => exists g, doFormat f = Some g
  | _ => doFormat f = None
  end.

Lemma lookup_well_typed n f : lookup_filter fuel n = Some f -> well_typed f.
Proof.
  destruct n as [n|]; cbn [lookup_filter]; [|done]. apply map_find_Forall. unfold m_nameFilterMap.
  apply table_Forall; [|constructor]. unfold m_filterVec.
  repeat (apply Forall_cons_2; [first [exact eq_refl | eexists; exact eq_refl]|]). constructor.
Qed.

(** The filters that the requests name: the name counts without the white space
    around it and in lower case; a request whose name is not that of a filter counts
    for nothing. *)
Definition resolve (r : String * String) : list (FilterBase * String) :=
  match r.1 with
  | None | Some [] => []
  | Some n =>
      match lookup_filter fuel (Some (trim isSpaceOrNewline (toASCIILower <$> n))) with
      | None => []
      | Some f => [(f, r.2)]
      end
  end.

(** The requests of a task, one after the other. *)
Fixpoint add_all (m : CmdFilterManager) (rs : list (String * String)) : res CmdFilterManager :=
  match rs with
  | [] => Ok m
  | r :: rs => '(_, m) ← addFilter fuel m r.1 r.2; add_all m rs
  end.

(** The rows after the filters, one after the other. *)
Fixpoint run_filters (fs : list (FilterBase * String)) (rows : list Row) : res (list Row) :=
  match fs with
  | [] => Ok rows
  | (f, p) :: fs => rows ← doFilter f rows p; run_filters fs rows
  end.

Definition is_format (f : FilterBase * String) : bool := match doFormat f.1 with None => false | Some _ => true end.
Definition no_format (f : FilterBase * String) : bool := negb (is_format f).

(** The format that applies: the last one of the requests, or the keys format. *)
Definition chosen_format (fs : list (FilterBase * String)) (columns : list String) : res Value :=
  match last (List.filter is_format fs) with
  | None => FormatKeys_doFormat columns (Some [])
  | Some (f, p) => match doFormat f with None => UB | Some g => g columns p end
  end.

(** The names and parameters of a manager stand for the filters [fs]. *)
Definition stand_for (names params : list String) (fs : list (FilterBase * String)) : Prop :=
  params = fs.*2 /\ Forall2 (fun n f => lookup_filter fuel n = Some f.1) names fs.

Definition holds (m : CmdFilterManager) (fs : list (FilterBase * String)) : Prop :=
  stand_for (m_filterNameVec m) (m_filterParamVec m) (List.filter no_format fs) /\
  stand_for (m_formatFilter m) (m_formatParamFilter m) (List.filter is_format fs).

Lemma stand_for_snoc names params fs n f :
  stand_for names params fs -> lookup_filter fuel n = Some f.1 -> stand_for (names ++ [n]) (params ++ [f.2]) (fs ++ [f]).
Proof. intros [-> F] L. split; [by rewrite fmap_app|]. apply Forall2_app; auto. Qed.

Lemma addFilter_spec m fs r :
  holds m fs -> exists m' b, addFilter fuel m r.1 r.2 = Ok (b, m') /\ holds m' (fs ++ resolve r).
Proof.
  intros [HF HT]. unfold addFilter, resolve. destruct r as [[[|c n]|] p]; cbn [fst snd];
    [by eexists _, _; split; [done|]; rewrite app_nil_r| |by eexists _, _; split; [done|]; rewrite app_nil_r].
  unfold isEmpty. rewrite empty_eqb. cbn [convertToASCIILowercase fmap option_fmap option_map].
  rewrite stripWhiteSpace_spec, convertToASCIILowercase_spec. cbn [mbind res_bind].
  destruct (lookup_filter fuel _) as [f|] eqn:L; [|by eexists _, _; split; [done|]; rewrite app_nil_r].
  pose proof (lookup_well_typed _ _ L) as W. unfold well_typed in W. unfold holds. rewrite !List.filter_app. cbn [List.filter].
  unfold no_format, is_format; cbn [fst]; fold is_format no_format.
  destruct (type f); [done|..|destruct W as [g W]]; rewrite W; cbn [negb app]; rewrite app_nil_r;
    eexists _, _; (split; [done|]); split; cbn [m_filterNameVec m_filterParamVec m_formatFilter m_formatParamFilter];
    try done; by apply (stand_for_snoc _ _ _ _ (f, p)).
Qed.

Lemma add_all_spec rs m fs : holds m fs -> exists m', add_all m rs = Ok m' /\ holds m' (fs ++ flat_map resolve rs).
Proof.
  revert m fs. induction rs as [|r rs IH]; intros m fs Hm; cbn; [exists m; by rewrite app_nil_r|].
  destruct (addFilter_spec m fs r Hm) as (m' & b & -> & Hm'). cbn. rewrite app_assoc. by apply IH.
Qed.

Lemma filter_loop_spec names params fs rows :
  stand_for names params fs -> filter_loop fuel names params rows = run_filters fs rows.
Proof.
  intros [-> F]. revert rows. induction F as [|n [f p] names fs L F IH]; intros rows; cbn [filter_loop run_filters]; [done|].
  change (vec_at ((f, p) :: fs).*2 0) with (Ok p). cbn [mbind res_bind]. unfold doFilterInner. cbn [fst] in L. rewrite L.
  change (drop 1 ((f, p) :: fs).*2) with fs.*2. by destruct (doFilter f rows p); cbn; rewrite ?IH.
Qed.

Lemma lookup_keys : lookup_filter fuel (Some (lit "keys")) = Some (format (lit "keys") FormatKeys_doFormat).
Proof. reflexivity. Qed.

Lemma last_snoc_at {A} (l : list A) x : zlen l < 2 ^ 32 -> vec_at (l ++ [x]) (zlen (l ++ [x]) - 1) = Ok x.
Proof.
  intros B. rewrite zlen_app. replace (zlen l + zlen [x] - 1) with (Z.of_nat (length l)) by (unfold zlen; cbn; lia).
  apply vec_at_nat; [rewrite zlen_app; change (zlen [x]) with 1; lia|]. by apply list_lookup_middle.
Qed.

Lemma manager_doFormat_spec m fs columns :
  zlen fs < 2 ^ 32 -> holds m fs -> manager_doFormat fuel m columns = chosen_format fs columns.
Proof.
  intros B [_ [Ep F]]. unfold manager_doFormat, chosen_format. rewrite Ep.
  assert (Bf : zlen (List.filter is_format fs) < 2 ^ 32).
  { unfold zlen in *. pose proof (List.filter_length_le is_format fs). lia. }
  revert F Bf. generalize (m_formatFilter m), (List.filter is_format fs). intros names fmts F Bf.
  destruct fmts as [|[f p] fmts _] using rev_ind.
  { apply Forall2_nil_inv_r in F as ->. change (negb (zlen (@nil String) =? 0)) with false. cbn iota. cbn [mbind res_bind last]. by rewrite lookup_keys. }
  apply Forall2_app_inv_r in F as (names' & ns & F & Fn & ->).
  apply Forall2_cons_inv_r in Fn as (n & ns' & L & Fn & ->). apply Forall2_nil_inv_r in Fn as ->.
  assert (En : zlen names' = zlen fmts) by (unfold zlen; by rewrite (Forall2_length _ _ _ F)).
  rewrite zlen_app in Bf. change (zlen [(f, p)]) with 1 in Bf.
  rewrite (proj2 (Z.eqb_neq _ 0)) by (rewrite zlen_app; change (zlen [n]) with 1; pose proof (zlen_nonneg names'); lia).
  cbn [negb]. rewrite last_snoc_at by lia. cbn [mbind res_bind].
  rewrite fmap_app. cbn [fmap list_fmap snd].
  replace (zlen (names' ++ [n])) with (zlen (fmts.*2 ++ [p])) by (rewrite !zlen_app, En; unfold zlen; by rewrite length_fmap).
  rewrite last_snoc_at by (unfold zlen; rewrite length_fmap; fold (zlen fmts); lia). cbn [mbind res_bind].
  cbn [fst] in L. by rewrite L, last_snoc.
Qed.

Lemma resolve_length rs : zlen (flat_map resolve rs) <= zlen rs.
Proof.
  induction rs as [|r rs IH]; cbn [flat_map]; [done|]. rewrite zlen_app, zlen_cons.
  assert (zlen (resolve r) <= 1); [|lia]. unfold resolve. destruct r.1 as [[|c n]|]; [done| |done]. by destruct (lookup_filter _ _).
Qed.

Lemma append_each_ext {A B} (f g : A -> res (list B)) l : (forall x, f x = g x) -> append_each f l = append_each g l.
Proof. intros E. induction l as [|x l IH]; cbn; [done|]. by rewrite E, IH. Qed.

(** The filters that the requests of a task name are applied to its lines in the
    order of the requests, each to all the rows, wherever the formats stand among
    them; the rows that remain are formatted by the last format requested, by the keys
    format when there is none.  A request for a name that is no filter changes nothing,
    and case and white space around a name do not matter. *)
Theorem manager_runs_requests rs lines :
  zlen rs < 2 ^ 32 ->
  (m ← add_all CmdFilterManager_new rs; manager_doFilter fuel m lines) =
  (rows ← run_filters (List.filter no_format (flat_map resolve rs)) (List.map (fun l => [l]) lines);
   append_one (chosen_format (flat_map resolve rs)) rows).
Proof.
  intros B. destruct (add_all_spec rs CmdFilterManager_new []) as (m & -> & Hm); [by repeat split|].
  cbn [mbind res_bind app] in *. unfold manager_doFilter. rewrite (filter_loop_spec _ _ _ _ (proj1 Hm)).
  destruct (run_filters _ _) as [rows| | |]; cbn; [|done..]. apply append_each_ext. intros columns.
  rewrite (manager_doFormat_spec m (flat_map resolve rs)); [done| |done]. pose proof (resolve_length rs). lia.
Qed.

End manager.

End props.
(** ** Concrete inputs *)

(** Closed hypotheses, by evaluation. *)
Ltac evaluate := solve [left; done | repeat split; vm_compute; congruence | right; repeat split; vm_compute; congruence].

(** Text in ASCII only. *)
Definition ascii_unicode : Unicode := {|
  U8_NEXT := fun source offset _ =>
    (offset + 1, match source.[offset] with Some c => if c <? 128 then c else -1 | None => -1 end);
  g_utf8_get_char := fun s => match s with [] => 0 | c :: _ => c end;
  g_unichar_type := fun c =>
    if isASCIILower c then G_UNICODE_LOWERCASE_LETTER else if isASCIIUpper c then G_UNICODE_UPPERCASE_LETTER
    else if isASCIIDigit c then G_UNICODE_DECIMAL_NUMBER else G_UNICODE_ANOTHER;
  g_unichar_to_utf8 := fun c => [c] |}.

Definition five : list Row := (fun c => [Some [c]]) <$> [97; 98; 99; 100; 101].

Lemma head_tail_witness :
  @head_filter plain_icu _ five (Some (lit "2")) = Ok (take 2 five) /\
  @tail_filter plain_icu _ sizeof_Row five (Some (lit "2")) = Ok (drop 3 five).
Proof. apply (@head_tail_select plain_icu _ sizeof_Row five (Some (lit "2")) 2); evaluate. Defined.

Lemma pick_cut_witness :
  exists picked kept, @pick_filter plain_icu _ 20 five (Some (lit "2, 1")) = Ok picked /\
    @cut_filter plain_icu _ 20 five (Some (lit "2, 1")) = Ok kept /\
    picked = select (selected 2 1) 0 five /\ kept = select (fun j => negb (selected 2 1 j)) 0 five /\ picked ++ kept ≡ₚ five.
Proof.
  assert (@progression_param plain_icu (Some (lit "2, 1")) 2 1) by (split; [done|]; eexists _, _; repeat split; evaluate).
  apply (@pick_cut_partition plain_icu _ 20 five (Some (lit "2, 1")) 2 1); assumption || evaluate.
Defined.

Lemma pick_cut_diverge_witness :
  @pick_filter plain_icu _ 20 five (Some (lit "0, 1")) <> Ok [] /\ @cut_filter plain_icu _ 20 five (Some (lit "0, 1")) <> Ok [].
Proof.
  assert (@progression_param plain_icu (Some (lit "0, 1")) 0 1) by (split; [done|]; eexists _, _; repeat split; evaluate).
  apply (@pick_cut_diverge plain_icu _ 20 five (Some (lit "0, 1")) 0 1 []); assumption || evaluate.
Defined.

Lemma ignore_witness :
  @line_ignore_filter plain_icu _ sizeof_Row five (Some (lit "$, -2")) = ignored five 4 (-2) /\
  @column_ignore_filter plain_icu _ sizeof_Row five (Some (lit "$, -2")) = ignored five 4 (-2).
Proof.
  assert (@ignore_param plain_icu _ five (Some (lit "$, -2")) 4 (-2)) by (split; [done|]; eexists _, _; repeat split; evaluate).
  apply (@ignore_removes_range plain_icu _ sizeof_Row five 4 (-2)); assumption || evaluate.
Defined.

Lemma delimiter_witness :
  Delimiter_doFilter [[Some (lit "a:b;c"); Some (lit ";d")]] (Some (lit ":;")) =
  Ok [[Some (lit "a"); Some (lit "b"); Some (lit "c"); Some (lit "d")]].
Proof. apply (delimiter_splits [[Some (lit "a:b;c"); Some (lit ";d")]] (lit ":;")); [done|done|repeat constructor]; by vm_compute. Defined.

Lemma line_split_witness : LineSplit_doFilter [[Some (lit "a,b,c")]] (Some [44]) = Ok [[Some (lit "a")]; [Some (lit "b")]].
Proof. apply (line_split_loses_last (lit "a,b,c") 44). by vm_compute. Defined.

Definition formatted : res (list (@Value int_doubles)) :=
  Ok [Object [(lit "C0", Text (Some (lit "a"))); (lit "C1", Text (Some (lit "b")))] [lit "C0"; lit "C1"];
      Object [(lit "C0", Text (Some (lit "c")))] [lit "C0"]].

Lemma manager_witness :
  (m ← @add_all plain_icu int_doubles ascii_unicode 20 CmdFilterManager_new
         [(Some (lit " Head "), Some (lit "2")); (Some (lit "none"), None); (Some (lit "delimiter"), Some (lit ":"))];
   @manager_doFilter plain_icu int_doubles ascii_unicode 20 m [Some (lit "a:b"); Some (lit "c"); Some (lit "d")]) = formatted.
Proof. rewrite manager_runs_requests by by vm_compute. vm_cast_no_check (@eq_refl _ formatted). Defined.

End FilterProps.
