(* ===== verification/CmdTask.v ===== *)
(** * The task that runs a command (PurCFetcher/network/NetworkDataTaskLcmd.cpp)

    A request for an "lcmd" URL runs the program that the path names.  The query
    gives the filters for the lines that the program prints (see [CmdFilters]), the
    command line and the values of its variables; the response is a JSON text.

    What the task finds outside of it is an argument: the URL, what [popen] and the
    process do, the decision of the client on the response, and the moment at which
    another thread asks for a cancellation.  ICU's macros for UTF-8 and UTF-16 are
    the classes [Unicode] and [Utf16].  A [StringBuilder] is the text it holds; it
    ends the process when the text gets too long.

    The pointer that the code gives to [popen] does not point to a terminated text
    that still exists: the bytes of a [String] have no terminator, and the
    temporary that holds the converted text is gone at the end of its block.  The
    model passes the text that is meant. *)

From Stdlib Require Ascii String.
Import String.StringSyntax.
From S2P Require Import Prelude WtfString WtfJson CmdFilters.

Local Open Scope cf.

Module Task.
Export Filters.

Class Utf16 := {
  (** [U16_APPEND(target, offset, capacity, character, error)]: the code units that are
      stored, none for an error. *)
  U16_APPEND : Z -> Z -> Z -> option StringImpl }.

(** ** State *)

Inductive State := Running | Suspended | Canceling | Completed.

Record NetworkDataTaskLcmd := {
  m_state : State;
  m_cmdFilter : String;
  m_cmdLine : String;
  m_paramMap : list (StringImpl * String);
  m_filterManager : CmdFilterManager;
  m_readLines : list String;
  m_statusCode : Z;
  m_errorMsg : String;
  m_exitCode : Z;
  m_responseBuffer : StringImpl }.

Definition set_state (t : NetworkDataTaskLcmd) (s : State) : NetworkDataTaskLcmd :=
  {| m_state := s; m_cmdFilter := m_cmdFilter t; m_cmdLine := m_cmdLine t; m_paramMap := m_paramMap t;
     m_filterManager := m_filterManager t; m_readLines := m_readLines t; m_statusCode := m_statusCode t;
     m_errorMsg := m_errorMsg t; m_exitCode := m_exitCode t; m_responseBuffer := m_responseBuffer t |}.

Definition set_query (t : NetworkDataTaskLcmd) (cmdFilter cmdLine : String) (paramMap : list (StringImpl * String)) : NetworkDataTaskLcmd :=
  {| m_state := m_state t; m_cmdFilter := cmdFilter; m_cmdLine := cmdLine; m_paramMap := paramMap;
     m_filterManager := m_filterManager t; m_readLines := m_readLines t; m_statusCode := m_statusCode t;
     m_errorMsg := m_errorMsg t; m_exitCode := m_exitCode t; m_responseBuffer := m_responseBuffer t |}.

Definition set_manager (t : NetworkDataTaskLcmd) (m : CmdFilterManager) : NetworkDataTaskLcmd :=
  {| m_state := m_state t; m_cmdFilter := m_cmdFilter t; m_cmdLine := m_cmdLine t; m_paramMap := m_paramMap t;
     m_filterManager := m; m_readLines := m_readLines t; m_statusCode := m_statusCode t;
     m_errorMsg := m_errorMsg t; m_exitCode := m_exitCode t; m_responseBuffer := m_responseBuffer t |}.

Definition set_outcome (t : NetworkDataTaskLcmd) (lines : list String) (statusCode : Z) (errorMsg : String) (exitCode : Z) : NetworkDataTaskLcmd :=
  {| m_state := m_state t; m_cmdFilter := m_cmdFilter t; m_cmdLine := m_cmdLine t; m_paramMap := m_paramMap t;
     m_filterManager := m_filterManager t; m_readLines := lines; m_statusCode := statusCode;
     m_errorMsg := errorMsg; m_exitCode := exitCode; m_responseBuffer := m_responseBuffer t |}.

Definition set_response (t : NetworkDataTaskLcmd) (buffer : StringImpl) : NetworkDataTaskLcmd :=
  {| m_state := m_state t; m_cmdFilter := m_cmdFilter t; m_cmdLine := m_cmdLine t; m_paramMap := m_paramMap t;
     m_filterManager := m_filterManager t; m_readLines := m_readLines t; m_statusCode := m_statusCode t;
     m_errorMsg := m_errorMsg t; m_exitCode := m_exitCode t; m_responseBuffer := buffer |}.

(** The task as the constructor leaves it; the codes have no initial value there, and
    [runCmdInner] sets them before they are read. *)
Definition task_new : NetworkDataTaskLcmd :=
  {| m_state := Suspended; m_cmdFilter := None; m_cmdLine := None; m_paramMap := [];
     m_filterManager := CmdFilterManager_new; m_readLines := []; m_statusCode := 0; m_errorMsg := None;
     m_exitCode := 0; m_responseBuffer := [] |}.

Section task.
Context `{ICU} `{Doubles} `{Unicode} `{Utf16}.

(** ** Texts *)

Definition sb_append (sb s : StringImpl) : res StringImpl :=
  if MaxLength <? zlen sb + zlen s then Crash else Ok (sb ++ s).

(** The loop of [convertUTF8ToUTF16] (wtf/unicode/UTF8Conversion.cpp). *)
Fixpoint convert_loop (fuel : nat) (source : StringImpl) (sourceOffset : Z) (target : StringImpl) (capacity : Z) : res (option StringImpl) :=
  match fuel with
  | O => NoFuel
  | S fuel =>
      if sourceOffset <? zlen source then
        let '(sourceOffset, character) := U8_NEXT source sourceOffset (zlen source) in
        if character <? 0 then Ok None else
        match U16_APPEND (zlen target) capacity character with
        | None => Ok None
        | Some units => convert_loop fuel source sourceOffset (target ++ units) capacity
        end
      else Ok (Some target)
  end.

(** [String::fromUTF8] of a pointer that is not null. *)
Definition fromUTF8 (bytes : StringImpl) : res String :=
  if MaxLength <? zlen bytes then Crash
  else if zlen bytes =? 0 then Ok emptyString
  else if forallb isASCII bytes then Ok (Some bytes)
  else convert_loop (S (length bytes)) bytes 0 [] (zlen bytes).

Fixpoint percentDecoded (input : StringImpl) : StringImpl :=
  match input with
  | [] => []
  | c :: rest =>
      match rest with
      | a :: b :: rest' =>
          if (c =? 37) && isASCIIHexDigit a && isASCIIHexDigit b
          then toASCIIHexValue2 a b :: percentDecoded rest'
          else u8 c :: percentDecoded rest
      | _ => u8 c :: percentDecoded rest
      end
  end.

Definition decodeEscapeSequencesFromParsedURL (input : StringImpl) : res String :=
  if zlen input =? 0 then Ok emptyString else fromUTF8 (percentDecoded input).

(** ** The query *)

Definition CMD_FILTER : StringImpl := lit "cmdfilter".
Definition CMD_LINE : StringImpl := lit "cmdline".

(** One parameter of the query; a text that is no UTF-8 is a null string, which is not
    allowed as a key of the map. *)
Definition parse_param (t : NetworkDataTaskLcmd) (param : String) : res NetworkDataTaskLcmd :=
  decode ← decodeEscapeSequencesFromParsedURL (chars param);
  index ← find decode (Some (lit "="));
  let index := if index =? notFound then length_ decode else index in
  name ← substring decode 0 index; name ← stripWhiteSpace name;
  value ← substring decode (index + 1) MaxLength; value ← stripWhiteSpace value;
  isFilter ← equalIgnoringASCIICase_ name CMD_FILTER;
  if (isFilter : bool) then Ok (set_query t value (m_cmdLine t) (m_paramMap t)) else
  isLine ← equalIgnoringASCIICase_ name CMD_LINE;
  if (isLine : bool) then Ok (set_query t (m_cmdFilter t) value (m_paramMap t)) else
  match name with
  | None => UB
  | Some name => Ok (set_query t (m_cmdFilter t) (m_cmdLine t) (map_set name value (m_paramMap t)))
  end.

Fixpoint parse_params (t : NetworkDataTaskLcmd) (params : list String) : res NetworkDataTaskLcmd :=
  match params with
  | [] => Ok t
  | p :: params => t ← parse_param t p; parse_params t params
  end.

Definition parseQueryString (t : NetworkDataTaskLcmd) (query : String) : res NetworkDataTaskLcmd :=
  if isEmpty query then Ok t else
  params ← split query (Some (lit "&")); parse_params t params.

(** ** The filters *)

Definition filter_request (param : String) : res (String * String) :=
  index ← find param (Some (lit "("));
  let index := if index =? notFound then length_ param else index in
  name ← substring param 0 index;
  value ← substring param (index + 1) MaxLength;
  value ← (if isEmpty value then Ok value else
           idx ← reverseFind value (Some (lit ")"));
           if idx =? notFound then Ok value else substring value 0 idx);
  value ← stripLeadingAndTrailingCharacters isSingleQuotes value;
  Ok (name, value).

Fixpoint add_requests (fuel : nat) (m : CmdFilterManager) (params : list String) : res CmdFilterManager :=
  match params with
  | [] => Ok m
  | p :: params =>
      '(name, value) ← filter_request p;
      '(_, m) ← addFilter fuel m name value;
      add_requests fuel m params
  end.

Definition parseCmdFilter (fuel : nat) (m : CmdFilterManager) (cmdFilter : String) : res CmdFilterManager :=
  if isEmpty cmdFilter then Ok m else
  params ← split cmdFilter (Some (lit ";")); add_requests fuel m params.

(** ** The command line *)

Definition starts_name (c : Z) : bool := ((97 <=? c) && (c <=? 122)) || ((65 <=? c) && (c <=? 90)).

Definition in_name (c : Z) : bool :=
  ((48 <=? c) && (c <=? 57)) || ((97 <=? c) && (c <=? 122)) || ((65 <=? c) && (c <=? 90)) || (c =? 95).

(** The loop that collects the name of a variable. *)
Fixpoint scan_name (fuel : nat) (cmdLine : String) (end_ : Z) (sb : StringImpl) : res (Z * StringImpl) :=
  match fuel with
  | O => NoFuel
  | S fuel =>
      if end_ <? length_ cmdLine then
        c ← characterAt cmdLine end_;
        if in_name c then sb ← sb_append sb [c]; scan_name fuel cmdLine (end_ + 1) sb else Ok (end_, sb)
      else Ok (end_, sb)
  end.

(** The text from [from] up to the next "$", which is searched from there; its
    position. *)
Definition copy_to_dollar (cmdLine : String) (from : Z) (resultSb : StringImpl) : res (Z * StringImpl) :=
  start ← find_uchar cmdLine 36 from;
  piece ← (if start =? notFound then substring cmdLine from MaxLength else substring cmdLine from (start - from));
  resultSb ← sb_append resultSb (chars piece);
  Ok (start, resultSb).

Fixpoint cmdline_loop (fuel : nat) (paramMap : list (StringImpl * String)) (cmdLine : String) (start end_ : Z) (resultSb : StringImpl) : res StringImpl :=
  match fuel with
  | O => NoFuel
  | S fuel =>
      if negb (start =? notFound) && (end_ <? length_ cmdLine) then
        c ← characterAt cmdLine end_;
        if c =? 36 then
          resultSb ← sb_append resultSb (lit "$");
          '(start, resultSb) ← copy_to_dollar cmdLine (end_ + 1) resultSb;
          cmdline_loop fuel paramMap cmdLine start (u64 (start + 1)) resultSb
        else if negb (starts_name c) then
          piece ← substring cmdLine start 2;
          resultSb ← sb_append resultSb (chars piece);
          '(start, resultSb) ← copy_to_dollar cmdLine (end_ + 1) resultSb;
          cmdline_loop fuel paramMap cmdLine start (u64 (start + 1)) resultSb
        else
          '(end_, sb) ← scan_name (S (length (chars cmdLine))) cmdLine end_ [];
          resultSb ← match map_find sb paramMap with
                     | None => Ok resultSb
                     | Some value => sb_append resultSb (chars value)
                     end;
          if end_ <? length_ cmdLine then
            '(start, resultSb) ← copy_to_dollar cmdLine end_ resultSb;
            cmdline_loop fuel paramMap cmdLine start (u64 (start + 1)) resultSb
          else cmdline_loop fuel paramMap cmdLine start end_ resultSb
      else Ok resultSb
  end.

Definition parseCmdLine (paramMap : list (StringImpl * String)) (cmdLine : String) : res String :=
  if isEmpty cmdLine then Ok cmdLine else
  start ← find_uchar cmdLine 36 0;
  if start =? notFound then Ok cmdLine else
  first ← substring cmdLine 0 start;
  resultSb ← sb_append [] (chars first);
  r ← cmdline_loop (S (S (length (chars cmdLine)))) paramMap cmdLine start (start + 1) resultSb;
  Ok (Some r).

(** The text of the command. *)
Definition command_text (path cmdLine : String) : res StringImpl :=
  if isEmpty cmdLine then Ok (chars path) else
  sb ← sb_append [] (chars path);
  isShell ← endsWith_literal path (lit "sh");
  if (isShell : bool) then
    sb ← sb_append sb (lit " -c " ++ [34]);
    sb ← sb_append sb (chars cmdLine);
    sb_append sb (lit " " ++ [34])
  else
    sb ← sb_append sb (lit " ");
    rfindResult ← reverseFind path (Some (lit "/"));
    base ← (if rfindResult =? notFound then Ok path else substring path (rfindResult + 1) MaxLength);
    prefix ← sb_append (chars base) (lit " ");
    named ← startsWith_ cmdLine (Some prefix);
    if (named : bool) then rest ← substring cmdLine (zlen prefix) MaxLength; sb_append sb (chars rest)
    else sb_append sb (chars cmdLine).

(** ** Running *)

(** What [popen] and the process do: a failure with the text of [errno], or the blocks
    that [fgets] reads, each with whether the task is canceled after it, the text of
    [errno] then, and the exit status. *)
Inductive Process :=
| popen_fails (errorMsg : StringImpl)
| popened (blocks : list (StringImpl * bool)) (errorMsg : StringImpl) (exitStatus : Z).

(** [strlen] *)
Fixpoint c_string (data : StringImpl) : StringImpl :=
  match data with
  | [] => []
  | c :: data => if c =? 0 then [] else c :: c_string data
  end.

(** The loop over the blocks: the bytes, or nothing after a cancellation. *)
Fixpoint read_blocks (blocks : list (StringImpl * bool)) (m_readBuffer : StringImpl) : option StringImpl :=
  match blocks with
  | [] => Some m_readBuffer
  | (data, canceled) :: blocks =>
      if (canceled : bool) then None else read_blocks blocks (m_readBuffer ++ c_string data)
  end.

Record Url := { query : option String; path : String }.

(** The part of [runCmdInner] before [popen]. *)
Definition prepare (fuel : nat) (t : NetworkDataTaskLcmd) (url : Url) : res (NetworkDataTaskLcmd * StringImpl) :=
  '(t, cmdLine) ← match query url with
                  | None => Ok (t, None)
                  | Some q =>
                      t ← parseQueryString t q;
                      m ← (if isEmpty (m_cmdFilter t) then Ok (m_filterManager t)
                           else parseCmdFilter fuel (m_filterManager t) (m_cmdFilter t));
                      let t := set_manager t m in
                      cmdLine ← (if isEmpty (m_cmdLine t) then Ok None else parseCmdLine (m_paramMap t) (m_cmdLine t));
                      Ok (t, cmdLine)
                  end;
  path ← stripWhiteSpace (path url);
  command ← command_text path cmdLine;
  Ok (t, command).

Definition runCmdInner (fuel : nat) (t : NetworkDataTaskLcmd) (url : Url) (popen : StringImpl -> Process) : res NetworkDataTaskLcmd :=
  '(t, command) ← prepare fuel t url;
  match popen command with
  | popen_fails errorMsg => Ok (set_outcome t (m_readLines t) 500 (Some errorMsg) (m_exitCode t))
  | popened blocks errorMsg exitStatus =>
      match read_blocks blocks [] with
      | None => Ok (set_outcome (set_state t Canceling) (m_readLines t) 503 (Some errorMsg) (m_exitCode t))
      | Some m_readBuffer =>
          readLines ← split (Some m_readBuffer) (Some [10]);
          if exitStatus =? 127
          then Ok (set_outcome t readLines 404 (Some (lit "Not Found")) exitStatus)
          else Ok (set_outcome t readLines 200 (m_errorMsg t) exitStatus)
      end
  end.

(** ** The response *)

Fixpoint push_values (array : Value) (lines : list Value) : res Value :=
  match lines with
  | [] => Ok array
  | v :: lines => array ← pushValue array v; push_values array lines
  end.

Definition response_object (fuel : nat) (t : NetworkDataTaskLcmd) : res Value :=
  result ← setInteger Object_create (Some (lit "statusCode")) (m_statusCode t);
  result ← (if isEmpty (m_errorMsg t) then setValue result (Some (lit "errorMsg")) Null
            else setString result (Some (lit "errorMsg")) (m_errorMsg t));
  result ← (if (m_statusCode t =? 200) || (m_statusCode t =? 404)
            then setInteger result (Some (lit "exitCode")) (m_exitCode t)
            else setValue result (Some (lit "exitCode")) Null);
  array ← (if zlen (m_readLines t) =? 0 then Ok (Array []) else
           lines ← manager_doFilter fuel (m_filterManager t) (m_readLines t);
           push_values (Array []) lines);
  setValue result (Some (lit "lines")) array.

Definition buildResponse (fuel : nat) (t : NetworkDataTaskLcmd) : res NetworkDataTaskLcmd :=
  result ← response_object fuel t;
  json ← toJSONString result;
  Ok (set_response t (chars json)).

(** What the client sees. *)
Inductive Event := didReceiveResponse (statusCode expectedContentLength : Z) | didReceiveData (data : StringImpl) | didComplete.

Inductive PolicyAction := Use | Download | Ignore | StopAllLoads.

(** [dispatchDidReceiveResponse]: the events; the data are moved out of the buffer. *)
Definition dispatchDidReceiveResponse (t : NetworkDataTaskLcmd) (policy : PolicyAction) : NetworkDataTaskLcmd * list Event :=
  let response := didReceiveResponse (m_statusCode t) (zlen (m_responseBuffer t)) in
  match m_state t with
  | Canceling | Completed => (t, [response])
  | _ => match policy with
         | Use => (set_response t [], [response; didReceiveData (m_responseBuffer t); didComplete])
         | _ => (t, [response])
         end
  end.

Definition sendRequest (fuel : nat) (t : NetworkDataTaskLcmd) (url : Url) (popen : StringImpl -> Process) (policy : PolicyAction) : res (NetworkDataTaskLcmd * list Event) :=
  t ← runCmdInner fuel t url popen;
  t ← buildResponse fuel t;
  Ok (dispatchDidReceiveResponse t policy).

Definition cancel (t : NetworkDataTaskLcmd) : NetworkDataTaskLcmd :=
  match m_state t with Canceling | Completed => t | _ => set_state t Canceling end.

(** [scheduledFailure]: the URL was refused when the task was made. *)
Definition resume (fuel : nat) (scheduledFailure : bool) (t : NetworkDataTaskLcmd) (url : Url) (popen : StringImpl -> Process) (policy : PolicyAction) : res (NetworkDataTaskLcmd * list Event) :=
  match m_state t with
  | Canceling | Completed => Ok (t, [])
  | _ =>
      let t := set_state t Running in
      if (scheduledFailure : bool) then Ok (t, []) else sendRequest fuel t url popen policy
  end.

End task.
End Task.
