(* ===== verification/CmdTaskProps.v ===== *)
(** * The task that runs a command: what it computes

    The command line against a substitution of variables in one pass, the filter text
    and the query against the requests and assignments they encode, the response
    against the outcome of the process. *)

From Stdlib Require Ascii String.
Import String.StringSyntax.
From S2P Require Import Prelude WtfString WtfJson CmdFilters CmdFilterProps CmdTask.

Local Open Scope cf.

Module TaskProps.
Import Task.

(** ** Builders *)

Lemma sb_append_nil sb : fits sb -> sb_append sb [] = Ok sb.
Proof. unfold fits, sb_append. intros F. change (zlen (@nil Z)) with 0. rewrite (proj2 (Z.ltb_ge _ _)) by lia. by rewrite app_nil_r. Qed.

Lemma sb_append_bind sb a s (k : StringImpl -> res StringImpl) :
  (forall sb', fits sb' -> k sb' = sb_append sb' s) ->
  (sb' ← sb_append sb a; k sb') = sb_append sb (a ++ s).
Proof.
  intros K. unfold sb_append at 1 2. rewrite zlen_app. pose proof (zlen_nonneg s).
  destruct (Z.ltb_spec MaxLength (zlen sb + zlen a)) as [L|L]; cbn [mbind res_bind].
  - by rewrite (proj2 (Z.ltb_lt _ _)) by lia.
  - rewrite K by (unfold fits; rewrite zlen_app; lia). unfold sb_append. by rewrite zlen_app, Z.add_assoc, app_assoc.
Qed.

Lemma sb_append_result a s (k : StringImpl -> res StringImpl) :
  (forall sb', fits sb' -> k sb' = sb_append sb' s) ->
  (sb ← sb_append [] a; r ← k sb; Ok (Some r)) = (if MaxLength <? zlen (a ++ s) then Crash else Ok (Some (a ++ s))).
Proof.
  intros K. pose proof (sb_append_bind [] a s k K) as P. unfold sb_append in P at 2. change (zlen (@nil Z) + zlen (a ++ s)) with (zlen (a ++ s)) in P.
  destruct (sb_append [] a); cbn [mbind res_bind] in *; rewrite ?P; by destruct (_ <? _).
Qed.

(** ** The command line *)

Section cmdline.
Context (paramMap : list (StringImpl * String)).

Definition value_of (name : StringImpl) : StringImpl :=
  match map_find name paramMap with None => [] | Some value => chars value end.

(** Where the substitution stands: in plain text, after a "$", or in the name of a
    variable. *)
Inductive scan := Plain | Dollar | Name (name : StringImpl).

(** The command line with its variables replaced, in one pass. *)
Fixpoint substitute (st : scan) (l : StringImpl) : StringImpl :=
  match l with
  | [] => match st with Name name => value_of name | _ => [] end
  | c :: l =>
      let plain := if c =? 36 then substitute Dollar l else c :: substitute Plain l in
      match st with
      | Plain => plain
      | Dollar =>
          if c =? 36 then 36 :: substitute Plain l
          else if starts_name c then substitute (Name [c]) l
          else 36 :: c :: substitute Plain l
      | Name name => if in_name c then substitute (Name (name ++ [c])) l else value_of name ++ plain
      end
  end.

Lemma substitute_plain l :
  substitute Plain l =
  match index_of (fun x => x =? 36) l with None => l | Some k => take k l ++ substitute Dollar (drop (S k) l) end.
Proof.
  induction l as [|c l IH]; [done|]. cbn [substitute index_of]. destruct (c =? 36); [done|].
  rewrite IH. by destruct (index_of _ l).
Qed.

Lemma substitute_name name l :
  substitute (Name name) l = value_of (name ++ take_while in_name l) ++ substitute Plain (drop (count_while in_name l) l).
Proof.
  revert name; induction l as [|c l IH]; intros name; cbn [substitute take_while count_while].
  - by rewrite !app_nil_r.
  - destruct (in_name c); [by rewrite IH, <- app_assoc|]. by rewrite app_nil_r, drop_0.
Qed.

Lemma starts_name_in c : starts_name c = true -> in_name c = true.
Proof. unfold starts_name, in_name. zb; lia || done. Qed.

Lemma count_while_le p l : (count_while p l <= length l)%nat.
Proof. induction l as [|c l IH]; cbn; [lia|]. destruct (p c); lia. Qed.

Context (l : StringImpl) (Hl : fits l).

Lemma length_bound : Z.of_nat (length l) <= MaxLength.
Proof. exact Hl. Qed.

Lemma characterAt_spec i c : l !! i = Some c -> characterAt (Some l) (Z.of_nat i) = Ok c.
Proof.
  intros E. pose proof (lookup_lt_Some _ _ _ E). pose proof length_bound. unfold characterAt, zlen. rewrite u32_nat by lia.
  rewrite (proj2 (Z.leb_gt _ _)) by lia. by rewrite (zlookup_nat _ _ _ E).
Qed.

Lemma scan_name_spec fuel e sb :
  (e <= length l)%nat -> (length l - e < fuel)%nat -> zlen sb + Z.of_nat (length l - e) <= MaxLength ->
  scan_name fuel (Some l) (Z.of_nat e) sb =
  Ok (Z.of_nat (e + count_while in_name (drop e l)), sb ++ take_while in_name (drop e l)).
Proof.
  revert e sb; induction fuel as [|fuel IH]; intros e sb He Hf Hb; [lia|]. cbn [scan_name length_]. unfold zlen at 1.
  destruct (Z.ltb_spec (Z.of_nat e) (Z.of_nat (length l))) as [L|L].
  - destruct (lookup_lt_is_Some_2 l e) as [c E]; [lia|]. rewrite (characterAt_spec _ _ E), (drop_S _ _ _ E). cbn [mbind res_bind count_while take_while].
    destruct (in_name c); [|by rewrite app_nil_r, Nat.add_0_r].
    unfold sb_append. change (zlen [c]) with 1. rewrite (proj2 (Z.ltb_ge _ _)) by lia. cbn [mbind res_bind].
    replace (Z.of_nat e + 1) with (Z.of_nat (S e)) by lia. rewrite IH by (rewrite ?zlen_app; change (zlen [c]) with 1; lia).
    by rewrite <- app_assoc, Nat.add_succ_comm.
  - rewrite drop_ge by lia. cbn. by rewrite app_nil_r, Nat.add_0_r.
Qed.

Lemma copy_to_dollar_bind from sb s (k : Z -> StringImpl -> res StringImpl) :
  (from <= length l)%nat ->
  (forall sb', fits sb' ->
     k (match index_of (fun x => x =? 36) (drop from l) with None => notFound | Some j => Z.of_nat from + Z.of_nat j end) sb' = sb_append sb' s) ->
  ('(start, sb) ← copy_to_dollar (Some l) (Z.of_nat from) sb; k start sb) =
  sb_append sb (match index_of (fun x => x =? 36) (drop from l) with None => drop from l | Some j => take j (drop from l) end ++ s).
Proof.
  intros Hfrom K. pose proof length_bound. assert (MaxLength < notFound) as MN by (by vm_compute).
  unfold copy_to_dollar. rewrite find_uchar_spec by done. cbn [mbind res_bind].
  destruct (index_of _ _) as [j|] eqn:E.
  - pose proof (index_of_lt _ _ _ E) as L. rewrite length_drop in L. rewrite (proj2 (Z.eqb_neq _ notFound)) by lia.
    replace (Z.of_nat from + Z.of_nat j - Z.of_nat from) with (Z.of_nat j) by lia. rewrite substring_spec by lia. cbn [mbind res_bind chars default from_option id].
    rewrite <- (sb_append_bind _ _ _ _ K). by destruct (sb_append _ _).
  - rewrite Z.eqb_refl, substring_rest by (done || lia). cbn [mbind res_bind chars default from_option id].
    rewrite <- (sb_append_bind _ _ _ _ K). by destruct (sb_append _ _).
Qed.

Definition loop_from (fuel : nat) (i : nat) : Prop :=
  forall sb, fits sb -> l !! i = Some 36 ->
  cmdline_loop fuel paramMap (Some l) (Z.of_nat i) (Z.of_nat i + 1) sb = sb_append sb (substitute Dollar (drop (S i) l)).

(** Copying up to the next "$" and going on there. *)
Lemma copy_and_loop fuel from sb :
  (forall i, (from <= i < length l)%nat -> loop_from fuel i) -> (0 < fuel)%nat -> (from <= length l)%nat ->
  ('(start, sb) ← copy_to_dollar (Some l) (Z.of_nat from) sb;
   cmdline_loop fuel paramMap (Some l) start (u64 (start + 1)) sb) = sb_append sb (substitute Plain (drop from l)).
Proof.
  intros IH Hf Hfrom. pose proof length_bound as B. rewrite substitute_plain.
  destruct (index_of _ (drop from l)) as [j|] eqn:E.
  - rewrite (copy_to_dollar_bind from sb (substitute Dollar (drop (S j) (drop from l)))); rewrite ?E; try done.
    intros sb' F. pose proof (index_of_lt _ _ _ E) as L. rewrite length_drop in L.
    rewrite drop_drop. replace (from + S j)%nat with (S (from + j)) by lia. rewrite <- Nat2Z.inj_add.
    unfold MaxLength in B. rewrite (wrap_small 64) by (cbn; lia). apply IH; [lia|done|].
    apply index_of_Some in E as (pre & c & post & E & <- & Hc & _). apply Z.eqb_eq in Hc as ->.
    rewrite <- lookup_drop, E. by apply list_lookup_middle.
  - rewrite (copy_to_dollar_bind from sb []); rewrite ?E, ?app_nil_r; try done.
    intros sb' F. destruct fuel as [|fuel]; [lia|]. rewrite sb_append_nil by done. done.
Qed.

Lemma dollar_and_next i c : l !! i = Some 36 -> l !! S i = Some c -> take 2 (drop i l) = [36; c].
Proof. intros E E'. by rewrite (drop_S _ _ _ E), (drop_S _ _ _ E'). Qed.

Lemma cmdline_loop_spec fuel i : (i < length l)%nat -> (length l - i < fuel)%nat -> loop_from fuel i.
Proof.
  revert i; induction fuel as [|fuel IH]; intros i Hi Hf sb F Ei; [lia|]. pose proof length_bound as B.
  assert (MaxLength < notFound) as MN by (by vm_compute).
  cbn [cmdline_loop length_]. rewrite (proj2 (Z.eqb_neq _ notFound)) by lia. cbn [negb andb]. unfold zlen.
  replace (Z.of_nat i + 1) with (Z.of_nat (S i)) by lia.
  destruct (Z.ltb_spec (Z.of_nat (S i)) (Z.of_nat (length l))) as [L|L].
  2: { rewrite drop_ge by lia. cbn [substitute]. by rewrite sb_append_nil. }
  assert (C : forall from sb, (S i <= from <= length l)%nat ->
    ('(start, sb) ← copy_to_dollar (Some l) (Z.of_nat from) sb;
     cmdline_loop fuel paramMap (Some l) start (u64 (start + 1)) sb) = sb_append sb (substitute Plain (drop from l))).
  { intros from sb' R. apply copy_and_loop; [intros j Rj; apply IH; lia|lia|lia]. }
  replace (Z.of_nat (S i) + 1) with (Z.of_nat (S (S i))) by lia.
  destruct (lookup_lt_is_Some_2 l (S i)) as [c Ec]; [lia|]. rewrite (characterAt_spec _ _ Ec), (drop_S _ _ _ Ec). cbn [mbind res_bind substitute].
  destruct (Z.eqb_spec c 36) as [->|N].
  { rewrite (sb_append_bind _ _ (substitute Plain (drop (S (S i)) l))); [done|]. intros sb' _. apply C. lia. }
  destruct (starts_name c) eqn:Sc; cbn [negb].
  - change (chars (Some l)) with l. rewrite scan_name_spec by (done || (change (zlen (@nil Z)) with 0; lia)). cbn [mbind res_bind app].
    rewrite (drop_S _ _ _ Ec). cbn [count_while take_while]. rewrite (starts_name_in _ Sc).
    rewrite substitute_name. cbn [app]. set (n := count_while in_name (drop (S (S i)) l)). set (name := c :: take_while in_name (drop (S (S i)) l)).
    rewrite drop_drop. replace (S (S i) + n)%nat with (S i + S n)%nat by lia. set (e := (S i + S n)%nat).
    assert (Le : (e <= length l)%nat) by (unfold e, n; pose proof (count_while_le in_name (drop (S (S i)) l)) as Q; rewrite length_drop in Q; lia).
    assert (K : forall sb', fits sb' ->
      (if Z.of_nat e <? Z.of_nat (length l)
       then '(start, sb) ← copy_to_dollar (Some l) (Z.of_nat e) sb'; cmdline_loop fuel paramMap (Some l) start (u64 (start + 1)) sb
       else cmdline_loop fuel paramMap (Some l) (Z.of_nat i) (Z.of_nat e) sb') = sb_append sb' (substitute Plain (drop e l))).
    { intros sb' F'. destruct (Z.ltb_spec (Z.of_nat e) (Z.of_nat (length l))) as [Q|Q]; [apply C; lia|].
      rewrite drop_ge by lia. cbn [substitute]. rewrite sb_append_nil by done. destruct fuel as [|fuel]; [lia|].
      cbn [cmdline_loop length_]. unfold zlen. rewrite (proj2 (Z.ltb_ge (Z.of_nat e) _)) by lia. by rewrite andb_false_r. }
    unfold value_of. destruct (map_find name paramMap) as [value|]; [|by apply K].
    by apply sb_append_bind.
  - rewrite substring_spec with (p := i) (n := 2%nat) by (lia || by vm_compute). rewrite (dollar_and_next _ _ Ei Ec). cbn [mbind res_bind chars default from_option id].
    rewrite (sb_append_bind _ _ (substitute Plain (drop (S (S i)) l))); [done|]. intros sb' _. apply C. lia.
Qed.

(** C13: the command line that is run is the text of the request with every "$name"
    replaced by the value of that variable (by nothing if there is none) and every "$$"
    by "$", in one pass: a value that contains "$" is not substituted again.  A "$" at
    the end is dropped, one before any other character stays.  A result that is too
    long for a string ends the process. *)
Theorem cmdline_substitutes :
  parseCmdLine paramMap (Some l) =
  (if MaxLength <? zlen (substitute Plain l) then Crash else Ok (Some (substitute Plain l))).
Proof.
  pose proof length_bound as B. assert (MaxLength < notFound) as MN by (by vm_compute).
  unfold parseCmdLine. destruct (isEmpty (Some l)) eqn:E0.
  { destruct l as [|c l']; [done|]. cbn [isEmpty] in E0. by rewrite FilterProps.empty_eqb in E0. }
  change (find_uchar (Some l) 36 0) with (find_uchar (Some l) 36 (Z.of_nat 0)). rewrite find_uchar_spec by (done || lia).
  rewrite drop_0. cbn [mbind res_bind]. rewrite substitute_plain. destruct (index_of _ l) as [k|] eqn:E.
  - pose proof (index_of_lt _ _ _ E) as L. rewrite Z.add_0_l, (proj2 (Z.eqb_neq _ notFound)) by lia.
    change (substring (Some l) 0 (Z.of_nat k)) with (substring (Some l) (Z.of_nat 0) (Z.of_nat k)). rewrite substring_spec by lia.
    rewrite drop_0. cbn [mbind res_bind chars default from_option id].
    assert (Ek : l !! k = Some 36).
    { apply index_of_Some in E as (pre & c & post & E & <- & Hc & _). apply Z.eqb_eq in Hc as ->. rewrite E. by apply list_lookup_middle. }
    apply sb_append_result. intros sb' F'. apply cmdline_loop_spec; (done || lia).
  - rewrite Z.eqb_refl. rewrite (proj2 (Z.ltb_ge _ _)) by (exact B). done.
Qed.

End cmdline.
(** ** The text of the filters *)

(** The part of a text before the last [c]. *)
Fixpoint before_last (c : Z) (l : StringImpl) : option StringImpl :=
  match l with
  | [] => None
  | x :: l =>
      match before_last c l with
      | Some pre => Some (x :: pre)
      | None => if x =? c then Some [] else None
      end
  end.

(** The parts of a text before and after the first [c]. *)
Fixpoint around_first (c : Z) (l : StringImpl) : StringImpl * StringImpl :=
  match l with
  | [] => ([], [])
  | x :: l => if x =? c then ([], l) else let '(a, b) := around_first c l in (x :: a, b)
  end.

(** A request "name('param')"; the quotes and the parentheses may be missing. *)
Definition request_of (p : StringImpl) : String * String :=
  let '(name, rest) := around_first 40 p in
  (Some name, Some (trim isSingleQuotes (default rest (before_last 41 rest)))).

Definition requests (cmdFilter : StringImpl) : list (String * String) := request_of <$> words (fun x => x =? 59) cmdFilter.

Lemma around_first_spec c l :
  around_first c l = match index_of (fun x => x =? c) l with None => (l, []) | Some k => (take k l, drop (S k) l) end.
Proof.
  induction l as [|x l IH]; cbn; [done|]. destruct (x =? c); [done|]. rewrite IH. by destruct (index_of _ l).
Qed.

Lemma before_last_None c l : (forall j, l !! j <> Some c) -> before_last c l = None.
Proof.
  induction l as [|x l IH]; intros N; cbn; [done|]. rewrite IH by (intros j; apply (N (S j))).
  pose proof (N 0%nat) as N0. destruct (Z.eqb_spec x c) as [->|]; [|done]. by destruct N0.
Qed.

Lemma before_last_take c l k : l !! k = Some c -> (forall j, (k < j)%nat -> l !! j <> Some c) -> before_last c l = Some (take k l).
Proof.
  revert k; induction l as [|x l IH]; intros [|k] E N; try done; cbn.
  - injection E as ->. rewrite before_last_None by (intros j; apply (N (S j)); lia). by rewrite Z.eqb_refl.
  - rewrite (IH k E); [done|]. intros j Hj. apply (N (S j)). lia.
Qed.

Lemma find_char_text l c : fits l ->
  find (Some l) (Some [c]) = Ok (match index_of (fun x => x =? c) l with Some k => Z.of_nat k | None => notFound end).
Proof.
  intros F. cbn [find]. unfold find_impl. change (zlen [c] =? 1) with true. cbn iota. change ([c].[0]) with (Some c). cbn [or_ub mbind res_bind].
  rewrite find_char_spec by lia. change (Z.to_nat 0) with 0%nat. rewrite drop_0. by destruct (index_of _ l).
Qed.

Lemma reverseFind_text l c : fits l ->
  exists o, reverseFind (Some l) (Some [c]) = Ok (position o) /\ before_last c l = (fun k => take k l) <$> o /\
    forall k, o = Some k -> (k < length l)%nat.
Proof.
  intros F. cbn [reverseFind]. destruct (reverseFind_impl_spec l [c] (Z.to_nat MaxLength) F) as (o & Ho & E).
  rewrite Z2Nat.id in E by done. exists o. split; [done|]. unfold fits, zlen in F.
  assert (B : forall j, l !! j = Some c -> (j <= Z.to_nat MaxLength)%nat)
    by (intros j Ej%lookup_lt_Some; apply Nat2Z.inj_le; rewrite Z2Nat.id by done; lia).
  destruct o as [k|]; cbn [fmap option_fmap option_map found_last] in *.
  - destruct Ho as (_ & O%occurs_char & N). split; [|intros ? [= <-]; by eapply lookup_lt_Some].
    apply before_last_take; [done|].
    intros j Hj Ej. apply (N j); [split; [lia|by apply B]|by apply occurs_char].
  - split; [|done]. apply before_last_None. intros j Ej. apply (Ho j); [by apply B|by apply occurs_char].
Qed.

(** The name and the rest of a parameter, as the code cuts them. *)
Lemma cut_at_spec l c : fits l ->
  exists i, find (Some l) (Some [c]) = Ok i /\
    let index := if i =? notFound then length_ (Some l) else i in
    substring (Some l) 0 index = Ok (Some (around_first c l).1) /\
    substring (Some l) (index + 1) MaxLength = Ok (Some (around_first c l).2).
Proof.
  intros F. rewrite find_char_text, around_first_spec by done. cbn [length_].
  assert (MaxLength < notFound) as MN by (by vm_compute). pose proof F as B. unfold fits, zlen in B.
  eexists. split; [done|]. cbn zeta. change (substring (Some l) 0) with (substring (Some l) (Z.of_nat 0)). destruct (index_of _ l) as [j|] eqn:E.
  - apply index_of_lt in E. rewrite (proj2 (Z.eqb_neq _ notFound)) by lia.
    replace (Z.of_nat j + 1) with (Z.of_nat (S j)) by lia. by rewrite substring_spec, substring_rest by (done || lia).
  - rewrite Z.eqb_refl. unfold zlen. replace (Z.of_nat (length l) + 1) with (Z.of_nat (S (length l))) by lia.
    rewrite substring_spec, substring_rest by (done || lia). cbn [fst snd]. by rewrite drop_0, firstn_all, drop_ge by lia.
Qed.

Lemma around_first_fits c l : fits l -> fits (around_first c l).1 /\ fits (around_first c l).2.
Proof.
  unfold fits, zlen. rewrite around_first_spec. destruct (index_of _ l); cbn [fst snd]; rewrite ?length_take, ?length_drop; cbn [length]; lia.
Qed.

Lemma filter_request_spec p : fits p -> filter_request (Some p) = Ok (request_of p).
Proof.
  intros F. unfold filter_request, request_of. change (lit "(") with [40]. change (lit ")") with [41].
  pose proof (around_first_fits 40 p F) as [_ Fr]. destruct (cut_at_spec p 40 F) as (i & -> & En & Ev). cbn [mbind res_bind].
  cbn zeta in En, Ev. rewrite En. cbn [mbind res_bind]. rewrite Ev. cbn [mbind res_bind].
  destruct (around_first 40 p) as [name rest]. cbn [fst snd] in *.
  assert (E : (if isEmpty (Some rest) then Ok (Some rest) else
     idx ← reverseFind (Some rest) (Some [41]); if idx =? notFound then Ok (Some rest) else substring (Some rest) 0 idx) =
     Ok (Some (default rest (before_last 41 rest)))).
  { destruct rest as [|x rest']; [done|]. cbn [isEmpty]. rewrite FilterProps.empty_eqb. set (rest := x :: rest') in *. clearbody rest.
    destruct (reverseFind_text rest 41 Fr) as (o & -> & -> & L). cbn [mbind res_bind]. unfold fits, zlen in Fr.
    assert (MaxLength < notFound) as MN by (by vm_compute).
    destruct o as [k|]; cbn [position fmap option_fmap option_map default from_option id]; [|by rewrite Z.eqb_refl].
    specialize (L k eq_refl). rewrite (proj2 (Z.eqb_neq _ notFound)) by lia.
    change 0 with (Z.of_nat 0). rewrite substring_spec by lia. by rewrite drop_0. }
  rewrite E. cbn [mbind res_bind]. unfold stripLeadingAndTrailingCharacters. by rewrite strip_spec.
Qed.

Section filters.
Context `{ICU} `{Doubles} `{Unicode} (fuel : nat).

Lemma add_requests_spec ps m :
  Forall fits ps -> add_requests fuel m (Some <$> ps) = FilterProps.add_all fuel m (request_of <$> ps).
Proof.
  intros F. revert m. induction F as [|p ps Fp F IH]; intros m; [done|]. cbn [fmap list_fmap add_requests FilterProps.add_all].
  rewrite filter_request_spec by done. cbn [mbind res_bind]. destruct (request_of p) as [name value]. cbn [fst snd].
  destruct (addFilter fuel m name value) as [[b m']| | |]; cbn [mbind res_bind]; [apply IH|done..].
Qed.

Lemma parseCmdFilter_spec m cmdFilter :
  fits cmdFilter -> parseCmdFilter fuel m (Some cmdFilter) = FilterProps.add_all fuel m (requests cmdFilter).
Proof.
  intros F. unfold parseCmdFilter. destruct cmdFilter as [|c l] eqn:E; [done|]. rewrite <- E in *. clear E.
  destruct (isEmpty (Some cmdFilter)) eqn:E0.
  { destruct cmdFilter; [done|]. cbn [isEmpty] in E0. by rewrite FilterProps.empty_eqb in E0. }
  change (lit ";") with [59]. rewrite split_spec by done. cbn [mbind res_bind]. apply add_requests_spec.
  apply Forall_forall. intros x Ix%list_elem_of_In. by eapply FilterProps.words_fits.
Qed.

Lemma requests_count cmdFilter : zlen (requests cmdFilter) <= zlen cmdFilter.
Proof. unfold requests, zlen. rewrite length_fmap. pose proof (FilterProps.words_count (fun x => x =? 59) cmdFilter). lia. Qed.

(** C14: the filter text of a request is a list of "name('parameter')" separated by
    semicolons.  The filters it names are applied to the lines in this order, each to
    all the rows, wherever the formats stand among them; the rows that remain are
    formatted by the last format that is named, by the keys format when there is none.
    A name that is no filter changes nothing; case, and white space around a name, do
    not matter. *)
Theorem filter_text_runs cmdFilter lines :
  fits cmdFilter ->
  (m ← parseCmdFilter fuel CmdFilterManager_new (Some cmdFilter); manager_doFilter fuel m lines) =
  (let fs := flat_map (FilterProps.resolve fuel) (requests cmdFilter) in
   rows ← FilterProps.run_filters (List.filter FilterProps.no_format fs) (List.map (fun l => [l]) lines);
   append_one (FilterProps.chosen_format fs) rows).
Proof.
  intros F. rewrite parseCmdFilter_spec by done. apply FilterProps.manager_runs_requests.
  pose proof (requests_count cmdFilter). unfold fits, MaxLength in F. lia.
Qed.

End filters.

(** ** The query *)

Lemma isASCII_true c : 0 <= c < 128 -> isASCII c = true.
Proof.
  intros R. unfold isASCII. rewrite <- Z.ldiff_land. change 127 with (Z.ones 7). rewrite Z.ldiff_ones_r by lia.
  rewrite Z.shiftr_div_pow2 by lia. by rewrite Z.div_small by (cbn; lia).
Qed.

(** Percent-encoding of the bytes that [escape] selects, in lower or upper case. *)
Section encode.
Context (escape : Z -> bool).

Definition encode_byte (c : Z) : StringImpl :=
  if escape c then [37; upperNibbleToASCIIHexDigit c; lowerNibbleToASCIIHexDigit c] else [c].

Definition percent_encode (s : StringImpl) : StringImpl := flat_map encode_byte s.

Context (Hpercent : escape 37 = true).

Lemma percentDecoded_encode s : Forall (in_range 8) s -> percentDecoded (percent_encode s) = s.
Proof.
  induction 1 as [|c s Hc _ IH]; [done|]. unfold percent_encode in *. cbn [flat_map]. unfold encode_byte at 1.
  destruct (escape c) eqn:E.
  - destruct (hex_byte c Hc) as (Hu & Hlo & Hv). cbn [app percentDecoded]. rewrite Hu, Hlo. cbn [andb Z.eqb Pos.eqb]. by rewrite Hv, IH.
  - assert (N : c <> 37) by congruence. cbn [app percentDecoded]. rewrite (proj2 (Z.eqb_neq _ _) N). cbn [andb].
    assert (u8 c = c) as -> by (by apply wrap_small). rewrite IH. by destruct (flat_map encode_byte s) as [|? [|??]].
Qed.

Context (Hampersand : escape 38 = true).
Context `{ICU} `{Unicode} `{Utf16}.

Definition ascii_text (s : StringImpl) : Prop := Forall (fun c => 0 <= c < 128) s.

Lemma decode_param s : ascii_text s -> fits s -> s <> [] -> decodeEscapeSequencesFromParsedURL (percent_encode s) = Ok (Some s).
Proof.
  intros A F N. unfold decodeEscapeSequencesFromParsedURL.
  assert (E : percent_encode s <> []) by (destruct s as [|c s]; [done|]; cbn; unfold encode_byte; by destruct (escape c)).
  destruct (percent_encode s) as [|c e] eqn:Ep; [done|]. rewrite FilterProps.empty_eqb, <- Ep.
  rewrite percentDecoded_encode by (eapply Forall_impl; [exact A|]; unfold in_range; cbn; lia).
  unfold fromUTF8. rewrite (proj2 (Z.ltb_ge _ _)) by exact F. destruct s as [|x s]; [done|]. rewrite FilterProps.empty_eqb.
  assert (forallb isASCII (x :: s) = true) as ->; [|done]. apply forallb_forall. intros y Iy. unfold ascii_text in A. rewrite Forall_forall in A.
  specialize (A y (proj2 (list_elem_of_In _ _) Iy)). by apply isASCII_true.
Qed.

Definition param_text (p : StringImpl * StringImpl) : StringImpl := p.1 ++ 61 :: p.2.

Fixpoint query_text (ps : list (StringImpl * StringImpl)) : StringImpl :=
  match ps with
  | [] => []
  | [p] => percent_encode (param_text p)
  | p :: ps => percent_encode (param_text p) ++ 38 :: query_text ps
  end.

(** What a parameter of the query means. *)
Definition assign (t : NetworkDataTaskLcmd) (p : StringImpl * StringImpl) : NetworkDataTaskLcmd :=
  let name := trim isSpaceOrNewline p.1 in
  let value := Some (trim isSpaceOrNewline p.2) in
  if bool_decide (toASCIILower <$> name = CMD_FILTER) then set_query t value (m_cmdLine t) (m_paramMap t)
  else if bool_decide (toASCIILower <$> name = CMD_LINE) then set_query t (m_cmdFilter t) value (m_paramMap t)
  else set_query t (m_cmdFilter t) (m_cmdLine t) (map_set name value (m_paramMap t)).

Definition plain_param (p : StringImpl * StringImpl) : Prop :=
  ascii_text p.1 /\ ascii_text p.2 /\ Forall (fun c => (c =? 61) = false) p.1 /\ fits (param_text p).

Lemma around_first_app c a b : Forall (fun x => (x =? c) = false) a -> around_first c (a ++ c :: b) = (a, b).
Proof. induction 1 as [|x a Hx _ IH]; cbn; [by rewrite Z.eqb_refl|]. by rewrite Hx, IH. Qed.

Lemma parse_param_spec t p : plain_param p -> parse_param t (Some (percent_encode (param_text p))) = Ok (assign t p).
Proof.
  intros (A1 & A2 & N & F). unfold parse_param, assign. cbn [chars default from_option id].
  rewrite decode_param; [|by apply Forall_app_2; [|constructor; [lia|]]|done|by destruct p.1 eqn:E; unfold param_text; rewrite E].
  cbn [mbind res_bind]. change (lit "=") with [61].
  destruct (cut_at_spec _ 61 F) as (i & -> & En & Ev). cbn [mbind res_bind]. cbn zeta in En, Ev. rewrite En. cbn [mbind res_bind].
  unfold param_text in En, Ev |- *. rewrite around_first_app in En, Ev |- * by done. cbn [fst snd].
  rewrite stripWhiteSpace_spec. cbn [mbind res_bind]. rewrite Ev. cbn [mbind res_bind]. rewrite stripWhiteSpace_spec. cbn [mbind res_bind].
  unfold equalIgnoringASCIICase_. cbn [chars default from_option id]. rewrite !equalIgnoringASCIICase_spec. cbn [mbind res_bind].
  change (toASCIILower <$> CMD_FILTER) with CMD_FILTER. change (toASCIILower <$> CMD_LINE) with CMD_LINE.
  case_bool_decide; [done|]. by case_bool_decide.
Qed.

Lemma encode_no_ampersand s : Forall (in_range 8) s -> Forall (fun x => (x =? 38) = false) (percent_encode s).
Proof.
  induction 1 as [|c s Hc _ IH]; [constructor|]. apply Forall_app_2; [|done]. unfold encode_byte. destruct (escape c) eqn:E.
  - destruct (hex_byte c Hc) as (Hu & Hlo & _). repeat constructor; apply Z.eqb_neq; intros E'; [by rewrite E' in Hu|by rewrite E' in Hlo].
  - repeat constructor. apply Z.eqb_neq. congruence.
Qed.

Lemma pieces_sep p a c b : p c = true -> Forall (fun x => p x = false) a -> pieces p (a ++ c :: b) = a :: pieces p b.
Proof.
  intros Hc Ha. rewrite (pieces_index p _ (length a)) by (by apply index_of_app). rewrite take_app_length.
  by rewrite (cons_middle c a b), app_assoc, (drop_app_length' (a ++ [c])) by (rewrite length_app; cbn; lia).
Qed.

Lemma query_words ps :
  Forall plain_param ps -> words (fun x => x =? 38) (query_text ps) = (fun p => percent_encode (param_text p)) <$> ps.
Proof.
  assert (Q : forall p, plain_param p -> Forall (fun x => (x =? 38) = false) (percent_encode (param_text p)) /\ nonempty (percent_encode (param_text p)) = true).
  { intros p (A1 & A2 & _ & _). split.
    - apply encode_no_ampersand. apply Forall_app_2; [|constructor]; [..|].
      + eapply Forall_impl; [exact A1|]. unfold in_range. cbn. lia.
      + done.
      + eapply Forall_impl; [exact A2|]. unfold in_range. cbn. lia.
    - unfold param_text. destruct p.1 as [|c n]; cbn; unfold encode_byte; [by destruct (escape 61)|by destruct (escape c)]. }
  unfold words. induction 1 as [|p ps Hp Hps IH]; [done|]. destruct (Q p Hp) as [N E]. destruct ps as [|p' ps].
  - cbn [query_text]. rewrite pieces_None by (by apply index_of_None). cbn. by rewrite E.
  - change (query_text (p :: p' :: ps)) with (percent_encode (param_text p) ++ 38 :: query_text (p' :: ps)).
    rewrite pieces_sep by done. cbn [List.filter]. rewrite E, IH. done.
Qed.

(** A query whose parameters are written as percent-encoded "name=value", joined by
    "&", is read back as these assignments, in order: the filter text, the command
    line (whatever the case of their names) or a variable, the last one of a name
    winning, without the white space around names and values.  The encoding may
    escape any characters, "%" and "&" at least. *)
Theorem query_roundtrip t ps :
  Forall plain_param ps -> fits (query_text ps) -> parseQueryString t (Some (query_text ps)) = Ok (foldl assign t ps).
Proof.
  intros Hps F. unfold parseQueryString. destruct (isEmpty (Some (query_text ps))) eqn:E0.
  { destruct ps as [|p ps]; [done|]. pose proof (query_words _ Hps) as W. destruct (query_text (p :: ps)); [done|].
    cbn [isEmpty] in E0. by rewrite FilterProps.empty_eqb in E0. }
  change (lit "&") with [38]. rewrite split_spec by done. cbn [mbind res_bind]. rewrite query_words by done. clear E0 F.
  revert t. induction Hps as [|p ps Hp Hps IH]; intros t; [done|]. cbn [fmap list_fmap parse_params foldl].
  rewrite parse_param_spec by done. cbn [mbind res_bind]. apply IH.
Qed.

End encode.

(** ** The response *)

Section response.
Context `{ICU} `{DoublesLaws} `{Unicode} (fuel : nat).

(** The values of the lines. *)
Definition line_values (t : NetworkDataTaskLcmd) : res (list Value) :=
  if zlen (m_readLines t) =? 0 then Ok [] else manager_doFilter fuel (m_filterManager t) (m_readLines t).

(** What the response says of the outcome of a command. *)
Definition report (t : NetworkDataTaskLcmd) (values : list Value) : Value :=
  let members :=
    [(lit "statusCode", create_int (m_statusCode t));
     (lit "errorMsg", if isEmpty (m_errorMsg t) then Null else Text (m_errorMsg t));
     (lit "exitCode", if bool_decide (m_statusCode t = 200 \/ m_statusCode t = 404) then create_int (m_exitCode t) else Null);
     (lit "lines", Array values)] in
  Object members members.*1.

Lemma push_values_spec vs acc : push_values (Array acc) vs = Ok (Array (acc ++ vs)).
Proof. revert acc; induction vs as [|v vs IH]; intros acc; cbn; [by rewrite app_nil_r|]. by rewrite IH, <- app_assoc. Qed.

Lemma response_object_spec t values : line_values t = Ok values -> response_object fuel t = Ok (report t values).
Proof.
  intros E. unfold response_object, report. unfold line_values in E.
  assert (A : (if zlen (m_readLines t) =? 0 then Ok (Array []) else
     lines ← manager_doFilter fuel (m_filterManager t) (m_readLines t); push_values (Array []) lines) = Ok (Array values)).
  { destruct (_ =? 0); [by injection E as <-|]. rewrite E. apply push_values_spec. }
  rewrite A. clear A E.
  assert (B : (m_statusCode t =? 200) || (m_statusCode t =? 404) = bool_decide (m_statusCode t = 200 \/ m_statusCode t = 404)).
  { destruct (Z.eqb_spec (m_statusCode t) 200), (Z.eqb_spec (m_statusCode t) 404); [|by rewrite bool_decide_true by auto..|by rewrite bool_decide_false by tauto]. lia. }
  rewrite B. by destruct (isEmpty _), (bool_decide _).
Qed.

Lemma code_units_lit s : forallb (fun c => bool_decide (in_range 16 c)) s = true -> code_units s.
Proof. intros F. apply Forall_forall. intros x Ix%list_elem_of_In. rewrite forallb_forall in F. by apply F, bool_decide_eq_true in Ix. Qed.

Lemma report_wf t values : Forall wf values -> code_units (chars (m_errorMsg t)) -> wf (report t values).
Proof.
  intros W C. unfold report. cbn [wf fmap list_fmap fst List.map snd]. split; [done|]. split; [|split].
  - match goal with |- ?P => apply (bool_decide_unpack P) end. by vm_compute.
  - repeat (apply Forall_cons_2; [by apply code_units_lit|]). constructor.
  - apply Forall_cons_2; [done|]. apply Forall_cons_2; [by destruct (isEmpty _)|].
    apply Forall_cons_2; [by destruct (bool_decide _)|]. apply Forall_cons_2; [by apply Forall_id_map|constructor].
Qed.

(** C15: the response to a command is a JSON text that a reader parses back into what is to
    be reported: the status, the error message or null, the exit code when the command
    was run to its end and null otherwise, and the values of the lines in order.  It is
    asked that the filters give values for the lines, that these and the error message are of code units of
    16 bits, the objects without duplicate keys, and that the values are nested at most 998 deep so that the parser follows them. *)
Theorem response_reports_outcome t values :
  line_values t = Ok values -> Forall wf values -> code_units (chars (m_errorMsg t)) ->
  Forall (fun v => Z.of_nat (height v) <= stackLimit - 2) values ->
  exists t', buildResponse fuel t = Ok t' /\ parseJSON (Some (m_responseBuffer t')) = Ok (Some (meaning (report t values))).
Proof.
  intros E W C Hh. unfold buildResponse. rewrite (response_object_spec _ _ E). cbn [mbind res_bind].
  pose proof (report_wf t values W C) as Wr.
  assert (Hr : Z.of_nat (height (report t values)) <= stackLimit).
  { assert (M : (foldr Nat.max 0 (List.map height values) <= 998)%nat).
    { clear -Hh. induction Hh as [|v vs Hv _ IH]; cbn; [lia|]. unfold stackLimit in Hv. lia. }
    unfold report. cbn [height List.map foldr snd]. unfold stackLimit.
    destruct (isEmpty _), (bool_decide _); cbn [height create_int]; lia. }
  destruct (text_parses _ Wr Hr) as [-> P]. cbn [mbind res_bind chars default from_option id]. eexists. by split.
Qed.

End response.

(** ** The course of a task *)

Section course.
Context `{ICU} `{Doubles} `{Unicode} `{Utf16} (fuel : nat).

(** What preparing a command leaves alone. *)
Definition untouched (t t' : NetworkDataTaskLcmd) : Prop :=
  m_state t' = m_state t /\ m_readLines t' = m_readLines t /\ m_errorMsg t' = m_errorMsg t.

Ltac unbind E := repeat (apply res_bind_Ok in E as (? & _ & E); cbn beta iota zeta in E).

Lemma parse_param_untouched t p t' : parse_param t p = Ok t' -> untouched t t'.
Proof.
  unfold parse_param. intros E. unbind E. match type of E with (if ?b then _ else _) = _ => destruct b end; [by injection E as <-|].
  unbind E. match type of E with (if ?b then _ else _) = _ => destruct b end; [by injection E as <-|].
  match type of E with match ?n with _ => _ end = _ => destruct n end; [by injection E as <-|done].
Qed.

Lemma untouched_trans t1 t2 t3 : untouched t1 t2 -> untouched t2 t3 -> untouched t1 t3.
Proof. unfold untouched. intuition congruence. Qed.

Lemma parse_params_untouched ps t t' : parse_params t ps = Ok t' -> untouched t t'.
Proof.
  revert t; induction ps as [|p ps IH]; intros t; cbn [parse_params]; [by intros [= <-]|].
  intros (t1 & E1 & E2)%res_bind_Ok. eapply untouched_trans; [by eapply parse_param_untouched|by apply IH].
Qed.

Lemma prepare_untouched t url t' command : prepare fuel t url = Ok (t', command) -> untouched t t'.
Proof.
  unfold prepare. intros ([t1 cmdLine] & E1 & E)%res_bind_Ok. unbind E. injection E as -> _.
  destruct (query url) as [q|]; [|by injection E1 as <- _]. apply res_bind_Ok in E1 as (t2 & Eq & E1). unbind E1. injection E1 as <- _.
  enough (untouched t t2) as U by exact U. unfold parseQueryString in Eq. destruct (isEmpty q); [by injection Eq as <-|].
  apply res_bind_Ok in Eq as (ps & _ & Eq). by eapply parse_params_untouched.
Qed.

Lemma read_blocks_None blocks acc : read_blocks blocks acc = None <-> existsb snd blocks = true.
Proof. revert acc; induction blocks as [|[d [|]] blocks IH]; intros acc; cbn; [done|done|apply IH]. Qed.

(** A task that is canceled before it is resumed runs nothing and tells the client
    nothing.  One that is canceled while the command runs sends the response with
    status 503, but neither data nor a completion. *)
Theorem canceled_task_never_completes url popen policy :
  (forall scheduledFailure t, resume fuel scheduledFailure (cancel t) url popen policy = Ok (cancel t, [])) /\
  (forall t command blocks errorMsg exitStatus,
     prepare fuel (set_state task_new Running) url = Ok (t, command) ->
     popen command = popened blocks errorMsg exitStatus -> existsb snd blocks = true -> code_units errorMsg ->
     exists t' length', resume fuel false task_new url popen policy = Ok (t', [didReceiveResponse 503 length']) /\ m_state t' = Canceling).
Proof.
  split.
  - intros b t. unfold resume, cancel. by destruct (m_state t) eqn:E; cbn [m_state set_state]; rewrite ?E.
  - intros t command blocks msg st Ep Eo Ec Cm. unfold resume. cbn [m_state task_new]. unfold sendRequest, runCmdInner. rewrite Ep. cbn [mbind res_bind].
    rewrite Eo, (proj2 (read_blocks_None blocks [])) by done. cbn [mbind res_bind].
    destruct (prepare_untouched _ _ _ _ Ep) as (Es & El & _). cbn in El.
    set (t1 := set_outcome _ _ _ _ _). assert (El1 : m_readLines t1 = []) by (unfold t1; cbn; done).
    unfold buildResponse. erewrite response_object_spec; [|unfold line_values; by rewrite El1]. cbn [mbind res_bind].
    unfold toJSONString. rewrite (writeJSON_text _ (report_wf t1 [] (Forall_nil_2 _) Cm)). cbn [mbind res_bind].
    unfold dispatchDidReceiveResponse. by eexists _, _.
Qed.

End course.

(** ** Concrete inputs *)

(** Characters that fit into one code unit. *)
Definition bmp_utf16 : Utf16 := {|
  U16_APPEND := fun offset capacity c => if (c <? 65536) && (offset <? capacity) then Some [c] else None |}.

Lemma cmdline_witness :
  parseCmdLine [(lit "dir", Some (lit "/$x"))] (Some (lit "ls $dir/a $$ $no$")) = Ok (Some (lit "ls /$x/a $ ")).
Proof. rewrite cmdline_substitutes by by vm_compute. by vm_compute. Defined.

Lemma filter_text_witness :
  (m ← @parseCmdFilter plain_icu int_doubles FilterProps.ascii_unicode 20 CmdFilterManager_new (Some (lit "Head(2); delimiter(':')"));
   @manager_doFilter plain_icu int_doubles FilterProps.ascii_unicode 20 m [Some (lit "a:b"); Some (lit "c"); Some (lit "d")]) =
  FilterProps.formatted.
Proof. rewrite filter_text_runs by by vm_compute. vm_cast_no_check (@eq_refl _ FilterProps.formatted). Defined.

Definition escape_some (c : Z) : bool := (c =? 37) || (c =? 38) || (c =? 32).

Definition some_params : list (StringImpl * StringImpl) :=
  [(lit "CmdLine", lit "ls $d "); (lit "d", lit "a=b&c"); (lit "d", lit "50%")].

Lemma query_witness :
  @parseQueryString plain_icu FilterProps.ascii_unicode bmp_utf16 task_new (Some (query_text escape_some some_params)) =
  Ok (set_query task_new None (Some (lit "ls $d")) [(lit "d", Some (lit "50%"))]).
Proof.
  rewrite (@query_roundtrip escape_some eq_refl eq_refl plain_icu FilterProps.ascii_unicode bmp_utf16 task_new some_params); [done| |done].
  repeat (apply Forall_cons_2; [repeat split; repeat constructor; by vm_compute|]). constructor.
Defined.

Definition finished_task : NetworkDataTaskLcmd := set_outcome task_new [Some (lit "a")] 200 None 1.

Definition finished_values : list (@Value int_doubles) := [Object [(lit "C0", Text (Some (lit "a")))] [lit "C0"]].

Lemma response_witness :
  exists t', @buildResponse plain_icu int_doubles FilterProps.ascii_unicode 20 finished_task = Ok t' /\
    @parseJSON plain_icu int_doubles (Some (m_responseBuffer t')) =
    Ok (Some (meaning (report finished_task finished_values))).
Proof.
  apply (@response_reports_outcome plain_icu int_doubles int_doubles_laws FilterProps.ascii_unicode 20).
  - vm_cast_no_check (@eq_refl _ (@Ok (list (@Value int_doubles)) finished_values)).
  - apply Forall_cons_2; [|constructor]. cbn [wf]. split; [done|]. split; [apply NoDup_singleton|].
    split; repeat constructor; by apply code_units_lit || done.
  - constructor.
  - by repeat constructor.
Defined.

Lemma canceled_witness :
  exists t' length',
    @resume plain_icu int_doubles FilterProps.ascii_unicode bmp_utf16 20 false task_new {| query := None; path := Some (lit "ls") |}
      (fun _ => popened [(lit "a", false); (lit "b", true)] (lit "Success") 0) Use =
    Ok (t', [didReceiveResponse 503 length']) /\ m_state t' = Canceling.
Proof.
  eapply canceled_task_never_completes; [by vm_compute|done|done|]. apply code_units_lit. by vm_compute.
Defined.

End TaskProps.
