(* ===== verification/WtfHash.v ===== *)
(** * Hash tables (WTF/wtf/HashTable.h, HashMap.h, MathExtras.h)

    The open-addressing table behind the maps and sets of the program: a table of a
    power of two buckets, probed with a stride that depends on the hash.  A bucket
    is empty, deleted or holds an entry; the traits that encode the first two as
    key values are not part of the model, so an "is this key equal" never holds for
    them.  The pointer to an entry is the index of its bucket.

    The counters in front of the table are unsigned integers of 32 bits and wrap
    around.  Weak keys, statistics and the lists of iterators that debug builds
    keep are left out. *)

From stdpp Require Import gmap.
From S2P Require Import Prelude.

Local Open Scope cf.

Module Hash.

(** ** Sizes *)

(** MathExtras.h *)
Definition roundUpToPowerOfTwo (v : Z) : Z :=
  let v := u32 (v - 1) in
  let v := Z.lor v (Z.shiftr v 1) in
  let v := Z.lor v (Z.shiftr v 2) in
  let v := Z.lor v (Z.shiftr v 4) in
  let v := Z.lor v (Z.shiftr v 8) in
  let v := Z.lor v (Z.shiftr v 16) in
  u32 (v + 1).

Definition smallMaxLoadNumerator : Z := 3.
Definition smallMaxLoadDenominator : Z := 4.
Definition largeMaxLoadNumerator : Z := 1.
Definition largeMaxLoadDenominator : Z := 2.
Definition maxSmallTableCapacity : Z := 1024.
Definition minLoad : Z := 6.
Definition minimumTableSize : Z := 8.

(** [HashTableCapacityForSize::shouldExpand], in 64 bits. *)
Definition policy_shouldExpand (keyAndDeleteCount tableSize : Z) : bool :=
  if tableSize <=? maxSmallTableCapacity
  then u64 (tableSize * smallMaxLoadNumerator) <=? u64 (keyAndDeleteCount * smallMaxLoadDenominator)
  else u64 (tableSize * largeMaxLoadNumerator) <=? u64 (keyAndDeleteCount * largeMaxLoadDenominator).

(** Half way between the average and the greatest load: 29/48 for small tables and
    5/12 for large ones.  The code compares in floating point; the size is zero or a
    power of two, whose product with such a ratio is never an integer and differs from
    every count by a forty-eighth at least, far more than the rounding. *)
Definition aboveThresholdForEagerExpansion (numerator denominator keyCount tableSize : Z) : bool :=
  tableSize * numerator <=? keyCount * denominator.

Definition computeBestTableSize (keyCount : Z) : Z :=
  let bestTableSize := roundUpToPowerOfTwo keyCount in
  let bestTableSize := if policy_shouldExpand keyCount bestTableSize then u32 (bestTableSize * 2) else bestTableSize in
  let bestTableSize :=
    if bestTableSize <=? maxSmallTableCapacity
    then if aboveThresholdForEagerExpansion 29 48 keyCount bestTableSize then u32 (bestTableSize * 2) else bestTableSize
    else if aboveThresholdForEagerExpansion 5 12 keyCount bestTableSize then u32 (bestTableSize * 2) else bestTableSize in
  Z.max bestTableSize minimumTableSize.

(** ** Tables *)

Section hash.
Context {K V : Type} `{EqDecision K} (hash : K -> Z).

Inductive Bucket := Empty | Deleted | Full (key : K) (value : V).

Record Table := {
  buckets : list Bucket;
  tableSize_ : Z;
  tableSizeMask : Z;
  keyCount_ : Z;
  deletedCount : Z }.

(** [m_table], which may be null. *)
Abbreviation HashTable := (option Table).

Definition tableSize (t : HashTable) : Z := match t with None => 0 | Some t => tableSize_ t end.
Definition keyCount (t : HashTable) : Z := match t with None => 0 | Some t => keyCount_ t end.
Definition size (t : HashTable) : Z := keyCount t.
Definition isEmpty (t : HashTable) : bool := keyCount t =? 0.

Definition set_buckets (t : Table) (b : list Bucket) : Table :=
  {| buckets := b; tableSize_ := tableSize_ t; tableSizeMask := tableSizeMask t; keyCount_ := keyCount_ t; deletedCount := deletedCount t |}.
Definition setKeyCount (t : Table) (n : Z) : Table :=
  {| buckets := buckets t; tableSize_ := tableSize_ t; tableSizeMask := tableSizeMask t; keyCount_ := u32 n; deletedCount := deletedCount t |}.
Definition setDeletedCount (t : Table) (n : Z) : Table :=
  {| buckets := buckets t; tableSize_ := tableSize_ t; tableSizeMask := tableSizeMask t; keyCount_ := keyCount_ t; deletedCount := u32 n |}.

(** [*entry = b] *)
Definition store (t : Table) (entry : Z) (b : Bucket) : res Table :=
  match (buckets t).[entry] with
  | None => UB
  | Some _ => Ok (set_buckets t (<[Z.to_nat entry := b]> (buckets t)))
  end.

Definition isDeletedBucket (b : Bucket) : bool := match b with Deleted => true | _ => false end.
Definition isEmptyBucket (b : Bucket) : bool := match b with Empty => true | _ => false end.

Definition doubleHash (key : Z) : Z :=
  let key := u32 (u32 (-1 - key) + Z.shiftr key 23) in
  let key := Z.lxor key (u32 (Z.shiftl key 12)) in
  let key := Z.lxor key (Z.shiftr key 7) in
  let key := Z.lxor key (u32 (Z.shiftl key 2)) in
  Z.lxor key (Z.shiftr key 20).

(** [if (k == 0) k = 1 | doubleHash(h); i = (i + k) & sizeMask]: the stride and the
    next index. *)
Definition next_stride (h k : Z) : Z := if k =? 0 then Z.lor 1 (doubleHash h) else k.
Definition next_index (i k sizeMask : Z) : Z := Z.land (u32 (i + k)) sizeMask.

(** The loop of [inlineLookup]. *)
Fixpoint lookup_loop (fuel : nat) (table : list Bucket) (key : K) (h sizeMask k i : Z) : res (option Z) :=
  match fuel with
  | O => NoFuel
  | S fuel =>
      entry ← or_ub table.[i];
      let next := lookup_loop fuel table key h sizeMask (next_stride h k) (next_index i (next_stride h k) sizeMask) in
      match entry with
      | Empty => Ok None
      | Deleted => next
      | Full key' _ => if decide (key' = key) then Ok (Some i) else next
      end
  end.

Definition lookup (t : HashTable) (key : K) : res (option Z) :=
  match t with
  | None => Ok None
  | Some t =>
      let sizeMask := tableSizeMask t in
      let h := hash key in
      lookup_loop (S (length (buckets t))) (buckets t) key h sizeMask 0 (Z.land h sizeMask)
  end.

(** The loop of [lookupForWriting], [fullLookupForWriting] and [add]: the entry, whether
    the key was found there. *)
Fixpoint write_loop (fuel : nat) (table : list Bucket) (key : K) (h sizeMask k i : Z) (deletedEntry : option Z) : res (Z * bool) :=
  match fuel with
  | O => NoFuel
  | S fuel =>
      entry ← or_ub table.[i];
      let next := write_loop fuel table key h sizeMask (next_stride h k) (next_index i (next_stride h k) sizeMask) in
      match entry with
      | Empty => Ok (default i deletedEntry, false)
      | Deleted => next (Some i)
      | Full key' _ => if decide (key' = key) then Ok (i, true) else next deletedEntry
      end
  end.

Definition lookupForWriting (t : Table) (key : K) : res (Z * bool) :=
  let sizeMask := tableSizeMask t in
  let h := hash key in
  write_loop (S (length (buckets t))) (buckets t) key h sizeMask 0 (Z.land h sizeMask) None.

Definition fullLookupForWriting (t : Table) (key : K) : res (Z * bool * Z) :=
  let sizeMask := tableSizeMask t in
  let h := hash key in
  '(entry, found) ← write_loop (S (length (buckets t))) (buckets t) key h sizeMask 0 (Z.land h sizeMask) None;
  Ok (entry, found, h).

(** [allocateTable] and the setting of the counters after it. *)
Definition allocateTable (size : Z) (keyCount : Z) : Table :=
  {| buckets := replicate (Z.to_nat size) Empty; tableSize_ := u32 size; tableSizeMask := u32 (size - 1);
     keyCount_ := u32 keyCount; deletedCount := 0 |}.

Definition reinsert (t : Table) (key : K) (value : V) : res (Table * Z) :=
  '(newEntry, _) ← lookupForWriting t key;
  t ← store t newEntry (Full key value);
  Ok (t, newEntry).

Fixpoint rehash_loop (oldTable : list Bucket) (i : Z) (entry : option Z) (t : Table) (newEntry : option Z) : res (Table * option Z) :=
  match oldTable with
  | [] => Ok (t, newEntry)
  | Full key value :: oldTable =>
      '(t, reinsertedEntry) ← reinsert t key value;
      rehash_loop oldTable (i + 1) entry t (if bool_decide (entry = Some i) then Some reinsertedEntry else newEntry)
  | _ :: oldTable => rehash_loop oldTable (i + 1) entry t newEntry
  end.

Definition rehash (t : HashTable) (newTableSize : Z) (entry : option Z) : res (Table * option Z) :=
  let oldTable := match t with None => [] | Some t => buckets t end in
  rehash_loop oldTable 0 entry (allocateTable newTableSize (keyCount t)) None.

Definition shouldExpand (t : Table) : bool := policy_shouldExpand (u32 (keyCount_ t + deletedCount t)) (tableSize_ t).
Definition mustRehashInPlace (t : HashTable) : bool := u32 (keyCount t * minLoad) <? u32 (tableSize t * 2).
Definition shouldShrink (t : HashTable) : bool := (u32 (keyCount t * minLoad) <? tableSize t) && (minimumTableSize <? tableSize t).

Definition expand (t : HashTable) (entry : option Z) : res (Table * option Z) :=
  let oldSize := tableSize t in
  let newSize := if oldSize =? 0 then minimumTableSize else if mustRehashInPlace t then oldSize else u32 (oldSize * 2) in
  rehash t newSize entry.

Definition shrink (t : HashTable) : res Table := '(t, _) ← rehash t (tableSize t / 2) None; Ok t.

Definition shrinkToBestSize (t : HashTable) : res Table :=
  '(t, _) ← rehash t (Z.max minimumTableSize (computeBestTableSize (keyCount t))) None; Ok t.

Definition reserveInitialCapacity (n : Z) : Table := allocateTable (Z.max minimumTableSize (computeBestTableSize n)) 0.

(** ** Adding *)

(** What [add] does once the bucket is known: the table, the bucket of the entry. *)
Definition add_entry (t : Table) (entry : Z) (reused : bool) (key : K) (value : V) : res (Table * Z) :=
  t ← (if reused then t ← store t entry Empty; Ok (setDeletedCount t (deletedCount t - 1)) else Ok t);
  t ← store t entry (Full key value);
  let t := setKeyCount t (keyCount_ t + 1) in
  if shouldExpand t then '(t, entry) ← expand (Some t) (Some entry); entry ← or_ub entry; Ok (t, entry)
  else Ok (t, entry).

(** [if (!m_table) expand()] *)
Definition ensure_table (t : HashTable) : res Table :=
  match t with None => '(t, _) ← expand None None; Ok t | Some t => Ok t end.

(** [add]: the table, the bucket of the entry and whether it is new. *)
Definition add (t : HashTable) (key : K) (value : V) : res (Table * Z * bool) :=
  t ← ensure_table t;
  let sizeMask := tableSizeMask t in
  let h := hash key in
  '(entry, found) ← write_loop (S (length (buckets t))) (buckets t) key h sizeMask 0 (Z.land h sizeMask) None;
  if (found : bool) then Ok (t, entry, false) else
  b ← or_ub (buckets t).[entry];
  '(t, entry) ← add_entry t entry (isDeletedBucket b) key value;
  Ok (t, entry, true).

Definition addPassingHashCode (t : HashTable) (key : K) (value : V) : res (Table * Z * bool) :=
  t ← ensure_table t;
  '(entry, found, h) ← fullLookupForWriting t key;
  if (found : bool) then Ok (t, entry, false) else
  b ← or_ub (buckets t).[entry];
  '(t, entry) ← add_entry t entry (isDeletedBucket b) key value;
  Ok (t, entry, true).

(** The loop of [addUniqueForInitialization]. *)
Fixpoint empty_loop (fuel : nat) (table : list Bucket) (h sizeMask k i : Z) : res Z :=
  match fuel with
  | O => NoFuel
  | S fuel =>
      entry ← or_ub table.[i];
      if isEmptyBucket entry then Ok i
      else empty_loop fuel table h sizeMask (next_stride h k) (next_index i (next_stride h k) sizeMask)
  end.

Definition addUniqueForInitialization (t : Table) (key : K) (value : V) : res Table :=
  let sizeMask := tableSizeMask t in
  let h := hash key in
  entry ← empty_loop (S (length (buckets t))) (buckets t) h sizeMask 0 (Z.land h sizeMask);
  store t entry (Full key value).

(** ** Removing *)

Definition remove_bucket (t : Table) (pos : Z) : res Table :=
  t ← store t pos Deleted;
  let t := setDeletedCount t (deletedCount t + 1) in
  let t := setKeyCount t (keyCount_ t - 1) in
  if shouldShrink (Some t) then shrink (Some t) else Ok t.

(** [remove(find(key))] of the table. *)
Definition remove_key (t : HashTable) (key : K) : res HashTable :=
  pos ← lookup t key;
  match t, pos with
  | Some t, Some pos => t ← remove_bucket t pos; Ok (Some t)
  | _, _ => Ok t
  end.

(** The loop of [removeIf], from the last bucket to the first; what the functor does is a
    function of the entry. *)
Definition remove_matching (functor : K -> V -> bool) (b : Bucket) : Bucket :=
  match b with Full key value => if functor key value then Deleted else b | b => b end.

Fixpoint removed_count (functor : K -> V -> bool) (table : list Bucket) : Z :=
  match table with
  | [] => 0
  | Full key value :: table => if functor key value then removed_count functor table + 1 else removed_count functor table
  | _ :: table => removed_count functor table
  end.

Definition removeIf (t : HashTable) (functor : K -> V -> bool) : res (HashTable * bool) :=
  match t with
  | None => Ok (None, false)
  | Some t =>
      let removedBucketCount := removed_count functor (buckets t) in
      let t := set_buckets t (remove_matching functor <$> buckets t) in
      let t := if removedBucketCount =? 0 then t
               else setKeyCount (setDeletedCount t (deletedCount t + removedBucketCount)) (keyCount_ t - removedBucketCount) in
      t ← (if shouldShrink (Some t) then shrinkToBestSize (Some t) else Ok t);
      Ok (Some t, negb (removedBucketCount =? 0))
  end.

Definition clear (t : HashTable) : HashTable := None.

(** ** Iterating and copying *)

(** The entries in the order of the buckets, as the iterators visit them: empty and
    deleted buckets are skipped. *)
Definition bucket_entry (b : Bucket) : option (K * V) :=
  match b with Full key value => Some (key, value) | _ => None end.

Definition entries (t : HashTable) : list (K * V) :=
  match t with None => [] | Some t => omap bucket_entry (buckets t) end.

Fixpoint add_all_unique (t : Table) (l : list (K * V)) : res Table :=
  match l with
  | [] => Ok t
  | (key, value) :: l => t ← addUniqueForInitialization t key value; add_all_unique t l
  end.

(** The copy constructor. *)
Definition copy (other : HashTable) : res HashTable :=
  if size other =? 0 then Ok None else
  t ← add_all_unique (allocateTable (computeBestTableSize (size other)) (size other)) (entries other);
  Ok (Some t).

Definition contains (t : HashTable) (key : K) : res bool := p ← lookup t key; Ok (match p with Some _ => true | None => false end).

(** ** HashMap *)

Definition value_at (t : Table) (entry : Z) : res V :=
  b ← or_ub (buckets t).[entry]; match b with Full _ value => Ok value | _ => UB end.

(** The empty value of the traits, returned when there is no entry, is [None]. *)
Definition get (t : HashTable) (key : K) : res (option V) :=
  entry ← lookup t key;
  match t, entry with
  | Some t, Some entry => v ← value_at t entry; Ok (Some v)
  | _, _ => Ok None
  end.

(** [result.iterator->value = value] *)
Definition store_value (t : Table) (entry : Z) (value : V) : res Table :=
  b ← or_ub (buckets t).[entry]; match b with Full key _ => store t entry (Full key value) | _ => UB end.

Definition inlineSet (t : HashTable) (key : K) (value : V) : res (Table * bool) :=
  '(t, entry, isNewEntry) ← add t key value;
  if (isNewEntry : bool) then Ok (t, true) else t ← store_value t entry value; Ok (t, false).

Definition inlineAdd (t : HashTable) (key : K) (value : V) : res (Table * bool) :=
  '(t, _, isNewEntry) ← add t key value; Ok (t, isNewEntry).

Definition map_remove (t : HashTable) (key : K) : res (HashTable * bool) :=
  pos ← lookup t key;
  match t, pos with
  | Some t, Some pos => t ← remove_bucket t pos; Ok (Some t, true)
  | _, _ => Ok (t, false)
  end.

Definition take (t : HashTable) (key : K) : res (HashTable * option V) :=
  pos ← lookup t key;
  match t, pos with
  | Some t, Some pos => value ← value_at t pos; t ← remove_bucket t pos; Ok (Some t, Some value)
  | _, _ => Ok (t, None)
  end.

Fixpoint equal_loop `{EqDecision V} (l : list (K * V)) (b : HashTable) : res bool :=
  match l with
  | [] => Ok true
  | (key, value) :: l =>
      v ← get b key;
      if bool_decide (v = Some value) then equal_loop l b else Ok false
  end.

(** [operator==] *)
Definition map_equal `{EqDecision V} (a b : HashTable) : res bool :=
  if negb (size a =? size b) then Ok false else equal_loop (entries a) b.

End hash.
End Hash.
