(* ===== verification/WtfHashOps.v ===== *)
(** * Correctness of the hash tables (WTF/wtf/HashTable.h, HashMap.h)

    - the stride of the probes is odd and the table a power of two, so the probes
      visit every bucket ([probe_covers]): the loops, which have no bound, end as soon
      as one bucket is empty;
    - the invariant [rep] relates a table and a finite map: the counters are exact, the
      load is below the limit and every entry can be reached from its hash without
      passing an empty bucket;
    - every operation preserves it and does to the map what its name says, whether the
      table grows, is rehashed in place or shrinks. *)

From Stdlib Require Import Znumtheory.
From stdpp Require Import gmap fin_maps.
From S2P Require Import Prelude WtfHash.

Local Open Scope cf.

Module HashOps.
Import Hash.

(** ** Bits and sizes *)

Lemma lookup_zrange {A} (l : list A) i : 0 <= i < zlen l -> is_Some l.[i].
Proof.
  intros Hi. unfold zlookup, zlen in *. rewrite (proj2 (Z.leb_le _ _)) by lia.
  apply lookup_lt_is_Some. lia.
Qed.

Lemma zlookup_range {A} (l : list A) i x : l.[i] = Some x -> 0 <= i < zlen l.
Proof.
  unfold zlookup, zlen. destruct (Z.leb_spec 0 i) as [Hi|]; [|done].
  intros ?%lookup_lt_Some. lia.
Qed.

Lemma zlookup_insert_eq {A} (l : list A) i x : 0 <= i < zlen l -> (<[Z.to_nat i := x]> l).[i] = Some x.
Proof.
  intros Hi. unfold zlookup, zlen in *. rewrite (proj2 (Z.leb_le _ _)) by lia.
  apply list_lookup_insert_eq. lia.
Qed.

Lemma zlookup_insert_ne {A} (l : list A) i j x : 0 <= i -> i <> j -> (<[Z.to_nat i := x]> l).[j] = l.[j].
Proof.
  intros Hi Hne. unfold zlookup. destruct (Z.leb_spec 0 j); [|done].
  apply list_lookup_insert_ne. lia.
Qed.

Lemma zlookup_nil {A} i : (@nil A).[i] = None.
Proof. unfold zlookup. by destruct (0 <=? i). Qed.

Lemma zlookup_cons {A} (x : A) l i : 0 < i -> (x :: l).[i] = l.[i - 1].
Proof.
  intros Hi. unfold zlookup. rewrite !(proj2 (Z.leb_le _ _)) by lia.
  by replace (Z.to_nat i) with (S (Z.to_nat (i - 1))) by lia.
Qed.

Lemma land_mask x e : 0 <= e -> Z.land x (2 ^ e - 1) = x mod 2 ^ e.
Proof. intros. rewrite <- Z.land_ones by lia. f_equal. rewrite Z.ones_equiv. lia. Qed.

Lemma wrap_mod_pow x e w : 0 <= e <= w -> wrap w x mod 2 ^ e = x mod 2 ^ e.
Proof.
  intros He. unfold wrap. apply Z.mod_mod_divide.
  exists (2 ^ (w - e)). rewrite <- Z.pow_add_r by lia. f_equal. lia.
Qed.

(** [w] neighbours are folded into each bit. *)
Definition window (w n x : Z) : Prop :=
  forall i, 0 <= i -> Z.testbit x i = true <-> exists j, 0 <= j < w /\ Z.testbit n (i + j) = true.

Lemma window_1 n : window 1 n n.
Proof.
  intros i Hi. split; [intros H; exists 0; split; [lia | by rewrite Z.add_0_r] |].
  intros (j & Hj & H). by replace j with 0 in H by lia; rewrite Z.add_0_r in H.
Qed.

Lemma window_double w n x : 0 <= w -> window w n x -> window (2 * w) n (Z.lor x (Z.shiftr x w)).
Proof.
  intros Hw H i Hi. rewrite Z.lor_spec, Z.shiftr_spec, orb_true_iff, (H i), (H (i + w)) by lia. split.
  - intros [(j & ? & E) | (j & ? & E)]; [exists j | exists (w + j)]; (split; [lia|]); [done | by rewrite Z.add_assoc].
  - intros (j & ? & E). destruct (Z.ltb_spec j w); [left; exists j; split; [lia | done] | right; exists (j - w)].
    split; [lia|]. by replace (i + w + (j - w)) with (i + j) by lia.
Qed.

Lemma window_ones n x : 0 < n < 2 ^ 32 -> 0 <= x -> window 32 n x -> x = 2 ^ (Z.log2 n + 1) - 1.
Proof.
  intros Hn Hx H. assert (Z.log2 n < 32) by (apply Z.log2_lt_pow2; lia). pose proof (Z.log2_nonneg n).
  replace (2 ^ (Z.log2 n + 1) - 1) with (Z.ones (Z.log2 n + 1)) by (rewrite Z.ones_equiv; lia).
  apply Z.bits_inj'. intros i Hi. rewrite Z.testbit_ones_nonneg by lia. apply eq_true_iff_eq.
  rewrite (H i Hi), Z.ltb_lt. split.
  - intros (j & ? & E). destruct (Z.le_gt_cases (i + j) (Z.log2 n)); [lia|].
    by rewrite Z.bits_above_log2 in E by lia.
  - intros. exists (Z.log2 n - i). split; [lia|].
    replace (i + (Z.log2 n - i)) with (Z.log2 n) by lia. apply Z.bit_log2. lia.
Qed.

(** [roundUpToPowerOfTwo] is the least power of two that is not less. *)
Lemma roundUp_spec v : 1 <= v <= 2 ^ 31 ->
  exists e, 0 <= e <= 31 /\ roundUpToPowerOfTwo v = 2 ^ e /\ v <= 2 ^ e < 2 * v.
Proof.
  intros Hv. unfold roundUpToPowerOfTwo. rewrite (wrap_small 32 (v - 1)) by lia.
  assert (Hw : window 32 (v - 1) (let v := v - 1 in
    let v := Z.lor v (Z.shiftr v 1) in let v := Z.lor v (Z.shiftr v 2) in let v := Z.lor v (Z.shiftr v 4) in
    let v := Z.lor v (Z.shiftr v 8) in Z.lor v (Z.shiftr v 16))).
  { cbn zeta. change 32 with (2 * 16); apply window_double; [lia|].
    change 16 with (2 * 8) at 1; apply window_double; [lia|]. change 8 with (2 * 4) at 1; apply window_double; [lia|].
    change 4 with (2 * 2) at 1; apply window_double; [lia|]. change 2 with (2 * 1) at 1; apply window_double; [lia|].
    apply window_1. }
  cbn zeta in Hw |- *. match type of Hw with window _ _ ?x => set (X := x) in * end.
  assert (HX : 0 <= X) by (subst X; rewrite ?Z.lor_nonneg, ?Z.shiftr_nonneg, ?Z.lor_nonneg, ?Z.shiftr_nonneg,
    ?Z.lor_nonneg, ?Z.shiftr_nonneg, ?Z.lor_nonneg, ?Z.shiftr_nonneg, ?Z.lor_nonneg, ?Z.shiftr_nonneg; lia).
  clearbody X. destruct (Z.eq_dec v 1) as [->|].
  - exists 0. replace X with 0; [change (u32 (0 + 1)) with 1; change (2 ^ 0) with 1; lia|]. symmetry. apply Z.bits_inj'. intros i Hi. rewrite Z.bits_0.
    apply not_true_iff_false. rewrite (Hw i Hi). intros (j & _ & E). by rewrite Z.bits_0 in E.
  - apply window_ones in Hw; [|lia..]. pose proof (Z.log2_nonneg (v - 1)).
    assert (Z.log2 (v - 1) < 31) by (apply Z.log2_lt_pow2; lia).
    destruct (Z.log2_spec (v - 1)) as [Hl Hu]; [lia|]. exists (Z.log2 (v - 1) + 1).
    replace (X + 1) with (2 ^ (Z.log2 (v - 1) + 1)) by lia.
    assert (2 ^ (Z.log2 (v - 1) + 1) <= 2 ^ 31) by (apply Z.pow_le_mono_r; lia).
    change (Z.succ (Z.log2 (v - 1))) with (Z.log2 (v - 1) + 1) in Hu.
    rewrite Z.pow_add_r in * by lia. rewrite wrap_small by lia. lia.
Qed.

(** ** Probes *)

Definition stride (h : Z) : Z := Z.lor 1 (doubleHash h).

(** The index of the [n]-th probe. *)
Definition probe (e h n : Z) : Z := (h + n * stride h) mod 2 ^ e.

Lemma stride_odd h : Z.odd (stride h) = true.
Proof. unfold stride. by rewrite <- Z.bit0_odd, Z.lor_spec. Qed.

Lemma stride_nonzero h : stride h <> 0.
Proof. intros E. pose proof (stride_odd h) as O. by rewrite E in O. Qed.

Lemma odd_coprime_pow a e : Z.odd a = true -> 0 <= e -> Z.Bezout a (2 ^ e) 1.
Proof.
  intros [q ->]%Z.odd_spec He. apply Z.gcd_bezout, Z.coprime_pow_r; [done|].
  apply Z.bezout_1_gcd. exists 1, (- q). lia.
Qed.

(** The probes visit every bucket of the table. *)
Lemma probe_covers e h x : 0 <= e -> 0 <= x < 2 ^ e -> exists n, 0 <= n < 2 ^ e /\ probe e h n = x.
Proof.
  intros He Hx. destruct (odd_coprime_pow (stride h) e) as (u & v & E); [apply stride_odd | done |].
  exists (((x - h) * u) mod 2 ^ e). split; [apply Z.mod_pos_bound; lia|]. unfold probe.
  rewrite (Z.mod_eq ((x - h) * u)) by lia. set (q := (x - h) * u / 2 ^ e).
  replace (h + ((x - h) * u - 2 ^ e * q) * stride h) with (x + (- (x - h) * v - q * stride h) * 2 ^ e)
    by (assert ((x - h) * (u * stride h + v * 2 ^ e) = (x - h) * 1) by (by rewrite E); lia).
  rewrite Z_mod_plus_full. by apply Z.mod_small.
Qed.

Lemma probe_range e h n : 0 <= e -> 0 <= probe e h n < 2 ^ e.
Proof. intros. apply Z.mod_pos_bound. lia. Qed.

(** The stride after [n] probes. *)
Definition stride_at (h n : Z) : Z := if n =? 0 then 0 else stride h.

Lemma next_stride_at h n : 0 <= n -> next_stride h (stride_at h n) = stride_at h (n + 1).
Proof.
  intros. unfold next_stride, stride_at. rewrite (proj2 (Z.eqb_neq (n + 1) 0)) by lia.
  destruct (Z.eqb_spec n 0); [done|]. by rewrite (proj2 (Z.eqb_neq _ _)) by apply stride_nonzero.
Qed.

Lemma next_index_probe e h n : 0 <= e <= 32 -> 0 <= n ->
  next_index (probe e h n) (stride_at h (n + 1)) (2 ^ e - 1) = probe e h (n + 1).
Proof.
  intros He Hn. unfold next_index, stride_at. rewrite (proj2 (Z.eqb_neq (n + 1) 0)) by lia.
  rewrite land_mask, wrap_mod_pow by lia. unfold probe. rewrite Zplus_mod_idemp_l. f_equal. lia.
Qed.

(** ** Buckets *)

Section ops.
Context {K V : Type} `{Countable K} (hash : K -> Z).

Abbreviation Bucket := (@Bucket K V).
Abbreviation bucket_entry := (@bucket_entry K V).
Implicit Types (b : list Bucket) (m : gmap K V) (k : K) (v : V).

Fixpoint deleted (b : list Bucket) : Z :=
  match b with [] => 0 | o :: b => if isDeletedBucket o then deleted b + 1 else deleted b end.

Lemma deleted_app b b' : deleted (b ++ b') = deleted b + deleted b'.
Proof. induction b as [|o b IH]; [done|]. cbn. rewrite IH. destruct (isDeletedBucket o); lia. Qed.

Lemma deleted_nonneg b : 0 <= deleted b.
Proof. induction b as [|o b IH]; cbn; [lia|]. destruct (isDeletedBucket o); lia. Qed.

(** A bucket and what is around it. *)
Lemma bucket_split b x o : b.[x] = Some o ->
  exists pre post, b = pre ++ o :: post /\ forall o', <[Z.to_nat x := o']> b = pre ++ o' :: post.
Proof.
  unfold zlookup. destruct (0 <=? x); [|done]. intros Ho.
  exists (firstn (Z.to_nat x) b), (drop (S (Z.to_nat x)) b). split; [by rewrite take_drop_middle|].
  intros o'. apply insert_take_drop. by eapply lookup_lt_Some.
Qed.

(** Entries and deleted buckets do not fill the table: one bucket is empty. *)
Lemma has_empty b : zlen (omap bucket_entry b) + deleted b < zlen b -> exists x, b.[x] = Some Empty.
Proof.
  intros Hn. assert (Hin : Empty ∈ b).
  { induction b as [|[| |k v] b IH]; [done | left |..]; right; apply IH; cbn in Hn; revert Hn; autorewrite with zlen; lia. }
  apply list_elem_of_lookup in Hin as [i Hi]. exists (Z.of_nat i). unfold zlookup.
  by rewrite (proj2 (Z.leb_le _ _)), Nat2Z.id by lia.
Qed.

(** The entry of [k] is at [x], no empty bucket comes before it on the way from the hash. *)
Definition reach (e : Z) (b : list Bucket) (k : K) (x : Z) : Prop :=
  exists n, 0 <= n < 2 ^ e /\ probe e (hash k) n = x /\
    forall j, 0 <= j < n -> b.[probe e (hash k) j] <> Some Empty.

Record buckets_rep (e : Z) (b : list Bucket) (m : gmap K V) : Prop := {
  br_exp : 0 <= e <= 31;
  br_len : zlen b = 2 ^ e;
  br_entries : omap bucket_entry b ≡ₚ map_to_list m;
  br_reach : forall x k v, b.[x] = Some (Full k v) -> reach e b k x }.

Lemma br_full e b m x k v : buckets_rep e b m -> b.[x] = Some (Full k v) -> m !! k = Some v.
Proof.
  intros R Hx. apply elem_of_map_to_list. rewrite <- (br_entries _ _ _ R).
  destruct (bucket_split _ _ _ Hx) as (pre & post & -> & _). rewrite omap_app. set_solver.
Qed.

Lemma br_present e b m k v : buckets_rep e b m -> m !! k = Some v -> exists x, b.[x] = Some (Full k v).
Proof.
  intros R Hk. apply elem_of_map_to_list in Hk. rewrite <- (br_entries _ _ _ R) in Hk.
  apply list_elem_of_omap in Hk as ([| |k' v'] & Hin & E); try done. injection E as -> ->.
  apply list_elem_of_lookup in Hin as [i Hi]. exists (Z.of_nat i). unfold zlookup.
  by rewrite (proj2 (Z.leb_le _ _)), Nat2Z.id by lia.
Qed.

Lemma br_size e b m : buckets_rep e b m -> zlen (omap bucket_entry b) = Z.of_nat (base.size m).
Proof. intros R. unfold zlen. by rewrite (br_entries _ _ _ R), length_map_to_list. Qed.

Lemma br_has_empty e b m : buckets_rep e b m -> Z.of_nat (base.size m) + deleted b < 2 ^ e -> exists x, b.[x] = Some Empty.
Proof. intros R Hn. apply has_empty. rewrite (br_size _ _ _ R), (br_len _ _ _ R). done. Qed.

(** Writing an entry or a deletion keeps what can be reached. *)
Lemma reach_write e b k x y o : 0 <= y < zlen b -> o <> Empty -> reach e b k x -> reach e (<[Z.to_nat y := o]> b) k x.
Proof.
  intros Hy Ho (n & Hn & Ex & Hj). exists n. split_and!; [lia.. | done |]. intros j Hjn.
  destruct (Z.eq_dec y (probe e (hash k) j)) as [<- | Hne].
  - rewrite zlookup_insert_eq by done. congruence.
  - rewrite zlookup_insert_ne by lia. by apply Hj.
Qed.

Lemma br_write e b m m' x o : buckets_rep e b m -> 0 <= x < zlen b -> o <> Empty ->
  omap bucket_entry (<[Z.to_nat x := o]> b) ≡ₚ map_to_list m' ->
  (forall k v, o = Full k v -> reach e b k x) ->
  buckets_rep e (<[Z.to_nat x := o]> b) m'.
Proof.
  intros R Hx Ho He Hr. split; [apply R | | done |].
  - unfold zlen. rewrite length_insert. apply R.
  - intros y k v Hy. apply reach_write; [done..|]. destruct (Z.eq_dec x y) as [<- | Hne].
    + rewrite zlookup_insert_eq in Hy by done. injection Hy as ->. by eapply Hr.
    + rewrite zlookup_insert_ne in Hy by lia. by eapply br_reach.
Qed.

Lemma br_insert e b m x o k v : buckets_rep e b m -> b.[x] = Some o -> bucket_entry o = None -> m !! k = None ->
  reach e b k x -> buckets_rep e (<[Z.to_nat x := Full k v]> b) (<[k := v]> m).
Proof.
  intros R Hx Ho Hk Hr. eapply br_write; [done | by eapply zlookup_range | done | | by intros ?? [= <- <-]].
  rewrite map_to_list_insert, <- (br_entries _ _ _ R) by done.
  destruct (bucket_split _ _ _ Hx) as (pre & post & -> & ->). rewrite !omap_app. cbn. rewrite Ho. symmetry.
  apply Permutation_middle.
Qed.

Lemma br_entry e b m x k v : buckets_rep e b m -> b.[x] = Some (Full k v) ->
  exists pre post, b = pre ++ Full k v :: post /\ (forall o', <[Z.to_nat x := o']> b = pre ++ o' :: post) /\
    omap bucket_entry pre ++ omap bucket_entry post ≡ₚ map_to_list (delete k m).
Proof.
  intros R Hx. pose proof (br_full _ _ _ _ _ _ R Hx) as Hk.
  destruct (bucket_split _ _ _ Hx) as (pre & post & Eb & Ei). exists pre, post. split_and!; [done..|].
  pose proof (br_entries _ _ _ R) as E. rewrite Eb, omap_app in E. cbn in E.
  rewrite <- Permutation_middle, <- (map_to_list_delete m k v) in E by done. by apply Permutation_cons_inv in E.
Qed.

Lemma br_delete e b m x k v : buckets_rep e b m -> b.[x] = Some (Full k v) ->
  buckets_rep e (<[Z.to_nat x := Deleted]> b) (delete k m).
Proof.
  intros R Hx. eapply br_write; [done | by eapply zlookup_range | done | | done].
  destruct (br_entry _ _ _ _ _ _ R Hx) as (pre & post & _ & -> & E). by rewrite omap_app.
Qed.

Lemma br_update e b m x k v v' : buckets_rep e b m -> b.[x] = Some (Full k v) ->
  buckets_rep e (<[Z.to_nat x := Full k v']> b) (<[k := v']> m).
Proof.
  intros R Hx. eapply br_write; [done | by eapply zlookup_range | done | |].
  - destruct (br_entry _ _ _ _ _ _ R Hx) as (pre & post & _ & -> & E). rewrite omap_app. cbn.
    rewrite <- insert_delete_eq, map_to_list_insert, <- E by apply lookup_delete_eq.
    symmetry. apply Permutation_middle.
  - intros ?? [= <- <-]. by eapply br_reach.
Qed.

(** The counter of deleted buckets. *)
Lemma deleted_write b x o o' : b.[x] = Some o ->
  deleted (<[Z.to_nat x := o']> b) =
  deleted b - (if isDeletedBucket o then 1 else 0) + (if isDeletedBucket o' then 1 else 0).
Proof.
  intros Hx. destruct (bucket_split _ _ _ Hx) as (pre & post & -> & ->). rewrite !deleted_app. cbn.
  destruct (isDeletedBucket o), (isDeletedBucket o'); lia.
Qed.

(** ** The loops *)

(** Whether the loops stop at a bucket. *)
Definition stops (k : K) (o : option Bucket) : bool :=
  match o with
  | Some Deleted => false
  | Some (Full k' _) => bool_decide (k' = k)
  | _ => true
  end.

Lemma least_stop (P : Z -> bool) n : 0 <= n -> P n = true ->
  exists d, 0 <= d <= n /\ P d = true /\ forall j, 0 <= j < d -> P j = false.
Proof.
  intros Hn. revert P. pattern n. apply natlike_ind; [| | done].
  - intros P HP. exists 0. split_and!; [lia.. | done | lia].
  - intros x Hx IH P HP. destruct (P 0) eqn:E0; [exists 0; split_and!; [lia.. | done | lia]|].
    destruct (IH (fun j => P (j + 1))) as (d & Hd & Pd & Hj); [done|].
    exists (d + 1). split_and!; [lia.. | done |]. intros j Hjd. destruct (Z.eq_dec j 0) as [->|]; [done|].
    specialize (Hj (j - 1)). replace (j - 1 + 1) with j in Hj by lia. apply Hj. lia.
Qed.

(** The first bucket on the way of [k] where the loops stop. *)
Definition first_stop (e : Z) (b : list Bucket) (k : K) (d : Z) : Prop :=
  0 <= d < 2 ^ e /\ stops k b.[probe e (hash k) d] = true /\
  forall j, 0 <= j < d -> stops k b.[probe e (hash k) j] = false.

Lemma first_stop_exists e b k x : 0 <= e -> zlen b = 2 ^ e -> b.[x] = Some Empty -> exists d, first_stop e b k d.
Proof.
  intros He Hl Hx. destruct (probe_covers e (hash k) x) as (n & Hn & En); [done | rewrite <- Hl; by eapply zlookup_range |].
  destruct (least_stop (fun j => stops k b.[probe e (hash k) j]) n) as (d & Hd & Hs & Hj); [lia | by rewrite En, Hx |].
  exists d. split_and!; [lia.. | done | done].
Qed.

Lemma lookup_loop_run e b k d fuel n : 0 <= e <= 31 -> zlen b = 2 ^ e -> first_stop e b k d -> 0 <= n <= d -> d - n < Z.of_nat fuel ->
  lookup_loop fuel b k (hash k) (2 ^ e - 1) (stride_at (hash k) n) (probe e (hash k) n) =
  Ok (match b.[probe e (hash k) d] with Some (Full _ _) => Some (probe e (hash k) d) | _ => None end).
Proof.
  intros He Hl (Hd & Hs & Hj). revert n. induction fuel as [|fuel IH]; intros n Hn Hf; [lia|]. cbn [lookup_loop].
  destruct (lookup_zrange b (probe e (hash k) n)) as [o Ho]; [rewrite Hl; apply probe_range; lia|].
  rewrite Ho. cbn [or_ub mbind res_bind]. rewrite next_stride_at, next_index_probe by lia.
  destruct (Z.eq_dec n d) as [-> | Hne].
  - rewrite Ho in Hs |- *. destruct o as [| |k' v']; cbn in Hs; [done..|]. apply bool_decide_eq_true in Hs. by rewrite decide_True.
  - specialize (Hj n). rewrite Ho in Hj. destruct o as [| |k' v']; cbn in Hj; [discriminate Hj; lia | apply IH; lia |].
    rewrite decide_False; [apply IH; lia|]. intros ->. rewrite bool_decide_eq_true_2 in Hj by done. discriminate Hj. lia.
Qed.

(** The bucket [write_loop] remembers: the last deleted one before the stop, or what it was given. *)
Lemma write_loop_run e b k d fuel n acc : 0 <= e <= 31 -> zlen b = 2 ^ e -> first_stop e b k d -> 0 <= n <= d -> d - n < Z.of_nat fuel ->
  exists acc',
    write_loop fuel b k (hash k) (2 ^ e - 1) (stride_at (hash k) n) (probe e (hash k) n) acc =
      Ok (match b.[probe e (hash k) d] with
          | Some (Full _ _) => (probe e (hash k) d, true)
          | _ => (default (probe e (hash k) d) acc', false) end) /\
    (acc' = acc \/ exists q, n <= q < d /\ acc' = Some (probe e (hash k) q) /\ b.[probe e (hash k) q] = Some Deleted).
Proof.
  intros He Hl (Hd & Hs & Hj). revert n acc. induction fuel as [|fuel IH]; intros n acc Hn Hf; [lia|]. cbn [write_loop].
  destruct (lookup_zrange b (probe e (hash k) n)) as [o Ho]; [rewrite Hl; apply probe_range; lia|].
  rewrite Ho. cbn [or_ub mbind res_bind]. rewrite next_stride_at, next_index_probe by lia.
  destruct (Z.eq_dec n d) as [-> | Hne].
  - exists acc. rewrite Ho in Hs |- *. split; [|by left].
    destruct o as [| |k' v']; cbn in Hs; [done..|]. apply bool_decide_eq_true in Hs. by rewrite decide_True.
  - specialize (Hj n). rewrite Ho in Hj. destruct o as [| |k' v']; cbn in Hj; [discriminate Hj; lia | |].
    + destruct (IH (n + 1) (Some (probe e (hash k) n))) as (acc' & E & Ha); [lia..|]. exists acc'. split; [done|]. right.
      destruct Ha as [-> | (q & ? & ? & ?)]; [exists n | exists q]; split_and!; try done; lia.
    + rewrite decide_False by (intros ->; rewrite bool_decide_eq_true_2 in Hj by done; discriminate Hj; lia).
      destruct (IH (n + 1) acc) as (acc' & E & Ha); [lia..|]. exists acc'. split; [done|].
      destruct Ha as [-> | (q & ? & ? & ?)]; [by left | right; exists q; split_and!; try done; lia].
Qed.

(** Where a key that is not in the table may be written. *)
Definition vacant (e : Z) (b : list Bucket) (k : K) (x : Z) : Prop :=
  (b.[x] = Some Empty \/ b.[x] = Some Deleted) /\ reach e b k x.

Lemma first_stop_empty e b m k d : buckets_rep e b m -> first_stop e b k d ->
  (forall k' v, b.[probe e (hash k) d] <> Some (Full k' v)) -> m !! k = None /\ b.[probe e (hash k) d] = Some Empty.
Proof.
  intros R (Hd & Hs & Hj) Hn. pose proof (br_exp _ _ _ R).
  destruct (lookup_zrange b (probe e (hash k) d)) as [o Ho]; [rewrite (br_len _ _ _ R); apply probe_range; lia|].
  rewrite Ho in Hs. destruct o as [| |k' v']; [| done | by destruct (Hn k' v')]. split; [|done].
  destruct (m !! k) as [v|] eqn:Ek; [|done]. destruct (br_present _ _ _ _ _ R Ek) as [x Hx].
  destruct (br_reach _ _ _ R _ _ _ Hx) as (n & Hnr & En & Hne). exfalso.
  destruct (Z.lt_trichotomy n d) as [Hlt | [-> | Hgt]].
  - specialize (Hj n). rewrite En, Hx in Hj. cbn in Hj. rewrite bool_decide_eq_true_2 in Hj by done. discriminate Hj. lia.
  - by apply (Hn k v); rewrite En.
  - apply (Hne d); [lia | done].
Qed.

Lemma first_stop_full e b k d k' v : first_stop e b k d -> b.[probe e (hash k) d] = Some (Full k' v) -> k' = k.
Proof. intros (_ & Hs & _) E. rewrite E in Hs. by apply bool_decide_eq_true in Hs. Qed.

(** The bucket on the way before a stop is on the way of the key. *)
Lemma reach_before e b k d q : 0 <= q <= d -> first_stop e b k d -> reach e b k (probe e (hash k) q).
Proof.
  intros Hq (Hd & _ & Hj). exists q. split_and!; [lia.. | done |]. intros j Hjq E.
  specialize (Hj j). rewrite E in Hj. discriminate Hj. lia.
Qed.

(** The loop of a search, from its start. *)
Lemma lookup_loop_correct e b m k : buckets_rep e b m -> Z.of_nat (base.size m) + deleted b < 2 ^ e ->
  exists o, lookup_loop (S (length b)) b k (hash k) (2 ^ e - 1) 0 (Z.land (hash k) (2 ^ e - 1)) = Ok o /\
    match o with
    | None => m !! k = None
    | Some x => exists v, m !! k = Some v /\ b.[x] = Some (Full k v)
    end.
Proof.
  intros R Hn. destruct (br_has_empty _ _ _ R Hn) as [x Hx]. pose proof (br_exp _ _ _ R) as He. pose proof (br_len _ _ _ R) as Hl.
  destruct (first_stop_exists e b k x) as [d Hd]; [lia | done..|].
  pose proof (lookup_loop_run e b k d (S (length b)) 0 He Hl Hd) as E. rewrite land_mask by lia.
  replace (hash k mod 2 ^ e) with (probe e (hash k) 0) by (unfold probe; f_equal; lia).
  eexists; split; [apply E; unfold zlen in Hl; destruct Hd; lia|].
  destruct (b.[probe e (hash k) d]) as [[| |k' v]|] eqn:Eo.
  3: { pose proof (first_stop_full _ _ _ _ _ _ Hd Eo) as ->. exists v. split; [by eapply br_full | done]. }
  all: apply (first_stop_empty _ _ _ _ _ R Hd); by rewrite Eo.
Qed.

Lemma write_loop_correct e b m k : buckets_rep e b m -> Z.of_nat (base.size m) + deleted b < 2 ^ e ->
  exists x f, write_loop (S (length b)) b k (hash k) (2 ^ e - 1) 0 (Z.land (hash k) (2 ^ e - 1)) None = Ok (x, f) /\
    if f : bool then exists v, m !! k = Some v /\ b.[x] = Some (Full k v) else m !! k = None /\ vacant e b k x.
Proof.
  intros R Hn. destruct (br_has_empty _ _ _ R Hn) as [x Hx]. pose proof (br_exp _ _ _ R) as He. pose proof (br_len _ _ _ R) as Hl.
  destruct (first_stop_exists e b k x) as [d Hd]; [lia | done..|].
  destruct (write_loop_run e b k d (S (length b)) 0 None He Hl Hd) as (acc & E & Ha); [unfold zlen in Hl; destruct Hd; lia..|].
  rewrite land_mask by lia. replace (hash k mod 2 ^ e) with (probe e (hash k) 0) by (unfold probe; f_equal; lia).
  change 0 with (stride_at (hash k) 0) at 1. rewrite E.
  destruct (b.[probe e (hash k) d]) as [[| |k' v]|] eqn:Eo.
  3: { eexists _, true. split; [done|]. pose proof (first_stop_full _ _ _ _ _ _ Hd Eo) as ->. exists v. split; [by eapply br_full | done]. }
  all: destruct (first_stop_empty _ _ _ _ _ R Hd) as [Hk Hemp]; [by rewrite Eo|]; rewrite Eo in Hemp; try done.
  eexists _, false. split; [done|]. split; [done|]. destruct Ha as [-> | (q & Hq & -> & Hdel)]; cbn.
  - split; [by left | by apply (reach_before _ _ _ d); [destruct Hd; lia|]].
  - split; [by right | by apply (reach_before _ _ _ d); [lia|]].
Qed.

(** ** Rehashing *)

Abbreviation Table := (@Table K V).
Implicit Types t : Table.

(** The header of the table is not changed. *)
Definition same_header t t' : Prop :=
  tableSize_ t' = tableSize_ t /\ tableSizeMask t' = tableSizeMask t /\ keyCount_ t' = keyCount_ t /\ deletedCount t' = deletedCount t.

Lemma bucket_store_ok t x o o' : (buckets t).[x] = Some o -> store t x o' = Ok (set_buckets t (<[Z.to_nat x := o']> (buckets t))).
Proof. unfold store. by intros ->. Qed.

(** Without deleted buckets, a vacant bucket is empty. *)
Lemma no_deleted b x : deleted b = 0 -> b.[x] <> Some Deleted.
Proof.
  intros E Hx. destruct (bucket_split _ _ _ Hx) as (pre & post & -> & _). rewrite deleted_app in E. cbn in E.
  pose proof (deleted_nonneg pre); pose proof (deleted_nonneg post). lia.
Qed.

(** Later stores leave the entries where they are. *)
Definition keeps t t' : Prop := forall x k v, (buckets t).[x] = Some (Full k v) -> (buckets t').[x] = Some (Full k v).

Lemma reinsert_correct e t m k v : tableSizeMask t = 2 ^ e - 1 -> buckets_rep e (buckets t) m -> deleted (buckets t) = 0 ->
  Z.of_nat (base.size m) < 2 ^ e -> m !! k = None ->
  exists t' x, reinsert hash t k v = Ok (t', x) /\ same_header t t' /\ buckets_rep e (buckets t') (<[k := v]> m) /\
    deleted (buckets t') = 0 /\ (buckets t').[x] = Some (Full k v) /\ keeps t t'.
Proof.
  intros Hm R Hd Hn Hk. destruct (write_loop_correct e (buckets t) m k R) as (x & f & E & Hf); [lia|].
  unfold reinsert, lookupForWriting. cbn zeta. rewrite Hm, E. cbn [mbind res_bind].
  destruct f; [destruct Hf as (v' & Hk' & _); congruence|]. destruct Hf as (_ & [Hx|Hx] & Hr); [|by destruct (no_deleted _ x Hd)].
  rewrite (bucket_store_ok _ _ _ _ Hx). cbn. eexists _, x. split_and!; [done.. | | | |].
  - by eapply br_insert.
  - cbn. rewrite (deleted_write _ _ _ _ Hx). cbn. lia.
  - cbn. apply zlookup_insert_eq. by eapply zlookup_range.
  - intros y k' v' Hy. cbn. rewrite zlookup_insert_ne; [done | apply zlookup_range in Hx; lia | intros ->; congruence].
Qed.

(** The next entry of a list without duplicates is not in the map yet. *)
Lemma fresh_key m k v l : NoDup (map_to_list m ++ (k, v) :: l).*1 -> m !! k = None.
Proof.
  intros Hnd. apply eq_None_not_Some. intros [v' Hv]. apply elem_of_map_to_list in Hv. rewrite fmap_app, NoDup_app in Hnd.
  destruct Hnd as (_ & Hdis & _). apply (Hdis k); [by apply (list_elem_of_fmap_2 fst _ (k, v')) | left].
Qed.

Lemma rehash_loop_correct e old i entry t ne m :
  tableSizeMask t = 2 ^ e - 1 -> buckets_rep e (buckets t) m -> deleted (buckets t) = 0 ->
  NoDup (map_to_list m ++ omap bucket_entry old).*1 -> zlen (map_to_list m ++ omap bucket_entry old) < 2 ^ e ->
  exists t' ne' m', rehash_loop hash old i entry t ne = Ok (t', ne') /\ same_header t t' /\ buckets_rep e (buckets t') m' /\
    deleted (buckets t') = 0 /\ map_to_list m' ≡ₚ map_to_list m ++ omap bucket_entry old /\ keeps t t' /\
    (forall p, entry = Some p -> p < i -> ne' = ne) /\
    (forall p k v, entry = Some p -> i <= p -> old.[p - i] = Some (Full k v) -> exists p', ne' = Some p' /\ (buckets t').[p'] = Some (Full k v)).
Proof.
  revert i t ne m. induction old as [|o old IH]; intros i t ne m Hm R Hd Hnd Hlen; cbn [rehash_loop].
  { exists t, ne, m. change (omap bucket_entry []) with (@nil (K * V)). rewrite app_nil_r. unfold same_header, keeps. split_and!; try done. intros p k v _ Hp. by rewrite zlookup_nil. }
  destruct (bucket_entry o) as [[k v]|] eqn:Eo.
  - destruct o as [| |k' v']; [done..|]. injection Eo as -> ->. cbn in Hnd, Hlen.
    assert (Hk : m !! k = None) by by eapply fresh_key.
    pose proof (map_to_list_insert m k v Hk) as Ep.
    destruct (reinsert_correct e t m k v Hm R Hd) as (t1 & x & -> & Hh & R1 & Hd1 & Hx & Hkeep); [| done |].
    { revert Hlen. unfold zlen. rewrite length_app, length_map_to_list. cbn. lia. }
    cbn [mbind res_bind]. destruct (IH (i + 1) t1 (if bool_decide (entry = Some i) then Some x else ne) (<[k := v]> m))
      as (t2 & ne' & m' & -> & Hh2 & R2 & Hd2 & Ep2 & Hkeep2 & Hbefore & Hafter); try done.
    { destruct Hh as (_ & -> & _). done. }
    { rewrite Ep. cbn. by rewrite <- Permutation_middle in Hnd. }
    { unfold zlen in *. rewrite Ep. cbn. rewrite <- Permutation_middle in Hlen. done. }
    exists t2, ne', m'. split_and!; try done.
    + unfold same_header in *. naive_solver congruence.
    + rewrite Ep2, Ep. cbn. apply Permutation_middle.
    + intros y k1 v1 Hy. by apply Hkeep2, Hkeep.
    + intros p Hp Hi. rewrite (Hbefore p) by (done || lia). rewrite bool_decide_eq_false_2; [done|]. intros E. assert (p = i) by congruence. lia.
    + intros p k1 v1 Hp Hi. destruct (Z.eq_dec p i) as [-> | Hne].
      * rewrite Z.sub_diag. intros [= <- <-]. exists x. rewrite (Hbefore i), bool_decide_eq_true_2 by (done || lia). split; [done|]. by apply Hkeep2.
      * rewrite zlookup_cons by lia. intros Hy. apply (Hafter p); [done | lia | by replace (p - (i + 1)) with (p - i - 1) by lia].
  - assert (E : omap bucket_entry (o :: old) = omap bucket_entry old) by (cbn; by rewrite Eo). rewrite E in *.
    destruct (IH (i + 1) t ne m) as (t2 & ne' & m' & E2 & Hh2 & R2 & Hd2 & Ep2 & Hkeep2 & Hbefore & Hafter); try done.
    exists t2, ne', m'. split_and!; try done.
    + by destruct o.
    + intros p Hp Hi. apply (Hbefore p); [done | lia].
    + intros p k1 v1 Hp Hi. destruct (Z.eq_dec p i) as [-> | Hne].
      * rewrite Z.sub_diag. intros [= ->]. done.
      * rewrite zlookup_cons by lia. intros Hy. apply (Hafter p); [done | lia | by replace (p - (i + 1)) with (p - i - 1) by lia].
Qed.

(** ** The invariant *)

(** The load that does not expand the table. *)
Definition fits (n s : Z) : Prop := if s <=? 1024 then 4 * n < 3 * s else 2 * n < s.

Lemma policy_fits n s : 0 <= n < 2 ^ 32 -> 0 <= s < 2 ^ 32 -> policy_shouldExpand n s = false <-> fits n s.
Proof.
  intros Hn Hs. unfold policy_shouldExpand, fits, maxSmallTableCapacity.
  unfold smallMaxLoadNumerator, smallMaxLoadDenominator, largeMaxLoadNumerator, largeMaxLoadDenominator.
  assert (forall x, 0 <= x < 2 ^ 34 -> u64 x = x) as Hw by (intros; apply wrap_small; lia).
  rewrite !Hw by lia. destruct (s <=? 1024); rewrite Z.leb_gt; lia.
Qed.

Lemma fits_mono n n' s : n' <= n -> fits n s -> fits n' s.
Proof. unfold fits. destruct (s <=? 1024); lia. Qed.

Lemma fits_lt n s : 0 <= n -> fits n s -> n < s.
Proof. unfold fits. destruct (s <=? 1024); lia. Qed.

(** A third of the buckets is never too much. *)
Lemma fits_third n s : 0 < s -> 3 * n <= s -> fits n s.
Proof. unfold fits. destruct (s <=? 1024); lia. Qed.

Record rep_at (e : Z) (t : Table) (m : gmap K V) : Prop := {
  ra_exp : 3 <= e <= 30;
  ra_size : tableSize_ t = 2 ^ e;
  ra_mask : tableSizeMask t = 2 ^ e - 1;
  ra_buckets : buckets_rep e (buckets t) m;
  ra_keys : keyCount_ t = Z.of_nat (base.size m);
  ra_deleted : deletedCount t = deleted (buckets t);
  ra_load : fits (Z.of_nat (base.size m) + deleted (buckets t)) (2 ^ e) }.

(** [m_table] holds the map [m]. *)
Definition rep (t : option Table) (m : gmap K V) : Prop :=
  match t with None => m = ∅ | Some t => exists e, rep_at e t m end.

Lemma pow_bounds e : 3 <= e <= 30 -> 8 <= 2 ^ e <= 2 ^ 30.
Proof. intros. change 8 with (2 ^ 3). split; apply Z.pow_le_mono_r; lia. Qed.

Lemma ra_lt e t m : rep_at e t m -> Z.of_nat (base.size m) + deleted (buckets t) < 2 ^ e.
Proof. intros R. apply fits_lt; [pose proof (deleted_nonneg (buckets t)); lia | apply R]. Qed.

Lemma ra_half e t m : rep_at e t m -> 0 <= Z.of_nat (base.size m) < 2 ^ 29.
Proof.
  intros R. pose proof (ra_load _ _ _ R) as L. pose proof (pow_bounds _ (ra_exp _ _ _ R)).
  pose proof (deleted_nonneg (buckets t)). unfold fits in L. destruct (2 ^ e <=? 1024) eqn:E; zb; lia.
Qed.

(** A new table is empty. *)
Lemma allocated_rep e n (t0 := @allocateTable K V (2 ^ e) n) : 3 <= e <= 30 -> 0 <= n < 2 ^ 32 ->
  buckets_rep e (buckets t0) ∅ /\ deleted (buckets t0) = 0 /\ tableSizeMask t0 = 2 ^ e - 1 /\ tableSize_ t0 = 2 ^ e /\
  keyCount_ t0 = n /\ deletedCount t0 = 0.
Proof.
  intros He Hn. pose proof (pow_bounds e He) as Hp.
  assert (Hrep : forall j, omap bucket_entry (replicate j Empty) = [] /\ deleted (replicate j Empty) = 0).
  { induction j as [|j IH]; [done|]. cbn. by rewrite (proj1 IH), (proj2 IH). }
  subst t0. unfold allocateTable. cbn [buckets tableSizeMask tableSize_ keyCount_ deletedCount].
  split_and!; [| apply Hrep | apply wrap_small; lia.. | done].
  split; [lia | rewrite zlen_replicate; lia | by rewrite (proj1 (Hrep _)), map_to_list_empty |].
  intros x k v. unfold zlookup. destruct (0 <=? x); [|done]. rewrite lookup_replicate. naive_solver.
Qed.

(** A new table with the entries of an old one. *)
Lemma rehash_correct e (old : option Table) m entry :
  3 <= e <= 30 -> match old with None => m = ∅ | Some t => omap bucket_entry (buckets t) ≡ₚ map_to_list m end ->
  keyCount old = Z.of_nat (base.size m) -> fits (Z.of_nat (base.size m)) (2 ^ e) ->
  exists t' ne, rehash hash old (2 ^ e) entry = Ok (t', ne) /\ rep_at e t' m /\
    (forall t p k v, old = Some t -> entry = Some p -> (buckets t).[p] = Some (Full k v) ->
      exists p', ne = Some p' /\ (buckets t').[p'] = Some (Full k v)).
Proof.
  intros He Hold Hkc Hf. pose proof (pow_bounds e He) as Hp. unfold rehash. rewrite Hkc.
  assert (Hperm : omap bucket_entry (match old with None => [] | Some t => buckets t end) ≡ₚ map_to_list m).
  { destruct old as [t|]; [done|]. subst m. by rewrite map_to_list_empty. }
  assert (Hsz : Z.of_nat (base.size m) < 2 ^ e) by (apply fits_lt; [lia | done]).
  destruct (allocated_rep e (Z.of_nat (base.size m)) He) as (R0 & Hd0 & Hmask & Hsize & Hcount & Hdel); [lia|].
  destruct (rehash_loop_correct e (match old with None => [] | Some t => buckets t end) 0 entry
      (allocateTable (2 ^ e) (Z.of_nat (base.size m))) None ∅)
    as (t' & ne & m' & -> & (Hs & Hm & Hk & Hdc) & R & Hd & Ep & _ & _ & Ht); rewrite ?map_to_list_empty; try done.
  - rewrite app_nil_l, Hperm. apply NoDup_fst_map_to_list.
  - unfold zlen. rewrite app_nil_l, Hperm, length_map_to_list. done.
  - rewrite map_to_list_empty, app_nil_l, Hperm in Ep. apply map_to_list_inj in Ep as ->.
    exists t', ne. split_and!; [done | |].
    + split; try done; try congruence. rewrite Hd. by replace (Z.of_nat (base.size m) + 0) with (Z.of_nat (base.size m)) by lia.
    + intros t p k v -> -> Hx. apply (Ht p k v); [done | by apply zlookup_range in Hx; lia | by rewrite Z.sub_0_r].
Qed.

(** ** Adding *)

(** A table that may have one entry more than it should. *)
Lemma expand_correct e t m x k v : 3 <= e <= 30 -> tableSize_ t = 2 ^ e -> keyCount_ t = Z.of_nat (base.size m) ->
  buckets_rep e (buckets t) m -> (buckets t).[x] = Some (Full k v) ->
  0 < Z.of_nat (base.size m) <= 2 ^ 28 -> fits (Z.of_nat (base.size m) - 1) (2 ^ e) ->
  exists t' x', expand hash (Some t) (Some x) = Ok (t', Some x') /\ rep (Some t') m /\ (buckets t').[x'] = Some (Full k v).
Proof.
  intros He Hs Hk R Hx Hn Hf. pose proof (pow_bounds e He) as Hp. unfold expand. cbn [tableSize]. rewrite Hs.
  rewrite (proj2 (Z.eqb_neq _ 0)) by lia. unfold mustRehashInPlace, minLoad. cbn [keyCount tableSize]. rewrite Hk, Hs.
  rewrite !wrap_small by lia.
  assert (G : exists e', 3 <= e' <= 30 /\ fits (Z.of_nat (base.size m)) (2 ^ e') /\
    (if Z.of_nat (base.size m) * 6 <? 2 ^ e * 2 then 2 ^ e else 2 ^ e * 2) = 2 ^ e').
  { zcase; [exists e; split_and!; [lia.. | apply fits_third; lia | done]|]. exists (e + 1).
    rewrite Z.pow_add_r by lia. split_and!; [lia | | | done].
    - apply Z.lt_succ_r. destruct (Z.lt_ge_cases e 30); [lia|]. assert (e = 30) as -> by lia. lia.
    - unfold fits in *. destruct (Z.leb_spec (2 ^ e) 1024), (Z.leb_spec (2 ^ e * 2 ^ 1) 1024); lia. }
  destruct G as (e' & He' & Hf' & ->).
  destruct (rehash_correct e' (Some t) m (Some x) He') as (t' & ne & -> & R' & Ht); [apply R | by cbn | done |].
  destruct (Ht t x k v) as (x' & -> & Hx'); [done..|]. exists t', x'. split_and!; [done | by exists e' | done].
Qed.

(** The table once the entry is written. *)
Definition with_entry t x k v (d : Z) : Table :=
  {| buckets := <[Z.to_nat x := Full k v]> (buckets t); tableSize_ := tableSize_ t; tableSizeMask := tableSizeMask t;
     keyCount_ := keyCount_ t + 1; deletedCount := deletedCount t - d |}.

Lemma add_entry_runs t x k v o (d := if isDeletedBucket o then 1 else 0) : (buckets t).[x] = Some o ->
  0 <= keyCount_ t < 2 ^ 30 -> d <= deletedCount t < 2 ^ 30 ->
  add_entry hash t x (isDeletedBucket o) k v =
    (let t1 := with_entry t x k v d in
     if shouldExpand t1 then '(t, entry) ← expand hash (Some t1) (Some x); entry ← or_ub entry; Ok (t, entry) else Ok (t1, x)).
Proof.
  intros Hx Hkc Hdc. pose proof (zlookup_range _ _ _ Hx) as Hxr. cbn zeta. unfold add_entry. subst d.
  assert (Hw : forall d, 0 <= d <= deletedCount t ->
    setKeyCount (setDeletedCount (set_buckets t (<[Z.to_nat x := Full k v]> (buckets t))) (deletedCount t - d)) (keyCount_ t + 1)
    = with_entry t x k v d).
  { intros d Hd. unfold setKeyCount, setDeletedCount, set_buckets, with_entry. cbn. rewrite !wrap_small by lia. done. }
  destruct (isDeletedBucket o); rewrite <- Hw by lia.
  - rewrite (bucket_store_ok _ _ _ _ Hx). cbn [mbind res_bind]. erewrite bucket_store_ok by (cbn; by apply zlookup_insert_eq). cbn [mbind res_bind].
    unfold set_buckets, setDeletedCount, setKeyCount. cbn [buckets tableSize_ tableSizeMask keyCount_ deletedCount].
    by rewrite list_insert_insert_eq.
  - cbn [mbind res_bind]. rewrite (bucket_store_ok _ _ _ _ Hx). cbn [mbind res_bind].
    unfold set_buckets, setDeletedCount, setKeyCount. cbn [buckets tableSize_ tableSizeMask keyCount_ deletedCount].
    rewrite Z.sub_0_r, (wrap_small 32 (deletedCount t)) by lia. done.
Qed.

Lemma add_entry_correct e t m x k v o : rep_at e t m -> Z.of_nat (base.size m) < 2 ^ 28 -> m !! k = None ->
  (buckets t).[x] = Some o -> vacant e (buckets t) k x ->
  exists t' x', add_entry hash t x (isDeletedBucket o) k v = Ok (t', x') /\ rep (Some t') (<[k := v]> m) /\
    (buckets t').[x'] = Some (Full k v).
Proof.
  intros R Hn Hk Hx [Ho Hr]. pose proof (pow_bounds _ (ra_exp _ _ _ R)) as Hp. pose proof (ra_lt _ _ _ R) as Hlt.
  pose proof (ra_load _ _ _ R) as Hload. pose proof (deleted_nonneg (buckets t)) as Hd0. pose proof (zlookup_range _ _ _ Hx) as Hxr.
  pose proof (ra_keys _ _ _ R) as Ekc. pose proof (ra_deleted _ _ _ R) as Edc. pose proof (map_size_insert_None k v m Hk) as Hsz.
  assert (Ho' : bucket_entry o = None) by (rewrite Hx in Ho; by destruct Ho as [[= ->] | [= ->]]).
  pose proof (br_insert e (buckets t) m x o k v (ra_buckets _ _ _ R) Hx Ho' Hk Hr) as Rb.
  set (d := if isDeletedBucket o then 1 else 0).
  assert (Hdw : deleted (<[Z.to_nat x := Full k v]> (buckets t)) = deleted (buckets t) - d) by (rewrite (deleted_write _ _ _ _ Hx); cbn; lia).
  pose proof (deleted_nonneg (<[Z.to_nat x := Full k v]> (buckets t))) as Hd1.
  rewrite add_entry_runs by (done || fold d; lia). cbn zeta. fold d.
  assert (Hkc : keyCount_ (with_entry t x k v d) = Z.of_nat (base.size (<[k := v]> m))) by (cbn; lia).
  destruct (shouldExpand (with_entry t x k v d)) eqn:Ex.
  - destruct (expand_correct e (with_entry t x k v d) (<[k := v]> m) x k v) as (t' & x' & -> & Rt & Hx'); try done; try apply R; try lia.
    { cbn. by apply zlookup_insert_eq. }
    { rewrite Hsz. eapply fits_mono; [|done]. lia. }
    by exists t', x'.
  - exists (with_entry t x k v d), x. split_and!; [done | | cbn; by apply zlookup_insert_eq]. exists e.
    assert (0 <= d <= 1) by (unfold d; destruct (isDeletedBucket o); lia).
    unfold shouldExpand in Ex. rewrite Hkc in Ex. cbn in Ex. rewrite Edc, (ra_size _ _ _ R) in Ex.
    rewrite wrap_small in Ex by lia. apply policy_fits in Ex; [|lia..].
    split; try apply R; try done; cbn; rewrite Hdw; [by rewrite Edc | done].
Qed.

(** The first table. *)
Lemma ensure_table_correct (t : option Table) m : rep t m -> exists t' e, ensure_table hash t = Ok t' /\ rep_at e t' m.
Proof.
  destruct t as [t|]; [intros [e R]; by exists t, e|]. intros ->. unfold ensure_table, expand. cbn [tableSize Z.eqb].
  destruct (rehash_correct 3 None ∅ None) as (t' & ne & E & R & _); [done.. | |].
  - rewrite map_size_empty. apply fits_third; lia.
  - change (2 ^ 3) with minimumTableSize in E. rewrite E. by exists t', 3.
Qed.

Lemma add_correct (t : option Table) m k v : rep t m -> Z.of_nat (base.size m) < 2 ^ 28 ->
  exists t' x, add hash t k v = Ok (t', x, bool_decide (m !! k = None)) /\
    (buckets t').[x] = Some (Full k (default v (m !! k))) /\
    rep (Some t') (match m !! k with None => <[k := v]> m | Some _ => m end).
Proof.
  intros R Hn. destruct (ensure_table_correct t m R) as (t1 & e & E & R1). unfold add. rewrite E. cbn [mbind res_bind].
  destruct (write_loop_correct e (buckets t1) m k (ra_buckets _ _ _ R1) (ra_lt _ _ _ R1)) as (x & f & Ew & Hf).
  rewrite (ra_mask _ _ _ R1), Ew. cbn [mbind res_bind]. destruct f.
  - destruct Hf as (v' & Hk & Hx). exists t1, x. rewrite Hk. split_and!; [done.. | by exists e].
  - destruct Hf as (Hk & Hv). destruct (proj1 Hv) as [Hx | Hx]; rewrite Hx; cbn [or_ub mbind res_bind];
      destruct (add_entry_correct e t1 m x k v _ R1 Hn Hk Hx Hv) as (t' & x' & -> & Rt & Hx');
      exists t', x'; by rewrite Hk.
Qed.

End ops.
End HashOps.
