(* ===== verification/WtfHashMap.v ===== *)
(** * Hash maps are finite maps (WTF/wtf/HashTable.h, HashMap.h)

    What the operations of a map do to the finite map its table holds, and the
    theorem about any sequence of them. *)

From stdpp Require Import gmap fin_maps.
From S2P Require Import Prelude WtfHash WtfHashOps.

Local Open Scope cf.

Module HashMapProps.
Import Hash HashOps.

(** ** The size of a new table *)

Lemma computeBestTableSize_spec n : 0 <= n <= 2 ^ 28 ->
  exists e, 3 <= e <= 30 /\ computeBestTableSize n = 2 ^ e /\ fits n (2 ^ e).
Proof.
  intros Hn. destruct (Z.eq_dec n 0) as [-> | Hn0]; [exists 3; split_and!; [lia.. | by vm_compute | by vm_compute]|].
  destruct (roundUp_spec n) as (e & He & Er & Hr); [lia|].
  assert (e <= 28) by (apply Z.lt_succ_r, (Z.pow_lt_mono_r_iff 2); [lia..|]; change (2 ^ Z.succ 28) with (2 * 2 ^ 28); lia).
  assert (2 ^ e <= 2 ^ 28) by (apply Z.pow_le_mono_r; lia).
  assert (G : exists e', e <= e' <= e + 2 /\ fits n (2 ^ e') /\ computeBestTableSize n = Z.max (2 ^ e') 8).
  { unfold computeBestTableSize. rewrite Er. cbn zeta.
    change maxSmallTableCapacity with 1024. change minimumTableSize with 8. unfold aboveThresholdForEagerExpansion.
    assert (E1 : 2 ^ (e + 1) = 2 ^ e * 2) by (rewrite Z.pow_add_r; lia).
    assert (E2 : 2 ^ (e + 2) = 2 ^ e * 2 * 2) by (rewrite Z.pow_add_r; lia).
    destruct (policy_shouldExpand n (2 ^ e)) eqn:Ep.
    - apply not_false_iff_true in Ep. rewrite policy_fits in Ep by lia. rewrite (wrap_small 32 (2 ^ e * 2)) by lia.
      unfold fits in Ep. destruct (Z.leb_spec (2 ^ e) 1024), (Z.leb_spec (2 ^ e * 2) 1024); try lia;
        (zcase; [exists (e + 2) | exists (e + 1)]; rewrite ?E1, ?E2, ?wrap_small by lia;
         (split_and!; [lia.. | unfold fits | done]); destruct (Z.leb_spec (2 ^ e * 2) 1024), (Z.leb_spec (2 ^ e * 2 * 2) 1024); lia).
    - rewrite policy_fits in Ep by lia. destruct (Z.leb_spec (2 ^ e) 1024);
        (zcase; [exists (e + 1) | exists e]; rewrite ?E1, ?wrap_small by lia;
         (split_and!; [lia.. | unfold fits in * | done]); destruct (Z.leb_spec (2 ^ e) 1024), (Z.leb_spec (2 ^ e * 2) 1024); lia). }
  destruct G as (e' & He' & Hf & ->). destruct (Z.le_gt_cases 3 e').
  - exists e'. assert (2 ^ 3 <= 2 ^ e') by (apply Z.pow_le_mono_r; lia). change (2 ^ 3) with 8 in *. split_and!; [lia.. | done].
  - exists 3. assert (2 ^ e' <= 2 ^ 2) by (apply Z.pow_le_mono_r; lia). change (2 ^ 2) with 4 in *. change (2 ^ 3) with 8.
    split_and!; [lia.. |]. apply fits_lt in Hf; [|lia]. unfold fits. cbn. lia.
Qed.

Section map.
Context {K V : Type} `{Countable K} (hash : K -> Z).

Abbreviation HashTable := (option (@Table K V)).
Abbreviation rep := (rep hash).
Abbreviation rep_at := (rep_at hash).
Implicit Types (m : gmap K V) (k : K) (v : V).

(** ** Reading *)

Lemma lookup_correct (t : HashTable) m k : rep t m ->
  exists o, lookup hash t k = Ok o /\
    match o with
    | None => m !! k = None
    | Some x => exists t' v, t = Some t' /\ m !! k = Some v /\ (buckets t').[x] = Some (Full k v)
    end.
Proof.
  destruct t as [t|]; cbn [HashOps.rep lookup]; [intros [e R] | intros ->; by exists None].
  destruct (lookup_loop_correct hash e (buckets t) m k (ra_buckets _ _ _ _ R) (ra_lt _ _ _ _ R)) as (o & E & Ho).
  exists o. rewrite (ra_mask _ _ _ _ R). split; [done|]. destruct o as [x|]; [|done].
  destruct Ho as (v & ? & ?). by exists t, v.
Qed.

Lemma contains_correct (t : HashTable) m k : rep t m -> contains hash t k = Ok (bool_decide (is_Some (m !! k))).
Proof.
  intros R. destruct (lookup_correct t m k R) as (o & E & Ho). unfold contains. rewrite E. cbn.
  destruct o as [x|]; [destruct Ho as (t' & v & _ & -> & _) | rewrite Ho]; by rewrite ?bool_decide_eq_true_2, ?bool_decide_eq_false_2 by naive_solver.
Qed.

Lemma get_correct (t : HashTable) m k : rep t m -> get hash t k = Ok (m !! k).
Proof.
  intros R. destruct (lookup_correct t m k R) as (o & E & Ho). unfold get. rewrite E. cbn.
  destruct o as [x|]; [|by rewrite Ho; destruct t]. destruct Ho as (t' & v & -> & -> & Hx).
  unfold value_at. by rewrite Hx.
Qed.

Lemma size_correct (t : HashTable) m : rep t m -> size t = Z.of_nat (base.size m).
Proof. destruct t as [t|]; cbn; [intros [e R]; apply R | by intros ->]. Qed.

Lemma entries_correct (t : HashTable) m : rep t m -> entries t ≡ₚ map_to_list m.
Proof. destruct t as [t|]; cbn; [intros [e R]; apply R | intros ->; by rewrite map_to_list_empty]. Qed.

(** ** Writing *)

Lemma addPassingHashCode_eq (t : HashTable) k v : addPassingHashCode hash t k v = add hash t k v.
Proof.
  unfold addPassingHashCode, add, fullLookupForWriting. destruct (ensure_table hash t) as [t'| | |]; [|done..]. cbn [mbind res_bind].
  by destruct (write_loop _ _ _ _ _ _ _ _) as [[x f]| | |].
Qed.

Lemma inlineAdd_correct (t : HashTable) m k v : rep t m -> Z.of_nat (base.size m) < 2 ^ 28 ->
  exists t', inlineAdd hash t k v = Ok (t', bool_decide (m !! k = None)) /\
    rep (Some t') (match m !! k with None => <[k := v]> m | Some _ => m end).
Proof.
  intros R Hn. destruct (add_correct hash t m k v R Hn) as (t' & x & E & _ & R'). unfold inlineAdd. rewrite E. by exists t'.
Qed.

Lemma inlineSet_correct (t : HashTable) m k v : rep t m -> Z.of_nat (base.size m) < 2 ^ 28 ->
  exists t', inlineSet hash t k v = Ok (t', bool_decide (m !! k = None)) /\ rep (Some t') (<[k := v]> m).
Proof.
  intros R Hn. destruct (add_correct hash t m k v R Hn) as (t' & x & E & Hx & [e R']). unfold inlineSet. rewrite E. cbn [mbind res_bind].
  destruct (m !! k) as [v0|] eqn:Ek; cbn in Hx; [|by exists t'; split; [|exists e]].
  rewrite bool_decide_eq_false_2 by done. unfold store_value. rewrite Hx. cbn [or_ub mbind res_bind].
  rewrite (bucket_store_ok _ _ _ _ Hx). eexists. split; [done|]. exists e.
  pose proof (deleted_write _ _ _ (Full k v) Hx) as Hd. cbn in Hd.
  assert (Hs : base.size (<[k := v]> m) = base.size m) by (apply map_size_insert_Some; by exists v0).
  split; cbn; try apply R'.
  - by eapply br_update; [apply R'|].
  - rewrite Hs. apply R'.
  - rewrite Hd, (ra_deleted _ _ _ _ R'). lia.
  - rewrite Hd, Hs. replace (deleted (buckets t') - 0 + 0) with (deleted (buckets t')) by lia. apply R'.
Qed.

(** ** Removing *)

(** A table that may be too large. *)
Lemma settle_correct e (t : @Table K V) m : rep_at e t m ->
  exists t', (if shouldShrink (Some t) then shrink hash (Some t) else Ok t) = Ok t' /\ rep (Some t') m.
Proof.
  intros R. pose proof (pow_bounds _ (ra_exp _ _ _ _ R)). pose proof (ra_half _ _ _ _ R).
  unfold shouldShrink, shrink, minLoad. change minimumTableSize with 8. cbn [keyCount tableSize].
  rewrite (ra_keys _ _ _ _ R), (ra_size _ _ _ _ R), wrap_small by lia.
  destruct (_ && _) eqn:E; [|exists t; split; [done | by exists e]]. zb.
  pose proof (ra_exp _ _ _ _ R).
  assert (3 < e) by (destruct (Z.eq_dec e 3) as [-> | ]; [change (2 ^ 3) with 8 in *|]; lia).
  replace (2 ^ e / 2) with (2 ^ (e - 1)) by (rewrite (Z.pow_sub_r 2 e 1) by lia; done).
  assert (E2 : 2 ^ e = 2 * 2 ^ (e - 1)) by (rewrite <- Z.pow_succ_r by lia; f_equal; lia).
  destruct (rehash_correct hash (e - 1) (Some t) m None) as (t' & ne & -> & R' & _); [lia | apply R | apply R | apply fits_third; lia |].
  exists t'. split; [done | by exists (e - 1)].
Qed.

Lemma remove_bucket_correct e (t : @Table K V) m x k v : rep_at e t m -> (buckets t).[x] = Some (Full k v) ->
  exists t', remove_bucket hash t x = Ok t' /\ rep (Some t') (delete k m).
Proof.
  intros R Hx. pose proof (pow_bounds _ (ra_exp _ _ _ _ R)). pose proof (ra_lt _ _ _ _ R) as Hlt.
  pose proof (br_full _ _ _ _ _ _ _ (ra_buckets _ _ _ _ R) Hx) as Hk.
  assert (Hs : S (base.size (delete k m)) = base.size m).
  { rewrite map_size_delete_Some by (by exists v). assert (base.size m <> 0%nat); [|lia]. intros E%map_size_empty_inv. by rewrite E in Hk. }
  pose proof (deleted_write _ _ _ Deleted Hx) as Hd. cbn in Hd. pose proof (deleted_nonneg (buckets t)).
  unfold remove_bucket. rewrite (bucket_store_ok _ _ _ _ Hx). cbn [mbind res_bind]. cbn zeta. apply (settle_correct e).
  split; cbn; try apply R.
  - by eapply br_delete; [apply R|].
  - rewrite (ra_keys _ _ _ _ R), wrap_small by lia. lia.
  - rewrite (ra_deleted _ _ _ _ R), Hd, wrap_small by lia. lia.
  - rewrite Hd. eapply fits_mono; [|apply R]. lia.
Qed.

Lemma remove_bucket_at (t : HashTable) m k : rep t m -> is_Some (m !! k) ->
  exists t1 x v t', t = Some t1 /\ lookup hash t k = Ok (Some x) /\ m !! k = Some v /\ (buckets t1).[x] = Some (Full k v) /\
    remove_bucket hash t1 x = Ok t' /\ rep (Some t') (delete k m).
Proof.
  intros R [v0 Hv]. destruct (lookup_correct t m k R) as (o & E & Ho). destruct o as [x|]; [|congruence].
  destruct Ho as (t1 & v & -> & Hk & Hx). destruct R as [e R]. destruct (remove_bucket_correct e t1 m x k v R Hx) as (t' & ? & ?).
  by exists t1, x, v, t'.
Qed.

Lemma lookup_absent (t : HashTable) m k : rep t m -> m !! k = None -> lookup hash t k = Ok None.
Proof. intros R Hk. destruct (lookup_correct t m k R) as ([x|] & E & Ho); [|done]. destruct Ho as (? & ? & _ & ? & _). congruence. Qed.

Lemma map_remove_correct (t : HashTable) m k : rep t m ->
  exists t', map_remove hash t k = Ok (t', bool_decide (is_Some (m !! k))) /\ rep t' (delete k m).
Proof.
  intros R. unfold map_remove. destruct (m !! k) as [v|] eqn:Hk.
  - destruct (remove_bucket_at t m k R) as (t1 & x & v' & t' & -> & -> & _ & _ & E & R'); [by exists v|]. cbn. rewrite E. by exists (Some t').
  - rewrite (lookup_absent t m k R Hk). cbn. exists t. rewrite (delete_id m k) by done. split; [by destruct t | done].
Qed.

Lemma remove_key_eq (t : HashTable) k : remove_key hash t k = ('(t, _) ← map_remove hash t k; Ok t).
Proof.
  unfold remove_key, map_remove. destruct (lookup hash t k) as [[x|]| | |]; [|by destruct t | done..]. cbn.
  destruct t as [t|]; [|done]. by destruct (remove_bucket hash t x).
Qed.

Lemma take_correct (t : HashTable) m k : rep t m -> exists t', take hash t k = Ok (t', m !! k) /\ rep t' (delete k m).
Proof.
  intros R. unfold take. destruct (m !! k) as [v|] eqn:Hk.
  - destruct (remove_bucket_at t m k R) as (t1 & x & v' & t' & -> & -> & Hv & Hx & E & R'); [by exists v|]. cbn.
    unfold value_at. rewrite Hx. cbn. rewrite E. exists (Some t'). split; [cbn; congruence | done].
  - rewrite (lookup_absent t m k R Hk). cbn. exists t. rewrite (delete_id m k) by done. split; [by destruct t | done].
Qed.

(** ** Removing what a function selects *)

Implicit Types f : K -> V -> bool.

(** The entries that stay. *)
Definition kept f m : gmap K V := filter (fun kv => f kv.1 kv.2 = false) m.

Lemma removed_entries f (b : list (@Bucket K V)) :
  omap bucket_entry (remove_matching f <$> b) = filter (fun kv => f kv.1 kv.2 = false) (omap bucket_entry b).
Proof.
  induction b as [|[| |k v] b IH]; [done.. |].
  change (omap bucket_entry (Full k v :: b)) with ((k, v) :: omap bucket_entry b). rewrite filter_cons. cbn [fst snd].
  rewrite fmap_cons. cbn [remove_matching]. destruct (f k v) eqn:E; case_decide; try congruence; cbn; by rewrite IH.
Qed.

Lemma removed_counts f (b : list (@Bucket K V)) :
  removed_count f b = zlen (omap bucket_entry b) - zlen (omap bucket_entry (remove_matching f <$> b)) /\
  deleted (remove_matching f <$> b) = deleted b + removed_count f b.
Proof.
  induction b as [|[| |k v] b [IH1 IH2]]; [done | cbn in *; lia.. |]. cbn in *. destruct (f k v); cbn; autorewrite with zlen; lia.
Qed.

Lemma removed_lookup f (b : list (@Bucket K V)) x : (remove_matching f <$> b).[x] = remove_matching f <$> b.[x].
Proof. unfold zlookup. destruct (0 <=? x); [|done]. apply list_lookup_fmap. Qed.

Lemma br_removeIf f e b m : buckets_rep hash e b m -> buckets_rep hash e (remove_matching f <$> b) (kept f m).
Proof.
  intros R. split; [apply R | rewrite zlen_fmap; apply R | |].
  - rewrite removed_entries, (br_entries _ _ _ _ R). unfold kept. rewrite map_filter_alt, map_to_list_to_map; [done|].
    apply (sublist_NoDup _ (map_to_list m).*1); [apply (NoDup_fst_map_to_list m) | apply fmap_sublist, sublist_filter].
  - intros x k v Hx. rewrite removed_lookup in Hx. destruct (b.[x]) as [o|] eqn:Eo; [|done].
    destruct o as [| |k' v']; cbn in Hx; [done.. |]. destruct (f k' v'); [done|]. injection Hx as -> ->.
    destruct (br_reach _ _ _ _ R _ _ _ Eo) as (n & Hn & En & Hj). exists n. split_and!; [lia.. | done |].
    intros j Hjn. rewrite removed_lookup. specialize (Hj j Hjn). by destruct (b.[probe e (hash k) j]) as [[| |k' v']|]; cbn; [| | destruct (f k' v')|].
Qed.

Lemma removeIf_correct t m f : rep t m ->
  exists t', removeIf hash t f = Ok (t', bool_decide (base.size (kept f m) <> base.size m)) /\ rep t' (kept f m).
Proof.
  destruct t as [t|]; cbn [HashOps.rep removeIf].
  2: { intros ->. exists None. unfold kept. rewrite map_filter_empty. split; [by rewrite bool_decide_eq_false_2 by naive_solver | done]. }
  intros [e R]. pose proof (br_removeIf f e (buckets t) m (ra_buckets _ _ _ _ R)) as Rb.
  destruct (removed_counts f (buckets t)) as [Ec Ed]. rewrite (br_size _ _ _ _ (ra_buckets _ _ _ _ R)), (br_size _ _ _ _ Rb) in Ec.
  assert (Hle : (base.size (kept f m) <= base.size m)%nat) by apply map_subseteq_size, map_filter_subseteq.
  pose proof (ra_lt _ _ _ _ R) as Hlt. pose proof (deleted_nonneg (buckets t)). pose proof (pow_bounds _ (ra_exp _ _ _ _ R)).
  match goal with |- context [shouldShrink (Some ?x)] => set (t1 := x) end.
  assert (R1 : rep_at e t1 (kept f m)).
  { assert (E1 : t1 = {| buckets := remove_matching f <$> buckets t; tableSize_ := tableSize_ t; tableSizeMask := tableSizeMask t;
      keyCount_ := keyCount_ t - removed_count f (buckets t); deletedCount := deletedCount t + removed_count f (buckets t) |}).
    { subst t1. pose proof (ra_keys _ _ _ _ R). pose proof (ra_deleted _ _ _ _ R). zcase.
      - unfold set_buckets. f_equal; lia.
      - unfold setKeyCount, setDeletedCount, set_buckets. cbn. rewrite !wrap_small by lia. done. }
    rewrite E1. split; cbn; try apply R; try done.
    - rewrite (ra_keys _ _ _ _ R). lia.
    - rewrite (ra_deleted _ _ _ _ R). lia.
    - eapply fits_mono; [|apply R]. lia. }
  clearbody t1. assert (Hb : negb (removed_count f (buckets t) =? 0) = bool_decide (base.size (kept f m) <> base.size m)).
  { rewrite Ec. destruct (Z.eqb_spec (Z.of_nat (base.size m) - Z.of_nat (base.size (kept f m))) 0) as [E|E]; symmetry; cbn.
    - apply bool_decide_eq_false_2. lia.
    - apply bool_decide_eq_true_2. lia. }
  rewrite Hb. pose proof (ra_half _ _ _ _ R1). destruct (shouldShrink (Some t1)) eqn:Es; [|exists (Some t1); split; [done | by exists e]].
  unfold shouldShrink in Es. zb. cbn [keyCount tableSize] in *. unfold minLoad in *.
  rewrite (ra_keys _ _ _ _ R1), (ra_size _ _ _ _ R1), wrap_small in * by lia. unfold shrinkToBestSize. cbn [keyCount].
  destruct (computeBestTableSize_spec (Z.of_nat (base.size (kept f m)))) as (e' & He' & Eb & Hf); [lia|].
  rewrite (ra_keys _ _ _ _ R1), Eb. pose proof (pow_bounds e' He'). change minimumTableSize with 8. rewrite Z.max_r by lia.
  destruct (rehash_correct hash e' (Some t1) (kept f m) None) as (t' & ne & -> & R' & _); [done | apply R1 | apply R1 | done |].
  exists (Some t'). split; [done | by exists e'].
Qed.

(** ** Copying and comparing *)

Lemma empty_loop_run e (b : list (@Bucket K V)) h d fuel n : 0 <= e <= 31 -> zlen b = 2 ^ e -> b.[probe e h d] = Some Empty ->
  (forall j, 0 <= j < d -> b.[probe e h j] <> Some Empty) -> 0 <= n <= d -> d - n < Z.of_nat fuel ->
  empty_loop fuel b h (2 ^ e - 1) (stride_at h n) (probe e h n) = Ok (probe e h d).
Proof.
  intros He Hl Hd Hj. revert n. induction fuel as [|fuel IH]; intros n Hn Hf; [lia|]. cbn [empty_loop].
  destruct (lookup_zrange b (probe e h n)) as [o Ho]; [rewrite Hl; apply probe_range; lia|].
  rewrite Ho. cbn [or_ub mbind res_bind]. rewrite next_stride_at, next_index_probe by lia.
  destruct (Z.eq_dec n d) as [-> | Hne]; [rewrite Hd in Ho; by injection Ho as <-|].
  specialize (Hj n). rewrite Ho in Hj. destruct o; cbn; [|apply IH; lia..]. exfalso. apply Hj; [lia | done].
Qed.

Lemma addUnique_correct e (t : @Table K V) m k v : tableSizeMask t = 2 ^ e - 1 -> buckets_rep hash e (buckets t) m ->
  deleted (buckets t) = 0 -> Z.of_nat (base.size m) < 2 ^ e -> m !! k = None ->
  exists t', addUniqueForInitialization hash t k v = Ok t' /\ same_header t t' /\
    buckets_rep hash e (buckets t') (<[k := v]> m) /\ deleted (buckets t') = 0.
Proof.
  intros Hm R Hd Hn Hk. destruct (br_has_empty _ _ _ _ R) as [x Hx]; [lia|]. pose proof (br_exp _ _ _ _ R) as He.
  pose proof (br_len _ _ _ _ R) as Hl.
  destruct (probe_covers e (hash k) x) as (n & Hnr & En); [lia | rewrite <- Hl; by eapply zlookup_range |].
  destruct (least_stop (fun j => match (buckets t).[probe e (hash k) j] with Some Empty => true | _ => false end) n)
    as (d & Hdn & Hde & Hj); [lia | by rewrite En, Hx |].
  assert (Hde' : (buckets t).[probe e (hash k) d] = Some Empty) by (by destruct ((buckets t).[probe e (hash k) d]) as [[| |]|]).
  assert (Hj' : forall j, 0 <= j < d -> (buckets t).[probe e (hash k) j] <> Some Empty) by (intros j Hjd E; specialize (Hj j Hjd); by rewrite E in Hj).
  unfold addUniqueForInitialization. cbn zeta. rewrite Hm, land_mask by lia.
  replace (hash k mod 2 ^ e) with (probe e (hash k) 0) by (unfold probe; f_equal; lia).
  change 0 with (stride_at (hash k) 0) at 1. rewrite (empty_loop_run e _ _ d) by (done || unfold zlen in Hl; lia).
  cbn [mbind res_bind]. rewrite (bucket_store_ok _ _ _ _ Hde'). eexists. split_and!; [done.. | |]; cbn.
  - eapply br_insert; try done. exists d. split_and!; [lia.. | done | done].
  - rewrite (deleted_write _ _ _ _ Hde'). cbn. lia.
Qed.

Lemma add_all_unique_correct e l (t : @Table K V) m : tableSizeMask t = 2 ^ e - 1 -> buckets_rep hash e (buckets t) m ->
  deleted (buckets t) = 0 -> NoDup (map_to_list m ++ l).*1 -> zlen (map_to_list m ++ l) < 2 ^ e ->
  exists t' m', add_all_unique hash t l = Ok t' /\ same_header t t' /\ buckets_rep hash e (buckets t') m' /\
    deleted (buckets t') = 0 /\ map_to_list m' ≡ₚ map_to_list m ++ l.
Proof.
  revert t m. induction l as [|[k v] l IH]; intros t m Hm R Hd Hnd Hlen; cbn [add_all_unique].
  { exists t, m. rewrite app_nil_r. unfold same_header. by split_and!. }
  assert (Hk : m !! k = None) by by eapply fresh_key.
  pose proof (map_to_list_insert m k v Hk) as Ep.
  destruct (addUnique_correct e t m k v Hm R Hd) as (t1 & -> & Hh & R1 & Hd1); [| done |].
  { revert Hlen. unfold zlen. rewrite length_app, length_map_to_list. cbn. lia. }
  cbn [mbind res_bind]. destruct (IH t1 (<[k := v]> m)) as (t2 & m' & -> & Hh2 & R2 & Hd2 & Ep2); try done.
  { destruct Hh as (_ & -> & _). done. }
  { rewrite Ep. by rewrite <- Permutation_middle in Hnd. }
  { unfold zlen in *. rewrite Ep. by rewrite <- Permutation_middle in Hlen. }
  exists t2, m'. split_and!; try done; [unfold same_header in *; naive_solver congruence |].
  rewrite Ep2, Ep. apply Permutation_middle.
Qed.

(** A copy holds the same map, in a table of the best size. *)
Lemma copy_correct t m : rep t m -> Z.of_nat (base.size m) <= 2 ^ 28 -> exists t', copy hash t = Ok t' /\ rep t' m.
Proof.
  intros R Hn. unfold copy. rewrite (size_correct t m R). zcase.
  - exists None. split; [done|]. cbn. apply map_size_empty_inv. lia.
  - destruct (computeBestTableSize_spec (Z.of_nat (base.size m))) as (e & He & -> & Hf); [lia|].
    pose proof (entries_correct t m R) as Hperm. pose proof (pow_bounds e He).
    assert (Hsz : Z.of_nat (base.size m) < 2 ^ e) by (apply fits_lt; [lia | done]).
    destruct (allocated_rep (V := V) hash e (Z.of_nat (base.size m)) He) as (R0 & Hd0 & Hm0 & Hs0 & Hk0 & Hdc0); [lia|].
    destruct (add_all_unique_correct e (entries t) (allocateTable (2 ^ e) (Z.of_nat (base.size m))) ∅)
      as (t' & m' & -> & (Hs & Hm & Hk & Hdc) & R' & Hd & Ep); try done; rewrite ?map_to_list_empty, ?app_nil_l, ?Hperm.
    + apply NoDup_fst_map_to_list.
    + unfold zlen. rewrite Hperm, length_map_to_list. done.
    + rewrite map_to_list_empty, app_nil_l, Hperm in Ep. apply map_to_list_inj in Ep as ->.
      exists (Some t'). split; [done|]. exists e. split; try done; try congruence. by rewrite Hd, Z.add_0_r.
Qed.

Lemma equal_loop_correct `{EqDecision V} l (b : HashTable) mb : rep b mb ->
  equal_loop hash l b = Ok (bool_decide (Forall (fun kv => mb !! kv.1 = Some kv.2) l)).
Proof.
  intros R. induction l as [|[k v] l IH]; cbn [equal_loop]; [done|]. rewrite (get_correct b mb k R). cbn [mbind res_bind].
  destruct (bool_decide_reflect (mb !! k = Some v)) as [E|E].
  - rewrite IH. f_equal. apply bool_decide_ext. rewrite Forall_cons. naive_solver.
  - f_equal. symmetry. apply bool_decide_eq_false_2. rewrite Forall_cons. naive_solver.
Qed.

Lemma map_equal_correct `{EqDecision V} (a b : HashTable) ma mb : rep a ma -> rep b mb ->
  map_equal hash a b = Ok (bool_decide (ma = mb)).
Proof.
  intros Ra Rb. unfold map_equal. rewrite (size_correct a ma Ra), (size_correct b mb Rb).
  destruct (Z.eqb_spec (Z.of_nat (base.size ma)) (Z.of_nat (base.size mb))) as [E|E]; cbn [negb].
  - rewrite (equal_loop_correct _ b mb Rb). f_equal. apply bool_decide_ext.
    rewrite (entries_correct a ma Ra), Forall_forall. split.
    + intros Hall. apply map_subseteq_size_eq; [|lia]. apply map_subseteq_spec. intros k v Hk.
      apply (Hall (k, v)). by apply elem_of_map_to_list.
    + intros -> [k v] Hk. by apply elem_of_map_to_list in Hk.
  - f_equal. symmetry. apply bool_decide_eq_false_2. intros ->. lia.
Qed.

(** ** Sequences of operations *)

Inductive Op :=
| OpAdd (key : K) (value : V)
| OpSet (key : K) (value : V)
| OpRemove (key : K)
| OpTake (key : K)
| OpGet (key : K)
| OpContains (key : K)
| OpSize
| OpRemoveIf (functor : K -> V -> bool)
| OpClear
| OpCopy.

Inductive Answer := Flag (b : bool) | Value (v : option V) | Count (n : Z) | Nothing.

(** One operation on a hash map; a copy replaces the map it copies. *)
Definition map_op (o : Op) (t : HashTable) : res (Answer * HashTable) :=
  match o with
  | OpAdd k v => '(t, isNew) ← inlineAdd hash t k v; Ok (Flag isNew, Some t)
  | OpSet k v => '(t, isNew) ← inlineSet hash t k v; Ok (Flag isNew, Some t)
  | OpRemove k => '(t, removed) ← map_remove hash t k; Ok (Flag removed, t)
  | OpTake k => '(t, value) ← take hash t k; Ok (Value value, t)
  | OpGet k => value ← get hash t k; Ok (Value value, t)
  | OpContains k => found ← contains hash t k; Ok (Flag found, t)
  | OpSize => Ok (Count (size t), t)
  | OpRemoveIf f => '(t, removed) ← removeIf hash t f; Ok (Flag removed, t)
  | OpClear => Ok (Nothing, clear t)
  | OpCopy => t ← copy hash t; Ok (Nothing, t)
  end.

(** The same on a finite map. *)
Definition spec_op (o : Op) (m : gmap K V) : Answer * gmap K V :=
  match o with
  | OpAdd k v => (Flag (bool_decide (m !! k = None)), match m !! k with None => <[k := v]> m | Some _ => m end)
  | OpSet k v => (Flag (bool_decide (m !! k = None)), <[k := v]> m)
  | OpRemove k => (Flag (bool_decide (is_Some (m !! k))), delete k m)
  | OpTake k => (Value (m !! k), delete k m)
  | OpGet k => (Value (m !! k), m)
  | OpContains k => (Flag (bool_decide (is_Some (m !! k))), m)
  | OpSize => (Count (Z.of_nat (base.size m)), m)
  | OpRemoveIf f => (Flag (bool_decide (base.size (kept f m) <> base.size m)), kept f m)
  | OpClear => (Nothing, ∅)
  | OpCopy => (Nothing, m)
  end.

Fixpoint map_run (l : list Op) (t : HashTable) : res (list Answer * HashTable) :=
  match l with
  | [] => Ok ([], t)
  | o :: l => '(a, t) ← map_op o t; '(r, t) ← map_run l t; Ok (a :: r, t)
  end.

Fixpoint spec_run (l : list Op) (m : gmap K V) : list Answer * gmap K V :=
  match l with
  | [] => ([], m)
  | o :: l => let (a, m) := spec_op o m in let (r, m) := spec_run l m in (a :: r, m)
  end.

Lemma map_op_correct o t m : rep t m -> Z.of_nat (base.size m) < 2 ^ 28 ->
  exists t', map_op o t = Ok ((spec_op o m).1, t') /\ rep t' (spec_op o m).2.
Proof.
  intros R Hn. destruct o as [k v|k v|k|k|k|k| |f| |]; cbn [map_op spec_op fst snd].
  - destruct (inlineAdd_correct t m k v R Hn) as (t' & -> & ?). by exists (Some t').
  - destruct (inlineSet_correct t m k v R Hn) as (t' & -> & ?). by exists (Some t').
  - destruct (map_remove_correct t m k R) as (t' & -> & ?). by exists t'.
  - destruct (take_correct t m k R) as (t' & -> & ?). by exists t'.
  - rewrite (get_correct t m k R). by exists t.
  - rewrite (contains_correct t m k R). by exists t.
  - rewrite (size_correct t m R). by exists t.
  - destruct (removeIf_correct t m f R) as (t' & -> & ?). by exists t'.
  - by exists None.
  - destruct (copy_correct t m R) as (t' & -> & ?); [lia|]. by exists t'.
Qed.

(** One operation adds one entry at most. *)
Lemma spec_op_size o m : (base.size (spec_op o m).2 <= S (base.size m))%nat.
Proof.
  assert (G : forall m', m' ⊆ m -> (base.size m' <= S (base.size m))%nat) by (intros m' Hs%map_subseteq_size; lia).
  destruct o as [k v|k v|k|k|k|k| |f| |]; cbn [spec_op fst snd]; try (apply G; done || apply delete_subseteq || apply map_filter_subseteq).
  - destruct (m !! k) eqn:E; [lia | by rewrite map_size_insert_None].
  - rewrite map_size_insert. destruct (m !! k); cbn; lia.
  - rewrite map_size_empty. lia.
Qed.

Lemma map_run_correct l t m : rep t m -> Z.of_nat (base.size m) + zlen l < 2 ^ 28 ->
  exists t', map_run l t = Ok ((spec_run l m).1, t') /\ rep t' (spec_run l m).2.
Proof.
  revert t m. induction l as [|o l IH]; intros t m R Hn; cbn [map_run spec_run]; [by exists t|].
  revert Hn. autorewrite with zlen. intros Hn. pose proof (zlen_nonneg l).
  destruct (map_op_correct o t m R) as (t1 & -> & R1); [lia|]. cbn [mbind res_bind].
  pose proof (spec_op_size o m). destruct (spec_op o m) as [a m1]. cbn [fst snd] in *.
  destruct (IH t1 m1 R1) as (t2 & -> & R2); [lia|]. cbn [mbind res_bind]. destruct (spec_run l m1) as [r m2]. by exists t2.
Qed.

(** C37: a hash map is a finite map: whatever is done to an empty one, up to 2^28 operations,
    every answer is the one the finite map gives, every search ends, and what can be found
    afterwards, the size and the entries the iterators visit are those of the finite map.
    Nothing is assumed of the hash function. *)
Theorem hash_map_implements_map (l : list Op) : zlen l < 2 ^ 28 ->
  exists t, map_run l None = Ok ((spec_run l ∅).1, t) /\
    (forall k, get hash t k = Ok ((spec_run l ∅).2 !! k)) /\
    size t = Z.of_nat (base.size (spec_run l ∅).2) /\ entries t ≡ₚ map_to_list (spec_run l ∅).2.
Proof.
  intros Hl. destruct (map_run_correct l None ∅) as (t & E & R); [done | by rewrite map_size_empty |].
  exists t. split_and!; [done | intros; by apply get_correct | by apply size_correct | by apply entries_correct].
Qed.

End map.

(** Enough keys of one hash to fill and enlarge the first table, then to shrink it again. *)
Definition sample_ops : list (@Op Z Z) :=
  [OpAdd 1 10; OpAdd 2 20; OpAdd 3 30; OpAdd 1 11; OpSet 2 21; OpAdd 4 40; OpAdd 5 50; OpRemove 3; OpAdd 6 60; OpAdd 7 70;
   OpSize; OpRemoveIf (fun k _ => 4 <? k); OpGet 2; OpTake 4; OpContains 3; OpCopy; OpSize].

Lemma hash_map_implements_map_witness : zlen sample_ops < 2 ^ 28 /\
  exists t, map_run (fun _ => 7) sample_ops None = Ok ((spec_run sample_ops ∅).1, t) /\ size t = 2.
Proof.
  split; [done|]. destruct (hash_map_implements_map (fun _ : Z => 7) sample_ops) as (t & E & _ & Hs & _); [done|].
  exists t. split; [done|]. rewrite Hs. by vm_compute.
Defined.

End HashMapProps.
