(* ===== verification/WtfBase64.v ===== *)
(** * Base64 (WTF/wtf/text/Base64.cpp)

    The output vector is a block of cells: [grow] leaves new cells unwritten, an access
    past its end ends the process when it goes through [Vector::at] and is [UB] when it
    goes through the adapter of the decoder, which indexes [data()].  Lengths are
    unsigned integers of 32 bits, the column counter of the encoder is an [int]. *)

From stdpp Require Import list.
From S2P Require Import Prelude WtfString.

Local Open Scope cf.

Module Base64.
Import Str.

Definition nonAlphabet : Z := -1.

Definition base64EncMap : list Z := [
    0x41; 0x42; 0x43; 0x44; 0x45; 0x46; 0x47; 0x48;
    0x49; 0x4A; 0x4B; 0x4C; 0x4D; 0x4E; 0x4F; 0x50;
    0x51; 0x52; 0x53; 0x54; 0x55; 0x56; 0x57; 0x58;
    0x59; 0x5A; 0x61; 0x62; 0x63; 0x64; 0x65; 0x66;
    0x67; 0x68; 0x69; 0x6A; 0x6B; 0x6C; 0x6D; 0x6E;
    0x6F; 0x70; 0x71; 0x72; 0x73; 0x74; 0x75; 0x76;
    0x77; 0x78; 0x79; 0x7A; 0x30; 0x31; 0x32; 0x33;
    0x34; 0x35; 0x36; 0x37; 0x38; 0x39; 0x2B; 0x2F ].

Definition base64DecMap : list Z := [
    nonAlphabet; nonAlphabet; nonAlphabet; nonAlphabet; nonAlphabet; nonAlphabet; nonAlphabet; nonAlphabet;
    nonAlphabet; nonAlphabet; nonAlphabet; nonAlphabet; nonAlphabet; nonAlphabet; nonAlphabet; nonAlphabet;
    nonAlphabet; nonAlphabet; nonAlphabet; nonAlphabet; nonAlphabet; nonAlphabet; nonAlphabet; nonAlphabet;
    nonAlphabet; nonAlphabet; nonAlphabet; nonAlphabet; nonAlphabet; nonAlphabet; nonAlphabet; nonAlphabet;
    nonAlphabet; nonAlphabet; nonAlphabet; nonAlphabet; nonAlphabet; nonAlphabet; nonAlphabet; nonAlphabet;
    nonAlphabet; nonAlphabet; nonAlphabet; 0x3E; nonAlphabet; nonAlphabet; nonAlphabet; 0x3F;
    0x34; 0x35; 0x36; 0x37; 0x38; 0x39; 0x3A; 0x3B;
    0x3C; 0x3D; nonAlphabet; nonAlphabet; nonAlphabet; nonAlphabet; nonAlphabet; nonAlphabet;
    nonAlphabet; 0x00; 0x01; 0x02; 0x03; 0x04; 0x05; 0x06;
    0x07; 0x08; 0x09; 0x0A; 0x0B; 0x0C; 0x0D; 0x0E;
    0x0F; 0x10; 0x11; 0x12; 0x13; 0x14; 0x15; 0x16;
    0x17; 0x18; 0x19; nonAlphabet; nonAlphabet; nonAlphabet; nonAlphabet; nonAlphabet;
    nonAlphabet; 0x1A; 0x1B; 0x1C; 0x1D; 0x1E; 0x1F; 0x20;
    0x21; 0x22; 0x23; 0x24; 0x25; 0x26; 0x27; 0x28;
    0x29; 0x2A; 0x2B; 0x2C; 0x2D; 0x2E; 0x2F; 0x30;
    0x31; 0x32; 0x33; nonAlphabet; nonAlphabet; nonAlphabet; nonAlphabet; nonAlphabet ].

Definition base64URLEncMap : list Z := [
    0x41; 0x42; 0x43; 0x44; 0x45; 0x46; 0x47; 0x48;
    0x49; 0x4A; 0x4B; 0x4C; 0x4D; 0x4E; 0x4F; 0x50;
    0x51; 0x52; 0x53; 0x54; 0x55; 0x56; 0x57; 0x58;
    0x59; 0x5A; 0x61; 0x62; 0x63; 0x64; 0x65; 0x66;
    0x67; 0x68; 0x69; 0x6A; 0x6B; 0x6C; 0x6D; 0x6E;
    0x6F; 0x70; 0x71; 0x72; 0x73; 0x74; 0x75; 0x76;
    0x77; 0x78; 0x79; 0x7A; 0x30; 0x31; 0x32; 0x33;
    0x34; 0x35; 0x36; 0x37; 0x38; 0x39; 0x2D; 0x5F ].

Definition base64URLDecMap : list Z := [
    nonAlphabet; nonAlphabet; nonAlphabet; nonAlphabet; nonAlphabet; nonAlphabet; nonAlphabet; nonAlphabet;
    nonAlphabet; nonAlphabet; nonAlphabet; nonAlphabet; nonAlphabet; nonAlphabet; nonAlphabet; nonAlphabet;
    nonAlphabet; nonAlphabet; nonAlphabet; nonAlphabet; nonAlphabet; nonAlphabet; nonAlphabet; nonAlphabet;
    nonAlphabet; nonAlphabet; nonAlphabet; nonAlphabet; nonAlphabet; nonAlphabet; nonAlphabet; nonAlphabet;
    nonAlphabet; nonAlphabet; nonAlphabet; nonAlphabet; nonAlphabet; nonAlphabet; nonAlphabet; nonAlphabet;
    nonAlphabet; nonAlphabet; nonAlphabet; nonAlphabet; nonAlphabet; 0x3E; nonAlphabet; nonAlphabet;
    0x34; 0x35; 0x36; 0x37; 0x38; 0x39; 0x3A; 0x3B;
    0x3C; 0x3D; nonAlphabet; nonAlphabet; nonAlphabet; nonAlphabet; nonAlphabet; nonAlphabet;
    nonAlphabet; 0x00; 0x01; 0x02; 0x03; 0x04; 0x05; 0x06;
    0x07; 0x08; 0x09; 0x0A; 0x0B; 0x0C; 0x0D; 0x0E;
    0x0F; 0x10; 0x11; 0x12; 0x13; 0x14; 0x15; 0x16;
    0x17; 0x18; 0x19; nonAlphabet; nonAlphabet; nonAlphabet; nonAlphabet; 0x3F;
    nonAlphabet; 0x1A; 0x1B; 0x1C; 0x1D; 0x1E; 0x1F; 0x20;
    0x21; 0x22; 0x23; 0x24; 0x25; 0x26; 0x27; 0x28;
    0x29; 0x2A; 0x2B; 0x2C; 0x2D; 0x2E; 0x2F; 0x30;
    0x31; 0x32; 0x33; nonAlphabet; nonAlphabet; nonAlphabet; nonAlphabet; nonAlphabet ].

Inductive Base64EncodePolicy := Base64DoNotInsertLFs | Base64InsertLFs | Base64URLPolicy.

Definition Base64Default : Z := 0.
Definition Base64ValidatePadding : Z := Z.shiftl 1 0.
Definition Base64IgnoreSpacesAndNewLines : Z := Z.shiftl 1 1.
Definition Base64DiscardVerticalTab : Z := Z.shiftl 1 2.

(** ** Encoding *)

Abbreviation cells := (list cell).

Definition maxInputBufferSize : Z := UINT32_MAX / 77 * 76 / 4 * 3 - 2.

(** [out[didx++] = c] *)
Definition emit (s : cells * Z) (c : Z) : res (cells * Z) :=
  let (out, didx) := s in
  match out.[didx] with
  | None => Crash
  | Some _ => Ok (<[Z.to_nat didx := Some c]> out, u32 (didx + 1))
  end.

Definition emitLF (s : cells * Z) (insert : bool) : res (cells * Z) := if insert then emit s 10 else Ok s.

(** [count += 4] of an [int]. *)
Definition advance (count : Z) : res Z := if count + 4 <=? INT_MAX then Ok (count + 4) else UB.

(** [out[didx++] = encodeMap[...]] *)
Definition emit_char (encodeMap : list Z) (s : cells * Z) (i : Z) : res (cells * Z) :=
  c ← or_ub encodeMap.[i]; emit s c.

Definition byte1 (a : Z) : Z := Z.land (Z.shiftr a 2) 63.
Definition byte2 (a b : Z) : Z := Z.lor (Z.land (Z.shiftr b 4) 15) (Z.land (Z.shiftl a 4) 63).
Definition byte3 (b c : Z) : Z := Z.lor (Z.land (Z.shiftr c 6) 3) (Z.land (Z.shiftl b 2) 63).

Fixpoint encode_loop (fuel : nat) (data : list Z) (len : Z) (insertLFs : bool) (encodeMap : list Z) (sidx : Z) (s : cells * Z) (count : Z)
    : res (Z * (cells * Z) * Z) :=
  if sidx <? u32 (len - 2) then
    match fuel with
    | O => NoFuel
    | S fuel =>
        s ← emitLF s (insertLFs && negb (count =? 0) && (Z.rem count 76 =? 0));
        count ← (if insertLFs then advance count else Ok count);
        a ← or_ub data.[sidx]; b ← or_ub data.[sidx + 1]; c ← or_ub data.[sidx + 2];
        s ← emit_char encodeMap s (byte1 a);
        s ← emit_char encodeMap s (byte2 a b);
        s ← emit_char encodeMap s (byte3 b c);
        s ← emit_char encodeMap s (Z.land c 63);
        encode_loop fuel data len insertLFs encodeMap (u32 (sidx + 3)) s count
    end
  else Ok (sidx, s, count).

(** The last bytes, one or two, after the groups of three. *)
Definition encode_rest (data : list Z) (len : Z) (insertLFs : bool) (encodeMap : list Z) (sidx : Z) (s : cells * Z) (count : Z) : res (cells * Z) :=
  if sidx <? len then
    s ← emitLF s (insertLFs && (0 <? count) && (Z.rem count 76 =? 0));
    a ← or_ub data.[sidx];
    s ← emit_char encodeMap s (byte1 a);
    if sidx <? u32 (len - 1) then
      b ← or_ub data.[sidx + 1];
      s ← emit_char encodeMap s (byte2 a b);
      emit_char encodeMap s (Z.land (Z.shiftl b 2) 63)
    else emit_char encodeMap s (Z.land (Z.shiftl a 4) 63)
  else Ok s.

Fixpoint pad_loop (fuel : nat) (s : cells * Z) : res cells :=
  if snd s <? zlen (fst s) then
    match fuel with O => NoFuel | S fuel => s ← emit s 61; pad_loop fuel s end
  else Ok (fst s).

Definition base64EncodeInternal (data : list Z) (policy : Base64EncodePolicy) (encodeMap : list Z) : res cells :=
  let len := zlen data in
  if len =? 0 then Ok [] else
  if maxInputBufferSize <? len then Ok [] else
  let outLength := u32 (u32 (len + 2) / 3 * 4) in
  let insertLFs := match policy with Base64InsertLFs => 76 <? outLength | _ => false end in
  let outLength := if insertLFs then u32 (outLength + u32 (outLength - 1) / 76) else outLength in
  let out := replicate (Z.to_nat outLength) None in
  '(sidx, s, count) ← (if 1 <? len then encode_loop (length data) data len insertLFs encodeMap 0 (out, 0) 0 else Ok (0, (out, 0), 0));
  s ← encode_rest data len insertLFs encodeMap sidx s count;
  match policy with
  | Base64URLPolicy => Ok (take (Z.to_nat (snd s)) (fst s))
  | _ => pad_loop (length (fst s)) s
  end.

Definition base64Encode (data : list Z) (policy : Base64EncodePolicy) : res cells := base64EncodeInternal data policy base64EncMap.
Definition base64URLEncode (data : list Z) : res cells := base64EncodeInternal data Base64URLPolicy base64URLEncMap.

(** ** Decoding *)

(** [out[i] = v] and [out[i]] of the adapter. *)
Definition adapter_write (out : cells) (i v : Z) : res cells :=
  match out.[i] with None => UB | Some _ => Ok (<[Z.to_nat i := Some v]> out) end.
Definition adapter_read (out : cells) (i : Z) : res Z :=
  match out.[i] with Some (Some v) => Ok v | _ => UB end.

Definition has (options flag : Z) : bool := negb (Z.land options flag =? 0).

(** The loop over the characters: the vector, [outLength], [equalsSignCount] and [hadError]. *)
Fixpoint scan_loop (data : list Z) (options : Z) (decodeMap : list Z) (out : cells) (outLength equalsSignCount : Z)
    : res (cells * Z * Z * bool) :=
  match data with
  | [] => Ok (out, outLength, equalsSignCount, false)
  | ch :: data =>
      if ch =? 61 then
        let equalsSignCount := u32 (equalsSignCount + 1) in
        if has options Base64ValidatePadding && (2 <? equalsSignCount) then Ok (out, outLength, equalsSignCount, true)
        else scan_loop data options decodeMap out outLength equalsSignCount
      else
        decodedCharacter ← (if ch <? 128 then or_ub decodeMap.[ch] else Ok nonAlphabet);
        if negb (decodedCharacter =? nonAlphabet) then
          if negb (equalsSignCount =? 0) then Ok (out, outLength, equalsSignCount, true)
          else
            out ← adapter_write out outLength decodedCharacter;
            scan_loop data options decodeMap out (u32 (outLength + 1)) equalsSignCount
        else if negb (has options Base64IgnoreSpacesAndNewLines) ||
                (negb (isLatin1 ch) || negb (isASCIISpace ch) || (has options Base64DiscardVerticalTab && (ch =? 11)))
        then Ok (out, outLength, equalsSignCount, true)
        else scan_loop data options decodeMap out outLength equalsSignCount
  end.

Definition sextet1 (x y : Z) : Z := Z.lor (Z.land (Z.shiftl x 2) 255) (Z.land (Z.shiftr y 4) 3).
Definition sextet2 (y z : Z) : Z := Z.lor (Z.land (Z.shiftl y 4) 255) (Z.land (Z.shiftr z 2) 15).
Definition sextet3 (z w : Z) : Z := Z.lor (Z.land (Z.shiftl z 6) 255) (Z.land w 63).

(** [out[i] = f(out[j], out[j + 1])], in place. *)
Definition combine (f : Z -> Z -> Z) (out : cells) (i j : Z) : res cells :=
  x ← adapter_read out j; y ← adapter_read out (j + 1); adapter_write out i (f x y).

Fixpoint decode_loop (fuel : nat) (out : cells) (outLength sidx didx : Z) : res (cells * Z * Z) :=
  if didx <? u32 (outLength - 2) then
    match fuel with
    | O => NoFuel
    | S fuel =>
        out ← combine sextet1 out didx sidx;
        out ← combine sextet2 out (didx + 1) (sidx + 1);
        out ← combine sextet3 out (didx + 2) (sidx + 2);
        decode_loop fuel out outLength (u32 (sidx + 4)) (u32 (didx + 3))
    end
  else Ok (out, sidx, didx).

(** [if (n < out.size()) out.shrink(n)] *)
Definition shrink_to (out : cells) (n : Z) : cells := if n <? zlen out then take (Z.to_nat n) out else out.

(** What the function returns and the vector it leaves. *)
Definition base64DecodeInternal (data : list Z) (options : Z) (decodeMap : list Z) : res (bool * cells) :=
  if zlen data =? 0 then Ok (true, []) else
  let out := replicate (length data) None in
  '(out, outLength, equalsSignCount, hadError) ← scan_loop data options decodeMap out 0 0;
  let out := shrink_to out outLength in
  if (hadError : bool) then Ok (false, out) else
  if outLength =? 0 then Ok (equalsSignCount =? 0, out) else
  if has options Base64ValidatePadding && negb (equalsSignCount =? 0) && negb (u32 (outLength + equalsSignCount) mod 4 =? 0) then Ok (false, out) else
  if outLength mod 4 =? 1 then Ok (false, out) else
  let outLength := u32 (outLength - u32 (outLength + 3) / 4) in
  if outLength =? 0 then Ok (false, out) else
  '(out, sidx, didx) ← (if 1 <? outLength then decode_loop (length out) out outLength 0 0 else Ok (out, 0, 0));
  out ← (if didx <? outLength then combine sextet1 out didx sidx else Ok out);
  let didx := u32 (didx + 1) in
  out ← (if didx <? outLength then combine sextet2 out didx (sidx + 1) else Ok out);
  Ok (true, shrink_to out outLength).

Definition base64Decode (data : list Z) (options : Z) : res (bool * cells) := base64DecodeInternal data options base64DecMap.

(** For a vector, whose size is a [size_t]. *)
Definition base64DecodeVector (data : list Z) (options : Z) : res (bool * cells) :=
  if UINT32_MAX <? zlen data then Ok (false, []) else base64DecodeInternal data options base64DecMap.

Definition base64URLDecode (data : list Z) : res (bool * cells) := base64DecodeInternal data Base64Default base64URLDecMap.

Example encode_example : base64Encode [77; 97; 110; 255] Base64DoNotInsertLFs = Ok (Some <$> [84; 87; 70; 117; 47; 119; 61; 61]).
Proof. reflexivity. Qed.

Example decode_example : base64Decode [84; 87; 70; 117; 47; 119; 61; 61] Base64ValidatePadding = Ok (true, Some <$> [77; 97; 110; 255]).
Proof. reflexivity. Qed.

End Base64.
