(* ===== verification/WtfBase64Props.v ===== *)
(** * Correctness of base64 (WTF/wtf/text/Base64.cpp)

    - the encoder writes exactly the cells of its vector: the groups of four characters
      of RFC 4648, a line feed in front of every nineteenth group when asked for, and the
      padding ([encode_correct]);
    - the decoder, which regroups in place, computes what a decoder on lists does, for
      every text and every option, and never reads a cell it has not written
      ([decode_correct]);
    - decoding what was encoded gives the bytes back. *)

From stdpp Require Import list.
From S2P Require Import Prelude WtfString WtfBase64.

Local Open Scope cf.

Module Base64Props.
Import Str Base64.

(** ** Bits *)

Lemma testbit_high c n i : 0 <= c < 2 ^ n -> 0 <= n <= i -> Z.testbit c i = false.
Proof.
  intros Hc Hi. destruct (Z.eq_dec c 0) as [->|]; [apply Z.bits_0|].
  apply Z.bits_above_log2; [lia|]. assert (Z.log2 c < n) by (apply Z.log2_lt_pow2; lia). lia.
Qed.

(** Compare two expressions of shifts and masks bit by bit. *)
Ltac bitwise :=
  apply Z.bits_inj'; let i := fresh "i" in let Hi := fresh "Hi" in intros i Hi;
  repeat first [rewrite Z.lor_spec | rewrite Z.land_spec | rewrite Z.shiftr_spec by lia | rewrite Z.shiftl_spec by lia];
  let Hlt := fresh in destruct (Z.lt_ge_cases i 8) as [Hlt|Hlt];
  [ assert (i = 0 \/ i = 1 \/ i = 2 \/ i = 3 \/ i = 4 \/ i = 5 \/ i = 6 \/ i = 7) as Hcases by lia;
    repeat destruct Hcases as [-> | Hcases]; try subst i;
    repeat match goal with
    | |- context [Z.testbit ?c ?k] =>
        lazymatch c with Zpos _ => idtac end; let v := eval vm_compute in (Z.testbit c k) in change (Z.testbit c k) with v
    end;
    repeat first [rewrite andb_true_r | rewrite andb_false_r | rewrite orb_false_l | rewrite orb_false_r];
    rewrite ?Z.shiftr_spec, ?Z.shiftl_spec by lia;
    repeat match goal with |- context [Z.testbit ?a ?k] => rewrite (Z.testbit_neg_r a k) by lia end;
    rewrite ?orb_false_l, ?orb_false_r; first [reflexivity | f_equal; lia]
  | repeat match goal with
    | H : 0 <= ?a < 2 ^ 8 |- context [Z.testbit ?a i] => rewrite (testbit_high a 8 i) by lia
    end;
    rewrite ?(testbit_high 255 8 i), ?(testbit_high 63 8 i), ?(testbit_high 15 8 i), ?(testbit_high 3 8 i) by lia;
    rewrite ?andb_false_r; reflexivity ].

Lemma regroup1 a b : 0 <= a < 2 ^ 8 -> sextet1 (byte1 a) (byte2 a b) = a.
Proof. intros Ha. unfold sextet1, byte1, byte2. bitwise. Qed.

Lemma regroup2 a b c : 0 <= b < 2 ^ 8 -> sextet2 (byte2 a b) (byte3 b c) = b.
Proof. intros Hb. unfold sextet2, byte2, byte3. bitwise. Qed.

Lemma regroup3 b c : 0 <= c < 2 ^ 8 -> sextet3 (byte3 b c) (Z.land c 63) = c.
Proof. intros Hc. unfold sextet3, byte3. bitwise. Qed.

Lemma regroup1_last a : 0 <= a < 2 ^ 8 -> sextet1 (byte1 a) (Z.land (Z.shiftl a 4) 63) = a.
Proof. intros Ha. unfold sextet1, byte1. bitwise. Qed.

Lemma regroup2_last a b : 0 <= b < 2 ^ 8 -> sextet2 (byte2 a b) (Z.land (Z.shiftl b 2) 63) = b.
Proof. intros Hb. unfold sextet2, byte2. bitwise. Qed.

(** ** What the encoder writes *)

(** The values of the characters, and back. *)
Fixpoint sextets (data : list Z) : list Z :=
  match data with
  | a :: b :: c :: data => byte1 a :: byte2 a b :: byte3 b c :: Z.land c 63 :: sextets data
  | [a; b] => [byte1 a; byte2 a b; Z.land (Z.shiftl b 2) 63]
  | [a] => [byte1 a; Z.land (Z.shiftl a 4) 63]
  | [] => []
  end.

Fixpoint bytes_of (s : list Z) : list Z :=
  match s with
  | x :: y :: z :: w :: s => sextet1 x y :: sextet2 y z :: sextet3 z w :: bytes_of s
  | [x; y; z] => [sextet1 x y; sextet2 y z]
  | [x; y] => [sextet1 x y]
  | _ => []
  end.

(** Lists in steps of three and of four. *)
Lemma list_ind3 {A} (P : list A -> Prop) :
  P [] -> (forall a, P [a]) -> (forall a b, P [a; b]) -> (forall a b c l, P l -> P (a :: b :: c :: l)) -> forall l, P l.
Proof.
  intros H0 H1 H2 H3 l. assert (G : P l /\ (forall a, P (a :: l)) /\ (forall a b, P (a :: b :: l))); [|apply G].
  induction l as [|c l (IH1 & IH2 & IH3)]; [by split_and!|]. split_and!; [apply IH2 | intros; apply IH3 | intros; by apply H3].
Qed.

Lemma list_ind4 {A} (P : list A -> Prop) :
  P [] -> (forall a, P [a]) -> (forall a b, P [a; b]) -> (forall a b c, P [a; b; c]) ->
  (forall a b c d l, P l -> P (a :: b :: c :: d :: l)) -> forall l, P l.
Proof.
  intros H0 H1 H2 H3 H4 l.
  assert (G : P l /\ (forall a, P (a :: l)) /\ (forall a b, P (a :: b :: l)) /\ (forall a b c, P (a :: b :: c :: l))); [|apply G].
  induction l as [|d l (IH1 & IH2 & IH3 & IH4)]; [by split_and!|].
  split_and!; [apply IH2 | intros; apply IH3 | intros; apply IH4 | intros; by apply H4].
Qed.

Lemma bytes_of_sextets data : Forall (in_range 8) data -> bytes_of (sextets data) = data.
Proof.
  induction data as [|a|a b|a b c data IH] using list_ind3; intros Hd; [done|..];
    repeat match goal with H : Forall _ (_ :: _) |- _ => apply Forall_cons in H as [? H] end; cbn [sextets bytes_of].
  - by rewrite regroup1_last.
  - by rewrite regroup1, regroup2_last.
  - by rewrite regroup1, regroup2, regroup3, IH.
Qed.

Lemma sextets_range data : Forall (in_range 6) (sextets data).
Proof.
  assert (L : forall x, in_range 6 (Z.land x 63)).
  { intros x. change 63 with (Z.ones 6). rewrite Z.land_ones by lia. apply Z.mod_pos_bound. lia. }
  assert (M : forall x y, 0 <= x < 2 ^ 6 -> 0 <= y < 2 ^ 6 -> in_range 6 (Z.lor x y)).
  { intros x y Hx Hy. rewrite <- (Z.mod_small x (2 ^ 6)), <- (Z.mod_small y (2 ^ 6)), <- !Z.land_ones by lia.
    rewrite <- Z.land_lor_distr_l. apply L. }
  assert (B2 : forall a b, in_range 6 (byte2 a b)).
  { intros a b. apply M; [|apply L]. change 15 with (Z.ones 4). rewrite Z.land_ones by lia. pose proof (Z.mod_pos_bound (b ≫ 4) (2 ^ 4)). lia. }
  assert (B3 : forall a b, in_range 6 (byte3 a b)).
  { intros a b. apply M; [|apply L]. change 3 with (Z.ones 2). rewrite Z.land_ones by lia. pose proof (Z.mod_pos_bound (b ≫ 6) (2 ^ 2)). lia. }
  induction data as [|a|a b|a b c data IH] using list_ind3; cbn [sextets]; repeat (constructor; [first [apply L | apply B2 | apply B3]|]); done.
Qed.

Lemma zlen_sextets data : zlen (sextets data) = (4 * zlen data + 2) / 3.
Proof.
  induction data as [|a|a b|a b c data IH] using list_ind3; [done.. |]. cbn [sextets]. autorewrite with zlen in *.
  rewrite IH. pose proof (zlen_nonneg data). zdiv.
Qed.

Section encode.
Context (encodeMap : list Z) (map_length : zlen encodeMap = 64).

Definition char_of (i : Z) : Z := default 0 encodeMap.[i].

(** The characters, with a line feed in front of the groups that begin a line. *)
Fixpoint lines (insertLFs : bool) (count : Z) (data : list Z) : list Z :=
  let lf := if insertLFs && negb (count =? 0) && (count mod 76 =? 0) then [10] else [] in
  match data with
  | a :: b :: c :: data => lf ++ (char_of <$> sextets [a; b; c]) ++ lines insertLFs (if insertLFs then count + 4 else count) data
  | [] => []
  | _ => lf ++ (char_of <$> sextets data)
  end.

Definition padding (data : list Z) : list Z := replicate (Z.to_nat ((- zlen (sextets data)) mod 4)) 61.

(** Cells written so far and cells that are not yet. *)
Definition buffer (w : list Z) (k : nat) : cells * Z := ((Some <$> w) ++ replicate k None, zlen w).

Lemma emit_buffer w k c : zlen w + 1 < 2 ^ 32 -> emit (buffer w (S k)) c = Ok (buffer (w ++ [c]) k).
Proof.
  intros Hw. unfold emit, buffer. pose proof (zlen_nonneg w).
  assert (E : ((Some <$> w) ++ replicate (S k) None).[zlen w] = Some (None : cell)).
  { rewrite <- (zlen_fmap Some w). apply zlookup_app. }
  rewrite E. f_equal. f_equal; [|rewrite wrap_small by lia; by autorewrite with zlen].
  rewrite to_nat_zlen, fmap_app, <- app_assoc. cbn. rewrite <- (length_fmap Some w) at 1. by rewrite insert_app_r_alt, Nat.sub_diag.
Qed.

Lemma emit_char_buffer w k i : zlen w + 1 < 2 ^ 32 -> in_range 6 i ->
  emit_char encodeMap (buffer w (S k)) i = Ok (buffer (w ++ [char_of i]) k).
Proof.
  intros Hw Hi. unfold emit_char, char_of. destruct (encodeMap.[i]) as [c|] eqn:E; [cbn; by apply emit_buffer|].
  exfalso. revert E. unfold zlookup, zlen in *. unfold in_range in Hi. rewrite (proj2 (Z.leb_le _ _)) by lia.
  apply not_eq_None_Some, lookup_lt_is_Some. lia.
Qed.

Lemma emit_chars_buffer w k l : zlen w + zlen l < 2 ^ 32 -> Forall (in_range 6) l ->
  foldl (fun s i => s ← s; emit_char encodeMap s i) (Ok (buffer w (length l + k))) l = Ok (buffer (w ++ (char_of <$> l)) k).
Proof.
  revert w. induction l as [|i l IH]; intros w Hw Hl; cbn; [by rewrite app_nil_r|].
  apply Forall_cons in Hl as [Hi Hl]. revert Hw. autorewrite with zlen. intros Hw. pose proof (zlen_nonneg l).
  rewrite emit_char_buffer by (done || lia). rewrite IH; [by rewrite <- app_assoc | autorewrite with zlen; lia | done].
Qed.

Lemma emitLF_buffer w k (insert : bool) : zlen w + 1 < 2 ^ 32 ->
  emitLF (buffer w ((if insert then 1 else 0) + k)) insert = Ok (buffer (w ++ if insert then [10] else []) k).
Proof. intros Hw. destruct insert; cbn [emitLF]; [by apply emit_buffer | by rewrite app_nil_r]. Qed.

Lemma maxInputBufferSize_value : maxInputBufferSize = 3179391370.
Proof. reflexivity. Qed.

Lemma length_lf (p : bool) : length (if p then [10] else []) = (if p then 1 else 0)%nat.
Proof. by destruct p. Qed.

(** The line feed of the loop and the one of the rest are the same test. *)
Lemma lf_test (ins : bool) count : 0 <= count ->
  ins && negb (count =? 0) && (Z.rem count 76 =? 0) = ins && negb (count =? 0) && (count mod 76 =? 0) /\
  ins && (0 <? count) && (Z.rem count 76 =? 0) = ins && negb (count =? 0) && (count mod 76 =? 0).
Proof.
  intros Hc. rewrite Z.rem_mod_nonneg by lia. split; [done|]. f_equal. f_equal.
  destruct (Z.ltb_spec 0 count), (Z.eqb_spec count 0); (done || lia).
Qed.

Lemma lookup_at (pre l : list Z) n x : l !! n = Some x -> (pre ++ l).[zlen pre + Z.of_nat n] = Some x.
Proof.
  intros Hx. unfold zlookup, zlen. rewrite (proj2 (Z.leb_le _ _)) by lia.
  replace (Z.to_nat (Z.of_nat (length pre) + Z.of_nat n)) with (length pre + n)%nat by lia. by rewrite lookup_app_r, Nat.add_sub' by lia.
Qed.

Lemma encode_rest_run pre rest w k ins count : (length rest <= 2)%nat -> zlen (pre ++ rest) <= maxInputBufferSize -> 0 <= count ->
  zlen w + zlen (lines ins count rest) < 2 ^ 32 ->
  encode_rest (pre ++ rest) (zlen (pre ++ rest)) ins encodeMap (zlen pre) (buffer w (length (lines ins count rest) + k)) count =
  Ok (buffer (w ++ lines ins count rest) k).
Proof.
  intros Hr Hlen Hc Hw. rewrite maxInputBufferSize_value in Hlen. pose proof (zlen_nonneg pre). pose proof (zlen_nonneg w).
  unfold encode_rest. destruct rest as [|a rest].
  { rewrite app_nil_r, (proj2 (Z.ltb_ge _ _)) by lia. cbn. by rewrite app_nil_r. }
  pose proof (sextets_range (a :: rest)) as Hs.
  assert (El : lines ins count (a :: rest) =
    (if ins && negb (count =? 0) && (count mod 76 =? 0) then [10] else []) ++ (char_of <$> sextets (a :: rest))).
  { destruct rest as [|b [|c rest]]; cbn [length] in Hr; [done.. | lia]. }
  rewrite El in Hw |- *. rewrite length_app, length_lf, <- Nat.add_assoc. revert Hlen Hw. autorewrite with zlen. intros Hlen Hw.
  pose proof (zlen_nonneg rest). pose proof (zlen_nonneg (sextets (a :: rest))).
  rewrite (proj2 (Z.ltb_lt _ _)) by lia. rewrite (proj2 (lf_test ins count Hc)).
  set (p := ins && negb (count =? 0) && (count mod 76 =? 0)) in *.
  assert (zlen w + 1 < 2 ^ 32).
  { destruct rest as [|b [|c rest]]; cbn [length] in Hr; [cbn in Hw; destruct p; autorewrite with zlen in Hw; lia.. | lia]. }
  rewrite emitLF_buffer by done. cbn [mbind res_bind].
  rewrite zlookup_app. cbn [or_ub mbind res_bind]. rewrite length_fmap, app_assoc.
  pose proof (emit_chars_buffer (w ++ if p then [10] else []) k (sextets (a :: rest))) as E.
  rewrite <- E by (autorewrite with zlen; done || lia). clear E.
  destruct rest as [|b [|c rest]]; cbn [length] in Hr; [| | lia]; cbn [sextets foldl length mbind res_bind].
  - autorewrite with zlen. rewrite wrap_small, (proj2 (Z.ltb_ge _ _)) by lia. done.
  - autorewrite with zlen. rewrite wrap_small, (proj2 (Z.ltb_lt _ _)) by lia.
    change 1 with (Z.of_nat 1). rewrite (lookup_at pre [a; b] 1 b eq_refl). cbn [or_ub mbind res_bind].
    by destruct (emit_char encodeMap _ (byte1 a)) as [?| | |]; cbn [mbind res_bind].
Qed.

Lemma encode_loop_end fuel data len ins sidx s count : 2 <= len < 2 ^ 32 -> len - 2 <= sidx ->
  encode_loop fuel data len ins encodeMap sidx s count = Ok (sidx, s, count).
Proof. intros Hl Hs. destruct fuel; cbn [encode_loop]; by rewrite wrap_small, (proj2 (Z.ltb_ge _ _)) by lia. Qed.

Lemma encode_run fuel pre rest w k ins count : (length rest <= fuel)%nat -> 2 <= zlen (pre ++ rest) <= maxInputBufferSize ->
  0 <= count -> (ins = true -> 3 * count + 4 * zlen rest <= 3 * INT_MAX) -> zlen w + zlen (lines ins count rest) < 2 ^ 32 ->
  ('(sidx, s, count) ← encode_loop fuel (pre ++ rest) (zlen (pre ++ rest)) ins encodeMap (zlen pre) (buffer w (length (lines ins count rest) + k)) count;
   encode_rest (pre ++ rest) (zlen (pre ++ rest)) ins encodeMap sidx s count) =
  Ok (buffer (w ++ lines ins count rest) k).
Proof.
  revert fuel pre w count. induction rest as [|a|a b|a b c rest IH] using list_ind3; intros fuel pre w count Hf Hlen Hc Hcount Hw.
  1-3: rewrite encode_loop_end by (rewrite maxInputBufferSize_value in Hlen; revert Hlen; autorewrite with zlen; lia);
    cbn [mbind res_bind]; apply encode_rest_run; (done || lia || (cbn; lia)).
  destruct fuel as [|fuel]; [cbn in Hf; lia|]. cbn [encode_loop].
  pose proof Hlen as Hl. rewrite maxInputBufferSize_value in Hl.
  pose proof (zlen_nonneg rest). pose proof (zlen_nonneg pre). pose proof (zlen_nonneg w).
  set (data := pre ++ a :: b :: c :: rest) in *.
  assert (El : zlen data = zlen pre + 3 + zlen rest) by (unfold data; autorewrite with zlen; lia).
  rewrite (wrap_small 32 (zlen data - 2)) by lia. rewrite (proj2 (Z.ltb_lt (zlen pre) _)) by lia.
  cbn [lines] in Hw |- *. rewrite !length_app, length_lf, <- !Nat.add_assoc. revert Hw. rewrite !zlen_app. intros Hw.
  rewrite (proj1 (lf_test ins count Hc)). set (p := ins && negb (count =? 0) && (count mod 76 =? 0)) in *.
  rewrite (zlen_fmap char_of) in Hw. change (zlen (sextets [a; b; c])) with 4 in Hw.
  pose proof (zlen_nonneg (lines ins (if ins then count + 4 else count) rest)). pose proof (zlen_nonneg (if p then [10] else [])).
  rewrite emitLF_buffer by lia. cbn [mbind res_bind].
  assert (Ec : (if ins then advance count else Ok count) = Ok (if ins then count + 4 else count)).
  { destruct ins; [|done]. unfold advance. specialize (Hcount eq_refl). revert Hcount. autorewrite with zlen. intros.
    rewrite (proj2 (Z.leb_le _ _)) by lia. done. }
  assert (Ha : data.[zlen pre] = Some a) by apply zlookup_app.
  assert (Hb : data.[zlen pre + 1] = Some b) by exact (lookup_at pre (a :: b :: c :: rest) 1 b eq_refl).
  assert (Hc' : data.[zlen pre + 2] = Some c) by exact (lookup_at pre (a :: b :: c :: rest) 2 c eq_refl).
  rewrite Ec, Ha, Hb, Hc', length_fmap. cbn [or_ub mbind res_bind].
  pose proof (emit_chars_buffer (w ++ if p then [10] else []) (length (lines ins (if ins then count + 4 else count) rest) + k) (sextets [a; b; c])) as E.
  cbn [foldl sextets length mbind res_bind] in E. rewrite !zlen_app in E. rewrite <- !app_assoc in E.
  assert (Hs : Forall (in_range 6) (sextets [a; b; c])) by apply sextets_range.
  specialize (E ltac:(change (zlen [byte1 a; byte2 a b; byte3 b c; Z.land c 63]) with 4; lia) Hs).
  apply res_bind_Ok in E as (s3 & E & E4). apply res_bind_Ok in E as (s2 & E & E3). apply res_bind_Ok in E as (s1 & E1 & E2).
  cbn [sextets length]. rewrite E1. cbn [mbind res_bind]. rewrite E2. cbn [mbind res_bind]. rewrite E3. cbn [mbind res_bind].
  rewrite E4. cbn [mbind res_bind]. rewrite wrap_small by lia.
  assert (Ed : data = (pre ++ [a; b; c]) ++ rest) by (unfold data; by rewrite <- app_assoc).
  replace (zlen pre + 3) with (zlen (pre ++ [a; b; c])) by (autorewrite with zlen; lia). rewrite Ed, IH.
  - by rewrite <- !app_assoc.
  - cbn in Hf. lia.
  - by rewrite <- Ed.
  - destruct ins; lia.
  - intros ->. specialize (Hcount eq_refl). revert Hcount. autorewrite with zlen. lia.
  - rewrite !(zlen_app w), !zlen_app, (zlen_fmap char_of). change (zlen [byte1 a; byte2 a b; byte3 b c; Z.land c 63]) with 4. lia.
Qed.

(** ** The lengths *)

(** The groups of three bytes, the last one included. *)
Definition group_count (data : list Z) : Z := (zlen data + 2) / 3.

Lemma lines_length_false count data : zlen (lines false count data) = zlen (sextets data).
Proof.
  revert count. induction data as [|a|a b|a b c data IH] using list_ind3; intros count; [done.. |].
  cbn [lines]. rewrite andb_false_l, zlen_app. cbn [andb app]. rewrite (zlen_nil (A := Z)), zlen_app, (zlen_fmap char_of), IH. cbn [sextets].
  autorewrite with zlen. lia.
Qed.

(** One line feed per nineteen groups. *)
Lemma lines_length_true q data : 0 <= q -> data <> [] ->
  zlen (lines true (4 * q) data) = zlen (sextets data) + ((q + group_count data - 1) / 19 - Z.max 0 ((q - 1) / 19)).
Proof.
  assert (Elf : forall q, 0 <= q -> zlen (if true && negb (4 * q =? 0) && (4 * q mod 76 =? 0) then [10] else []) =
    q / 19 - Z.max 0 ((q - 1) / 19)).
  { intros x Hx. cbn [andb]. destruct (Z.eqb_spec (4 * x) 0), (Z.eqb_spec (4 * x mod 76) 0); cbn [negb andb]; change (zlen [10]) with 1; change (zlen (@nil Z)) with 0; zdiv. }
  assert (Eg : forall d, group_count d = (zlen d + 2) / 3) by done.
  revert q. induction data as [|a|a b|a b c data IH] using list_ind3; intros q Hq Hne; [done| | |].
  1-2: cbn [lines]; rewrite zlen_app, (zlen_fmap char_of), Elf, Eg by done; autorewrite with zlen; zdiv.
  cbn [lines]. rewrite !zlen_app, (zlen_fmap char_of), Elf by done. replace (4 * q + 4) with (4 * (q + 1)) by lia.
  assert (E3 : group_count (a :: b :: c :: data) = 1 + group_count data) by (rewrite !Eg; autorewrite with zlen; zdiv).
  change (zlen (sextets (a :: b :: c :: data))) with (zlen ([byte1 a; byte2 a b; byte3 b c; Z.land c 63] ++ sextets data)).
  rewrite E3, (zlen_app [_; _; _; _]). change (zlen [byte1 a; byte2 a b; byte3 b c; Z.land c 63]) with 4. change (zlen (sextets [a; b; c])) with 4.
  destruct data as [|d data]; [change (zlen (lines true _ [])) with 0; change (zlen (sextets [])) with 0; change (group_count []) with 0; zdiv|].
  rewrite IH by (done || lia). zdiv.
Qed.

Lemma padding_length data : zlen (sextets data) + zlen (padding data) = 4 * group_count data.
Proof.
  unfold padding, group_count. rewrite zlen_replicate, zlen_sextets. pose proof (zlen_nonneg data).
  rewrite Z2Nat.id by (apply Z.mod_pos_bound; lia). zdiv.
Qed.

(** ** The whole encoder *)

Definition inserts (policy : Base64EncodePolicy) (data : list Z) : bool :=
  match policy with Base64InsertLFs => 76 <? 4 * group_count data | _ => false end.

Definition encoded (policy : Base64EncodePolicy) (data : list Z) : list Z :=
  lines (inserts policy data) 0 data ++ match policy with Base64URLPolicy => [] | _ => padding data end.

(** The column counter stays an [int]. *)
Definition columns_fit (policy : Base64EncodePolicy) (data : list Z) : Prop :=
  match policy with Base64InsertLFs => 4 * zlen data <= 3 * INT_MAX | _ => True end.

Lemma pad_loop_run w k fuel : (k <= fuel)%nat -> zlen w + Z.of_nat k < 2 ^ 32 -> pad_loop fuel (buffer w k) = Ok (Some <$> (w ++ replicate k 61)).
Proof.
  revert w k. induction fuel as [|fuel IH]; intros w k Hk Hw.
  - assert (k = 0%nat) as -> by lia. cbn -[zlen]. rewrite !app_nil_r, zlen_fmap, (proj2 (Z.ltb_ge _ _)) by lia. done.
  - pose proof (zlen_nonneg w). cbn [pad_loop]. unfold buffer at 1 2. cbn [fst snd]. autorewrite with zlen. destruct k as [|k].
    + rewrite (proj2 (Z.ltb_ge _ _)) by lia. cbn. by rewrite !app_nil_r.
    + rewrite (proj2 (Z.ltb_lt _ _)) by lia. rewrite emit_buffer by lia. cbn [mbind res_bind].
      rewrite IH by (autorewrite with zlen; lia). by rewrite <- app_assoc.
Qed.

Lemma lines_length policy data : data <> [] ->
  zlen (lines (inserts policy data) 0 data) + zlen (padding data) =
  4 * group_count data + (if inserts policy data then (4 * group_count data - 1) / 76 else 0).
Proof.
  intros Hne. rewrite <- padding_length. assert (0 < group_count data).
  { unfold group_count. destruct data; [done|]. autorewrite with zlen. pose proof (zlen_nonneg data). zdiv. }
  destruct (inserts policy data); [|rewrite lines_length_false; lia].
  pose proof (lines_length_true 0 data ltac:(lia) Hne) as E. change (4 * 0) with 0 in E. rewrite E, padding_length.
  change (Z.max 0 ((0 - 1) / 19)) with 0. pose proof (padding_length data). zdiv.
Qed.

(** The groups and the rest, from the start. *)
Definition encode_body (ins : bool) (data : list Z) (s : cells * Z) : res (cells * Z) :=
  '(sidx, s, count) ← (if 1 <? zlen data then encode_loop (length data) data (zlen data) ins encodeMap 0 s 0 else Ok (0, s, 0));
  encode_rest data (zlen data) ins encodeMap sidx s count.

Lemma encode_body_run ins data k : 0 < zlen data <= maxInputBufferSize -> (ins = true -> 4 * zlen data <= 3 * INT_MAX) ->
  zlen (lines ins 0 data) < 2 ^ 32 ->
  encode_body ins data (buffer [] (length (lines ins 0 data) + k)) = Ok (buffer (lines ins 0 data) k).
Proof.
  intros Hl Hcol Hn. unfold encode_body. destruct (Z.ltb_spec 1 (zlen data)).
  - apply (encode_run (length data) [] data [] k ins 0); try done; try (rewrite app_nil_l; lia).
  - apply (encode_rest_run [] data [] k ins 0); try done; [unfold zlen in *; lia | rewrite app_nil_l; lia].
Qed.

Lemma encode_correct policy data : zlen data <= maxInputBufferSize -> columns_fit policy data ->
  base64EncodeInternal data policy encodeMap = Ok (Some <$> encoded policy data).
Proof.
  intros Hl Hcol. unfold base64EncodeInternal. cbn zeta. pose proof (zlen_nonneg data).
  destruct (Z.eqb_spec (zlen data) 0) as [E0|E0].
  { destruct data; [by destruct policy | autorewrite with zlen in E0; pose proof (zlen_nonneg data); lia]. }
  assert (Hne : data <> []) by (intros ->; done). rewrite (proj2 (Z.ltb_ge _ _)) by lia. rewrite maxInputBufferSize_value in Hl.
  rewrite (wrap_small 32 (zlen data + 2)) by lia. change ((zlen data + 2) / 3) with (group_count data).
  assert (Hg : 1 <= group_count data <= 1059797124) by (unfold group_count; zdiv).
  rewrite (wrap_small 32 (group_count data * 4)), (Z.mul_comm _ 4) by lia.
  replace (match policy with Base64InsertLFs => 76 <? 4 * group_count data | _ => false end) with (inserts policy data) by done.
  rewrite (wrap_small 32 (4 * group_count data - 1)) by lia.
  assert (0 <= (4 * group_count data - 1) / 76 <= 55778795) by zdiv. rewrite (wrap_small 32 (4 * group_count data + _)) by lia.
  set (ins := inserts policy data). pose proof (lines_length policy data Hne) as Hll. fold ins in Hll.
  set (k := length (padding data)). assert (Hk : zlen (padding data) = Z.of_nat k) by done.
  pose proof (zlen_nonneg (lines ins 0 data)).
  assert (Eout : (replicate (Z.to_nat (if ins then 4 * group_count data + (4 * group_count data - 1) / 76 else 4 * group_count data)) None, 0) =
    buffer [] (length (lines ins 0 data) + k)).
  { unfold buffer. cbn. f_equal. f_equal. unfold zlen in Hll. destruct ins; lia. }
  rewrite Eout. assert (Hrun : encode_body ins data (buffer [] (length (lines ins 0 data) + k)) = Ok (buffer (lines ins 0 data) k)).
  { apply encode_body_run; [by rewrite maxInputBufferSize_value; lia | | destruct ins; lia].
    unfold ins, inserts. intros Hi. destruct policy; [done | cbn in Hcol; lia | done]. }
  apply res_bind_Ok in Hrun as ([[sidx s] count] & E1 & E2). rewrite E1. cbn [mbind res_bind]. rewrite E2. cbn [mbind res_bind].
  unfold encoded. fold ins. assert (Hpad : pad_loop (length (buffer (lines ins 0 data) k).1) (buffer (lines ins 0 data) k) = Ok (Some <$> (lines ins 0 data ++ padding data))).
  { rewrite pad_loop_run; [| unfold buffer; cbn; rewrite length_app, length_replicate; lia | destruct ins; lia].
    unfold padding, k, padding. by rewrite length_replicate. }
  destruct policy; [done | done |]. unfold buffer. cbn [fst snd]. rewrite to_nat_zlen, app_nil_r, <- (length_fmap Some). by rewrite take_app_length.
Qed.

End encode.
(** ** What the decoder reads *)

Section decode.
Context (decodeMap : list Z) (map_length : zlen decodeMap = 128).

Definition value_of (ch : Z) : Z := if ch <? 128 then default nonAlphabet decodeMap.[ch] else nonAlphabet.

(** A space the options allow. *)
Definition ignored (options ch : Z) : bool :=
  has options Base64IgnoreSpacesAndNewLines && isLatin1 ch && isASCIISpace ch && negb (has options Base64DiscardVerticalTab && (ch =? 11)).

(** The values of the characters and the number of padding characters; nothing for a text with an error. *)
Fixpoint scan_ref (data : list Z) (options : Z) (eq : Z) : option (list Z * Z) :=
  match data with
  | [] => Some ([], eq)
  | ch :: data =>
      if ch =? 61 then if has options Base64ValidatePadding && (2 <? eq + 1) then None else scan_ref data options (eq + 1)
      else if negb (value_of ch =? nonAlphabet) then
        if negb (eq =? 0) then None else '(s, eq) ← scan_ref data options eq; Some (value_of ch :: s, eq)
      else if ignored options ch then scan_ref data options eq else None
  end.

Definition decode_ref (data : list Z) (options : Z) : bool * list Z :=
  match scan_ref data options 0 with
  | None => (false, [])
  | Some ([], eq) => (eq =? 0, [])
  | Some (s, eq) =>
      if has options Base64ValidatePadding && negb (eq =? 0) && negb ((zlen s + eq) mod 4 =? 0) then (false, [])
      else if zlen s mod 4 =? 1 then (false, []) else (true, bytes_of s)
  end.

Lemma read_map ch : 0 <= ch -> (if ch <? 128 then or_ub decodeMap.[ch] else Ok nonAlphabet) = Ok (value_of ch).
Proof.
  intros Hch. unfold value_of. destruct (Z.ltb_spec ch 128); [|done]. destruct (decodeMap.[ch]) as [v|] eqn:E; [done|].
  exfalso. revert E. unfold zlookup, zlen in *. rewrite (proj2 (Z.leb_le _ _)) by lia. apply not_eq_None_Some, lookup_lt_is_Some. lia.
Qed.

Lemma write_buffer w k v : adapter_write (buffer w (S k)).1 (zlen w) v = Ok (buffer (w ++ [v]) k).1.
Proof.
  unfold adapter_write, buffer. cbn [fst].
  assert (E : ((Some <$> w) ++ replicate (S k) None).[zlen w] = Some (None : cell)).
  { rewrite <- (zlen_fmap Some w). apply zlookup_app. }
  rewrite E, to_nat_zlen, fmap_app, <- app_assoc. cbn. rewrite <- (length_fmap Some w) at 1. by rewrite insert_app_r_alt, Nat.sub_diag.
Qed.

Lemma not_ignored options ch :
  negb (has options Base64IgnoreSpacesAndNewLines) ||
    (negb (isLatin1 ch) || negb (isASCIISpace ch) || (has options Base64DiscardVerticalTab && (ch =? 11))) = negb (ignored options ch).
Proof. unfold ignored. by destruct (has _ _), (isLatin1 ch), (isASCIISpace ch), (has _ _), (ch =? 11). Qed.

Lemma scan_loop_correct data options w k eq : Forall (fun ch => 0 <= ch) data -> 0 <= eq -> zlen w + eq + zlen data < 2 ^ 32 ->
  exists s k' eq' err, scan_loop data options decodeMap (buffer w (length data + k)).1 (zlen w) eq = Ok ((buffer (w ++ s) k').1, zlen (w ++ s), eq', err) /\
    (zlen s + eq' <= eq + zlen data /\ eq <= eq') /\
    match scan_ref data options eq with
    | None => err = true
    | Some (s', eq'') => s' = s /\ eq'' = eq' /\ err = false
    end.
Proof.
  revert w k eq. induction data as [|ch data IH]; intros w k eq Hd Heq Hw; cbn [scan_loop scan_ref].
  { exists [], k, eq, false. rewrite app_nil_r. split_and!; try done; rewrite ?zlen_nil; lia. }
  apply Forall_cons in Hd as [Hch Hd]. revert Hw. autorewrite with zlen. intros Hw. pose proof (zlen_nonneg data). pose proof (zlen_nonneg w).
  assert (Hstop : forall n (eq' : Z), eq <= eq' <= eq + 1 -> exists (s : list Z) k' (eq'' : Z) err,
    Ok ((buffer w n).1, zlen w, eq', true) = Ok ((buffer (w ++ s) k').1, zlen (w ++ s), eq'', err) /\
    (zlen s + eq'' <= eq + (1 + zlen data) /\ eq <= eq'') /\ err = true).
  { intros n eq' Hn. exists [], n, eq', true. rewrite app_nil_r. split_and!; [done | rewrite ?zlen_nil; lia.. | done]. }
  assert (Hmore : forall eq1, eq <= eq1 <= eq + 1 -> exists s k' eq' err,
    scan_loop data options decodeMap (buffer w (length (ch :: data) + k)).1 (zlen w) eq1 = Ok ((buffer (w ++ s) k').1, zlen (w ++ s), eq', err) /\
    (zlen s + eq' <= eq + (1 + zlen data) /\ eq <= eq') /\
    match scan_ref data options eq1 with None => err = true | Some (s', eq'') => s' = s /\ eq'' = eq' /\ err = false end).
  { intros eq1 H1. cbn [length Nat.add]. rewrite <- Nat.add_succ_r. destruct (IH w (S k) eq1) as (s & k' & eq' & err & ? & ? & ?); [done | lia | lia |].
    exists s, k', eq', err. split_and!; [done | lia.. | done]. }
  destruct (ch =? 61).
  - rewrite wrap_small by lia. destruct (_ && _); [apply Hstop; lia | apply Hmore; lia].
  - rewrite read_map by done. cbn [mbind res_bind]. destruct (negb (value_of ch =? nonAlphabet)).
    + destruct (negb (eq =? 0)); [apply Hstop; lia|]. cbn [length Nat.add]. rewrite write_buffer. cbn [mbind res_bind].
      rewrite wrap_small by lia. replace (zlen w + 1) with (zlen (w ++ [value_of ch])) by (by autorewrite with zlen).
      destruct (IH (w ++ [value_of ch]) k eq) as (s & k' & eq' & err & -> & ? & Hr); [done.. | autorewrite with zlen; lia |].
      exists (value_of ch :: s), k', eq', err. rewrite <- app_assoc. split_and!; [done | autorewrite with zlen; lia.. |].
      destruct (scan_ref data options eq) as [[s' eq'']|]; cbn; [|done]. destruct Hr as (-> & -> & ->). done.
    + rewrite not_ignored. destruct (ignored options ch); cbn [negb]; [apply Hmore; lia | apply Hstop; lia].
Qed.

(** ** Regrouping in place *)

Lemma zlen_bytes_of s : zlen (bytes_of s) = 3 * zlen s / 4.
Proof.
  induction s as [|x|x y|x y z|x y z w s IH] using list_ind4; [done.. |]. cbn [bytes_of]. autorewrite with zlen.
  rewrite IH. pose proof (zlen_nonneg s). zdiv.
Qed.

Lemma bytes_at s q :
  (forall x y, s !! (4 * q)%nat = Some x -> s !! (4 * q + 1)%nat = Some y -> bytes_of s !! (3 * q)%nat = Some (sextet1 x y)) /\
  (forall y z, s !! (4 * q + 1)%nat = Some y -> s !! (4 * q + 2)%nat = Some z -> bytes_of s !! (3 * q + 1)%nat = Some (sextet2 y z)) /\
  (forall z w, s !! (4 * q + 2)%nat = Some z -> s !! (4 * q + 3)%nat = Some w -> bytes_of s !! (3 * q + 2)%nat = Some (sextet3 z w)).
Proof.
  revert q. induction s as [|x|x y|x y z|x y z w s IH] using list_ind4; intros q.
  - done.
  - destruct q; [done | split_and!; intros ?? Hx; apply lookup_lt_Some in Hx; cbn [length] in Hx; lia].
  - destruct q; [|split_and!; intros ?? Hx; apply lookup_lt_Some in Hx; cbn [length] in Hx; lia]. split_and!; naive_solver.
  - destruct q; [|split_and!; intros ?? Hx; apply lookup_lt_Some in Hx; cbn [length] in Hx; lia]. split_and!; naive_solver.
  - destruct q as [|q]; [split_and!; naive_solver|]. specialize (IH q).
    replace (4 * S q)%nat with (S (S (S (S (4 * q)))))%nat by lia. replace (3 * S q)%nat with (S (S (S (3 * q))))%nat by lia. apply IH.
Qed.

Lemma zlookup_of_nat {A} (l : list A) i : l.[Z.of_nat i] = l !! i.
Proof. unfold zlookup. by rewrite (proj2 (Z.leb_le _ _)), Nat2Z.id by lia. Qed.

(** Some bytes are done, the values from [j] on are still there. *)
Definition halfway (s : list Z) (out : cells) (d j : nat) : Prop :=
  length out = length s /\ (forall i, (i < d)%nat -> out !! i = Some <$> bytes_of s !! i) /\
  (forall i, (j <= i)%nat -> out !! i = Some <$> s !! i).

Lemma combine_step s out d j f x y : halfway s out d j -> (d <= j)%nat -> s !! j = Some x -> s !! S j = Some y ->
  bytes_of s !! d = Some (f x y) ->
  exists out', combine f out (Z.of_nat d) (Z.of_nat j) = Ok out' /\ halfway s out' (S d) (S j).
Proof.
  intros (Hl & Hb & Hs) Hd Hx Hy Hf. unfold combine, adapter_read, adapter_write.
  replace (Z.of_nat j + 1) with (Z.of_nat (S j)) by lia. rewrite !zlookup_of_nat, (Hs j), (Hs (S j)), Hx, Hy by lia. cbn [fmap option_fmap option_map mbind res_bind].
  assert (d < length out)%nat by (rewrite Hl; apply lookup_lt_Some in Hx; lia).
  destruct (out !! d) as [o|] eqn:Eo; [|apply lookup_ge_None in Eo; lia].
  eexists. split; [done|]. rewrite Nat2Z.id. split_and!.
  - by rewrite length_insert.
  - intros i Hi. destruct (decide (i = d)) as [->|]; [rewrite list_lookup_insert_eq by done; by rewrite Hf|].
    rewrite list_lookup_insert_ne by lia. apply Hb. lia.
  - intros i Hi. rewrite list_lookup_insert_ne by lia. apply Hs. lia.
Qed.

Lemma lookup_some (s : list Z) i : (i < length s)%nat -> exists x, s !! i = Some x.
Proof. intros Hi. by apply lookup_lt_is_Some in Hi. Qed.

Lemma decode_loop_correct s m fuel out q : m = 3 * zlen s / 4 -> 2 <= m < 2 ^ 32 -> zlen s < 2 ^ 32 -> 3 * Z.of_nat q <= m -> m - 3 * Z.of_nat q <= Z.of_nat fuel ->
  halfway s out (3 * q) (4 * q) ->
  exists out' q', decode_loop fuel out m (Z.of_nat (4 * q)) (Z.of_nat (3 * q)) = Ok (out', Z.of_nat (4 * q'), Z.of_nat (3 * q')) /\
    halfway s out' (3 * q') (4 * q') /\ m - 2 <= 3 * Z.of_nat q' <= m.
Proof.
  intros Em Hm Hs. revert out q. induction fuel as [|fuel IH]; intros out q Hq Hf Hh; cbn [decode_loop]; rewrite (wrap_small 32 (m - 2)) by lia.
  { rewrite (proj2 (Z.ltb_ge _ _)) by lia. exists out, q. split_and!; [done | done | lia..]. }
  destruct (Z.ltb_spec (Z.of_nat (3 * q)) (m - 2)) as [Hlt|Hge]; [|exists out, q; split_and!; [done | done | lia..]].
  assert (4 * q + 3 < length s)%nat by (unfold zlen in Em; zdiv).
  destruct (lookup_some s (4 * q)) as [x Hx]; [lia|]. destruct (lookup_some s (4 * q + 1)) as [y Hy]; [lia|].
  destruct (lookup_some s (4 * q + 2)) as [z Hz]; [lia|]. destruct (lookup_some s (4 * q + 3)) as [w Hw]; [lia|].
  destruct (bytes_at s q) as (B1 & B2 & B3). specialize (B1 x y Hx Hy). specialize (B2 y z Hy Hz). specialize (B3 z w Hz Hw).
  destruct (combine_step s out (3 * q) (4 * q) sextet1 x y) as (o1 & -> & H1); [done | lia | done | by rewrite <- Hy; f_equal; lia | done |].
  cbn [mbind res_bind]. replace (Z.of_nat (3 * q) + 1) with (Z.of_nat (S (3 * q))) by lia. replace (Z.of_nat (4 * q) + 1) with (Z.of_nat (S (4 * q))) by lia.
  destruct (combine_step s o1 (S (3 * q)) (S (4 * q)) sextet2 y z) as (o2 & -> & H2);
    [done | lia | by rewrite <- Hy; f_equal; lia | by rewrite <- Hz; f_equal; lia | by rewrite <- B2; f_equal; lia |].
  cbn [mbind res_bind]. replace (Z.of_nat (3 * q) + 2) with (Z.of_nat (S (S (3 * q)))) by lia. replace (Z.of_nat (4 * q) + 2) with (Z.of_nat (S (S (4 * q)))) by lia.
  destruct (combine_step s o2 (S (S (3 * q))) (S (S (4 * q))) sextet3 z w) as (o3 & -> & H3);
    [done | lia | by rewrite <- Hz; f_equal; lia | by rewrite <- Hw; f_equal; lia | by rewrite <- B3; f_equal; lia |].
  cbn [mbind res_bind]. rewrite !wrap_small by (unfold zlen in Hs; lia).
  replace (Z.of_nat (4 * q) + 4) with (Z.of_nat (4 * S q)) by lia. replace (Z.of_nat (3 * q) + 3) with (Z.of_nat (3 * S q)) by lia.
  apply IH; [lia.. |]. destruct H3 as (L & Hb & Hr). split_and!; [done | intros; apply Hb; lia | intros; apply Hr; lia].
Qed.

(** The bytes after the full groups. *)
Lemma regroup_tail s out q m : m = 3 * zlen s / 4 -> m + 1 < 2 ^ 32 -> halfway s out (3 * q) (4 * q) -> m - 2 <= 3 * Z.of_nat q <= m ->
  exists out', (out ← (if Z.of_nat (3 * q) <? m then combine sextet1 out (Z.of_nat (3 * q)) (Z.of_nat (4 * q)) else Ok out);
    (if u32 (Z.of_nat (3 * q) + 1) <? m then combine sextet2 out (u32 (Z.of_nat (3 * q) + 1)) (Z.of_nat (4 * q) + 1) else Ok out)) = Ok out' /\
    length out' = length s /\ forall i, Z.of_nat i < m -> out' !! i = Some <$> bytes_of s !! i.
Proof.
  intros Em Hm Hh Hq. destruct (bytes_at s q) as (B1 & B2 & _). destruct (Z.ltb_spec (Z.of_nat (3 * q)) m).
  - assert (4 * q + 1 < length s)%nat by (unfold zlen in Em; zdiv).
    destruct (lookup_some s (4 * q)) as [x Hx]; [lia|]. destruct (lookup_some s (4 * q + 1)) as [y Hy]; [lia|].
    destruct (combine_step s out (3 * q) (4 * q) sextet1 x y) as (o1 & -> & H1); [done | lia | done | by rewrite <- Hy; f_equal; lia | by apply B1 |].
    cbn [mbind res_bind]. rewrite wrap_small by lia. destruct (Z.ltb_spec (Z.of_nat (3 * q) + 1) m).
    + assert (4 * q + 2 < length s)%nat by (unfold zlen in Em; zdiv). destruct (lookup_some s (4 * q + 2)) as [z Hz]; [lia|].
      replace (Z.of_nat (3 * q) + 1) with (Z.of_nat (S (3 * q))) by lia. replace (Z.of_nat (4 * q) + 1) with (Z.of_nat (S (4 * q))) by lia.
      destruct (combine_step s o1 (S (3 * q)) (S (4 * q)) sextet2 y z) as (o2 & -> & L & Hb & _);
        [done | lia | by rewrite <- Hy; f_equal; lia | by rewrite <- Hz; f_equal; lia | rewrite <- (B2 y z Hy Hz); f_equal; lia |].
      exists o2. split_and!; [done.. |]. intros i Hi. apply Hb. lia.
    + exists o1. destruct H1 as (L & Hb & _). split_and!; [done.. |]. intros i Hi. apply Hb. lia.
  - cbn [mbind res_bind]. rewrite wrap_small, (proj2 (Z.ltb_ge _ _)) by lia. destruct Hh as (L & Hb & _).
    exists out. split_and!; [done.. |]. intros i Hi. apply Hb. lia.
Qed.

Lemma shrink_bytes s out : 0 < zlen s -> length out = length s ->
  (forall i, Z.of_nat i < 3 * zlen s / 4 -> out !! i = Some <$> bytes_of s !! i) -> shrink_to out (3 * zlen s / 4) = Some <$> bytes_of s.
Proof.
  intros Hn Hl Hb. pose proof (zlen_bytes_of s) as Ez. unfold shrink_to.
  assert (El : zlen out = zlen s) by (unfold zlen; by rewrite Hl). rewrite El, (proj2 (Z.ltb_lt _ _)) by zdiv.
  apply list_eq. intros i. rewrite list_lookup_fmap. destruct (Z.lt_ge_cases (Z.of_nat i) (3 * zlen s / 4)) as [Hi|Hi].
  - rewrite lookup_take_lt by lia. by apply Hb.
  - rewrite lookup_take_ge by lia. by rewrite (lookup_ge_None_2 (bytes_of s)) by (unfold zlen in *; lia).
Qed.

(** The conversion of four values to three bytes, as the code does it. *)
Definition regroup (out : cells) (outLength : Z) : res (bool * cells) :=
  '(out, sidx, didx) ← (if 1 <? outLength then decode_loop (length out) out outLength 0 0 else Ok (out, 0, 0));
  out ← (if didx <? outLength then combine sextet1 out didx sidx else Ok out);
  let didx := u32 (didx + 1) in
  out ← (if didx <? outLength then combine sextet2 out didx (sidx + 1) else Ok out);
  Ok (true, shrink_to out outLength).

Lemma regroup_correct s : 2 <= zlen s <= 2 ^ 32 - 4 -> regroup (Some <$> s) (3 * zlen s / 4) = Ok (true, Some <$> bytes_of s).
Proof.
  intros Hn. unfold regroup. set (m := 3 * zlen s / 4). assert (1 <= m /\ m + 1 < 2 ^ 32) by (unfold m; zdiv).
  assert (Hstart : halfway s (Some <$> s) (3 * 0) (4 * 0)).
  { split_and!; [apply length_fmap | intros; lia | intros; apply list_lookup_fmap]. }
  assert (Hloop : exists out q, (if 1 <? m then decode_loop (length (Some <$> s)) (Some <$> s) m 0 0 else Ok (Some <$> s, 0, 0)) =
      Ok (out, Z.of_nat (4 * q), Z.of_nat (3 * q)) /\ halfway s out (3 * q) (4 * q) /\ m - 2 <= 3 * Z.of_nat q <= m).
  { destruct (Z.ltb_spec 1 m); [|exists (Some <$> s), 0%nat; split_and!; [done | done | lia..]].
    apply (decode_loop_correct s m _ _ 0); [done | lia.. | rewrite length_fmap; unfold m, zlen; zdiv | done]. }
  destruct Hloop as (out & q & -> & Hh & Hq). cbn [mbind res_bind].
  destruct (regroup_tail s out q m eq_refl) as (out' & Et & Hl' & Hb); [lia | done | done |].
  apply res_bind_Ok in Et as (o1 & -> & Et). cbn [mbind res_bind]. cbn zeta. rewrite Et. cbn [mbind res_bind].
  unfold m. by rewrite (shrink_bytes s out') by (done || lia).
Qed.

Lemma decode_correct data options : Forall (fun ch => 0 <= ch) data -> zlen data <= 2 ^ 32 - 4 ->
  exists out, base64DecodeInternal data options decodeMap = Ok ((decode_ref data options).1, out) /\
    ((decode_ref data options).1 = true -> out = Some <$> (decode_ref data options).2).
Proof.
  intros Hd Hl. unfold base64DecodeInternal. destruct (Z.eqb_spec (zlen data) 0) as [E0|E0].
  { destruct data; [by exists [] | autorewrite with zlen in E0; pose proof (zlen_nonneg data); lia]. }
  cbn zeta. destruct (scan_loop_correct data options [] 0 0 Hd) as (s & k & eq & err & E & Hlen & Hr); [lia | change (zlen (@nil Z)) with 0; lia |].
  unfold buffer in E. rewrite Nat.add_0_r in E. cbn [fst fmap list_fmap app] in E. change (zlen (@nil Z)) with 0 in E.
  rewrite E. cbn [mbind res_bind].
  assert (Esh : shrink_to ((Some <$> s) ++ replicate k None) (zlen s) = Some <$> s).
  { unfold shrink_to. autorewrite with zlen. destruct (Z.ltb_spec (zlen s) (zlen s + Z.of_nat k)).
    - by rewrite to_nat_zlen, <- (length_fmap Some s), take_app_length.
    - assert (k = 0%nat) as -> by lia. by rewrite app_nil_r. }
  rewrite Esh.
  unfold decode_ref. destruct (scan_ref data options 0) as [[s' eq']|]; [|subst err; by exists (Some <$> s)].
  destruct Hr as (-> & -> & ->). pose proof (zlen_nonneg s).
  destruct s as [|x s0] eqn:Es; [by exists []|]. rewrite <- Es in *. rewrite (proj2 (Z.eqb_neq (zlen s) 0)) by (subst s; autorewrite with zlen; pose proof (zlen_nonneg s0); lia).
  assert (Hpos : 0 < zlen s) by (subst s; autorewrite with zlen; pose proof (zlen_nonneg s0); lia).
  rewrite !(wrap_small 32 (zlen s + _)) by lia. destruct (_ && _ && _); [by exists (Some <$> s)|].
  destruct (Z.eqb_spec (zlen s mod 4) 1) as [|Hmod]; [by exists (Some <$> s)|].
  assert (Hm : u32 (zlen s - (zlen s + 3) / 4) = 3 * zlen s / 4) by (rewrite wrap_small; zdiv).
  rewrite Hm, (proj2 (Z.eqb_neq (3 * zlen s / 4) 0)) by zdiv.
  pose proof (regroup_correct s ltac:(zdiv)) as Eg. unfold regroup in Eg. cbn zeta in Eg. rewrite Eg.
  exists (Some <$> bytes_of s). by rewrite Es.
Qed.

End decode.
(** ** Round trips *)

Section both.
Context (encodeMap decodeMap : list Z).

(** The maps are inverse to each other and leave out the line feed and the padding. *)
Definition inverse_maps : Prop :=
  zlen encodeMap = 64 /\ zlen decodeMap = 128 /\ value_of decodeMap 10 = nonAlphabet /\
  forall i, 0 <= i < 64 -> value_of decodeMap (char_of encodeMap i) = i /\ char_of encodeMap i <> 61 /\ 0 <= char_of encodeMap i.

Context (maps : inverse_maps).

Lemma scan_chars s rest options : Forall (in_range 6) s ->
  scan_ref decodeMap ((char_of encodeMap <$> s) ++ rest) options 0 = '(s', eq) ← scan_ref decodeMap rest options 0; Some (s ++ s', eq).
Proof.
  destruct maps as (_ & _ & _ & Hinv). induction 1 as [|i s Hi _ IH].
  { cbn. by destruct (scan_ref decodeMap rest options 0) as [[]|]. }
  destruct (Hinv i Hi) as (Ev & Hne & _). unfold in_range in Hi. change (2 ^ 6) with 64 in Hi.
  rewrite fmap_cons, <- app_comm_cons. cbn [scan_ref].
  rewrite (proj2 (Z.eqb_neq _ 61)), Ev, (proj2 (Z.eqb_neq i nonAlphabet)) by (done || unfold nonAlphabet; lia). cbn [negb Z.eqb].
  rewrite IH. by destruct (scan_ref decodeMap rest options 0) as [[]|].
Qed.

Lemma scan_lines ins count data rest options : (ins = true -> has options Base64IgnoreSpacesAndNewLines = true) ->
  scan_ref decodeMap (lines encodeMap ins count data ++ rest) options 0 =
  '(s', eq) ← scan_ref decodeMap rest options 0; Some (sextets data ++ s', eq).
Proof.
  intros Ho. assert (Hlf : forall (p : bool) l, (p = true -> ins = true) ->
    scan_ref decodeMap ((if p then [10] else []) ++ l) options 0 = scan_ref decodeMap l options 0).
  { intros p l Hp. destruct p; [|done]. destruct maps as (_ & _ & Ev & _). cbn [app scan_ref]. change (10 =? 61) with false. cbn iota.
    rewrite Ev, Z.eqb_refl. cbn [negb]. unfold ignored. rewrite Ho by auto. cbn. by rewrite andb_false_r. }
  revert count. induction data as [|a|a b|a b c data IH] using list_ind3; intros count; cbn [lines].
  - cbn. by destruct (scan_ref decodeMap rest options 0) as [[]|].
  - rewrite <- app_assoc, Hlf by (intros [[? _]%andb_true_iff _]%andb_true_iff; done). apply scan_chars, sextets_range.
  - rewrite <- app_assoc, Hlf by (intros [[? _]%andb_true_iff _]%andb_true_iff; done). apply scan_chars, sextets_range.
  - rewrite <- !app_assoc, Hlf by (intros [[? _]%andb_true_iff _]%andb_true_iff; done). rewrite scan_chars by apply sextets_range.
    rewrite IH. by destruct (scan_ref decodeMap rest options 0) as [[]|].
Qed.

Lemma scan_padding p options : (p <= 2)%nat -> scan_ref decodeMap (replicate p 61) options 0 = Some ([], Z.of_nat p).
Proof. intros Hp. destruct p as [|[|[|p]]]; [| | | lia]; cbn; by rewrite ?andb_false_r. Qed.

Lemma encoded_range policy data : Forall (fun ch => 0 <= ch) (encoded encodeMap policy data).
Proof.
  assert (Hc : forall s, Forall (in_range 6) s -> Forall (fun ch => 0 <= ch) (char_of encodeMap <$> s)).
  { intros s Hs. apply Forall_fmap. eapply Forall_impl; [done|]. intros i Hi. by apply maps. }
  assert (Hlf : forall p : bool, Forall (fun ch => 0 <= ch) (if p then [10] else [])) by (intros []; by repeat constructor).
  unfold encoded. apply Forall_app. split.
  - assert (G : forall ins count, Forall (fun ch => 0 <= ch) (lines encodeMap ins count data)); [|apply G].
    intros ins. induction data as [|a|a b|a b c data IH] using list_ind3; intros count; cbn [lines];
      rewrite ?Forall_app; split_and?; first [apply Hlf | apply IH | apply Hc, sextets_range | done].
  - destruct policy; [| | done]; apply Forall_replicate; lia.
Qed.

Lemma decode_ref_encoded policy data options : Forall (in_range 8) data -> (policy = Base64InsertLFs -> has options Base64IgnoreSpacesAndNewLines = true) ->
  decode_ref decodeMap (encoded encodeMap policy data) options = (true, data).
Proof.
  intros Hd Ho. pose proof (bytes_of_sextets data Hd) as Eb. pose proof (zlen_sextets data) as Hz. pose proof (zlen_nonneg data).
  unfold decode_ref, encoded. rewrite scan_lines.
  2: { unfold inserts. destruct policy; (done || auto). }
  set (p := match policy with Base64URLPolicy => 0%nat | _ => Z.to_nat ((- zlen (sextets data)) mod 4) end).
  replace (match policy with Base64URLPolicy => [] | _ => padding data end) with (replicate p 61) by (by destruct policy).
  assert (Hp : (p <= 2)%nat /\ (p = 0%nat \/ (zlen (sextets data) + Z.of_nat p) mod 4 = 0)).
  { unfold p. destruct policy; [| | split; [lia | by left]]; rewrite Z2Nat.id by (apply Z.mod_pos_bound; lia); zdiv. }
  rewrite scan_padding by apply Hp. cbn [mbind option_bind]. rewrite app_nil_r.
  destruct (sextets data) as [|x s] eqn:Es.
  - assert (data = []) as -> by (destruct data as [|a [|b [|c data]]]; done). by destruct policy.
  - rewrite <- Es in *. destruct Hp as [_ [-> | ->]].
    + rewrite andb_false_r. cbn [andb]. rewrite (proj2 (Z.eqb_neq (zlen (sextets data) mod 4) 1)), Eb by zdiv. done.
    + rewrite andb_false_r, (proj2 (Z.eqb_neq (zlen (sextets data) mod 4) 1)), Eb by zdiv. done.
Qed.

Lemma roundtrip policy data options : Forall (in_range 8) data -> zlen data <= maxInputBufferSize -> columns_fit policy data ->
  (policy = Base64InsertLFs -> has options Base64IgnoreSpacesAndNewLines = true) ->
  exists text, base64EncodeInternal data policy encodeMap = Ok (Some <$> text) /\
    base64DecodeInternal text options decodeMap = Ok (true, Some <$> data).
Proof.
  intros Hd Hl Hc Ho. exists (encoded encodeMap policy data). destruct maps as (He & Hdm & _). split; [by apply encode_correct|].
  destruct (decode_correct decodeMap Hdm (encoded encodeMap policy data) options) as (out & E & Hout).
  - apply encoded_range.
  - destruct data as [|a data']; [by destruct policy|]. set (data := a :: data') in *.
    pose proof (lines_length encodeMap policy data ltac:(done)) as L. rewrite maxInputBufferSize_value in Hl.
    pose proof (zlen_nonneg (padding data)). unfold group_count in L.
    assert (zlen (encoded encodeMap policy data) <= zlen (lines encodeMap (inserts policy data) 0 data) + zlen (padding data)).
    { unfold encoded. rewrite zlen_app. destruct policy; change (zlen (@nil Z)) with 0; lia. }
    destruct (inserts policy data); zdiv.
  - rewrite decode_ref_encoded in E, Hout by done. by rewrite E, Hout.
Qed.

End both.

(** A decidable form of [inverse_maps]. *)
Definition inverse_mapsb (encodeMap decodeMap : list Z) : bool :=
  (zlen encodeMap =? 64) && (zlen decodeMap =? 128) && (value_of decodeMap 10 =? nonAlphabet) &&
  forallb (fun i => (value_of decodeMap (char_of encodeMap i) =? i) && negb (char_of encodeMap i =? 61) && (0 <=? char_of encodeMap i)) (seqZ 0 64).

Lemma inverse_mapsb_spec encodeMap decodeMap : inverse_mapsb encodeMap decodeMap = true -> inverse_maps encodeMap decodeMap.
Proof.
  unfold inverse_mapsb. intros H. zb. split_and!; [done..|]. intros i Hi.
  assert (Hin : i ∈ seqZ 0 64) by (apply elem_of_seqZ; lia). apply list_elem_of_In in Hin.
  match goal with H : forallb _ _ = true |- _ => apply forallb_forall with (x := i) in H; [zb; by split_and! | done] end.
Qed.

Lemma standard_maps : inverse_maps base64EncMap base64DecMap.
Proof. by apply inverse_mapsb_spec; vm_compute. Qed.

Lemma url_maps : inverse_maps base64URLEncMap base64URLDecMap.
Proof. by apply inverse_mapsb_spec; vm_compute. Qed.

(** C17: encoding and decoding give the bytes back, with any policy and any options as long as
    inserted line feeds are ignored, and for the variant for URLs.  The encoder gives up on
    data longer than [maxInputBufferSize]; with line feeds its column counter must not
    overflow. *)
Theorem base64_roundtrip data policy options :
  Forall (in_range 8) data -> zlen data <= maxInputBufferSize -> columns_fit policy data ->
  (policy = Base64InsertLFs -> has options Base64IgnoreSpacesAndNewLines = true) ->
  (exists text, base64Encode data policy = Ok (Some <$> text) /\ base64Decode text options = Ok (true, Some <$> data)) /\
  (exists text, base64URLEncode data = Ok (Some <$> text) /\ base64URLDecode text = Ok (true, Some <$> data)).
Proof.
  intros Hd Hl Hc Ho. split; [by apply (roundtrip _ _ standard_maps)|]. by apply (roundtrip _ _ url_maps).
Qed.

Definition sample_bytes : list Z := replicate 20 0 ++ [255; 1; 128] ++ replicate 40 77.

Lemma base64_roundtrip_witness :
  exists text, base64Encode sample_bytes Base64InsertLFs = Ok (Some <$> text) /\
    base64Decode text Base64IgnoreSpacesAndNewLines = Ok (true, Some <$> sample_bytes).
Proof.
  apply (base64_roundtrip sample_bytes Base64InsertLFs Base64IgnoreSpacesAndNewLines); [| done | done | done].
  match goal with |- ?P => apply (bool_decide_unpack P) end. by vm_compute.
Defined.

(** C18: the decoder, which writes the bytes over the values it reads them from, answers every text
    as the decoder on lists does: which texts it accepts and the bytes it leaves.  It never
    accesses the vector outside of its size and never reads a cell that was not written. *)
Theorem base64_decode_equivalent data options : Forall (fun ch => 0 <= ch) data -> zlen data <= 2 ^ 32 - 4 ->
  exists out, base64Decode data options = Ok ((decode_ref base64DecMap data options).1, out) /\
    ((decode_ref base64DecMap data options).1 = true -> out = Some <$> (decode_ref base64DecMap data options).2).
Proof. apply decode_correct. reflexivity. Qed.

Lemma base64_decode_equivalent_witness :
  exists out, base64Decode [84; 87; 32; 70; 61] Base64IgnoreSpacesAndNewLines = Ok (true, out) /\ out = Some <$> [77; 97].
Proof.
  destruct (base64_decode_equivalent [84; 87; 32; 70; 61] Base64IgnoreSpacesAndNewLines) as (out & E & H); [repeat constructor; lia | done |].
  exists out. split; [exact E | by apply H].
Defined.

End Base64Props.
