(* ===== verification/HttpNames.v ===== *)
(** * Names of HTTP headers (PurCFetcher/auxiliary/HTTPHeaderNames.cpp, HTTPHeaderNames.h)

    The perfect hash that finds the header a name stands for, generated by gperf, with its
    tables.  A word of the table is a C string: the list of its characters and the
    terminator.  Reading past a string or a table is [UB].

    The theorem: the lookup finds exactly the names of the table, in any case. *)

From Stdlib Require Ascii String.
Import String.StringSyntax.
From S2P Require Import Prelude WtfString.

Local Open Scope cf.

Module Names.
Import Str.

Inductive HTTPHeaderName :=
| H_Accept | H_AcceptCharset | H_AcceptEncoding | H_AcceptLanguage
| H_AcceptRanges | H_AccessControlAllowCredentials | H_AccessControlAllowHeaders | H_AccessControlAllowMethods
| H_AccessControlAllowOrigin | H_AccessControlExposeHeaders | H_AccessControlMaxAge | H_AccessControlRequestHeaders
| H_AccessControlRequestMethod | H_Age | H_Authorization | H_CacheControl
| H_Connection | H_ContentDisposition | H_ContentEncoding | H_ContentLanguage
| H_ContentLength | H_ContentLocation | H_ContentRange | H_ContentSecurityPolicy
| H_ContentSecurityPolicyReportOnly | H_ContentType | H_Cookie | H_Cookie2
| H_CrossOriginResourcePolicy | H_DNT | H_Date | H_DefaultStyle
| H_ETag | H_Expect | H_Expires | H_Host
| H_IcyMetaInt | H_IcyMetadata | H_IfMatch | H_IfModifiedSince
| H_IfNoneMatch | H_IfRange | H_IfUnmodifiedSince | H_KeepAlive
| H_LastEventID | H_LastModified | H_Link | H_Location
| H_Origin | H_PingFrom | H_PingTo | H_Pragma
| H_ProxyAuthorization | H_Purpose | H_Range | H_Referer
| H_ReferrerPolicy | H_Refresh | H_SecWebSocketAccept | H_SecWebSocketExtensions
| H_SecWebSocketKey | H_SecWebSocketProtocol | H_SecWebSocketVersion | H_ServerTiming
| H_ServiceWorker | H_ServiceWorkerAllowed | H_SetCookie | H_SetCookie2
| H_SourceMap | H_TE | H_TimingAllowOrigin | H_Trailer
| H_TransferEncoding | H_Upgrade | H_UpgradeInsecureRequests | H_UserAgent
| H_Vary | H_Via | H_XContentTypeOptions | H_XDNSPrefetchControl
| H_XFrameOptions | H_XSourceMap | H_XTempTablet | H_XXSSProtection.

Definition all_names : list HTTPHeaderName := [
    H_Accept; H_AcceptCharset; H_AcceptEncoding; H_AcceptLanguage;
    H_AcceptRanges; H_AccessControlAllowCredentials; H_AccessControlAllowHeaders; H_AccessControlAllowMethods;
    H_AccessControlAllowOrigin; H_AccessControlExposeHeaders; H_AccessControlMaxAge; H_AccessControlRequestHeaders;
    H_AccessControlRequestMethod; H_Age; H_Authorization; H_CacheControl;
    H_Connection; H_ContentDisposition; H_ContentEncoding; H_ContentLanguage;
    H_ContentLength; H_ContentLocation; H_ContentRange; H_ContentSecurityPolicy;
    H_ContentSecurityPolicyReportOnly; H_ContentType; H_Cookie; H_Cookie2;
    H_CrossOriginResourcePolicy; H_DNT; H_Date; H_DefaultStyle;
    H_ETag; H_Expect; H_Expires; H_Host;
    H_IcyMetaInt; H_IcyMetadata; H_IfMatch; H_IfModifiedSince;
    H_IfNoneMatch; H_IfRange; H_IfUnmodifiedSince; H_KeepAlive;
    H_LastEventID; H_LastModified; H_Link; H_Location;
    H_Origin; H_PingFrom; H_PingTo; H_Pragma;
    H_ProxyAuthorization; H_Purpose; H_Range; H_Referer;
    H_ReferrerPolicy; H_Refresh; H_SecWebSocketAccept; H_SecWebSocketExtensions;
    H_SecWebSocketKey; H_SecWebSocketProtocol; H_SecWebSocketVersion; H_ServerTiming;
    H_ServiceWorker; H_ServiceWorkerAllowed; H_SetCookie; H_SetCookie2;
    H_SourceMap; H_TE; H_TimingAllowOrigin; H_Trailer;
    H_TransferEncoding; H_Upgrade; H_UpgradeInsecureRequests; H_UserAgent;
    H_Vary; H_Via; H_XContentTypeOptions; H_XDNSPrefetchControl;
    H_XFrameOptions; H_XSourceMap; H_XTempTablet; H_XXSSProtection ].

(** [static_cast<unsigned>] *)
Definition index_of_name (name : HTTPHeaderName) : Z :=
  match name with
  | H_Accept => 0
  | H_AcceptCharset => 1
  | H_AcceptEncoding => 2
  | H_AcceptLanguage => 3
  | H_AcceptRanges => 4
  | H_AccessControlAllowCredentials => 5
  | H_AccessControlAllowHeaders => 6
  | H_AccessControlAllowMethods => 7
  | H_AccessControlAllowOrigin => 8
  | H_AccessControlExposeHeaders => 9
  | H_AccessControlMaxAge => 10
  | H_AccessControlRequestHeaders => 11
  | H_AccessControlRequestMethod => 12
  | H_Age => 13
  | H_Authorization => 14
  | H_CacheControl => 15
  | H_Connection => 16
  | H_ContentDisposition => 17
  | H_ContentEncoding => 18
  | H_ContentLanguage => 19
  | H_ContentLength => 20
  | H_ContentLocation => 21
  | H_ContentRange => 22
  | H_ContentSecurityPolicy => 23
  | H_ContentSecurityPolicyReportOnly => 24
  | H_ContentType => 25
  | H_Cookie => 26
  | H_Cookie2 => 27
  | H_CrossOriginResourcePolicy => 28
  | H_DNT => 29
  | H_Date => 30
  | H_DefaultStyle => 31
  | H_ETag => 32
  | H_Expect => 33
  | H_Expires => 34
  | H_Host => 35
  | H_IcyMetaInt => 36
  | H_IcyMetadata => 37
  | H_IfMatch => 38
  | H_IfModifiedSince => 39
  | H_IfNoneMatch => 40
  | H_IfRange => 41
  | H_IfUnmodifiedSince => 42
  | H_KeepAlive => 43
  | H_LastEventID => 44
  | H_LastModified => 45
  | H_Link => 46
  | H_Location => 47
  | H_Origin => 48
  | H_PingFrom => 49
  | H_PingTo => 50
  | H_Pragma => 51
  | H_ProxyAuthorization => 52
  | H_Purpose => 53
  | H_Range => 54
  | H_Referer => 55
  | H_ReferrerPolicy => 56
  | H_Refresh => 57
  | H_SecWebSocketAccept => 58
  | H_SecWebSocketExtensions => 59
  | H_SecWebSocketKey => 60
  | H_SecWebSocketProtocol => 61
  | H_SecWebSocketVersion => 62
  | H_ServerTiming => 63
  | H_ServiceWorker => 64
  | H_ServiceWorkerAllowed => 65
  | H_SetCookie => 66
  | H_SetCookie2 => 67
  | H_SourceMap => 68
  | H_TE => 69
  | H_TimingAllowOrigin => 70
  | H_Trailer => 71
  | H_TransferEncoding => 72
  | H_Upgrade => 73
  | H_UpgradeInsecureRequests => 74
  | H_UserAgent => 75
  | H_Vary => 76
  | H_Via => 77
  | H_XContentTypeOptions => 78
  | H_XDNSPrefetchControl => 79
  | H_XFrameOptions => 80
  | H_XSourceMap => 81
  | H_XTempTablet => 82
  | H_XXSSProtection => 83
  end.

#[export] Instance HTTPHeaderName_eq_dec : EqDecision HTTPHeaderName.
Proof.
  intros a b. destruct (Z.eq_dec (index_of_name a) (index_of_name b)) as [E|E].
  - left. assert (G : forall n, all_names.[index_of_name n] = Some n) by (intros []; reflexivity).
    apply (inj Some). by rewrite <- (G a), <- (G b), E.
  - right. intros ->. by apply E.
Defined.

Definition numHTTPHeaderNames : Z := 84.
Definition minHTTPHeaderNameLength : Z := 2.
Definition maxHTTPHeaderNameLength : Z := 35.

Definition headerNameStrings : list (StringImpl * Z) := [
    (lit "Accept", 6);
    (lit "Accept-Charset", 14);
    (lit "Accept-Encoding", 15);
    (lit "Accept-Language", 15);
    (lit "Accept-Ranges", 13);
    (lit "Access-Control-Allow-Credentials", 32);
    (lit "Access-Control-Allow-Headers", 28);
    (lit "Access-Control-Allow-Methods", 28);
    (lit "Access-Control-Allow-Origin", 27);
    (lit "Access-Control-Expose-Headers", 29);
    (lit "Access-Control-Max-Age", 22);
    (lit "Access-Control-Request-Headers", 30);
    (lit "Access-Control-Request-Method", 29);
    (lit "Age", 3);
    (lit "Authorization", 13);
    (lit "Cache-Control", 13);
    (lit "Connection", 10);
    (lit "Content-Disposition", 19);
    (lit "Content-Encoding", 16);
    (lit "Content-Language", 16);
    (lit "Content-Length", 14);
    (lit "Content-Location", 16);
    (lit "Content-Range", 13);
    (lit "Content-Security-Policy", 23);
    (lit "Content-Security-Policy-Report-Only", 35);
    (lit "Content-Type", 12);
    (lit "Cookie", 6);
    (lit "Cookie2", 7);
    (lit "Cross-Origin-Resource-Policy", 28);
    (lit "DNT", 3);
    (lit "Date", 4);
    (lit "Default-Style", 13);
    (lit "ETag", 4);
    (lit "Expect", 6);
    (lit "Expires", 7);
    (lit "Host", 4);
    (lit "Icy-MetaInt", 11);
    (lit "Icy-Metadata", 12);
    (lit "If-Match", 8);
    (lit "If-Modified-Since", 17);
    (lit "If-None-Match", 13);
    (lit "If-Range", 8);
    (lit "If-Unmodified-Since", 19);
    (lit "Keep-Alive", 10);
    (lit "Last-Event-ID", 13);
    (lit "Last-Modified", 13);
    (lit "Link", 4);
    (lit "Location", 8);
    (lit "Origin", 6);
    (lit "Ping-From", 9);
    (lit "Ping-To", 7);
    (lit "Pragma", 6);
    (lit "Proxy-Authorization", 19);
    (lit "Purpose", 7);
    (lit "Range", 5);
    (lit "Referer", 7);
    (lit "Referrer-Policy", 15);
    (lit "Refresh", 7);
    (lit "Sec-WebSocket-Accept", 20);
    (lit "Sec-WebSocket-Extensions", 24);
    (lit "Sec-WebSocket-Key", 17);
    (lit "Sec-WebSocket-Protocol", 22);
    (lit "Sec-WebSocket-Version", 21);
    (lit "Server-Timing", 13);
    (lit "Service-Worker", 14);
    (lit "Service-Worker-Allowed", 22);
    (lit "Set-Cookie", 10);
    (lit "Set-Cookie2", 11);
    (lit "SourceMap", 9);
    (lit "TE", 2);
    (lit "Timing-Allow-Origin", 19);
    (lit "Trailer", 7);
    (lit "Transfer-Encoding", 17);
    (lit "Upgrade", 7);
    (lit "Upgrade-Insecure-Requests", 25);
    (lit "User-Agent", 10);
    (lit "Vary", 4);
    (lit "Via", 3);
    (lit "X-Content-Type-Options", 22);
    (lit "X-DNS-Prefetch-Control", 22);
    (lit "X-Frame-Options", 15);
    (lit "X-SourceMap", 11);
    (lit "X-Temp-Tablet", 13);
    (lit "X-XSS-Protection", 16) ].

Definition MIN_WORD_LENGTH : Z := 2.
Definition MAX_WORD_LENGTH : Z := 35.
Definition MAX_HASH_VALUE : Z := 510.

Definition gperf_downcase : list Z := [
    0; 1; 2; 3; 4; 5; 6; 7; 8; 9; 10; 11; 12; 13; 14; 15;
    16; 17; 18; 19; 20; 21; 22; 23; 24; 25; 26; 27; 28; 29; 30; 31;
    32; 33; 34; 35; 36; 37; 38; 39; 40; 41; 42; 43; 44; 45; 46; 47;
    48; 49; 50; 51; 52; 53; 54; 55; 56; 57; 58; 59; 60; 61; 62; 63;
    64; 97; 98; 99; 100; 101; 102; 103; 104; 105; 106; 107; 108; 109; 110; 111;
    112; 113; 114; 115; 116; 117; 118; 119; 120; 121; 122; 91; 92; 93; 94; 95;
    96; 97; 98; 99; 100; 101; 102; 103; 104; 105; 106; 107; 108; 109; 110; 111;
    112; 113; 114; 115; 116; 117; 118; 119; 120; 121; 122; 123; 124; 125; 126; 127;
    128; 129; 130; 131; 132; 133; 134; 135; 136; 137; 138; 139; 140; 141; 142; 143;
    144; 145; 146; 147; 148; 149; 150; 151; 152; 153; 154; 155; 156; 157; 158; 159;
    160; 161; 162; 163; 164; 165; 166; 167; 168; 169; 170; 171; 172; 173; 174; 175;
    176; 177; 178; 179; 180; 181; 182; 183; 184; 185; 186; 187; 188; 189; 190; 191;
    192; 193; 194; 195; 196; 197; 198; 199; 200; 201; 202; 203; 204; 205; 206; 207;
    208; 209; 210; 211; 212; 213; 214; 215; 216; 217; 218; 219; 220; 221; 222; 223;
    224; 225; 226; 227; 228; 229; 230; 231; 232; 233; 234; 235; 236; 237; 238; 239;
    240; 241; 242; 243; 244; 245; 246; 247; 248; 249; 250; 251; 252; 253; 254; 255 ].

(** [gperf_case_strncmp], which reads both strings up to their first difference. *)
Fixpoint gperf_case_strncmp (s1 s2 : list Z) (n : nat) : res Z :=
  match n with
  | O => Ok 0
  | S n =>
      c1 ← or_ub (head s1); c2 ← or_ub (head s2);
      c1 ← or_ub gperf_downcase.[c1]; c2 ← or_ub gperf_downcase.[c2];
      if negb (c1 =? 0) && (c1 =? c2) then gperf_case_strncmp (tail s1) (tail s2) n else Ok (c1 - c2)
  end.

Definition asso_values : list Z := [
    511; 511; 511; 511; 511; 511; 511; 511; 511; 511; 511; 511; 511; 511; 511; 511;
    511; 511; 511; 511; 511; 511; 511; 511; 511; 511; 511; 511; 511; 511; 511; 511;
    511; 511; 511; 511; 511; 511; 511; 511; 511; 511; 511; 511; 511; 0; 511; 511;
    511; 511; 5; 511; 511; 511; 511; 511; 511; 511; 511; 511; 511; 511; 511; 511;
    511; 10; 0; 5; 10; 20; 70; 0; 4; 0; 511; 4; 55; 80; 5; 0;
    50; 10; 5; 0; 5; 55; 165; 20; 135; 40; 0; 511; 511; 511; 511; 511;
    511; 10; 0; 5; 10; 20; 70; 0; 4; 0; 511; 4; 55; 80; 5; 0;
    50; 10; 5; 0; 5; 55; 165; 20; 135; 40; 0; 511; 511; 511; 511; 511;
    511; 511; 511; 511; 511; 511; 511; 511; 511; 511; 511; 511; 511; 511; 511; 511;
    511; 511; 511; 511; 511; 511; 511; 511; 511; 511; 511; 511; 511; 511; 511; 511;
    511; 511; 511; 511; 511; 511; 511; 511; 511; 511; 511; 511; 511; 511; 511; 511;
    511; 511; 511; 511; 511; 511; 511; 511; 511; 511; 511; 511; 511; 511; 511; 511;
    511; 511; 511; 511; 511; 511; 511; 511; 511; 511; 511; 511; 511; 511; 511; 511;
    511; 511; 511; 511; 511; 511; 511; 511; 511; 511; 511; 511; 511; 511; 511; 511;
    511; 511; 511; 511; 511; 511; 511; 511; 511; 511; 511; 511; 511; 511; 511; 511;
    511; 511; 511; 511; 511; 511; 511; 511; 511; 511; 511; 511; 511; 511; 511; 511 ].

(** The cases of the [switch], from the last character, at most the thirty-fifth, to the first. *)
Fixpoint hash_from (str : list Z) (i : nat) (hval : Z) : res Z :=
  match i with
  | O => Ok hval
  | S i => c ← or_ub (str !! i); v ← or_ub asso_values.[c]; hash_from str i (u32 (hval + v))
  end.

Definition header_name_hash_function (str : list Z) (len : Z) : res Z :=
  hash_from str (Z.to_nat (if (1 <=? len) && (len <=? 34) then len else 35)) 0.

Definition header_name_wordlist : list (list Z * HTTPHeaderName) := [
    (lit "Host" ++ [0], H_Host);
    (lit "Origin" ++ [0], H_Origin);
    (lit "DNT" ++ [0], H_DNT);
    (lit "TE" ++ [0], H_TE);
    (lit "Cookie" ++ [0], H_Cookie);
    (lit "Age" ++ [0], H_Age);
    (lit "Cookie2" ++ [0], H_Cookie2);
    (lit "ETag" ++ [0], H_ETag);
    (lit "Range" ++ [0], H_Range);
    (lit "Date" ++ [0], H_Date);
    (lit "Connection" ++ [0], H_Connection);
    (lit "Set-Cookie" ++ [0], H_SetCookie);
    (lit "Set-Cookie2" ++ [0], H_SetCookie2);
    (lit "Ping-To" ++ [0], H_PingTo);
    (lit "Link" ++ [0], H_Link);
    (lit "Location" ++ [0], H_Location);
    (lit "Content-Range" ++ [0], H_ContentRange);
    (lit "Content-Encoding" ++ [0], H_ContentEncoding);
    (lit "Accept" ++ [0], H_Accept);
    (lit "Authorization" ++ [0], H_Authorization);
    (lit "Trailer" ++ [0], H_Trailer);
    (lit "If-Range" ++ [0], H_IfRange);
    (lit "Content-Disposition" ++ [0], H_ContentDisposition);
    (lit "Cache-Control" ++ [0], H_CacheControl);
    (lit "User-Agent" ++ [0], H_UserAgent);
    (lit "Refresh" ++ [0], H_Refresh);
    (lit "Content-Location" ++ [0], H_ContentLocation);
    (lit "Content-Length" ++ [0], H_ContentLength);
    (lit "Accept-Ranges" ++ [0], H_AcceptRanges);
    (lit "Accept-Encoding" ++ [0], H_AcceptEncoding);
    (lit "Accept-Charset" ++ [0], H_AcceptCharset);
    (lit "Referer" ++ [0], H_Referer);
    (lit "Upgrade" ++ [0], H_Upgrade);
    (lit "Pragma" ++ [0], H_Pragma);
    (lit "Content-Type" ++ [0], H_ContentType);
    (lit "Sec-WebSocket-Key" ++ [0], H_SecWebSocketKey);
    (lit "Transfer-Encoding" ++ [0], H_TransferEncoding);
    (lit "Icy-MetaInt" ++ [0], H_IcyMetaInt);
    (lit "If-Match" ++ [0], H_IfMatch);
    (lit "Via" ++ [0], H_Via);
    (lit "Purpose" ++ [0], H_Purpose);
    (lit "Sec-WebSocket-Accept" ++ [0], H_SecWebSocketAccept);
    (lit "Icy-Metadata" ++ [0], H_IcyMetadata);
    (lit "Content-Language" ++ [0], H_ContentLanguage);
    (lit "If-None-Match" ++ [0], H_IfNoneMatch);
    (lit "Ping-From" ++ [0], H_PingFrom);
    (lit "Sec-WebSocket-Protocol" ++ [0], H_SecWebSocketProtocol);
    (lit "Vary" ++ [0], H_Vary);
    (lit "SourceMap" ++ [0], H_SourceMap);
    (lit "Expires" ++ [0], H_Expires);
    (lit "Expect" ++ [0], H_Expect);
    (lit "Timing-Allow-Origin" ++ [0], H_TimingAllowOrigin);
    (lit "Accept-Language" ++ [0], H_AcceptLanguage);
    (lit "Last-Modified" ++ [0], H_LastModified);
    (lit "Access-Control-Allow-Origin" ++ [0], H_AccessControlAllowOrigin);
    (lit "Service-Worker" ++ [0], H_ServiceWorker);
    (lit "Cross-Origin-Resource-Policy" ++ [0], H_CrossOriginResourcePolicy);
    (lit "Sec-WebSocket-Extensions" ++ [0], H_SecWebSocketExtensions);
    (lit "If-Modified-Since" ++ [0], H_IfModifiedSince);
    (lit "Sec-WebSocket-Version" ++ [0], H_SecWebSocketVersion);
    (lit "Last-Event-ID" ++ [0], H_LastEventID);
    (lit "Access-Control-Request-Headers" ++ [0], H_AccessControlRequestHeaders);
    (lit "Referrer-Policy" ++ [0], H_ReferrerPolicy);
    (lit "Server-Timing" ++ [0], H_ServerTiming);
    (lit "Access-Control-Allow-Headers" ++ [0], H_AccessControlAllowHeaders);
    (lit "Content-Security-Policy" ++ [0], H_ContentSecurityPolicy);
    (lit "Proxy-Authorization" ++ [0], H_ProxyAuthorization);
    (lit "Keep-Alive" ++ [0], H_KeepAlive);
    (lit "Default-Style" ++ [0], H_DefaultStyle);
    (lit "Access-Control-Request-Method" ++ [0], H_AccessControlRequestMethod);
    (lit "If-Unmodified-Since" ++ [0], H_IfUnmodifiedSince);
    (lit "X-Content-Type-Options" ++ [0], H_XContentTypeOptions);
    (lit "X-SourceMap" ++ [0], H_XSourceMap);
    (lit "X-XSS-Protection" ++ [0], H_XXSSProtection);
    (lit "Access-Control-Max-Age" ++ [0], H_AccessControlMaxAge);
    (lit "Access-Control-Allow-Methods" ++ [0], H_AccessControlAllowMethods);
    (lit "Upgrade-Insecure-Requests" ++ [0], H_UpgradeInsecureRequests);
    (lit "X-Frame-Options" ++ [0], H_XFrameOptions);
    (lit "X-Temp-Tablet" ++ [0], H_XTempTablet);
    (lit "Access-Control-Allow-Credentials" ++ [0], H_AccessControlAllowCredentials);
    (lit "X-DNS-Prefetch-Control" ++ [0], H_XDNSPrefetchControl);
    (lit "Access-Control-Expose-Headers" ++ [0], H_AccessControlExposeHeaders);
    (lit "Service-Worker-Allowed" ++ [0], H_ServiceWorkerAllowed);
    (lit "Content-Security-Policy-Report-Only" ++ [0], H_ContentSecurityPolicyReportOnly) ].

Definition lookup : list Z := [
    -1; -1; -1; -1; -1; -1; -1; -1; -1; 0; 1; -1; -1; -1; -1; -1; -1; -1; -1; -1; 2;
    -1; -1; -1; -1; 3; -1; -1; -1; 4; 5; -1; -1; -1; 6; 7; -1; -1; -1; -1; 8; -1;
    -1; -1; -1; 9; -1; -1; -1; -1; 10; -1; -1; -1; 11; -1; -1; -1; -1; 12; 13; -1; -1;
    -1; 14; -1; -1; -1; -1; -1; -1; -1; -1; -1; -1; -1; -1; -1; -1; -1; 15; -1; -1; -1;
    -1; 16; -1; -1; -1; -1; 17; -1; -1; -1; -1; 18; -1; -1; -1; 19; 20; -1; -1; -1; -1;
    -1; -1; -1; -1; -1; 21; -1; -1; -1; -1; 22; -1; -1; -1; 23; 24; -1; -1; -1; 25; 26;
    -1; -1; -1; -1; -1; -1; -1; -1; 27; 28; -1; -1; -1; -1; 29; -1; -1; -1; 30; 31; -1;
    -1; -1; -1; 32; -1; -1; -1; -1; 33; -1; -1; -1; -1; 34; -1; -1; 35; -1; 36; -1; -1;
    -1; -1; 37; -1; -1; -1; 38; 39; -1; -1; -1; -1; 40; -1; -1; -1; -1; -1; -1; -1; -1;
    -1; -1; -1; -1; -1; 41; 42; -1; -1; -1; -1; 43; -1; -1; -1; 44; -1; -1; -1; -1; -1;
    45; -1; -1; -1; -1; -1; -1; -1; -1; 46; 47; -1; -1; -1; -1; 48; -1; -1; -1; -1; 49;
    -1; -1; -1; -1; 50; -1; -1; -1; -1; 51; -1; -1; -1; -1; -1; -1; -1; -1; -1; 52; -1;
    -1; -1; -1; -1; -1; -1; -1; -1; 53; -1; -1; -1; -1; 54; -1; -1; -1; 55; -1; -1; -1;
    -1; -1; -1; -1; -1; -1; -1; 56; -1; -1; -1; -1; -1; -1; -1; -1; 57; 58; -1; -1; -1;
    59; 60; -1; -1; -1; 61; 62; -1; -1; -1; -1; 63; -1; -1; -1; -1; -1; -1; -1; -1; -1;
    -1; -1; -1; -1; -1; -1; -1; -1; -1; 64; 65; -1; -1; -1; 66; -1; -1; -1; -1; -1; -1;
    -1; -1; -1; -1; -1; -1; -1; -1; 67; 68; -1; -1; -1; 69; 70; -1; -1; -1; -1; 71; -1;
    -1; -1; -1; 72; -1; -1; -1; -1; 73; -1; -1; -1; -1; 74; -1; -1; -1; 75; 76; -1; -1;
    -1; -1; 77; -1; -1; -1; -1; 78; -1; -1; -1; -1; 79; -1; -1; -1; -1; -1; -1; -1; -1;
    -1; -1; -1; -1; -1; 80; -1; -1; -1; -1; 81; -1; -1; -1; -1; -1; -1; -1; -1; -1; -1;
    -1; -1; -1; -1; -1; -1; -1; -1; -1; -1; -1; -1; -1; -1; -1; -1; -1; -1; -1; 82; -1;
    -1; -1; -1; -1; -1; -1; -1; -1; -1; -1; -1; -1; -1; -1; -1; -1; -1; -1; -1; -1; -1;
    -1; -1; -1; -1; -1; -1; -1; -1; -1; -1; -1; -1; -1; -1; -1; -1; -1; -1; -1; -1; -1;
    -1; -1; -1; -1; -1; -1; -1; -1; -1; -1; -1; -1; -1; -1; -1; -1; -1; -1; -1; -1; -1;
    -1; -1; -1; -1; -1; -1; 83 ].

(** The entry of the word list, as its index. *)
Definition findHeaderNameImpl (str : list Z) (len : Z) : res (option Z) :=
  if (len <=? MAX_WORD_LENGTH) && (MIN_WORD_LENGTH <=? len) then
    key ← header_name_hash_function str len;
    if key <=? MAX_HASH_VALUE then
      index ← or_ub lookup.[key];
      if 0 <=? index then
        '(s, _) ← or_ub header_name_wordlist.[index];
        a ← or_ub (head str); b ← or_ub (head s);
        if Z.land (Z.lxor a b) (Z.lnot 32) =? 0 then
          d ← gperf_case_strncmp str s (Z.to_nat len);
          if d =? 0 then
            last ← or_ub s.[len];
            if last =? 0 then Ok (Some index) else Ok None
          else Ok None
        else Ok None
      else Ok None
    else Ok None
  else Ok None.

Definition entry_name (index : option Z) : res (option HTTPHeaderName) :=
  match index with None => Ok None | Some i => '(_, name) ← or_ub header_name_wordlist.[i]; Ok (Some name) end.

(** A string of 16 bits per character is copied, which fails for a character that is not ASCII. *)
Definition findHTTPHeaderName (is8Bit : bool) (name : StringImpl) : res (option HTTPHeaderName) :=
  let length := zlen name in
  if (maxHTTPHeaderNameLength <? length) || (length <? minHTTPHeaderNameLength) then Ok None
  else if is8Bit || forallb isASCII name then i ← findHeaderNameImpl name length; entry_name i
  else Ok None.

Definition httpHeaderNameString (name : HTTPHeaderName) : res StringImpl :=
  '(s, n) ← or_ub headerNameStrings.[index_of_name name]; mem_read s 0 n.

Example find_content_type : findHTTPHeaderName true (lit "content-TYPE") = Ok (Some H_ContentType).
Proof. reflexivity. Qed.

Example find_nothing : findHTTPHeaderName true (lit "Content-Typo") = Ok None.
Proof. reflexivity. Qed.

(** ** Correctness *)

Abbreviation lower l := (toASCIILower <$> l).

Abbreviation byte := (in_range 8).

(** A property of all bytes, checked on each. *)
Lemma all_bytes (P : Z -> bool) : forallb P (seqZ 0 256) = true -> forall c, byte c -> P c = true.
Proof. intros HP c Hc. rewrite forallb_forall in HP. apply HP, list_elem_of_In, elem_of_seqZ. unfold in_range in Hc. lia. Qed.

Definition asso (c : Z) : Z := default 511 asso_values.[c].

Lemma byte_tables c : byte c ->
  gperf_downcase.[c] = Some (toASCIILower c) /\ byte (toASCIILower c) /\ (toASCIILower c = 0 -> c = 0) /\
  asso_values.[c] = Some (asso c) /\ asso (toASCIILower c) = asso c /\ 0 <= asso c <= 511.
Proof.
  intros Hc. pose proof (all_bytes (fun c => bool_decide (gperf_downcase.[c] = Some (toASCIILower c)) &&
    (0 <=? toASCIILower c) && (toASCIILower c <? 256) && (negb (toASCIILower c =? 0) || (c =? 0)) &&
    bool_decide (asso_values.[c] = Some (asso c)) && (asso (toASCIILower c) =? asso c) && (0 <=? asso c) && (asso c <=? 511))) as G.
  specialize (G ltac:(by vm_compute) c Hc). cbn beta in G. repeat (apply andb_true_iff in G as [G ?]). zb.
  repeat match goal with H : bool_decide _ = true |- _ => apply bool_decide_eq_true in H end.
  split_and!; try done; unfold in_range; lia.
Qed.

(** The hash depends on the letters only, not on their case. *)
Definition hash_of (l : list Z) : Z := foldr (fun c n => asso c + n) 0 l.

Lemma hash_of_app l l' : hash_of (l ++ l') = hash_of l + hash_of l'.
Proof. induction l as [|c l IH]; cbn; [done|]. fold (hash_of (l ++ l')) (hash_of l). lia. Qed.

Lemma hash_of_lower l : Forall byte l -> hash_of (lower l) = hash_of l.
Proof.
  induction 1 as [|c l Hc _ IH]; [done|]. cbn. fold (hash_of (lower l)) (hash_of l). rewrite IH.
  by destruct (byte_tables c Hc) as (_ & _ & _ & _ & -> & _).
Qed.

Lemma hash_of_bound l : Forall byte l -> 0 <= hash_of l <= 511 * zlen l.
Proof.
  induction 1 as [|c l Hc _ IH]; [done|]. cbn. fold (hash_of l). rewrite zlen_cons.
  destruct (byte_tables c Hc) as (_ & _ & _ & _ & _ & ?). lia.
Qed.

Lemma hash_from_spec str i h : Forall byte str -> (i <= length str)%nat -> 0 <= h -> h + hash_of (take i str) < 2 ^ 32 ->
  hash_from str i h = Ok (h + hash_of (take i str)).
Proof.
  intros Hs. revert h. induction i as [|i IH]; intros h Hi Hh Hb.
  { change (hash_of (take 0 str)) with 0. cbn. f_equal. lia. }
  destruct (lookup_lt_is_Some_2 str i) as [c Hc]; [lia|]. cbn [hash_from]. rewrite Hc. cbn [or_ub mbind res_bind].
  rewrite (take_S_r _ _ c), hash_of_app in Hb |- * by done.
  change (hash_of [c]) with (asso c + 0) in *.
  pose proof (Forall_lookup_1 _ _ _ _ Hs Hc) as Hbc. destruct (byte_tables c Hbc) as (_ & _ & _ & -> & _ & ?).
  pose proof (hash_of_bound (take i str) (Forall_take _ _ _ Hs)). cbn [or_ub mbind res_bind].
  rewrite wrap_small by lia. rewrite IH by lia. f_equal. lia.
Qed.

(** The comparison of a name without a terminator and a word. *)
Lemma strncmp_spec s w : Forall byte s -> Forall byte w -> Forall (fun c => c <> 0) s ->
  exists d, gperf_case_strncmp s (w ++ [0]) (length s) = Ok d /\ (d = 0 <-> exists rest, lower w = lower s ++ rest).
Proof.
  intros Hs. revert w. induction Hs as [|a s Ha Hs IH]; intros w Hw Hn; [exists 0; split; [done|]; split; [intros _; by exists (lower w) | done]|].
  apply Forall_cons in Hn as [Hna Hn]. destruct (byte_tables a Ha) as (Ea & Hba & Hz & _).
  destruct w as [|b w].
  - exists (toASCIILower a - 0). cbn [app length gperf_case_strncmp head or_ub mbind res_bind]. rewrite Ea. cbn [or_ub mbind res_bind].
    change (gperf_downcase.[0]) with (Some 0). cbn [or_ub mbind res_bind].
    destruct (Z.eqb_spec (toASCIILower a) 0) as [E|E]; [exfalso; auto|]. cbn [negb andb]. split; [done|]. split; [lia | intros [rest Er]; discriminate Er].
  - apply Forall_cons in Hw as [Hb Hw]. destruct (byte_tables b Hb) as (Eb & _). destruct (IH w Hw Hn) as (d & Ed & Hd).
    cbn [app length gperf_case_strncmp head or_ub mbind res_bind tail]. rewrite Ea, Eb. cbn [or_ub mbind res_bind].
    destruct (Z.eqb_spec (toASCIILower a) 0) as [E|E]; [exfalso; auto|]. cbn [negb andb].
    destruct (Z.eqb_spec (toASCIILower a) (toASCIILower b)) as [E'|E'].
    + exists d. split; [done|]. rewrite Hd, !fmap_cons, E'. split; intros [rest Er]; exists rest; [cbn; by rewrite Er | by injection Er].
    + eexists. split; [done|]. rewrite !fmap_cons. split; [lia|]. intros [rest Er]. injection Er as Er _. congruence.
Qed.

#[local] Instance res_eq_dec A `{EqDecision A} : EqDecision (res A).
Proof. solve_decision. Defined.

(** What the tables satisfy. *)
Definition word_ok (e : Z * (list Z * HTTPHeaderName)) : bool :=
  let (i, e) := e in let w := removelast e.1 in
  bool_decide (e.1 = w ++ [0]) && forallb (fun c => (0 <? c) && (c <? 128)) w && (2 <=? zlen w) && (zlen w <=? 35) &&
  (hash_of w <=? 510) && bool_decide (lookup.[hash_of w] = Some i) &&
  bool_decide (httpHeaderNameString e.2 = Ok w).

Definition string_of (h : HTTPHeaderName) : list Z := match httpHeaderNameString h with Ok w => w | _ => [] end.

Lemma word_spec i s h : header_name_wordlist.[i] = Some (s, h) ->
  s = string_of h ++ [0] /\ Forall (fun c => 0 < c < 128) (string_of h) /\ 2 <= zlen (string_of h) <= 35 /\
  hash_of (string_of h) <= 510 /\ lookup.[hash_of (string_of h)] = Some i /\ httpHeaderNameString h = Ok (string_of h).
Proof.
  intros Hi. assert (G : forallb word_ok (zip (seqZ 0 84) header_name_wordlist) = true) by (by vm_compute).
  rewrite forallb_forall in G. specialize (G (i, (s, h))).
  assert (Hin : In (i, (s, h)) (zip (seqZ 0 84) header_name_wordlist)).
  { apply list_elem_of_In. unfold zlookup in Hi. destruct (Z.leb_spec 0 i); [|done]. pose proof (lookup_lt_Some _ _ _ Hi) as Hlt.
    change (length header_name_wordlist) with 84%nat in Hlt. apply list_elem_of_lookup. exists (Z.to_nat i).
    apply lookup_zip_with_Some. exists i, (s, h). split_and!; [done | | done]. apply lookup_seqZ. lia. }
  apply G in Hin. unfold word_ok in Hin. cbn [fst snd] in Hin. repeat (apply andb_true_iff in Hin as [Hin ?]). zb.
  repeat match goal with H : bool_decide _ = true |- _ => apply bool_decide_eq_true in H end.
  unfold string_of. match goal with H : httpHeaderNameString h = _ |- _ => rewrite H end. split_and!; try done.
  apply Forall_forall. intros c Hc. match goal with H : forallb _ _ = true |- _ => rewrite forallb_forall in H;
    specialize (H c); apply list_elem_of_In in Hc; apply H in Hc; zb; lia end.
Qed.

Lemma lookup_range key i : lookup.[key] = Some i -> 0 <= i -> exists s h, header_name_wordlist.[i] = Some (s, h).
Proof.
  intros Hk Hi. assert (G : forallb (fun i => i <? 84) lookup = true) by (by vm_compute). rewrite forallb_forall in G.
  specialize (G i). unfold zlookup in Hk. destruct (0 <=? key); [|done]. apply list_elem_of_lookup_2, list_elem_of_In in Hk. apply G in Hk. zb.
  unfold zlookup. rewrite (proj2 (Z.leb_le _ _)) by lia. destruct (lookup_lt_is_Some_2 header_name_wordlist (Z.to_nat i)) as [[s h] E].
  - change (length header_name_wordlist) with 84%nat. lia.
  - by exists s, h.
Qed.

Lemma name_in_wordlist h : exists i, header_name_wordlist.[i] = Some (string_of h ++ [0], h).
Proof.
  exists (default 0 lookup.[hash_of (string_of h)]).
  assert (G : forallb (fun h => bool_decide (header_name_wordlist.[default 0 lookup.[hash_of (string_of h)]] = Some (string_of h ++ [0], h))) all_names = true) by (by vm_compute).
  rewrite forallb_forall in G. specialize (G h). apply bool_decide_eq_true in G; [done|]. apply list_elem_of_In.
  apply (list_elem_of_lookup_2 _ (Z.to_nat (index_of_name h))). by destruct h.
Qed.

Lemma ascii_bytes l : Forall (fun c => 0 < c < 128) l -> Forall byte l.
Proof. intros Hl. eapply Forall_impl; [done|]. unfold in_range. cbn. lia. Qed.

Lemma head_test a b : byte a -> byte b -> toASCIILower a = toASCIILower b -> Z.land (Z.lxor a b) (Z.lnot 32) = 0.
Proof.
  intros Ha Hb E. pose proof (all_bytes (fun a => forallb (fun b => negb (toASCIILower a =? toASCIILower b) || (Z.land (Z.lxor a b) (Z.lnot 32) =? 0)) (seqZ 0 256))) as G.
  specialize (G ltac:(by vm_compute) a Ha). cbn beta in G. pose proof (all_bytes _ G b Hb) as G2. cbn beta in G2.
  rewrite (proj2 (Z.eqb_eq _ _) E) in G2. cbn in G2. by zb.
Qed.

(** The key of a name without terminators. *)
Lemma hash_function_spec str : Forall byte str -> 2 <= zlen str <= 35 -> header_name_hash_function str (zlen str) = Ok (hash_of str).
Proof.
  intros Hs Hl. pose proof (hash_of_bound str Hs). unfold header_name_hash_function.
  assert ((if (1 <=? zlen str) && (zlen str <=? 34) then zlen str else 35) = zlen str) as -> by (destruct (Z.leb_spec 1 (zlen str)), (Z.leb_spec (zlen str) 34); cbn; lia).
  rewrite to_nat_zlen.
  rewrite hash_from_spec; rewrite ?take_ge by lia; (done || lia).
Qed.

Lemma hash_no_nul str : Forall byte str -> hash_of str <= 510 -> Forall (fun c => c <> 0) str.
Proof.
  induction 1 as [|c str Hc Hs IH]; [done|]. cbn. fold (hash_of str). intros Hh. pose proof (hash_of_bound str Hs).
  destruct (byte_tables c Hc) as (_ & _ & _ & _ & _ & ?). constructor; [|apply IH; pose proof (zlen_nonneg str); lia].
  intros ->. change (asso 0) with 511 in Hh. lia.
Qed.

(** The lookup finds a word, or nothing; what it finds is the name. *)
Lemma find_impl_sound str : Forall byte str -> 2 <= zlen str <= 35 ->
  findHeaderNameImpl str (zlen str) = Ok None \/
  exists i h, findHeaderNameImpl str (zlen str) = Ok (Some i) /\ header_name_wordlist.[i] = Some (string_of h ++ [0], h) /\ lower str = lower (string_of h).
Proof.
  intros Hs Hl. unfold findHeaderNameImpl, MAX_WORD_LENGTH, MIN_WORD_LENGTH, MAX_HASH_VALUE. rewrite !(proj2 (Z.leb_le _ _)) by lia. cbn [andb].
  rewrite hash_function_spec by done. cbn [mbind res_bind]. pose proof (hash_of_bound str Hs).
  destruct (Z.leb_spec (hash_of str) 510) as [Hh|]; [|by left].
  destruct (lookup.[hash_of str]) as [i|] eqn:Ei.
  2: { exfalso. revert Ei. unfold zlookup. rewrite (proj2 (Z.leb_le _ _)) by lia. apply not_eq_None_Some, lookup_lt_is_Some.
       change (length lookup) with 511%nat. lia. }
  cbn [or_ub mbind res_bind]. destruct (Z.leb_spec 0 i); [|by left]. destruct (lookup_range _ _ Ei) as (s & h & Ew); [done|].
  rewrite Ew. cbn [or_ub mbind res_bind]. destruct (word_spec _ _ _ Ew) as (-> & Hw & Hlw & _).
  destruct str as [|a str]; [change (zlen (@nil Z)) with 0 in Hl; lia|]. destruct (string_of h) as [|b w] eqn:Eh; [change (zlen (@nil Z)) with 0 in Hlw; lia|].
  cbn [head app or_ub mbind res_bind]. destruct (_ =? 0); [|by left]. rewrite to_nat_zlen, app_comm_cons.
  destruct (strncmp_spec (a :: str) (b :: w) Hs (ascii_bytes _ Hw) (hash_no_nul _ Hs Hh)) as (d & -> & Hd). cbn [mbind res_bind].
  destruct (Z.eqb_spec d 0) as [Ed|]; [|by left]. apply Hd in Ed as [rest Er]. 
  assert (Hlen : (length (a :: str) <= length (b :: w))%nat) by (rewrite <- (length_fmap toASCIILower (b :: w)), Er, length_app, length_fmap; lia).
  unfold zlookup at 1 2. rewrite (proj2 (Z.leb_le _ _)), to_nat_zlen by (apply zlen_nonneg).
  destruct (decide (length (a :: str) = length (b :: w))) as [El|El].
  - rewrite El, list_lookup_middle by done. cbn [or_ub mbind res_bind]. right. exists i, h. rewrite Eh. split_and!; [done | by rewrite Ew |].
    assert (rest = []) as ->; [|by rewrite Er, app_nil_r].
    apply (f_equal length) in Er. rewrite length_app, !length_fmap in Er. destruct rest; [done | cbn in Er; cbn in El; lia].
  - rewrite lookup_app_l by lia. destruct (lookup_lt_is_Some_2 (b :: w) (length (a :: str))) as [c Hc]; [lia|]. rewrite Hc.
    cbn [or_ub mbind res_bind]. left. rewrite (proj2 (Z.eqb_neq c 0)); [done|]. pose proof (Forall_lookup_1 _ _ _ _ Hw Hc). cbn in *. lia.
Qed.

(** Every name of the table is found, in any case. *)
Lemma find_impl_complete str i h : Forall byte str -> header_name_wordlist.[i] = Some (string_of h ++ [0], h) -> lower str = lower (string_of h) ->
  findHeaderNameImpl str (zlen str) = Ok (Some i).
Proof.
  intros Hs Ew El. destruct (word_spec _ _ _ Ew) as (_ & Hw & Hlw & Hh & Hk & _).
  assert (Hlen : length str = length (string_of h)) by (rewrite <- (length_fmap toASCIILower str), El; apply length_fmap).
  assert (Hz : zlen str = zlen (string_of h)) by (unfold zlen; by rewrite Hlen).
  assert (Ehash : hash_of str = hash_of (string_of h)) by (rewrite <- (hash_of_lower str Hs), El; by apply hash_of_lower, ascii_bytes).
  unfold findHeaderNameImpl, MAX_WORD_LENGTH, MIN_WORD_LENGTH, MAX_HASH_VALUE. rewrite !(proj2 (Z.leb_le _ _)) by lia. cbn [andb].
  rewrite hash_function_spec, Ehash by (done || lia). cbn [mbind res_bind]. rewrite (proj2 (Z.leb_le _ 510)), Hk by lia. cbn [or_ub mbind res_bind].
  assert (Hi : 0 <= i) by (unfold zlookup in Ew; destruct (Z.leb_spec 0 i); done). rewrite (proj2 (Z.leb_le 0 i)) by done.
  rewrite Ew. cbn [or_ub mbind res_bind].
  assert (Hn : Forall (fun c => c <> 0) str) by (apply hash_no_nul; [done | lia]).
  destruct (strncmp_spec str (string_of h) Hs (ascii_bytes _ Hw) Hn) as (d & Ed & Hd).
  assert (d = 0) as -> by (apply Hd; exists []; by rewrite app_nil_r). rewrite to_nat_zlen, Ed.
  assert (Elast : (string_of h ++ [0]).[zlen str] = Some 0) by (rewrite Hz; apply zlookup_app). rewrite Elast.
  destruct str as [|a str]; [change (zlen (@nil Z)) with 0 in Hz; lia|]. destruct (string_of h) as [|b w]; [done|].
  cbn [head app or_ub mbind res_bind]. injection El as Eab _. apply Forall_cons in Hs as [Ha _]. apply ascii_bytes, Forall_cons in Hw as [Hb _].
  by rewrite head_test.
Qed.

Lemma lower_ascii c : toASCIILower c < 128 -> 0 <= c -> c < 128.
Proof.
  unfold toASCIILower, isASCIIUpper. intros Hl Hc. destruct (Z.leb_spec 65 c), (Z.leb_spec c 90); cbn in Hl; try lia.
  all: rewrite Z.lor_0_r in Hl; lia.
Qed.

Lemma isASCII_spec c : 0 <= c -> isASCII c = true <-> c < 128.
Proof.
  intros Hc. unfold isASCII. change (Z.lnot 127) with (Z.lnot (Z.ones 7)). rewrite <- Z.ldiff_land, Z.ldiff_ones_r by lia.
  rewrite Z.eqb_eq, Z.shiftl_eq_0_iff, Z.shiftr_div_pow2 by lia. change (2 ^ 7) with 128. split; intros; zdiv.
Qed.

Lemma string_of_ok h : httpHeaderNameString h = Ok (string_of h).
Proof. destruct (name_in_wordlist h) as [i Ei]. by apply (word_spec _ _ _ Ei). Qed.

Lemma lower_string_ascii h : Forall (fun c => c < 128) (lower (string_of h)).
Proof.
  assert (G : forallb (fun h => forallb (fun c => c <? 128) (lower (string_of h))) all_names = true) by (by vm_compute).
  rewrite forallb_forall in G. specialize (G h). rewrite forallb_forall in G. apply Forall_forall. intros c Hc%list_elem_of_In.
  apply Z.ltb_lt, G; [|done]. apply list_elem_of_In, (list_elem_of_lookup_2 _ (Z.to_nat (index_of_name h))). by destruct h.
Qed.

(** A name that is equal to one of the table but for case is short and ASCII. *)
Lemma name_fits name h : Forall (fun c => 0 <= c) name -> lower name = lower (string_of h) ->
  2 <= zlen name <= 35 /\ Forall (fun c => c < 128) name.
Proof.
  intros Hpos El. destruct (name_in_wordlist h) as [i Ei]. destruct (word_spec _ _ _ Ei) as (_ & _ & Hlw & _). split.
  - rewrite <- (zlen_fmap toASCIILower), El, zlen_fmap. done.
  - rewrite Forall_forall in Hpos |- *. intros c Hc. apply lower_ascii; [|by apply Hpos].
    pose proof (lower_string_ascii h) as Ha. rewrite <- El, Forall_forall in Ha. apply Ha. by apply list_elem_of_fmap_2.
Qed.

Lemma find_name_spec (is8Bit : bool) name : Forall (fun c => 0 <= c) name -> (is8Bit = true -> Forall byte name) ->
  exists o, findHTTPHeaderName is8Bit name = Ok o /\ forall h, o = Some h <-> lower name = lower (string_of h).
Proof.
  intros Hpos Hb. unfold findHTTPHeaderName, maxHTTPHeaderNameLength, minHTTPHeaderNameLength.
  assert (Hnone : (~ (2 <= zlen name <= 35) \/ ~ Forall (fun c => c < 128) name) -> forall h, @None HTTPHeaderName = Some h <-> lower name = lower (string_of h)).
  { intros Hno h. split; [done|]. intros El%name_fits; [tauto | done]. }
  destruct (Z.ltb_spec 35 (zlen name)); [exists None; split; [done | apply Hnone; lia]|].
  destruct (Z.ltb_spec (zlen name) 2); [exists None; split; [done | apply Hnone; lia]|]. cbn [orb].
  destruct (is8Bit || forallb isASCII name) eqn:Ew.
  - assert (Hbytes : Forall byte name).
    { apply orb_true_iff in Ew as [->|Ha]; [auto|]. apply Forall_forall. intros c Hc. rewrite Forall_forall in Hpos. pose proof (Hpos c Hc).
      rewrite forallb_forall in Ha. apply list_elem_of_In in Hc. apply Ha in Hc. apply isASCII_spec in Hc; [unfold in_range|]; lia. }
    destruct (find_impl_sound name Hbytes) as [E | (i & h & E & Ei & El)]; [lia | |]; rewrite E; cbn [mbind res_bind entry_name].
    + exists None. split; [done|]. intros h. split; [done|]. intros El.
      destruct (name_in_wordlist h) as [i Ei]. by rewrite (find_impl_complete name i h Hbytes Ei El) in E.
    + rewrite Ei. cbn [or_ub mbind res_bind]. exists (Some h). split; [done|]. intros h'. split; [by intros [= <-]|].
      intros El'. destruct (name_in_wordlist h') as [i' Ei']. rewrite (find_impl_complete name i' h' Hbytes Ei' El') in E.
      injection E as ->. rewrite Ei in Ei'. by injection Ei' as _ ->.
  - exists None. split; [done|]. apply Hnone. right. intros Ha. apply orb_false_iff in Ew as [_ Ew].
    apply not_true_iff_false in Ew. apply Ew. apply forallb_forall. intros c Hc. apply list_elem_of_In in Hc.
    rewrite Forall_forall in Ha, Hpos. apply isASCII_spec; auto.
Qed.

(** C19: the name lookup of the headers, by a perfect hash, gives the header of a name in any case
    and nothing for every other name, for strings of both widths; it reads neither past the
    name nor past a word of the table. *)
Theorem header_name_lookup_exact (is8Bit : bool) name :
  Forall (fun c => 0 <= c) name -> (is8Bit = true -> Forall byte name) ->
  exists o, findHTTPHeaderName is8Bit name = Ok o /\
    forall h, exists s, httpHeaderNameString h = Ok s /\ (o = Some h <-> lower name = lower s).
Proof.
  intros Hpos Hb. destruct (find_name_spec is8Bit name Hpos Hb) as (o & E & Ho). exists o. split; [done|].
  intros h. exists (string_of h). split; [apply string_of_ok | apply Ho].
Qed.

Lemma header_name_lookup_witness :
  exists o, findHTTPHeaderName true (lit "uSeR-aGeNt") = Ok o /\ o = Some H_UserAgent.
Proof.
  destruct (header_name_lookup_exact true (lit "uSeR-aGeNt")) as (o & E & Ho).
  - match goal with |- ?P => apply (bool_decide_unpack P) end. by vm_compute.
  - intros _. match goal with |- ?P => apply (bool_decide_unpack P) end. by vm_compute.
  - exists o. split; [done|]. destruct (Ho H_UserAgent) as (s & Es & H). apply H. injection Es as <-. by vm_compute.
Defined.

End Names.
