(* ===== verification/HttpHeaders.v ===== *)
(** * HTTP header fields and header maps
      (PurCFetcher/network/HTTPHeaderField.cpp, HTTPHeaderMap.cpp, HTTPHeaderMap.h)

    A header map keeps the headers whose name is one of the table apart from the others,
    each in a vector in the order they came; the vectors are lists of their elements.  The
    comparison of names ignores the case of ASCII letters.  [makeString] ends the process
    when its result would be longer than a string can be.

    The iterators and the copies between threads do not change the map; encoding is left to
    the coders of vectors. *)

From Stdlib Require Ascii String.
Import String.StringSyntax.
From stdpp Require Import gmap fin_maps.
From S2P Require Import Prelude WtfString HttpNames.

Local Open Scope cf.

Module Headers.
Import Str Names.

(** ** Characters (RFC 7230) *)

Definition isTokenCharacter (c : Z) : bool :=
  isASCIIAlpha c || isASCIIDigit c || (c =? 33) || (c =? 35) || (c =? 36) || (c =? 37) || (c =? 38) || (c =? 39) ||
  (c =? 42) || (c =? 43) || (c =? 45) || (c =? 46) || (c =? 94) || (c =? 95) || (c =? 96) || (c =? 124) || (c =? 126).

Definition isDelimiter (c : Z) : bool :=
  (c =? 40) || (c =? 41) || (c =? 44) || (c =? 47) || (c =? 58) || (c =? 59) || (c =? 60) || (c =? 61) || (c =? 62) ||
  (c =? 63) || (c =? 64) || (c =? 91) || (c =? 92) || (c =? 93) || (c =? 123) || (c =? 125) || (c =? 34).

Definition isVisibleCharacter (c : Z) : bool := isTokenCharacter c || isDelimiter c.
Definition isWhitespace (c : Z) : bool := (c =? 32) || (c =? 9).
Definition isInRange (min max c : Z) : bool := (min <=? c) && (c <=? max).
Definition isOBSText (c : Z) : bool := isInRange 0x80 0xFF c.

Definition isQuotedTextCharacter (c : Z) : bool :=
  isWhitespace c || (c =? 0x21) || isInRange 0x23 0x5B c || isInRange 0x5D 0x7E c || isOBSText c.

Definition isQuotedPairSecondOctet (c : Z) : bool := isWhitespace c || isVisibleCharacter c || isOBSText c.

Definition isCommentText (c : Z) : bool :=
  isWhitespace c || isInRange 0x21 0x27 c || isInRange 0x2A 0x5B c || isInRange 0x5D 0x7E c || isOBSText c.

(** ** Header fields *)

Definition isValidName (name : StringImpl) : bool := negb (zlen name =? 0) && forallb isTokenCharacter name.

Inductive State := OptionalWhitespace | Token | QuotedString | Comment.

(** The loop of [isValidValue] over the characters that are left; [commentDepth] is a [size_t]. *)
Fixpoint valid_value_loop (value : StringImpl) (state : State) (commentDepth : Z) (hadNonWhitespace : bool) : bool :=
  match value with
  | [] => match state with OptionalWhitespace | Token => hadNonWhitespace | _ => false end
  | c :: value =>
      match state with
      | OptionalWhitespace =>
          if isWhitespace c then valid_value_loop value state commentDepth hadNonWhitespace
          else if isTokenCharacter c then valid_value_loop value Token commentDepth true
          else if c =? 34 then valid_value_loop value QuotedString commentDepth true
          else if c =? 40 then valid_value_loop value Comment (u64 (commentDepth + 1)) true
          else false
      | Token =>
          if isTokenCharacter c then valid_value_loop value Token commentDepth hadNonWhitespace
          else valid_value_loop value OptionalWhitespace commentDepth hadNonWhitespace
      | QuotedString =>
          if c =? 34 then valid_value_loop value OptionalWhitespace commentDepth hadNonWhitespace
          else if c =? 92 then
            match value with
            | [] => false
            | c :: value => if isQuotedPairSecondOctet c then valid_value_loop value QuotedString commentDepth hadNonWhitespace else false
            end
          else if isQuotedTextCharacter c then valid_value_loop value QuotedString commentDepth hadNonWhitespace
          else false
      | Comment =>
          if c =? 40 then valid_value_loop value Comment (u64 (commentDepth + 1)) hadNonWhitespace
          else if c =? 41 then
            let commentDepth := u64 (commentDepth - 1) in
            valid_value_loop value (if commentDepth =? 0 then OptionalWhitespace else Comment) commentDepth hadNonWhitespace
          else if c =? 92 then
            match value with
            | [] => false
            | c :: value => if isQuotedPairSecondOctet c then valid_value_loop value Comment commentDepth hadNonWhitespace else false
            end
          else if isCommentText c then valid_value_loop value Comment commentDepth hadNonWhitespace
          else false
      end
  end.

Definition isValidValue (value : StringImpl) : bool := valid_value_loop value OptionalWhitespace 0 false.

Record HTTPHeaderField := { m_name : String; m_value : String }.

(** A stripped view of the same length as the string leaves the string, null or not. *)
Definition HTTPHeaderField_create (unparsedName unparsedValue : String) : res (option HTTPHeaderField) :=
  strippedName ← stripMatchedCharacters isWhitespace (chars unparsedName);
  strippedValue ← stripMatchedCharacters isWhitespace (chars unparsedValue);
  if negb (isValidName strippedName) || negb (isValidValue strippedValue) then Ok None
  else
    let name := if zlen strippedName =? length_ unparsedName then unparsedName else Some strippedName in
    let value := if zlen strippedValue =? length_ unparsedValue then unparsedValue else Some strippedValue in
    Ok (Some {| m_name := name; m_value := value |}).

(** ** Header maps *)

Record HTTPHeaderMap := {
  m_commonHeaders : list (HTTPHeaderName * String);
  m_uncommonHeaders : list (String * String) }.

Definition HTTPHeaderMap_new : HTTPHeaderMap := {| m_commonHeaders := []; m_uncommonHeaders := [] |}.

Definition set_common (m : HTTPHeaderMap) l : HTTPHeaderMap := {| m_commonHeaders := l; m_uncommonHeaders := m_uncommonHeaders m |}.
Definition set_uncommon (m : HTTPHeaderMap) l : HTTPHeaderMap := {| m_commonHeaders := m_commonHeaders m; m_uncommonHeaders := l |}.

(** [Vector::findMatching], from an index on. *)
Fixpoint findMatching {A} (matches : A -> res bool) (l : list A) (i : Z) : res Z :=
  match l with
  | [] => Ok notFound
  | x :: l => b ← matches x; if (b : bool) then Ok i else findMatching matches l (i + 1)
  end.

(** [Vector::removeFirstMatching] *)
Fixpoint removeFirstMatching {A} (matches : A -> res bool) (l : list A) : res (list A * bool) :=
  match l with
  | [] => Ok ([], false)
  | x :: l =>
      b ← matches x;
      if (b : bool) then Ok (l, true) else '(l, removed) ← removeFirstMatching matches l; Ok (x :: l, removed)
  end.

(** [vector[index].value] and [vector[index].value = value] *)
Definition value_at {K} (l : list (K * String)) (index : Z) : res String :=
  match l.[index] with None => Crash | Some (_, v) => Ok v end.
Definition store_value {K} (l : list (K * String)) (index : Z) (value : String) : res (list (K * String)) :=
  match l.[index] with None => Crash | Some (k, _) => Ok (<[Z.to_nat index := (k, value)]> l) end.

(** [makeString(old, ", ", value)] *)
Definition makeString (old value : String) : res String :=
  let s := chars old ++ lit ", " ++ chars value in if zlen s <=? MaxLength then Ok (Some s) else Crash.

(** [equalIgnoringASCIICase] of two strings: null is equal to null only. *)
Definition equal_names (a b : String) : res bool :=
  match a, b with None, None => Ok true | Some a, Some b => equalIgnoringASCIICase a b | _, _ => Ok false end.

(** The header of a name; the width of the string does not matter. *)
Definition find_name (name : String) : res (option HTTPHeaderName) := findHTTPHeaderName (forallb isLatin1 (chars name)) (chars name).

Definition same_header (name : HTTPHeaderName) (header : HTTPHeaderName * String) : res bool := Ok (bool_decide (header.1 = name)).
Definition same_name (name : String) (header : String * String) : res bool := equal_names header.1 name.

Section vectors.
Context {K : Type} (matches : K * String -> res bool).

Definition vec_get (l : list (K * String)) : res String :=
  index ← findMatching matches l 0; if index =? notFound then Ok None else value_at l index.

Definition vec_set (l : list (K * String)) (key : K) (value : String) : res (list (K * String)) :=
  index ← findMatching matches l 0; if index =? notFound then Ok (l ++ [(key, value)]) else store_value l index value.

Definition vec_add (l : list (K * String)) (key : K) (value : String) : res (list (K * String)) :=
  index ← findMatching matches l 0;
  if index =? notFound then Ok (l ++ [(key, value)])
  else old ← value_at l index; value ← makeString old value; store_value l index value.

Definition vec_contains (l : list (K * String)) : res bool := index ← findMatching matches l 0; Ok (negb (index =? notFound)).

End vectors.

(** By header. *)
Definition get_common (m : HTTPHeaderMap) (name : HTTPHeaderName) : res String := vec_get (same_header name) (m_commonHeaders m).
Definition contains_common (m : HTTPHeaderMap) (name : HTTPHeaderName) : res bool := vec_contains (same_header name) (m_commonHeaders m).

Definition set_header (m : HTTPHeaderMap) (name : HTTPHeaderName) (value : String) : res HTTPHeaderMap :=
  l ← vec_set (same_header name) (m_commonHeaders m) name value; Ok (set_common m l).

Definition add_header (m : HTTPHeaderMap) (name : HTTPHeaderName) (value : String) : res HTTPHeaderMap :=
  l ← vec_add (same_header name) (m_commonHeaders m) name value; Ok (set_common m l).

Definition remove_header (m : HTTPHeaderMap) (name : HTTPHeaderName) : res (HTTPHeaderMap * bool) :=
  '(l, removed) ← removeFirstMatching (same_header name) (m_commonHeaders m); Ok (set_common m l, removed).

Definition addIfNotPresent (m : HTTPHeaderMap) (name : HTTPHeaderName) (value : String) : res (HTTPHeaderMap * bool) :=
  present ← contains_common m name;
  if (present : bool) then Ok (m, false) else Ok (set_common m (m_commonHeaders m ++ [(name, value)]), true).

(** By name. *)
Definition getUncommonHeader (m : HTTPHeaderMap) (name : String) : res String := vec_get (same_name name) (m_uncommonHeaders m).

Definition setUncommonHeader (m : HTTPHeaderMap) (name value : String) : res HTTPHeaderMap :=
  l ← vec_set (same_name name) (m_uncommonHeaders m) name value; Ok (set_uncommon m l).

Definition get (m : HTTPHeaderMap) (name : String) : res String :=
  h ← find_name name; match h with Some h => get_common m h | None => getUncommonHeader m name end.

Definition set (m : HTTPHeaderMap) (name value : String) : res HTTPHeaderMap :=
  h ← find_name name; match h with Some h => set_header m h value | None => setUncommonHeader m name value end.

Definition add (m : HTTPHeaderMap) (name value : String) : res HTTPHeaderMap :=
  h ← find_name name;
  match h with
  | Some h => add_header m h value
  | None => l ← vec_add (same_name name) (m_uncommonHeaders m) name value; Ok (set_uncommon m l)
  end.

(** The assertion that the map has no such header is not part of a release build. *)
Definition append (m : HTTPHeaderMap) (name value : String) : res HTTPHeaderMap :=
  h ← find_name name;
  match h with
  | Some h => Ok (set_common m (m_commonHeaders m ++ [(h, value)]))
  | None => Ok (set_uncommon m (m_uncommonHeaders m ++ [(name, value)]))
  end.

Definition contains (m : HTTPHeaderMap) (name : String) : res bool :=
  h ← find_name name; match h with Some h => contains_common m h | None => vec_contains (same_name name) (m_uncommonHeaders m) end.

Definition remove (m : HTTPHeaderMap) (name : String) : res (HTTPHeaderMap * bool) :=
  h ← find_name name;
  match h with
  | Some h => remove_header m h
  | None => '(l, removed) ← removeFirstMatching (same_name name) (m_uncommonHeaders m); Ok (set_uncommon m l, removed)
  end.

Definition map_size (m : HTTPHeaderMap) : Z := i32 (zlen (m_commonHeaders m) + zlen (m_uncommonHeaders m)).
Definition map_isEmpty (m : HTTPHeaderMap) : bool := (zlen (m_commonHeaders m) =? 0) && (zlen (m_uncommonHeaders m) =? 0).
Definition map_clear (m : HTTPHeaderMap) : HTTPHeaderMap := HTTPHeaderMap_new.

(** The loops of [operator==]. *)
Fixpoint all_found {K} (find : K -> res String) (l : list (K * String)) : res bool :=
  match l with
  | [] => Ok true
  | (key, value) :: l => v ← find key; if negb (bool_decide (v = value)) then Ok false else all_found find l
  end.

Definition map_equal (a b : HTTPHeaderMap) : res bool :=
  if negb (zlen (m_commonHeaders a) =? zlen (m_commonHeaders b)) || negb (zlen (m_uncommonHeaders a) =? zlen (m_uncommonHeaders b)) then Ok false
  else
    common ← all_found (get_common b) (m_commonHeaders a);
    if (common : bool) then all_found (getUncommonHeader b) (m_uncommonHeaders a) else Ok false.

End Headers.
