(* ===== verification/HttpHeaderProps.v ===== *)
(** * Correctness of header fields and header maps
      (PurCFetcher/network/HTTPHeaderField.cpp, HTTPHeaderMap.cpp)

    - a header map is a finite map from names without regard to case to values, whichever
      vector a name belongs to;
    - two maps are equal when they hold the same headers, unless a value is null;
    - a header field accepts any character after a token. *)

From Stdlib Require Ascii String.
Import String.StringSyntax.
From stdpp Require Import gmap fin_maps.
From S2P Require Import Prelude WtfString HttpNames HttpHeaders.

Local Open Scope cf.

Module HeaderProps.
Import Str Names Headers.

(** ** One vector *)

Section vector.
Context {K : Type} (keyof : K -> String) (matches : K * String -> res bool) (k : String).
Context (matches_spec : forall x, matches x = Ok (bool_decide (keyof x.1 = k))).
Implicit Types (l : list (K * String)) (g : gmap String String).

(** The vector holds the map [g]. *)
Definition holds l g : Prop := ((fun x => (keyof x.1, x.2)) <$> l) ≡ₚ map_to_list g.

Lemma header_findMatching_spec l i : 
  (exists pre x post, l = pre ++ x :: post /\ keyof x.1 = k /\ Forall (fun y => keyof y.1 <> k) pre /\ findMatching matches l i = Ok (i + zlen pre)) \/
  (Forall (fun y => keyof y.1 <> k) l /\ findMatching matches l i = Ok notFound).
Proof.
  revert i. induction l as [|x l IH]; intros i; [by right|]. cbn [findMatching]. rewrite matches_spec. cbn [mbind res_bind].
  destruct (bool_decide_reflect (keyof x.1 = k)) as [E|E].
  - left. exists [], x, l. split_and!; try done. by rewrite zlen_nil, Z.add_0_r.
  - destruct (IH (i + 1)) as [(pre & y & post & -> & Ey & Hpre & ->) | [Hl ->]].
    + left. exists (x :: pre), y, post. split_and!; [done | done | by constructor | rewrite zlen_cons; f_equal; lia].
    + right. split; [by constructor | done].
Qed.

Lemma holds_absent l g : holds l g -> Forall (fun y => keyof y.1 <> k) l -> g !! k = None.
Proof.
  intros Hh Hl. apply eq_None_not_Some. intros [v Hv]. apply elem_of_map_to_list in Hv. rewrite <- Hh in Hv.
  apply list_elem_of_fmap in Hv as (x & [= Ek _] & Hx). rewrite Forall_forall in Hl. by apply (Hl x Hx).
Qed.

Lemma holds_present pre x post g : holds (pre ++ x :: post) g -> keyof x.1 = k ->
  g !! k = Some x.2 /\ holds (pre ++ post) (delete k g).
Proof.
  intros Hh Ek. assert (Hk : g !! k = Some x.2).
  { apply elem_of_map_to_list. rewrite <- Hh, fmap_app, fmap_cons, Ek. set_solver. }
  split; [done|]. unfold holds in *. rewrite fmap_app, fmap_cons, Ek, <- Permutation_middle in Hh.
  rewrite <- (map_to_list_delete g k x.2) in Hh by done. apply Permutation_cons_inv in Hh. by rewrite fmap_app.
Qed.

Lemma holds_insert pre post g x : holds (pre ++ post) g -> g !! keyof x.1 = None -> holds (pre ++ x :: post) (<[keyof x.1 := x.2]> g).
Proof.
  unfold holds. intros Hh Hn. rewrite map_to_list_insert, <- Hh by done. rewrite !fmap_app, fmap_cons. symmetry. apply Permutation_middle.
Qed.

(** The element that was found is replaced. *)
Lemma store_at (pre post : list (K * String)) x v g : holds (pre ++ x :: post) g -> keyof x.1 = k ->
  value_at (pre ++ x :: post) (zlen pre) = Ok x.2 /\
  exists l', store_value (pre ++ x :: post) (zlen pre) v = Ok l' /\ holds l' (<[k := v]> g) /\ length l' = length (pre ++ x :: post).
Proof.
  intros Hh Ek. unfold value_at, store_value. rewrite zlookup_app. destruct x as [key old]. split; [done|]. eexists. split; [done|].
  rewrite to_nat_zlen, insert_app_r_alt, Nat.sub_diag by lia. cbn. split; [|by rewrite !length_app].
  destruct (holds_present _ _ _ _ Hh Ek) as [_ Hd]. rewrite <- insert_delete_eq. cbn in Ek. rewrite <- Ek.
  apply (holds_insert pre post (delete (keyof key) g) (key, v)); [by rewrite Ek | apply lookup_delete_eq].
Qed.

Lemma append_at l g key v : holds l g -> Forall (fun y => keyof y.1 <> k) l -> keyof key = k -> holds (l ++ [(key, v)]) (<[k := v]> g).
Proof.
  intros Hh Hl Ek. rewrite <- Ek. apply (holds_insert l [] g (key, v)); [by rewrite app_nil_r|]. cbn. rewrite Ek. by apply holds_absent with l.
Qed.

Context (l : list (K * String)) (g : gmap String String) (Hh : holds l g) (Hsize : zlen l < notFound).

Lemma index_found (pre : list (K * String)) x post : l = pre ++ x :: post -> (0 + zlen pre =? notFound) = false.
Proof. intros E. apply Z.eqb_neq. rewrite E, zlen_app, zlen_cons in Hsize. pose proof (zlen_nonneg post). lia. Qed.

Lemma vec_get_spec : vec_get matches l = Ok (default None (g !! k)).
Proof.
  unfold vec_get. destruct (header_findMatching_spec l 0) as [(pre & x & post & El & Ek & _ & ->) | [Hl ->]]; cbn [mbind res_bind].
  - rewrite (index_found _ _ _ El), Z.add_0_l, El. rewrite El in Hh. destruct (store_at pre post x None g Hh Ek) as [-> _].
    by rewrite (proj1 (holds_present _ _ _ _ Hh Ek)).
  - rewrite Z.eqb_refl. by rewrite (holds_absent l g Hh Hl).
Qed.

Lemma vec_contains_spec : vec_contains matches l = Ok (bool_decide (is_Some (g !! k))).
Proof.
  unfold vec_contains. destruct (header_findMatching_spec l 0) as [(pre & x & post & El & Ek & _ & ->) | [Hl ->]]; cbn [mbind res_bind].
  - rewrite (index_found _ _ _ El). rewrite El in Hh. rewrite (proj1 (holds_present _ _ _ _ Hh Ek)). by rewrite bool_decide_eq_true_2 by eauto.
  - rewrite Z.eqb_refl, (holds_absent l g Hh Hl). done.
Qed.

Lemma vec_set_spec key v : keyof key = k ->
  exists l', vec_set matches l key v = Ok l' /\ holds l' (<[k := v]> g) /\ zlen l' <= zlen l + 1.
Proof.
  intros Hkey. unfold vec_set. destruct (header_findMatching_spec l 0) as [(pre & x & post & El & Ek & _ & ->) | [Hl ->]]; cbn [mbind res_bind].
  - rewrite (index_found _ _ _ El), Z.add_0_l, El. rewrite El in Hh. destruct (store_at pre post x v g Hh Ek) as (_ & l' & -> & Hl' & Hlen).
    exists l'. split_and!; [done.. |]. unfold zlen. rewrite Hlen. lia.
  - rewrite Z.eqb_refl. eexists. split_and!; [done | by apply append_at | autorewrite with zlen; lia].
Qed.

Lemma vec_add_spec key v : keyof key = k ->
  match g !! k with
  | None => exists l', vec_add matches l key v = Ok l' /\ holds l' (<[k := v]> g) /\ zlen l' <= zlen l + 1
  | Some old =>
      match makeString old v with
      | Ok w => exists l', vec_add matches l key v = Ok l' /\ holds l' (<[k := w]> g) /\ zlen l' <= zlen l + 1
      | _ => vec_add matches l key v = Crash
      end
  end.
Proof.
  intros Hkey. unfold vec_add. destruct (header_findMatching_spec l 0) as [(pre & x & post & El & Ek & _ & ->) | [Hl ->]]; cbn [mbind res_bind].
  - rewrite (index_found _ _ _ El), Z.add_0_l, El. rewrite El in Hh. rewrite (proj1 (holds_present _ _ _ _ Hh Ek)).
    destruct (makeString x.2 v) as [w| | |] eqn:Ew; [| | unfold makeString in Ew; by destruct (_ <=? _) in Ew..].
    + destruct (store_at pre post x w g Hh Ek) as (-> & l' & E' & Hl' & Hlen). cbn [mbind res_bind]. rewrite Ew. cbn [mbind res_bind].
      exists l'. split_and!; [done.. |]. unfold zlen. rewrite Hlen. lia.
    + destruct (store_at pre post x v g Hh Ek) as (-> & _). cbn [mbind res_bind]. by rewrite Ew.
  - rewrite (holds_absent l g Hh Hl), Z.eqb_refl. eexists. split_and!; [done | by apply append_at | autorewrite with zlen; lia].
Qed.

Lemma header_removeFirst_spec (l0 : list (K * String)) :
  (exists pre x post, l0 = pre ++ x :: post /\ keyof x.1 = k /\ removeFirstMatching matches l0 = Ok (pre ++ post, true)) \/
  (Forall (fun y => keyof y.1 <> k) l0 /\ removeFirstMatching matches l0 = Ok (l0, false)).
Proof.
  induction l0 as [|x l0 IH]; [by right|]. cbn [removeFirstMatching]. rewrite matches_spec. cbn [mbind res_bind].
  destruct (bool_decide_reflect (keyof x.1 = k)) as [E|E]; [left; by exists [], x, l0|].
  destruct IH as [(pre & y & post & -> & Ey & ->) | [Hl ->]]; cbn [mbind res_bind].
  - left. by exists (x :: pre), y, post.
  - right. split; [by constructor | done].
Qed.

Lemma vec_remove_spec : exists l', removeFirstMatching matches l = Ok (l', bool_decide (is_Some (g !! k))) /\ holds l' (delete k g) /\ zlen l' <= zlen l.
Proof.
  destruct (header_removeFirst_spec l) as [(pre & x & post & El & Ek & ->) | [Hl ->]].
  - rewrite El in Hh |- *. destruct (holds_present _ _ _ _ Hh Ek) as [-> Hd]. exists (pre ++ post). rewrite bool_decide_eq_true_2 by eauto.
    split_and!; [done.. | autorewrite with zlen; lia].
  - exists l. pose proof (holds_absent l g Hh Hl) as Ha. rewrite (delete_id g) by done. rewrite Ha. split_and!; [done.. | lia].
Qed.

End vector.
(** ** The whole map *)

Definition name_key (name : String) : String := match name with None => None | Some l => Some (lower l) end.
Definition header_key (h : HTTPHeaderName) : String := Some (lower (string_of h)).

Definition valid_name (name : String) : Prop := Forall (in_range 16) (chars name).

Lemma find_header_spec name : valid_name name ->
  exists o, find_name name = Ok o /\ forall h, o = Some h <-> name_key name = header_key h.
Proof.
  intros Hv. unfold find_name. destruct (find_name_spec (forallb isLatin1 (chars name)) (chars name)) as (o & E & Ho).
  - eapply Forall_impl; [done|]. unfold in_range. cbn. lia.
  - intros Hl. rewrite forallb_forall in Hl. unfold valid_name in Hv. rewrite Forall_forall in Hv |- *. intros c Hc. pose proof (Hv c Hc) as Hr.
    apply list_elem_of_In in Hc. apply Hl in Hc. unfold isLatin1 in Hc. unfold in_range in *. zb. lia.
  - exists o. split; [done|]. intros h. rewrite Ho. unfold name_key, header_key. destruct name as [l|]; cbn; [naive_solver congruence|].
    split; [|done]. intros El. exfalso. destruct (name_in_wordlist h) as [i Ei]. destruct (word_spec _ _ _ Ei) as (_ & _ & Hl & _).
    apply (f_equal length) in El. rewrite length_fmap in El. unfold zlen in Hl. cbn in El. lia.
Qed.

Lemma header_key_inj h h' : header_key h = header_key h' -> h = h'.
Proof.
  intros E. destruct (find_header_spec (Some (string_of h))) as (o & _ & Ho).
  { destruct (name_in_wordlist h) as [i Ei]. destruct (word_spec _ _ _ Ei) as (_ & Hw & _). eapply Forall_impl; [exact Hw|]. unfold in_range. cbn. lia. }
  assert (E1 : o = Some h) by by apply Ho. assert (E2 : o = Some h') by by apply Ho. congruence.
Qed.

Lemma same_header_spec h x : same_header h x = Ok (bool_decide (header_key x.1 = header_key h)).
Proof. unfold same_header. f_equal. apply bool_decide_ext. split; [by intros -> | apply header_key_inj]. Qed.

Lemma same_name_spec name x : same_name name x = Ok (bool_decide (name_key x.1 = name_key name)).
Proof.
  unfold same_name, equal_names, name_key. destruct x.1 as [a|], name as [b|]; try done. rewrite equalIgnoringASCIICase_spec.
  f_equal. apply bool_decide_ext. cbn. naive_solver congruence.
Qed.

(** The two vectors hold two parts of the map, told apart by the names. *)
Record parts (m : HTTPHeaderMap) (gc gu : gmap String String) : Prop := {
  common_part : holds header_key (m_commonHeaders m) gc;
  uncommon_part : holds name_key (m_uncommonHeaders m) gu;
  common_names : forall k, is_Some (gc !! k) -> exists h, k = header_key h;
  uncommon_names : forall h, gu !! header_key h = None }.

Definition entries (m : HTTPHeaderMap) : Z := zlen (m_commonHeaders m) + zlen (m_uncommonHeaders m).

Definition rep (m : HTTPHeaderMap) (g : gmap String String) : Prop := exists gc gu, g = gc ∪ gu /\ parts m gc gu.

Section operations.
Context (m : HTTPHeaderMap) (gc gu : gmap String String) (P : parts m gc gu) (Hsize : entries m < notFound).

Lemma common_small : zlen (m_commonHeaders m) < notFound.
Proof. pose proof (zlen_nonneg (m_uncommonHeaders m)). unfold entries in Hsize. lia. Qed.

Lemma uncommon_small : zlen (m_uncommonHeaders m) < notFound.
Proof. pose proof (zlen_nonneg (m_commonHeaders m)). unfold entries in Hsize. lia. Qed.

Lemma lookup_common h : (gc ∪ gu) !! header_key h = gc !! header_key h.
Proof. apply lookup_union_l, P. Qed.

Lemma lookup_uncommon k : (forall h, k <> header_key h) -> gc !! k = None /\ (gc ∪ gu) !! k = gu !! k.
Proof.
  intros Hk. assert (E : gc !! k = None) by (apply eq_None_not_Some; intros Hs; destruct (common_names _ _ _ P k Hs) as [h ->]; by apply (Hk h)).
  split; [done|]. by rewrite lookup_union_r.
Qed.

(** Changing one vector at a key that belongs to it. *)
Lemma rep_set_common l' h v : holds header_key l' (<[header_key h := v]> gc) -> rep (set_common m l') (<[header_key h := v]> (gc ∪ gu)).
Proof.
  intros Hl. exists (<[header_key h := v]> gc), gu. split; [apply insert_union_l|]. split; [done | apply P | | apply P].
  intros k Hk. destruct (decide (k = header_key h)) as [->|]; [by exists h|]. rewrite lookup_insert_ne in Hk by done. by apply (common_names _ _ _ P).
Qed.

Lemma rep_set_uncommon l' k v : (forall h, k <> header_key h) -> holds name_key l' (<[k := v]> gu) -> rep (set_uncommon m l') (<[k := v]> (gc ∪ gu)).
Proof.
  intros Hk Hl. destruct (lookup_uncommon k Hk) as [E _]. exists gc, (<[k := v]> gu). split; [by apply insert_union_r|].
  split; [apply P | done | apply P |]. intros h. rewrite lookup_insert_ne by apply Hk. apply P.
Qed.

Lemma rep_delete_common l' h : holds header_key l' (delete (header_key h) gc) -> rep (set_common m l') (delete (header_key h) (gc ∪ gu)).
Proof.
  intros Hl. exists (delete (header_key h) gc), gu. split; [by rewrite delete_union, (delete_id gu) by apply P|]. split; [done | apply P | | apply P].
  intros k Hk. apply (common_names _ _ _ P). rewrite lookup_delete_is_Some in Hk. apply Hk.
Qed.

Lemma rep_delete_uncommon l' k : (forall h, k <> header_key h) -> holds name_key l' (delete k gu) -> rep (set_uncommon m l') (delete k (gc ∪ gu)).
Proof.
  intros Hk Hl. destruct (lookup_uncommon k Hk) as [E _]. exists gc, (delete k gu). split; [by rewrite delete_union, (delete_id gc)|].
  split; [apply P | done | apply P |]. intros h. apply lookup_delete_None. right. apply P.
Qed.

End operations.

(** ** Sequences of operations *)

Inductive HeaderOp :=
| OGet (name : String) | OSet (name value : String) | OAdd (name value : String) | OContains (name : String) | ORemove (name : String)
| OGetHeader (h : HTTPHeaderName) | OSetHeader (h : HTTPHeaderName) (value : String) | OAddHeader (h : HTTPHeaderName) (value : String)
| OAddIfNotPresent (h : HTTPHeaderName) (value : String) | OContainsHeader (h : HTTPHeaderName) | ORemoveHeader (h : HTTPHeaderName)
| OAppend (name value : String) | OSize | OClear.

Inductive Answer := AText (s : String) | AFlag (b : bool) | ACount (n : Z) | ANothing.

Definition header_op (o : HeaderOp) (m : HTTPHeaderMap) : res (Answer * HTTPHeaderMap) :=
  match o with
  | OGet name => v ← get m name; Ok (AText v, m)
  | OSet name value => m ← set m name value; Ok (ANothing, m)
  | OAdd name value => m ← add m name value; Ok (ANothing, m)
  | OContains name => b ← contains m name; Ok (AFlag b, m)
  | ORemove name => '(m, b) ← remove m name; Ok (AFlag b, m)
  | OGetHeader h => v ← get_common m h; Ok (AText v, m)
  | OSetHeader h value => m ← set_header m h value; Ok (ANothing, m)
  | OAddHeader h value => m ← add_header m h value; Ok (ANothing, m)
  | OAddIfNotPresent h value => '(m, b) ← addIfNotPresent m h value; Ok (AFlag b, m)
  | OContainsHeader h => b ← contains_common m h; Ok (AFlag b, m)
  | ORemoveHeader h => '(m, b) ← remove_header m h; Ok (AFlag b, m)
  | OAppend name value => m ← append m name value; Ok (ANothing, m)
  | OSize => Ok (ACount (map_size m), m)
  | OClear => Ok (ANothing, map_clear m)
  end.

(** The same on a finite map from keys to values; joining two values may not fit a string.  Appending is for
    names that are not there, as its assertion says: otherwise it is outside the specification ([UB]). *)
Definition spec_get (k : String) (g : gmap String String) : res (Answer * gmap String String) := Ok (AText (default None (g !! k)), g).
Definition spec_set (k v : String) (g : gmap String String) : res (Answer * gmap String String) := Ok (ANothing, <[k := v]> g).
Definition spec_add (k v : String) (g : gmap String String) : res (Answer * gmap String String) :=
  match g !! k with None => Ok (ANothing, <[k := v]> g) | Some old => w ← makeString old v; Ok (ANothing, <[k := w]> g) end.
Definition spec_contains (k : String) (g : gmap String String) : res (Answer * gmap String String) := Ok (AFlag (bool_decide (is_Some (g !! k))), g).
Definition spec_remove (k : String) (g : gmap String String) : res (Answer * gmap String String) := Ok (AFlag (bool_decide (is_Some (g !! k))), delete k g).

Definition spec_append (k v : String) (g : gmap String String) : res (Answer * gmap String String) :=
  match g !! k with None => Ok (ANothing, <[k := v]> g) | Some _ => UB end.

Definition spec_op (o : HeaderOp) (g : gmap String String) : res (Answer * gmap String String) :=
  match o with
  | OGet name => spec_get (name_key name) g
  | OSet name value => spec_set (name_key name) value g
  | OAdd name value => spec_add (name_key name) value g
  | OContains name => spec_contains (name_key name) g
  | ORemove name => spec_remove (name_key name) g
  | OGetHeader h => spec_get (header_key h) g
  | OSetHeader h value => spec_set (header_key h) value g
  | OAddHeader h value => spec_add (header_key h) value g
  | OAddIfNotPresent h value =>
      match g !! header_key h with None => Ok (AFlag true, <[header_key h := value]> g) | Some _ => Ok (AFlag false, g) end
  | OContainsHeader h => spec_contains (header_key h) g
  | ORemoveHeader h => spec_remove (header_key h) g
  | OAppend name value => spec_append (name_key name) value g
  | OSize => Ok (ACount (Z.of_nat (base.size g)), g)
  | OClear => Ok (ANothing, ∅)
  end.

Definition valid_op (o : HeaderOp) : Prop :=
  match o with OGet name | OSet name _ | OAdd name _ | OContains name | ORemove name | OAppend name _ => valid_name name | _ => True end.

(** The implementation answers as the specification, within it, and ends the process when it does. *)
Definition simulates (m : HTTPHeaderMap) (r : res (Answer * HTTPHeaderMap)) (s : res (Answer * gmap String String)) : Prop :=
  match s with
  | Ok (a, g) => exists m', r = Ok (a, m') /\ rep m' g /\ entries m' <= entries m + 1
  | Crash => r = Crash
  | UB => True
  | NoFuel => False
  end.

Lemma rep_entries m g : rep m g -> entries m = Z.of_nat (base.size g).
Proof.
  intros (gc & gu & -> & P). rewrite map_size_disj_union.
  2: { apply map_disjoint_spec. intros k v1 v2 H1 H2. destruct (common_names _ _ _ P k) as [h ->]; [by exists v1|]. by rewrite (uncommon_names _ _ _ P) in H2. }
  pose proof (common_part _ _ _ P) as Hc. pose proof (uncommon_part _ _ _ P) as Hu. unfold holds in *.
  apply Permutation_length in Hc, Hu. rewrite length_fmap, length_map_to_list in Hc. rewrite length_fmap, length_map_to_list in Hu. unfold entries, zlen. lia.
Qed.

Section steps.
Context (m : HTTPHeaderMap) (g : gmap String String) (R : rep m g) (Hsize : entries m < 2 ^ 31).

Lemma entries_small : entries m < notFound.
Proof. unfold notFound. lia. Qed.

(** By header. *)
Lemma get_common_spec h : get_common m h = Ok (default None (g !! header_key h)).
Proof.
  destruct R as (gc & gu & -> & P). rewrite (lookup_common m gc gu P). unfold get_common.
  apply (vec_get_spec header_key); [apply same_header_spec | apply P | by apply (common_small m), entries_small].
Qed.

Lemma contains_common_spec h : contains_common m h = Ok (bool_decide (is_Some (g !! header_key h))).
Proof.
  destruct R as (gc & gu & -> & P). rewrite (lookup_common m gc gu P). unfold contains_common.
  apply (vec_contains_spec header_key); [apply same_header_spec | apply P | by apply (common_small m), entries_small].
Qed.

Lemma set_header_spec h v : simulates m (m ← set_header m h v; Ok (ANothing, m)) (spec_set (header_key h) v g).
Proof.
  destruct R as (gc & gu & -> & P). unfold set_header, spec_set, simulates.
  destruct (vec_set_spec header_key (same_header h) (header_key h) (same_header_spec h) _ gc (common_part _ _ _ P) (common_small m entries_small) h v eq_refl)
    as (l' & -> & Hl & Hlen). cbn [mbind res_bind]. eexists. split_and!; [done | by apply (rep_set_common m gc gu P) | unfold entries; cbn; lia].
Qed.

Lemma add_header_spec h v : simulates m (m ← add_header m h v; Ok (ANothing, m)) (spec_add (header_key h) v g).
Proof.
  destruct R as (gc & gu & -> & P). unfold add_header, spec_add. rewrite (lookup_common m gc gu P).
  pose proof (vec_add_spec header_key (same_header h) (header_key h) (same_header_spec h) _ gc (common_part _ _ _ P) (common_small m entries_small) h v eq_refl) as E.
  destruct (gc !! header_key h) as [old|].
  - destruct (makeString old v) as [w| | |] eqn:Ew; [| | unfold makeString in Ew; by destruct (_ <=? _) in Ew..]; cbn [mbind res_bind simulates]; [|by rewrite E].
    destruct E as (l' & -> & Hl & Hlen). cbn [mbind res_bind]. eexists. split_and!; [done | by apply (rep_set_common m gc gu P) | unfold entries; cbn; lia].
  - destruct E as (l' & -> & Hl & Hlen). cbn [mbind res_bind simulates]. eexists. split_and!; [done | by apply (rep_set_common m gc gu P) | unfold entries; cbn; lia].
Qed.

Lemma remove_header_spec h : simulates m ('(m, b) ← remove_header m h; Ok (AFlag b, m)) (spec_remove (header_key h) g).
Proof.
  destruct R as (gc & gu & -> & P). unfold remove_header, spec_remove. rewrite (lookup_common m gc gu P).
  destruct (vec_remove_spec header_key (same_header h) (header_key h) (same_header_spec h) _ gc (common_part _ _ _ P)) as (l' & -> & Hl & Hlen).
  cbn [mbind res_bind simulates]. eexists. split_and!; [done | by apply (rep_delete_common m gc gu P) | unfold entries; cbn; lia].
Qed.

Lemma addIfNotPresent_spec h v : simulates m ('(m, b) ← addIfNotPresent m h v; Ok (AFlag b, m)) (spec_op (OAddIfNotPresent h v) g).
Proof.
  unfold addIfNotPresent. rewrite contains_common_spec. cbn [mbind res_bind spec_op]. destruct (g !! header_key h) as [old|] eqn:E.
  - rewrite bool_decide_eq_true_2 by eauto. cbn [mbind res_bind simulates]. exists m. split_and!; [done | done | lia].
  - rewrite bool_decide_eq_false_2 by (intros [? [=]]). cbn [mbind res_bind simulates]. destruct R as (gc & gu & -> & P). rewrite (lookup_common m gc gu P) in E.
    eexists. split_and!; [done | | unfold entries; cbn; autorewrite with zlen; lia]. apply (rep_set_common m gc gu P).
    apply (holds_insert header_key (m_commonHeaders m) [] gc (h, v)); [rewrite app_nil_r; apply P | done].
Qed.

(** By name: a name of the table, or one that is none. *)
Lemma name_cases name : valid_name name ->
  (exists h, find_name name = Ok (Some h) /\ name_key name = header_key h) \/
  (find_name name = Ok None /\ forall h, name_key name <> header_key h).
Proof.
  intros Hv. destruct (find_header_spec name Hv) as ([h|] & E & Ho); [left | right].
  - exists h. split; [done | by apply Ho].
  - split; [done|]. intros h Hk. by apply Ho in Hk.
Qed.

Lemma header_get_spec name : valid_name name -> get m name = Ok (default None (g !! name_key name)).
Proof.
  intros Hv. unfold get. destruct (name_cases name Hv) as [(h & -> & ->) | [-> Hk]]; cbn [mbind res_bind]; [apply get_common_spec|].
  destruct R as (gc & gu & -> & P). rewrite (proj2 (lookup_uncommon m gc gu P _ Hk)). unfold getUncommonHeader.
  apply (vec_get_spec name_key); [apply same_name_spec | apply P | by apply (uncommon_small m), entries_small].
Qed.

Lemma header_contains_spec name : valid_name name -> contains m name = Ok (bool_decide (is_Some (g !! name_key name))).
Proof.
  intros Hv. unfold contains. destruct (name_cases name Hv) as [(h & -> & ->) | [-> Hk]]; cbn [mbind res_bind]; [apply contains_common_spec|].
  destruct R as (gc & gu & -> & P). rewrite (proj2 (lookup_uncommon m gc gu P _ Hk)).
  apply (vec_contains_spec name_key); [apply same_name_spec | apply P | by apply (uncommon_small m), entries_small].
Qed.

Lemma header_set_spec name v : valid_name name -> simulates m (m ← set m name v; Ok (ANothing, m)) (spec_set (name_key name) v g).
Proof.
  intros Hv. unfold set. destruct (name_cases name Hv) as [(h & -> & ->) | [-> Hk]]; cbn [mbind res_bind]; [apply set_header_spec|].
  destruct R as (gc & gu & -> & P). unfold setUncommonHeader, spec_set, simulates.
  destruct (vec_set_spec name_key (same_name name) (name_key name) (same_name_spec name) _ gu (uncommon_part _ _ _ P) (uncommon_small m entries_small) name v eq_refl)
    as (l' & -> & Hl & Hlen). cbn [mbind res_bind]. eexists. split_and!; [done | by apply (rep_set_uncommon m gc gu P) | unfold entries; cbn; lia].
Qed.

Lemma header_add_spec name v : valid_name name -> simulates m (m ← add m name v; Ok (ANothing, m)) (spec_add (name_key name) v g).
Proof.
  intros Hv. unfold add. destruct (name_cases name Hv) as [(h & -> & ->) | [-> Hk]]; cbn [mbind res_bind]; [apply add_header_spec|].
  destruct R as (gc & gu & -> & P). unfold spec_add. rewrite (proj2 (lookup_uncommon m gc gu P _ Hk)).
  pose proof (vec_add_spec name_key (same_name name) (name_key name) (same_name_spec name) _ gu (uncommon_part _ _ _ P) (uncommon_small m entries_small) name v eq_refl) as E.
  destruct (gu !! name_key name) as [old|].
  - destruct (makeString old v) as [w| | |] eqn:Ew; [| | unfold makeString in Ew; by destruct (_ <=? _) in Ew..]; cbn [mbind res_bind simulates]; [|by rewrite E].
    destruct E as (l' & -> & Hl & Hlen). cbn [mbind res_bind]. eexists. split_and!; [done | by apply (rep_set_uncommon m gc gu P) | unfold entries; cbn; lia].
  - destruct E as (l' & -> & Hl & Hlen). cbn [mbind res_bind simulates]. eexists. split_and!; [done | by apply (rep_set_uncommon m gc gu P) | unfold entries; cbn; lia].
Qed.

Lemma header_remove_spec name : valid_name name -> simulates m ('(m, b) ← remove m name; Ok (AFlag b, m)) (spec_remove (name_key name) g).
Proof.
  intros Hv. unfold remove. destruct (name_cases name Hv) as [(h & -> & ->) | [-> Hk]]; cbn [mbind res_bind]; [apply remove_header_spec|].
  destruct R as (gc & gu & -> & P). unfold spec_remove. rewrite (proj2 (lookup_uncommon m gc gu P _ Hk)).
  destruct (vec_remove_spec name_key (same_name name) (name_key name) (same_name_spec name) _ gu (uncommon_part _ _ _ P)) as (l' & -> & Hl & Hlen).
  cbn [mbind res_bind simulates]. eexists. split_and!; [done | by apply (rep_delete_uncommon m gc gu P) | unfold entries; cbn; lia].
Qed.

(** Appending a header that is not there. *)
Lemma header_append_spec name v : valid_name name -> g !! name_key name = None -> simulates m (m ← append m name v; Ok (ANothing, m)) (spec_set (name_key name) v g).
Proof.
  intros Hv Hn. unfold append, spec_set, simulates. destruct (name_cases name Hv) as [(h & -> & Ek) | [-> Hk]]; cbn [mbind res_bind];
    destruct R as (gc & gu & -> & P); eexists; (split_and!; [done | | unfold entries; cbn; autorewrite with zlen; lia]).
  - rewrite Ek in Hn |- *. rewrite (lookup_common m gc gu P) in Hn. apply (rep_set_common m gc gu P).
    apply (holds_insert header_key (m_commonHeaders m) [] gc (h, v)); [rewrite app_nil_r; apply P | done].
  - rewrite (proj2 (lookup_uncommon m gc gu P _ Hk)) in Hn. apply (rep_set_uncommon m gc gu P _ _ _ Hk).
    apply (holds_insert name_key (m_uncommonHeaders m) [] gu (name, v)); [rewrite app_nil_r; apply P | done].
Qed.

Lemma header_op_spec o : valid_op o -> simulates m (header_op o m) (spec_op o g).
Proof.
  assert (Hsame : forall a : Answer, exists m', Ok (a, m) = Ok (a, m') /\ rep m' g /\ entries m' <= entries m + 1) by (intros a; exists m; split_and!; [done | done | lia]).
  intros Hv. destruct o; cbn [header_op valid_op] in *; try (by first [apply header_set_spec | apply header_add_spec | apply header_remove_spec | apply set_header_spec | apply add_header_spec | apply addIfNotPresent_spec | apply remove_header_spec]).
  - rewrite header_get_spec by done. apply Hsame.
  - rewrite header_contains_spec by done. apply Hsame.
  - rewrite get_common_spec by done. apply Hsame.
  - rewrite contains_common_spec by done. apply Hsame.
  - cbn [spec_op]. unfold spec_append. destruct (g !! name_key name) eqn:E; [done|]. by apply header_append_spec.
  - cbn [spec_op simulates]. unfold map_size. fold (entries m). rewrite (rep_entries m g R) in *. unfold swrap.
    replace ((Z.of_nat (base.size g) + 2 ^ (32 - 1)) mod 2 ^ 32 - 2 ^ (32 - 1)) with (Z.of_nat (base.size g)) by (rewrite Z.mod_small by lia; lia).
    exists m. split_and!; [done | done | rewrite (rep_entries m g R); lia].
  - cbn [spec_op simulates]. exists HTTPHeaderMap_new. split_and!; [done | | rewrite (rep_entries m g R); change (entries HTTPHeaderMap_new) with 0; lia].
    exists ∅, ∅. split; [by rewrite map_empty_union|]. split; unfold holds; cbn; rewrite ?map_to_list_empty; try done. intros k [? Hk]. by rewrite lookup_empty in Hk.
Qed.

End steps.

Fixpoint header_run (l : list HeaderOp) (m : HTTPHeaderMap) : res (list Answer * HTTPHeaderMap) :=
  match l with
  | [] => Ok ([], m)
  | o :: l => '(a, m) ← header_op o m; '(r, m) ← header_run l m; Ok (a :: r, m)
  end.

Fixpoint spec_run (l : list HeaderOp) (g : gmap String String) : res (list Answer * gmap String String) :=
  match l with
  | [] => Ok ([], g)
  | o :: l => '(a, g) ← spec_op o g; '(r, g) ← spec_run l g; Ok (a :: r, g)
  end.

Lemma header_run_spec l m g : rep m g -> Forall valid_op l -> entries m + zlen l < 2 ^ 31 ->
  match spec_run l g with
  | Ok (r, g') => exists m', header_run l m = Ok (r, m') /\ rep m' g'
  | Crash => header_run l m = Crash
  | UB => True
  | NoFuel => False
  end.
Proof.
  revert m g. induction l as [|o l IH]; intros m g R Hv Hn; cbn [spec_run header_run]; [by exists m|].
  apply Forall_cons in Hv as [Ho Hv]. revert Hn. autorewrite with zlen. intros Hn. pose proof (zlen_nonneg l).
  pose proof (header_op_spec m g R ltac:(lia) o Ho) as Hs. unfold simulates in Hs.
  destruct (spec_op o g) as [[a g1]| | |]; cbn [mbind res_bind]; [|by rewrite Hs | done..].
  destruct Hs as (m1 & -> & R1 & Hn1). cbn [mbind res_bind]. specialize (IH m1 g1 R1 Hv ltac:(lia)).
  destruct (spec_run l g1) as [[r g2]| | |]; cbn [mbind res_bind]; [|by rewrite IH | done..].
  destruct IH as (m2 & -> & R2). by exists m2.
Qed.

Lemma spec_run_ub l g : spec_run l g = UB -> Exists (fun o => match o with OAppend _ _ => True | _ => False end) l.
Proof.
  revert g. induction l as [|o l IH]; intros g; cbn [spec_run]; [done|]. destruct (spec_op o g) as [[a g1]| | |] eqn:E; cbn [mbind res_bind]; try done.
  - destruct (spec_run l g1) as [[r g2]| | |] eqn:El; cbn [mbind res_bind]; try done. intros _. apply Exists_cons_tl. by eapply IH.
  - intros _. apply Exists_cons_hd. destruct o; cbn [spec_op] in E; try done; unfold spec_add, makeString in E; repeat case_match; cbn in E; try done;
      repeat case_match; done.
Qed.

(** C20: a header map is a finite map from names, without regard to the case of letters, to values:
    a sequence of operations by name and by header gives the answers of the finite map, whether
    a name is one of the table or not; adding to a header joins the values with a comma, and ends
    the process when the result does not fit a string.  Names are of 16-bit characters and there are fewer than 2^31
    operations; the only other condition is the one that [append]
    asserts: a name is appended only when the map does not have it (otherwise the specification gives nothing). *)
Theorem header_map_implements_map (l : list HeaderOp) : Forall valid_op l -> zlen l < 2 ^ 31 ->
  match spec_run l ∅ with
  | Ok (answers, g) => exists m, header_run l HTTPHeaderMap_new = Ok (answers, m) /\ entries m = Z.of_nat (base.size g)
  | Crash => header_run l HTTPHeaderMap_new = Crash
  | UB => Exists (fun o => match o with OAppend _ _ => True | _ => False end) l
  | NoFuel => False
  end.
Proof.
  intros Hv Hn. pose proof (header_run_spec l HTTPHeaderMap_new ∅) as G.
  assert (R0 : rep HTTPHeaderMap_new ∅).
  { exists ∅, ∅. split; [by rewrite map_empty_union|]. split; unfold holds; cbn; rewrite ?map_to_list_empty; try done. intros k [? Hk]. by rewrite lookup_empty in Hk. }
  specialize (G R0 Hv ltac:(change (entries HTTPHeaderMap_new) with 0; lia)). pose proof (spec_run_ub l ∅) as U.
  destruct (spec_run l ∅) as [[r g]| | |]; [|done|by apply U|done]. destruct G as (m & E & R). exists m. split; [done | by apply rep_entries].
Qed.

Definition sample_headers : list HeaderOp :=
  [OSet (Some (lit "content-type")) (Some (lit "text/plain")); OAdd (Some (lit "X-Custom")) (Some (lit "a")); OAdd (Some (lit "x-CUSTOM")) (Some (lit "b"));
   OGetHeader H_ContentType; OGet (Some (lit "X-custom")); ORemove (Some (lit "CONTENT-TYPE")); OContainsHeader H_ContentType; OAppend (Some (lit "HOST")) (Some (lit "h")); OGetHeader H_Host; OSize].

Lemma header_map_witness :
  exists m, header_run sample_headers HTTPHeaderMap_new =
    Ok ([ANothing; ANothing; ANothing; AText (Some (lit "text/plain")); AText (Some (lit "a, b")); AFlag true; AFlag false; ANothing; AText (Some (lit "h")); ACount 2], m) /\ entries m = 2.
Proof.
  assert (Hv : Forall valid_op sample_headers) by (repeat constructor; cbn; lia).
  pose proof (header_map_implements_map sample_headers Hv ltac:(done)) as H.
  assert (E : spec_run sample_headers ∅ = Ok ([ANothing; ANothing; ANothing; AText (Some (lit "text/plain")); AText (Some (lit "a, b")); AFlag true; AFlag false; ANothing; AText (Some (lit "h")); ACount 2],
    <[Some (lit "host") := Some (lit "h")]> {[ Some (lit "x-custom") := Some (lit "a, b") ]}))
    by (match goal with |- _ = ?r => vm_cast_no_check (@eq_refl _ r) end).
  rewrite E in H. exact H.
Defined.

(** A vector of different headers is the map of its elements. *)
Lemma rep_common_list (l : list (HTTPHeaderName * String)) :
  NoDup (l.*1) -> rep {| m_commonHeaders := l; m_uncommonHeaders := [] |} (list_to_map ((fun x => (header_key x.1, x.2)) <$> l)).
Proof.
  intros N. eexists _, ∅. split; [by rewrite map_union_empty|]. split; unfold holds; cbn.
  - rewrite map_to_list_to_map; [done|].
    assert (E : ((fun x => (header_key x.1, x.2)) <$> l).*1 = header_key <$> l.*1) by (clear; induction l; cbn; congruence).
    rewrite E. apply NoDup_fmap_2; [|done]. intros h h'. apply header_key_inj.
  - by rewrite map_to_list_empty.
  - intros k [v Hv]. apply elem_of_list_to_map_2, list_elem_of_fmap in Hv as (x & [= -> _] & _). by eexists.
  - intros h. apply lookup_empty.
Qed.

(** ** Equality *)

Lemma all_found_spec {K} (find : K -> res String) (keyof : K -> String) (l : list (K * String)) (g : gmap String String) :
  (forall x, find x = Ok (default None (g !! keyof x))) ->
  all_found find l = Ok (bool_decide (Forall (fun x => default None (g !! keyof x.1) = x.2) l)).
Proof.
  intros Hf. induction l as [|[x v] l IH]; [done|]. cbn [all_found]. rewrite Hf. cbn [mbind res_bind].
  destruct (bool_decide_reflect (default None (g !! keyof x) = v)) as [E|E]; cbn [negb].
  - rewrite IH. f_equal. apply bool_decide_ext. rewrite Forall_cons. naive_solver.
  - f_equal. symmetry. apply bool_decide_eq_false_2. rewrite Forall_cons. naive_solver.
Qed.

(** The parts of equal maps are equal. *)
Lemma parts_determined m m' gc gu gc' gu' : parts m gc gu -> parts m' gc' gu' -> gc ∪ gu = gc' ∪ gu' -> gc = gc' /\ gu = gu'.
Proof.
  intros P P' E. assert (G : forall k, gc !! k = gc' !! k /\ gu !! k = gu' !! k).
  { intros k. assert (Hk : (gc ∪ gu) !! k = (gc' ∪ gu') !! k) by by rewrite E.
    destruct (decide (Exists (fun h => k = header_key h) all_names)) as [Hc|Hc].
    - apply Exists_exists in Hc as (h & _ & ->). rewrite (lookup_common m gc gu P), (lookup_common m' gc' gu' P') in Hk.
      by rewrite (uncommon_names _ _ _ P), (uncommon_names _ _ _ P').
    - assert (Hn : forall h, k <> header_key h).
      { intros h ->. apply Hc, Exists_exists. exists h. split; [|done]. apply (list_elem_of_lookup_2 _ (Z.to_nat (index_of_name h))). by destruct h. }
      destruct (lookup_uncommon m gc gu P k Hn) as [E1 E2], (lookup_uncommon m' gc' gu' P' k Hn) as [E3 E4]. split; congruence. }
  split; apply map_eq; intros k; apply G.
Qed.

Lemma holds_all {K} (keyof : K -> String) (l : list (K * String)) (g g' : gmap String String) : holds keyof l g ->
  (forall k v, g !! k = Some v -> v <> None) ->
  Forall (fun x => default None (g' !! keyof x.1) = x.2) l <-> (forall k v, g !! k = Some v -> g' !! k = Some v).
Proof.
  intros Hh Hnn. rewrite Forall_forall. split.
  - intros Hall k v Hk. pose proof Hk as Hk'. apply elem_of_map_to_list in Hk'. rewrite <- Hh in Hk'.
    apply list_elem_of_fmap in Hk' as (x & [= -> ->] & Hx). specialize (Hall x Hx). specialize (Hnn _ _ Hk).
    destruct (g' !! keyof x.1) as [w|]; cbn in Hall; congruence.
  - intros Hall x Hx. assert (Hk : g !! keyof x.1 = Some x.2).
    { apply elem_of_map_to_list. rewrite <- Hh. apply list_elem_of_fmap. by exists x. }
    by rewrite (Hall _ _ Hk).
Qed.

Lemma map_equal_spec a b ga gb : rep a ga -> rep b gb -> entries b < 2 ^ 31 -> (forall k v, ga !! k = Some v -> v <> None) ->
  map_equal a b = Ok (bool_decide (ga = gb)).
Proof.
  intros Ra Rb Hb Hnn. pose proof Ra as (gca & gua & -> & Pa). pose proof Rb as (gcb & gub & -> & Pb).
  assert (Lc : forall m gc gu, parts m gc gu -> zlen (m_commonHeaders m) = Z.of_nat (base.size gc) /\ zlen (m_uncommonHeaders m) = Z.of_nat (base.size gu)).
  { intros m gc gu P. pose proof (common_part _ _ _ P) as Hc. pose proof (uncommon_part _ _ _ P) as Hu. unfold holds in *.
    apply Permutation_length in Hc, Hu. rewrite length_fmap, length_map_to_list in Hc. rewrite length_fmap, length_map_to_list in Hu. unfold zlen. lia. }
  destruct (Lc _ _ _ Pa) as [La1 La2], (Lc _ _ _ Pb) as [Lb1 Lb2]. unfold map_equal. rewrite La1, La2, Lb1, Lb2.
  assert (Hnc : forall k v, gca !! k = Some v -> v <> None) by (intros k v Hk; apply (Hnn k); by apply lookup_union_Some_l).
  assert (Hnu : forall k v, gua !! k = Some v -> v <> None).
  { intros k v Hk. apply (Hnn k). rewrite lookup_union_r; [done|]. apply eq_None_not_Some. intros Hs.
    destruct (common_names _ _ _ Pa k Hs) as [h ->]. by rewrite (uncommon_names _ _ _ Pa) in Hk. }
  destruct (decide (gca ∪ gua = gcb ∪ gub)) as [E|E].
  - destruct (parts_determined _ _ _ _ _ _ Pa Pb E) as [-> ->]. rewrite !Z.eqb_refl. cbn [negb orb].
    rewrite (all_found_spec (get_common b) header_key _ (gcb ∪ gub)) by (intros; by apply get_common_spec).
    rewrite bool_decide_eq_true_2. 2: { apply (holds_all header_key _ gcb); [apply Pa | done |]. intros k v Hk. by apply lookup_union_Some_l. }
    cbn [mbind res_bind]. rewrite (all_found_spec (getUncommonHeader b) name_key _ gub).
    2: { intros x. apply (vec_get_spec name_key); [apply same_name_spec | apply Pb | apply (uncommon_small b), entries_small, Hb]. }
    rewrite !bool_decide_eq_true_2; [done | done |]. by apply (holds_all name_key _ gub); [apply Pa | |].
  - rewrite (bool_decide_eq_false_2 _ E). destruct (Z.eqb_spec (Z.of_nat (base.size gca)) (Z.of_nat (base.size gcb))) as [S1|]; [|done].
    destruct (Z.eqb_spec (Z.of_nat (base.size gua)) (Z.of_nat (base.size gub))) as [S2|]; [|done]. cbn [negb orb].
    rewrite (all_found_spec (get_common b) header_key _ gcb).
    2: { intros x. apply (vec_get_spec header_key); [apply same_header_spec | apply Pb | apply (common_small b), entries_small, Hb]. }
    destruct (bool_decide_reflect (Forall (fun x => default None (gcb !! header_key x.1) = x.2) (m_commonHeaders a))) as [F1|F1]; cbn [mbind res_bind]; [|done].
    rewrite (all_found_spec (getUncommonHeader b) name_key _ gub).
    2: { intros x. apply (vec_get_spec name_key); [apply same_name_spec | apply Pb | apply (uncommon_small b), entries_small, Hb]. }
    f_equal. apply bool_decide_eq_false_2. intros F2. apply E.
    rewrite (holds_all _ _ _ _ (common_part _ _ _ Pa) Hnc) in F1. rewrite (holds_all _ _ _ _ (uncommon_part _ _ _ Pa) Hnu) in F2.
    rewrite (map_subseteq_size_eq gca gcb), (map_subseteq_size_eq gua gub); try done; try lia; by apply map_subseteq_spec.
Qed.

(** A null value makes two different maps equal: it compares like a header that is not there. *)
Theorem null_values_confuse_maps : exists a b,
  header_run [OSet (Some (lit "X-A")) None] HTTPHeaderMap_new = Ok ([ANothing], a) /\
  header_run [OSet (Some (lit "X-B")) (Some (lit "v"))] HTTPHeaderMap_new = Ok ([ANothing], b) /\
  map_equal a b = Ok true /\ map_equal b a = Ok false.
Proof. eexists _, _. by split_and!. Qed.

(** ** Header fields *)

Lemma token_prefix ts rest state : state = OptionalWhitespace \/ state = Token -> ts <> [] -> forallb isTokenCharacter ts = true ->
  forall depth had, valid_value_loop (ts ++ rest) state depth had = valid_value_loop rest Token depth (match state with OptionalWhitespace => true | _ => had end).
Proof.
  assert (Hws : forall c, isTokenCharacter c = true -> isWhitespace c = false).
  { intros c Hc. unfold isWhitespace. destruct (Z.eqb_spec c 32) as [->|]; [done|]. by destruct (Z.eqb_spec c 9) as [->|]. }
  intros Hs Hne Ht. revert state Hs Hne. induction ts as [|t ts IH]; intros state Hs Hne depth had; [done|].
  cbn in Ht. apply andb_true_iff in Ht as [Ht Hts]. cbn [app valid_value_loop].
  assert (Hrest : forall had, valid_value_loop (ts ++ rest) Token depth had = valid_value_loop rest Token depth had).
  { intros had'. destruct ts as [|t' ts]; [done|]. by rewrite IH by (done || by right). }
  destruct Hs as [-> | ->]; rewrite ?(Hws t Ht), Ht; apply Hrest.
Qed.

(** Words with one character before each. *)
Definition after_token (l : list (Z * StringImpl)) : StringImpl := flat_map (fun x => x.1 :: x.2) l.
Definition word (ts : StringImpl) : Prop := ts <> [] /\ forallb isTokenCharacter ts = true.

Lemma token_not_space c : isTokenCharacter c = true -> isWhitespace c = false.
Proof. intros Hc. unfold isWhitespace. destruct (Z.eqb_spec c 32) as [->|]; [done|]. by destruct (Z.eqb_spec c 9) as [->|]. Qed.

(** A text that starts and ends with a token character is not stripped. *)
Lemma trim_words ts rest : word ts -> (rest = [] \/ exists rest' us, rest = rest' ++ us /\ word us) -> trim isWhitespace (ts ++ rest) = ts ++ rest.
Proof.
  intros [Hn Ht] Hr. assert (He : exists l d, ts ++ rest = l ++ [d] /\ isTokenCharacter d = true).
  { assert (Hw : forall us, word us -> exists l d, us = l ++ [d] /\ isTokenCharacter d = true).
    { intros us [Un Ut]. destruct (exists_last Un) as (l & d & ->). exists l, d. split; [done|].
      rewrite forallb_app in Ut. cbn in Ut. apply andb_true_iff in Ut as [_ Ut]. by rewrite andb_true_r in Ut. }
    destruct Hr as [->|(rest' & us & -> & Hu)]; [rewrite app_nil_r; by apply Hw|].
    destruct (Hw us Hu) as (l & d & -> & Hd). exists (ts ++ rest' ++ l), d. by rewrite <- !app_assoc. }
  destruct ts as [|t ts]; [done|]. cbn in Ht. apply andb_true_iff in Ht as [Ht _]. destruct He as (l & d & E & Hd).
  unfold trim. cbn [app drop_while]. rewrite token_not_space by done. change (t :: ts ++ rest) with ((t :: ts) ++ rest).
  rewrite E, reverse_snoc. cbn [drop_while]. rewrite token_not_space by done. by rewrite reverse_cons, reverse_involutive.
Qed.

Lemma after_token_valid l depth : Forall (fun x => isTokenCharacter x.1 = false /\ word x.2) l ->
  valid_value_loop (after_token l) Token depth true = true.
Proof.
  induction 1 as [|[c us] l [Hc [Hn Hu]] _ IH]; [done|]. cbn [after_token flat_map fst snd app valid_value_loop] in *. rewrite Hc.
  by rewrite (token_prefix us _ OptionalWhitespace (or_introl eq_refl) Hn Hu).
Qed.

Lemma after_token_end l : Forall (fun x => isTokenCharacter x.1 = false /\ word x.2) l ->
  after_token l = [] \/ exists rest us, after_token l = rest ++ us /\ word us.
Proof.
  destruct l as [|x l] using rev_ind; [by left|]. intros [_ [[_ Hu] _]%Forall_cons]%Forall_app. right.
  exists (after_token l ++ [x.1]), x.2. split; [|done]. unfold after_token. rewrite flat_map_app. cbn. by rewrite app_nil_r, <- app_assoc.
Qed.

(** C32: the value of a header field is not checked after a token: a field is accepted, with its value unchanged, whenever its
    name is a token and its value consists of tokens with any one character that is no token character between two of them, a line feed, a quotation mark
    or a parenthesis too.  What comes after a token is judged as if the character there were a space. *)
Theorem field_value_unchecked_after_token name ts (l : list (Z * StringImpl)) :
  word name -> word ts -> Forall (fun x => isTokenCharacter x.1 = false /\ word x.2) l ->
  HTTPHeaderField_create (Some name) (Some (ts ++ after_token l)) = Ok (Some {| m_name := Some name; m_value := Some (ts ++ after_token l) |}) /\
  forall c rest, isTokenCharacter c = false -> isValidValue (ts ++ c :: rest) = isValidValue (ts ++ 32 :: rest).
Proof.
  intros Hname Hts Hl. split.
  - unfold HTTPHeaderField_create. cbn [chars default from_option id]. rewrite !stripMatchedCharacters_spec. cbn [mbind res_bind].
    pose proof (trim_words name [] Hname (or_introl eq_refl)) as En. rewrite app_nil_r in En. rewrite En.
    rewrite (trim_words ts _ Hts (after_token_end l Hl)). destruct Hname as [Hn Hnt], Hts as [Ht Htt].
    assert (isValidName name = true) as ->.
    { unfold isValidName. rewrite Hnt, andb_true_r. destruct name as [|x name]; [done|]. rewrite zlen_cons. pose proof (zlen_nonneg name).
      by rewrite (proj2 (Z.eqb_neq _ _)) by lia. }
    assert (isValidValue (ts ++ after_token l) = true) as ->.
    { unfold isValidValue. rewrite (token_prefix ts _ OptionalWhitespace (or_introl eq_refl) Ht Htt). by apply after_token_valid. }
    cbn [negb orb length_ chars default from_option id]. by rewrite !Z.eqb_refl.
  - intros c rest Hc. destruct Hts as [Ht Htt]. unfold isValidValue. rewrite !token_prefix by (done || by left). cbn [valid_value_loop]. by rewrite Hc.
Qed.

(** A header with a second header in it. *)
Lemma field_value_witness :
  HTTPHeaderField_create (Some (lit "A")) (Some (lit "a" ++ 10 :: lit "Set-Cookie" ++ 58 :: lit "b" ++ 34 :: lit "c")) =
  Ok (Some {| m_name := Some (lit "A"); m_value := Some (lit "a" ++ 10 :: lit "Set-Cookie" ++ 58 :: lit "b" ++ 34 :: lit "c") |}).
Proof.
  apply (field_value_unchecked_after_token (lit "A") (lit "a") [(10, lit "Set-Cookie"); (58, lit "b"); (34, lit "c")]); [done..|].
  repeat (apply List.Forall_cons; [done|]). constructor.
Defined.

End HeaderProps.
