(* ===== verification/HttpHeaderCoders.v ===== *)
(** * Header maps in loops and in messages (network/HTTPHeaderMap.h, network/HTTPHeaderField.h)

    The iterator over a header map, and how header maps and header fields are
    written to and read from IPC messages.  In a message a string is one of the
    three representations of IpcCoders ([WString]); [text] forgets which.  The
    coders are proved lawful from the laws of their parts, so a header map may
    be an argument of every message of the connection. *)
From Stdlib Require Ascii String.
Import String.StringSyntax.
From stdpp Require Import gmap fin_maps.
From S2P Require Import Prelude WtfString HttpNames HttpHeaders IpcEncoder IpcDecoder IpcCoders IpcMessages.

Local Open Scope cf.

Module HeaderCoders.
Import Str Names Headers.

(** ** HTTPHeaderMapConstIterator *)

Record KeyValue := mkKeyValue { kv_key : String; keyAsHTTPHeaderName : option HTTPHeaderName; kv_value : String }.

(** The two vector iterators as offsets; the table is an argument. *)
Record ConstIterator := mkIterator { m_commonHeadersIt : Z; m_uncommonHeadersIt : Z; m_keyValue : KeyValue }.

Section Iterator.
Context (m_table : HTTPHeaderMap).

Definition updateKeyValue_common (it : Z) (kv : KeyValue) : res (bool * KeyValue) :=
  if it =? zlen (m_commonHeaders m_table) then Ok (false, kv)
  else
    header ← or_ub (m_commonHeaders m_table).[it];
    key ← httpHeaderNameString header.1;
    Ok (true, mkKeyValue (Some key) (Some header.1) header.2).

Definition updateKeyValue_uncommon (it : Z) (kv : KeyValue) : res (bool * KeyValue) :=
  if it =? zlen (m_uncommonHeaders m_table) then Ok (false, kv)
  else header ← or_ub (m_uncommonHeaders m_table).[it]; Ok (true, mkKeyValue header.1 None header.2).

Definition ConstIterator_new (commonHeadersIt uncommonHeadersIt : Z) : res ConstIterator :=
  '(updated, kv) ← updateKeyValue_common commonHeadersIt (mkKeyValue None None None);
  if (updated : bool) then Ok (mkIterator commonHeadersIt uncommonHeadersIt kv)
  else '(_, kv) ← updateKeyValue_uncommon uncommonHeadersIt kv; Ok (mkIterator commonHeadersIt uncommonHeadersIt kv).

Definition it_next (i : ConstIterator) : res ConstIterator :=
  if negb (m_commonHeadersIt i =? zlen (m_commonHeaders m_table)) then
    let c := m_commonHeadersIt i + 1 in
    '(updated, kv) ← updateKeyValue_common c (m_keyValue i);
    if (updated : bool) then Ok (mkIterator c (m_uncommonHeadersIt i) kv)
    else '(_, kv) ← updateKeyValue_uncommon (m_uncommonHeadersIt i) kv; Ok (mkIterator c (m_uncommonHeadersIt i) kv)
  else
    let u := m_uncommonHeadersIt i + 1 in
    '(_, kv) ← updateKeyValue_uncommon u (m_keyValue i); Ok (mkIterator (m_commonHeadersIt i) u kv).

Definition it_equal (a b : ConstIterator) : bool :=
  (m_commonHeadersIt a =? m_commonHeadersIt b) && (m_uncommonHeadersIt a =? m_uncommonHeadersIt b).

Definition map_begin : res ConstIterator := ConstIterator_new 0 0.
Definition map_end : res ConstIterator := ConstIterator_new (zlen (m_commonHeaders m_table)) (zlen (m_uncommonHeaders m_table)).

(** [for (auto& header : map)]: the headers the body sees. *)
Fixpoint for_from (fuel : nat) (i last : ConstIterator) : res (list KeyValue) :=
  match fuel with
  | O => NoFuel
  | S fuel =>
      if it_equal i last then Ok []
      else next ← it_next i; rest ← for_from fuel next last; Ok (m_keyValue i :: rest)
  end.

Definition for_each (fuel : nat) : res (list KeyValue) :=
  i ← map_begin; last ← map_end; for_from fuel i last.
End Iterator.

(** ** Coders *)

(** [EnumTraits<HTTPHeaderName>]: the underlying type has four bytes. *)
Definition isValidHTTPHeaderName (v : Z) : bool := existsb (fun h => index_of_name h =? v) all_names.

Definition encode_HTTPHeaderName (h : HTTPHeaderName) : Encoder -> res Encoder := encode_arith 4 (index_of_name h).
Definition decode_HTTPHeaderName : Decoder.M HTTPHeaderName :=
  Decoder.bind (Decoder.decode_enum 4 isValidHTTPHeaderName) (fun v d =>
    h ← or_ub all_names.[v]; Decoder.ret h d).
#[global] Instance HTTPHeaderName_coder : ArgumentCoder HTTPHeaderName :=
  { encode := encode_HTTPHeaderName; decode := decode_HTTPHeaderName }.

Record CommonHeader := mkCommon { c_key : HTTPHeaderName; c_value : WString }.
Record UncommonHeader := mkUncommon { u_key : WString; u_value : WString }.
(** An element of each vector is a name of four or eight bytes and a pointer. *)
#[global] Instance CommonHeader_size : SizeOf CommonHeader := 16.
#[global] Instance UncommonHeader_size : SizeOf UncommonHeader := 16.
Record HeaderMapRep := mkHeaderMapRep { r_commonHeaders : list CommonHeader; r_uncommonHeaders : list UncommonHeader }.
Record HeaderFieldRep := mkFieldRep { r_name : WString; r_value : WString }.

Definition CommonHeader_encode (h : CommonHeader) (e : Encoder) : res Encoder :=
  e ← encode (c_key h) e; encode (c_value h) e.
Definition CommonHeader_decode : Decoder.M CommonHeader :=
  Decoder.bind decode (fun name => Decoder.bind decode (fun value => Decoder.ret (mkCommon name value))).
#[global] Instance CommonHeader_coder : ArgumentCoder CommonHeader :=
  { encode := CommonHeader_encode; decode := CommonHeader_decode }.

Definition UncommonHeader_encode (h : UncommonHeader) (e : Encoder) : res Encoder :=
  e ← encode (u_key h) e; encode (u_value h) e.
Definition UncommonHeader_decode : Decoder.M UncommonHeader :=
  Decoder.bind decode (fun name => Decoder.bind decode (fun value => Decoder.ret (mkUncommon name value))).
#[global] Instance UncommonHeader_coder : ArgumentCoder UncommonHeader :=
  { encode := UncommonHeader_encode; decode := UncommonHeader_decode }.

Definition HTTPHeaderMap_encode (m : HeaderMapRep) (e : Encoder) : res Encoder :=
  e ← encode (r_commonHeaders m) e; encode (r_uncommonHeaders m) e.
(** A map whose second half fails to decode is not used by the callers. *)
Definition HTTPHeaderMap_decode : Decoder.M HeaderMapRep :=
  Decoder.bind decode (fun common => Decoder.bind decode (fun uncommon => Decoder.ret (mkHeaderMapRep common uncommon))).
#[global] Instance HTTPHeaderMap_coder : ArgumentCoder HeaderMapRep :=
  { encode := HTTPHeaderMap_encode; decode := HTTPHeaderMap_decode }.

Definition HTTPHeaderField_encode (f : HeaderFieldRep) (e : Encoder) : res Encoder :=
  e ← encode (r_name f) e; encode (r_value f) e.
Definition HTTPHeaderField_decode : Decoder.M HeaderFieldRep :=
  Decoder.bind decode (fun name => Decoder.bind decode (fun value => Decoder.ret (mkFieldRep name value))).
#[global] Instance HTTPHeaderField_coder : ArgumentCoder HeaderFieldRep :=
  { encode := HTTPHeaderField_encode; decode := HTTPHeaderField_decode }.

(** ** Laws *)

(** The strings without their representation. *)
Definition text (s : WString) : String := match s with SNull => None | S8 chars | S16 chars => Some chars end.
Definition map_of (r : HeaderMapRep) : HTTPHeaderMap :=
  {| m_commonHeaders := (fun h => (c_key h, text (c_value h))) <$> r_commonHeaders r;
     m_uncommonHeaders := (fun h => (text (u_key h), text (u_value h))) <$> r_uncommonHeaders r |}.

Lemma name_valid h : isValidHTTPHeaderName (index_of_name h) = true /\ all_names.[index_of_name h] = Some h /\ 0 <= index_of_name h < 84.
Proof. by destruct h. Qed.

#[global] Program Instance HTTPHeaderName_lawful : LawfulCoder HTTPHeaderName := {
  encodable _ := True;
  wire h := aligned 4 (le_split 4 (index_of_name h))
}.
Next Obligation. intros h _. apply (enc_arith 4), arith_4. Qed.
Next Obligation. intros h pos _. apply bytes_aligned, le_split_bytes. Qed.
Next Obligation.
  intros h _. destruct (name_valid h) as (Hv & Hn & Hr). unfold decode; cbn [HTTPHeaderName_coder]. unfold decode_HTTPHeaderName.
  eapply dec_ok_ext; [eapply (dec_bind _ _ (index_of_name h) _ _ wnil)|intros; apply app_nil_r].
  - unfold Decoder.decode_enum. eapply dec_ok_ext; [eapply (dec_bind _ _ (index_of_name h) _ _ wnil)|intros; apply app_nil_r].
    + apply (dec_arith 4); [apply arith_4 | change (256 ^ Z.of_nat 4) with 4294967296; lia].
    + rewrite Hv. apply dec_ret.
  - rewrite Hn. apply dec_ret.
Qed.
(** A record of two fields, written and read one after the other. *)
Section TwoFields.
Context {T U R : Type} `{LawfulCoder T, LawfulCoder U} (mk : T -> U -> R).

Definition decode_two : Decoder.M R := Decoder.bind decode (fun a => Decoder.bind decode (fun b => Decoder.ret (mk a b))).

Lemma enc_two (a : T) (b : U) : encodable a -> encodable b -> enc_ok (fun e => e1 ← encode a e; encode b e1) (wseq (wire a) (wire b)).
Proof. intros. by apply enc_seq; apply encode_wire. Qed.

Lemma bytes_two (a : T) (b : U) pos : encodable a -> encodable b -> Forall (in_range 8) (wseq (wire a) (wire b) pos).
Proof. intros. by apply bytes_wseq; intros; apply wire_bytes. Qed.

Lemma dec_two (a : T) (b : U) : encodable a -> encodable b -> dec_ok decode_two (mk a b) (wseq (wire a) (wire b)).
Proof. intros. apply (dec_bind _ _ a); [by apply decode_wire | by apply dec_map, decode_wire]. Qed.

End TwoFields.

#[global] Program Instance CommonHeader_lawful : LawfulCoder CommonHeader := {
  encodable h := encodable (c_key h) /\ encodable (c_value h);
  wire h := wseq (wire (c_key h)) (wire (c_value h))
}.
Next Obligation. intros [k v] [Hk Hv]. by apply (enc_two k v). Qed.
Next Obligation. intros [k v] pos [Hk Hv]. by apply bytes_two. Qed.
Next Obligation. intros [k v] [Hk Hv]. by apply (dec_two mkCommon). Qed.

#[global] Program Instance UncommonHeader_lawful : LawfulCoder UncommonHeader := {
  encodable h := encodable (u_key h) /\ encodable (u_value h);
  wire h := wseq (wire (u_key h)) (wire (u_value h))
}.
Next Obligation. intros [k v] [Hk Hv]. by apply (enc_two k v). Qed.
Next Obligation. intros [k v] pos [Hk Hv]. by apply bytes_two. Qed.
Next Obligation. intros [k v] [Hk Hv]. by apply (dec_two mkUncommon). Qed.

#[global] Program Instance HTTPHeaderMap_lawful : LawfulCoder HeaderMapRep := {
  encodable m := encodable (r_commonHeaders m) /\ encodable (r_uncommonHeaders m);
  wire m := wseq (wire (r_commonHeaders m)) (wire (r_uncommonHeaders m))
}.
Next Obligation. intros [k v] [Hk Hv]. by apply (enc_two k v). Qed.
Next Obligation. intros [k v] pos [Hk Hv]. by apply bytes_two. Qed.
Next Obligation. intros [k v] [Hk Hv]. by apply (dec_two mkHeaderMapRep). Qed.

#[global] Program Instance HTTPHeaderField_lawful : LawfulCoder HeaderFieldRep := {
  encodable f := encodable (r_name f) /\ encodable (r_value f);
  wire f := wseq (wire (r_name f)) (wire (r_value f))
}.
Next Obligation. intros [k v] [Hk Hv]. by apply (enc_two k v). Qed.
Next Obligation. intros [k v] pos [Hk Hv]. by apply bytes_two. Qed.
Next Obligation. intros [k v] [Hk Hv]. by apply (dec_two mkFieldRep). Qed.

(** ** The loop over a map *)

Lemma zlen_before {A} (l1 : list A) x l2 : zlen l1 <> zlen (l1 ++ x :: l2).
Proof. autorewrite with zlen. pose proof (zlen_nonneg l2). lia. Qed.

Section Loop.
Context (m : HTTPHeaderMap).

Definition common_kv (h : HTTPHeaderName * String) : KeyValue := mkKeyValue (Some (string_of h.1)) (Some h.1) h.2.
Definition uncommon_kv (h : String * String) : KeyValue := mkKeyValue h.1 None h.2.
Definition all_kv : list KeyValue := (common_kv <$> m_commonHeaders m) ++ (uncommon_kv <$> m_uncommonHeaders m).

Lemma update_common l1 h l2 kv : m_commonHeaders m = l1 ++ h :: l2 -> updateKeyValue_common m (zlen l1) kv = Ok (true, common_kv h).
Proof.
  intros E. unfold updateKeyValue_common. rewrite E, zlookup_app. autorewrite with zlen. pose proof (zlen_nonneg l2).
  rewrite (proj2 (Z.eqb_neq _ _)) by lia. cbn [or_ub mbind res_bind]. by rewrite string_of_ok.
Qed.

Lemma update_common_end kv : updateKeyValue_common m (zlen (m_commonHeaders m)) kv = Ok (false, kv).
Proof. unfold updateKeyValue_common. by rewrite Z.eqb_refl. Qed.

(** What the iterator shows when its second half is before [l2]. *)
Definition shown (l2 : list (String * String)) (kv : KeyValue) : KeyValue := match l2 with [] => kv | h :: _ => uncommon_kv h end.

Lemma update_uncommon l1 l2 kv : m_uncommonHeaders m = l1 ++ l2 -> exists b, updateKeyValue_uncommon m (zlen l1) kv = Ok (b, shown l2 kv).
Proof.
  intros E. unfold updateKeyValue_uncommon. rewrite E. autorewrite with zlen. destruct l2 as [|h l2]; autorewrite with zlen.
  - rewrite (proj2 (Z.eqb_eq _ _)) by (change (zlen (@nil (String * String))) with 0; lia). by exists false.
  - pose proof (zlen_nonneg l2). rewrite (proj2 (Z.eqb_neq _ _)) by lia. rewrite zlookup_app. by exists true.
Qed.

Definition at_end (last : ConstIterator) : Prop :=
  m_commonHeadersIt last = zlen (m_commonHeaders m) /\ m_uncommonHeadersIt last = zlen (m_uncommonHeaders m).

Lemma for_uncommon l2 : forall l1 kv last fuel, at_end last -> m_uncommonHeaders m = l1 ++ l2 -> (length l2 < fuel)%nat ->
  for_from m fuel (mkIterator (zlen (m_commonHeaders m)) (zlen l1) (shown l2 kv)) last = Ok (uncommon_kv <$> l2).
Proof.
  induction l2 as [|h l2 IH]; intros l1 kv last [|fuel] [E1 E2] E Hf; try (cbn in Hf; lia); cbn [for_from]; unfold it_equal; cbn [m_commonHeadersIt m_uncommonHeadersIt];
    rewrite E1, E2, Z.eqb_refl, E; autorewrite with zlen.
  - change (zlen (@nil (String * String))) with 0. by rewrite Z.add_0_r, Z.eqb_refl.
  - pose proof (zlen_nonneg l2). rewrite (proj2 (Z.eqb_neq _ _)) by lia. cbn [andb]. unfold it_next. cbn [m_commonHeadersIt m_uncommonHeadersIt]. rewrite Z.eqb_refl.
    cbn [negb]. replace (zlen l1 + 1) with (zlen (l1 ++ [h])) by (by autorewrite with zlen).
    assert (E' : m_uncommonHeaders m = (l1 ++ [h]) ++ l2) by (by rewrite <- app_assoc).
    destruct (update_uncommon (l1 ++ [h]) l2 (uncommon_kv h) E') as [b Hb]. cbn [m_keyValue shown]. rewrite Hb. cbn [mbind res_bind].
    rewrite (IH (l1 ++ [h]) (uncommon_kv h) last fuel (conj E1 E2) E') by (cbn in Hf; lia). done.
Qed.

Lemma for_common h l2 : forall l1 last fuel, at_end last -> m_commonHeaders m = l1 ++ h :: l2 -> (length (h :: l2) + length (m_uncommonHeaders m) < fuel)%nat ->
  for_from m fuel (mkIterator (zlen l1) 0 (common_kv h)) last = Ok ((common_kv <$> h :: l2) ++ (uncommon_kv <$> m_uncommonHeaders m)).
Proof.
  revert h. induction l2 as [|h' l2 IH]; intros h l1 last [|fuel] [E1 E2] E Hf; try (cbn in Hf; lia); cbn [for_from]; unfold it_equal; cbn [m_commonHeadersIt m_uncommonHeadersIt];
    rewrite (proj2 (Z.eqb_neq (zlen l1) _)) by (rewrite E1, E; apply zlen_before);
    cbn [andb]; unfold it_next; cbn [m_commonHeadersIt m_uncommonHeadersIt m_keyValue];
    rewrite (proj2 (Z.eqb_neq (zlen l1) _)) by (rewrite E; apply zlen_before);
    cbn [negb]; replace (zlen l1 + 1) with (zlen (l1 ++ [h])) by (by autorewrite with zlen).
  - replace (l1 ++ [h]) with (m_commonHeaders m) by done. rewrite update_common_end. cbn [mbind res_bind].
    destruct (update_uncommon [] (m_uncommonHeaders m) (common_kv h) eq_refl) as [b Hb]. change (zlen (@nil (String * String))) with 0 in Hb. rewrite Hb. cbn [mbind res_bind].
    pose proof (for_uncommon (m_uncommonHeaders m) [] (common_kv h) last fuel (conj E1 E2) eq_refl ltac:(cbn in Hf; lia)) as Hu.
    change (zlen (@nil (String * String))) with 0 in Hu. by rewrite Hu.
  - rewrite (update_common (l1 ++ [h]) h' l2) by (by rewrite <- app_assoc). cbn [mbind res_bind].
    rewrite (IH h' (l1 ++ [h]) last fuel (conj E1 E2)) by ((by rewrite <- app_assoc) || (cbn in Hf |- *; lia)). done.
Qed.

Lemma for_each_spec fuel : (length (m_commonHeaders m) + length (m_uncommonHeaders m) < fuel)%nat -> for_each m fuel = Ok all_kv.
Proof.
  intros Hf. unfold for_each, map_begin, map_end, ConstIterator_new. rewrite update_common_end. cbn [mbind res_bind].
  destruct (update_uncommon (m_uncommonHeaders m) [] (mkKeyValue None None None)) as [b Hb]; [by rewrite app_nil_r|]. rewrite Hb. unfold all_kv.
  destruct (m_commonHeaders m) as [|h l2] eqn:E.
  - pose proof (update_common_end (mkKeyValue None None None)) as He. rewrite E in He. change (zlen (@nil (HTTPHeaderName * String))) with 0 in *. rewrite He. cbn [mbind res_bind].
    destruct (update_uncommon [] (m_uncommonHeaders m) (mkKeyValue None None None) eq_refl) as [b' Hb']. change (zlen (@nil (String * String))) with 0 in Hb'. rewrite Hb'. cbn [mbind res_bind].
    pose proof (for_uncommon (m_uncommonHeaders m) [] (mkKeyValue None None None) (mkIterator 0 (zlen (m_uncommonHeaders m)) (mkKeyValue None None None)) fuel) as Hu.
    rewrite E in Hu. apply Hu; [split; by rewrite ?E | done | cbn in Hf; lia].
  - pose proof (update_common [] h l2 (mkKeyValue None None None) E) as Hc. change (zlen (@nil (HTTPHeaderName * String))) with 0 in Hc. rewrite Hc. cbn [mbind res_bind].
    pose proof (for_common h l2 [] (mkIterator (zlen (h :: l2)) (zlen (m_uncommonHeaders m)) (mkKeyValue None None None)) fuel) as Hu.
    change (zlen (@nil (HTTPHeaderName * String))) with 0 in Hu. apply Hu; [split; by rewrite ?E | done | cbn in Hf |- *; lia].
Qed.

End Loop.

(** A value put into a message is taken out of it by the other process. *)
Lemma message_sent {T : Type} `{LawfulCoder T} isValidName name dest (v : T) addr :
  in_range 16 name -> isValidName name = true -> in_range 64 dest -> encodable v ->
  0 < addr -> addr mod 8 = 0 -> addr + 16 + zlen (wire v 16) < 2 ^ 64 -> 16 + zlen (wire v 16) <= Decoder.maxReceived ->
  exists e0 e1 bytes d d',
    Encoder_new name dest = Ok e0 /\ encode v e0 = Ok e1 /\ message_bytes e1 = Ok bytes /\
    Decoder.create isValidName addr bytes [] = Ok (Some d) /\ decode d = Ok (Some v, d').
Proof.
  intros Hname Hvalid Hdest Hv Ha Ha8 Htop Hsmall.
  destruct (Encoder_new_repr name dest) as (e0 & E0 & R0 & _).
  destruct (encode_wire v Hv e0 _ R0) as (e1 & E1 & R1 & _).
  { rewrite zlen_header. unfold maxMessage, Decoder.maxReceived in *. lia. }
  rewrite zlen_header in R1. pose proof (message_receivable name dest v addr Hv Ha Ha8 Htop Hsmall) as Hrecv.
  destruct (create_decode isValidName name dest v addr [] Hname Hvalid Hdest Hv Hrecv) as [Hc Hd].
  eexists e0, e1, _, _, _. split_and!; [done | done | by apply enc_repr_bytes | exact Hc | exact Hd].
Qed.

(** A header map of at most [maxReceived] encoded bytes that one process puts into a message is
    the one the other process takes out of it, down to the representation of the strings; a loop
    over it there ends and sees every header once, those of the table first, each under its
    name, in the order of the sender. *)
Theorem header_map_transfers isValidName name dest (r : HeaderMapRep) addr :
  in_range 16 name -> isValidName name = true -> in_range 64 dest -> encodable r ->
  0 < addr -> addr mod 8 = 0 -> addr + 16 + zlen (wire r 16) < 2 ^ 64 -> 16 + zlen (wire r 16) <= Decoder.maxReceived ->
  exists e0 e1 bytes d d' r',
    Encoder_new name dest = Ok e0 /\ encode r e0 = Ok e1 /\ message_bytes e1 = Ok bytes /\
    Decoder.create isValidName addr bytes [] = Ok (Some d) /\ decode d = Ok (Some r', d') /\ r' = r /\
    forall fuel, (length (r_commonHeaders r) + length (r_uncommonHeaders r) < fuel)%nat ->
      for_each (map_of r') fuel =
      Ok (((fun h => mkKeyValue (Some (string_of (c_key h))) (Some (c_key h)) (text (c_value h))) <$> r_commonHeaders r) ++
          ((fun h => mkKeyValue (text (u_key h)) None (text (u_value h))) <$> r_uncommonHeaders r)).
Proof.
  intros. destruct (message_sent isValidName name dest r addr) as (e0 & e1 & bytes & d & d' & E0 & E1 & Eb & Ec & Ed); [done..|].
  exists e0, e1, bytes, d, d', r. split_and!; [done..|].
  intros fuel Hf. rewrite for_each_spec by (unfold map_of; cbn; by rewrite !length_fmap).
  unfold all_kv, map_of; cbn. by rewrite <- !list_fmap_compose.
Qed.

Definition sample_rep : HeaderMapRep :=
  mkHeaderMapRep [mkCommon H_Host (S8 (lit "a.b"))] [mkUncommon (S16 (lit "X-A")) SNull].

Lemma sample_rep_encodable : encodable sample_rep.
Proof.
  repeat first [split | constructor]; cbn; try done; unfold in_range, maxInternalLength, UINT32_MAX, INT_MAX; cbn; try lia.
Qed.

Lemma header_map_transfers_witness :
  exists e0 e1 bytes d d' r',
    Encoder_new 12 34 = Ok e0 /\ encode sample_rep e0 = Ok e1 /\ message_bytes e1 = Ok bytes /\
    Decoder.create (fun n => n =? 12) 4096 bytes [] = Ok (Some d) /\ decode d = Ok (Some r', d') /\ r' = sample_rep /\
    for_each (map_of r') 3 = Ok [mkKeyValue (Some (lit "Host")) (Some H_Host) (Some (lit "a.b")); mkKeyValue (Some (lit "X-A")) None None].
Proof.
  assert (zlen (wire sample_rep 16) = 48) as Hl by (vm_compute; reflexivity).
  destruct (header_map_transfers (fun n => n =? 12) 12 34 sample_rep 4096) as (e0 & e1 & bytes & d & d' & r' & H1 & H2 & H3 & H4 & H5 & H6 & H7);
    rewrite ?Hl; unfold Decoder.maxReceived, in_range; try lia; try reflexivity; [apply sample_rep_encodable|].
  exists e0, e1, bytes, d, d', r'. repeat (split; [assumption|]). rewrite H7 by (cbn; lia). reflexivity.
Defined.

End HeaderCoders.
