(* ===== verification/HttpParsers.v ===== *)
(** * HTTP parsers (network/HTTPParsers.cpp, network/HTTPParsers.h)

    The functions that check and take apart the values of HTTP headers, the
    parsers of request lines and header lines, and the lists of header names and
    methods of the fetch standard.  A function that moves a position returns the
    new position beside its result; what a function reports through references
    is a record.  [String::operator[]] gives 0 outside of the string
    ([characterAt]); a pointer into the data of a message is an offset, and
    reading outside of the data is [UB]. *)
From Stdlib Require Ascii String.
Import String.StringSyntax.
From S2P Require Import Prelude WtfString HttpNames HttpHeaders CmdFilters CmdTask.

Local Open Scope cf.

Module Parsers.
Import Str Names Headers.

(** ** Positions *)

(** A [while] loop that advances the position over characters. *)
Fixpoint skip_loop (fuel : nat) (str : String) (pos : Z) (predicate : Z -> bool) : res Z :=
  match fuel with
  | O => NoFuel
  | S fuel =>
      if pos <? length_ str then
        c ← characterAt str pos;
        if predicate c then skip_loop fuel str (u32 (pos + 1)) predicate else Ok pos
      else Ok pos
  end.

Definition enough (str : String) : nat := S (length (chars str)).

Definition skipWhile (str : String) (pos : Z) (predicate : Z -> bool) : res (bool * Z) :=
  pos' ← skip_loop (enough str) str pos predicate; Ok (negb (pos' =? pos), pos').

Definition skipWhiteSpace (str : String) (pos : Z) : res (bool * Z) :=
  '(_, pos) ← skipWhile str pos isWhitespace; Ok (pos <? length_ str, pos).

(** The characters of [token], without its terminator. *)
Fixpoint token_loop (str : String) (current : Z) (token : StringImpl) : res (option Z) :=
  match token with
  | [] => Ok (Some current)
  | t :: token =>
      if current <? length_ str then
        c ← characterAt str current;
        if toASCIILower c =? t then token_loop str (u32 (current + 1)) token else Ok None
      else Ok None
  end.

Definition skipToken (str : String) (pos : Z) (token : StringImpl) : res (bool * Z) :=
  r ← token_loop str pos token; match r with Some current => Ok (true, current) | None => Ok (false, pos) end.

Definition skipEquals (str : String) (pos : Z) : res (bool * Z) :=
  '(more, pos) ← skipWhiteSpace str pos;
  if negb more then Ok (false, pos) else
  c ← characterAt str pos;
  let pos := u32 (pos + 1) in
  if negb (c =? 61) then Ok (false, pos) else skipWhiteSpace str pos.

Definition skipValue (str : String) (pos : Z) : res (bool * Z) :=
  pos' ← skip_loop (enough str) str pos (fun c => negb ((c =? 32) || (c =? 9) || (c =? 59)));
  Ok (negb (pos' =? pos), pos').

(** ** Checks of values *)

Definition isASCIIAlphanumeric (c : Z) : bool := isASCIIDigit c || isASCIIAlpha c.

Definition isValidReasonPhrase (value : String) : bool :=
  forallb (fun c => negb ((c =? 0x7F) || negb (isLatin1 c) || ((c <? 0x20) && negb (c =? 9)))) (chars value).

Definition isValidHTTPHeaderValue (value : String) : res bool :=
  c ← characterAt value 0;
  if (c =? 32) || (c =? 9) then Ok false else
  c ← characterAt value (length_ value - 1);
  if (c =? 32) || (c =? 9) then Ok false else
  Ok (forallb (fun c => negb ((c =? 0) || (c =? 0x0A) || (c =? 0x0D))) (chars value)).

Definition isValidAcceptHeaderValue (value : String) : bool :=
  forallb (fun c =>
    isASCIIAlphanumeric c || (c =? 44) || (c =? 47) || (c =? 59) || (c =? 61) ||
    (negb ((c =? 0x7F) || ((c <? 0x20) && negb (c =? 9))) && negb (isDelimiter c))) (chars value).

Definition containsCORSUnsafeRequestHeaderBytes (value : String) : bool :=
  existsb (fun c =>
    ((c <? 0x20) && negb (c =? 9)) ||
    ((c =? 34) || (c =? 40) || (c =? 41) || (c =? 58) || (c =? 60) || (c =? 62) || (c =? 63)
     || (c =? 64) || (c =? 91) || (c =? 92) || (c =? 93) || (c =? 0x7B) || (c =? 123) || (c =? 125) || (c =? 0x7F))) (chars value).

Definition isValidLanguageHeaderValue (value : String) : bool :=
  forallb (fun c => isASCIIAlphanumeric c || (c =? 32) || (c =? 42) || (c =? 44) || (c =? 45) || (c =? 46) || (c =? 59) || (c =? 61)) (chars value).

Definition isValidHTTPToken (value : String) : bool :=
  if isEmpty value then false else forallb isTokenCharacter (chars value).

(** ** User agents *)

Definition skipCharacter_if (value : String) (pos : Z) (predicate : Z -> bool) : res (bool * Z) :=
  if pos <? length_ value then
    c ← characterAt value pos;
    if predicate c then Ok (true, u32 (pos + 1)) else Ok (false, pos)
  else Ok (false, pos).

Definition skipCharacter (value : String) (pos expected : Z) : res (bool * Z) := skipCharacter_if value pos (fun c => c =? expected).

Definition QuotedPairStartCharacter : Z := 92.
Definition CommentStartCharacter : Z := 40.
Definition CommentEndCharacter : Z := 41.

Definition skipQuotedPair (value : String) (pos : Z) : res (bool * Z) :=
  '(ok, pos) ← skipCharacter value pos QuotedPairStartCharacter;
  if negb ok then Ok (false, pos) else skipCharacter_if value pos isQuotedPairSecondOctet.

(** A comment, given what its [while] loop and its last line do. *)
Definition comment_with (loop : Z -> res (bool * Z)) (value : String) (pos : Z) : res (bool * Z) :=
  '(ok, pos) ← skipCharacter value pos CommentStartCharacter;
  if negb ok then Ok (false, pos) else loop pos.

Fixpoint comment_loop (fuel : nat) (value : String) (pos : Z) : res (bool * Z) :=
  match fuel with
  | O => NoFuel
  | S fuel =>
      let step := fun '(ok, pos) => if negb ok then Ok (false, pos) else comment_loop fuel value pos in
      if pos <? length_ value then
        c ← characterAt value pos;
        if c =? CommentEndCharacter then skipCharacter value pos CommentEndCharacter
        else if c =? CommentStartCharacter then r ← comment_with (comment_loop fuel value) value pos; step r
        else if c =? QuotedPairStartCharacter then r ← skipQuotedPair value pos; step r
        else r ← skipWhile value pos isCommentText; step r
      else skipCharacter value pos CommentEndCharacter
  end.

Definition skipComment (value : String) (pos : Z) : res (bool * Z) := comment_with (comment_loop (enough value) value) value pos.

Definition skipHTTPToken (value : String) (pos : Z) : res (bool * Z) := skipWhile value pos isTokenCharacter.

Definition skipUserAgentProduct (value : String) (pos : Z) : res (bool * Z) :=
  '(ok, pos) ← skipHTTPToken value pos;
  if negb ok then Ok (false, pos) else
  '(slash, pos) ← skipCharacter value pos 47;
  if (slash : bool) then skipHTTPToken value pos else Ok (true, pos).

Fixpoint user_agent_loop (fuel : nat) (value : String) (pos : Z) : res bool :=
  match fuel with
  | O => NoFuel
  | S fuel =>
      if pos <? length_ value then
        '(more, pos) ← skipWhiteSpace value pos;
        if negb more then Ok false else
        c ← characterAt value pos;
        '(ok, pos) ← (if c =? CommentStartCharacter then skipComment value pos else skipUserAgentProduct value pos);
        if negb ok then Ok false else user_agent_loop fuel value pos
      else Ok (pos =? length_ value)
  end.

Definition isValidUserAgentHeaderValue (value : String) : res bool :=
  '(ok, pos) ← skipUserAgentProduct value 0;
  if negb ok then Ok false else user_agent_loop (enough value) value pos.

(** ** Comparisons that ignore case (StringCommon.h) *)

Definition isASCIIAlphaCaselessEqual (inputCharacter expected : Z) : bool := toASCIILowerUnchecked inputCharacter =? expected.

(** [equalLettersIgnoringASCIICase] of two arrays of [length lowercaseLetters] characters. *)
Fixpoint equalLetters (characters lowercaseLetters : StringImpl) : res bool :=
  match lowercaseLetters with
  | [] => Ok true
  | t :: lowercaseLetters =>
      c ← or_ub (head characters);
      if isASCIIAlphaCaselessEqual c t then equalLetters (tail characters) lowercaseLetters else Ok false
  end.

Definition equalLettersIgnoringASCIICase (string : String) (lowercaseLetters : StringImpl) : res bool :=
  match string with
  | None => Ok false
  | Some l => if negb (zlen l =? zlen lowercaseLetters) then Ok false else equalLetters l lowercaseLetters
  end.

Definition startsWithLettersIgnoringASCIICase (string : String) (lowercaseLetters : StringImpl) : res bool :=
  match string with
  | None => Ok false
  | Some l =>
      if zlen lowercaseLetters =? 0 then Ok true else
      if zlen l <? zlen lowercaseLetters then Ok false else equalLetters l lowercaseLetters
  end.

(** The loop of [findIgnoringASCIICase] over the [delta + 1] places. *)
Fixpoint find_ignoring_loop (delta : nat) (source matchCharacters : StringImpl) (offset : Z) : res Z :=
  b ← equalIgnoringASCIICase_loop (drop (Z.to_nat offset) source) matchCharacters (length matchCharacters);
  if (b : bool) then Ok offset else
  match delta with O => Ok notFound | S delta => find_ignoring_loop delta source matchCharacters (offset + 1) end.

Definition findIgnoringASCIICase (source stringToFind : StringImpl) (startOffset : Z) : res Z :=
  if zlen stringToFind =? 0 then Ok (Z.min startOffset (zlen source)) else
  if zlen source <? startOffset then Ok notFound else
  let searchLength := zlen source - startOffset in
  if searchLength <? zlen stringToFind then Ok notFound else
  find_ignoring_loop (Z.to_nat (searchLength - zlen stringToFind)) source stringToFind startOffset.

Definition isHTTPSpace (character : Z) : bool :=
  (character <=? 32) && ((character =? 32) || (character =? 10) || (character =? 9) || (character =? 13)).

Definition stripLeadingAndTrailingHTTPSpaces (string : StringImpl) : res StringImpl := stripMatchedCharacters isHTTPSpace string.

(** ** Values of single headers *)

Section values.
Context `{ICU}.

Fixpoint filename_loop (pairs : list String) : res String :=
  match pairs with
  | [] => Ok None
  | keyValuePair :: pairs =>
      valueStartPos ← find_uchar keyValuePair 61 0;
      if valueStartPos =? notFound then filename_loop pairs else
      key ← substring keyValuePair 0 valueStartPos; key ← stripWhiteSpace key;
      if isEmpty key || negb (bool_decide (key = Some (lit "filename"))) then filename_loop pairs else
      value ← substring keyValuePair (valueStartPos + 1) MaxLength; value ← stripWhiteSpace value;
      c ← characterAt value 0;
      if c =? 34 then substring value 1 (u32 (length_ value - 2)) else Ok value
  end.

Definition filenameFromHTTPContentDisposition (value : String) : res String :=
  pairs ← split_uchar value 59; filename_loop pairs.

Definition extractMIMETypeFromMediaType (mediaType : String) : res String :=
  position ← skip_loop (enough mediaType) mediaType 0 (fun c => negb (negb (c =? 9) && negb (c =? 32)));
  if position =? length_ mediaType then Ok mediaType else
  typeEnd ← skip_loop (enough mediaType) mediaType position (fun c => negb ((c =? 44) || (c =? 9) || (c =? 32) || (c =? 59)));
  substring mediaType position (typeEnd - position).

(** [while (pos != length && predicate(mediaType[at]))], for a position that is not at the end. *)
Fixpoint charset_end (fuel : nat) (mediaType : String) (endpos : Z) : res Z :=
  match fuel with
  | O => NoFuel
  | S fuel =>
      c ← characterAt mediaType endpos;
      if (32 <? c) && negb (c =? 34) && negb (c =? 39) && negb (c =? 59) then charset_end fuel mediaType (u32 (endpos + 1)) else Ok endpos
  end.

Fixpoint charset_loop (fuel : nat) (mediaType : String) (pos start : Z) : res (Z * Z) :=
  match fuel with
  | O => NoFuel
  | S fuel =>
      if pos <? length_ mediaType then
        pos ← findIgnoringASCIICase (chars mediaType) (lit "charset") (u32 pos);
        if (pos =? notFound) || (pos =? 0) then Ok (start, 0) else
        before ← characterAt mediaType (pos - 1);
        let pos := pos + 7 in
        if (32 <? before) && negb (before =? 59) then charset_loop fuel mediaType pos start else
        pos ← skip_loop (enough mediaType) mediaType pos (fun c => c <=? 32);
        c ← characterAt mediaType pos;
        let pos := pos + 1 in
        if negb (c =? 61) then charset_loop fuel mediaType pos start else
        pos ← skip_loop (enough mediaType) mediaType pos (fun c => (c <=? 32) || (c =? 34) || (c =? 39));
        endpos ← (if pos =? length_ mediaType then Ok pos else charset_end (enough mediaType) mediaType pos);
        Ok (pos, u32 (endpos - pos))
      else Ok (start, 0)
  end.

Definition findCharsetInMediaType (mediaType : String) (start : Z) : res (Z * Z) := charset_loop (enough mediaType) mediaType start start.

Definition extractCharsetFromMediaType (mediaType : String) : res String :=
  '(pos, len) ← findCharsetInMediaType mediaType 0; substring mediaType pos len.

Inductive XSSProtectionDisposition := XSS_Invalid | XSS_Disabled | XSS_Enabled | XSS_BlockEnabled.

(** What the parser reports: references keep their value until they are set. *)
Record XSSResult := mkXSS { disposition : XSSProtectionDisposition; failureReason : String; failurePosition : Z; reportURL : String }.

Fixpoint xss_loop (fuel : nat) (header : String) (pos : Z) (result : XSSProtectionDisposition) (modeDirectiveSeen reportDirectiveSeen : bool)
    (reason : String) (position : Z) (url : String) : res XSSResult :=
  match fuel with
  | O => NoFuel
  | S fuel =>
      let fails why pos := Ok (mkXSS XSS_Invalid (Some why) pos url) in
      '(more, pos) ← skipWhiteSpace header pos;
      if negb more then Ok (mkXSS result reason position url) else
      c ← characterAt header pos;
      let pos := u32 (pos + 1) in
      if negb (c =? 59) then fails (lit "expected semicolon") pos else
      '(more, pos) ← skipWhiteSpace header pos;
      if negb more then Ok (mkXSS result reason position url) else
      '(isMode, pos) ← skipToken header pos (lit "mode");
      if (isMode : bool) then
        if modeDirectiveSeen then fails (lit "duplicate mode directive") pos else
        '(ok, pos) ← skipEquals header pos;
        if negb ok then fails (lit "expected equals sign") pos else
        '(ok, pos) ← skipToken header pos (lit "block");
        if negb ok then fails (lit "invalid mode directive") pos else
        xss_loop fuel header pos XSS_BlockEnabled true reportDirectiveSeen reason position url
      else
      '(isReport, pos) ← skipToken header pos (lit "report");
      if (isReport : bool) then
        if reportDirectiveSeen then fails (lit "duplicate report directive") pos else
        '(ok, pos) ← skipEquals header pos;
        if negb ok then fails (lit "expected equals sign") pos else
        let startPos := pos in
        '(ok, pos) ← skipValue header pos;
        if negb ok then fails (lit "invalid report directive") pos else
        url ← substring header startPos (pos - startPos);
        xss_loop fuel header pos result modeDirectiveSeen true reason startPos url
      else fails (lit "unrecognized directive") pos
  end.

Definition parseXSSProtectionHeader (header : String) (reason : String) (position : Z) (url : String) : res XSSResult :=
  '(more, pos) ← skipWhiteSpace header 0;
  if negb more then Ok (mkXSS XSS_Enabled reason position url) else
  c ← characterAt header pos;
  if c =? 48 then Ok (mkXSS XSS_Disabled reason position url) else
  if negb (c =? 49) then Ok (mkXSS XSS_Invalid (Some (lit "expected 0 or 1")) position url) else
  xss_loop (enough header) header (u32 (pos + 1)) XSS_Enabled false false reason position url.

Inductive ContentTypeOptionsDisposition := ContentTypeOptionsNone | ContentTypeOptionsNosniff.

Definition parseContentTypeOptionsHeader (header : StringImpl) : res ContentTypeOptionsDisposition :=
  comma ← find_char header 44 0;
  leftToken ← substring_impl header 0 (u32 comma);
  stripped ← stripLeadingAndTrailingHTTPSpaces leftToken;
  nosniff ← equalLettersIgnoringASCIICase (Some stripped) (lit "nosniff");
  Ok (if (nosniff : bool) then ContentTypeOptionsNosniff else ContentTypeOptionsNone).

Definition extractReasonPhraseFromHTTPStatusLine (statusLine : StringImpl) : res StringImpl :=
  spacePos ← find_char statusLine 32 0;
  spacePos ← find_char statusLine 32 (u32 (spacePos + 1));
  if spacePos =? notFound then Ok [] else substring_impl statusLine (u32 (spacePos + 1)) UINT32_MAX.

Inductive XFrameOptionsDisposition :=
  XFrameOptionsNone | XFrameOptionsDeny | XFrameOptionsSameOrigin | XFrameOptionsAllowAll | XFrameOptionsInvalid | XFrameOptionsConflict.
#[global] Instance XFrameOptionsDisposition_eq_dec : EqDecision XFrameOptionsDisposition.
Proof. solve_decision. Defined.

Definition frame_option (currentHeader : String) : res XFrameOptionsDisposition :=
  deny ← equalLettersIgnoringASCIICase currentHeader (lit "deny");
  if (deny : bool) then Ok XFrameOptionsDeny else
  same ← equalLettersIgnoringASCIICase currentHeader (lit "sameorigin");
  if (same : bool) then Ok XFrameOptionsSameOrigin else
  allow ← equalLettersIgnoringASCIICase currentHeader (lit "allowall");
  if (allow : bool) then Ok XFrameOptionsAllowAll else Ok XFrameOptionsInvalid.

Fixpoint frame_loop (headers : list String) (result : XFrameOptionsDisposition) : res XFrameOptionsDisposition :=
  match headers with
  | [] => Ok result
  | currentHeader :: headers =>
      currentHeader ← stripWhiteSpace currentHeader;
      currentValue ← frame_option currentHeader;
      if decide (result = XFrameOptionsNone) then frame_loop headers currentValue
      else if negb (bool_decide (result = currentValue)) then Ok XFrameOptionsConflict
      else frame_loop headers result
  end.

Definition parseXFrameOptionsHeader (header : String) : res XFrameOptionsDisposition :=
  if isEmpty header then Ok XFrameOptionsNone else headers ← split_uchar header 44; frame_loop headers XFrameOptionsNone.

Definition toInt64Strict (s : String) : res (option Z) := match s with None => Ok None | Some l => toIntegralType 64 l 10 end.

Record RangeResult := mkRange { accepted : bool; rangeOffset : Z; rangeEnd : Z; rangeSuffixLength : Z }.

Definition parseRange (range : String) : res RangeResult :=
  let refused := mkRange false (-1) (-1) (-1) in
  bytes ← startsWithLettersIgnoringASCIICase range (lit "bytes=");
  if negb bytes then Ok refused else
  byteRange ← substring range 6 MaxLength;
  index ← find_uchar byteRange 45 0;
  let index := i32 index in
  if index =? -1 then Ok refused else
  if index =? 0 then
    suffix ← substring byteRange (index + 1) MaxLength; suffix ← stripWhiteSpace suffix;
    value ← toInt64Strict suffix;
    Ok (mkRange true (-1) (-1) (default (-1) value))
  else
  first ← substring byteRange 0 index; first ← stripWhiteSpace first;
  firstBytePos ← toInt64Strict first;
  match firstBytePos with
  | None => Ok refused
  | Some firstBytePos =>
      last ← substring byteRange (index + 1) MaxLength; last ← stripWhiteSpace last;
      lastBytePos ← (if negb (isEmpty last) then toInt64Strict last else Ok (Some (-1)));
      match lastBytePos with
      | None => Ok refused
      | Some lastBytePos =>
          if (firstBytePos <? 0) || negb ((lastBytePos =? -1) || (firstBytePos <=? lastBytePos)) then Ok refused
          else Ok (mkRange true firstBytePos lastBytePos (-1))
      end
  end.

Inductive CrossOriginResourcePolicy := CORP_None | CORP_SameOrigin | CORP_SameSite | CORP_Invalid.

Definition parseCrossOriginResourcePolicyHeader (header : StringImpl) : res CrossOriginResourcePolicy :=
  strippedHeader ← stripLeadingAndTrailingHTTPSpaces header;
  if zlen strippedHeader =? 0 then Ok CORP_None
  else if bool_decide (strippedHeader = lit "same-origin") then Ok CORP_SameOrigin
  else if bool_decide (strippedHeader = lit "same-site") then Ok CORP_SameSite
  else Ok CORP_Invalid.

End values.

(** ** Lists of tokens *)

(** The elements of a hash set, no two of which are the same to its hash type. *)
Definition set_add (same : StringImpl -> StringImpl -> bool) (t : StringImpl) (set : list StringImpl) : list StringImpl :=
  if existsb (same t) set then set else set ++ [t].

Section allow_list.
Context (same : StringImpl -> StringImpl -> bool).

Definition addToAccessControlAllowList (string : String) (start end_ : Z) (set : list StringImpl) : res (bool * list StringImpl) :=
  match string with
  | None => Ok (true, set)
  | Some impl =>
      start ← strip_start (S (length impl)) isHTTPSpace impl start end_;
      if end_ <? start then Ok (true, set) else
      end_ ← strip_end (S (length impl)) isHTTPSpace impl end_;
      token ← substring string start (end_ - start + 1);
      if negb (isValidHTTPToken token) then Ok (false, set) else Ok (true, set_add same (chars token) set)
  end.

Fixpoint allow_list_loop (fuel : nat) (string : String) (start : Z) (set : list StringImpl) : res (option (list StringImpl)) :=
  match fuel with
  | O => NoFuel
  | S fuel =>
      end_ ← find_uchar string 44 start;
      if negb (end_ =? notFound) then
        '(ok, set) ← (if negb (start =? end_) then addToAccessControlAllowList string start (u32 (end_ - 1)) set else Ok (true, set));
        if negb ok then Ok None else allow_list_loop fuel string (u32 (end_ + 1)) set
      else if negb (start =? length_ string) then
        '(ok, set) ← addToAccessControlAllowList string start (u32 (length_ string - 1)) set;
        if negb ok then Ok None else Ok (Some set)
      else Ok (Some set)
  end.

Definition parseAccessControlAllowList (string : String) : res (option (list StringImpl)) := allow_list_loop (enough string) string 0 [].
End allow_list.

(** ** Messages *)

Definition maxInputSampleSize : Z := 128.
Definition horizontalEllipsis : Z := 0x2026.

(** [String(characters, length)]; the length is a 32-bit number. *)
Definition String_from (data : list Z) (offset length' : Z) : res String :=
  if MaxLength <? u32 length' then Crash else l ← mem_read data offset (u32 length'); Ok (Some l).

Definition trimInputSample (data : list Z) (offset length' : Z) : res StringImpl :=
  s ← String_from data offset (Z.min length' maxInputSampleSize);
  Ok (if maxInputSampleSize <? length' then chars s ++ [horizontalEllipsis] else chars s).

Inductive HTTPVersion := Unknown | HTTP_1_0 | HTTP_1_1.

(** The loop over the line: the offset of its end, and of the first two spaces. *)
Fixpoint request_line_loop (data : list Z) (consumedLength : Z) (space1 space2 : option Z) : Z * option Z * option Z :=
  match data with
  | [] => (consumedLength, space1, space2)
  | c :: data =>
      if c =? 32 then
        match space1, space2 with
        | None, _ => request_line_loop data (consumedLength + 1) (Some consumedLength) space2
        | Some _, None => request_line_loop data (consumedLength + 1) space1 (Some consumedLength)
        | Some _, Some _ => request_line_loop data (consumedLength + 1) space1 space2
        end
      else if c =? 10 then (consumedLength, space1, space2)
      else request_line_loop data (consumedLength + 1) space1 space2
  end.

Record RequestLine := mkRequestLine { line_consumed : Z; line_failure : String; method : String; url : String; httpVersion : HTTPVersion }.

Definition version_of (httpVersionString : String) : res HTTPVersion :=
  prefix ← startsWith (chars httpVersionString) (lit "HTTP/1.");
  if negb (length_ httpVersionString =? 8) || negb prefix then Ok Unknown else
  c ← characterAt httpVersionString 7;
  Ok (if c =? 48 then HTTP_1_0 else if c =? 49 then HTTP_1_1 else Unknown).

(** [data] are the [length] bytes at the pointer. *)
Definition parseHTTPRequestLine (data : list Z) (failureReason : String) : res RequestLine :=
  let fails why := Ok (mkRequestLine 0 (Some why) None None Unknown) in
  let '(p, space1, space2) := request_line_loop data 0 None None in
  if p =? zlen data then fails (lit "Incomplete Request Line") else
  match space1, space2 with
  | Some space1, Some space2 =>
      let end_ := p + 1 in
      c ← or_ub data.[end_ - 2];
      if negb (c =? 13) then fails (lit "Request line does not end with CRLF") else
      method ← String_from data 0 space1;
      url ← String_from data (space1 + 1) (space2 - space1 - 1);
      httpVersionString ← String_from data (space2 + 1) (end_ - space2 - 3);
      version ← version_of httpVersionString;
      Ok (mkRequestLine end_ failureReason method url version)
  | _, _ => fails (lit "Request Line does not appear to contain: <Method> <Url> <HTTPVersion>.")
  end.

Definition isValidHeaderNameCharacter (c : Z) : bool :=
  isASCIIAlphanumeric c || existsb (Z.eqb c) [33; 35; 36; 37; 38; 39; 42; 43; 45; 46; 94; 95; 96; 124; 126].

Section header_line.
Context `{Filters.Unicode} `{Task.Utf16}.

Record HeaderLine := mkHeaderLine { header_consumed : Z; header_failure : String; nameStr : String; valueStr : String }.

(** What follows the name: where [p] is, or the result of the function. *)
Inductive name_exit := NameEnd (p : Z) | NameReturn (r : HeaderLine).

(** The loop over the name.  [name] is the vector; the view of the name starts at [namePtr]. *)
Fixpoint name_loop (fuel : nat) (data : list Z) (p : Z) (name : list Z) (namePtr : option Z) (failureReason : String) : res (name_exit * list Z * option Z) :=
  match fuel with
  | O => NoFuel
  | S fuel =>
      if p <? zlen data then
        let fails why := Ok (NameReturn (mkHeaderLine 0 (Some why) None None), name, namePtr) in
        c ← or_ub data.[p];
        if c =? 13 then
          if zlen name =? 0 then
            next ← (if p + 1 <? zlen data then or_ub data.[p + 1] else Ok 0);
            if (p + 1 <? zlen data) && (next =? 10) then Ok (NameReturn (mkHeaderLine (p + 2) failureReason None None), name, namePtr)
            else sample ← trimInputSample data p (zlen data - p); fails (lit "CR doesn't follow LF in header name at " ++ sample)
          else sample ← trimInputSample name 0 (zlen name); fails (lit "Unexpected CR in header name at " ++ sample)
        else if c =? 10 then sample ← trimInputSample name 0 (zlen name); fails (lit "Unexpected LF in header name at " ++ sample)
        else if c =? 58 then Ok (NameEnd (p + 1), name, namePtr)
        else if negb (isValidHeaderNameCharacter c) then
          if zlen name <? 1 then fails (lit "Unexpected start character in header name")
          else sample ← trimInputSample name 0 (zlen name); fails (lit "Unexpected character in header name at " ++ sample)
        else name_loop fuel data (p + 1) (name ++ [c]) (match namePtr with None => Some p | _ => namePtr end) failureReason
      else Ok (NameEnd p, name, namePtr)
  end.

Fixpoint spaces_loop (fuel : nat) (data : list Z) (p : Z) : res Z :=
  match fuel with
  | O => NoFuel
  | S fuel => if p <? zlen data then c ← or_ub data.[p]; if c =? 0x20 then spaces_loop fuel data (p + 1) else Ok p else Ok p
  end.

(** The loop over the value: none when a line feed ends the parser. *)
Fixpoint value_loop (fuel : nat) (data : list Z) (p : Z) (value : list Z) (strict : bool) : res (option Z * list Z) :=
  match fuel with
  | O => NoFuel
  | S fuel =>
      if p <? zlen data then
        c ← or_ub data.[p];
        if (c =? 10) && strict then Ok (None, value) else
        let value := if (c =? 13) || (c =? 10) then value else value ++ [c] in
        if (c =? 13) || (negb strict && (c =? 10)) then Ok (Some (p + 1), value) else value_loop fuel data (p + 1) value strict
      else Ok (Some p, value)
  end.

(** [String::fromUTF8] of the elements of a vector, whose pointer is null before the first append. *)
Definition fromUTF8_vector (value : list Z) : res String := if zlen value =? 0 then Ok None else Task.fromUTF8 value.

Definition parseHTTPHeader (data : list Z) (failureReason : String) (strict : bool) : res HeaderLine :=
  '(exit, name, namePtr) ← name_loop (S (length data)) data 0 [] None failureReason;
  match exit with
  | NameReturn r => Ok r
  | NameEnd p =>
      nameStr ← match namePtr with None => Ok None | Some n => l ← mem_read data n (zlen name); Ok (Some l) end;
      p ← spaces_loop (S (length data)) data p;
      '(after, value) ← value_loop (S (length data)) data p [] strict;
      match after with
      | None => sample ← trimInputSample value 0 (zlen value); Ok (mkHeaderLine 0 (Some (lit "Unexpected LF in header value at " ++ sample)) nameStr None)
      | Some p =>
          c ← (if p <? zlen data then or_ub data.[p] else Ok 0);
          if (zlen data <=? p) || (strict && negb (c =? 10)) then
            sample ← trimInputSample data p (zlen data - p);
            Ok (mkHeaderLine 0 (Some (lit "CR doesn't follow LF after header value at " ++ sample)) nameStr None)
          else
          valueStr ← fromUTF8_vector value;
          if isNull valueStr then Ok (mkHeaderLine 0 (Some (lit "Invalid UTF-8 sequence in header value")) nameStr valueStr)
          else Ok (mkHeaderLine p failureReason nameStr valueStr)
      end
  end.
End header_line.

(** The vector that the body is copied to, and the length. *)
Definition parseHTTPRequestBody (data : list Z) : list Z * Z := (data, zlen data).

(** ** Names and methods of the fetch standard *)

Definition isForbiddenHeaderName (name : String) : res bool :=
  headerName ← find_name name;
  match headerName with
  | Some (H_AcceptCharset | H_AcceptEncoding | H_AccessControlRequestHeaders | H_AccessControlRequestMethod | H_Connection | H_ContentLength
         | H_Cookie | H_Cookie2 | H_Date | H_DNT | H_Expect | H_Host | H_KeepAlive | H_Origin | H_Referer | H_TE | H_Trailer
         | H_TransferEncoding | H_Upgrade | H_Via) => Ok true
  | _ =>
      sec ← startsWithLettersIgnoringASCIICase name (lit "sec-");
      if (sec : bool) then Ok true else startsWithLettersIgnoringASCIICase name (lit "proxy-")
  end.

Definition isNoCORSSafelistedRequestHeaderName (name : String) : res bool :=
  headerName ← find_name name;
  Ok match headerName with Some (H_Accept | H_AcceptLanguage | H_ContentLanguage | H_ContentType) => true | _ => false end.

Definition isPriviledgedNoCORSRequestHeaderName (name : String) : res bool := equalLettersIgnoringASCIICase name (lit "range").

Definition isForbiddenResponseHeaderName (name : String) : res bool :=
  b ← equalLettersIgnoringASCIICase name (lit "set-cookie");
  if (b : bool) then Ok true else equalLettersIgnoringASCIICase name (lit "set-cookie2").

Definition isForbiddenMethod (name : String) : res bool :=
  b ← equalLettersIgnoringASCIICase name (lit "connect");
  if (b : bool) then Ok true else
  b ← equalLettersIgnoringASCIICase name (lit "trace");
  if (b : bool) then Ok true else equalLettersIgnoringASCIICase name (lit "track").

(** [HTTPHeaderSet::contains]: the hash type of the set ignores case. *)
Fixpoint header_set_contains (set : list StringImpl) (name : StringImpl) : res bool :=
  match set with
  | [] => Ok false
  | x :: set => b ← equalIgnoringASCIICase x name; if (b : bool) then Ok true else header_set_contains set name
  end.

Definition isCrossOriginSafeHeader (name : HTTPHeaderName) (accessControlExposeHeaderSet : list StringImpl) : res bool :=
  match name with
  | H_CacheControl | H_ContentLanguage | H_ContentLength | H_ContentType | H_Expires | H_LastModified | H_Pragma | H_Accept => Ok true
  | H_SetCookie | H_SetCookie2 => Ok false
  | _ => s ← httpHeaderNameString name; header_set_contains accessControlExposeHeaderSet s
  end.

Definition isCrossOriginSafeHeader_string (name : StringImpl) (accessControlExposeHeaderSet : list StringImpl) : res bool :=
  header_set_contains accessControlExposeHeaderSet name.

Fixpoint method_loop (methods : list StringImpl) (method : String) : res String :=
  match methods with
  | [] => Ok method
  | value :: methods =>
      b ← equalIgnoringASCIICase_ method value;
      if (b : bool) then Ok (if bool_decide (method = Some value) then method else Some value) else method_loop methods method
  end.

Definition normalizeHTTPMethod (method : String) : res String :=
  method_loop [lit "DELETE"; lit "GET"; lit "HEAD"; lit "OPTIONS"; lit "POST"; lit "PUT"] method.

Fixpoint is_method (methods : list StringImpl) (method : String) : res bool :=
  match methods with
  | [] => Ok false
  | value :: methods => b ← equalIgnoringASCIICase_ method value; if (b : bool) then Ok true else is_method methods method
  end.

Definition isSafeMethod (method : String) : res bool := is_method [lit "GET"; lit "HEAD"; lit "OPTIONS"; lit "TRACE"] method.

End Parsers.
