(* ===== verification/HttpContentType.v ===== *)
(** * Content types (network/ParsedContentType.cpp, network/ParsedContentType.h)

    The parser of media types with parameters in its two modes, the text that is
    made of a parsed type, and the checks of request headers in HTTPParsers.cpp
    that use it.  A [StringView] is null or its characters; reading past the end
    of a view is [UB].  A [StringBuilder] is the text it holds, which is no longer
    than a string that exists already where a length could be too large. *)
From Stdlib Require Ascii String.
Import String.StringSyntax.
From stdpp Require Import gmap.
From S2P Require Import Prelude WtfString HttpNames HttpHeaders HttpParsers.

Local Open Scope cf.

Module ContentType.
Import Str Names Parsers.

Inductive Mode := Rfc2045 | MimeSniff.
#[global] Instance Mode_eq_dec : EqDecision Mode.
Proof. solve_decision. Defined.

(** ** Characters *)

Definition isQuotedStringTokenCharacter (c : Z) : bool :=
  ((32 <=? c) && (c <=? 126)) || ((0x80 <=? c) && (c <=? 0xFF)) || (c =? 9).

Definition isTokenCharacter (c : Z) : bool :=
  isASCII c && (32 <? c) && negb (c =? 34) && negb (c =? 40) && negb (c =? 41) && negb (c =? 44) && negb (c =? 47)
  && ((c <? 58) || (64 <? c)) && ((c <? 91) || (93 <? c)).

Definition isNotQuoteOrBackslash (ch : Z) : bool := negb (ch =? 34) && negb (ch =? 92).
Definition isNotForwardSlash (ch : Z) : bool := negb (ch =? 47).
Definition isNotSemicolon (ch : Z) : bool := negb (ch =? 59).
Definition isNotSemicolonOrEqualSign (ch : Z) : bool := negb (ch =? 59) && negb (ch =? 61).
Definition containsNewline (ch : Z) : bool := (ch =? 13) || (ch =? 10).

(** ** Parts of the input *)

(** [while (index < length && condition(input[index])) ++index] *)
Fixpoint scan (fuel : nat) (input : StringImpl) (index : Z) (condition : Z -> bool) : res Z :=
  match fuel with
  | O => NoFuel
  | S fuel =>
      if index <? zlen input then
        c ← or_ub input.[index]; if condition c then scan fuel input (u32 (index + 1)) condition else Ok index
      else Ok index
  end.

Definition skipSpaces (input : StringImpl) (startIndex : Z) : res Z := scan (S (length input)) input startIndex isHTTPSpace.

(** [while (input[tokenEnd - 1] == ' ') --tokenEnd] *)
Fixpoint trailing_loop (fuel : nat) (input : StringImpl) (tokenEnd : Z) : res Z :=
  match fuel with
  | O => NoFuel
  | S fuel => c ← or_ub input.[u32 (tokenEnd - 1)]; if c =? 32 then trailing_loop fuel input (u32 (tokenEnd - 1)) else Ok tokenEnd
  end.

(** The view and the new index. *)
Definition parseToken (input : StringImpl) (startIndex : Z) (characterMeetsCondition : Z -> bool) (mode : Mode) (skipTrailingWhitespace : bool)
    : res (option StringImpl * Z) :=
  let tokenStart := startIndex in
  if zlen input <=? startIndex then Ok (None, startIndex) else
  tokenEnd ← scan (S (length input)) input startIndex (fun c => characterMeetsCondition c && negb (bool_decide (mode = Rfc2045) && negb (isTokenCharacter c)));
  if tokenEnd =? tokenStart then Ok (None, tokenEnd) else
  tokenEnd ← (if skipTrailingWhitespace then trailing_loop (S (length input)) input tokenEnd else Ok tokenEnd);
  token ← substring_impl input tokenStart (u32 (tokenEnd - tokenStart));
  Ok (Some token, tokenEnd).

Fixpoint quoted_loop (fuel : nat) (input : StringImpl) (position : Z) (builder : StringImpl) : res (StringImpl * Z) :=
  match fuel with
  | O => NoFuel
  | S fuel =>
      let positionStart := position in
      '(_, position) ← parseToken input position isNotQuoteOrBackslash MimeSniff false;
      part ← substring_impl input positionStart (u32 (position - positionStart));
      let builder := builder ++ part in
      if zlen input <=? position then Ok (builder, position) else
      quoteOrBackslash ← or_ub input.[position];
      let position := u32 (position + 1) in
      if quoteOrBackslash =? 92 then
        if zlen input <=? position then Ok (builder ++ [quoteOrBackslash], position) else
        c ← or_ub input.[position]; quoted_loop fuel input (u32 (position + 1)) (builder ++ [c])
      else Ok (builder, position)
  end.

Definition collectHTTPQuotedString (input : StringImpl) (startIndex : Z) : res (StringImpl * Z) :=
  quoted_loop (S (length input)) input (u32 (startIndex + 1)) [].

Definition containsNonTokenCharacters (input : StringImpl) (mode : Mode) : bool :=
  if decide (mode = MimeSniff) then negb (isValidHTTPToken (Some input)) else existsb (fun c => negb (isTokenCharacter c)) input.

(** The loop over a quoted string; none where the end of the input comes first.  The character
    is stored in a [char], which keeps eight bits of it. *)
Fixpoint quoted_string_loop (fuel : nat) (input : StringImpl) (quotedStringEnd : Z) (lastCharacterWasBackslash : bool) : res (option Z * Z) :=
  match fuel with
  | O => NoFuel
  | S fuel =>
      c ← or_ub input.[quotedStringEnd];
      let currentCharacter := u8 c in
      let quotedStringEnd := u32 (quotedStringEnd + 1) in
      if negb (currentCharacter =? 34) || lastCharacterWasBackslash then
        if zlen input <=? quotedStringEnd then Ok (None, quotedStringEnd) else
        if (currentCharacter =? 92) && negb lastCharacterWasBackslash then quoted_string_loop fuel input quotedStringEnd true
        else quoted_string_loop fuel input quotedStringEnd false
      else Ok (Some quotedStringEnd, quotedStringEnd)
  end.

Definition parseQuotedString (input : StringImpl) (startIndex : Z) : res (option StringImpl * Z) :=
  let quotedStringStart := u32 (startIndex + 1) in
  if zlen input <=? startIndex then Ok (None, startIndex) else
  c ← or_ub input.[startIndex];
  let quotedStringEnd := u32 (startIndex + 1) in
  if negb (c =? 34) || (zlen input <=? quotedStringEnd) then Ok (None, quotedStringEnd) else
  '(closed, quotedStringEnd) ← quoted_string_loop (S (length input)) input quotedStringEnd false;
  match closed with
  | None => Ok (None, quotedStringEnd)
  | Some _ =>
      c ← or_ub input.[u32 (quotedStringEnd - 1)];
      let quotedStringEnd := if c =? 34 then u32 (quotedStringEnd + 1) else quotedStringEnd in
      view ← substring_impl input quotedStringStart (u32 (quotedStringEnd - quotedStringStart));
      Ok (Some view, quotedStringEnd)
  end.

(** ** Parsed types *)

Record ParsedContentType := {
  m_contentType : String;
  m_parameterValues : gmap StringImpl String;
  m_parameterNames : list StringImpl;
  m_mimeType : String }.

Definition ParsedContentType_new (contentType : String) : ParsedContentType :=
  {| m_contentType := contentType; m_parameterValues := ∅; m_parameterNames := []; m_mimeType := None |}.

Section parser.
Context `{ICU}.

Definition setContentType (t : ParsedContentType) (contentRange : StringImpl) (mode : Mode) : res ParsedContentType :=
  mimeType ← (if decide (mode = MimeSniff) then s ← stripLeadingAndTrailingHTTPSpaces contentRange; Ok (convertToASCIILowercase (Some s))
              else stripWhiteSpace (Some contentRange));
  Ok {| m_contentType := m_contentType t; m_parameterValues := m_parameterValues t; m_parameterNames := m_parameterNames t; m_mimeType := mimeType |}.

Definition containsNonQuoteStringTokenCharacters (input : StringImpl) : bool := existsb (fun c => negb (isQuotedStringTokenCharacter c)) input.

Definition setContentTypeParameter (t : ParsedContentType) (keyName keyValue : StringImpl) (mode : Mode) : ParsedContentType :=
  let store name :=
    {| m_contentType := m_contentType t; m_parameterValues := <[name := Some keyValue]> (m_parameterValues t);
       m_parameterNames := m_parameterNames t ++ [name]; m_mimeType := m_mimeType t |} in
  if decide (mode = MimeSniff) then
    if bool_decide (is_Some (m_parameterValues t !! keyName)) || negb (isValidHTTPToken (Some keyName)) || containsNonQuoteStringTokenCharacters keyValue
    then t
    else store (convertToASCIILowercase_impl keyName)
  else store keyName.

(** The value of a parameter, none for a null string, and the index after it. *)
Definition parameter_value (input : StringImpl) (index : Z) (mode : Mode) : res (option StringImpl * Z) :=
  c ← (if index <? zlen input then or_ub input.[index] else Ok 0);
  if (index <? zlen input) && (c =? 34) then
    if decide (mode = MimeSniff) then
      '(value, index) ← collectHTTPQuotedString input index;
      '(_, index) ← parseToken input index isNotSemicolon mode false;
      Ok (Some value, index)
    else parseQuotedString input index
  else parseToken input index isNotSemicolon mode (bool_decide (mode = MimeSniff)).

(** The [while] loop over the parameters: none is [return false]. *)
Fixpoint parameters_loop (fuel : nat) (t : ParsedContentType) (input : StringImpl) (index : Z) (mode : Mode) : res (option ParsedContentType) :=
  match fuel with
  | O => NoFuel
  | S fuel =>
      let contentTypeLength := zlen input in
      let from_value keyRange index :=
        '(value, index) ← parameter_value input index mode;
        match value with
        | None => if decide (mode = MimeSniff) then parameters_loop fuel t input index mode else Ok None
        | Some parameterValue =>
            c ← (if index <? contentTypeLength then or_ub input.[index] else Ok 0);
            if bool_decide (mode = Rfc2045) && (index <? contentTypeLength) && negb (c =? 59) then Ok None else
            let index := if bool_decide (mode = Rfc2045) && (index <? contentTypeLength) then u32 (index + 1) else index in
            let t := match keyRange with None => t | Some key => setContentTypeParameter t key parameterValue mode end in
            if contentTypeLength <=? index then Ok (Some t) else parameters_loop fuel t input index mode
        end in
      index ← skipSpaces input index;
      '(keyRange, index) ← parseToken input index isNotSemicolonOrEqualSign mode false;
      match mode with
      | Rfc2045 =>
          if isNull keyRange || (contentTypeLength <=? index) then Ok None else
          c ← or_ub input.[index];
          if negb (c =? 61) then Ok None else from_value keyRange (u32 (index + 1))
      | MimeSniff =>
          if contentTypeLength <=? index then Ok (Some t) else
          c ← or_ub input.[index];
          if negb (c =? 61) && negb (c =? 59) then Ok None else
          if c =? 59 then parameters_loop fuel t input (u32 (index + 1)) mode else from_value keyRange (u32 (index + 1))
      end
  end.

Definition parseContentType (t : ParsedContentType) (mode : Mode) : res (option ParsedContentType) :=
  let input := chars (m_contentType t) in
  let contentTypeLength := zlen input in
  if bool_decide (mode = Rfc2045) && existsb containsNewline input then Ok None else
  index ← skipSpaces input 0;
  if contentTypeLength <=? index then Ok None else
  let contentTypeStart := index in
  '(typeRange, index) ← parseToken input index isNotForwardSlash mode false;
  match typeRange with
  | None => Ok None
  | Some typeRange =>
      if containsNonTokenCharacters typeRange mode then Ok None else
      if contentTypeLength <=? index then Ok None else
      c ← or_ub input.[index];
      if negb (c =? 47) then Ok None else
      '(subTypeRange, index) ← parseToken input (u32 (index + 1)) isNotSemicolon mode (bool_decide (mode = MimeSniff));
      match subTypeRange with
      | None => Ok None
      | Some subTypeRange =>
          if containsNonTokenCharacters subTypeRange mode then Ok None else
          semiColonIndex ← find_char input 59 contentTypeStart;
          if semiColonIndex =? notFound then
            range ← substring_impl input contentTypeStart (contentTypeLength - contentTypeStart);
            t ← setContentType t range mode; Ok (Some t)
          else
            range ← substring_impl input contentTypeStart (u32 (semiColonIndex - contentTypeStart));
            t ← setContentType t range mode;
            parameters_loop (S (length input)) t input (u32 (semiColonIndex + 1)) mode
      end
  end.

Definition create (contentType : String) (mode : Mode) : res (option ParsedContentType) :=
  contentType ← (if decide (mode = Rfc2045) then Ok contentType else stripLeadingAndTrailingCharacters isHTTPSpace contentType);
  parseContentType (ParsedContentType_new contentType) mode.

Definition isValidContentType (contentType : String) (mode : Mode) : res bool :=
  t ← create contentType mode; Ok (match t with None => false | Some _ => true end).

Definition parameterValueForName (t : ParsedContentType) (name : StringImpl) : String := default None (m_parameterValues t !! name).
Definition charset (t : ParsedContentType) : String := parameterValueForName t (lit "charset").
Definition setCharset (t : ParsedContentType) (charset : String) : ParsedContentType :=
  {| m_contentType := m_contentType t; m_parameterValues := <[lit "charset" := charset]> (m_parameterValues t);
     m_parameterNames := m_parameterNames t; m_mimeType := m_mimeType t |}.
Definition parameterCount (t : ParsedContentType) : Z := Z.of_nat (base.size (m_parameterValues t)).

(** ** Serialization *)

Definition escape_quoted (value : StringImpl) : StringImpl :=
  mjoin ((fun ch => if (ch =? 92) || (ch =? 34) then [92; ch] else [ch]) <$> value).

Definition serialize_value (value : String) : StringImpl :=
  if isEmpty value || negb (isValidHTTPToken value) then [34] ++ escape_quoted (chars value) ++ [34] else chars value.

Definition serialize_parameter (t : ParsedContentType) (name : StringImpl) : StringImpl :=
  [59] ++ name ++ [61] ++ serialize_value (parameterValueForName t name).

Definition serialize (t : ParsedContentType) : StringImpl :=
  chars (m_mimeType t) ++ mjoin (serialize_parameter t <$> m_parameterNames t).

(** ** Request headers that need no preflight (HTTPParsers.cpp) *)

Definition form_type (mimeType : String) : res bool :=
  b ← equalLettersIgnoringASCIICase mimeType (lit "application/x-www-form-urlencoded");
  if (b : bool) then Ok true else
  b ← equalLettersIgnoringASCIICase mimeType (lit "multipart/form-data");
  if (b : bool) then Ok true else equalLettersIgnoringASCIICase mimeType (lit "text/plain").

Definition isCrossOriginSafeRequestHeader (name : HTTPHeaderName) (value : String) : res bool :=
  let short := length_ value <=? 128 in
  match name with
  | H_Accept => Ok (isValidAcceptHeaderValue value && short)
  | H_AcceptLanguage | H_ContentLanguage => Ok (isValidLanguageHeaderValue value && short)
  | H_ContentType =>
      if containsCORSUnsafeRequestHeaderBytes value then Ok false else
      parsedContentType ← create value MimeSniff;
      match parsedContentType with
      | None => Ok false
      | Some t => form ← form_type (m_mimeType t); Ok (form && short)
      end
  | _ => Ok false
  end.

Definition isSimpleHeader (name value : String) : res bool :=
  headerName ← Headers.find_name name;
  match headerName with None => Ok false | Some headerName => isCrossOriginSafeRequestHeader headerName value end.

End parser.

End ContentType.
