(* ===== verification/HttpContentTypeProps.v ===== *)
(** * Correctness of the content types

    The functions that move an index are described on what follows the index:
    the input is [pre ++ l], the index is the length of [pre].  With these
    equations the parser is shown to end without an access outside of the input
    for every text and both modes, and to read back what [serialize] writes. *)
From Stdlib Require Ascii String.
Import String.StringSyntax.
From stdpp Require Import gmap.
From S2P Require Import Prelude WtfString HttpNames HttpHeaders HttpParsers HttpContentType.

Local Open Scope cf.

Module ContentTypeProps.
Import Str Names Parsers ContentType.

(** ** Lists *)

Lemma take_drop_while p l : take_while p l ++ drop_while p l = l.
Proof. induction l as [|c l IH]; cbn; [done|]. destruct (p c); cbn; [by rewrite IH | done]. Qed.

Lemma take_while_ext p q l : (forall c, p c = q c) -> take_while p l = take_while q l.
Proof. intros E. induction l as [|c l IH]; cbn; [done|]. rewrite E. destruct (q c); [by rewrite IH | done]. Qed.

Lemma take_while_app p l c post : Forall (fun c => p c = true) l -> p c = false -> take_while p (l ++ c :: post) = l.
Proof. induction 1 as [|x l Hx _ IH]; intros Hc; cbn; [by rewrite Hc|]. by rewrite Hx, IH. Qed.

Lemma take_while_Forall p l : Forall (fun c => p c = true) (take_while p l).
Proof. induction l as [|c l IH]; cbn; [done|]. destruct (p c) eqn:E; [by constructor | done]. Qed.

(** The text without the spaces at its end. *)
Definition rtrim (l : list Z) : list Z := reverse (drop_while (fun c => c =? 32) (reverse l)).

Lemma rtrim_snoc_space l : rtrim (l ++ [32]) = rtrim l.
Proof. unfold rtrim. by rewrite reverse_snoc. Qed.

Lemma rtrim_snoc l c : c <> 32 -> rtrim (l ++ [c]) = l ++ [c].
Proof. intros Hc. unfold rtrim. rewrite reverse_snoc. cbn [drop_while]. rewrite (proj2 (Z.eqb_neq _ _) Hc). by rewrite reverse_cons, reverse_involutive. Qed.

Lemma rtrim_prefix l : exists post, l = rtrim l ++ post.
Proof.
  induction l as [|c l IH] using rev_ind; [by exists []|]. destruct (decide (c = 32)) as [->|Hc].
  - rewrite rtrim_snoc_space. destruct IH as [post E]. exists (post ++ [32]). by rewrite app_assoc, <- E.
  - rewrite rtrim_snoc by done. exists []. by rewrite app_nil_r.
Qed.

Section scanning.
Context (pre l : list Z) (F : fits (pre ++ l)).

Lemma pre_small : 0 <= zlen pre /\ 0 <= zlen l /\ zlen pre + zlen l <= MaxLength.
Proof. pose proof F. unfold fits in *. autorewrite with zlen in *. pose proof (zlen_nonneg pre). pose proof (zlen_nonneg l). lia. Qed.
End scanning.

Lemma scan_spec p l : forall pre fuel, fits (pre ++ l) -> (length l < fuel)%nat -> scan fuel (pre ++ l) (zlen pre) p = Ok (zlen (pre ++ take_while p l)).
Proof.
  induction l as [|c l IH]; intros pre [|fuel] F Hf; try (cbn in Hf; lia); cbn [scan take_while]; pose proof (pre_small _ _ F) as Hs; autorewrite with zlen in *.
  - change (zlen (@nil Z)) with 0. by rewrite !Z.add_0_r, Z.ltb_irrefl.
  - pose proof (zlen_nonneg l). rewrite (proj2 (Z.ltb_lt _ _)), zlookup_app by lia. cbn [or_ub mbind res_bind]. destruct (p c); autorewrite with zlen.
    + rewrite u32_small by lia. specialize (IH (pre ++ [c]) fuel). rewrite <- app_assoc in IH. cbn [app] in IH.
      replace (zlen pre + 1) with (zlen (pre ++ [c])) by (by autorewrite with zlen). rewrite IH by (done || (cbn in Hf; lia)).
      f_equal. autorewrite with zlen. change (zlen (@nil Z)) with 0. lia.
    + change (zlen (@nil Z)) with 0. f_equal. lia.
Qed.

Lemma scan_full pre l p : fits (pre ++ l) -> scan (S (length (pre ++ l))) (pre ++ l) (zlen pre) p = Ok (zlen (pre ++ take_while p l)).
Proof. intros. apply scan_spec; [done | rewrite length_app; lia]. Qed.

Lemma substring_tok pre tok post : fits (pre ++ tok ++ post) -> substring_impl (pre ++ tok ++ post) (zlen pre) (zlen tok) = Ok tok.
Proof. intros F. unfold zlen. rewrite substring_impl_spec. by rewrite drop_app_length, take_app_length. Qed.

Lemma trailing_spec tok : forall pre d post fuel, d <> 32 -> fits ((pre ++ [d]) ++ tok ++ post) -> (length tok < fuel)%nat ->
  trailing_loop fuel ((pre ++ [d]) ++ tok ++ post) (zlen ((pre ++ [d]) ++ tok)) = Ok (zlen ((pre ++ [d]) ++ rtrim tok)).
Proof.
  induction tok as [|c tok IH] using rev_ind; intros pre d post [|fuel] Hd F Hf; try lia; cbn [trailing_loop].
  - pose proof (pre_small _ _ F) as Hs. change (rtrim []) with (@nil Z). rewrite app_nil_r. autorewrite with zlen in *. change (zlen (@nil Z)) with 0 in *.
    replace (zlen pre + (1 + 0) - 1) with (zlen pre) by lia. rewrite u32_small by (pose proof (zlen_nonneg pre); pose proof (zlen_nonneg post); lia).
    cbn [app]. rewrite <- app_assoc. cbn [app]. rewrite zlookup_app. cbn [or_ub mbind res_bind]. by rewrite (proj2 (Z.eqb_neq _ _) Hd).
  - pose proof (pre_small _ _ F) as Hs. rewrite length_app in Hf. cbn in Hf.
    assert (E : u32 (zlen ((pre ++ [d]) ++ tok ++ [c]) - 1) = zlen ((pre ++ [d]) ++ tok)).
    { revert Hs. autorewrite with zlen. intros. rewrite u32_small by (pose proof (zlen_nonneg pre); pose proof (zlen_nonneg tok); pose proof (zlen_nonneg post); lia). lia. }
    rewrite E. replace ((pre ++ [d]) ++ (tok ++ [c]) ++ post) with (((pre ++ [d]) ++ tok) ++ c :: post) by (rewrite <- !app_assoc; reflexivity).
    rewrite zlookup_app. cbn [or_ub mbind res_bind]. destruct (Z.eqb_spec c 32) as [->|Hc].
    + rewrite <- (app_assoc (pre ++ [d])), rtrim_snoc_space. apply IH; [done | by rewrite <- (app_assoc tok [32]) in F | lia].
    + by rewrite rtrim_snoc.
Qed.

Definition tok_cond (p : Z -> bool) (m : Mode) (c : Z) : bool := p c && negb (bool_decide (m = Rfc2045) && negb (isTokenCharacter c)).

Definition view_of (tok : list Z) : option StringImpl := match tok with [] => None | _ => Some tok end.

Lemma parseToken_spec pre l p m : fits (pre ++ l) ->
  parseToken (pre ++ l) (zlen pre) p m false = Ok (view_of (take_while (tok_cond p m) l), zlen (pre ++ take_while (tok_cond p m) l)).
Proof.
  intros F. pose proof (pre_small _ _ F) as Hs. unfold parseToken. destruct l as [|c l].
  { cbn [take_while view_of]. rewrite app_nil_r, Z.leb_refl. done. }
  rewrite (proj2 (Z.leb_gt _ _)) by (autorewrite with zlen in *; pose proof (zlen_nonneg l); lia).
  rewrite (scan_full pre (c :: l)) by done. fold (tok_cond p m). cbn [mbind res_bind].
  destruct (take_while (tok_cond p m) (c :: l)) as [|x tok] eqn:Et; [by rewrite app_nil_r, Z.eqb_refl|].
  rewrite (proj2 (Z.eqb_neq _ _)) by (autorewrite with zlen; pose proof (zlen_nonneg tok); lia).
  rewrite <- (take_drop_while (tok_cond p m) (c :: l)), Et in F |- *. set (post := drop_while _ _) in *.
  replace (u32 (zlen (pre ++ x :: tok) - zlen pre)) with (zlen (x :: tok)).
  2: { pose proof (pre_small _ _ F). autorewrite with zlen in *. pose proof (zlen_nonneg tok). pose proof (zlen_nonneg post). rewrite u32_small; lia. }
  by rewrite substring_tok.
Qed.

(** At a token after a character that is no space, spaces at the end of the token are left. *)
Lemma parseToken_trim pre d l p m : d <> 32 -> fits ((pre ++ [d]) ++ l) ->
  let tok := take_while (tok_cond p m) l in
  parseToken ((pre ++ [d]) ++ l) (zlen (pre ++ [d])) p m true =
  Ok (match tok with [] => None | _ => Some (rtrim tok) end, zlen ((pre ++ [d]) ++ rtrim tok)).
Proof.
  intros Hd F tok. pose proof (pre_small _ _ F) as Hs. unfold parseToken. destruct l as [|c l].
  { cbn. rewrite !app_nil_r, Z.leb_refl. done. }
  rewrite (proj2 (Z.leb_gt _ _)) by (revert Hs; autorewrite with zlen; pose proof (zlen_nonneg l); lia).
  rewrite (scan_full (pre ++ [d]) (c :: l)) by done. fold (tok_cond p m). fold tok. cbn [mbind res_bind].
  destruct tok as [|x tok'] eqn:Et; [by rewrite !app_nil_r, Z.eqb_refl|].
  rewrite (proj2 (Z.eqb_neq _ _)) by (autorewrite with zlen; pose proof (zlen_nonneg tok'); lia).
  assert (El : c :: l = (x :: tok') ++ drop_while (tok_cond p m) (c :: l)) by (rewrite <- Et; symmetry; apply take_drop_while).
  set (post := drop_while _ _) in *. clearbody post. rewrite El in F |- *.
  rewrite trailing_spec by (done || (rewrite !length_app; lia)). cbn [mbind res_bind].
  destruct (rtrim_prefix (x :: tok')) as [r Er]. set (t := rtrim (x :: tok')) in *. clearbody t. rewrite Er in F |- *.
  replace (u32 (zlen ((pre ++ [d]) ++ t) - zlen (pre ++ [d]))) with (zlen t).
  2: { pose proof (pre_small _ _ F) as Hs'. revert Hs'. autorewrite with zlen. pose proof (zlen_nonneg t). pose proof (zlen_nonneg r). pose proof (zlen_nonneg post). intros. rewrite u32_small; lia. }
  rewrite <- (app_assoc t). rewrite <- (app_assoc t) in F. by rewrite substring_tok.
Qed.

(** ** Quoted strings *)

(** The text of a quoted string after its first quote, and what follows it. *)
Fixpoint unquote (l : list Z) : list Z * list Z :=
  match l with
  | [] => ([], [])
  | c :: l' =>
      if c =? 34 then ([], l')
      else if c =? 92 then match l' with [] => ([92], []) | d :: l'' => let '(v, r) := unquote l'' in (d :: v, r) end
      else let '(v, r) := unquote l' in (c :: v, r)
  end.

Lemma unquote_run run rest : Forall (fun c => isNotQuoteOrBackslash c = true) run ->
  unquote (run ++ rest) = (run ++ (unquote rest).1, (unquote rest).2).
Proof.
  induction 1 as [|c run Hc _ IH]; [cbn; by destruct (unquote rest)|]. unfold isNotQuoteOrBackslash in Hc. cbn [app unquote].
  destruct (Z.eqb_spec c 34); [done|]. destruct (Z.eqb_spec c 92); [done|]. by rewrite IH.
Qed.

Lemma tok_cond_sniff p l : take_while (tok_cond p MimeSniff) l = take_while p l.
Proof. apply take_while_ext. intros c. unfold tok_cond. rewrite bool_decide_eq_false_2 by done. apply andb_true_r. Qed.

Lemma drop_while_head p l c r : drop_while p l = c :: r -> p c = false.
Proof. induction l as [|x l IH]; cbn; [done|]. destruct (p x) eqn:E; [done|]. by intros [= <- _]. Qed.

Lemma quoted_loop_spec n : forall l pre b fuel, (length l <= n)%nat -> fits (pre ++ l) -> (length l < fuel)%nat ->
  exists q, l = q ++ (unquote l).2 /\ quoted_loop fuel (pre ++ l) (zlen pre) b = Ok (b ++ (unquote l).1, zlen (pre ++ q)).
Proof.
  induction n as [n IH] using lt_wf_ind. intros l pre b [|fuel] Hn F Hf; [lia|]. cbn [quoted_loop].
  rewrite parseToken_spec, tok_cond_sniff by done. cbn [mbind res_bind].
  pose proof (take_while_Forall isNotQuoteOrBackslash l) as Hrun. pose proof (take_drop_while isNotQuoteOrBackslash l) as El.
  set (run := take_while isNotQuoteOrBackslash l) in *. destruct (drop_while isNotQuoteOrBackslash l) as [|c rest] eqn:Ed.
  all: pose proof (pre_small _ _ F) as Hs; rewrite <- El in F, Hs |- *; rewrite unquote_run by done; cbn [fst snd].
  all: replace (u32 (zlen (pre ++ run) - zlen pre)) with (zlen run) by
    (revert Hs; autorewrite with zlen; pose proof (zlen_nonneg run); intros; rewrite u32_small; try lia; pose proof (zlen_nonneg rest); lia).
  all: rewrite substring_tok by done; cbn [mbind res_bind].
  - exists run. rewrite !app_nil_r. split; [done|]. by rewrite Z.leb_refl.
  - assert (Hlen : zlen (pre ++ run ++ c :: rest) = zlen (pre ++ run) + 1 + zlen rest) by (autorewrite with zlen; lia).
    pose proof (zlen_nonneg rest). pose proof (zlen_nonneg (pre ++ run)). assert (Hfit : zlen (pre ++ run) + 1 + zlen rest <= MaxLength) by (unfold fits in F; lia).
    rewrite (proj2 (Z.leb_gt _ _)) by lia. rewrite (app_assoc pre run (c :: rest)), zlookup_app. cbn [or_ub mbind res_bind].
    rewrite u32_small by lia. pose proof (drop_while_head _ _ _ _ Ed) as Hc. unfold isNotQuoteOrBackslash in Hc. cbn [unquote].
    destruct (Z.eqb_spec c 92) as [->|].
    + change (92 =? 34) with false. cbn [andb]. destruct rest as [|d rest].
      * exists (run ++ [92]). split; [by rewrite app_nil_r|]. rewrite (proj2 (Z.leb_le _ _)) by (autorewrite with zlen; lia).
        rewrite <- !app_assoc. do 2 f_equal. autorewrite with zlen. lia.
      * rewrite (proj2 (Z.leb_gt _ _)) by (pose proof (zlen_nonneg rest); autorewrite with zlen; lia).
        replace (zlen (pre ++ run) + 1) with (zlen ((pre ++ run) ++ [92])) by (by autorewrite with zlen).
        replace ((pre ++ run) ++ 92 :: d :: rest) with (((pre ++ run) ++ [92]) ++ d :: rest) by (by rewrite <- !app_assoc).
        rewrite zlookup_app. cbn [or_ub mbind res_bind].
        replace (u32 (zlen ((pre ++ run) ++ [92]) + 1)) with (zlen (((pre ++ run) ++ [92]) ++ [d]))
          by (rewrite (zlen_app _ [d]), u32_small by (revert Hfit; pose proof (zlen_nonneg rest); autorewrite with zlen; pose proof (zlen_nonneg pre); pose proof (zlen_nonneg run); lia); done).
        replace (((pre ++ run) ++ [92]) ++ d :: rest) with ((((pre ++ run) ++ [92]) ++ [d]) ++ rest) by (by rewrite <- !app_assoc).
        apply (f_equal length) in El. rewrite length_app in El. cbn [length] in El.
        destruct (IH (length rest) ltac:(lia) rest (((pre ++ run) ++ [92]) ++ [d]) ((b ++ run) ++ [d]) fuel) as (q & Eq & Er);
          [lia | rewrite <- !app_assoc; exact F | lia |].
        rewrite Er. destruct (unquote rest) as [v r]. cbn [fst snd] in *. exists (run ++ [92; d] ++ q). subst rest. split.
        -- by rewrite <- !app_assoc.
        -- by rewrite <- !app_assoc.
    + assert (c = 34) as -> by (destruct (Z.eqb_spec c 34); [done|]; by cbn in Hc). cbn [Z.eqb Pos.eqb].
      exists (run ++ [34]). split; [by rewrite <- app_assoc|]. cbn [fst snd]. rewrite app_nil_r. do 2 f_equal. rewrite (app_assoc pre), (zlen_app _ [34]). done.
Qed.

Lemma escape_quoted_cons c v : escape_quoted (c :: v) = (if (c =? 92) || (c =? 34) then [92; c] else [c]) ++ escape_quoted v.
Proof. done. Qed.

(** A quoted string without its quotes. *)
Lemma unquote_escape v post : unquote (escape_quoted v ++ 34 :: post) = (v, post).
Proof.
  induction v as [|c v IH]; [done|]. rewrite escape_quoted_cons, <- app_assoc.
  destruct (Z.eqb_spec c 92) as [->|N1]; cbn [orb]; [cbn [app unquote]; by rewrite IH|].
  destruct (Z.eqb_spec c 34) as [->|N2]; cbn [app unquote]; [by rewrite IH|].
  by rewrite (proj2 (Z.eqb_neq c 34)), (proj2 (Z.eqb_neq c 92)), IH by done.
Qed.

(** ** Parameters, as browsers read them *)

(** The value at the start of [l], and what follows it. *)
Definition value_ref (l : list Z) : option StringImpl * list Z :=
  if bool_decide (head l = Some 34) then (Some (unquote (tail l)).1, drop_while isNotSemicolon (unquote (tail l)).2)
  else
    let tok := take_while isNotSemicolon l in
    (match tok with [] => None | _ => Some (rtrim tok) end, drop (length (rtrim tok)) l).

Fixpoint sniff (fuel : nat) (t : ParsedContentType) (l : list Z) : ParsedContentType :=
  match fuel with
  | O => t
  | S fuel =>
      let l1 := drop_while isHTTPSpace l in
      match drop_while isNotSemicolonOrEqualSign l1 with
      | [] => t
      | c :: l2 =>
          if c =? 59 then sniff fuel t l2 else
          match value_ref l2 with
          | (None, r) => sniff fuel t r
          | (Some v, r) =>
              let t := match view_of (take_while isNotSemicolonOrEqualSign l1) with
                       | None => t
                       | Some key => setContentTypeParameter t key v MimeSniff
                       end in
              match r with [] => t | _ => sniff fuel t r end
          end
      end
  end.

Lemma skipSpaces_spec pre l : fits (pre ++ l) -> skipSpaces (pre ++ l) (zlen pre) = Ok (zlen (pre ++ take_while isHTTPSpace l)).
Proof. apply scan_full. Qed.

Lemma parameter_value_spec `{ICU} pre d l : d <> 32 -> fits ((pre ++ [d]) ++ l) -> exists q, l = q ++ (value_ref l).2 /\
  parameter_value ((pre ++ [d]) ++ l) (zlen (pre ++ [d])) MimeSniff = Ok ((value_ref l).1, zlen ((pre ++ [d]) ++ q)).
Proof.
  intros Hd F. unfold parameter_value, value_ref. destruct l as [|c l].
  - rewrite bool_decide_eq_false_2 by done. cbn [take_while fst snd]. exists []. split; [done|].
    rewrite (proj2 (Z.ltb_ge _ _)) by (rewrite app_nil_r; lia). cbn [mbind res_bind andb]. rewrite (parseToken_trim pre d []) by done. done.
  - rewrite (proj2 (Z.ltb_lt _ _)) by (rewrite (zlen_app (pre ++ [d])), zlen_cons; pose proof (zlen_nonneg l); lia).
    rewrite zlookup_app. cbn [or_ub mbind res_bind andb head tail]. destruct (Z.eqb_spec c 34) as [->|Hc].
    + rewrite bool_decide_eq_true_2 by done. rewrite decide_True by done. unfold collectHTTPQuotedString.
      assert (Hs := pre_small _ _ F). assert (E34 : (pre ++ [d]) ++ 34 :: l = ((pre ++ [d]) ++ [34]) ++ l) by (by rewrite <- (app_assoc (pre ++ [d]))).
      replace (u32 (zlen (pre ++ [d]) + 1)) with (zlen ((pre ++ [d]) ++ [34])).
      2: { rewrite (zlen_app _ [34]), u32_small; [done|]. rewrite zlen_cons in Hs. pose proof (zlen_nonneg l). lia. }
      rewrite E34 in F |- *.
      destruct (quoted_loop_spec (length l) l ((pre ++ [d]) ++ [34]) [] (S (length (((pre ++ [d]) ++ [34]) ++ l)))) as (q & Eq & Er); [lia | done | rewrite !length_app; lia |].
      rewrite Er. cbn [mbind res_bind app fst snd]. destruct (unquote l) as [v r]. cbn [fst snd] in *. subst l.
      rewrite (app_assoc ((pre ++ [d]) ++ [34])) in F |- *. rewrite parseToken_spec, tok_cond_sniff by done. cbn [mbind res_bind].
      exists (34 :: q ++ take_while isNotSemicolon r). split; [cbn [app]; by rewrite <- app_assoc, take_drop_while|]. by rewrite <- !app_assoc.
    + rewrite bool_decide_eq_false_2 by congruence. rewrite bool_decide_eq_true_2 by done. rewrite parseToken_trim, tok_cond_sniff by done. cbn [fst snd].
      set (tok := take_while isNotSemicolon (c :: l)). exists (rtrim tok). split; [|done].
      destruct (rtrim_prefix tok) as [r Er].
      assert (El : c :: l = rtrim tok ++ r ++ drop_while isNotSemicolon (c :: l)) by (rewrite app_assoc, <- Er; symmetry; apply take_drop_while).
      clearbody tok. set (post := r ++ _) in El. clearbody post. rewrite El. by rewrite drop_app_length.
Qed.

Lemma drop_while_length p l : (length (drop_while p l) <= length l)%nat.
Proof. induction l as [|c l IH]; cbn; [lia|]. destruct (p c); cbn; lia. Qed.

Lemma parameters_sniff `{ICU} fuel : forall t pre l, fits (pre ++ l) -> (length l < fuel)%nat ->
  parameters_loop fuel t (pre ++ l) (zlen pre) MimeSniff = Ok (Some (sniff fuel t l)).
Proof.
  induction fuel as [|fuel IH]; intros t pre l F Hf; [lia|]. cbn [parameters_loop sniff].
  rewrite skipSpaces_spec by done. cbn [mbind res_bind]. pose proof (drop_while_length isHTTPSpace l) as Hl1.
  assert (E1 : pre ++ l = (pre ++ take_while isHTTPSpace l) ++ drop_while isHTTPSpace l) by (by rewrite <- app_assoc, take_drop_while).
  rewrite E1 in F |- *. set (pre1 := pre ++ take_while isHTTPSpace l) in *. set (l1 := drop_while isHTTPSpace l) in *. clearbody pre1 l1. clear E1.
  rewrite parseToken_spec, tok_cond_sniff by done. cbn [mbind res_bind].
  pose proof (take_drop_while isNotSemicolonOrEqualSign l1) as E2. set (key := take_while isNotSemicolonOrEqualSign l1) in *.
  destruct (drop_while isNotSemicolonOrEqualSign l1) as [|c l2] eqn:Ed.
  { rewrite app_nil_r in E2. rewrite E2, Z.leb_refl. done. }
  pose proof (drop_while_head _ _ _ _ Ed) as Hc. unfold isNotSemicolonOrEqualSign in Hc.
  assert (Hl2 : (length l2 < fuel)%nat) by (apply (f_equal length) in E2; rewrite length_app in E2; cbn in E2; lia).
  rewrite <- E2 in F |- *. rewrite app_assoc in F |- *. pose proof (pre_small _ _ F) as Hs. pose proof (zlen_nonneg l2). rewrite zlen_cons in Hs.
  rewrite (proj2 (Z.leb_gt _ _)) by (rewrite (zlen_app (pre1 ++ key)), zlen_cons; lia).
  rewrite zlookup_app. cbn [or_ub mbind res_bind]. rewrite <- negb_orb. 
  assert (Eor : (c =? 61) || (c =? 59) = true) by (by destruct (Z.eqb_spec c 61), (Z.eqb_spec c 59)). rewrite Eor. cbn [negb].
  rewrite u32_small by lia.
  assert (E3 : (pre1 ++ key) ++ c :: l2 = ((pre1 ++ key) ++ [c]) ++ l2) by (by rewrite <- (app_assoc (pre1 ++ key))).
  replace (zlen (pre1 ++ key) + 1) with (zlen ((pre1 ++ key) ++ [c])) by (by rewrite (zlen_app (pre1 ++ key))).
  rewrite E3 in F |- *. destruct (Z.eqb_spec c 59) as [->|Hc59]; [by apply IH|].
  destruct (parameter_value_spec (pre1 ++ key) c l2) as (q & Eq & Ev); [destruct (Z.eqb_spec c 61); [lia | done] | done |].
  rewrite Ev. destruct (value_ref l2) as [v r]. cbn [fst snd mbind res_bind] in *. rewrite Eq in F |- *. rewrite app_assoc in F |- *.
  assert (Hr : (length r < fuel)%nat) by (rewrite Eq, length_app in Hl2; lia).
  destruct v as [v|]; [|rewrite decide_True by done; by apply IH].
  rewrite bool_decide_eq_false_2 by done. cbn [andb]. set (pre2 := ((pre1 ++ key) ++ [c]) ++ q) in *.
  destruct r as [|x r].
  - rewrite app_nil_r. rewrite (proj2 (Z.ltb_ge _ _)) by lia. cbn [mbind res_bind]. by rewrite Z.leb_refl.
  - pose proof (zlen_nonneg r). rewrite (proj2 (Z.ltb_lt _ _)) by (rewrite (zlen_app pre2), zlen_cons; lia). rewrite zlookup_app. cbn [or_ub mbind res_bind].
    rewrite (proj2 (Z.leb_gt _ _)) by (rewrite (zlen_app pre2), zlen_cons; lia). by apply IH.
Qed.

(** ** The type *)

Lemma trim_length p s : (length (trim p s) <= length s)%nat.
Proof. unfold trim. rewrite length_reverse. etransitivity; [apply drop_while_length|]. rewrite length_reverse. apply drop_while_length. Qed.

Lemma find_semicolon pre l : fits (pre ++ l) ->
  find_char (pre ++ l) 59 (zlen pre) =
  Ok (match drop_while isNotSemicolon l with [] => notFound | _ => zlen (pre ++ take_while isNotSemicolon l) end).
Proof.
  intros F. rewrite find_char_spec, to_nat_zlen, drop_app_length by apply zlen_nonneg.
  pose proof (take_while_Forall isNotSemicolon l) as Ht. rewrite <- (take_drop_while isNotSemicolon l) at 1. set (tok := take_while isNotSemicolon l) in *.
  assert (Htok : Forall (fun x => (x =? 59) = false) tok) by (eapply Forall_impl; [exact Ht|]; intros x Hx; by apply negb_true_iff).
  destruct (drop_while isNotSemicolon l) as [|c r] eqn:Ed.
  - rewrite app_nil_r. by rewrite (proj2 (index_of_None _ _) Htok).
  - rewrite index_of_app; [unfold zlen; f_equal; rewrite length_app; lia | | done]. apply drop_while_head in Ed. by apply negb_false_iff in Ed.
Qed.

(** The type that browsers read from a text. *)
Definition sniff_type (s : list Z) : option ParsedContentType :=
  let input := trim isHTTPSpace s in
  let l1 := drop_while isHTTPSpace input in
  match drop_while isNotForwardSlash l1 with
  | [] => None
  | _ :: l3 =>
      if isValidHTTPToken (Some (take_while isNotForwardSlash l1)) && isValidHTTPToken (Some (rtrim (take_while isNotSemicolon l3))) then
        let t := {| m_contentType := Some input; m_parameterValues := ∅; m_parameterNames := [];
                    m_mimeType := Some (toASCIILower <$> trim isHTTPSpace (take_while isNotSemicolon l1)) |} in
        match drop_while isNotSemicolon l1 with [] => Some t | _ :: l4 => Some (sniff (S (length input)) t l4) end
      else None
  end.

Lemma setContentType_sniff `{ICU} t range : setContentType t range MimeSniff =
  Ok {| m_contentType := m_contentType t; m_parameterValues := m_parameterValues t; m_parameterNames := m_parameterNames t;
        m_mimeType := Some (toASCIILower <$> trim isHTTPSpace range) |}.
Proof.
  unfold setContentType, stripLeadingAndTrailingHTTPSpaces. rewrite decide_True, stripMatchedCharacters_spec by done. cbn [mbind res_bind].
  unfold convertToASCIILowercase. cbn [fmap option_fmap option_map]. by rewrite convertToASCIILowercase_spec.
Qed.

Lemma nontoken_sniff l : containsNonTokenCharacters l MimeSniff = negb (isValidHTTPToken (Some l)).
Proof. unfold containsNonTokenCharacters. by rewrite decide_True. Qed.

Lemma create_sniff `{ICU} s : fits s -> create (Some s) MimeSniff = Ok (sniff_type s).
Proof.
  intros Fs. unfold create, sniff_type. rewrite decide_False by done. unfold stripLeadingAndTrailingCharacters. rewrite strip_spec. cbn [mbind res_bind].
  assert (F : fits (trim isHTTPSpace s)) by (pose proof (trim_length isHTTPSpace s); unfold fits, zlen in *; lia).
  set (input := trim isHTTPSpace s) in *. clearbody input. clear Fs. unfold parseContentType, ParsedContentType_new. cbn [m_contentType]. change (chars (Some input)) with input.
  rewrite bool_decide_eq_false_2 by done. cbn [andb]. pose proof (skipSpaces_spec [] input F) as E0. cbn [app] in E0. change (zlen (@nil Z)) with 0 in E0.
  rewrite E0. cbn [mbind res_bind]. pose proof (take_drop_while isHTTPSpace input) as E1.
  set (pre := take_while isHTTPSpace input) in *. set (l1 := drop_while isHTTPSpace input) in *.
  rewrite <- E1 in F. assert (El : input = pre ++ l1) by done. clearbody pre l1. clear E1 E0. subst input.
  pose proof (pre_small _ _ F) as Hs. destruct l1 as [|c0 l1'] eqn:E1; [by rewrite app_nil_r, Z.leb_refl|]. rewrite <- E1 in *.
  assert (Hne : 0 < zlen l1) by (subst l1; rewrite zlen_cons; pose proof (zlen_nonneg l1'); lia). clear E1 c0 l1'.
  rewrite (proj2 (Z.leb_gt _ _)) by (rewrite zlen_app; lia). rewrite parseToken_spec, tok_cond_sniff by done. cbn [mbind res_bind].
  pose proof (take_drop_while isNotForwardSlash l1) as E2. set (ty := take_while isNotForwardSlash l1) in *.
  destruct (isValidHTTPToken (Some ty)) eqn:Ety.
  2: { cbn [andb]. destruct ty as [|x ty']; cbn [view_of].
       - by destruct (drop_while isNotForwardSlash l1).
       - rewrite nontoken_sniff, Ety. by destruct (drop_while isNotForwardSlash l1). }
  cbn [andb]. replace (view_of ty) with (Some ty) by (by destruct ty). rewrite nontoken_sniff, Ety. cbn [negb].
  destruct (drop_while isNotForwardSlash l1) as [|c l3] eqn:Ed; [rewrite app_nil_r in E2; rewrite E2, Z.leb_refl; done|].
  apply drop_while_head in Ed as Hc. apply negb_false_iff, Z.eqb_eq in Hc as ->. pose proof (zlen_nonneg l3).
  rewrite (proj2 (Z.leb_gt _ _)) by (rewrite <- E2, !zlen_app, zlen_cons; lia).
  assert (E3 : pre ++ l1 = ((pre ++ ty) ++ [47]) ++ l3) by (by rewrite <- E2, <- !app_assoc).
  assert (Elook : (pre ++ l1).[zlen (pre ++ ty)] = Some 47) by (rewrite <- E2, app_assoc; apply zlookup_app). rewrite Elook. cbn [or_ub mbind res_bind].
  change (negb (47 =? 47)) with false. cbn iota.
  replace (u32 (zlen (pre ++ ty) + 1)) with (zlen ((pre ++ ty) ++ [47])).
  2: { rewrite (zlen_app _ [47]), u32_small; [done|]. pose proof (zlen_nonneg (pre ++ ty)). rewrite E3 in F. apply pre_small in F. rewrite (zlen_app _ [47]) in F. change (zlen [47]) with 1 in F. lia. }
  rewrite bool_decide_eq_true_2 by done. rewrite E3 at 1. rewrite parseToken_trim, tok_cond_sniff by (done || by rewrite <- E3). cbn [mbind res_bind].
  set (tok := take_while isNotSemicolon l3). destruct (isValidHTTPToken (Some (rtrim tok))) eqn:Esub.
  2: { destruct tok as [|x tok']; [done|]. by rewrite nontoken_sniff, Esub. }
  replace (match tok with [] => None | _ => Some (rtrim tok) end) with (Some (rtrim tok)) by (by destruct tok). rewrite nontoken_sniff, Esub. cbn [negb].
  rewrite find_semicolon by done. cbn [mbind res_bind]. pose proof (take_drop_while isNotSemicolon l1) as E4.
  set (range := take_while isNotSemicolon l1) in *. destruct (drop_while isNotSemicolon l1) as [|c l4] eqn:Ed2.
  - rewrite Z.eqb_refl. rewrite app_nil_r in E4. replace (zlen (pre ++ l1) - zlen pre) with (zlen l1) by (rewrite zlen_app; lia).
    pose proof (substring_tok pre l1 []) as Hsub. rewrite app_nil_r in Hsub. rewrite Hsub by done. cbn [mbind res_bind]. rewrite setContentType_sniff. cbn. by rewrite E4.
  - pose proof (zlen_nonneg l4). pose proof (zlen_nonneg range). pose proof (zlen_nonneg pre).
    assert (Hl : zlen l1 = zlen range + 1 + zlen l4) by (rewrite <- E4, zlen_app, zlen_cons; lia).
    rewrite (proj2 (Z.eqb_neq _ _)) by (rewrite zlen_app; unfold notFound; unfold MaxLength in *; lia).
    replace (u32 (zlen (pre ++ range) - zlen pre)) with (zlen range) by (rewrite zlen_app, u32_small; lia).
    rewrite <- E4. rewrite (substring_tok pre range (c :: l4)) by (by rewrite E4). cbn [mbind res_bind]. rewrite setContentType_sniff. cbn [mbind res_bind m_contentType m_parameterValues m_parameterNames].
    replace (u32 (zlen (pre ++ range) + 1)) with (zlen ((pre ++ range) ++ [c])) by (rewrite (zlen_app _ [c]), u32_small; [done | rewrite zlen_app; lia]).
    assert (E5 : pre ++ range ++ c :: l4 = ((pre ++ range) ++ [c]) ++ l4) by (by rewrite <- !app_assoc). rewrite E5.
    rewrite parameters_sniff; [done | rewrite <- E5, E4; done | rewrite !length_app; cbn; lia].
Qed.

(** ** Reading what was written *)

Definition lower_token (l : list Z) : Prop := l <> [] /\ Forall (fun c => Headers.isTokenCharacter c = true /\ isASCIIUpper c = false) l.

(** A parsed type whose parts are the ones that the parser gives. *)
Record ct_wf (t : ParsedContentType) : Prop := {
  wf_mime : exists ty sub, m_mimeType t = Some (ty ++ 47 :: sub) /\ lower_token ty /\ lower_token sub;
  wf_names : Forall lower_token (m_parameterNames t);
  wf_unique : NoDup (m_parameterNames t);
  wf_values : forall k, k ∈ m_parameterNames t -> exists v, m_parameterValues t !! k = Some (Some v) /\ Forall (fun c => isQuotedStringTokenCharacter c = true) v;
  wf_dom : forall k, is_Some (m_parameterValues t !! k) -> k ∈ m_parameterNames t }.

(** What token characters are not. *)
Lemma token_char c : Headers.isTokenCharacter c = true ->
  isHTTPSpace c = false /\ isNotForwardSlash c = true /\ isNotSemicolon c = true /\ isNotSemicolonOrEqualSign c = true /\ c <> 32 /\ c <> 34.
Proof.
  intros Hc. unfold isNotForwardSlash, isNotSemicolon, isNotSemicolonOrEqualSign, isHTTPSpace.
  assert (forall d, Headers.isTokenCharacter d = false -> c <> d) as Hd by (intros d Hd ->; congruence).
  pose proof (Hd 32 eq_refl). pose proof (Hd 34 eq_refl). pose proof (Hd 47 eq_refl). pose proof (Hd 59 eq_refl). pose proof (Hd 61 eq_refl).
  pose proof (Hd 9 eq_refl). pose proof (Hd 10 eq_refl). pose proof (Hd 13 eq_refl).
  rewrite !(proj2 (Z.eqb_neq _ _)) by done. rewrite andb_false_r. done.
Qed.

Lemma valid_token l : isValidHTTPToken (Some l) = true <-> l <> [] /\ Forall (fun c => Headers.isTokenCharacter c = true) l.
Proof.
  unfold isValidHTTPToken. cbn [isEmpty]. change (chars (Some l)) with l. destruct l as [|c l]; [cbn; naive_solver|].
  rewrite (proj2 (Z.eqb_neq _ _)) by (rewrite zlen_cons; pose proof (zlen_nonneg l); lia). rewrite forallb_forall. split; [|intros [_ Ha]].
  - intros Ha. split; [done|]. apply Forall_forall. intros x Hx. by apply Ha, list_elem_of_In.
  - intros x Hx%list_elem_of_In. by eapply Forall_forall in Ha.
Qed.

Lemma lower_token_valid l : lower_token l -> isValidHTTPToken (Some l) = true.
Proof. intros [Hne Ha]. apply valid_token. split; [done|]. by eapply Forall_impl; [exact Ha|]; intros ? []. Qed.

Lemma lower_token_lower l : lower_token l -> toASCIILower <$> l = l.
Proof. intros [_ Ha]. induction Ha as [|c l [_ Hc] _ IH]; [done|]. cbn. rewrite toASCIILower_other by done. f_equal. apply IH. Qed.

Lemma tokens_pass (p : Z -> bool) l : (forall c, Headers.isTokenCharacter c = true -> p c = true) -> isValidHTTPToken (Some l) = true -> Forall (fun c => p c = true) l.
Proof. intros Hp [_ Ha]%valid_token. eapply Forall_impl; [exact Ha|]. intros. by apply Hp. Qed.

Lemma drop_while_app p l c post : Forall (fun c => p c = true) l -> p c = false -> drop_while p (l ++ c :: post) = c :: post.
Proof. induction 1 as [|x l Hx _ IH]; intros Hc; cbn; [by rewrite Hc|]. by rewrite Hx, IH. Qed.

Lemma drop_while_all p l : Forall (fun c => p c = true) l -> drop_while p l = [].
Proof. induction 1 as [|x l Hx _ IH]; cbn; [done|]. by rewrite Hx. Qed.

(** A text is [sealed] when it neither begins nor ends with a space. *)
Definition closed_end (l : list Z) : Prop := exists l' c, l = l' ++ [c] /\ isHTTPSpace c = false.

Lemma trim_sealed c l : isHTTPSpace c = false -> closed_end (c :: l) -> trim isHTTPSpace (c :: l) = c :: l.
Proof.
  intros Hc (l' & d & E & Hd). unfold trim. cbn [drop_while]. rewrite Hc, E, reverse_snoc. cbn [drop_while]. rewrite Hd. by rewrite reverse_cons, reverse_involutive.
Qed.

Lemma closed_app l k : closed_end k -> closed_end (l ++ k).
Proof. intros (l' & c & -> & Hc). exists (l ++ l'), c. by rewrite app_assoc. Qed.

Lemma token_closed l : isValidHTTPToken (Some l) = true -> closed_end l /\ rtrim l = l.
Proof.
  intros [Hne Ha]%valid_token. destruct l as [|c l _] using rev_ind; [done|]. apply Forall_app in Ha as [_ Ha]. apply Forall_cons in Ha as [Hc _].
  destruct (token_char c Hc) as (? & _ & _ & _ & ? & _). split; [by exists l, c | by apply rtrim_snoc].
Qed.

Definition starts_param (rest : list Z) : Prop := rest = [] \/ exists r, rest = 59 :: r.

Lemma before_param l rest : Forall (fun c => isNotSemicolon c = true) l -> starts_param rest ->
  take_while isNotSemicolon (l ++ rest) = l /\ drop_while isNotSemicolon (l ++ rest) = rest.
Proof.
  intros Hl [-> | [r ->]]; [rewrite app_nil_r, take_while_all, drop_while_all by done; done|].
  by rewrite take_while_app, drop_while_app by done.
Qed.

Lemma serialize_value_closed v : closed_end (serialize_value (Some v)).
Proof.
  unfold serialize_value. destruct (isEmpty (Some v) || negb (isValidHTTPToken (Some v))) eqn:E.
  - exists ([34] ++ escape_quoted v), 34. by rewrite <- app_assoc.
  - apply orb_false_iff in E as [_ E%negb_false_iff]. by apply token_closed.
Qed.

Lemma value_ref_serialize v rest : starts_param rest -> value_ref (serialize_value (Some v) ++ rest) = (Some v, rest).
Proof.
  intros Hr. unfold serialize_value. destruct (isEmpty (Some v) || negb (isValidHTTPToken (Some v))) eqn:E; unfold value_ref.
  - rewrite bool_decide_eq_true_2 by done. change (chars (Some v)) with v. rewrite <- !app_assoc. cbn [tail app]. rewrite unquote_escape. cbn [fst snd].
    destruct (before_param [] rest) as [_ Ed]; [done | done |]. cbn [app] in Ed. by rewrite Ed.
  - apply orb_false_iff in E as [_ E%negb_false_iff]. change (chars (Some v)) with v. apply token_closed in E as Hv. destruct Hv as [_ Ert].
    apply valid_token in E as Hv. destruct Hv as [Hne Hall]. destruct v as [|c v]; [done|]. apply Forall_cons in Hall as [Hc _].
    assert (c <> 34) by (apply token_char in Hc; tauto). rewrite bool_decide_eq_false_2 by (cbn; congruence).
    destruct (before_param (c :: v) rest) as [-> _]; [|done|].
    + apply tokens_pass; [|done]. intros x Hx. apply token_char in Hx; tauto.
    + by rewrite Ert, drop_app_length.
Qed.

Section roundtrip.
Context (t : ParsedContentType) (W : ct_wf t).

Definition params (ns : list StringImpl) : list Z := mjoin (serialize_parameter t <$> ns).

Lemma params_cons n ns : params (n :: ns) = 59 :: n ++ 61 :: serialize_value (parameterValueForName t n) ++ params ns.
Proof. unfold params, serialize_parameter. cbn [fmap list_fmap mjoin list_join app]. f_equal. rewrite <- !app_assoc. done. Qed.

Lemma starts_params ns : starts_param (params ns).
Proof. destruct ns as [|n ns]; [by left|]. right. rewrite params_cons. by eexists. Qed.

(** One parameter. *)
Lemma sniff_param fuel t0 n v ns : lower_token n -> sniff (S fuel) t0 (n ++ 61 :: serialize_value (Some v) ++ params ns) =
  match ns with [] => setContentTypeParameter t0 n v MimeSniff | _ => sniff fuel (setContentTypeParameter t0 n v MimeSniff) (params ns) end.
Proof.
  intros Hn. apply lower_token_valid in Hn as Hv.
  assert (Hk : Forall (fun c => isNotSemicolonOrEqualSign c = true) n) by (apply tokens_pass; [intros c Hc; apply (token_char c Hc) | exact Hv]).
  cbn [sniff]. apply valid_token in Hv as [Hne Ha].
  assert (Hsp : drop_while isHTTPSpace (n ++ 61 :: serialize_value (Some v) ++ params ns) = n ++ 61 :: serialize_value (Some v) ++ params ns).
  { destruct n as [|c n]; [done|]. apply Forall_cons in Ha as [Hc _]. apply token_char in Hc as (Hc & _). cbn. by rewrite Hc. }
  rewrite Hsp, take_while_app, drop_while_app by done. cbn [Z.eqb Pos.eqb]. rewrite value_ref_serialize by apply starts_params.
  destruct n as [|c n]; [done|]. cbn [view_of]. destruct ns as [|m ns]; [done|]. by rewrite params_cons.
Qed.

Lemma sniff_semicolon fuel t0 l : sniff (S fuel) t0 (59 :: l) = sniff fuel t0 l.
Proof. done. Qed.

(** A name that is new is stored with its value. *)
Lemma set_parameter_new t0 n v : lower_token n -> Forall (fun c => isQuotedStringTokenCharacter c = true) v -> m_parameterValues t0 !! n = None ->
  setContentTypeParameter t0 n v MimeSniff =
  {| m_contentType := m_contentType t0; m_parameterValues := <[n := Some v]> (m_parameterValues t0);
     m_parameterNames := m_parameterNames t0 ++ [n]; m_mimeType := m_mimeType t0 |}.
Proof.
  intros Hn Hv Hnew. unfold setContentTypeParameter. rewrite decide_True by done. rewrite Hnew, bool_decide_eq_false_2 by (intros [? ?]; done).
  rewrite (lower_token_valid n Hn). cbn [orb negb]. unfold containsNonQuoteStringTokenCharacters.
  rewrite convertToASCIILowercase_spec, (lower_token_lower n Hn). 
  assert (existsb (fun c => negb (isQuotedStringTokenCharacter c)) v = false) as ->; [|done].
  induction Hv as [|c v Hc _ IH]; [done|]. cbn. by rewrite Hc.
Qed.

Lemma sniff_params ns : forall n t0 fuel, (forall k, k ∈ n :: ns -> k ∈ m_parameterNames t) -> NoDup (n :: ns) -> Forall lower_token (n :: ns) ->
  (forall k, k ∈ n :: ns -> m_parameterValues t0 !! k = None) -> (2 * length ns < fuel)%nat ->
  let t1 := sniff fuel t0 (tail (params (n :: ns))) in
  m_mimeType t1 = m_mimeType t0 /\ m_parameterNames t1 = m_parameterNames t0 ++ n :: ns /\
  (forall k, m_parameterValues t1 !! k = if decide (k ∈ n :: ns) then m_parameterValues t !! k else m_parameterValues t0 !! k).
Proof.
  induction ns as [|m ns IH]; intros n t0 [|fuel] Hin Hnd Hlow Hnew Hf; try lia; cbv zeta; rewrite params_cons; cbn [tail];
    destruct (wf_values t W n (Hin n ltac:(by left))) as (v & Ev & Hv); apply Forall_cons in Hlow as [Hn Hlow];
    assert (Epv : parameterValueForName t n = Some v) by (unfold parameterValueForName; by rewrite Ev); rewrite Epv, sniff_param by done;
    rewrite set_parameter_new by (done || apply Hnew; by left).
  - cbn. split_and!; [done | done |]. intros k. destruct (decide (k = n)) as [->|Hk].
    + rewrite lookup_insert_eq, decide_True by (by left). done.
    + rewrite lookup_insert_ne, decide_False by (congruence || rewrite list_elem_of_singleton; done). done.
  - apply NoDup_cons in Hnd as [Hn' Hnd]. destruct fuel as [|fuel]; [cbn in Hf; lia|].
    assert (Eparams : params (m :: ns) = 59 :: tail (params (m :: ns))) by (by rewrite params_cons). rewrite Eparams, sniff_semicolon.
    set (t0' := Build_ParsedContentType _ _ _ _).
    destruct (IH m t0' fuel) as (E1 & E2 & E3).
    + intros k Hk. apply Hin. by right.
    + done.
    + done.
    + intros k Hk. unfold t0'; cbn. rewrite lookup_insert_ne by (intros ->; done). apply Hnew. by right.
    + cbn in Hf. lia.
    + split_and!; [by rewrite E1 | rewrite E2; unfold t0'; cbn; by rewrite <- app_assoc |]. intros k. rewrite E3.
      destruct (decide (k ∈ m :: ns)) as [Hk|Hk]; [by rewrite decide_True by (by right)|]. unfold t0'; cbn.
      destruct (decide (k = n)) as [->|Hkn]; [by rewrite lookup_insert_eq, decide_True by (by left)|].
      rewrite lookup_insert_ne, decide_False by (congruence || (intros [?|?]%elem_of_cons; done)). done.
Qed.

Lemma params_length ns : (2 * length ns <= length (params ns))%nat.
Proof. induction ns as [|n ns IH]; [cbn; lia|]. rewrite params_cons. cbn [length]. rewrite length_app. cbn [length]. rewrite length_app. cbn [length]. lia. Qed.

Lemma params_closed l ns : closed_end l -> Forall (fun n => exists v, parameterValueForName t n = Some v) ns -> closed_end (l ++ params ns).
Proof.
  intros Hl Hns. revert l Hl. induction Hns as [|n ns [v Ev] _ IH]; intros l Hl; [by rewrite app_nil_r|].
  rewrite params_cons, Ev. replace (l ++ 59 :: n ++ 61 :: serialize_value (Some v) ++ params ns) with ((l ++ 59 :: n ++ 61 :: serialize_value (Some v)) ++ params ns).
  - apply IH. replace (l ++ 59 :: n ++ 61 :: serialize_value (Some v)) with ((l ++ 59 :: n ++ [61]) ++ serialize_value (Some v)).
    + apply closed_app, serialize_value_closed.
    + rewrite <- !app_assoc. cbn. by rewrite <- !app_assoc.
  - rewrite <- !app_assoc. cbn. by rewrite <- !app_assoc.
Qed.

(** The text of a type is read back. *)
Lemma sniff_serialize : exists t', sniff_type (serialize t) = Some t' /\
  m_mimeType t' = m_mimeType t /\ m_parameterNames t' = m_parameterNames t /\ m_parameterValues t' = m_parameterValues t.
Proof.
  destruct (wf_mime t W) as (ty & sub & Em & Hty & Hsub). apply lower_token_valid in Hty as Vty. apply lower_token_valid in Hsub as Vsub.
  assert (Eser : serialize t = ty ++ 47 :: sub ++ params (m_parameterNames t)) by (unfold serialize; rewrite Em; cbn; by rewrite <- app_assoc).
  destruct (token_closed ty Vty) as [_ _]. destruct (token_closed sub Vsub) as [Csub Rsub].
  assert (Hns : Forall (fun n => exists v, parameterValueForName t n = Some v) (m_parameterNames t)).
  { apply Forall_forall. intros n Hn. destruct (wf_values t W n Hn) as (v & Ev & _). exists v. unfold parameterValueForName. by rewrite Ev. }
  assert (Ctext : closed_end (ty ++ 47 :: sub ++ params (m_parameterNames t))).
  { rewrite (cons_middle 47), (app_assoc _ _ (_ ++ _)). apply closed_app, params_closed; done. }
  assert (Cmime : closed_end (ty ++ 47 :: sub)) by (rewrite (cons_middle 47), app_assoc; by apply closed_app).
  assert (Hpass : forall p, (forall c, Headers.isTokenCharacter c = true -> p c = true) -> Forall (fun c => p c = true) ty /\ Forall (fun c => p c = true) sub)
    by (intros p Hp; split; by apply tokens_pass).
  destruct (Hpass isNotForwardSlash) as [Pty _]; [intros c Hc; by apply token_char in Hc as (_ & ? & _)|].
  destruct (Hpass isNotSemicolon) as [Sty Ssub]; [intros c Hc; by apply token_char in Hc as (_ & _ & ? & _)|].
  assert (Hhead : exists c ty', ty = c :: ty' /\ isHTTPSpace c = false).
  { destruct ty as [|c ty']; [by destruct Hty|]. exists c, ty'. split; [done|]. destruct Hty as [_ [[Hc _] _]%Forall_cons]. by apply token_char in Hc as (? & _). }
  destruct Hhead as (c & ty' & Ety & Hc).
  assert (Hfront : forall l, drop_while isHTTPSpace (ty ++ l) = ty ++ l) by (intros l; rewrite Ety; cbn; by rewrite Hc).
  assert (Htrim : forall l, closed_end (ty ++ l) -> trim isHTTPSpace (ty ++ l) = ty ++ l) by (intros l; rewrite Ety; cbn [app]; by apply trim_sealed).
  unfold sniff_type. rewrite Eser, (Htrim _ Ctext), Hfront. rewrite take_while_app, drop_while_app by done.
  destruct (before_param sub (params (m_parameterNames t))) as [-> _]; [done | apply starts_params |]. rewrite Vty, Rsub, Vsub. cbn [andb].
  destruct (before_param (ty ++ 47 :: sub) (params (m_parameterNames t))) as [Et Ed]; [apply Forall_app; split; [done | by constructor] | apply starts_params |].
  rewrite <- app_assoc in Et, Ed. cbn [app] in Et, Ed. rewrite Et, Ed, (Htrim _ Cmime), fmap_app. cbn [fmap list_fmap]. fold (@fmap list _ Z Z).
  change (toASCIILower 47) with 47. rewrite (lower_token_lower ty Hty), (lower_token_lower sub Hsub).
  set (t0 := Build_ParsedContentType _ _ _ _).
  destruct (m_parameterNames t) as [|n ns] eqn:En.
  - exists t0. rewrite Em. split_and!; [done | done | done |]. symmetry. apply map_empty. intros k. apply eq_None_not_Some. intros Hk.
    apply (wf_dom t W) in Hk. rewrite En in Hk. by apply not_elem_of_nil in Hk.
  - pose proof (wf_unique t W) as Hnd. pose proof (wf_names t W) as Hlow. rewrite En in Hnd, Hlow.
    edestruct (sniff_params ns n t0) as (E1 & E2 & E3); [intros k; by rewrite En | done | done | by intros | | ].
    2: { rewrite params_cons in E1, E2, E3 |- *. cbn [tail] in E1, E2, E3. eexists. split; [reflexivity|]. split; [rewrite E1; by rewrite Em|]. split; [exact E2|].
         apply map_eq. intros k. rewrite E3. destruct (decide (k ∈ n :: ns)) as [|Hk]; [done|]. symmetry. apply eq_None_not_Some. intros Hs.
         apply (wf_dom t W) in Hs. by rewrite En in Hs. }
    pose proof (params_length ns). repeat (rewrite length_app || cbn [length]). lia.
Qed.

End roundtrip.

(** ** What the parser gives *)

Lemma lower_token_char c : Headers.isTokenCharacter c = true -> Headers.isTokenCharacter (toASCIILower c) = true /\ isASCIIUpper (toASCIILower c) = false.
Proof.
  intros Hc. destruct (isASCIIUpper c) eqn:E; [|by rewrite toASCIILower_other].
  assert (G : forallb (fun c => Headers.isTokenCharacter (toASCIILower c) && negb (isASCIIUpper (toASCIILower c))) (seqZ 65 26) = true) by (by vm_compute).
  rewrite forallb_forall in G. specialize (G c). unfold isASCIIUpper in E. apply andb_true_iff in E as [?%Z.leb_le ?%Z.leb_le].
  assert (In c (seqZ 65 26)) as Hin by (apply list_elem_of_In, elem_of_seqZ; lia). apply G in Hin. apply andb_true_iff in Hin as [? ?%negb_true_iff]. done.
Qed.

Lemma lower_token_of l : isValidHTTPToken (Some l) = true -> lower_token (toASCIILower <$> l).
Proof.
  intros [Hne Ha]%valid_token. split; [by destruct l|]. apply Forall_fmap. eapply Forall_impl; [exact Ha|]. intros c Hc. by apply lower_token_char.
Qed.

(** The invariant of the parameters, in which a name may be repeated. *)
Record params_ok (t : ParsedContentType) : Prop := {
  po_names : Forall lower_token (m_parameterNames t);
  po_values : forall k, k ∈ m_parameterNames t -> exists v, m_parameterValues t !! k = Some (Some v) /\ Forall (fun c => isQuotedStringTokenCharacter c = true) v;
  po_dom : forall k, is_Some (m_parameterValues t !! k) -> k ∈ m_parameterNames t }.

Lemma set_parameter_ok t k v : params_ok t ->
  params_ok (setContentTypeParameter t k v MimeSniff) /\ m_mimeType (setContentTypeParameter t k v MimeSniff) = m_mimeType t.
Proof.
  intros [P1 P2 P3]. unfold setContentTypeParameter. rewrite decide_True by done. case_bool_decide; [done|].
  destruct (isValidHTTPToken (Some k)) eqn:Ek; [|done]. cbn [orb negb]. destruct (containsNonQuoteStringTokenCharacters v) eqn:Ev; [done|].
  split; [|done]. rewrite convertToASCIILowercase_spec. apply lower_token_of in Ek. set (n := toASCIILower <$> k) in *. clearbody n.
  assert (Hv : Forall (fun c => isQuotedStringTokenCharacter c = true) v).
  { apply Forall_forall. intros c Hc%list_elem_of_In. destruct (isQuotedStringTokenCharacter c) eqn:Ec; [done|].
    assert (X : containsNonQuoteStringTokenCharacters v = true) by (apply existsb_exists; exists c; by rewrite Ec). congruence. }
  split; cbn.
  - apply Forall_app. split; [done | by constructor].
  - intros k' [Hk|Hk]%elem_of_app; [|apply list_elem_of_singleton in Hk as ->; rewrite lookup_insert_eq; eauto].
    destruct (decide (k' = n)) as [->|]; [rewrite lookup_insert_eq; eauto|]. rewrite lookup_insert_ne by done. by apply P2.
  - intros k' Hk. apply elem_of_app. destruct (decide (k' = n)) as [->|]; [right; by apply list_elem_of_singleton|].
    rewrite lookup_insert_ne in Hk by done. left. by apply P3.
Qed.

Lemma sniff_ok fuel : forall t l, params_ok t -> params_ok (sniff fuel t l) /\ m_mimeType (sniff fuel t l) = m_mimeType t.
Proof.
  induction fuel as [|fuel IH]; intros t l P; [done|]. cbn [sniff]. destruct (drop_while isNotSemicolonOrEqualSign _) as [|c l2]; [done|].
  destruct (c =? 59); [by apply IH|]. destruct (value_ref l2) as [[v|] r]; [|by apply IH].
  set (t1 := match view_of _ with None => t | Some key => _ end).
  assert (P1 : params_ok t1 /\ m_mimeType t1 = m_mimeType t) by (unfold t1; destruct (view_of _); [by apply set_parameter_ok | done]).
  destruct P1 as [P1 <-]. destruct r as [|x r]; [done|]. by apply IH.
Qed.

Lemma rtrim_spaces l : exists sp, l = rtrim l ++ sp /\ Forall (fun c => isHTTPSpace c = true) sp.
Proof.
  induction l as [|c l IH] using rev_ind; [by exists []|]. destruct (decide (c = 32)) as [->|Hc].
  - rewrite rtrim_snoc_space. destruct IH as (sp & E & Hsp). exists (sp ++ [32]). split; [by rewrite app_assoc, <- E|]. apply Forall_app. split; [done | by constructor].
  - rewrite rtrim_snoc by done. exists []. by rewrite app_nil_r.
Qed.

Lemma trim_tail c l sp : isHTTPSpace c = false -> closed_end (c :: l) -> Forall (fun c => isHTTPSpace c = true) sp -> trim isHTTPSpace (c :: l ++ sp) = c :: l.
Proof.
  intros Hc (l' & d & E & Hd) Hsp. unfold trim. cbn [drop_while]. rewrite Hc. rewrite app_comm_cons, E, reverse_app, reverse_snoc.
  rewrite drop_while_app; [by rewrite reverse_cons, reverse_involutive | by apply Forall_reverse | done].
Qed.

Lemma sniff_type_wf s t : sniff_type s = Some t -> NoDup (m_parameterNames t) -> ct_wf t.
Proof.
  unfold sniff_type. set (l1 := drop_while isHTTPSpace _). pose proof (take_drop_while isNotForwardSlash l1) as E1.
  destruct (drop_while isNotForwardSlash l1) as [|c l3] eqn:Ed; [done|]. apply drop_while_head, negb_false_iff, Z.eqb_eq in Ed as ->.
  set (ty := take_while isNotForwardSlash l1) in *. destruct (isValidHTTPToken (Some ty)) eqn:Ety; [|done].
  destruct (isValidHTTPToken (Some (rtrim _))) eqn:Esub; [|done]. cbn [andb].
  set (t0 := Build_ParsedContentType _ _ _ _). intros Et ND.
  assert (P : params_ok t /\ m_mimeType t = m_mimeType t0).
  { assert (P0 : params_ok t0) by (split; cbn; [done | intros k []%not_elem_of_nil | intros k []%lookup_empty_is_Some]).
    destruct (drop_while isNotSemicolon l1) as [|x l4]; [assert (t0 = t) as <- by congruence; done|].
    assert (sniff (S (length (trim isHTTPSpace s))) t0 l4 = t) as <- by congruence. by apply sniff_ok. }
  destruct P as [[P1 P2 P3] Em]. split; [|done..]. rewrite Em. unfold t0; cbn [m_mimeType].
  assert (Sty : Forall (fun c => isNotSemicolon c = true) ty) by (apply tokens_pass; [intros c Hc; apply (token_char c Hc) | done]).
  set (sub := rtrim (take_while isNotSemicolon l3)) in *. destruct (rtrim_spaces (take_while isNotSemicolon l3)) as (sp & Esp & Hsp). fold sub in Esp.
  assert (Er : take_while isNotSemicolon l1 = ty ++ 47 :: sub ++ sp).
  { rewrite <- E1. clearbody ty. clear -Sty Esp. induction Sty as [|x ty Hx _ IH]; cbn; [by rewrite Esp|]. by rewrite Hx, IH. }
  destruct (token_closed sub Esub) as [Csub _]. apply valid_token in Ety as Hty. destruct Hty as [Hne Hall]. destruct ty as [|c ty']; [done|].
  apply Forall_cons in Hall as [Hc _]. apply token_char in Hc as (Hc & _).
  exists (toASCIILower <$> c :: ty'), (toASCIILower <$> sub). split; [|split; by apply lower_token_of].
  rewrite Er. f_equal. cbn [app]. rewrite (app_comm_cons sub), app_assoc.
  rewrite trim_tail; [rewrite (app_comm_cons ty'), fmap_app; reflexivity | done | rewrite app_comm_cons; apply closed_app, (closed_app [47]), Csub | done].
Qed.

(** C33: what a text with a content type means to the sniffing mode is kept when the type is written and read again: if
    the parser in the mode [MimeSniff] accepts a text and no parameter is named twice, then the text that [serialize]
    makes of the result, as long as it fits a string, is accepted in this mode too and gives the same type, the same parameters in the
    same order, and the same values, whatever quotes and backslashes the values contain. *)
Theorem content_type_roundtrip `{ICU} (s : list Z) (t : ParsedContentType) :
  fits s -> create (Some s) MimeSniff = Ok (Some t) -> NoDup (m_parameterNames t) -> fits (serialize t) ->
  exists t', create (Some (serialize t)) MimeSniff = Ok (Some t') /\
    m_mimeType t' = m_mimeType t /\ m_parameterNames t' = m_parameterNames t /\ m_parameterValues t' = m_parameterValues t.
Proof.
  intros Fs E ND Ft. rewrite create_sniff in E by done. injection E as E. pose proof (sniff_type_wf s t E ND) as W.
  destruct (sniff_serialize t W) as (t' & E' & ?). exists t'. by rewrite create_sniff, E'.
Qed.

Definition sample_type : list Z := lit " Text/HTML ; Charset=utf-8;q=" ++ [34] ++ lit "a\b;c" ++ [34] ++ lit ";z".

Lemma content_type_roundtrip_witness : exists t t', create (H := plain_icu) (Some sample_type) MimeSniff = Ok (Some t) /\
  serialize t = lit "text/html;charset=utf-8;q=" ++ [34] ++ lit "ab;c" ++ [34] /\
  create (H := plain_icu) (Some (serialize t)) MimeSniff = Ok (Some t') /\
  m_mimeType t' = m_mimeType t /\ m_parameterNames t' = m_parameterNames t /\ m_parameterValues t' = m_parameterValues t.
Proof.
  destruct (create (H := plain_icu) (Some sample_type) MimeSniff) as [[t|]| | |] eqn:E; try (vm_compute in E; discriminate E).
  assert (Et : m_parameterNames t = [lit "charset"; lit "q"] /\ serialize t = lit "text/html;charset=utf-8;q=" ++ [34] ++ lit "ab;c" ++ [34])
    by (vm_compute in E; injection E as <-; split; vm_compute; reflexivity).
  destruct Et as [En Es].
  destruct (content_type_roundtrip (H := plain_icu) sample_type t) as (t' & E' & H3);
    [by vm_compute | exact E | rewrite En; apply (bool_decide_unpack _); vm_compute; exact I | rewrite Es; by vm_compute |].
  exists t, t'. split; [reflexivity|]. split; [exact Es|]. split; [exact E' | exact H3].
Defined.

(** In the mode [Rfc2045] it is not: the closing quotation mark is a part of the value, and is escaped when the type is written. *)
Theorem rfc2045_not_kept : exists t t',
  create (H := plain_icu) (Some (lit "a/b;c=" ++ [34] ++ lit "d" ++ [34])) Rfc2045 = Ok (Some t) /\
  create (H := plain_icu) (Some (serialize t)) Rfc2045 = Ok (Some t') /\ m_parameterValues t' <> m_parameterValues t.
Proof. eexists _, _. split; [vm_compute; reflexivity|]. split; [vm_compute; reflexivity|]. vm_compute. discriminate. Qed.

(** A name in another case is taken for another parameter when it is checked, and for the same
    when it is stored: the value that came first is lost and the name is listed twice. *)
Theorem parameter_repeats_in_other_case `{ICU} : exists t,
  create (Some (lit "a/b;charset=x;CHARSET=y")) MimeSniff = Ok (Some t) /\ charset t = Some (lit "y") /\
  serialize t = lit "a/b;charset=y;charset=y" /\
  exists t', create (Some (lit "a/b;charset=x;charset=y")) MimeSniff = Ok (Some t') /\ charset t' = Some (lit "x").
Proof.
  rewrite !create_sniff by (by vm_compute). eexists. split; [vm_compute; reflexivity|]. split; [by vm_compute|]. split; [by vm_compute|].
  eexists. split; [vm_compute; reflexivity | by vm_compute].
Qed.

(** ** Every text is read to an end *)

Lemma split_at (input : list Z) i : 0 <= i <= zlen input -> exists pre l, input = pre ++ l /\ zlen pre = i.
Proof.
  intros Hi. exists (take (Z.to_nat i) input), (drop (Z.to_nat i) input). split; [by rewrite take_drop|]. unfold zlen in *. rewrite length_take. lia.
Qed.

Lemma take_while_zlen p l : zlen (take_while p l) <= zlen l.
Proof. rewrite <- (take_drop_while p l) at 2. rewrite zlen_app. pose proof (zlen_nonneg (drop_while p l)). lia. Qed.

Lemma scan_total input i p : fits input -> 0 <= i <= zlen input -> exists j, scan (S (length input)) input i p = Ok j /\ i <= j <= zlen input.
Proof.
  intros F Hi. destruct (split_at input i Hi) as (pre & l & -> & <-). rewrite scan_full by done. eexists. split; [done|].
  pose proof (take_while_zlen p l). rewrite !zlen_app. pose proof (zlen_nonneg (take_while p l)). lia.
Qed.

Lemma parseToken_total input i p m : fits input -> 0 <= i <= zlen input -> exists o j, parseToken input i p m false = Ok (o, j) /\ i <= j <= zlen input.
Proof.
  intros F Hi. destruct (split_at input i Hi) as (pre & l & -> & <-). rewrite parseToken_spec by done. eexists _, _. split; [done|].
  pose proof (take_while_zlen (tok_cond p m) l). rewrite !zlen_app. pose proof (zlen_nonneg (take_while (tok_cond p m) l)). lia.
Qed.

Lemma zlookup_total (input : list Z) i : 0 <= i < zlen input -> exists c, input.[i] = Some c.
Proof.
  intros Hi. destruct (split_at input i ltac:(lia)) as (pre & [|c l] & -> & <-); [rewrite app_nil_r in Hi; lia|]. exists c. apply zlookup_app.
Qed.

Lemma quoted_string_total input : fits input -> forall fuel i b, 0 <= i < zlen input -> zlen input - i < Z.of_nat fuel ->
  exists o j, quoted_string_loop fuel input i b = Ok (o, j) /\ i < j <= zlen input.
Proof.
  intros F. induction fuel as [|fuel IH]; intros i b Hi Hf; [lia|]. cbn [quoted_string_loop]. destruct (zlookup_total input i Hi) as [c ->].
  cbn [or_ub mbind res_bind]. unfold fits in F. rewrite u32_small by lia. destruct (_ || b); [|eexists _, _; split; [done | lia]].
  destruct (Z.leb_spec (zlen input) (i + 1)); [eexists _, _; split; [done | lia]|].
  destruct (_ && _); [destruct (IH (i + 1) true) as (o & j & -> & ?) | destruct (IH (i + 1) false) as (o & j & -> & ?)]; try lia; exists o, j; (split; [done | lia]).
Qed.

Lemma substring_total (input : list Z) i n : 0 <= i -> 0 <= n -> exists l, substring_impl input i n = Ok l.
Proof. intros Hi Hn. rewrite <- (Z2Nat.id i), <- (Z2Nat.id n) by lia. rewrite substring_impl_spec. by eexists. Qed.

Lemma parseQuotedString_total input i : fits input -> 0 <= i <= zlen input -> exists o j, parseQuotedString input i = Ok (o, j) /\ i <= j <= zlen input + 1.
Proof.
  intros F Hi. unfold parseQuotedString. pose proof F as F'. unfold fits in F'. destruct (Z.leb_spec (zlen input) i); [eexists _, _; split; [done | lia]|].
  destruct (zlookup_total input i) as [c ->]; [lia|]. cbn [or_ub mbind res_bind]. rewrite !u32_small by lia.
  destruct (negb (c =? 34)); [eexists _, _; split; [done | lia]|]. cbn [orb]. destruct (Z.leb_spec (zlen input) (i + 1)); [eexists _, _; split; [done | lia]|].
  destruct (quoted_string_total input F (S (length input)) (i + 1) false) as (o & j & -> & Hj); [lia | unfold zlen in *; lia |]. cbn [mbind res_bind].
  destruct o as [e|]; [|eexists _, _; split; [done | lia]]. rewrite (u32_small (j - 1)) by lia. destruct (zlookup_total input (j - 1)) as [d ->]; [lia|]. cbn [or_ub mbind res_bind].
  set (k := if d =? 34 then _ else j). assert (Hk : j <= k <= zlen input + 1) by (unfold k; rewrite u32_small by lia; destruct (d =? 34); lia).
  rewrite (u32_small (k - (i + 1))) by lia. destruct (substring_total input (i + 1) (k - (i + 1))) as [l ->]; [lia..|]. cbn [mbind res_bind]. eexists _, _. split; [done | lia].
Qed.

Lemma parameter_value_rfc `{ICU} input i : fits input -> 0 <= i <= zlen input -> exists o j, parameter_value input i Rfc2045 = Ok (o, j) /\ i <= j <= zlen input + 1.
Proof.
  intros F Hi. unfold parameter_value. destruct (Z.ltb_spec i (zlen input)).
  - destruct (zlookup_total input i) as [c ->]; [lia|]. cbn [or_ub mbind res_bind andb]. destruct (c =? 34); [rewrite decide_False by done; by apply parseQuotedString_total|].
    rewrite bool_decide_eq_false_2 by done. destruct (parseToken_total input i isNotSemicolon Rfc2045 F Hi) as (o & j & -> & ?). exists o, j. split; [done | lia].
  - cbn [mbind res_bind andb]. rewrite bool_decide_eq_false_2 by done. destruct (parseToken_total input i isNotSemicolon Rfc2045 F Hi) as (o & j & -> & ?). exists o, j. split; [done | lia].
Qed.

Lemma parameters_rfc `{ICU} input : fits input -> forall fuel t i, 0 <= i <= zlen input -> zlen input - i < Z.of_nat fuel ->
  exists o, parameters_loop fuel t input i Rfc2045 = Ok o.
Proof.
  intros F. pose proof F as F'. unfold fits in F'. induction fuel as [|fuel IH]; intros t i Hi Hf; [lia|]. cbn [parameters_loop]. unfold skipSpaces.
  destruct (scan_total input i isHTTPSpace F Hi) as (i1 & -> & H1). cbn [mbind res_bind].
  destruct (parseToken_total input i1 isNotSemicolonOrEqualSign Rfc2045 F) as (key & i2 & -> & H2); [lia|]. cbn [mbind res_bind].
  destruct (isNull key); [by eexists|]. cbn [orb]. destruct (Z.leb_spec (zlen input) i2); [by eexists|].
  destruct (zlookup_total input i2) as [c ->]; [lia|]. cbn [or_ub mbind res_bind]. destruct (negb (c =? 61)); [by eexists|]. rewrite u32_small by lia.
  destruct (parameter_value_rfc input (i2 + 1) F) as (v & i3 & -> & H3); [lia|]. cbn [mbind res_bind]. destruct v as [v|]; [|rewrite decide_False by done; by eexists].
  rewrite bool_decide_eq_true_2 by done. cbn [andb]. destruct (Z.ltb_spec i3 (zlen input)).
  - destruct (zlookup_total input i3) as [d ->]; [lia|]. cbn [or_ub mbind res_bind]. destruct (negb (d =? 59)); [by eexists|]. rewrite u32_small by lia.
    destruct (Z.leb_spec (zlen input) (i3 + 1)); [by eexists|]. apply IH; lia.
  - cbn [mbind res_bind]. rewrite (proj2 (Z.leb_le _ _)) by lia. by eexists.
Qed.

Lemma parse_rfc `{ICU} input : fits input -> exists o, parseContentType (ParsedContentType_new (Some input)) Rfc2045 = Ok o.
Proof.
  intros F. pose proof F as F'. unfold fits in F'. pose proof (zlen_nonneg input). unfold parseContentType, ParsedContentType_new. cbn [m_contentType]. change (chars (Some input)) with input.
  destruct (_ && _); [by eexists|]. unfold skipSpaces. destruct (scan_total input 0 isHTTPSpace F) as (i & -> & Hi); [lia|]. cbn [mbind res_bind].
  destruct (Z.leb_spec (zlen input) i); [by eexists|].
  destruct (parseToken_total input i isNotForwardSlash Rfc2045 F) as (ty & i1 & -> & Ha); [lia|]. cbn [mbind res_bind]. destruct ty as [ty|]; [|by eexists].
  destruct (containsNonTokenCharacters ty Rfc2045); [by eexists|]. destruct (Z.leb_spec (zlen input) i1); [by eexists|].
  destruct (zlookup_total input i1) as [c ->]; [lia|]. cbn [or_ub mbind res_bind]. destruct (negb (c =? 47)); [by eexists|]. rewrite u32_small, bool_decide_eq_false_2 by (done || lia).
  destruct (parseToken_total input (i1 + 1) isNotSemicolon Rfc2045 F) as (sub & i2 & -> & Hb); [lia|]. cbn [mbind res_bind]. destruct sub as [sub|]; [|by eexists].
  destruct (containsNonTokenCharacters sub Rfc2045); [by eexists|].
  assert (Hset : forall t range, exists t', setContentType t range Rfc2045 = Ok t').
  { intros t range. unfold setContentType. rewrite decide_False, stripWhiteSpace_spec by done. by eexists. }
  destruct (split_at input i ltac:(lia)) as (pre & l & -> & <-). rewrite find_semicolon by done. cbn [mbind res_bind].
  pose proof (take_while_zlen isNotSemicolon l). pose proof (zlen_nonneg (take_while isNotSemicolon l)). pose proof (zlen_nonneg l). rewrite zlen_app in *. 
  destruct (drop_while isNotSemicolon l) as [|d r] eqn:Ed.
  - rewrite Z.eqb_refl. destruct (substring_total (pre ++ l) (zlen pre) (zlen (pre ++ l) - zlen pre)) as [range ->]; [rewrite ?zlen_app; lia..|]. cbn [mbind res_bind].
    edestruct Hset as [t' ->]. cbn [mbind res_bind]. by eexists.
  - pose proof (take_drop_while isNotSemicolon l) as E. rewrite Ed in E. apply (f_equal zlen) in E. rewrite zlen_app, zlen_cons in E. pose proof (zlen_nonneg r).
    rewrite (proj2 (Z.eqb_neq _ _)) by (unfold notFound, MaxLength in *; lia). rewrite ?zlen_app, !u32_small by lia.
    destruct (substring_total (pre ++ l) (zlen pre) (zlen pre + zlen (take_while isNotSemicolon l) - zlen pre)) as [range ->]; [lia..|]. cbn [mbind res_bind].
    edestruct Hset as [t' ->]. cbn [mbind res_bind]. apply parameters_rfc; [done | rewrite zlen_app; lia | rewrite zlen_app, length_app; unfold zlen in *; lia].
Qed.

(** C34: the parser of content types accepts or refuses every text that fits a string, in both modes:
    it reads within the text only, counts within its 32-bit indexes, and ends. *)
Theorem content_type_total `{ICU} (s : list Z) (mode : Mode) : fits s -> exists o, create (Some s) mode = Ok o.
Proof.
  intros F. destruct mode; [|rewrite create_sniff by done; by eexists]. unfold create. rewrite decide_True by done. by apply parse_rfc.
Qed.

Lemma content_type_total_witness :
  (exists o, create (H := plain_icu) (Some (lit "text/plain;a=" ++ [34] ++ lit "b" ++ [34])) Rfc2045 = Ok o) /\
  create (H := plain_icu) (Some (lit "text")) Rfc2045 = Ok None.
Proof. split; [apply (content_type_total (H := plain_icu)); by vm_compute | by vm_compute]. Defined.

(** In the stricter mode a quoted value keeps its last quote, and a parameter after it is
    refused: the index is moved past the separator. *)
Theorem rfc2045_quoted_value `{ICU} :
  (exists t, create (Some (lit "a/b;c=" ++ [34] ++ lit "d" ++ [34])) Rfc2045 = Ok (Some t) /\ parameterValueForName t (lit "c") = Some (lit "d" ++ [34])) /\
  create (Some (lit "a/b;c=" ++ [34] ++ lit "d" ++ [34] ++ lit ";e=f")) Rfc2045 = Ok None /\
  exists t, create (Some (lit "a/b;c=d;e=f")) Rfc2045 = Ok (Some t) /\ parameterValueForName t (lit "e") = Some (lit "f").
Proof. split; [eexists; split; [vm_compute; reflexivity | by vm_compute]|]. split; [by vm_compute|]. eexists. split; [vm_compute; reflexivity | by vm_compute]. Qed.

End ContentTypeProps.
