(* ===== verification/HttpParserProps.v ===== *)
(** * Correctness of the HTTP parsers

    The check of user agents is shown to decide a grammar, the parser of lists of
    tokens to agree with splitting at commas, and the parsers of request lines
    and header lines to accept the lines of the standard and give their parts.
    As in [HttpContentTypeProps], a position is the length of what is before it. *)
From Stdlib Require Ascii String.
Import String.StringSyntax.
From S2P Require Import Prelude WtfString HttpNames HttpHeaders CmdFilters CmdTask HttpParsers HttpContentType HttpContentTypeProps.

Local Open Scope cf.

Module ParserProps.
Import Str Names Headers Parsers ContentTypeProps.

(** ** Positions *)

Lemma characterAt_app pre c l : fits (pre ++ c :: l) -> characterAt (Some (pre ++ c :: l)) (zlen pre) = Ok c.
Proof.
  intros F. pose proof (pre_small _ _ F) as Hs. rewrite zlen_cons in Hs. pose proof (zlen_nonneg l). unfold characterAt. rewrite u32_small by lia.
  rewrite (proj2 (Z.leb_gt _ _)), zlookup_app by (rewrite zlen_app, zlen_cons; lia). done.
Qed.

Lemma skip_loop_spec p l : forall pre fuel, fits (pre ++ l) -> (length l < fuel)%nat ->
  skip_loop fuel (Some (pre ++ l)) (zlen pre) p = Ok (zlen (pre ++ take_while p l)).
Proof.
  induction l as [|c l IH]; intros pre [|fuel] F Hf; try (cbn in Hf; lia); cbn [skip_loop take_while length_].
  - rewrite app_nil_r, Z.ltb_irrefl. done.
  - pose proof (pre_small _ _ F) as Hs. rewrite zlen_cons in Hs. pose proof (zlen_nonneg l).
    rewrite (proj2 (Z.ltb_lt _ _)), characterAt_app by (done || rewrite zlen_app, zlen_cons; lia). cbn [mbind res_bind].
    destruct (p c); [|by rewrite app_nil_r]. rewrite u32_small by lia. specialize (IH (pre ++ [c]) fuel). rewrite <- app_assoc in IH. cbn [app] in IH.
    replace (zlen pre + 1) with (zlen (pre ++ [c])) by (by rewrite zlen_app). rewrite IH by (done || (cbn in Hf; lia)). f_equal.
    rewrite <- app_assoc. done.
Qed.

Lemma enough_spec pre l : (length l < enough (Some (pre ++ l)))%nat.
Proof. unfold enough. change (chars (Some (pre ++ l))) with (pre ++ l). rewrite length_app. lia. Qed.

Lemma skipWhile_spec pre l p : fits (pre ++ l) ->
  skipWhile (Some (pre ++ l)) (zlen pre) p = Ok (nonempty (take_while p l), zlen (pre ++ take_while p l)).
Proof.
  intros F. unfold skipWhile. rewrite skip_loop_spec by (done || apply enough_spec). cbn [mbind res_bind].
  destruct (take_while p l) as [|x tok]; [by rewrite app_nil_r, Z.eqb_refl|].
  rewrite (proj2 (Z.eqb_neq _ _)) by (rewrite zlen_app, zlen_cons; pose proof (zlen_nonneg tok); lia). done.
Qed.

Lemma skipWhiteSpace_spec pre l : fits (pre ++ l) ->
  skipWhiteSpace (Some (pre ++ l)) (zlen pre) = Ok (nonempty (drop_while isWhitespace l), zlen (pre ++ take_while isWhitespace l)).
Proof.
  intros F. unfold skipWhiteSpace. rewrite skipWhile_spec by done. cbn [mbind res_bind length_]. do 2 f_equal.
  rewrite <- (take_drop_while isWhitespace l) at 2. destruct (drop_while isWhitespace l) as [|c r]; [by rewrite app_nil_r, Z.ltb_irrefl|].
  apply Z.ltb_lt. rewrite !zlen_app, zlen_cons. pose proof (zlen_nonneg r). lia.
Qed.

Lemma skipCharacter_if_spec pre c l p : fits (pre ++ c :: l) ->
  skipCharacter_if (Some (pre ++ c :: l)) (zlen pre) p = Ok (p c, zlen (pre ++ if p c then [c] else [])).
Proof.
  intros F. pose proof (pre_small _ _ F) as Hs. rewrite zlen_cons in Hs. pose proof (zlen_nonneg l). unfold skipCharacter_if. cbn [length_].
  rewrite (proj2 (Z.ltb_lt _ _)), characterAt_app by (done || rewrite zlen_app, zlen_cons; lia). cbn [mbind res_bind].
  destruct (p c); [|by rewrite app_nil_r]. rewrite u32_small by lia. by rewrite zlen_app.
Qed.

Lemma skipCharacter_if_end pre p : skipCharacter_if (Some (pre ++ [])) (zlen pre) p = Ok (false, zlen pre).
Proof. unfold skipCharacter_if. cbn [length_]. by rewrite app_nil_r, Z.ltb_irrefl. Qed.

(** ** Comments *)

(** *( ctext / quoted-pair / comment ), where a comment is a body in parentheses. *)
Inductive comment_body : list Z -> Prop :=
| body_nil : comment_body []
| body_text c b : isCommentText c = true -> comment_body b -> comment_body (c :: b)
| body_pair c b : isQuotedPairSecondOctet c = true -> comment_body b -> comment_body (92 :: c :: b)
| body_comment b1 b2 : comment_body b1 -> comment_body b2 -> comment_body (40 :: b1 ++ 41 :: b2).

Lemma body_run run b : Forall (fun c => isCommentText c = true) run -> comment_body b -> comment_body (run ++ b).
Proof. induction 1; cbn; [done|]. intros. by apply body_text; auto. Qed.

Lemma text_char c : isCommentText c = true -> c <> 40 /\ c <> 41 /\ c <> 92.
Proof. intros Hc. split_and!; intros ->; discriminate Hc. Qed.

Lemma comment_sound fuel : forall pre l, fits (pre ++ l) -> (length l < fuel)%nat -> exists ok pos, comment_loop fuel (Some (pre ++ l)) (zlen pre) = Ok (ok, pos) /\
  (ok = true -> exists b r, l = b ++ 41 :: r /\ comment_body b /\ pos = zlen (pre ++ b ++ [41])).
Proof.
  induction fuel as [|fuel IH]; intros pre l F Hf; [lia|]. cbn [comment_loop length_]. unfold skipCharacter, CommentEndCharacter, CommentStartCharacter, QuotedPairStartCharacter.
  destruct l as [|c l].
  { rewrite (proj2 (Z.ltb_ge _ _)) by (rewrite app_nil_r; lia). rewrite skipCharacter_if_end. by eexists _, _. }
  pose proof (zlen_nonneg l). rewrite (proj2 (Z.ltb_lt _ _)) by (rewrite zlen_app, zlen_cons; lia). rewrite characterAt_app by done. cbn [mbind res_bind].
  destruct (Z.eqb_spec c 41) as [->|N41].
  { rewrite skipCharacter_if_spec by done. eexists _, _. split; [done|]. intros _. exists [], l. split_and!; [done | constructor | done]. }
  (* A step that consumed [q] and goes on with [r]. *)
  assert (step : forall q r, c :: l = q ++ r -> q <> [] -> (forall b, comment_body b -> comment_body (q ++ b)) ->
    exists ok pos, comment_loop fuel (Some (pre ++ c :: l)) (zlen (pre ++ q)) = Ok (ok, pos) /\
      (ok = true -> exists b r, c :: l = b ++ 41 :: r /\ comment_body b /\ pos = zlen (pre ++ b ++ [41]))).
  { intros q r E Hq Hb. rewrite E, app_assoc in F |- *. apply (f_equal length) in E as El. rewrite length_app in El. cbn in El, Hf.
    destruct (IH (pre ++ q) r F) as (ok & pos & -> & Hok); [destruct q; [done|]; cbn in El; lia|]. exists ok, pos. split; [done|]. intros E1.
    destruct (Hok E1) as (b & r' & -> & Hbody & ->). exists (q ++ b), r'. split_and!; [by rewrite <- app_assoc | by apply Hb | by rewrite <- !app_assoc]. }
  destruct (Z.eqb_spec c 40) as [->|N40].
  { unfold comment_with, skipCharacter. rewrite skipCharacter_if_spec by done. change (40 =? CommentStartCharacter) with true. cbn [mbind res_bind negb].
    destruct (IH (pre ++ [40]) l) as (ok & pos & E & Hok); [by rewrite <- app_assoc | cbn in Hf; lia |]. rewrite <- app_assoc in E. cbn [app] in E. rewrite E. cbn [mbind res_bind].
    destruct ok; cbn [negb]; [|by eexists _, _]. destruct Hok as (b & r & -> & Hb & ->); [done|]. rewrite <- app_assoc.
    apply (step ([40] ++ b ++ [41]) r); [cbn; by rewrite <- app_assoc | done|]. intros b2 Hb2. cbn. rewrite <- app_assoc. by apply body_comment. }
  destruct (Z.eqb_spec c 92) as [->|N92].
  { unfold skipQuotedPair, skipCharacter. rewrite skipCharacter_if_spec by done. change (92 =? QuotedPairStartCharacter) with true. cbn [mbind res_bind negb].
    assert (E : pre ++ 92 :: l = (pre ++ [92]) ++ l) by (by rewrite <- app_assoc). rewrite E. destruct l as [|d l].
    { rewrite skipCharacter_if_end. cbn. by eexists _, _. }
    rewrite skipCharacter_if_spec by (by rewrite <- E). cbn [mbind res_bind]. destruct (isQuotedPairSecondOctet d) eqn:Ed; cbn [negb]; [|by eexists _, _].
    rewrite <- E, <- app_assoc. apply (step [92; d] l); [done | done|]. intros b Hb. by apply body_pair. }
  rewrite skipWhile_spec by done. cbn [mbind res_bind]. destruct (take_while isCommentText (c :: l)) as [|x run] eqn:Er; cbn [nonempty negb]; [by eexists _, _|].
  apply (step (x :: run) (drop_while isCommentText (c :: l))); [by rewrite <- Er, take_drop_while | done|]. intros b Hb. apply body_run; [|done]. rewrite <- Er. apply take_while_Forall.
Qed.

(** A body starts with a run of text that ends at something else. *)
Lemma body_split b : comment_body b -> exists run b', b = run ++ b' /\ Forall (fun c => isCommentText c = true) run /\ comment_body b' /\
  match b' with [] => True | c :: _ => isCommentText c = false end.
Proof.
  induction 1 as [|c b Hc Hb (run & b' & -> & Hr & Hb' & Hh)|c b Hc Hb IH|b1 b2 Hb1 IH1 Hb2 IH2].
  - exists [], []. split_and!; try done. constructor.
  - exists (c :: run), b'. split_and!; try done. by constructor.
  - exists [], (92 :: c :: b). split_and!; try done. by apply body_pair.
  - exists [], (40 :: b1 ++ 41 :: b2). split_and!; try done. by apply body_comment.
Qed.

Lemma comment_complete n : forall b pre post fuel, (length b <= n)%nat -> comment_body b -> fits (pre ++ b ++ 41 :: post) -> (length (b ++ 41%Z :: post) < fuel)%nat ->
  comment_loop fuel (Some (pre ++ b ++ 41 :: post)) (zlen pre) = Ok (true, zlen (pre ++ b ++ [41])).
Proof.
  induction n as [n IH] using lt_wf_ind. intros b pre post [|fuel] Hn Hb F Hf; [lia|]. cbn [comment_loop length_].
  unfold CommentEndCharacter, CommentStartCharacter, QuotedPairStartCharacter.
  assert (Hlen : zlen pre < zlen (pre ++ b ++ 41 :: post)) by (rewrite !zlen_app, zlen_cons; pose proof (zlen_nonneg b); pose proof (zlen_nonneg post); lia).
  rewrite (proj2 (Z.ltb_lt _ _)) by done.
  (* Going on after the first part [q] of the body. *)
  assert (step : forall q b', b = q ++ b' -> q <> [] -> comment_body b' ->
    comment_loop fuel (Some (pre ++ b ++ 41 :: post)) (zlen (pre ++ q)) = Ok (true, zlen (pre ++ b ++ [41]))).
  { intros q b' -> Hq Hb'. rewrite !length_app in Hf, Hn. destruct q as [|x q]; [done|]. cbn [length] in Hf, Hn. rewrite ?length_app in Hf. cbn [length] in Hf.
    pose proof (IH (length b') ltac:(lia) b' (pre ++ x :: q) post fuel ltac:(lia) Hb') as G. rewrite <- !app_assoc in G |- *. apply G; [by rewrite <- !app_assoc in F | rewrite length_app; cbn [length]; lia]. }
  destruct (body_split b Hb) as (run & b' & Eb & Hr & Hb' & Hh). destruct run as [|c run].
  - cbn [app] in Eb. subst b'. destruct Hb as [|c b Hc Hb|c b Hc Hb|b1 b2 Hb1 Hb2].
    + cbn [app] in F |- *. rewrite characterAt_app by done. cbn [mbind res_bind]. unfold skipCharacter. rewrite skipCharacter_if_spec by done. done.
    + by rewrite Hc in Hh.
    + cbn [app] in F |- *. rewrite characterAt_app by done. cbn [mbind res_bind]. change (92 =? 41) with false. change (92 =? 40) with false. cbn [Z.eqb Pos.eqb].
      unfold skipQuotedPair, skipCharacter. rewrite skipCharacter_if_spec by done. cbn [mbind res_bind negb Z.eqb Pos.eqb QuotedPairStartCharacter].
      rewrite (cons_middle 92 pre), (app_assoc pre [92]) in F |- *. rewrite skipCharacter_if_spec, Hc by done. cbn [mbind res_bind negb]. rewrite <- !app_assoc. cbn [app].
      by apply (step [92; c] b).
    + cbn [app] in F |- *. rewrite characterAt_app by done. cbn [mbind res_bind]. change (40 =? 41) with false. cbn [Z.eqb Pos.eqb].
      unfold comment_with, skipCharacter. rewrite skipCharacter_if_spec by done. change (40 =? CommentStartCharacter) with true. cbn [mbind res_bind negb].
      rewrite !length_app in Hf. cbn [length] in Hf, Hn. rewrite !length_app in Hf, Hn. cbn [length] in Hf, Hn.
      pose proof (IH (length b1) ltac:(lia) b1 (pre ++ [40]) (b2 ++ 41 :: post) fuel ltac:(lia) Hb1) as G. rewrite <- !app_assoc in G. cbn [app] in G.
      rewrite <- !app_assoc in F |- *. cbn [app] in F |- *. rewrite G; [|done | rewrite !length_app; cbn [length]; rewrite !length_app; cbn [length]; lia]. cbn [mbind res_bind negb].
      specialize (step (40 :: b1 ++ [41]) b2). cbn [app] in step. rewrite <- !app_assoc in step. cbn [app] in step. rewrite <- ?app_assoc. cbn [app]. by apply step.
  - subst b. apply Forall_cons in Hr as [Hc Hr]. destruct (text_char c Hc) as (N1 & N2 & N3). rewrite <- !app_assoc in F |- *. cbn [app] in F |- *.
    rewrite characterAt_app by done. cbn [mbind res_bind]. rewrite !(proj2 (Z.eqb_neq _ _)) by done.
    assert (Et : take_while isCommentText (c :: run ++ b' ++ 41 :: post) = c :: run).
    { destruct b' as [|d b']; cbn [app]; (apply (take_while_app _ (c :: run)); [by constructor | done]). }
    rewrite skipWhile_spec, Et by done. cbn [mbind res_bind nonempty negb]. specialize (step (c :: run) b'). rewrite <- !app_assoc in step. cbn [app] in step. rewrite <- ?app_assoc. cbn [app]. by apply step.
Qed.

(** ** User agents *)

Definition token (t : list Z) : Prop := t <> [] /\ Forall (fun c => isTokenCharacter c = true) t.

(** product = token ["/" token] *)
Inductive product : list Z -> Prop :=
| product_name t : token t -> product t
| product_version t1 t2 : token t1 -> token t2 -> product (t1 ++ 47 :: t2).

(** What may follow: products and comments.  White space is optional, but for two products
    that follow each other; [after_product] tells whether the last item was a product. *)
Inductive items (after_product : bool) : list Z -> Prop :=
| items_nil : items after_product []
| items_product ws p r : Forall (fun c => isWhitespace c = true) ws -> (after_product = true -> ws <> []) -> product p -> items true r ->
    items after_product (ws ++ p ++ r)
| items_comment ws b r : Forall (fun c => isWhitespace c = true) ws -> comment_body b -> items false r -> items after_product (ws ++ 40 :: b ++ 41 :: r).

Definition user_agent (l : list Z) : Prop := exists p r, l = p ++ r /\ product p /\ items true r.

Definition no_token (l : list Z) : Prop := match l with [] => True | c :: _ => isTokenCharacter c = false end.

Lemma token_not c : isTokenCharacter c = true -> isWhitespace c = false /\ c <> 40 /\ c <> 47.
Proof.
  intros Hc. assert (forall d, isTokenCharacter d = false -> c <> d) as Hd by (intros d Hd ->; congruence).
  split; [unfold isWhitespace; rewrite !(proj2 (Z.eqb_neq _ _)) by (by apply Hd); done | split; by apply Hd].
Qed.

Lemma take_while_until p l r : Forall (fun c => p c = true) l -> match r with [] => True | c :: _ => p c = false end -> take_while p (l ++ r) = l /\ drop_while p (l ++ r) = r.
Proof.
  intros Hl Hr. destruct r as [|c r]; [rewrite app_nil_r, take_while_all, drop_while_all by done; done|]. by rewrite take_while_app, drop_while_app.
Qed.

(** The product at the start of a text. *)
Definition product_ref (l : list Z) : option (list Z) :=
  match take_while isTokenCharacter l, drop_while isTokenCharacter l with
  | [], _ => None
  | t1, c :: l2 =>
      if c =? 47 then match take_while isTokenCharacter l2 with [] => None | t2 => Some (t1 ++ 47 :: t2) end else Some t1
  | t1, [] => Some t1
  end.

Lemma drop_while_no_token l : no_token (drop_while isTokenCharacter l).
Proof. destruct (drop_while isTokenCharacter l) eqn:E; [done|]. by apply drop_while_head in E. Qed.

Lemma product_ref_sound l q : product_ref l = Some q -> product q /\ exists r, l = q ++ r /\ no_token r.
Proof.
  unfold product_ref. pose proof (take_while_Forall isTokenCharacter l) as Ht. pose proof (take_drop_while isTokenCharacter l) as El. pose proof (drop_while_no_token l) as Hn.
  destruct (take_while isTokenCharacter l) as [|x t1]; [done|]. destruct (drop_while isTokenCharacter l) as [|c l2].
  { intros [= <-]. split; [by apply product_name | by exists []]. }
  destruct (Z.eqb_spec c 47) as [->|]; [|intros [= <-]; split; [by apply product_name | by eexists]].
  pose proof (take_while_Forall isTokenCharacter l2) as Ht2. pose proof (take_drop_while isTokenCharacter l2) as El2. pose proof (drop_while_no_token l2) as Hn2.
  destruct (take_while isTokenCharacter l2) as [|y t2]; [done|]. intros [= <-]. split; [by apply (product_version (x :: t1) (y :: t2))|].
  exists (drop_while isTokenCharacter l2). split; [|done]. rewrite <- El. rewrite <- El2 at 1. cbn. by rewrite <- app_assoc.
Qed.

Lemma product_ref_complete q r : product q -> no_token r -> (forall r', r <> 47 :: r') -> product_ref (q ++ r) = Some q.
Proof.
  intros Hq Hr H47. unfold product_ref. destruct Hq as [t [Hne Ht]|t1 t2 [Hne Ht] [Hne2 Ht2]].
  - destruct (take_while_until isTokenCharacter t r) as [-> ->]; [done | by destruct r|]. destruct t as [|x t]; [done|]. destruct r as [|c r]; [done|].
    destruct (Z.eqb_spec c 47) as [->|]; [by destruct (H47 r) | done].
  - rewrite <- app_assoc. cbn [app]. rewrite take_while_app, drop_while_app by done. destruct t1 as [|x t1]; [done|]. cbn [Z.eqb Pos.eqb].
    destruct (take_while_until isTokenCharacter t2 r) as [-> _]; [done | by destruct r|]. by destruct t2.
Qed.

Lemma skipProduct_spec pre l : fits (pre ++ l) -> exists ok pos, skipUserAgentProduct (Some (pre ++ l)) (zlen pre) = Ok (ok, pos) /\
  match product_ref l with Some q => ok = true /\ pos = zlen (pre ++ q) | None => ok = false end.
Proof.
  intros F. unfold skipUserAgentProduct, skipHTTPToken, product_ref. rewrite skipWhile_spec by done. cbn [mbind res_bind].
  pose proof (take_drop_while isTokenCharacter l) as El. destruct (take_while isTokenCharacter l) as [|x t1]; [by eexists _, _|]. cbn [nonempty negb].
  set (t := x :: t1) in *. change (match t with [] => None | _ => _ end) with (match drop_while isTokenCharacter l with
    | [] => Some t
    | c :: l2 => if c =? 47 then match take_while isTokenCharacter l2 with [] => None | t2 => Some (t ++ 47 :: t2) end else Some t end).
  clearbody t. unfold skipCharacter. destruct (drop_while isTokenCharacter l) as [|c l2]; subst l; rewrite app_assoc in F |- *.
  { rewrite skipCharacter_if_end. cbn. by eexists _, _. }
  rewrite skipCharacter_if_spec by done. cbn [mbind res_bind]. destruct (Z.eqb_spec c 47) as [->|]; [|rewrite app_nil_r; by eexists _, _].
  rewrite (cons_middle 47 (pre ++ t)), (app_assoc (pre ++ t)) in F |- *. rewrite skipWhile_spec by done.
  destruct (take_while isTokenCharacter l2) as [|y t2] eqn:Et2; [by eexists _, _|]. eexists _, _. split; [done|]. split; [done|]. by rewrite <- !app_assoc.
Qed.

Lemma items_head r : items true r -> no_token r /\ forall r', r <> 47 :: r'.
Proof.
  assert (Hws : forall ws c, Forall (fun c => isWhitespace c = true) (c :: ws) -> isTokenCharacter c = false /\ c <> 47).
  { intros ws c [Hc _]%Forall_cons. split; [destruct (isTokenCharacter c) eqn:E; [apply token_not in E; by destruct E as [E _]; congruence | done] | intros ->; done]. }
  intros H. inversion H as [|ws p r0 Hw Hne Hp Hr E|ws b r0 Hw Hb Hr E]; subst; [done| |].
  - destruct ws as [|c ws]; [by destruct Hne|]. cbn. destruct (Hws _ _ Hw) as [? ?]. split; [done | congruence].
  - destruct ws as [|c ws]; [done|]. cbn. destruct (Hws _ _ Hw) as [? ?]. split; [done | congruence].
Qed.

Lemma skipComment_loop pre l : fits (pre ++ 40 :: l) ->
  skipComment (Some (pre ++ 40 :: l)) (zlen pre) = comment_loop (enough (Some (pre ++ 40 :: l))) (Some (pre ++ 40 :: l)) (zlen (pre ++ [40])).
Proof. intros F. unfold skipComment, comment_with, skipCharacter. rewrite skipCharacter_if_spec by done. done. Qed.

Lemma product_head q : product q -> exists c q', q = c :: q' /\ isTokenCharacter c = true.
Proof.
  intros [t [Hne Ht]|t1 t2 [Hne Ht] _]; [destruct t as [|c t]; [done|] | destruct t1 as [|c t1]; [done|]]; apply Forall_cons in Ht as [Hc _]; by eexists _, _.
Qed.

Lemma agent_sound fuel : forall a pre l, fits (pre ++ l) -> (length l < fuel)%nat -> (a = true -> no_token l) ->
  exists b, user_agent_loop fuel (Some (pre ++ l)) (zlen pre) = Ok b /\ (b = true -> items a l).
Proof.
  induction fuel as [|fuel IH]; intros a pre l F Hf Ha; [lia|]. cbn [user_agent_loop length_]. destruct l as [|x l].
  { rewrite app_nil_r, Z.ltb_irrefl, Z.eqb_refl. eexists. split; [done|]. intros _. constructor. }
  rewrite (proj2 (Z.ltb_lt _ _)) by (rewrite zlen_app, zlen_cons; pose proof (zlen_nonneg l); lia).
  rewrite skipWhiteSpace_spec by done. cbn [mbind res_bind]. pose proof (take_drop_while isWhitespace (x :: l)) as El.
  pose proof (take_while_Forall isWhitespace (x :: l)) as Hws. set (ws := take_while isWhitespace (x :: l)) in *. clearbody ws.
  destruct (drop_while isWhitespace (x :: l)) as [|c r]; cbn [nonempty negb]; [by eexists|]. rewrite <- El, app_assoc in F |- *.
  assert (Hr : (length (c :: r) < S fuel)%nat) by (rewrite <- El, length_app in Hf; lia). rewrite <- El in Ha. clear El Hf x l.
  rewrite characterAt_app by done. cbn [mbind res_bind]. unfold CommentStartCharacter. destruct (Z.eqb_spec c 40) as [->|N40].
  - rewrite skipComment_loop by done. assert (E : (pre ++ ws) ++ 40 :: r = ((pre ++ ws) ++ [40]) ++ r) by (by rewrite <- !app_assoc).
    rewrite E in F |- *. destruct (comment_sound (enough (Some (((pre ++ ws) ++ [40]) ++ r))) ((pre ++ ws) ++ [40]) r F) as (ok & pos & -> & Hok); [apply enough_spec|].
    cbn [mbind res_bind]. destruct ok; cbn [negb]; [|by eexists]. destruct Hok as (b & r' & -> & Hb & ->); [done|].
    assert (E2 : ((pre ++ ws) ++ [40]) ++ b ++ 41 :: r' = (((pre ++ ws) ++ [40]) ++ b ++ [41]) ++ r') by (rewrite <- !app_assoc; reflexivity).
    rewrite E2 in F |- *. destruct (IH false _ r' F) as (res & -> & Hres); [cbn in Hr; rewrite length_app in Hr; cbn in Hr; lia | done |]. exists res. split; [done|]. intros Eres. apply items_comment; auto.
  - destruct (skipProduct_spec (pre ++ ws) (c :: r) F) as (ok & pos & -> & Hok). cbn [mbind res_bind]. destruct (product_ref (c :: r)) as [q|] eqn:Eq; [|subst ok; by eexists].
    destruct Hok as [-> ->]. cbn [negb]. destruct (product_ref_sound _ _ Eq) as (Hq & r' & Er & Hn). rewrite Er in F, Ha, Hr |- *. rewrite app_assoc in F |- *.
    destruct (product_head q Hq) as (c0 & q' & Eq' & Hc0).
    destruct (IH true ((pre ++ ws) ++ q) r' F) as (res & -> & Hres); [rewrite length_app, Eq' in Hr; cbn in Hr; lia | done |]. exists res. split; [done|]. intros Eres.
    apply items_product; auto. intros Ea ->. specialize (Ha Ea). rewrite Eq' in Ha. cbn in Ha. congruence.
Qed.

Lemma agent_complete a l : items a l -> forall pre fuel, fits (pre ++ l) -> (length l < fuel)%nat -> user_agent_loop fuel (Some (pre ++ l)) (zlen pre) = Ok true.
Proof.
  induction 1 as [|a ws p r Hw Hne Hp Hr IH|a ws b r Hw Hb Hr IH]; intros pre [|fuel] F Hf; try lia; cbn [user_agent_loop length_].
  - by rewrite app_nil_r, Z.ltb_irrefl, Z.eqb_refl.
  - destruct (product_head p Hp) as (c & p' & -> & Hc). destruct (token_not c Hc) as (Hcw & N40 & _).
    rewrite (proj2 (Z.ltb_lt _ _)) by (rewrite !zlen_app, !zlen_cons; pose proof (zlen_nonneg p'); pose proof (zlen_nonneg r); pose proof (zlen_nonneg ws); lia).
    rewrite skipWhiteSpace_spec by done. destruct (take_while_until isWhitespace ws ((c :: p') ++ r) Hw Hcw) as [-> ->]. cbn [mbind res_bind nonempty app negb].
    rewrite app_assoc in F |- *. cbn [app] in F. rewrite characterAt_app by done. cbn [mbind res_bind]. unfold CommentStartCharacter. rewrite (proj2 (Z.eqb_neq _ _) N40).
    destruct (skipProduct_spec (pre ++ ws) ((c :: p') ++ r) F) as (ok & pos & E & Hok). cbn [app] in E. rewrite E. cbn [mbind res_bind].
    destruct (items_head r Hr) as [Hn H47]. rewrite product_ref_complete in Hok by done. destruct Hok as [-> ->]. cbn [negb].
    assert (E2 : (pre ++ ws) ++ c :: p' ++ r = ((pre ++ ws) ++ c :: p') ++ r) by (rewrite <- !app_assoc; reflexivity).
    rewrite E2 in F |- *. apply IH; [done|]. rewrite !length_app in Hf. cbn in Hf. lia.
  - rewrite (proj2 (Z.ltb_lt _ _)) by (rewrite !zlen_app, !zlen_cons, zlen_app, zlen_cons; pose proof (zlen_nonneg b); pose proof (zlen_nonneg r); pose proof (zlen_nonneg ws); lia).
    rewrite skipWhiteSpace_spec by done. destruct (take_while_until isWhitespace ws (40 :: b ++ 41 :: r) Hw eq_refl) as [-> ->]. cbn [mbind res_bind nonempty negb].
    rewrite app_assoc in F |- *. rewrite characterAt_app by done. cbn [mbind res_bind]. change (40 =? CommentStartCharacter) with true. cbn iota. rewrite skipComment_loop by done.
    assert (E : (pre ++ ws) ++ 40 :: b ++ 41 :: r = ((pre ++ ws) ++ [40]) ++ b ++ 41 :: r) by (by rewrite <- !app_assoc).
    rewrite E in F |- *. rewrite (comment_complete (length b)) by (done || apply enough_spec). cbn [mbind res_bind negb].
    assert (E2 : ((pre ++ ws) ++ [40]) ++ b ++ 41 :: r = (((pre ++ ws) ++ [40]) ++ b ++ [41]) ++ r) by (rewrite <- !app_assoc; reflexivity).
    rewrite E2 in F |- *. apply IH; [done|].
    rewrite !length_app in Hf. cbn in Hf. rewrite length_app in Hf. cbn in Hf. lia.
Qed.

(** The check of a User-Agent value decides a grammar: a product, then products and comments.
    It is more liberal than the grammar that its comment quotes, which asks for white space
    before every item: here only two products that follow each other need it.  The check ends
    and answers for every text, whatever the nesting of comments. *)
Theorem user_agent_equivalent (l : list Z) : fits l ->
  exists b, isValidUserAgentHeaderValue (Some l) = Ok b /\ (b = true <-> user_agent l).
Proof.
  intros F. unfold isValidUserAgentHeaderValue. destruct (skipProduct_spec [] l F) as (ok & pos & E & Hok). cbn [app] in E. change (zlen (@nil Z)) with 0 in E. rewrite E. cbn [mbind res_bind].
  destruct (product_ref l) as [q|] eqn:Eq.
  - destruct Hok as [-> ->]. cbn [negb app]. destruct (product_ref_sound _ _ Eq) as (Hq & r & -> & Hn).
    destruct (agent_sound (enough (Some (q ++ r))) true q r F) as (b & Eb & Hb); [apply enough_spec | done |]. exists b. split; [done|]. split; [intros Et; exists q, r; auto|].
    intros (p & r' & Epr & Hp & Hr'). destruct (items_head r' Hr') as [Hn' H47]. rewrite Epr, product_ref_complete in Eq by done. injection Eq as ->. apply app_inv_head in Epr as ->.
    rewrite (agent_complete true r' Hr' q) in Eb by (done || apply enough_spec). congruence.
  - subst ok. exists false. split; [done|]. split; [done|]. intros (p & r' & -> & Hp & Hr'). destruct (items_head r' Hr') as [Hn' H47]. by rewrite product_ref_complete in Eq.
Qed.

Lemma user_agent_witness :
  (exists b, isValidUserAgentHeaderValue (Some (lit "A/1(b(c)\))D")) = Ok b /\ (b = true <-> user_agent (lit "A/1(b(c)\))D"))) /\
  isValidUserAgentHeaderValue (Some (lit "A/1(b(c)\))D")) = Ok true /\ isValidUserAgentHeaderValue (Some (lit "A/1/2")) = Ok false.
Proof. split; [apply user_agent_equivalent; by vm_compute | split; by vm_compute]. Defined.

(** ** Request lines *)

Definition word (l : list Z) : Prop := Forall (fun c => c <> 32 /\ c <> 10) l.

(** Method SP Request-URI SP HTTP-Version CRLF, at the start of [data]. *)
Definition request_line (data method url version post : list Z) : Prop :=
  data = method ++ 32 :: url ++ 32 :: version ++ 13 :: 10 :: post /\ word method /\ word url /\ Forall (fun c => c <> 10) version.

Definition version_ref (version : list Z) : HTTPVersion :=
  if bool_decide (version = lit "HTTP/1.0") then HTTP_1_0 else if bool_decide (version = lit "HTTP/1.1") then HTTP_1_1 else Unknown.

Lemma line_word x rest k s1 s2 : word x -> request_line_loop (x ++ rest) k s1 s2 = request_line_loop rest (k + zlen x) s1 s2.
Proof.
  intros Hx. revert k. induction Hx as [|c x [H1 H2] _ IH]; intros k; [cbn; change (zlen (@nil Z)) with 0; by rewrite Z.add_0_r|].
  cbn [app request_line_loop]. rewrite !(proj2 (Z.eqb_neq _ _)) by done. rewrite IH, zlen_cons. f_equal. lia.
Qed.

Lemma line_rest x rest k a b : Forall (fun c => c <> 10) x -> request_line_loop (x ++ rest) k (Some a) (Some b) = request_line_loop rest (k + zlen x) (Some a) (Some b).
Proof.
  intros Hx. revert k. induction Hx as [|c x Hc _ IH]; intros k; [cbn; change (zlen (@nil Z)) with 0; by rewrite Z.add_0_r|].
  cbn [app request_line_loop]. rewrite (proj2 (Z.eqb_neq c 10)) by done. destruct (c =? 32); rewrite IH, zlen_cons; f_equal; lia.
Qed.

Lemma version_of_spec v : fits v -> version_of (Some v) = Ok (version_ref v).
Proof.
  intros F. unfold version_of, version_ref, startsWith. change (chars (Some v)) with v. cbn [length_]. change (zlen (lit "HTTP/1.")) with 7. change (length (lit "HTTP/1.")) with 7%nat.
  destruct (Z.ltb_spec (zlen v) 7) as [Hl|Hl].
  { cbn [mbind res_bind]. rewrite orb_true_r. rewrite !bool_decide_eq_false_2; [done| |]; intros ->; change (zlen _) with 8 in Hl; lia. }
  rewrite (str_equal_spec v (lit "HTTP/1.") 7) by (unfold zlen in Hl; cbn; lia). change (take 7 (lit "HTTP/1.")) with (lit "HTTP/1."). cbn [mbind res_bind].
  destruct (Z.eqb_spec (zlen v) 8) as [E8|N8]; cbn [negb orb].
  2: { rewrite !bool_decide_eq_false_2; [done| |]; intros ->; by apply N8. }
  change (lit "HTTP/1.0") with (lit "HTTP/1." ++ [48]). change (lit "HTTP/1.1") with (lit "HTTP/1." ++ [49]). set (P := lit "HTTP/1.").
  assert (HP : length P = 7%nat) by done. clearbody P. destruct v as [|c w _] using rev_ind; [done|]. rewrite zlen_app in E8. change (zlen [c]) with 1 in E8.
  assert (Hw : length w = 7%nat) by (unfold zlen in E8; lia). rewrite take_app_le, take_ge by lia.
  assert (Hinj : forall d, w ++ [c] = P ++ [d] <-> w = P /\ c = d).
  { intros d. split; [intros E; apply app_inj_1 in E as [? [=]]; [done | lia] | by intros [-> ->]]. }
  case_bool_decide as Ep; cbn [negb].
  - replace 7 with (zlen w) by lia. rewrite characterAt_app by done. cbn [mbind res_bind]. f_equal.
    rewrite (bool_decide_ext _ _ (Hinj 48)), (bool_decide_ext _ _ (Hinj 49)).
    destruct (Z.eqb_spec c 48) as [->|N0]; [by rewrite bool_decide_eq_true_2|]. rewrite bool_decide_eq_false_2 by naive_solver.
    destruct (Z.eqb_spec c 49) as [->|N1]; [by rewrite bool_decide_eq_true_2|]. by rewrite bool_decide_eq_false_2 by naive_solver.
  - by rewrite !bool_decide_eq_false_2 by (rewrite Hinj; naive_solver).
Qed.

Lemma String_from_app pre w post : fits (pre ++ w ++ post) -> String_from (pre ++ w ++ post) (zlen pre) (zlen w) = Ok (Some w).
Proof.
  intros F. pose proof (pre_small _ _ F) as Hs. rewrite zlen_app in Hs. pose proof (zlen_nonneg w). pose proof (zlen_nonneg post). unfold String_from. rewrite u32_small by lia.
  rewrite (proj2 (Z.ltb_ge _ _)) by lia. by rewrite mem_read_app.
Qed.

Lemma request_line_parsed data m u v post failureReason : fits data -> request_line data m u v post ->
  parseHTTPRequestLine data failureReason = Ok (mkRequestLine (zlen data - zlen post) failureReason (Some m) (Some u) (version_ref v)).
Proof.
  intros F (E & Hm & Hu & Hv). unfold parseHTTPRequestLine.
  assert (El : request_line_loop data 0 None None = (zlen m + 1 + zlen u + 1 + zlen v + 1, Some (zlen m), Some (zlen m + 1 + zlen u))).
  { rewrite E, line_word by done. cbn [request_line_loop Z.eqb Pos.eqb]. rewrite line_word by done. cbn [request_line_loop Z.eqb Pos.eqb]. rewrite Z.add_0_l.
    rewrite line_rest by done. cbn [request_line_loop Z.eqb Pos.eqb]. done. }
  rewrite El. pose proof (zlen_nonneg m). pose proof (zlen_nonneg u). pose proof (zlen_nonneg v). pose proof (zlen_nonneg post).
  assert (Hlen : zlen data = zlen m + 1 + zlen u + 1 + zlen v + 2 + zlen post) by (rewrite E, !zlen_app, !zlen_cons, !zlen_app, !zlen_cons, !zlen_app, !zlen_cons; lia).
  rewrite (proj2 (Z.eqb_neq _ _)) by lia.
  assert (Fv : fits v) by (unfold fits in *; lia).
  assert (E13 : data = (m ++ 32 :: u ++ 32 :: v) ++ 13 :: 10 :: post) by (rewrite E, <- !app_assoc; cbn; by rewrite <- !app_assoc).
  replace (zlen m + 1 + zlen u + 1 + zlen v + 1 + 1 - 2) with (zlen (m ++ 32 :: u ++ 32 :: v)) by (rewrite !zlen_app, !zlen_cons, !zlen_app, !zlen_cons; lia).
  rewrite E13 at 1. rewrite zlookup_app. cbn [or_ub mbind res_bind]. cbn [Z.eqb Pos.eqb negb].
  pose proof (String_from_app [] m (32 :: u ++ 32 :: v ++ 13 :: 10 :: post)) as S1. cbn [app] in S1. change (zlen (@nil Z)) with 0 in S1. rewrite <- E in S1. rewrite S1 by done. cbn [mbind res_bind].
  assert (E2 : data = (m ++ [32]) ++ u ++ (32 :: v ++ 13 :: 10 :: post)) by (by rewrite E, <- app_assoc).
  replace (zlen m + 1) with (zlen (m ++ [32])) at 1 by (by rewrite zlen_app). replace (zlen m + 1 + zlen u - zlen m - 1) with (zlen u) by lia.
  pose proof (String_from_app (m ++ [32]) u (32 :: v ++ 13 :: 10 :: post)) as S2. rewrite <- E2 in S2. rewrite S2 by done. cbn [mbind res_bind].
  assert (E3 : data = (m ++ 32 :: u ++ [32]) ++ v ++ (13 :: 10 :: post)) by (rewrite E, <- !app_assoc; cbn; by rewrite <- !app_assoc).
  replace (zlen m + 1 + zlen u + 1) with (zlen (m ++ 32 :: u ++ [32])) at 1 by (rewrite zlen_app, zlen_cons, zlen_app; change (zlen [32]) with 1; lia).
  replace (zlen m + 1 + zlen u + 1 + zlen v + 1 + 1 - (zlen m + 1 + zlen u) - 3) with (zlen v) by lia.
  pose proof (String_from_app (m ++ 32 :: u ++ [32]) v (13 :: 10 :: post)) as S3. rewrite <- E3 in S3. rewrite S3 by done. cbn [mbind res_bind].
  rewrite version_of_spec by done. cbn [mbind res_bind]. do 2 f_equal. lia.
Qed.

(** A word, and what ends it. *)
Lemma word_split l : exists w r, l = w ++ r /\ word w /\ match r with [] => True | c :: _ => c = 32 \/ c = 10 end.
Proof.
  induction l as [|c l (w & r & -> & Hw & Hr)]; [exists [], []; split_and!; [done | constructor | done]|]. destruct (decide (c = 32 \/ c = 10)) as [Hc|Hc].
  - exists [], (c :: w ++ r). split_and!; [done | constructor | done].
  - exists (c :: w), r. split_and!; [done | constructor; [tauto | done] | done].
Qed.

Lemma line_split l : exists w r, l = w ++ r /\ Forall (fun c => c <> 10) w /\ match r with [] => True | c :: _ => c = 10 end.
Proof.
  induction l as [|c l (w & r & -> & Hw & Hr)]; [by exists [], []|]. destruct (decide (c = 10)) as [->|Hc]; [by exists [], (10 :: w ++ r)|].
  exists (c :: w), r. split_and!; [done | by constructor | done].
Qed.

Definition refused (r : res RequestLine) : Prop := exists why, r = Ok (mkRequestLine 0 (Some why) None None Unknown).

Lemma line_unfinished w k s1 s2 : Forall (fun c => c <> 10) w -> exists s1' s2', request_line_loop w k s1 s2 = (k + zlen w, s1', s2').
Proof.
  intros Hw. revert k s1 s2. induction Hw as [|c w Hc _ IH]; intros k s1 s2; cbn [request_line_loop].
  - eexists _, _. change (zlen (@nil Z)) with 0. by rewrite Z.add_0_r.
  - rewrite (proj2 (Z.eqb_neq c 10)), zlen_cons by done. assert (Ek : k + (1 + zlen w) = k + 1 + zlen w) by lia. rewrite Ek.
    destruct (c =? 32), s1, s2; apply IH.
Qed.

(** A text without a line is refused. *)
Lemma request_line_refused data failureReason : fits data ->
  refused (parseHTTPRequestLine data failureReason) \/ exists m u v post, request_line data m u v post.
Proof.
  intros F. unfold parseHTTPRequestLine. destruct (line_split data) as (line & r & E & Hline & Hr). destruct r as [|c post].
  { left. rewrite app_nil_r in E. subst line. destruct (line_unfinished data 0 None None Hline) as (? & ? & ->). rewrite Z.add_0_l, Z.eqb_refl. by eexists. }
  subst c. pose proof (zlen_nonneg post) as Hp. destruct (word_split line) as (m & r & -> & Hm & Hr). apply Forall_app in Hline as [_ Hline].
  assert (Hne : forall k, k <= zlen (m ++ r) -> (k =? zlen data) = false) by (intros k Hk; apply Z.eqb_neq; rewrite E, zlen_app, zlen_cons; lia).
  destruct r as [|c l2].
  { left. rewrite app_nil_r in E, Hne. subst data. rewrite line_word by done. cbn [request_line_loop Z.eqb Pos.eqb]. rewrite Z.add_0_l, Hne by lia. by eexists. }
  apply Forall_cons in Hline as [Hc Hl2]. destruct Hr as [->|]; [|done]. destruct (word_split l2) as (u & r & -> & Hu & Hr). apply Forall_app in Hl2 as [_ Hl3].
  rewrite <- !app_assoc in E. cbn [app] in E. rewrite <- !app_assoc in E. cbn [app] in E.
  destruct r as [|c l3].
  { left. cbn [app] in E. rewrite E at 1. rewrite line_word by done. cbn [request_line_loop Z.eqb Pos.eqb]. rewrite line_word by done. cbn [request_line_loop Z.eqb Pos.eqb].
    rewrite Hne; [by eexists|]. rewrite app_nil_r, zlen_app, zlen_cons. lia. }
  apply Forall_cons in Hl3 as [Hc2 Hl3]. destruct Hr as [->|]; [|done].
  assert (El : request_line_loop data 0 None None = (zlen m + 1 + zlen u + 1 + zlen l3, Some (zlen m), Some (zlen m + 1 + zlen u))).
  { rewrite E, line_word by done. cbn [request_line_loop Z.eqb Pos.eqb]. rewrite line_word by done. cbn [app request_line_loop Z.eqb Pos.eqb]. rewrite Z.add_0_l, line_rest by done. done. }
  destruct l3 as [|d v _] using rev_ind.
  - left. rewrite El. rewrite Hne by (rewrite zlen_app, !zlen_cons, zlen_app, zlen_cons; change (zlen (@nil Z)) with 0; lia).
    assert (E32 : data = (m ++ 32 :: u) ++ 32 :: 10 :: post) by (rewrite E, <- app_assoc; done).
    replace (zlen m + 1 + zlen u + 1 + zlen [] + 1 - 2) with (zlen (m ++ 32 :: u)) by (rewrite zlen_app, zlen_cons; change (zlen (@nil Z)) with 0; lia).
    rewrite E32 at 1. rewrite zlookup_app. cbn [or_ub mbind res_bind Z.eqb Pos.eqb negb]. by eexists.
  - apply Forall_app in Hl3 as [Hv _]. cbn [app] in E. rewrite <- !app_assoc in E. cbn [app] in E. destruct (decide (d = 13)) as [->|Hd].
    + right. exists m, u, v, post. done.
    + left. rewrite El. rewrite Hne by (autorewrite with zlen; lia).
      assert (Ed : data = (m ++ 32 :: u ++ 32 :: v) ++ d :: 10 :: post) by (rewrite E, <- !app_assoc; cbn; by rewrite <- !app_assoc).
      replace (zlen m + 1 + zlen u + 1 + zlen (v ++ [d]) + 1 - 2) with (zlen (m ++ 32 :: u ++ 32 :: v))
        by (rewrite !zlen_app, !zlen_cons, !zlen_app, !zlen_cons; change (zlen (@nil Z)) with 0; lia).
      rewrite Ed at 1. rewrite zlookup_app. cbn [or_ub mbind res_bind]. rewrite (proj2 (Z.eqb_neq _ _) Hd). cbn [negb]. by eexists.
Qed.

(** The parser of request lines finds exactly the lines of the standard: on data that start with
    a method, a space, a URL, a space, a version and CRLF it gives these parts and the length of
    the line; other data are refused, with a reason and without a part.  It reads within the
    data only. *)
Theorem request_line_exact (data : list Z) (failureReason : String) : fits data ->
  (forall m u v post, request_line data m u v post ->
     parseHTTPRequestLine data failureReason = Ok (mkRequestLine (zlen data - zlen post) failureReason (Some m) (Some u) (version_ref v))) /\
  ((forall m u v post, ~ request_line data m u v post) <-> refused (parseHTTPRequestLine data failureReason)).
Proof.
  intros F. assert (G : forall m u v post, request_line data m u v post ->
    parseHTTPRequestLine data failureReason = Ok (mkRequestLine (zlen data - zlen post) failureReason (Some m) (Some u) (version_ref v))) by (intros; by apply request_line_parsed).
  split; [exact G|]. split.
  - intros Hno. destruct (request_line_refused data failureReason F) as [|(m & u & v & post & Hl)]; [done | by destruct (Hno m u v post)].
  - intros [why Ew] m u v post Hl. rewrite (G _ _ _ _ Hl) in Ew. done.
Qed.

Definition sample_line : list Z := lit "GET /index.html HTTP/1.1" ++ 13 :: 10 :: lit "Host".

Lemma request_line_witness : request_line sample_line (lit "GET") (lit "/index.html") (lit "HTTP/1.1") (lit "Host") /\
  parseHTTPRequestLine sample_line None = Ok (mkRequestLine 26 None (Some (lit "GET")) (Some (lit "/index.html")) HTTP_1_1).
Proof.
  assert (Hl : request_line sample_line (lit "GET") (lit "/index.html") (lit "HTTP/1.1") (lit "Host")).
  { split; [reflexivity|]. unfold word. split; [|split]; apply (bool_decide_unpack _); vm_compute; exact I. }
  split; [exact Hl|]. exact (proj1 (request_line_exact sample_line None ltac:(by vm_compute)) _ _ _ _ Hl).
Defined.

(** ** Header lines *)

Section header_lines.
Context `{Filters.Unicode} `{Task.Utf16}.

Lemma name_char c : isValidHeaderNameCharacter c = true -> c <> 13 /\ c <> 10 /\ c <> 58.
Proof. intros Hc. split_and!; intros ->; discriminate Hc. Qed.

Definition start_of (name : list Z) : option Z := match name with [] => None | _ => Some 0 end.

Lemma name_loop_spec name : forall acc rest fuel fr, Forall (fun c => isValidHeaderNameCharacter c = true) name -> (length name < fuel)%nat ->
  name_loop fuel (acc ++ name ++ 58 :: rest) (zlen acc) acc (start_of acc) fr = Ok (NameEnd (zlen (acc ++ name) + 1), acc ++ name, start_of (acc ++ name)).
Proof.
  induction name as [|c name IH]; intros acc rest [|fuel] fr Hn Hf; try (cbn in Hf; lia); cbn [name_loop].
  - cbn [app]. rewrite (proj2 (Z.ltb_lt _ _)) by (rewrite zlen_app, zlen_cons; pose proof (zlen_nonneg rest); lia). rewrite zlookup_app. by rewrite app_nil_r.
  - apply Forall_cons in Hn as [Hc Hn]. destruct (name_char c Hc) as (N1 & N2 & N3).
    rewrite (proj2 (Z.ltb_lt _ _)) by (rewrite !zlen_app, !zlen_cons; pose proof (zlen_nonneg rest); pose proof (zlen_nonneg name); lia).
    cbn [app]. rewrite zlookup_app. cbn [or_ub mbind res_bind]. rewrite !(proj2 (Z.eqb_neq _ _)) by done. rewrite Hc. cbn [negb].
    specialize (IH (acc ++ [c]) rest fuel fr Hn). rewrite <- !app_assoc, zlen_app in IH. cbn [app] in IH. change (zlen [c]) with 1 in IH.
    replace (match start_of acc with None => Some (zlen acc) | Some _ => start_of acc end) with (start_of (acc ++ [c])) by (by destruct acc).
    rewrite IH by (cbn in Hf; lia). done.
Qed.

Lemma spaces_loop_spec n : forall pre rest fuel, match rest with [] => True | c :: _ => c <> 32 end -> (n < fuel)%nat ->
  spaces_loop fuel (pre ++ replicate n 32 ++ rest) (zlen pre) = Ok (zlen pre + Z.of_nat n).
Proof.
  induction n as [|n IH]; intros pre rest [|fuel] Hr Hf; try lia; cbn [spaces_loop replicate app].
  - destruct rest as [|c rest]; [rewrite app_nil_r, Z.ltb_irrefl; f_equal; lia|]. rewrite (proj2 (Z.ltb_lt _ _)) by (rewrite zlen_app, zlen_cons; pose proof (zlen_nonneg rest); lia).
    rewrite zlookup_app. cbn [or_ub mbind res_bind]. rewrite (proj2 (Z.eqb_neq _ _) Hr). f_equal. lia.
  - rewrite (proj2 (Z.ltb_lt _ _)) by (rewrite zlen_app, zlen_cons; pose proof (zlen_nonneg (replicate n 32 ++ rest)); lia). rewrite zlookup_app. cbn [or_ub mbind res_bind Z.eqb Pos.eqb].
    specialize (IH (pre ++ [32]) rest fuel Hr). rewrite <- app_assoc, zlen_app in IH. cbn [app] in IH. change (zlen [32]) with 1 in IH. rewrite IH by lia. f_equal. lia.
Qed.

Definition value_char (c : Z) : Prop := 0 <= c < 128 /\ c <> 13 /\ c <> 10.

Lemma value_loop_spec value : forall pre rest acc fuel, Forall value_char value -> (length value < fuel)%nat ->
  value_loop fuel (pre ++ value ++ 13 :: rest) (zlen pre) acc true = Ok (Some (zlen (pre ++ value) + 1), acc ++ value).
Proof.
  induction value as [|c value IH]; intros pre rest acc [|fuel] Hv Hf; try (cbn in Hf; lia); cbn [value_loop].
  - cbn [app]. rewrite (proj2 (Z.ltb_lt _ _)) by (rewrite zlen_app, zlen_cons; pose proof (zlen_nonneg rest); lia). rewrite zlookup_app. by rewrite !app_nil_r.
  - apply Forall_cons in Hv as [(_ & N1 & N2) Hv].
    rewrite (proj2 (Z.ltb_lt _ _)) by (rewrite !zlen_app, !zlen_cons; pose proof (zlen_nonneg rest); pose proof (zlen_nonneg value); lia).
    cbn [app]. rewrite zlookup_app. cbn [or_ub mbind res_bind]. rewrite !(proj2 (Z.eqb_neq _ _)) by done. cbn [andb orb negb].
    specialize (IH (pre ++ [c]) rest (acc ++ [c]) fuel Hv). rewrite <- !app_assoc, zlen_app in IH. cbn [app] in IH. change (zlen [c]) with 1 in IH. rewrite IH by (cbn in Hf; lia). done.
Qed.

(** The text of a header line, with [n] spaces after the colon. *)
Definition header_line (name : list Z) (n : nat) (value post : list Z) : list Z := name ++ 58 :: replicate n 32 ++ value ++ 13 :: 10 :: post.

Lemma parseHTTPHeader_spec name n value post failureReason :
  Forall (fun c => isValidHeaderNameCharacter c = true) name -> name <> [] -> Forall value_char value -> head value <> Some 32 -> fits (header_line name n value post) ->
  parseHTTPHeader (header_line name n value post) failureReason true =
  match value with
  | [] => Ok (mkHeaderLine 0 (Some (lit "Invalid UTF-8 sequence in header value")) (Some name) None)
  | _ => Ok (mkHeaderLine (zlen name + 1 + Z.of_nat n + zlen value + 1) failureReason (Some name) (Some value))
  end.
Proof.
  intros Hn Hne Hv Hh F. unfold parseHTTPHeader. set (data := header_line name n value post) in *. unfold header_line in data.
  assert (Hlen : zlen data = zlen name + 1 + Z.of_nat n + zlen value + 2 + zlen post) by (unfold data; rewrite !zlen_app, !zlen_cons, !zlen_app, zlen_replicate, !zlen_cons; lia).
  pose proof (zlen_nonneg name). pose proof (zlen_nonneg value). pose proof (zlen_nonneg post).
  assert (Hfuel : (length name + n + length value < S (length data))%nat) by (unfold zlen in Hlen; lia).
  pose proof (name_loop_spec name [] (replicate n 32 ++ value ++ 13 :: 10 :: post) (S (length data)) failureReason Hn ltac:(lia)) as E1. cbn [app] in E1.
  change (zlen (@nil Z)) with 0 in E1. change (start_of []) with (@None Z) in E1. fold data in E1. rewrite E1. cbn [mbind res_bind].
  replace (start_of name) with (Some 0) by (by destruct name).
  pose proof (mem_read_app [] name (58 :: replicate n 32 ++ value ++ 13 :: 10 :: post)) as E2. cbn [app] in E2. change (zlen (@nil Z)) with 0 in E2. fold data in E2. rewrite E2. cbn [mbind res_bind].
  assert (D1 : data = (name ++ [58]) ++ replicate n 32 ++ (value ++ 13 :: 10 :: post)) by (unfold data; by rewrite <- app_assoc).
  replace (zlen name + 1) with (zlen (name ++ [58])) at 1 by (by rewrite zlen_app). rewrite D1 at 2.
  rewrite spaces_loop_spec by ((destruct value; [done | cbn in Hh; congruence]) || lia). cbn [mbind res_bind].
  assert (D2 : data = (name ++ 58 :: replicate n 32) ++ value ++ 13 :: (10 :: post)) by (unfold data; rewrite <- app_assoc; done).
  replace (zlen (name ++ [58]) + Z.of_nat n) with (zlen (name ++ 58 :: replicate n 32)) by (rewrite !zlen_app, zlen_cons, zlen_replicate; change (zlen [58]) with 1; lia).
  rewrite D2 at 2. rewrite value_loop_spec by (done || lia). cbn [mbind res_bind app].
  assert (D3 : data = ((name ++ 58 :: replicate n 32) ++ value ++ [13]) ++ 10 :: post) by (rewrite D2, <- !app_assoc; done).
  replace (zlen ((name ++ 58 :: replicate n 32) ++ value) + 1) with (zlen ((name ++ 58 :: replicate n 32) ++ value ++ [13])) by (rewrite !zlen_app; change (zlen [13]) with 1; lia).
  assert (Hp : zlen ((name ++ 58 :: replicate n 32) ++ value ++ [13]) = zlen name + 1 + Z.of_nat n + zlen value + 1) by (rewrite !zlen_app, zlen_cons, zlen_replicate; change (zlen [13]) with 1; lia).
  rewrite (proj2 (Z.ltb_lt _ _)), (proj2 (Z.leb_gt _ _)) by lia. rewrite D3 at 1. rewrite zlookup_app. cbn [or_ub mbind res_bind orb andb Z.eqb Pos.eqb negb].
  unfold fromUTF8_vector. destruct value as [|c value]; [done|].
  rewrite (proj2 (Z.eqb_neq _ _)) by (rewrite zlen_cons; pose proof (zlen_nonneg value); lia). unfold Task.fromUTF8.
  rewrite (proj2 (Z.ltb_ge _ _)) by (unfold fits in F; lia). rewrite (proj2 (Z.eqb_neq _ _)) by (rewrite zlen_cons; pose proof (zlen_nonneg value); lia).
  assert (forallb isASCII (c :: value) = true) as ->.
  { apply forallb_forall. intros x Hx%list_elem_of_In. eapply Forall_forall in Hv; [|exact Hx]. destruct Hv as [Hx' _]. apply isASCII_spec; lia. }
  cbn [mbind res_bind isNull]. by rewrite Hp.
Qed.

(** A header line that is written in the way of the standard, with any number of spaces before
    the value, is read back: the parser gives the name and the value and stops at the line feed.
    A line without a value, which the standard allows, is refused, with a complaint about its
    encoding. *)
Theorem header_line_roundtrip name n value post failureReason :
  Forall (fun c => isValidHeaderNameCharacter c = true) name -> name <> [] -> Forall value_char value -> head value <> Some 32 ->
  fits (header_line name n value post) ->
  (value <> [] -> parseHTTPHeader (header_line name n value post) failureReason true =
     Ok (mkHeaderLine (zlen (header_line name n value [])  - 1) failureReason (Some name) (Some value))) /\
  (value = [] -> parseHTTPHeader (header_line name n value post) failureReason true =
     Ok (mkHeaderLine 0 (Some (lit "Invalid UTF-8 sequence in header value")) (Some name) None)).
Proof.
  intros Hn Hne Hv Hh F. rewrite parseHTTPHeader_spec by done. split; intros Hv'; [|by rewrite Hv'].
  assert (El : zlen (header_line name n value []) = zlen name + 1 + Z.of_nat n + zlen value + 2)
    by (unfold header_line; rewrite !zlen_app, !zlen_cons, !zlen_app, zlen_replicate, !zlen_cons; change (zlen (@nil Z)) with 0; lia).
  destruct value as [|c value]; [done|]. do 2 f_equal. rewrite El. lia.
Qed.

End header_lines.

Definition no_unicode : Filters.Unicode :=
  {| Filters.U8_NEXT := fun _ i _ => (i + 1, -1); Filters.g_utf8_get_char := fun _ => 0;
     Filters.g_unichar_type := fun _ => Filters.G_UNICODE_ANOTHER; Filters.g_unichar_to_utf8 := fun _ => [] |}.
Definition no_utf16 : Task.Utf16 := {| Task.U16_APPEND := fun _ _ _ => None |}.

Lemma header_line_witness :
  parseHTTPHeader (H := no_unicode) (H0 := no_utf16) (lit "Host: a.b" ++ 13 :: 10 :: lit "X") None true = Ok (mkHeaderLine 10 None (Some (lit "Host")) (Some (lit "a.b"))) /\
  parseHTTPHeader (H := no_unicode) (H0 := no_utf16) (lit "Host:" ++ 13 :: 10 :: lit "X") None true =
    Ok (mkHeaderLine 0 (Some (lit "Invalid UTF-8 sequence in header value")) (Some (lit "Host")) None).
Proof.
  assert (Hname : Forall (fun c => isValidHeaderNameCharacter c = true) (lit "Host")) by (repeat constructor).
  split.
  - refine (proj1 (header_line_roundtrip (H := no_unicode) (H0 := no_utf16) (lit "Host") 1 (lit "a.b") (lit "X") None Hname _ _ _ _) _);
      [discriminate | repeat constructor; discriminate | discriminate | by vm_compute | discriminate].
  - refine (proj2 (header_line_roundtrip (H := no_unicode) (H0 := no_utf16) (lit "Host") 0 [] (lit "X") None Hname _ _ _ _) _);
      [discriminate | constructor | discriminate | by vm_compute | reflexivity].
Defined.

(** ** Lists of tokens *)

(** The tokens between the commas, without the white space around them; none when one of them is
    no token. *)
Fixpoint allow_ref (same : StringImpl -> StringImpl -> bool) (ps : list (list Z)) (set : list StringImpl) : option (list StringImpl) :=
  match ps with
  | [] => Some set
  | p :: ps =>
      let t := trim isHTTPSpace p in
      if bool_decide (t = []) then allow_ref same ps set
      else if isValidHTTPToken (Some t) then allow_ref same ps (set_add same t set) else None
  end.

Lemma strip_start_part p w : forall pre post fuel, (length w < fuel)%nat -> zlen (pre ++ w) = zlen pre + zlen w ->
  strip_start fuel p (pre ++ w ++ post) (zlen pre) (zlen (pre ++ w) - 1) = Ok (zlen (pre ++ take_while p w)).
Proof.
  induction w as [|c w IH]; intros pre post [|fuel] Hf _; try (cbn in Hf; lia); cbn [strip_start take_while].
  - rewrite app_nil_r, (proj2 (Z.leb_gt _ _)) by lia. done.
  - rewrite (proj2 (Z.leb_le _ _)) by (rewrite zlen_app, zlen_cons; pose proof (zlen_nonneg w); lia). cbn [app]. rewrite zlookup_app. cbn [or_ub mbind res_bind].
    destruct (p c); [|by rewrite app_nil_r]. specialize (IH (pre ++ [c]) post fuel). rewrite <- !app_assoc in IH. cbn [app] in IH.
    replace (zlen pre + 1) with (zlen (pre ++ [c])) by (by rewrite zlen_app). rewrite IH; [done | cbn in Hf; lia | autorewrite with zlen; change (zlen (@nil Z)) with 0; lia].
Qed.

Lemma strip_end_part p sp : forall pre c post fuel, p c = false -> Forall (fun c => p c = true) sp -> (length sp < fuel)%nat ->
  strip_end fuel p (pre ++ c :: sp ++ post) (zlen (pre ++ c :: sp) - 1) = Ok (zlen pre).
Proof.
  induction sp as [|x sp IH] using rev_ind; intros pre c post [|fuel] Hc Hsp Hf; try lia; cbn [strip_end].
  - rewrite zlen_app. change (zlen [c]) with 1. replace (zlen pre + 1 - 1) with (zlen pre) by lia. destruct (Z.eqb_spec (zlen pre) 0); [done|].
    cbn [app negb]. rewrite zlookup_app. cbn [or_ub mbind res_bind]. by rewrite Hc.
  - apply Forall_app in Hsp as [Hsp Hx%Forall_inv]. rewrite length_app in Hf. cbn in Hf.
    assert (E : zlen (pre ++ c :: sp ++ [x]) - 1 = zlen (pre ++ c :: sp)) by (autorewrite with zlen; change (zlen (@nil Z)) with 0; lia). rewrite E.
    rewrite (proj2 (Z.eqb_neq _ _)) by (autorewrite with zlen; pose proof (zlen_nonneg pre); pose proof (zlen_nonneg sp); lia). cbn [negb].
    assert (E2 : pre ++ c :: (sp ++ [x]) ++ post = (pre ++ c :: sp) ++ x :: post) by (rewrite <- !app_assoc; reflexivity).
    rewrite E2, zlookup_app. cbn [or_ub mbind res_bind]. rewrite Hx. rewrite <- app_assoc. cbn [app]. by apply IH; [| |lia].
Qed.

(** A piece is white space, or a core that white space surrounds. *)
Lemma trim_cases w : (trim isHTTPSpace w = [] /\ take_while isHTTPSpace w = w) \/
  exists c core sp, w = take_while isHTTPSpace w ++ (c :: core) ++ sp /\ trim isHTTPSpace w = c :: core /\ isHTTPSpace c = false /\ Forall (fun c => isHTTPSpace c = true) sp /\
    exists core' d, c :: core = core' ++ [d] /\ isHTTPSpace d = false.
Proof.
  pose proof (take_drop_while isHTTPSpace w) as E. unfold trim. destruct (drop_while isHTTPSpace w) as [|c r] eqn:Ed.
  { left. rewrite app_nil_r in E. done. }
  right. apply drop_while_head in Ed. destruct (drop_while_split isHTTPSpace (reverse (c :: r))) as (y & Ey & Fy & Hy).
  set (k := drop_while isHTTPSpace (reverse (c :: r))) in *. apply (f_equal reverse) in Ey. rewrite reverse_involutive, reverse_app in Ey.
  destruct k as [|d k].
  { exfalso. cbn in Ey. assert (Hc : Forall (fun c => isHTTPSpace c = true) (c :: r)) by (rewrite Ey; by apply Forall_reverse).
    apply Forall_cons in Hc as [Hc _]. congruence. }
  rewrite reverse_cons in Ey |- *. destruct (reverse k ++ [d]) as [|c' core] eqn:Ek; [by destruct (reverse k)|].
  assert (c' = c) as -> by (cbn in Ey; congruence). exists c, core, (reverse y). split_and!; [by rewrite <- E, Ey at 1 | done | done | by apply Forall_reverse |].
  exists (reverse k), d. by rewrite Ek.
Qed.

Section allow_lists.
Context (same : StringImpl -> StringImpl -> bool).

Definition allow_step (w : list Z) (set : list StringImpl) : bool * list StringImpl :=
  let t := trim isHTTPSpace w in
  if bool_decide (t = []) then (true, set) else if isValidHTTPToken (Some t) then (true, set_add same t set) else (false, set).

Lemma add_spec pre w post set : w <> [] -> fits (pre ++ w ++ post) ->
  addToAccessControlAllowList same (Some (pre ++ w ++ post)) (zlen pre) (zlen (pre ++ w) - 1) set = Ok (allow_step w set).
Proof.
  intros Hw F. unfold addToAccessControlAllowList, allow_step. pose proof (pre_small _ _ F) as Hs. rewrite zlen_app in Hs.
  rewrite strip_start_part by (rewrite ?length_app, ?zlen_app; lia). cbn [mbind res_bind].
  destruct (trim_cases w) as [[Et Ew]|(c & core & sp & Ew & Et & Hc & Hsp & core' & d & Ecd & Hd)]; rewrite Et.
  { rewrite Ew, (proj2 (Z.ltb_lt _ _)), bool_decide_eq_true_2 by (done || lia). done. }
  set (lead := take_while isHTTPSpace w) in *. clearbody lead. subst w. rewrite Ecd in *. pose proof (zlen_nonneg lead). pose proof (zlen_nonneg sp). pose proof (zlen_nonneg core').
  rewrite bool_decide_eq_false_2 by (by destruct core'). rewrite (proj2 (Z.ltb_ge _ _)) by (autorewrite with zlen; change (zlen (@nil Z)) with 0; lia).
  assert (E1 : pre ++ (lead ++ (core' ++ [d]) ++ sp) ++ post = (pre ++ lead ++ core') ++ d :: sp ++ post) by (rewrite <- !app_assoc; reflexivity).
  assert (E2 : pre ++ lead ++ (core' ++ [d]) ++ sp = (pre ++ lead ++ core') ++ d :: sp) by (rewrite <- !app_assoc; done).
  rewrite E1, E2, strip_end_part by (done || (rewrite !length_app; cbn; rewrite ?length_app; lia)). cbn [mbind res_bind].
  assert (E3 : (pre ++ lead ++ core') ++ d :: sp ++ post = (pre ++ lead) ++ (core' ++ [d]) ++ (sp ++ post)) by (rewrite <- !app_assoc; done).
  rewrite E3. rewrite E1, E3 in F. replace (zlen (pre ++ lead ++ core') - zlen (pre ++ lead) + 1) with (zlen (core' ++ [d])) by (autorewrite with zlen; change (zlen (@nil Z)) with 0; lia).
  unfold substring. apply pre_small in F as Hs2. rewrite (zlen_app (core' ++ [d])) in Hs2. pose proof (zlen_nonneg (core' ++ [d])). pose proof (zlen_nonneg (sp ++ post)).
  rewrite !u32_small by lia. rewrite substring_tok by done. cbn [mbind res_bind]. change (chars (Some (core' ++ [d]))) with (core' ++ [d]).
  by destruct (isValidHTTPToken (Some (core' ++ [d]))).
Qed.

Lemma allow_ref_cons w ps set : allow_ref same (w :: ps) set = let '(ok, set) := allow_step w set in if ok then allow_ref same ps set else None.
Proof. cbn [allow_ref]. unfold allow_step. case_bool_decide; [done|]. by destruct (isValidHTTPToken _). Qed.

Lemma allow_step_nil set : allow_step [] set = (true, set).
Proof. done. Qed.

Lemma comma_split l : exists w r, l = w ++ r /\ Forall (fun c => (c =? 44) = false) w /\
  match r with [] => pieces (fun c => c =? 44) l = [w] | c :: r => c = 44 /\ pieces (fun c => c =? 44) l = w :: pieces (fun c => c =? 44) r end.
Proof.
  induction l as [|c l (w & r & -> & Hw & Hr)]; [by exists [], []|]. cbn [pieces]. destruct (Z.eqb_spec c 44) as [->|Hc].
  - exists [], (44 :: w ++ r). split_and!; [done | constructor | done | done].
  - exists (c :: w), r. split; [done|]. split; [constructor; [by apply Z.eqb_neq | done]|]. destruct r as [|x r]; [by rewrite Hr|]. destruct Hr as [-> Hr]. by rewrite Hr.
Qed.

Lemma allow_loop_spec fuel : forall l pre set, fits (pre ++ l) -> (length l < fuel)%nat ->
  allow_list_loop same fuel (Some (pre ++ l)) (zlen pre) set = Ok (allow_ref same (pieces (fun c => c =? 44) l) set).
Proof.
  induction fuel as [|fuel IH]; intros l pre set F Hf; [lia|]. cbn [allow_list_loop length_]. pose proof (pre_small _ _ F) as Hs.
  pose proof (find_uchar_spec (pre ++ l) 44 (length pre) F ltac:(rewrite length_app; lia)) as Ef. rewrite drop_app_length in Ef. fold (zlen pre) in Ef. rewrite Ef. cbn [mbind res_bind].
  destruct (comma_split l) as (w & r & -> & Hw & Hr). destruct r as [|c r].
  - rewrite app_nil_r in F, Hs, Hr |- *. rewrite (proj2 (index_of_None _ _) Hw). rewrite Z.eqb_refl. cbn [negb]. rewrite Hr, allow_ref_cons.
    destruct w as [|x w]; [rewrite app_nil_r, Z.eqb_refl; done|]. rewrite zlen_cons in Hs. pose proof (zlen_nonneg w).
    rewrite (proj2 (Z.eqb_neq _ _)) by (rewrite zlen_app, zlen_cons; lia). cbn [negb]. rewrite u32_small by (rewrite zlen_app, zlen_cons; lia).
    pose proof (add_spec pre (x :: w) [] set ltac:(done)) as Ea. rewrite app_nil_r in Ea. rewrite Ea by done. cbn [mbind res_bind]. by destruct (allow_step (x :: w) set) as [[|] set'].
  - destruct Hr as [-> Hr]. rewrite index_of_app by done. rewrite zlen_app, zlen_cons in Hs. pose proof (zlen_nonneg w). pose proof (zlen_nonneg r).
    fold (zlen w). rewrite (proj2 (Z.eqb_neq _ _)) by (unfold notFound, MaxLength in *; lia). cbn [negb]. rewrite Hr, allow_ref_cons.
    assert (E2 : pre ++ w ++ 44 :: r = (pre ++ w ++ [44]) ++ r) by (rewrite <- !app_assoc; reflexivity).
    assert (Hlen : (length r < fuel)%nat) by (rewrite length_app in Hf; cbn in Hf; lia).
    replace (u32 (zlen pre + zlen w + 1)) with (zlen (pre ++ w ++ [44])) by (rewrite u32_small by lia; autorewrite with zlen; change (zlen (@nil Z)) with 0; lia).
    destruct w as [|x w].
    + change (zlen (@nil Z)) with 0. rewrite Z.add_0_r, Z.eqb_refl. cbn [negb mbind res_bind]. rewrite allow_step_nil, E2. apply IH; [by rewrite <- E2 | done].
    + rewrite zlen_cons in Hs. pose proof (zlen_nonneg w). rewrite (proj2 (Z.eqb_neq _ _)) by (rewrite zlen_cons; lia). cbn [negb].
      replace (u32 (zlen pre + zlen (x :: w) - 1)) with (zlen (pre ++ x :: w) - 1) by (rewrite u32_small; rewrite ?zlen_app, ?zlen_cons; lia).
      rewrite add_spec by done. cbn [mbind res_bind]. destruct (allow_step (x :: w) set) as [[|] set']; cbn [negb]; [|done]. rewrite E2. apply IH; [by rewrite <- E2 | done].
Qed.

(** The parser of lists of header names and methods (CORS) is the split at commas: every part,
    without the white space around it, is put into the set, empty parts are left out, and a part
    that is no token makes the whole list invalid. *)
Theorem allow_list_splits (l : list Z) : fits l ->
  parseAccessControlAllowList same (Some l) = Ok (allow_ref same (pieces (fun c => c =? 44) l) []).
Proof.
  intros F. unfold parseAccessControlAllowList. pose proof (allow_loop_spec (enough (Some l)) l [] [] F) as E. cbn [app] in E. change (zlen (@nil Z)) with 0 in E.
  apply E. apply (enough_spec []).
Qed.

End allow_lists.

Lemma allow_list_witness :
  parseAccessControlAllowList (fun a b => bool_decide (a = b)) (Some (lit " GET, PUT ,,GET")) = Ok (Some [lit "GET"; lit "PUT"]) /\
  parseAccessControlAllowList (fun a b => bool_decide (a = b)) (Some (lit "GET, P T")) = Ok None.
Proof. split; rewrite allow_list_splits by (by vm_compute); by vm_compute. Defined.

End ParserProps.
