(* ===== verification/HttpRange.v ===== *)
(** * Content ranges (network/ParsedContentRange.cpp, network/ParsedContentRange.h)

    The value of a Content-Range header, its parser and its text, with the numbers
    of 64 bits that are read by StringToIntegerConversion.h and written by
    StringConcatenateNumbers.h.  A number is written into a buffer whose length was
    computed by a loop of its own; writing another number of characters is [UB].

    The theorems: a text is accepted exactly when it is a range of the grammar whose
    numbers fit and are ordered, and the text of a valid range is read back. *)
From Stdlib Require Ascii String.
Import String.StringSyntax.
From stdpp Require Import list.
From S2P Require Import Prelude WtfString HttpParsers.

Local Open Scope cf.

Module Range.
Import Str Parsers.

Definition invalidLength : Z := - 2 ^ 63.
Definition unknownLength : Z := 2 ^ 63 - 1.

Record ParsedContentRange := mkRange { m_firstBytePosition : Z; m_lastBytePosition : Z; m_instanceLength : Z }.
#[global] Instance ParsedContentRange_eq_dec : EqDecision ParsedContentRange.
Proof. solve_decision. Defined.

(** [ParsedContentRange()] and [invalidValue]. *)
Definition ParsedContentRange_new : ParsedContentRange := mkRange 0 0 invalidLength.
Definition isValid (r : ParsedContentRange) : bool := negb (m_instanceLength r =? invalidLength).
Definition invalidate (r : ParsedContentRange) : ParsedContentRange :=
  mkRange (m_firstBytePosition r) (m_lastBytePosition r) invalidLength.

Definition areContentRangeValuesValid (firstBytePosition lastBytePosition instanceLength : Z) : bool :=
  if firstBytePosition <? 0 then false else
  if lastBytePosition <? firstBytePosition then false else
  if instanceLength =? unknownLength then true else
  lastBytePosition <? instanceLength.

(** [isAllSpecialCharacters<isASCIIDigit>]. *)
Definition isAllDigits (s : String) : bool := match s with None => true | Some l => forallb isASCIIDigit l end.

Section parse.
Context `{ICU}.

(** The number of a part of the header; [None] where [parseContentRange] returns false.
    The inner [None] is a conversion that failed, which gives zero. *)
Definition digits_part (s : String) : res (option (option Z)) :=
  if negb (isAllDigits s) then Ok None else n ← toInt64Strict s; Ok (Some n).

(** The references are assigned one by one: what they hold at the end, and the result. *)
Definition parseContentRange (headerValue : String) (r : ParsedContentRange) : res (ParsedContentRange * bool) :=
  let prefixLength := 6 in
  b ← startsWith_ headerValue (Some (lit "bytes "));
  if negb b then Ok (r, false) else
  byteSeparatorTokenLoc ← find_uchar headerValue 45 prefixLength;
  if byteSeparatorTokenLoc =? notFound then Ok (r, false) else
  instanceLengthSeparatorToken ← find_uchar headerValue 47 (byteSeparatorTokenLoc + 1);
  if instanceLengthSeparatorToken =? notFound then Ok (r, false) else
  firstByteString ← substring headerValue prefixLength (byteSeparatorTokenLoc - prefixLength);
  first ← digits_part firstByteString;
  match first with
  | None => Ok (r, false)
  | Some None => Ok (mkRange 0 (m_lastBytePosition r) (m_instanceLength r), false)
  | Some (Some firstBytePosition) =>
      let r := mkRange firstBytePosition (m_lastBytePosition r) (m_instanceLength r) in
      lastByteString ← substring headerValue (byteSeparatorTokenLoc + 1) (instanceLengthSeparatorToken - (byteSeparatorTokenLoc + 1));
      last ← digits_part lastByteString;
      match last with
      | None => Ok (r, false)
      | Some None => Ok (mkRange firstBytePosition 0 (m_instanceLength r), false)
      | Some (Some lastBytePosition) =>
          let r := mkRange firstBytePosition lastBytePosition (m_instanceLength r) in
          instanceString ← substring headerValue (instanceLengthSeparatorToken + 1) MaxLength;
          if bool_decide (instanceString = Some (lit "*")) then
            Ok (mkRange firstBytePosition lastBytePosition unknownLength,
                areContentRangeValuesValid firstBytePosition lastBytePosition unknownLength)
          else
            instance_ ← digits_part instanceString;
            match instance_ with
            | None => Ok (r, false)
            | Some None => Ok (mkRange firstBytePosition lastBytePosition 0, false)
            | Some (Some instanceLength) =>
                Ok (mkRange firstBytePosition lastBytePosition instanceLength,
                    areContentRangeValuesValid firstBytePosition lastBytePosition instanceLength)
            end
      end
  end.

(** [ParsedContentRange(const String&)]. *)
Definition ParsedContentRange_parse (headerValue : String) : res ParsedContentRange :=
  '(r, ok) ← parseContentRange headerValue ParsedContentRange_new;
  Ok (if (ok : bool) then r else invalidate r).
End parse.

(** [ParsedContentRange(int64_t, int64_t, int64_t)]. *)
Definition ParsedContentRange_of (firstBytePosition lastBytePosition instanceLength : Z) : ParsedContentRange :=
  let r := mkRange firstBytePosition lastBytePosition instanceLength in
  if negb (areContentRangeValuesValid firstBytePosition lastBytePosition instanceLength) then invalidate r else r.

(** ** Writing (StringConcatenateNumbers.h, IntegerToStringConversion.h) *)

(** [do { ++length; number /= 10; } while (number)] *)
Fixpoint number_length (fuel : nat) (number length' : Z) : res Z :=
  match fuel with
  | O => NoFuel
  | S fuel =>
      let length' := u32 (length' + 1) in
      let number := number / 10 in
      if number =? 0 then Ok length' else number_length fuel number length'
  end.

(** [lengthOfNumberAsStringSigned] for [int64_t]; 20 digits are enough. *)
Definition lengthOfNumberAsStringSigned (number : Z) : res Z :=
  if number <? 0
  then opposite ← signed_result 64 (- number); length' ← number_length 20 (wrap 64 opposite) 0; Ok (u32 (length' + 1))
  else number_length 20 (wrap 64 number) 0.

(** [writeNumberToBufferSigned] for [int64_t]: the characters written. *)
Definition writeNumberToBufferSigned (number : Z) : res StringImpl :=
  if number <? 0
  then
    opposite ← signed_result 64 (- number); '(size, p) ← number_digits (8 * 3 + 1) (wrap 64 opposite) [];
    match size with O => UB | S _ => Ok (45 :: p) end
  else '(_, p) ← number_digits (8 * 3 + 1) (wrap 64 number) []; Ok p.

(** The adapter of a number in [makeString]. *)
Definition number_adapter (number : Z) : res StringImpl :=
  length' ← lengthOfNumberAsStringSigned number;
  p ← writeNumberToBufferSigned number;
  if zlen p =? length' then Ok p else UB.

(** The length of the text is far below the limit of [makeString]. *)
Definition headerValue (r : ParsedContentRange) : res String :=
  if negb (isValid r) then Ok None else
  first ← number_adapter (m_firstBytePosition r);
  last ← number_adapter (m_lastBytePosition r);
  if m_instanceLength r =? unknownLength then Ok (Some (lit "bytes " ++ first ++ lit "-" ++ last ++ lit "/*")) else
  instanceLength ← number_adapter (m_instanceLength r);
  Ok (Some (lit "bytes " ++ first ++ lit "-" ++ last ++ lit "/" ++ instanceLength)).

(** ** Numbers *)

(** The decimal digits of a number that [int64_t] can hold. *)
Definition numeral (ds : list Z) (n : Z) : Prop := digits ds /\ ds <> [] /\ decimal 0 ds = n /\ n <= 2 ^ 63 - 1.

(** Digits without a sign are read exactly: the number, or no number when it is too large. *)
Lemma read_digits_unsigned ds v :
  digits ds -> 0 <= v <= 2 ^ 63 - 1 ->
  read_digits 64 10 v false ds = Ok (if decimal v ds <=? 2 ^ 63 - 1 then Some (decimal v ds, []) else None).
Proof.
  intros D. revert v; induction D as [|c ds Hc D IH]; intros v Hv.
  { cbn [read_digits decimal foldl]. by rewrite (proj2 (Z.leb_le v _)) by lia. }
  cbn [read_digits]. rewrite isCharacterAllowedInBase_10, Hc.
  pose proof (digit_range c Hc) as Rc. unfold digitValue. rewrite Hc. cbn [Z.b2z]. rewrite Z.add_0_r.
  change (2 ^ (64 - 1) - 1) with 9223372036854775807. change (9223372036854775807 / 10) with 922337203685477580.
  change (9223372036854775807 mod 10) with 7. change (2 ^ 63 - 1) with 9223372036854775807 in *.
  change (decimal v (c :: ds)) with (decimal (10 * v + (c - 48)) ds).
  pose proof (decimal_mono (10 * v + (c - 48)) ds D ltac:(lia)) as M.
  destruct (_ || _)%bool eqn:B.
  - rewrite (proj2 (Z.leb_gt _ _)); [done|]. apply orb_true_iff in B as [B|B]; zb; lia.
  - apply orb_false_iff in B as [B1 B2]. apply andb_false_iff in B2. zb.
    assert (10 * v + (c - 48) <= 9223372036854775807) by (destruct B2; zb; lia).
    unfold signed_result. change (2 ^ (64 - 1)) with 9223372036854775808.
    rewrite (proj2 (Z.leb_le (- 9223372036854775808) _)), (proj2 (Z.ltb_lt _ _)) by lia.
    cbn [andb mbind res_bind]. by apply IH; lia.
Qed.

Section numbers.
Context `{ICU}.

Lemma toInt64_digits ds :
  digits ds -> toInt64Strict (Some ds) =
    Ok (match ds with [] => None | _ => if decimal 0 ds <=? 2 ^ 63 - 1 then Some (decimal 0 ds) else None end).
Proof.
  intros D. cbn [toInt64Strict]. unfold toIntegralType. destruct ds as [|c ds]; [done|].
  pose proof D as [Hc _]%Forall_cons. cbn [skip_space]. rewrite (digit_not_space c Hc).
  pose proof (digit_range c Hc). rewrite (proj2 (Z.eqb_neq c 45)), (proj2 (Z.eqb_neq c 43)) by lia.
  rewrite isCharacterAllowedInBase_10, Hc. cbn [negb].
  rewrite read_digits_unsigned by (done || lia). by destruct (_ <=? _).
Qed.

Lemma isAllDigits_spec l : isAllDigits (Some l) = true <-> digits l.
Proof. cbn. rewrite forallb_forall. unfold digits. rewrite Forall_forall. by setoid_rewrite list_elem_of_In. Qed.

Lemma digits_part_spec l :
  exists o, digits_part (Some l) = Ok o /\ forall n, o = Some (Some n) <-> numeral l n.
Proof.
  unfold digits_part, numeral. destruct (isAllDigits (Some l)) eqn:A; cbn [negb].
  - apply isAllDigits_spec in A. rewrite toInt64_digits by done. cbn [mbind res_bind]. eexists. split; [done|]. intros n.
    destruct l as [|c l]; [naive_solver|]. destruct (Z.leb_spec (decimal 0 (c :: l)) (2 ^ 63 - 1)); [naive_solver lia|].
    split; [done|]. intros (_ & _ & <- & ?). lia.
  - eexists. split; [done|]. intros n. split; [done|]. intros [D%isAllDigits_spec _]. congruence.
Qed.
End numbers.

(** ** Exactness of the parser *)

(** The texts of the grammar with two positions, where [total] is the number that the code stores. *)
Definition range_text (first last total : Z) (text : list Z) : Prop :=
  exists d1 d2 t, text = lit "bytes " ++ d1 ++ 45 :: d2 ++ 47 :: t /\ numeral d1 first /\ numeral d2 last /\
    ((t = [42] /\ total = unknownLength) \/ numeral t total).

(** What the code checks: a stored length of [unknownLength] is not compared. *)
Definition ordered_range (first last total : Z) : Prop := first <= last /\ (total = unknownLength \/ last < total).

Lemma numeral_range ds n : numeral ds n -> 0 <= n <= 2 ^ 63 - 1.
Proof. intros (D & _ & <- & ?). pose proof (decimal_mono 0 ds D ltac:(lia)). lia. Qed.

Lemma values_valid first last total :
  0 <= first -> areContentRangeValuesValid first last total = true <-> ordered_range first last total.
Proof.
  intros. unfold areContentRangeValuesValid, ordered_range. rewrite (proj2 (Z.ltb_ge _ _)) by lia.
  destruct (Z.ltb_spec last first); [split; [done|lia]|].
  destruct (Z.eqb_spec total unknownLength); [tauto|]. rewrite Z.ltb_lt. tauto.
Qed.

Section exact.
Context `{ICU}.

Definition free_of (c : Z) (l : list Z) : Prop := Forall (fun x => (x =? c) = false) l.

Lemma digits_free ds c : digits ds -> isASCIIDigit c = false -> free_of c ds.
Proof.
  intros D Hc. eapply Forall_impl; [exact D|]. intros x Hx. apply Z.eqb_neq. congruence.
Qed.

(** The text between the separators, and the positions the parser finds. *)
Lemma range_positions d1 d2 t :
  let s := lit "bytes " ++ d1 ++ 45 :: d2 ++ 47 :: t in
  let dash := 6 + zlen d1 in
  let slash := dash + 1 + zlen d2 in
  fits s -> free_of 45 d1 -> free_of 47 d2 ->
  find_uchar (Some s) 45 6 = Ok dash /\ find_uchar (Some s) 47 (dash + 1) = Ok slash /\ slash < notFound /\
  substring (Some s) 6 (dash - 6) = Ok (Some d1) /\
  substring (Some s) (dash + 1) (slash - (dash + 1)) = Ok (Some d2) /\
  substring (Some s) (slash + 1) MaxLength = Ok (Some t).
Proof.
  intros s dash slash F F1 F2.
  assert (L : length s = (6 + length d1 + 1 + length d2 + 1 + length t)%nat).
  { unfold s. rewrite !length_app. cbn [length]. rewrite length_app. cbn. lia. }
  pose proof F as Fs. unfold fits, zlen, MaxLength in Fs. change (2 ^ 31 - 1) with 2147483647 in Fs.
  assert (D1 : drop 6 s = d1 ++ 45 :: d2 ++ 47 :: t) by done.
  assert (D2 : drop (6 + length d1 + 1) s = d2 ++ 47 :: t).
  { rewrite <- (drop_drop s), <- (drop_drop s), D1, drop_app_length. done. }
  assert (D3 : drop (6 + length d1 + 1 + length d2 + 1) s = t).
  { rewrite <- (drop_drop s), <- (drop_drop s), D2, drop_app_length. done. }
  unfold slash, dash, zlen, notFound.
  change 6 with (Z.of_nat 6). change 1 with (Z.of_nat 1). rewrite <- !Nat2Z.inj_add.
  split_and!.
  - rewrite find_uchar_spec by (done || lia). rewrite D1, index_of_app by done. f_equal. lia.
  - rewrite find_uchar_spec by (done || lia). rewrite D2, index_of_app by done. f_equal. lia.
  - change (Z.of_nat 1) with 1. change (2 ^ 64 - 1) with 18446744073709551615. lia.
  - rewrite <- Nat2Z.inj_sub by lia. unfold MaxLength in *.
    rewrite substring_spec by (unfold MaxLength; change (2 ^ 31) with 2147483648; lia). rewrite D1.
    replace (6 + length d1 - 6)%nat with (length d1) by lia. by rewrite take_app_length.
  - rewrite <- Nat2Z.inj_sub by lia.
    rewrite substring_spec by (unfold MaxLength; change (2 ^ 31) with 2147483648; lia). rewrite D2.
    replace (_ - _)%nat with (length d2) by lia. by rewrite take_app_length.
  - rewrite substring_rest by (done || unfold MaxLength; change (2 ^ 31) with 2147483648; lia). by rewrite D3.
Qed.

Lemma star_numeral n : ~ numeral [42] n.
Proof. intros ([? _]%Forall_cons & _). done. Qed.

(** The three parts decide. *)
Lemma parse_parts d1 d2 t :
  let s := lit "bytes " ++ d1 ++ 45 :: d2 ++ 47 :: t in
  fits s -> free_of 45 d1 -> free_of 47 d2 ->
  exists r ok, parseContentRange (Some s) ParsedContentRange_new = Ok (r, ok) /\
    forall first last total, ok = true /\ r = mkRange first last total <->
      numeral d1 first /\ numeral d2 last /\ ((t = [42] /\ total = unknownLength) \/ numeral t total) /\
      ordered_range first last total.
Proof.
  intros s F F1 F2. destruct (range_positions d1 d2 t F F1 F2) as (P1 & P2 & P3 & S1 & S2 & S3).
  fold s in P1, P2, S1, S2, S3. unfold parseContentRange.
  assert (startsWith_ (Some s) (Some (lit "bytes ")) = Ok true) as ->
    by (cbn [startsWith_]; rewrite startsWith_spec, bool_decide_eq_true_2; done). cbn [mbind res_bind negb].
  pose proof (zlen_nonneg d1). pose proof (zlen_nonneg d2).
  rewrite P1. cbn [mbind res_bind]. rewrite (proj2 (Z.eqb_neq _ notFound)) by lia.
  rewrite P2. cbn [mbind res_bind]. rewrite (proj2 (Z.eqb_neq _ notFound)) by lia.
  rewrite S1. cbn [mbind res_bind]. destruct (digits_part_spec d1) as (o1 & -> & N1). cbn [mbind res_bind].
  destruct o1 as [[first|]|];
    [|by eexists _, false; split; [done|]; intros ???; split; [intros [? _]|intros (X%N1 & _)]..].
  pose proof (proj1 (N1 first) eq_refl) as M1.
  rewrite S2. cbn [mbind res_bind]. destruct (digits_part_spec d2) as (o2 & -> & N2). cbn [mbind res_bind].
  destruct o2 as [[last|]|];
    [|by eexists _, false; split; [done|]; intros ???; split; [intros [? _]|intros (_ & X%N2 & _)]..].
  pose proof (proj1 (N2 last) eq_refl) as M2. rewrite S3. cbn [mbind res_bind].
  pose proof (numeral_range _ _ M1). assert (U1 : forall n, numeral d1 n -> n = first) by (intros n ?%N1; congruence).
  assert (U2 : forall n, numeral d2 n -> n = last) by (intros n ?%N2; congruence).
  case_bool_decide as E.
  - injection E as ->. eexists _, _. split; [done|]. intros f l tt. rewrite values_valid by lia.
    split; [intros [? [= <- <- <-]]; split_and!; [done..|by left|done]|].
    intros (->%U1 & ->%U2 & [[_ ->]|[]%star_numeral] & ?). done.
  - destruct (digits_part_spec t) as (o3 & -> & N3). cbn [mbind res_bind].
    assert (t <> [42]) by (intros ->; done).
    destruct o3 as [[total|]|];
      [|by eexists _, false; split; [done|]; intros ???; split; [intros [? _]|intros (_ & _ & [[? _]|X%N3] & _)]..].
    eexists _, _. split; [done|]. intros f l tt. rewrite values_valid by lia. split.
    + intros [Ho [= <- <- <-]]. split_and!; [done..|right; by apply N3|done].
    + intros (->%U1 & ->%U2 & [[? _]|Ht%N3] & Ho); [done|]. injection Ht as ->. done.
Qed.

Lemma split_first c l : free_of c l \/ exists pre post, l = pre ++ c :: post /\ free_of c pre.
Proof.
  destruct (index_of (fun x => x =? c) l) as [k|] eqn:E; [right|left; by apply index_of_None].
  apply index_of_Some in E as (pre & c' & post & -> & _ & ->%Z.eqb_eq & ?). eauto.
Qed.

Lemma find_char_nothing s c i :
  fits s -> (i <= length s)%nat -> free_of c (drop i s) -> find_uchar (Some s) c (Z.of_nat i) = Ok notFound.
Proof. intros. rewrite find_uchar_spec by done. by rewrite (proj2 (index_of_None _ _)). Qed.

Lemma range_text_free first last total s :
  range_text first last total s -> exists d1 d2 t, s = lit "bytes " ++ d1 ++ 45 :: d2 ++ 47 :: t /\ free_of 45 d1 /\ free_of 47 d2.
Proof.
  intros (d1 & d2 & t & -> & (D1 & _) & (D2 & _) & _). exists d1, d2, t. split_and!; [done|by apply digits_free..].
Qed.

Lemma first_unique c a b a' b' : free_of c a -> free_of c a' -> a ++ c :: b = a' ++ c :: b' -> a = a' /\ b = b'.
Proof.
  intros Fa Fa' E. pose proof (index_of_app (fun x => x =? c) a c b (Z.eqb_refl c) Fa) as I.
  rewrite E, (index_of_app (fun x => x =? c) a' c b' (Z.eqb_refl c) Fa') in I. injection I as I.
  apply app_inj_1 in E as [-> [= ->]]; done.
Qed.

Definition range_shape (s : list Z) : Prop :=
  exists d1 d2 t, s = lit "bytes " ++ d1 ++ 45 :: d2 ++ 47 :: t /\ free_of 45 d1 /\ free_of 47 d2.

Lemma parse_rejects s :
  fits s -> ~ range_shape s -> parseContentRange (Some s) ParsedContentRange_new = Ok (ParsedContentRange_new, false).
Proof.
  intros F N. unfold parseContentRange. cbn [startsWith_]. rewrite startsWith_spec. cbn [mbind res_bind].
  case_bool_decide as T; [|done]. cbn [negb]. change (length (lit "bytes ")) with 6%nat in T.
  rewrite <- (take_drop 6 s), T in F, N |- *. set (r := drop 6 s) in *. clearbody r. clear s T.
  assert (Ls : (6 <= length (lit "bytes " ++ r))%nat) by (rewrite length_app; cbn; lia).
  destruct (split_first 45 r) as [F1|(d1 & r' & -> & F1)].
  { change 6 with (Z.of_nat 6). by rewrite find_char_nothing. }
  assert (D : drop 6 (lit "bytes " ++ d1 ++ 45 :: r') = d1 ++ 45 :: r') by done.
  assert (Hf := F). unfold fits, zlen, MaxLength in Hf. rewrite !length_app in Hf. cbn [length] in Hf.
  change (length (lit "bytes ")) with 6%nat in Hf. change (2 ^ 31 - 1) with 2147483647 in Hf.
  match goal with |- context [find_uchar ?s 45 6] => change (find_uchar s 45 6) with (find_uchar s 45 (Z.of_nat 6)) end.
  rewrite find_uchar_spec, D, index_of_app by done. cbn [mbind res_bind].
  rewrite (proj2 (Z.eqb_neq _ notFound)) by (unfold notFound; change (2 ^ 64) with 18446744073709551616; lia).
  destruct (split_first 47 r') as [F2|(d2 & t & -> & F2)].
  - replace (Z.of_nat 6 + Z.of_nat (length d1) + 1) with (Z.of_nat (6 + (length d1 + 1))) by lia.
    rewrite find_char_nothing; [done|done|rewrite !length_app; cbn; lia|].
    rewrite <- (drop_drop (lit "bytes " ++ d1 ++ 45 :: r')), D. by rewrite <- drop_drop, drop_app_length.
  - destruct N. by exists d1, d2, t.
Qed.

End exact.

Lemma total_valid t first last total :
  (t = [42] /\ total = unknownLength) \/ numeral t total -> isValid (mkRange first last total) = true.
Proof.
  intros T. unfold isValid. cbn [m_instanceLength]. apply negb_true_iff, Z.eqb_neq. unfold invalidLength.
  change (- 2 ^ 63) with (- 9223372036854775808). destruct T as [[_ ->]|T%numeral_range]; [done|lia].
Qed.

Lemma content_range_parses `{ICU} s :
  fits s -> exists r, ParsedContentRange_parse (Some s) = Ok r /\
    forall first last total, isValid r = true /\ r = mkRange first last total <->
      range_text first last total s /\ ordered_range first last total.
Proof.
  intros F. unfold ParsedContentRange_parse.
  assert (Sh : range_shape s \/ ~ range_shape s).
  { destruct (decide (take 6 s = lit "bytes ")) as [T|T]; [|right; intros (d1 & d2 & t & -> & _); by apply T].
    rewrite <- (take_drop 6 s), T. destruct (split_first 45 (drop 6 s)) as [F1|(d1 & r & E & F1)].
    { right. intros (d1 & d2 & t & E & _ & _). apply app_inv_head in E. rewrite E in F1.
      apply Forall_app in F1 as [_ [? _]%Forall_cons]. done. }
    rewrite E. destruct (split_first 47 r) as [F2|(d2 & t & -> & F2)]; [|left; by exists d1, d2, t].
    right. intros (d1' & d2 & t & E' & F1' & _). apply app_inv_head in E'.
    destruct (first_unique 45 _ _ _ _ F1 F1' E') as [-> ->]. apply Forall_app in F2 as [_ [? _]%Forall_cons]. done. }
  destruct Sh as [(d1 & d2 & t & -> & F1 & F2)|N].
  - destruct (parse_parts d1 d2 t F F1 F2) as (r & ok & -> & R). cbn [mbind res_bind]. eexists. split; [done|].
    intros first last total. etrans; [|etrans; [apply (R first last total)|]].
    + destruct ok; [|by split; intros [? _]]. split; [tauto|]. intros [_ E]. split; [|done].
      destruct (proj1 (R first last total) (conj eq_refl E)) as (_ & _ & T & _). rewrite E. by apply (total_valid t).
    + split; [intros (? & ? & ? & ?); split; [by exists d1, d2, t|done]|].
      intros [(e1 & e2 & t' & E & N1 & N2 & N3) O]. apply app_inv_head in E.
      destruct (first_unique 45 _ _ _ _ F1 (digits_free _ 45 (proj1 N1) eq_refl) E) as [-> E2].
      destruct (first_unique 47 _ _ _ _ F2 (digits_free _ 47 (proj1 N2) eq_refl) E2) as [-> ->]. done.
  - rewrite parse_rejects by done. eexists. split; [done|]. intros first last total. split; [by intros [? _]|].
    intros [T%range_text_free _]. by destruct N.
Qed.


(** A text of the grammar with two positions and a length, which is a number or a star ([None]). *)
Definition range_header (first last : Z) (length : option Z) (text : list Z) : Prop :=
  exists d1 d2 t, text = lit "bytes " ++ d1 ++ 45 :: d2 ++ 47 :: t /\ numeral d1 first /\ numeral d2 last /\
    match length with None => t = [42] | Some n => numeral t n end.

(** The positions are in order and inside the length, if it is given. *)
Definition in_order (first last : Z) (length : option Z) : Prop :=
  first <= last /\ match length with None => True | Some n => last < n end.

Lemma range_header_text first last total text :
  range_text first last total text <-> exists length, range_header first last length text /\ total = default unknownLength length.
Proof.
  split.
  - intros (d1 & d2 & t & -> & N1 & N2 & [[-> ->]|N3]); [exists None|exists (Some total)]; (split; [|done]); by exists d1, d2; eexists.
  - intros ([n|] & (d1 & d2 & t & -> & N1 & N2 & N3) & ->); exists d1, d2, t; split_and!; try done; [by right|by left].
Qed.

(** C35: a Content-Range header is accepted when it is "bytes ", two numbers with
    a dash between them, a slash and a number or a star, where the numbers fit 64 bits, the
    first is at most the second and the second is below the length, and only then with one exception: a length written as
    2^63-1 is the code's mark for an unknown one, and then the second number is not compared with it.  The positions and the length
    are the numbers written.  The form "bytes */n", which the grammar in the source has too, is
    never accepted.  Parsing returns for every header and touches nothing outside of it. *)
Theorem content_range_exact `{ICU} s :
  fits s -> exists r, ParsedContentRange_parse (Some s) = Ok r /\
    (forall first last length, range_header first last length s -> in_order first last length ->
       isValid r = true /\ r = mkRange first last (default unknownLength length)) /\
    (isValid r = true -> exists first last length, range_header first last length s /\ r = mkRange first last (default unknownLength length) /\
       (in_order first last length \/ (length = Some (2 ^ 63 - 1) /\ first <= last))) /\
    (forall t, s = lit "bytes */" ++ t -> isValid r = false).
Proof.
  intros F. destruct (content_range_parses s F) as (r & E & R). exists r. split; [done|].
  assert (Sound : isValid r = true -> exists first last length, range_header first last length s /\ r = mkRange first last (default unknownLength length) /\
       (in_order first last length \/ (length = Some (2 ^ 63 - 1) /\ first <= last))).
  { intros V. destruct r as [first last total]. destruct (proj1 (R first last total) (conj V eq_refl)) as [T O].
    apply range_header_text in T as (length & T & ->). exists first, last, length. split_and!; [done..|].
    destruct O as [O1 O2]. destruct length as [n|]; [|by left]. cbn in O2. destruct O2 as [->|O2]; [by right|by left]. }
  split_and!; [|exact Sound|].
  - intros first last length T [O1 O2]. apply R. split; [apply range_header_text; eauto|]. split; [done|]. destruct length as [n|]; [by right|by left].
  - intros t ->. destruct (isValid r); [|done]. destruct (Sound eq_refl) as (f & l & length & (d1 & d2 & t' & E' & (D1 & Hn & _) & _) & _).
    destruct d1 as [|x d1]; [done|]. injection E' as <- _. apply Forall_cons in D1 as [D1 _]. done.
Qed.

Lemma content_range_exact_witness :
  exists r, @ParsedContentRange_parse plain_icu (Some (lit "bytes 5-9/012")) = Ok r /\ isValid r = true /\ r = mkRange 5 9 12.
Proof.
  destruct (@content_range_exact plain_icu (lit "bytes 5-9/012")) as (r & E & C & _); [by vm_compute|]. exists r. split; [exact E|].
  apply (C 5 9 (Some 12)); [|split; lia]. exists [53], [57], (lit "012").
  unfold numeral, digits. split_and!; try done; try (by vm_compute); repeat (apply List.Forall_cons; [reflexivity|]); constructor.
Defined.

(** A range that ends behind the length that is written: the code takes the length for the mark of an unknown one. *)
Theorem range_past_largest_length : exists r,
  @ParsedContentRange_parse plain_icu (Some (lit "bytes 0-9223372036854775807/9223372036854775807")) = Ok r /\ isValid r = true.
Proof. eexists. split; vm_compute; reflexivity. Qed.

(** ** Writing *)

Lemma number_length_spec fuel k n l :
  (1 <= k <= fuel)%nat -> 0 <= n < 10 ^ Z.of_nat k -> 0 <= l <= 1000 - Z.of_nat fuel -> (fuel <= 100)%nat ->
  forall size p, exists size' ds, number_digits (fuel + size) n p = Ok (size', ds ++ p) /\
    number_length fuel n l = Ok (l + zlen ds).
Proof.
  revert k n l; induction fuel as [|fuel IH]; intros k n l Hk Hn Hl Hf size p; [lia|].
  cbn [number_length number_digits Nat.add].
  assert (U : u32 (l + 1) = l + 1) by (apply wrap_small; change (2 ^ 32) with 4294967296; lia). rewrite U.
  destruct (Z.eqb_spec (n / 10) 0) as [E|E]; [by eexists _, [_]|].
  destruct k as [|[|k]]; [lia|exfalso; apply E, Z.div_small; cbn in Hn; lia|].
  destruct (IH (S k) (n / 10) (l + 1) ltac:(lia)) with (size := size) (p := n mod 10 + 48 :: p) as (size' & ds & -> & ->); [|lia..|].
  - rewrite Nat2Z.inj_succ, Z.pow_succ_r in Hn by lia. split; [apply Z.div_pos; lia|apply Z.div_lt_upper_bound; lia].
  - eexists size', (ds ++ [n mod 10 + 48]). rewrite <- app_assoc. split; [done|]. rewrite zlen_app, zlen_cons, zlen_nil. f_equal. lia.
Qed.

Lemma number_adapter_spec n :
  0 <= n <= 2 ^ 63 - 1 -> exists ds, number_adapter n = Ok ds /\ numeral ds n /\ zlen ds <= 19.
Proof.
  change (2 ^ 63 - 1) with 9223372036854775807. intros Hn.
  destruct (number_digits_spec (8 * 3 + 1) n [] 19) as (size' & ds & E & D & Nn & V & _ & L & _);
    [lia|change (10 ^ Z.of_nat 19) with 10000000000000000000; lia|].
  destruct (number_length_spec 20 19 n 0 ltac:(lia)) with (size := 5%nat) (p := @nil Z) as (z' & ds' & E' & Le);
    [change (10 ^ Z.of_nat 19) with 10000000000000000000; lia|lia..|].
  change (20 + 5)%nat with (8 * 3 + 1)%nat in E'. rewrite E in E'. injection E' as <- E'. rewrite !app_nil_r in E'. subst ds'.
  exists ds. unfold number_adapter, lengthOfNumberAsStringSigned, writeNumberToBufferSigned.
  rewrite (proj2 (Z.ltb_ge n 0)) by lia.
  rewrite wrap_small by (change (2 ^ 64) with 18446744073709551616; lia). rewrite Le, E, app_nil_r. cbn [mbind res_bind].
  rewrite Z.add_0_l, Z.eqb_refl. unfold zlen. repeat split; (done || lia).
Qed.

Lemma numeral_unique ds n m : numeral ds n -> numeral ds m -> n = m.
Proof. by intros (_ & _ & <- & _) (_ & _ & <- & _). Qed.

(** The text of a range is a text of the grammar. *)
Lemma headerValue_text first last total :
  0 <= first <= 2 ^ 63 - 1 -> 0 <= last <= 2 ^ 63 - 1 -> 0 <= total <= 2 ^ 63 - 1 ->
  exists s, headerValue (mkRange first last total) = Ok (Some s) /\ range_text first last total s /\ fits s.
Proof.
  intros H1 H2 H3. unfold headerValue, isValid. cbn [m_instanceLength m_firstBytePosition m_lastBytePosition].
  rewrite (proj2 (Z.eqb_neq total invalidLength)) by (unfold invalidLength; change (- 2 ^ 63) with (- 9223372036854775808); lia).
  destruct (number_adapter_spec first H1) as (d1 & -> & N1 & L1), (number_adapter_spec last H2) as (d2 & -> & N2 & L2),
    (number_adapter_spec total H3) as (d3 & -> & N3 & L3). cbn [negb mbind res_bind].
  assert (Fit : forall t, zlen t <= 19 -> fits (lit "bytes " ++ d1 ++ lit "-" ++ d2 ++ lit "/" ++ t)).
  { intros t Ht. unfold fits. rewrite !zlen_app. unfold MaxLength. change (2 ^ 31 - 1) with 2147483647.
    change (zlen (lit "bytes ")) with 6. change (zlen (lit "-")) with 1. change (zlen (lit "/")) with 1. lia. }
  destruct (Z.eqb_spec total unknownLength) as [E|E]; eexists; (split; [done|]); (split; [|]).
  - exists d1, d2, [42]. split_and!; [done..|by left].
  - change (lit "/*") with (lit "/" ++ lit "*"). by apply Fit.
  - exists d1, d2, d3. split_and!; [done..|by right].
  - by apply Fit.
Qed.

(** A valid range is read back from its text: for positions and a length in order, the header value
    is written without overrunning its buffer and parsing it gives the same range, also when the length
    is unknown. *)
Theorem content_range_roundtrip `{ICU} first last total :
  0 <= first -> last <= 2 ^ 63 - 1 -> total <= 2 ^ 63 - 1 -> ordered_range first last total ->
  let r := ParsedContentRange_of first last total in
  r = mkRange first last total /\ exists s, headerValue r = Ok (Some s) /\ ParsedContentRange_parse (Some s) = Ok r.
Proof.
  intros H1 H2 H3 O r. assert (E : r = mkRange first last total).
  { unfold r, ParsedContentRange_of. by rewrite (proj2 (values_valid first last total H1)). }
  rewrite E. split; [done|]. assert (T : 0 <= total).
  { destruct O as [? [->|?]]; [done|lia]. }
  destruct O as [O1 O2]. destruct (headerValue_text first last total) as (s & -> & R & F); [lia..|].
  exists s. split; [done|]. destruct (content_range_parses s F) as (r' & -> & P).
  f_equal. by apply (proj2 (P first last total)).
Qed.

Lemma content_range_roundtrip_witness :
  let r := ParsedContentRange_of 0 9223372036854775806 9223372036854775807 in
  r = mkRange 0 9223372036854775806 9223372036854775807 /\
  exists s, headerValue r = Ok (Some s) /\ @ParsedContentRange_parse plain_icu (Some s) = Ok r.
Proof. apply content_range_roundtrip; [done..|]. split; [done|by left]. Defined.

(** A length that is the largest number counts as unknown and is not written back. *)
Lemma largest_length_forgotten `{ICU} :
  exists s t r, s <> t /\ ParsedContentRange_parse (Some s) = Ok r /\ headerValue r = Ok (Some t).
Proof.
  exists (lit "bytes 0-1/9223372036854775807"), (lit "bytes 0-1/*"), (mkRange 0 1 unknownLength).
  split; [done|]. split; [|by vm_compute].
  destruct (content_range_parses (lit "bytes 0-1/9223372036854775807")) as (r & -> & P); [by vm_compute|].
  f_equal. apply (proj2 (P 0 1 unknownLength)). split; [|split; [done|by left]].
  exists (lit "0"), (lit "1"), (lit "9223372036854775807").
  split; [done|]. unfold numeral, digits. split_and!; [..|right; split_and!]; try done;
    by apply (bool_decide_unpack _); vm_compute.
Qed.
End Range.
