(* ===== verification/HttpCache.v ===== *)
(** * Cache directives (network/CacheValidation.cpp, network/CacheValidation.h)

    The parser of Cache-Control headers and the directives found in a header map.
    A [StringView] is the characters it shows; a part of it that starts at its end is
    the view of the empty literal, whose first cell is the terminator.  Times are
    [double]s of IEEE 754: [spec_float] with the precision and range of the type.

    [parseDouble] of WTF/wtf/dtoa is a parameter: the number at the start of a text
    and how many characters it has, zero when there is none. *)
From Stdlib Require Ascii String SpecFloat.
Import String.StringSyntax.
From stdpp Require Import list.
From S2P Require Import Prelude WtfString HttpNames HttpHeaders HttpParsers.

Local Open Scope cf.

(** ** Numbers of type double (WTF/wtf/Seconds.h, WTF/wtf/WallTime.h, WTF/wtf/Markable.h) *)

Module Time.
Import Stdlib.Floats.SpecFloat.

Definition double : Type := spec_float.
#[global] Instance double_eq_dec : EqDecision double.
Proof. solve_decision. Defined.

Definition zero : double := S754_zero false.
Definition infinity : double := S754_infinity false.
Definition nan : double := S754_nan.
Definition isnan (x : double) : bool := match x with S754_nan => true | _ => false end.
Definition isfinite (x : double) : bool := match x with S754_zero _ | S754_finite _ _ _ => true | _ => false end.

Definition plus (x y : double) : double := SFadd 53 1024 x y.
Definition minus (x y : double) : double := SFsub 53 1024 x y.
Definition times (x y : double) : double := SFmul 53 1024 x y.
Definition over (x y : double) : double := SFdiv 53 1024 x y.
Definition less (x y : double) : bool := SFltb x y.
Definition less_equal (x y : double) : bool := SFleb x y.

(** [std::max] and [std::min]: the first argument unless the second is better. *)
Definition max (a b : double) : double := if less a b then b else a.
Definition min (a b : double) : double := if less b a then b else a.

(** An integer, and 0.1. *)
Definition of_int (n : Z) : double := binary_normalize 53 1024 n 0 false.
Definition tenth : double := S754_finite false 7205759403792794 (-56).

(** A [Markable] of seconds or of a time is the value; not a number stands for none. *)
Definition is_set (x : double) : bool := negb (isnan x).
Definition markable (o : option double) : double := match o with Some x => x | None => nan end.
Definition as_optional (x : double) : option double := if is_set x then Some x else None.
End Time.

Class Dtoa := { parseDouble : list Z -> Time.double * Z }.

Module Cache.
Import Str Names Headers Parsers.

(** ** Text *)

(** [StringImpl::removeCharacters]: [from] is the text that is left, [to] what was written to a buffer of [m_length] characters. *)
Fixpoint remove_loop (fuel : nat) (findMatch : Z -> bool) (m_length : Z) (from to : StringImpl) : res StringImpl :=
  match fuel with
  | O => NoFuel
  | S fuel =>
      let from := drop_while findMatch from in
      let to := to ++ take_while (fun c => negb (findMatch c)) from in
      let from := drop_while (fun c => negb (findMatch c)) from in
      if m_length <? zlen to then UB else
      match from with [] => Ok to | _ => remove_loop fuel findMatch m_length from to end
  end.

Definition removeCharacters (findMatch : Z -> bool) (s : StringImpl) : res StringImpl :=
  match drop_while (fun c => negb (findMatch c)) s with
  | [] => Ok s
  | from => remove_loop (S (length s)) findMatch (zlen s) from (take_while (fun c => negb (findMatch c)) s)
  end.

(** [find] of a view with a predicate, from an index on. *)
Fixpoint find_match (characters : StringImpl) (matchFunction : Z -> bool) (index : Z) : Z :=
  match characters with
  | [] => notFound
  | c :: characters => if matchFunction c then index else find_match characters matchFunction (index + 1)
  end.

(** [value[0]] of a part of a view.  An empty part is the view of length 0 of an empty string literal
    ([StringView::empty]), so that index 0 is the null character that ends the literal; the assertion of [operator[]]
    that the index is less than the length, which only debug builds check, fails there. *)
Definition first_unit (value : StringImpl) : Z := match value with [] => 0 | c :: _ => c end.

(** [charactersToDouble]; [None] where [ok] is false. *)
Definition charactersToDouble `{Dtoa} (data : StringImpl) : option Time.double :=
  let rest := drop_while isASCIISpace data in
  let '(number, parsedLength) := parseDouble rest in
  if parsedLength =? 0 then None else
  if parsedLength + (zlen data - zlen rest) =? zlen data then Some number else None.

Definition toDouble `{Dtoa} (s : String) : option Time.double := match s with None => None | Some l => charactersToDouble l end.

(** ** Parsing *)

Definition isCacheHeaderSeparator (c : Z) : bool :=
  existsb (Z.eqb c) (lit "()<>@,;:" ++ [92; 34] ++ lit "/[]?={} " ++ [9]).

Definition isControlCharacterOrSpace (character : Z) : bool := (character <=? 32) || (character =? 127).

Definition trimToNextSeparator (string : StringImpl) : res StringImpl :=
  substring_impl string 0 (u32 (find_match string isCacheHeaderSeparator 0)).

(** The names and values are strings that are not null. *)
Fixpoint cache_loop (fuel : nat) (safeHeader : StringImpl) (pos : Z) (result : list (StringImpl * StringImpl))
    : res (list (StringImpl * StringImpl)) :=
  match fuel with
  | O => NoFuel
  | S fuel =>
      let max := zlen safeHeader in
      if negb (pos <? max) then Ok result else
      nextCommaPosition ← find_char safeHeader 44 pos;
      nextEqualSignPosition ← find_char safeHeader 61 pos;
      if (nextEqualSignPosition =? notFound) && (nextCommaPosition =? notFound) then
        rest ← substring_impl safeHeader pos (u32 (max - pos));
        name ← trimToNextSeparator rest;
        Ok (result ++ [(name, [])])
      else if negb (nextCommaPosition =? notFound)
              && ((nextCommaPosition <? nextEqualSignPosition) || (nextEqualSignPosition =? notFound)) then
        part ← substring_impl safeHeader pos (u32 (nextCommaPosition - pos));
        name ← trimToNextSeparator part;
        cache_loop fuel safeHeader (u32 (pos + (nextCommaPosition - pos + 1))) (result ++ [(name, [])])
      else
        part ← substring_impl safeHeader pos (u32 (nextEqualSignPosition - pos));
        directive ← trimToNextSeparator part;
        let pos := u32 (pos + (nextEqualSignPosition - pos + 1)) in
        value ← substring_impl safeHeader pos (u32 (max - pos));
        if first_unit value =? 34 then
          nextDoubleQuotePosition ← find_char value 34 1;
          if nextDoubleQuotePosition =? notFound then
            rest ← substring_impl value 1 (2 ^ 32 - 1);
            text ← trimToNextSeparator rest;
            Ok (result ++ [(directive, text)])
          else
            text ← substring_impl value 1 (u32 (nextDoubleQuotePosition - 1));
            let result := result ++ [(directive, text)] in
            quote ← find_char safeHeader 34 pos;
            let pos := u32 (pos + (quote - pos + nextDoubleQuotePosition + 1)) in
            nextCommaPosition2 ← find_char safeHeader 44 pos;
            if nextCommaPosition2 =? notFound then Ok result else
            cache_loop fuel safeHeader (u32 (pos + (nextCommaPosition2 - pos + 1))) result
        else
          nextCommaPosition2 ← find_char value 44 0;
          if nextCommaPosition2 =? notFound then
            text ← trimToNextSeparator value;
            Ok (result ++ [(directive, text)])
          else
            part ← substring_impl value 0 (u32 nextCommaPosition2);
            text ← trimToNextSeparator part;
            comma ← find_char safeHeader 44 pos;
            cache_loop fuel safeHeader (u32 (pos + (comma - pos + 1))) (result ++ [(directive, text)])
  end.

Definition parseCacheHeader (header : StringImpl) : res (list (StringImpl * StringImpl)) :=
  safeHeader ← removeCharacters isControlCharacterOrSpace header;
  cache_loop (S (length safeHeader)) safeHeader 0 [].

(** ** Directives *)

Record CacheControlDirectives := mkDirectives {
  maxAge : Time.double; maxStale : Time.double; staleWhileRevalidate : Time.double;
  noCache : bool; noStore : bool; mustRevalidate : bool; immutable : bool }.

Definition CacheControlDirectives_new : CacheControlDirectives := mkDirectives Time.nan Time.nan Time.nan false false false false.

Definition set_maxAge v r := mkDirectives v (maxStale r) (staleWhileRevalidate r) (noCache r) (noStore r) (mustRevalidate r) (immutable r).
Definition set_maxStale v r := mkDirectives (maxAge r) v (staleWhileRevalidate r) (noCache r) (noStore r) (mustRevalidate r) (immutable r).
Definition set_staleWhileRevalidate v r := mkDirectives (maxAge r) (maxStale r) v (noCache r) (noStore r) (mustRevalidate r) (immutable r).
Definition set_noCache v r := mkDirectives (maxAge r) (maxStale r) (staleWhileRevalidate r) v (noStore r) (mustRevalidate r) (immutable r).
Definition set_noStore v r := mkDirectives (maxAge r) (maxStale r) (staleWhileRevalidate r) (noCache r) v (mustRevalidate r) (immutable r).
Definition set_mustRevalidate v r := mkDirectives (maxAge r) (maxStale r) (staleWhileRevalidate r) (noCache r) (noStore r) v (immutable r).
Definition set_immutable v r := mkDirectives (maxAge r) (maxStale r) (staleWhileRevalidate r) (noCache r) (noStore r) (mustRevalidate r) v.

Section directives.
Context `{Dtoa}.

(** One turn of the loop. *)
Definition directive_step (d : StringImpl * StringImpl) (result : CacheControlDirectives) : res CacheControlDirectives :=
  b ← equalLettersIgnoringASCIICase (Some d.1) (lit "no-cache");
  if b && isEmpty (Some d.2) then Ok (set_noCache true result) else
  b ← equalLettersIgnoringASCIICase (Some d.1) (lit "no-store");
  if (b : bool) then Ok (set_noStore true result) else
  b ← equalLettersIgnoringASCIICase (Some d.1) (lit "must-revalidate");
  if (b : bool) then Ok (set_mustRevalidate true result) else
  b ← equalLettersIgnoringASCIICase (Some d.1) (lit "max-age");
  if (b : bool) then
    if Time.is_set (maxAge result) then Ok result else
    Ok (match toDouble (Some d.2) with Some v => set_maxAge v result | None => result end)
  else
  b ← equalLettersIgnoringASCIICase (Some d.1) (lit "max-stale");
  if (b : bool) then
    if Time.is_set (maxStale result) then Ok result else
    if isEmpty (Some d.2) then Ok (set_maxStale Time.infinity result) else
    Ok (match toDouble (Some d.2) with Some v => set_maxStale v result | None => result end)
  else
  b ← equalLettersIgnoringASCIICase (Some d.1) (lit "immutable");
  if (b : bool) then Ok (set_immutable true result) else
  b ← equalLettersIgnoringASCIICase (Some d.1) (lit "stale-while-revalidate");
  if (b : bool) then
    if Time.is_set (staleWhileRevalidate result) then Ok result else
    Ok (match toDouble (Some d.2) with Some v => set_staleWhileRevalidate v result | None => result end)
  else Ok result.

Fixpoint directive_loop (directives : list (StringImpl * StringImpl)) (result : CacheControlDirectives) : res CacheControlDirectives :=
  match directives with
  | [] => Ok result
  | d :: directives => result ← directive_step d result; directive_loop directives result
  end.

(** [containsIgnoringASCIICase]. *)
Definition containsIgnoringASCIICase (s : String) (string : StringImpl) : res bool :=
  match s with None => Ok false | Some l => position ← findIgnoringASCIICase l string 0; Ok (negb (position =? notFound)) end.

Definition parseCacheControlDirectives (headers : HTTPHeaderMap) : res CacheControlDirectives :=
  cacheControlValue ← get_common headers H_CacheControl;
  result ← (if negb (isEmpty cacheControlValue)
            then directives ← parseCacheHeader (chars cacheControlValue); directive_loop directives CacheControlDirectives_new
            else Ok CacheControlDirectives_new);
  if negb (noCache result)
  then pragma ← get_common headers H_Pragma; b ← containsIgnoringASCIICase pragma (lit "no-cache"); Ok (set_noCache b result)
  else Ok result.
End directives.

(** ** Headers of a validating response *)

Definition headersToIgnoreAfterRevalidation : list StringImpl :=
  [lit "allow"; lit "connection"; lit "etag"; lit "keep-alive"; lit "last-modified"; lit "proxy-authenticate"; lit "proxy-connection";
   lit "trailer"; lit "transfer-encoding"; lit "upgrade"; lit "www-authenticate"; lit "x-frame-options"; lit "x-xss-protection"].

Definition headerPrefixesToIgnoreAfterRevalidation : list StringImpl := [lit "content-"; lit "x-content-"; lit "x-webkit-"].

(** [startsWithIgnoringASCIICase]. *)
Definition startsWithIgnoringASCIICase (s : String) (prefix : StringImpl) : res bool :=
  match s with
  | None => Ok (zlen prefix =? 0)
  | Some l => if zlen l <? zlen prefix then Ok false else equalIgnoringASCIICase_loop l prefix (length prefix)
  end.

Fixpoint any_match (matches : StringImpl -> res bool) (l : list StringImpl) : res bool :=
  match l with
  | [] => Ok false
  | x :: l => b ← matches x; if (b : bool) then Ok true else any_match matches l
  end.

Definition shouldUpdateHeaderAfterRevalidation (header : String) : res bool :=
  b ← any_match (equalIgnoringASCIICase_ header) headersToIgnoreAfterRevalidation;
  if (b : bool) then Ok false else
  b ← any_match (startsWithIgnoringASCIICase header) headerPrefixesToIgnoreAfterRevalidation;
  Ok (negb b).

(** ** Status codes *)

Definition isStatusCodeCacheableByDefault (statusCode : Z) : bool :=
  existsb (Z.eqb statusCode) [200; 203; 204; 206; 300; 301; 404; 405; 410; 414; 501].

Definition isStatusCodePotentiallyCacheable (statusCode : Z) : bool :=
  existsb (Z.eqb statusCode) [201; 202; 205; 302; 303; 307; 403; 406; 415].
End Cache.
