(* ===== verification/HttpCacheProps.v ===== *)
(** * Correctness of the cache directives (network/CacheValidation.cpp)

    - the parser of Cache-Control headers is shown to decide a grammar, for every text;
    - what is written as a list of directives is read back;
    - the directives of a header map are those the list asks for, the first valid one of each kind. *)
From Stdlib Require Ascii String.
Import String.StringSyntax.
From stdpp Require Import gmap.
From S2P Require Import Prelude WtfString HttpNames HttpHeaders HttpHeaderProps HttpParsers HttpRange HttpCache.

Local Open Scope cf.

Module CacheProps.
Import Str Names Headers HeaderProps Parsers Range Cache.

(** ** Text *)

Definition visible (c : Z) : bool := negb (isControlCharacterOrSpace c).
(** What stands before the first separator. *)
Definition sep_trim (l : list Z) : list Z := take_while (fun c => negb (isCacheHeaderSeparator c)) l.

Lemma take_while_filter p l : List.filter p l = take_while p l ++ List.filter p (drop_while p l).
Proof. induction l as [|c l IH]; cbn; [done|]. destruct (p c) eqn:E; cbn; [by rewrite IH|by rewrite E]. Qed.

Lemma drop_while_filter p l : List.filter (fun c => negb (p c)) (drop_while p l) = List.filter (fun c => negb (p c)) l.
Proof. induction l as [|c l IH]; cbn; [done|]. destruct (p c) eqn:E; cbn; [done|by rewrite E]. Qed.

Lemma length_filter (p : Z -> bool) l : (length (List.filter p l) <= length l)%nat.
Proof. induction l as [|c l IH]; cbn; [lia|]. destruct (p c); cbn; lia. Qed.

Lemma drop_while_shorter p (l : list Z) : (length (drop_while p l) <= length l)%nat.
Proof. induction l as [|c l IH]; cbn; [lia|]. destruct (p c); cbn; lia. Qed.

Lemma remove_loop_spec fuel p n from to :
  (length from < fuel)%nat -> (match from with c :: _ => p c = true | [] => True end) -> zlen to + zlen from <= n ->
  remove_loop fuel p n from to = Ok (to ++ List.filter (fun c => negb (p c)) from).
Proof.
  revert from to; induction fuel as [|fuel IH]; intros from to Hf Hp Hn; [lia|]. cbn [remove_loop].
  set (q := fun c => negb (p c)). rewrite <- (drop_while_filter p from : List.filter q _ = List.filter q _).
  pose proof (drop_while_shorter p from) as L1. set (f1 := drop_while p from) in *.
  rewrite (take_while_filter q f1). rewrite app_assoc. set (to' := to ++ take_while q f1).
  assert (S : f1 = take_while q f1 ++ drop_while q f1)
    by (clear; induction f1 as [|c f1 IH]; cbn; [done|]; destruct (q c); cbn; congruence).
  assert (L2 : zlen to' + zlen (drop_while q f1) <= n).
  { unfold to'. rewrite zlen_app, <- Z.add_assoc, <- zlen_app, <- S. unfold zlen in *. lia. }
  rewrite (proj2 (Z.ltb_ge n _)) by (pose proof (zlen_nonneg (drop_while q f1)); lia).
  pose proof (drop_while_shorter q f1) as L3.
  destruct (drop_while q f1) as [|c rest] eqn:E; [by rewrite app_nil_r|].
  assert (Hc : p c = true).
  { clear - E. induction f1 as [|x f1 IH]; cbn in E; [done|]. destruct (q x) eqn:Q; [by apply IH|].
    injection E as -> _. unfold q in Q. by destruct (p c). }
  apply IH; [|done..]. destruct from as [|x from]; [done|]. unfold f1 in *. cbn [drop_while] in *. rewrite Hp in *.
  pose proof (drop_while_shorter p from). cbn [length] in *. lia.
Qed.

Lemma removeCharacters_spec p s : removeCharacters p s = Ok (List.filter (fun c => negb (p c)) s).
Proof.
  unfold removeCharacters. set (q := fun c => negb (p c)). rewrite (take_while_filter q s).
  assert (S : s = take_while q s ++ drop_while q s) by (clear; induction s as [|c f1 IH]; cbn; [done|]; destruct (q c); cbn; congruence).
  pose proof (drop_while_shorter q s). destruct (drop_while q s) as [|c r] eqn:E.
  - cbn [List.filter]. rewrite app_nil_r in S |- *. by rewrite <- S.
  - apply remove_loop_spec; [lia| |rewrite <- zlen_app, <- S; lia].
    clear - E. induction s as [|x f1 IH]; cbn in E; [done|]. destruct (q x) eqn:Q; [by apply IH|].
    injection E as -> _. unfold q in Q. by destruct (p c).
Qed.

Lemma find_match_spec l p i :
  find_match l p i = match index_of p l with Some k => i + Z.of_nat k | None => notFound end.
Proof.
  revert i; induction l as [|c l IH]; intros i; cbn; [done|]. destruct (p c); [lia|]. rewrite IH.
  destruct (index_of p l); cbn [fmap option_fmap option_map]; [lia|done].
Qed.

Lemma take_index p l :
  take_while (fun c => negb (p c)) l = match index_of p l with Some k => take k l | None => l end.
Proof.
  induction l as [|c l IH]; cbn; [done|]. destruct (p c); cbn; [done|]. rewrite IH. by destruct (index_of p l).
Qed.

Lemma trimToNextSeparator_spec l : fits l -> trimToNextSeparator l = Ok (sep_trim l).
Proof.
  intros F. unfold trimToNextSeparator, sep_trim. rewrite find_match_spec, take_index.
  destruct (index_of isCacheHeaderSeparator l) as [k|] eqn:E.
  - apply index_of_lt in E. unfold fits, zlen, MaxLength in F. change (2 ^ 31 - 1) with 2147483647 in F.
    rewrite Z.add_0_l, u32_nat by (unfold MaxLength; change (2 ^ 31) with 2147483648; lia).
    change 0 with (Z.of_nat 0). by rewrite substring_impl_spec.
  - unfold substring_impl. change (u32 notFound) with 4294967295. destruct (Z.leb_spec (zlen l) 0).
    + destruct l; [done|]. rewrite zlen_cons in *. pose proof (zlen_nonneg l). lia.
    + unfold fits, MaxLength in F. change (2 ^ 31 - 1) with 2147483647 in F.
      by rewrite (proj2 (Z.leb_le _ _)) by lia.
Qed.

(** ** The grammar *)

Definition plain (a : list Z) : Prop := free_of 44 a /\ free_of 61 a.
Definition unquoted (v : list Z) : Prop := head v <> Some 34.

(** A text without white space and control characters, and the names and values in it. *)
Inductive cache_directives : list Z -> list (list Z * list Z) -> Prop :=
  | CD_end : cache_directives [] []
  | CD_last a : a <> [] -> plain a -> cache_directives a [(sep_trim a, [])]
  | CD_flag a l ds : plain a -> cache_directives l ds -> cache_directives (a ++ 44 :: l) ((sep_trim a, []) :: ds)
  | CD_open a q : plain a -> free_of 34 q -> cache_directives (a ++ 61 :: 34 :: q) [(sep_trim a, sep_trim q)]
  | CD_quoted_last a b r : plain a -> free_of 34 b -> free_of 44 r ->
      cache_directives (a ++ 61 :: 34 :: b ++ 34 :: r) [(sep_trim a, b)]
  | CD_quoted a b r l ds : plain a -> free_of 34 b -> free_of 44 r -> cache_directives l ds ->
      cache_directives (a ++ 61 :: 34 :: b ++ 34 :: r ++ 44 :: l) ((sep_trim a, b) :: ds)
  | CD_value_last a v : plain a -> free_of 44 v -> unquoted v -> cache_directives (a ++ 61 :: v) [(sep_trim a, sep_trim v)]
  | CD_value a v l ds : plain a -> free_of 44 v -> unquoted v -> cache_directives l ds ->
      cache_directives (a ++ 61 :: v ++ 44 :: l) ((sep_trim a, sep_trim v) :: ds).

(** Every text is one of the grammar. *)
Lemma plain_split l : plain l \/ exists a c r, l = a ++ c :: r /\ plain a /\ (c = 44 \/ c = 61).
Proof.
  destruct (index_of (fun x => (x =? 44) || (x =? 61)) l) as [k|] eqn:E.
  - right. apply index_of_Some in E as (a & c & r & -> & _ & C & F). exists a, c, r. split; [done|].
    unfold plain, free_of. rewrite <- Forall_and. split; [|apply orb_true_iff in C; lia].
    eapply Forall_impl; [exact F|]. intros x Hx. by apply orb_false_iff in Hx.
  - left. apply index_of_None in E. unfold plain, free_of. rewrite <- Forall_and.
    eapply Forall_impl; [exact E|]. intros x Hx. by apply orb_false_iff in Hx.
Qed.

Lemma cache_directives_total l : exists ds, cache_directives l ds.
Proof.
  remember (length l) as n eqn:En. revert l En. induction (lt_wf n) as [n _ IH]. intros l ->.
  assert (R : forall l', (length l' < length l)%nat -> exists ds, cache_directives l' ds) by (intros l' Hl; by apply (IH _ Hl)).
  clear IH. destruct (plain_split l) as [P|(a & c & r & -> & P & [-> | ->])].
  - destruct l as [|c l]; eexists; [apply CD_end|by apply CD_last].
  - destruct (R r) as [ds D]; [rewrite length_app; cbn; lia|]. eexists. by apply CD_flag.
  - destruct (decide (head r = Some 34)) as [Q|Q].
    + destruct r as [|c q]; [done|]. injection Q as ->. destruct (split_first 34 q) as [F|(b & t & -> & F)].
      { eexists. by apply CD_open. }
      destruct (split_first 44 t) as [Ft|(t' & l & -> & Ft)]; [eexists; by apply CD_quoted_last|].
      destruct (R l) as [ds D]; [rewrite !length_app; cbn; rewrite !length_app; cbn; rewrite length_app; cbn; lia|].
      eexists. by apply CD_quoted.
    + destruct (split_first 44 r) as [F|(v & l & -> & F)]; [eexists; by apply CD_value_last|].
      destruct (R l) as [ds D]; [rewrite !length_app; cbn; rewrite length_app; cbn; lia|].
      eexists. apply CD_value; [done..| |done]. unfold unquoted in *. by destruct v.
Qed.

(** ** Positions *)

Lemma find_after pre l c :
  find_char (pre ++ l) c (zlen pre) =
  Ok (match index_of (fun x => x =? c) l with Some k => zlen pre + Z.of_nat k | None => notFound end).
Proof. rewrite find_char_spec by apply zlen_nonneg. by rewrite to_nat_zlen, drop_app_length. Qed.

Lemma find_after_at pre a c post :
  free_of c a -> find_char (pre ++ a ++ c :: post) c (zlen pre) = Ok (zlen pre + zlen a).
Proof. intros F. rewrite find_after, index_of_app by (done || apply Z.eqb_refl). done. Qed.

Lemma find_after_none pre l c : free_of c l -> find_char (pre ++ l) c (zlen pre) = Ok notFound.
Proof. intros F. rewrite find_after. by rewrite (proj2 (index_of_None _ _)). Qed.

(** Another character first: the one looked for comes later or not at all. *)
Lemma find_after_later pre a x post c :
  free_of c a -> x <> c -> exists n, find_char (pre ++ a ++ x :: post) c (zlen pre) = Ok n /\ (n = notFound \/ zlen pre + zlen a < n).
Proof.
  intros F N. rewrite find_after. eexists. split; [done|]. destruct (index_of _ _) as [k|] eqn:E; [right|by left].
  enough (length a < k)%nat by (unfold zlen; lia). apply index_of_Some in E as (p & c' & q & E & <- & ->%Z.eqb_eq & _).
  destruct (decide (length p <= length a)%nat) as [L|L]; [exfalso|lia].
  assert (X : (a ++ x :: post) !! length p = Some c) by (rewrite E; by rewrite list_lookup_middle).
  destruct (decide (length p = length a)) as [El|El].
  - rewrite El, list_lookup_middle in X by done. congruence.
  - rewrite lookup_app_l in X by lia. unfold free_of in F. rewrite Forall_lookup in F. specialize (F _ _ X). by rewrite Z.eqb_refl in F.
Qed.

Lemma sub_after pre a post : substring_impl (pre ++ a ++ post) (zlen pre) (zlen a) = Ok a.
Proof. unfold zlen. by rewrite substring_impl_spec, drop_app_length, take_app_length. Qed.

Lemma sub_rest pre l : substring_impl (pre ++ l) (zlen pre) (zlen l) = Ok l.
Proof. rewrite <- (app_nil_r l) at 1. apply sub_after. Qed.

Lemma fits_part pre a post : fits (pre ++ a ++ post) -> fits a.
Proof. unfold fits. rewrite !zlen_app. pose proof (zlen_nonneg pre). pose proof (zlen_nonneg post). lia. Qed.

(** ** The loop reads the grammar *)

Ltac size_facts F :=
  unfold fits, MaxLength in F; autorewrite with zlen in F;
  repeat match goal with |- context [zlen ?l] => lazymatch goal with H : 0 <= zlen l |- _ => fail | _ => pose proof (zlen_nonneg l) end end;
  repeat match type of F with context [zlen ?l] => lazymatch goal with H : 0 <= zlen l |- _ => fail | _ => pose proof (zlen_nonneg l) end end;
  change (2 ^ 31 - 1) with 2147483647 in F.
Ltac small := rewrite ?u32_small by (unfold MaxLength; change (2 ^ 31 - 1) with 2147483647; lia).
Ltac not_missing n := rewrite (proj2 (Z.eqb_neq n notFound)) by (unfold notFound; change (2 ^ 64 - 1) with 18446744073709551615; lia).

(** After a plain name and an equals sign: the name, and the rest as the value. *)
Lemma loop_equals fuel pre a v result :
  fits (pre ++ a ++ 61 :: v) -> plain a ->
  let s := pre ++ a ++ 61 :: v in
  let pos := zlen (pre ++ a ++ [61]) in
  cache_loop (S fuel) s (zlen pre) result =
  (if first_unit v =? 34 then
     nextDoubleQuotePosition ← find_char v 34 1;
     if nextDoubleQuotePosition =? notFound then
       rest ← substring_impl v 1 (2 ^ 32 - 1);
       text ← trimToNextSeparator rest;
       Ok (result ++ [(sep_trim a, text)])
     else
       text ← substring_impl v 1 (u32 (nextDoubleQuotePosition - 1));
       quote ← find_char s 34 pos;
       let pos := u32 (pos + (quote - pos + nextDoubleQuotePosition + 1)) in
       nextCommaPosition2 ← find_char s 44 pos;
       if nextCommaPosition2 =? notFound then Ok (result ++ [(sep_trim a, text)]) else
       cache_loop fuel s (u32 (pos + (nextCommaPosition2 - pos + 1))) (result ++ [(sep_trim a, text)])
   else
     nextCommaPosition2 ← find_char v 44 0;
     if nextCommaPosition2 =? notFound then
       text ← trimToNextSeparator v;
       Ok (result ++ [(sep_trim a, text)])
     else
       part ← substring_impl v 0 (u32 nextCommaPosition2);
       text ← trimToNextSeparator part;
       comma ← find_char s 44 pos;
       cache_loop fuel s (u32 (pos + (comma - pos + 1))) (result ++ [(sep_trim a, text)])).
Proof.
  intros F [F1 F2]. pose proof F as Fs. size_facts Fs. intros s pos.
  assert (Ls : zlen s = zlen pre + zlen a + 1 + zlen v) by (unfold s; autorewrite with zlen; lia).
  assert (Hp : pos = zlen pre + zlen a + 1) by (unfold pos; autorewrite with zlen; lia).
  destruct (find_after_later pre a 61 v 44 F1) as (comma & Ec & Hc); [done|].
  pose proof (find_after_at pre a 61 v F2) as Ee. pose proof (sub_after pre a (61 :: v)) as Sa.
  assert (Sv : substring_impl s pos (zlen v) = Ok v).
  { unfold s. replace (pre ++ a ++ 61 :: v) with ((pre ++ a ++ [61]) ++ v) by (rewrite <- !app_assoc; done). apply sub_rest. }
  fold s in Ec, Ee, Sa. clearbody s pos. cbn [cache_loop]. cbv zeta.
  rewrite (proj2 (Z.ltb_lt (zlen pre) _)) by lia. cbn [negb]. rewrite Ec. cbn [mbind res_bind]. rewrite Ee. cbn [mbind res_bind].
  not_missing (zlen pre + zlen a). cbn [andb].
  assert ((negb (comma =? notFound) && ((comma <? zlen pre + zlen a) || false))%bool = false) as ->.
  { rewrite orb_false_r. destruct Hc as [-> | Hc]; [by rewrite Z.eqb_refl|]. by rewrite (proj2 (Z.ltb_ge _ _)), andb_false_r by lia. }
  replace (zlen pre + zlen a - zlen pre) with (zlen a) by lia. rewrite (u32_small (zlen a)) by (unfold MaxLength; lia). rewrite Sa. cbn [mbind res_bind].
  rewrite trimToNextSeparator_spec by (by eapply fits_part). cbn [mbind res_bind].
  replace (zlen pre + (zlen a + 1)) with pos by lia. rewrite (u32_small pos) by (unfold MaxLength; lia).
  replace (zlen s - pos) with (zlen v) by lia. rewrite (u32_small (zlen v)) by (unfold MaxLength; lia). rewrite Sv. done.
Qed.

Lemma loop_flag fuel pre a l result :
  fits (pre ++ a ++ 44 :: l) -> plain a ->
  cache_loop (S fuel) (pre ++ a ++ 44 :: l) (zlen pre) result =
  cache_loop fuel (pre ++ a ++ 44 :: l) (zlen (pre ++ a ++ [44])) (result ++ [(sep_trim a, [])]).
Proof.
  intros F [F1 F2]. pose proof F as Fs. size_facts Fs.
  assert (Ls : zlen (pre ++ a ++ 44 :: l) = zlen pre + zlen a + 1 + zlen l) by (autorewrite with zlen; lia).
  destruct (find_after_later pre a 44 l 61 F2) as (equals & Ee & He); [done|].
  pose proof (find_after_at pre a 44 l F1) as Ec. pose proof (sub_after pre a (44 :: l)) as Sa.
  replace (zlen (pre ++ a ++ [44])) with (zlen pre + zlen a + 1) by (autorewrite with zlen; lia).
  apply fits_part in F. set (s := pre ++ a ++ 44 :: l) in *. clearbody s. cbn [cache_loop]. cbv zeta.
  rewrite (proj2 (Z.ltb_lt (zlen pre) _)) by lia. cbn [negb]. rewrite Ec. cbn [mbind res_bind]. rewrite Ee. cbn [mbind res_bind].
  not_missing (zlen pre + zlen a). rewrite andb_false_r. cbn [negb andb].
  assert (((zlen pre + zlen a <? equals) || (equals =? notFound))%bool = true) as ->.
  { destruct He as [-> | He]; [by rewrite Z.eqb_refl, orb_true_r|]. by rewrite (proj2 (Z.ltb_lt _ _)) by lia. }
  replace (zlen pre + zlen a - zlen pre) with (zlen a) by lia. rewrite (u32_small (zlen a)) by (unfold MaxLength; lia).
  rewrite Sa. cbn [mbind res_bind]. rewrite trimToNextSeparator_spec by done. cbn [mbind res_bind].
  rewrite u32_small by (unfold MaxLength; lia). f_equal. lia.
Qed.

Lemma loop_last fuel pre a result :
  fits (pre ++ a) -> a <> [] -> plain a -> cache_loop (S fuel) (pre ++ a) (zlen pre) result = Ok (result ++ [(sep_trim a, [])]).
Proof.
  intros F N [F1 F2]. pose proof F as Fs. size_facts Fs.
  assert (0 < zlen a) by (destruct a; [done|rewrite zlen_cons; pose proof (zlen_nonneg a); lia]).
  cbn [cache_loop]. cbv zeta. rewrite zlen_app, (proj2 (Z.ltb_lt _ _)) by lia. cbn [negb].
  rewrite !find_after_none by done. cbn [mbind res_bind]. rewrite Z.eqb_refl. cbn [andb].
  replace (zlen pre + zlen a - zlen pre) with (zlen a) by lia. rewrite (u32_small (zlen a)) by (unfold MaxLength; lia).
  rewrite sub_rest. cbn [mbind res_bind]. rewrite <- (app_nil_r a) in F. by rewrite trimToNextSeparator_spec by (by eapply fits_part).
Qed.

Lemma loop_done fuel pre result : cache_loop (S fuel) (pre ++ []) (zlen pre) result = Ok result.
Proof. rewrite app_nil_r. cbn [cache_loop]. by rewrite Z.ltb_irrefl. Qed.

(** The position of a closing quote is counted from the opening one. *)
Lemma find_quote b r : find_char (34 :: b ++ 34 :: r) 34 1 =
  Ok (match index_of (fun x => x =? 34) (b ++ 34 :: r) with Some k => 1 + Z.of_nat k | None => notFound end).
Proof. by rewrite find_char_spec by lia. Qed.

Lemma zlen_none (l : list Z) : zlen l <= 0 -> l = [].
Proof. destruct l; [done|]. rewrite zlen_cons. pose proof (zlen_nonneg l). lia. Qed.

Lemma loop_open fuel pre a q result :
  fits (pre ++ a ++ 61 :: 34 :: q) -> plain a -> free_of 34 q ->
  cache_loop (S fuel) (pre ++ a ++ 61 :: 34 :: q) (zlen pre) result = Ok (result ++ [(sep_trim a, sep_trim q)]).
Proof.
  intros F P Q. rewrite loop_equals by done. cbn [first_unit]. rewrite Z.eqb_refl, (find_char_spec (34 :: q) 34 1) by lia.
  change (drop (Z.to_nat 1) (34 :: q)) with q. rewrite (proj2 (index_of_None _ _)) by done. cbn [mbind res_bind].
  rewrite Z.eqb_refl. size_facts F. unfold substring_impl. rewrite zlen_cons.
  destruct (Z.leb_spec (1 + zlen q) 1).
  { rewrite (zlen_none q) by lia. by cbn [mbind res_bind]; rewrite trimToNextSeparator_spec by done. }
  rewrite (proj2 (Z.leb_le _ (2 ^ 32 - 1))) by lia. cbn [andb Z.eqb]. unfold mem_read. rewrite zlen_cons, !(proj2 (Z.leb_le _ _)) by lia.
  cbn [andb mbind res_bind]. change (drop (Z.to_nat 1) (34 :: q)) with q.
  replace (Z.to_nat (1 + zlen q - 1)) with (length q) by (unfold zlen; lia). rewrite take_ge by lia.
  by rewrite trimToNextSeparator_spec by (unfold fits, MaxLength; lia).
Qed.

(** The characters of a quoted value, and where the parser goes on. *)
Lemma loop_quoted fuel pre a b r result :
  let s := pre ++ a ++ 61 :: 34 :: b ++ 34 :: r in
  fits s -> plain a -> free_of 34 b ->
  cache_loop (S fuel) s (zlen pre) result =
  (let pos := zlen (pre ++ a ++ 61 :: 34 :: b ++ [34]) in
   nextCommaPosition2 ← find_char s 44 pos;
   if nextCommaPosition2 =? notFound then Ok (result ++ [(sep_trim a, b)]) else
   cache_loop fuel s (u32 (pos + (nextCommaPosition2 - pos + 1))) (result ++ [(sep_trim a, b)])).
Proof.
  intros s F P B. pose proof F as Fs. unfold s in Fs. size_facts Fs. unfold s at 1. rewrite loop_equals by done. fold s.
  cbn [first_unit]. rewrite Z.eqb_refl, find_quote, index_of_app by done. cbn [mbind res_bind].
  rewrite (proj2 (Z.eqb_neq _ notFound)) by (unfold notFound; change (2 ^ 64 - 1) with 18446744073709551615; unfold zlen in Fs; lia).
  replace (1 + Z.of_nat (length b) - 1) with (zlen b) by (unfold zlen; lia). rewrite (u32_small (zlen b)) by (unfold MaxLength; lia).
  pose proof (sub_after [34] b (34 :: r)) as Sb. change (zlen [34]) with 1 in Sb. change ([34] ++ ?l) with (34 :: l) in Sb.
  rewrite Sb. cbn [mbind res_bind].
  assert (Eq : find_char s 34 (zlen (pre ++ a ++ [61])) = Ok (zlen (pre ++ a ++ [61]))).
  { unfold s. replace (pre ++ a ++ 61 :: 34 :: b ++ 34 :: r) with ((pre ++ a ++ [61]) ++ [] ++ 34 :: b ++ 34 :: r)
      by (rewrite <- !app_assoc; done). rewrite find_after_at by constructor. rewrite zlen_nil. f_equal. lia. }
  rewrite Eq. cbn [mbind res_bind]. cbv zeta.
  assert (Ep : u32 (zlen (pre ++ a ++ [61]) + (zlen (pre ++ a ++ [61]) - zlen (pre ++ a ++ [61]) + (1 + Z.of_nat (length b)) + 1)) =
    zlen (pre ++ a ++ 61 :: 34 :: b ++ [34])).
  { rewrite u32_small; [autorewrite with zlen|unfold MaxLength; autorewrite with zlen]; unfold zlen in *; lia. }
  rewrite Ep. done.
Qed.

Lemma loop_quoted_last fuel pre a b r result :
  fits (pre ++ a ++ 61 :: 34 :: b ++ 34 :: r) -> plain a -> free_of 34 b -> free_of 44 r ->
  cache_loop (S fuel) (pre ++ a ++ 61 :: 34 :: b ++ 34 :: r) (zlen pre) result = Ok (result ++ [(sep_trim a, b)]).
Proof.
  intros F P B R. rewrite loop_quoted by done. cbv zeta.
  replace (pre ++ a ++ 61 :: 34 :: b ++ 34 :: r) with ((pre ++ a ++ 61 :: 34 :: b ++ [34]) ++ r)
    by (rewrite <- !app_assoc; cbn; by rewrite <- !app_assoc).
  rewrite find_after_none by done. cbn [mbind res_bind]. by rewrite Z.eqb_refl.
Qed.

(** From the end of a value to after the next comma. *)
Lemma next_comma pre r l : fits (pre ++ r ++ 44 :: l) -> free_of 44 r ->
  exists n, find_char (pre ++ r ++ 44 :: l) 44 (zlen pre) = Ok n /\ (n =? notFound) = false /\
    u32 (zlen pre + (n - zlen pre + 1)) = zlen (pre ++ r ++ [44]).
Proof.
  intros F R. exists (zlen pre + zlen r). rewrite find_after_at by done. size_facts F. split_and!; [done| |].
  - not_missing (zlen pre + zlen r). done.
  - rewrite u32_small by (unfold MaxLength; lia). autorewrite with zlen. lia.
Qed.

Lemma loop_quoted_more fuel pre a b r l result :
  fits (pre ++ a ++ 61 :: 34 :: b ++ 34 :: r ++ 44 :: l) -> plain a -> free_of 34 b -> free_of 44 r ->
  cache_loop (S fuel) (pre ++ a ++ 61 :: 34 :: b ++ 34 :: r ++ 44 :: l) (zlen pre) result =
  cache_loop fuel (pre ++ a ++ 61 :: 34 :: b ++ 34 :: r ++ 44 :: l) (zlen (pre ++ a ++ 61 :: 34 :: b ++ 34 :: r ++ [44])) (result ++ [(sep_trim a, b)]).
Proof.
  intros F P B R. rewrite loop_quoted by done. cbv zeta.
  assert (E : pre ++ a ++ 61 :: 34 :: b ++ 34 :: r ++ 44 :: l = (pre ++ a ++ 61 :: 34 :: b ++ [34]) ++ r ++ 44 :: l)
    by (rewrite <- !app_assoc; cbn; by rewrite <- !app_assoc).
  rewrite E in *. destruct (next_comma _ r l F R) as (n & -> & N & U). cbn [mbind res_bind]. rewrite N, U. do 2 f_equal.
  rewrite <- !app_assoc. cbn. by rewrite <- !app_assoc.
Qed.

Lemma first_unit_unquoted v : unquoted v -> (first_unit v =? 34) = false.
Proof. unfold unquoted. destruct v as [|c v]; [done|]. cbn. intros N. apply Z.eqb_neq. congruence. Qed.

Lemma loop_value_last fuel pre a v result :
  fits (pre ++ a ++ 61 :: v) -> plain a -> free_of 44 v -> unquoted v ->
  cache_loop (S fuel) (pre ++ a ++ 61 :: v) (zlen pre) result = Ok (result ++ [(sep_trim a, sep_trim v)]).
Proof.
  intros F P V U. rewrite loop_equals by done. rewrite first_unit_unquoted by done.
  pose proof (find_after_none [] v 44 V) as E. change (zlen []) with 0 in E. cbn [app] in E. rewrite E. cbn [mbind res_bind].
  rewrite Z.eqb_refl, trimToNextSeparator_spec; [done|].
  size_facts F. unfold fits, MaxLength. lia.
Qed.

Lemma loop_value_more fuel pre a v l result :
  fits (pre ++ a ++ 61 :: v ++ 44 :: l) -> plain a -> free_of 44 v -> unquoted v ->
  cache_loop (S fuel) (pre ++ a ++ 61 :: v ++ 44 :: l) (zlen pre) result =
  cache_loop fuel (pre ++ a ++ 61 :: v ++ 44 :: l) (zlen (pre ++ a ++ 61 :: v ++ [44])) (result ++ [(sep_trim a, sep_trim v)]).
Proof.
  intros F P V U. rewrite loop_equals by done.
  rewrite first_unit_unquoted by (unfold unquoted in *; by destruct v).
  pose proof (find_after_at [] v 44 l V) as E. change (zlen []) with 0 in E. cbn [app] in E. rewrite E, Z.add_0_l. cbn [mbind res_bind].
  pose proof F as Fs. size_facts Fs. not_missing (zlen v). rewrite (u32_small (zlen v)) by (unfold MaxLength; lia).
  pose proof (sub_after [] v (44 :: l)) as S. change (zlen []) with 0 in S. cbn [app] in S. rewrite S. cbn [mbind res_bind].
  rewrite trimToNextSeparator_spec by (unfold fits, MaxLength; lia). cbn [mbind res_bind].
  assert (E2 : pre ++ a ++ 61 :: v ++ 44 :: l = (pre ++ a ++ [61]) ++ v ++ 44 :: l) by (by rewrite <- !app_assoc).
  rewrite E2 in *. destruct (next_comma _ v l F V) as (n & -> & N & W). cbn [mbind res_bind]. rewrite W. do 2 f_equal. by rewrite <- !app_assoc.
Qed.

(** Going on after a prefix, which ends with the comma. *)
Lemma resume fuel pre x l ds result d :
  (forall fuel pre result, (length l < fuel)%nat -> fits (pre ++ l) -> cache_loop fuel (pre ++ l) (zlen pre) result = Ok (result ++ ds)) ->
  fits (pre ++ x ++ 44 :: l) -> (length l < fuel)%nat ->
  cache_loop fuel (pre ++ x ++ 44 :: l) (zlen (pre ++ x ++ [44])) (result ++ [d]) = Ok (result ++ d :: ds).
Proof.
  intros IH F L. assert (E : pre ++ x ++ 44 :: l = (pre ++ x ++ [44]) ++ l) by (by rewrite <- !app_assoc).
  rewrite E in *. rewrite IH by done. by rewrite <- app_assoc.
Qed.

Lemma cache_runs l ds : cache_directives l ds -> forall fuel pre result,
  (length l < fuel)%nat -> fits (pre ++ l) -> cache_loop fuel (pre ++ l) (zlen pre) result = Ok (result ++ ds).
Proof.
  induction 1 as [|a N P|a l ds P _ IH|a q P Q|a b r P B R|a b r l ds P B R _ IH|a v P V U|a v l ds P V U _ IH];
    intros [|fuel] pre result L F; try (cbn in L; lia); rewrite ?length_app in L; cbn [length] in L.
  - by rewrite loop_done, app_nil_r.
  - by rewrite loop_last.
  - rewrite loop_flag by done. by apply resume; [|done|lia].
  - by rewrite loop_open.
  - by rewrite loop_quoted_last.
  - rewrite loop_quoted_more by done. rewrite !length_app in L. cbn [length] in L. rewrite length_app in L. cbn [length] in L.
    assert (E : forall t, a ++ 61 :: 34 :: b ++ 34 :: r ++ 44 :: t = (a ++ 61 :: 34 :: b ++ 34 :: r) ++ 44 :: t)
      by (intros t; rewrite <- !app_assoc; cbn; by rewrite <- !app_assoc).
    rewrite !E in *. by apply resume; [|done|lia].
  - by rewrite loop_value_last.
  - rewrite loop_value_more by done. rewrite length_app in L. cbn [length] in L.
    assert (E : forall t, a ++ 61 :: v ++ 44 :: t = (a ++ 61 :: v) ++ 44 :: t) by (intros t; by rewrite <- !app_assoc).
    rewrite !E in *. by apply resume; [|done|lia].
Qed.

Lemma cache_directives_nil ds : cache_directives [] ds -> ds = [].
Proof. intros D. pose proof (cache_runs [] ds D 1 [] [] ltac:(cbn; lia) ltac:(done)) as E. by injection E as <-. Qed.

Lemma parseCacheHeader_runs header ds :
  fits header -> cache_directives (List.filter visible header) ds -> parseCacheHeader header = Ok ds.
Proof.
  intros F D. unfold parseCacheHeader. rewrite removeCharacters_spec. cbn [mbind res_bind].
  apply (cache_runs _ _ D _ [] []); [change (fun c => negb (isControlCharacterOrSpace c)) with visible; lia|].
  unfold fits, zlen in *. pose proof (length_filter visible header). cbn [app]. lia.
Qed.

(** C30: the parser of Cache-Control headers decides the grammar of directives: for every header,
    of any characters, it ends and returns a list of names and values, and it is the one list that
    the grammar gives for the header without its white space and control characters.  The closing
    quote, the value, or a comma may be missing.  (After an equals sign at the end of the header the code looks at the first
    character of an empty view, which a release build answers with the null character behind it.) *)
Theorem cache_header_equivalent header ds :
  fits header -> parseCacheHeader header = Ok ds <-> cache_directives (List.filter visible header) ds.
Proof.
  intros F. split; [|by apply parseCacheHeader_runs]. intros E.
  destruct (cache_directives_total (List.filter visible header)) as [ds' D].
  rewrite (parseCacheHeader_runs _ _ F D) in E. by injection E as ->.
Qed.

Lemma cache_header_witness :
  let ds := [(lit "private", lit "set-cookie"); (lit "max-age", lit "60"); (lit "x", [])] in
  parseCacheHeader (lit "private=" ++ [34] ++ lit "set-cookie" ++ [34] ++ lit ", max-age = 60;y, x=") = Ok ds <->
  cache_directives (List.filter visible (lit "private=" ++ [34] ++ lit "set-cookie" ++ [34] ++ lit ", max-age = 60;y, x=")) ds.
Proof. apply cache_header_equivalent. by vm_compute. Defined.

(** ** Round trip *)

(** A directive as it is written. *)
Inductive Directive := Flag (name : list Z) | WithToken (name value : list Z) | WithQuoted (name value : list Z).

Definition token_text (l : list Z) : Prop := Forall (fun c => isCacheHeaderSeparator c = false /\ visible c = true) l.
Definition quotable (l : list Z) : Prop := Forall (fun c => c <> 34 /\ visible c = true) l.

Definition wf_directive (d : Directive) : Prop :=
  match d with
  | Flag n => n <> [] /\ token_text n
  | WithToken n v => token_text n /\ token_text v
  | WithQuoted n v => token_text n /\ quotable v
  end.

Definition render_one (d : Directive) : list Z :=
  match d with
  | Flag n => n
  | WithToken n v => n ++ 61 :: v
  | WithQuoted n v => n ++ 61 :: 34 :: v ++ [34]
  end.

Fixpoint render (ds : list Directive) : list Z :=
  match ds with [] => [] | [d] => render_one d | d :: ds => render_one d ++ lit ", " ++ render ds end.

Definition entry (d : Directive) : list Z * list Z :=
  match d with Flag n => (n, []) | WithToken n v | WithQuoted n v => (n, v) end.

Lemma token_facts l : token_text l -> plain l /\ unquoted l /\ sep_trim l = l /\ List.filter visible l = l /\ free_of 44 l.
Proof.
  intros T. assert (Fr : forall c, isCacheHeaderSeparator c = true -> free_of c l).
  { intros c Hc. eapply Forall_impl; [exact T|]. intros x [Hx _]. apply Z.eqb_neq. congruence. }
  split_and!; [by split; apply Fr| | | |by apply Fr].
  - unfold unquoted. destruct T as [|c l [Hc _] _]; [done|]. cbn. intros [= ->]. done.
  - unfold sep_trim. apply take_while_all. eapply Forall_impl; [exact T|]. by intros x [-> _].
  - clear Fr. induction T as [|c l [_ Hc] _ IH]; cbn; [done|]. by rewrite Hc, IH.
Qed.

Lemma token_visible l : token_text l -> List.filter visible l = l.
Proof. intros T. by apply token_facts. Qed.

Lemma quotable_facts l : quotable l -> free_of 34 l /\ List.filter visible l = l.
Proof.
  intros T. split; [eapply Forall_impl; [exact T|]; cbn; intros x [? _]; lia|].
  induction T as [|c l [_ Hc] _ IH]; cbn; [done|]. by rewrite Hc, IH.
Qed.

Lemma rendered_visible d : wf_directive d -> List.filter visible (render_one d) = render_one d.
Proof.
  destruct d as [n|n v|n v]; cbn [render_one wf_directive].
  - intros [_ T]. by apply token_facts.
  - intros [T1 T2]. rewrite List.filter_app. cbn [List.filter]. change (visible 61) with true. cbv iota.
    by rewrite (token_visible n T1), (token_visible v T2).
  - intros [T1 T2]. rewrite List.filter_app. cbn [List.filter]. change (visible 61) with true. change (visible 34) with true. cbv iota.
    rewrite List.filter_app, (proj2 (quotable_facts v T2)). by rewrite (token_visible n T1).
Qed.

Lemma rendered_last d : wf_directive d -> cache_directives (render_one d) [entry d].
Proof.
  destruct d as [n|n v|n v]; cbn [render_one wf_directive entry].
  - intros [N T]. destruct (token_facts n T) as (P & _ & S & _). rewrite <- S at 2. by apply CD_last.
  - intros [T1 T2]. destruct (token_facts n T1) as (P & _ & S & _), (token_facts v T2) as (_ & U & S' & _ & V).
    rewrite <- S at 2. rewrite <- S' at 2. by apply CD_value_last.
  - intros [T1 T2]. destruct (token_facts n T1) as (P & _ & S & _). rewrite <- S at 2.
    apply CD_quoted_last; [done|by apply quotable_facts|constructor].
Qed.

Lemma rendered_more d l ds : wf_directive d -> cache_directives l ds -> cache_directives (render_one d ++ 44 :: l) (entry d :: ds).
Proof.
  destruct d as [n|n v|n v]; cbn [render_one wf_directive entry].
  - intros [N T] D. destruct (token_facts n T) as (P & _ & S & _). rewrite <- S at 2. by apply CD_flag.
  - intros [T1 T2] D. destruct (token_facts n T1) as (P & _ & S & _), (token_facts v T2) as (_ & U & S' & _ & V).
    rewrite <- app_assoc. cbn [app]. rewrite <- S at 2. rewrite <- S' at 2. by apply CD_value.
  - intros [T1 T2] D. destruct (token_facts n T1) as (P & _ & S & _). rewrite <- S at 2.
    rewrite <- app_assoc. cbn [app]. rewrite <- app_assoc. cbn [app].
    apply (CD_quoted n v []); [done|by apply quotable_facts|constructor|done].
Qed.

Lemma render_grammar ds : Forall wf_directive ds -> cache_directives (List.filter visible (render ds)) (entry <$> ds).
Proof.
  induction 1 as [|d ds W _ IH]; [apply CD_end|]. destruct ds as [|d' ds].
  - cbn [render]. rewrite rendered_visible by done. by apply rendered_last.
  - change (render (d :: d' :: ds)) with (render_one d ++ 44 :: 32 :: render (d' :: ds)).
    rewrite List.filter_app, rendered_visible by done. cbn [List.filter]. change (visible 44) with true. change (visible 32) with false.
    cbv iota. rewrite fmap_cons. by apply rendered_more.
Qed.

(** Directives that are written with commas between them are read back: names, token values and quoted
    values, of which a quoted one may hold separators such as a comma, come out in order. *)
Theorem cache_header_roundtrip ds :
  Forall wf_directive ds -> fits (render ds) -> parseCacheHeader (render ds) = Ok (entry <$> ds).
Proof. intros W F. apply parseCacheHeader_runs; [done|by apply render_grammar]. Qed.

Lemma cache_header_roundtrip_witness :
  let ds := [Flag (lit "no-store"); WithQuoted (lit "private") (lit "a,b"); WithToken (lit "max-age") (lit "60")] in
  parseCacheHeader (render ds) = Ok (entry <$> ds).
Proof.
  apply cache_header_roundtrip; [|by vm_compute].
  repeat constructor; try done; lia.
Defined.

(** ** The directives of a header map *)

(** Names are compared without regard to case. *)
Definition named (n : list Z) (d : list Z * list Z) : bool := bool_decide ((toASCIILowerUnchecked <$> d.1) = n).

Lemma equalLetters_spec l m : length l = length m -> equalLetters l m = Ok (bool_decide ((toASCIILowerUnchecked <$> l) = m)).
Proof.
  revert l; induction m as [|t m IH]; intros [|c l] L; try done. cbn [equalLetters head or_ub mbind res_bind tail].
  unfold isASCIIAlphaCaselessEqual. destruct (Z.eqb_spec (toASCIILowerUnchecked c) t) as [E|E].
  - rewrite IH by (cbn in L; lia). f_equal. apply bool_decide_ext. rewrite fmap_cons. naive_solver.
  - rewrite bool_decide_eq_false_2; [done|]. rewrite fmap_cons. naive_solver.
Qed.

Lemma equalLettersIgnoringASCIICase_spec d n : equalLettersIgnoringASCIICase (Some d.1) n = Ok (named n d).
Proof.
  unfold equalLettersIgnoringASCIICase, named. destruct (Z.eqb_spec (zlen d.1) (zlen n)) as [E|E]; cbn [negb].
  - apply equalLetters_spec. unfold zlen in E. lia.
  - rewrite bool_decide_eq_false_2; [done|]. intros <-. by rewrite zlen_fmap in E.
Qed.

Section meaning.
Context `{Dtoa}.

(** The first directive of a name whose value is a number. *)
Fixpoint first_value (n : list Z) (value : list Z -> option Time.double) (ds : list (list Z * list Z)) : Time.double :=
  match ds with
  | [] => Time.nan
  | d :: ds =>
      match (if named n d then value d.2 else None) with
      | Some v => if Time.is_set v then v else first_value n value ds
      | None => first_value n value ds
      end
  end.

Definition seconds (v : list Z) : option Time.double := charactersToDouble v.
Definition stale_seconds (v : list Z) : option Time.double := match v with [] => Some Time.infinity | _ => charactersToDouble v end.

(** What a list of directives asks for; a [no-cache] with a value does not count. *)
Definition directives_of (ds : list (list Z * list Z)) : CacheControlDirectives :=
  mkDirectives (first_value (lit "max-age") seconds ds) (first_value (lit "max-stale") stale_seconds ds)
    (first_value (lit "stale-while-revalidate") seconds ds)
    (existsb (fun d => named (lit "no-cache") d && bool_decide (d.2 = [])) ds)
    (existsb (named (lit "no-store")) ds) (existsb (named (lit "must-revalidate")) ds) (existsb (named (lit "immutable")) ds).

Definition first_set (x y : Time.double) : Time.double := if Time.is_set x then x else y.

Definition merge (r q : CacheControlDirectives) : CacheControlDirectives :=
  mkDirectives (first_set (maxAge r) (maxAge q)) (first_set (maxStale r) (maxStale q))
    (first_set (staleWhileRevalidate r) (staleWhileRevalidate q))
    (noCache r || noCache q) (noStore r || noStore q) (mustRevalidate r || mustRevalidate q) (immutable r || immutable q).

Lemma first_set_nan x : first_set x Time.nan = x.
Proof. by destruct x. Qed.

Lemma merge_new r : merge r (directives_of []) = r.
Proof. destruct r. unfold merge. cbn. by rewrite !first_set_nan, !orb_false_r. Qed.

Lemma named_unique n m d : named n d = true -> n <> m -> named m d = false.
Proof. unfold named. intros ->%bool_decide_eq_true_1 N. by apply bool_decide_eq_false_2. Qed.

Ltac other_names Hn :=
  repeat match goal with |- context [named ?m _] => rewrite (named_unique _ m _ Hn) by done end.

(** A number is taken unless there is one, and kept only when it is one. *)
Lemma first_set_keep x y : Time.is_set x = true -> first_set x y = x.
Proof. unfold first_set. by intros ->. Qed.
Lemma first_set_take x o y : Time.is_set x = false ->
  first_set (match o with Some v => v | None => x end) y =
  first_set x (match o with Some v => if Time.is_set v then v else y | None => y end).
Proof. unfold first_set. intros E. rewrite E. destruct o as [v|]; [done|by rewrite E]. Qed.

Definition merges (r' r : CacheControlDirectives) (d : list Z * list Z) : Prop :=
  forall ds, merge r' (directives_of ds) = merge r (directives_of (d :: ds)).

Ltac merged Hn := intros ds; unfold merge, directives_of; cbn [first_value existsb]; rewrite Hn; other_names Hn; cbn.

Lemma directive_step_spec d r : exists r', directive_step d r = Ok r' /\ merges r' r d.
Proof.
  unfold directive_step. rewrite !equalLettersIgnoringASCIICase_spec. cbn [mbind res_bind].
  destruct (named (lit "no-cache") d) eqn:N1; cbn [andb].
  { destruct (isEmpty (Some d.2)) eqn:E; [|other_names N1]; eexists; (split; [done|]); merged N1;
      unfold isEmpty in E; destruct d as [n v]; cbn in E |- *; zb.
    - rewrite (zlen_none v) by lia. by rewrite orb_true_r.
    - by rewrite bool_decide_eq_false_2 by (by intros ->). }
  destruct (named (lit "no-store") d) eqn:N2; [eexists; split; [done|]; merged N2; by rewrite orb_true_r|].
  destruct (named (lit "must-revalidate") d) eqn:N3; [eexists; split; [done|]; merged N3; by rewrite orb_true_r|].
  destruct (named (lit "max-age") d) eqn:N4.
  { destruct (Time.is_set (maxAge r)) eqn:S; eexists; (split; [done|]); merged N4.
    - by rewrite !(first_set_keep (maxAge r)) by done.
    - rewrite <- first_set_take by done. unfold seconds. by destruct (charactersToDouble d.2). }
  destruct (named (lit "max-stale") d) eqn:N5.
  { destruct (Time.is_set (maxStale r)) eqn:S; [|destruct (isEmpty (Some d.2)) eqn:E]; eexists; (split; [done|]); merged N5.
    - by rewrite !(first_set_keep (maxStale r)) by done.
    - rewrite <- first_set_take by done. cbn in E. zb. by rewrite (zlen_none d.2) by lia.
    - rewrite <- first_set_take by done. unfold stale_seconds. destruct d.2; [done|]. by destruct (charactersToDouble _). }
  destruct (named (lit "immutable") d) eqn:N6; [eexists; split; [done|]; merged N6; by rewrite orb_true_r|].
  destruct (named (lit "stale-while-revalidate") d) eqn:N7.
  { destruct (Time.is_set (staleWhileRevalidate r)) eqn:S; eexists; (split; [done|]); merged N7.
    - by rewrite !(first_set_keep (staleWhileRevalidate r)) by done.
    - rewrite <- first_set_take by done. unfold seconds. by destruct (charactersToDouble d.2). }
  eexists. split; [done|]. intros ds. unfold merge, directives_of. cbn [first_value existsb]. by rewrite N1, N2, N3, N4, N5, N6, N7.
Qed.

Lemma directive_loop_spec ds : directive_loop ds CacheControlDirectives_new = Ok (directives_of ds).
Proof.
  enough (G : forall r, directive_loop ds r = Ok (merge r (directives_of ds))).
  { rewrite G. unfold merge. by destruct (directives_of ds). }
  induction ds as [|d ds IH]; intros r; cbn [directive_loop]; [by rewrite merge_new|].
  destruct (directive_step_spec d r) as (r' & -> & M). cbn [mbind res_bind]. by rewrite IH, M.
Qed.

(** Pragma is searched, not parsed. *)
Definition mentions (text word : list Z) : Prop :=
  exists pre x post, text = pre ++ x ++ post /\ (toASCIILower <$> x) = (toASCIILower <$> word).

Lemma equal_prefix_spec a b : (length b <= length a)%nat ->
  equalIgnoringASCIICase_loop a b (length b) = Ok (bool_decide ((toASCIILower <$> take (length b) a) = (toASCIILower <$> b))).
Proof.
  revert a; induction b as [|y b IH]; intros [|x a] L; cbn in L; try lia; try done.
  cbn [equalIgnoringASCIICase_loop length take]. destruct (Z.eqb_spec (toASCIILower x) (toASCIILower y)) as [E|N].
  - rewrite IH by lia. f_equal. apply bool_decide_ext. rewrite !fmap_cons, E. split; [by intros ->|by intros [= ->]].
  - rewrite bool_decide_eq_false_2; [done|]. rewrite !fmap_cons. by intros [= ?].
Qed.

Lemma mentions_step l m : mentions l m ->
  (toASCIILower <$> take (length m) l) = (toASCIILower <$> m) \/ exists c l', l = c :: l' /\ mentions l' m.
Proof.
  intros (pre & x & post & -> & E). destruct pre as [|c pre]; [left|right; eexists _, _; split; [done|]; by exists pre, x, post].
  assert (L : length x = length m) by (apply (f_equal length) in E; by rewrite !length_fmap in E).
  cbn [app]. by rewrite <- L, take_app_length.
Qed.

Lemma mentions_here l m : (toASCIILower <$> take (length m) l) = (toASCIILower <$> m) -> mentions l m.
Proof. intros E. exists [], (take (length m) l), (drop (length m) l). split; [by rewrite take_drop|done]. Qed.

Lemma mentions_length l m : mentions l m -> (length m <= length l)%nat.
Proof. intros (pre & x & post & -> & E). apply (f_equal length) in E. rewrite !length_fmap in E. rewrite !length_app. lia. Qed.

Lemma find_ignoring_spec delta s m o :
  fits s -> (o + delta + length m = length s)%nat ->
  exists n, find_ignoring_loop delta s m (Z.of_nat o) = Ok n /\
    ((n = notFound /\ ~ mentions (drop o s) m) \/ (n <> notFound /\ mentions (drop o s) m)).
Proof.
  intros F. revert o; induction delta as [|delta IH]; intros o L; cbn [find_ignoring_loop];
    rewrite Nat2Z.id, equal_prefix_spec by (rewrite length_drop; lia); cbn [mbind res_bind]; case_bool_decide as E.
  1, 3: eexists; (split; [done|]); right; split; [|by apply mentions_here]; unfold fits, zlen, MaxLength in F; unfold notFound;
    change (2 ^ 31 - 1) with 2147483647 in F; change (2 ^ 64 - 1) with 18446744073709551615; lia.
  - eexists. split; [done|]. left. split; [done|]. intros [?|(c & l & El & M%mentions_length)]%mentions_step; [done|].
    apply (f_equal length) in El. rewrite length_drop in El. cbn in El. lia.
  - replace (Z.of_nat o + 1) with (Z.of_nat (S o)) by lia. destruct (IH (S o)) as (n & -> & R); [lia|]. exists n. split; [done|].
    assert (X : mentions (drop o s) m <-> mentions (drop (S o) s) m).
    { destruct (lookup_lt_is_Some_2 s o) as [c Hc]; [lia|]. rewrite (drop_S _ _ _ Hc). split.
      - rewrite <- (drop_S _ _ _ Hc). intros [?|(c' & l & El & M)]%mentions_step; [done|].
        rewrite (drop_S _ _ _ Hc) in El. by injection El as _ ->.
      - intros (pre & x & post & -> & Ex). by exists (c :: pre), x, post. }
    by rewrite X.
Qed.

Lemma containsIgnoringASCIICase_spec s m : fits s -> m <> [] ->
  exists b, containsIgnoringASCIICase (Some s) m = Ok b /\ (b = true <-> mentions s m).
Proof.
  intros F N. unfold containsIgnoringASCIICase, findIgnoringASCIICase.
  rewrite (proj2 (Z.eqb_neq (zlen m) 0)) by (intros Z0; apply N, zlen_none; lia).
  rewrite (proj2 (Z.ltb_ge (zlen s) 0)) by apply zlen_nonneg. rewrite Z.sub_0_r.
  destruct (Z.ltb_spec (zlen s) (zlen m)) as [L|L].
  { eexists. split; [done|]. rewrite Z.eqb_refl. split; [done|]. intros M%mentions_length. unfold zlen in L. lia. }
  change 0 with (Z.of_nat 0). destruct (find_ignoring_spec (Z.to_nat (zlen s - zlen m)) s m 0 F) as (n & -> & R); [unfold zlen in *; lia|].
  rewrite drop_0 in R. eexists. split; [done|]. destruct R as [[-> ?]|[? ?]]; [by rewrite Z.eqb_refl|].
  by rewrite (proj2 (Z.eqb_neq _ _)).
Qed.

(** The directives of two header values. *)
Definition directives_of_values (control pragma : String) : res CacheControlDirectives :=
  result ← (if negb (isEmpty control)
            then ds ← parseCacheHeader (chars control); directive_loop ds CacheControlDirectives_new
            else Ok CacheControlDirectives_new);
  if negb (noCache result) then b ← containsIgnoringASCIICase pragma (lit "no-cache"); Ok (set_noCache b result) else Ok result.

Lemma directives_of_values_spec (control pragma : String) :
  fits (chars control) -> fits (chars pragma) ->
  exists ds b, cache_directives (List.filter visible (chars control)) ds /\ (b = true <-> mentions (chars pragma) (lit "no-cache")) /\
    directives_of_values control pragma = Ok (set_noCache (noCache (directives_of ds) || b) (directives_of ds)).
Proof.
  intros Fc Fp. unfold directives_of_values. destruct (cache_directives_total (List.filter visible (chars control))) as [ds D]. exists ds.
  assert (E : (if negb (isEmpty control) then ds ← parseCacheHeader (chars control); directive_loop ds CacheControlDirectives_new
     else Ok CacheControlDirectives_new) = Ok (directives_of ds)).
  { rewrite (parseCacheHeader_runs (chars control) ds) by done. cbn [mbind res_bind]. rewrite directive_loop_spec.
    destruct control as [l|]; cbn [isEmpty]; [destruct (Z.eqb_spec (zlen l) 0) as [Z0|]; [|done]|].
    - cbn in D. rewrite (zlen_none l) in D by lia. by rewrite (cache_directives_nil ds D).
    - by rewrite (cache_directives_nil ds D). }
  rewrite E. cbn [mbind res_bind].
  assert (C : exists b, containsIgnoringASCIICase pragma (lit "no-cache") = Ok b /\ (b = true <-> mentions (chars pragma) (lit "no-cache"))).
  { destruct pragma as [l|]; [by apply containsIgnoringASCIICase_spec|].
    exists false. split; [done|]. split; [done|]. intros M%mentions_length. cbn in M. lia. }
  destruct C as (b & C & B). exists b. split_and!; [done..|]. destruct (noCache (directives_of ds)) eqn:X; cbn [negb orb].
  - f_equal. destruct (directives_of ds). cbn in X. by subst.
  - by rewrite C.
Qed.

(** C31: the directives of a header map are those its Cache-Control header asks for: a flag is set when a directive of that
    name is in the list, [no-cache] only without a value; of the times the first one whose value is a number counts, and a [max-stale] without a value
    is no limit; without a [no-cache] directive, a Pragma header that mentions the word sets the flag. *)
Theorem cache_control_directives m g :
  rep m g -> entries m < 2 ^ 31 ->
  let control := chars (default None (g !! header_key H_CacheControl)) in
  let pragma := chars (default None (g !! header_key H_Pragma)) in
  fits control -> fits pragma ->
  exists ds b, cache_directives (List.filter visible control) ds /\ (b = true <-> mentions pragma (lit "no-cache")) /\
    parseCacheControlDirectives m = Ok (set_noCache (noCache (directives_of ds) || b) (directives_of ds)).
Proof.
  intros R S control pragma Fc Fp. unfold parseCacheControlDirectives. rewrite !(get_common_spec m g R S). by apply directives_of_values_spec.
Qed.
End meaning.

(** A [parseDouble] that knows digits only. *)
Definition digits_dtoa : Dtoa := {| parseDouble := fun l =>
  let ds := take_while isASCIIDigit l in (Time.of_int (decimal 0 ds), zlen ds) |}.

Definition sample_map : HTTPHeaderMap :=
  {| m_commonHeaders := [(H_CacheControl, Some (lit "max-age=x, Max-Age=60, immutable")); (H_Pragma, Some (lit "a, No-Cache"))]; m_uncommonHeaders := [] |}.

Lemma cache_control_witness :
  exists ds b, cache_directives (List.filter visible (lit "max-age=x, Max-Age=60, immutable")) ds /\ (b = true <-> mentions (lit "a, No-Cache") (lit "no-cache")) /\
    @parseCacheControlDirectives digits_dtoa sample_map = Ok (set_noCache (noCache (@directives_of digits_dtoa ds) || b) (@directives_of digits_dtoa ds)).
Proof.
  set (g := list_to_map ((fun x => (header_key x.1, x.2)) <$> m_commonHeaders sample_map) : gmap String String).
  assert (R : rep sample_map g) by (apply rep_common_list; apply (bool_decide_unpack _); by vm_compute).
  assert (E1 : chars (default None (g !! header_key H_CacheControl)) = lit "max-age=x, Max-Age=60, immutable") by (by vm_compute).
  assert (E2 : chars (default None (g !! header_key H_Pragma)) = lit "a, No-Cache") by (by vm_compute).
  pose proof (@cache_control_directives digits_dtoa sample_map g R ltac:(done)) as W. cbv zeta in W. rewrite E1, E2 in W.
  apply W; by vm_compute.
Defined.
End CacheProps.
