(* ===== verification/HttpResponse.v ===== *)
(** * Responses (network/ResourceResponseBase.cpp, network/ResourceResponseBase.h)

    A response keeps its headers and, each with a flag, the values it has parsed from
    them: [Cached] pairs the flag with the value.  A const function that parses on first
    use returns the response beside its result.  [lazyInit] does nothing on this platform.

    Parameters: URLs, with the test for the HTTP family; the parser of dates, which gives
    milliseconds; the order in which a hash set is walked.  Certificates, load metrics and the names of downloads are left out. *)
From Stdlib Require Ascii String.
Import String.StringSyntax.
From stdpp Require Import gmap.
From S2P Require Import Prelude WtfString HttpNames HttpHeaders HttpHeaderCoders HttpParsers HttpRange HttpCache.

Local Open Scope cf.

Class Platform := {
  URL : Type;
  emptyURL : URL;
  url_string : URL -> list Z;
  protocolIsInHTTPFamily : URL -> bool;
  (** [parseDateFromNullTerminatedCharacters] of the text of a header. *)
  parseDateFromCharacters : list Z -> Time.double;
  (** The elements of a hash set in the order of its table. *)
  walk : list (list Z) -> list (list Z) }.

Module Response.
Import Str Names Headers HeaderCoders Parsers Range Cache.

Inductive Type_ := TypeBasic | TypeCors | TypeDefault | TypeError | TypeOpaque | TypeOpaqueredirect.
Inductive Tainting := TaintBasic | TaintCors | TaintOpaque | TaintOpaqueredirect.
Inductive Source := SourceUnknown | SourceNetwork | SourceDiskCache | SourceDiskCacheAfterValidation | SourceMemoryCache
  | SourceMemoryCacheAfterValidation | SourceServiceWorker | SourceApplicationCache | SourceDOMCache | SourceInspectorOverride.

(** A value parsed from a header, and whether it was. *)
Record Cached (A : Type) := mkCached { have : bool; parsed : A }.
Arguments mkCached {A}. Arguments have {A}. Arguments parsed {A}.

Definition forget {A} (c : Cached A) : Cached A := mkCached false (parsed c).

Section response.
Context `{Platform} `{Dtoa} `{ICU}.

Record ResourceResponse := mkResponse {
  m_url : URL; m_mimeType : String; m_expectedContentLength : Z; m_textEncodingName : String;
  m_httpStatusText : String; m_httpVersion : String; m_httpHeaderFields : HTTPHeaderMap;
  m_age : Cached Time.double; m_date : Cached Time.double; m_expires : Cached Time.double; m_lastModified : Cached Time.double;
  m_contentRange : Cached ParsedContentRange; m_cacheControlDirectives : Cached CacheControlDirectives;
  m_isRedirected : bool; m_isRangeRequested : bool; m_isNull : bool;
  m_tainting : Tainting; m_source : Source; m_type : Type_; m_httpStatusCode : Z }.

Definition unparsed (url : URL) (mimeType : String) (expectedLength : Z) (textEncodingName : String) (isNull : bool) : ResourceResponse :=
  mkResponse url mimeType expectedLength textEncodingName None None HTTPHeaderMap_new
    (mkCached false Time.nan) (mkCached false Time.nan) (mkCached false Time.nan) (mkCached false Time.nan)
    (mkCached false ParsedContentRange_new) (mkCached false CacheControlDirectives_new)
    false false isNull TaintBasic SourceUnknown TypeDefault 0.

Definition ResourceResponse_new : ResourceResponse := unparsed emptyURL None 0 None true.
Definition ResourceResponse_of (url : URL) (mimeType : String) (expectedLength : Z) (textEncodingName : String) : ResourceResponse :=
  unparsed url mimeType expectedLength textEncodingName false.

(** ** Setters *)

Definition with_fields (r : ResourceResponse) (url : URL) (mimeType : String) (expected : Z) (encoding statusText version : String)
    (isNull : bool) (tainting : Tainting) (type : Type_) (statusCode : Z) : ResourceResponse :=
  mkResponse url mimeType expected encoding statusText version (m_httpHeaderFields r)
    (m_age r) (m_date r) (m_expires r) (m_lastModified r) (m_contentRange r) (m_cacheControlDirectives r)
    (m_isRedirected r) (m_isRangeRequested r) isNull tainting (m_source r) type statusCode.

Definition setURL (url : URL) (r : ResourceResponse) : ResourceResponse :=
  with_fields r url (m_mimeType r) (m_expectedContentLength r) (m_textEncodingName r) (m_httpStatusText r) (m_httpVersion r) false (m_tainting r) (m_type r) (m_httpStatusCode r).
Definition setMimeType (mimeType : String) (r : ResourceResponse) : ResourceResponse :=
  with_fields r (m_url r) mimeType (m_expectedContentLength r) (m_textEncodingName r) (m_httpStatusText r) (m_httpVersion r) false (m_tainting r) (m_type r) (m_httpStatusCode r).
Definition setExpectedContentLength (expected : Z) (r : ResourceResponse) : ResourceResponse :=
  with_fields r (m_url r) (m_mimeType r) expected (m_textEncodingName r) (m_httpStatusText r) (m_httpVersion r) false (m_tainting r) (m_type r) (m_httpStatusCode r).
Definition setTextEncodingName (encodingName : String) (r : ResourceResponse) : ResourceResponse :=
  with_fields r (m_url r) (m_mimeType r) (m_expectedContentLength r) encodingName (m_httpStatusText r) (m_httpVersion r) false (m_tainting r) (m_type r) (m_httpStatusCode r).
Definition setType (type : Type_) (r : ResourceResponse) : ResourceResponse :=
  with_fields r (m_url r) (m_mimeType r) (m_expectedContentLength r) (m_textEncodingName r) (m_httpStatusText r) (m_httpVersion r) false (m_tainting r) type (m_httpStatusCode r).
Definition setTainting (tainting : Tainting) (r : ResourceResponse) : ResourceResponse :=
  with_fields r (m_url r) (m_mimeType r) (m_expectedContentLength r) (m_textEncodingName r) (m_httpStatusText r) (m_httpVersion r) (m_isNull r) tainting (m_type r) (m_httpStatusCode r).
(** The member is a [short]. *)
Definition setHTTPStatusCode (statusCode : Z) (r : ResourceResponse) : ResourceResponse :=
  with_fields r (m_url r) (m_mimeType r) (m_expectedContentLength r) (m_textEncodingName r) (m_httpStatusText r) (m_httpVersion r) false (m_tainting r) (m_type r) (swrap 16 statusCode).
Definition setHTTPStatusText (statusText : String) (r : ResourceResponse) : ResourceResponse :=
  with_fields r (m_url r) (m_mimeType r) (m_expectedContentLength r) (m_textEncodingName r) statusText (m_httpVersion r) (m_isNull r) (m_tainting r) (m_type r) (m_httpStatusCode r).
Definition setHTTPVersion (versionText : String) (r : ResourceResponse) : ResourceResponse :=
  with_fields r (m_url r) (m_mimeType r) (m_expectedContentLength r) (m_textEncodingName r) (m_httpStatusText r) versionText (m_isNull r) (m_tainting r) (m_type r) (m_httpStatusCode r).

(** The remaining flags. *)
Definition with_flags (r : ResourceResponse) (isRedirected isRangeRequested : bool) (source : Source) : ResourceResponse :=
  mkResponse (m_url r) (m_mimeType r) (m_expectedContentLength r) (m_textEncodingName r) (m_httpStatusText r) (m_httpVersion r) (m_httpHeaderFields r)
    (m_age r) (m_date r) (m_expires r) (m_lastModified r) (m_contentRange r) (m_cacheControlDirectives r)
    isRedirected isRangeRequested (m_isNull r) (m_tainting r) source (m_type r) (m_httpStatusCode r).
Definition setRedirected (isRedirected : bool) (r : ResourceResponse) : ResourceResponse := with_flags r isRedirected (m_isRangeRequested r) (m_source r).
Definition setAsRangeRequested (r : ResourceResponse) : ResourceResponse := with_flags r (m_isRedirected r) true (m_source r).
Definition setSource (source : Source) (r : ResourceResponse) : ResourceResponse := with_flags r (m_isRedirected r) (m_isRangeRequested r) source.

Definition isMultipart (r : ResourceResponse) : bool := bool_decide (m_mimeType r = Some (lit "multipart/x-mixed-replace")).
Definition isRedirectionStatusCode (code : Z) : bool := existsb (Z.eqb code) [301; 302; 303; 307; 308].
Definition isRedirection (r : ResourceResponse) : bool := isRedirectionStatusCode (m_httpStatusCode r).
Definition isSuccessful (r : ResourceResponse) : bool := (200 <=? m_httpStatusCode r) && (m_httpStatusCode r <? 300).
Definition isInHTTPFamily (r : ResourceResponse) : bool := protocolIsInHTTPFamily (m_url r).
Definition isHTTP09 (r : ResourceResponse) : res bool :=
  match m_httpVersion r with None => Ok false | Some l => startsWith l (lit "HTTP/0.9") end.

(** The headers and the parsed values. *)
Definition with_headers (m : HTTPHeaderMap) (r : ResourceResponse) : ResourceResponse :=
  mkResponse (m_url r) (m_mimeType r) (m_expectedContentLength r) (m_textEncodingName r) (m_httpStatusText r) (m_httpVersion r) m
    (m_age r) (m_date r) (m_expires r) (m_lastModified r) (m_contentRange r) (m_cacheControlDirectives r)
    (m_isRedirected r) (m_isRangeRequested r) (m_isNull r) (m_tainting r) (m_source r) (m_type r) (m_httpStatusCode r).

Definition with_parsed (r : ResourceResponse) (age date expires lastModified : Cached Time.double) (range : Cached ParsedContentRange)
    (directives : Cached CacheControlDirectives) : ResourceResponse :=
  mkResponse (m_url r) (m_mimeType r) (m_expectedContentLength r) (m_textEncodingName r) (m_httpStatusText r) (m_httpVersion r) (m_httpHeaderFields r)
    age date expires lastModified range directives
    (m_isRedirected r) (m_isRangeRequested r) (m_isNull r) (m_tainting r) (m_source r) (m_type r) (m_httpStatusCode r).

Definition updateHeaderParsedState (name : HTTPHeaderName) (r : ResourceResponse) : ResourceResponse :=
  match name with
  | H_Age => with_parsed r (forget (m_age r)) (m_date r) (m_expires r) (m_lastModified r) (m_contentRange r) (m_cacheControlDirectives r)
  | H_CacheControl | H_Pragma => with_parsed r (m_age r) (m_date r) (m_expires r) (m_lastModified r) (m_contentRange r) (forget (m_cacheControlDirectives r))
  | H_Date => with_parsed r (m_age r) (forget (m_date r)) (m_expires r) (m_lastModified r) (m_contentRange r) (m_cacheControlDirectives r)
  | H_Expires => with_parsed r (m_age r) (m_date r) (forget (m_expires r)) (m_lastModified r) (m_contentRange r) (m_cacheControlDirectives r)
  | H_LastModified => with_parsed r (m_age r) (m_date r) (m_expires r) (forget (m_lastModified r)) (m_contentRange r) (m_cacheControlDirectives r)
  | H_ContentRange => with_parsed r (m_age r) (m_date r) (m_expires r) (m_lastModified r) (forget (m_contentRange r)) (m_cacheControlDirectives r)
  | _ => r
  end.

Definition setHTTPHeaderField_name (name value : String) (r : ResourceResponse) : res ResourceResponse :=
  headerName ← find_name name;
  let r := match headerName with Some h => updateHeaderParsedState h r | None => r end in
  m ← set (m_httpHeaderFields r) name value; Ok (with_headers m r).

Definition setHTTPHeaderField (name : HTTPHeaderName) (value : String) (r : ResourceResponse) : res ResourceResponse :=
  let r := updateHeaderParsedState name r in
  m ← set_header (m_httpHeaderFields r) name value; Ok (with_headers m r).

Definition addHTTPHeaderField (name : HTTPHeaderName) (value : String) (r : ResourceResponse) : res ResourceResponse :=
  let r := updateHeaderParsedState name r in
  m ← add_header (m_httpHeaderFields r) name value; Ok (with_headers m r).

Definition addHTTPHeaderField_name (name value : String) (r : ResourceResponse) : res ResourceResponse :=
  headerName ← find_name name;
  match headerName with
  | Some h => addHTTPHeaderField h value r
  | None => m ← add (m_httpHeaderFields r) name value; Ok (with_headers m r)
  end.

Definition setHTTPHeaderFields (headerFields : HTTPHeaderMap) (r : ResourceResponse) : ResourceResponse := with_headers headerFields r.

Definition httpHeaderField (name : HTTPHeaderName) (r : ResourceResponse) : res String :=
  value ← get_common (m_httpHeaderFields r) name;
  if negb (isEmpty value) then Ok value else get_common (m_httpHeaderFields r) name.

Definition httpHeaderField_name (name : String) (r : ResourceResponse) : res String :=
  value ← get (m_httpHeaderFields r) name;
  if negb (isEmpty value) then Ok value else get (m_httpHeaderFields r) name.

Definition syntheticRedirectResponse (fromURL toURL : URL) : res ResourceResponse :=
  let r := setHTTPVersion (Some (lit "HTTP/1.1")) (setHTTPStatusCode 302 (setURL fromURL ResourceResponse_new)) in
  r ← setHTTPHeaderField H_Location (Some (url_string toURL)) r;
  setHTTPHeaderField H_CacheControl (Some (lit "no-store")) r.

(** ** Copies for other threads *)

(** Without the metrics of the load. *)
Record CrossThreadData := mkCrossThread {
  d_url : URL; d_mimeType : String; d_expectedContentLength : Z; d_textEncodingName : String;
  d_httpStatusCode : Z; d_httpStatusText : String; d_httpVersion : String; d_httpHeaderFields : HTTPHeaderMap;
  d_type : Type_; d_tainting : Tainting; d_isRedirected : bool; d_isRangeRequested : bool }.

(** The copies of strings and headers have the same text. *)
Definition crossThreadData (r : ResourceResponse) : CrossThreadData :=
  mkCrossThread (m_url r) (m_mimeType r) (m_expectedContentLength r) (m_textEncodingName r)
    (m_httpStatusCode r) (m_httpStatusText r) (m_httpVersion r) (m_httpHeaderFields r)
    (m_type r) (m_tainting r) (m_isRedirected r) (m_isRangeRequested r).

Definition fromCrossThreadData (data : CrossThreadData) : ResourceResponse :=
  let response := setURL (d_url data) ResourceResponse_new in
  let response := setMimeType (d_mimeType data) response in
  let response := setExpectedContentLength (d_expectedContentLength data) response in
  let response := setTextEncodingName (d_textEncodingName data) response in
  let response := setHTTPStatusCode (d_httpStatusCode data) response in
  let response := setHTTPStatusText (d_httpStatusText data) response in
  let response := setHTTPVersion (d_httpVersion data) response in
  let response := with_headers (d_httpHeaderFields data) response in
  let response := with_fields response (m_url response) (m_mimeType response) (m_expectedContentLength response) (m_textEncodingName response)
    (m_httpStatusText response) (m_httpVersion response) (m_isNull response) (d_tainting data) (d_type data) (m_httpStatusCode response) in
  with_flags response (d_isRedirected data) (d_isRangeRequested data) (m_source response).

(** ** Parsed values *)

Definition parseHTTPDate (value : StringImpl) : option Time.double :=
  let dateInMillisecondsSinceEpoch := parseDateFromCharacters value in
  if negb (Time.isfinite dateInMillisecondsSinceEpoch) then None
  else Some (Time.over dateInMillisecondsSinceEpoch (Time.of_int 1000)).

Definition parseDateValueInHeader (headers : HTTPHeaderMap) (headerName : HTTPHeaderName) : res (option Time.double) :=
  headerValue ← get_common headers headerName;
  if isEmpty headerValue then Ok None else Ok (parseHTTPDate (chars headerValue)).

Definition parseContentRangeInHeader (headers : HTTPHeaderMap) : res ParsedContentRange :=
  contentRangeValue ← get_common headers H_ContentRange;
  if isEmpty contentRangeValue then Ok ParsedContentRange_new else ParsedContentRange_parse contentRangeValue.

(** [parseCacheControlDirectives()] where it was not done before. *)
Definition directives (r : ResourceResponse) : res (ResourceResponse * CacheControlDirectives) :=
  if have (m_cacheControlDirectives r) then Ok (r, parsed (m_cacheControlDirectives r))
  else
    d ← parseCacheControlDirectives (m_httpHeaderFields r);
    Ok (with_parsed r (m_age r) (m_date r) (m_expires r) (m_lastModified r) (m_contentRange r) (mkCached true d), d).

Definition cacheControlContainsNoCache (r : ResourceResponse) : res (ResourceResponse * bool) := '(r, d) ← directives r; Ok (r, noCache d).
Definition cacheControlContainsNoStore (r : ResourceResponse) : res (ResourceResponse * bool) := '(r, d) ← directives r; Ok (r, noStore d).
Definition cacheControlContainsMustRevalidate (r : ResourceResponse) : res (ResourceResponse * bool) := '(r, d) ← directives r; Ok (r, mustRevalidate d).
Definition cacheControlContainsImmutable (r : ResourceResponse) : res (ResourceResponse * bool) := '(r, d) ← directives r; Ok (r, immutable d).
Definition cacheControlMaxAge (r : ResourceResponse) : res (ResourceResponse * option Time.double) :=
  '(r, d) ← directives r; Ok (r, Time.as_optional (maxAge d)).
Definition cacheControlStaleWhileRevalidate (r : ResourceResponse) : res (ResourceResponse * option Time.double) :=
  '(r, d) ← directives r; Ok (r, Time.as_optional (staleWhileRevalidate d)).

Definition hasCacheValidatorFields (r : ResourceResponse) : res bool :=
  lastModified ← get_common (m_httpHeaderFields r) H_LastModified;
  if negb (isEmpty lastModified) then Ok true else
  etag ← get_common (m_httpHeaderFields r) H_ETag; Ok (negb (isEmpty etag)).

Definition date (r : ResourceResponse) : res (ResourceResponse * option Time.double) :=
  if have (m_date r) then Ok (r, Time.as_optional (parsed (m_date r)))
  else
    d ← parseDateValueInHeader (m_httpHeaderFields r) H_Date;
    Ok (with_parsed r (m_age r) (mkCached true (Time.markable d)) (m_expires r) (m_lastModified r) (m_contentRange r) (m_cacheControlDirectives r),
        Time.as_optional (Time.markable d)).

(** A header that is not a number leaves the value that was there. *)
Definition age (r : ResourceResponse) : res (ResourceResponse * option Time.double) :=
  if have (m_age r) then Ok (r, Time.as_optional (parsed (m_age r)))
  else
    headerValue ← get_common (m_httpHeaderFields r) H_Age;
    let a := match toDouble headerValue with Some ageDouble => ageDouble | None => parsed (m_age r) end in
    Ok (with_parsed r (mkCached true a) (m_date r) (m_expires r) (m_lastModified r) (m_contentRange r) (m_cacheControlDirectives r),
        Time.as_optional a).

Definition expires (r : ResourceResponse) : res (ResourceResponse * option Time.double) :=
  if have (m_expires r) then Ok (r, Time.as_optional (parsed (m_expires r)))
  else
    d ← parseDateValueInHeader (m_httpHeaderFields r) H_Expires;
    Ok (with_parsed r (m_age r) (m_date r) (mkCached true (Time.markable d)) (m_lastModified r) (m_contentRange r) (m_cacheControlDirectives r),
        Time.as_optional (Time.markable d)).

Definition lastModified (r : ResourceResponse) : res (ResourceResponse * option Time.double) :=
  if have (m_lastModified r) then Ok (r, Time.as_optional (parsed (m_lastModified r)))
  else
    d ← parseDateValueInHeader (m_httpHeaderFields r) H_LastModified;
    Ok (with_parsed r (m_age r) (m_date r) (m_expires r) (mkCached true (Time.markable d)) (m_contentRange r) (m_cacheControlDirectives r),
        Time.as_optional (Time.markable d)).

Definition contentRange (r : ResourceResponse) : res (ResourceResponse * ParsedContentRange) :=
  if have (m_contentRange r) then Ok (r, parsed (m_contentRange r))
  else
    c ← parseContentRangeInHeader (m_httpHeaderFields r);
    Ok (with_parsed r (m_age r) (m_date r) (m_expires r) (m_lastModified r) (mkCached true c) (m_cacheControlDirectives r), c).

(** [value.left(n)]. *)
Definition left_ (s : String) (n : Z) : res String := substring s 0 n.

Definition isAttachment (r : ResourceResponse) : res bool :=
  value ← get_common (m_httpHeaderFields r) H_ContentDisposition;
  position ← find_uchar value 59 0;
  value ← left_ value position;
  value ← stripWhiteSpace value;
  equalLettersIgnoringASCIICase value (lit "attachment").

Definition isAttachmentWithFilename (r : ResourceResponse) : res bool :=
  contentDisposition ← get_common (m_httpHeaderFields r) H_ContentDisposition;
  if isNull contentDisposition then Ok false else
  position ← find_uchar contentDisposition 59 0;
  value ← left_ contentDisposition position;
  value ← stripWhiteSpace value;
  b ← equalLettersIgnoringASCIICase value (lit "attachment");
  if negb b then Ok false else
  filename ← filenameFromHTTPContentDisposition contentDisposition; Ok (negb (isNull filename)).

(** ** Sanitizing *)

Definition isSafeRedirectionResponseHeader (name : HTTPHeaderName) : bool :=
  match name with
  | H_Location | H_ReferrerPolicy | H_CacheControl | H_Date | H_Expires | H_ETag | H_LastModified | H_Age | H_Pragma | H_Refresh | H_Vary
  | H_AccessControlAllowCredentials | H_AccessControlAllowHeaders | H_AccessControlAllowMethods | H_AccessControlAllowOrigin
  | H_AccessControlExposeHeaders | H_AccessControlMaxAge | H_CrossOriginResourcePolicy | H_TimingAllowOrigin => true
  | _ => false
  end.

Definition isSafeCrossOriginResponseHeader (name : HTTPHeaderName) : bool :=
  match name with
  | H_AcceptRanges | H_AccessControlAllowCredentials | H_AccessControlAllowHeaders | H_AccessControlAllowMethods | H_AccessControlAllowOrigin
  | H_AccessControlExposeHeaders | H_AccessControlMaxAge | H_AccessControlRequestHeaders | H_AccessControlRequestMethod | H_Age | H_CacheControl
  | H_ContentDisposition | H_ContentEncoding | H_ContentLanguage | H_ContentLength | H_ContentRange | H_ContentSecurityPolicy
  | H_ContentSecurityPolicyReportOnly | H_ContentType | H_CrossOriginResourcePolicy | H_Date | H_ETag | H_Expires | H_IcyMetaInt | H_IcyMetadata
  | H_LastEventID | H_LastModified | H_Link | H_Location | H_Pragma | H_Range | H_ReferrerPolicy | H_Refresh | H_ServerTiming | H_SourceMap
  | H_XSourceMap | H_TimingAllowOrigin | H_Trailer | H_Vary | H_XContentTypeOptions | H_XDNSPrefetchControl | H_XFrameOptions | H_XXSSProtection => true
  | _ => false
  end.

(** [for (auto& header : headers) if (safe(header.key)) filteredHeaders.add(header.key, WTFMove(header.value))] *)
Fixpoint add_safe (safe : HTTPHeaderName -> bool) (headers : list (HTTPHeaderName * String)) (filteredHeaders : HTTPHeaderMap) : res HTTPHeaderMap :=
  match headers with
  | [] => Ok filteredHeaders
  | header :: headers =>
      filteredHeaders ← (if safe header.1 then add_header filteredHeaders header.1 header.2 else Ok filteredHeaders);
      add_safe safe headers filteredHeaders
  end.

(** [HTTPHeaderMap::add] takes the value by reference to const, so the moved values stay in the map. *)
Fixpoint add_exposed (names : list StringImpl) (m filteredHeaders : HTTPHeaderMap) : res HTTPHeaderMap :=
  match names with
  | [] => Ok filteredHeaders
  | headerName :: names =>
      b ← contains filteredHeaders (Some headerName);
      filteredHeaders ← (if (b : bool) then Ok filteredHeaders else
        value ← get m (Some headerName);
        if isNull value then Ok filteredHeaders else add filteredHeaders (Some headerName) value);
      add_exposed names m filteredHeaders
  end.

(** The hash type of the set of names. *)
Definition same_ignoring_case (a b : StringImpl) : bool := match equalIgnoringASCIICase a b with Ok b => b | _ => false end.

Definition exposed_headers (r : ResourceResponse) : res (list StringImpl) :=
  value ← httpHeaderField H_AccessControlExposeHeaders r;
  set ← parseAccessControlAllowList same_ignoring_case value; Ok (default [] set).

Definition sanitizeHTTPHeaderFieldsAccordingToTainting (r : ResourceResponse) : res ResourceResponse :=
  match m_tainting r with
  | TaintBasic => Ok r
  | TaintCors =>
      corsSafeHeaderSet ← exposed_headers r;
      all ← header_set_contains corsSafeHeaderSet (lit "*");
      if (all : bool) then Ok r else
      filteredHeaders ← add_safe isSafeCrossOriginResponseHeader (m_commonHeaders (m_httpHeaderFields r)) HTTPHeaderMap_new;
      filteredHeaders ← add_exposed (walk corsSafeHeaderSet) (m_httpHeaderFields r) filteredHeaders;
      Ok (with_headers filteredHeaders r)
  | TaintOpaque | TaintOpaqueredirect =>
      filteredHeaders ← add_safe isSafeCrossOriginResponseHeader (m_commonHeaders (m_httpHeaderFields r)) HTTPHeaderMap_new;
      Ok (with_headers filteredHeaders r)
  end.

Inductive SanitizationType := Redirection | RemoveCookies | CrossOriginSafe.

Definition sanitizeHTTPHeaderFields (type : SanitizationType) (r : ResourceResponse) : res ResourceResponse :=
  '(m, _) ← remove_header (m_httpHeaderFields r) H_SetCookie;
  '(m, _) ← remove_header m H_SetCookie2;
  let r := with_headers m r in
  match type with
  | RemoveCookies => Ok r
  | Redirection =>
      m ← add_safe isSafeRedirectionResponseHeader (m_commonHeaders m) (set_common m []);
      Ok (with_headers (set_uncommon m []) r)
  | CrossOriginSafe => sanitizeHTTPHeaderFieldsAccordingToTainting r
  end.

(** [removeAllMatching] of the headers that are not safe. *)
Fixpoint keep_safe {K} (safe : K -> res bool) (l : list (K * String)) : res (list (K * String)) :=
  match l with
  | [] => Ok []
  | entry :: l => b ← safe entry.1; l ← keep_safe safe l; Ok (if (b : bool) then entry :: l else l)
  end.

Definition filter_response (response : ResourceResponse) (performCheck : bool) : res ResourceResponse :=
  match m_tainting response with
  | TaintOpaque => Ok (setType TypeOpaque (setTainting TaintOpaque ResourceResponse_new))
  | TaintOpaqueredirect => Ok (setURL (m_url response) (setType TypeOpaqueredirect (setTainting TaintOpaqueredirect ResourceResponse_new)))
  | tainting =>
      '(m, _) ← remove_header (m_httpHeaderFields response) H_SetCookie;
      '(m, _) ← remove_header m H_SetCookie2;
      let filteredResponse := with_headers m response in
      match tainting with
      | TaintBasic => Ok (setType TypeBasic filteredResponse)
      | _ =>
          let filteredResponse := setType TypeCors filteredResponse in
          accessControlExposeHeaderSet ← exposed_headers response;
          all ← (if performCheck then header_set_contains accessControlExposeHeaderSet (lit "*") else Ok false);
          if (all : bool) then Ok filteredResponse else
          uncommon ← keep_safe (fun name => match name with
            | Some name => isCrossOriginSafeHeader_string name accessControlExposeHeaderSet | None => UB end) (m_uncommonHeaders m);
          common ← keep_safe (fun name => isCrossOriginSafeHeader name accessControlExposeHeaderSet) (m_commonHeaders m);
          Ok (with_headers {| m_commonHeaders := common; m_uncommonHeaders := uncommon |} filteredResponse)
      end
  end.

Fixpoint invalid_header (headers : list KeyValue) : res bool :=
  match headers with
  | [] => Ok false
  | header :: headers =>
      value ← stripLeadingAndTrailingCharacters isHTTPSpace (kv_value header);
      b ← isValidHTTPHeaderValue value;
      if negb b then Ok true else invalid_header headers
  end.

Definition containsInvalidHTTPHeaders (r : ResourceResponse) : res bool :=
  headers ← for_each (m_httpHeaderFields r) (S (length (m_commonHeaders (m_httpHeaderFields r)) + length (m_uncommonHeaders (m_httpHeaderFields r))));
  invalid_header headers.
End response.
End Response.
