(* ===== verification/HttpValidation.v ===== *)
(** * Validation of cached responses (network/CacheValidation.cpp)

    The age and the freshness of a response, the state of a chain of redirections, the
    update of a response from a validating one and the headers a response varies on.
    A value of [WallTime::now] is an argument for each call.  A request is its header map;
    the cookies, which the network layer adds, are an argument. *)
From Stdlib Require Ascii String.
Import String.StringSyntax.
From stdpp Require Import gmap.
From S2P Require Import Prelude WtfString HttpNames HttpHeaders HttpHeaderCoders HttpParsers HttpRange HttpCache HttpResponse.

Local Open Scope cf.

Module Validation.
Import Str Names Headers HeaderCoders Cache Response.

Section validation.
Context `{Platform} `{Dtoa} `{ICU}.

(** ** Age and freshness *)

Definition computeCurrentAge (response : ResourceResponse) (responseTime now : Time.double) : res (ResourceResponse * Time.double) :=
  '(response, dateValue) ← date response;
  let apparentAge := match dateValue with Some d => Time.max Time.zero (Time.minus responseTime d) | None => Time.zero end in
  '(response, ageValue) ← age response;
  let correctedInitialAge := Time.max apparentAge (default Time.zero ageValue) in
  let residentTime := Time.minus now responseTime in
  Ok (response, Time.plus correctedInitialAge residentTime).

Definition computeFreshnessLifetimeForHTTPFamily (response : ResourceResponse) (responseTime : Time.double) : res (ResourceResponse * Time.double) :=
  if negb (isInHTTPFamily response) then Ok (response, Time.zero) else
  '(response, maxAge) ← cacheControlMaxAge response;
  match maxAge with
  | Some a => Ok (response, a)
  | None =>
      '(response, date) ← date response;
      let effectiveDate := default responseTime date in
      '(response, expires) ← expires response;
      match expires with
      | Some e => Ok (response, Time.minus e effectiveDate)
      | None =>
          if existsb (Z.eqb (m_httpStatusCode response)) [301; 410]
          then Ok (response, Time.times (Time.of_int 86400) (Time.of_int 365))
          else
            '(response, lastModified) ← lastModified response;
            Ok (response, match lastModified with Some l => Time.times (Time.minus effectiveDate l) Time.tenth | None => Time.zero end)
      end
  end.

(** ** Redirections *)

Inductive Status := NoRedirection | NotCachedRedirection | CachedRedirection.
Record RedirectChainCacheStatus := mkChain { endOfValidity : Time.double; status : Status }.
Definition RedirectChainCacheStatus_new : RedirectChainCacheStatus := mkChain Time.infinity NoRedirection.

(** The clock is read once here and once for the age. *)
Definition updateRedirectChainStatus (chain : RedirectChainCacheStatus) (response : ResourceResponse) (now now2 : Time.double)
    : res (RedirectChainCacheStatus * ResourceResponse) :=
  match status chain with
  | NotCachedRedirection => Ok (chain, response)
  | _ =>
      '(response, a) ← cacheControlContainsNoStore response;
      '(response, b) ← (if a : bool then Ok (response, true) else cacheControlContainsNoCache response);
      '(response, c) ← (if b : bool then Ok (response, true) else cacheControlContainsMustRevalidate response);
      if (c : bool) then Ok (mkChain (endOfValidity chain) NotCachedRedirection, response) else
      '(response, lifetime) ← computeFreshnessLifetimeForHTTPFamily response now;
      '(response, current) ← computeCurrentAge response now now2;
      let end_ := Time.minus (Time.plus now lifetime) current in
      Ok (mkChain (Time.min (endOfValidity chain) end_) CachedRedirection, response)
  end.

Definition redirectChainAllowsReuse (chain : RedirectChainCacheStatus) (reuseExpiredRedirection : bool) (now : Time.double) : bool :=
  match status chain with
  | NoRedirection => true
  | NotCachedRedirection => false
  | CachedRedirection => reuseExpiredRedirection || Time.less_equal now (endOfValidity chain)
  end.

(** ** Revalidation *)

Fixpoint update_loop (headers : list KeyValue) (response : ResourceResponse) : res ResourceResponse :=
  match headers with
  | [] => Ok response
  | header :: headers =>
      b ← shouldUpdateHeaderAfterRevalidation (kv_key header);
      response ← (if (b : bool) then setHTTPHeaderField_name (kv_key header) (kv_value header) response else Ok response);
      update_loop headers response
  end.

Definition updateResponseHeadersAfterRevalidation (response validatingResponse : ResourceResponse) : res ResourceResponse :=
  let m := m_httpHeaderFields validatingResponse in
  headers ← for_each m (S (length (m_commonHeaders m) + length (m_uncommonHeaders m)));
  update_loop headers response.

(** ** Headers a response varies on *)

Definition headerValueForVary (request : HTTPHeaderMap) (cookieRequestHeaderFieldValue : String) (headerName : String) : res String :=
  cookie ← httpHeaderNameString H_Cookie;
  if bool_decide (headerName = Some cookie) then Ok cookieRequestHeaderFieldValue else get request headerName.

Fixpoint collect_loop (headerValue : String -> res String) (names : list String) : res (list (String * String)) :=
  match names with
  | [] => Ok []
  | varyHeaderName :: names =>
      headerName ← stripWhiteSpace varyHeaderName;
      value ← headerValue headerName;
      rest ← collect_loop headerValue names;
      Ok ((headerName, value) :: rest)
  end.

Definition collectVaryingRequestHeadersInternal (response : ResourceResponse) (headerValue : String -> res String) : res (list (String * String)) :=
  varyValue ← httpHeaderField H_Vary response;
  if isEmpty varyValue then Ok [] else
  varyingHeaderNames ← split_uchar varyValue 44;
  collect_loop headerValue varyingHeaderNames.

(** [None] for the cookies is a null storage session. *)
Definition collectVaryingRequestHeaders (cookies : option String) (request : HTTPHeaderMap) (response : ResourceResponse) : res (list (String * String)) :=
  match cookies with
  | None => Ok []
  | Some cookies => collectVaryingRequestHeadersInternal response (headerValueForVary request cookies)
  end.

(** Without a cookie jar the cookies are a null string. *)
Definition collectVaryingRequestHeaders_jar (cookieJar : option String) (request : HTTPHeaderMap) (response : ResourceResponse) : res (list (String * String)) :=
  collectVaryingRequestHeadersInternal response (headerValueForVary request (default None cookieJar)).

Fixpoint verifyVaryingRequestHeadersInternal (varyingRequestHeaders : list (String * String)) (headerValueForVary : String -> res String) : res bool :=
  match varyingRequestHeaders with
  | [] => Ok true
  | (name, recorded) :: rest =>
      if bool_decide (name = Some (lit "*")) then Ok false else
      value ← headerValueForVary name;
      if negb (bool_decide (value = recorded)) then Ok false else verifyVaryingRequestHeadersInternal rest headerValueForVary
  end.

Definition verifyVaryingRequestHeaders (cookies : option String) (varyingRequestHeaders : list (String * String)) (request : HTTPHeaderMap) : res bool :=
  match cookies with
  | None => Ok false
  | Some cookies => verifyVaryingRequestHeadersInternal varyingRequestHeaders (headerValueForVary request cookies)
  end.

Definition verifyVaryingRequestHeaders_jar (cookieJar : option String) (varyingRequestHeaders : list (String * String)) (request : HTTPHeaderMap) : res bool :=
  verifyVaryingRequestHeadersInternal varyingRequestHeaders (headerValueForVary request (default None cookieJar)).
End validation.
End Validation.
