(* ===== verification/HttpResponseProps.v ===== *)
(** * Correctness of responses (network/ResourceResponseBase.cpp)

    - a response behaves like a finite map of headers that parses on every question: the
      dates, ranges and directives it keeps never differ from the headers, as long as headers
      are set and added one by one; the age is the number in the header or else the age before;
    - replacing all headers, or an Age header that is no number, leaves old values behind;
    - sanitizing keeps exactly the headers it is meant to keep. *)
From Stdlib Require Ascii String.
Import String.StringSyntax.
From stdpp Require Import gmap fin_maps.
From S2P Require Import Prelude WtfString HttpNames HttpHeaders HttpHeaderProps HttpHeaderCoders HttpParsers HttpRange HttpCache HttpCacheProps HttpResponse.

Local Open Scope cf.

Module ResponseProps.
Import Str Names Headers HeaderProps Parsers Range Cache CacheProps Response.

Section coherence.
Context `{Platform} `{Dtoa} `{ICU}.
Implicit Types (g : gmap String String) (r : ResourceResponse) (m : HTTPHeaderMap).

(** ** The specification: every answer from the headers *)

Definition value_of (h : HTTPHeaderName) g : String := default None (g !! header_key h).

Definition spec_date (h : HTTPHeaderName) g : option Time.double :=
  if isEmpty (value_of h g) then None else parseHTTPDate (chars (value_of h g)).
Definition spec_range g : res ParsedContentRange :=
  if isEmpty (value_of H_ContentRange g) then Ok ParsedContentRange_new else ParsedContentRange_parse (value_of H_ContentRange g).
Definition spec_directives g : res CacheControlDirectives := directives_of_values (value_of H_CacheControl g) (value_of H_Pragma g).

Inductive ROp :=
  | RNoCache | RNoStore | RMustRevalidate | RImmutable | RMaxAge | RStaleWhileRevalidate
  | RDate | RExpires | RLastModified | RContentRange
  | RField (h : HTTPHeaderName)
  | RSetName (name value : String) | RSet (h : HTTPHeaderName) (value : String)
  | RAddName (name value : String) | RAdd (h : HTTPHeaderName) (value : String)
  | RSetURL (url : URL) | RSetStatus (code : Z) | RSetTainting (t : Tainting).

Inductive RAnswer := RNothing | RFlag (b : bool) | RTime (t : option Time.double) | RRange (c : ParsedContentRange) | RText (s : String).

Definition response_op (o : ROp) (r : ResourceResponse) : res (ResourceResponse * RAnswer) :=
  match o with
  | RNoCache => '(r, b) ← cacheControlContainsNoCache r; Ok (r, RFlag b)
  | RNoStore => '(r, b) ← cacheControlContainsNoStore r; Ok (r, RFlag b)
  | RMustRevalidate => '(r, b) ← cacheControlContainsMustRevalidate r; Ok (r, RFlag b)
  | RImmutable => '(r, b) ← cacheControlContainsImmutable r; Ok (r, RFlag b)
  | RMaxAge => '(r, t) ← cacheControlMaxAge r; Ok (r, RTime t)
  | RStaleWhileRevalidate => '(r, t) ← cacheControlStaleWhileRevalidate r; Ok (r, RTime t)
  | RDate => '(r, t) ← date r; Ok (r, RTime t)
  | RExpires => '(r, t) ← expires r; Ok (r, RTime t)
  | RLastModified => '(r, t) ← lastModified r; Ok (r, RTime t)
  | RContentRange => '(r, c) ← contentRange r; Ok (r, RRange c)
  | RField h => s ← httpHeaderField h r; Ok (r, RText s)
  | RSetName name value => r ← setHTTPHeaderField_name name value r; Ok (r, RNothing)
  | RSet h value => r ← setHTTPHeaderField h value r; Ok (r, RNothing)
  | RAddName name value => r ← addHTTPHeaderField_name name value r; Ok (r, RNothing)
  | RAdd h value => r ← addHTTPHeaderField h value r; Ok (r, RNothing)
  | RSetURL url => Ok (setURL url r, RNothing)
  | RSetStatus code => Ok (setHTTPStatusCode code r, RNothing)
  | RSetTainting t => Ok (setTainting t r, RNothing)
  end.

Definition put (k v : String) g : res (gmap String String) := Ok (<[k := v]> g).
Definition join (k v : String) g : res (gmap String String) :=
  match g !! k with None => Ok (<[k := v]> g) | Some old => w ← makeString old v; Ok (<[k := w]> g) end.

Definition headers_op (o : ROp) (g : gmap String String) : res (gmap String String * RAnswer) :=
  match o with
  | RNoCache => d ← spec_directives g; Ok (g, RFlag (noCache d))
  | RNoStore => d ← spec_directives g; Ok (g, RFlag (noStore d))
  | RMustRevalidate => d ← spec_directives g; Ok (g, RFlag (mustRevalidate d))
  | RImmutable => d ← spec_directives g; Ok (g, RFlag (immutable d))
  | RMaxAge => d ← spec_directives g; Ok (g, RTime (Time.as_optional (maxAge d)))
  | RStaleWhileRevalidate => d ← spec_directives g; Ok (g, RTime (Time.as_optional (staleWhileRevalidate d)))
  | RDate => Ok (g, RTime (Time.as_optional (Time.markable (spec_date H_Date g))))
  | RExpires => Ok (g, RTime (Time.as_optional (Time.markable (spec_date H_Expires g))))
  | RLastModified => Ok (g, RTime (Time.as_optional (Time.markable (spec_date H_LastModified g))))
  | RContentRange => c ← spec_range g; Ok (g, RRange c)
  | RField h => Ok (g, RText (value_of h g))
  | RSetName name value => g ← put (name_key name) value g; Ok (g, RNothing)
  | RSet h value => g ← put (header_key h) value g; Ok (g, RNothing)
  | RAddName name value => g ← join (name_key name) value g; Ok (g, RNothing)
  | RAdd h value => g ← join (header_key h) value g; Ok (g, RNothing)
  | _ => Ok (g, RNothing)
  end.

Fixpoint run {S} (step : ROp -> S -> res (S * RAnswer)) (l : list ROp) (s : S) : res (S * list RAnswer) :=
  match l with
  | [] => Ok (s, [])
  | o :: l => '(s, a) ← step o s; '(s, rest) ← run step l s; Ok (s, a :: rest)
  end.

(** Names of characters, and values that are strings. *)
Definition valid_rop (o : ROp) : Prop :=
  match o with
  | RSetName name value | RAddName name value => valid_name name /\ fits (chars value)
  | RSet _ value | RAdd _ value => fits (chars value)
  | _ => True
  end.

(** ** The values that were parsed agree with the headers *)

Definition agrees {A} (c : Cached A) (v : res A) : Prop := have c = true -> v = Ok (parsed c).

Record coherent r g : Prop := {
  co_date : agrees (m_date r) (Ok (Time.markable (spec_date H_Date g)));
  co_expires : agrees (m_expires r) (Ok (Time.markable (spec_date H_Expires g)));
  co_lastModified : agrees (m_lastModified r) (Ok (Time.markable (spec_date H_LastModified g)));
  co_range : agrees (m_contentRange r) (spec_range g);
  co_directives : agrees (m_cacheControlDirectives r) (spec_directives g) }.

Definition represents r g : Prop := rep (m_httpHeaderFields r) g /\ coherent r g.

Definition sim {A} (x : res (ResourceResponse * A)) (y : res (gmap String String * A)) : Prop :=
  match y with
  | Ok (g, a) => exists r, x = Ok (r, a) /\ represents r g
  | UB => x = UB | Crash => x = Crash | NoFuel => x = NoFuel
  end.

(** ** Steps on the headers *)

Section headers.
Context (m : HTTPHeaderMap) (g : gmap String String) (R : rep m g) (S : entries m < 2 ^ 31).

Definition updates (x : res HTTPHeaderMap) (y : res (gmap String String)) : Prop :=
  match y with Ok g' => exists m', x = Ok m' /\ rep m' g' | Crash => x = Crash | _ => False end.

Lemma simulates_put x k v : simulates m (m ← x; Ok (ANothing, m)) (spec_set k v g) -> updates x (put k v g).
Proof. intros (m' & E & R' & _). destruct x; try done. injection E as ->. by exists m'. Qed.

Lemma simulates_join x k v : simulates m (m ← x; Ok (ANothing, m)) (spec_add k v g) -> updates x (join k v g).
Proof.
  unfold spec_add, join. destruct (g !! k) as [old|].
  - unfold makeString. destruct (_ <=? _); cbn [mbind res_bind simulates updates].
    + intros (m' & E & R' & _). destruct x; try done. injection E as ->. by exists m'.
    + by destruct x.
  - intros (m' & E & R' & _). destruct x; try done. injection E as ->. by exists m'.
Qed.

Lemma updates_set h v : updates (set_header m h v) (put (header_key h) v g).
Proof. apply simulates_put, set_header_spec; done. Qed.
Lemma updates_add h v : updates (add_header m h v) (join (header_key h) v g).
Proof. apply simulates_join, add_header_spec; done. Qed.
Lemma updates_set_name name v : valid_name name -> updates (set m name v) (put (name_key name) v g).
Proof. intros. apply simulates_put, header_set_spec; done. Qed.
Lemma updates_add_name name v : valid_name name -> updates (add m name v) (join (name_key name) v g).
Proof. intros. apply simulates_join, header_add_spec; done. Qed.
End headers.

Lemma join_put k v g g' : join k v g = Ok g' -> exists w, g' = <[k := w]> g.
Proof. unfold join. destruct (g !! k) as [old|]; [destruct (makeString old v); try done|]; intros [= <-]; eauto. Qed.

(** ** What a new header does to the parsed values *)

Lemma value_of_other h k v g : k <> header_key h -> value_of h (<[k := v]> g) = value_of h g.
Proof. intros. unfold value_of. by rewrite lookup_insert_ne. Qed.

Lemma spec_other k v g :
  (k <> header_key H_ContentRange -> spec_range (<[k := v]> g) = spec_range g) /\
  (k <> header_key H_CacheControl -> k <> header_key H_Pragma -> spec_directives (<[k := v]> g) = spec_directives g) /\
  (forall h, k <> header_key h -> spec_date h (<[k := v]> g) = spec_date h g).
Proof.
  unfold spec_range, spec_directives, spec_date.
  split_and!; intros; by rewrite ?value_of_other.
Qed.

Lemma coherent_other r g k v : (forall h, k <> header_key h) -> coherent r g -> coherent r (<[k := v]> g).
Proof.
  intros N [C1 C2 C3 C4 C5]. destruct (spec_other k v g) as (S1 & S2 & S3).
  split; rewrite ?S1, ?S2, ?S3; auto.
Qed.

Lemma update_state h r :
  (have (m_date (updateHeaderParsedState h r)) = true -> h <> H_Date /\ m_date (updateHeaderParsedState h r) = m_date r) /\
  (have (m_expires (updateHeaderParsedState h r)) = true -> h <> H_Expires /\ m_expires (updateHeaderParsedState h r) = m_expires r) /\
  (have (m_lastModified (updateHeaderParsedState h r)) = true -> h <> H_LastModified /\ m_lastModified (updateHeaderParsedState h r) = m_lastModified r) /\
  (have (m_contentRange (updateHeaderParsedState h r)) = true -> h <> H_ContentRange /\ m_contentRange (updateHeaderParsedState h r) = m_contentRange r) /\
  (have (m_cacheControlDirectives (updateHeaderParsedState h r)) = true -> h <> H_CacheControl /\ h <> H_Pragma /\
     m_cacheControlDirectives (updateHeaderParsedState h r) = m_cacheControlDirectives r) /\
  m_httpHeaderFields (updateHeaderParsedState h r) = m_httpHeaderFields r.
Proof. destruct h; cbn; split_and!; (done || by intros; split_and!). Qed.

Lemma coherent_update r g h v : coherent r g -> coherent (updateHeaderParsedState h r) (<[header_key h := v]> g).
Proof.
  intros [C1 C2 C3 C4 C5]. destruct (update_state h r) as (U1 & U2 & U3 & U4 & U5 & _).
  destruct (spec_other (header_key h) v g) as (S1 & S2 & S3).
  assert (N : forall h', h <> h' -> header_key h <> header_key h') by (intros h' Hn ?%header_key_inj; done).
  split; intros E.
  - destruct (U1 E) as [Hn Eq]. rewrite Eq in E |- *. rewrite S3 by auto. by apply C1.
  - destruct (U2 E) as [Hn Eq]. rewrite Eq in E |- *. rewrite S3 by auto. by apply C2.
  - destruct (U3 E) as [Hn Eq]. rewrite Eq in E |- *. rewrite S3 by auto. by apply C3.
  - destruct (U4 E) as [Hn Eq]. rewrite Eq in E |- *. rewrite S1 by auto. by apply C4.
  - destruct (U5 E) as (Hn & Hn' & Eq). rewrite Eq in E |- *. rewrite S2 by auto. by apply C5.
Qed.

Lemma coherent_with_headers r g m' : coherent r g -> coherent (with_headers m' r) g.
Proof. by intros [C1 C2 C3 C4 C5]. Qed.

(** ** One operation *)

Section step.
Context (r : ResourceResponse) (g : gmap String String) (R : represents r g) (S : entries (m_httpHeaderFields r) < 2 ^ 31).

Lemma header_value h : get_common (m_httpHeaderFields r) h = Ok (value_of h g).
Proof. destruct R as [Rm _]. by apply get_common_spec. Qed.

Lemma directives_fresh : parseCacheControlDirectives (m_httpHeaderFields r) = spec_directives g.
Proof. unfold parseCacheControlDirectives, spec_directives, directives_of_values. by rewrite !header_value. Qed.

(** A question about the directives: the kept ones are the ones of the headers. *)
Lemma directives_sim {A} (f : CacheControlDirectives -> A) :
  sim ('(r, d) ← directives r; Ok (r, f d)) (d ← spec_directives g; Ok (g, f d)).
Proof.
  destruct R as [Rm C]. unfold directives. rewrite directives_fresh. destruct (have (m_cacheControlDirectives r)) eqn:E.
  - rewrite (co_directives r g C E). cbn [mbind res_bind sim]. by exists r.
  - destruct (spec_directives g) as [d| | |] eqn:Ed; cbn [mbind res_bind sim]; try done. eexists. split; [done|]. split; [done|].
    destruct C as [C1 C2 C3 C4 C5]. split; try done. intros _. done.
Qed.

Lemma date_fresh h : parseDateValueInHeader (m_httpHeaderFields r) h = Ok (spec_date h g).
Proof. unfold parseDateValueInHeader, spec_date. rewrite header_value. cbn [mbind res_bind]. by destruct (isEmpty _). Qed.

Lemma date_sim : sim (date r) (Ok (g, Time.as_optional (Time.markable (spec_date H_Date g)))).
Proof.
  destruct R as [Rm C]. unfold date. rewrite date_fresh. destruct (have (m_date r)) eqn:E; cbn [mbind res_bind sim].
  - exists r. pose proof (co_date r g C E) as [= ->]. done.
  - eexists. split; [done|]. split; [done|]. by destruct C.
Qed.

Lemma expires_sim : sim (expires r) (Ok (g, Time.as_optional (Time.markable (spec_date H_Expires g)))).
Proof.
  destruct R as [Rm C]. unfold expires. rewrite date_fresh. destruct (have (m_expires r)) eqn:E; cbn [mbind res_bind sim].
  - exists r. pose proof (co_expires r g C E) as [= ->]. done.
  - eexists. split; [done|]. split; [done|]. by destruct C.
Qed.

Lemma lastModified_sim : sim (lastModified r) (Ok (g, Time.as_optional (Time.markable (spec_date H_LastModified g)))).
Proof.
  destruct R as [Rm C]. unfold lastModified. rewrite date_fresh. destruct (have (m_lastModified r)) eqn:E; cbn [mbind res_bind sim].
  - exists r. pose proof (co_lastModified r g C E) as [= ->]. done.
  - eexists. split; [done|]. split; [done|]. by destruct C.
Qed.

Lemma contentRange_sim : sim (contentRange r) (c ← spec_range g; Ok (g, c)).
Proof.
  destruct R as [Rm C]. unfold contentRange.
  assert (E' : parseContentRangeInHeader (m_httpHeaderFields r) = spec_range g)
    by (unfold parseContentRangeInHeader, spec_range; by rewrite header_value).
  rewrite E'. destruct (have (m_contentRange r)) eqn:E.
  - rewrite (co_range r g C E). cbn [mbind res_bind sim]. by exists r.
  - destruct (spec_range g) as [c| | |] eqn:Ec; cbn [mbind res_bind sim]; try done. eexists. split; [done|]. split; [done|].
    destruct C as [C1 C2 C3 C4 C5]. split; try done. by intros _.
Qed.

Lemma update_sim (x : res HTTPHeaderMap) (y : res (gmap String String)) (r1 : ResourceResponse) :
  updates x y -> (forall g', y = Ok g' -> coherent r1 g') ->
  sim (r ← (m ← x; Ok (with_headers m r1)); Ok (r, RNothing)) (g ← y; Ok (g, RNothing)).
Proof.
  intros U C. destruct y as [g'| | |]; cbn [mbind res_bind sim updates] in *; [|by rewrite U|done..].
  destruct U as (m' & -> & R'). eexists. split; [done|]. split; [done|]. by apply coherent_with_headers, C.
Qed.

Lemma set_sim h v : sim (r ← setHTTPHeaderField h v r; Ok (r, RNothing)) (headers_op (RSet h v) g).
Proof.
  destruct R as [Rm C]. unfold setHTTPHeaderField. destruct (update_state h r) as (_ & _ & _ & _ & _ & ->).
  apply update_sim; [by apply updates_set|]. intros g' [= <-]. by apply coherent_update.
Qed.

Lemma add_sim h v : sim (r ← addHTTPHeaderField h v r; Ok (r, RNothing)) (headers_op (RAdd h v) g).
Proof.
  destruct R as [Rm C]. unfold addHTTPHeaderField. destruct (update_state h r) as (_ & _ & _ & _ & _ & ->).
  apply update_sim; [by apply updates_add|]. intros g' [w ->]%join_put. by apply coherent_update.
Qed.

Lemma set_name_sim name v : valid_name name -> sim (r ← setHTTPHeaderField_name name v r; Ok (r, RNothing)) (headers_op (RSetName name v) g).
Proof.
  intros Hv. destruct R as [Rm C]. unfold setHTTPHeaderField_name, headers_op.
  destruct (name_cases name Hv) as [(h & -> & Ek)|[-> Hk]]; cbn [mbind res_bind].
  - destruct (update_state h r) as (_ & _ & _ & _ & _ & ->).
    apply update_sim; [by apply updates_set_name|]. intros g' [= <-]. rewrite Ek. by apply coherent_update.
  - apply update_sim; [by apply updates_set_name|]. intros g' [= <-]. by apply coherent_other.
Qed.

Lemma add_name_sim name v : valid_name name -> sim (r ← addHTTPHeaderField_name name v r; Ok (r, RNothing)) (headers_op (RAddName name v) g).
Proof.
  intros Hv. destruct R as [Rm C]. unfold addHTTPHeaderField_name, headers_op.
  destruct (name_cases name Hv) as [(h & -> & Ek)|[-> Hk]]; cbn [mbind res_bind].
  - rewrite Ek. apply add_sim.
  - apply update_sim; [by apply updates_add_name|]. intros g' [w ->]%join_put. by apply coherent_other.
Qed.

Lemma sim_answer {A} (f : A -> RAnswer) (x : res (ResourceResponse * A)) (y : res (gmap String String * A)) (z : res (gmap String String * RAnswer)) :
  z = ('(g, a) ← y; Ok (g, f a)) -> sim x y -> sim ('(r, a) ← x; Ok (r, f a)) z.
Proof.
  intros ->. destruct y as [[g' a]| | |]; cbn [mbind res_bind sim]; [|by intros ->..].
  intros (r' & -> & R'). by exists r'.
Qed.

Lemma response_step o : valid_rop o -> sim (response_op o r) (headers_op o g).
Proof.
  intros Hv. destruct o; cbn [response_op headers_op valid_rop] in *;
    try (eapply (sim_answer RFlag); [|apply directives_sim]; by destruct (spec_directives g));
    try (eapply (sim_answer RTime); [|apply directives_sim]; by destruct (spec_directives g)).
  - by eapply (sim_answer RTime); [|apply date_sim].
  - by eapply (sim_answer RTime); [|apply expires_sim].
  - by eapply (sim_answer RTime); [|apply lastModified_sim].
  - eapply (sim_answer RRange); [|apply contentRange_sim]. by destruct (spec_range g).
  - unfold httpHeaderField. rewrite !header_value. cbn [mbind res_bind]. exists r. split; [|done]. by destruct (negb _).
  - by apply set_name_sim, Hv.
  - apply set_sim.
  - by apply add_name_sim, Hv.
  - apply add_sim.
  - eexists. split; [done|]. destruct R as [Rm [C1 C2 C3 C4 C5]]. by repeat split.
  - eexists. split; [done|]. destruct R as [Rm [C1 C2 C3 C4 C5]]. by repeat split.
  - eexists. split; [done|]. destruct R as [Rm [C1 C2 C3 C4 C5]]. by repeat split.
Qed.
End step.

Lemma put_size (k v : String) g : (base.size (<[k := v]> g) <= S (base.size g))%nat.
Proof. destruct (g !! k) eqn:E; [rewrite map_size_insert_Some by eauto; lia|rewrite map_size_insert_None by done; lia]. Qed.

Lemma headers_size o g g' a : headers_op o g = Ok (g', a) -> (base.size g' <= S (base.size g))%nat.
Proof.
  assert (D : forall A (x : res A) (f : A -> RAnswer), (d ← x; Ok (g, f d)) = Ok (g', a) -> (base.size g' <= S (base.size g))%nat).
  { intros A [d| | |] f; try done. cbn. intros [= <- _]. lia. }
  destruct o; cbn [headers_op]; try apply D; try (intros [= <- _]; lia || apply put_size);
    match goal with |- context [join ?k ?v g] => destruct (join k v g) as [g1| | |] eqn:E; try done end;
    apply join_put in E as [w ->]; cbn; intros [= <- _]; apply put_size.
Qed.

Lemma response_run l r g :
  represents r g -> Forall valid_rop l -> Z.of_nat (base.size g) + zlen l < 2 ^ 31 ->
  sim (run response_op l r) (run headers_op l g).
Proof.
  revert r g; induction l as [|o l IH]; intros r g R Hv Hn; cbn [run]; [by exists r|].
  apply Forall_cons in Hv as [Ho Hv]. rewrite zlen_cons in Hn. pose proof (zlen_nonneg l).
  pose proof (response_step r g R) as St. rewrite (rep_entries _ g (proj1 R)) in St. specialize (St ltac:(lia) o Ho).
  destruct (headers_op o g) as [[g1 a]| | |] eqn:E; cbn [sim mbind res_bind] in *; [|by rewrite St..].
  destruct St as (r1 & -> & R1). cbn [mbind res_bind]. apply headers_size in E.
  specialize (IH r1 g1 R1 Hv ltac:(lia)). destruct (run headers_op l g1) as [[g2 rest]| | |]; cbn [sim mbind res_bind] in *; [|by rewrite IH..].
  destruct IH as (r2 & -> & R2). by exists r2.
Qed.

Lemma new_represents : represents ResourceResponse_new ∅.
Proof.
  split; [|by split].
  exists ∅, ∅. split; [by rewrite map_empty_union|]. split; unfold holds; cbn; rewrite ?map_to_list_empty; try done.
  intros k [? Hk]. by rewrite lookup_empty in Hk.
Qed.

(** *** The specification always answers *)

Definition all_fit g : Prop := forall k v, g !! k = Some v -> fits (chars v).

Lemma all_fit_empty : all_fit ∅.
Proof. intros k v E. by rewrite lookup_empty in E. Qed.

Lemma all_fit_value g h : all_fit g -> fits (chars (value_of h g)).
Proof. intros F. unfold value_of. destruct (g !! header_key h) as [v|] eqn:E; [by apply (F _ _ E)|by vm_compute]. Qed.

Lemma all_fit_put g (k v : String) : all_fit g -> fits (chars v) -> all_fit (<[k := v]> g).
Proof. intros F Fv k' v'. destruct (decide (k = k')) as [->|]; [rewrite lookup_insert_eq; by intros [= <-]|rewrite lookup_insert_ne by done; apply F]. Qed.

Definition answered (x : res (gmap String String * RAnswer)) : Prop :=
  match x with Ok (g, _) => all_fit g | Crash => True | _ => False end.

Lemma join_answered g (k v : String) : all_fit g -> fits (chars v) -> answered (g ← join k v g; Ok (g, RNothing)).
Proof.
  intros F Fv. unfold join. destruct (g !! k) as [old|]; [|by apply all_fit_put].
  unfold makeString. cbv zeta. destruct (Z.leb_spec (zlen (chars old ++ lit ", " ++ chars v)) MaxLength) as [L|L]; cbn [mbind res_bind answered]; [|done].
  by apply all_fit_put.
Qed.

Lemma headers_op_answered o g : all_fit g -> valid_rop o -> answered (headers_op o g).
Proof.
  intros F Hv. destruct (directives_of_values_spec (value_of H_CacheControl g) (value_of H_Pragma g)) as (ds & b & _ & _ & D); [by apply all_fit_value..|].
  destruct o; cbn [headers_op valid_rop] in *; unfold spec_directives; rewrite ?D; cbn [mbind res_bind answered put]; try done;
    try (apply all_fit_put; [done|tauto]); try (apply join_answered; [done|tauto]).
  unfold spec_range. destruct (isEmpty (value_of H_ContentRange g)) eqn:E; [done|].
  pose proof (all_fit_value g H_ContentRange F) as Fr. destruct (value_of H_ContentRange g) as [l|]; [|done].
  destruct (content_range_parses l Fr) as (c & -> & _). done.
Qed.

Lemma headers_run_answered l g : all_fit g -> Forall valid_rop l -> match run headers_op l g with Ok _ | Crash => True | _ => False end.
Proof.
  revert g; induction l as [|o l IH]; intros g F Hv; cbn [run]; [done|]. apply Forall_cons in Hv as [Ho Hv].
  pose proof (headers_op_answered o g F Ho) as A. destruct (headers_op o g) as [[g1 a]| | |]; cbn [answered mbind res_bind] in *; try done.
  specialize (IH g1 A Hv). by destruct (run headers_op l g1) as [[g2 rest]| | |].
Qed.

(** *** The age *)

(** A call on a response: one of those above, or the question for the age. *)
Inductive RCall := RHeaders (o : ROp) | RAge.

Definition response_call (c : RCall) (r : ResourceResponse) : res (ResourceResponse * RAnswer) :=
  match c with RHeaders o => response_op o r | RAge => '(r, t) ← age r; Ok (r, RTime t) end.

(** The headers, and the age that was answered last: it is the answer when the header has no number. *)
Definition age_in g (last : Time.double) : Time.double := default last (toDouble (value_of H_Age g)).
Definition spec_call (c : RCall) (s : gmap String String * Time.double) : res (gmap String String * Time.double * RAnswer) :=
  match c with
  | RHeaders o => '(g, a) ← headers_op o s.1; Ok (g, s.2, a)
  | RAge => Ok (s.1, age_in s.1 s.2, RTime (Time.as_optional (age_in s.1 s.2)))
  end.

Definition valid_call (c : RCall) : Prop := match c with RHeaders o => valid_rop o | RAge => True end.

Fixpoint calls {S} (step : RCall -> S -> res (S * RAnswer)) (l : list RCall) (s : S) : res (S * list RAnswer) :=
  match l with
  | [] => Ok (s, [])
  | c :: l => '(s, a) ← step c s; '(s, rest) ← calls step l s; Ok (s, a :: rest)
  end.

(** The age that is kept is the last one, and where it counts as parsed it is what the header says. *)
Definition age_known r g (last : Time.double) : Prop :=
  parsed (m_age r) = last /\ (have (m_age r) = true -> age_in g last = last).

Lemma age_spec r g last : rep (m_httpHeaderFields r) g -> entries (m_httpHeaderFields r) < 2 ^ 31 -> age_known r g last ->
  exists r', age r = Ok (r', Time.as_optional (age_in g last)) /\ age_known r' g (age_in g last) /\
    m_httpHeaderFields r' = m_httpHeaderFields r /\ (coherent r g -> coherent r' g).
Proof.
  intros R S [A1 A2]. unfold age. destruct (have (m_age r)) eqn:E.
  - specialize (A2 eq_refl). exists r. rewrite A2, A1. split_and!; try done.
  - rewrite (get_common_spec _ g R S). cbn [mbind res_bind]. eexists. split.
    { f_equal. f_equal. f_equal. rewrite A1. unfold age_in, value_of. by destruct (toDouble _). }
    unfold age_in, age_known, value_of. rewrite A1. cbn [m_age with_parsed parsed]. split_and!; [by destruct (toDouble _)| |done|].
    + intros _. unfold age_in, value_of. by destruct (toDouble _).
    + intros [C1 C2 C3 C4 C5]. by split.
Qed.

Lemma age_update r g h v last : age_known r g last -> age_known (updateHeaderParsedState h r) (<[header_key h := v]> g) last.
Proof.
  intros [A1 A2]. destruct (decide (h = H_Age)) as [->|N]; [by split|].
  assert (m_age (updateHeaderParsedState h r) = m_age r) as E by (by destruct h).
  unfold age_known, age_in. rewrite E, value_of_other by (intros ?%header_key_inj; done). done.
Qed.

Lemma age_other r g k v last : (forall h, k <> header_key h) -> age_known r g last -> age_known r (<[k := v]> g) last.
Proof. intros N [A1 A2]. unfold age_known, age_in. by rewrite value_of_other. Qed.

Lemma age_set_name r r' g name v last : valid_name name -> setHTTPHeaderField_name name v r = Ok r' ->
  age_known r g last -> age_known r' (<[name_key name := v]> g) last.
Proof.
  intros Hv. unfold setHTTPHeaderField_name. destruct (name_cases name Hv) as [(h & -> & Ek)|[-> Hk]]; cbn [mbind res_bind];
    intros (m & _ & [= <-])%res_bind_Ok A.
  - rewrite Ek. by apply age_update.
  - by apply age_other.
Qed.

Lemma age_step o r g r' g' a last : valid_rop o -> response_op o r = Ok (r', a) -> headers_op o g = Ok (g', a) ->
  age_known r g last -> age_known r' g' last.
Proof.
  assert (Q : forall A (x : res A) (f : A -> RAnswer), (d ← x; Ok (g, f d)) = Ok (g', a) -> g' = g) by (intros A [d| | |] f; cbn [mbind res_bind]; congruence).
  assert (D : forall A (f : CacheControlDirectives -> A) (k : A -> RAnswer),
    ('(r, b) ← ('(r, d) ← directives r; Ok (r, f d)); Ok (r, k b)) = Ok (r', a) -> m_age r' = m_age r).
  { intros A f k. unfold directives. destruct (have (m_cacheControlDirectives r)); cbn [mbind res_bind]; [by intros [= <- _]|].
    destruct (parseCacheControlDirectives _); try done. by intros [= <- _]. }
  intros Hv Er Eg A. destruct o; cbn [response_op headers_op valid_rop] in *;
    try (apply Q in Eg as ->; apply D in Er; unfold age_known; by rewrite Er).
  - injection Eg as <- _. unfold date in Er. destruct (have (m_date r)); [by injection Er as <- _|]. destruct (parseDateValueInHeader _ _); try done. by injection Er as <- _.
  - injection Eg as <- _. unfold expires in Er. destruct (have (m_expires r)); [by injection Er as <- _|]. destruct (parseDateValueInHeader _ _); try done. by injection Er as <- _.
  - injection Eg as <- _. unfold lastModified in Er. destruct (have (m_lastModified r)); [by injection Er as <- _|]. destruct (parseDateValueInHeader _ _); try done. by injection Er as <- _.
  - apply Q in Eg as ->. unfold contentRange in Er. destruct (have (m_contentRange r)); [by injection Er as <- _|]. destruct (parseContentRangeInHeader _); try done. by injection Er as <- _.
  - injection Eg as <- _. destruct (httpHeaderField h r); try done. by injection Er as <- _.
  - injection Eg as <- _. apply res_bind_Ok in Er as (r1 & E & [= <- _]). exact (age_set_name _ _ _ _ _ _ (proj1 Hv) E A).
  - injection Eg as <- _. apply res_bind_Ok in Er as (r1 & E & [= <- _]). unfold setHTTPHeaderField in E. apply res_bind_Ok in E as (m & _ & [= <-]). by apply age_update.
  - apply res_bind_Ok in Er as (r1 & E & [= <- _]). apply res_bind_Ok in Eg as (g1 & (w & ->)%join_put & [= <-]). unfold addHTTPHeaderField_name in E.
    destruct (name_cases name (proj1 Hv)) as [(h & E' & Ek)|[E' Hk]]; rewrite E' in E; cbn [mbind res_bind] in E.
    + unfold addHTTPHeaderField in E. apply res_bind_Ok in E as (m & _ & [= <-]). rewrite Ek. by apply age_update.
    + apply res_bind_Ok in E as (m & _ & [= <-]). by apply age_other.
  - apply res_bind_Ok in Er as (r1 & E & [= <- _]). apply res_bind_Ok in Eg as (g1 & (w & ->)%join_put & [= <-]).
    unfold addHTTPHeaderField in E. apply res_bind_Ok in E as (m & _ & [= <-]). by apply age_update.
  - injection Eg as <- _. by injection Er as <- _.
  - injection Eg as <- _. by injection Er as <- _.
  - injection Eg as <- _. by injection Er as <- _.
Qed.

Definition call_sim {A} (x : res (ResourceResponse * A)) (y : res (gmap String String * Time.double * A)) : Prop :=
  match y with
  | Ok (s, a) => exists r, x = Ok (r, a) /\ represents r s.1 /\ age_known r s.1 s.2
  | UB => x = UB | Crash => x = Crash | NoFuel => x = NoFuel
  end.

Lemma call_step c r g last : represents r g -> age_known r g last -> entries (m_httpHeaderFields r) < 2 ^ 31 -> valid_call c ->
  call_sim (response_call c r) (spec_call c (g, last)).
Proof.
  intros R A S Hv. destruct c as [o|]; cbn [response_call spec_call valid_call fst snd] in *.
  - pose proof (response_step r g R S o Hv) as St.
    destruct (headers_op o g) as [[g' a]| | |] eqn:Eg; cbn [mbind res_bind sim call_sim] in *; try done.
    destruct St as (r' & E & R'). exists r'. split_and!; [done|done|]. by eapply age_step.
  - destruct (age_spec r g last (proj1 R) S A) as (r' & -> & A' & Em & C). cbn [mbind res_bind call_sim]. exists r'.
    split_and!; [done| |done]. split; [|by apply C, R]. rewrite Em. apply R.
Qed.

Lemma spec_call_size c g last s a : spec_call c (g, last) = Ok (s, a) -> (base.size s.1 <= S (base.size g))%nat.
Proof.
  destruct c as [o|]; cbn [spec_call fst snd].
  - intros ([g' a'] & E & [= <- _])%res_bind_Ok. by apply headers_size in E.
  - intros [= <- _]. cbn. lia.
Qed.

Lemma calls_sim l r g last :
  represents r g -> age_known r g last -> Forall valid_call l -> Z.of_nat (base.size g) + zlen l < 2 ^ 31 ->
  call_sim (calls response_call l r) (calls spec_call l (g, last)).
Proof.
  revert r g last; induction l as [|c l IH]; intros r g last R A Hv Hn; cbn [calls]; [by exists r|].
  apply Forall_cons in Hv as [Hc Hv]. rewrite zlen_cons in Hn. pose proof (zlen_nonneg l).
  pose proof (call_step c r g last R A) as St. rewrite (rep_entries _ g (proj1 R)) in St. specialize (St ltac:(lia) Hc).
  destruct (spec_call c (g, last)) as [[[g1 last1] a]| | |] eqn:E; cbn [call_sim mbind res_bind] in *; [|by rewrite St..].
  destruct St as (r1 & -> & R1 & A1). cbn [mbind res_bind fst snd] in *. apply spec_call_size in E. cbn [fst] in E.
  specialize (IH r1 g1 last1 R1 A1 Hv ltac:(lia)). destruct (calls spec_call l (g1, last1)) as [[s2 rest]| | |]; cbn [call_sim mbind res_bind] in *; [|by rewrite IH..].
  destruct IH as (r2 & -> & R2). by exists r2.
Qed.

Lemma calls_answered l g last : all_fit g -> Forall valid_call l -> match calls spec_call l (g, last) with Ok _ | Crash => True | _ => False end.
Proof.
  revert g last; induction l as [|c l IH]; intros g last F Hv; cbn [calls]; [done|]. apply Forall_cons in Hv as [Hc Hv].
  destruct c as [o|]; cbn [spec_call fst snd valid_call] in *.
  - pose proof (headers_op_answered o g F Hc) as A. destruct (headers_op o g) as [[g1 a]| | |]; cbn [answered mbind res_bind] in *; try done.
    specialize (IH g1 last A Hv). by destruct (calls spec_call l (g1, last)) as [[g2 rest]| | |].
  - cbn [mbind res_bind]. specialize (IH g (age_in g last) F Hv). by destruct (calls spec_call l (g, age_in g last)) as [[g2 rest]| | |].
Qed.

(** C22: a response answers from its headers: for every sequence in which headers are set, added and read and
    directives, dates, ranges and the age are asked for, the answers are those of a finite map of headers that parses anew
    at every question, with one memory: where the Age header has no number, the age is the one that was answered last.
    So the values a response keeps are dropped whenever a header they come from changes, whatever
    the case of its name.  The sequence ends the process when joined values do not fit a string, and nothing else happens.
    Names are of 16-bit characters, values fit a string, and there are fewer than 2^31 calls. *)
Theorem response_answers_from_headers l :
  Forall valid_call l -> zlen l < 2 ^ 31 ->
  match calls spec_call l (∅, Time.nan) with
  | Ok (s, answers) => exists r, calls response_call l ResourceResponse_new = Ok (r, answers) /\ rep (m_httpHeaderFields r) s.1
  | Crash => calls response_call l ResourceResponse_new = Crash
  | _ => False
  end.
Proof.
  intros Hv Hn. assert (A0 : age_known ResourceResponse_new ∅ Time.nan) by (by split).
  pose proof (calls_sim l _ ∅ _ new_represents A0 Hv) as S. rewrite map_size_empty in S. specialize (S ltac:(lia)).
  pose proof (calls_answered l ∅ Time.nan all_fit_empty Hv) as A.
  destruct (calls spec_call l (∅, Time.nan)) as [[s answers]| | |]; cbn [call_sim] in S; try done.
  destruct S as (r & E & [R _] & _). eauto.
Qed.

(** A copy for another thread has the same headers and no parsed values, so it represents the same headers; only the source is
    forgotten, and a null response becomes a response. *)
Lemma cross_thread_copy r g : rep (m_httpHeaderFields r) g -> - 2 ^ 15 <= m_httpStatusCode r < 2 ^ 15 ->
  let copy := fromCrossThreadData (crossThreadData r) in
  represents copy g /\ crossThreadData copy = crossThreadData r /\ m_isNull copy = false /\ m_source copy = SourceUnknown.
Proof.
  intros R S. cbv zeta. split_and!; [split; [done|by split]| |done|done].
  unfold crossThreadData at 1. cbn -[swrap]. unfold swrap. change (2 ^ (16 - 1)) with 32768. change (2 ^ 16) with 65536.
  rewrite Z.mod_small by lia. unfold crossThreadData. f_equal. lia.
Qed.

(** *** Where old values stay behind *)

(** An Age header that is not a number does not reset the age. *)
Theorem age_survives_bad_header r a s :
  have (m_age r) = true -> parsed (m_age r) = a -> Time.is_set a = true ->
  rep (m_httpHeaderFields r) ∅ -> toDouble s = None ->
  exists r1 r2, setHTTPHeaderField H_Age s r = Ok r1 /\ age r1 = Ok (r2, Some a).
Proof.
  intros Hh Ha Hs R Hd. unfold setHTTPHeaderField.
  destruct (updates_set (m_httpHeaderFields r) ∅ R) with (h := H_Age) (v := s) as (m' & E & R').
  { by rewrite (rep_entries _ _ R), map_size_empty. }
  change (m_httpHeaderFields (updateHeaderParsedState H_Age r)) with (m_httpHeaderFields r). rewrite E. cbn [mbind res_bind].
  eexists _, _. split; [done|]. unfold age. cbn [m_age with_headers updateHeaderParsedState with_parsed forget have].
  cbn [m_httpHeaderFields with_headers].
  rewrite (get_common_spec m' _ R'); [|rewrite (rep_entries _ _ R'); rewrite map_size_insert_None by apply lookup_empty; by rewrite map_size_empty].
  rewrite lookup_insert_eq. cbn [default from_option id mbind res_bind]. rewrite Hd. cbn [parsed forget].
  unfold Time.as_optional. by rewrite Ha, Hs.
Qed.

(** Replacing all headers does not drop what was parsed from the old ones. *)
Theorem replaced_headers_keep_directives r m :
  have (m_cacheControlDirectives r) = true ->
  cacheControlContainsNoStore (setHTTPHeaderFields m r) = Ok (setHTTPHeaderFields m r, noStore (parsed (m_cacheControlDirectives r))).
Proof. intros E. unfold cacheControlContainsNoStore, directives. cbn. by rewrite E. Qed.
End coherence.

Definition plain_platform : Platform := {|
  URL := list Z; emptyURL := []; url_string := id; protocolIsInHTTPFamily l := bool_decide (take 4 l = lit "http");
  parseDateFromCharacters l := Time.of_int (decimal 0 (take_while isASCIIDigit l)); walk := id |}.

Definition sample_ops : list (@RCall plain_platform) :=
  [RHeaders (RSetName (Some (lit "cache-CONTROL")) (Some (lit "no-store"))); RHeaders RNoStore; RHeaders (RAdd H_CacheControl (Some (lit "max-age=5")));
   RHeaders RMaxAge; RHeaders (RSet H_CacheControl (Some (lit "x"))); RHeaders RNoStore; RAge;
   RHeaders (RSetName (Some (lit "AGE")) (Some (lit "7"))); RAge; RHeaders (RSet H_Age (Some (lit "x"))); RAge].
Definition sample_answers : list RAnswer :=
  [RNothing; RFlag true; RNothing; RTime (Some (Time.of_int 5)); RNothing; RFlag false; RTime None; RNothing; RTime (Some (Time.of_int 7)); RNothing; RTime (Some (Time.of_int 7))].

Lemma response_answers_witness :
  exists r g, calls (@response_call plain_platform digits_dtoa plain_icu) sample_ops ResourceResponse_new = Ok (r, sample_answers) /\ rep (m_httpHeaderFields r) g.
Proof.
  assert (Hv : Forall (@valid_call plain_platform) sample_ops)
    by (repeat (apply List.Forall_cons; [try exact I; try (split; [apply (bool_decide_unpack _); vm_compute; exact I|]); unfold fits; by vm_compute|]);
        apply List.Forall_nil).
  pose proof (@response_answers_from_headers plain_platform digits_dtoa plain_icu sample_ops Hv ltac:(done)) as W.
  assert (E : exists g, calls (@spec_call plain_platform digits_dtoa plain_icu) sample_ops (∅, Time.nan) = Ok (g, sample_answers)).
  { eexists. vm_compute. reflexivity. }
  destruct E as [g E]. rewrite E in W. destruct W as (r & Er & R). exact (ex_intro _ r (ex_intro _ g.1 (conj Er R))).
Defined.
End ResponseProps.
