(* ===== verification/HttpSanitizeProps.v ===== *)
(** * Which headers sanitizing keeps (network/ResourceResponseBase.cpp)

    A header map is the finite map of [HttpHeaderProps]; sanitizing is shown to be a filter of that map. *)
From Stdlib Require Ascii String.
Import String.StringSyntax.
From stdpp Require Import gmap fin_maps.
From S2P Require Import Prelude WtfString HttpNames HttpHeaders HttpHeaderProps HttpHeaderCoders HttpParsers HttpRange HttpCache HttpCacheProps HttpResponse HttpResponseProps.

Local Open Scope cf.

Module SanitizeProps.
Import Str Names Headers HeaderProps Parsers Range Cache Response ResponseProps.

(** ** Parts of a vector *)

Lemma holds_nodup {K} (keyof : K -> String) (l : list (K * String)) (g : gmap String String) : holds keyof l g -> NoDup ((fun x => keyof x.1) <$> l).
Proof.
  unfold holds. intros Hh. pose proof (NoDup_fst_map_to_list g) as N. rewrite <- Hh in N. by rewrite <- list_fmap_compose in N.
Qed.

Lemma holds_filter {K} (keyof : K -> String) (keep : K -> bool) (P : String -> bool) (l : list (K * String)) (g : gmap String String) :
  holds keyof l g -> (forall x, P (keyof x) = keep x) ->
  holds keyof (List.filter (fun x => keep x.1) l) (filter (fun kv => P kv.1 = true) g).
Proof.
  intros Hh Hp. pose proof (holds_nodup _ _ _ Hh) as N. unfold holds in *. apply NoDup_Permutation.
  - apply (NoDup_fmap_1 fst). rewrite <- list_fmap_compose. eapply sublist_NoDup; [exact N|].
    clear. induction l as [|x l IH]; cbn; [done|]. destruct (keep x.1); cbn; [by apply sublist_skip|by apply sublist_cons].
  - apply NoDup_map_to_list.
  - intros [k v]. rewrite elem_of_map_to_list, map_lookup_filter_Some, <- elem_of_map_to_list, <- Hh. cbn [fst].
    rewrite !list_elem_of_fmap. setoid_rewrite list_elem_of_In. setoid_rewrite filter_In. setoid_rewrite <- list_elem_of_In. split.
    + intros (x & [= -> ->] & Hx & Hk). split; [by exists x|]. by rewrite Hp.
    + intros [(x & [= -> ->] & Hx) Hk]. exists x. rewrite Hp in Hk. done.
Qed.

(** The headers of a set, as keys. *)
Definition key_in (safe : HTTPHeaderName -> bool) (k : String) : bool := existsb (fun h => bool_decide (k = header_key h) && safe h) all_names.

Lemma all_names_all h : In h all_names.
Proof. destruct h; cbn; tauto. Qed.

Lemma key_in_header safe h : key_in safe (header_key h) = safe h.
Proof.
  unfold key_in. destruct (safe h) eqn:S.
  - apply existsb_exists. exists h. split; [apply all_names_all|]. by rewrite bool_decide_eq_true_2.
  - apply not_true_iff_false. rewrite existsb_exists. intros (h' & _ & E). apply andb_true_iff in E as [->%bool_decide_eq_true_1%header_key_inj ?]. congruence.
Qed.

Lemma key_in_other safe k : (forall h, k <> header_key h) -> key_in safe k = false.
Proof. intros N. apply not_true_iff_false. unfold key_in. rewrite existsb_exists. intros (h & _ & [E%bool_decide_eq_true_1 _]%andb_true_iff). by destruct (N h). Qed.

(** Adding the safe ones to headers that have none of them. *)
Lemma add_safe_spec safe l acc u :
  NoDup (l.*1) -> (forall h, h ∈ l.*1 -> h ∉ acc.*1) ->
  add_safe safe l {| m_commonHeaders := acc; m_uncommonHeaders := u |} =
  Ok {| m_commonHeaders := acc ++ List.filter (fun x => safe x.1) l; m_uncommonHeaders := u |}.
Proof.
  revert acc; induction l as [|[h v] l IH]; intros acc N D; cbn [add_safe List.filter fst snd]; [by rewrite app_nil_r|].
  apply NoDup_cons in N as [Nh N]. destruct (safe h).
  - assert (E : add_header {| m_commonHeaders := acc; m_uncommonHeaders := u |} h v = Ok {| m_commonHeaders := acc ++ [(h, v)]; m_uncommonHeaders := u |}).
    { unfold add_header, vec_add. cbn [m_commonHeaders].
      destruct (header_findMatching_spec header_key (same_header h) (header_key h) (same_header_spec h) acc 0) as [(pre & x & post & -> & Ek & _)|[_ ->]].
      - exfalso. apply (D h); [set_solver|]. apply header_key_inj in Ek. rewrite fmap_app, fmap_cons, Ek. set_solver.
      - done. }
    rewrite E. cbn [mbind res_bind]. rewrite IH; [by rewrite <- app_assoc|done|]. intros h' Hh'. rewrite fmap_app. cbn.
    intros [?| ->%list_elem_of_singleton]%elem_of_app; [|done]. by apply (D h'); [set_solver|].
  - cbn [mbind res_bind]. apply IH; [done|]. intros h' Hh'. apply D. set_solver.
Qed.

Lemma common_nodup m gc gu : parts m gc gu -> NoDup ((m_commonHeaders m).*1).
Proof.
  intros P. pose proof (holds_nodup _ _ _ (common_part _ _ _ P)) as N. apply (NoDup_fmap_1 header_key). by rewrite <- list_fmap_compose.
Qed.

(** Only the safe headers of the table. *)
Definition only (safe : HTTPHeaderName -> bool) (m : HTTPHeaderMap) (u : list (String * String)) : HTTPHeaderMap :=
  {| m_commonHeaders := List.filter (fun x => safe x.1) (m_commonHeaders m); m_uncommonHeaders := u |}.

Lemma add_safe_rep safe m g : rep m g ->
  (forall u, add_safe safe (m_commonHeaders m) {| m_commonHeaders := []; m_uncommonHeaders := u |} = Ok (only safe m u)) /\
  rep (only safe m []) (filter (fun kv => key_in safe kv.1 = true) g).
Proof.
  intros (gc & gu & -> & P). split; [intros u; apply add_safe_spec; [by eapply common_nodup|set_solver]|].
  exists (filter (fun kv => key_in safe kv.1 = true) gc), ∅. split.
  - apply map_eq. intros k. rewrite map_union_empty. apply option_eq. intros v. rewrite !map_lookup_filter_Some. cbn [fst].
    destruct (gc !! k) as [w|] eqn:E; [by rewrite (lookup_union_Some_l _ _ _ w)|]. rewrite lookup_union_r by done. split; [|naive_solver].
    intros [Hu Hk]. exfalso. unfold key_in in Hk. apply existsb_exists in Hk as (h & _ & [->%bool_decide_eq_true_1 _]%andb_true_iff).
    by rewrite (uncommon_names _ _ _ P) in Hu.
  - split; cbn [only m_commonHeaders m_uncommonHeaders].
    + apply holds_filter; [apply P|]. apply key_in_header.
    + unfold holds. by rewrite map_to_list_empty.
    + intros k [v Hv]. apply map_lookup_filter_Some in Hv as [Hv _]. apply (common_names _ _ _ P). by eexists.
    + intros h. apply lookup_empty.
Qed.

(** ** Headers that are exposed by name *)

Definition exposes (names : list StringImpl) (k v : String) : Prop := k ∈ (fun n => name_key (Some n)) <$> names /\ v <> None.
#[global] Instance exposes_dec names k v : Decision (exposes names k v).
Proof. apply and_dec; apply _. Defined.

Lemma exposed_step (gf gm : gmap String String) n names :
  let k := name_key (Some n) in
  (is_Some (gf !! k) \/ default None (gm !! k) = None ->
   gf ∪ filter (fun kv => exposes (n :: names) kv.1 kv.2) gm = gf ∪ filter (fun kv => exposes names kv.1 kv.2) gm) /\
  (forall v, gf !! k = None -> gm !! k = Some (Some v) ->
   gf ∪ filter (fun kv => exposes (n :: names) kv.1 kv.2) gm = <[k := Some v]> gf ∪ filter (fun kv => exposes names kv.1 kv.2) gm).
Proof.
  intros k. assert (F : forall j v l, gm !! j = Some v -> filter (fun kv => exposes l kv.1 kv.2) gm !! j = if decide (exposes l j v) then Some v else None).
  { intros j v l E. destruct (decide (exposes l j v)); [by apply map_lookup_filter_Some|]. apply map_lookup_filter_None. right.
    intros v' E'. by simplify_eq. }
  assert (F0 : forall j l, gm !! j = None -> filter (fun kv => exposes l kv.1 kv.2) gm !! j = None) by (intros j l E; by rewrite map_lookup_filter, E).
  assert (X : forall j v, j <> k -> exposes (n :: names) j v <-> exposes names j v).
  { intros j v Hj. unfold exposes. rewrite fmap_cons, elem_of_cons. fold k. naive_solver. }
  split.
  - intros Hk. apply map_eq. intros j. destruct (gf !! j) as [w|] eqn:Ej; [by rewrite !(lookup_union_Some_l _ _ _ w)|].
    rewrite !lookup_union_r by done. destruct (gm !! j) as [v|] eqn:Em; [|by rewrite !F0]. rewrite !(F _ _ _ Em).
    destruct (decide (j = k)) as [->|Hj]; [|by apply decide_ext, X].
    destruct Hk as [[? ?]|Hk]; [congruence|]. rewrite Em in Hk. cbn in Hk. subst v. by rewrite !decide_False by (by intros [_ ?]).
  - intros v Ek Em. apply map_eq. intros j. destruct (decide (j = k)) as [->|Hj].
    + rewrite (lookup_union_Some_l (<[k := Some v]> gf) _ k (Some v)) by apply lookup_insert_eq. rewrite lookup_union_r, (F _ _ _ Em) by done.
      rewrite decide_True; [done|]. split; [|done]. rewrite fmap_cons. set_solver.
    + destruct (gf !! j) as [w|] eqn:Ej; [rewrite (lookup_union_Some_l gf _ j w), (lookup_union_Some_l (<[k := Some v]> gf) _ j w); [done|by rewrite lookup_insert_ne|done]|].
      rewrite !lookup_union_r by (rewrite ?lookup_insert_ne; done).
      destruct (gm !! j) as [u|] eqn:Eu; [|by rewrite !F0]. rewrite !(F _ _ _ Eu). by apply decide_ext, X.
Qed.

Lemma add_exposed_spec names m gm f gf :
  rep m gm -> entries m < 2 ^ 31 -> rep f gf -> Z.of_nat (base.size gf) + zlen names < 2 ^ 31 -> Forall (fun n => valid_name (Some n)) names ->
  exists f', add_exposed names m f = Ok f' /\ rep f' (gf ∪ filter (fun kv => exposes names kv.1 kv.2) gm).
Proof.
  intros Rm Sm. revert f gf; induction names as [|n names IH]; intros f gf Rf Sf V; cbn [add_exposed].
  { exists f. split; [done|]. assert (filter (fun kv => exposes [] kv.1 kv.2) gm = ∅) as ->; [|by rewrite map_union_empty].
    apply map_empty. intros k. apply map_lookup_filter_None. right. intros v _ [Hk _]. by apply elem_of_nil in Hk. }
  apply Forall_cons in V as [Vn V]. rewrite zlen_cons in Sf. pose proof (zlen_nonneg names).
  assert (Se : entries f < 2 ^ 31) by (rewrite (rep_entries f gf Rf); lia).
  rewrite (header_contains_spec f gf Rf Se) by done. cbn [mbind res_bind]. destruct (exposed_step gf gm n names) as [E1 E2].
  case_bool_decide as C; cbn [mbind res_bind].
  { rewrite E1 by by left. apply IH; [done|lia|done]. }
  assert (C0 : gf !! name_key (Some n) = None) by (destruct (gf !! name_key (Some n)); [destruct C; eauto|done]).
  rewrite (header_get_spec m gm Rm Sm) by done. cbn [mbind res_bind].
  destruct (gm !! name_key (Some n)) as [[v|]|] eqn:Ev; cbn [default from_option id isNull].
  - pose proof (header_add_spec f gf Rf Se (Some n) (Some v) Vn) as A. apply simulates_join in A. unfold join in A. rewrite C0 in A.
    destruct A as (f1 & -> & R1). cbn [mbind res_bind]. rewrite (E2 v C0 eq_refl). apply IH; [done| |done].
    rewrite map_size_insert_None by done. lia.
  - cbn [mbind res_bind]. rewrite E1 by (by right). apply IH; [done|lia|done].
  - cbn [mbind res_bind]. rewrite E1 by (by right). apply IH; [done|lia|done].
Qed.

(** ** What is kept *)

Definition is_cookie (k : String) : bool := bool_decide (k = header_key H_SetCookie) || bool_decide (k = header_key H_SetCookie2).

Section sanitize.
Context `{Platform} `{Dtoa} `{ICU}.

(** The header names that the response exposes, and whether it exposes all. *)
Definition exposed_names (g : gmap String String) (names : list StringImpl) : Prop :=
  exists o, parseAccessControlAllowList same_ignoring_case (value_of H_AccessControlExposeHeaders g) = Ok o /\ names = default [] o.
Definition exposes_all (names : list StringImpl) : bool := existsb (fun n => bool_decide ((toASCIILower <$> n) = lit "*")) names.

Definition keeps (type : SanitizationType) (t : Tainting) (names : list StringImpl) (k v : String) : Prop :=
  match type, t with
  | Redirection, _ => key_in isSafeRedirectionResponseHeader k = true
  | RemoveCookies, _ | CrossOriginSafe, TaintBasic => is_cookie k = false
  | CrossOriginSafe, TaintCors =>
      is_cookie k = false /\ (exposes_all names = true \/ key_in isSafeCrossOriginResponseHeader k = true \/ exposes names k v)
  | CrossOriginSafe, (TaintOpaque | TaintOpaqueredirect) => key_in isSafeCrossOriginResponseHeader k = true
  end.
#[global] Instance keeps_dec type t names k v : Decision (keeps type t names k v).
Proof. destruct type, t; cbn; apply _. Defined.

Lemma delete_cookies (g : gmap String String) :
  delete (header_key H_SetCookie2) (delete (header_key H_SetCookie) g) = filter (fun kv => is_cookie kv.1 = false) g.
Proof.
  apply map_eq. intros k. apply option_eq. intros v. rewrite map_lookup_filter_Some. cbn [fst]. unfold is_cookie.
  rewrite orb_false_iff, !bool_decide_eq_false, !lookup_delete_Some. naive_solver.
Qed.

Lemma cookies_removed m g : rep m g -> entries m < 2 ^ 31 ->
  exists b1 m1 b2 m2, remove_header m H_SetCookie = Ok (m1, b1) /\ remove_header m1 H_SetCookie2 = Ok (m2, b2) /\
    rep m2 (filter (fun kv => is_cookie kv.1 = false) g).
Proof.
  intros R S. pose proof (remove_header_spec m g R H_SetCookie) as S1. unfold spec_remove, simulates in S1.
  destruct S1 as (m1 & E1 & R1 & _). destruct (remove_header m H_SetCookie) as [[m1' b1]| | |]; try done. injection E1 as -> ->.
  pose proof (remove_header_spec m1 _ R1 H_SetCookie2) as S2. unfold spec_remove, simulates in S2.
  destruct S2 as (m2 & E2 & R2 & _). destruct (remove_header m1 H_SetCookie2) as [[m2' b2]| | |] eqn:E; try done. injection E2 as -> ->.
  rewrite delete_cookies in R2. eauto 10.
Qed.

Lemma filter_size (P : String * String -> Prop) `{forall x, Decision (P x)} (g : gmap String String) : (base.size (filter P g) <= base.size g)%nat.
Proof. apply map_subseteq_size, map_filter_subseteq. Qed.

(** Safe headers are not cookies. *)
Lemma safe_no_cookie k : (key_in isSafeRedirectionResponseHeader k = true -> is_cookie k = false) /\ (key_in isSafeCrossOriginResponseHeader k = true -> is_cookie k = false).
Proof.
  unfold is_cookie. split; intros K; apply orb_false_iff; split; apply bool_decide_eq_false_2; intros ->; rewrite key_in_header in K; done.
Qed.

Lemma filter_both (P Q : String * String -> Prop) `{forall x, Decision (P x)} `{forall x, Decision (Q x)} (g : gmap String String) :
  (forall k v, Q (k, v) -> P (k, v)) -> filter Q (filter P g) = filter Q g.
Proof. intros I. apply map_eq. intros k. apply option_eq. intros v. rewrite !map_lookup_filter_Some. naive_solver. Qed.

(** The same headers, whichever way the choice is written. *)
Lemma rep_filter_same (m : HTTPHeaderMap) (P Q : String * String -> Prop) `{forall x, Decision (P x)} `{forall x, Decision (Q x)} (g : gmap String String) :
  rep m (filter P g) -> (forall k v, P (k, v) <-> Q (k, v)) -> rep m (filter Q g).
Proof.
  intros R E. assert (filter Q g = filter P g) as ->; [|done].
  apply map_eq. intros k. apply option_eq. intros v. rewrite !map_lookup_filter_Some. by rewrite E.
Qed.

Lemma exposed_all_spec names : header_set_contains names (lit "*") = Ok (exposes_all names).
Proof.
  induction names as [|n names IH]; cbn [header_set_contains exposes_all existsb]; [done|].
  rewrite equalIgnoringASCIICase_spec. cbn [mbind res_bind]. change (toASCIILower <$> lit "*") with (lit "*").
  case_bool_decide; [done|]. apply IH.
Qed.

Lemma value_of_filter h (P : String * String -> Prop) `{forall x, Decision (P x)} g :
  (forall v, P (header_key h, v)) -> value_of h (filter P g) = value_of h g.
Proof.
  intros A. unfold value_of. destruct (g !! header_key h) as [v|] eqn:E.
  - by rewrite (proj2 (map_lookup_filter_Some P g (header_key h) v)).
  - rewrite (proj2 (map_lookup_filter_None P g (header_key h))); [done|by left].
Qed.

(** Replacing the headers of a response. *)
Lemma exposed_headers_spec r g names : rep (m_httpHeaderFields r) g -> entries (m_httpHeaderFields r) < 2 ^ 31 ->
  exposed_names g names -> exposed_headers r = Ok names.
Proof.
  intros R S (o & E & ->). unfold exposed_headers, httpHeaderField. rewrite !(get_common_spec _ g R S). cbn [mbind res_bind].
  assert (X : (if negb (isEmpty (default None (g !! header_key H_AccessControlExposeHeaders))) then Ok (default None (g !! header_key H_AccessControlExposeHeaders))
    else Ok (default None (g !! header_key H_AccessControlExposeHeaders))) = Ok (value_of H_AccessControlExposeHeaders g)) by (by destruct (negb _)).
  rewrite X. cbn [mbind res_bind]. by rewrite E.
Qed.

Lemma exposed_without_cookies g names : exposed_names g names -> exposed_names (filter (fun kv => is_cookie kv.1 = false) g) names.
Proof. unfold exposed_names. rewrite value_of_filter; [done|]. intros v. done. Qed.

(** The union of the safe headers and the exposed ones is one filter. *)
Lemma cors_kept (gd : gmap String String) names :
  filter (fun kv => key_in isSafeCrossOriginResponseHeader kv.1 = true) gd ∪ filter (fun kv => exposes names kv.1 kv.2) gd =
  filter (fun kv => key_in isSafeCrossOriginResponseHeader kv.1 = true \/ exposes names kv.1 kv.2) gd.
Proof.
  apply map_eq. intros k. destruct (gd !! k) as [v|] eqn:E.
  - destruct (key_in isSafeCrossOriginResponseHeader k) eqn:K.
    + rewrite (lookup_union_Some_l _ _ k v); [symmetry|]; apply map_lookup_filter_Some; auto.
    + rewrite lookup_union_r by (apply map_lookup_filter_None; right; intros ? _; cbn [fst]; congruence).
      destruct (decide (exposes names k v)) as [X|X].
      * rewrite !(proj2 (map_lookup_filter_Some _ _ k v)); auto.
      * rewrite !(proj2 (map_lookup_filter_None _ _ k)); [done|right; intros w Ew; simplify_eq; cbn [fst snd]; rewrite ?K; naive_solver..].
  - rewrite lookup_union_r by (apply map_lookup_filter_None; by left).
    rewrite !(proj2 (map_lookup_filter_None _ _ k)); [done|by left|by left].
Qed.

(** C23: sanitizing keeps exactly the headers it should, with their values: for a redirection the headers of the
    redirection list, without cookies all others, and across origins the headers of the cross-origin list and, for a response shared by CORS,
    those it exposes by name, whatever their case; a response that is shared without CORS keeps only the list.
    No Set-Cookie header is ever left. *)
Theorem sanitize_keeps_exactly type r g names :
  rep (m_httpHeaderFields r) g -> Z.of_nat (base.size g) + zlen names < 2 ^ 31 ->
  exposed_names g names -> Forall (fun n => valid_name (Some n)) names -> walk names ≡ₚ names ->
  exists r', sanitizeHTTPHeaderFields type r = Ok r' /\
    rep (m_httpHeaderFields r') (filter (fun kv => keeps type (m_tainting r) names kv.1 kv.2) g).
Proof.
  intros R S X V W. unfold sanitizeHTTPHeaderFields. pose proof (zlen_nonneg names).
  destruct (cookies_removed _ g R) as (b1 & m1 & b2 & m2 & -> & E2 & R2); [rewrite (rep_entries _ _ R); lia|].
  cbn [mbind res_bind]. rewrite E2. cbn [mbind res_bind]. set (gd := filter (fun kv => is_cookie kv.1 = false) g) in *.
  assert (Sd : (base.size gd <= base.size g)%nat) by apply filter_size.
  assert (S2 : entries m2 < 2 ^ 31) by (rewrite (rep_entries _ _ R2); lia).
  assert (K : forall safe, (forall k, key_in safe k = true -> is_cookie k = false) ->
    filter (fun kv => key_in safe kv.1 = true) gd = filter (fun kv => key_in safe kv.1 = true) g).
  { intros safe Hs. apply filter_both. intros k v. apply Hs. }
  destruct type.
  - destruct (add_safe_rep isSafeRedirectionResponseHeader m2 gd R2) as (E3 & R3).
    rewrite (K _ (fun k => proj1 (safe_no_cookie k))) in R3. unfold set_common. rewrite E3. cbn [mbind res_bind]. eexists.
    split; [done|]. by eapply rep_filter_same.
  - eexists. split; [done|]. by eapply rep_filter_same.
  - unfold sanitizeHTTPHeaderFieldsAccordingToTainting. cbn [m_tainting with_headers m_httpHeaderFields].
    destruct (add_safe_rep isSafeCrossOriginResponseHeader m2 gd R2) as (E3 & R3). unfold HTTPHeaderMap_new.
    destruct (m_tainting r); [eexists; split; [done|]; by eapply rep_filter_same| |rewrite (K _ (fun k => proj2 (safe_no_cookie k))) in R3;
      rewrite E3; cbn [mbind res_bind]; eexists; (split; [done|]); by eapply rep_filter_same..].
    rewrite (exposed_headers_spec (with_headers m2 r) gd names R2 S2) by (by apply exposed_without_cookies). cbn [mbind res_bind].
    rewrite exposed_all_spec. cbn [mbind res_bind]. destruct (exposes_all names) eqn:A.
    { eexists. split; [done|]. eapply rep_filter_same; [exact R2|]. intros k v. cbn [keeps fst snd]. rewrite A. tauto. }
    rewrite E3. cbn [mbind res_bind].
    assert (Sf : (base.size (filter (fun kv => key_in isSafeCrossOriginResponseHeader kv.1 = true) gd) <= base.size gd)%nat) by apply filter_size.
    edestruct (add_exposed_spec (walk names) _ gd _ _ R2 S2 R3) as (f & -> & Rf);
      [unfold zlen in *; rewrite W; lia|by rewrite W|].
    cbn [mbind res_bind]. eexists. split; [done|]. cbn [m_httpHeaderFields with_headers]. rewrite cors_kept in Rf.
    unfold gd in Rf. rewrite map_filter_filter in Rf. eapply rep_filter_same; [exact Rf|]. intros k v. cbn [keeps fst snd].
    rewrite A. unfold exposes. rewrite W. naive_solver.
Qed.
End sanitize.

Definition cors_list : list (HTTPHeaderName * String) :=
  [(H_AccessControlExposeHeaders, Some (lit "x-a, VIA")); (H_SetCookie, Some (lit "id=1")); (H_Via, Some (lit "proxy")); (H_Date, Some (lit "0")); (H_Host, Some (lit "h"))].
Definition cors_map : HTTPHeaderMap := {| m_commonHeaders := cors_list; m_uncommonHeaders := [] |}.
Definition cors_response : @ResourceResponse plain_platform := with_headers cors_map (setTainting TaintCors ResourceResponse_new).
Definition cors_headers : gmap String String := list_to_map ((fun x => (header_key x.1, x.2)) <$> cors_list).

Lemma sanitize_witness :
  exists r', sanitizeHTTPHeaderFields CrossOriginSafe cors_response = Ok r' /\
    rep (m_httpHeaderFields r') (filter (fun kv => keeps CrossOriginSafe TaintCors [lit "x-a"; lit "VIA"] kv.1 kv.2) cors_headers).
Proof.
  apply (sanitize_keeps_exactly CrossOriginSafe cors_response cors_headers [lit "x-a"; lit "VIA"]).
  - apply rep_common_list. apply (bool_decide_unpack _). vm_compute. exact I.
  - vm_compute. reflexivity.
  - eexists. split; [vm_compute; reflexivity|reflexivity].
  - apply (bool_decide_unpack _). vm_compute. exact I.
  - reflexivity.
Defined.
End SanitizeProps.
