(* ===== verification/HttpValidationProps.v ===== *)
(** * Correctness of cache validation (network/CacheValidation.cpp)

    - a chain of redirections may be reused when all of them may and the first end of validity has not passed;
    - the headers of a validating response replace those of the cached one, except the ones that must not;
    - what was recorded for Vary is verified against the same headers, except for a Cookie header in other letters. *)
From Stdlib Require Ascii String SpecFloat.
Import String.StringSyntax.
From stdpp Require Import gmap fin_maps.
From S2P Require Import Prelude WtfString HttpNames HttpHeaders HttpHeaderProps HttpHeaderCoders HttpParsers HttpRange HttpCache HttpCacheProps HttpResponse HttpValidation HttpResponseProps.

Local Open Scope cf.

Module ValidationProps.
Import Str Names Headers HeaderProps HeaderCoders Cache CacheProps Response ResponseProps Validation.

(** ** The order of times *)

Section order.
Import Stdlib.Floats.SpecFloat.

(** The place of a number: infinities, sign, exponent and mantissa. *)
Definition place (x : Time.double) : Z * Z * Z :=
  match x with
  | S754_infinity true => (-2, 0, 0)
  | S754_finite true m e => (-1, - e, - Z.pos m)
  | S754_finite false m e => (1, e, Z.pos m)
  | S754_infinity false => (2, 0, 0)
  | _ => (0, 0, 0)
  end.

Definition before (a b : Z * Z * Z) : Prop :=
  a.1.1 < b.1.1 \/ (a.1.1 = b.1.1 /\ (a.1.2 < b.1.2 \/ (a.1.2 = b.1.2 /\ a.2 < b.2))).

Lemma compare_place x y : Time.isnan x = false -> Time.isnan y = false ->
  match SFcompare x y with
  | Some Lt => before (place x) (place y)
  | Some Eq => place x = place y
  | Some Gt => before (place y) (place x)
  | None => False
  end.
Proof.
  unfold before. intros Nx Ny.
  destruct x as [s|s| |s m e], y as [s'|s'| |s' m' e']; try done; cbn -[Z.compare Pos.compare_cont]; try (destruct s; cbn; lia);
    try (destruct s, s'; cbn; (done || lia)); try (destruct s'; cbn; lia).
  change (Pos.compare_cont Eq m m') with (m ?= m')%positive.
  destruct s, s'; cbn; try lia; destruct (Z.compare_spec e e'); subst; cbn; try lia;
    destruct (Pos.compare_spec m m'); subst; cbn; (done || lia).
Qed.

Lemma less_place x y : Time.isnan x = false -> Time.isnan y = false -> Time.less x y = true <-> before (place x) (place y).
Proof.
  intros Nx Ny. pose proof (compare_place x y Nx Ny) as C. unfold Time.less, SFltb, before in *.
  destruct (SFcompare x y) as [[]|]; [rewrite C|..]; split; try done; lia.
Qed.

Lemma less_equal_place x y : Time.isnan x = false -> Time.isnan y = false -> Time.less_equal x y = true <-> ~ before (place y) (place x).
Proof.
  intros Nx Ny. pose proof (compare_place x y Nx Ny) as C. unfold Time.less_equal, SFleb, before in *.
  destruct (SFcompare x y) as [[]|]; [rewrite C|..]; split; try done; lia.
Qed.

Lemma less_nan x y : Time.isnan x = true \/ Time.isnan y = true -> Time.less x y = false.
Proof. intros [N|N]; [by destruct x|]. by destruct x as [[]|[]| |[]], y as [[]|[]| |[]]. Qed.

Lemma min_number a b : Time.isnan a = false -> Time.isnan (Time.min a b) = false.
Proof.
  intros N. unfold Time.min. destruct (Time.less b a) eqn:L; [|done]. destruct (Time.isnan b) eqn:E; [|done].
  rewrite less_nan in L by auto. done.
Qed.

(** A time is not after the smaller of two exactly when it is after neither; what is not a number does not count. *)
Lemma less_equal_min t a b : Time.isnan t = false -> Time.isnan a = false ->
  Time.less_equal t (Time.min a b) = Time.less_equal t a && (Time.isnan b || Time.less_equal t b).
Proof.
  intros Nt Na. unfold Time.min. destruct (Time.isnan b) eqn:Nb.
  { rewrite less_nan by auto. cbn. by rewrite andb_true_r. }
  cbn [orb]. apply eq_true_iff_eq. rewrite andb_true_iff.
  pose proof (less_place b a Nb Na) as Lp. pose proof (less_equal_place t a Nt Na) as Ta. pose proof (less_equal_place t b Nt Nb) as Tb.
  unfold before in *. destruct (Time.less b a) eqn:L.
  - rewrite Ta, Tb. assert (X := proj1 Lp eq_refl). lia.
  - rewrite Ta, Tb. assert (X : ~ _) by (intros X%Lp; done). lia.
Qed.
End order.

(** ** Chains of redirections *)

Section chain.
Context `{Platform} `{Dtoa} `{ICU}.

(** A redirection with the times at which it was seen. *)
Record Seen := mkSeen { response : ResourceResponse; seen_at : Time.double; aged_at : Time.double }.

Fixpoint update_all (chain : RedirectChainCacheStatus) (l : list Seen) : res RedirectChainCacheStatus :=
  match l with
  | [] => Ok chain
  | s :: l => '(chain, _) ← updateRedirectChainStatus chain (response s) (seen_at s) (aged_at s); update_all chain l
  end.

(** When a redirection stops being valid; [None] if it must not be reused. *)
Definition validity (s : Seen) : res (option Time.double) :=
  '(r, d) ← directives (response s);
  if noStore d || noCache d || mustRevalidate d then Ok None else
  '(r, lifetime) ← computeFreshnessLifetimeForHTTPFamily r (seen_at s);
  '(_, current) ← computeCurrentAge r (seen_at s) (aged_at s);
  Ok (Some (Time.minus (Time.plus (seen_at s) lifetime) current)).

Fixpoint validities (l : list Seen) : res (list (option Time.double)) :=
  match l with [] => Ok [] | s :: l => v ← validity s; rest ← validities l; Ok (v :: rest) end.

(** Asking again gives the same directives. *)
Lemma directives_again r r' d : directives r = Ok (r', d) -> directives r' = Ok (r', d).
Proof.
  unfold directives. destruct (have (m_cacheControlDirectives r)) eqn:E; [intros [= <- <-]; by rewrite E|].
  destruct (parseCacheControlDirectives _); try done. by intros [= <- <-].
Qed.

Lemma update_validity chain s v : validity s = Ok v -> status chain <> NotCachedRedirection ->
  exists r', updateRedirectChainStatus chain (response s) (seen_at s) (aged_at s) =
    Ok (match v with
        | None => mkChain (endOfValidity chain) NotCachedRedirection
        | Some e => mkChain (Time.min (endOfValidity chain) e) CachedRedirection
        end, r').
Proof.
  unfold validity, updateRedirectChainStatus, cacheControlContainsNoStore, cacheControlContainsNoCache, cacheControlContainsMustRevalidate.
  intros V N. destruct (directives (response s)) as [[r d]| | |] eqn:D; try done. cbn [mbind res_bind] in *. pose proof (directives_again _ _ _ D) as D'.
  assert (E : forall X (x y : res X), status chain <> NotCachedRedirection -> match status chain with NotCachedRedirection => x | _ => y end = y) by (by intros; destruct (status chain)).
  rewrite E by done. destruct (noStore d); cbn [orb mbind res_bind] in *.
  { injection V as <-. by eexists. }
  rewrite D'. cbn [mbind res_bind]. destruct (noCache d); cbn [orb mbind res_bind] in *.
  { injection V as <-. by eexists. }
  rewrite D'. cbn [mbind res_bind]. destruct (mustRevalidate d); cbn [orb mbind res_bind] in *.
  { injection V as <-. by eexists. }
  destruct (computeFreshnessLifetimeForHTTPFamily r (seen_at s)) as [[r1 lifetime]| | |]; try done. cbn [mbind res_bind] in *.
  destruct (computeCurrentAge r1 (seen_at s) (aged_at s)) as [[r2 current]| | |]; try done. cbn [mbind res_bind] in *.
  injection V as <-. by eexists.
Qed.

(** Whether a redirection allows a reuse at a time. *)
Definition allows (t : Time.double) (v : option Time.double) : bool :=
  match v with None => false | Some e => Time.isnan e || Time.less_equal t e end.

Lemma not_cached_stays chain l : status chain = NotCachedRedirection -> update_all chain l = Ok chain.
Proof. intros E. induction l as [|s l IH]; cbn [update_all]; [done|]. unfold updateRedirectChainStatus. rewrite E. cbn [mbind res_bind]. apply IH. Qed.

Lemma update_all_spec t l vs chain :
  validities l = Ok vs -> status chain <> NotCachedRedirection -> Time.isnan t = false -> Time.isnan (endOfValidity chain) = false ->
  (status chain = NoRedirection -> endOfValidity chain = Time.infinity) ->
  exists chain', update_all chain l = Ok chain' /\
    redirectChainAllowsReuse chain' false t = redirectChainAllowsReuse chain false t && forallb (allows t) vs.
Proof.
  intros V N Nt. revert vs chain V N. induction l as [|s l IH]; intros vs chain V N Ne Ni; cbn [update_all validities] in *.
  { injection V as <-. exists chain. split; [done|]. cbn. by rewrite andb_true_r. }
  destruct (validity s) as [v| | |] eqn:Ev; try done. cbn [mbind res_bind] in V.
  destruct (validities l) as [rest| | |]; try done. cbn [mbind res_bind] in V. injection V as <-.
  destruct (update_validity chain s v Ev N) as (r' & ->). cbn [mbind res_bind forallb]. destruct v as [e|]; cbn [allows].
  - destruct (IH rest (mkChain (Time.min (endOfValidity chain) e) CachedRedirection)) as (c & -> & A); [done|done|by apply min_number|done|].
    exists c. split; [done|]. rewrite A, andb_assoc. f_equal. cbn [redirectChainAllowsReuse status endOfValidity orb].
    rewrite less_equal_min by done. f_equal. unfold redirectChainAllowsReuse. destruct (status chain) eqn:S; [|done|done].
    rewrite Ni by done. by destruct t as [[]|[]| |[]].
  - rewrite not_cached_stays by done. eexists. split; [done|]. cbn. by rewrite andb_false_r.
Qed.

(** C26: a chain of redirections may be reused from the cache at a time exactly when every redirection in it may:
    none forbids storing or asks for revalidation, and the time is not after the end of validity of any of them,
    which is the earliest; an end of validity that is not a number does not count.  A redirection that forbids
    reuse cannot be undone by later ones. *)
Theorem redirect_chain_reuse t l vs :
  validities l = Ok vs -> Time.isnan t = false ->
  exists chain, update_all RedirectChainCacheStatus_new l = Ok chain /\ redirectChainAllowsReuse chain false t = forallb (allows t) vs.
Proof. intros V Nt. by apply (update_all_spec t l vs RedirectChainCacheStatus_new). Qed.
End chain.

Definition sample_seen (value : String) (at_ : Z) : @Seen plain_platform :=
  mkSeen (with_headers {| m_commonHeaders := [(H_CacheControl, value)]; m_uncommonHeaders := [] |} (@ResourceResponse_of plain_platform (lit "http://a/" : @URL plain_platform) None 0 None))
    (Time.of_int at_) (Time.of_int at_).

Lemma redirect_chain_witness :
  exists chain, @update_all plain_platform digits_dtoa RedirectChainCacheStatus_new
      [sample_seen (Some (lit "max-age=60")) 1000; sample_seen (Some (lit "max-age=10")) 1001] = Ok chain /\
    redirectChainAllowsReuse chain false (Time.of_int 1012) = forallb (allows (Time.of_int 1012)) [Some (Time.of_int 1060); Some (Time.of_int 1011)].
Proof. apply redirect_chain_reuse; vm_compute; reflexivity. Defined.

(** ** Revalidation *)

(** The keys of the headers that a validating response may change. *)
Definition updatable (k : String) : bool :=
  negb (existsb (fun x => bool_decide (chars k = x)) headersToIgnoreAfterRevalidation)
  && negb (existsb (fun x => bool_decide (take (length x) (chars k) = x)) headerPrefixesToIgnoreAfterRevalidation).

Lemma any_match_spec f (p : StringImpl -> bool) l : (forall x, In x l -> f x = Ok (p x)) -> any_match f l = Ok (existsb p l).
Proof.
  induction l as [|x l IH]; intros E; cbn [any_match existsb]; [done|]. rewrite E by (by left). cbn [mbind res_bind].
  destruct (p x); [done|]. apply IH. intros y Hy. apply E. by right.
Qed.

Lemma chars_key name : chars (name_key name) = toASCIILower <$> chars name.
Proof. by destruct name. Qed.

Lemma should_update_spec name : shouldUpdateHeaderAfterRevalidation name = Ok (updatable (name_key name)).
Proof.
  unfold shouldUpdateHeaderAfterRevalidation, updatable. rewrite chars_key.
  assert (L : forall x, In x (headersToIgnoreAfterRevalidation ++ headerPrefixesToIgnoreAfterRevalidation) -> (toASCIILower <$> x) = x).
  { intros x Hx. repeat (destruct Hx as [<-|Hx]; [by vm_compute|]). destruct Hx. }
  rewrite (any_match_spec (equalIgnoringASCIICase_ name) (fun x => bool_decide ((toASCIILower <$> chars name) = x))).
  2: { intros x Hx. unfold equalIgnoringASCIICase_. rewrite equalIgnoringASCIICase_spec, (L x); [done|]. apply in_app_iff. by left. }
  cbn [mbind res_bind]. destruct (existsb _ headersToIgnoreAfterRevalidation); [done|].
  rewrite (any_match_spec (startsWithIgnoringASCIICase name) (fun x => bool_decide (take (length x) (toASCIILower <$> chars name) = x))); [done|].
  intros x Hx. unfold startsWithIgnoringASCIICase. destruct name as [l|]; cbn [chars default from_option id].
  - destruct (Z.ltb_spec (zlen l) (zlen x)) as [S|S].
    + rewrite bool_decide_eq_false_2; [done|]. intros E. apply (f_equal length) in E. rewrite length_take, length_fmap in E. unfold zlen in S. lia.
    + rewrite equal_prefix_spec by (unfold zlen in S; lia). rewrite <- fmap_take, (L x); [done|]. apply in_app_iff. by right.
  - repeat (destruct Hx as [<-|Hx]; [by vm_compute|]). destruct Hx.
Qed.

Definition keyed (kv : KeyValue) : String * String := (name_key (kv_key kv), kv_value kv).

Lemma keyed_all m : keyed <$> all_kv m = ((fun x : HTTPHeaderName * String => (header_key x.1, x.2)) <$> m_commonHeaders m) ++ ((fun x : String * String => (name_key x.1, x.2)) <$> m_uncommonHeaders m).
Proof. unfold all_kv. rewrite fmap_app, <- !list_fmap_compose. done. Qed.

(** The loop over a header map sees every entry of the map it stands for once. *)
Lemma all_headers m g : rep m g -> keyed <$> all_kv m ≡ₚ map_to_list g.
Proof.
  intros (gc & gu & -> & P). rewrite keyed_all.
  pose proof (common_part _ _ _ P) as Hc. pose proof (uncommon_part _ _ _ P) as Hu. unfold holds in *. rewrite Hc, Hu.
  assert (D : gc ##ₘ gu).
  { apply map_disjoint_spec. intros k v1 v2 E1 E2. destruct (common_names _ _ _ P k) as [h ->]; [by exists v1|]. by rewrite (uncommon_names _ _ _ P) in E2. }
  apply NoDup_Permutation; [|apply NoDup_map_to_list|].
  - apply NoDup_app. split_and!; [apply NoDup_map_to_list| |apply NoDup_map_to_list].
    intros [k v] E1%elem_of_map_to_list E2%elem_of_map_to_list. by eapply map_disjoint_spec.
  - intros [k v]. rewrite elem_of_app, !elem_of_map_to_list, lookup_union_Some by done. done.
Qed.

Section revalidation.
Context `{Platform} `{Dtoa} `{ICU}.

(** The headers after one header of the validating response. *)
Lemma merge_step (gu g : gmap String String) (k v : String) : gu !! k = Some v ->
  filter (fun kv : String * String => updatable kv.1 = true) (delete k gu) ∪ (if updatable k then <[k := v]> g else g) =
  filter (fun kv : String * String => updatable kv.1 = true) gu ∪ g.
Proof.
  intros E. apply map_eq. intros j. rewrite !lookup_union, !map_lookup_filter. destruct (decide (k = j)) as [<-|N].
  - rewrite lookup_delete_eq, E. cbn [mbind option_bind fst]. destruct (updatable k) eqn:U.
    + rewrite lookup_insert_eq. cbn. rewrite option_guard_True by done. cbn. by destruct (g !! k).
    + rewrite option_guard_False by done. done.
  - rewrite lookup_delete_ne by done. destruct (updatable k); [by rewrite lookup_insert_ne|done].
Qed.

Lemma update_loop_spec (l : list KeyValue) (r : ResourceResponse) (gu g : gmap String String) :
  represents r g -> keyed <$> l ≡ₚ map_to_list gu -> Forall (fun kv => valid_name (kv_key kv)) l ->
  Z.of_nat (base.size g) + zlen l < 2 ^ 31 ->
  exists r', update_loop l r = Ok r' /\ represents r' (filter (fun kv : String * String => updatable kv.1 = true) gu ∪ g) /\
    forall last, age_known r g last -> age_known r' (filter (fun kv : String * String => updatable kv.1 = true) gu ∪ g) last.
Proof.
  revert r gu g; induction l as [|kv l IH]; intros r gu g R P V S; cbn [update_loop].
  - cbn in P. apply Permutation_nil_l in P. symmetry in P. apply map_to_list_empty_iff in P as ->. exists r. rewrite map_filter_empty, !(map_empty_union g). by split_and!.
  - apply Forall_cons in V as [Vk V]. rewrite zlen_cons in S. pose proof (zlen_nonneg l). rewrite fmap_cons in P. cbn [keyed] in P.
    assert (E : gu !! name_key (kv_key kv) = Some (kv_value kv)) by (apply elem_of_map_to_list; rewrite <- P; by left).
    rewrite <- (map_to_list_delete gu _ _ E) in P. apply Permutation_cons_inv in P.
    rewrite should_update_spec. cbn [mbind res_bind]. rewrite <- (merge_step gu g _ _ E).
    destruct (updatable (name_key (kv_key kv))).
    + pose proof (set_name_sim r g R) as Sm. rewrite (rep_entries _ g (proj1 R)) in Sm. specialize (Sm ltac:(lia) (kv_key kv) (kv_value kv) Vk).
      cbn [headers_op put mbind res_bind sim] in Sm. destruct Sm as (r1 & E1 & R1).
      destruct (setHTTPHeaderField_name (kv_key kv) (kv_value kv) r) as [r1'| | |] eqn:Es; try done. injection E1 as ->. cbn [mbind res_bind].
      pose proof (put_size (name_key (kv_key kv)) (kv_value kv) g).
      destruct (IH r1 (delete (name_key (kv_key kv)) gu) (<[name_key (kv_key kv) := kv_value kv]> g) R1 P V ltac:(lia)) as (r' & El & R' & A').
      exists r'. split_and!; [done|done|]. intros last A. by apply A', (age_set_name r r1 g _ _ _ Vk Es).
    + cbn [mbind res_bind]. apply IH; [done..|lia].
Qed.

End revalidation.

Definition cached_list : list (HTTPHeaderName * String) := [(H_CacheControl, Some (lit "no-cache")); (H_Age, Some (lit "3")); (H_ContentLength, Some (lit "9"))].
Definition validating_list : list (HTTPHeaderName * String) := [(H_CacheControl, Some (lit "max-age=5")); (H_ContentLength, Some (lit "0")); (H_Age, Some (lit "x"))].
Definition common_of (l : list (HTTPHeaderName * String)) : @ResourceResponse plain_platform :=
  with_headers {| m_commonHeaders := l; m_uncommonHeaders := [] |} ResourceResponse_new.
Definition headers_of (l : list (HTTPHeaderName * String)) : gmap String String := list_to_map ((fun x => (header_key x.1, x.2)) <$> l).
(** The cached response after its age was asked. *)
Definition cached_response : @ResourceResponse plain_platform :=
  match @age plain_platform digits_dtoa (common_of cached_list) with Ok (r, _) => r | _ => ResourceResponse_new end.
Definition merged_headers : gmap String String :=
  filter (fun kv : String * String => updatable kv.1 = true) (headers_of validating_list) ∪ headers_of cached_list.


(** ** Vary *)

Section vary.
Context `{Platform} `{ICU}.

(** What a request says about a header name; the cookies are a part of the request, under exactly the name Cookie. *)
Definition vary_value (cookies : String) (g : gmap String String) (name : StringImpl) : String :=
  if bool_decide (name = lit "Cookie") then cookies else default None (g !! name_key (Some name)).

(** The header names that a Vary header lists. *)
Definition vary_names (vary : String) : list StringImpl := trim isSpaceOrNewline <$> words (fun x => x =? 44) (chars vary).

Definition same_answers (c1 c2 : String) (g1 g2 : gmap String String) (name : StringImpl) : bool :=
  negb (bool_decide (name = lit "*")) && bool_decide (vary_value c1 g1 name = vary_value c2 g2 name).

Lemma header_value_for_vary (m : HTTPHeaderMap) (g : gmap String String) (cookies : String) (name : StringImpl) : rep m g -> entries m < 2 ^ 31 -> valid_name (Some name) ->
  headerValueForVary m cookies (Some name) = Ok (vary_value cookies g name).
Proof.
  intros R S V. unfold headerValueForVary, vary_value. change (httpHeaderNameString H_Cookie) with (Ok (lit "Cookie")). cbn [mbind res_bind].
  destruct (decide (name = lit "Cookie")) as [->|N]; [by rewrite !bool_decide_eq_true_2|].
  rewrite !bool_decide_eq_false_2 by congruence. by apply header_get_spec.
Qed.

Lemma vary_field (r : ResourceResponse) (g : gmap String String) : rep (m_httpHeaderFields r) g -> entries (m_httpHeaderFields r) < 2 ^ 31 ->
  httpHeaderField H_Vary r = Ok (value_of H_Vary g).
Proof.
  intros R S. unfold httpHeaderField. rewrite !(get_common_spec _ g R S). cbn [mbind res_bind]. by destruct (negb _).
Qed.

Lemma collect_loop_spec (f : String -> res String) (v : StringImpl -> String) (l : list StringImpl) :
  Forall (fun n => f (Some (trim isSpaceOrNewline n)) = Ok (v (trim isSpaceOrNewline n))) l ->
  collect_loop f (Some <$> l) = Ok ((fun n => (Some n, v n)) <$> (trim isSpaceOrNewline <$> l)).
Proof.
  induction l as [|n l IH]; intros V; [done|]. apply Forall_cons in V as [Vn V]. cbn [fmap list_fmap collect_loop].
  rewrite stripWhiteSpace_spec. cbn [mbind res_bind]. rewrite Vn. cbn [mbind res_bind]. fold (fmap (M:=list) (A:=StringImpl) Some l).
  rewrite IH by done. done.
Qed.

Lemma verify_spec (f : String -> res String) (v1 v2 : StringImpl -> String) (l : list StringImpl) : Forall (fun n => f (Some n) = Ok (v2 n)) l ->
  verifyVaryingRequestHeadersInternal ((fun n => (Some n, v1 n)) <$> l) f =
  Ok (forallb (fun n => negb (bool_decide (n = lit "*")) && bool_decide (v1 n = v2 n)) l).
Proof.
  induction l as [|n l IH]; intros V; [done|]. apply Forall_cons in V as [Vn V].
  cbn [fmap list_fmap verifyVaryingRequestHeadersInternal forallb].
  destruct (decide (n = lit "*")) as [->|N]; [by rewrite (bool_decide_eq_true_2 (Some _ = _)), (bool_decide_eq_true_2 (lit "*" = _))|].
  rewrite (bool_decide_eq_false_2 (Some n = Some (lit "*"))), (bool_decide_eq_false_2 (n = lit "*")) by congruence.
  rewrite Vn. cbn [mbind res_bind negb andb]. destruct (decide (v1 n = v2 n)) as [E|E].
  - rewrite !bool_decide_eq_true_2 by done. cbn [negb andb]. by apply IH.
  - rewrite !bool_decide_eq_false_2 by congruence. done.
Qed.

(** C25: what a response varies on decides its reuse, as the code reads a Vary header.  The request headers recorded for a response
    verify against a later request exactly when the Vary header does not list an asterisk and the two requests answer the same for every
    name it lists, which are the non-empty parts between commas without the space around them.  For the name Cookie in exactly these
    letters the answer is the cookies of the storage session; for every other spelling, "cookie" too, it is the header of the
    request, found without regard to case, and the cookies are not looked at.  A response without Vary always verifies.  Without a storage session nothing is recorded, so that the response
    verifies later whatever it varies on, and nothing verifies. *)
Theorem vary_decides_reuse (r : ResourceResponse) (m1 m2 : HTTPHeaderMap) (g g1 g2 : gmap String String) (session1 session2 : option String) :
  rep (m_httpHeaderFields r) g -> rep m1 g1 -> rep m2 g2 ->
  entries (m_httpHeaderFields r) < 2 ^ 31 -> entries m1 < 2 ^ 31 -> entries m2 < 2 ^ 31 ->
  fits (chars (value_of H_Vary g)) -> Forall (fun n => valid_name (Some n)) (vary_names (value_of H_Vary g)) ->
  exists recorded, collectVaryingRequestHeaders session1 m1 r = Ok recorded /\
    verifyVaryingRequestHeaders session2 recorded m2 = Ok (match session1, session2 with
      | _, None => false
      | None, Some _ => true
      | Some c1, Some c2 => forallb (same_answers c1 c2 g1 g2) (vary_names (value_of H_Vary g))
      end).
Proof.
  intros R R1 R2 S S1 S2 F V. unfold collectVaryingRequestHeaders, collectVaryingRequestHeadersInternal, verifyVaryingRequestHeaders, vary_names in *.
  destruct session1 as [c1|]; [|exists []; by destruct session2].
  rewrite (vary_field r g R S). cbn [mbind res_bind].
  destruct (value_of H_Vary g) as [vary|]; [|exists []; by destruct session2]. cbn [chars default from_option id] in *.
  destruct (isEmpty (Some vary)) eqn:E; [destruct vary; [exists []; by destruct session2|done]|].
  rewrite split_uchar_spec by done. cbn [mbind res_bind]. rewrite Forall_fmap in V.
  rewrite (collect_loop_spec _ (vary_value c1 g1)).
  2: { eapply Forall_impl; [exact V|]. intros n Vn. by apply header_value_for_vary. }
  eexists. split; [done|]. destruct session2 as [c2|]; [|done]. rewrite (verify_spec _ (vary_value c1 g1) (vary_value c2 g2)); [done|].
  rewrite Forall_fmap. eapply Forall_impl; [exact V|]. intros n Vn. by apply header_value_for_vary.
Qed.
End vary.

(** A response that varies on the cookies, written in small letters, verifies with other cookies. *)
Theorem vary_cookie_lower_case :
  let r := common_of [(H_Vary, Some (lit "cookie"))] in
  exists recorded, @collectVaryingRequestHeaders plain_platform plain_icu (Some (Some (lit "a=1"))) HTTPHeaderMap_new r = Ok recorded /\
    verifyVaryingRequestHeaders (Some (Some (lit "a=2"))) recorded HTTPHeaderMap_new = Ok true.
Proof. exists [(Some (lit "cookie"), None)]. split; vm_compute; reflexivity. Qed.

Lemma vary_witness :
  exists recorded, @collectVaryingRequestHeaders plain_platform plain_icu (Some (Some (lit "a=1"))) HTTPHeaderMap_new (common_of [(H_Vary, Some (lit "Host , Cookie"))]) = Ok recorded /\
    verifyVaryingRequestHeaders (Some (Some (lit "a=2"))) recorded HTTPHeaderMap_new =
    Ok (forallb (same_answers (Some (lit "a=1")) (Some (lit "a=2")) ∅ ∅) (@vary_names plain_icu (value_of H_Vary (<[header_key H_Vary := Some (lit "Host , Cookie")]> ∅)))).
Proof.
  apply (vary_decides_reuse (common_of [(H_Vary, Some (lit "Host , Cookie"))]) _ _ (<[header_key H_Vary := Some (lit "Host , Cookie")]> ∅) ∅ ∅ (Some (Some (lit "a=1"))) (Some (Some (lit "a=2")))).
  - apply (rep_common_list [(H_Vary, Some (lit "Host , Cookie"))]). apply (bool_decide_unpack _). vm_compute. exact I.
  - apply (rep_common_list []). apply (bool_decide_unpack _). vm_compute. exact I.
  - apply (rep_common_list []). apply (bool_decide_unpack _). vm_compute. exact I.
  - vm_compute. reflexivity.
  - vm_compute. reflexivity.
  - vm_compute. reflexivity.
  - vm_compute. discriminate.
  - apply (bool_decide_unpack _). vm_compute. exact I.
Defined.
End ValidationProps.
