(* ===== verification/HttpResponseCoders.v ===== *)
(** * Responses as arguments of messages

    The coders of load metrics (network/NetworkLoadMetrics.h), certificates
    (auxiliary/soup/WebCoreArgumentCodersSoup.cpp), URLs (wtf/URL.h) and responses
    (network/ResourceResponseBase.h, network/soup/ResourceResponse.h), and that a
    response which one process sends is the one the other receives.

    Strings are kept with their representation, as the coder of strings writes it;
    [response_of] is the response of [HttpResponse] that a received one is.
    Parameters: the parser of URLs, and which certificates the TLS library builds from
    encoded data and an issuer. *)
From Stdlib Require Ascii String.
Import String.StringSyntax.
From stdpp Require Import gmap.
From S2P Require Import Prelude IpcEncoder IpcDecoder IpcCoders IpcMessages WtfString HttpNames HttpHeaders HttpHeaderProps HttpHeaderCoders HttpParsers HttpRange HttpCache HttpCacheProps HttpResponse HttpResponseProps.

Local Open Scope cf.

Module ResponseCoders.
Import Str Names Headers HeaderProps HeaderCoders Cache Response ResponseProps Decoder.

(** ** Signed integers *)

Inductive sint (n : nat) : Type := SInt (v : Z).
Arguments SInt {n} _.
Definition sint_val {n} (x : sint n) : Z := match x with SInt v => v end.

Definition encode_sint {n} (x : sint n) : Encoder -> res Encoder := encode_arith n (wrap (8 * Z.of_nat n) (sint_val x)).
Definition decode_sint n : M (sint n) := bind (decode_arith n) (fun v => ret (SInt (swrap (8 * Z.of_nat n) v))).
#[global] Instance sint_coder n : ArgumentCoder (sint n) := { encode := encode_sint; decode := decode_sint n }.

(** ** Enumerations of one byte, by the list of their values (wtf/EnumTraits.h) *)

Class EnumTraits (E : Type) := { values : list E; underlying : E -> Z }.

Section enumerations.
Context {E : Type} `{EnumTraits E}.

Definition isValidEnum (t : Z) : bool := existsb (fun e => underlying e =? t) values.
Definition encode_byte_enum (e : E) : Encoder -> res Encoder := encode_arith 1 (underlying e).
(** The cast gives the enumerator with this value. *)
Definition decode_byte_enum : M E :=
  bind (decode_enum 1 isValidEnum) (fun v d => e ← or_ub (List.find (fun e => underlying e =? v) values); ret e d).
#[global] Instance byte_enum_coder : ArgumentCoder E := { encode := encode_byte_enum; decode := decode_byte_enum }.
End enumerations.

#[global] Instance Type_traits : EnumTraits Type_ := {|
  values := [TypeBasic; TypeCors; TypeDefault; TypeError; TypeOpaque; TypeOpaqueredirect];
  underlying t := match t with TypeBasic => 0 | TypeCors => 1 | TypeDefault => 2 | TypeError => 3 | TypeOpaque => 4 | TypeOpaqueredirect => 5 end |}.
#[global] Instance Tainting_traits : EnumTraits Tainting := {|
  values := [TaintBasic; TaintCors; TaintOpaque; TaintOpaqueredirect];
  underlying t := match t with TaintBasic => 0 | TaintCors => 1 | TaintOpaque => 2 | TaintOpaqueredirect => 3 end |}.
#[global] Instance Source_traits : EnumTraits Source := {|
  values := [SourceUnknown; SourceNetwork; SourceDiskCache; SourceDiskCacheAfterValidation; SourceMemoryCache;
    SourceMemoryCacheAfterValidation; SourceServiceWorker; SourceApplicationCache; SourceDOMCache; SourceInspectorOverride];
  underlying s := match s with
    | SourceUnknown => 0 | SourceNetwork => 1 | SourceDiskCache => 2 | SourceDiskCacheAfterValidation => 3 | SourceMemoryCache => 4
    | SourceMemoryCacheAfterValidation => 5 | SourceServiceWorker => 6 | SourceApplicationCache => 7 | SourceDOMCache => 8 | SourceInspectorOverride => 9 end |}.

Inductive NetworkLoadPriority := PriorityLow | PriorityMedium | PriorityHigh | PriorityUnknown.
#[global] Instance Priority_traits : EnumTraits NetworkLoadPriority := {|
  values := [PriorityLow; PriorityMedium; PriorityHigh; PriorityUnknown];
  underlying p := match p with PriorityLow => 0 | PriorityMedium => 1 | PriorityHigh => 2 | PriorityUnknown => 3 end |}.

(** ** Load metrics *)

(** Seconds are doubles, by their bits. *)
Record NetworkLoadMetrics := mkMetrics {
  fetchStart : uint 8; domainLookupStart : uint 8; domainLookupEnd : uint 8; connectStart : uint 8; secureConnectionStart : uint 8;
  connectEnd : uint 8; requestStart : uint 8; responseStart : uint 8; responseEnd : uint 8;
  complete : bool; cellular : bool; expensive : bool; constrained : bool; multipath : bool; isReusedConnection : bool;
  protocol : WString; remoteAddress : WString; connectionIdentifier : WString; tlsProtocol : WString; tlsCipher : WString;
  priority : NetworkLoadPriority; requestHeaders : HeaderMapRep;
  requestHeaderBytesSent : uint 8; requestBodyBytesSent : uint 8; responseHeaderBytesReceived : uint 8;
  responseBodyBytesReceived : uint 8; responseBodyDecodedSize : uint 8 }.

Definition encode_metrics (m : NetworkLoadMetrics) (e : Encoder) : res Encoder :=
  e ← encode (fetchStart m) e; e ← encode (domainLookupStart m) e; e ← encode (domainLookupEnd m) e;
  e ← encode (connectStart m) e; e ← encode (secureConnectionStart m) e; e ← encode (connectEnd m) e;
  e ← encode (requestStart m) e; e ← encode (responseStart m) e; e ← encode (responseEnd m) e;
  e ← encode (complete m) e; e ← encode (cellular m) e; e ← encode (expensive m) e; e ← encode (constrained m) e;
  e ← encode (multipath m) e; e ← encode (isReusedConnection m) e;
  e ← encode (protocol m) e; e ← encode (remoteAddress m) e; e ← encode (connectionIdentifier m) e;
  e ← encode (tlsProtocol m) e; e ← encode (tlsCipher m) e; e ← encode (priority m) e; e ← encode (requestHeaders m) e;
  e ← encode (requestHeaderBytesSent m) e; e ← encode (requestBodyBytesSent m) e; e ← encode (responseHeaderBytesReceived m) e;
  e ← encode (responseBodyBytesReceived m) e; encode (responseBodyDecodedSize m) e.

Definition decode_metrics : M NetworkLoadMetrics :=
  bind decode (fun a1 => bind decode (fun a2 => bind decode (fun a3 => bind decode (fun a4 => bind decode (fun a5 =>
  bind decode (fun a6 => bind decode (fun a7 => bind decode (fun a8 => bind decode (fun a9 =>
  bind decode (fun b1 => bind decode (fun b2 => bind decode (fun b3 => bind decode (fun b4 => bind decode (fun b5 => bind decode (fun b6 =>
  bind decode (fun s1 => bind decode (fun s2 => bind decode (fun s3 => bind decode (fun s4 => bind decode (fun s5 =>
  bind decode (fun p => bind decode (fun h =>
  bind decode (fun n1 => bind decode (fun n2 => bind decode (fun n3 => bind decode (fun n4 => bind decode (fun n5 =>
  ret (mkMetrics a1 a2 a3 a4 a5 a6 a7 a8 a9 b1 b2 b3 b4 b5 b6 s1 s2 s3 s4 s5 p h n1 n2 n3 n4 n5)))))))))))))))))))))))))))).
#[global] Instance metrics_coder : ArgumentCoder NetworkLoadMetrics := { encode := encode_metrics; decode := decode_metrics }.

(** ** Certificates *)

(** A certificate is its encoded data, where the library has it, followed by those of its issuers. *)
Definition Certificate : Type := list (option (list Z)).

(** Whether a certificate can be built from encoded data and an issuer. *)
Class GTls := { accepts : list Z -> option Certificate -> bool }.

Record CertificateInfo := mkCertificateInfo { certificate : option Certificate; tlsErrors : Z }.
Definition CertificateInfo_new : CertificateInfo := mkCertificateInfo None 0.

Section certificates.
Context `{GTls}.

Fixpoint certificatesDataList (certificate : Certificate) (l : list (list Z)) : list (list Z) :=
  match certificate with
  | [] => l
  | None :: _ => []
  | Some certificateData :: issuer => certificatesDataList issuer (l ++ [certificateData])
  end.

Definition encode_CertificateInfo (c : CertificateInfo) (e : Encoder) : res Encoder :=
  match certificate c with
  | None => encode (UInt (n := 4) 0) e
  | Some certificate =>
      let l := certificatesDataList certificate [] in
      e ← encode (UInt (n := 4) (u32 (zlen l))) e;
      match l with
      | [] => Ok e
      | _ => e ← encode_elements (DataRef <$> rev l) e; encode (UInt (n := 4) (u32 (tlsErrors c))) e
      end
  end.

Fixpoint decode_chain (chainLength : nat) (certificate : option Certificate) : M (option Certificate) :=
  match chainLength with
  | O => ret certificate
  | S chainLength =>
      bind (decode : M DataReference) (fun '(DataRef data) =>
      decode_chain chainLength (if accepts data certificate then Some (Some data :: default [] certificate) else None))
  end.

Definition decode_CertificateInfo : M CertificateInfo :=
  bind (decode : M (uint 4)) (fun '(UInt chainLength) =>
  if chainLength =? 0 then ret CertificateInfo_new
  else bind (decode_chain (Z.to_nat chainLength) None) (fun certificate =>
       bind (decode : M (uint 4)) (fun '(UInt errors) => ret (mkCertificateInfo certificate errors)))).
#[global] Instance CertificateInfo_coder : ArgumentCoder CertificateInfo := { encode := encode_CertificateInfo; decode := decode_CertificateInfo }.
End certificates.

(** ** URLs *)

(** The text of a URL and the parser without a base. *)
Class UrlText `{Platform} := { url_text : URL -> WString; parse_url : WString -> URL }.

Section url.
Context `{UrlText}.
Definition encode_URL (url : URL) : Encoder -> res Encoder := encode (url_text url).
Definition decode_URL : M URL := bind decode (fun string => ret (parse_url string)).
#[global] Instance URL_coder : ArgumentCoder URL := { encode := encode_URL; decode := decode_URL }.
End url.

(** ** Responses *)

Section responses.
Context `{Platform} `{!UrlText} `{GTls}.

(** What a response keeps of the headers it has parsed. *)
Record Parsed := mkParsed {
  pr_age : Cached Time.double; pr_date : Cached Time.double; pr_expires : Cached Time.double; pr_lastModified : Cached Time.double;
  pr_contentRange : Cached Range.ParsedContentRange; pr_cacheControlDirectives : Cached CacheControlDirectives }.
Definition Parsed_new : Parsed :=
  mkParsed (mkCached false Time.nan) (mkCached false Time.nan) (mkCached false Time.nan) (mkCached false Time.nan)
    (mkCached false Range.ParsedContentRange_new) (mkCached false CacheControlDirectives_new).

(** The members of a response: those that are sent in the order of the message, then what was parsed.  ([m_initLevel], which
    nothing uses with libsoup, is left out.) *)
Record ResponseRep := mkResponseRep {
  p_isNull : bool; p_url : URL; p_mimeType : WString; p_expectedContentLength : sint 8; p_textEncodingName : WString;
  p_httpStatusText : WString; p_httpVersion : WString; p_httpHeaderFields : HeaderMapRep; p_networkLoadMetrics : Box NetworkLoadMetrics;
  p_httpStatusCode : sint 2; p_certificateInfo : option CertificateInfo; p_source : Source; p_type : Type_; p_tainting : Tainting;
  p_isRedirected : bool; p_usedLegacyTLS : bool; p_isRangeRequested : bool; p_parsed : Parsed }.

Definition ResponseRep_new : ResponseRep :=
  mkResponseRep true emptyURL SNull (SInt 0) SNull SNull SNull (mkHeaderMapRep [] []) BoxNull (SInt 0) None SourceUnknown TypeDefault TaintBasic false false false Parsed_new.

Definition encode_base (r : ResponseRep) (e : Encoder) : res Encoder :=
  e ← encode (p_isNull r) e;
  if p_isNull r then Ok e else
  e ← encode (p_url r) e; e ← encode (p_mimeType r) e; e ← encode (p_expectedContentLength r) e; e ← encode (p_textEncodingName r) e;
  e ← encode (p_httpStatusText r) e; e ← encode (p_httpVersion r) e; e ← encode (p_httpHeaderFields r) e;
  e ← encode (p_networkLoadMetrics r) e;
  e ← encode (p_httpStatusCode r) e; e ← encode (p_certificateInfo r) e; e ← encode (p_source r) e; e ← encode (p_type r) e;
  e ← encode (p_tainting r) e; e ← encode (p_isRedirected r) e; e ← encode (p_usedLegacyTLS r) e; encode (p_isRangeRequested r) e.

(** An enumeration over [bool] is read like a [bool]: both values are valid. *)
Definition decode_base : M ResponseRep :=
  bind decode (fun isNull : bool => if isNull then ret ResponseRep_new else
  bind decode (fun url => bind decode (fun mimeType => bind decode (fun expected => bind decode (fun encoding =>
  bind decode (fun statusText => bind decode (fun version => bind decode (fun headers => bind decode (fun metrics =>
  bind decode (fun statusCode => bind decode (fun certificateInfo => bind decode (fun source => bind decode (fun type =>
  bind decode (fun tainting => bind decode (fun isRedirected => bind decode (fun usedLegacyTLS => bind decode (fun isRangeRequested =>
  ret (mkResponseRep false url mimeType expected encoding statusText version headers metrics statusCode certificateInfo source type
    tainting isRedirected usedLegacyTLS isRangeRequested Parsed_new)))))))))))))))))).

(** With the members of libsoup, of which only the flags are sent. *)
Record SoupResponse := mkSoupResponse {
  base : ResponseRep; m_soupFlags : Z; m_sniffedContentType : WString; m_certificate : option Certificate; m_tlsErrors : Z }.

Definition encode_response (r : SoupResponse) (e : Encoder) : res Encoder :=
  e ← encode_base (base r) e; encode (UInt (n := 8) (wrap 64 (m_soupFlags r))) e.
(** The enumeration has 32 bits.  The response that is decoded into is a new one. *)
Definition decode_response : M SoupResponse :=
  bind decode_base (fun r => bind (decode : M (uint 8)) (fun '(UInt soupFlags) => ret (mkSoupResponse r (u32 soupFlags) SNull None 0))).
#[global] Instance ResourceResponse_coder : ArgumentCoder SoupResponse := { encode := encode_response; decode := decode_response }.

(** The response of [HttpResponse]. *)
Definition response_of (r : ResponseRep) : ResourceResponse :=
  mkResponse (p_url r) (text (p_mimeType r)) (sint_val (p_expectedContentLength r)) (text (p_textEncodingName r))
    (text (p_httpStatusText r)) (text (p_httpVersion r)) (map_of (p_httpHeaderFields r))
    (pr_age (p_parsed r)) (pr_date (p_parsed r)) (pr_expires (p_parsed r)) (pr_lastModified (p_parsed r))
    (pr_contentRange (p_parsed r)) (pr_cacheControlDirectives (p_parsed r))
    (p_isRedirected r) (p_isRangeRequested r) (p_isNull r) (p_tainting r) (p_source r) (p_type r) (sint_val (p_httpStatusCode r)).
End responses.

(** ** Laws *)

(** The fields of a record, one after the other. *)
Ltac enc_fields := repeat (apply enc_seq; [by apply encode_wire|]); first [by apply encode_wire | apply enc_nil].
Ltac bytes_fields := repeat (apply bytes_wseq; intros; [by apply wire_bytes|]); by apply wire_bytes.
Ltac dec_fields := repeat (eapply dec_bind; [by apply decode_wire|]); by first [apply dec_map, decode_wire | apply dec_ret].

Ltac split_fields H := rewrite !Forall_cons in H; destruct_and! H.

#[global] Program Instance sint_lawful n `{!ArithSize n} : LawfulCoder (sint n) := {
  encodable x := - 2 ^ (8 * Z.of_nat n - 1) <= sint_val x < 2 ^ (8 * Z.of_nat n - 1);
  wire x := aligned (Z.of_nat n) (le_split n (wrap (8 * Z.of_nat n) (sint_val x)))
}.
Next Obligation. intros n Hn [v] Hv. by apply enc_arith. Qed.
Next Obligation. intros n Hn [v] pos _. apply bytes_aligned, le_split_bytes. Qed.
Next Obligation.
  intros n Hn [v] Hv. cbn [sint_val] in *. set (w := 8 * Z.of_nat n) in *.
  assert (Hw : 0 < w) by (unfold w; destruct Hn as [?|[?|[?|?]]]; lia).
  assert (E : 2 ^ w = 2 * 2 ^ (w - 1)) by (rewrite <- Z.pow_succ_r by lia; f_equal; lia).
  assert (S : swrap w (wrap w v) = v).
  { unfold swrap, wrap. rewrite Z.add_mod_idemp_l, Z.mod_small by lia. lia. }
  rewrite <- S at 1. unfold decode; cbn [sint_coder]. unfold decode_sint. fold w. apply (dec_map (fun v => SInt (swrap w v))), dec_arith; [done|].
  unfold wrap. replace (256 ^ Z.of_nat n) with (2 ^ w); [apply Z.mod_pos_bound; lia|].
  unfold w. rewrite Z.pow_mul_r by lia. done.
Qed.

(** The values are listed once, with different bytes. *)
Class ByteEnum (E : Type) `{EnumTraits E} :=
  byte_enum : forall e, 0 <= underlying e < 256 /\ List.find (fun x => underlying x =? underlying e) values = Some e.
#[global] Instance Type_byte : ByteEnum Type_. Proof. by intros []. Qed.
#[global] Instance Tainting_byte : ByteEnum Tainting. Proof. by intros []. Qed.
#[global] Instance Source_byte : ByteEnum Source. Proof. by intros []. Qed.
#[global] Instance Priority_byte : ByteEnum NetworkLoadPriority. Proof. by intros []. Qed.

Section enumeration_laws.
Context {E : Type} `{ByteEnum E}.

Lemma valid_value (e : E) : isValidEnum (underlying e) = true.
Proof. unfold isValidEnum. destruct (byte_enum e) as [_ F]. apply List.find_some in F as [F _]. apply existsb_exists. exists e. split; [done|]. apply Z.eqb_refl. Qed.

#[global] Program Instance byte_enum_lawful : LawfulCoder E := {
  encodable _ := True;
  wire e := aligned 1 (le_split 1 (underlying e))
}.
Next Obligation. intros e _. apply (enc_arith 1), arith_1. Qed.
Next Obligation. intros e pos _. apply bytes_aligned, le_split_bytes. Qed.
Next Obligation.
  intros e _. destruct (byte_enum e) as [Hr Hf]. unfold decode; cbn [byte_enum_coder]. unfold decode_byte_enum.
  eapply dec_ok_ext; [eapply (dec_bind _ _ (underlying e) _ _ wnil)|intros; apply app_nil_r].
  - unfold decode_enum. eapply dec_ok_ext; [eapply (dec_bind _ _ (underlying e) _ _ wnil)|intros; apply app_nil_r].
    + apply (dec_arith 1); [apply arith_1 | done].
    + rewrite valid_value. apply dec_ret.
  - rewrite Hf. apply dec_ret.
Qed.
End enumeration_laws.

(** Strings and headers within the limits of their coders, and numbers of 64 bits. *)
Definition encodable_metrics (m : NetworkLoadMetrics) : Prop :=
  Forall encodable [fetchStart m; domainLookupStart m; domainLookupEnd m; connectStart m; secureConnectionStart m; connectEnd m;
    requestStart m; responseStart m; responseEnd m; requestHeaderBytesSent m; requestBodyBytesSent m; responseHeaderBytesReceived m;
    responseBodyBytesReceived m; responseBodyDecodedSize m] /\
  Forall encodable [protocol m; remoteAddress m; connectionIdentifier m; tlsProtocol m; tlsCipher m] /\ encodable (requestHeaders m).

#[global] Program Instance metrics_lawful : LawfulCoder NetworkLoadMetrics := {
  encodable := encodable_metrics;
  wire m := wseq (wire (fetchStart m)) (wseq (wire (domainLookupStart m)) (wseq (wire (domainLookupEnd m)) (wseq (wire (connectStart m))
    (wseq (wire (secureConnectionStart m)) (wseq (wire (connectEnd m)) (wseq (wire (requestStart m)) (wseq (wire (responseStart m))
    (wseq (wire (responseEnd m)) (wseq (wire (complete m)) (wseq (wire (cellular m)) (wseq (wire (expensive m)) (wseq (wire (constrained m))
    (wseq (wire (multipath m)) (wseq (wire (isReusedConnection m)) (wseq (wire (protocol m)) (wseq (wire (remoteAddress m))
    (wseq (wire (connectionIdentifier m)) (wseq (wire (tlsProtocol m)) (wseq (wire (tlsCipher m)) (wseq (wire (priority m))
    (wseq (wire (requestHeaders m)) (wseq (wire (requestHeaderBytesSent m)) (wseq (wire (requestBodyBytesSent m))
    (wseq (wire (responseHeaderBytesReceived m)) (wseq (wire (responseBodyBytesReceived m)) (wire (responseBodyDecodedSize m)))))))))))))))))))))))))))
}.
Next Obligation. intros m (Hn & Hs & Hh). split_fields Hn; split_fields Hs. unfold encode; cbn [metrics_coder]. unfold encode_metrics. enc_fields. Qed.
Next Obligation. intros m pos (Hn & Hs & Hh). split_fields Hn; split_fields Hs. bytes_fields. Qed.
Next Obligation. intros m (Hn & Hs & Hh). split_fields Hn; split_fields Hs. destruct m. unfold decode; cbn [metrics_coder]. unfold decode_metrics. dec_fields. Qed.

(** *** Certificates *)

Section certificate_laws.
Context `{GTls}.

Definition chain_of (l : list (list Z)) : option Certificate := match l with [] => None | _ => Some (Some <$> l) end.

(** Every part of the chain is data that the library accepts with the part after it as the issuer. *)
Fixpoint accepted (l : list (list Z)) : Prop :=
  match l with [] => True | data :: issuer => encodable (DataRef data) /\ accepts data (chain_of issuer) = true /\ accepted issuer end.

(** The errors of an absent certificate are not sent. *)
Definition encodable_CertificateInfo (c : CertificateInfo) : Prop :=
  match certificate c with
  | None => tlsErrors c = 0
  | Some certificate => exists l, l <> [] /\ certificate = Some <$> l /\ zlen l < 2 ^ 32 /\ accepted l /\ 0 <= tlsErrors c < 2 ^ 32
  end.

Definition wire_CertificateInfo (c : CertificateInfo) : Z -> list Z :=
  match certificate c with
  | None => wire (UInt (n := 4) 0)
  | Some certificate =>
      let l := certificatesDataList certificate [] in
      wseq (wire (UInt (n := 4) (zlen l))) (wseq (wire_elements (DataRef <$> rev l)) (wire (UInt (n := 4) (tlsErrors c))))
  end.

Lemma data_list l acc : certificatesDataList (Some <$> l) acc = acc ++ l.
Proof. revert acc; induction l as [|x l IH]; intros acc; cbn; [by rewrite app_nil_r|]. by rewrite IH, <- app_assoc. Qed.

Lemma accepted_encodable l : accepted l -> Forall encodable (DataRef <$> rev l).
Proof.
  intros A. apply Forall_fmap, Forall_rev. induction l as [|x l IH]; [constructor|]. destruct A as (Hx & _ & A). by constructor; [|apply IH].
Qed.

Lemma accepted_app l1 l2 : accepted (l1 ++ l2) -> accepted l2.
Proof. induction l1 as [|x l1 IH]; [done|]. intros (_ & _ & A). by apply IH. Qed.

Lemma dec_chain l issuer : accepted (rev l ++ issuer) ->
  dec_ok (decode_chain (List.length l) (chain_of issuer)) (chain_of (rev l ++ issuer)) (wire_elements (DataRef <$> l)).
Proof.
  revert issuer; induction l as [|x l IH]; intros issuer A; cbn [List.length decode_chain]; [apply dec_ret|].
  cbn [rev] in A |- *. rewrite <- app_assoc in A |- *. destruct (accepted_app _ _ A) as (Hx & Hc & _).
  apply (dec_bind _ _ (DataRef x)); [by apply decode_wire|]. cbn beta iota. rewrite Hc.
  replace (Some (Some x :: default [] (chain_of issuer))) with (chain_of (x :: issuer)) by (by destruct issuer).
  by apply (IH (x :: issuer)).
Qed.

#[global] Program Instance CertificateInfo_lawful : LawfulCoder CertificateInfo := {
  encodable := encodable_CertificateInfo; wire := wire_CertificateInfo
}.
Next Obligation.
  intros [[c|] t] Hc; unfold encode; cbn [CertificateInfo_coder]; unfold encode_CertificateInfo, wire_CertificateInfo; cbn [certificate tlsErrors].
  - destruct Hc as (l & N & -> & Sz & A & Ht). rewrite data_list. cbn [app]. pose proof (zlen_nonneg l). cbn [tlsErrors] in Ht.
    rewrite !wrap_small by (unfold in_range; lia). destruct l as [|x l]; [done|].
    apply enc_seq; [apply encode_wire; cbn; lia|]. apply enc_seq; [by apply enc_elements, accepted_encodable|]. apply encode_wire. cbn. lia.
  - apply (encode_wire (UInt (n := 4) 0)). cbn. lia.
Qed.
Next Obligation.
  intros [[c|] t] pos Hc; unfold wire_CertificateInfo; cbn [certificate tlsErrors]; [|apply wire_bytes; cbn; lia].
  destruct Hc as (l & N & -> & Sz & A & Ht). rewrite data_list. cbn [app]. pose proof (zlen_nonneg l). cbn [tlsErrors] in Ht.
  apply bytes_wseq; intros; [apply wire_bytes; cbn; lia|]. apply bytes_wseq; intros; [by apply bytes_elements, accepted_encodable|].
  apply wire_bytes. cbn. lia.
Qed.
Next Obligation.
  intros [[c|] t] Hc; unfold decode; cbn [CertificateInfo_coder]; unfold decode_CertificateInfo, wire_CertificateInfo; cbn [certificate tlsErrors].
  - destruct Hc as (l & N & -> & Sz & A & Ht). rewrite data_list. cbn [app]. pose proof (zlen_nonneg l). cbn [tlsErrors] in Ht.
    apply (dec_bind _ _ (UInt (zlen l))); [apply decode_wire; cbn; lia|]. cbn beta iota.
    assert ((zlen l =? 0) = false) as -> by (destruct l; [done|rewrite zlen_cons; pose proof (zlen_nonneg l0); lia]).
    apply (dec_bind _ _ (Some (Some <$> l))).
    + rewrite to_nat_zlen. pose proof (dec_chain (rev l) []) as D. rewrite rev_involutive, app_nil_r, length_rev in D.
      specialize (D A). by destruct l.
    + eapply dec_ok_ext; [eapply (dec_bind _ _ (UInt t) _ _ wnil); [apply decode_wire; cbn; lia|apply dec_ret]|intros; apply app_nil_r].
  - cbn in Hc. subst t. eapply dec_ok_ext; [eapply (dec_bind _ _ (UInt 0) _ _ wnil); [apply decode_wire; cbn; lia|apply dec_ret]|intros; apply app_nil_r].
Qed.
End certificate_laws.

(** *** Responses *)

Section response_laws.
Context `{Platform} `{!UrlText} `{GTls} `{Dtoa} `{ICU}.

(** A URL is sent by its text, and is the one that the parser makes of it. *)
#[global] Program Instance URL_lawful : LawfulCoder URL := {
  encodable u := encodable (url_text u) /\ parse_url (url_text u) = u;
  wire u := wire (url_text u)
}.
Next Obligation. intros u [Hu _]. by apply (encode_wire (url_text u)). Qed.
Next Obligation. intros u pos [Hu _]. by apply wire_bytes. Qed.
Next Obligation. intros u [Hu E]. rewrite <- E at 1. by apply dec_map, decode_wire. Qed.

(** The responses that are received: nothing is parsed, and a null response has the members of a new one. *)
Definition encodable_base (r : ResponseRep) : Prop :=
  if p_isNull r then r = ResponseRep_new else p_parsed r = Parsed_new /\
  encodable (p_url r) /\ Forall encodable [p_mimeType r; p_textEncodingName r; p_httpStatusText r; p_httpVersion r] /\
  encodable (p_expectedContentLength r) /\ encodable (p_httpHeaderFields r) /\ encodable (p_networkLoadMetrics r) /\
  encodable (p_httpStatusCode r) /\ encodable (p_certificateInfo r).

Definition wire_base (r : ResponseRep) : Z -> list Z :=
  wseq (wire (p_isNull r)) (if p_isNull r then wnil else
    wseq (wire (p_url r)) (wseq (wire (p_mimeType r)) (wseq (wire (p_expectedContentLength r)) (wseq (wire (p_textEncodingName r))
    (wseq (wire (p_httpStatusText r)) (wseq (wire (p_httpVersion r)) (wseq (wire (p_httpHeaderFields r)) (wseq (wire (p_networkLoadMetrics r))
    (wseq (wire (p_httpStatusCode r)) (wseq (wire (p_certificateInfo r)) (wseq (wire (p_source r)) (wseq (wire (p_type r))
    (wseq (wire (p_tainting r)) (wseq (wire (p_isRedirected r)) (wseq (wire (p_usedLegacyTLS r)) (wire (p_isRangeRequested r))))))))))))))))).

Lemma enc_base r : encodable_base r -> enc_ok (encode_base r) (wire_base r).
Proof.
  unfold encodable_base, wire_base, encode_base. intros Hr. apply enc_seq; [by apply encode_wire|]. destruct (p_isNull r); [apply enc_nil|].
  destruct Hr as (Hp & Hu & Hs & He & Hh & Hm & Hc & Hi). split_fields Hs. enc_fields.
Qed.

Lemma bytes_base r pos : encodable_base r -> Forall (in_range 8) (wire_base r pos).
Proof.
  unfold encodable_base, wire_base. intros Hr. apply bytes_wseq; intros; [by apply wire_bytes|]. destruct (p_isNull r); [constructor|].
  destruct Hr as (Hp & Hu & Hs & He & Hh & Hm & Hc & Hi). split_fields Hs. bytes_fields.
Qed.

Lemma dec_base r : encodable_base r -> dec_ok decode_base r (wire_base r).
Proof.
  destruct r as [isNull]. unfold encodable_base, wire_base, decode_base. cbn [p_isNull].
  intros Hr. apply (dec_bind _ _ isNull); [by apply decode_wire|]. destruct isNull; [rewrite Hr; apply dec_ret|].
  destruct Hr as (Hp & Hu & Hs & He & Hh & Hm & Hc & Hi). cbn [p_parsed] in Hp. subst. split_fields Hs.
  do 15 (eapply dec_bind; [by apply decode_wire|]).
  apply (dec_map (fun x => mkResponseRep _ _ _ _ _ _ _ _ _ _ _ _ _ _ _ _ x Parsed_new)). by apply decode_wire.
Qed.

#[global] Program Instance ResourceResponse_lawful : LawfulCoder SoupResponse := {
  encodable r := encodable_base (base r) /\ 0 <= m_soupFlags r < 2 ^ 32 /\ m_sniffedContentType r = SNull /\ m_certificate r = None /\ m_tlsErrors r = 0;
  wire r := wseq (wire_base (base r)) (wire (UInt (n := 8) (m_soupFlags r)))
}.
Next Obligation.
  intros r (Hr & Hf & _). unfold encode; cbn [ResourceResponse_coder]. unfold encode_response.
  rewrite wrap_small by lia. apply enc_seq; [by apply enc_base|]. apply encode_wire. cbn. lia.
Qed.
Next Obligation. intros r pos (Hr & Hf & _). apply bytes_wseq; intros; [by apply bytes_base|]. apply wire_bytes. cbn. lia. Qed.
Next Obligation.
  intros [r f sniffed cert errors] (Hr & Hf & Hs & Hc & He). cbn [base m_soupFlags m_sniffedContentType m_certificate m_tlsErrors] in *. subst.
  unfold decode; cbn [ResourceResponse_coder]. unfold decode_response.
  apply (dec_bind _ _ r); [by apply dec_base|]. rewrite <- (wrap_small 32 f) at 1 by lia.
  eapply dec_ok_ext; [eapply (dec_bind _ _ (UInt f) _ _ wnil); [apply decode_wire; cbn; lia|apply dec_ret]|intros; apply app_nil_r].
Qed.

(** What arrives of a response: not what was parsed, nor the sniffed type and the certificate and errors of the soup message;
    of a null response only the flags. *)
Definition received (r : SoupResponse) : SoupResponse :=
  let b := base r in
  mkSoupResponse
    (if p_isNull b then ResponseRep_new else
     mkResponseRep false (p_url b) (p_mimeType b) (p_expectedContentLength b) (p_textEncodingName b) (p_httpStatusText b) (p_httpVersion b)
       (p_httpHeaderFields b) (p_networkLoadMetrics b) (p_httpStatusCode b) (p_certificateInfo b) (p_source b) (p_type b) (p_tainting b)
       (p_isRedirected b) (p_usedLegacyTLS b) (p_isRangeRequested b) Parsed_new)
    (m_soupFlags r) SNull None 0.

Lemma encode_received r e : encode (received r) e = encode r e.
Proof.
  destruct r as [b f s c t]. unfold encode; cbn [ResourceResponse_coder]. unfold encode_response, encode_base, received. cbn [base m_soupFlags].
  destruct b as [isNull]; cbn [p_isNull]. by destruct isNull.
Qed.

End response_laws.

#[local] Instance plain_urls : @UrlText plain_platform := {| url_text (u : @URL plain_platform) := S8 u; parse_url s := chars (text s) : @URL plain_platform |}.
#[local] Instance any_certificate : GTls := {| accepts _ _ := true |}.

Definition sample_metrics : NetworkLoadMetrics :=
  mkMetrics (UInt 0) (UInt 1) (UInt 2) (UInt 3) (UInt 4) (UInt 5) (UInt 6) (UInt 7) (UInt 8) true false false false false true
    (S8 (lit "h2")) (S8 (lit "::1")) SNull (S8 (lit "TLS 1.3")) SNull PriorityHigh sample_rep (UInt 100) (UInt 0) (UInt 200) (UInt 300) (UInt 400).

Definition sample_response : @SoupResponse plain_platform :=
  mkSoupResponse (mkResponseRep false (lit "http://a/" : @URL plain_platform) (S8 (lit "text/html")) (SInt (-1)) SNull (S8 (lit "OK")) (S8 (lit "HTTP/1.1"))
    sample_rep (BoxOf sample_metrics) (SInt 200) (Some (mkCertificateInfo (Some [Some [1; 2]; Some [3]]) 4)) SourceNetwork TypeCors TaintCors true false false
      (mkParsed (mkCached true (Time.of_int 3)) (mkCached false Time.nan) (mkCached false Time.nan) (mkCached false Time.nan)
        (mkCached false Range.ParsedContentRange_new) (mkCached false CacheControlDirectives_new)))
    7 (S8 (lit "text/plain")) (Some [Some [9]]) 2.

Lemma sample_response_encodable : encodable (received sample_response).
Proof.
  pose proof sample_rep_encodable as Hs.
  assert (Hc : encodable (Some (mkCertificateInfo (Some [Some [1; 2]; Some [3]]) 4))).
  { exists [[1; 2]; [3]]. split_and!; [done|done|done| |cbn; lia|cbn; lia].
    cbn. unfold encodable_DataReference. rewrite !Forall_cons, !Forall_nil. unfold in_range, zlen. cbn. split_and!; (done || lia). }
  split; [|cbn; split_and!; (done || lia)]. split_and!; try exact Hs; try exact Hc; try reflexivity;
    repeat first [exact Hs | split | constructor]; cbn; try done; unfold in_range, maxInternalLength, UINT32_MAX, INT_MAX; cbn; try lia.
Qed.

Definition sample_headers : gmap String String := <[header_key H_Host := Some (lit "a.b")]> {[name_key (Some (lit "X-A")) := None]}.

Lemma sample_headers_rep : rep (map_of sample_rep) sample_headers.
Proof.
  exists {[header_key H_Host := Some (lit "a.b")]}, {[name_key (Some (lit "X-A")) := None]}. split; [by rewrite <- insert_union_singleton_l|].
  split; unfold holds; cbn [map_of m_commonHeaders m_uncommonHeaders]; rewrite ?map_to_list_singleton; [done|done| |].
  - intros k [v [<- _]%lookup_singleton_Some]. by exists H_Host.
  - intros h. rewrite lookup_singleton_ne; [done|]. by destruct h.
Qed.

End ResponseCoders.
