(* ===== verification/WtfDouble.v ===== *)
(** * Integers as doubles

    Arithmetic on [double]s that hold integers is exact as long as the results have at
    most 53 bits: sums, differences, products and comparisons of [Time.of_int] are those of
    the integers.  The proofs follow the rounding of [SpecFloat] step by step. *)
From Stdlib Require SpecFloat.
From stdpp Require Import list.
From S2P Require Import Prelude HttpCache.

Local Open Scope cf.

Module Double.
Import Stdlib.Floats.SpecFloat.

(** [floor]: the greatest integer that is not greater. *)
Definition floor (x : Time.double) : Time.double :=
  match x with
  | S754_finite s m e => if 0 <=? e then x else Time.of_int (cond_Zopp s (Zpos m) / 2 ^ (- e))
  | _ => x
  end.

(** ** Numbers of bits *)

Definition bits (n : Z) : Z := Z.log2 n + 1.

Lemma digits_bits p : Zdigits2 (Zpos p) = bits (Zpos p).
Proof.
  unfold bits, Zdigits2. assert (E : digits2_pos p = Pos.size p) by (induction p as [p IH|p IH|]; cbn; rewrite ?IH; done).
  rewrite E. destruct p as [p|p|]; cbn; lia.
Qed.

Lemma bits_shift n k : 0 < n -> 0 <= k -> bits (n * 2 ^ k) = bits n + k.
Proof. intros. unfold bits. rewrite Z.log2_mul_pow2 by lia. lia. Qed.

Lemma bits_small n : 0 < n < 2 ^ 53 -> 1 <= bits n <= 53.
Proof.
  intros H. unfold bits. pose proof (Z.log2_nonneg n). pose proof (proj1 (Z.log2_lt_pow2 n 53 ltac:(lia)) ltac:(lia)). lia.
Qed.

(** The form of the integer [n]: a mantissa of 53 bits. *)
Definition mantissa (n : Z) : Z := n * 2 ^ (53 - bits n).
Definition exact (s : bool) (n : Z) : spec_float := S754_finite s (Z.to_pos (mantissa n)) (bits n - 53).

Lemma mantissa_pos n : 0 < n < 2 ^ 53 -> 0 < mantissa n.
Proof. intros H. pose proof (bits_small n H). unfold mantissa. apply Z.mul_pos_pos; [lia|]. apply Z.pow_pos_nonneg; lia. Qed.

Lemma mantissa_bits n : 0 < n < 2 ^ 53 -> bits (mantissa n) = 53.
Proof. intros H. pose proof (bits_small n H). unfold mantissa. rewrite bits_shift by lia. lia. Qed.

(** ** Rounding what needs no rounding *)

Lemma iter_pos_nat {A} (f : A -> A) p x : iter_pos f p x = Nat.iter (Pos.to_nat p) f x.
Proof.
  revert x; induction p as [p IH|p IH|]; intros x; cbn [iter_pos]; [| |done].
  - rewrite !IH, Pos2Nat.inj_xI, <- Nat.iter_add, <- Nat.iter_succ_r. f_equal. lia.
  - rewrite !IH, Pos2Nat.inj_xO, <- Nat.iter_add. f_equal. lia.
Qed.

Lemma shr_1_even m : 0 < m -> shr_1 (Build_shr_record (m * 2) false false) = Build_shr_record m false false.
Proof. intros. destruct m as [|p|p]; [lia| |lia]. rewrite Z.mul_comm. done. Qed.

Lemma shr_exact m k : 0 < m -> Nat.iter k shr_1 (Build_shr_record (m * 2 ^ Z.of_nat k) false false) = Build_shr_record m false false.
Proof.
  intros Hm. induction k as [|k IH]; [by rewrite Z.mul_1_r|].
  rewrite Nat.iter_succ_r, Nat2Z.inj_succ, Z.pow_succ_r by lia.
  replace (m * (2 * 2 ^ Z.of_nat k)) with (m * 2 ^ Z.of_nat k * 2) by lia.
  rewrite shr_1_even; [done|]. apply Z.mul_pos_pos; [done|]. apply Z.pow_pos_nonneg; lia.
Qed.

(** A mantissa with enough bits, the lowest of which are zero. *)
Lemma shr_fexp_exact m k e : 0 < m -> bits m = 53 -> 0 <= k -> -1074 <= e + k ->
  shr_fexp 53 1024 (m * 2 ^ k) e loc_Exact = (Build_shr_record m false false, e + k).
Proof.
  intros Hm Hb Hk He. unfold shr_fexp. assert (P : 0 < m * 2 ^ k) by (apply Z.mul_pos_pos; [done|]; apply Z.pow_pos_nonneg; lia).
  assert (D : Zdigits2 (m * 2 ^ k) = 53 + k).
  { destruct (m * 2 ^ k) as [|p|p] eqn:E; [lia| |lia]. rewrite digits_bits, <- E, bits_shift by lia. lia. }
  rewrite D. unfold fexp, emin. replace (Z.max (53 + k + e - 53) (3 - 1024 - 53) - e) with k by lia.
  cbn [shr_record_of_loc]. destruct k as [|p|p]; [by rewrite Z.mul_1_r, Z.add_0_r| |lia].
  cbn [shr]. rewrite iter_pos_nat. f_equal. rewrite <- (positive_nat_Z p) at 1. by apply shr_exact.
Qed.

Lemma round_aux_exact s n t : 0 < n < 2 ^ 53 -> 53 <= bits n + t -> 0 <= t ->
  binary_round_aux 53 1024 s (n * 2 ^ t) (- t) loc_Exact = exact s n.
Proof.
  intros Hn Hb Ht. pose proof (bits_small n Hn). pose proof (mantissa_pos n Hn). pose proof (mantissa_bits n Hn).
  unfold binary_round_aux. replace (n * 2 ^ t) with (mantissa n * 2 ^ (bits n + t - 53)).
  2: { unfold mantissa. rewrite <- Z.mul_assoc, <- Z.pow_add_r by lia. do 2 f_equal. lia. }
  rewrite shr_fexp_exact by lia. cbn [shr_m loc_of_shr_record round_nearest_even].
  rewrite <- (Z.mul_1_r (mantissa n)) at 1. change 1 with (2 ^ 0) at 1. rewrite shr_fexp_exact by lia. cbn [shr_m].
  unfold exact. destruct (mantissa n) as [|p|p] eqn:E; [lia| |lia].
  rewrite (proj2 (Z.leb_le _ _)) by lia. cbn [Z.to_pos]. f_equal. lia.
Qed.

Lemma shl_align_shift m e e' : e' <= e -> Zpos (fst (shl_align m e e')) = Zpos m * 2 ^ (e - e') /\ snd (shl_align m e e') = e'.
Proof.
  intros L. unfold shl_align. destruct (e' - e) as [|d|d] eqn:E; [|lia|].
  - cbn. replace (e - e') with 0 by lia. split; lia.
  - cbn [fst snd]. replace (e - e') with (Zpos d) by lia. split; [|done].
    rewrite <- Z.shiftl_mul_pow2 by lia. cbn [Z.shiftl]. rewrite (Pos.iter_swap_gen _ _ Zpos xO (Z.mul 2)); done.
Qed.

Lemma round_exact s n t m : 0 < n < 2 ^ 53 -> 0 <= t -> Zpos m = n * 2 ^ t -> binary_round 53 1024 s m (- t) = exact s n.
Proof.
  intros Hn Ht Hm. pose proof (bits_small n Hn). unfold binary_round.
  assert (D : Zpos (digits2_pos m) = bits n + t) by (change (Zdigits2 (Zpos m) = bits n + t); rewrite digits_bits, Hm, bits_shift by lia; lia).
  rewrite D. unfold fexp, emin. replace (Z.max (bits n + t + - t - 53) (3 - 1024 - 53)) with (bits n - 53) by lia.
  destruct (Z.le_gt_cases (- t) (bits n - 53)) as [L|L].
  - assert (E : shl_align m (- t) (bits n - 53) = (m, - t)) by (unfold shl_align; destruct (bits n - 53 - - t) eqn:X; (done || lia)).
    rewrite E, Hm. apply round_aux_exact; lia.
  - destruct (shl_align_shift m (- t) (bits n - 53)) as [F S]; [lia|]. destruct (shl_align m (- t) (bits n - 53)) as [mz ez]. cbn [fst snd] in *. subst ez.
    rewrite F, Hm. replace (n * 2 ^ t * 2 ^ (- t - (bits n - 53))) with (n * 2 ^ (53 - bits n)).
    + replace (bits n - 53) with (- (53 - bits n)) by lia. apply round_aux_exact; lia.
    + rewrite <- Z.mul_assoc, <- Z.pow_add_r by lia. do 2 f_equal. lia.
Qed.

(** An integer at any exponent. *)
Lemma normalize_exact n t : Z.abs n < 2 ^ 53 -> 0 <= t -> binary_normalize 53 1024 (n * 2 ^ t) (- t) false = Time.of_int n.
Proof.
  intros Hn Ht. assert (Hp : 0 < 2 ^ t) by (apply Z.pow_pos_nonneg; lia).
  assert (P : forall k m, 0 < k < 2 ^ 53 -> Zpos m = k * 2 ^ t -> forall s, binary_round 53 1024 s m (- t) = binary_round 53 1024 s (Z.to_pos k) 0).
  { intros k m Hk Hm s. rewrite (round_exact s k t m Hk Ht Hm). symmetry. apply (round_exact s k 0); [done|lia|]. rewrite Z2Pos.id by lia. lia. }
  unfold Time.of_int, binary_normalize. destruct n as [|p|p].
  - done.
  - destruct (Zpos p * 2 ^ t) as [|m|m] eqn:E; [lia| |lia]. rewrite (P (Zpos p)); [done|lia|done].
  - destruct (Zneg p * 2 ^ t) as [|m|m] eqn:E; [lia|lia|]. rewrite (P (Zpos p)); [done|lia|lia].
Qed.

Lemma of_int_pos n : 0 < n < 2 ^ 53 -> Time.of_int n = exact false n.
Proof. intros Hn. destruct n as [|p|p]; [lia| |lia]. apply (round_exact false (Zpos p) 0); [done|lia|]. lia. Qed.

Lemma of_int_neg n : 0 < n < 2 ^ 53 -> Time.of_int (- n) = exact true n.
Proof. intros Hn. destruct n as [|p|p]; [lia| |lia]. apply (round_exact true (Zpos p) 0); [done|lia|]. lia. Qed.

(** The three forms of an integer. *)
Lemma of_int_cases n : Z.abs n < 2 ^ 53 ->
  (n = 0 /\ Time.of_int n = S754_zero false) \/
  (exists s k, 0 < k < 2 ^ 53 /\ n = cond_Zopp s k /\ Time.of_int n = exact s k).
Proof.
  intros Hn. destruct (Z.lt_trichotomy n 0) as [L|[->|L]]; [right|by left|right].
  - exists true, (- n). split; [lia|]. split; [cbn; lia|]. rewrite <- of_int_neg by lia. f_equal. lia.
  - exists false, n. split; [lia|]. split; [done|]. apply of_int_pos. lia.
Qed.

(** ** Sums, differences and products *)

Lemma aligned_value s k e : 0 < k < 2 ^ 53 -> e <= bits k - 53 ->
  cond_Zopp s (Zpos (fst (shl_align (Z.to_pos (mantissa k)) (bits k - 53) e))) = cond_Zopp s k * 2 ^ (- e).
Proof.
  intros Hk He. pose proof (bits_small k Hk). pose proof (mantissa_pos k Hk).
  destruct (shl_align_shift (Z.to_pos (mantissa k)) (bits k - 53) e He) as [-> _]. rewrite Z2Pos.id by done.
  unfold mantissa. rewrite <- Z.mul_assoc, <- Z.pow_add_r by lia. replace (53 - bits k + (bits k - 53 - e)) with (- e) by lia.
  destruct s; cbn [cond_Zopp]; lia.
Qed.

Lemma plus_int a b : Z.abs a < 2 ^ 53 -> Z.abs b < 2 ^ 53 -> Z.abs (a + b) < 2 ^ 53 ->
  Time.plus (Time.of_int a) (Time.of_int b) = Time.of_int (a + b).
Proof.
  intros Ha Hb Hs. destruct (of_int_cases a Ha) as [[-> Ea]|(s & k & Hk & Ek & Ea)].
  { rewrite Ea. cbn [Z.add]. destruct (of_int_cases b Hb) as [[-> Eb]|(s & k & Hk & Ek & Eb)]; by rewrite Eb. }
  destruct (of_int_cases b Hb) as [[-> Eb]|(s' & k' & Hk' & Ek' & Eb)].
  { rewrite Eb, Z.add_0_r, Ea. done. }
  rewrite Ea, Eb. unfold Time.plus, SFadd, exact. pose proof (bits_small k Hk). pose proof (bits_small k' Hk').
  set (ez := Z.min (bits k - 53) (bits k' - 53)). rewrite !aligned_value by lia. rewrite <- Ek, <- Ek', <- Z.mul_add_distr_r.
  replace ez with (- - ez) at 2 by lia. apply normalize_exact; lia.
Qed.

Lemma minus_int a b : Z.abs a < 2 ^ 53 -> Z.abs b < 2 ^ 53 -> Z.abs (a - b) < 2 ^ 53 ->
  Time.minus (Time.of_int a) (Time.of_int b) = Time.of_int (a - b).
Proof.
  intros Ha Hb Hs. destruct (of_int_cases b Hb) as [[-> Eb]|(s' & k' & Hk' & Ek' & Eb)].
  { rewrite Eb, Z.sub_0_r. destruct (of_int_cases a Ha) as [[-> Ea]|(s & k & Hk & Ek & Ea)]; by rewrite Ea. }
  destruct (of_int_cases a Ha) as [[-> Ea]|(s & k & Hk & Ek & Ea)].
  { rewrite Ea, Eb. cbn [Z.sub Z.opp Z.add]. rewrite Ek'. destruct s'; cbn [cond_Zopp negb].
    - rewrite Z.opp_involutive, of_int_pos by done. done.
    - rewrite of_int_neg by done. done. }
  rewrite Ea, Eb. unfold Time.minus, SFsub, exact. pose proof (bits_small k Hk). pose proof (bits_small k' Hk').
  set (ez := Z.min (bits k - 53) (bits k' - 53)). rewrite !aligned_value by lia. rewrite <- Ek, <- Ek', <- Z.mul_sub_distr_r.
  replace ez with (- - ez) at 2 by lia. apply normalize_exact; lia.
Qed.

Lemma times_int a b : Z.abs a < 2 ^ 53 -> 0 < b < 2 ^ 53 -> Z.abs (a * b) < 2 ^ 53 ->
  Time.times (Time.of_int a) (Time.of_int b) = Time.of_int (a * b).
Proof.
  intros Ha Hb Hs. rewrite (of_int_pos b) by done. destruct (of_int_cases a Ha) as [[-> Ea]|(s & k & Hk & Ek & Ea)]; [by rewrite Ea|].
  rewrite Ea. unfold Time.times, SFmul, exact. rewrite xorb_false_r. pose proof (bits_small k Hk). pose proof (bits_small b Hb).
  pose proof (mantissa_pos k Hk). pose proof (mantissa_pos b Hb).
  assert (Hkb : 0 < k * b < 2 ^ 53) by (destruct s; cbn [cond_Zopp] in Ek; subst a; nia).
  rewrite Pos2Z.inj_mul, !Z2Pos.id by done. unfold mantissa.
  replace (k * 2 ^ (53 - bits k) * (b * 2 ^ (53 - bits b))) with (k * b * 2 ^ (53 - bits k + (53 - bits b))) by (rewrite Z.pow_add_r by lia; lia).
  replace (bits k - 53 + (bits b - 53)) with (- (53 - bits k + (53 - bits b))) by lia.
  pose proof (bits_small (k * b) Hkb).
  assert (Hl : Z.log2 k + Z.log2 b <= Z.log2 (k * b)) by (apply Z.log2_mul_below; lia). unfold bits in *.
  rewrite round_aux_exact; unfold bits; [|done|lia|lia].
  destruct s; cbn [cond_Zopp] in Ek; subst a; [rewrite Z.mul_opp_l, of_int_neg by done|rewrite of_int_pos by done]; done.
Qed.

(** The other sign: a positive integer times any. *)
Lemma times_int' b a : 0 < b < 2 ^ 53 -> Z.abs a < 2 ^ 53 -> Z.abs (b * a) < 2 ^ 53 ->
  Time.times (Time.of_int b) (Time.of_int a) = Time.of_int (b * a).
Proof.
  intros Hb Ha Hs. rewrite <- (Z.mul_comm a b) in *. rewrite <- times_int by done. rewrite (of_int_pos b) by done.
  destruct (of_int_cases a Ha) as [[-> Ea]|(s & k & Hk & Ek & Ea)]; rewrite Ea; [done|].
  unfold Time.times, SFmul, exact. rewrite Pos.mul_comm, (Z.add_comm (bits b - 53)), xorb_comm. done.
Qed.

(** ** Comparisons *)

Lemma bits_order a b : 0 < a -> 0 < b -> bits a < bits b -> a < b.
Proof. intros Ha Hb L. unfold bits in L. apply Z.log2_lt_cancel. lia. Qed.

Lemma mantissa_order a b : 0 < a < 2 ^ 53 -> 0 < b < 2 ^ 53 -> bits a = bits b ->
  (Z.to_pos (mantissa a) ?= Z.to_pos (mantissa b))%positive = (a ?= b).
Proof.
  intros Ha Hb E. pose proof (mantissa_pos a Ha). pose proof (mantissa_pos b Hb). pose proof (bits_small a Ha).
  change ((Z.to_pos (mantissa a) ?= Z.to_pos (mantissa b))%positive) with (Zpos (Z.to_pos (mantissa a)) ?= Zpos (Z.to_pos (mantissa b))).
  rewrite !Z2Pos.id by done. unfold mantissa. rewrite E. assert (P : 0 < 2 ^ (53 - bits b)) by (apply Z.pow_pos_nonneg; lia).
  destruct (Z.compare_spec a b); [subst; apply Z.compare_refl|apply Z.compare_lt_iff; nia|apply Z.compare_gt_iff; nia].
Qed.

Lemma compare_exact a b : 0 < a < 2 ^ 53 -> 0 < b < 2 ^ 53 ->
  match bits a - 53 ?= bits b - 53 with
  | Eq => Pos.compare_cont Eq (Z.to_pos (mantissa a)) (Z.to_pos (mantissa b)) | c => c
  end = (a ?= b).
Proof.
  intros Ha Hb. destruct (Z.compare_spec (bits a - 53) (bits b - 53)) as [E|L|L].
  - apply mantissa_order; [done|done|lia].
  - symmetry. apply Z.compare_lt_iff, bits_order; lia.
  - symmetry. apply Z.compare_gt_iff, bits_order; lia.
Qed.

Lemma less_int a b : Z.abs a < 2 ^ 53 -> Z.abs b < 2 ^ 53 -> Time.less (Time.of_int a) (Time.of_int b) = (a <? b).
Proof.
  intros Ha Hb. unfold Time.less, SFltb, Z.ltb.
  assert (C : SFcompare (Time.of_int a) (Time.of_int b) = Some (a ?= b)); [|rewrite C; by destruct (a ?= b)].
  destruct (of_int_cases a Ha) as [[-> Ea]|(s & k & Hk & Ek & Ea)], (of_int_cases b Hb) as [[-> Eb]|(s' & k' & Hk' & Ek' & Eb)];
    rewrite ?Ea, ?Eb; unfold exact; cbn [SFcompare]; f_equal.
  - destruct s'; cbn [cond_Zopp] in Ek'; symmetry; [apply Z.compare_gt_iff|apply Z.compare_lt_iff]; lia.
  - destruct s; cbn [cond_Zopp] in Ek; symmetry; [apply Z.compare_lt_iff|apply Z.compare_gt_iff]; lia.
  - pose proof (compare_exact k k' Hk Hk') as C. destruct s, s'; cbn [cond_Zopp] in Ek, Ek'; subst a b.
    + rewrite Z.compare_opp, (Z.compare_antisym k k'), <- C. destruct (bits k - 53 ?= bits k' - 53); done.
    + symmetry. apply Z.compare_lt_iff. lia.
    + symmetry. apply Z.compare_gt_iff. lia.
    + exact C.
Qed.

Lemma of_int_number n : Z.abs n < 2 ^ 53 -> Time.isnan (Time.of_int n) = false /\ Time.isfinite (Time.of_int n) = true.
Proof. intros Hn. destruct (of_int_cases n Hn) as [[_ ->]|(s & k & _ & _ & ->)]; done. Qed.

Lemma of_int_inj a b : Z.abs a < 2 ^ 53 -> Z.abs b < 2 ^ 53 -> Time.of_int a = Time.of_int b -> a = b.
Proof.
  intros Ha Hb E. pose proof (less_int a b Ha Hb) as L. pose proof (less_int b a Hb Ha) as G. pose proof (less_int a a Ha Ha) as R.
  rewrite <- E, R in L. rewrite <- E, R in G. lia.
Qed.

(** ** Whole quotients *)

Lemma bits_range m k : 0 <= k -> 2 ^ k <= m < 2 ^ (k + 1) -> bits m = k + 1.
Proof. intros Hk Hm. unfold bits. f_equal. apply Z.log2_unique; lia. Qed.

Lemma round_choice m l : round_nearest_even m l = m \/ round_nearest_even m l = m + 1.
Proof. destruct l as [|[]]; cbn; auto. destruct (Z.even m); auto. Qed.

Lemma record_of_loc m l : shr_m (shr_record_of_loc m l) = m /\ loc_of_shr_record (shr_record_of_loc m l) = l.
Proof. by destruct l as [|[]]. Qed.

Lemma shr_1_half m l : 0 < m -> shr_m (shr_1 (shr_record_of_loc m l)) = m / 2.
Proof.
  intros Hm. destruct m as [|p|p]; [lia| |lia]. rewrite <- Z.div2_div. destruct l as [|[]], p; done.
Qed.

(** The first shift leaves 53 bits, of which the last may be rounded up. *)
Lemma shr_fexp_first q e l k : 0 <= k <= 1 -> 2 ^ (52 + k) <= q < 2 ^ (53 + k) -> -1074 <= e ->
  shr_m (fst (shr_fexp 53 1024 q e l)) = q / 2 ^ k /\ snd (shr_fexp 53 1024 q e l) = e + k.
Proof.
  intros Hk Hq He. assert (Hp : 0 < q) by (pose proof (Z.pow_pos_nonneg 2 (52 + k)); lia).
  assert (D : Zdigits2 q = 53 + k).
  { destruct q as [|p|p]; [lia| |lia]. rewrite digits_bits, (bits_range _ (52 + k)); [lia|lia|]. replace (52 + k + 1) with (53 + k) by lia. done. }
  unfold shr_fexp. rewrite D. unfold fexp, emin. replace (Z.max (53 + k + e - 53) (3 - 1024 - 53) - e) with k by lia.
  destruct (Z.eq_dec k 0) as [->|N]; [|replace k with 1 by lia].
  - cbn [shr fst snd]. rewrite (proj1 (record_of_loc q l)), Z.div_1_r. lia.
  - cbn [shr iter_pos fst snd]. rewrite shr_1_half by done. split; [done|lia].
Qed.

Lemma round_aux_near q e l k : 0 <= k <= 1 -> 2 ^ (52 + k) <= q < 2 ^ (53 + k) -> -1074 <= e -> e + k < -1 ->
  exists m E n, binary_round_aux 53 1024 false q e l = S754_finite false m E /\ E < 0 /\
    (n = q / 2 ^ k \/ n = q / 2 ^ k + 1) /\ Zpos m / 2 ^ (- E) = n / 2 ^ (- (e + k)).
Proof.
  intros Hk Hq He Hneg. destruct (shr_fexp_first q e l k Hk Hq He) as [F S]. unfold binary_round_aux.
  destruct (shr_fexp 53 1024 q e l) as [mrs e']. cbn [fst snd] in F, S. subst e'. rewrite F.
  set (n := round_nearest_even (q / 2 ^ k) (loc_of_shr_record mrs)).
  assert (Hn : n = q / 2 ^ k \/ n = q / 2 ^ k + 1) by apply round_choice.
  assert (Hr : 2 ^ 52 <= q / 2 ^ k < 2 ^ 53).
  { split; [apply Z.div_le_lower_bound|apply Z.div_lt_upper_bound]; try (apply Z.pow_pos_nonneg; lia);
      rewrite <- Z.pow_add_r by lia; [replace (k + 52) with (52 + k) by lia|replace (k + 53) with (53 + k) by lia]; lia. }
  destruct (Z.eq_dec n (2 ^ 53)) as [E|N].
  - rewrite E. change (2 ^ 53) with (2 ^ 52 * 2 ^ 1). rewrite shr_fexp_exact by (try lia; reflexivity). cbn [shr_m].
    change (2 ^ 52) with 4503599627370496. rewrite (proj2 (Z.leb_le _ _)) by lia. eexists _, _, n. split; [done|]. split; [lia|]. split; [done|].
    rewrite E. assert (P : 2 ^ (- (e + k)) = 2 ^ (- (e + k + 1)) * 2 ^ 1) by (rewrite <- Z.pow_add_r by lia; f_equal; lia).
    rewrite P. change (2 ^ 53) with (4503599627370496 * 2 ^ 1). rewrite Z.div_mul_cancel_r; [done| |lia]. apply Z.pow_nonzero; lia.
  - assert (Hb : 2 ^ 52 <= n < 2 ^ 53) by lia.
    assert (X : shr_fexp 53 1024 n (e + k) loc_Exact = (Build_shr_record n false false, e + k)).
    { pose proof (shr_fexp_exact n 0 (e + k)) as X. rewrite Z.mul_1_r, Z.add_0_r in X. apply X; [lia| |lia|lia]. apply (bits_range n 52); lia. }
    rewrite X. cbn [shr_m]. destruct n as [|p|p] eqn:En; [lia| |lia].
    rewrite (proj2 (Z.leb_le _ _)) by lia. eexists _, _, (Zpos p). split; [done|]. split; [lia|]. split; [done|]. done.
Qed.

(** A quotient of integers is so close to the exact one that its integer part is right. *)
Lemma near_quotient x n u m : 0 <= x -> 0 < n -> n < 2 ^ u -> 0 <= u ->
  m = x * 2 ^ u / n \/ m = x * 2 ^ u / n + 1 -> m / 2 ^ u = x / n.
Proof.
  intros Hx Hn Hu Hu0 Hm. assert (P : 0 < 2 ^ u) by (apply Z.pow_pos_nonneg; lia).
  pose proof (Z.div_mod x n ltac:(lia)) as E. pose proof (Z.mod_pos_bound x n Hn) as R. set (Q := x / n) in *. set (r := x mod n) in *.
  assert (D : x * 2 ^ u / n = Q * 2 ^ u + r * 2 ^ u / n).
  { rewrite E. replace ((n * Q + r) * 2 ^ u) with (r * 2 ^ u + Q * 2 ^ u * n) by lia. rewrite Z.div_add by lia. lia. }
  pose proof (Z.div_pos (r * 2 ^ u) n ltac:(nia) Hn).
  assert (L : r * 2 ^ u / n + 1 < 2 ^ u).
  { assert (r * 2 ^ u / n < 2 ^ u - 1); [|lia]. apply Z.div_lt_upper_bound; [done|]. nia. }
  symmetry. apply (Z.div_unique_pos m (2 ^ u) Q (m - 2 ^ u * Q)); lia.
Qed.

Lemma bits_bounds m : 0 < m -> 2 ^ (bits m - 1) <= m < 2 ^ bits m.
Proof. intros Hm. unfold bits. replace (Z.log2 m + 1 - 1) with (Z.log2 m) by lia. rewrite Z.add_1_r. by apply Z.log2_spec. Qed.

Lemma mantissa_range n : 0 < n < 2 ^ 53 -> 2 ^ 52 <= mantissa n < 2 ^ 53.
Proof. intros Hn. pose proof (bits_bounds _ (mantissa_pos n Hn)) as B. by rewrite mantissa_bits in B. Qed.

(** The integer quotient that the division starts from, and where the rest lies. *)
Lemma div_core x n : 0 < x < 2 ^ 53 -> 0 < n < 2 ^ 53 ->
  SFdiv_core_binary 53 1024 (mantissa x) (bits x - 53) (mantissa n) (bits n - 53) =
    (mantissa x * 2 ^ 53 / mantissa n, bits x - bits n - 53, new_location (mantissa n) (mantissa x * 2 ^ 53 mod mantissa n)).
Proof.
  intros Hx Hn. pose proof (bits_small x Hx). pose proof (bits_small n Hn).
  assert (D : forall k, 0 < k < 2 ^ 53 -> Zdigits2 (mantissa k) = 53).
  { intros k Hk. pose proof (mantissa_pos k Hk). rewrite <- (mantissa_bits k Hk). destruct (mantissa k); [lia|apply digits_bits|lia]. }
  unfold SFdiv_core_binary. rewrite !D by lia. unfold fexp, emin.
  replace (Z.min (Z.max (53 + (bits x - 53) - (53 + (bits n - 53)) - 53) (3 - 1024 - 53)) (bits x - 53 - (bits n - 53))) with (bits x - bits n - 53) by lia.
  replace (bits x - 53 - (bits n - 53) - (bits x - bits n - 53)) with 53 by lia. cbv iota. rewrite Z.shiftl_mul_pow2 by lia.
  unfold Z.div, Z.modulo. destruct (Z.div_eucl (mantissa x * 2 ^ 53) (mantissa n)) as [q r]. done.
Qed.

(** Shifted, it is the quotient of the integers at some scale. *)
Lemma quotient_scale x n k : 0 < x < 2 ^ 50 -> 0 < n < 2 ^ 50 -> 0 <= k <= 1 ->
  mantissa x * 2 ^ 53 / mantissa n / 2 ^ k = x * 2 ^ (53 - bits x + bits n - k) / n.
Proof.
  intros Hx Hn Hk. pose proof (bits_small x ltac:(lia)). pose proof (bits_small n ltac:(lia)).
  assert (P : forall j, 0 <= j -> 0 < 2 ^ j) by (intros; apply Z.pow_pos_nonneg; lia).
  pose proof (mantissa_pos n ltac:(lia)). rewrite Z.div_div by (try apply P; lia). unfold mantissa.
  assert (bits x <= 50) by (unfold bits; pose proof (proj1 (Z.log2_lt_pow2 x 50 ltac:(lia)) ltac:(lia)); lia).
  replace (x * 2 ^ (53 - bits x) * 2 ^ 53) with (x * 2 ^ (53 - bits x + bits n - k) * 2 ^ (53 - bits n + k)).
  2: { rewrite <- !Z.mul_assoc, <- !Z.pow_add_r by lia. do 2 f_equal. lia. }
  replace (n * 2 ^ (53 - bits n) * 2 ^ k) with (n * 2 ^ (53 - bits n + k)).
  2: { rewrite <- Z.mul_assoc, <- Z.pow_add_r by lia. done. }
  rewrite Z.div_mul_cancel_r; [done|lia|]. apply Z.pow_nonzero; lia.
Qed.

Lemma floor_over x n : 0 <= x < 2 ^ 50 -> 0 < n < 2 ^ 50 -> floor (Time.over (Time.of_int x) (Time.of_int n)) = Time.of_int (x / n).
Proof.
  intros Hx Hn. destruct (Z.eq_dec x 0) as [->|N]; [by rewrite (of_int_pos n) by lia|]. rewrite (of_int_pos x), (of_int_pos n) by lia.
  unfold exact, Time.over, SFdiv. pose proof (mantissa_range x ltac:(lia)) as Rx. pose proof (mantissa_range n ltac:(lia)) as Rn.
  rewrite !Z2Pos.id by lia. rewrite div_core by lia. cbn [xorb]. set (l := new_location _ _).
  set (q := mantissa x * 2 ^ 53 / mantissa n).
  assert (Lq : 2 ^ 52 <= q) by (apply Z.div_le_lower_bound; lia).
  assert (Uq : q < 2 ^ 54) by (apply Z.div_lt_upper_bound; lia).
  assert (exists k, 0 <= k <= 1 /\ 2 ^ (52 + k) <= q < 2 ^ (53 + k)) as (k & Hk & Hq).
  { destruct (Z.lt_ge_cases q (2 ^ 53)); [exists 0|exists 1]; (split; [lia|]); cbn [Z.add]; [|split; [done|]]; lia. }
  pose proof (bits_small n ltac:(lia)). assert (bits x <= 50) by (unfold bits; pose proof (proj1 (Z.log2_lt_pow2 x 50 ltac:(lia)) ltac:(lia)); lia).
  assert (1 <= bits x) by (apply bits_small; lia).
  assert (bits n <= 50) by (unfold bits; pose proof (proj1 (Z.log2_lt_pow2 n 50 ltac:(lia)) ltac:(lia)); lia).
  destruct (round_aux_near q (bits x - bits n - 53) l k) as (m & E & i & -> & HE & Hi & Em); [done|done|lia|lia|].
  cbn [floor]. rewrite (proj2 (Z.leb_gt 0 E) HE). cbn [cond_Zopp]. rewrite Em. f_equal.
  replace (- (bits x - bits n - 53 + k)) with (53 - bits x + bits n - k) by lia. unfold q in Hi. rewrite quotient_scale in Hi by lia.
  apply near_quotient; [lia|lia| |lia|done]. eapply Z.lt_le_trans; [apply bits_bounds; lia|]. apply Z.pow_le_mono_r; lia.
Qed.

(** A quotient without a rest is exact. *)
Lemma over_pos n k : 0 < n -> 0 < k -> n * k < 2 ^ 53 -> forall s,
  Time.over (exact s (n * k)) (Time.of_int k) = exact s n.
Proof.
  intros Hn Hk Hb s. assert (Bk : 0 < k < 2 ^ 53) by nia. assert (Bn : 0 < n < 2 ^ 53) by nia. assert (Bx : 0 < n * k < 2 ^ 53) by nia.
  rewrite (of_int_pos k) by done. set (goal := exact s n). unfold exact, Time.over, SFdiv.
  pose proof (mantissa_pos _ Bx). pose proof (mantissa_pos _ Bk). pose proof (bits_small _ Bx). pose proof (bits_small _ Bk). pose proof (bits_small _ Bn).
  rewrite !Z2Pos.id, div_core by done. rewrite xorb_false_r.
  pose proof (Z.log2_mul_below n k Hn Hk) as L1. pose proof (Z.log2_mul_above n k ltac:(lia) ltac:(lia)) as L2. set (t := 53 - bits (n * k) + bits k).
  assert (E : mantissa (n * k) * 2 ^ 53 = n * 2 ^ t * mantissa k).
  { unfold mantissa. replace (n * 2 ^ t * (k * 2 ^ (53 - bits k))) with (n * k * (2 ^ t * 2 ^ (53 - bits k))) by lia.
    rewrite <- Z.mul_assoc, <- !Z.pow_add_r by (unfold t; lia). do 2 f_equal. unfold t. lia. }
  rewrite E, Z.div_mul, Z.mod_mul by lia.
  replace (new_location (mantissa k) 0) with loc_Exact by (unfold new_location; by destruct (Z.even _)).
  replace (bits (n * k) - bits k - 53) with (- t) by (unfold t; lia). apply round_aux_exact; [done| |]; unfold t, bits in *; lia.
Qed.

Lemma over_exact n k : 0 < k < 2 ^ 53 -> Z.abs n * k < 2 ^ 53 -> Time.over (Time.of_int (n * k)) (Time.of_int k) = Time.of_int n.
Proof.
  intros Hk Hb. destruct (Z.lt_trichotomy n 0) as [L|[->|L]].
  - replace n with (- - n) by lia. rewrite Z.mul_opp_l, !of_int_neg by nia. apply over_pos; lia.
  - rewrite (of_int_pos k) by lia. done.
  - rewrite (of_int_pos (n * k)), (of_int_pos n) by nia. apply over_pos; lia.
Qed.
End Double.
