(* ===== verification/WtfDates.v ===== *)
(** * Dates (WTF/wtf/DateMath.h, WTF/wtf/DateMath.cpp)

    The calendar, the parser of dates in the formats of RFC 822, RFC 2822 and of scripts, and the
    printer of RFC 2822 dates.  A pointer into a null-terminated text is the characters
    from it to the terminator; a step past the terminator is undefined behaviour.  Two pointers into one text are equal
    when as many characters follow.  The numbers are [double]s and integers as in the source:
    sums of [int] and [long] that overflow are undefined behaviour.  [None] is the result NaN
    of an early return.

    Parameter: the offset of the local time zone, in milliseconds. *)
From Stdlib Require Ascii String SpecFloat.
Import String.StringSyntax.
From stdpp Require Import list.
From S2P Require Import Prelude WtfString HttpNames HttpHeaders HttpParsers HttpCache WtfDouble.

Local Open Scope cf.

Class LocalTime := { localTimeOffset : Time.double -> Z }.

Module Dates.
Import Str Parsers.

(** ** The calendar *)

Definition weekdayName : list StringImpl := [lit "Mon"; lit "Tue"; lit "Wed"; lit "Thu"; lit "Fri"; lit "Sat"; lit "Sun"].
Definition monthName : list StringImpl :=
  [lit "Jan"; lit "Feb"; lit "Mar"; lit "Apr"; lit "May"; lit "Jun"; lit "Jul"; lit "Aug"; lit "Sep"; lit "Oct"; lit "Nov"; lit "Dec"].

Definition isLeapYear (year : Z) : bool :=
  if negb (Z.rem year 4 =? 0) then false else if Z.rem year 400 =? 0 then true else if Z.rem year 100 =? 0 then false else true.

Definition firstDayOfMonth (leap : bool) : list Z :=
  if leap then [0; 31; 60; 91; 121; 152; 182; 213; 244; 274; 305; 335] else [0; 31; 59; 90; 120; 151; 181; 212; 243; 273; 304; 334].

Definition daysInYear (year : Z) : Z := 365 + Z.b2z (isLeapYear year).

Definition daysFrom1970ToYear (year : Z) : Time.double :=
  let yearMinusOne := Time.of_int (year - 1) in
  let by_rule n before := Time.minus (Double.floor (Time.over yearMinusOne (Time.of_int n))) (Time.of_int before) in
  let yearsToAddBy4Rule := by_rule 4 (1970 / 4) in
  let yearsToExcludeBy100Rule := by_rule 100 (1970 / 100) in
  let yearsToAddBy400Rule := by_rule 400 (1970 / 400) in
  Time.plus (Time.minus (Time.plus (Time.times (Time.of_int 365) (Time.minus (Time.of_int year) (Time.of_int 1970)))
    yearsToAddBy4Rule) yearsToExcludeBy100Rule) yearsToAddBy400Rule.

Definition dayInYear (year month day : Z) : res Z :=
  first ← or_ub (firstDayOfMonth (isLeapYear year)).[month]; Ok (first + day - 1).

Definition monthFromDayInYear (dayInYear : Z) (leapYear : bool) : Z :=
  let d := dayInYear in
  let step := 31 in
  if d <? step then 0 else
  let step := step + (if leapYear then 29 else 28) in
  if d <? step then 1 else
  let step := step + 31 in if d <? step then 2 else
  let step := step + 30 in if d <? step then 3 else
  let step := step + 31 in if d <? step then 4 else
  let step := step + 30 in if d <? step then 5 else
  let step := step + 31 in if d <? step then 6 else
  let step := step + 31 in if d <? step then 7 else
  let step := step + 30 in if d <? step then 8 else
  let step := step + 31 in if d <? step then 9 else
  if d <? step + 30 then 10 else 11.

(** [checkMonth] for the months from [months] on; the last is what is left. *)
Fixpoint check_months (d next : Z) (months : list Z) : Z :=
  match months with
  | [] => d - next
  | daysInThisMonth :: months => let step := next in let next := next + daysInThisMonth in if d <=? next then d - step else check_months d next months
  end.

Definition dayInMonthFromDayInYear (dayInYear : Z) (leapYear : bool) : Z :=
  if dayInYear <=? 30 then dayInYear + 1
  else check_months dayInYear 30 [if leapYear then 29 else 28; 31; 30; 31; 30; 31; 31; 30; 31; 30].

(** ** Seconds from the parts of a date *)

(** The multiplications of integers by constants are in doubles. *)
Definition ymdhmsToSeconds (year mon day hour minute : Z) (second : Time.double) : res (option Time.double) :=
  mday ← or_ub (firstDayOfMonth (isLeapYear year)).[mon - 1];
  let ydays := daysFrom1970ToYear year in
  days ← signed_result 64 (mday + day); days ← signed_result 64 (days - 1);
  let dateSeconds :=
    Time.plus (Time.plus (Time.plus second (Time.times (Time.of_int minute) (Time.of_int 60))) (Time.times (Time.of_int hour) (Time.of_int 3600)))
      (Time.times (Time.plus (Time.of_int days) ydays) (Time.of_int 86400)) in
  if Time.less dateSeconds (Time.of_int (-8640000000000)) || Time.less (Time.of_int 8640000000000) dateSeconds then Ok None else Ok (Some dateSeconds).

(** ** Scanning *)

Definition deref (s : StringImpl) : Z := match s with [] => 0 | c :: _ => c end.
Definition incr (s : StringImpl) : res StringImpl := match s with [] => UB | _ :: s => Ok s end.
Definition same_place (s t : StringImpl) : bool := zlen s =? zlen t.

(** [nesting] counts less than 2^31 parentheses. *)
Fixpoint skip_loop (s : StringImpl) (nesting : Z) : StringImpl :=
  match s with
  | [] => []
  | ch :: s' =>
      if isASCIISpace ch then skip_loop s' nesting else
      if ch =? 40 then skip_loop s' (nesting + 1) else
      if (ch =? 41) && (0 <? nesting) then skip_loop s' (nesting - 1) else
      if nesting =? 0 then s else skip_loop s' nesting
  end.
Definition skipSpacesAndComments (s : StringImpl) : StringImpl := skip_loop s 0.

(** [strstr]: the first place, from [position] on. *)
Fixpoint strstr (haystack needle : StringImpl) (position : Z) : option Z :=
  if bool_decide (take (length needle) haystack = needle) then Some position
  else match haystack with [] => None | _ :: haystack => strstr haystack needle (position + 1) end.

Definition findMonth (monthStr : StringImpl) : Z :=
  if zlen monthStr <? 3 then -1 else
  match strstr (lit "janfebmaraprmayjunjulaugsepoctnovdec") (toASCIILower <$> take 3 monthStr) 0 with
  | Some position => if Z.rem position 3 =? 0 then Z.quot position 3 else -1
  | None => -1
  end.

Definition LONG_MAX : Z := 2 ^ 63 - 1.
Definition LONG_MIN : Z := - 2 ^ 63.

(** [strtol] of the C library, for base ten. *)
Definition strtol (s : StringImpl) : Z * StringImpl :=
  let '(negative, u) := split_sign (drop_while isASCIISpace s) in
  match take_while isASCIIDigit u with
  | [] => (0, s)
  | ds => (Z.max LONG_MIN (Z.min LONG_MAX (if (negative : bool) then - decimal 0 ds else decimal 0 ds)), drop (length ds) u)
  end.

(** The results are the value and the stop position; [None] is a false return. *)
Definition parseInt (string : StringImpl) : option (Z * StringImpl) :=
  let '(longResult, stopPosition) := strtol string in
  if same_place string stopPosition || (longResult <=? INT_MIN) || (INT_MAX <=? longResult) then None else Some (longResult, stopPosition).

Definition parseLong (string : StringImpl) : bool * Z * StringImpl :=
  let '(result, stopPosition) := strtol string in
  (negb (same_place string stopPosition || (result =? LONG_MIN) || (result =? LONG_MAX)), result, stopPosition).

(** ** The parser *)

(** Steps that may return NaN. *)
Definition obind {A B} (m : res (option A)) (k : A -> res (option B)) : res (option B) :=
  o ← m; match o with None => Ok None | Some a => k a end.
Definition NaN {A} : res (option A) := Ok None.
Notation "x ⇐ m ; k" := (obind m (fun x => k)) (at level 20, m at level 100, k at level 200, only parsing).
Notation "' x ⇐ m ; k" := (obind m (fun x => k)) (at level 20, x pattern, m at level 100, k at level 200, only parsing).

(** The words before the first digit: the month so far, the start of the word and the position. *)
Fixpoint words_loop (fuel : nat) (month : Z) (wordStart dateString : StringImpl) : res (Z * StringImpl * StringImpl) :=
  match fuel with
  | O => NoFuel
  | S fuel =>
      if (deref dateString =? 0) || isASCIIDigit (deref dateString) then Ok (month, wordStart, dateString) else
      if isASCIISpace (deref dateString) || (deref dateString =? 40) then
        let month := if 3 <=? zlen wordStart - zlen dateString then findMonth wordStart else month in
        let dateString := skipSpacesAndComments dateString in
        words_loop fuel month dateString dateString
      else dateString ← incr dateString; words_loop fuel month wordStart dateString
  end.

(** YYYY/MM/DD: the year was read as the day. *)
Definition parse_ymd (day : Z) (dateString : StringImpl) : res (option (Z * Z * option Z * StringImpl * StringImpl)) :=
  if negb (deref dateString =? 47) then NaN else
  dateString ← incr dateString;
  if deref dateString =? 0 then NaN else
  if (day <=? INT_MIN) || (INT_MAX <=? day) then NaN else
  let year := day in
  let '(ok, month, newPosStr) := parseLong dateString in
  if negb ok then NaN else
  month ← signed_result 64 (month - 1);
  let dateString := newPosStr in
  if negb (deref dateString =? 47) then NaN else
  dateString ← incr dateString;
  if deref dateString =? 0 then NaN else
  let '(ok, day, newPosStr) := parseLong dateString in
  if negb ok then NaN else Ok (Some (month, day, Some year, newPosStr, newPosStr)).

(** MM/DD/YYYY: the month was read as the day. *)
Definition parse_mdy (day : Z) (dateString : StringImpl) : res (option (Z * Z * option Z * StringImpl * StringImpl)) :=
  dateString ← incr dateString;
  let month := day - 1 in
  let '(ok, day, newPosStr) := parseLong dateString in
  if negb ok then NaN else
  if (day <? 1) || (31 <? day) then NaN else
  dateString ← (if deref newPosStr =? 47 then incr newPosStr else Ok newPosStr);
  if deref dateString =? 0 then NaN else Ok (Some (month, day, None, dateString, newPosStr)).

(** The day, and the month if it was not found before. *)
Definition parse_dm (month day : Z) (dateString newPosStr : StringImpl) : res (option (Z * Z * option Z * StringImpl * StringImpl)) :=
  dateString ← (if deref dateString =? 45 then incr dateString else Ok dateString);
  let dateString := skipSpacesAndComments dateString in
  dateString ← (if deref dateString =? 44 then incr dateString else Ok dateString);
  if month =? -1 then
    let month := findMonth dateString in
    if month =? -1 then NaN else
    let dateString := drop_while (fun c => negb (c =? 45) && negb (c =? 44) && negb (isASCIISpace c)) dateString in
    if deref dateString =? 0 then NaN else
    if negb (existsb (Z.eqb (deref dateString)) [45; 47; 44]) && negb (isASCIISpace (deref dateString)) then NaN else
    dateString ← incr dateString;
    Ok (Some (month, day, None, dateString, newPosStr))
  else Ok (Some (month, day, None, dateString, newPosStr)).

Definition parse_day (month : Z) (dateString : StringImpl) : res (option (Z * Z * option Z * StringImpl * StringImpl)) :=
  let '(ok, day, newPosStr) := parseLong dateString in
  if negb ok then NaN else
  let dateString := newPosStr in
  if day <? 0 then NaN else
  if 31 <? day then parse_ymd day dateString
  else if (deref dateString =? 47) && (month =? -1) then parse_mdy day dateString
  else parse_dm month day dateString newPosStr.

(** A year at a place; where there is no number the date is not valid. *)
Definition parse_year (dateString : StringImpl) : res (option (Z * StringImpl)) :=
  match parseInt dateString with None => NaN | Some (result, newPosStr) => Ok (Some (result, newPosStr)) end.

Definition starts_with (dateString lowercaseLetters : StringImpl) : res bool := equalLetters (dateString ++ [0]) lowercaseLetters.

(** After the hour: minutes, seconds, and the half of the day. *)
Definition parse_clock (hour : Z) (dateString : StringImpl) : res (option (Z * Z * Z * StringImpl)) :=
  if (hour <? 0) || (23 <? hour) then NaN else
  if deref dateString =? 0 then NaN else
  if negb (deref dateString =? 58) then NaN else
  dateString ← incr dateString;
  let '(ok, minute, newPosStr) := parseLong dateString in
  if negb ok then NaN else
  let dateString := newPosStr in
  if (minute <? 0) || (59 <? minute) then NaN else
  if negb (deref dateString =? 0) && negb (deref dateString =? 58) && negb (isASCIISpace (deref dateString)) then NaN else
  '(second, dateString) ⇐ (if deref dateString =? 58 then
      dateString ← incr dateString;
      let '(ok, second, newPosStr) := parseLong dateString in
      if negb ok then NaN else
      if (second <? 0) || (59 <? second) then NaN else Ok (Some (second, newPosStr))
    else Ok (Some (0, dateString)));
  let dateString := skipSpacesAndComments dateString in
  am ← starts_with dateString (lit "am");
  if (am : bool) then
    if 12 <? hour then NaN else
    Ok (Some (if hour =? 12 then 0 else hour, minute, second, skipSpacesAndComments (drop 2 dateString)))
  else
  pm ← starts_with dateString (lit "pm");
  if (pm : bool) then
    if 12 <? hour then NaN else
    Ok (Some (if negb (hour =? 12) then hour + 12 else hour, minute, second, skipSpacesAndComments (drop 2 dateString)))
  else Ok (Some (hour, minute, second, dateString)).

(** The time of the day; the year is forgotten if the number was the hour. *)
Definition parse_time (year : option Z) (dateString newPosStr : StringImpl) : res (option (option Z * Z * Z * Z * StringImpl)) :=
  if deref newPosStr =? 0 then Ok (Some (year, 0, 0, 0, newPosStr)) else
  '(year, dateString) ⇐ (if negb (isASCIISpace (deref newPosStr) || (deref newPosStr =? 44)) then
      if negb (deref newPosStr =? 58) then NaN else Ok (Some (None, dateString))
    else newPosStr ← incr newPosStr; Ok (Some (year, skipSpacesAndComments newPosStr)));
  let '(_, hour, newPosStr) := parseLong dateString in
  if negb (same_place newPosStr dateString) then
    '(hour, minute, second, dateString) ⇐ parse_clock hour newPosStr;
    Ok (Some (year, hour, minute, second, dateString))
  else Ok (Some (year, hour, 0, 0, dateString)).

Definition knownZones : list (StringImpl * Z) :=
  [(lit "ut", 0); (lit "gmt", 0); (lit "est", -300); (lit "edt", -240); (lit "cst", -360); (lit "cdt", -300);
   (lit "mst", -420); (lit "mdt", -360); (lit "pst", -480); (lit "pdt", -420)].

(** The first known zone at the start of the text: its offset and the rest. *)
Fixpoint find_zone (zones : list (StringImpl * Z)) (dateString : StringImpl) : res (option (Z * StringImpl)) :=
  match zones with
  | [] => Ok None
  | zone :: zones =>
      b ← starts_with dateString zone.1;
      if (b : bool) then Ok (Some (zone.2, drop (length zone.1) dateString)) else find_zone zones dateString
  end.

(** A numeric offset in minutes. *)
Definition parse_offset (dateString : StringImpl) : res (option (Z * StringImpl)) :=
  match parseInt dateString with
  | None => NaN
  | Some (o, newPosStr) =>
      let dateString := newPosStr in
      if (o <? -9959) || (9959 <? o) then NaN else
      let sgn := if o <? 0 then -1 else 1 in
      let o := Z.abs o in
      if negb (deref dateString =? 58) then
        Ok (Some (if 24 <=? o then (Z.quot o 100 * 60 + Z.rem o 100) * sgn else o * 60 * sgn, dateString))
      else
        dateString ← incr dateString;
        match parseInt dateString with
        | None => NaN
        | Some (o2, newPosStr) =>
            minutes ← signed_result 32 (o * 60 + o2); offset ← signed_result 32 (minutes * sgn);
            Ok (Some (offset, newPosStr))
        end
  end.

(** The time zone: its offset, whether the time is a local one, and the rest. *)
Definition parse_zone (dateString : StringImpl) : res (option (Z * bool * StringImpl)) :=
  if deref dateString =? 0 then Ok (Some (0, true, dateString)) else
  gmt ← starts_with dateString (lit "gmt");
  utc ← (if (gmt : bool) then Ok true else starts_with dateString (lit "utc"));
  let isLocalTime := negb utc in
  let dateString := if (utc : bool) then drop 3 dateString else dateString in
  if (deref dateString =? 43) || (deref dateString =? 45) then
    '(offset, dateString) ⇐ parse_offset dateString; Ok (Some (offset, false, dateString))
  else
    zone ← find_zone knownZones dateString;
    match zone with
    | Some (offset, dateString) => Ok (Some (offset, false, dateString))
    | None => Ok (Some (0, isLocalTime, dateString))
    end.

(** Two digits are a year of the 20th or 21st century; no year is 2000. *)
Definition full_year (year : option Z) : Z :=
  match year with
  | Some yearValue => if (0 <=? yearValue) && (yearValue <? 100) then (if yearValue <? 50 then yearValue + 2000 else yearValue + 1900) else yearValue
  | None => 2000
  end.

(** After the day and the month. *)
Definition parse_rest (month day : Z) (year : option Z) (dateString newPosStr : StringImpl) : res (option (Time.double * bool)) :=
  if (month <? 0) || (11 <? month) then NaN else
  '(year, newPosStr) ⇐ (match year with
    | None => if negb (deref dateString =? 0) then '(result, newPosStr) ⇐ parse_year dateString; Ok (Some (Some result, newPosStr)) else Ok (Some (year, newPosStr))
    | Some _ => Ok (Some (year, newPosStr))
    end);
  '(year, hour, minute, second, dateString) ⇐ parse_time year dateString newPosStr;
  '(year, dateString) ⇐ (match year with
    | None => if isASCIIDigit (deref dateString) then '(result, newPosStr) ⇐ parse_year dateString; Ok (Some (Some result, skipSpacesAndComments newPosStr)) else Ok (Some (year, dateString))
    | Some _ => Ok (Some (year, dateString))
    end);
  '(offset, isLocalTime, dateString) ⇐ parse_zone dateString;
  let dateString := skipSpacesAndComments dateString in
  '(year, dateString) ⇐ (match year with
    | None => if negb (deref dateString =? 0) then '(result, newPosStr) ⇐ parse_year dateString; Ok (Some (Some result, skipSpacesAndComments newPosStr)) else Ok (Some (year, dateString))
    | Some _ => Ok (Some (year, dateString))
    end);
  if negb (deref dateString =? 0) then NaN else
  seconds ⇐ ymdhmsToSeconds (full_year year) (month + 1) day hour minute (Time.of_int second);
  Ok (Some (Time.times (Time.minus seconds (Time.times (Time.of_int offset) (Time.of_int 60))) (Time.of_int 1000), isLocalTime)).

(** [parseDateFromNullTerminatedCharacters] with the flag for local times; a date that is not valid gives NaN. *)
Definition parse_date (dateString : StringImpl) : res (option (Time.double * bool)) :=
  let dateString := skipSpacesAndComments dateString in
  '(month, wordStart, dateString) ← words_loop (S (length dateString)) (-1) dateString dateString;
  let month := if (month =? -1) && negb (same_place wordStart dateString) then findMonth wordStart else month in
  let dateString := skipSpacesAndComments dateString in
  if deref dateString =? 0 then NaN else
  '(month, day, year, dateString, newPosStr) ⇐ parse_day month dateString;
  parse_rest month day year dateString newPosStr.

(** A time that is not a number is given in local time, as the flag is set first. *)
Definition parseDateFromNullTerminatedCharacters `{LocalTime} (dateString : StringImpl) : res Time.double :=
  o ← parse_date dateString;
  Ok (match o with
      | Some (value, isLocalTime) => if (isLocalTime : bool) then Time.minus value (Time.of_int (localTimeOffset value)) else value
      | None => Time.nan
      end).

(** ** The printer *)

Definition appendTwoDigitNumber (number : Z) : StringImpl := [48 + Z.quot number 10; 48 + Z.rem number 10].

(** The number of an [unsigned] in decimal. *)
Definition unsigned_text (number : Z) : res StringImpl := '(_, p) ← number_digits (4 * 3 + 1) number []; Ok p.

Definition makeRFC2822DateString (dayOfWeek day month year hours minutes seconds utcOffset : Z) : res StringImpl :=
  weekday ← or_ub weekdayName.[dayOfWeek];
  name ← or_ub monthName.[month];
  day ← unsigned_text day; year ← unsigned_text year;
  let absoluteUTCOffset := Z.abs utcOffset in
  Ok (weekday ++ lit ", " ++ day ++ lit " " ++ name ++ lit " " ++ year ++ lit " " ++ appendTwoDigitNumber hours ++ lit ":" ++ appendTwoDigitNumber minutes
    ++ lit ":" ++ appendTwoDigitNumber seconds ++ lit " " ++ (if 0 <? utcOffset then lit "+" else lit "-")
    ++ appendTwoDigitNumber (Z.quot absoluteUTCOffset 60) ++ appendTwoDigitNumber (Z.rem absoluteUTCOffset 60)).
End Dates.
