(* ===== verification/WtfDateProps.v ===== *)
(** * The dates of HTTP and of mail are read exactly

    The calendar of [WtfDates] against a count of the days year by year, the numbers that
    [strtol] reads, the three date formats of HTTP, and the round trip of RFC 2822 dates. *)
From Stdlib Require Ascii String SpecFloat.
Import String.StringSyntax.
From stdpp Require Import list.
From S2P Require Import Prelude WtfString HttpNames HttpHeaders HttpParsers HttpRange HttpCache WtfDouble WtfDates.

Local Open Scope cf.

Module DateProps.
Import Str Parsers Dates.
Import Range (numeral).

(** ** The calendar *)

(** The days of the years 1, ..., [n], counted one by one. *)
Fixpoint days_of_years (n : nat) : Z :=
  match n with O => 0 | S n' => days_of_years n' + daysInYear (Z.of_nat n) end.

(** The days from the first of January 1970, where months start at 0. *)
Definition day_number (year month day : Z) : Z :=
  days_of_years (Z.to_nat (year - 1)) - days_of_years 1969 + default 0 ((firstDayOfMonth (isLeapYear year)).[month]) + day - 1.

Definition epoch_seconds (year month day hour minute second : Z) : Z :=
  day_number year month day * 86400 + hour * 3600 + minute * 60 + second.

Lemma days_of_years_closed n :
  days_of_years n = 365 * Z.of_nat n + Z.of_nat n / 4 - Z.of_nat n / 100 + Z.of_nat n / 400.
Proof.
  induction n as [|n IH]; [done|]. cbn [days_of_years]. rewrite IH, Nat2Z.inj_succ. unfold daysInYear, isLeapYear.
  set (k := Z.of_nat n). assert (0 <= k) by lia. clearbody k. rewrite !Z.rem_mod_nonneg by lia.
  destruct (Z.eqb_spec (Z.succ k mod 4) 0), (Z.eqb_spec (Z.succ k mod 400) 0), (Z.eqb_spec (Z.succ k mod 100) 0); cbn [negb Z.b2z];
    Z.div_mod_to_equations; lia.
Qed.

Lemma days_before_1970 : days_of_years 1969 = 719162.
Proof. rewrite days_of_years_closed. done. Qed.

(** The formula in doubles counts the days. *)
Lemma daysFrom1970ToYear_exact y : 1 <= y <= 10 ^ 6 -> daysFrom1970ToYear y = Time.of_int (days_of_years (Z.to_nat (y - 1)) - 719162).
Proof.
  intros Hy. rewrite days_of_years_closed, Z2Nat.id by lia. unfold daysFrom1970ToYear.
  change (1970 / 4) with 492. change (1970 / 100) with 19. change (1970 / 400) with 4. change (10 ^ 6) with 1000000 in Hy.
  assert (Q : forall n, 0 < n -> 0 <= (y - 1) / n <= y - 1) by (intros n Hn; split; [apply Z.div_pos; lia|apply Z.div_le_upper_bound; nia]).
  pose proof (Q 4 ltac:(lia)). pose proof (Q 100 ltac:(lia)). pose proof (Q 400 ltac:(lia)).
  rewrite !Double.floor_over by lia. rewrite !Double.minus_int by lia.
  rewrite (Double.times_int' 365 (y - 1970)) by lia.
  rewrite (Double.plus_int (365 * (y - 1970))) by lia. rewrite Double.minus_int by lia. rewrite Double.plus_int by lia. f_equal. lia.
Qed.

Lemma first_day month leap : 0 <= month <= 11 -> exists d, (firstDayOfMonth leap).[month] = Some d /\ 0 <= d <= 335.
Proof.
  intros H. assert (month ∈ [0; 1; 2; 3; 4; 5; 6; 7; 8; 9; 10; 11]) as M by (rewrite !elem_of_cons, elem_of_nil; lia).
  assert (F : forall leap, Forall (fun month => exists d, (firstDayOfMonth leap).[month] = Some d /\ 0 <= d <= 335) [0; 1; 2; 3; 4; 5; 6; 7; 8; 9; 10; 11]).
  { intros []; repeat constructor; eexists; (split; [reflexivity|lia]). }
  by apply (proj1 (Forall_forall _ _) (F leap)).
Qed.

Lemma days_of_years_bounds n : 365 * Z.of_nat n <= days_of_years n <= 366 * Z.of_nat n.
Proof. induction n as [|n IH]; [done|]. cbn [days_of_years]. unfold daysInYear. destruct (isLeapYear _); cbn [Z.b2z]; lia. Qed.

(** Up to the year 200000 every date is a number of seconds that a double holds exactly. *)
Lemma ymdhmsToSeconds_exact year month day hour minute second :
  1 <= year <= 200000 -> 0 <= month <= 11 -> 1 <= day <= 31 -> 0 <= hour <= 23 -> 0 <= minute <= 59 -> 0 <= second <= 59 ->
  ymdhmsToSeconds year (month + 1) day hour minute (Time.of_int second) = Ok (Some (Time.of_int (epoch_seconds year month day hour minute second))) /\
  Z.abs (epoch_seconds year month day hour minute second) <= 8640000000000.
Proof.
  intros Hy Hm Hd Hh Hi Hs. unfold ymdhmsToSeconds, epoch_seconds, day_number. replace (month + 1 - 1) with month by lia.
  destruct (first_day month (isLeapYear year) Hm) as (f & -> & Hf). cbn [or_ub mbind res_bind default id].
  rewrite daysFrom1970ToYear_exact by lia. rewrite days_before_1970.
  pose proof (days_of_years_bounds (Z.to_nat (year - 1))) as B. rewrite Z2Nat.id in B by lia.
  set (Y := days_of_years _) in *. clearbody Y. unfold signed_result. change (2 ^ (64 - 1)) with 9223372036854775808.
  rewrite (proj2 (Z.leb_le _ (f + day))), (proj2 (Z.ltb_lt (f + day) _)) by lia. cbn [andb mbind res_bind].
  rewrite (proj2 (Z.leb_le _ (f + day - 1))), (proj2 (Z.ltb_lt (f + day - 1) _)) by lia. cbn [andb mbind res_bind].
  rewrite !Double.times_int by lia. rewrite (Double.plus_int second) by lia. rewrite (Double.plus_int (second + minute * 60)) by lia.
  rewrite (Double.plus_int (f + day - 1)) by lia. rewrite Double.times_int by lia. rewrite Double.plus_int by lia.
  rewrite !Double.less_int by lia. rewrite !(proj2 (Z.ltb_ge _ _)) by lia. cbn [orb id]. split; [do 3 f_equal; lia|lia].
Qed.

(** ** Numbers in texts *)

Lemma digit_no_space c : isASCIIDigit c = true -> isASCIISpace c = false /\ c <> 0 /\ c <> 40 /\ c <> 41 /\ c <> 43 /\ c <> 45 /\ c <> 44 /\ c <> 58.
Proof.
  intros D. pose proof (digit_range c D). split; [|lia]. unfold isASCIISpace.
  rewrite (proj2 (Z.leb_gt _ _)) by lia. done.
Qed.

Lemma take_while_digit_run (p : Z -> bool) l r : Forall (fun c => p c = true) l -> match r with [] => True | c :: _ => p c = false end ->
  take_while p (l ++ r) = l.
Proof. induction 1 as [|c l Hc _ IH]; intros Hr; cbn; [destruct r; cbn; [done|by rewrite Hr]|]. by rewrite Hc, IH. Qed.

Definition no_digit (r : StringImpl) : Prop := match r with [] => True | c :: _ => isASCIIDigit c = false end.

Lemma numeral_head ds n : numeral ds n -> exists c ds', ds = c :: ds' /\ isASCIIDigit c = true.
Proof. intros (D & N & _). destruct ds as [|c ds]; [done|]. eexists _, _. split; [done|]. by inversion D. Qed.

Lemma numeral_nonneg ds n : numeral ds n -> 0 <= n.
Proof. intros (D & _ & <- & _). by apply decimal_mono. Qed.

Lemma strtol_numeral ds n r : numeral ds n -> no_digit r -> strtol (ds ++ r) = (n, r).
Proof.
  intros N Hr. pose proof (numeral_nonneg _ _ N). destruct (numeral_head _ _ N) as (c & ds' & -> & Hc), N as (D & _ & V & B).
  destruct (digit_no_space c Hc) as (Sp & _ & _ & _ & Np & Nm & _). unfold strtol. cbn [app drop_while]. rewrite Sp. cbn [split_sign].
  rewrite (proj2 (Z.eqb_neq c 45)), (proj2 (Z.eqb_neq c 43)) by done. change (c :: ds' ++ r) with ((c :: ds') ++ r).
  rewrite take_while_digit_run by done. rewrite V, drop_app_length. unfold LONG_MIN, LONG_MAX. f_equal. lia.
Qed.

Lemma strtol_signed (negative : bool) ds n r : numeral ds n -> no_digit r -> n < 2 ^ 63 ->
  strtol ((if negative then 45 else 43) :: ds ++ r) = (if negative then - n else n, r).
Proof.
  intros N Hr Hn. pose proof (numeral_nonneg _ _ N). destruct (numeral_head _ _ N) as (c & ds' & -> & Hc), N as (D & _ & V & B).
  assert (E : split_sign (drop_while isASCIISpace ((if negative then 45 else 43) :: (c :: ds') ++ r)) = (negative, (c :: ds') ++ r)) by (by destruct negative).
  unfold strtol. rewrite E, take_while_digit_run by done. rewrite V, drop_app_length. unfold LONG_MIN, LONG_MAX. f_equal. destruct negative; lia.
Qed.

Lemma same_place_refl s : same_place s s = true.
Proof. apply Z.eqb_refl. Qed.

Lemma same_place_app ds n r : numeral ds n -> same_place (ds ++ r) r = false /\ same_place r (ds ++ r) = false.
Proof.
  intros N. destruct (numeral_head _ _ N) as (c & ds' & -> & _). unfold same_place, zlen. cbn [app length]. rewrite length_app.
  split; apply Z.eqb_neq; lia.
Qed.

Lemma parseLong_numeral ds n r : numeral ds n -> n < 2 ^ 62 -> no_digit r -> parseLong (ds ++ r) = (true, n, r).
Proof.
  intros N Hn Hr. pose proof (numeral_nonneg _ _ N). unfold parseLong. rewrite strtol_numeral with (n := n) by done.
  rewrite (proj1 (same_place_app _ _ _ N)). unfold LONG_MIN, LONG_MAX. rewrite !(proj2 (Z.eqb_neq n _)) by lia. done.
Qed.

Lemma parseInt_numeral ds n r : numeral ds n -> n < INT_MAX -> no_digit r -> parseInt (ds ++ r) = Some (n, r).
Proof.
  intros N Hn Hr. pose proof (numeral_nonneg _ _ N). unfold parseInt. rewrite strtol_numeral with (n := n) by done.
  rewrite (proj1 (same_place_app _ _ _ N)). rewrite (proj2 (Z.leb_gt n INT_MIN)), (proj2 (Z.leb_gt INT_MAX n)) by (unfold INT_MIN in *; lia). done.
Qed.

Lemma parse_year_numeral ds n r : numeral ds n -> n < INT_MAX -> no_digit r -> parse_year (ds ++ r) = Ok (Some (n, r)).
Proof. intros. unfold parse_year. by rewrite (parseInt_numeral ds n r). Qed.

Lemma skip_numeral ds n r : numeral ds n -> skipSpacesAndComments (ds ++ r) = ds ++ r.
Proof.
  intros N. destruct (numeral_head _ _ N) as (c & ds' & -> & Hc), (digit_no_space c Hc) as (Sp & _ & N40 & N41 & _).
  unfold skipSpacesAndComments. cbn [app skip_loop]. rewrite Sp, (proj2 (Z.eqb_neq c 40)), (proj2 (Z.eqb_neq c 41)) by done. done.
Qed.

Lemma skip_space_numeral ds n r : numeral ds n -> skipSpacesAndComments (32 :: ds ++ r) = ds ++ r.
Proof. intros N. rewrite <- (skip_numeral ds n r N) at 2. done. Qed.

Lemma two_digits n : 0 <= n <= 99 -> numeral (appendTwoDigitNumber n) n.
Proof.
  intros Hn. unfold appendTwoDigitNumber. rewrite Z.quot_div_nonneg, Z.rem_mod_nonneg by lia.
  pose proof (Z.mod_pos_bound n 10 ltac:(lia)). pose proof (Z.div_mod n 10 ltac:(lia)).
  split; [|split; [done|split; [unfold decimal; cbn [foldl]; lia|lia]]].
  repeat constructor; unfold isASCIIDigit; rewrite !(proj2 (Z.leb_le _ _)) by lia; done.
Qed.

(** ** The time of the day *)

(** What may follow the time: no space, no comment, and neither "am" nor "pm". *)
Definition plain_start (z : StringImpl) : Prop :=
  match z with
  | [] => False
  | c :: _ => isASCIISpace c = false /\ c <> 40 /\ c <> 41 /\ isASCIIAlphaCaselessEqual c 97 = false /\ isASCIIAlphaCaselessEqual c 112 = false
  end.

Lemma plain_numeral ds n r : numeral ds n -> plain_start (ds ++ r).
Proof.
  intros N. destruct (numeral_head _ _ N) as (c & ds' & -> & Hc). pose proof (digit_range c Hc). destruct (digit_no_space c Hc) as (Sp & ? & ? & ? & _).
  cbn [app plain_start]. do 3 (split; [done|]). unfold isASCIIAlphaCaselessEqual.
  assert (c ∈ [48; 49; 50; 51; 52; 53; 54; 55; 56; 57]) as E by (rewrite !elem_of_cons, elem_of_nil; lia).
  assert (F : Forall (fun c => (toASCIILowerUnchecked c =? 97) = false /\ (toASCIILowerUnchecked c =? 112) = false) [48; 49; 50; 51; 52; 53; 54; 55; 56; 57])
    by (repeat constructor).
  by apply (proj1 (Forall_forall _ _) F).
Qed.

Lemma skip_plain z : plain_start z -> skipSpacesAndComments z = z /\ skipSpacesAndComments (32 :: z) = z.
Proof.
  destruct z as [|c z]; [done|]. intros (Sp & N0 & N1 & _). unfold skipSpacesAndComments. cbn [skip_loop].
  change (isASCIISpace 32) with true. cbv iota. rewrite Sp, (proj2 (Z.eqb_neq c 40)), (proj2 (Z.eqb_neq c 41)) by done. done.
Qed.

Lemma plain_halves z : plain_start z -> starts_with z (lit "am") = Ok false /\ starts_with z (lit "pm") = Ok false.
Proof.
  destruct z as [|c z]; [done|]. intros (_ & _ & _ & A & P). unfold starts_with. split.
  - change (lit "am") with [97; 109]. cbn [app equalLetters head or_ub mbind res_bind]. by rewrite A.
  - change (lit "pm") with [112; 109]. cbn [app equalLetters head or_ub mbind res_bind]. by rewrite P.
Qed.

Section clock.
Context (hh mm ss z : StringImpl) (h m s : Z).
Hypotheses (Nh : numeral hh h) (Nm : numeral mm m) (Ns : numeral ss s) (Hh : h <= 23) (Hm : m <= 59) (Hs : s <= 59) (Hz : plain_start z).
Let after_hour : StringImpl := 58 :: mm ++ 58 :: ss ++ 32 :: z.

Lemma parse_clock_numerals : parse_clock h after_hour = Ok (Some (h, m, s, z)).
Proof.
  pose proof (numeral_nonneg _ _ Nh). pose proof (numeral_nonneg _ _ Nm). pose proof (numeral_nonneg _ _ Ns).
  unfold parse_clock, after_hour. rewrite (proj2 (Z.ltb_ge h 0)), (proj2 (Z.ltb_ge 23 h)) by lia. cbn [orb deref incr Z.eqb Pos.eqb negb mbind res_bind].
  rewrite (parseLong_numeral mm m) by (done || lia). rewrite (proj2 (Z.ltb_ge m 0)), (proj2 (Z.ltb_ge 59 m)) by lia.
  cbn [orb andb deref incr Z.eqb Pos.eqb negb mbind res_bind].
  rewrite (parseLong_numeral ss s) by (done || lia). rewrite (proj2 (Z.ltb_ge s 0)), (proj2 (Z.ltb_ge 59 s)) by lia.
  cbn [orb negb obind mbind res_bind]. rewrite (proj2 (skip_plain z Hz)).
  rewrite (proj1 (plain_halves z Hz)). cbn [mbind res_bind]. rewrite (proj2 (plain_halves z Hz)). done.
Qed.

(** After a year, and in the place of one. *)
Lemma parse_time_after_year year d : parse_time (Some year) d (32 :: hh ++ after_hour) = Ok (Some (Some year, h, m, s, z)).
Proof.
  unfold parse_time. cbn [deref incr Z.eqb orb negb mbind res_bind obind]. change (isASCIISpace 32) with true. cbn [orb negb mbind res_bind obind].
  rewrite (skip_numeral hh h) by done. rewrite (parseLong_numeral hh h) by (done || lia).
  rewrite (proj2 (same_place_app hh h after_hour Nh)). cbn [negb]. rewrite parse_clock_numerals. done.
Qed.

Lemma parse_time_no_year year : parse_time year (hh ++ after_hour) after_hour = Ok (Some (None, h, m, s, z)).
Proof.
  unfold parse_time. change (deref after_hour) with 58. cbn [Z.eqb Pos.eqb orb negb]. change (isASCIISpace 58) with false. cbn [Z.eqb Pos.eqb orb negb mbind res_bind obind].
  rewrite (parseLong_numeral hh h) by (done || lia).
  rewrite (proj2 (same_place_app hh h after_hour Nh)). cbn [negb]. rewrite parse_clock_numerals. done.
Qed.
End clock.

(** ** The year, the time and the zone *)

Lemma deref_numeral ds n r : numeral ds n -> (deref (ds ++ r) =? 0) = false /\ isASCIIDigit (deref (ds ++ r)) = true.
Proof.
  intros N. destruct (numeral_head _ _ N) as (c & ds' & -> & Hc). cbn [app deref]. split; [|done]. apply Z.eqb_neq, digit_no_space, Hc.
Qed.

Lemma zone_applied t offset : Z.abs t <= 8640000000000 -> Z.abs offset <= 10000 ->
  Time.times (Time.minus (Time.of_int t) (Time.times (Time.of_int offset) (Time.of_int 60))) (Time.of_int 1000) = Time.of_int (1000 * (t - 60 * offset)).
Proof. intros. rewrite Double.times_int by lia. rewrite Double.minus_int by lia. rewrite Double.times_int by lia. f_equal. lia. Qed.

Section rest.
Context (hh mm ss yy : StringImpl) (h m s y : Z) (month day : Z) (z : StringImpl).
Hypotheses (Nh : numeral hh h) (Nm : numeral mm m) (Ns : numeral ss s) (Ny : numeral yy y) (Hh : h <= 23) (Hm : m <= 59) (Hs : s <= 59).
Hypotheses (Hy : 1 <= full_year (Some y) <= 200000) (Hmonth : 0 <= month <= 11) (Hday : 1 <= day <= 31) (Hyi : y < INT_MAX).
Let instant (offset : Z) : Time.double := Time.of_int (1000 * (epoch_seconds (full_year (Some y)) month day h m s - 60 * offset)).

Lemma date_seconds : ymdhmsToSeconds (full_year (Some y)) (month + 1) day h m (Time.of_int s) =
    Ok (Some (Time.of_int (epoch_seconds (full_year (Some y)) month day h m s))) /\
  Z.abs (epoch_seconds (full_year (Some y)) month day h m s) <= 8640000000000.
Proof.
  pose proof (numeral_nonneg _ _ Nh). pose proof (numeral_nonneg _ _ Nm). pose proof (numeral_nonneg _ _ Ns). by apply ymdhmsToSeconds_exact.
Qed.

(** The year before the time, then a zone. *)
Lemma parse_rest_zone offset local np : plain_start z -> parse_zone z = Ok (Some (offset, local, [])) -> Z.abs offset <= 10000 ->
  parse_rest month day None (yy ++ 32 :: hh ++ 58 :: mm ++ 58 :: ss ++ 32 :: z) np = Ok (Some (instant offset, local)).
Proof.
  intros Pz Ez Ho. destruct date_seconds as [E B]. unfold parse_rest.
  rewrite (proj2 (Z.ltb_ge month 0)), (proj2 (Z.ltb_ge 11 month)) by lia. cbn [orb].
  rewrite (proj1 (deref_numeral yy y _ Ny)). cbn [negb]. rewrite (parse_year_numeral yy y) by done. cbn [obind mbind res_bind].
  rewrite (parse_time_after_year hh mm ss z h m s) by done. cbn [obind mbind res_bind]. rewrite Ez. cbn [obind mbind res_bind].
  change (skipSpacesAndComments []) with (@nil Z). cbn [deref Z.eqb negb obind mbind res_bind]. rewrite E. cbn [obind mbind res_bind].
  rewrite zone_applied by done. done.
Qed.

(** The year after the time and no zone: a local time. *)
Lemma parse_rest_year_last np :
  parse_rest month day None (hh ++ 58 :: mm ++ 58 :: ss ++ 32 :: yy) np = Ok (Some (instant 0, true)).
Proof.
  destruct date_seconds as [E B]. unfold parse_rest.
  rewrite (proj2 (Z.ltb_ge month 0)), (proj2 (Z.ltb_ge 11 month)) by lia. cbn [orb].
  rewrite (proj1 (deref_numeral hh h _ Nh)). cbn [negb]. rewrite (parse_year_numeral hh h) by (done || unfold INT_MAX; lia). cbn [obind mbind res_bind].
  pose proof (plain_numeral yy y [] Ny) as Py. rewrite app_nil_r in Py.
  rewrite (parse_time_no_year hh mm ss yy h m s) by done. cbn [obind mbind res_bind].
  pose proof (proj2 (deref_numeral yy y [] Ny)) as Dy. pose proof (parse_year_numeral yy y [] Ny Hyi I) as Ry. rewrite app_nil_r in Dy, Ry.
  rewrite Dy, Ry. cbn [obind mbind res_bind]. change (skipSpacesAndComments []) with (@nil Z). unfold parse_zone. cbn [deref Z.eqb obind mbind res_bind].
  change (skipSpacesAndComments []) with (@nil Z). cbn [deref Z.eqb negb obind mbind res_bind]. rewrite E. cbn [obind mbind res_bind].
  rewrite zone_applied by (done || lia). done.
Qed.
End rest.

(** ** Words *)

(** Letters of a word, which may end in a comma. *)
Definition word_char (c : Z) : Prop := c <> 0 /\ isASCIIDigit c = false /\ isASCIISpace c = false /\ c <> 40.

Lemma words_skip w r fuel month start : Forall word_char w -> words_loop (length w + fuel) month start (w ++ r) = words_loop fuel month start r.
Proof.
  induction 1 as [|c w (N0 & D & Sp & N40) _ IH]; [done|]. cbn [length app Nat.add words_loop deref incr mbind res_bind].
  rewrite (proj2 (Z.eqb_neq c 0)), D, Sp, (proj2 (Z.eqb_neq c 40)) by done. cbn [orb]. apply IH.
Qed.

Lemma find_month_prefix w r : (3 <= length w)%nat -> findMonth (w ++ r) = findMonth w.
Proof.
  intros L. unfold findMonth. rewrite take_app_le by done. unfold zlen. rewrite length_app.
  rewrite !(proj2 (Z.ltb_ge _ 3)) by lia. done.
Qed.

(** A word of at least three characters and the space after it. *)
Lemma words_word w r fuel month : Forall word_char w -> (3 <= length w)%nat ->
  words_loop (length w + S fuel) month (w ++ 32 :: r) (w ++ 32 :: r) =
  words_loop fuel (findMonth w) (skipSpacesAndComments (32 :: r)) (skipSpacesAndComments (32 :: r)).
Proof.
  intros Hw L. rewrite words_skip by done. cbn [words_loop deref]. change (isASCIISpace 32) with true. change (isASCIIDigit 32) with false. cbn [Z.eqb orb].
  rewrite (proj2 (Z.leb_le 3 _)); [by rewrite find_month_prefix|]. unfold zlen. rewrite length_app. lia.
Qed.

Lemma words_digit ds n r fuel month start : numeral ds n -> words_loop (S fuel) month start (ds ++ r) = Ok (month, start, ds ++ r).
Proof. intros N. cbn [words_loop]. rewrite (proj2 (deref_numeral ds n r N)), orb_true_r. done. Qed.

Lemma skip_name w r : Forall word_char w -> w <> [] -> skipSpacesAndComments (w ++ r) = w ++ r /\ skipSpacesAndComments (32 :: w ++ r) = w ++ r.
Proof.
  intros Hw N. destruct Hw as [|c w (_ & _ & Sp & N40) _]; [done|]. unfold skipSpacesAndComments. cbn [app skip_loop].
  change (isASCIISpace 32) with true. cbv iota. rewrite Sp, (proj2 (Z.eqb_neq c 40)) by done. rewrite andb_false_r. done.
Qed.

(** The names of the months. *)
Definition month_word (name : StringImpl) (month : Z) : Prop :=
  Forall word_char name /\ length name = 3%nat /\ findMonth name = month /\
  Forall (fun c => negb (c =? 45) && negb (c =? 44) && negb (isASCIISpace c) = true) name.

Lemma month_names month : 0 <= month <= 11 -> exists name, monthName.[month] = Some name /\ month_word name month.
Proof.
  intros H. assert (month ∈ [0; 1; 2; 3; 4; 5; 6; 7; 8; 9; 10; 11]) as M by (rewrite !elem_of_cons, elem_of_nil; lia).
  assert (F : Forall (fun month => exists name, monthName.[month] = Some name /\ month_word name month) [0; 1; 2; 3; 4; 5; 6; 7; 8; 9; 10; 11]).
  { repeat constructor; eexists; (split; [reflexivity|]); (split; [repeat constructor; done|]); (split; [reflexivity|]); (split; [reflexivity|]); repeat constructor. }
  by apply (proj1 (Forall_forall _ _) F).
Qed.

Lemma drop_while_word (p : Z -> bool) l c r : Forall (fun c => p c = true) l -> p c = false -> drop_while p (l ++ c :: r) = c :: r.
Proof. induction 1 as [|d l Hd _ IH]; intros Hc; cbn [app drop_while]; [by rewrite Hc|]. rewrite Hd. by apply IH. Qed.

(** The month after the day, between spaces or hyphens. *)
Lemma parse_dm_name name month sep day r np : month_word name month -> 0 <= month -> sep = 32 \/ sep = 45 ->
  parse_dm (-1) day (sep :: name ++ sep :: r) np = Ok (Some (month, day, None, r, np)).
Proof.
  intros (W & L & F & H) Hm Hs. assert (Nn : name <> []) by (by destruct name).
  assert (Hc : (deref (name ++ sep :: r) =? 44) = false).
  { destruct H as [|c name Hc _]; [done|]. cbn [app deref]. apply andb_true_iff in Hc as [Hc _]. apply andb_true_iff in Hc as [_ Hc]. by destruct (c =? 44). }
  assert (T : forall s0, s0 = sep :: name ++ sep :: r \/ s0 = name ++ sep :: r -> sep = 32 \/ s0 = name ++ sep :: r ->
    skipSpacesAndComments s0 = name ++ sep :: r).
  { intros s0 [->| ->] [->|E]; try apply (skip_name name _ W Nn). rewrite E. apply (skip_name name _ W Nn). }
  unfold parse_dm. destruct Hs as [->| ->]; cbn [deref incr Z.eqb Pos.eqb mbind res_bind]; rewrite T by auto; rewrite Hc; cbn [mbind res_bind];
    rewrite find_month_prefix, F by lia; rewrite (proj2 (Z.eqb_neq month (-1))) by lia; rewrite drop_while_word by done; done.
Qed.

(** ** Dates that start with a weekday *)

Section weekday.
Context (w dd name : StringImpl) (day month : Z).
Hypotheses (Ww : Forall word_char w) (Lw : (3 <= length w)%nat) (Fw : findMonth w = -1).
Hypotheses (Nd : numeral dd day) (Hday : day <= 31) (Hname : month_word name month) (Hmonth : 0 <= month).

Lemma word_nonempty : w <> [].
Proof. intros ->. cbn in Lw. lia. Qed.

Lemma parse_day_numeral month0 c r : isASCIIDigit c = false -> c <> 47 -> parse_day month0 (dd ++ c :: r) = parse_dm month0 day (c :: r) (c :: r).
Proof.
  intros Dc Nc. pose proof (numeral_nonneg _ _ Nd). unfold parse_day. rewrite (parseLong_numeral dd day) by (done || lia).
  rewrite (proj2 (Z.ltb_ge day 0)), (proj2 (Z.ltb_ge 31 day)) by lia. cbn [negb deref]. by rewrite (proj2 (Z.eqb_neq c 47)) by done.
Qed.

Let after_words (month0 : Z) (r : StringImpl) : res (option (Time.double * bool)) :=
  '(month, day, year, dateString, newPosStr) ⇐ parse_day month0 (dd ++ r);
  parse_rest month day year dateString newPosStr.

(** The weekday and the day. *)
Lemma parse_date_day r : parse_date (w ++ 32 :: dd ++ r) = after_words (-1) r.
Proof.
  unfold parse_date. rewrite (proj1 (skip_name w _ Ww word_nonempty)).
  replace (S (length (w ++ 32 :: dd ++ r))) with (length w + S (S (length (dd ++ r))))%nat by (rewrite !length_app; cbn [length]; rewrite ?length_app; lia).
  rewrite words_word by done. rewrite (skip_space_numeral dd day) by done. rewrite Fw, (words_digit dd day) by done. cbn [mbind res_bind].
  rewrite same_place_refl. cbn [negb]. rewrite andb_false_r, (skip_numeral dd day), (proj1 (deref_numeral dd day r Nd)) by done. done.
Qed.

(** The weekday, the month and the day, after one or two spaces. *)
Lemma parse_date_month_day (pad : StringImpl) r : pad = [] \/ pad = [32] -> parse_date (w ++ 32 :: name ++ 32 :: pad ++ dd ++ r) = after_words month r.
Proof.
  intros Hp. destruct Hname as (W & L & F & _). assert (Nn : name <> []) by (by destruct name).
  unfold parse_date. rewrite (proj1 (skip_name w _ Ww word_nonempty)).
  replace (S (length (w ++ 32 :: name ++ 32 :: pad ++ dd ++ r))) with (length w + S (length name + S (S (length (pad ++ dd ++ r)))))%nat
    by (rewrite !length_app; cbn [length]; rewrite !length_app; cbn [length]; rewrite !length_app; lia).
  rewrite words_word by done. rewrite (proj2 (skip_name name _ W Nn)). rewrite words_word by (done || lia).
  assert (E : skipSpacesAndComments (32 :: pad ++ dd ++ r) = dd ++ r).
  { destruct Hp as [->| ->]; cbn [app]; [apply (skip_space_numeral dd day r Nd)|]. rewrite <- (skip_space_numeral dd day r Nd) at 2. done. }
  rewrite E, F, (words_digit dd day) by done. cbn [mbind res_bind].
  rewrite same_place_refl. cbn [negb]. rewrite andb_false_r, (skip_numeral dd day), (proj1 (deref_numeral dd day r Nd)) by done. done.
Qed.

Lemma parse_date_day_month sep r : sep = 32 \/ sep = 45 -> exists np,
  parse_date (w ++ 32 :: dd ++ sep :: name ++ sep :: r) = parse_rest month day None r np.
Proof.
  intros Hs. eexists. rewrite parse_date_day. unfold after_words. rewrite parse_day_numeral by (destruct Hs as [->| ->]; done).
  rewrite parse_dm_name with (month := month) by done. cbn [obind mbind res_bind]. done.
Qed.

Lemma parse_date_asctime (pad hh : StringImpl) h r : pad = [] \/ pad = [32] -> numeral hh h -> exists np,
  parse_date (w ++ 32 :: name ++ 32 :: pad ++ dd ++ 32 :: hh ++ r) = parse_rest month day None (hh ++ r) np.
Proof.
  intros Hp Nh. exists (32 :: hh ++ r). rewrite parse_date_month_day by done. unfold after_words. rewrite parse_day_numeral by done.
  unfold parse_dm. cbn [deref Z.eqb Pos.eqb mbind res_bind]. rewrite (skip_space_numeral hh h) by done.
  destruct (numeral_head _ _ Nh) as (c & hh' & -> & Hc). cbn [app deref]. destruct (digit_no_space c Hc) as (_ & _ & _ & _ & _ & _ & N44 & _).
  rewrite (proj2 (Z.eqb_neq c 44)), (proj2 (Z.eqb_neq month (-1))) by (done || lia). cbn [obind mbind res_bind]. done.
Qed.
End weekday.

(** ** Zones *)

Lemma gmt_zone : plain_start (lit "GMT") /\ parse_zone (lit "GMT") = Ok (Some (0, false, [])).
Proof. split; [|reflexivity]. repeat split; done. Qed.

Lemma four_digits n : 0 <= n <= 9999 -> numeral (appendTwoDigitNumber (Z.quot n 100) ++ appendTwoDigitNumber (Z.rem n 100)) n.
Proof.
  intros Hn. rewrite Z.quot_div_nonneg, Z.rem_mod_nonneg by lia. pose proof (Z.div_mod n 100 ltac:(lia)). pose proof (Z.mod_pos_bound n 100 ltac:(lia)).
  assert (0 <= n / 100 <= 99) by (split; [apply Z.div_pos; lia|]; assert (n / 100 < 100) by (apply Z.div_lt_upper_bound; lia); lia).
  destruct (two_digits (n / 100) ltac:(lia)) as (D1 & _ & V1 & _), (two_digits (n mod 100) ltac:(lia)) as (D2 & _ & V2 & _).
  split; [by apply Forall_app|]. split; [done|]. split; [|lia]. unfold decimal in *. rewrite foldl_app, V1.
  unfold appendTwoDigitNumber in *. cbn [foldl] in *. lia.
Qed.

(** Offsets of whole hours, and of at least 24 minutes, are read as they are printed. *)
Lemma offset_zone utc : Z.abs utc <= 5999 -> ~ 1 <= Z.abs utc <= 23 ->
  let z := (if 0 <? utc then lit "+" else lit "-") ++ appendTwoDigitNumber (Z.quot (Z.abs utc) 60) ++ appendTwoDigitNumber (Z.rem (Z.abs utc) 60) in
  plain_start z /\ parse_zone z = Ok (Some (utc, false, [])).
Proof.
  intros Hu Nu. cbv zeta. pose proof (Z.quot_rem (Z.abs utc) 60 ltac:(lia)) as E. pose proof (Z.rem_bound_pos (Z.abs utc) 60 ltac:(lia) ltac:(lia)).
  set (q := Z.quot (Z.abs utc) 60) in *. set (r := Z.rem (Z.abs utc) 60) in *. set (o := 100 * q + r).
  assert (Hq : 0 <= q <= 99) by lia. assert (Qo : Z.quot o 100 = q) by (symmetry; apply (Z.quot_unique o 100 q r); lia).
  assert (Ro : Z.rem o 100 = r) by (symmetry; apply (Z.rem_unique o 100 q r); lia).
  pose proof (four_digits o ltac:(lia)) as N. rewrite Qo, Ro in N. set (ds := appendTwoDigitNumber q ++ appendTwoDigitNumber r) in *.
  pose proof (fun neg => strtol_signed neg ds o [] N I ltac:(lia)) as S. rewrite app_nil_r in S.
  assert (P : forall neg : bool, parse_offset ((if neg then 45 else 43) :: ds) = Ok (Some ((if neg then -1 else 1) * Z.abs utc, []))).
  { intros neg. unfold parse_offset, parseInt. rewrite S. unfold same_place, zlen. cbn [length Z.eqb orb deref].
    rewrite (proj2 (Z.leb_gt _ INT_MIN)), (proj2 (Z.leb_gt INT_MAX _)) by (unfold INT_MIN, INT_MAX; destruct neg; lia). rewrite (proj2 (Z.eqb_neq (Z.of_nat _) 0)) by lia. cbn [orb].
    rewrite (proj2 (Z.ltb_ge _ (-9959))), (proj2 (Z.ltb_ge 9959 _)) by (destruct neg; lia). cbn [orb negb].
    replace (Z.abs (if neg then - o else o)) with o by (destruct neg; lia). rewrite Qo, Ro. do 3 f_equal.
    destruct (Z.leb_spec 24 o); destruct neg; destruct (Z.ltb_spec (if true then - o else o) 0); destruct (Z.ltb_spec o 0); cbn in *; nia. }
  unfold parse_zone, starts_with. destruct (Z.ltb_spec 0 utc).
  - change (lit "+" ++ ds) with (43 :: ds). split; [repeat split; done|]. cbn [deref Z.eqb Pos.eqb]. change (equalLetters ((43 :: ds) ++ [0]) (lit "gmt")) with (Ok false).
    change (equalLetters ((43 :: ds) ++ [0]) (lit "utc")) with (Ok false). cbn [mbind res_bind negb deref Z.eqb Pos.eqb orb].
    rewrite (P false). cbn [obind mbind res_bind]. do 4 f_equal. lia.
  - change (lit "-" ++ ds) with (45 :: ds). split; [repeat split; done|]. cbn [deref Z.eqb Pos.eqb]. change (equalLetters ((45 :: ds) ++ [0]) (lit "gmt")) with (Ok false).
    change (equalLetters ((45 :: ds) ++ [0]) (lit "utc")) with (Ok false). cbn [mbind res_bind negb deref Z.eqb Pos.eqb orb].
    rewrite (P true). cbn [obind mbind res_bind]. do 4 f_equal. lia.
Qed.

Lemma unsigned_text_numeral n : 0 <= n < 2 ^ 32 -> exists ds, unsigned_text n = Ok ds /\ numeral ds n.
Proof.
  intros Hn. destruct (number_digits_spec (4 * 3 + 1) n [] 10) as (size' & ds & E & D & Nn & V & _); [lia|lia|].
  exists ds. unfold unsigned_text. rewrite E. cbn [mbind res_bind]. rewrite app_nil_r. split; [done|]. split; [done|]. split; [done|]. split; [done|lia].
Qed.

(** ** The formats of RFC 2616, section 3.3.1 *)

Definition fullWeekdayName : list StringImpl :=
  [lit "Monday"; lit "Tuesday"; lit "Wednesday"; lit "Thursday"; lit "Friday"; lit "Saturday"; lit "Sunday"].

Definition four_digit_number (n : Z) : StringImpl := appendTwoDigitNumber (Z.quot n 100) ++ appendTwoDigitNumber (Z.rem n 100).
Definition clock_text (hour minute second : Z) (r : StringImpl) : StringImpl :=
  appendTwoDigitNumber hour ++ lit ":" ++ appendTwoDigitNumber minute ++ lit ":" ++ appendTwoDigitNumber second ++ lit " " ++ r.

Definition rfc1123_date (weekday name : StringImpl) (day year hour minute second : Z) : StringImpl :=
  weekday ++ lit ", " ++ appendTwoDigitNumber day ++ lit " " ++ name ++ lit " " ++ four_digit_number year ++ lit " " ++ clock_text hour minute second (lit "GMT").
Definition rfc850_date (weekday name : StringImpl) (day year hour minute second : Z) : StringImpl :=
  weekday ++ lit ", " ++ appendTwoDigitNumber day ++ lit "-" ++ name ++ lit "-" ++ appendTwoDigitNumber (Z.rem year 100) ++ lit " " ++ clock_text hour minute second (lit "GMT").
Definition asctime_date (weekday name : StringImpl) (day year hour minute second : Z) : StringImpl :=
  weekday ++ lit " " ++ name ++ lit " " ++ (if day <? 10 then lit " " ++ [48 + day] else appendTwoDigitNumber day) ++ lit " "
    ++ clock_text hour minute second (four_digit_number year).

(** Weekdays, with and without a comma, are words but no months. *)
Lemma weekday_words (tail : StringImpl) : tail = [] \/ tail = [44] -> forall w, w ∈ weekdayName ++ fullWeekdayName ->
  Forall word_char (w ++ tail) /\ (3 <= length (w ++ tail))%nat /\ findMonth (w ++ tail) = -1.
Proof.
  intros Ht. apply Forall_forall. destruct Ht as [->| ->];
    (repeat constructor; cbn; repeat (split || constructor); try done; cbn; lia).
Qed.

Lemma one_digit d : 0 <= d <= 9 -> numeral [48 + d] d.
Proof.
  intros Hd. split; [|split; [done|split; [unfold decimal; cbn [foldl]; lia|lia]]].
  constructor; [|constructor]. unfold isASCIIDigit. rewrite !(proj2 (Z.leb_le _ _)) by lia. done.
Qed.

Section formats.
Context (month day year hour minute second : Z) (name : StringImpl).
Hypotheses (Hname : monthName.[month] = Some name) (Hmonth : 0 <= month <= 11) (Hday : 1 <= day <= 31).
Hypotheses (Hhour : 0 <= hour <= 23) (Hminute : 0 <= minute <= 59) (Hsecond : 0 <= second <= 59).
Let instant : Time.double := Time.of_int (1000 * epoch_seconds year month day hour minute second).

Lemma the_month : month_word name month.
Proof. destruct (month_names month Hmonth) as (n & E & W). rewrite Hname in E. by injection E as <-. Qed.

Lemma zero_offset y : full_year (Some y) = year ->
  Time.of_int (1000 * (epoch_seconds (full_year (Some y)) month day hour minute second - 60 * 0)) = instant.
Proof. intros ->. unfold instant. do 2 f_equal. lia. Qed.

Lemma full_year_four : 100 <= year -> full_year (Some year) = year.
Proof. intros Hy. unfold full_year. rewrite (proj2 (Z.ltb_ge year 100)) by lia. by rewrite andb_false_r. Qed.

Lemma full_year_two : 1950 <= year <= 2049 -> full_year (Some (Z.rem year 100)) = year.
Proof.
  intros Hy. rewrite Z.rem_mod_nonneg by lia. pose proof (Z.mod_pos_bound year 100 ltac:(lia)). unfold full_year.
  rewrite (proj2 (Z.leb_le _ _)), (proj2 (Z.ltb_lt _ 100)) by lia. cbn [andb].
  destruct (Z.ltb_spec (year mod 100) 50); Z.div_mod_to_equations; lia.
Qed.

Lemma rfc1123_parses w : w ∈ weekdayName ++ fullWeekdayName -> 100 <= year <= 9999 ->
  parse_date (rfc1123_date w name day year hour minute second) = Ok (Some (instant, false)).
Proof.
  intros Hw Hy. destruct (weekday_words [44] (or_intror eq_refl) w Hw) as (W & L & F).
  unfold rfc1123_date. change (lit ", " ++ ?r) with ([44] ++ 32 :: r). rewrite app_assoc.
  destruct (parse_date_day_month (w ++ [44]) (appendTwoDigitNumber day) name day month W L F (two_digits day ltac:(lia)) ltac:(lia) the_month ltac:(lia) 32
    (four_digit_number year ++ lit " " ++ clock_text hour minute second (lit "GMT")) (or_introl eq_refl)) as [np E].
  etransitivity; [exact E|]. rewrite <- (zero_offset year) by (apply full_year_four; lia).
  apply parse_rest_zone; try apply gmt_zone; try apply two_digits; try apply four_digits; rewrite ?full_year_four; try lia. unfold INT_MAX. lia.
Qed.

Lemma rfc850_parses w : w ∈ weekdayName ++ fullWeekdayName -> 1950 <= year <= 2049 ->
  parse_date (rfc850_date w name day year hour minute second) = Ok (Some (instant, false)).
Proof.
  intros Hw Hy. destruct (weekday_words [44] (or_intror eq_refl) w Hw) as (W & L & F). pose proof (Z.rem_bound_pos year 100 ltac:(lia) ltac:(lia)).
  unfold rfc850_date. change (lit ", " ++ ?r) with ([44] ++ 32 :: r). rewrite app_assoc.
  destruct (parse_date_day_month (w ++ [44]) (appendTwoDigitNumber day) name day month W L F (two_digits day ltac:(lia)) ltac:(lia) the_month ltac:(lia) 45
    (appendTwoDigitNumber (Z.rem year 100) ++ lit " " ++ clock_text hour minute second (lit "GMT")) (or_intror eq_refl)) as [np E].
  etransitivity; [exact E|]. rewrite <- (zero_offset (Z.rem year 100)) by (apply full_year_two; lia).
  apply parse_rest_zone; try apply gmt_zone; try apply two_digits; rewrite ?full_year_two; try lia. unfold INT_MAX. lia.
Qed.

Lemma asctime_parses w : w ∈ weekdayName ++ fullWeekdayName -> 100 <= year <= 9999 ->
  parse_date (asctime_date w name day year hour minute second) = Ok (Some (instant, true)).
Proof.
  intros Hw Hy. destruct (weekday_words [] (or_introl eq_refl) w Hw) as (W & L & F). rewrite app_nil_r in W, L, F.
  assert (exists pad dd, (if day <? 10 then lit " " ++ [48 + day] else appendTwoDigitNumber day) = pad ++ dd /\ (pad = [] \/ pad = [32]) /\ numeral dd day)
    as (pad & dd & Ep & Hp & Nd).
  { destruct (Z.ltb_spec day 10); [exists [32], [48 + day]|exists [], (appendTwoDigitNumber day)]; (split; [done|]); (split; [auto|]);
      [apply one_digit|apply two_digits]; lia. }
  unfold asctime_date. rewrite Ep, <- (app_assoc pad dd).
  destruct (parse_date_asctime w dd name day month W L F Nd ltac:(lia) the_month ltac:(lia) pad (appendTwoDigitNumber hour) hour
    (lit ":" ++ appendTwoDigitNumber minute ++ lit ":" ++ appendTwoDigitNumber second ++ lit " " ++ four_digit_number year) Hp (two_digits hour ltac:(lia))) as [np E].
  etransitivity; [exact E|]. rewrite <- (zero_offset year) by (apply full_year_four; lia).
  apply parse_rest_year_last; try apply two_digits; try apply four_digits; rewrite ?full_year_four; try lia. unfold INT_MAX. lia.
Qed.
End formats.

(** C28: the formats of HTTP dates are read: a date in the format of RFC 1123 (years 100 to
    9999) or of RFC 850 (two digits for the years 1950 to 2049) with any weekday is the number of
    milliseconds since 1970 that counting the days of the years one by one gives, whatever the
    local time zone.  A date in the third format, that of asctime, has no zone and is taken as
    local time: the offset of the local zone is subtracted from the same number. *)
Theorem http_date_parses `{LocalTime} (month day year hour minute second : Z) (name w : StringImpl) :
  monthName.[month] = Some name -> 0 <= month <= 11 -> 1 <= day <= 31 -> 100 <= year <= 9999 ->
  0 <= hour <= 23 -> 0 <= minute <= 59 -> 0 <= second <= 59 -> w ∈ weekdayName ++ fullWeekdayName ->
  let instant := Time.of_int (1000 * epoch_seconds year month day hour minute second) in
  parseDateFromNullTerminatedCharacters (rfc1123_date w name day year hour minute second) = Ok instant /\
  (1950 <= year <= 2049 -> parseDateFromNullTerminatedCharacters (rfc850_date w name day year hour minute second) = Ok instant) /\
  parseDateFromNullTerminatedCharacters (asctime_date w name day year hour minute second) =
    Ok (Time.minus instant (Time.of_int (localTimeOffset instant))).
Proof.
  intros Hn Hm Hd Hy Hh Hi Hs Hw. unfold parseDateFromNullTerminatedCharacters.
  rewrite (rfc1123_parses month), (asctime_parses month) by done. split; [done|]. split; [|done].
  intros Hy2. by rewrite (rfc850_parses month) by done.
Qed.

(** The example of RFC 2616 in its three forms, in a zone one hour east of Greenwich. *)
Lemma http_date_parses_witness :
  let zone := {| localTimeOffset := fun _ => 3600000 |} in
  @parseDateFromNullTerminatedCharacters zone (lit "Sun, 06 Nov 1994 08:49:37 GMT") = Ok (Time.of_int 784111777000) /\
  @parseDateFromNullTerminatedCharacters zone (lit "Sun, 06-Nov-94 08:49:37 GMT") = Ok (Time.of_int 784111777000) /\
  @parseDateFromNullTerminatedCharacters zone (lit "Sun Nov  6 08:49:37 1994") = Ok (Time.of_int (784111777000 - 3600000)).
Proof.
  intros zone. pose proof (@http_date_parses zone 10 6 1994 8 49 37 (lit "Nov") (lit "Sun")) as T.
  destruct T as (A & B & C); [reflexivity|lia|lia|lia|lia|lia|lia|by apply (bool_decide_unpack _)|].
  assert (E : epoch_seconds 1994 10 6 8 49 37 = 784111777) by (unfold epoch_seconds, day_number; rewrite !days_of_years_closed; reflexivity).
  rewrite E in A, B, C. split; [exact A|]. split; [apply B; lia|]. rewrite <- Double.minus_int by lia. exact C.
Defined.

(** C29: what [makeRFC2822DateString] prints for a date from the year 100 on (a year of two digits
    is read as one of this or the last century), a time and an offset is read back as the instant that the date denotes in that zone, in milliseconds
    since 1970, whatever the local time zone.  The printed offset may be anything up to 99 hours and 59 minutes but
    not between 1 and 23 minutes, which the parser takes for hours. *)
Theorem rfc2822_roundtrip `{LocalTime} (dayOfWeek day month year hours minutes seconds utcOffset : Z) :
  0 <= dayOfWeek <= 6 -> 1 <= day <= 31 -> 0 <= month <= 11 -> 100 <= year <= 200000 ->
  0 <= hours <= 23 -> 0 <= minutes <= 59 -> 0 <= seconds <= 59 -> Z.abs utcOffset <= 5999 -> ~ 1 <= Z.abs utcOffset <= 23 ->
  exists text, makeRFC2822DateString dayOfWeek day month year hours minutes seconds utcOffset = Ok text /\
    parseDateFromNullTerminatedCharacters text = Ok (Time.of_int (1000 * (epoch_seconds year month day hours minutes seconds - 60 * utcOffset))).
Proof.
  intros Hw Hd Hm Hy Hh Hi Hs Hu Nu.
  assert (exists w, weekdayName.[dayOfWeek] = Some w /\ w ∈ weekdayName ++ fullWeekdayName) as (w & Ew & Iw).
  { destruct (lookup_lt_is_Some_2 weekdayName (Z.to_nat dayOfWeek)) as [w Ew]; [cbn; lia|]. exists w.
    split; [unfold zlookup; by rewrite (proj2 (Z.leb_le 0 dayOfWeek)) by lia|]. apply elem_of_app; left. by apply list_elem_of_lookup_2 in Ew. }
  destruct (month_names month Hm) as (name & En & Wn). destruct (unsigned_text_numeral day ltac:(lia)) as (dd & Ed & Nd).
  destruct (unsigned_text_numeral year ltac:(lia)) as (yy & Ey & Ny). destruct (offset_zone utcOffset Hu Nu) as [Pz Ez].
  unfold makeRFC2822DateString. rewrite Ew, En. cbn [or_ub mbind res_bind]. rewrite Ed. cbn [mbind res_bind]. rewrite Ey. cbn [mbind res_bind].
  eexists. split; [reflexivity|]. unfold parseDateFromNullTerminatedCharacters.
  destruct (weekday_words [44] (or_intror eq_refl) w Iw) as (W & L & F).
  set (z := (if 0 <? utcOffset then lit "+" else lit "-") ++ _) in *.
  change (lit ", " ++ ?r) with ([44] ++ 32 :: r). rewrite app_assoc.
  destruct (parse_date_day_month (w ++ [44]) dd name day month W L F Nd ltac:(lia) Wn ltac:(lia) 32 (yy ++ 32 :: clock_text hours minutes seconds z) (or_introl eq_refl)) as [np E].
  assert (G : parse_date ((w ++ [44]) ++ 32 :: dd ++ 32 :: name ++ 32 :: yy ++ 32 :: clock_text hours minutes seconds z) =
    Ok (Some (Time.of_int (1000 * (epoch_seconds (full_year (Some year)) month day hours minutes seconds - 60 * utcOffset)), false))).
  { rewrite E. apply parse_rest_zone; try done; try apply two_digits; rewrite ?full_year_four; try lia. unfold INT_MAX. lia. }
  etransitivity; [apply (f_equal (fun x => mbind _ x)); exact G|]. cbn [mbind res_bind]. by rewrite full_year_four by lia.
Qed.

(** A date in the year 2024 with an offset of minus 210 minutes. *)
Lemma rfc2822_roundtrip_witness : exists text, makeRFC2822DateString 3 29 1 2024 23 59 59 (-210) = Ok text /\
  @parseDateFromNullTerminatedCharacters {| localTimeOffset := fun _ => 0 |} text = Ok (Time.of_int (1000 * (epoch_seconds 2024 1 29 23 59 59 - 60 * -210))).
Proof. apply (@rfc2822_roundtrip {| localTimeOffset := fun _ => 0 |} 3 29 1 2024 23 59 59 (-210)); lia. Defined.

(** ** The day of the year *)

(** The month and the day in the month are those whose day in the year is the given one. *)
Definition day_found (leap : bool) (d : Z) : bool :=
  let month := monthFromDayInYear d leap in let day := dayInMonthFromDayInYear d leap in
  match (firstDayOfMonth leap).[month] with
  | Some first => (first + day - 1 =? d) && (1 <=? day) && (if month <? 11 then match (firstDayOfMonth leap).[month + 1] with Some next => d <? next | None => false end else true)
  | None => false
  end.

Lemma day_found_all leap : forallb (day_found leap) (seqZ 0 (365 + Z.b2z leap)) = true.
Proof. by destruct leap; vm_compute. Qed.

(** Months and days from the day of the year: for every day of a year the month and
    the day in the month that are computed lead back to it, and the day lies before the next month. *)
Theorem calendar_inverse year d : 0 <= d < daysInYear year ->
  let month := monthFromDayInYear d (isLeapYear year) in let day := dayInMonthFromDayInYear d (isLeapYear year) in
  dayInYear year month day = Ok d /\ 1 <= day /\ 0 <= month <= 11 /\ (forall next, (firstDayOfMonth (isLeapYear year)).[month + 1] = Some next -> d < next).
Proof.
  intros Hd. cbv zeta. unfold dayInYear, daysInYear in *. set (leap := isLeapYear year) in *. clearbody leap.
  assert (I : d ∈ seqZ 0 (365 + Z.b2z leap)) by (apply elem_of_seqZ; lia).
  pose proof (proj1 (forallb_forall _ _) (day_found_all leap) d (proj1 (list_elem_of_In _ _) I)) as F. unfold day_found in F.
  set (month := monthFromDayInYear d leap) in *. set (day := dayInMonthFromDayInYear d leap) in *. clearbody month day.
  destruct ((firstDayOfMonth leap).[month]) as [first|] eqn:E; [|done]. apply andb_true_iff in F as [F N]. apply andb_true_iff in F as [F D]. zb.
  assert (M : 0 <= month <= 11).
  { unfold zlookup in E. destruct (Z.leb_spec 0 month); [|done]. apply lookup_lt_Some in E. destruct leap; cbn in E; lia. }
  cbn [or_ub mbind res_bind]. split; [f_equal; lia|]. split; [lia|]. split; [done|]. intros next Hn.
  destruct (Z.ltb_spec month 11); [rewrite Hn in N; zb; lia|]. replace month with 11 in Hn by lia. by destruct leap.
Qed.

(** ** What goes wrong *)

(** An offset of ten minutes is printed as "+0010" and read as ten hours. *)
Lemma small_offset_read_as_hours :
  makeRFC2822DateString 3 29 1 2024 12 0 0 10 = Ok (lit "Thu, 29 Feb 2024 12:00:00 +0010") /\
  parse_date (lit "Thu, 29 Feb 2024 12:00:00 +0010") = Ok (Some (Time.of_int (1000 * (1709208000 - 60 * 600)), false)).
Proof. split; vm_compute; reflexivity. Qed.

(** The largest [long] but one as the day overflows, as does the largest [int] but one as the minutes of an offset. *)
Lemma huge_numbers_overflow :
  parse_date (lit "2000/2/9223372036854775806") = UB /\ parse_date (lit "1 Jan 2000 00:00 GMT+99:2147483646") = UB.
Proof. split; vm_compute; reflexivity. Qed.
End DateProps.
