(* ===== verification/HttpDateProps.v ===== *)
(** * Ages and lifetimes from the dates of a response

    [HttpResponse] takes the parser of dates from its platform; the class [ParsesDates] says
    that it is the one of [WtfDates].  Against that interface, the values that
    [computeFreshnessLifetimeForHTTPFamily] and [computeCurrentAge] find from the Date and Expires
    headers are exact numbers of seconds. *)
From Stdlib Require Ascii String.
Import String.StringSyntax.
From stdpp Require Import gmap fin_maps.
From S2P Require Import Prelude WtfString HttpNames HttpHeaders HttpHeaderProps HttpHeaderCoders HttpParsers HttpRange HttpCache HttpCacheProps HttpResponse HttpValidation HttpResponseProps WtfDouble WtfDates WtfDateProps.

Local Open Scope cf.

(** The text of a header is given to the parser as a null-terminated UTF-8 text, which for
    ASCII characters other than zero is the same characters. *)
Class ParsesDates `{Platform} `{LocalTime} : Prop :=
  parses_dates : forall text value, Forall (fun c => 0 < c < 128) text ->
    Dates.parseDateFromNullTerminatedCharacters text = Ok value -> parseDateFromCharacters text = value.

Module HttpDateProps.
Import Str Names Headers HeaderProps Parsers Range Cache CacheProps Response Validation ResponseProps Dates DateProps.

(** ** Dates as HTTP writes them *)

Record CivilTime := mkCivil { c_year : Z; c_month : Z; c_day : Z; c_hour : Z; c_minute : Z; c_second : Z }.

Definition valid_civil (t : CivilTime) : Prop :=
  100 <= c_year t <= 9999 /\ 0 <= c_month t <= 11 /\ 1 <= c_day t <= 31 /\ 0 <= c_hour t <= 23 /\ 0 <= c_minute t <= 59 /\ 0 <= c_second t <= 59.

Definition civil_seconds (t : CivilTime) : Z := epoch_seconds (c_year t) (c_month t) (c_day t) (c_hour t) (c_minute t) (c_second t).
Definition http_date (w : StringImpl) (t : CivilTime) : StringImpl :=
  rfc1123_date w (default [] (monthName.[c_month t])) (c_day t) (c_year t) (c_hour t) (c_minute t) (c_second t).

Lemma civil_bounds t : valid_civil t -> Z.abs (civil_seconds t) <= 8640000000000.
Proof. intros (Y & M & D & H & I & S). apply ymdhmsToSeconds_exact; lia. Qed.

Definition plain_text (l : StringImpl) : Prop := Forall (fun c => 0 < c < 128) l.

Lemma numeral_plain ds n : numeral ds n -> plain_text ds.
Proof. intros (D & _). eapply Forall_impl; [exact D|]. intros c Hc. pose proof (digit_range c Hc). cbn. lia. Qed.

Lemma names_plain : Forall plain_text (weekdayName ++ fullWeekdayName) /\ Forall plain_text monthName.
Proof. split; apply (bool_decide_unpack _); vm_compute; exact I. Qed.

Lemma http_date_plain w t : valid_civil t -> w ∈ weekdayName ++ fullWeekdayName -> plain_text (http_date w t).
Proof.
  intros (Y & M & D & H & I & S) Hw. destruct (month_names _ M) as (name & En & _). unfold http_date. rewrite En. cbn [default from_option id].
  assert (Pn : plain_text name).
  { apply (proj1 (Forall_forall _ _) (proj2 names_plain)). unfold zlookup in En. destruct (0 <=? c_month t); [|done]. by eapply list_elem_of_lookup_2. }
  pose proof (proj1 (Forall_forall _ _) (proj1 names_plain) w Hw) as Pw.
  unfold rfc1123_date, clock_text, four_digit_number. unfold plain_text in *.
  rewrite !Forall_app. split_and!; try done; try (apply (bool_decide_unpack _); vm_compute; exact Logic.I);
    try (eapply numeral_plain, two_digits; lia).
  - eapply numeral_plain, two_digits. rewrite Z.quot_div_nonneg by lia. split; [apply Z.div_pos; lia|]. apply Zlt_succ_le, Z.div_lt_upper_bound; lia.
  - eapply numeral_plain, two_digits. pose proof (Z.rem_bound_pos (c_year t) 100 ltac:(lia) ltac:(lia)). lia.
Qed.

Lemma http_date_not_empty w t : isEmpty (Some (http_date w t)) = false.
Proof. unfold http_date, rfc1123_date, isEmpty. destruct w; done. Qed.

Section dates.
Context `{Platform} `{Dtoa} `{ICU} `{LocalTime} `{!ParsesDates}.
Implicit Types (g : gmap String String) (r : ResourceResponse).

(** The date of a header, in seconds. *)
Lemma parseHTTPDate_exact w t : valid_civil t -> w ∈ weekdayName ++ fullWeekdayName -> parseHTTPDate (http_date w t) = Some (Time.of_int (civil_seconds t)).
Proof.
  intros V Hw. pose proof (civil_bounds t V). pose proof V as (Y & M & D & Hh & I & S). unfold parseHTTPDate.
  rewrite (parses_dates (http_date w t) (Time.of_int (1000 * civil_seconds t))).
  - rewrite (proj2 (Double.of_int_number (1000 * civil_seconds t) ltac:(lia))). cbn [negb]. rewrite Z.mul_comm, Double.over_exact by lia. done.
  - by apply http_date_plain.
  - destruct (month_names _ M) as (name & En & _). unfold http_date. rewrite En. cbn [default from_option id]. unfold parseDateFromNullTerminatedCharacters.
    rewrite (rfc1123_parses (c_month t)) by done. done.
Qed.

Lemma spec_date_exact g h w t : g !! header_key h = Some (Some (http_date w t)) -> valid_civil t -> w ∈ weekdayName ++ fullWeekdayName ->
  Time.as_optional (Time.markable (spec_date h g)) = Some (Time.of_int (civil_seconds t)).
Proof.
  intros E V Hw. unfold spec_date, value_of. rewrite E. cbn [default from_option id]. rewrite http_date_not_empty. change (chars (Some (http_date w t))) with (http_date w t).
  rewrite parseHTTPDate_exact by done. pose proof (civil_bounds t V). unfold Time.as_optional, Time.is_set. cbn [Time.markable].
  by rewrite (proj1 (Double.of_int_number (civil_seconds t) ltac:(lia))).
Qed.

(** ** Freshness *)

Lemma max_int a b : Z.abs a < 2 ^ 53 -> Z.abs b < 2 ^ 53 -> Time.max (Time.of_int a) (Time.of_int b) = Time.of_int (Z.max a b).
Proof. intros Ha Hb. unfold Time.max. rewrite Double.less_int by done. destruct (Z.ltb_spec a b); f_equal; lia. Qed.

(** Reading the date leaves the age and the headers. *)
Lemma date_keeps r r' x : date r = Ok (r', x) -> m_age r' = m_age r /\ m_httpHeaderFields r' = m_httpHeaderFields r.
Proof.
  unfold date. destruct (have (m_date r)); [by intros [= <- _]|].
  destruct (parseDateValueInHeader _ _); [|done..]. cbn [mbind res_bind]. by intros [= <- _].
Qed.

Section freshness.
Context r g (R : represents r g) (Hsize : Z.of_nat (base.size g) < 2 ^ 31).
Context (wd : StringImpl) (d : CivilTime) (Vd : valid_civil d) (Wd : wd ∈ weekdayName ++ fullWeekdayName).
Hypothesis Hdate : g !! header_key H_Date = Some (Some (http_date wd d)).

Lemma few_entries r' : represents r' g -> entries (m_httpHeaderFields r') < 2 ^ 31.
Proof. intros [Rm _]. by rewrite (rep_entries _ _ Rm). Qed.

Lemma lifetime_exact we e responseTime : valid_civil e -> we ∈ weekdayName ++ fullWeekdayName ->
  isInHTTPFamily r = true -> g !! header_key H_CacheControl = None -> g !! header_key H_Pragma = None ->
  g !! header_key H_Expires = Some (Some (http_date we e)) ->
  exists r', computeFreshnessLifetimeForHTTPFamily r responseTime = Ok (r', Time.of_int (civil_seconds e - civil_seconds d)).
Proof.
  intros Ve We Hf Hc Hp He. unfold computeFreshnessLifetimeForHTTPFamily, cacheControlMaxAge. rewrite Hf. cbn [negb].
  pose proof (directives_sim r g R (few_entries r R) (fun d => Time.as_optional (maxAge d))) as S1.
  assert (Ed : spec_directives g = Ok (set_noCache false CacheControlDirectives_new))
    by (unfold spec_directives, value_of; by rewrite Hc, Hp). rewrite Ed in S1. destruct S1 as (r1 & E1 & R1).
  rewrite E1. cbn [mbind res_bind].
  pose proof (date_sim r1 g R1 (few_entries r1 R1)) as S2. rewrite (spec_date_exact g H_Date wd d) in S2 by done. destruct S2 as (r2 & E2 & R2).
  change (maxAge (set_noCache false CacheControlDirectives_new)) with Time.nan. cbn [Time.as_optional Time.is_set Time.isnan Time.nan negb].
  rewrite E2. cbn [mbind res_bind default from_option id].
  pose proof (expires_sim r2 g R2 (few_entries r2 R2)) as S3. rewrite (spec_date_exact g H_Expires we e) in S3 by done. destruct S3 as (r3 & E3 & R3).
  rewrite E3. cbn [mbind res_bind]. exists r3. pose proof (civil_bounds d Vd). pose proof (civil_bounds e Ve).
  rewrite Double.minus_int by lia. done.
Qed.

Lemma current_age_exact responseTime now : m_age r = mkCached false Time.nan -> g !! header_key H_Age = None ->
  Z.abs responseTime <= 2 ^ 40 -> Z.abs now <= 2 ^ 40 ->
  exists r', computeCurrentAge r (Time.of_int responseTime) (Time.of_int now) =
    Ok (r', Time.of_int (Z.max 0 (responseTime - civil_seconds d) + (now - responseTime))).
Proof.
  intros Ha Hg Ht Hn. unfold computeCurrentAge. pose proof (date_sim r g R (few_entries r R)) as S2.
  rewrite (spec_date_exact g H_Date wd d) in S2 by done. destruct S2 as (r2 & E2 & R2). destruct (date_keeps _ _ _ E2) as [K _]. rewrite E2. cbn [mbind res_bind].
  unfold age. rewrite K, Ha. cbn [have parsed]. rewrite (header_value r2 g R2 (few_entries r2 R2)).
  unfold value_of. rewrite Hg. cbn [default from_option id mbind res_bind toDouble Time.as_optional Time.is_set Time.isnan Time.nan negb].
  eexists. pose proof (civil_bounds d Vd). change Time.zero with (Time.of_int 0). rewrite Double.minus_int by lia. rewrite max_int by lia.
  rewrite max_int by lia. rewrite Double.minus_int by lia. rewrite Double.plus_int by lia. do 3 f_equal. lia.
Qed.
End freshness.

(** C27: freshness is computed exactly from HTTP dates: a response of the HTTP family that has a
    Date and an Expires header in the RFC 1123 format and neither Cache-Control nor Pragma is fresh for the
    seconds between the two dates, whenever it was received; and without an Age header its current
    age at [now] is the time since it was received plus, if it was received later
    than its date, the time between. *)
Theorem freshness_exact r g (wd we : StringImpl) (d e : CivilTime) (responseTime now : Z) :
  represents r g -> Z.of_nat (base.size g) < 2 ^ 31 -> isInHTTPFamily r = true ->
  valid_civil d -> valid_civil e -> wd ∈ weekdayName ++ fullWeekdayName -> we ∈ weekdayName ++ fullWeekdayName ->
  g !! header_key H_Date = Some (Some (http_date wd d)) -> g !! header_key H_Expires = Some (Some (http_date we e)) ->
  g !! header_key H_CacheControl = None -> g !! header_key H_Pragma = None -> g !! header_key H_Age = None ->
  m_age r = mkCached false Time.nan -> Z.abs responseTime <= 2 ^ 40 -> Z.abs now <= 2 ^ 40 ->
  exists r1 r2,
    computeFreshnessLifetimeForHTTPFamily r (Time.of_int responseTime) = Ok (r1, Time.of_int (civil_seconds e - civil_seconds d)) /\
    computeCurrentAge r (Time.of_int responseTime) (Time.of_int now) =
      Ok (r2, Time.of_int (Z.max 0 (responseTime - civil_seconds d) + (now - responseTime))).
Proof.
  intros R Hs Hf Vd Ve Wd We Hd He Hc Hp Ha Hg Ht Hn.
  destruct (lifetime_exact r g R Hs wd d Vd Wd Hd we e (Time.of_int responseTime)) as [r1 E1]; try done.
  destruct (current_age_exact r g R Hs wd d Vd Wd Hd responseTime now) as [r2 E2]; try done. by exists r1, r2.
Qed.
End dates.

(** ** A platform with this parser *)

Definition dated_platform `{LocalTime} : Platform := {|
  URL := list Z; emptyURL := []; url_string := id; protocolIsInHTTPFamily l := bool_decide (take 4 l = lit "http");
  parseDateFromCharacters l := match parseDateFromNullTerminatedCharacters l with Ok v => v | _ => Time.nan end; walk := id |}.

#[export] Instance dated_platform_parses `{LocalTime} : @ParsesDates dated_platform _.
Proof. intros text value _ E. change (match parseDateFromNullTerminatedCharacters text with Ok v => v | _ => Time.nan end = value). by rewrite E. Qed.

Definition greenwich : LocalTime := {| localTimeOffset := fun _ => 0 |}.
Definition sample_dates : list (@ROp (@dated_platform greenwich)) :=
  [@RSetURL (@dated_platform greenwich) (lit "http://a/"); RSet H_Date (Some (lit "Thu, 29 Feb 2024 23:59:59 GMT")); RSet H_Expires (Some (lit "Fri, 01 Mar 2024 00:10:00 GMT"))].

(** Received five seconds late and kept for an hour: 601 seconds of life, an age of 3605. *)
Lemma freshness_exact_witness :
  exists r r1 r2, run (@response_op (@dated_platform greenwich) digits_dtoa plain_icu) sample_dates ResourceResponse_new = Ok (r, [RNothing; RNothing; RNothing]) /\
    @computeFreshnessLifetimeForHTTPFamily (@dated_platform greenwich) digits_dtoa r (Time.of_int 1709251204) = Ok (r1, Time.of_int 601) /\
    @computeCurrentAge (@dated_platform greenwich) digits_dtoa r (Time.of_int 1709251204) (Time.of_int 1709254804) = Ok (r2, Time.of_int 3605).
Proof.
  set (P := @dated_platform greenwich). set (d := mkCivil 2024 1 29 23 59 59). set (e := mkCivil 2024 2 1 0 10 0).
  assert (Hv : Forall (@valid_rop P) sample_dates)
    by (repeat (apply List.Forall_cons; [try exact I; unfold valid_rop, fits; by vm_compute|]); apply List.Forall_nil).
  pose proof (@response_run P digits_dtoa plain_icu sample_dates _ ∅ (@new_represents P digits_dtoa plain_icu) Hv) as S. rewrite map_size_empty in S. specialize (S ltac:(done)).
  set (g := <[header_key H_Expires := Some (http_date (lit "Fri") e)]> (<[header_key H_Date := Some (http_date (lit "Thu") d)]> (∅ : gmap String String))).
  assert (Eg : run (@headers_op P digits_dtoa plain_icu) sample_dates ∅ = Ok (g, [RNothing; RNothing; RNothing])) by (vm_compute; reflexivity).
  rewrite Eg in S. destruct S as (r & E & R).
  assert (F : match run (@response_op P digits_dtoa plain_icu) sample_dates ResourceResponse_new with
    Ok (r, _) => isInHTTPFamily r = true /\ m_age r = mkCached false Time.nan | _ => False end) by (vm_compute; done).
  rewrite E in F. destruct F as [F A].
  assert (Bd : civil_seconds d = 1709251199) by (unfold civil_seconds, epoch_seconds, day_number; rewrite !days_of_years_closed; reflexivity).
  assert (Be : civil_seconds e = 1709251800) by (unfold civil_seconds, epoch_seconds, day_number; rewrite !days_of_years_closed; reflexivity).
  destruct (@freshness_exact P digits_dtoa plain_icu greenwich _ r g (lit "Thu") (lit "Fri") d e 1709251204 1709254804 R) as (r1 & r2 & L & C);
    [by vm_compute|exact F|unfold valid_civil; cbn; lia|unfold valid_civil; cbn; lia|by apply (bool_decide_unpack _)|by apply (bool_decide_unpack _)
    |vm_compute; reflexivity|vm_compute; reflexivity|vm_compute; reflexivity|vm_compute; reflexivity|vm_compute; reflexivity|exact A|lia|lia|].
  rewrite Bd, Be in L. rewrite Bd in C. change (1709251800 - 1709251199) with 601 in L.
  change (Z.max 0 (1709251204 - 1709251199) + (1709254804 - 1709251204)) with 3605 in C.
  exact (ex_intro _ r (ex_intro _ r1 (ex_intro _ r2 (conj E (conj L C))))).
Defined.
End HttpDateProps.
